(* ===== verification/_CoqProject ===== *)
-Q . S2P
Prelude.v
Effects.v
XArray.v
CmdDb.v
RpmhRsc.v
TcsImage.v
TcsActive.v
Rpmh.v
RpmhPm.v
Smem.v
GlinkSmem.v
GlinkTransport.v
Glink.v
GlinkTx.v
GlinkRx.v
GlinkData.v
GlinkOpen.v
GlinkLink.v
GlinkDemo.v
Smp2p.v
QmiEncdec.v
Qrtr.v
QrtrNs.v
QrtrPkt.v
AfQrtr.v
QrtrInv.v
QrtrSafe.v
QrtrOps.v
QrtrTerm.v
QrtrThm.v
QrtrFlow.v
QrtrRound.v
QrtrDemo.v
QmiInterface.v
QmiInv.v
QmiSafe.v
QmiRecv.v
QmiOps.v
QmiThm.v
QmiRound.v
QmiDemo.v
PgAlloc.v
IoPgtable.v
PtBits.v
PtInv.v
PtTree.v
PtState.v
PtMap.v
PtLeaf.v
PtMapPages.v
PtFree.v
PtCut.v
PtUnmap.v
PtUnmapLast.v
PtSplit.v
PtUnmapPages.v
PtThm.v
PtEnd.v
PtNew.v
PtRefine.v
PtClient.v
PtDemo.v
Gunyah.v
GunyahRx.v
GunyahRing.v
GunyahTurn.v
GunyahLink.v
GunyahSend.v
GunyahSetup.v
GunyahRouter.v
GunyahDemo.v
