(* ===== verification/Prelude.v ===== *)
(** * The inter-processor stack of a Qualcomm SoC kernel, verified

    The sources under src/ are the vendor part of an Android kernel for a
    Qualcomm SoC. This library models the code by which the application
    processor talks to the other processors of the chip and votes for shared
    resources, and proves it correct. What follows says which part of the
    program each file models, what its theorems show, which bounds they use
    and what is left out.

    ** The program and the files

    Resource votes go from a client driver through
    drivers/soc/qcom/rpmh.c (a cache of votes) and
    drivers/soc/qcom/rpmh-rsc.c (the trigger command sets, TCS, of the
    resource state coordinator) to the hardware; addresses of resources come
    from the directory of drivers/soc/qcom/cmd-db.c. Messages between
    processors use the items of drivers/soc/qcom/smem.c, the signal words of
    drivers/soc/qcom/smp2p.c that live in such items, the channels of
    drivers/rpmsg/qcom_glink_native.c over the FIFOs that
    drivers/rpmsg/qcom_glink_smem.c keeps in such items, the QMI encoding of
    drivers/soc/qcom/qmi_encdec.c, the sockets of the IPC router
    net/qrtr/af_qrtr.c, which sends packets between processors through such
    channels, its name service net/qrtr/ns.c, and the QMI handles of
    drivers/soc/qcom/qmi_interface.c, which own a socket and send requests.
    Between virtual machines the packets of the router cross in the memory
    that net/qrtr/gunyah.c shares.

    - Prelude.v (this file): machine integers, errors, byte memory with
      little-endian words, record update, the interface [BitmapOps] with its
      laws [BitmapLaws] for the bitmap searches of the kernel library and the
      instance [bitmap_linear], tactics, the hint database [kernel].
    - Effects.v: the monad of code that may fault, sleep or run out of fuel,
      used by the GLINK and the IPC router files.
    - CmdDb.v: the read-only directory at byte level; every query of cmd-db.c.
    - RpmhRsc.v: the coordinator with its registers: sending active requests,
      the completion interrupt, slot search and sleep and wake writes, the
      busy test, channels, fast path and probe. The state [rsc_drv] holds the
      registers, the groups, the in-use mask and the completions signalled.
    - TcsImage.v: the abstraction of a TCS group by the commands it enables,
      shared by the files that follow.
    - TcsActive.v: active requests and their interrupts leave that view alone
      where they have TCSes of their own.
    - Rpmh.v: the client cache, batches, flush and solver mode on top of
      RpmhRsc.v. The state [rpmh] pairs the client with the coordinator.
    - RpmhPm.v: the CPU power-management and power-domain callbacks and the
      stopping of a DRV, on top of Rpmh.v.
    - Smem.v: the partitions and the global heap at byte level; allocation,
      lookup, free space, address translation, discovery of partitions, probe.
    - GlinkSmem.v: the FIFOs of a GLINK edge at byte level, on the memory of
      Smem.v, and the registration of an edge.
    - GlinkTransport.v: the interface [Transport] (struct qcom_glink_pipe)
      between protocol and FIFO with its laws [TransportLaws]; the instance
      [smem_transport] discharges the laws with the theorems of GlinkSmem.v,
      the instance [list_transport] is a transport of plain lists.
    - Glink.v: the protocol of qcom_glink_native.c, for any [Transport]:
      channels and intents as objects of a heap, since the receive queue, the
      ID tables and the clients share them; the commands sent and received,
      the interrupt handler, the worker, the channel threads, opening,
      closing, sending, signals, start and removal. Functions are computations
      of the monad of Effects.v whose outcome is a value, a fault
      (undefined behaviour), a sleep that nothing ends, or exhausted fuel. A
      function that sleeps lets the next element of a schedule run, which
      stands for whatever other threads do in between.
    - GlinkTx.v, GlinkRx.v, GlinkData.v, GlinkOpen.v, GlinkLink.v: theorems
      about sending, the interrupt handler, messages, opening, and two edges
      facing each other; GlinkDemo.v: concrete edges and the witnesses.
    - Smp2p.v: the signal items, on the memory of Smem.v.
    - QmiEncdec.v: descriptors, encoder, decoder, messages.
    - XArray.v: arrays of the kernel by index, with its cyclic search for a
      free index.
    - Qrtr.v: the packet types and addresses of
      include/uapi/linux/qrtr.h, shared by the files that follow.
    - QrtrNs.v: registry of servers, observers, control commands, worker.
    - QrtrPkt.v: the two packet headers, their three readers, checksums.
    - AfQrtr.v: af_qrtr.c: sockets and nodes as counted objects of heaps, the
      state [qrtr] with ports, node tree, endpoints and their semaphore; flow
      control, padding, packets from and to endpoints, forwarding, worker
      threads and the socket operations.
    - QrtrInv.v: the invariant of references, relative to the references that
      running functions hold (a [frame]); QrtrSafe.v: every function of
      AfQrtr.v keeps it; QrtrOps.v: the transition system of the calls that
      the network core, transports and workers make; QrtrTerm.v: its loops
      end; QrtrThm.v: the theorems about reachable states.
    - QrtrFlow.v: flow control against an automaton; QrtrRound.v: a message
      from socket to socket across two processors; QrtrDemo.v: concrete
      processors, the witnesses and the inputs the code mishandles.
    - QmiInterface.v: qmi_interface.c: handles with their lookups, services,
      results and transactions; the state [qmi] adds the sockets, the live
      allocations and the transactions in the memory of clients.
    - QmiInv.v: the invariant of a handle, relative to a [frame]; QmiSafe.v and
      QmiRecv.v: every function keeps it (calls of clients, and the worker with
      init and release); QmiOps.v: the transition system; QmiThm.v: theorems
      about reachable states; QmiRound.v: a request and its response across two
      handles, with the codec of QmiEncdec.v; QmiDemo.v: a client and a server.
    - Gunyah.v: net/qrtr/gunyah.c: two machines and the memory they share, for
      any router of the interface [Endpoint]; before each access to that memory
      the next element of the schedule runs, which stands for the other machine.
    - GunyahRx.v: the laws [EndpointLaws] of a router and the safety of the reader
      under any schedule; GunyahRing.v: the circular buffers, by the lemmas of
      GlinkSmem.v; GunyahTurn.v: the turns of the reader; GunyahLink.v: packets
      under way; GunyahSend.v: a sender while the other machine reads;
      GunyahSetup.v: what both sides set up; GunyahRouter.v: AfQrtr.v is such a
      router, and messages from socket to socket; GunyahDemo.v: two machines and
      the witnesses.

    - PgAlloc.v: drivers/iommu/qcom-io-pgtable-alloc.c: the pools of pages for
      IO page tables, by the virtual machine that may read them, sharing with
      that machine, and the shrinker.
    - IoPgtable.v: drivers/iommu/qcom-io-pgtable-arm.c and the deferred flushing
      of drivers/iommu/arm/arm-smmu/arm-smmu.c: page tables as pages of entries,
      with what the device has been shown of them kept apart, for any allocator
      of the interface [PageAlloc]; mapping, unmapping, lookup, new tables and
      freeing. Where the lock is dropped a schedule lets other threads run.
    - PtBits.v: entries as bit patterns; PtInv.v: the laws [PageAllocLaws], the
      geometry [geo_ok], the translation [abs] that the tables stand for, and
      the invariant [inv] (a tree of owned pages, exact counts, no table free
      that the device may remember); PtTree.v and PtState.v: walks and changes
      of the memory; PtMap.v, PtLeaf.v, PtMapPages.v: mapping; PtFree.v, PtCut.v,
      PtUnmap.v, PtUnmapLast.v, PtSplit.v, PtUnmapPages.v: unmapping; PtThm.v:
      the theorems about the operations; PtEnd.v, PtNew.v: the end and the
      beginning of a table; PtRefine.v: refinement of a partial map; PtClient.v:
      PgAlloc.v is such an allocator; PtDemo.v: a concrete table, the witnesses.

    Each file has the data of its C file as records and inductive types, one
    definition per function under the name of the function, and loops as
    fixpoints. Where a C function can fail, the negative error number is
    returned as in C, or as [Err] for functions that return pointers.
    [option] around a result means that [None] is undefined behaviour (a null
    or wild descriptor) or exhausted fuel; the theorems show which inputs
    cannot reach it.

    ** What is proved

    - Votes: a flush leaves in the sleep and wake groups exactly the votes of
      the client ([rpmh_flush_writes_votes]); in every state that votes, active
      requests, completion interrupts and flushes of one channel reach since
      probe, a clean client means the hardware holds its votes
      ([dirty_flag_sound]), and the last CPU goes down only then, if the lock is
      free ([last_cpu_down_synced]). Votes are not UINT_MAX, the cache's mark for
      no vote, and active requests have an active group of TCSes; one that
      borrows a wake TCS loses votes ([borrowed_wake_tcs_loses_votes]).
    - Hardware commands: the slot search is exact and terminates
      ([find_slots_spec]), writes place all commands and nothing else
      ([write_ctrl_data_spec]), active requests exclude each other and make
      progress ([send_data_exclusive], [send_data_progress]), completions are
      signalled once ([tcs_tx_done_releases], [send_complete_roundtrip]).
    - Directory: the nested search is the search of the flattened directory
      ([cmd_db_get_header_directory]).
    - Shared memory: lookup and allocation stay inside a partition whatever
      the remote side wrote ([get_private_safe], [alloc_private_contained]),
      and round trip on well-formed partitions with room, in the size asked for
      ([alloc_get_roundtrip]).
    - FIFOs: a FIFO implements a queue of packets
      ([pipe_refines_packet_queue]), reads stay inside it whatever the remote
      side does to its indices ([rx_access_in_fifo]), registration releases
      what it took on every error ([register_balanced]).
    - Channels: senders in any interleaving never fill the FIFO
      ([senders_never_fill]) and write packets whole ([tx_all_or_nothing]);
      with memory at hand the interrupt handler ends, if need be with a memory
      error, on all input but a cut INTENT message, on which it does not
      ([native_rx_terminates], [native_rx_spins_on_cut_intent]); on an edge with
      intents a message sent in chunks arrives, given an announced intent and
      room for it ([send_takes_best_fit], [message_crosses_link]); features and modem
      signals are agreed on by both sides ([features_negotiation_converges],
      [signals_cross_link]); zero-copy buffers lie in a registered region
      ([zero_copy_inside_region]); a channel opened from this side always
      times out ([local_open_never_succeeds]).
    - Signals: the word of an entry and the interrupts the peer raises for it
      are exact ([signal_delivered]), and not repeated
      ([notify_in_idempotent]), the restart handshake converges
      ([ssr_handshake]), announced entries are found
      ([announced_entry_bound]).
    - Messages: decoding any bytes is safe and total ([decode_safe]),
      encoding stays in its buffer ([encode_safe]), and messages of plain
      fields survive the wire ([message_roundtrip]).
    - Names: observers know the registry while packets are delivered, but for
      ports that are registered again for another service ([observer_view],
      [replaced_server_stale]); it stays well
      formed under any input ([registry_invariant]); local clients are
      confined to their address ([local_client_confined]).
    - Sockets: in every state that calls of sockets, transports and workers
      reach, references are exact ([references_exact]), ports belong to open
      sockets ([ports_match_open_sockets]) and every call returns or waits, for
      another thread or for a semaphore it left held ([calls_return_or_wait],
      [unregister_deadlocks_itself]; a packet of less than 32 bytes needs memory
      for its report); the worker thread empties its
      queue ([worker_empties_queue]) and an unregistered endpoint leaves
      nothing behind ([unregister_forgets_node]). Calls are atomic in these
      theorems: a call that would let others run while it waits is [Blocked].
    - QMI handles: in every reachable state calls return without a use after
      free ([qmi_calls_return]) and the table of transactions is exact
      ([txn_table_exact]); a request with fields of fixed size is answered, given
      memory and buffers for it ([request_answered]), a response
      ends its transaction ([response_completes_its_transaction]), a failed init
      undoes itself ([init_reports_and_undoes]), a release wakes all clients
      ([release_ends_all]) and a reset of the network registers everything again
      ([net_reset_registers_again]). This holds for all clients whose callbacks
      keep the invariant and do not wait on the handle ([client_ok],
      [response_handler_waits_for_itself]).
    - Packets: the readers of headers agree ([header_readers_agree]), a message
      crosses processors unchanged ([message_crosses_processors]), and flow
      control turns senders away only while a confirmation comes
      ([turned_away_while_confirm_comes]).
    - Machines: whatever the other machine writes to the shared memory, the
      reader stays inside its buffers ([reader_stays_inside]), and it ends when
      the other is quiet and no header announces an empty packet
      ([reader_ends]; [reader_spins] is the run when one does); after the set-up
      of both sides the pipes face each other ([setup_links]); a packet crosses
      whole and in order while the other machine reads, if the pipe has room for
      its header ([packet_crosses]), so a message of a socket that fits in one
      piece reaches the other machine's socket over an idle pipe
      ([message_crosses_machines]), or the sender reports a time-out. Lending the
      memory, the events of the peer, probe and removal have definitions and no
      theorems.

    - Pages: a page shared with another machine never goes back to the system
      before that machine lost it, and pools and counts are exact
      ([shared_pages_never_returned]).
    - IO page tables: a map call maps its run or nothing, whatever other threads
      do meanwhile at other addresses ([map_pages_maps_run]), which every
      operation of the driver allows for ([operations_respect_others]); an unmap
      call removes what it reports and nothing else, also out of a larger block
      ([unmap_pages_unmaps_run]); a lookup agrees with the device
      ([iova_to_phys_translates]); together the calls implement a partial map,
      and the device never holds a table that was given back
      ([page_table_refines_translation]); a new table maps nothing
      ([alloc_pgtable_starts_empty]) and its end returns all pages but those that
      wait for a flush ([free_pgtable_returns_pages]). The theorems are about the format
      QCOM_ARM_64_LPAE_S1, the one the driver offers, with contiguous entries
      switched off ([env_ok]); scatterlists, contiguous entries, the second
      stage and the Mali format have definitions and no theorems. Other threads
      run whole operations where the lock is dropped; one that is itself
      suspended in the middle is not among them. A block is split only when no
      other thread runs.

    Behaviour that looks unintended is proved too, as theorems or lemmas with
    concrete inputs: a full vote cache that refuses cached addresses, a next
    wake-up that is never written, zero-sized items that are lost, a
    seventeenth signal entry, nested strings that overrun a message buffer, a
    stale array length, a replaced server that observers keep, the local open
    and the cut INTENT message above, GLINK messages of a remote side that
    make the receiver use freed or foreign memory (GlinkDemo.v), and in the IPC
    router flows that stall, an unregistration that waits for itself, a report
    that reads past a packet, and messages that grow or are not padded
    (QrtrDemo.v); an active request that loses the wake votes whose TCS it
    borrows (Rpmh.v); between machines a header that keeps the reader busy for ever;
    in QMI handles a failed transaction with the number of another,
    a handler that waits for itself and a port that means all (QmiDemo.v).

    ** Bounds and fuel

    Recursion that is not structural takes fuel, and each theorem states that
    the fuel suffices. [find_slots] takes [num_tcs + 2] turns, one per TCS
    and two for the ends. A walk over a partition takes at most one turn per
    byte ([part_fuel]), since every step moves by at least an entry header.
    [qmi_encode] moves on in the descriptor array at every turn; [qmi_decode]
    takes at least three bytes of the message at level 1 and moves on in the
    array below it. The loop of [qcom_glink_tx] has as much fuel as the
    schedule has elements, since each sleep uses one; the receive loop of
    [qcom_glink_native_rx] needs one turn per eight bytes in the FIFO and five
    more; a message is sent in at most one chunk per byte, on a link between
    machines with at most one wait before each, and the reader there takes at most
    one turn per byte. The worker of an IPC
    router node needs one turn per packet in its queue, the unregistration of
    an endpoint one per id in the node tree. The loops over pools of pages need
    one turn per page and one more. The worker of a QMI handle needs one
    turn per message and one more, its release one per transaction. The walks of a page
    table descend at most [LEVELS] levels, from 0 to 3. The nesting of
    descriptors is bounded by the argument [depth]. Integers are kept at their C width by [u8], [u16], [u32], [u64]
    and [s32]; lengths of messages are assumed below 2^31 where C stores them
    in an int.

    ** Inputs from outside

    Code that is not in the tree is an argument: bitmap searches with their
    laws, the ID tables of the kernel ([IdrOps] in Glink.v) and its allocator
    of array indices ([XaCyclic] in XArray.v), the network core and the
    transports of the router ([qrtr_env]), the callbacks of
    GLINK and QMI clients, register reads during polling, the hardware spinlock, ioremap,
    allocators, sockets, interrupt and device-tree results, the payload limit
    of a TCS. Concurrency is modelled at the granularity of the locks: an
    operation under a lock is one step, and interleavings are sequences of
    steps ([dirty_flag_sound], [cpus_in_pm_counts]).

    ** Not modelled, and what comes next

    Tracing, logging, debugfs and driver registration have no effect on the
    state and are left out, as are memory barriers: memory is sequentially
    consistent here. The socinfo readers of smem.c read a layout defined
    outside it; the ioctl of a router socket only reads. Of the IO memory management
    unit only the flushing is modelled, not its contexts, streams and
    registers. Next in line are the other transports of the router (smd.c, mhi.c, genpool.c) and the RPMh clients
    (clocks, bus votes) on top of Rpmh.v.

    ** This file

    Shared vocabulary of the development: machine integers, error numbers,
    results of fallible functions, byte memory, bit masks and the tactics and
    hint databases the component files use. *)
From Stdlib Require Import ZArith Lia Bool.
From Stdlib Require Export ZifyBool.
From stdpp Require Import prelude gmap list numbers.

Declare Scope kernel_scope.
Delimit Scope kernel_scope with kernel.
#[global] Open Scope Z_scope.

(** ** Machine integers: a value of a C unsigned type is a [Z] in range, and
    the result of an operation is wrapped to the width of its type. *)

Definition u8 (z : Z) : Z := z mod 2 ^ 8.

Definition u16 (z : Z) : Z := z mod 2 ^ 16.

Definition u32 (z : Z) : Z := z mod 2 ^ 32.

Definition u64 (z : Z) : Z := z mod 2 ^ 64.

(** Two's complement reading of a 32-bit pattern (a C [int]). *)
Definition s32 (z : Z) : Z :=
  let w := z mod 2 ^ 32 in if w <? 2 ^ 31 then w else w - 2 ^ 32.

Definition U8_MAX : Z := 255.

Definition UINT_MAX : Z := 4294967295.

(** [BIT(n)] *)
Definition BIT (n : Z) : Z := Z.shiftl 1 n.

(** [GENMASK(h, l)]: the bits from [l] to [h] *)
Definition GENMASK (h l : Z) : Z := Z.shiftl (Z.ones (h - l + 1)) l.

(** A C truth value: an integer used as a condition. *)
Definition truth (z : Z) : bool := negb (z =? 0).

Definition b2z (b : bool) : Z := if b then 1 else 0.

(** [ALIGN(x, a)] for a power of two [a]. *)
Definition ALIGN (x a : Z) : Z := Z.land (x + (a - 1)) (Z.lnot (a - 1)).

(** ** Error numbers, as the kernel's headers number them. *)

Definition ENOENT : Z := 2.

Definition EIO : Z := 5.

Definition ENXIO : Z := 6.

Definition EAGAIN : Z := 11.

Definition ENOMEM : Z := 12.

Definition EACCES : Z := 13.

Definition EFAULT : Z := 14.

Definition EBUSY : Z := 16.

Definition EEXIST : Z := 17.

Definition ENODEV : Z := 19.

Definition EINVAL : Z := 22.

Definition ENOSPC : Z := 28.

Definition EPIPE : Z := 32.

Definition ERANGE : Z := 34.

Definition EMSGSIZE : Z := 90.

Definition EPROTOTYPE : Z := 91.

Definition EOPNOTSUPP : Z := 95.

Definition EAFNOSUPPORT : Z := 97.

Definition EADDRINUSE : Z := 98.

Definition EADDRNOTAVAIL : Z := 99.

Definition ENETRESET : Z := 102.

Definition ECONNRESET : Z := 104.

Definition ENOBUFS : Z := 105.

Definition ENOTCONN : Z := 107.

Definition ETIMEDOUT : Z := 110.

Definition ECANCELED : Z := 125.

Definition ERESTARTSYS : Z := 512.

Definition ENOIOCTLCMD : Z := 515.

Definition EPROBE_DEFER : Z := 517.

Definition ETOOSMALL : Z := 525.

(** ** Results: a pointer-returning function gives a value or [ERR_PTR(-e)];
    [Err] carries the negative number. *)

Inductive result (A : Type) : Type :=
| Ok (a : A)
| Err (e : Z).
Arguments Ok {A} a.
Arguments Err {A} e.

Definition rbind {A B : Type} (r : result A) (f : A -> result B) : result B :=
  match r with
  | Ok a => f a
  | Err e => Err e
  end.

Notation "x <-? c ;; k" := (rbind c (fun x => k))
  (at level 60, c at next level, right associativity) : kernel_scope.

Definition is_ok {A : Type} (r : result A) : bool :=
  match r with
  | Ok _ => true
  | Err _ => false
  end.

#[global] Instance result_eq_dec {A : Type} `{EqDecision A} : EqDecision (result A).
Proof. solve_decision. Defined.

(** ** Byte memory: the byte at every address; little-endian words. *)

Definition mem : Type := Z -> Z.

Definition upd (m : mem) (a v : Z) : mem := fun x => if x =? a then v else m x.

Fixpoint load_le (n : nat) (m : mem) (a : Z) : Z :=
  match n with
  | O => 0
  | S k => m a + 256 * load_le k m (a + 1)
  end.

Fixpoint store_le (n : nat) (m : mem) (a v : Z) : mem :=
  match n with
  | O => m
  | S k => store_le k (upd m a (v mod 256)) (a + 1) (v / 256)
  end.

Fixpoint load_bytes (n : nat) (m : mem) (a : Z) : list Z :=
  match n with
  | O => []
  | S k => m a :: load_bytes k m (a + 1)
  end.

Fixpoint store_bytes (m : mem) (a : Z) (bs : list Z) : mem :=
  match bs with
  | [] => m
  | b :: bs' => store_bytes (upd m a b) (a + 1) bs'
  end.

(** The [n] low bytes of a word, lowest first, and back. *)
Fixpoint le_bytes (n : nat) (v : Z) : list Z :=
  match n with
  | O => []
  | S k => v mod 256 :: le_bytes k (v / 256)
  end.

Fixpoint le_val (bs : list Z) : Z :=
  match bs with
  | [] => 0
  | b :: bs' => b + 256 * le_val bs'
  end.

(** Every byte of the memory is a byte. *)
Definition bytes_ok (m : mem) : Prop := forall a, 0 <= m a < 256.

Definition rd8 (m : mem) (a : Z) : Z := load_le 1 m a.

Definition rd16 (m : mem) (a : Z) : Z := load_le 2 m a.

Definition rd32 (m : mem) (a : Z) : Z := load_le 4 m a.

Definition wr16 (m : mem) (a v : Z) : mem := store_le 2 m a v.

Definition wr32 (m : mem) (a v : Z) : mem := store_le 4 m a v.

(** [m] and [m'] hold the same bytes outside [lo, hi). *)
Definition same_outside (lo hi : Z) (m m' : mem) : Prop :=
  forall x, x < lo \/ hi <= x -> m' x = m x.

(** ** Record update: [r <| field := v |>], for records with a [Settable]
    instance that lists the fields. *)

Class Settable (R : Type) := settable_eta : R -> R.

Class Setter {R T : Type} (proj : R -> T) := set_field : (T -> T) -> R -> R.
Arguments set_field {R T} proj {_} _ _ /.

Ltac solve_setter :=
  match goal with
  | |- @Setter ?R ?T ?proj =>
      let e := constr:(_ : Settable R) in
      let e' := eval red in e in
      exact (fun (f : T -> T) (r : R) =>
        ltac:(let b := eval cbv beta in (e' r) in
              match b with
              | context C [proj r] =>
                  let t := context C [f (proj r)] in
                  let t' := eval cbv beta in t in exact t'
              end))
  end.

#[export] Hint Extern 1 (@Setter _ _ _) => solve_setter : typeclass_instances.

Notation "r <| f := v |>" := (set_field f (fun _ => v) r)
  (at level 1, left associativity, f at level 0, v at level 200,
   format "r  <| f  :=  v |>").

(** ** Bitmaps

    A C bitmap is a [Z] read with [Z.testbit]. The search functions over
    bitmaps belong to the kernel's bitmap library: components take them as an
    interface and rely on these laws only. *)

Class BitmapOps := {
  find_next_bit : Z -> Z -> Z -> Z;  (* bitmap, size, start *)
  find_next_zero_bit : Z -> Z -> Z -> Z;
  bitmap_find_next_zero_area : Z -> Z -> Z -> Z -> Z;  (* bitmap, size, start, nr *)
}.

Class BitmapLaws `{BitmapOps} := {
  find_next_bit_found : forall b size start i,
    0 <= start -> start <= i < size -> Z.testbit b i = true -> find_next_bit b size start <= i;
  find_next_bit_set : forall b size start,
    0 <= start -> find_next_bit b size start < size ->
    start <= find_next_bit b size start /\ Z.testbit b (find_next_bit b size start) = true;
  find_next_zero_bit_found : forall b size start i,
    0 <= start -> start <= i < size -> Z.testbit b i = false -> find_next_zero_bit b size start <= i;
  find_next_zero_bit_clear : forall b size start,
    0 <= start -> find_next_zero_bit b size start < size ->
    start <= find_next_zero_bit b size start /\
    Z.testbit b (find_next_zero_bit b size start) = false;
  zero_area_first : forall b size start nr a,
    0 <= start -> 0 < nr -> start <= a -> a + nr <= size ->
    (forall i, a <= i < a + nr -> Z.testbit b i = false) ->
    bitmap_find_next_zero_area b size start nr <= a;
  zero_area_free : forall b size start nr,
    0 <= start -> 0 < nr -> bitmap_find_next_zero_area b size start nr < size ->
    start <= bitmap_find_next_zero_area b size start nr /\
    bitmap_find_next_zero_area b size start nr + nr <= size /\
    (forall i, bitmap_find_next_zero_area b size start nr <= i <
               bitmap_find_next_zero_area b size start nr + nr -> Z.testbit b i = false);
}.

(** Integers from [a], [n] of them. *)
Fixpoint zseq (a : Z) (n : nat) : list Z :=
  match n with
  | O => []
  | S k => a :: zseq (a + 1) k
  end.

(** [for_each_set_bit(i, &b, size)] visits these indices in this order. *)
Definition set_bits (b size : Z) : list Z := filter (fun i => Z.testbit b i = true) (zseq 0 (Z.to_nat size)).

(** [bitmap_set(b, start, nr)] *)
Definition bitmap_set (b start nr : Z) : Z := Z.lor b (Z.shiftl (Z.ones nr) start).

(** First [i] of [start, size) with [p i], or [size]. *)
Fixpoint first_from (p : Z -> bool) (start : Z) (n : nat) : Z :=
  match n with
  | O => start
  | S k => if p start then start else first_from p (start + 1) k
  end.

Definition area_free (b nr a : Z) : bool :=
  forallb (fun i => negb (Z.testbit b i)) (zseq a (Z.to_nat nr)).

(** Reference implementation of the interface, by linear search. *)
#[export] Instance bitmap_linear : BitmapOps := {
  find_next_bit b size start :=
    first_from (fun i => Z.testbit b i) start (Z.to_nat (size - start));
  find_next_zero_bit b size start :=
    first_from (fun i => negb (Z.testbit b i)) start (Z.to_nat (size - start));
  bitmap_find_next_zero_area b size start nr :=
    if size - nr + 1 <=? start then start + nr + size
    else
      let a := first_from (area_free b nr) start (Z.to_nat (size - nr + 1 - start)) in
      if a <=? size - nr then a else a + nr + size;
}.

(** ** Tactics and hint databases *)

Create HintDb kernel.

(** Case split on the first [if] or [match] scrutinee of the goal. *)
Ltac case_goal :=
  match goal with
  | |- context [if ?b then _ else _] => destruct b eqn:?
  | |- context [match ?x with _ => _ end] => destruct x eqn:?
  end.

(** The same in the hypothesis [H], closing contradictory branches. *)
Ltac case_hyp H :=
  match type of H with
  | context [if ?b then _ else _] => destruct b eqn:?
  | context [match ?x with _ => _ end] => destruct x eqn:?
  end; try discriminate H.

(** Repeated branch analysis of an equation between results. *)
Ltac branches H := repeat (case_hyp H; simplify_eq/=).

Ltac zbool :=
  repeat match goal with
  | H : (_ && _) = true |- _ => apply andb_true_iff in H as [? ?]
  | H : (_ || _) = false |- _ => apply orb_false_iff in H as [? ?]
  | H : negb _ = true |- _ => apply negb_true_iff in H
  | H : negb _ = false |- _ => apply negb_false_iff in H
  | H : (_ =? _) = true |- _ => apply Z.eqb_eq in H
  | H : (_ =? _) = false |- _ => apply Z.eqb_neq in H
  | H : (_ <? _) = true |- _ => apply Z.ltb_lt in H
  | H : (_ <? _) = false |- _ => apply Z.ltb_ge in H
  | H : (_ <=? _) = true |- _ => apply Z.leb_le in H
  | H : (_ <=? _) = false |- _ => apply Z.leb_gt in H
  end.

(** ** Lemmas on words and memory *)

Lemma u32_small z : 0 <= z < 2 ^ 32 -> u32 z = z.
Proof. intros. unfold u32. by apply Z.mod_small. Qed.

Lemma u32_range z : 0 <= u32 z < 2 ^ 32.
Proof. unfold u32. apply Z.mod_pos_bound. lia. Qed.

Lemma upd_eq m a v : upd m a v a = v.
Proof. unfold upd. by rewrite Z.eqb_refl. Qed.

Lemma upd_ne m a v x : x <> a -> upd m a v x = m x.
Proof. intros. unfold upd. by rewrite (proj2 (Z.eqb_neq x a)). Qed.

Lemma load_le_ext n m m' a :
  (forall i, 0 <= i < Z.of_nat n -> m' (a + i) = m (a + i)) ->
  load_le n m' a = load_le n m a.
Proof.
  revert a. induction n as [|n IH]; intros a H; [done|]. cbn [load_le].
  rewrite (IH (a + 1)).
  - specialize (H 0). rewrite Z.add_0_r in H. rewrite H; lia.
  - intros i Hi. rewrite <- Z.add_assoc. apply H. lia.
Qed.

Lemma load_bytes_ext n m m' a :
  (forall i, 0 <= i < Z.of_nat n -> m' (a + i) = m (a + i)) ->
  load_bytes n m' a = load_bytes n m a.
Proof.
  revert a. induction n as [|n IH]; intros a H; [done|]. cbn [load_bytes].
  rewrite (IH (a + 1)).
  - specialize (H 0). rewrite Z.add_0_r in H. rewrite H; [done|lia].
  - intros i Hi. rewrite <- Z.add_assoc. apply H. lia.
Qed.

Lemma store_le_other n m a v x :
  x < a \/ a + Z.of_nat n <= x -> store_le n m a v x = m x.
Proof.
  revert m a v. induction n as [|n IH]; intros m a v H; [done|].
  cbn [store_le]. rewrite IH by lia. apply upd_ne. lia.
Qed.

Lemma store_bytes_other m a bs x :
  x < a \/ a + Z.of_nat (length bs) <= x -> store_bytes m a bs x = m x.
Proof.
  revert m a. induction bs as [|b bs IH]; intros m a H; [done|].
  cbn [store_bytes length] in *. rewrite IH by lia. apply upd_ne. lia.
Qed.

Lemma load_store_le_same n m a v :
  load_le n (store_le n m a v) a = v mod 256 ^ Z.of_nat n.
Proof.
  revert m a v. induction n as [|n IH]; intros m a v.
  - cbn. by rewrite Z.mod_1_r.
  - cbn [store_le load_le]. rewrite IH, store_le_other, upd_eq by lia.
    rewrite Nat2Z.inj_succ, Z.pow_succ_r by lia.
    rewrite Z.rem_mul_r by lia. done.
Qed.

Lemma load_store_le_disjoint n k m a b v :
  a + Z.of_nat n <= b \/ b + Z.of_nat k <= a ->
  load_le n (store_le k m b v) a = load_le n m a.
Proof. intros. apply load_le_ext. intros. apply store_le_other. lia. Qed.

Lemma load_le_bound n m a :
  bytes_ok m -> 0 <= load_le n m a < 256 ^ Z.of_nat n.
Proof.
  intros Hm. revert a. induction n as [|n IH]; intros a; [cbn; lia|].
  cbn [load_le]. rewrite Nat2Z.inj_succ, Z.pow_succ_r by lia.
  specialize (IH (a + 1)). specialize (Hm a). lia.
Qed.

Lemma bytes_ok_upd m a v : bytes_ok m -> 0 <= v < 256 -> bytes_ok (upd m a v).
Proof. intros Hm Hv x. unfold upd. case_goal; auto. Qed.

Lemma bytes_ok_store_le n m a v : bytes_ok m -> bytes_ok (store_le n m a v).
Proof.
  revert m a v. induction n as [|n IH]; intros m a v Hm; [done|].
  cbn [store_le]. apply IH, bytes_ok_upd; [done|]. apply Z.mod_pos_bound. lia.
Qed.

Lemma load_store_bytes_same m a bs :
  load_bytes (length bs) (store_bytes m a bs) a = bs.
Proof.
  revert m a. induction bs as [|b bs IH]; intros m a; [done|].
  cbn [length load_bytes store_bytes]. rewrite IH, store_bytes_other, upd_eq by lia. done.
Qed.

Lemma length_load_bytes n m a : length (load_bytes n m a) = n.
Proof. revert a. induction n; intros; cbn; auto. Qed.

Lemma load_le_wr_same_16 m a v : 0 <= v < 2 ^ 16 -> rd16 (wr16 m a v) a = v.
Proof. intros. unfold rd16, wr16. rewrite load_store_le_same. by apply Z.mod_small. Qed.

Lemma load_le_wr_same_32 m a v : 0 <= v < 2 ^ 32 -> rd32 (wr32 m a v) a = v.
Proof. intros. unfold rd32, wr32. rewrite load_store_le_same. by apply Z.mod_small. Qed.

Lemma rd16_bound m a : bytes_ok m -> 0 <= rd16 m a < 2 ^ 16.
Proof. intros. by apply (load_le_bound 2). Qed.

Lemma rd32_bound m a : bytes_ok m -> 0 <= rd32 m a < 2 ^ 32.
Proof. intros. by apply (load_le_bound 4). Qed.

#[export] Hint Resolve bytes_ok_store_le rd16_bound rd32_bound : kernel.

Lemma same_outside_refl lo hi m : same_outside lo hi m m.
Proof. done. Qed.

Lemma same_outside_trans lo hi m1 m2 m3 :
  same_outside lo hi m1 m2 -> same_outside lo hi m2 m3 -> same_outside lo hi m1 m3.
Proof. intros H1 H2 x Hx. rewrite H2, H1; auto. Qed.

Lemma same_outside_weaken lo hi lo' hi' m m' :
  same_outside lo hi m m' -> lo' <= lo -> hi <= hi' -> same_outside lo' hi' m m'.
Proof. intros H ?? x Hx. apply H. lia. Qed.

Lemma same_outside_store_le n m a v lo hi :
  lo <= a -> a + Z.of_nat n <= hi -> same_outside lo hi m (store_le n m a v).
Proof. intros ?? x Hx. apply store_le_other. lia. Qed.

Lemma same_outside_store_bytes m a bs lo hi :
  lo <= a -> a + Z.of_nat (length bs) <= hi ->
  same_outside lo hi m (store_bytes m a bs).
Proof. intros ?? x Hx. apply store_bytes_other. lia. Qed.

#[export] Hint Resolve same_outside_refl : kernel.

(** ** Bits *)

Lemma BIT_testbit n i : 0 <= n -> 0 <= i -> Z.testbit (BIT n) i = (n =? i).
Proof.
  intros. unfold BIT. rewrite Z.shiftl_1_l.
  destruct (Z.eqb_spec n i) as [->|]; [by apply Z.pow2_bits_true|].
  by apply Z.pow2_bits_false.
Qed.

Lemma land_BIT_truth x n :
  0 <= n -> truth (Z.land x (BIT n)) = Z.testbit x n.
Proof.
  intros Hn. unfold truth. destruct (Z.testbit x n) eqn:E.
  - apply negb_true_iff, Z.eqb_neq. intros H0.
    assert (Z.testbit (Z.land x (BIT n)) n = false) as H1 by (by rewrite H0, Z.bits_0).
    rewrite Z.land_spec, E, BIT_testbit, Z.eqb_refl in H1; done.
  - apply negb_false_iff, Z.eqb_eq, Z.bits_inj'. intros i Hi.
    rewrite Z.land_spec, BIT_testbit, Z.bits_0 by lia.
    destruct (Z.eqb_spec n i) as [<-|]; [by rewrite E|by rewrite andb_false_r].
Qed.

Lemma ALIGN_8_bounds x : x <= ALIGN x 8 < x + 8.
Proof.
  unfold ALIGN. replace (Z.lnot (8 - 1)) with (Z.lnot (Z.ones 3)) by done.
  rewrite <- Z.ldiff_land, Z.ldiff_ones_r, Z.shiftr_div_pow2, Z.shiftl_mul_pow2 by lia.
  change (2 ^ 3) with 8.
  pose proof (Z.div_mod (x + (8 - 1)) 8). pose proof (Z.mod_pos_bound (x + (8 - 1)) 8). lia.
Qed.

(** Alignment to a power of two, in arithmetic. *)
Lemma ALIGN_pow2 n x : 0 <= n -> ALIGN x (2 ^ n) = 2 ^ n * ((x + (2 ^ n - 1)) / 2 ^ n).
Proof.
  intros Hn. unfold ALIGN. replace (2 ^ n - 1) with (Z.ones n) by (rewrite Z.ones_equiv; lia).
  rewrite <- Z.ldiff_land, Z.ldiff_ones_r, Z.shiftr_div_pow2, Z.shiftl_mul_pow2 by lia. lia.
Qed.

Lemma ALIGN_8_eq x : ALIGN x 8 = 8 * ((x + 7) / 8).
Proof. apply (ALIGN_pow2 3). lia. Qed.

Lemma ALIGN_4_eq x : ALIGN x 4 = 4 * ((x + 3) / 4).
Proof. apply (ALIGN_pow2 2). lia. Qed.

Lemma ALIGN_4_bounds x : x <= ALIGN x 4 < x + 4.
Proof. rewrite ALIGN_4_eq. pose proof (Z.div_mod (x + 3) 4) as E. pose proof (Z.mod_pos_bound (x + 3) 4). lia. Qed.

Lemma ALIGN_4_mod x : ALIGN x 4 mod 4 = 0.
Proof. rewrite ALIGN_4_eq, Z.mul_comm. by apply Z.mod_mul. Qed.

Lemma ALIGN_8_add k x : ALIGN (8 * k + x) 8 = 8 * k + ALIGN x 8.
Proof.
  rewrite !ALIGN_8_eq. replace (8 * k + x + 7) with (x + 7 + k * 8) by lia.
  rewrite Z.div_add by lia. lia.
Qed.

Lemma ALIGN_8_mod x : ALIGN x 8 mod 8 = 0.
Proof. rewrite ALIGN_8_eq, Z.mul_comm. by apply Z.mod_mul. Qed.

(** ** Copies of blocks *)

Lemma load_bytes_app n k m a : load_bytes (n + k) m a = load_bytes n m a ++ load_bytes k m (a + Z.of_nat n).
Proof.
  revert a. induction n as [|n IH]; intros a; cbn [Nat.add load_bytes app].
  - by rewrite Z.add_0_r.
  - rewrite IH. do 3 f_equal. lia.
Qed.

Lemma store_bytes_app m a bs1 bs2 :
  store_bytes m a (bs1 ++ bs2) = store_bytes (store_bytes m a bs1) (a + Z.of_nat (length bs1)) bs2.
Proof.
  revert m a. induction bs1 as [|b bs1 IH]; intros m a; cbn [app store_bytes length].
  - by rewrite Z.add_0_r.
  - rewrite IH. f_equal. lia.
Qed.

Lemma bytes_ok_store_bytes m a bs :
  bytes_ok m -> Forall (fun b => 0 <= b < 256) bs -> bytes_ok (store_bytes m a bs).
Proof.
  intros Hm Hb. revert m a Hm. induction Hb as [|b bs Hb _ IH]; intros m a Hm; [done|].
  cbn [store_bytes]. apply IH. by apply bytes_ok_upd.
Qed.

Lemma load_bytes_ok n m a : bytes_ok m -> Forall (fun b => 0 <= b < 256) (load_bytes n m a).
Proof. intros Hm. revert a. induction n as [|n IH]; intros a; constructor; auto. Qed.

Lemma store_bytes_at m a bs i :
  0 <= i < Z.of_nat (length bs) -> store_bytes m a bs (a + i) = bs !!! Z.to_nat i.
Proof.
  revert m a i. induction bs as [|b bs IH]; intros m a i Hi; cbn [length store_bytes] in *; [lia|].
  destruct (Z.eq_dec i 0) as [->|].
  - rewrite store_bytes_other by lia. rewrite Z.add_0_r. apply upd_eq.
  - replace (a + i) with (a + 1 + (i - 1)) by lia. rewrite IH by lia.
    replace (Z.to_nat i) with (S (Z.to_nat (i - 1))) by lia. done.
Qed.

Lemma s32_small z : 0 <= z < 2 ^ 31 -> s32 z = z.
Proof.
  intros Hz. unfold s32. rewrite Z.mod_small by lia. by rewrite (proj2 (Z.ltb_lt z (2 ^ 31))) by lia.
Qed.

(** ** Little-endian byte lists *)

Lemma length_le_bytes n v : length (le_bytes n v) = n.
Proof. revert v. induction n; intros; cbn; auto. Qed.

Lemma le_val_bytes n v : le_val (le_bytes n v) = v mod 256 ^ Z.of_nat n.
Proof.
  revert v. induction n as [|n IH]; intros v; cbn [le_bytes le_val].
  - cbn. by rewrite Z.mod_1_r.
  - rewrite IH, Nat2Z.inj_succ, Z.pow_succ_r, Z.rem_mul_r by lia. done.
Qed.

Lemma le_val_bytes_small n v : 0 <= v < 256 ^ Z.of_nat n -> le_val (le_bytes n v) = v.
Proof. intros. rewrite le_val_bytes. by apply Z.mod_small. Qed.

Lemma le_val_bound bs :
  Forall (fun b => 0 <= b < 256) bs -> 0 <= le_val bs < 256 ^ Z.of_nat (length bs).
Proof.
  induction 1 as [|b bs Hb _ IH]; cbn [le_val length]; [lia|].
  rewrite Nat2Z.inj_succ, Z.pow_succ_r by lia. lia.
Qed.

Lemma le_bytes_range n v : Forall (fun b => 0 <= b < 256) (le_bytes n v).
Proof.
  revert v. induction n as [|n IH]; intros v; constructor; [|apply IH].
  apply Z.mod_pos_bound. lia.
Qed.

(** ** The reference bitmap search satisfies the interface *)

Lemma zseq_elem a n i : i ∈ zseq a n <-> a <= i < a + Z.of_nat n.
Proof.
  revert a. induction n as [|n IH]; intros a; cbn [zseq].
  - rewrite elem_of_nil. lia.
  - rewrite elem_of_cons, IH. lia.
Qed.

Lemma first_from_range p start n :
  start <= first_from p start n <= start + Z.of_nat n.
Proof.
  revert start. induction n as [|n IH]; intros start; cbn [first_from]; [lia|].
  case_goal; [lia|]. specialize (IH (start + 1)). lia.
Qed.

Lemma first_from_found p start n i :
  start <= i < start + Z.of_nat n -> p i = true -> first_from p start n <= i.
Proof.
  revert start. induction n as [|n IH]; intros start Hi Hp; cbn [first_from]; [lia|].
  case_goal; [lia|]. apply IH; [|done]. destruct (Z.eq_dec i start); [congruence|lia].
Qed.

Lemma first_from_hit p start n :
  first_from p start n < start + Z.of_nat n -> p (first_from p start n) = true.
Proof.
  revert start. induction n as [|n IH]; intros start Hi; cbn [first_from] in *; [lia|].
  destruct (p start) eqn:E; [done|]. apply IH. lia.
Qed.

Lemma area_free_spec b nr a :
  0 <= nr ->
  area_free b nr a = true <-> (forall i, a <= i < a + nr -> Z.testbit b i = false).
Proof.
  intros Hn. unfold area_free. rewrite forallb_forall. split.
  - intros H i Hi. apply negb_true_iff, H, list_elem_of_In, zseq_elem. lia.
  - intros H i Hi%list_elem_of_In%zseq_elem. apply negb_true_iff, H. lia.
Qed.

#[export] Instance bitmap_linear_laws : BitmapLaws.
Proof.
  split; cbn [find_next_bit find_next_zero_bit bitmap_find_next_zero_area bitmap_linear].
  - intros. apply first_from_found; [lia|done].
  - intros b size start ? H. pose proof (first_from_range (fun i => Z.testbit b i) start (Z.to_nat (size - start))).
    split; [lia|]. apply (first_from_hit (fun i => Z.testbit b i)). lia.
  - intros. apply first_from_found; [lia|]. by apply negb_true_iff.
  - intros b size start ? H. pose proof (first_from_range (fun i => negb (Z.testbit b i)) start (Z.to_nat (size - start))).
    split; [lia|]. apply negb_true_iff, (first_from_hit (fun i => negb (Z.testbit b i))). lia.
  - intros b size start nr a ???? Hf. rewrite (proj2 (Z.leb_gt _ _)) by lia.
    assert (first_from (area_free b nr) start (Z.to_nat (size - nr + 1 - start)) <= a).
    { apply first_from_found; [lia|]. apply area_free_spec; [lia|done]. }
    cbv zeta. rewrite (proj2 (Z.leb_le _ _)) by lia. done.
  - intros b size start nr ??. cbv zeta.
    pose proof (first_from_range (area_free b nr) start (Z.to_nat (size - nr + 1 - start))).
    case_goal; [lia|]. case_goal; [|lia]. zbool. intros _. split; [lia|]. split; [lia|].
    apply area_free_spec; [lia|]. apply first_from_hit. lia.
Qed.

Lemma set_bits_spec b size i :
  i ∈ set_bits b size <-> 0 <= i < size /\ Z.testbit b i = true.
Proof.
  unfold set_bits. rewrite list_elem_of_filter, zseq_elem. split; [|intuition lia].
  intros [? ?]. split; [lia|done].
Qed.

Lemma bitmap_set_spec b start nr i :
  0 <= start -> 0 <= nr -> 0 <= i ->
  Z.testbit (bitmap_set b start nr) i =
  Z.testbit b i || ((start <=? i) && (i <? start + nr)).
Proof.
  intros. unfold bitmap_set. rewrite Z.lor_spec. f_equal.
  destruct (Z.leb_spec start i) as [|]; cbn [andb].
  - rewrite Z.shiftl_spec by lia. destruct (Z.ltb_spec i (start + nr)).
    + apply Z.ones_spec_low. lia.
    + apply Z.ones_spec_high. lia.
  - by rewrite Z.shiftl_spec_low.
Qed.
