(* ===== verification/Effects.v ===== *)
(** * Effects: computations on shared kernel state

    The state and error monad of the components whose functions can sleep. A
    computation runs on a state [S] and a schedule: while it sleeps, the next
    element of the schedule runs, which stands for whatever other threads, the
    interrupt handlers and the remote side do in between. Its outcome is a
    value with the new world; a fault, that is undefined behaviour in C (a use
    of freed memory, a null pointer, a corrupted list); a sleep that nothing
    ends; or exhausted fuel. *)
From stdpp Require Import prelude list.
From S2P Require Import Prelude.

Record world (S : Type) := mk_world {
  w_st : S;
  w_sched : list (S -> S);
}.
Arguments mk_world {S}.
Arguments w_st {S}.
Arguments w_sched {S}.

Inductive outcome (S A : Type) :=
| Ret (a : A) (w : world S)
| Fault
| Blocked
| NoFuel.
Arguments Ret {S A}.
Arguments Fault {S A}.
Arguments Blocked {S A}.
Arguments NoFuel {S A}.

Definition M (S A : Type) : Type := world S -> outcome S A.

Definition mret {S A : Type} (a : A) : M S A := fun w => Ret a w.

Definition mbnd {S A B : Type} (c : M S A) (k : A -> M S B) : M S B := fun w =>
  match c w with
  | Ret a w' => k a w'
  | Fault => Fault
  | Blocked => Blocked
  | NoFuel => NoFuel
  end.

Notation "x <-- c ;;; k" := (mbnd c (fun x => k))
  (at level 60, c at next level, right associativity) : kernel_scope.
Notation "c ;;; k" := (mbnd c (fun _ => k))
  (at level 60, right associativity) : kernel_scope.
#[local] Open Scope kernel_scope.

Definition fault {S A : Type} : M S A := fun _ => Fault.

Definition gets {S A : Type} (f : S -> A) : M S A := fun w => Ret (f (w_st w)) w.

Definition modify {S : Type} (f : S -> S) : M S unit := fun w => Ret tt (mk_world (f (w_st w)) (w_sched w)).

Definition or_fault {S A : Type} (o : option A) : M S A :=
  match o with
  | Some a => mret a
  | None => fault
  end.

(** Sleep until other threads have run. *)
Definition sleep {S : Type} : M S unit := fun w =>
  match w_sched w with
  | [] => Blocked
  | f :: sched => Ret tt (mk_world (f (w_st w)) sched)
  end.

(** Let another thread run, if there is one. *)
Definition yield {S : Type} : M S unit := fun w =>
  match w_sched w with
  | [] => Ret tt w
  | f :: sched => Ret tt (mk_world (f (w_st w)) sched)
  end.

(** Sleep until a condition holds. *)
Fixpoint wait_turns {S : Type} (cond : S -> bool) (s : S) (sched : list (S -> S)) : option (world S) :=
  if cond s then Some (mk_world s sched)
  else
    match sched with
    | [] => None
    | f :: sched' => wait_turns cond (f s) sched'
    end.

Definition wait_until {S : Type} (cond : S -> bool) : M S unit := fun w =>
  match wait_turns cond (w_st w) (w_sched w) with
  | Some w' => Ret tt w'
  | None => Blocked
  end.

(** Sleep until a condition holds or a timer or a signal ends the wait, which is
    after [n] turns of other threads or when none is left; whether it holds. *)
Fixpoint wait_turns_upto {S : Type} (n : nat) (cond : S -> bool) (s : S) (sched : list (S -> S)) : bool * world S :=
  if cond s then (true, mk_world s sched)
  else
    match n, sched with
    | Datatypes.S n', f :: sched' => wait_turns_upto n' cond (f s) sched'
    | _, _ => (false, mk_world s sched)
    end.

Definition wait_upto {S : Type} (n : nat) (cond : S -> bool) : M S bool := fun w =>
  let '(b, w') := wait_turns_upto n cond (w_st w) (w_sched w) in Ret b w'.

Fixpoint for_each {S A : Type} (l : list A) (f : A -> M S unit) : M S unit :=
  match l with
  | [] => mret tt
  | a :: l' => f a ;;; for_each l' f
  end.

(** ** Running a computation *)

Lemma mbnd_ret {S A B : Type} (c : M S A) (k : A -> M S B) w b w' :
  mbnd c k w = Ret b w' <-> exists a w1, c w = Ret a w1 /\ k a w1 = Ret b w'.
Proof.
  unfold mbnd. destruct (c w) as [a w1| | |]; split; try done; try (by intros (?&?&?&?)).
  - intros E. eauto.
  - by intros (? & ? & ? & ?); simplify_eq.
Qed.

Section Run.
Context {S : Type}.

(** The world with another state. *)
Definition with_st (w : world S) (s : S) : world S := mk_world s (w_sched w).

Lemma run_ret {A B : Type} (a : A) (k : A -> M S B) w : mbnd (mret a) k w = k a w.
Proof. done. Qed.

Lemma run_assoc {A B C : Type} (c : M S A) (k : A -> M S B) (k' : B -> M S C) w :
  mbnd (mbnd c k) k' w = mbnd c (fun a => mbnd (k a) k') w.
Proof. unfold mbnd. by destruct (c w). Qed.

Lemma run_gets {A B : Type} (f : S -> A) (k : A -> M S B) w : mbnd (gets f) k w = k (f (w_st w)) w.
Proof. done. Qed.

Lemma run_or_fault {A B : Type} (a : A) (k : A -> M S B) w : mbnd (or_fault (Some a)) k w = k a w.
Proof. done. Qed.

Lemma run_modify {B : Type} (f : S -> S) (k : unit -> M S B) w :
  mbnd (modify f) k w = k tt (with_st w (f (w_st w))).
Proof. done. Qed.

(** A computation in tail position, as a bind. *)
Lemma run_end {A : Type} (c : M S A) w : c w = mbnd c mret w.
Proof. unfold mbnd. by destruct (c w). Qed.
End Run.

(** ** Running without waiting *)

Section Post.
Context {S : Type}.

Definition W (q : S) : world S := mk_world q [].

(** A computation that starts with no other thread to run: it does not fault,
    and when it returns, its result and the state satisfy the predicate. *)
Definition post {A : Type} (o : outcome S A) (Q : A -> S -> Prop) : Prop :=
  match o with
  | Ret a w => w_sched w = [] /\ Q a (w_st w)
  | Fault => False
  | Blocked | NoFuel => True
  end.

Lemma post_mono {A : Type} (o : outcome S A) (Q Q' : A -> S -> Prop) :
  post o Q -> (forall a q, Q a q -> Q' a q) -> post o Q'.
Proof. destruct o as [a w| | |]; cbn; [|done..]. intros [H1 H2] H. split; auto. Qed.

Lemma post_bind {A B : Type} (c : M S A) (k : A -> M S B) q Q :
  post (c (W q)) (fun a q' => post (k a (W q')) Q) -> post (mbnd c k (W q)) Q.
Proof.
  unfold mbnd. destruct (c (W q)) as [a [q' sched]| | |]; cbn; [|done..]. intros [-> H]. exact H.
Qed.

Lemma post_ret {A : Type} (a : A) q (Q : A -> S -> Prop) : Q a q -> post (mret a (W q)) Q.
Proof. done. Qed.

Lemma post_gets {A B : Type} (f : S -> A) (k : A -> M S B) q Q :
  post (k (f q) (W q)) Q -> post (mbnd (gets f) k (W q)) Q.
Proof. intros H. apply post_bind. done. Qed.

Lemma post_modify {B : Type} f (k : unit -> M S B) q Q :
  post (k tt (W (f q))) Q -> post (mbnd (modify f) k (W q)) Q.
Proof. intros H. apply post_bind. done. Qed.

(** The computation returns, and its result and the state satisfy the predicate. *)
Definition total {A : Type} (o : outcome S A) (Q : A -> S -> Prop) : Prop :=
  match o with
  | Ret a w => w_sched w = [] /\ Q a (w_st w)
  | Fault | Blocked | NoFuel => False
  end.

Lemma total_run {A : Type} (o : outcome S A) Q : total o Q <-> exists a q, o = Ret a (W q) /\ Q a q.
Proof.
  destruct o as [a [q sched]| | |]; cbn; split; try done; try (by intros (?&?&?&?)).
  - intros [-> HQ]. eauto.
  - by intros (a' & q' & E & HQ); simplify_eq.
Qed.

Lemma total_mono {A : Type} (o : outcome S A) (Q Q' : A -> S -> Prop) :
  total o Q -> (forall a q, Q a q -> Q' a q) -> total o Q'.
Proof. destruct o as [a w| | |]; cbn; [|done..]. intros [H1 H2] H. split; auto. Qed.

Lemma total_bind {A B : Type} (c : M S A) (k : A -> M S B) q Q :
  total (c (W q)) (fun a q' => total (k a (W q')) Q) -> total (mbnd c k (W q)) Q.
Proof.
  unfold mbnd. destruct (c (W q)) as [a [q' sched]| | |]; cbn; [|done..]. intros [-> H]. exact H.
Qed.

Lemma total_ret {A : Type} (a : A) q (Q : A -> S -> Prop) : Q a q -> total (mret a (W q)) Q.
Proof. done. Qed.

Lemma total_gets {A B : Type} (f : S -> A) (k : A -> M S B) q Q :
  total (k (f q) (W q)) Q -> total (mbnd (gets f) k (W q)) Q.
Proof. intros H. apply total_bind. done. Qed.

Lemma total_modify {B : Type} f (k : unit -> M S B) q Q :
  total (k tt (W (f q))) Q -> total (mbnd (modify f) k (W q)) Q.
Proof. intros H. apply total_bind. done. Qed.

Lemma total_step {A B : Type} (c : M S A) (k : A -> M S B) q (P : A -> S -> Prop) Q :
  total (c (W q)) P -> (forall a q', P a q' -> total (k a (W q')) Q) -> total (mbnd c k (W q)) Q.
Proof. intros Hc Hk. apply total_bind. eapply total_mono; [exact Hc|exact Hk]. Qed.

Lemma total_wait {B : Type} (cond : S -> bool) (k : unit -> M S B) q Q :
  cond q = true -> total (k tt (W q)) Q -> total (mbnd (wait_until cond) k (W q)) Q.
Proof. intros Hc Hk. apply total_bind. unfold wait_until, W. cbn. by rewrite Hc. Qed.
End Post.

(** ** Running while others run *)

Section Sure.
Context {S : Type}.

(** The computation returns, and its result and the world satisfy the
    predicate. *)
Definition sure {A : Type} (o : outcome S A) (Q : A -> world S -> Prop) : Prop :=
  match o with
  | Ret a w => Q a w
  | Fault | Blocked | NoFuel => False
  end.

Lemma sure_run {A : Type} (o : outcome S A) Q : sure o Q <-> exists a w, o = Ret a w /\ Q a w.
Proof. destruct o as [a w| | |]; cbn; split; try done; try (by intros (?&?&?&?)); [eauto|]. by intros (? & ? & [= <- <-] & ?). Qed.

Lemma sure_mono {A : Type} (o : outcome S A) (Q Q' : A -> world S -> Prop) :
  sure o Q -> (forall a w, Q a w -> Q' a w) -> sure o Q'.
Proof. destruct o; cbn; auto. Qed.

Lemma sure_bind {A B : Type} (c : M S A) (k : A -> M S B) w Q :
  sure (c w) (fun a w' => sure (k a w') Q) -> sure (mbnd c k w) Q.
Proof. unfold mbnd. by destruct (c w). Qed.

Lemma sure_step {A B : Type} (c : M S A) (k : A -> M S B) w P Q :
  sure (c w) P -> (forall a w', P a w' -> sure (k a w') Q) -> sure (mbnd c k w) Q.
Proof. intros Hc Hk. apply sure_bind. eapply sure_mono; [exact Hc|exact Hk]. Qed.

Lemma sure_gets {A B : Type} (f : S -> A) (k : A -> M S B) w Q :
  sure (k (f (w_st w)) w) Q -> sure (mbnd (gets f) k w) Q.
Proof. done. Qed.

Lemma sure_modify {B : Type} f (k : unit -> M S B) w Q :
  sure (k tt (with_st w (f (w_st w)))) Q -> sure (mbnd (modify f) k w) Q.
Proof. done. Qed.
End Sure.

(** ** Running when others may do harm *)

Section Safe.
Context {S : Type}.

(** The computation does not fault, and when it returns, its result and the world
    satisfy the predicate. *)
Definition safe {A : Type} (o : outcome S A) (Q : A -> world S -> Prop) : Prop :=
  match o with
  | Ret a w => Q a w
  | Fault => False
  | Blocked | NoFuel => True
  end.

Lemma safe_mono {A : Type} (o : outcome S A) (Q Q' : A -> world S -> Prop) :
  safe o Q -> (forall a w, Q a w -> Q' a w) -> safe o Q'.
Proof. destruct o; cbn; auto. Qed.

Lemma safe_step {A B : Type} (c : M S A) (k : A -> M S B) w P Q :
  safe (c w) P -> (forall a w', P a w' -> safe (k a w') Q) -> safe (mbnd c k w) Q.
Proof. unfold mbnd. destruct (c w); cbn; auto. Qed.

Lemma safe_ret {A : Type} (a : A) w (Q : A -> world S -> Prop) : Q a w -> safe (mret a w) Q.
Proof. done. Qed.

Lemma sure_safe {A : Type} (o : outcome S A) Q : sure o Q -> safe o Q.
Proof. by destruct o. Qed.
End Safe.
