(* ===== verification/XArray.v ===== *)
(** * XArray: indexed arrays of the kernel

    An xarray (and an idr) as the list of its entries by ascending index, the
    lemmas about loading, storing and erasing, and the interface of the cyclic
    allocation of indices with an instance. *)
From Stdlib Require Import Sorted.
From stdpp Require Import prelude list.
From S2P Require Import Prelude.

(** ** Indexed arrays: an xarray as the list of its entries by ascending index *)

Abbreviation xarray A := (list (Z * A)).

Fixpoint xa_load {A : Type} (x : xarray A) (k : Z) : option A :=
  match x with
  | [] => None
  | (i, v) :: x' => if i =? k then Some v else xa_load x' k
  end.

Fixpoint xa_store {A : Type} (x : xarray A) (k : Z) (v : A) : xarray A :=
  match x with
  | [] => [(k, v)]
  | (i, w) :: x' =>
      if k <? i then (k, v) :: x
      else if i =? k then (k, v) :: x'
      else (i, w) :: xa_store x' k v
  end.

Definition xa_erase {A : Type} (x : xarray A) (k : Z) : xarray A := filter (fun iv => fst iv <> k) x.

(** ** Lemmas: arrays *)

Definition xa_sorted {A : Type} (x : xarray A) : Prop := StronglySorted (fun a b => fst a < fst b) x.

Lemma xa_load_store {A : Type} (x : xarray A) k v k' :
  xa_sorted x -> xa_load (xa_store x k v) k' = if k =? k' then Some v else xa_load x k'.
Proof.
  intros Hs. induction Hs as [|[i w] x Hs IH Hall]; cbn [xa_store xa_load]; [by destruct (k =? k')|].
  destruct (Z.ltb_spec k i) as [Hk|Hk]; [done|]. destruct (Z.eqb_spec i k) as [->|Hi]; cbn [xa_load].
  - by destruct (k =? k').
  - rewrite IH. destruct (Z.eqb_spec i k') as [->|], (Z.eqb_spec k k') as [->|]; done.
Qed.

Lemma xa_load_erase {A : Type} (x : xarray A) k k' :
  xa_load (xa_erase x k) k' = if k =? k' then None else xa_load x k'.
Proof.
  unfold xa_erase. induction x as [|[i w] x IH]; cbn [xa_load]; [by destruct (k =? k')|].
  rewrite filter_cons. case_decide as Hi; cbn [fst] in Hi; cbn [xa_load]; rewrite IH.
  - destruct (Z.eqb_spec i k') as [->|], (Z.eqb_spec k k') as [->|]; done.
  - assert (i = k) as -> by lia. by destruct (Z.eqb_spec k k').
Qed.

Lemma xa_store_keys {A : Type} (x : xarray A) k v y : y ∈ xa_store x k v -> y = (k, v) \/ y ∈ x.
Proof.
  induction x as [|[i w] x IH]; cbn [xa_store]; [rewrite list_elem_of_singleton; auto|].
  destruct (k <? i); [rewrite elem_of_cons; tauto|].
  destruct (i =? k); rewrite !elem_of_cons; [tauto|]. intros [->|H]; [auto|]. destruct (IH H); auto.
Qed.

Lemma xa_sorted_store {A : Type} (x : xarray A) k v : xa_sorted x -> xa_sorted (xa_store x k v).
Proof.
  intros Hs. induction Hs as [|[i w] x Hs IH Hall]; cbn [xa_store]; [repeat constructor|].
  rewrite Forall_forall in Hall. destruct (Z.ltb_spec k i) as [Hk|Hk].
  - constructor; [constructor; [done|by apply Forall_forall]|]. apply Forall_forall. intros y Hy.
    apply elem_of_cons in Hy as [->|Hy]; [done|]. specialize (Hall y Hy). cbn in *. lia.
  - destruct (Z.eqb_spec i k) as [->|Hi].
    + constructor; [done|by apply Forall_forall].
    + constructor; [done|]. apply Forall_forall. intros y Hy. apply xa_store_keys in Hy as [->|Hy]; [cbn; lia|by apply Hall].
Qed.

Lemma xa_sorted_erase {A : Type} (x : xarray A) k : xa_sorted x -> xa_sorted (xa_erase x k).
Proof.
  intros Hs. unfold xa_erase. induction Hs as [|[i w] x Hs IH Hall]; [constructor|]. rewrite filter_cons.
  case_decide; [|done]. constructor; [done|]. rewrite Forall_forall in Hall |- *. intros y Hy.
  apply list_elem_of_filter in Hy as [_ Hy]. by apply Hall.
Qed.

(** The entries of a sorted array are what loading finds. *)
Lemma xa_elem_load {A : Type} (x : xarray A) k v : xa_sorted x -> (k, v) ∈ x <-> xa_load x k = Some v.
Proof.
  intros Hs. induction Hs as [|[i w] x Hs IH Hall]; cbn [xa_load]; [rewrite elem_of_nil; done|].
  rewrite elem_of_cons, IH. rewrite Forall_forall in Hall. destruct (Z.eqb_spec i k) as [->|Hi].
  - split; [|intros [= <-]; auto]. intros [E|E]; [by simplify_eq|].
    apply IH in E. specialize (Hall _ E). cbn in Hall. lia.
  - split; [|auto]. intros [E|E]; [by simplify_eq|done].
Qed.

Lemma xa_erase_absent {A : Type} (x : xarray A) i : xa_sorted x -> xa_load x i = None -> xa_erase x i = x.
Proof.
  intros Hs Hi. unfold xa_erase. induction Hs as [|[k w] x Hs IH Hall]; [done|]. cbn [xa_load] in Hi.
  destruct (Z.eqb_spec k i) as [|Hk]; [done|]. rewrite filter_cons_True by done. by rewrite IH.
Qed.

Lemma xa_load_above {A : Type} (x : xarray A) i : Forall (fun e => i < fst e) x -> xa_load x i = None.
Proof.
  induction 1 as [|[k w] x Hk _ IH]; [done|]. cbn [xa_load]. cbn in Hk.
  destruct (Z.eqb_spec k i); [lia|done].
Qed.

Lemma xa_erase_cons {A : Type} (k i : Z) (w : A) x :
  xa_erase ((k, w) :: x) i = if k =? i then xa_erase x i else (k, w) :: xa_erase x i.
Proof.
  unfold xa_erase. rewrite filter_cons. cbn [fst]. destruct (Z.eqb_spec k i) as [->|Hk].
  - by rewrite decide_False by tauto.
  - by rewrite decide_True.
Qed.

Lemma xa_erase_store {A : Type} (x : xarray A) k v : xa_sorted x -> xa_erase (xa_store x k v) k = xa_erase x k.
Proof.
  induction 1 as [|[i w] x Hs IH Hall]; cbn [xa_store]; [by rewrite xa_erase_cons, Z.eqb_refl|].
  destruct (Z.ltb_spec k i); [by rewrite xa_erase_cons, Z.eqb_refl|]. destruct (Z.eqb_spec i k) as [->|Hi].
  - by rewrite !xa_erase_cons, Z.eqb_refl.
  - rewrite !xa_erase_cons, (proj2 (Z.eqb_neq i k)) by done. by rewrite IH.
Qed.

Lemma xa_erase_head {A : Type} (x : xarray A) i v : xa_sorted ((i, v) :: x) -> xa_erase ((i, v) :: x) i = x.
Proof.
  intros Hs. inversion Hs as [|? ? Hs' Hall]; subst. unfold xa_erase. rewrite filter_cons_False by (cbn; lia).
  clear Hs Hs'. induction Hall as [|[j w] x Hj Hall IH]; [done|]. cbn in Hj. rewrite filter_cons_True by (cbn; lia). by rewrite IH.
Qed.

(** ** Cyclic allocation of indices *)

(** [xa_alloc_cyclic] and [idr_alloc_cyclic]: a free index of the range, after
    the last one given out where there is one, and where the next search starts. *)
Class XaCyclic := xa_alloc_cyclic : xarray Z -> Z -> Z -> Z -> option (Z * Z).

Class XaCyclicLaws (XC : XaCyclic) := {
  cyclic_in_range x lo hi next i next' :
    lo <= hi -> xa_alloc_cyclic x lo hi next = Some (i, next') -> lo <= i <= hi /\ xa_load x i = None;
  cyclic_full x lo hi next :
    xa_alloc_cyclic x lo hi next = None -> forall i, lo <= i <= hi -> xa_load x i <> None;
}.

(** ** An allocator of indices: the next free one of the range, or the first *)

(** The first free index among [i], [i]+1, ..., [n] of them. *)
Fixpoint first_free (x : xarray Z) (n : nat) (i : Z) : option Z :=
  match n with
  | O => None
  | S n' =>
      match xa_load x i with
      | None => Some i
      | Some _ => first_free x n' (i + 1)
      end
  end.

Definition free_from (x : xarray Z) (lo hi from : Z) : option Z :=
  let from := Z.max lo from in first_free x (Z.to_nat (hi - from + 1)) from.

Definition next_free (x : xarray Z) (lo hi next : Z) : option (Z * Z) :=
  match free_from x lo hi next with
  | Some i => Some (i, i + 1)
  | None => match free_from x lo hi lo with Some i => Some (i, i + 1) | None => None end
  end.

Lemma first_free_spec x n i :
  match first_free x n i with
  | Some k => i <= k < i + Z.of_nat n /\ xa_load x k = None
  | None => forall k, i <= k < i + Z.of_nat n -> xa_load x k <> None
  end.
Proof.
  revert i. induction n as [|n IH]; intros i; cbn [first_free]; [lia|].
  destruct (xa_load x i) as [v|] eqn:E; [|split; [lia|done]]. specialize (IH (i + 1)).
  destruct (first_free x n (i + 1)) as [k|]; [split; [lia|apply IH]|].
  intros k Hk. destruct (Z.eq_dec k i) as [->|]; [congruence|]. apply IH. lia.
Qed.

Lemma free_from_in x lo hi from i : free_from x lo hi from = Some i -> lo <= i <= hi /\ xa_load x i = None.
Proof.
  unfold free_from. intros E. pose proof (first_free_spec x (Z.to_nat (hi - Z.max lo from + 1)) (Z.max lo from)) as S.
  rewrite E in S. split; [lia|apply S].
Qed.

Lemma free_from_none x lo hi i : free_from x lo hi lo = None -> lo <= i <= hi -> xa_load x i <> None.
Proof.
  unfold free_from. intros E Hi. pose proof (first_free_spec x (Z.to_nat (hi - Z.max lo lo + 1)) (Z.max lo lo)) as S.
  rewrite E in S. apply S. lia.
Qed.

#[export] Instance NextFree : XaCyclic := next_free.

#[export] Instance NextFreeLaws : XaCyclicLaws NextFree.
Proof.
  split; unfold xa_alloc_cyclic, NextFree, next_free.
  - intros x lo hi next i next' _. destruct (free_from x lo hi next) as [j|] eqn:E1.
    + intros [= <- <-]. by apply (free_from_in x lo hi next).
    + destruct (free_from x lo hi lo) as [j|] eqn:E2; [|done]. intros [= <- <-]. by apply (free_from_in x lo hi lo).
  - intros x lo hi next. destruct (free_from x lo hi next); [done|]. destruct (free_from x lo hi lo) eqn:E2; [done|].
    intros _ i Hi. by apply (free_from_none x lo hi).
Qed.
