(* ===== verification/CmdDb.v ===== *)
(** * CmdDb: the command database (src/drivers/soc/qcom/cmd-db.c)

    The boot loader leaves in shared memory a directory that maps resource
    names to resource addresses; RPMh clients look their resources up in it.
    The database is read at byte level: a pointer is an address, a field is a
    little-endian load at the field's offset. *)
From stdpp Require Import prelude list.
From S2P Require Import Prelude.

(** ** Layout *)

Definition MAX_SLV_ID : nat := 8.

Definition SLAVE_ID_MASK : Z := 7.

Definition SLAVE_ID_SHIFT : Z := 16.

Definition CMD_DB_STANDALONE_MASK : Z := BIT 0.

(** [enum cmd_db_hw_type] *)
Definition CMD_DB_HW_INVALID : Z := 0.

Definition CMD_DB_HW_ARC : Z := 3.

Definition CMD_DB_HW_VRM : Z := 4.

Definition CMD_DB_HW_BCM : Z := 5.

Definition FIELD_GET (h l x : Z) : Z := Z.shiftr (Z.land x (GENMASK h l)) l.

Definition SLAVE_ID (addr : Z) : Z := FIELD_GET 19 16 addr.

Definition VRM_ADDR (addr : Z) : Z := FIELD_GET 19 4 addr.

(** struct entry_header: id[8], priority[2], addr, len, offset. *)
Definition sizeof_entry_header : Z := 24.

Definition ent_id (m : mem) (ent : Z) : list Z := load_bytes 8 m ent.

Definition ent_addr (m : mem) (ent : Z) : Z := rd32 m (ent + 16).

Definition ent_len (m : mem) (ent : Z) : Z := rd16 m (ent + 20).

Definition ent_offset (m : mem) (ent : Z) : Z := rd16 m (ent + 22).

(** struct rsc_hdr: slv_id, header_offset, data_offset, cnt, version,
    reserved[3]. *)
Definition sizeof_rsc_hdr : Z := 16.

Definition rsc_slv_id (m : mem) (rh : Z) : Z := rd16 m rh.

Definition rsc_header_offset (m : mem) (rh : Z) : Z := rd16 m (rh + 2).

Definition rsc_data_offset (m : mem) (rh : Z) : Z := rd16 m (rh + 4).

Definition rsc_cnt (m : mem) (rh : Z) : Z := rd16 m (rh + 6).

(** struct cmd_db_header: version, magic[4], header[MAX_SLV_ID], checksum,
    reserved, data[]. *)
Definition hdr_magic (m : mem) (h : Z) : list Z := load_bytes 4 m (h + 4).

Definition hdr_rsc (h i : Z) : Z := h + 8 + sizeof_rsc_hdr * i.

Definition hdr_reserved (m : mem) (h : Z) : Z := rd32 m (h + 140).

Definition hdr_data (h : Z) : Z := h + 144.

Definition CMD_DB_MAGIC : list Z := [219; 48; 3; 12].

(** The driver's static state: where the database is mapped (NULL before
    probe) and the memory it is mapped in. *)
Record cmd_db := {
  cmd_db_header : option Z;
  cmd_db_mem : mem;
}.

(** ** Operations *)

Definition cmd_db_magic_matches (m : mem) (header : Z) : bool :=
  bool_decide (hdr_magic m header = CMD_DB_MAGIC).

Definition rsc_to_entry_header (m : mem) (header rh : Z) : Z :=
  hdr_data header + rsc_header_offset m rh.

Definition rsc_offset (m : mem) (header rh ent : Z) : Z :=
  hdr_data header + rsc_data_offset m rh + ent_offset m ent.

Definition cmd_db_ready (db : cmd_db) : Z :=
  match cmd_db_header db with
  | None => - EPROBE_DEFER
  | Some h => if negb (cmd_db_magic_matches (cmd_db_mem db) h) then - EINVAL else 0
  end.

(** [strtomem_pad(query, id, 0)]: at most eight bytes of the string, the rest
    zero. *)
Definition strtomem_pad (id : list Z) : list Z := take 8 (id ++ replicate 8 0).

(** The inner loop of [cmd_db_get_header]: [n] entries from [ent] on. *)
Fixpoint scan_entries (m : mem) (query : list Z) (ent : Z) (n : nat) : option Z :=
  match n with
  | O => None
  | S k =>
      if bool_decide (ent_id m ent = query) then Some ent
      else scan_entries m query (ent + sizeof_entry_header) k
  end.

(** Its outer loop: [n] resource headers from index [i] on, up to the first
    with a zero slave id. *)
Fixpoint scan_slaves (m : mem) (h : Z) (query : list Z) (i : Z) (n : nat)
  : option (Z * Z) :=
  match n with
  | O => None
  | S k =>
      let rh := hdr_rsc h i in
      if rsc_slv_id m rh =? 0 then None
      else
        match scan_entries m query (rsc_to_entry_header m h rh) (Z.to_nat (rsc_cnt m rh)) with
        | Some ent => Some (ent, rh)
        | None => scan_slaves m h query (i + 1) k
        end
  end.

(** [cmd_db_get_header]: the entry and the resource header of [id]. *)
Definition cmd_db_get_header (db : cmd_db) (id : list Z) : result (Z * Z) :=
  let ret := cmd_db_ready db in
  match cmd_db_header db with
  | Some h =>
      if negb (ret =? 0) then Err ret
      else
        match scan_slaves (cmd_db_mem db) h (strtomem_pad id) 0 MAX_SLV_ID with
        | Some r => Ok r
        | None => Err (- ENODEV)
        end
  | None => Err ret
  end.

Definition cmd_db_read_addr (db : cmd_db) (id : list Z) : Z :=
  match cmd_db_get_header db id with
  | Ok (ent, _) => ent_addr (cmd_db_mem db) ent
  | Err _ => 0
  end.

(** The pointer to the auxiliary data and its length. *)
Definition cmd_db_read_aux_data (db : cmd_db) (id : list Z) : result (Z * Z) :=
  match cmd_db_header db, cmd_db_get_header db id with
  | Some h, Ok (ent, rh) =>
      Ok (rsc_offset (cmd_db_mem db) h rh ent, ent_len (cmd_db_mem db) ent)
  | _, Err e => Err e
  | None, Ok _ => Err (- EPROBE_DEFER)
  end.

Definition cmd_db_match_resource_addr (addr1 addr2 : Z) : bool :=
  if addr1 =? addr2 then true
  else if (SLAVE_ID addr1 =? CMD_DB_HW_VRM) && (VRM_ADDR addr1 =? VRM_ADDR addr2) then true
  else false.

Definition cmd_db_read_slave_id (db : cmd_db) (id : list Z) : Z :=
  match cmd_db_get_header db id with
  | Ok (ent, _) =>
      Z.land (Z.shiftr (ent_addr (cmd_db_mem db) ent) SLAVE_ID_SHIFT) SLAVE_ID_MASK
  | Err _ => CMD_DB_HW_INVALID
  end.

(** [cmd_db_is_standalone] reads the header before it looks at the result of
    [cmd_db_ready]: [None] is the fault of reading through a NULL header. *)
Definition cmd_db_is_standalone (db : cmd_db) : option bool :=
  let ret := cmd_db_ready db in
  match cmd_db_header db with
  | None => None
  | Some h =>
      let standalone := Z.land (hdr_reserved (cmd_db_mem db) h) CMD_DB_STANDALONE_MASK in
      Some ((ret =? 0) && truth standalone)
  end.

(** [cmd_db_dev_probe]: [rmem] tells whether the reserved memory was found,
    [mapped] is what memremap returned. *)
Definition cmd_db_dev_probe (db : cmd_db) (rmem : bool) (mapped : option Z) : Z * cmd_db :=
  if negb rmem then (- EINVAL, db)
  else
    let db' := {| cmd_db_header := mapped; cmd_db_mem := cmd_db_mem db |} in
    match mapped with
    | None => (- ENOMEM, db')
    | Some h => if negb (cmd_db_magic_matches (cmd_db_mem db) h) then (- EINVAL, db') else (0, db')
    end.

(** ** Specification: the directory as a list

    All entries of the database in the order the headers list them, each with
    the resource header it belongs to. *)

Fixpoint entries_of (ent : Z) (n : nat) : list Z :=
  match n with
  | O => []
  | S k => ent :: entries_of (ent + sizeof_entry_header) k
  end.

Fixpoint directory_from (m : mem) (h i : Z) (n : nat) : list (Z * Z) :=
  match n with
  | O => []
  | S k =>
      let rh := hdr_rsc h i in
      if rsc_slv_id m rh =? 0 then []
      else
        map (fun ent => (ent, rh))
          (entries_of (rsc_to_entry_header m h rh) (Z.to_nat (rsc_cnt m rh)))
        ++ directory_from m h (i + 1) k
  end.

Definition directory (m : mem) (h : Z) : list (Z * Z) := directory_from m h 0 MAX_SLV_ID.

(** ** Lemmas *)

Lemma scan_entries_find (m : mem) (query : list Z) (ent : Z) (n : nat) (rh : Z) :
  (fun e => (e, rh)) <$> scan_entries m query ent n =
  List.find (fun er : Z * Z => bool_decide (ent_id m (fst er) = query))
    (map (fun e => (e, rh)) (entries_of ent n)).
Proof.
  revert ent. induction n as [|n IH]; intros ent; [done|]. cbn.
  case_goal; [done|]. apply IH.
Qed.

Lemma find_app {A} (f : A -> bool) l k :
  List.find f (l ++ k) =
  match List.find f l with
  | Some x => Some x
  | None => List.find f k
  end.
Proof. induction l as [|x l IH]; cbn; [done|]. by destruct (f x). Qed.

Lemma scan_slaves_find (m : mem) (h : Z) (query : list Z) (i : Z) (n : nat) :
  scan_slaves m h query i n =
  List.find (fun er : Z * Z => bool_decide (ent_id m (fst er) = query)) (directory_from m h i n).
Proof.
  revert i. induction n as [|n IH]; intros i; [done|]. cbn [scan_slaves directory_from].
  cbv zeta. case_goal; [done|]. rewrite find_app, <- scan_entries_find, <- IH.
  by destruct (scan_entries _ _ _ _).
Qed.

Lemma length_strtomem_pad id : length (strtomem_pad id) = 8%nat.
Proof.
  unfold strtomem_pad. rewrite length_take, length_app, length_replicate. lia.
Qed.

Lemma find_unique {A} (f : A -> bool) l x :
  x ∈ l -> f x = true -> (forall y, y ∈ l -> f y = true -> y = x) -> List.find f l = Some x.
Proof.
  induction l as [|y l IH]; intros Hin Hf Hu; [by apply not_elem_of_nil in Hin|].
  cbn. destruct (f y) eqn:E.
  - f_equal. apply Hu; [by left|done].
  - apply elem_of_cons in Hin as [->|Hin]; [congruence|].
    apply IH; auto. intros z Hz. apply Hu. by right.
Qed.

Lemma SLAVE_ID_VRM_ADDR a : SLAVE_ID a = Z.shiftr (VRM_ADDR a) 12.
Proof.
  unfold SLAVE_ID, VRM_ADDR, FIELD_GET, GENMASK. apply Z.bits_inj'. intros i Hi.
  rewrite !Z.shiftr_spec, !Z.land_spec, !Z.shiftl_spec by lia.
  replace (i + 12 + 4) with (i + 16) by lia. f_equal.
  destruct (Z.ltb_spec i 4).
  - rewrite !Z.ones_spec_low by lia. done.
  - rewrite !Z.ones_spec_high by lia. done.
Qed.

Lemma match_resource_addr_iff a b :
  cmd_db_match_resource_addr a b = true <->
  a = b \/ (SLAVE_ID a = CMD_DB_HW_VRM /\ VRM_ADDR a = VRM_ADDR b).
Proof.
  unfold cmd_db_match_resource_addr.
  destruct (Z.eqb_spec a b); [intuition congruence|].
  destruct (Z.eqb_spec (SLAVE_ID a) CMD_DB_HW_VRM),
    (Z.eqb_spec (VRM_ADDR a) (VRM_ADDR b)); cbn [andb];
    intuition congruence.
Qed.

(** ** Properties *)

(** With the database mapped and its magic right, the two nested loops of
    [cmd_db_get_header] return the first entry of the flattened directory
    whose padded name equals the padded query, and -ENODEV when there is none. *)
Theorem cmd_db_get_header_directory (db : cmd_db) (h : Z) (id : list Z) :
  cmd_db_header db = Some h ->
  cmd_db_ready db = 0 ->
  cmd_db_get_header db id =
  match List.find (fun er : Z * Z => bool_decide (ent_id (cmd_db_mem db) (fst er) = strtomem_pad id))
          (directory (cmd_db_mem db) h) with
  | Some er => Ok er
  | None => Err (- ENODEV)
  end.
Proof.
  intros Hh Hr. unfold cmd_db_get_header, directory. rewrite Hh, Hr, scan_slaves_find. done.
Qed.

(** A resource listed in the directory under a name no other entry has is
    found by that name: its address, its slave id and its auxiliary data are
    the ones of its own entry. *)
Theorem cmd_db_lookup_registered (db : cmd_db) (h : Z) (id : list Z) (ent rh : Z) :
  cmd_db_header db = Some h ->
  cmd_db_ready db = 0 ->
  (ent, rh) ∈ directory (cmd_db_mem db) h ->
  ent_id (cmd_db_mem db) ent = strtomem_pad id ->
  (forall er, er ∈ directory (cmd_db_mem db) h ->
     ent_id (cmd_db_mem db) (fst er) = strtomem_pad id -> er = (ent, rh)) ->
  cmd_db_read_addr db id = ent_addr (cmd_db_mem db) ent /\
  cmd_db_read_slave_id db id =
    Z.land (Z.shiftr (ent_addr (cmd_db_mem db) ent) SLAVE_ID_SHIFT) SLAVE_ID_MASK /\
  cmd_db_read_aux_data db id =
    Ok (rsc_offset (cmd_db_mem db) h rh ent, ent_len (cmd_db_mem db) ent).
Proof.
  intros Hh Hr Hin Hid Hu.
  assert (cmd_db_get_header db id = Ok (ent, rh)) as E.
  { unfold cmd_db_get_header. rewrite Hh, Hr, scan_slaves_find.
    erewrite find_unique; [done|exact Hin|by apply bool_decide_eq_true|].
    intros er Hin' ?%bool_decide_eq_true. auto. }
  unfold cmd_db_read_addr, cmd_db_read_slave_id, cmd_db_read_aux_data. by rewrite E, Hh.
Qed.

(** [cmd_db_match_resource_addr] is an equivalence on addresses: the sets
    of addresses it identifies are the resources RPMh serialises. *)
Theorem cmd_db_match_resource_addr_equivalence :
  Equivalence (fun a b => cmd_db_match_resource_addr a b = true).
Proof.
  split.
  - intros a. rewrite match_resource_addr_iff. by left.
  - intros a b. rewrite !match_resource_addr_iff, !SLAVE_ID_VRM_ADDR. intros [->|[H1 H2]]; [by left|].
    right. by rewrite <- H2.
  - intros a b c. rewrite !match_resource_addr_iff, !SLAVE_ID_VRM_ADDR.
    intros [->|[H1 H2]] [->|[H3 H4]]; [by left|by right|by right|].
    right. split; [done|]. congruence.
Qed.

(** While the database is not ready every query answers with its error
    value: address 0, the invalid slave id, and the error of [cmd_db_ready];
    [cmd_db_is_standalone] then reads through NULL exactly when nothing was
    mapped. *)
Theorem cmd_db_not_ready_queries (db : cmd_db) (id : list Z) :
  cmd_db_ready db <> 0 ->
  cmd_db_read_addr db id = 0 /\
  cmd_db_read_slave_id db id = CMD_DB_HW_INVALID /\
  cmd_db_read_aux_data db id = Err (cmd_db_ready db) /\
  (cmd_db_is_standalone db = None <-> cmd_db_header db = None) /\
  cmd_db_is_standalone db <> Some true.
Proof.
  intros Hr.
  assert (cmd_db_get_header db id = Err (cmd_db_ready db)) as E.
  { unfold cmd_db_get_header. destruct (cmd_db_header db); [|done].
    by rewrite (proj2 (Z.eqb_neq _ _) Hr). }
  unfold cmd_db_read_addr, cmd_db_read_slave_id, cmd_db_read_aux_data, cmd_db_is_standalone.
  rewrite E. rewrite (proj2 (Z.eqb_neq _ _) Hr).
  destruct (cmd_db_header db); cbn; naive_solver.
Qed.

(** ** A concrete database: one VRM resource at 0x40100 named vreg with two
    bytes of auxiliary data, mapped at address 0. *)

Definition demo_mem : mem :=
  store_bytes (store_bytes (store_bytes (fun _ => 0) 4 CMD_DB_MAGIC)
     8 [4; 0; 0; 0; 32; 0; 1; 0])
     144 ([118; 114; 101; 103; 0; 0; 0; 0] ++ replicate 8 0 ++ [0; 1; 4; 0] ++ [2; 0] ++ [0; 0]).

Definition demo_db : cmd_db := {| cmd_db_header := Some 0; cmd_db_mem := demo_mem |}.

Definition demo_name : list Z := [118; 114; 101; 103].

Lemma cmd_db_get_header_directory_witness :
  cmd_db_get_header demo_db demo_name =
  match List.find (fun er : Z * Z => bool_decide (ent_id demo_mem (fst er) = strtomem_pad demo_name))
          (directory demo_mem 0) with
  | Some er => Ok er
  | None => Err (- ENODEV)
  end /\ cmd_db_get_header demo_db demo_name = Ok (144, 8).
Proof.
  split; [|by vm_compute].
  apply (cmd_db_get_header_directory demo_db 0 demo_name); by vm_compute.
Defined.

Lemma cmd_db_lookup_registered_witness :
  cmd_db_read_addr demo_db demo_name = 262400 /\
  cmd_db_read_slave_id demo_db demo_name = CMD_DB_HW_VRM /\
  cmd_db_read_aux_data demo_db demo_name = Ok (176, 2).
Proof.
  destruct (cmd_db_lookup_registered demo_db 0 demo_name 144 8) as (H1 & H2 & H3).
  - done.
  - by vm_compute.
  - change (directory (cmd_db_mem demo_db) 0) with (directory demo_mem 0).
    replace (directory demo_mem 0) with [(144, 8)] by (by vm_compute). by left.
  - by vm_compute.
  - change (directory (cmd_db_mem demo_db) 0) with (directory demo_mem 0).
    replace (directory demo_mem 0) with [(144, 8)] by (by vm_compute).
    intros er Her _. by apply list_elem_of_singleton in Her.
  - rewrite H1, H2, H3. clear. repeat split; vm_compute; reflexivity.
Defined.

Lemma cmd_db_not_ready_queries_witness :
  let db := {| cmd_db_header := None; cmd_db_mem := demo_mem |} in
  cmd_db_ready db = - EPROBE_DEFER /\ cmd_db_read_addr db demo_name = 0 /\
  cmd_db_is_standalone db = None.
Proof.
  intros db. split; [done|].
  destruct (cmd_db_not_ready_queries db demo_name) as (H & _ & _ & H2 & _); [done|].
  split; [exact H|]. by apply H2.
Defined.
