(* ===== verification/RpmhRsc.v ===== *)
(** * RpmhRsc: the RPMh resource state coordinator
      (src/drivers/soc/qcom/rpmh-rsc.c)

    One DRV of an RSC: its trigger command sets (TCSes) grouped by type and
    channel, the software state that says which are in use, and the registers
    they are programmed through. A register write is visible to the next read
    of the same register; registers the hardware changes on its own while the
    driver polls them are inputs of the operation that polls. Locks, barriers,
    delays, traces and log messages have no effect on this state. *)
From stdpp Require Import prelude list.
From S2P Require Import Prelude CmdDb.

(** ** Requests *)

Inductive rpmh_state :=
| RPMH_SLEEP_STATE
| RPMH_WAKE_ONLY_STATE
| RPMH_ACTIVE_ONLY_STATE.

#[export] Instance rpmh_state_eq_dec : EqDecision rpmh_state.
Proof. solve_decision. Defined.

Record tcs_cmd := mk_cmd {
  cmd_addr : Z;
  cmd_data : Z;
  cmd_wait : Z;
}.

Definition zero_cmd : tcs_cmd := mk_cmd 0 0 0.

(** struct tcs_request; the array [cmds] of [num_cmds] commands is a list. *)
Record tcs_request := mk_msg {
  msg_state : rpmh_state;
  wait_for_compl : bool;
  cmds : list tcs_cmd;
}.

#[export] Instance eta_tcs_request : Settable tcs_request :=
  fun m => mk_msg (msg_state m) (wait_for_compl m) (cmds m).

Definition num_cmds (msg : tcs_request) : Z := Z.of_nat (length (cmds msg)).

(** struct rpmh_request: the message and the completion to signal, by name. *)
Record rpmh_request := mk_req {
  req_msg : tcs_request;
  req_completion : option Z;
}.

#[export] Instance eta_rpmh_request : Settable rpmh_request :=
  fun r => mk_req (req_msg r) (req_completion r).

(** ** Constants and register tables *)

Definition CH0 : Z := 0.

Definition CH1 : Z := 1.

Definition MAX_CHANNEL : nat := 2.

Definition TCS_TYPE_NR : nat := 5.

Definition MAX_TCS_PER_TYPE : Z := 3.

Definition SLEEP_TCS : nat := 0.

Definition WAKE_TCS : nat := 1.

Definition ACTIVE_TCS : nat := 2.

Definition CONTROL_TCS : nat := 3.

Definition FAST_PATH_TCS : nat := 4.

Definition TCS_AMC_MODE_ENABLE : Z := BIT 16.

Definition TCS_AMC_MODE_TRIGGER : Z := BIT 24.

Definition CMD_MSGID_LEN : Z := 8.

Definition CMD_MSGID_RESP_REQ : Z := BIT 8.

Definition CMD_MSGID_WRITE : Z := BIT 16.

Definition CH0_CHN_BUSY : Z := BIT 0.

Definition CH1_CHN_BUSY : Z := BIT 1.

Definition CH0_WAKE_TCS_STATUS : Z := BIT 0.

Definition CH1_WAKE_TCS_STATUS : Z := BIT 2.

Definition CH_CLEAR_STATUS : Z := BIT 31.

Definition RSC_DRV_CTL_TCS_DATA_HI : Z := 56.

Definition RSC_DRV_CTL_TCS_DATA_HI_MASK : Z := 16777215.

Definition RSC_DRV_CTL_TCS_DATA_HI_VALID : Z := BIT 31.

Definition RSC_DRV_CTL_TCS_DATA_LO : Z := 64.

Definition RSC_DRV_CTL_TCS_DATA_LO_MASK : Z := 4294967295.

Definition RSC_DRV_CTL_TCS_DATA_SIZE : Z := 32.

Inductive rsc_reg :=
| RSC_DRV_TCS_OFFSET
| RSC_DRV_CMD_OFFSET
| DRV_SOLVER_CONFIG
| DRV_PRNT_CHLD_CONFIG
| RSC_DRV_IRQ_ENABLE
| RSC_DRV_IRQ_STATUS
| RSC_DRV_IRQ_CLEAR
| RSC_DRV_CMD_WAIT_FOR_CMPL
| RSC_DRV_CONTROL
| RSC_DRV_STATUS
| RSC_DRV_CMD_ENABLE
| RSC_DRV_CMD_MSGID
| RSC_DRV_CMD_ADDR
| RSC_DRV_CMD_DATA
| RSC_DRV_CMD_STATUS
| RSC_DRV_CMD_RESP_DATA
| RSC_DRV_CHN_TCS_TRIGGER
| RSC_DRV_CHN_TCS_COMPLETE
| RSC_DRV_CHN_SEQ_BUSY
| RSC_DRV_CHN_SEQ_PC
| RSC_DRV_CHN_UPDATE
| RSC_DRV_CHN_BUSY
| RSC_DRV_CHN_EN.

Definition rpmh_rsc_reg_offset_ver_2_7 (r : rsc_reg) : Z :=
  match r with
  | RSC_DRV_TCS_OFFSET => 672
  | RSC_DRV_CMD_OFFSET => 20
  | DRV_SOLVER_CONFIG => 4
  | DRV_PRNT_CHLD_CONFIG => 12
  | RSC_DRV_IRQ_ENABLE => 0
  | RSC_DRV_IRQ_STATUS => 4
  | RSC_DRV_IRQ_CLEAR => 8
  | RSC_DRV_CMD_WAIT_FOR_CMPL => 16
  | RSC_DRV_CONTROL => 20
  | RSC_DRV_STATUS => 24
  | RSC_DRV_CMD_ENABLE => 28
  | RSC_DRV_CMD_MSGID => 48
  | RSC_DRV_CMD_ADDR => 52
  | RSC_DRV_CMD_DATA => 56
  | RSC_DRV_CMD_STATUS => 60
  | RSC_DRV_CMD_RESP_DATA => 64
  | _ => 0
  end.

Definition rpmh_rsc_reg_offset_ver_3_0 (r : rsc_reg) : Z :=
  match r with
  | RSC_DRV_TCS_OFFSET => 672
  | RSC_DRV_CMD_OFFSET => 24
  | DRV_SOLVER_CONFIG => 4
  | DRV_PRNT_CHLD_CONFIG => 12
  | RSC_DRV_IRQ_ENABLE => 0
  | RSC_DRV_IRQ_STATUS => 4
  | RSC_DRV_IRQ_CLEAR => 8
  | RSC_DRV_CMD_WAIT_FOR_CMPL => 32
  | RSC_DRV_CONTROL => 36
  | RSC_DRV_STATUS => 40
  | RSC_DRV_CMD_ENABLE => 44
  | RSC_DRV_CMD_MSGID => 52
  | RSC_DRV_CMD_ADDR => 56
  | RSC_DRV_CMD_DATA => 60
  | RSC_DRV_CMD_STATUS => 64
  | RSC_DRV_CMD_RESP_DATA => 68
  | RSC_DRV_CHN_SEQ_BUSY => 1124
  | RSC_DRV_CHN_SEQ_PC => 1128
  | RSC_DRV_CHN_TCS_TRIGGER => 1168
  | RSC_DRV_CHN_TCS_COMPLETE => 1172
  | RSC_DRV_CHN_UPDATE => 1176
  | RSC_DRV_CHN_BUSY => 1180
  | RSC_DRV_CHN_EN => 1184
  end.

(** The same table but for the distance between two TCSes. *)
Definition rpmh_rsc_reg_offset_ver_3_0_hw_channel (r : rsc_reg) : Z :=
  match r with
  | RSC_DRV_TCS_OFFSET => 336
  | _ => rpmh_rsc_reg_offset_ver_3_0 r
  end.

(** ** State *)

(** struct tcs_group; [tg_drv] is the test [tcs->drv != NULL]. *)
Record tcs_group := mk_tcs {
  tg_drv : bool;
  tg_type : nat;
  tg_mask : Z;
  tg_offset : Z;
  tg_num_tcs : Z;
  tg_ncpt : Z;
  tg_req : list (option rpmh_request);
  tg_slots : Z;
}.

#[export] Instance eta_tcs_group : Settable tcs_group :=
  fun t => mk_tcs (tg_drv t) (tg_type t) (tg_mask t) (tg_offset t) (tg_num_tcs t) (tg_ncpt t)
             (tg_req t) (tg_slots t).

Definition zero_tcs : tcs_group := mk_tcs false 0 0 0 0 0 (replicate 3 None) 0.

#[export] Instance tcs_group_inhabited : Inhabited tcs_group := populate zero_tcs.

Record drv_channel := mk_ch {
  ch_tcs : list tcs_group;
  ch_initialized : bool;
}.

#[export] Instance eta_drv_channel : Settable drv_channel :=
  fun c => mk_ch (ch_tcs c) (ch_initialized c).

Definition zero_ch : drv_channel := mk_ch (replicate TCS_TYPE_NR zero_tcs) false.

#[export] Instance drv_channel_inhabited : Inhabited drv_channel := populate zero_ch.

(** struct rsc_drv without its client (which is the state of Rpmh.v):
    [drv_tcs] is the member [tcs], [mmio] the registers by address,
    [completed] the completions signalled so far, [drv_genpd_nb] whether the
    power-domain notifier is installed. *)
Record rsc_drv := mk_drv {
  regs : rsc_reg -> Z;
  base : Z;
  tcs_base : Z;
  tcs_distance : Z;
  drv_num_tcs : Z;
  num_channels : Z;
  in_solver_mode : bool;
  cpus_in_pm : Z;
  drv_genpd_nb : bool;
  drv_tcs : list tcs_group;
  ch : list drv_channel;
  tcs_in_use : Z;
  mmio : mem;
  completed : list Z;
}.

#[export] Instance eta_rsc_drv : Settable rsc_drv :=
  fun d => mk_drv (regs d) (base d) (tcs_base d) (tcs_distance d) (drv_num_tcs d) (num_channels d)
             (in_solver_mode d) (cpus_in_pm d) (drv_genpd_nb d) (drv_tcs d) (ch d) (tcs_in_use d)
             (mmio d) (completed d).

(** [drv->ch[c].tcs[type]] *)
Definition tcs_of (d : rsc_drv) (c : Z) (type : nat) : tcs_group :=
  ch_tcs (ch d !!! Z.to_nat c) !!! type.

Definition set_tcs (d : rsc_drv) (c : Z) (type : nat) (t : tcs_group) : rsc_drv :=
  let cc := ch d !!! Z.to_nat c in
  d <| ch := <[Z.to_nat c := cc <| ch_tcs := <[type := t]> (ch_tcs cc) |>]> (ch d) |>.

(** ** Register access *)

Definition readl (d : rsc_drv) (a : Z) : Z := mmio d a.

Definition writel (d : rsc_drv) (v a : Z) : rsc_drv := d <| mmio := upd (mmio d) a (u32 v) |>.

Definition tcs_reg_addr (d : rsc_drv) (reg tcs_id : Z) : Z :=
  if tcs_distance d =? 0 then tcs_base d + regs d RSC_DRV_TCS_OFFSET * tcs_id + reg
  else tcs_base d + tcs_distance d * tcs_id + reg.

Definition tcs_cmd_addr (d : rsc_drv) (reg tcs_id cmd_id : Z) : Z :=
  tcs_reg_addr d reg tcs_id + regs d RSC_DRV_CMD_OFFSET * cmd_id.

Definition read_tcs_cmd (d : rsc_drv) (reg tcs_id cmd_id : Z) : Z :=
  readl d (tcs_cmd_addr d reg tcs_id cmd_id).

Definition read_tcs_reg (d : rsc_drv) (reg tcs_id : Z) : Z := readl d (tcs_reg_addr d reg tcs_id).

Definition write_tcs_cmd (d : rsc_drv) (reg tcs_id cmd_id data : Z) : rsc_drv :=
  writel d data (tcs_cmd_addr d reg tcs_id cmd_id).

Definition write_tcs_reg (d : rsc_drv) (reg tcs_id data : Z) : rsc_drv :=
  writel d data (tcs_reg_addr d reg tcs_id).

(** The read-back loop waits and logs; it changes nothing else. *)
Definition write_tcs_reg_sync (d : rsc_drv) (reg tcs_id data : Z) : rsc_drv :=
  writel d data (tcs_reg_addr d reg tcs_id).

(** ** TCS groups *)

Definition bitmap_empty (b n : Z) : bool := Z.land b (Z.ones n) =? 0.

(** The loop of [tcs_invalidate] over the TCSes [m], [m]+1, ... *)
Fixpoint clear_tcses (d : rsc_drv) (m : Z) (n : nat) : rsc_drv :=
  match n with
  | O => d
  | S k =>
      let d1 := write_tcs_reg_sync d (regs d RSC_DRV_CMD_ENABLE) m 0 in
      let d2 := write_tcs_reg_sync d1 (regs d1 RSC_DRV_CMD_WAIT_FOR_CMPL) m 0 in
      clear_tcses d2 (m + 1) k
  end.

Definition tcs_invalidate (d : rsc_drv) (type : nat) (c : Z) : rsc_drv :=
  let tcs := tcs_of d c type in
  if bitmap_empty (tg_slots tcs) (tg_ncpt tcs * tg_num_tcs tcs) then d
  else
    let d1 := clear_tcses d (tg_offset tcs) (Z.to_nat (tg_num_tcs tcs)) in
    set_tcs d1 c type ((tcs_of d1 c type) <| tg_slots := 0 |>).

Definition rpmh_rsc_invalidate (d : rsc_drv) (c : Z) : rsc_drv :=
  tcs_invalidate (tcs_invalidate d SLEEP_TCS c) WAKE_TCS c.

(** [rpmh_rsc_get_channel]: [polls] are the pairs (CHN_UPDATE, CHN_BUSY) read
    by the successive turns of its loop; [None] when none of them settles. *)
Fixpoint rpmh_rsc_get_channel (d : rsc_drv) (polls : list (Z * Z)) : option Z :=
  if num_channels d =? 1 then Some CH0
  else
    match polls with
    | [] => None
    | (chn_update, chn_busy) :: more =>
        if negb (chn_busy =? chn_update) then rpmh_rsc_get_channel d more
        else if truth (Z.land chn_busy CH0_CHN_BUSY) then Some CH1
        else if truth (Z.land chn_busy CH1_CHN_BUSY) then Some CH0
        else Some (- EBUSY)
    end.

(** [get_tcs_for_msg]: the type of the group that carries a request. *)
Definition get_tcs_for_msg (d : rsc_drv) (state : rpmh_state) (c : Z) : nat :=
  let type :=
    match state with
    | RPMH_ACTIVE_ONLY_STATE => ACTIVE_TCS
    | RPMH_WAKE_ONLY_STATE => WAKE_TCS
    | RPMH_SLEEP_STATE => SLEEP_TCS
    end in
  if bool_decide (state = RPMH_ACTIVE_ONLY_STATE) && (tg_num_tcs (tcs_of d c type) =? 0)
  then WAKE_TCS else type.

(** [get_req_from_tcs]: the channel it stores and the stashed request. *)
Fixpoint get_req_from (d : rsc_drv) (tcs_id i : Z) (n : nat) : option (Z * option rpmh_request) :=
  match n with
  | O => None
  | S k =>
      if negb (ch_initialized (ch d !!! Z.to_nat i)) then get_req_from d tcs_id (i + 1) k
      else
        let tcs := tcs_of d i (get_tcs_for_msg d RPMH_ACTIVE_ONLY_STATE i) in
        if truth (Z.land (tg_mask tcs) (BIT tcs_id))
        then Some (i, tg_req tcs !!! Z.to_nat (tcs_id - tg_offset tcs))
        else get_req_from d tcs_id (i + 1) k
  end.

Definition get_req_from_tcs (d : rsc_drv) (tcs_id : Z) : option (Z * option rpmh_request) :=
  get_req_from d tcs_id 0 MAX_CHANNEL.

Definition __tcs_set_trigger (d : rsc_drv) (tcs_id : Z) (trigger : bool) : rsc_drv :=
  let reg := regs d RSC_DRV_CONTROL in
  let enable := Z.land (read_tcs_reg d reg tcs_id) (Z.lnot TCS_AMC_MODE_TRIGGER) in
  let d := write_tcs_reg_sync d reg tcs_id enable in
  let enable := Z.land enable (Z.lnot TCS_AMC_MODE_ENABLE) in
  let d := write_tcs_reg_sync d reg tcs_id enable in
  if trigger then
    let enable := TCS_AMC_MODE_ENABLE in
    let d := write_tcs_reg_sync d reg tcs_id enable in
    write_tcs_reg d reg tcs_id (Z.lor enable TCS_AMC_MODE_TRIGGER)
  else d.

Definition enable_tcs_irq (d : rsc_drv) (tcs_id : Z) (enable : bool) : rsc_drv :=
  let reg := regs d RSC_DRV_IRQ_ENABLE in
  let data := readl d (tcs_base d + reg) in
  let data := if enable then Z.lor data (BIT tcs_id) else Z.land data (Z.lnot (BIT tcs_id)) in
  writel d data (tcs_base d + reg).

(** [rpmh_tx_done]: signal the completion of the request, if it has one. *)
Definition rpmh_tx_done (d : rsc_drv) (req : rpmh_request) : rsc_drv :=
  match req_completion req with
  | None => d
  | Some compl => d <| completed := completed d ++ [compl] |>
  end.

(** One turn of the loop of [tcs_tx_done]. [c] is the local variable [ch],
    which has no value before [get_req_from_tcs] first stores one; the result
    [None] is the use of that variable without a value. *)
Definition tx_done_one (d : rsc_drv) (c : option Z) (i : Z) : option (rsc_drv * option Z) :=
  let r := get_req_from_tcs d i in
  let c := match r with Some (i', _) => Some i' | None => c end in
  let req := match r with Some (_, q) => q | None => None end in
  let no_active x := tg_num_tcs (tcs_of d x ACTIVE_TCS) =? 0 in
  let d1 :=
    match req, c with
    | Some _, Some x => if no_active x then __tcs_set_trigger d i false else d
    | _, _ => d
    end in
  let d2 := write_tcs_reg d1 (regs d1 RSC_DRV_CMD_ENABLE) i 0 in
  let d3 := write_tcs_reg d2 (regs d2 RSC_DRV_CMD_WAIT_FOR_CMPL) i 0 in
  let d4 := writel d3 (BIT i) (tcs_base d3 + regs d3 RSC_DRV_IRQ_CLEAR) in
  let d5 := d4 <| tcs_in_use := Z.clearbit (tcs_in_use d4) i |> in
  match c with
  | None => None
  | Some x =>
      let d6 := if no_active x then enable_tcs_irq d5 i false else d5 in
      let d7 := match req with Some q => rpmh_tx_done d6 q | None => d6 end in
      Some (d7, c)
  end.

Fixpoint tx_done_loop (d : rsc_drv) (c : option Z) (ids : list Z) : option rsc_drv :=
  match ids with
  | [] => Some d
  | i :: ids' =>
      match tx_done_one d c i with
      | Some (d', c') => tx_done_loop d' c' ids'
      | None => None
      end
  end.

(** [tcs_tx_done]: the interrupt handler, on the status word it reads. *)
Definition tcs_tx_done (d : rsc_drv) (irq_status : Z) : option rsc_drv :=
  tx_done_loop d None (set_bits irq_status 32).

(** ** Writing a request into a TCS *)

(** The loop of [__tcs_buffer_write] over the commands from index [j] on; it
    accumulates the enable and completion masks. *)
Fixpoint write_cmds (d : rsc_drv) (tcs_id j cmd_msgid cmd_enable cmd_complete : Z)
  (cs : list tcs_cmd) : rsc_drv * Z * Z :=
  match cs with
  | [] => (d, cmd_enable, cmd_complete)
  | cmd :: cs' =>
      let cmd_enable := Z.lor cmd_enable (BIT j) in
      let cmd_complete := u32 (Z.lor cmd_complete (Z.shiftl (cmd_wait cmd) j)) in
      let msgid := Z.lor cmd_msgid (if truth (cmd_wait cmd) then CMD_MSGID_RESP_REQ else 0) in
      let d := write_tcs_cmd d (regs d RSC_DRV_CMD_MSGID) tcs_id j msgid in
      let d := write_tcs_cmd d (regs d RSC_DRV_CMD_ADDR) tcs_id j (cmd_addr cmd) in
      let d := write_tcs_cmd d (regs d RSC_DRV_CMD_DATA) tcs_id j (cmd_data cmd) in
      write_cmds d tcs_id (j + 1) cmd_msgid cmd_enable cmd_complete cs'
  end.

Definition base_msgid (msg : tcs_request) : Z :=
  Z.lor (Z.lor CMD_MSGID_LEN CMD_MSGID_WRITE)
    (if wait_for_compl msg then CMD_MSGID_RESP_REQ else 0).

Definition __tcs_buffer_write (d : rsc_drv) (tcs_id cmd_id : Z) (msg : tcs_request) : rsc_drv :=
  let cmd_complete := read_tcs_reg d (regs d RSC_DRV_CMD_WAIT_FOR_CMPL) tcs_id in
  let '(d1, cmd_enable, cmd_complete) :=
    write_cmds d tcs_id cmd_id (base_msgid msg) 0 cmd_complete (cmds msg) in
  let d2 := write_tcs_reg d1 (regs d1 RSC_DRV_CMD_WAIT_FOR_CMPL) tcs_id cmd_complete in
  let cmd_enable := Z.lor cmd_enable (read_tcs_reg d2 (regs d2 RSC_DRV_CMD_ENABLE) tcs_id) in
  write_tcs_reg d2 (regs d2 RSC_DRV_CMD_ENABLE) tcs_id cmd_enable.

(** ** Active requests *)

(** The commands of TCS [i] that are enabled, by address, clash with [msg]. *)
Definition tcs_conflicts (d : rsc_drv) (tcs : tcs_group) (msg : tcs_request) (i : Z) : bool :=
  existsb (fun j =>
    existsb (fun cmd =>
      cmd_db_match_resource_addr (cmd_addr cmd) (read_tcs_cmd d (regs d RSC_DRV_CMD_ADDR) i j))
      (cmds msg))
    (set_bits (read_tcs_reg d (regs d RSC_DRV_CMD_ENABLE) i) (tg_ncpt tcs)).

Definition check_for_req_inflight (d : rsc_drv) (tcs : tcs_group) (msg : tcs_request) : Z :=
  if existsb (tcs_conflicts d tcs msg)
       (filter (fun i => Z.testbit (tcs_in_use d) i = true)
          (zseq (tg_offset tcs) (Z.to_nat (tg_num_tcs tcs))))
  then - EBUSY else 0.

(** The polling loop of [find_free_tcs]: whether a non-zero status is read
    before [timeout] turns are over; [sts k] is the [k]-th value read. *)
Fixpoint poll_idle (sts : nat -> Z) (k timeout : nat) : bool :=
  match timeout with
  | O => false
  | S t => if truth (sts k) then true else poll_idle sts (S k) t
  end.

Section BitmapClients.

Context `{BitmapOps}.

Definition find_free_tcs (d : rsc_drv) (tcs : tcs_group) (sts : nat -> Z) : Z :=
  let max := tg_offset tcs + tg_num_tcs tcs in
  let i := find_next_zero_bit (tcs_in_use d) max (tg_offset tcs) in
  if max <=? i then - EBUSY
  else if negb (poll_idle sts 1 100) then - EBUSY
  else i.

Definition claim_tcs_for_req (d : rsc_drv) (tcs : tcs_group) (msg : tcs_request)
  (sts : nat -> Z) : Z :=
  let ret := check_for_req_inflight d tcs msg in
  if truth ret then ret else find_free_tcs d tcs sts.

(** [rpmh_rsc_send_data], one evaluation of its wait condition: [None] when no
    TCS can be claimed and the caller goes to sleep until the next wake-up. *)
Definition rpmh_rsc_send_data (d : rsc_drv) (req : rpmh_request) (c : Z) (sts : nat -> Z)
  : option (Z * rsc_drv) :=
  let msg := req_msg req in
  let type := get_tcs_for_msg d (msg_state msg) c in
  let tcs := tcs_of d c type in
  if in_solver_mode d then Some (- EBUSY, d)
  else
    let tcs_id := claim_tcs_for_req d tcs msg sts in
    if tcs_id <? 0 then None
    else
      let d1 := set_tcs d c type
        (tcs <| tg_req := <[Z.to_nat (tcs_id - tg_offset tcs) := Some req]> (tg_req tcs) |>) in
      let d2 := d1 <| tcs_in_use := Z.setbit (tcs_in_use d1) tcs_id |> in
      let d3 := write_tcs_reg_sync d2 (regs d2 RSC_DRV_CMD_ENABLE) tcs_id 0 in
      let d4 := write_tcs_reg_sync d3 (regs d3 RSC_DRV_CMD_WAIT_FOR_CMPL) tcs_id 0 in
      let irq := wait_for_compl msg ||
        (bool_decide (msg_state msg = RPMH_ACTIVE_ONLY_STATE) &&
         negb (bool_decide (tg_type tcs = ACTIVE_TCS))) in
      let d5 := enable_tcs_irq d4 tcs_id irq in
      let d6 := __tcs_buffer_write d5 tcs_id 0 msg in
      let d7 := __tcs_set_trigger d6 tcs_id true in
      let d8 :=
        if negb (wait_for_compl msg)
        then d7 <| tcs_in_use := Z.clearbit (tcs_in_use d7) tcs_id |> else d7 in
      Some (0, d8).

(** ** Sleep and wake requests *)

(** The loop of [find_slots]; [None] when the fuel runs out. *)
Fixpoint find_slots_loop (fuel : nat) (tcs : tcs_group) (n i : Z) : option (option Z) :=
  match fuel with
  | O => None
  | S f =>
      let slot := bitmap_find_next_zero_area (tg_slots tcs) (tg_ncpt tcs * tg_num_tcs tcs) i n in
      if tg_num_tcs tcs * tg_ncpt tcs <=? slot then Some None
      else
        let i := i + tg_ncpt tcs in
        if i <=? slot + n - 1 then find_slots_loop f tcs n i else Some (Some slot)
  end.

(** [find_slots]: the group with the slots marked, the TCS and the command
    index to write at; [None] is out of fuel. *)
Definition find_slots (tcs : tcs_group) (msg : tcs_request) : option (result (tcs_group * Z * Z)) :=
  match find_slots_loop (Z.to_nat (tg_num_tcs tcs) + 2) tcs (num_cmds msg) 0 with
  | None => None
  | Some None => Some (Err (- ENOMEM))
  | Some (Some slot) =>
      let tcs' := tcs <| tg_slots := bitmap_set (tg_slots tcs) slot (num_cmds msg) |> in
      Some (Ok (tcs', slot / tg_ncpt tcs + tg_offset tcs, slot mod tg_ncpt tcs))
  end.

Definition rpmh_rsc_write_ctrl_data (d : rsc_drv) (msg : tcs_request) (c : Z)
  : option (Z * rsc_drv) :=
  if num_cmds msg =? 0 then Some (0, d)
  else
    let type := get_tcs_for_msg d (msg_state msg) c in
    match find_slots (tcs_of d c type) msg with
    | None => None
    | Some (Err e) => Some (e, d)
    | Some (Ok (tcs', tcs_id, cmd_id)) =>
        Some (0, __tcs_buffer_write (set_tcs d c type tcs') tcs_id cmd_id msg)
    end.

(** ** Idle detection and solver mode *)

(** One channel of [rpmh_rsc_ctrlr_is_busy]. *)
Definition channel_busy (d : rsc_drv) (i : Z) : bool :=
  if negb (ch_initialized (ch d !!! Z.to_nat i)) then false
  else
    let a := tcs_of d i ACTIVE_TCS in
    let tcs := if tg_num_tcs a =? 0 then tcs_of d i WAKE_TCS else a in
    let max := tg_offset tcs + tg_num_tcs tcs in
    let set := find_next_bit (tcs_in_use d) max (tg_offset tcs) in
    if set <? max then true
    else
      let fp := tcs_of d i FAST_PATH_TCS in
      negb (tg_num_tcs fp =? 0) &&
      (read_tcs_reg d (regs d RSC_DRV_STATUS) (tg_offset fp) =? 0).

Definition rpmh_rsc_ctrlr_is_busy (d : rsc_drv) : bool :=
  existsb (channel_busy d) (zseq 0 MAX_CHANNEL).

(** [rpmh_rsc_mode_solver_set]; [lock] is whether the trylock succeeds. *)
Definition rpmh_rsc_mode_solver_set (d : rsc_drv) (lock enable : bool) : Z * rsc_drv :=
  if lock && (negb enable || negb (rpmh_rsc_ctrlr_is_busy d))
  then (0, d <| in_solver_mode := enable |>)
  else (- EBUSY, d).

End BitmapClients.

(** [rpmh_rsc_write_next_wakeup]: [suspend] is the test on system_state,
    [wakeup_cycles] the cycle count computed from the timers otherwise. *)
Definition rpmh_rsc_write_next_wakeup (d : rsc_drv) (suspend : bool) (wakeup_cycles : Z) : rsc_drv :=
  if (tg_num_tcs (drv_tcs d !!! CONTROL_TCS) =? 0) || negb (drv_genpd_nb d) then d
  else
    let wakeup_cycles := if suspend then 2 ^ 64 - 1 else u64 wakeup_cycles in
    let lo := Z.land wakeup_cycles RSC_DRV_CTL_TCS_DATA_LO_MASK in
    let hi := u32 (Z.shiftr wakeup_cycles RSC_DRV_CTL_TCS_DATA_SIZE) in
    let hi := Z.land hi RSC_DRV_CTL_TCS_DATA_HI_MASK in
    let hi := Z.lor hi RSC_DRV_CTL_TCS_DATA_HI_VALID in
    let d := writel d lo (base d + RSC_DRV_CTL_TCS_DATA_LO) in
    writel d hi (base d + RSC_DRV_CTL_TCS_DATA_HI).

(** ** Channels *)

(** The loop of [rpmh_rsc_is_tcs_completed]: the value of [retry] it leaves;
    [complete k] is the [k]-th read of the completion register. *)
Fixpoint poll_complete (complete : nat -> Z) (mask : Z) (k retry : nat) : nat :=
  match retry with
  | O => O
  | S r =>
      if truth (Z.land (complete k) mask) then r
      else poll_complete complete mask (S k) r
  end.

(** The result [ret] it computes, and then the value it returns. *)
Definition tcs_completed_ret (c : Z) (complete : nat -> Z) : Z :=
  let mask := if c =? 0 then CH0_WAKE_TCS_STATUS else CH1_WAKE_TCS_STATUS in
  match poll_complete complete mask 0 10 with
  | O => - EBUSY
  | S _ => 0
  end.

Definition rpmh_rsc_is_tcs_completed (d : rsc_drv) (c : Z) (complete : nat -> Z) : Z * rsc_drv :=
  let d' :=
    if tcs_completed_ret c complete =? 0
    then writel d CH_CLEAR_STATUS (base d + regs d RSC_DRV_CHN_TCS_COMPLETE) else d in
  (0, d').

Definition rpmh_rsc_switch_channel (d : rsc_drv) (c : Z) (complete : nat -> Z) : Z * rsc_drv :=
  let d := writel d (BIT c) (base d + regs d RSC_DRV_CHN_UPDATE) in
  rpmh_rsc_is_tcs_completed d c complete.

(** ** Fast path *)

Definition rpmh_rsc_init_fast_path (d : rsc_drv) (msg : tcs_request) (c : Z) : Z * rsc_drv :=
  let fp := tcs_of d c FAST_PATH_TCS in
  if tg_num_tcs fp =? 0 then (- ENODEV, d)
  else
    let d := enable_tcs_irq d (tg_offset fp) false in
    (0, __tcs_buffer_write d (tg_offset fp) 0 msg).

(** The update loop of [rpmh_rsc_update_fast_path]. *)
Fixpoint update_data (d : rsc_drv) (tcs_id mask i : Z) (cs : list tcs_cmd) : rsc_drv :=
  match cs with
  | [] => d
  | cmd :: cs' =>
      let d :=
        if truth (Z.land mask (BIT i))
        then write_tcs_cmd d (regs d RSC_DRV_CMD_DATA) tcs_id i (cmd_data cmd) else d in
      update_data d tcs_id mask (i + 1) cs'
  end.

(** [sts k] is the [k]-th read of the status; five zero reads give up. *)
Definition rpmh_rsc_update_fast_path (d : rsc_drv) (msg : tcs_request) (mask c : Z)
  (sts : nat -> Z) : Z * rsc_drv :=
  let fp := tcs_of d c FAST_PATH_TCS in
  if tg_num_tcs fp =? 0 then (- ENODEV, d)
  else if negb (poll_idle sts 0 5) then (- EBUSY, d)
  else
    let d := update_data d (tg_offset fp) mask 0 (cmds msg) in
    (0, __tcs_set_trigger d (tg_offset fp) true).

(** ** Probe *)

Fixpoint tcs_irq_enable_from (d : rsc_drv) (i : Z) (n : nat) : rsc_drv :=
  match n with
  | O => d
  | S k =>
      let d :=
        if negb (ch_initialized (ch d !!! Z.to_nat i)) then d
        else
          let a := tcs_base d + regs d RSC_DRV_IRQ_ENABLE in
          writel d (Z.lor (readl d a) (tg_mask (tcs_of d i ACTIVE_TCS))) a in
      tcs_irq_enable_from d (i + 1) k
  end.

Definition rpmh_rsc_tcs_irq_enable (d : rsc_drv) : rsc_drv := tcs_irq_enable_from d 0 MAX_CHANNEL.

(** The elements of the property qcom,tcs-config, read two by two. *)
Fixpoint cfg_pairs (elems : list Z) : list (Z * Z) :=
  match elems with
  | type :: n :: rest => (type, n) :: cfg_pairs rest
  | _ => []
  end.

(** The first loop of [rpmh_probe_channel_tcs_config] rejects a type that does
    not exist and a group that is too large. *)
Definition check_tcs_cfg (cfg : list (Z * Z)) : bool :=
  forallb (fun tn => (fst tn <? Z.of_nat TCS_TYPE_NR) && (snd tn <=? MAX_TCS_PER_TYPE)) cfg.

(** Its second loop: the groups are laid out one after the other, [st] TCSes
    into the channel. The groups written before an error stay written. *)
Fixpoint layout_tcses (tcss : list tcs_group) (max_tcs ncpt first st : Z) (cfg : list (Z * Z))
  : Z * list tcs_group * Z :=
  match cfg with
  | [] => (0, tcss, st)
  | (type, n) :: cfg' =>
      let ty := Z.to_nat type in
      let tcs := tcss !!! ty in
      if tg_drv tcs then (- EINVAL, tcss, st)
      else
        let tcs := mk_tcs true ty (tg_mask tcs) (tg_offset tcs) n ncpt (tg_req tcs) (tg_slots tcs) in
        if (n =? 0) || bool_decide (ty = CONTROL_TCS)
        then layout_tcses (<[ty := tcs]> tcss) max_tcs ncpt first st cfg'
        else if (max_tcs <? st + n) || (8 * 4 <=? st + n) then (- EINVAL, <[ty := tcs]> tcss, st)
        else
          let tcs := tcs <| tg_mask := u32 (Z.shiftl (Z.shiftl 1 n - 1) (st + first)) |> in
          let tcs := tcs <| tg_offset := st + first |> in
          layout_tcses (<[ty := tcs]> tcss) max_tcs ncpt first (st + n) cfg'
  end.

(** [rpmh_probe_channel_tcs_config], on the elements of the property. *)
Definition rpmh_probe_channel_tcs_config (d : rsc_drv) (elems : list Z) (max_tcs ncpt c : Z)
  : Z * rsc_drv :=
  let cfg := cfg_pairs elems in
  if negb (Z.of_nat (length elems) =? 2 * Z.of_nat TCS_TYPE_NR) then (- EINVAL, d)
  else if negb (check_tcs_cfg cfg) then (- EINVAL, d)
  else
    let cc := ch d !!! Z.to_nat c in
    let '(ret, tcss, st) := layout_tcses (ch_tcs cc) max_tcs ncpt (drv_num_tcs d) 0 cfg in
    let d1 := d <| ch := <[Z.to_nat c := cc <| ch_tcs := tcss |>]> (ch d) |> in
    if truth ret then (ret, d1)
    else
      let a := tcs_base d1 + regs d1 RSC_DRV_IRQ_ENABLE in
      let d2 := writel d1 (Z.lor (readl d1 a) (tg_mask (tcs_of d1 c ACTIVE_TCS))) a in
      let cc2 := ch d2 !!! Z.to_nat c in
      let d3 := d2 <| ch := <[Z.to_nat c := cc2 <| ch_initialized := true |>]> (ch d2) |> in
      (0, d3 <| drv_num_tcs := drv_num_tcs d3 + st |>).

Definition DRV_NUM_TCS_MASK : Z := 63.

Definition DRV_NUM_TCS_SHIFT : Z := 6.

Definition DRV_NCPT_MASK : Z := 31.

Definition DRV_NCPT_SHIFT : Z := 27.

(** The fields of the configuration register that [rpmh_probe_tcs_config]
    extracts for the DRV number [id]. *)
Definition config_max_tcs (config id : Z) : Z :=
  Z.shiftr (Z.land config (u32 (Z.shiftl DRV_NUM_TCS_MASK (DRV_NUM_TCS_SHIFT * id))))
    (DRV_NUM_TCS_SHIFT * id).

Definition config_ncpt (config : Z) : Z :=
  Z.shiftr (Z.land config (u32 (Z.shiftl DRV_NCPT_MASK DRV_NCPT_SHIFT))) DRV_NCPT_SHIFT.

(** Its loop over the channel nodes. *)
Fixpoint probe_channels (d : rsc_drv) (max_tcs ncpt c : Z) (nodes : list (list Z)) : Z * rsc_drv :=
  match nodes with
  | [] => (0, d <| num_channels := c |>)
  | elems :: nodes' =>
      let '(ret, d1) := rpmh_probe_channel_tcs_config d elems max_tcs ncpt c in
      if truth ret then (ret, d1) else probe_channels d1 max_tcs ncpt (c + 1) nodes'
  end.

(** [rpmh_probe_tcs_config] on the properties of the device node: the offset
    (or the error of reading it), the distance if present, the channel nodes. *)
Definition rpmh_probe_tcs_config (d : rsc_drv) (id : Z) (offset : result Z) (distance : option Z)
  (nodes : list (list Z)) : Z * rsc_drv :=
  match offset with
  | Err e => (e, d)
  | Ok offset =>
      let d := d <| tcs_base := base d + offset |> in
      let d := d <| tcs_distance := default 0 distance |> in
      let config := readl d (base d + regs d DRV_PRNT_CHLD_CONFIG) in
      probe_channels d (config_max_tcs config id) (config_ncpt config) 0 nodes
  end.

(** ** Lemmas: slot search *)

(** The group has at least one command per TCS and a sound slot bitmap. *)
Record group_ok (tcs : tcs_group) : Prop := {
  group_ncpt : 0 < tg_ncpt tcs;
  group_num : 0 <= tg_num_tcs tcs;
}.

(** Commands [p], ..., [p + n - 1] of TCS number [k] of the group are free. *)
Definition room_at (tcs : tcs_group) (k p n : Z) : Prop :=
  0 <= k < tg_num_tcs tcs /\ 0 <= p /\ p + n <= tg_ncpt tcs /\
  forall i, k * tg_ncpt tcs + p <= i < k * tg_ncpt tcs + p + n -> Z.testbit (tg_slots tcs) i = false.

Section FindSlots.

Context `{BitmapLaws} (tcs : tcs_group) (n : Z).
Hypothesis Hg : group_ok tcs.
Hypothesis Hn : 0 < n.

Lemma find_slots_loop_total fuel k :
  0 <= k <= tg_num_tcs tcs -> (Z.to_nat (tg_num_tcs tcs - k) < fuel)%nat ->
  find_slots_loop fuel tcs n (k * tg_ncpt tcs) <> None.
Proof using Hg Hn H0.
  destruct Hg as [Hc Hm]. revert k. induction fuel as [|f IH]; intros k Hk Hf; [lia|].
  cbn [find_slots_loop]. cbv zeta.
  destruct (Z.leb_spec (tg_num_tcs tcs * tg_ncpt tcs)
    (bitmap_find_next_zero_area (tg_slots tcs) (tg_ncpt tcs * tg_num_tcs tcs) (k * tg_ncpt tcs) n)) as [|Hlt];
    [done|].
  destruct (zero_area_free (tg_slots tcs) (tg_ncpt tcs * tg_num_tcs tcs) (k * tg_ncpt tcs) n) as (H1 & H2 & _);
    [nia|lia|lia|].
  case_goal; [|done]. replace (k * tg_ncpt tcs + tg_ncpt tcs) with ((k + 1) * tg_ncpt tcs) by lia.
  apply IH; nia.
Qed.

Lemma find_slots_loop_sound fuel k slot :
  0 <= k -> find_slots_loop fuel tcs n (k * tg_ncpt tcs) = Some (Some slot) ->
  exists k', k <= k' /\ room_at tcs k' (slot - k' * tg_ncpt tcs) n.
Proof using Hg Hn H0.
  destruct Hg as [Hc Hm]. revert k. induction fuel as [|f IH]; intros k Hk; [done|].
  cbn [find_slots_loop]. cbv zeta.
  destruct (Z.leb_spec (tg_num_tcs tcs * tg_ncpt tcs)
    (bitmap_find_next_zero_area (tg_slots tcs) (tg_ncpt tcs * tg_num_tcs tcs) (k * tg_ncpt tcs) n)) as [|Hlt];
    [done|].
  destruct (zero_area_free (tg_slots tcs) (tg_ncpt tcs * tg_num_tcs tcs) (k * tg_ncpt tcs) n) as (H1 & H2 & H3);
    [nia|lia|lia|].
  case_goal; zbool; intros E.
  - replace (k * tg_ncpt tcs + tg_ncpt tcs) with ((k + 1) * tg_ncpt tcs) in E by lia.
    apply IH in E as (k' & ? & ?); [|lia]. exists k'. split; [lia|done].
  - simplify_eq. exists k. split; [lia|]. split; [nia|]. split; [lia|]. split; [lia|].
    intros i Hi. apply H3. lia.
Qed.

Lemma find_slots_loop_complete fuel k k0 p :
  0 <= k <= k0 -> room_at tcs k0 p n ->
  find_slots_loop fuel tcs n (k * tg_ncpt tcs) <> Some None.
Proof using Hg Hn H0.
  destruct Hg as [Hc Hm]. revert k. induction fuel as [|f IH]; intros k Hk Hr; [done|].
  cbn [find_slots_loop]. cbv zeta. pose proof Hr as (Hk0 & Hp & Hpn & Hfree).
  assert (bitmap_find_next_zero_area (tg_slots tcs) (tg_ncpt tcs * tg_num_tcs tcs) (k * tg_ncpt tcs) n
    <= k0 * tg_ncpt tcs + p) as Hle.
  { apply zero_area_first; [nia|lia|nia|nia|]. intros i Hi. apply Hfree. lia. }
  destruct (Z.leb_spec (tg_num_tcs tcs * tg_ncpt tcs)
    (bitmap_find_next_zero_area (tg_slots tcs) (tg_ncpt tcs * tg_num_tcs tcs) (k * tg_ncpt tcs) n)) as [|Hlt];
    [nia|].
  case_goal; [|done]. zbool.
  replace (k * tg_ncpt tcs + tg_ncpt tcs) with ((k + 1) * tg_ncpt tcs) by lia.
  apply IH; [|done]. nia.
Qed.

Lemma room_div k p : room_at tcs k p n ->
  (k * tg_ncpt tcs + p) / tg_ncpt tcs = k /\ (k * tg_ncpt tcs + p) mod tg_ncpt tcs = p.
Proof using Hg Hn.
  destruct Hg as [Hc Hm]. intros (Hk & Hp & Hpn & _). split.
  - symmetry. apply (Z.div_unique_pos _ _ _ p); lia.
  - symmetry. apply (Z.mod_unique_pos _ _ k); lia.
Qed.

End FindSlots.

(** ** Lemmas: writing commands *)

(** What every register table guarantees: the per-TCS registers lie below the
    command registers, and the three registers of a command are distinct and
    closer together than two commands. *)
Record regs_layout (r : rsc_reg -> Z) : Prop := {
  lay_base : 0 <= r RSC_DRV_IRQ_ENABLE < r RSC_DRV_CMD_WAIT_FOR_CMPL;
  lay_wait : r RSC_DRV_CMD_WAIT_FOR_CMPL < r RSC_DRV_CONTROL;
  lay_ctl : r RSC_DRV_CONTROL < r RSC_DRV_CMD_ENABLE;
  lay_en : r RSC_DRV_CMD_ENABLE < r RSC_DRV_CMD_MSGID;
  lay_msgid : r RSC_DRV_CMD_MSGID < r RSC_DRV_CMD_ADDR;
  lay_addr : r RSC_DRV_CMD_ADDR < r RSC_DRV_CMD_DATA;
  lay_data : r RSC_DRV_CMD_DATA < r RSC_DRV_CMD_MSGID + r RSC_DRV_CMD_OFFSET;
}.

Lemma tables_layout :
  regs_layout rpmh_rsc_reg_offset_ver_2_7 /\ regs_layout rpmh_rsc_reg_offset_ver_3_0 /\
  regs_layout rpmh_rsc_reg_offset_ver_3_0_hw_channel.
Proof. repeat split; cbn; lia. Qed.

(** Distance in bytes between two TCSes. *)
Definition stride (d : rsc_drv) : Z :=
  if tcs_distance d =? 0 then regs d RSC_DRV_TCS_OFFSET else tcs_distance d.

Lemma tcs_reg_addr_stride d reg t : tcs_reg_addr d reg t = tcs_base d + stride d * t + reg.
Proof. unfold tcs_reg_addr, stride. by case_goal. Qed.

(** [d'] differs from [d] in the registers only. *)
Definition same_but_mmio (d d' : rsc_drv) : Prop := d' = d <| mmio := mmio d' |>.

Lemma same_but_mmio_refl d : same_but_mmio d d.
Proof. by destruct d. Qed.

Lemma same_but_mmio_writel d v a : same_but_mmio d (writel d v a).
Proof. done. Qed.

Lemma same_but_mmio_trans d1 d2 d3 :
  same_but_mmio d1 d2 -> same_but_mmio d2 d3 -> same_but_mmio d1 d3.
Proof. unfold same_but_mmio. intros -> ->. done. Qed.

Lemma same_but_mmio_regs d d' : same_but_mmio d d' ->
  regs d' = regs d /\ tcs_base d' = tcs_base d /\ tcs_distance d' = tcs_distance d /\
  base d' = base d /\ ch d' = ch d /\ tcs_in_use d' = tcs_in_use d /\ completed d' = completed d.
Proof. unfold same_but_mmio. intros ->. done. Qed.

#[export] Hint Resolve same_but_mmio_refl same_but_mmio_writel : kernel.

(** The address of register [r] of command [j] in TCS [t]. *)
Definition cmd_reg (d : rsc_drv) (r : rsc_reg) (t j : Z) : Z := tcs_cmd_addr d (regs d r) t j.

(** A command register of [r], at an index in [lo, hi) of TCS [t]. *)
Definition in_cmds (d : rsc_drv) (t lo hi a : Z) : Prop :=
  exists r j, (r = RSC_DRV_CMD_MSGID \/ r = RSC_DRV_CMD_ADDR \/ r = RSC_DRV_CMD_DATA) /\
    lo <= j < hi /\ a = cmd_reg d r t j.

(** The value the completion mask gets at bit [i] from the commands [cs]
    written from index [j] on. *)
Definition waits_at (cs : list tcs_cmd) (j i : Z) : bool :=
  (j <=? i) && match cs !! Z.to_nat (i - j) with Some c => truth (cmd_wait c) | None => false end.

Definition wait_flag (c : tcs_cmd) : Prop := cmd_wait c = 0 \/ cmd_wait c = 1.

Lemma cmd_reg_inj d r1 r2 t j1 j2 :
  regs_layout (regs d) ->
  (r1 = RSC_DRV_CMD_MSGID \/ r1 = RSC_DRV_CMD_ADDR \/ r1 = RSC_DRV_CMD_DATA) ->
  (r2 = RSC_DRV_CMD_MSGID \/ r2 = RSC_DRV_CMD_ADDR \/ r2 = RSC_DRV_CMD_DATA) ->
  cmd_reg d r1 t j1 = cmd_reg d r2 t j2 -> r1 = r2 /\ j1 = j2.
Proof.
  intros [] H1 H2. unfold cmd_reg, tcs_cmd_addr. rewrite !tcs_reg_addr_stride. intros E.
  assert (j1 = j2) as ->.
  { destruct H1 as [->|[->| ->]], H2 as [->|[->| ->]]; nia. }
  split; [|done]. destruct H1 as [->|[->| ->]], H2 as [->|[->| ->]]; try done; lia.
Qed.

(** One turn of the loop of [__tcs_buffer_write]. *)
Definition write_cmd (d : rsc_drv) (t j cmd_msgid : Z) (c : tcs_cmd) : rsc_drv :=
  let msgid := Z.lor cmd_msgid (if truth (cmd_wait c) then CMD_MSGID_RESP_REQ else 0) in
  let d := write_tcs_cmd d (regs d RSC_DRV_CMD_MSGID) t j msgid in
  let d := write_tcs_cmd d (regs d RSC_DRV_CMD_ADDR) t j (cmd_addr c) in
  write_tcs_cmd d (regs d RSC_DRV_CMD_DATA) t j (cmd_data c).

Lemma write_cmd_mmio d t j m c :
  mmio (write_cmd d t j m c) =
  upd (upd (upd (mmio d)
    (cmd_reg d RSC_DRV_CMD_MSGID t j)
       (u32 (Z.lor m (if truth (cmd_wait c) then CMD_MSGID_RESP_REQ else 0))))
    (cmd_reg d RSC_DRV_CMD_ADDR t j) (u32 (cmd_addr c)))
    (cmd_reg d RSC_DRV_CMD_DATA t j) (u32 (cmd_data c)).
Proof. done. Qed.

Lemma write_cmd_same d t j m c : same_but_mmio d (write_cmd d t j m c).
Proof. done. Qed.

(** The command [c] is in place at index [j] of TCS [t]. *)
Definition cmd_written (d : rsc_drv) (m : mem) (t j cmd_msgid : Z) (c : tcs_cmd) : Prop :=
  m (cmd_reg d RSC_DRV_CMD_MSGID t j) =
    u32 (Z.lor cmd_msgid (if truth (cmd_wait c) then CMD_MSGID_RESP_REQ else 0)) /\
  m (cmd_reg d RSC_DRV_CMD_ADDR t j) = u32 (cmd_addr c) /\
  m (cmd_reg d RSC_DRV_CMD_DATA t j) = u32 (cmd_data c).

Lemma write_cmd_written d t j m c :
  regs_layout (regs d) -> cmd_written d (mmio (write_cmd d t j m c)) t j m c.
Proof.
  intros L. rewrite write_cmd_mmio. unfold cmd_written.
  assert (forall r1 r2, (r1 = RSC_DRV_CMD_MSGID \/ r1 = RSC_DRV_CMD_ADDR \/ r1 = RSC_DRV_CMD_DATA) ->
    (r2 = RSC_DRV_CMD_MSGID \/ r2 = RSC_DRV_CMD_ADDR \/ r2 = RSC_DRV_CMD_DATA) ->
    r1 <> r2 -> cmd_reg d r1 t j <> cmd_reg d r2 t j) as N.
  { intros r1 r2 H1 H2 Hne E. by apply (cmd_reg_inj d r1 r2 t j j L H1 H2) in E as [? _]. }
  repeat split.
  - rewrite 2 upd_ne, upd_eq; [done|apply N; intuition congruence..].
  - rewrite upd_ne, upd_eq; [done|apply N; intuition congruence].
  - by rewrite upd_eq.
Qed.

Lemma write_cmd_frame d t j m c a :
  ~ in_cmds d t j (j + 1) a -> mmio (write_cmd d t j m c) a = mmio d a.
Proof.
  intros Hn. rewrite write_cmd_mmio.
  rewrite !upd_ne; [done|..]; intros ->; apply Hn; eexists _, j; (split; [|split; [|done]]);
    intuition lia.
Qed.

Lemma write_cmds_cons d t j m en cp c cs :
  write_cmds d t j m en cp (c :: cs) =
  write_cmds (write_cmd d t j m c) t (j + 1) m (Z.lor en (BIT j))
    (u32 (Z.lor cp (Z.shiftl (cmd_wait c) j))) cs.
Proof. done. Qed.

Lemma in_cmds_same d d' t lo hi a :
  same_but_mmio d d' -> in_cmds d' t lo hi a <-> in_cmds d t lo hi a.
Proof. intros ->. done. Qed.

(** The loop of [__tcs_buffer_write]: registers and nothing else changes, every
    command is in place, every other register keeps its value. *)
Lemma write_cmds_mmio d t j m en cp cs :
  regs_layout (regs d) ->
  let d' := fst (fst (write_cmds d t j m en cp cs)) in
  same_but_mmio d d' /\
  (forall k c, cs !! k = Some c -> cmd_written d (mmio d') t (j + Z.of_nat k) m c) /\
  (forall a, ~ in_cmds d t j (j + Z.of_nat (length cs)) a -> mmio d' a = mmio d a).
Proof.
  revert d j en cp. induction cs as [|c cs IH]; intros d j en cp L.
  { cbn. split; [apply same_but_mmio_refl|]. split; [intros k c; by rewrite lookup_nil|done]. }
  rewrite write_cmds_cons.
  destruct (IH (write_cmd d t j m c) (j + 1) (Z.lor en (BIT j))
    (u32 (Z.lor cp (Z.shiftl (cmd_wait c) j)))) as (S1 & W1 & F1); [done|].
  cbv zeta in *. set (d' := fst (fst (write_cmds _ _ _ _ _ _ _))) in *.
  split; [exact (same_but_mmio_trans _ _ _ (write_cmd_same d t j m c) S1)|]. split.
  - intros [|k] c'; cbn [lookup list_lookup].
    + intros [= <-]. rewrite Z.add_0_r. destruct (write_cmd_written d t j m c L) as (A & B & C).
      unfold cmd_written. rewrite !F1; [done|..];
        intros (r & j' & Hr & Hj & E); change (cmd_reg (write_cmd d t j m c)) with (cmd_reg d) in E;
        apply cmd_reg_inj in E; intuition lia.
    + intros Hk. replace (j + Z.of_nat (S k)) with (j + 1 + Z.of_nat k) by lia. by apply W1.
  - cbn [length]. intros a Ha. rewrite F1.
    + apply write_cmd_frame. intros (r & j' & Hr & Hj & E). apply Ha. exists r, j'. repeat split; try done; lia.
    + intros (r & j' & Hr & Hj & E). apply Ha. exists r, j'. repeat split; try done; lia.
Qed.

Lemma write_cmds_enable d t j m en cp cs i :
  0 <= j -> 0 <= i ->
  Z.testbit (snd (fst (write_cmds d t j m en cp cs))) i =
  Z.testbit en i || ((j <=? i) && (i <? j + Z.of_nat (length cs))).
Proof.
  revert d j en cp. induction cs as [|c cs IH]; intros d j en cp Hj Hi.
  - cbn [write_cmds fst snd length]. replace (_ && _) with false; [by rewrite orb_false_r|].
    symmetry. apply andb_false_iff. lia.
  - rewrite write_cmds_cons, IH by lia. rewrite Z.lor_spec, BIT_testbit, <- orb_assoc by lia.
    f_equal. cbn [length]. lia.
Qed.

Lemma write_cmds_complete d t j m en cp cs i :
  0 <= j -> 0 <= i < 32 -> Forall wait_flag cs ->
  Z.testbit (snd (write_cmds d t j m en cp cs)) i = Z.testbit cp i || waits_at cs j i.
Proof.
  intros Hj Hi Hw. revert d j en cp Hj. induction Hw as [|c cs Hc Hw IH]; intros d j en cp Hj.
  - cbn [write_cmds snd]. unfold waits_at. by rewrite lookup_nil, andb_false_r, orb_false_r.
  - rewrite write_cmds_cons, IH by lia. unfold u32. rewrite Z.mod_pow2_bits_low, Z.lor_spec by lia.
    rewrite <- orb_assoc. f_equal. unfold waits_at.
    destruct (Z.leb_spec j i) as [Hle|].
    2: { rewrite Z.shiftl_spec_low by lia. rewrite (proj2 (Z.leb_gt _ _)) by lia. done. }
    destruct (Z.eq_dec i j) as [->|Hne].
    + rewrite (proj2 (Z.leb_gt (j + 1) j)) by lia. rewrite Z.shiftl_spec, Z.sub_diag by lia.
      change ((c :: cs) !! Z.to_nat 0) with (Some c). cbn [andb]. rewrite orb_false_r.
      by destruct Hc as [-> | ->].
    + rewrite (proj2 (Z.leb_le (j + 1) i)) by lia. cbn [andb].
      replace (Z.to_nat (i - j)) with (S (Z.to_nat (i - (j + 1)))) by lia.
      cbn [lookup list_lookup].
      rewrite Z.shiftl_spec by lia. destruct Hc as [-> | ->].
      * by rewrite Z.bits_0.
      * change 1 with (2 ^ 0). rewrite Z.pow2_bits_false by lia. done.
Qed.

(** The address of the per-TCS register [r] of TCS [t]. *)
Definition tcs_reg (d : rsc_drv) (r : rsc_reg) (t : Z) : Z := tcs_reg_addr d (regs d r) t.

Lemma tcs_reg_not_cmd d r t lo hi :
  regs_layout (regs d) -> 0 <= lo -> regs d r <= regs d RSC_DRV_CMD_ENABLE ->
  ~ in_cmds d t lo hi (tcs_reg d r t).
Proof.
  intros [] Hlo Hr (r' & j & Hr' & Hj & E). unfold tcs_reg, cmd_reg, tcs_cmd_addr in E.
  rewrite !tcs_reg_addr_stride in E. destruct Hr' as [->|[->| ->]]; nia.
Qed.

Lemma testbit_u32 z i : 0 <= i < 32 -> Z.testbit (u32 z) i = Z.testbit z i.
Proof. intros. unfold u32. by rewrite Z.mod_pow2_bits_low by lia. Qed.

(** [__tcs_buffer_write] as a whole. *)
Lemma buffer_write_spec d t j msg :
  regs_layout (regs d) -> 0 <= j -> Forall wait_flag (cmds msg) ->
  let d' := __tcs_buffer_write d t j msg in
  let n := num_cmds msg in
  same_but_mmio d d' /\
  (forall k c, cmds msg !! k = Some c -> cmd_written d (mmio d') t (j + Z.of_nat k) (base_msgid msg) c) /\
  (forall i, 0 <= i < 32 ->
     Z.testbit (mmio d' (tcs_reg d RSC_DRV_CMD_ENABLE t)) i =
     Z.testbit (mmio d (tcs_reg d RSC_DRV_CMD_ENABLE t)) i || ((j <=? i) && (i <? j + n))) /\
  (forall i, 0 <= i < 32 ->
     Z.testbit (mmio d' (tcs_reg d RSC_DRV_CMD_WAIT_FOR_CMPL t)) i =
     Z.testbit (mmio d (tcs_reg d RSC_DRV_CMD_WAIT_FOR_CMPL t)) i || waits_at (cmds msg) j i) /\
  (forall a, ~ in_cmds d t j (j + n) a -> a <> tcs_reg d RSC_DRV_CMD_ENABLE t ->
     a <> tcs_reg d RSC_DRV_CMD_WAIT_FOR_CMPL t -> mmio d' a = mmio d a).
Proof.
  intros L Hj Hw. unfold __tcs_buffer_write, num_cmds. cbv zeta.
  set (cp := read_tcs_reg d _ t).
  pose proof (write_cmds_mmio d t j (base_msgid msg) 0 cp (cmds msg) L) as M.
  pose proof (fun i => write_cmds_enable d t j (base_msgid msg) 0 cp (cmds msg) i Hj) as E.
  pose proof (fun i Hi => write_cmds_complete d t j (base_msgid msg) 0 cp (cmds msg) i Hj Hi Hw) as C.
  destruct (write_cmds d t j (base_msgid msg) 0 cp (cmds msg)) as [[d1 en] cp'].
  cbn [fst snd] in *. cbv zeta in M. destruct M as (S1 & W1 & F1).
  assert (tcs_reg d RSC_DRV_CMD_ENABLE t <> tcs_reg d RSC_DRV_CMD_WAIT_FOR_CMPL t) as Hne.
  { destruct L. unfold tcs_reg. rewrite !tcs_reg_addr_stride. lia. }
  assert (forall r, regs d r <= regs d RSC_DRV_CMD_ENABLE -> mmio d1 (tcs_reg d r t) = mmio d (tcs_reg d r t)) as Fr.
  { intros r Hr. apply F1. by apply tcs_reg_not_cmd. }
  pose proof (tcs_reg_not_cmd d RSC_DRV_CMD_ENABLE t j (j + Z.of_nat (length (cmds msg))) L Hj ltac:(lia)) as N1.
  pose proof (tcs_reg_not_cmd d RSC_DRV_CMD_WAIT_FOR_CMPL t j (j + Z.of_nat (length (cmds msg))) L Hj
    ltac:(destruct L; lia)) as N2.
  rewrite S1. set (m1 := mmio d1) in *. clearbody m1. clear S1 d1.
  cbn -[Z.lor upd u32]. change (tcs_reg_addr _ (regs d RSC_DRV_CMD_ENABLE) t) with (tcs_reg d RSC_DRV_CMD_ENABLE t).
  change (tcs_reg_addr _ (regs d RSC_DRV_CMD_WAIT_FOR_CMPL) t) with (tcs_reg d RSC_DRV_CMD_WAIT_FOR_CMPL t).
  split; [done|]. split; [|split; [|split]].
  - intros k c Hk. pose proof (lookup_lt_Some _ _ _ Hk).
    destruct (W1 k c Hk) as (A1 & A2 & A3). unfold cmd_written.
    rewrite !upd_ne; [done|..]; intros EE; (apply N1 + apply N2); rewrite <- EE;
      eexists _, (j + Z.of_nat k); (split; [|split; [|reflexivity]]); intuition lia.
  - intros i Hi. rewrite upd_eq, testbit_u32, Z.lor_spec, E, Z.bits_0 by lia. cbn [orb].
    rewrite (upd_ne _ _ _ _ Hne), Fr by lia. apply orb_comm.
  - intros i Hi. rewrite upd_ne by congruence. rewrite upd_eq, testbit_u32, C by lia. done.
  - intros a Ha H1 H2. rewrite !upd_ne by done. by apply F1.
Qed.

(** ** Lemmas: sending *)

(** What [rpmh_rsc_send_data] does to the registers once it owns TCS [t]. *)
Definition program_tcs (d : rsc_drv) (t : Z) (irq : bool) (msg : tcs_request) : rsc_drv :=
  let d := write_tcs_reg_sync d (regs d RSC_DRV_CMD_ENABLE) t 0 in
  let d := write_tcs_reg_sync d (regs d RSC_DRV_CMD_WAIT_FOR_CMPL) t 0 in
  let d := enable_tcs_irq d t irq in
  let d := __tcs_buffer_write d t 0 msg in
  __tcs_set_trigger d t true.

(** TCS [t] holds exactly the commands of [msg], enabled and triggered. *)
Definition tcs_loaded (d : rsc_drv) (m : mem) (t : Z) (msg : tcs_request) : Prop :=
  (forall k c, cmds msg !! k = Some c -> cmd_written d m t (Z.of_nat k) (base_msgid msg) c) /\
  (forall i, 0 <= i < 32 ->
     Z.testbit (m (tcs_reg d RSC_DRV_CMD_ENABLE t)) i = (i <? num_cmds msg)) /\
  (forall i, 0 <= i < 32 ->
     Z.testbit (m (tcs_reg d RSC_DRV_CMD_WAIT_FOR_CMPL t)) i = waits_at (cmds msg) 0 i) /\
  m (tcs_reg d RSC_DRV_CONTROL t) = Z.lor TCS_AMC_MODE_ENABLE TCS_AMC_MODE_TRIGGER.

Lemma set_trigger_mmio d t :
  exists v w, mmio (__tcs_set_trigger d t true) =
  let a := tcs_reg d RSC_DRV_CONTROL t in
  upd (upd (upd (upd (mmio d) a v) a w) a TCS_AMC_MODE_ENABLE) a
    (Z.lor TCS_AMC_MODE_ENABLE TCS_AMC_MODE_TRIGGER).
Proof. eexists _, _. reflexivity. Qed.

Lemma set_trigger_same d t b : same_but_mmio d (__tcs_set_trigger d t b).
Proof. destruct b; done. Qed.

Lemma program_tcs_spec d t irq msg :
  regs_layout (regs d) -> 0 <= stride d -> 0 <= t -> Forall wait_flag (cmds msg) ->
  same_but_mmio d (program_tcs d t irq msg) /\
  tcs_loaded d (mmio (program_tcs d t irq msg)) t msg.
Proof.
  intros L Hst Ht Hw. unfold program_tcs. cbv zeta.
  set (d1 := write_tcs_reg_sync _ (regs d RSC_DRV_CMD_ENABLE) t 0).
  set (d2 := write_tcs_reg_sync _ (regs d1 RSC_DRV_CMD_WAIT_FOR_CMPL) t 0).
  set (d3 := enable_tcs_irq _ t irq).
  pose proof (buffer_write_spec d3 t 0 msg L ltac:(lia) Hw) as (S1 & W & E & C & F).
  set (d4 := __tcs_buffer_write d3 t 0 msg) in *.
  assert (same_but_mmio d d4) as S2 by (eapply same_but_mmio_trans; [|exact S1]; done).
  split; [eapply same_but_mmio_trans; [exact S2|apply set_trigger_same]|].
  destruct (set_trigger_mmio d4 t) as (v & w & ->). cbv zeta.
  replace (tcs_reg d4 RSC_DRV_CONTROL t) with (tcs_reg d RSC_DRV_CONTROL t) by (by rewrite S2).
  change (cmd_written d3) with (cmd_written d) in W.
  change (tcs_reg d3 RSC_DRV_CMD_ENABLE t) with (tcs_reg d RSC_DRV_CMD_ENABLE t) in E.
  change (tcs_reg d3 RSC_DRV_CMD_WAIT_FOR_CMPL t) with (tcs_reg d RSC_DRV_CMD_WAIT_FOR_CMPL t) in C.
  assert (tcs_reg d RSC_DRV_CMD_ENABLE t <> tcs_reg d RSC_DRV_CMD_WAIT_FOR_CMPL t /\
    tcs_reg d RSC_DRV_CMD_ENABLE t <> tcs_base d + regs d RSC_DRV_IRQ_ENABLE /\
    tcs_reg d RSC_DRV_CMD_WAIT_FOR_CMPL t <> tcs_base d + regs d RSC_DRV_IRQ_ENABLE /\
    tcs_reg d RSC_DRV_CONTROL t <> tcs_reg d RSC_DRV_CMD_ENABLE t /\
    tcs_reg d RSC_DRV_CONTROL t <> tcs_reg d RSC_DRV_CMD_WAIT_FOR_CMPL t) as (N1 & N2 & N3 & N4 & N5).
  { destruct L. unfold tcs_reg. rewrite !tcs_reg_addr_stride. nia. }
  assert (mmio d3 (tcs_reg d RSC_DRV_CMD_ENABLE t) = 0 /\
    mmio d3 (tcs_reg d RSC_DRV_CMD_WAIT_FOR_CMPL t) = 0) as [Z1 Z2].
  { unfold d3, enable_tcs_irq, writel. cbn [mmio set_field].
    change (tcs_base d2 + regs d2 RSC_DRV_IRQ_ENABLE) with (tcs_base d + regs d RSC_DRV_IRQ_ENABLE).
    rewrite !upd_ne by done. unfold d2, d1, write_tcs_reg_sync, writel. cbn [mmio set_field].
    change (tcs_reg_addr _ (regs _ RSC_DRV_CMD_WAIT_FOR_CMPL) t) with (tcs_reg d RSC_DRV_CMD_WAIT_FOR_CMPL t).
    change (tcs_reg_addr _ (regs _ RSC_DRV_CMD_ENABLE) t) with (tcs_reg d RSC_DRV_CMD_ENABLE t).
    rewrite (upd_ne _ _ _ _ N1), !upd_eq. done. }
  rewrite Z1 in E. rewrite Z2 in C.
  split; [|split; [|split]].
  - intros k c Hk. destruct (W k c Hk) as (A1 & A2 & A3). cbn in A1, A2, A3. unfold cmd_written.
    rewrite !upd_ne; [done|..]; intros EE;
      (apply (tcs_reg_not_cmd d RSC_DRV_CONTROL t 0 (Z.of_nat k + 1) L); [lia|destruct L; lia|]);
      rewrite <- EE; eexists _, (Z.of_nat k); (split; [|split; [|reflexivity]]); intuition lia.
  - intros i Hi. rewrite !upd_ne by congruence. rewrite E by lia. rewrite Z.bits_0. cbn [orb]. lia.
  - intros i Hi. rewrite !upd_ne by congruence. rewrite C by lia. by rewrite Z.bits_0.
  - by rewrite upd_eq.
Qed.

(** The arrays have the sizes of their declarations. *)
Record drv_shape (d : rsc_drv) : Prop := {
  shape_ch : length (ch d) = MAX_CHANNEL;
  shape_tcs : forall c, (c < MAX_CHANNEL)%nat -> length (ch_tcs (ch d !!! c)) = TCS_TYPE_NR;
}.

Lemma list_lookup_total_insert_eq' {A} `{Inhabited A} (l : list A) i x :
  (i < length l)%nat -> <[i:=x]> l !!! i = x.
Proof. intros. by apply list_lookup_total_insert_eq. Qed.

Lemma tcs_of_set_tcs d c ty t :
  drv_shape d -> 0 <= c < 2 -> (ty < TCS_TYPE_NR)%nat -> tcs_of (set_tcs d c ty t) c ty = t.
Proof.
  intros [H1 H2] Hc Hty. unfold tcs_of, set_tcs. cbn [ch set_field].
  assert (Z.to_nat c < MAX_CHANNEL)%nat by (unfold MAX_CHANNEL; lia).
  rewrite list_lookup_total_insert_eq' by lia. cbn [ch_tcs set_field].
  by rewrite list_lookup_total_insert_eq' by (rewrite H2; lia).
Qed.

Lemma get_tcs_for_msg_bound d s c : (get_tcs_for_msg d s c < TCS_TYPE_NR)%nat.
Proof. unfold get_tcs_for_msg, TCS_TYPE_NR, WAKE_TCS, ACTIVE_TCS, SLEEP_TCS. destruct s; cbn; try case_goal; lia. Qed.

Lemma clearbit_setbit x t : 0 <= t -> Z.testbit x t = false -> Z.clearbit (Z.setbit x t) t = x.
Proof.
  intros Ht Hx. apply Z.bits_inj'. intros i Hi.
  destruct (Z.eq_dec i t) as [->|Hne].
  - by rewrite Z.clearbit_eq, Hx.
  - rewrite Z.clearbit_neq, Z.setbit_neq by lia. done.
Qed.

Lemma poll_idle_now sts k n : (0 < n)%nat -> truth (sts k) = true -> poll_idle sts k n = true.
Proof. intros Hn Hs. destruct n; [lia|]. cbn. by rewrite Hs. Qed.

(** No command in flight on the TCSes of the group addresses a resource of
    the message. *)
Definition no_conflict (d : rsc_drv) (tcs : tcs_group) (msg : tcs_request) : Prop :=
  forall t j c, tg_offset tcs <= t < tg_offset tcs + tg_num_tcs tcs ->
    Z.testbit (tcs_in_use d) t = true -> 0 <= j < tg_ncpt tcs ->
    Z.testbit (read_tcs_reg d (regs d RSC_DRV_CMD_ENABLE) t) j = true -> c ∈ cmds msg ->
    cmd_db_match_resource_addr (cmd_addr c) (read_tcs_cmd d (regs d RSC_DRV_CMD_ADDR) t j) = false.

Lemma check_for_req_inflight_spec d tcs msg :
  0 <= tg_num_tcs tcs ->
  check_for_req_inflight d tcs msg = 0 /\ no_conflict d tcs msg \/
  check_for_req_inflight d tcs msg = - EBUSY /\ ~ no_conflict d tcs msg.
Proof.
  intros Hn. unfold check_for_req_inflight, no_conflict.
  destruct (existsb _ _) eqn:E; [right|left]; (split; [done|]).
  - apply existsb_exists in E as (t & Ht & E). apply list_elem_of_In, list_elem_of_filter in Ht as [Hu Ht].
    apply zseq_elem in Ht. apply existsb_exists in E as (j & Hj & E).
    apply list_elem_of_In, set_bits_spec in Hj as [Hj Hb]. apply existsb_exists in E as (c & Hc & E).
    intros N. rewrite (N t j c) in E; [done|lia|done|lia|done|by apply list_elem_of_In].
  - intros t j c Ht Hu Hj Hb Hc. apply not_true_iff_false. intros M.
    apply not_true_iff_false in E. apply E, existsb_exists. exists t. split.
    { apply list_elem_of_In, list_elem_of_filter. split; [done|]. apply zseq_elem. lia. }
    apply existsb_exists. exists j. split; [by apply list_elem_of_In, set_bits_spec|].
    apply existsb_exists. exists c. split; [by apply list_elem_of_In|done].
Qed.

Section Claim.

Context `{BitmapLaws}.

Lemma claim_tcs_spec d tcs msg sts t :
  0 <= tg_offset tcs -> 0 <= tg_num_tcs tcs ->
  claim_tcs_for_req d tcs msg sts = t -> 0 <= t ->
  tg_offset tcs <= t < tg_offset tcs + tg_num_tcs tcs /\
  Z.testbit (tcs_in_use d) t = false /\ no_conflict d tcs msg.
Proof using H0.
  intros Ho Hn Hc Ht. unfold claim_tcs_for_req, find_free_tcs in Hc. cbv zeta in Hc.
  destruct (check_for_req_inflight_spec d tcs msg Hn) as [[E N]|[E N]]; rewrite E in Hc; [|by subst].
  cbn [truth negb Z.eqb] in Hc. case_hyp Hc; [by subst|]. case_hyp Hc; [by subst|]. subst t. zbool.
  destruct (find_next_zero_bit_clear (tcs_in_use d) (tg_offset tcs + tg_num_tcs tcs) (tg_offset tcs)); [lia..|].
  auto with lia.
Qed.

Lemma claim_tcs_progress d tcs msg sts t :
  0 <= tg_offset tcs -> 0 <= tg_num_tcs tcs -> no_conflict d tcs msg ->
  tg_offset tcs <= t < tg_offset tcs + tg_num_tcs tcs -> Z.testbit (tcs_in_use d) t = false ->
  truth (sts 1%nat) = true -> 0 <= claim_tcs_for_req d tcs msg sts.
Proof using H0.
  intros Ho Hn Hc Ht Hf Hs. unfold claim_tcs_for_req, find_free_tcs. cbv zeta.
  destruct (check_for_req_inflight_spec d tcs msg Hn) as [[E N]|[E N]]; [|done]. rewrite E. cbn [truth negb Z.eqb].
  pose proof (find_next_zero_bit_found (tcs_in_use d) (tg_offset tcs + tg_num_tcs tcs) (tg_offset tcs) t
    ltac:(lia) ltac:(lia) Hf).
  destruct (find_next_zero_bit_clear (tcs_in_use d) (tg_offset tcs + tg_num_tcs tcs) (tg_offset tcs)); [lia..|].
  rewrite (proj2 (Z.leb_gt _ _)) by lia. rewrite poll_idle_now by (done || lia). cbn [negb]. lia.
Qed.

(** [rpmh_rsc_send_data] in terms of [program_tcs]. *)
Lemma send_data_unfold d req c sts :
  in_solver_mode d = false ->
  let msg := req_msg req in
  let ty := get_tcs_for_msg d (msg_state msg) c in
  let tcs := tcs_of d c ty in
  let t := claim_tcs_for_req d tcs msg sts in
  rpmh_rsc_send_data d req c sts =
  if t <? 0 then None
  else
    let d1 := set_tcs d c ty
      (tcs <| tg_req := <[Z.to_nat (t - tg_offset tcs) := Some req]> (tg_req tcs) |>) in
    let d2 := d1 <| tcs_in_use := Z.setbit (tcs_in_use d1) t |> in
    let irq := wait_for_compl msg || (bool_decide (msg_state msg = RPMH_ACTIVE_ONLY_STATE) &&
       negb (bool_decide (tg_type tcs = ACTIVE_TCS))) in
    let d7 := program_tcs d2 t irq msg in
    Some (0, if negb (wait_for_compl msg)
             then d7 <| tcs_in_use := Z.clearbit (tcs_in_use d7) t |> else d7).
Proof. intros Hs. unfold rpmh_rsc_send_data. rewrite Hs. reflexivity. Qed.

End Claim.

(** The registers and the group a request of state [s] on channel [c] uses
    are laid out as probe leaves them. *)
Record channel_ok (d : rsc_drv) (s : rpmh_state) (c : Z) : Prop := {
  cok_shape : drv_shape d;
  cok_channel : 0 <= c < 2;
  cok_regs : regs_layout (regs d);
  cok_stride : 0 <= stride d;
  cok_offset : 0 <= tg_offset (tcs_of d c (get_tcs_for_msg d s c));
  cok_num : 0 <= tg_num_tcs (tcs_of d c (get_tcs_for_msg d s c)) <=
            Z.of_nat (length (tg_req (tcs_of d c (get_tcs_for_msg d s c))));
}.

(** The request [req] was started on TCS [t]: the software state and the
    registers after [rpmh_rsc_send_data]. *)
Record sent_on (d : rsc_drv) (req : rpmh_request) (c t : Z) (d' : rsc_drv) : Prop := {
  sent_ch : let ty := get_tcs_for_msg d (msg_state (req_msg req)) c in
            let tcs := tcs_of d c ty in
            ch d' = ch (set_tcs d c ty
              (tcs <| tg_req := <[Z.to_nat (t - tg_offset tcs) := Some req]> (tg_req tcs) |>));
  sent_in_use : tcs_in_use d' =
    if wait_for_compl (req_msg req) then Z.setbit (tcs_in_use d) t else tcs_in_use d;
  sent_completed : completed d' = completed d;
  sent_regs : regs d' = regs d /\ tcs_base d' = tcs_base d /\ tcs_distance d' = tcs_distance d;
  sent_loaded : tcs_loaded d (mmio d') t (req_msg req);
}.

Lemma tcs_loaded_same d d' m t msg :
  regs d' = regs d -> tcs_base d' = tcs_base d -> tcs_distance d' = tcs_distance d ->
  tcs_loaded d' m t msg -> tcs_loaded d m t msg.
Proof.
  unfold tcs_loaded, cmd_written, cmd_reg, tcs_reg, tcs_cmd_addr, tcs_reg_addr. by intros -> -> ->.
Qed.

Lemma send_data_sent `{BitmapLaws} d req c sts r d' :
  channel_ok d (msg_state (req_msg req)) c -> in_solver_mode d = false ->
  Forall wait_flag (cmds (req_msg req)) ->
  rpmh_rsc_send_data d req c sts = Some (r, d') ->
  let tcs := tcs_of d c (get_tcs_for_msg d (msg_state (req_msg req)) c) in
  exists t, r = 0 /\ tg_offset tcs <= t < tg_offset tcs + tg_num_tcs tcs /\
    Z.testbit (tcs_in_use d) t = false /\ no_conflict d tcs (req_msg req) /\ sent_on d req c t d'.
Proof.
  intros [] Hs Hw. rewrite send_data_unfold by done. cbv zeta.
  set (ty := get_tcs_for_msg d (msg_state (req_msg req)) c) in *. set (tcs := tcs_of d c ty) in *.
  set (t := claim_tcs_for_req d tcs (req_msg req) sts).
  destruct (Z.ltb_spec t 0) as [|Ht]; [done|].
  destruct (claim_tcs_spec d tcs (req_msg req) sts t) as (Hr & Hf & Hc); [done|lia|done|done|].
  set (d2 := set_field tcs_in_use _ (set_tcs d c ty _)).
  set (irq := wait_for_compl _ || _).
  destruct (program_tcs_spec d2 t irq (req_msg req)) as [S L]; [done..|].
  set (d7 := program_tcs d2 t irq (req_msg req)) in *. clearbody d7. intros E. apply (inj Some), pair_equal_spec in E as [<- <-]. exists t.
  split; [done|]. split; [lia|]. split; [done|]. split; [done|].
  apply same_but_mmio_regs in S as (R1 & R2 & R3 & _ & R5 & R6 & R7).
  change (tcs_in_use d2) with (Z.setbit (tcs_in_use d) t) in R6. change (completed d2) with (completed d) in R7.
  destruct (wait_for_compl (req_msg req)) eqn:Ew; cbn [negb].
  - split; cbv zeta; rewrite ?Ew; [exact R5|exact R6|exact R7|exact (conj R1 (conj R2 R3))|].
    revert L. by apply tcs_loaded_same.
  - split; cbv zeta; rewrite ?Ew; [exact R5| |exact R7|exact (conj R1 (conj R2 R3))|].
    2: { revert L. by apply tcs_loaded_same. }
    change (Z.clearbit (tcs_in_use d7) t = tcs_in_use d). rewrite R6. apply clearbit_setbit; [lia|exact Hf].
Qed.

(** ** Lemmas: the completion interrupt *)

(** The groups that carry active requests: masks that agree with the ranges,
    and different channels own different TCSes. *)
Record active_ok (d : rsc_drv) : Prop := {
  act_mask : forall i x, 0 <= i < 2 -> 0 <= x < 32 -> ch_initialized (ch d !!! Z.to_nat i) = true ->
    let g := tcs_of d i (get_tcs_for_msg d RPMH_ACTIVE_ONLY_STATE i) in
    Z.testbit (tg_mask g) x = (tg_offset g <=? x) && (x <? tg_offset g + tg_num_tcs g);
  act_disjoint : forall i k x, 0 <= i < 2 -> 0 <= k < 2 -> 0 <= x < 32 ->
    ch_initialized (ch d !!! Z.to_nat i) = true -> ch_initialized (ch d !!! Z.to_nat k) = true ->
    Z.testbit (tg_mask (tcs_of d i (get_tcs_for_msg d RPMH_ACTIVE_ONLY_STATE i))) x = true ->
    Z.testbit (tg_mask (tcs_of d k (get_tcs_for_msg d RPMH_ACTIVE_ONLY_STATE k))) x = true -> i = k;
}.

Lemma get_req_from_tcs_owner d i x :
  active_ok d -> 0 <= i < 2 -> 0 <= x < 32 -> ch_initialized (ch d !!! Z.to_nat i) = true ->
  let g := tcs_of d i (get_tcs_for_msg d RPMH_ACTIVE_ONLY_STATE i) in
  tg_offset g <= x < tg_offset g + tg_num_tcs g ->
  get_req_from_tcs d x = Some (i, tg_req g !!! Z.to_nat (x - tg_offset g)).
Proof.
  intros [A1 A2] Hi Hx Hini g Hr. unfold get_req_from_tcs. cbn [get_req_from MAX_CHANNEL].
  assert (forall k, 0 <= k < 2 -> ch_initialized (ch d !!! Z.to_nat k) = true ->
    truth (Z.land (tg_mask (tcs_of d k (get_tcs_for_msg d RPMH_ACTIVE_ONLY_STATE k))) (BIT x)) = true -> k = i) as U.
  { intros k Hk Hik. rewrite land_BIT_truth by lia. intros Hb. apply (A2 k i x); try done.
    rewrite A1 by done. cbv zeta. fold g. lia. }
  assert (truth (Z.land (tg_mask g) (BIT x)) = true) as Ho.
  { rewrite land_BIT_truth by lia. unfold g. rewrite A1 by done. cbv zeta. fold g. lia. }
  destruct (Z.eq_dec i 0) as [->|].
  - rewrite Hini. cbn [negb]. fold g. by rewrite Ho.
  - assert (i = 1) as -> by lia. change (0 + 1) with 1. rewrite Hini. cbn [negb]. fold g. rewrite Ho.
    destruct (ch_initialized (ch d !!! Z.to_nat 0)) eqn:E0; cbn [negb]; [|done].
    case_goal; [|done]. specialize (U 0 ltac:(lia) E0 ltac:(assumption)). lia.
Qed.

Lemma get_req_from_ch d d' x i n : ch d' = ch d -> get_req_from d' x i n = get_req_from d x i n.
Proof.
  intros E. revert i. induction n as [|n IH]; intros i; [done|]. cbn [get_req_from].
  unfold get_tcs_for_msg, tcs_of. rewrite E, IH. done.
Qed.

Definition completion_of (d : rsc_drv) (x : Z) : list Z :=
  match get_req_from_tcs d x with
  | Some (_, Some q) => match req_completion q with Some k => [k] | None => [] end
  | _ => []
  end.

Lemma tx_done_one_spec d c x :
  get_req_from_tcs d x <> None ->
  exists d' c', tx_done_one d c x = Some (d', Some c') /\ ch d' = ch d /\
    tcs_in_use d' = Z.clearbit (tcs_in_use d) x /\ completed d' = completed d ++ completion_of d x.
Proof.
  intros Hg. unfold tx_done_one, completion_of. destruct (get_req_from_tcs d x) as [[i q]|]; [|done].
  cbv zeta. destruct q as [q|]; unfold rpmh_tx_done; [destruct (req_completion q)|];
    (destruct (tg_num_tcs (tcs_of d i ACTIVE_TCS) =? 0); eexists _, _; (split; [reflexivity|]);
     cbn -[app Z.clearbit]; rewrite ?app_nil_r; done).
Qed.

Lemma tx_done_loop_spec d c xs :
  (forall x, x ∈ xs -> get_req_from_tcs d x <> None) -> (forall x, x ∈ xs -> 0 <= x) ->
  exists d', tx_done_loop d c xs = Some d' /\ ch d' = ch d /\
    (forall i, 0 <= i -> Z.testbit (tcs_in_use d') i = Z.testbit (tcs_in_use d) i && negb (bool_decide (i ∈ xs))) /\
    completed d' = completed d ++ flat_map (completion_of d) xs.
Proof.
  revert d c. induction xs as [|x xs IH]; intros d c Hg Hx.
  - exists d. cbn. split; [done|]. split; [done|]. split; [|by rewrite app_nil_r].
    intros i Hi. by rewrite andb_true_r.
  - destruct (tx_done_one_spec d c x) as (d1 & c1 & E1 & C1 & U1 & K1); [apply Hg; by left|].
    assert (forall y, get_req_from_tcs d1 y = get_req_from_tcs d y) as G by (intros; by apply get_req_from_ch).
    destruct (IH d1 (Some c1)) as (d' & E2 & C2 & U2 & K2).
    { intros y Hy. rewrite G. apply Hg. by right. } { intros y Hy. apply Hx. by right. }
    exists d'. cbn [tx_done_loop]. rewrite E1. split; [done|]. split; [congruence|]. split.
    + intros i Hi. rewrite U2, U1 by done. destruct (Z.eq_dec i x) as [->|Hne].
      * rewrite Z.clearbit_eq. rewrite (bool_decide_true (x ∈ x :: xs)) by (by left). by rewrite andb_false_r.
      * rewrite Z.clearbit_neq by (try congruence; apply Hx; by left). f_equal. f_equal.
        apply bool_decide_ext. rewrite elem_of_cons. intuition congruence.
    + rewrite K2, K1, <- app_assoc. f_equal. cbn [flat_map]. f_equal. apply flat_map_ext. intros y.
      unfold completion_of. by rewrite G.
Qed.

(** Replacing a group by one with the same mask, range and size keeps the
    configuration of every channel. *)
Lemma set_tcs_static d c ty g' :
  drv_shape d -> 0 <= c < 2 -> (ty < TCS_TYPE_NR)%nat ->
  tg_mask g' = tg_mask (tcs_of d c ty) -> tg_offset g' = tg_offset (tcs_of d c ty) ->
  tg_num_tcs g' = tg_num_tcs (tcs_of d c ty) ->
  let d' := set_tcs d c ty g' in
  forall i, 0 <= i < 2 -> ch_initialized (ch d' !!! Z.to_nat i) = ch_initialized (ch d !!! Z.to_nat i) /\
    forall s, get_tcs_for_msg d' s i = get_tcs_for_msg d s i /\
      tg_mask (tcs_of d' i (get_tcs_for_msg d s i)) = tg_mask (tcs_of d i (get_tcs_for_msg d s i)) /\
      tg_offset (tcs_of d' i (get_tcs_for_msg d s i)) = tg_offset (tcs_of d i (get_tcs_for_msg d s i)) /\
      tg_num_tcs (tcs_of d' i (get_tcs_for_msg d s i)) = tg_num_tcs (tcs_of d i (get_tcs_for_msg d s i)).
Proof.
  intros Sh Hc Hty Hm Ho Hn d' i Hi.
  assert (ch_initialized (ch d' !!! Z.to_nat i) = ch_initialized (ch d !!! Z.to_nat i) /\
    forall u, tcs_of d' i u = if bool_decide (i = c /\ u = ty) then g' else tcs_of d i u) as [E1 E2].
  { destruct Sh as [H1 H2]. unfold d', set_tcs, tcs_of. cbn [ch set_field].
    assert (Z.to_nat c < MAX_CHANNEL)%nat as Hlt by (unfold MAX_CHANNEL; lia).
    destruct (Z.eq_dec i c) as [->|].
    - rewrite list_lookup_total_insert_eq' by lia. cbn [ch_initialized ch_tcs set_field]. split; [done|].
      intros u. case_bool_decide as E.
      + destruct E as [_ ->]. apply list_lookup_total_insert_eq'. rewrite H2; lia.
      + apply list_lookup_total_insert_ne. intuition congruence.
    - rewrite list_lookup_total_insert_ne by lia. split; [done|]. intros u.
      rewrite bool_decide_false by tauto. done. }
  split; [done|]. intros s.
  assert (forall u, tg_mask (tcs_of d' i u) = tg_mask (tcs_of d i u) /\
    tg_offset (tcs_of d' i u) = tg_offset (tcs_of d i u) /\
    tg_num_tcs (tcs_of d' i u) = tg_num_tcs (tcs_of d i u)) as Q.
  { intros u. rewrite E2. case_bool_decide as E; [destruct E as [-> ->]|]; auto. }
  split; [|apply Q]. unfold get_tcs_for_msg. cbv zeta. by rewrite (proj2 (proj2 (Q _))).
Qed.

(** The request stashed by [rpmh_rsc_send_data] is the one the interrupt
    handler finds. *)
Lemma get_req_stashed d c t req :
  drv_shape d -> active_ok d -> 0 <= c < 2 -> ch_initialized (ch d !!! Z.to_nat c) = true ->
  let ty := get_tcs_for_msg d RPMH_ACTIVE_ONLY_STATE c in
  let g := tcs_of d c ty in
  0 <= tg_offset g -> 0 <= t < 32 -> tg_offset g <= t < tg_offset g + tg_num_tcs g ->
  tg_num_tcs g <= Z.of_nat (length (tg_req g)) ->
  get_req_from (set_tcs d c ty (g <| tg_req := <[Z.to_nat (t - tg_offset g) := Some req]> (tg_req g) |>)) t 0
    MAX_CHANNEL = Some (c, Some req).
Proof.
  intros Sh A Hc Hini ty g Ho Ht Hr Hlen.
  set (g' := g <| tg_req := _ |>). set (d' := set_tcs d c ty g').
  assert (forall i, 0 <= i < 2 -> ch_initialized (ch d' !!! Z.to_nat i) = ch_initialized (ch d !!! Z.to_nat i) /\
    forall s, get_tcs_for_msg d' s i = get_tcs_for_msg d s i /\
      tg_mask (tcs_of d' i (get_tcs_for_msg d s i)) = tg_mask (tcs_of d i (get_tcs_for_msg d s i)) /\
      tg_offset (tcs_of d' i (get_tcs_for_msg d s i)) = tg_offset (tcs_of d i (get_tcs_for_msg d s i)) /\
      tg_num_tcs (tcs_of d' i (get_tcs_for_msg d s i)) = tg_num_tcs (tcs_of d i (get_tcs_for_msg d s i))) as P.
  { apply set_tcs_static; try done; apply get_tcs_for_msg_bound. }
  assert (active_ok d') as A'.
  { destruct A as [A1 A2]. split.
    - cbv zeta. intros i x Hi Hx. destruct (P i Hi) as (-> & Q). destruct (Q RPMH_ACTIVE_ONLY_STATE) as (-> & -> & -> & ->).
      by apply A1.
    - intros i k x Hi Hk Hx. destruct (P i Hi) as (-> & Q), (P k Hk) as (-> & Q').
      destruct (Q RPMH_ACTIVE_ONLY_STATE) as (-> & -> & _), (Q' RPMH_ACTIVE_ONLY_STATE) as (-> & -> & _).
      by apply A2. }
  destruct (P c Hc) as (I & Q). destruct (Q RPMH_ACTIVE_ONLY_STATE) as (T & _ & O & N). fold ty in T, O, N. fold g in O, N.
  assert (tcs_of d' c ty = g') as Tg by (by apply tcs_of_set_tcs; [| |apply get_tcs_for_msg_bound]).
  pose proof (get_req_from_tcs_owner d' c t A' Hc Ht ltac:(congruence)) as R. cbv zeta in R.
  rewrite T, Tg in R. unfold get_req_from_tcs in R. rewrite R by (unfold g'; cbn [set_field tg_offset tg_num_tcs]; lia).
  unfold g'. cbn [set_field tg_offset tg_req]. rewrite list_lookup_total_insert_eq' by lia. done.
Qed.

Lemma set_bits_BIT t : 0 <= t < 32 -> set_bits (BIT t) 32 = [t].
Proof.
  intros Ht. unfold set_bits.
  assert (forall n a, 0 <= a -> filter (fun i => Z.testbit (BIT t) i = true) (zseq a n) =
    if (a <=? t) && (t <? a + Z.of_nat n) then [t] else []) as P.
  { induction n as [|n IH]; intros a Ha; cbn [zseq].
    { destruct ((a <=? t) && _) eqn:E; [lia|done]. }
    rewrite filter_cons, IH by lia. rewrite BIT_testbit by lia. destruct (Z.eqb_spec t a) as [->|].
    - rewrite decide_True by done. destruct ((a + 1 <=? a) && _) eqn:E1, ((a <=? a) && _) eqn:E2; done || lia.
    - rewrite decide_False by done. destruct ((a + 1 <=? t) && _) eqn:E1, ((a <=? t) && _) eqn:E2; done || lia. }
  rewrite P by lia. destruct ((0 <=? t) && _) eqn:E; done || lia.
Qed.

(** ** Lemmas: probe *)

(** The group has TCSes of its own in the DRV. *)
Definition carries (g : tcs_group) : bool :=
  negb (tg_num_tcs g =? 0) && negb (bool_decide (tg_type g = CONTROL_TCS)).

Definition in_group (g : tcs_group) (x : Z) : Prop := tg_offset g <= x < tg_offset g + tg_num_tcs g.

(** Groups laid out in [first, first + st): ranges inside it, masks that agree
    with the ranges, no two groups share a TCS. *)
Record groups_ok (tcss : list tcs_group) (ncpt first st : Z) : Prop := {
  grp_len : length tcss = TCS_TYPE_NR;
  grp_free : forall ty, (ty < TCS_TYPE_NR)%nat -> tg_drv (tcss !!! ty) = false -> tcss !!! ty = zero_tcs;
  grp_type : forall ty, (ty < TCS_TYPE_NR)%nat -> tg_drv (tcss !!! ty) = true ->
    tg_type (tcss !!! ty) = ty /\ tg_ncpt (tcss !!! ty) = ncpt /\
    0 <= tg_num_tcs (tcss !!! ty) <= MAX_TCS_PER_TYPE /\ tg_slots (tcss !!! ty) = 0;
  grp_range : forall ty x, (ty < TCS_TYPE_NR)%nat -> carries (tcss !!! ty) = true ->
    in_group (tcss !!! ty) x -> first <= x < first + st;
  grp_mask : forall ty x, (ty < TCS_TYPE_NR)%nat -> carries (tcss !!! ty) = true -> 0 <= x < 32 ->
    Z.testbit (tg_mask (tcss !!! ty)) x = true <-> in_group (tcss !!! ty) x;
  grp_disjoint : forall ty ty' x, (ty < TCS_TYPE_NR)%nat -> (ty' < TCS_TYPE_NR)%nat ->
    carries (tcss !!! ty) = true -> carries (tcss !!! ty') = true ->
    in_group (tcss !!! ty) x -> in_group (tcss !!! ty') x -> ty = ty';
}.

Lemma mask_spec n s x :
  0 <= n -> 0 <= s -> 0 <= x < 32 ->
  Z.testbit (u32 (Z.shiftl (Z.shiftl 1 n - 1) s)) x = true <-> s <= x < s + n.
Proof.
  intros. rewrite testbit_u32 by lia. rewrite Z.shiftl_1_l, Z.sub_1_r, <- Z.ones_equiv.
  destruct (Z.lt_ge_cases x s).
  - rewrite Z.shiftl_spec_low by lia. split; [done|lia].
  - rewrite Z.shiftl_spec by lia. destruct (Z.lt_ge_cases (x - s) n).
    + rewrite Z.ones_spec_low by lia. split; [lia|done].
    + rewrite Z.ones_spec_high by lia. split; [done|lia].
Qed.

Lemma groups_ok_insert tcss ncpt first st st' ty g :
  groups_ok tcss ncpt first st -> (ty < TCS_TYPE_NR)%nat -> 0 <= st <= st' ->
  tg_drv (tcss !!! ty) = false -> tg_drv g = true ->
  tg_type g = ty /\ tg_ncpt g = ncpt /\ 0 <= tg_num_tcs g <= MAX_TCS_PER_TYPE /\ tg_slots g = 0 ->
  (carries g = true -> forall x, in_group g x -> first + st <= x < first + st') ->
  (carries g = true -> forall x, 0 <= x < 32 -> Z.testbit (tg_mask g) x = true <-> in_group g x) ->
  groups_ok (<[ty := g]> tcss) ncpt first st'.
Proof.
  intros [] Hty Hst Hd Hg Ht Hr Hm.
  assert (forall k, <[ty := g]> tcss !!! k = if bool_decide (k = ty) then g else tcss !!! k) as L.
  { intros k. case_bool_decide as E; [subst; apply list_lookup_total_insert_eq'; lia|].
    by apply list_lookup_total_insert_ne. }
  split; [by rewrite length_insert|intros ty1 Hty1|intros ty1 Hty1|intros ty1 x Hty1|
    intros ty1 x Hty1|intros ty1 ty2 x Hty1 Hty2];
    rewrite ?L; repeat case_bool_decide; subst; try done; auto.
  - congruence.
  - intros Hc Hx. specialize (Hr Hc x Hx). lia.
  - intros Hc Hx. specialize (grp_range0 ty1 x Hty1 Hc Hx). lia.
  - intros C1 C2 X1 X2. specialize (Hr C1 x X1). specialize (grp_range0 ty2 x Hty2 C2 X2). lia.
  - intros C1 C2 X1 X2. specialize (Hr C2 x X2). specialize (grp_range0 ty1 x Hty1 C1 X1). lia.
  - eauto.
Qed.

Lemma layout_tcses_spec tcss max_tcs ncpt first st cfg tcss' st' :
  groups_ok tcss ncpt first st -> 0 <= st <= max_tcs -> 0 <= first -> first + max_tcs <= 32 ->
  Forall (fun tn => 0 <= fst tn /\ 0 <= snd tn) cfg -> check_tcs_cfg cfg = true ->
  layout_tcses tcss max_tcs ncpt first st cfg = (0, tcss', st') ->
  groups_ok tcss' ncpt first st' /\ 0 <= st' <= max_tcs.
Proof.
  intros G Hst Hf Hmax Hp. revert tcss st G Hst.
  induction Hp as [|[ty n] cfg [Hty Hn] Hp IH]; intros tcss st G Hst Hck; cbn [layout_tcses].
  { intros [= <- <-]. done. }
  cbn [fst snd check_tcs_cfg forallb] in *. unfold check_tcs_cfg in Hck. cbn [forallb fst snd] in Hck.
  zbool. assert (Z.to_nat ty < TCS_TYPE_NR)%nat as Hlt by (unfold TCS_TYPE_NR in *; lia).
  cbv zeta. destruct (tg_drv (tcss !!! Z.to_nat ty)) eqn:Ed; [done|].
  pose proof (grp_free _ _ _ _ G (Z.to_nat ty) Hlt Ed) as Ez.
  destruct ((n =? 0) || _) eqn:Ec.
  - intros E. apply IH in E; [done| |done|done].
    apply (groups_ok_insert _ _ _ st st); auto; [lia| | |]; rewrite ?Ez; cbn [tg_type tg_ncpt tg_num_tcs tg_slots].
    + repeat split; lia || done.
    + unfold carries. cbn [tg_num_tcs tg_type]. rewrite <- negb_orb, Ec. done.
    + unfold carries. cbn [tg_num_tcs tg_type]. rewrite <- negb_orb, Ec. done.
  - destruct ((max_tcs <? st + n) || _) eqn:Eb; [done|]. zbool.
    intros E. apply IH in E; [done| |lia|done].
    apply (groups_ok_insert _ _ _ st (st + n)); auto; [lia| | |]; rewrite ?Ez;
      unfold in_group; cbn [set_field tg_type tg_ncpt tg_num_tcs tg_slots tg_offset tg_mask].
    + repeat split; lia || done.
    + intros _ x Hx. lia.
    + intros _ x Hx. rewrite mask_spec by lia. lia.
Qed.

Lemma groups_ok_fresh ncpt first : groups_ok (replicate TCS_TYPE_NR zero_tcs) ncpt first 0.
Proof.
  assert (forall ty, (ty < TCS_TYPE_NR)%nat -> replicate TCS_TYPE_NR zero_tcs !!! ty = zero_tcs) as L
    by (intros; by apply lookup_total_replicate_2).
  split; [done|intros ty Hty|intros ty Hty|intros ty x Hty|intros ty x Hty|intros ty ty' x Hty Hty']; by rewrite !L.
Qed.

Lemma cfg_pairs_pos elems :
  Forall (fun e => 0 <= e) elems -> Forall (fun tn => 0 <= fst tn /\ 0 <= snd tn) (cfg_pairs elems).
Proof.
  assert (forall n l, (length l <= n)%nat -> Forall (fun e => 0 <= e) l ->
    Forall (fun tn => 0 <= fst tn /\ 0 <= snd tn) (cfg_pairs l)) as P; [|intros; by eapply P].
  induction n as [|n IH]; intros [|a [|b l]] Hl Hp; cbn in *; try constructor; try lia.
  - apply Forall_cons in Hp as [? Hp]. by apply Forall_cons in Hp as [? _].
  - apply IH; [lia|]. by do 2 apply Forall_cons in Hp as [_ Hp].
Qed.

Lemma ctrlr_not_busy_iff `{BitmapLaws} d i :
  0 <= tg_offset (tcs_of d i (get_tcs_for_msg d RPMH_ACTIVE_ONLY_STATE i)) ->
  channel_busy d i = true <->
  ch_initialized (ch d !!! Z.to_nat i) = true /\
  ((exists x, in_group (tcs_of d i (get_tcs_for_msg d RPMH_ACTIVE_ONLY_STATE i)) x /\
      Z.testbit (tcs_in_use d) x = true) \/
   (tg_num_tcs (tcs_of d i FAST_PATH_TCS) <> 0 /\
    read_tcs_reg d (regs d RSC_DRV_STATUS) (tg_offset (tcs_of d i FAST_PATH_TCS)) = 0)).
Proof.
  unfold channel_busy, in_group. set (g := tcs_of d i (get_tcs_for_msg d _ i)). intros Ho.
  destruct (ch_initialized _); cbn [negb]; [|by intuition]. cbv zeta.
  assert ((if tg_num_tcs (tcs_of d i ACTIVE_TCS) =? 0 then tcs_of d i WAKE_TCS else tcs_of d i ACTIVE_TCS) = g) as ->.
  { unfold g, get_tcs_for_msg. cbn. by destruct (tg_num_tcs _ =? 0). }
  clearbody g. destruct (Z.ltb_spec (find_next_bit (tcs_in_use d) (tg_offset g + tg_num_tcs g) (tg_offset g))
    (tg_offset g + tg_num_tcs g)) as [Hlt|Hge].
  - destruct (find_next_bit_set _ _ _ Ho Hlt) as [? ?]. split; [|done]. intros _. split; [done|]. left.
    eexists. split; [|eassumption]. lia.
  - split.
    + intros ?. zbool. split; [done|]. right. done.
    + intros [_ [(x & Hx & Hb)|[Hn Hs]]]; [|lia].
      pose proof (find_next_bit_found (tcs_in_use d) (tg_offset g + tg_num_tcs g) (tg_offset g) x Ho Hx Hb). lia.
Qed.

Lemma poll_complete_spec complete mask k n :
  (0 < poll_complete complete mask k n)%nat <->
  exists j, (k <= j /\ S j < k + n)%nat /\ Z.land (complete j) mask <> 0.
Proof.
  revert k. induction n as [|n IH]; intros k; cbn [poll_complete].
  { split; [lia|]. intros (j & ? & _). lia. }
  destruct (truth (Z.land (complete k) mask)) eqn:E; unfold truth in E; zbool.
  - split.
    + intros Hn. exists k. split; [lia|done].
    + intros (j & ? & _). lia.
  - rewrite IH. split; intros (j & Hj & Hn); exists j; (split; [|done]).
    + lia.
    + destruct (Nat.eq_dec j k) as [->|]; [done|lia].
Qed.

Lemma probe_channel_drv_tcs d elems max_tcs ncpt c :
  drv_tcs (snd (rpmh_probe_channel_tcs_config d elems max_tcs ncpt c)) = drv_tcs d.
Proof.
  unfold rpmh_probe_channel_tcs_config. cbv zeta. do 2 (case_goal; [done|]).
  destruct (layout_tcses _ _ _ _ _ _) as [[ret tcss] st]. by case_goal.
Qed.

Lemma probe_channels_drv_tcs d max_tcs ncpt c nodes :
  drv_tcs (snd (probe_channels d max_tcs ncpt c nodes)) = drv_tcs d.
Proof.
  revert d c. induction nodes as [|el nodes IH]; intros d c; [done|]. cbn [probe_channels].
  pose proof (probe_channel_drv_tcs d el max_tcs ncpt c) as P.
  destruct (rpmh_probe_channel_tcs_config d el max_tcs ncpt c) as [ret d1]. cbn [snd] in P.
  case_goal; [done|]. by rewrite IH.
Qed.

Lemma probe_tcs_config_drv_tcs d id offset distance nodes :
  drv_tcs (snd (rpmh_probe_tcs_config d id offset distance nodes)) = drv_tcs d.
Proof.
  unfold rpmh_probe_tcs_config. destruct offset as [off|e]; [|done]. cbv zeta.
  by rewrite probe_channels_drv_tcs.
Qed.

(** ** Properties *)

Section Properties.

Context `{BitmapLaws}.

Lemma find_slots_total_spec (tcs : tcs_group) (msg : tcs_request) :
  group_ok tcs -> 0 < num_cmds msg ->
  exists r, find_slots tcs msg = Some r /\
  match r with
  | Ok (tcs', tcs_id, cmd_id) =>
      room_at tcs (tcs_id - tg_offset tcs) cmd_id (num_cmds msg) /\
      tcs' = tcs <| tg_slots := tg_slots tcs' |> /\
      (forall i, 0 <= i -> Z.testbit (tg_slots tcs') i =
         Z.testbit (tg_slots tcs) i ||
         let s := (tcs_id - tg_offset tcs) * tg_ncpt tcs + cmd_id in
         (s <=? i) && (i <? s + num_cmds msg))
  | Err e => e = - ENOMEM /\ forall k p, ~ room_at tcs k p (num_cmds msg)
  end.
Proof using H0.
  intros Hg Hn. unfold find_slots.
  pose proof (find_slots_loop_total tcs (num_cmds msg) Hg Hn (Z.to_nat (tg_num_tcs tcs) + 2) 0) as T.
  pose proof (fun s => find_slots_loop_sound tcs (num_cmds msg) Hg Hn (Z.to_nat (tg_num_tcs tcs) + 2) 0 s) as S.
  pose proof (find_slots_loop_complete tcs (num_cmds msg) Hg Hn (Z.to_nat (tg_num_tcs tcs) + 2) 0) as C.
  change (0 * tg_ncpt tcs) with 0 in *.
  destruct (find_slots_loop _ tcs (num_cmds msg) 0) as [[slot|]|]; [| |destruct Hg; exfalso; apply T; (done || lia)].
  - eexists. split; [reflexivity|]. cbv zeta.
    destruct (S slot) as (k & Hk & R); [lia|done|].
    destruct (room_div tcs (num_cmds msg) Hg Hn k _ R) as [D M].
    replace (k * tg_ncpt tcs + (slot - k * tg_ncpt tcs)) with slot in * by lia. rewrite D, M.
    replace (k + tg_offset tcs - tg_offset tcs) with k by lia. split; [done|]. split; [done|].
    intros i Hi. cbn [set_field tg_slots]. pose proof R as (R1 & R2 & R3 & _).
    destruct Hg. rewrite bitmap_set_spec by nia. do 2 f_equal; f_equal; lia.
  - eexists. split; [reflexivity|]. split; [done|]. intros k p R.
    apply (C k p); [|done|done]. destruct R. lia.
Qed.

Lemma write_ctrl_data_total_spec (d : rsc_drv) (msg : tcs_request) (c : Z) :
  channel_ok d (msg_state msg) c -> Forall wait_flag (cmds msg) -> 0 < num_cmds msg ->
  let ty := get_tcs_for_msg d (msg_state msg) c in
  group_ok (tcs_of d c ty) ->
  exists ret d', rpmh_rsc_write_ctrl_data d msg c = Some (ret, d') /\
  (ret = - ENOMEM /\ d' = d \/
   ret = 0 /\ exists tcs' t j, room_at (tcs_of d c ty) (t - tg_offset (tcs_of d c ty)) j (num_cmds msg) /\
     same_but_mmio (set_tcs d c ty tcs') d' /\
     tcs' = (tcs_of d c ty) <| tg_slots := tg_slots tcs' |> /\
     (forall i, 0 <= i -> Z.testbit (tg_slots tcs') i =
        Z.testbit (tg_slots (tcs_of d c ty)) i ||
        let s := (t - tg_offset (tcs_of d c ty)) * tg_ncpt (tcs_of d c ty) + j in
        (s <=? i) && (i <? s + num_cmds msg)) /\
     (forall k cmd, cmds msg !! k = Some cmd ->
        cmd_written d (mmio d') t (j + Z.of_nat k) (base_msgid msg) cmd) /\
     (forall i, 0 <= i < 32 ->
        Z.testbit (mmio d' (tcs_reg d RSC_DRV_CMD_ENABLE t)) i =
        Z.testbit (mmio d (tcs_reg d RSC_DRV_CMD_ENABLE t)) i || ((j <=? i) && (i <? j + num_cmds msg)) /\
        Z.testbit (mmio d' (tcs_reg d RSC_DRV_CMD_WAIT_FOR_CMPL t)) i =
        Z.testbit (mmio d (tcs_reg d RSC_DRV_CMD_WAIT_FOR_CMPL t)) i || waits_at (cmds msg) j i) /\
     (forall a, ~ in_cmds d t j (j + num_cmds msg) a -> a <> tcs_reg d RSC_DRV_CMD_ENABLE t ->
        a <> tcs_reg d RSC_DRV_CMD_WAIT_FOR_CMPL t -> mmio d' a = mmio d a)).
Proof using H0.
  intros Hok Hw Hn ty Hg. unfold rpmh_rsc_write_ctrl_data. rewrite (proj2 (Z.eqb_neq _ _)) by lia.
  cbv zeta. fold ty. destruct (find_slots_total_spec (tcs_of d c ty) msg Hg Hn) as (r & -> & Hr).
  destruct r as [[[tcs' t] j]|e].
  - eexists _, _. split; [reflexivity|]. right. split; [done|]. exists tcs', t, j.
    destruct Hr as (R & Ht & Sl). pose proof R as (_ & Hj & _).
    destruct (buffer_write_spec (set_tcs d c ty tcs') t j msg) as (S & W & E & C & F);
      [by destruct Hok|lia|done|].
    split; [done|]. split; [done|]. split; [done|]. split; [exact Sl|]. split; [exact W|]. split; [|exact F].
    intros i Hi. split; [by apply E|by apply C].
  - eexists _, _. split; [reflexivity|]. left. by destruct Hr as [-> _].
Qed.

(** C34. [find_slots] ends for every message; it answers with [n] consecutive
    free commands inside one TCS of the group and marks exactly those, or it
    answers -ENOMEM, and then no TCS of the group has [n] consecutive free
    commands. *)
Theorem find_slots_spec (tcs : tcs_group) (msg : tcs_request) :
  group_ok tcs -> 0 < num_cmds msg ->
  exists r, find_slots tcs msg = Some r /\
  match r with
  | Ok (tcs', tcs_id, cmd_id) =>
      room_at tcs (tcs_id - tg_offset tcs) cmd_id (num_cmds msg) /\
      tcs' = tcs <| tg_slots := tg_slots tcs' |> /\
      (forall i, 0 <= i -> Z.testbit (tg_slots tcs') i =
         Z.testbit (tg_slots tcs) i ||
         let s := (tcs_id - tg_offset tcs) * tg_ncpt tcs + cmd_id in
         (s <=? i) && (i <? s + num_cmds msg))
  | Err e => e = - ENOMEM /\ forall k p, ~ room_at tcs k p (num_cmds msg)
  end.
Proof using H0. apply find_slots_total_spec. Qed.

(** C35. Writing a sleep or wake request always ends. When it succeeds, every
    command of the request is in place at consecutive indices of one TCS of
    the group, exactly their enable bits and their completion bits are added
    to that TCS, no other register changes, and of the software state only
    the group's slots do; when it fails nothing at all changes. *)
Theorem write_ctrl_data_spec (d : rsc_drv) (msg : tcs_request) (c : Z) :
  channel_ok d (msg_state msg) c -> Forall wait_flag (cmds msg) -> 0 < num_cmds msg ->
  let ty := get_tcs_for_msg d (msg_state msg) c in
  group_ok (tcs_of d c ty) ->
  exists ret d', rpmh_rsc_write_ctrl_data d msg c = Some (ret, d') /\
  (ret = - ENOMEM /\ d' = d \/
   ret = 0 /\ exists tcs' t j, room_at (tcs_of d c ty) (t - tg_offset (tcs_of d c ty)) j (num_cmds msg) /\
     same_but_mmio (set_tcs d c ty tcs') d' /\
     tcs' = (tcs_of d c ty) <| tg_slots := tg_slots tcs' |> /\
     (forall i, 0 <= i -> Z.testbit (tg_slots tcs') i =
        Z.testbit (tg_slots (tcs_of d c ty)) i ||
        let s := (t - tg_offset (tcs_of d c ty)) * tg_ncpt (tcs_of d c ty) + j in
        (s <=? i) && (i <? s + num_cmds msg)) /\
     (forall k cmd, cmds msg !! k = Some cmd ->
        cmd_written d (mmio d') t (j + Z.of_nat k) (base_msgid msg) cmd) /\
     (forall i, 0 <= i < 32 ->
        Z.testbit (mmio d' (tcs_reg d RSC_DRV_CMD_ENABLE t)) i =
        Z.testbit (mmio d (tcs_reg d RSC_DRV_CMD_ENABLE t)) i || ((j <=? i) && (i <? j + num_cmds msg)) /\
        Z.testbit (mmio d' (tcs_reg d RSC_DRV_CMD_WAIT_FOR_CMPL t)) i =
        Z.testbit (mmio d (tcs_reg d RSC_DRV_CMD_WAIT_FOR_CMPL t)) i || waits_at (cmds msg) j i) /\
     (forall a, ~ in_cmds d t j (j + num_cmds msg) a -> a <> tcs_reg d RSC_DRV_CMD_ENABLE t ->
        a <> tcs_reg d RSC_DRV_CMD_WAIT_FOR_CMPL t -> mmio d' a = mmio d a)).
Proof using H0. apply write_ctrl_data_total_spec. Qed.

(** C7. An active request is started only on a TCS of its group that was free,
    and only when no TCS of the group in flight has an enabled command that
    addresses the same resource as a command of the request. The TCS then
    holds exactly the commands of the request, enabled and triggered, and
    stays marked in use until the interrupt exactly when a completion is
    awaited. *)
Theorem send_data_exclusive (d : rsc_drv) (req : rpmh_request) (c : Z) (sts : nat -> Z) (r : Z)
  (d' : rsc_drv) :
  channel_ok d (msg_state (req_msg req)) c -> in_solver_mode d = false ->
  Forall wait_flag (cmds (req_msg req)) ->
  rpmh_rsc_send_data d req c sts = Some (r, d') ->
  let tcs := tcs_of d c (get_tcs_for_msg d (msg_state (req_msg req)) c) in
  r = 0 /\ no_conflict d tcs (req_msg req) /\
  exists t, in_group tcs t /\ Z.testbit (tcs_in_use d) t = false /\
    tcs_loaded d (mmio d') t (req_msg req) /\
    tcs_in_use d' = if wait_for_compl (req_msg req) then Z.setbit (tcs_in_use d) t else tcs_in_use d.
Proof using H0.
  intros Hok Hs Hw E. destruct (send_data_sent d req c sts r d' Hok Hs Hw E) as (t & Hr & Ht & Hf & Hc & []).
  split; [done|]. split; [done|]. exists t. done.
Qed.

(** The wait of [rpmh_rsc_send_data] is over as soon as no conflicting
    command is in flight, a TCS of the group is free, and the hardware reports
    it idle: the request is then started. *)
Theorem send_data_progress (d : rsc_drv) (req : rpmh_request) (c t : Z) (sts : nat -> Z) :
  channel_ok d (msg_state (req_msg req)) c -> in_solver_mode d = false ->
  let tcs := tcs_of d c (get_tcs_for_msg d (msg_state (req_msg req)) c) in
  no_conflict d tcs (req_msg req) -> in_group tcs t -> Z.testbit (tcs_in_use d) t = false ->
  truth (sts 1%nat) = true ->
  exists d', rpmh_rsc_send_data d req c sts = Some (0, d').
Proof using H0.
  intros [] Hs tcs Hc Ht Hf Hi. rewrite send_data_unfold by done. cbv zeta. fold tcs.
  pose proof (claim_tcs_progress d tcs (req_msg req) sts t ltac:(done) ltac:(apply cok_num0) Hc Ht Hf Hi).
  rewrite (proj2 (Z.ltb_ge _ _)) by done. eauto.
Qed.

(** The interrupt handler, when every TCS of the status word belongs to a
    channel, runs to its end, frees exactly the TCSes of the status word, and
    signals the completions of the requests stashed for them, in the order of
    the TCS numbers. *)
Theorem tcs_tx_done_releases (d : rsc_drv) (irq_status : Z) :
  (forall x, 0 <= x < 32 -> Z.testbit irq_status x = true -> get_req_from_tcs d x <> None) ->
  exists d', tcs_tx_done d irq_status = Some d' /\ ch d' = ch d /\
    (forall x, 0 <= x < 32 ->
       Z.testbit (tcs_in_use d') x = Z.testbit (tcs_in_use d) x && negb (Z.testbit irq_status x)) /\
    (forall x, 32 <= x -> Z.testbit (tcs_in_use d') x = Z.testbit (tcs_in_use d) x) /\
    completed d' = completed d ++ flat_map (completion_of d) (set_bits irq_status 32).
Proof using.
  intros Hown. destruct (tx_done_loop_spec d None (set_bits irq_status 32)) as (d' & E & C & U & K).
  { intros x [Hx Hb]%set_bits_spec. auto. } { intros x [Hx _]%set_bits_spec. lia. }
  exists d'. split; [done|]. split; [done|]. split; [|split; [|done]]; intros x Hx; rewrite U by lia.
  - f_equal. f_equal. destruct (Z.testbit irq_status x) eqn:B.
    + apply bool_decide_eq_true. by apply set_bits_spec.
    + apply bool_decide_eq_false. rewrite set_bits_spec. intuition congruence.
  - rewrite bool_decide_false, andb_true_r; [done|]. rewrite set_bits_spec. lia.
Qed.

(** Sending and completing: after a request that waits for its
    completion was started, the interrupt for the TCS it runs on signals that
    completion, once, and leaves the set of TCSes in use as it was before the
    request. *)
Theorem send_complete_roundtrip (d : rsc_drv) (req : rpmh_request) (c k : Z) (sts : nat -> Z) (d1 : rsc_drv) :
  channel_ok d RPMH_ACTIVE_ONLY_STATE c -> active_ok d -> in_solver_mode d = false ->
  ch_initialized (ch d !!! Z.to_nat c) = true ->
  let g := tcs_of d c (get_tcs_for_msg d RPMH_ACTIVE_ONLY_STATE c) in
  tg_offset g + tg_num_tcs g <= 32 ->
  msg_state (req_msg req) = RPMH_ACTIVE_ONLY_STATE -> wait_for_compl (req_msg req) = true ->
  req_completion req = Some k -> Forall wait_flag (cmds (req_msg req)) ->
  rpmh_rsc_send_data d req c sts = Some (0, d1) ->
  exists t d2, Z.testbit (tcs_in_use d) t = false /\ Z.testbit (tcs_in_use d1) t = true /\
    tcs_tx_done d1 (BIT t) = Some d2 /\
    completed d2 = completed d ++ [k] /\ forall i, 0 <= i -> Z.testbit (tcs_in_use d2) i = Z.testbit (tcs_in_use d) i.
Proof using H0.
  intros Hok Hact Hs Hini g H32 Hst Hwt Hk Hw E. rewrite <- Hst in Hok.
  destruct (send_data_sent d req c sts 0 d1 Hok Hs Hw E) as (t & _ & Ht & Hf & _ & []).
  cbv zeta in *. rewrite Hst in *. fold g in Ht, sent_ch0. rewrite Hwt in sent_in_use0.
  pose proof (cok_offset _ _ _ Hok) as Ho. fold g in Ho. pose proof (cok_num _ _ _ Hok) as Hnum. fold g in Hnum.
  assert (get_req_from_tcs d1 t = Some (c, Some req)) as G.
  { unfold get_req_from_tcs. rewrite (get_req_from_ch _ _ _ _ _ sent_ch0).
    apply get_req_stashed; try done; [by destruct Hok..|lia|]. fold g. lia. }
  assert (set_bits (BIT t) 32 = [t]) as B by (apply set_bits_BIT; lia).
  destruct (tx_done_loop_spec d1 None [t]) as (d2 & E2 & _ & U & K).
  { intros x ->%list_elem_of_singleton. by rewrite G. } { intros x ->%list_elem_of_singleton. lia. }
  exists t, d2. split; [done|]. split; [by rewrite sent_in_use0, Z.setbit_eq by lia|].
  unfold tcs_tx_done. rewrite B. split; [done|]. split.
  - rewrite K, sent_completed0. cbn [flat_map]. unfold completion_of. by rewrite G, Hk.
  - intros i Hi. rewrite U, sent_in_use0 by done. destruct (Z.eq_dec i t) as [->|].
    + rewrite bool_decide_true by (by apply list_elem_of_singleton). by rewrite andb_false_r, Hf.
    + rewrite bool_decide_false by (by rewrite list_elem_of_singleton).
      by rewrite Z.setbit_neq, andb_true_r by lia.
Qed.

(** The controller is reported busy exactly when some initialised channel
    has a TCS of its active group (or of the wake group it borrows) in use, or
    a fast-path TCS whose status reads not idle; solver mode is entered
    exactly when it is not busy. *)
Theorem ctrlr_is_busy_spec (d : rsc_drv) :
  (forall i, 0 <= i < 2 -> 0 <= tg_offset (tcs_of d i (get_tcs_for_msg d RPMH_ACTIVE_ONLY_STATE i))) ->
  (rpmh_rsc_ctrlr_is_busy d = true <->
   exists i, 0 <= i < 2 /\ ch_initialized (ch d !!! Z.to_nat i) = true /\
     ((exists x, in_group (tcs_of d i (get_tcs_for_msg d RPMH_ACTIVE_ONLY_STATE i)) x /\
         Z.testbit (tcs_in_use d) x = true) \/
      (tg_num_tcs (tcs_of d i FAST_PATH_TCS) <> 0 /\
       read_tcs_reg d (regs d RSC_DRV_STATUS) (tg_offset (tcs_of d i FAST_PATH_TCS)) = 0))) /\
  rpmh_rsc_mode_solver_set d true true =
    (if rpmh_rsc_ctrlr_is_busy d then (- EBUSY, d) else (0, d <| in_solver_mode := true |>)).
Proof using H0.
  intros Ho. split.
  - unfold rpmh_rsc_ctrlr_is_busy. rewrite existsb_exists. split.
    + intros (i & Hi%list_elem_of_In%zseq_elem & Hb). exists i. split; [exact Hi|].
      apply ctrlr_not_busy_iff; [apply Ho; exact Hi|done].
    + intros (i & Hi & Hb). exists i. split; [by apply list_elem_of_In, zseq_elem|].
      apply ctrlr_not_busy_iff; [by apply Ho|done].
  - unfold rpmh_rsc_mode_solver_set. by destruct (rpmh_rsc_ctrlr_is_busy d).
Qed.

(** Probing a fresh channel lays its TCS groups out without overlap: the
    groups get disjoint ranges of TCS numbers, inside the range the channel
    adds to the DRV and within the number of TCSes the hardware has, and the
    mask of a group is the set of its TCSes. *)
Theorem probe_channel_layout (d d' : rsc_drv) (elems : list Z) (max_tcs ncpt c : Z) :
  drv_shape d -> 0 <= c < 2 -> ch_tcs (ch d !!! Z.to_nat c) = replicate TCS_TYPE_NR zero_tcs ->
  0 <= drv_num_tcs d -> 0 <= max_tcs -> drv_num_tcs d + max_tcs <= 32 ->
  Forall (fun e => 0 <= e) elems ->
  rpmh_probe_channel_tcs_config d elems max_tcs ncpt c = (0, d') ->
  exists st, 0 <= st <= max_tcs /\ drv_num_tcs d' = drv_num_tcs d + st /\
    ch_initialized (ch d' !!! Z.to_nat c) = true /\
    groups_ok (ch_tcs (ch d' !!! Z.to_nat c)) ncpt (drv_num_tcs d) st.
Proof using.
  intros [Sh _] Hc Hf H1 H2 H3 Hp. unfold rpmh_probe_channel_tcs_config. cbv zeta.
  case_goal; [done|]. destruct (check_tcs_cfg _) eqn:Ek; cbn [negb]; [|done]. rewrite Hf.
  destruct (layout_tcses _ _ _ _ _ _) as [[ret tcss] st] eqn:El.
  destruct (truth ret) eqn:Er; [intros [= -> <-]; done|]. unfold truth in Er. zbool. subst ret.
  intros [= <-]. apply layout_tcses_spec in El as [G Hst];
    [|apply groups_ok_fresh|lia|lia|lia|by apply cfg_pairs_pos|done].
  exists st. cbn [set_field drv_num_tcs ch]. assert (Z.to_nat c < MAX_CHANNEL)%nat by (unfold MAX_CHANNEL; lia).
  rewrite list_insert_insert_eq, !list_lookup_total_insert_eq' by (rewrite ?length_insert; lia).
  cbn [set_field ch_initialized ch_tcs]. done.
Qed.

End Properties.

(** Switching the channel always reports success, also when none of the
    ten reads of the completion register shows the wake votes of the new
    channel applied; the completion status is cleared exactly when one of the
    first nine reads shows them. *)
Theorem switch_channel_result (d : rsc_drv) (c : Z) (complete : nat -> Z) :
  fst (rpmh_rsc_switch_channel d c complete) = 0 /\
  let d1 := writel d (BIT c) (base d + regs d RSC_DRV_CHN_UPDATE) in
  let mask := if c =? 0 then CH0_WAKE_TCS_STATUS else CH1_WAKE_TCS_STATUS in
  ((forall k, (k < 9)%nat -> Z.land (complete k) mask = 0) ->
     snd (rpmh_rsc_switch_channel d c complete) = d1) /\
  (forall k, (k < 9)%nat -> Z.land (complete k) mask <> 0 ->
     snd (rpmh_rsc_switch_channel d c complete) =
     writel d1 CH_CLEAR_STATUS (base d + regs d RSC_DRV_CHN_TCS_COMPLETE)).
Proof.
  split; [done|]. cbv zeta. unfold rpmh_rsc_switch_channel, rpmh_rsc_is_tcs_completed, tcs_completed_ret.
  set (mask := if c =? 0 then _ else _). cbn [fst snd].
  pose proof (poll_complete_spec complete mask 0 10) as P. split.
  - intros Hz. destruct (poll_complete complete mask 0 10) eqn:E; [done|]. exfalso.
    destruct (proj1 P) as (k & Hk & Hn); [lia|]. apply Hn, Hz. lia.
  - intros k Hk Hn. destruct (poll_complete complete mask 0 10) eqn:E; [|done]. exfalso.
    assert (0 < 0)%nat; [|lia]. apply (proj2 P). exists k. split; [lia|done].
Qed.

(** The next-wakeup registers are never written: probing leaves the
    groups of [drv->tcs] empty, and with those empty the function returns
    before its first write. *)
Theorem next_wakeup_unwritten (d : rsc_drv) (id : Z) (offset : result Z) (distance : option Z)
  (nodes : list (list Z)) (suspend : bool) (cycles : Z) :
  drv_tcs d = replicate TCS_TYPE_NR zero_tcs ->
  let d1 := snd (rpmh_probe_tcs_config d id offset distance nodes) in
  rpmh_rsc_write_next_wakeup d1 suspend cycles = d1.
Proof.
  intros Hz d1. unfold rpmh_rsc_write_next_wakeup.
  assert (drv_tcs d1 = replicate TCS_TYPE_NR zero_tcs) as -> by (unfold d1; by rewrite probe_tcs_config_drv_tcs).
  done.
Qed.

(** ** A concrete controller: version 3.0 registers at address 0, one channel
    with two active, three sleep and three wake TCSes of sixteen commands. *)

Definition zero_drv : rsc_drv :=
  mk_drv rpmh_rsc_reg_offset_ver_3_0 0 0 0 0 0 false 0 true (replicate TCS_TYPE_NR zero_tcs)
    (replicate MAX_CHANNEL zero_ch) 0 (upd (fun _ => 0) 12 2147483663) [].

Definition demo_elems : list Z := [2; 2; 0; 3; 1; 3; 3; 0; 4; 0].

Definition demo_drv : rsc_drv :=
  snd (rpmh_probe_tcs_config zero_drv 0 (Ok 3328) None [demo_elems]).

Definition demo_msg (s : rpmh_state) (wait : bool) : tcs_request :=
  mk_msg s wait [mk_cmd 262400 7 1; mk_cmd 327936 9 0].

Definition demo_req : rpmh_request := mk_req (demo_msg RPMH_ACTIVE_ONLY_STATE true) (Some 42).

Lemma demo_shape : drv_shape demo_drv.
Proof. split; [done|]. intros [|[|c]] Hc; [done|done|unfold MAX_CHANNEL in Hc; lia]. Qed.

Lemma demo_channel_ok s : channel_ok demo_drv s 0.
Proof.
  split; [apply demo_shape|lia|apply tables_layout|vm_compute; congruence|..];
    destruct s; vm_compute; intuition congruence.
Qed.

Lemma demo_wait_flags s b : Forall wait_flag (cmds (demo_msg s b)).
Proof. repeat constructor; unfold wait_flag; cbn; lia. Qed.

Lemma demo_active_ok : active_ok demo_drv.
Proof.
  assert (forall i, 0 <= i < 2 -> ch_initialized (ch demo_drv !!! Z.to_nat i) = true -> i = 0) as One.
  { intros i Hi. assert (i = 0 \/ i = 1) as [->| ->] by lia; [done|]. by vm_compute. }
  split.
  - intros i x Hi Hx ->%One; [|done]. cbv zeta.
    replace (tg_mask _) with (Z.ones 2) by (by vm_compute).
    replace (tg_offset _) with 0 by (by vm_compute). replace (tg_num_tcs _) with 2 by (by vm_compute).
    destruct (Z.lt_ge_cases x 2); [rewrite Z.ones_spec_low by lia|rewrite Z.ones_spec_high by lia]; lia.
  - intros i k x Hi Hk Hx ->%One ->%One; done.
Qed.

Lemma find_slots_spec_witness :
  exists r, find_slots (tcs_of demo_drv 0 SLEEP_TCS) (demo_msg RPMH_SLEEP_STATE false) = Some r /\
  is_ok r = true.
Proof.
  destruct (find_slots_spec (H := bitmap_linear) (tcs_of demo_drv 0 SLEEP_TCS) (demo_msg RPMH_SLEEP_STATE false))
    as (r & E & _).
  - by split.
  - done.
  - exists r. split; [exact E|]. clear -E. vm_compute in E. by injection E as <-.
Defined.

Lemma write_ctrl_data_spec_witness :
  exists d', rpmh_rsc_write_ctrl_data demo_drv (demo_msg RPMH_SLEEP_STATE false) 0 = Some (0, d') /\
  d' <> demo_drv.
Proof.
  destruct (write_ctrl_data_spec (H := bitmap_linear) demo_drv (demo_msg RPMH_SLEEP_STATE false) 0)
    as (ret & d' & E & [[-> _]|[-> (tcs' & t & j & _ & S & _)]]).
  - apply demo_channel_ok.
  - apply demo_wait_flags.
  - done.
  - by split.
  - exfalso. clear -E. vm_compute in E. discriminate.
  - exists d'. split; [exact E|]. intros ->. clear -E.
    apply (f_equal (fun o => match o with Some (_, d) => tg_slots (tcs_of d 0 SLEEP_TCS) | None => 0 end)) in E.
    vm_compute in E. discriminate.
Defined.

Lemma send_data_exclusive_witness :
  exists d', rpmh_rsc_send_data demo_drv demo_req 0 (fun _ => 1) = Some (0, d') /\
  exists t, tcs_in_use d' = Z.setbit 0 t.
Proof.
  destruct (rpmh_rsc_send_data demo_drv demo_req 0 (fun _ => 1)) as [[r d']|] eqn:E.
  - destruct (send_data_exclusive (H := bitmap_linear) demo_drv demo_req 0 (fun _ => 1) r d')
      as (-> & _ & t & _ & _ & _ & U).
    + apply demo_channel_ok.
    + done.
    + apply demo_wait_flags.
    + exact E.
    + exists d'. split; [done|]. exists t. exact U.
  - exfalso. clear -E. vm_compute in E. discriminate.
Defined.

Lemma send_data_progress_witness :
  exists d', rpmh_rsc_send_data demo_drv demo_req 0 (fun _ => 1) = Some (0, d').
Proof.
  apply (send_data_progress (H := bitmap_linear) demo_drv demo_req 0 1).
  - apply demo_channel_ok.
  - done.
  - intros t j c Ht Hu. change (tcs_in_use demo_drv) with 0 in Hu. by rewrite Z.bits_0 in Hu.
  - vm_compute. intuition congruence.
  - done.
  - done.
Defined.

Lemma tcs_tx_done_releases_witness :
  exists d', tcs_tx_done (demo_drv <| tcs_in_use := 3 |>) 2 = Some d' /\ Z.testbit (tcs_in_use d') 0 = true /\
    Z.testbit (tcs_in_use d') 1 = false.
Proof.
  destruct (tcs_tx_done_releases (demo_drv <| tcs_in_use := 3 |>) 2) as (d' & E & _ & U & _).
  - intros x Hx Hb. assert (x = 1) as ->.
    { destruct (Z.eq_dec x 0) as [->|]; [done|]. destruct (Z.lt_ge_cases x 2); [lia|].
      rewrite Z.bits_above_log2 in Hb; [done|lia|vm_compute (Z.log2 2); lia]. }
    by vm_compute.
  - exists d'. split; [exact E|]. rewrite !U by lia. clear. split; vm_compute; reflexivity.
Defined.

Lemma send_complete_roundtrip_witness :
  exists d1 t d2, rpmh_rsc_send_data demo_drv demo_req 0 (fun _ => 1) = Some (0, d1) /\
    tcs_tx_done d1 (BIT t) = Some d2 /\ completed d2 = [42].
Proof.
  destruct (rpmh_rsc_send_data demo_drv demo_req 0 (fun _ => 1)) as [[r d1]|] eqn:E.
  - assert (r = 0) as ->.
    { clear -E. apply (f_equal (fun o => match o with Some (r, _) => r | None => 1 end)) in E.
      by vm_compute in E. }
    destruct (send_complete_roundtrip (H := bitmap_linear) demo_drv demo_req 0 42 (fun _ => 1) d1)
      as (t & d2 & _ & _ & E2 & K & _).
    + apply demo_channel_ok.
    + apply demo_active_ok.
    + reflexivity.
    + reflexivity.
    + vm_compute. congruence.
    + reflexivity.
    + reflexivity.
    + reflexivity.
    + apply demo_wait_flags.
    + exact E.
    + exists d1, t, d2. split; [reflexivity|]. split; [exact E2|exact K].
  - exfalso. clear -E. vm_compute in E. discriminate.
Defined.

Lemma ctrlr_is_busy_spec_witness :
  rpmh_rsc_ctrlr_is_busy (demo_drv <| tcs_in_use := 2 |>) = true.
Proof.
  apply (ctrlr_is_busy_spec (H := bitmap_linear) (demo_drv <| tcs_in_use := 2 |>)).
  - intros i Hi. assert (i = 0 \/ i = 1) as [->| ->] by lia; vm_compute; congruence.
  - exists 0. split; [lia|]. split; [done|]. left. exists 1. vm_compute. intuition congruence.
Defined.

Lemma probe_channel_layout_witness :
  exists d' st, rpmh_probe_channel_tcs_config zero_drv demo_elems 15 16 0 = (0, d') /\ drv_num_tcs d' = 0 + st.
Proof.
  destruct (rpmh_probe_channel_tcs_config zero_drv demo_elems 15 16 0) as [ret d'] eqn:E.
  assert (ret = 0) as -> by (clear -E; apply (f_equal fst) in E; by vm_compute in E).
  destruct (probe_channel_layout zero_drv d' demo_elems 15 16 0) as (st & _ & N & _).
  - split; [done|]. intros [|[|c]] Hc; [done|done|unfold MAX_CHANNEL in Hc; lia].
  - lia.
  - reflexivity.
  - vm_compute. congruence.
  - lia.
  - vm_compute. congruence.
  - repeat constructor; lia.
  - exact E.
  - exists d', st. split; [reflexivity|exact N].
Defined.

Lemma next_wakeup_unwritten_witness :
  rpmh_rsc_write_next_wakeup demo_drv true 0 = demo_drv.
Proof. apply (next_wakeup_unwritten zero_drv 0 (Ok 3328) None [demo_elems] true 0). reflexivity. Defined.
