(* ===== verification/TcsImage.v ===== *)
(** * TcsImage: what the sleep and wake TCSes hold

    The abstract view of the registers that the flush of sleep and wake votes
    is specified with: the set of address and data pairs of the enabled
    commands of a group. Writing a request adds its commands to the image of
    its group and leaves the other group alone; invalidating empties both. *)
From stdpp Require Import prelude list.
From S2P Require Import Prelude CmdDb RpmhRsc.

(** Command [p] of TCS [t] is enabled. *)
Definition enabled (d : rsc_drv) (t p : Z) : Prop :=
  Z.testbit (read_tcs_reg d (regs d RSC_DRV_CMD_ENABLE) t) p = true.

(** The group [g] holds an enabled command that sends [v] to [a]. *)
Definition in_image (d : rsc_drv) (g : tcs_group) (a v : Z) : Prop :=
  exists t p, in_group g t /\ 0 <= p < tg_ncpt g /\ enabled d t p /\
    read_tcs_cmd d (regs d RSC_DRV_CMD_ADDR) t p = a /\
    read_tcs_cmd d (regs d RSC_DRV_CMD_DATA) t p = v.

Definition sleep_wake (ty : nat) : Prop := ty = SLEEP_TCS \/ ty = WAKE_TCS.

(** The registers of [n] commands fit between two TCSes. *)
Definition fits (d : rsc_drv) (n : Z) : Prop :=
  regs d RSC_DRV_CMD_DATA + regs d RSC_DRV_CMD_OFFSET * (n - 1) < stride d.

(** Channel [c] as a holder of sleep and wake requests: disjoint groups whose
    commands have registers of their own, no command enabled that the slot
    bitmap does not account for, and the groups of [drv->tcs] empty as probe
    leaves them. *)
Record chan_rep (d : rsc_drv) (c : Z) : Prop := {
  cr_shape : drv_shape d;
  cr_channel : 0 <= c < 2;
  cr_regs : regs_layout (regs d);
  cr_group : forall ty, sleep_wake ty ->
    0 < tg_ncpt (tcs_of d c ty) <= 32 /\ 0 <= tg_num_tcs (tcs_of d c ty) /\
    tg_num_tcs (tcs_of d c ty) <= Z.of_nat (length (tg_req (tcs_of d c ty))) /\
    0 <= tg_offset (tcs_of d c ty) /\ fits d (tg_ncpt (tcs_of d c ty));
  cr_control : tg_num_tcs (drv_tcs d !!! CONTROL_TCS) = 0;
  cr_disjoint : forall x, in_group (tcs_of d c SLEEP_TCS) x -> in_group (tcs_of d c WAKE_TCS) x -> False;
  cr_slots : forall ty k p, sleep_wake ty -> 0 <= k < tg_num_tcs (tcs_of d c ty) ->
    0 <= p < tg_ncpt (tcs_of d c ty) -> enabled d (tg_offset (tcs_of d c ty) + k) p ->
    Z.testbit (tg_slots (tcs_of d c ty)) (k * tg_ncpt (tcs_of d c ty) + p) = true;
}.

Lemma sleep_wake_bound ty : sleep_wake ty -> (ty < TCS_TYPE_NR)%nat.
Proof. intros [->| ->]; cbv; lia. Qed.

Lemma stride_nonneg d c : chan_rep d c -> 0 < stride d.
Proof.
  intros []. destruct (cr_group0 SLEEP_TCS) as (Hn & _ & _ & _ & Hf); [by left|]. destruct cr_regs0.
  unfold fits in Hf. nia.
Qed.

Lemma stride_split d t t' o o' :
  0 <= o < stride d -> 0 <= o' < stride d ->
  tcs_base d + stride d * t + o = tcs_base d + stride d * t' + o' -> t = t' /\ o = o'.
Proof. intros. assert (t = t') by nia. subst. lia. Qed.

Lemma cmd_reg_offset d r j n :
  regs_layout (regs d) -> fits d n -> 0 <= j < n ->
  (r = RSC_DRV_CMD_MSGID \/ r = RSC_DRV_CMD_ADDR \/ r = RSC_DRV_CMD_DATA) ->
  regs d RSC_DRV_CMD_ENABLE < regs d r + regs d RSC_DRV_CMD_OFFSET * j < stride d.
Proof. intros [] Hf Hj Hr. unfold fits in Hf. destruct Hr as [->|[->| ->]]; nia. Qed.

Lemma cmd_reg_eq d r t j :
  cmd_reg d r t j = tcs_base d + stride d * t + (regs d r + regs d RSC_DRV_CMD_OFFSET * j).
Proof. unfold cmd_reg, tcs_cmd_addr. rewrite tcs_reg_addr_stride. lia. Qed.

(** Command registers of different commands are different, also across TCSes. *)
Lemma cmd_reg_sep d r r' t t' j j' n :
  regs_layout (regs d) -> fits d n -> 0 <= j < n -> 0 <= j' < n ->
  (r = RSC_DRV_CMD_MSGID \/ r = RSC_DRV_CMD_ADDR \/ r = RSC_DRV_CMD_DATA) ->
  (r' = RSC_DRV_CMD_MSGID \/ r' = RSC_DRV_CMD_ADDR \/ r' = RSC_DRV_CMD_DATA) ->
  cmd_reg d r t j = cmd_reg d r' t' j' -> t = t' /\ r = r' /\ j = j'.
Proof.
  intros L Hf Hj Hj' Hr Hr' E. pose proof E as E0. rewrite !cmd_reg_eq in E.
  pose proof (cmd_reg_offset d r j n L Hf Hj Hr). pose proof (cmd_reg_offset d r' j' n L Hf Hj' Hr').
  assert (0 <= regs d RSC_DRV_CMD_ENABLE) by (destruct L; lia).
  apply stride_split in E as [-> _]; [|lia..]. split; [done|]. by apply cmd_reg_inj in E0.
Qed.

Lemma enable_reg_sep d t t' lo hi n :
  regs_layout (regs d) -> fits d n -> 0 < n -> 0 <= lo -> hi <= n ->
  ~ in_cmds d t' lo hi (tcs_reg d RSC_DRV_CMD_ENABLE t) /\
  tcs_reg d RSC_DRV_CMD_ENABLE t <> tcs_reg d RSC_DRV_CMD_WAIT_FOR_CMPL t' /\
  (t <> t' -> tcs_reg d RSC_DRV_CMD_ENABLE t <> tcs_reg d RSC_DRV_CMD_ENABLE t').
Proof.
  intros L Hf Hn Hlo Hhi. unfold tcs_reg. rewrite !tcs_reg_addr_stride.
  assert (0 <= regs d RSC_DRV_CMD_WAIT_FOR_CMPL < regs d RSC_DRV_CMD_ENABLE /\ regs d RSC_DRV_CMD_ENABLE < stride d)
    as [? ?].
  { pose proof (cmd_reg_offset d RSC_DRV_CMD_MSGID 0 n L Hf ltac:(lia) ltac:(by left)). destruct L. lia. }
  split; [|split].
  - intros (r & j & Hr & Hj & E). rewrite cmd_reg_eq in E.
    pose proof (cmd_reg_offset d r j n L Hf ltac:(lia) Hr). apply stride_split in E; lia.
  - intros E. apply stride_split in E; lia.
  - intros Hne E. apply stride_split in E; lia.
Qed.

Lemma tcs_of_set_tcs_any d c ty g ty' :
  drv_shape d -> 0 <= c < 2 -> (ty < TCS_TYPE_NR)%nat ->
  tcs_of (set_tcs d c ty g) c ty' = if bool_decide (ty' = ty) then g else tcs_of d c ty'.
Proof.
  intros Sh Hc Hty. case_bool_decide as E; [subst; by apply tcs_of_set_tcs|].
  destruct Sh as [H1 H2]. unfold tcs_of, set_tcs. cbn [ch set_field].
  assert (Z.to_nat c < MAX_CHANNEL)%nat by (unfold MAX_CHANNEL; lia).
  rewrite list_lookup_total_insert_eq' by lia. cbn [ch_tcs set_field].
  apply list_lookup_total_insert_ne. congruence.
Qed.

Lemma drv_shape_set_tcs d c ty g : drv_shape d -> 0 <= c < 2 -> drv_shape (set_tcs d c ty g).
Proof.
  intros [H1 H2] Hc. unfold set_tcs. split; cbn [ch set_field].
  - by rewrite length_insert.
  - intros k Hk. destruct (decide (k = Z.to_nat c)) as [->|].
    + rewrite list_lookup_total_insert_eq' by lia. cbn [ch_tcs set_field]. rewrite length_insert. by apply H2.
    + rewrite list_lookup_total_insert_ne by done. by apply H2.
Qed.

(** One request written at command [j] of TCS [t] of group [ty]: the facts
    [rpmh_rsc_write_ctrl_data] establishes. *)
Record written_at (d : rsc_drv) (c : Z) (ty : nat) (msg : tcs_request) (tcs' : tcs_group) (t j : Z)
  (d' : rsc_drv) : Prop := {
  wa_room : room_at (tcs_of d c ty) (t - tg_offset (tcs_of d c ty)) j (num_cmds msg);
  wa_state : same_but_mmio (set_tcs d c ty tcs') d';
  wa_tcs : tcs' = (tcs_of d c ty) <| tg_slots := tg_slots tcs' |>;
  wa_slots : forall i, 0 <= i -> Z.testbit (tg_slots tcs') i =
        Z.testbit (tg_slots (tcs_of d c ty)) i ||
        let s := (t - tg_offset (tcs_of d c ty)) * tg_ncpt (tcs_of d c ty) + j in
        (s <=? i) && (i <? s + num_cmds msg);
  wa_cmds : forall k cmd, cmds msg !! k = Some cmd ->
        cmd_written d (mmio d') t (j + Z.of_nat k) (base_msgid msg) cmd;
  wa_masks : forall i, 0 <= i < 32 ->
        Z.testbit (mmio d' (tcs_reg d RSC_DRV_CMD_ENABLE t)) i =
        Z.testbit (mmio d (tcs_reg d RSC_DRV_CMD_ENABLE t)) i || ((j <=? i) && (i <? j + num_cmds msg)) /\
        Z.testbit (mmio d' (tcs_reg d RSC_DRV_CMD_WAIT_FOR_CMPL t)) i =
        Z.testbit (mmio d (tcs_reg d RSC_DRV_CMD_WAIT_FOR_CMPL t)) i || waits_at (cmds msg) j i;
  wa_frame : forall a, ~ in_cmds d t j (j + num_cmds msg) a -> a <> tcs_reg d RSC_DRV_CMD_ENABLE t ->
        a <> tcs_reg d RSC_DRV_CMD_WAIT_FOR_CMPL t -> mmio d' a = mmio d a;
}.

Section Written.

Context (d d' : rsc_drv) (c : Z) (ty : nat) (msg : tcs_request) (tcs' : tcs_group) (t j : Z).
Hypothesis Hrep : chan_rep d c.
Hypothesis Hty : sleep_wake ty.
Hypothesis Hw : written_at d c ty msg tcs' t j d'.

Lemma written_group ty' : tcs_of d' c ty' = if bool_decide (ty' = ty) then tcs' else tcs_of d c ty'.
Proof using Hrep Hty Hw.
  destruct Hrep, Hw. rewrite wa_state0. rewrite <- tcs_of_set_tcs_any by (done || by apply sleep_wake_bound). done.
Qed.

Lemma written_static ty' :
  tg_ncpt (tcs_of d' c ty') = tg_ncpt (tcs_of d c ty') /\
  tg_num_tcs (tcs_of d' c ty') = tg_num_tcs (tcs_of d c ty') /\
  tg_offset (tcs_of d' c ty') = tg_offset (tcs_of d c ty') /\
  tg_req (tcs_of d' c ty') = tg_req (tcs_of d c ty').
Proof using Hrep Hty Hw.
  rewrite written_group. case_bool_decide as E; [|done]. subst. by rewrite (wa_tcs _ _ _ _ _ _ _ _ Hw).
Qed.

Lemma written_fits : 0 <= j /\ j + num_cmds msg <= tg_ncpt (tcs_of d c ty) <= 32 /\ in_group (tcs_of d c ty) t /\
  fits d (tg_ncpt (tcs_of d c ty)) /\ 0 < tg_ncpt (tcs_of d c ty).
Proof using Hrep Hty Hw.
  destruct Hw as [(Hk & Hp & Hn & _)]. destruct (cr_group _ _ Hrep ty Hty) as (? & ? & ? & ? & ?).
  unfold in_group. repeat split; try done; lia.
Qed.

Lemma written_regs : regs d' = regs d /\ tcs_base d' = tcs_base d /\ tcs_distance d' = tcs_distance d.
Proof using Hw. destruct Hw. rewrite wa_state0. done. Qed.

(** Where a command register of any group stands. *)
Lemma written_enabled ty' t0 p :
  sleep_wake ty' -> in_group (tcs_of d c ty') t0 -> 0 <= p < tg_ncpt (tcs_of d c ty') ->
  enabled d' t0 p <-> enabled d t0 p \/ (t0 = t /\ j <= p < j + num_cmds msg).
Proof using Hrep Hty Hw.
  intros Hty' Ht0 Hp. destruct written_fits as (F1 & F2 & F3 & F4 & F5).
  destruct written_regs as (R1 & R2 & R3). pose proof (cr_group _ _ Hrep ty' Hty') as (G1 & _).
  unfold enabled, read_tcs_reg, readl.
  replace (tcs_reg_addr d' (regs d' RSC_DRV_CMD_ENABLE) t0) with (tcs_reg d RSC_DRV_CMD_ENABLE t0)
    by (unfold tcs_reg, tcs_reg_addr; by rewrite R1, R2, R3).
  change (tcs_reg_addr d (regs d RSC_DRV_CMD_ENABLE) t0) with (tcs_reg d RSC_DRV_CMD_ENABLE t0).
  destruct (Z.eq_dec t0 t) as [->|Hne].
  - rewrite (proj1 (wa_masks _ _ _ _ _ _ _ _ Hw p ltac:(lia))). rewrite orb_true_iff. lia.
  - destruct (enable_reg_sep d t0 t j (j + num_cmds msg) _ (cr_regs _ _ Hrep) F4 F5 F1 ltac:(lia)) as (S1 & S2 & S3).
    rewrite (wa_frame _ _ _ _ _ _ _ _ Hw) by auto. intuition.
Qed.

Lemma written_cmd_reg r t0 p ty' :
  (r = RSC_DRV_CMD_ADDR \/ r = RSC_DRV_CMD_DATA) -> sleep_wake ty' ->
  in_group (tcs_of d c ty') t0 -> 0 <= p < tg_ncpt (tcs_of d c ty') ->
  ~ (t0 = t /\ j <= p < j + num_cmds msg) ->
  read_tcs_cmd d' (regs d' r) t0 p = read_tcs_cmd d (regs d r) t0 p.
Proof using Hrep Hty Hw.
  intros Hr Hty' Ht0 Hp Hno. destruct written_fits as (F1 & F2 & F3 & F4 & F5).
  destruct written_regs as (R1 & R2 & R3). pose proof (cr_group _ _ Hrep ty' Hty') as (_ & _ & _ & _ & G1).
  assert (exists n, fits d n /\ tg_ncpt (tcs_of d c ty) <= n /\ tg_ncpt (tcs_of d c ty') <= n) as (n & Fn & N1 & N2).
  { destruct (Z.le_ge_cases (tg_ncpt (tcs_of d c ty)) (tg_ncpt (tcs_of d c ty')));
      [exists (tg_ncpt (tcs_of d c ty'))|exists (tg_ncpt (tcs_of d c ty))]; (split; [assumption|lia]). }
  pose proof (cr_regs _ _ Hrep) as L.
  replace (read_tcs_cmd d' (regs d' r) t0 p) with (mmio d' (cmd_reg d r t0 p))
    by (unfold read_tcs_cmd, readl, cmd_reg, tcs_cmd_addr, tcs_reg_addr; by rewrite R1, R2, R3).
  apply (wa_frame _ _ _ _ _ _ _ _ Hw).
  - intros (r' & j' & Hr' & Hj' & E). apply (cmd_reg_sep d r r' t0 t p j' n L Fn) in E; [|lia|lia|tauto|done].
    apply Hno. destruct E as (-> & _ & ->). lia.
  - intros E. destruct (enable_reg_sep d t t0 p (p + 1) n L Fn ltac:(lia) ltac:(lia) ltac:(lia)) as [S _].
    apply S. rewrite <- E. exists r, p. split; [tauto|]. split; [lia|done].
  - intros E. unfold tcs_reg in E. rewrite tcs_reg_addr_stride, cmd_reg_eq in E.
    pose proof (cmd_reg_offset d r p n L Fn ltac:(lia) ltac:(tauto)).
    assert (0 <= regs d RSC_DRV_CMD_WAIT_FOR_CMPL < regs d RSC_DRV_CMD_ENABLE) by (destruct L; lia).
    apply stride_split in E; lia.
Qed.

Lemma group_type_unique ty' x : sleep_wake ty' ->
  in_group (tcs_of d c ty) x -> in_group (tcs_of d c ty') x -> ty' = ty.
Proof using Hrep Hty Hw.
  intros Hty' H1 H2. pose proof (cr_disjoint _ _ Hrep x) as D.
  destruct Hty as [->| ->], Hty' as [->| ->]; try done; exfalso; auto.
Qed.

(** The image of a group after the request was written. *)
Lemma written_image ty' a v : sleep_wake ty' ->
  in_image d' (tcs_of d' c ty') a v <->
  in_image d (tcs_of d c ty') a v \/
  (ty' = ty /\ exists cmd, cmd ∈ cmds msg /\ u32 (cmd_addr cmd) = a /\ u32 (cmd_data cmd) = v).
Proof using Hrep Hty Hw.
  intros Hty'. destruct (written_static ty') as (S1 & S2 & S3 & _).
  destruct written_fits as (F1 & F2 & F3 & F4 & F5). destruct written_regs as (R1 & R2 & R3).
  assert (forall r k cmd, cmds msg !! k = Some cmd ->
    read_tcs_cmd d' (regs d' r) t (j + Z.of_nat k) = mmio d' (cmd_reg d r t (j + Z.of_nat k))) as Rd.
  { intros. unfold read_tcs_cmd, readl, cmd_reg, tcs_cmd_addr, tcs_reg_addr. by rewrite R1, R2, R3. }
  unfold in_image, in_group. rewrite S1, S2, S3. split.
  - intros (t0 & p & Ht0 & Hp & He & Ha & Hv).
    destruct (decide (t0 = t /\ j <= p < j + num_cmds msg)) as [[-> Hr]|Hno].
    + right. assert (ty' = ty) as -> by (by eapply group_type_unique). split; [done|].
      destruct (lookup_lt_is_Some_2 (cmds msg) (Z.to_nat (p - j))) as [cmd Hc]; [unfold num_cmds in Hr; lia|].
      exists cmd. split; [by eapply list_elem_of_lookup_2|].
      destruct (wa_cmds _ _ _ _ _ _ _ _ Hw _ _ Hc) as (_ & A & D).
      rewrite <- (Rd _ _ _ Hc) in A. rewrite <- (Rd _ _ _ Hc) in D.
      replace (j + Z.of_nat (Z.to_nat (p - j))) with p in * by lia. split; congruence.
    + left. exists t0, p. apply (written_enabled ty') in He as [He|He]; [|done|done|done|done].
      rewrite <- (written_cmd_reg RSC_DRV_CMD_ADDR t0 p ty'), <- (written_cmd_reg RSC_DRV_CMD_DATA t0 p ty')
        by first [assumption|exact Ht0|tauto].
      done.
  - intros [(t0 & p & Ht0 & Hp & He & Ha & Hv)|[-> (cmd & Hc & Ha & Hv)]].
    + assert (~ (t0 = t /\ j <= p < j + num_cmds msg)) as Hno.
      { intros [-> Hr]. assert (ty' = ty) as -> by (by eapply group_type_unique).
        destruct (wa_room _ _ _ _ _ _ _ _ Hw) as (Hk & _ & _ & Hfree).
        pose proof (cr_slots _ _ Hrep ty (t - tg_offset (tcs_of d c ty)) p Hty ltac:(lia) Hp) as Hs.
        rewrite Hfree in Hs by lia. replace (tg_offset (tcs_of d c ty) + (t - tg_offset (tcs_of d c ty))) with t in Hs by lia.
        by specialize (Hs He). }
      exists t0, p. rewrite (written_enabled ty') by done.
      rewrite (written_cmd_reg RSC_DRV_CMD_ADDR t0 p ty'), (written_cmd_reg RSC_DRV_CMD_DATA t0 p ty')
        by first [assumption|exact Ht0|tauto].
      tauto.
    + apply list_elem_of_lookup_1 in Hc as [k Hc]. pose proof (lookup_lt_Some _ _ _ Hc).
      exists t, (j + Z.of_nat k). destruct (wa_cmds _ _ _ _ _ _ _ _ Hw _ _ Hc) as (_ & A & D).
      rewrite (Rd _ _ _ Hc), (Rd _ _ _ Hc), A, D. unfold num_cmds in *.
      split; [exact F3|]. split; [lia|]. split; [|done]. apply (written_enabled ty); [done|done|lia|]. right. unfold num_cmds. lia.
Qed.

Lemma written_rep : chan_rep d' c.
Proof using Hrep Hty Hw.
  destruct written_regs as (R1 & R2 & R3). destruct Hrep. split.
  - rewrite (wa_state _ _ _ _ _ _ _ _ Hw).
    destruct (drv_shape_set_tcs d c ty tcs' cr_shape0 cr_channel0). by split.
  - done.
  - by rewrite R1.
  - intros ty' Hty'. destruct (written_static ty') as (-> & -> & -> & ->).
    unfold fits, stride. rewrite R1, R3. by apply cr_group0.
  - by rewrite (wa_state _ _ _ _ _ _ _ _ Hw).
  - intros x. destruct (written_static SLEEP_TCS) as (_ & S1 & S2 & _), (written_static WAKE_TCS) as (_ & S3 & S4 & _).
    unfold in_group. rewrite S1, S2, S3, S4. apply cr_disjoint0.
  - intros ty' k p Hty'. destruct (written_static ty') as (-> & -> & -> & _). intros Hk Hp He.
    apply (written_enabled ty') in He; [|done|unfold in_group; lia|done]. rewrite written_group.
    case_bool_decide as E; [subst ty'|].
    + destruct written_fits as (F1 & F2 & F3 & F4 & F5).
      rewrite (wa_slots _ _ _ _ _ _ _ _ Hw) by nia. cbv zeta. destruct He as [He|[Et Hr]].
      * by rewrite cr_slots0.
      * apply orb_true_iff. right. subst t.
        replace (tg_offset (tcs_of d c ty) + k - tg_offset (tcs_of d c ty)) with k by lia. lia.
    + destruct He as [He|[Et _]]; [by apply cr_slots0|]. exfalso. apply E.
      apply (group_type_unique ty' t); [done|apply written_fits|]. unfold in_group. lia.
Qed.

End Written.

(** ** Invalidation *)

Lemma clear_tcses_spec d m n :
  regs_layout (regs d) -> regs d RSC_DRV_CMD_ENABLE < stride d ->
  let d' := clear_tcses d m n in
  same_but_mmio d d' /\
  (forall t, m <= t < m + Z.of_nat n -> mmio d' (tcs_reg d RSC_DRV_CMD_ENABLE t) = 0) /\
  (forall a, (forall t, m <= t < m + Z.of_nat n -> a <> tcs_reg d RSC_DRV_CMD_ENABLE t /\
      a <> tcs_reg d RSC_DRV_CMD_WAIT_FOR_CMPL t) -> mmio d' a = mmio d a).
Proof.
  intros L Hs. revert d m L Hs. induction n as [|n IH]; intros d m L Hs; cbv zeta; cbn [clear_tcses].
  { split; [apply same_but_mmio_refl|]. split; [intros; lia|done]. }
  set (d1 := write_tcs_reg_sync d (regs d RSC_DRV_CMD_ENABLE) m 0).
  set (d2 := write_tcs_reg_sync d1 (regs d1 RSC_DRV_CMD_WAIT_FOR_CMPL) m 0).
  destruct (IH d2 (m + 1) L Hs) as (S & Z0 & F).
  assert (mmio d2 = upd (upd (mmio d) (tcs_reg d RSC_DRV_CMD_ENABLE m) 0)
    (tcs_reg d RSC_DRV_CMD_WAIT_FOR_CMPL m) 0) as E2 by done.
  split; [exact (same_but_mmio_trans d d2 _ eq_refl S)|]. split.
  - intros t Ht. destruct (Z.eq_dec t m) as [->|]; [|apply (Z0 t); lia].
    rewrite F.
    + rewrite E2, upd_ne, upd_eq; [done|]. unfold tcs_reg. rewrite !tcs_reg_addr_stride. destruct L. lia.
    + intros t Ht'. change (tcs_reg d2) with (tcs_reg d). unfold tcs_reg. rewrite !tcs_reg_addr_stride.
      destruct L. split; intros E; apply stride_split in E; lia.
  - intros a Ha. rewrite F.
    + destruct (Ha m ltac:(lia)) as [? ?]. by rewrite E2, !upd_ne by done.
    + intros t Ht. change (tcs_reg d2) with (tcs_reg d). apply Ha. lia.
Qed.

Lemma bitmap_empty_spec b n i : bitmap_empty b n = true -> 0 <= i < n -> Z.testbit b i = false.
Proof.
  unfold bitmap_empty. intros ?%Z.eqb_eq Hi.
  assert (Z.testbit (Z.land b (Z.ones n)) i = false) as E by (by rewrite H, Z.bits_0).
  by rewrite Z.land_spec, Z.ones_spec_low, andb_true_r in E by lia.
Qed.

(** [d'] is [d] with every command of group [ty] disabled, its slots free,
    and the registers of the other group as they were. *)
Record cleared (d : rsc_drv) (c : Z) (ty : nat) (d' : rsc_drv) : Prop := {
  cl_shape : drv_shape d';
  cl_regs : regs d' = regs d /\ tcs_base d' = tcs_base d /\ tcs_distance d' = tcs_distance d;
  cl_control : drv_tcs d' = drv_tcs d;
  cl_group : forall ty', tcs_of d' c ty' =
    if bool_decide (ty' = ty) then (tcs_of d c ty) <| tg_slots := 0 |> else tcs_of d c ty';
  cl_off : forall t p, in_group (tcs_of d c ty) t -> ~ enabled d' t p;
  cl_keep : forall ty' t p, sleep_wake ty' -> ~ in_group (tcs_of d c ty) t -> 0 <= p < tg_ncpt (tcs_of d c ty') ->
    (enabled d' t p <-> enabled d t p) /\
    read_tcs_cmd d' (regs d' RSC_DRV_CMD_ADDR) t p = read_tcs_cmd d (regs d RSC_DRV_CMD_ADDR) t p /\
    read_tcs_cmd d' (regs d' RSC_DRV_CMD_DATA) t p = read_tcs_cmd d (regs d RSC_DRV_CMD_DATA) t p;
}.

Lemma chan_rep_other d c ty ty' x : chan_rep d c -> sleep_wake ty -> sleep_wake ty' -> ty' <> ty ->
  in_group (tcs_of d c ty') x -> ~ in_group (tcs_of d c ty) x.
Proof.
  intros Hrep Hty Hty' Hne H1 H2. pose proof (cr_disjoint _ _ Hrep x) as D.
  destruct Hty as [->| ->], Hty' as [->| ->]; try done; auto.
Qed.

(** The registers of the masks lie below those of the commands. *)
Lemma chan_rep_mask_regs d c : chan_rep d c ->
  0 <= regs d RSC_DRV_CMD_WAIT_FOR_CMPL < regs d RSC_DRV_CMD_ENABLE /\ regs d RSC_DRV_CMD_ENABLE < stride d.
Proof.
  intros Hrep. destruct (cr_group _ _ Hrep SLEEP_TCS) as (Hn & _ & _ & _ & Hf); [by left|].
  pose proof (cr_regs _ _ Hrep) as L.
  pose proof (cmd_reg_offset d RSC_DRV_CMD_MSGID 0 _ L Hf ltac:(lia) ltac:(by left)). destruct L. lia.
Qed.

Lemma cleared_rep d c ty d' : chan_rep d c -> sleep_wake ty -> cleared d c ty d' -> chan_rep d' c.
Proof.
  intros Hrep Hty [Sh (R1 & R2 & R3) Ct G Off Keep]. pose proof Hrep as Hrep'. destruct Hrep'. split.
  - done.
  - done.
  - by rewrite R1.
  - intros ty' Hty'. unfold fits, stride. rewrite G, R1, R3.
    case_bool_decide as E; [subst; exact (cr_group0 ty Hty)|exact (cr_group0 ty' Hty')].
  - by rewrite Ct.
  - intros x. rewrite !G. repeat case_bool_decide; subst; try done; apply cr_disjoint0.
  - intros ty' k p Hty'. rewrite !G. case_bool_decide as E; [subst|].
    + intros Hk Hp He. exfalso. revert He. apply Off. unfold in_group. cbn [tg_offset tg_num_tcs set_field] in *. lia.
    + intros Hk Hp He. apply (Keep ty') in He; [by apply cr_slots0|done| |done].
      apply (chan_rep_other d c ty ty'); [done..|]. unfold in_group. lia.
Qed.

Lemma cleared_image d c ty d' : chan_rep d c -> sleep_wake ty -> cleared d c ty d' ->
  (forall a v, ~ in_image d' (tcs_of d' c ty) a v) /\
  (forall ty' a v, sleep_wake ty' -> ty' <> ty ->
     in_image d' (tcs_of d' c ty') a v <-> in_image d (tcs_of d c ty') a v).
Proof.
  intros Hrep Hty [Sh R Ct G Off Keep]. split.
  - intros a v (t & p & Ht & Hp & He & _). rewrite G, bool_decide_true in Ht by done. by apply (Off t p).
  - intros ty' a v Hty' Hne. rewrite G, bool_decide_false by done. unfold in_image.
    split; intros (t & p & Ht & Hp & He & Ha & Hv); exists t, p;
      destruct (Keep ty' t p Hty' (chan_rep_other _ _ _ _ _ Hrep Hty Hty' Hne Ht) Hp) as (S1 & S2 & S3);
      intuition congruence.
Qed.

Lemma clear_group_cleared d c ty :
  chan_rep d c -> sleep_wake ty ->
  let g := tcs_of d c ty in
  let d1 := clear_tcses d (tg_offset g) (Z.to_nat (tg_num_tcs g)) in
  cleared d c ty (set_tcs d1 c ty ((tcs_of d1 c ty) <| tg_slots := 0 |>)).
Proof.
  intros Hrep Hty g. destruct (cr_group _ _ Hrep ty Hty) as (Hn & Hm & Hr & Ho & Hf). fold g in Hn, Hm, Hr, Ho, Hf.
  pose proof (cr_regs _ _ Hrep) as L. pose proof (cr_shape _ _ Hrep) as Sh. pose proof (cr_channel _ _ Hrep) as Hc.
  destruct (chan_rep_mask_regs d c Hrep) as [Hwe Hes].
  destruct (clear_tcses_spec d (tg_offset g) (Z.to_nat (tg_num_tcs g)) L Hes) as (S & Z0 & F).
  set (d1 := clear_tcses _ _ _) in *. clearbody d1. rewrite Z2Nat.id in * by lia. cbv zeta.
  assert (drv_shape d1) as Sh1 by (rewrite S; by destruct Sh).
  set (d' := set_tcs d1 c ty _).
  assert (regs d' = regs d /\ tcs_base d' = tcs_base d /\ tcs_distance d' = tcs_distance d /\ mmio d' = mmio d1)
    as (R1 & R2 & R3 & R4) by (unfold d'; rewrite S; done).
  split.
  - unfold d'. by apply drv_shape_set_tcs.
  - done.
  - unfold d'. by rewrite S.
  - intros ty'. unfold d'. rewrite tcs_of_set_tcs_any by (done || by apply sleep_wake_bound).
    unfold g. rewrite S. done.
  - intros t p Ht. unfold enabled, read_tcs_reg, readl, tcs_reg_addr. rewrite R1, R2, R3, R4.
    change (mmio d1 _) with (mmio d1 (tcs_reg d RSC_DRV_CMD_ENABLE t)). rewrite Z0 by done. by rewrite Z.bits_0.
  - intros ty' t p Hty' Ht Hp. destruct (cr_group _ _ Hrep ty' Hty') as (_ & _ & _ & _ & Hf').
    assert (forall r, r = RSC_DRV_CMD_ADDR \/ r = RSC_DRV_CMD_DATA ->
      read_tcs_cmd d' (regs d' r) t p = read_tcs_cmd d (regs d r) t p) as KeepC.
    { intros r Hr'. unfold read_tcs_cmd, readl.
      replace (tcs_cmd_addr d' (regs d' r) t p) with (cmd_reg d r t p)
        by (unfold cmd_reg, tcs_cmd_addr, tcs_reg_addr; by rewrite R1, R2, R3).
      rewrite R4. apply (F (cmd_reg d r t p)). intros t' Ht'. unfold tcs_reg.
      pose proof (cmd_reg_offset d r p _ L Hf' Hp ltac:(tauto)).
      rewrite !tcs_reg_addr_stride, cmd_reg_eq. split; intros E; apply stride_split in E; lia. }
    split; [|auto]. unfold enabled, read_tcs_reg, readl.
    replace (tcs_reg_addr d' (regs d' RSC_DRV_CMD_ENABLE) t) with (tcs_reg d RSC_DRV_CMD_ENABLE t)
      by (unfold tcs_reg, tcs_reg_addr; by rewrite R1, R2, R3).
    rewrite R4, F; [done|]. intros t' Ht'. unfold tcs_reg. rewrite !tcs_reg_addr_stride.
    split; intros E; (apply stride_split in E; [|lia|lia]); [|lia].
    destruct E as [-> _]. by apply Ht.
Qed.

Lemma tcs_invalidate_image d c ty :
  chan_rep d c -> sleep_wake ty ->
  let d' := tcs_invalidate d ty c in
  chan_rep d' c /\ (forall a v, ~ in_image d' (tcs_of d' c ty) a v) /\
  (forall ty' a v, sleep_wake ty' -> ty' <> ty ->
     in_image d' (tcs_of d' c ty') a v <-> in_image d (tcs_of d c ty') a v).
Proof.
  intros Hrep Hty. cbv zeta. unfold tcs_invalidate. set (g := tcs_of d c ty).
  destruct (cr_group _ _ Hrep ty Hty) as (Hn & Hm & _). fold g in Hn, Hm.
  destruct (bitmap_empty (tg_slots g) (tg_ncpt g * tg_num_tcs g)) eqn:Eb.
  - split; [done|]. split; [|done]. intros a v (t & p & Ht & Hp & He & _). fold g in Ht, Hp. unfold in_group in Ht.
    pose proof (cr_slots _ _ Hrep ty (t - tg_offset g) p Hty ltac:(fold g; lia) ltac:(fold g; lia)) as S. fold g in S.
    rewrite (bitmap_empty_spec _ _ _ Eb) in S by nia.
    replace (tg_offset g + (t - tg_offset g)) with t in S by lia. by specialize (S He).
  - pose proof (clear_group_cleared d c ty Hrep Hty) as Cl. cbv zeta in Cl.
    split; [by eapply cleared_rep|]. by apply cleared_image.
Qed.

Lemma invalidate_image d c :
  chan_rep d c ->
  let d' := rpmh_rsc_invalidate d c in
  chan_rep d' c /\ forall ty a v, sleep_wake ty -> ~ in_image d' (tcs_of d' c ty) a v.
Proof.
  intros Hrep. cbv zeta. unfold rpmh_rsc_invalidate.
  destruct (tcs_invalidate_image d c SLEEP_TCS Hrep ltac:(by left)) as (R1 & E1 & _).
  set (d1 := tcs_invalidate d SLEEP_TCS c) in *.
  destruct (tcs_invalidate_image d1 c WAKE_TCS R1 ltac:(by right)) as (R2 & E2 & K2).
  split; [done|]. intros ty a v [->| ->]; [|apply E2]. rewrite K2 by (done || by left). apply E1.
Qed.

(** The group a sleep or wake request is written to. *)
Definition type_of (s : rpmh_state) : nat :=
  match s with
  | RPMH_SLEEP_STATE => SLEEP_TCS
  | _ => WAKE_TCS
  end.

Lemma get_tcs_for_msg_type d s c : s <> RPMH_ACTIVE_ONLY_STATE -> get_tcs_for_msg d s c = type_of s.
Proof. by destruct s. Qed.

Lemma sleep_wake_type s : s <> RPMH_ACTIVE_ONLY_STATE -> sleep_wake (type_of s).
Proof. destruct s; [by left|by right|done]. Qed.

Lemma chan_rep_channel_ok d c s : chan_rep d c -> s <> RPMH_ACTIVE_ONLY_STATE -> channel_ok d s c.
Proof.
  intros Hrep Hs. pose proof (stride_nonneg d c Hrep).
  destruct (cr_group _ _ Hrep (type_of s) (sleep_wake_type s Hs)) as (? & ? & ? & ? & ?).
  destruct Hrep. split; rewrite ?get_tcs_for_msg_type by done; try done; lia.
Qed.

(** Writing a request, seen through the images. *)
Lemma write_ctrl_image `{BitmapLaws} d msg c :
  chan_rep d c -> msg_state msg <> RPMH_ACTIVE_ONLY_STATE \/ num_cmds msg = 0 -> Forall wait_flag (cmds msg) ->
  exists ret d', rpmh_rsc_write_ctrl_data d msg c = Some (ret, d') /\ chan_rep d' c /\
    (ret = - ENOMEM /\ d' = d \/
     ret = 0 /\ forall ty a v, sleep_wake ty ->
       in_image d' (tcs_of d' c ty) a v <->
       in_image d (tcs_of d c ty) a v \/
       (ty = type_of (msg_state msg) /\ exists cmd, cmd ∈ cmds msg /\ u32 (cmd_addr cmd) = a /\ u32 (cmd_data cmd) = v)).
Proof.
  intros Hrep Hs Hw. destruct (Z.eq_dec (num_cmds msg) 0) as [Hz|Hz].
  - exists 0, d. unfold rpmh_rsc_write_ctrl_data. rewrite Hz. split; [done|]. split; [done|]. right. split; [done|].
    intros ty a v _. assert (cmds msg = []) as -> by (apply length_zero_iff_nil; unfold num_cmds in Hz; lia).
    split; [by left|]. intros [?|(_ & cmd & Hc & _)]; [done|]. by apply not_elem_of_nil in Hc.
  - destruct Hs as [Hs|]; [|done]. pose proof (chan_rep_channel_ok d c _ Hrep Hs) as Hok.
    pose proof (sleep_wake_type _ Hs) as Hsw. destruct (cr_group _ _ Hrep _ Hsw) as (? & ? & _).
    destruct (write_ctrl_data_total_spec d msg c Hok Hw) as (ret & d' & E & R).
    + unfold num_cmds in *. lia.
    + rewrite get_tcs_for_msg_type by done. split; lia.
    + exists ret, d'. split; [done|]. rewrite get_tcs_for_msg_type in R by done.
      destruct R as [[-> ->]|[-> (tcs' & t & j & W)]]; [by split; [|left]|].
      assert (written_at d c (type_of (msg_state msg)) msg tcs' t j d') as Wa by (destruct_and!; by split).
      split; [by eapply written_rep|]. right. split; [done|]. intros ty a v Hty. by eapply written_image.
Qed.

(** The view depends on the configuration and the registers only. *)
Lemma view_ext d d' c :
  ch d' = ch d -> regs d' = regs d -> tcs_base d' = tcs_base d -> tcs_distance d' = tcs_distance d ->
  mmio d' = mmio d -> drv_tcs d' = drv_tcs d ->
  (chan_rep d c -> chan_rep d' c) /\
  forall ty a v, in_image d' (tcs_of d' c ty) a v <-> in_image d (tcs_of d c ty) a v.
Proof.
  intros E1 E2 E3 E4 E5 E6.
  assert (forall ty, tcs_of d' c ty = tcs_of d c ty) as T by (intros; unfold tcs_of; by rewrite E1).
  assert (forall t p, enabled d' t p <-> enabled d t p) as En
    by (intros; unfold enabled, read_tcs_reg, readl, tcs_reg_addr; by rewrite E2, E3, E4, E5).
  assert (forall r t p, read_tcs_cmd d' (regs d' r) t p = read_tcs_cmd d (regs d r) t p) as Rd
    by (intros; unfold read_tcs_cmd, readl, tcs_cmd_addr, tcs_reg_addr; by rewrite E2, E3, E4, E5).
  split.
  - intros []. split; try done.
    + destruct cr_shape0. split; by rewrite E1.
    + by rewrite E2.
    + intros ty. unfold fits, stride. rewrite T, E2, E4. apply cr_group0.
    + by rewrite E6.
    + intros x. rewrite !T. apply cr_disjoint0.
    + intros ty k p. rewrite T, En. apply cr_slots0.
  - intros ty a v. rewrite T. unfold in_image. by setoid_rewrite En; setoid_rewrite Rd.
Qed.
