(* ===== verification/TcsActive.v ===== *)
(** * TcsActive: active requests beside the sleep and wake TCSes

    On a channel with an active group of its own, sending an active request
    and handling its completion interrupt work on other TCSes than those that
    hold sleep and wake votes: what is proved here is the frame, so that
    TcsImage.v's view of the sleep and wake groups stays as it is. *)
From stdpp Require Import prelude list.
From S2P Require Import Prelude CmdDb RpmhRsc TcsImage.

(** TCS [t] holds no sleep or wake request of channel [c]. *)
Definition apart (d : rsc_drv) (c t : Z) : Prop := forall ty, sleep_wake ty -> ~ in_group (tcs_of d c ty) t.

(** The channels that [rpmh_rsc_get_channel] can choose. *)
Definition serves (d : rsc_drv) (i : Z) : Prop := if num_channels d =? 1 then i = 0 else i = 0 \/ i = 1.

(** Every channel has an active group, apart from the sleep and wake groups of
    [c], with registers for [n] commands. *)
Record active_apart (d : rsc_drv) (c n : Z) : Prop := {
  ap_clear : 0 <= regs d RSC_DRV_IRQ_CLEAR < regs d RSC_DRV_CMD_ENABLE;
  ap_group : forall i, serves d i ->
    0 < tg_num_tcs (tcs_of d i ACTIVE_TCS) <= Z.of_nat (length (tg_req (tcs_of d i ACTIVE_TCS))) /\
    0 <= tg_offset (tcs_of d i ACTIVE_TCS) /\
    forall t, in_group (tcs_of d i ACTIVE_TCS) t -> apart d c t;
  ap_fits : 0 < n /\ fits d n;
}.

Lemma serves_bound d i : serves d i -> 0 <= i < 2.
Proof. unfold serves. case_goal; lia. Qed.

(** ** What is kept *)

(** The groups differ in the stashed requests only. *)
Definition same_place (g g' : tcs_group) : Prop :=
  g' = g <| tg_req := tg_req g' |> /\ length (tg_req g') = length (tg_req g).

(** [d'] is configured like [d], and has the same contents in the command
    registers of the sleep and wake TCSes of [c]. *)
Record keeps (c : Z) (d d' : rsc_drv) : Prop := {
  kp_regs : regs d' = regs d /\ tcs_base d' = tcs_base d /\ tcs_distance d' = tcs_distance d;
  kp_control : drv_tcs d' = drv_tcs d /\ num_channels d' = num_channels d;
  kp_shape : drv_shape d -> drv_shape d';
  kp_group : forall i ty, 0 <= i < 2 -> same_place (tcs_of d i ty) (tcs_of d' i ty);
  kp_mmio : forall ty t o, sleep_wake ty -> in_group (tcs_of d c ty) t -> regs d RSC_DRV_CMD_ENABLE <= o < stride d ->
    mmio d' (tcs_base d + stride d * t + o) = mmio d (tcs_base d + stride d * t + o);
}.

Lemma same_place_refl g : same_place g g.
Proof. split; [by destruct g|done]. Qed.

Lemma same_place_fields g g' : same_place g g' ->
  tg_type g' = tg_type g /\ tg_ncpt g' = tg_ncpt g /\ tg_num_tcs g' = tg_num_tcs g /\
  tg_offset g' = tg_offset g /\ tg_slots g' = tg_slots g /\ length (tg_req g') = length (tg_req g).
Proof. intros [-> E]. done. Qed.

Lemma same_place_in g g' t : same_place g g' -> in_group g' t <-> in_group g t.
Proof. unfold in_group. by intros (_ & _ & -> & -> & _)%same_place_fields. Qed.

#[export] Hint Resolve same_place_refl : kernel.

Lemma keeps_trans c d1 d2 d3 : 0 <= c < 2 -> keeps c d1 d2 -> keeps c d2 d3 -> keeps c d1 d3.
Proof.
  intros Hc [(R1 & R2 & R3) [C1 C2] S G M] [(R1' & R2' & R3') [C1' C2'] S' G' M']. split.
  - by rewrite R1', R2', R3'.
  - by rewrite C1', C2'.
  - auto.
  - intros i ty Hi. destruct (G i ty Hi) as [E L], (G' i ty Hi) as [E' L'].
    split; [rewrite E', E; done|congruence].
  - intros ty t o Hty Ht Ho. assert (stride d2 = stride d1) as Es by (unfold stride; by rewrite R1, R3).
    rewrite <- R2, <- Es, (M' ty) by (rewrite ?R1, ?Es; try done; by apply (same_place_in _ _ _ (G c ty Hc))).
    by rewrite R2, Es, (M ty).
Qed.

(** Nothing that the view depends on has changed. *)
Lemma keeps_same c d d' :
  regs d' = regs d -> tcs_base d' = tcs_base d -> tcs_distance d' = tcs_distance d -> drv_tcs d' = drv_tcs d ->
  num_channels d' = num_channels d -> ch d' = ch d -> mmio d' = mmio d -> keeps c d d'.
Proof.
  intros E1 E2 E3 E4 E5 E6 E7. split; try done.
  - intros []. by split; rewrite E6.
  - intros i ty _. unfold tcs_of. rewrite E6. auto with kernel.
  - intros. by rewrite E7.
Qed.

Lemma keeps_refl c d : keeps c d d.
Proof. by apply keeps_same. Qed.

(** The view of the sleep and wake groups. *)
Lemma keeps_view c d d' : keeps c d d' -> chan_rep d c ->
  chan_rep d' c /\
  forall ty a v, sleep_wake ty -> in_image d' (tcs_of d' c ty) a v <-> in_image d (tcs_of d c ty) a v.
Proof.
  intros [(R1 & R2 & R3) [C1 C2] S G M] Hrep. pose proof Hrep as [Sh Hc L Gr Ct Dj Sl].
  pose proof (fun ty => same_place_fields _ _ (G c ty Hc)) as F.
  assert (stride d' = stride d) as Es by (unfold stride; by rewrite R1, R3).
  destruct (chan_rep_mask_regs d c Hrep) as [_ Hes].
  assert (forall ty t p, sleep_wake ty -> in_group (tcs_of d c ty) t -> enabled d' t p <-> enabled d t p) as En.
  { intros ty t p Hty Ht. unfold enabled, read_tcs_reg, readl. rewrite !tcs_reg_addr_stride, Es, R1, R2.
    by rewrite (M ty) by (done || lia). }
  assert (forall r ty t p, r = RSC_DRV_CMD_ADDR \/ r = RSC_DRV_CMD_DATA -> sleep_wake ty ->
    in_group (tcs_of d c ty) t -> 0 <= p < tg_ncpt (tcs_of d c ty) ->
    read_tcs_cmd d' (regs d' r) t p = read_tcs_cmd d (regs d r) t p) as Rd.
  { intros r ty t p Hr Hty Ht Hp. destruct (Gr ty Hty) as (_ & _ & _ & _ & Ff).
    pose proof (cmd_reg_offset d r p _ L Ff Hp ltac:(tauto)).
    unfold read_tcs_cmd, readl, tcs_cmd_addr. rewrite !tcs_reg_addr_stride, Es, R1, R2.
    replace (tcs_base d + stride d * t + regs d r + regs d RSC_DRV_CMD_OFFSET * p)
      with (tcs_base d + stride d * t + (regs d r + regs d RSC_DRV_CMD_OFFSET * p)) by lia.
    apply (M ty); [done|done|lia]. }
  split.
  - split; [auto|done|by rewrite R1| |by rewrite C1| |].
    + intros ty Hty. destruct (F ty) as (_ & -> & -> & -> & _ & ->). unfold fits. rewrite R1, Es. by apply Gr.
    + intros x. rewrite !(same_place_in _ _ _ (G c _ Hc)). apply Dj.
    + intros ty k p Hty. destruct (F ty) as (_ & -> & -> & -> & -> & _). intros Hk Hp.
      rewrite (En ty) by (done || unfold in_group; lia). by apply Sl.
  - intros ty a v Hty. unfold in_image. destruct (F ty) as (_ & -> & _).
    setoid_rewrite (same_place_in _ _ _ (G c ty Hc)).
    split; intros (t & p & Ht & Hp & He & Ha & Hv); exists t, p;
      [rewrite <- (En ty), <- (Rd RSC_DRV_CMD_ADDR ty), <- (Rd RSC_DRV_CMD_DATA ty)
      |rewrite (En ty), (Rd RSC_DRV_CMD_ADDR ty), (Rd RSC_DRV_CMD_DATA ty)]; tauto.
Qed.

Lemma keeps_apart c d d' t : 0 <= c < 2 -> keeps c d d' -> apart d c t -> apart d' c t.
Proof. intros Hc K Ha ty Hty. rewrite (same_place_in _ _ _ (kp_group _ _ _ K c ty Hc)). by apply Ha. Qed.

Lemma keeps_active c n d d' : 0 <= c < 2 -> keeps c d d' -> active_apart d c n -> active_apart d' c n.
Proof.
  intros Hc K [Cl Gr Ft]. destruct (kp_regs _ _ _ K) as (R1 & R2 & R3), (kp_control _ _ _ K) as [_ C]. split.
  - by rewrite R1.
  - intros i Hi. unfold serves in Hi. rewrite C in Hi. pose proof (serves_bound d i Hi) as Hb.
    pose proof (kp_group _ _ _ K i ACTIVE_TCS Hb) as P.
    destruct (same_place_fields _ _ P) as (_ & _ & -> & -> & _ & ->). destruct (Gr i Hi) as (? & ? & Ap).
    split; [done|]. split; [done|]. intros t Ht. eapply keeps_apart; [done..|]. apply Ap. by apply (same_place_in _ _ _ P).
  - unfold fits, stride. by rewrite R1, R3.
Qed.

(** ** Registers of other TCSes *)

(** The address belongs to a TCS that holds no sleep or wake request of [c],
    or is one of the two interrupt registers. *)
Definition elsewhere (d : rsc_drv) (c a : Z) : Prop :=
  a = tcs_base d + regs d RSC_DRV_IRQ_ENABLE \/ a = tcs_base d + regs d RSC_DRV_IRQ_CLEAR \/
  exists t o, apart d c t /\ 0 <= o < stride d /\ a = tcs_base d + stride d * t + o.

Lemma elsewhere_not c d ty t o :
  chan_rep d c -> 0 <= regs d RSC_DRV_IRQ_CLEAR < regs d RSC_DRV_CMD_ENABLE -> sleep_wake ty ->
  in_group (tcs_of d c ty) t -> regs d RSC_DRV_CMD_ENABLE <= o < stride d ->
  ~ elsewhere d c (tcs_base d + stride d * t + o).
Proof.
  intros Hrep Hcl Hty Ht Ho. pose proof Hrep as [Sh Hc L Gr _ _ _].
  destruct (Gr ty Hty) as (_ & _ & _ & Hof & _). unfold in_group in Ht.
  pose proof (stride_nonneg d c Hrep). destruct L. intros [E|[E|(t' & o' & Hap & Ho' & E)]]; [nia..|].
  apply stride_split in E; [|lia|lia]. destruct E as [-> _]. by apply (Hap ty).
Qed.

Lemma keeps_elsewhere c d d' :
  chan_rep d c -> 0 <= regs d RSC_DRV_IRQ_CLEAR < regs d RSC_DRV_CMD_ENABLE -> same_but_mmio d d' ->
  (forall a, ~ elsewhere d c a -> mmio d' a = mmio d a) -> keeps c d d'.
Proof.
  intros Hrep Hcl S F. split; try (rewrite S; done).
  - rewrite S. by intros [].
  - intros i ty _. replace (tcs_of d' i ty) with (tcs_of d i ty) by (by rewrite S). auto with kernel.
  - intros ty t o Hty Ht Ho. by apply F, (elsewhere_not c d ty).
Qed.

(** ** Sending and completing *)

Section Elsewhere.

Context (d : rsc_drv) (c t : Z).
Hypothesis Hrep : chan_rep d c.
Hypothesis Ht : apart d c t.

Lemma elsewhere_reg r : regs d r = regs d RSC_DRV_CONTROL \/ regs d r = regs d RSC_DRV_CMD_ENABLE \/
  regs d r = regs d RSC_DRV_CMD_WAIT_FOR_CMPL -> elsewhere d c (tcs_reg d r t).
Proof using Hrep Ht.
  intros Hr. right. right. exists t, (regs d r). unfold tcs_reg. rewrite tcs_reg_addr_stride.
  destruct (chan_rep_mask_regs d c Hrep). destruct (cr_regs _ _ Hrep). split; [done|]. split; [lia|done].
Qed.

Lemma elsewhere_cmds n a : fits d n -> in_cmds d t 0 n a -> elsewhere d c a.
Proof using Hrep Ht.
  intros Hf (r & j & Hr & Hj & ->). right. right. exists t, (regs d r + regs d RSC_DRV_CMD_OFFSET * j).
  rewrite cmd_reg_eq. pose proof (cmd_reg_offset d r j n (cr_regs _ _ Hrep) Hf Hj Hr).
  destruct (chan_rep_mask_regs d c Hrep). split; [done|]. split; [lia|done].
Qed.

(** [rpmh_rsc_send_data] on TCS [t] writes there and to the interrupt mask. *)
Lemma program_tcs_elsewhere irq msg n :
  Forall wait_flag (cmds msg) -> num_cmds msg <= n -> fits d n -> 
  same_but_mmio d (program_tcs d t irq msg) /\
  forall a, ~ elsewhere d c a -> mmio (program_tcs d t irq msg) a = mmio d a.
Proof using Hrep Ht.
  intros Hw Hn Hf. pose proof (cr_regs _ _ Hrep) as L. unfold program_tcs. cbv zeta.
  set (d1 := write_tcs_reg_sync _ (regs d RSC_DRV_CMD_ENABLE) t 0).
  set (d2 := write_tcs_reg_sync _ (regs d1 RSC_DRV_CMD_WAIT_FOR_CMPL) t 0).
  set (d3 := enable_tcs_irq _ t irq).
  destruct (buffer_write_spec d3 t 0 msg L ltac:(lia) Hw) as (S1 & _ & _ & _ & F).
  set (d4 := __tcs_buffer_write d3 t 0 msg) in *.
  assert (same_but_mmio d d4) as S2 by (eapply same_but_mmio_trans; [|exact S1]; done).
  split; [eapply same_but_mmio_trans; [exact S2|apply set_trigger_same]|].
  intros a Ha. destruct (set_trigger_mmio d4 t) as (v & w & ->). cbv zeta.
  replace (tcs_reg d4 RSC_DRV_CONTROL t) with (tcs_reg d RSC_DRV_CONTROL t) by (by rewrite S2).
  assert (forall r, regs d r = regs d RSC_DRV_CONTROL \/ regs d r = regs d RSC_DRV_CMD_ENABLE \/
    regs d r = regs d RSC_DRV_CMD_WAIT_FOR_CMPL -> a <> tcs_reg d r t) as N
    by (intros r Hr ->; by apply Ha, elsewhere_reg).
  rewrite !upd_ne by (apply N; tauto). rewrite F.
  - unfold d3, enable_tcs_irq, writel. cbn [mmio set_field].
    change (tcs_base d2 + regs d2 RSC_DRV_IRQ_ENABLE) with (tcs_base d + regs d RSC_DRV_IRQ_ENABLE).
    rewrite upd_ne by (intros ->; apply Ha; by left).
    unfold d2, d1, write_tcs_reg_sync, writel. cbn [mmio set_field].
    change (tcs_reg_addr _ (regs _ RSC_DRV_CMD_WAIT_FOR_CMPL) t) with (tcs_reg d RSC_DRV_CMD_WAIT_FOR_CMPL t).
    change (tcs_reg_addr _ (regs _ RSC_DRV_CMD_ENABLE) t) with (tcs_reg d RSC_DRV_CMD_ENABLE t).
    rewrite !upd_ne by (apply N; tauto). done.
  - intros Hi. apply Ha, (elsewhere_cmds n); [done|]. destruct Hi as (r & j & Hr & Hj & ->).
    exists r, j. split; [done|]. split; [lia|done].
  - change (tcs_reg d3) with (tcs_reg d). apply N. tauto.
  - change (tcs_reg d3) with (tcs_reg d). apply N. tauto.
Qed.

(** One more write, after others. *)
Lemma keeps_writel d0 v a :
  0 <= regs d RSC_DRV_IRQ_CLEAR < regs d RSC_DRV_CMD_ENABLE -> keeps c d d0 -> elsewhere d c a -> keeps c d (writel d0 v a).
Proof using Hrep.
  intros Hcl [R C S G M] Ha. split; [exact R|exact C| |exact G|].
  { intros Sh. destruct (S Sh). by split. }
  intros ty t0 o Hty Ht0 Ho. unfold writel. cbn [mmio set_field]. rewrite upd_ne; [by apply (M ty)|].
  intros E. apply (elsewhere_not c d ty t0 o); [done..|]. by rewrite E.
Qed.

Hypothesis Hcl : 0 <= regs d RSC_DRV_IRQ_CLEAR < regs d RSC_DRV_CMD_ENABLE.

Lemma keeps_write_reg d0 r v :
  (r = RSC_DRV_CONTROL \/ r = RSC_DRV_CMD_ENABLE \/ r = RSC_DRV_CMD_WAIT_FOR_CMPL) -> keeps c d d0 ->
  keeps c d (write_tcs_reg d0 (regs d0 r) t v).
Proof using Hrep Ht Hcl.
  intros Hr K. unfold write_tcs_reg. destruct (kp_regs _ _ _ K) as (R1 & R2 & R3).
  replace (tcs_reg_addr d0 (regs d0 r) t) with (tcs_reg d r t) by (unfold tcs_reg, tcs_reg_addr; by rewrite R1, R2, R3).
  apply keeps_writel; [done|done|]. apply elsewhere_reg. destruct Hr as [->|[->| ->]]; tauto.
Qed.

Lemma keeps_irq_enable d0 i b : keeps c d d0 -> keeps c d (enable_tcs_irq d0 i b).
Proof using Hrep Hcl.
  intros K. unfold enable_tcs_irq. cbv zeta. destruct (kp_regs _ _ _ K) as (-> & -> & _).
  apply keeps_writel; [done|done|by left].
Qed.

Lemma keeps_fields d0 d1 :
  regs d1 = regs d0 -> tcs_base d1 = tcs_base d0 -> tcs_distance d1 = tcs_distance d0 -> drv_tcs d1 = drv_tcs d0 ->
  num_channels d1 = num_channels d0 -> ch d1 = ch d0 -> mmio d1 = mmio d0 -> keeps c d d0 -> keeps c d d1.
Proof using Hrep. intros. eapply keeps_trans; [apply (cr_channel _ _ Hrep)|done|by apply keeps_same]. Qed.

(** The interrupt handler on TCS [t]. *)
Lemma tx_done_one_keeps v d' v' : tx_done_one d v t = Some (d', v') -> keeps c d d'.
Proof using Hrep Ht Hcl.
  unfold tx_done_one. cbv zeta.
  set (q := match get_req_from_tcs d t with Some (_, q) => q | None => None end).
  set (c' := match get_req_from_tcs d t with Some (i', _) => Some i' | None => v end).
  set (d1 := match q with Some _ => _ | None => _ end).
  assert (keeps c d d1) as K1.
  { unfold d1. destruct q; [|apply keeps_refl]. destruct c'; [|apply keeps_refl]. case_goal; [|apply keeps_refl].
    apply (keeps_write_reg (write_tcs_reg_sync d (regs d RSC_DRV_CONTROL) t _) RSC_DRV_CONTROL); [tauto|].
    apply (keeps_write_reg d RSC_DRV_CONTROL); [tauto|apply keeps_refl]. }
  clearbody d1. set (d2 := write_tcs_reg d1 _ t 0). set (d3 := write_tcs_reg d2 _ t 0).
  assert (keeps c d d3) as K3 by (do 2 (apply keeps_write_reg; [tauto|]); done). clearbody d3.
  set (d4 := writel d3 _ _). assert (keeps c d d4) as K4.
  { destruct (kp_regs _ _ _ K3) as (R1 & R2 & _). unfold d4. rewrite R1, R2.
    apply keeps_writel; [done|done|]. right. by left. }
  destruct c' as [x|]; [|done]. intros [= <- _]. set (d5 := d4 <| tcs_in_use := Z.clearbit (tcs_in_use d4) t |>).
  assert (keeps c d d5) as K5 by (by apply (keeps_fields d4)).
  assert (forall b : bool, keeps c d (if b then enable_tcs_irq d5 t false else d5)) as K6
    by (intros []; [by apply keeps_irq_enable|done]).
  destruct q as [q'|]; [|apply K6]. unfold rpmh_tx_done. destruct (req_completion q'); [|apply K6].
  eapply keeps_fields, K6; done.
Qed.

End Elsewhere.

(** The TCSes of an interrupt status word hold no sleep or wake request. *)
Definition irq_apart (d : rsc_drv) (c st : Z) : Prop :=
  forall t, 0 <= t < 32 -> Z.testbit st t = true -> apart d c t.

Lemma irq_apart_keeps c d d' st : 0 <= c < 2 -> keeps c d d' -> irq_apart d c st -> irq_apart d' c st.
Proof. intros Hc K H t Ht Hb. eapply keeps_apart; [done|done|]. by apply H. Qed.

Lemma tx_done_keeps d c st d' :
  chan_rep d c -> 0 <= regs d RSC_DRV_IRQ_CLEAR < regs d RSC_DRV_CMD_ENABLE -> irq_apart d c st ->
  tcs_tx_done d st = Some d' -> keeps c d d'.
Proof.
  intros Hrep Hcl Ha. unfold tcs_tx_done.
  assert (forall t, t ∈ set_bits st 32 -> apart d c t) as Hall by (intros t [? ?]%set_bits_spec; by apply Ha).
  generalize (None : option Z). revert d Hrep Hcl Ha Hall. induction (set_bits st 32) as [|t l IH];
    intros d Hrep Hcl Ha Hall v; cbn [tx_done_loop]; [intros [= <-]; apply keeps_refl|].
  destruct (tx_done_one d v t) as [[d1 v1]|] eqn:E; [|done].
  assert (keeps c d d1) as K by (eapply tx_done_one_keeps; [done|apply Hall; by left|done|done]).
  pose proof (cr_channel _ _ Hrep) as Hc. intros E'. eapply keeps_trans; [done|done|].
  apply (IH d1) with v1; [by apply (keeps_view _ _ _ K)| | | |done].
  - by rewrite (proj1 (kp_regs _ _ _ K)).
  - by eapply irq_apart_keeps.
  - intros y Hy. eapply keeps_apart; [done|done|]. apply Hall. by right.
Qed.

(** Stashing a request in a group. *)
Lemma set_tcs_req d i ty0 r k ty :
  drv_shape d -> 0 <= i < 2 -> 0 <= k < 2 -> (ty0 < TCS_TYPE_NR)%nat ->
  length r = length (tg_req (tcs_of d i ty0)) ->
  same_place (tcs_of d k ty) (tcs_of (set_tcs d i ty0 ((tcs_of d i ty0) <| tg_req := r |>)) k ty).
Proof.
  intros Sh Hi Hk Hty Hr. destruct (Z.eq_dec k i) as [->|Hne].
  - rewrite tcs_of_set_tcs_any by done. case_bool_decide; [subst; by split|auto with kernel].
  - unfold tcs_of at 2, set_tcs. cbn [ch set_field]. rewrite list_lookup_total_insert_ne by lia. auto with kernel.
Qed.

(** Sending an active request. *)
Lemma send_keeps `{BitmapLaws} d c n i req sts r d' :
  chan_rep d c -> active_apart d c n -> serves d i -> msg_state (req_msg req) = RPMH_ACTIVE_ONLY_STATE ->
  Forall wait_flag (cmds (req_msg req)) -> num_cmds (req_msg req) <= n ->
  rpmh_rsc_send_data d req i sts = Some (r, d') -> keeps c d d'.
Proof.
  intros Hrep [Cl Gr [Hn Hf]] Hi Hst Hw Hnc E. destruct (Gr i Hi) as (Hnum & Hoff & Hap).
  destruct (in_solver_mode d) eqn:Es.
  { unfold rpmh_rsc_send_data in E. rewrite Es in E. injection E as _ <-. apply keeps_refl. }
  rewrite send_data_unfold in E by done. cbv zeta in E. rewrite Hst in E.
  assert (get_tcs_for_msg d RPMH_ACTIVE_ONLY_STATE i = ACTIVE_TCS) as T.
  { unfold get_tcs_for_msg. by rewrite (proj2 (Z.eqb_neq _ _)) by lia. }
  rewrite T in E. set (g := tcs_of d i ACTIVE_TCS) in *. set (t := claim_tcs_for_req d g (req_msg req) sts) in *.
  destruct (Z.ltb_spec t 0) as [|Ht]; [done|].
  destruct (claim_tcs_spec d g (req_msg req) sts t) as (Hr & _); [done|lia|done|done|].
  set (d1 := set_tcs d i ACTIVE_TCS _) in *. set (d2 := d1 <| tcs_in_use := Z.setbit (tcs_in_use d1) t |>) in *. pose proof (serves_bound d i Hi) as Hib.
  pose proof (cr_channel _ _ Hrep) as Hc.
  assert (keeps c d d2) as K2.
  { split; try done.
    - intros Sh. destruct (drv_shape_set_tcs d i ACTIVE_TCS
        (g <| tg_req := <[Z.to_nat (t - tg_offset g) := Some req]> (tg_req g) |>) Sh Hib). by split.
    - intros k ty Hk. change (tcs_of d2 k ty) with (tcs_of (set_tcs d i ACTIVE_TCS
        (g <| tg_req := <[Z.to_nat (t - tg_offset g) := Some req]> (tg_req g) |>)) k ty).
      apply set_tcs_req; [by destruct Hrep|done|done|unfold ACTIVE_TCS, TCS_TYPE_NR; lia|apply length_insert]. }
  destruct (keeps_view _ _ _ K2 Hrep) as [Hrep2 _].
  assert (apart d2 c t) as Ht2 by (eapply keeps_apart; [done|done|]; apply Hap; unfold in_group; lia).
  set (irq := wait_for_compl (req_msg req) || _) in *.
  destruct (program_tcs_elsewhere d2 c t Hrep2 Ht2 irq (req_msg req) n Hw Hnc Hf) as [S7 F7].
  pose proof (keeps_elsewhere c d2 _ Hrep2 Cl S7 F7) as K7. injection E as _ <-.
  eapply keeps_trans; [done|done|]. case_goal; [|done].
  by eapply keeps_fields, K7.
Qed.
