(* ===== verification/Rpmh.v ===== *)
(** * Rpmh: the client side of RPMh (src/drivers/soc/qcom/rpmh.c)

    Drivers vote for resources in three states. Active votes go to the
    controller at once; sleep and wake votes are cached here, and a flush
    writes them into the sleep and wake TCSes before the system goes down. The
    state is one DRV together with its client, as ctrlr_to_drv relates them. *)
From stdpp Require Import prelude list.
From S2P Require Import Prelude CmdDb RpmhRsc TcsImage TcsActive.

(** ** State *)

Record cache_req := mk_cache {
  c_addr : Z;
  sleep_val : Z;
  wake_val : Z;
}.

Definition SOLVER_PRESENT : Z := 1.

Definition HW_CHANNEL_PRESENT : Z := 2.

Definition CMD_DB_MAX_RESOURCES : Z := 250.

(** struct rpmh_ctrlr. [batch_sleep] and [batch_wake] are the two elements of
    [batch_cache]; [non_batch_cache] holds its first [non_batch_cache_idx]
    elements. *)
Record rpmh_ctrlr := mk_ctrlr {
  dirty : bool;
  c_solver_mode : bool;
  flags : Z;
  batch_sleep : tcs_request;
  batch_wake : tcs_request;
  non_batch_cache : list cache_req;
}.

#[export] Instance eta_rpmh_ctrlr : Settable rpmh_ctrlr :=
  fun c => mk_ctrlr (dirty c) (c_solver_mode c) (flags c) (batch_sleep c) (batch_wake c)
             (non_batch_cache c).

(** A DRV with its client, and the global flag [rpmh_standalone]. *)
Record rpmh := mk_rpmh {
  drv : rsc_drv;
  client : rpmh_ctrlr;
  rpmh_standalone : bool;
}.

#[export] Instance eta_rpmh : Settable rpmh := fun s => mk_rpmh (drv s) (client s) (rpmh_standalone s).

(** How an entry point ends: it returns, it waits for an event that is not
    there yet, it stops in a BUG or uses a variable without a value, or the
    model's fuel runs out. *)
Inductive outcome :=
| Returns (ret : Z) (s : rpmh)
| Waits
| Bug
| NoFuel.

(** The zeroed request memset leaves in the batch cache. *)
Definition zero_msg : tcs_request := mk_msg RPMH_SLEEP_STATE false [].

Definition batch_of (c : rpmh_ctrlr) (state : rpmh_state) : tcs_request :=
  match state with
  | RPMH_SLEEP_STATE => batch_sleep c
  | _ => batch_wake c
  end.

Definition set_batch (c : rpmh_ctrlr) (state : rpmh_state) (m : tcs_request) : rpmh_ctrlr :=
  match state with
  | RPMH_SLEEP_STATE => c <| batch_sleep := m |>
  | _ => c <| batch_wake := m |>
  end.

(** ** The cache of votes *)

Definition check_ctrlr_state (c : rpmh_ctrlr) (state : rpmh_state) : Z :=
  if negb (bool_decide (state = RPMH_ACTIVE_ONLY_STATE)) then 0
  else if negb (truth (Z.land (flags c) SOLVER_PRESENT)) then 0
  else if c_solver_mode c then - EBUSY else 0.

(** The index in [l] of the entry for [addr], by the linear search. *)
Fixpoint cache_index (l : list cache_req) (addr : Z) (i : nat) : option nat :=
  match l with
  | [] => None
  | q :: l' => if c_addr q =? addr then Some i else cache_index l' addr (S i)
  end.

(** [get_non_batch_cache_req]: the client, in which a new entry may have been
    taken, and the index of the entry. The address of a new entry is the one
    its caller is about to store. *)
Definition get_non_batch_cache_req (c : rpmh_ctrlr) (addr : Z) : option (rpmh_ctrlr * nat) :=
  let l := non_batch_cache c in
  if CMD_DB_MAX_RESOURCES <=? Z.of_nat (length l) then None
  else
    match cache_index l addr 0 with
    | Some i => Some (c, i)
    | None => Some (c <| non_batch_cache := l ++ [mk_cache addr UINT_MAX UINT_MAX] |>, length l)
    end.

(** The new values of an entry when [cmd] is cached in [state]. *)
Definition cache_update (state : rpmh_state) (data : Z) (q : cache_req) : cache_req :=
  match state with
  | RPMH_ACTIVE_ONLY_STATE | RPMH_WAKE_ONLY_STATE => mk_cache (c_addr q) (sleep_val q) data
  | RPMH_SLEEP_STATE => mk_cache (c_addr q) data (wake_val q)
  end.

Definition cache_dirties (old new : cache_req) : bool :=
  (negb (sleep_val new =? sleep_val old) || negb (wake_val new =? wake_val old)) &&
  negb (sleep_val new =? UINT_MAX) && negb (wake_val new =? UINT_MAX).

Definition cache_rpm_request (c : rpmh_ctrlr) (state : rpmh_state) (cmd : tcs_cmd)
  : Z * rpmh_ctrlr :=
  match get_non_batch_cache_req c (cmd_addr cmd) with
  | None => (- ENOMEM, c)
  | Some (c, i) =>
      let l := non_batch_cache c in
      match l !! i with
      | None => (- ENOMEM, c)
      | Some req =>
          let old := mk_cache (cmd_addr cmd) (sleep_val req) (wake_val req) in
          let new := cache_update state (cmd_data cmd) old in
          let c1 := c <| non_batch_cache := <[i := new]> l |> in
          (0, c1 <| dirty := dirty c1 || cache_dirties old new |>)
      end
  end.

(** The first loop of [__rpmh_write]. *)
Fixpoint cache_all (c : rpmh_ctrlr) (state : rpmh_state) (cs : list tcs_cmd) : Z * rpmh_ctrlr :=
  match cs with
  | [] => (0, c)
  | cmd :: cs' =>
      let '(ret, c1) := cache_rpm_request c state cmd in
      if truth ret then (ret, c1) else cache_all c1 state cs'
  end.

(** ** Writing votes *)

(** What the hardware and the rest of the system do during a call: the
    successive reads of the channel registers, of the TCS status, and the
    interrupt status words delivered while the caller waits. *)
Record env := mk_env {
  polls : list (Z * Z);
  sts : nat -> Z;
  irqs : list Z;
  has_irq_data : bool;
}.

Section Client.

Context `{BitmapOps}.

(** [MAX_RPMH_PAYLOAD] of soc/qcom/tcs.h. *)
Context (MAX_RPMH_PAYLOAD : Z).

Definition __rpmh_write (s : rpmh) (e : env) (state : rpmh_state) (req : rpmh_request) : outcome :=
  let '(ret, c1) := cache_all (client s) state (cmds (req_msg req)) in
  let s := s <| client := c1 |> in
  if truth ret then Returns ret s
  else if bool_decide (state = RPMH_ACTIVE_ONLY_STATE) then
    match rpmh_rsc_get_channel (drv s) (polls e) with
    | None => Waits
    | Some c =>
        if c <? 0 then Returns c s
        else
          match rpmh_rsc_send_data (drv s) req c (sts e) with
          | None => Waits
          | Some (ret, d) => Returns ret (s <| drv := d |>)
          end
    end
  else Returns 0 (s <| drv := rpmh_tx_done (drv s) req |>).

(** [cmd] is [None] for the NULL pointer; the array is long enough for [n]. *)
Definition __fill_rpmh_msg (m : tcs_request) (state : rpmh_state) (cmd : option (list tcs_cmd)) (n : Z)
  : Z * tcs_request :=
  match cmd with
  | None => (- EINVAL, m)
  | Some cs =>
      if (n =? 0) || (MAX_RPMH_PAYLOAD <? n) then (- EINVAL, m)
      else (0, mk_msg state (wait_for_compl m) (take (Z.to_nat n) cs))
  end.

Definition rpmh_write_async (s : rpmh) (e : env) (state : rpmh_state) (cmd : option (list tcs_cmd)) (n : Z)
  : outcome :=
  if rpmh_standalone s then Returns 0 s
  else
    let ret := check_ctrlr_state (client s) state in
    if truth ret then Returns ret s
    else
      let '(ret, msg) := __fill_rpmh_msg (mk_msg state false []) state cmd n in
      if truth ret then Returns ret s
      else __rpmh_write s e state (mk_req msg None).

(** The interrupts delivered during a wait; [None] when the handler uses its
    channel variable without a value. *)
Fixpoint run_irqs (d : rsc_drv) (l : list Z) : option rsc_drv :=
  match l with
  | [] => Some d
  | st :: l' =>
      match tcs_tx_done d st with
      | None => None
      | Some d' => run_irqs d' l'
      end
  end.

(** Whether [rpmh_rsc_debug] stops the system: a TCS is still in use. *)
Definition rpmh_rsc_debug (d : rsc_drv) (irq_data : bool) : bool :=
  irq_data && existsb (fun i => Z.testbit (tcs_in_use d) i) (zseq 0 (Z.to_nat (drv_num_tcs d))).

(** [wait_for_completion_timeout] on the completion [k], of which [before] was
    the history when it was declared. *)
Definition wait_done (before : list Z) (d : rsc_drv) (k : Z) : bool :=
  bool_decide (k ∈ drop (length before) (completed d)).

Definition rpmh_write (s : rpmh) (e : env) (k : Z) (state : rpmh_state) (cmd : option (list tcs_cmd)) (n : Z)
  : outcome :=
  if rpmh_standalone s then Returns 0 s
  else
    let ret := check_ctrlr_state (client s) state in
    if truth ret then Returns ret s
    else
      let '(ret, msg) := __fill_rpmh_msg (mk_msg state true []) state cmd n in
      if truth ret then Returns ret s
      else
        match __rpmh_write s e state (mk_req msg (Some k)) with
        | Returns ret s1 =>
            if truth ret then Returns ret s1
            else
              match run_irqs (drv s1) (irqs e) with
              | None => Bug
              | Some d =>
                  let s2 := s1 <| drv := d |> in
                  if negb (wait_done (completed (drv s)) d k) then
                    if rpmh_rsc_debug d (has_irq_data e) then Bug else Returns (- ETIMEDOUT) s2
                  else Returns 0 s2
              end
        | o => o
        end.

Definition rpmh_write_batch (s : rpmh) (e : env) (k : Z) (state : rpmh_state) (cmd : option (list tcs_cmd)) (n : Z)
  : outcome :=
  if rpmh_standalone s then Returns 0 s
  else
    let ret := check_ctrlr_state (client s) state in
    if truth ret then Returns ret s
    else if bool_decide (state = RPMH_ACTIVE_ONLY_STATE) then
      let '(ret, msg) := __fill_rpmh_msg (mk_msg state true []) state cmd n in
      if truth ret then Returns ret s
      else
        match rpmh_rsc_get_channel (drv s) (polls e) with
        | None => Waits
        | Some c =>
            if c <? 0 then Returns c s
            else
              match rpmh_rsc_send_data (drv s) (mk_req msg (Some k)) c (sts e) with
              | None => Waits
              | Some (ret, d) =>
                  let s1 := s <| drv := d |> in
                  if truth ret then Returns ret s1
                  else
                    match run_irqs d (irqs e) with
                    | None => Bug
                    | Some d2 =>
                        if negb (wait_done (completed (drv s)) d2 k) then Bug
                        else Returns 0 (s1 <| drv := d2 |>)
                    end
              end
        end
    else
      let c1 := set_batch (client s) state zero_msg in
      let '(ret, msg) := __fill_rpmh_msg (batch_of c1 state) state cmd n in
      let c2 := set_batch c1 state msg in
      Returns ret (s <| client := c2 <| dirty := true |> |>).

(** ** Flushing *)

Definition flush_batch (d : rsc_drv) (c : rpmh_ctrlr) (chn : Z) : option (Z * rsc_drv) :=
  match rpmh_rsc_write_ctrl_data d (batch_sleep c) chn with
  | None => None
  | Some (ret, d1) =>
      if truth ret then Some (ret, d1) else rpmh_rsc_write_ctrl_data d1 (batch_wake c) chn
  end.

Definition is_req_valid (q : cache_req) : bool :=
  negb (sleep_val q =? UINT_MAX) && negb (wake_val q =? UINT_MAX) && negb (sleep_val q =? wake_val q).

Definition send_single (d : rsc_drv) (state : rpmh_state) (addr data chn : Z) : option (Z * rsc_drv) :=
  rpmh_rsc_write_ctrl_data d
    (mk_msg state (bool_decide (state = RPMH_WAKE_ONLY_STATE)) [mk_cmd addr data 0]) chn.

(** The loop of [_rpmh_flush] over the cache. *)
Fixpoint flush_cache (d : rsc_drv) (chn : Z) (l : list cache_req) : option (Z * rsc_drv) :=
  match l with
  | [] => Some (0, d)
  | p :: l' =>
      if negb (is_req_valid p) then flush_cache d chn l'
      else
        match send_single d RPMH_SLEEP_STATE (c_addr p) (sleep_val p) chn with
        | None => None
        | Some (ret, d1) =>
            if truth ret then Some (ret, d1)
            else
              match send_single d1 RPMH_WAKE_ONLY_STATE (c_addr p) (wake_val p) chn with
              | None => None
              | Some (ret, d2) => if truth ret then Some (ret, d2) else flush_cache d2 chn l'
              end
        end
  end.

(** The next wake-up: whether timekeeping is suspended, and the cycle count. *)
Definition wakeup : Type := bool * Z.

Definition _rpmh_flush (s : rpmh) (chn : Z) (w : wakeup) : option (Z * rpmh) :=
  let next d := rpmh_rsc_write_next_wakeup d (fst w) (snd w) in
  if negb (dirty (client s)) then Some (0, s <| drv := next (drv s) |>)
  else
    let d0 := rpmh_rsc_invalidate (drv s) chn in
    match flush_batch d0 (client s) chn with
    | None => None
    | Some (ret, d1) =>
        if truth ret then Some (ret, s <| drv := d1 |>)
        else
          match flush_cache d1 chn (non_batch_cache (client s)) with
          | None => None
          | Some (ret, d2) =>
              if truth ret then Some (ret, s <| drv := d2 |>)
              else Some (0, mk_rpmh (next d2) ((client s) <| dirty := false |>) (rpmh_standalone s))
          end
    end.

Definition rpmh_flush (s : rpmh) (chn : Z) (w : wakeup) : option (Z * rpmh) :=
  if rpmh_standalone s then Some (0, s) else _rpmh_flush s chn w.

Definition rpmh_write_sleep_and_wake (s : rpmh) (pl : list (Z * Z)) (w : wakeup) (complete : nat -> Z) : outcome :=
  match rpmh_rsc_get_channel (drv s) pl with
  | None => Waits
  | Some c =>
      if c <? 0 then Returns c s
      else
        match rpmh_flush s c w with
        | None => NoFuel
        | Some (ret, s1) =>
            if truth ret || negb (truth (Z.land (flags (client s1)) HW_CHANNEL_PRESENT)) then Returns ret s1
            else
              let '(ret, d) := rpmh_rsc_switch_channel (drv s1) c complete in
              Returns ret (s1 <| drv := d |>)
        end
  end.

Definition rpmh_write_sleep_and_wake_no_child (s : rpmh) (pl : list (Z * Z)) (w : wakeup)
  (complete : nat -> Z) : outcome :=
  match rpmh_rsc_get_channel (drv s) pl with
  | None => Waits
  | Some c =>
      if c <? 0 then Bug
      else
        match rpmh_flush s c w with
        | None => NoFuel
        | Some (ret, s1) =>
            if truth ret || negb (truth (Z.land (flags (client s1)) HW_CHANNEL_PRESENT)) then Returns ret s1
            else
              let '(ret, d) := rpmh_rsc_switch_channel (drv s1) c complete in
              if truth ret then Bug else Returns ret (s1 <| drv := d |>)
        end
  end.

Definition rpmh_invalidate (s : rpmh) : rpmh :=
  if rpmh_standalone s then s
  else
    let c := (client s) <| batch_sleep := zero_msg |> in
    let c := c <| batch_wake := zero_msg |> in
    s <| client := c <| dirty := true |> |>.

(** [lock] is whether the controller's trylock succeeds. *)
Definition rpmh_mode_solver_set (s : rpmh) (lock enable : bool) : Z * rpmh :=
  if rpmh_standalone s then (0, s)
  else if negb (truth (Z.land (flags (client s)) SOLVER_PRESENT)) then (- EINVAL, s)
  else
    let '(ret, d) := rpmh_rsc_mode_solver_set (drv s) lock enable in
    let s := s <| drv := d |> in
    if ret =? 0 then (0, s <| client := (client s) <| c_solver_mode := enable |> |>) else (ret, s).

(** ** Fast path *)

Definition rpmh_init_fast_path (s : rpmh) (pl : list (Z * Z)) (cs : list tcs_cmd) (n : Z) (state : rpmh_state)
  : outcome :=
  if rpmh_standalone s then Returns 0 s
  else
    match rpmh_rsc_get_channel (drv s) pl with
    | None => Waits
    | Some c =>
        if c <? 0 then Returns c s
        else
          let '(ret, d) := rpmh_rsc_init_fast_path (drv s) (mk_msg state false (take (Z.to_nat n) cs)) c in
          Returns ret (s <| drv := d |>)
    end.

Definition rpmh_update_fast_path (s : rpmh) (pl : list (Z * Z)) (st : nat -> Z) (cs : list tcs_cmd) (n mask : Z)
  (state : rpmh_state) : outcome :=
  if rpmh_standalone s then Returns 0 s
  else
    match rpmh_rsc_get_channel (drv s) pl with
    | None => Waits
    | Some c =>
        if c <? 0 then Returns c s
        else
          let '(ret, d) :=
            rpmh_rsc_update_fast_path (drv s) (mk_msg state false (take (Z.to_nat n) cs)) mask c st in
          Returns ret (s <| drv := d |>)
    end.

End Client.

(** ** Specification: votes

    What a flush must leave in the TCSes: the commands of the batch requests,
    and for every cached resource with both votes given and different, its
    sleep vote in the sleep group and its wake vote in the wake group. *)

Definition cmd_pair (c : tcs_cmd) : Z * Z := (u32 (cmd_addr c), u32 (cmd_data c)).

Definition valid_reqs (l : list cache_req) : list cache_req := filter (fun q => is_req_valid q = true) l.

Definition votes (c : rpmh_ctrlr) (ty : nat) : list (Z * Z) :=
  if bool_decide (ty = SLEEP_TCS)
  then map cmd_pair (cmds (batch_sleep c)) ++
       map (fun q => (u32 (c_addr q), u32 (sleep_val q))) (valid_reqs (non_batch_cache c))
  else map cmd_pair (cmds (batch_wake c)) ++
       map (fun q => (u32 (c_addr q), u32 (wake_val q))) (valid_reqs (non_batch_cache c)).

(** Invariant of the client: one entry per address, within the array; the
    batch requests have the state of their slot. *)
Record client_ok (c : rpmh_ctrlr) : Prop := {
  cc_nodup : NoDup (map c_addr (non_batch_cache c));
  cc_bound : Z.of_nat (length (non_batch_cache c)) <= CMD_DB_MAX_RESOURCES;
  cc_sleep : msg_state (batch_sleep c) = RPMH_SLEEP_STATE;
  cc_wake : msg_state (batch_wake c) = RPMH_WAKE_ONLY_STATE \/ cmds (batch_wake c) = [];
  cc_flags : Forall wait_flag (cmds (batch_sleep c)) /\ Forall wait_flag (cmds (batch_wake c));
}.

(** The TCSes of channel [chn] hold exactly the votes of the client. *)
Definition synced (s : rpmh) (chn : Z) : Prop :=
  forall ty a v, sleep_wake ty ->
    in_image (drv s) (tcs_of (drv s) chn ty) a v <-> (a, v) ∈ votes (client s) ty.

(** ** Lemmas: the cache *)

Lemma cache_index_Some l addr i n :
  cache_index l addr n = Some i ->
  (n <= i)%nat /\ exists q, l !! (i - n)%nat = Some q /\ c_addr q = addr.
Proof.
  revert n. induction l as [|q l IH]; intros n; cbn [cache_index]; [done|].
  destruct (Z.eqb_spec (c_addr q) addr).
  - intros [= <-]. split; [lia|]. exists q. by rewrite Nat.sub_diag.
  - intros [? (q' & Hq & ?)]%IH. split; [lia|]. exists q'. split; [|done].
    replace (i - n)%nat with (S (i - S n)) by lia. done.
Qed.

Lemma cache_index_None l addr n : cache_index l addr n = None -> addr ∉ map c_addr l.
Proof.
  revert n. induction l as [|q l IH]; intros n; cbn [cache_index map]; [by intros _ ?%not_elem_of_nil|].
  destruct (Z.eqb_spec (c_addr q) addr); [done|]. intros H%IH. apply not_elem_of_cons. split; [congruence|done].
Qed.

Lemma cache_dirties_false state data q :
  data <> UINT_MAX -> cache_dirties q (cache_update state data q) = false ->
  cache_update state data q = q \/ is_req_valid q = false /\ is_req_valid (cache_update state data q) = false.
Proof.
  unfold cache_dirties, is_req_valid. destruct q as [a s w].
  destruct state; cbn [cache_update sleep_val wake_val c_addr]; intros Hd Hf;
    (destruct (Z.eq_dec s UINT_MAX); [right; subst; lia|]); (destruct (Z.eq_dec w UINT_MAX); [right; subst; lia|]);
    left; f_equal; lia.
Qed.

Lemma cache_update_addr state data q : c_addr (cache_update state data q) = c_addr q.
Proof. by destruct state. Qed.

Lemma valid_reqs_insert l i q q' :
  l !! i = Some q -> q' = q \/ is_req_valid q = false /\ is_req_valid q' = false ->
  valid_reqs (<[i := q']> l) = valid_reqs l.
Proof.
  unfold valid_reqs. intros Hl [->|[H1 H2]]; [by rewrite list_insert_id|].
  revert i Hl. induction l as [|x l IH]; intros [|i] Hl; [done..| |]; cbn in Hl.
  - injection Hl as ->. change (<[0%nat := q']> (q :: l)) with (q' :: l). rewrite !filter_cons.
    by rewrite !decide_False by congruence.
  - change (<[S i := q']> (x :: l)) with (x :: <[i := q']> l). rewrite !filter_cons, (IH i Hl). done.
Qed.

Lemma map_addr_insert l i q q' :
  l !! i = Some q -> c_addr q' = c_addr q -> map c_addr (<[i := q']> l) = map c_addr l.
Proof.
  intros Hl Ha. change (map c_addr) with (fmap c_addr : list cache_req -> list Z).
  rewrite list_fmap_insert, Ha. apply list_insert_id. by rewrite list_lookup_fmap, Hl.
Qed.

(** Caching a vote, by cases. *)
Lemma cache_rpm_request_cases c state cmd :
  cache_rpm_request c state cmd = (- ENOMEM, c) /\ CMD_DB_MAX_RESOURCES <= Z.of_nat (length (non_batch_cache c)) \/
  Z.of_nat (length (non_batch_cache c)) < CMD_DB_MAX_RESOURCES /\
  exists l i q, l !! i = Some q /\ c_addr q = cmd_addr cmd /\
    (l = non_batch_cache c \/
     (cmd_addr cmd ∉ map c_addr (non_batch_cache c)) /\ q = mk_cache (cmd_addr cmd) UINT_MAX UINT_MAX /\
     i = length (non_batch_cache c) /\ l = non_batch_cache c ++ [q]) /\
    let q' := cache_update state (cmd_data cmd) q in
    cache_rpm_request c state cmd =
      (0, (c <| non_batch_cache := <[i := q']> l |>) <| dirty := dirty c || cache_dirties q q' |>).
Proof.
  unfold cache_rpm_request, get_non_batch_cache_req. set (l := non_batch_cache c).
  destruct (Z.leb_spec CMD_DB_MAX_RESOURCES (Z.of_nat (length l))); [by left|right]. split; [done|].
  destruct (cache_index l (cmd_addr cmd) 0) as [i|] eqn:E.
  - apply cache_index_Some in E as (_ & q & Hq & Ha). rewrite Nat.sub_0_r in Hq.
    exists l, i, q. split; [done|]. split; [done|]. split; [by left|]. fold l. rewrite Hq. rewrite <- Ha. by destruct q.
  - apply cache_index_None in E. set (q := mk_cache (cmd_addr cmd) UINT_MAX UINT_MAX).
    exists (l ++ [q]), (length l), q. assert ((l ++ [q]) !! length l = Some q) as Hq by (by apply list_lookup_middle).
    split; [done|]. split; [done|]. split; [by right|]. cbn [non_batch_cache set_field]. by rewrite Hq.
Qed.

(** The cached votes of an address. *)
Definition cache_lookup (l : list cache_req) (a : Z) : option cache_req := List.find (fun q => c_addr q =? a) l.

Lemma cache_lookup_insert l i q q' a :
  NoDup (map c_addr l) -> l !! i = Some q -> c_addr q' = c_addr q ->
  cache_lookup (<[i := q']> l) a = if a =? c_addr q then Some q' else cache_lookup l a.
Proof.
  unfold cache_lookup. revert i. induction l as [|x l IH]; intros i Hn Hl Ha; [done|].
  cbn [map] in Hn. apply NoDup_cons in Hn as [Hx Hn]. destruct i as [|i].
  - injection Hl as ->. change (<[0%nat := q']> (q :: l)) with (q' :: l). cbn [List.find]. rewrite Ha, (Z.eqb_sym a).
    by destruct (c_addr q =? a).
  - change (<[S i := q']> (x :: l)) with (x :: <[i := q']> l). cbn [List.find]. cbn in Hl.
    rewrite (IH i Hn Hl Ha). destruct (Z.eqb_spec (c_addr x) a) as [<-|]; [|done].
    destruct (Z.eqb_spec (c_addr x) (c_addr q)) as [E|]; [|done]. exfalso. apply Hx. rewrite E.
    change (map c_addr l) with (c_addr <$> l). apply list_elem_of_fmap. exists q. split; [done|]. by eapply list_elem_of_lookup_2.
Qed.

Lemma cache_lookup_at l i q :
  NoDup (map c_addr l) -> l !! i = Some q -> cache_lookup l (c_addr q) = Some q.
Proof.
  intros Hn Hl. pose proof (cache_lookup_insert l i q q (c_addr q) Hn Hl eq_refl) as E.
  by rewrite list_insert_id, Z.eqb_refl in E.
Qed.

Lemma cache_lookup_app l q a :
  cache_lookup (l ++ [q]) a =
  match cache_lookup l a with Some x => Some x | None => if c_addr q =? a then Some q else None end.
Proof. unfold cache_lookup. rewrite find_app. done. Qed.

Lemma cache_lookup_None l a : a ∉ map c_addr l -> cache_lookup l a = None.
Proof.
  unfold cache_lookup. induction l as [|x l IH]; [done|]. cbn [map List.find]. intros [H1 H2]%not_elem_of_cons.
  destruct (Z.eqb_spec (c_addr x) a); [congruence|auto].
Qed.

Lemma cache_rpm_request_ok c state cmd :
  client_ok c -> client_ok (snd (cache_rpm_request c state cmd)).
Proof.
  intros Hc. destruct (cache_rpm_request_cases c state cmd) as [[-> _]|(Hb & l & i & q & Hq & Ha & Hl & ->)]; [done|].
  cbv zeta. destruct Hc. split; try done; cbn [snd set_field non_batch_cache].
  - rewrite (map_addr_insert l i q) by (done || apply cache_update_addr).
    destruct Hl as [->|(Hn & -> & _ & ->)]; [done|]. rewrite map_app. apply NoDup_app.
    split; [done|]. split; [|apply NoDup_singleton]. intros x Hx Hy. apply list_elem_of_singleton in Hy. cbn in Hy. by subst.
  - rewrite length_insert. destruct Hl as [->|(_ & _ & _ & ->)]; [done|]. rewrite length_app. cbn [length]. lia.
Qed.

(** A vote that does not set the dirty flag changes nothing a flush writes. *)
Lemma cache_rpm_request_votes c state cmd ty :
  cmd_data cmd <> UINT_MAX ->
  let c' := snd (cache_rpm_request c state cmd) in
  dirty c' = false -> dirty c = false /\ votes c' ty = votes c ty.
Proof.
  intros Hd. cbv zeta.
  destruct (cache_rpm_request_cases c state cmd) as [[-> _]|(Hb & l & i & q & Hq & Ha & Hl & ->)]; [done|].
  cbv zeta. cbn [snd set_field dirty]. intros Hf. zbool. split; [done|].
  assert (valid_reqs (<[i := cache_update state (cmd_data cmd) q]> l) = valid_reqs (non_batch_cache c)) as V.
  { rewrite (valid_reqs_insert l i q) by (done || by apply cache_dirties_false).
    destruct Hl as [->|(_ & -> & _ & ->)]; [done|]. unfold valid_reqs. rewrite filter_app.
    change (filter _ [_]) with (@nil cache_req). by rewrite app_nil_r. }
  unfold votes. cbn [set_field non_batch_cache batch_sleep batch_wake]. by rewrite V.
Qed.

Lemma cache_all_ok c state cs : client_ok c -> client_ok (snd (cache_all c state cs)).
Proof.
  revert c. induction cs as [|cmd cs IH]; intros c Hc; cbn [cache_all]; [done|].
  pose proof (cache_rpm_request_ok c state cmd Hc) as H. destruct (cache_rpm_request c state cmd) as [ret c1].
  case_goal; auto.
Qed.

Lemma cache_all_ret c state cs :
  fst (cache_all c state cs) = 0 \/ fst (cache_all c state cs) = - ENOMEM.
Proof.
  revert c. induction cs as [|cmd cs IH]; intros c; cbn [cache_all]; [by left|].
  destruct (cache_rpm_request_cases c state cmd) as [[-> _]|(Hb & l & i & q & Hq & Ha & Hl & ->)]; [by right|].
  apply IH.
Qed.

Lemma cache_all_votes c state cs ty :
  Forall (fun cmd => cmd_data cmd <> UINT_MAX) cs ->
  let c' := snd (cache_all c state cs) in
  dirty c' = false -> dirty c = false /\ votes c' ty = votes c ty.
Proof.
  intros Hd. cbv zeta. revert c. induction Hd as [|cmd cs Hd Hcs IH]; intros c; cbn [cache_all]; [done|].
  pose proof (cache_rpm_request_votes c state cmd ty Hd) as H. cbv zeta in H.
  destruct (cache_rpm_request c state cmd) as [ret c1]. cbn [snd] in H.
  case_goal; [done|]. intros [E1 E2]%IH. destruct (H E1) as [? ?]. split; congruence.
Qed.

(** ** Lemmas: flushing *)

Section Flush.

Context `{BitmapLaws}.

(** [d'] holds what [d] holds and the pairs [f ty]. *)
Definition adds (d d' : rsc_drv) (chn : Z) (f : nat -> list (Z * Z)) : Prop :=
  forall ty a v, sleep_wake ty ->
    in_image d' (tcs_of d' chn ty) a v <-> in_image d (tcs_of d chn ty) a v \/ (a, v) ∈ f ty.

Lemma adds_trans d1 d2 d3 chn f g :
  adds d1 d2 chn f -> adds d2 d3 chn g -> adds d1 d3 chn (fun ty => f ty ++ g ty).
Proof. intros H1 H2 ty a v Hty. rewrite (H2 ty a v Hty), (H1 ty a v Hty), elem_of_app. tauto. Qed.

Lemma adds_ext d d' chn f g : (forall ty, sleep_wake ty -> f ty = g ty) -> adds d d' chn f -> adds d d' chn g.
Proof. intros E H1 ty a v Hty. rewrite (H1 ty a v Hty). by rewrite E. Qed.

Lemma adds_nil d chn : adds d d chn (fun _ => []).
Proof. intros ty a v _. rewrite elem_of_nil. tauto. Qed.

Definition msg_pairs (msg : tcs_request) (ty : nat) : list (Z * Z) :=
  if bool_decide (ty = type_of (msg_state msg)) then map cmd_pair (cmds msg) else [].

Lemma write_ctrl_adds d msg chn :
  chan_rep d chn -> msg_state msg <> RPMH_ACTIVE_ONLY_STATE \/ num_cmds msg = 0 -> Forall wait_flag (cmds msg) ->
  exists ret d', rpmh_rsc_write_ctrl_data d msg chn = Some (ret, d') /\ chan_rep d' chn /\
    (ret = - ENOMEM \/ ret = 0 /\ adds d d' chn (msg_pairs msg)).
Proof using H0.
  intros Hrep Hs Hw. destruct (write_ctrl_image d msg chn Hrep Hs Hw) as (ret & d' & E & R & [[-> ->]|[-> I]]).
  - exists (- ENOMEM), d. auto.
  - exists 0, d'. split; [done|]. split; [done|]. right. split; [done|]. intros ty a v Hty. rewrite (I ty a v Hty).
    unfold msg_pairs. case_bool_decide as Et.
    + change (map cmd_pair) with (fmap cmd_pair : list tcs_cmd -> list (Z * Z)). rewrite list_elem_of_fmap.
      unfold cmd_pair. split; (intros [?|X]; [by left|right]).
      * destruct X as (_ & cmd & Hc & <- & <-). eauto.
      * destruct X as (cmd & [= -> ->] & Hc). eauto.
    + rewrite elem_of_nil. tauto.
Qed.

Definition req_pairs (l : list cache_req) (ty : nat) : list (Z * Z) :=
  map (fun q => (u32 (c_addr q), u32 (if bool_decide (ty = SLEEP_TCS) then sleep_val q else wake_val q)))
    (valid_reqs l).

(** The pairs of one valid entry, written as two requests. *)
Lemma single_pairs p ty : sleep_wake ty ->
  msg_pairs (mk_msg RPMH_SLEEP_STATE (bool_decide (RPMH_SLEEP_STATE = RPMH_WAKE_ONLY_STATE))
    [mk_cmd (c_addr p) (sleep_val p) 0]) ty ++
  msg_pairs (mk_msg RPMH_WAKE_ONLY_STATE (bool_decide (RPMH_WAKE_ONLY_STATE = RPMH_WAKE_ONLY_STATE))
    [mk_cmd (c_addr p) (wake_val p) 0]) ty =
  [(u32 (c_addr p), u32 (if bool_decide (ty = SLEEP_TCS) then sleep_val p else wake_val p))].
Proof using. by intros [->| ->]. Qed.

Lemma flush_cache_adds d chn l :
  chan_rep d chn ->
  exists ret d', flush_cache d chn l = Some (ret, d') /\ chan_rep d' chn /\
    (ret = - ENOMEM \/ ret = 0 /\ adds d d' chn (req_pairs l)).
Proof using H0.
  revert d. induction l as [|p l IH]; intros d Hrep; cbn [flush_cache].
  { exists 0, d. split; [done|]. split; [done|]. right. split; [done|]. apply adds_nil. }
  assert (forall ty, req_pairs (p :: l) ty = (if is_req_valid p then
    [(u32 (c_addr p), u32 (if bool_decide (ty = SLEEP_TCS) then sleep_val p else wake_val p))] else []) ++ req_pairs l ty)
    as RP.
  { intros ty. unfold req_pairs, valid_reqs. rewrite filter_cons.
    destruct (is_req_valid p); [by rewrite decide_True|by rewrite decide_False]. }
  destruct (is_req_valid p) eqn:Ev; cbn [negb].
  2: { destruct (IH d Hrep) as (ret & d' & E & R & I). exists ret, d'. split; [done|]. split; [done|].
       destruct I as [?|[? I]]; [by left|right]. split; [done|]. revert I. apply adds_ext. intros ty _. by rewrite RP. }
  unfold send_single. set (m1 := mk_msg RPMH_SLEEP_STATE _ _). set (m2 := mk_msg RPMH_WAKE_ONLY_STATE _ _).
  assert (forall s b a v, Forall wait_flag (cmds (mk_msg s b [mk_cmd a v 0]))) as Wf
    by (intros; apply Forall_singleton; by left).
  destruct (write_ctrl_adds d m1 chn Hrep ltac:(by left) (Wf _ _ _ _)) as (r1 & d1 & -> & R1 & [->|[-> I1]]);
    [exists (- ENOMEM), d1; auto|]. cbn [truth negb Z.eqb].
  destruct (write_ctrl_adds d1 m2 chn R1 ltac:(by left) (Wf _ _ _ _)) as (r2 & d2 & -> & R2 & [->|[-> I2]]);
    [exists (- ENOMEM), d2; auto|]. cbn [truth negb Z.eqb].
  destruct (IH d2 R2) as (ret & d' & E & R & I). exists ret, d'. split; [done|]. split; [done|].
  destruct I as [?|[? I]]; [by left|right]. split; [done|].
  eapply adds_ext; [|exact (adds_trans _ _ _ _ _ _ (adds_trans _ _ _ _ _ _ I1 I2) I)].
  intros ty Hty. cbv beta. rewrite RP. f_equal. by apply single_pairs.
Qed.

Lemma flush_batch_adds d c chn :
  chan_rep d chn -> client_ok c ->
  exists ret d', flush_batch d c chn = Some (ret, d') /\ chan_rep d' chn /\
    (ret = - ENOMEM \/ ret = 0 /\ adds d d' chn (fun ty =>
      if bool_decide (ty = SLEEP_TCS) then map cmd_pair (cmds (batch_sleep c)) else map cmd_pair (cmds (batch_wake c)))).
Proof using H0.
  intros Hrep []. destruct cc_flags0 as [Wf1 Wf2]. unfold flush_batch.
  destruct (write_ctrl_adds d (batch_sleep c) chn Hrep) as (r1 & d1 & -> & R1 & [->|[-> I1]]);
    [left; by rewrite cc_sleep0|done|exists (- ENOMEM), d1; auto|]. cbn [truth negb Z.eqb].
  destruct (write_ctrl_adds d1 (batch_wake c) chn R1) as (r2 & d2 & -> & R2 & I2);
    [destruct cc_wake0 as [E|E]; [left; by rewrite E|right; unfold num_cmds; by rewrite E]|done|].
  exists r2, d2. split; [done|]. split; [done|]. destruct I2 as [->|[-> I2]]; [by left|right]. split; [done|].
  eapply adds_ext; [|exact (adds_trans _ _ _ _ _ _ I1 I2)]. intros ty Hty. cbv beta. unfold msg_pairs.
  rewrite cc_sleep0.
  destruct Hty as [->| ->], cc_wake0 as [->| ->]; cbn [type_of map]; repeat case_bool_decide;
    rewrite ?app_nil_r; done.
Qed.

Lemma next_wakeup_none d chn b k : chan_rep d chn -> rpmh_rsc_write_next_wakeup d b k = d.
Proof using. intros Hr. unfold rpmh_rsc_write_next_wakeup. by rewrite (cr_control _ _ Hr). Qed.

(** The flush of a channel, whatever the client holds. *)
Lemma flush_cases s chn w :
  rpmh_standalone s = false -> chan_rep (drv s) chn -> client_ok (client s) ->
  exists ret s', rpmh_flush s chn w = Some (ret, s') /\ chan_rep (drv s') chn /\ rpmh_standalone s' = false /\
    (dirty (client s) = false /\ ret = 0 /\ s' = s \/
     dirty (client s) = true /\ ret = - ENOMEM /\ client s' = client s \/
     dirty (client s) = true /\ ret = 0 /\ client s' = (client s) <| dirty := false |> /\ synced s' chn).
Proof using H0.
  intros Hs Hrep Hc. unfold rpmh_flush. rewrite Hs. unfold _rpmh_flush. cbv zeta.
  destruct (dirty (client s)) eqn:Ed; cbn [negb].
  2: { rewrite (next_wakeup_none _ chn) by done. exists 0, s. split; [by destruct s|]. auto 10. }
  destruct (invalidate_image (drv s) chn Hrep) as [R0 E0].
  destruct (flush_batch_adds _ _ chn R0 Hc) as (r1 & d1 & -> & R1 & [->|[-> I1]]).
  { exists (- ENOMEM), (s <| drv := d1 |>). auto 10. }
  cbn [truth negb Z.eqb].
  destruct (flush_cache_adds d1 chn (non_batch_cache (client s)) R1) as (r2 & d2 & -> & R2 & [->|[-> I2]]).
  { exists (- ENOMEM), (s <| drv := d2 |>). auto 10. }
  cbn [truth negb Z.eqb]. rewrite (next_wakeup_none _ chn) by done.
  eexists _, _. split; [reflexivity|]. split; [done|]. split; [done|]. right. right. split; [done|]. split; [done|].
  split; [done|]. intros ty a v Hty. cbn [drv client].
  rewrite (adds_trans _ _ _ _ _ _ I1 I2 ty a v Hty). pose proof (E0 ty a v Hty) as N. cbv zeta in N.
  assert (votes ((client s) <| dirty := false |>) ty = votes (client s) ty) as -> by done.
  unfold votes, req_pairs. case_bool_decide; tauto.
Qed.

End Flush.

(** ** The operations on votes, as steps *)

Section Steps.

Context `{BitmapLaws} (MAX_RPMH_PAYLOAD chn : Z).

(** A command carries a vote that the cache can represent: UINT_MAX is its
    mark for a vote that is not given. *)
Definition vote_ok (c : tcs_cmd) : Prop := cmd_data c <> UINT_MAX /\ wait_flag c.

Definition votes_given (cmd : option (list tcs_cmd)) : Prop :=
  match cmd with
  | None => True
  | Some cs => Forall vote_ok cs
  end.

(** Active requests have TCSes of their own. *)
Definition own_active (s : rpmh) : Prop := active_apart (drv s) chn MAX_RPMH_PAYLOAD.

Definition allowed (s : rpmh) (state : rpmh_state) : Prop := state = RPMH_ACTIVE_ONLY_STATE -> own_active s.

(** The interrupts of a wait are those of other TCSes than the sleep and wake
    ones. *)
Definition irqs_ok (s : rpmh) (l : list Z) : Prop := l <> [] -> own_active s /\ Forall (irq_apart (drv s) chn) l.

(** One step: a whole call, in any of the three states; the two halves of an
    active call that waits for a TCS in between; an interrupt; a change of
    solver mode; a flush. *)
Inductive vote_step : rpmh -> rpmh -> Prop :=
| vs_async s e state cmd n ret s' :
    allowed s state -> votes_given cmd ->
    rpmh_write_async MAX_RPMH_PAYLOAD s e state cmd n = Returns ret s' -> vote_step s s'
| vs_write s e k state cmd n ret s' :
    allowed s state -> votes_given cmd -> irqs_ok s (irqs e) ->
    rpmh_write MAX_RPMH_PAYLOAD s e k state cmd n = Returns ret s' -> vote_step s s'
| vs_batch s e k state cmd n ret s' :
    allowed s state -> votes_given cmd -> irqs_ok s (irqs e) ->
    rpmh_write_batch MAX_RPMH_PAYLOAD s e k state cmd n = Returns ret s' -> vote_step s s'
| vs_cached s state cs :
    Forall vote_ok cs -> vote_step s (s <| client := snd (cache_all (client s) state cs) |>)
| vs_sent s req pl c sts ret d :
    own_active s -> msg_state (req_msg req) = RPMH_ACTIVE_ONLY_STATE -> Forall vote_ok (cmds (req_msg req)) ->
    num_cmds (req_msg req) <= MAX_RPMH_PAYLOAD -> rpmh_rsc_get_channel (drv s) pl = Some c -> 0 <= c ->
    rpmh_rsc_send_data (drv s) req c sts = Some (ret, d) -> vote_step s (s <| drv := d |>)
| vs_irq s st d :
    own_active s -> irq_apart (drv s) chn st -> tcs_tx_done (drv s) st = Some d -> vote_step s (s <| drv := d |>)
| vs_invalidate s : vote_step s (rpmh_invalidate s)
| vs_solver s lock enable : vote_step s (snd (rpmh_mode_solver_set s lock enable))
| vs_flush s w ret s' : rpmh_flush s chn w = Some (ret, s') -> vote_step s s'.

(** The invariant: whenever the dirty flag is clear, the TCSes hold exactly
    the votes of the client. *)
Record coherent (s : rpmh) : Prop := {
  co_standalone : rpmh_standalone s = false;
  co_rep : chan_rep (drv s) chn;
  co_client : client_ok (client s);
  co_synced : dirty (client s) = false -> synced s chn;
}.

(** A channel as probe leaves it: no slot taken, and a client without votes. *)
Record fresh (s : rpmh) : Prop := {
  fr_standalone : rpmh_standalone s = false;
  fr_rep : chan_rep (drv s) chn;
  fr_slots : forall ty, sleep_wake ty -> tg_slots (tcs_of (drv s) chn ty) = 0;
  fr_clean : dirty (client s) = false;
  fr_batch : batch_sleep (client s) = zero_msg /\ batch_wake (client s) = zero_msg;
  fr_cache : non_batch_cache (client s) = [];
}.

Lemma fresh_coherent s : fresh s -> coherent s.
Proof using.
  intros [Hs R Sl _ [B1 B2] Ca]. split; [done|done| |].
  - split; rewrite ?B1, ?B2, ?Ca; [apply NoDup_nil_2|done|done|by right|by split].
  - intros _ ty a v Hty. assert (votes (client s) ty = []) as ->
      by (unfold votes; rewrite B1, B2, Ca; by case_bool_decide).
    rewrite elem_of_nil. split; [|done]. intros (t & p & Ht & Hp & He & _). unfold in_group in Ht.
    pose proof (cr_slots _ _ R ty (t - tg_offset (tcs_of (drv s) chn ty)) p Hty ltac:(lia) Hp) as E.
    rewrite Sl, Z.bits_0 in E by done. enough (false = true) by done. apply E.
    by replace (tg_offset (tcs_of (drv s) chn ty) + (t - tg_offset (tcs_of (drv s) chn ty))) with t by lia.
Qed.

Lemma synced_ext s s' :
  synced s chn ->
  (forall ty a v, sleep_wake ty -> in_image (drv s') (tcs_of (drv s') chn ty) a v <->
     in_image (drv s) (tcs_of (drv s) chn ty) a v) ->
  (forall ty, sleep_wake ty -> votes (client s') ty = votes (client s) ty) -> synced s' chn.
Proof using. intros Hs Hi Hv ty a v Hty. rewrite Hi, Hv by done. by apply Hs. Qed.

(** Same registers and configuration, votes equal unless the flag is set. *)
Lemma coherent_client s s' :
  coherent s -> rpmh_standalone s' = false ->
  (chan_rep (drv s) chn -> chan_rep (drv s') chn) ->
  (forall ty a v, in_image (drv s') (tcs_of (drv s') chn ty) a v <-> in_image (drv s) (tcs_of (drv s) chn ty) a v) ->
  client_ok (client s') ->
  (forall ty, dirty (client s') = false -> dirty (client s) = false /\ votes (client s') ty = votes (client s) ty) ->
  coherent s'.
Proof using.
  intros [] Hst Hr Hi Hc Hv. split; [done|auto|done|]. intros Hd.
  apply (synced_ext s); [by apply co_synced0, (Hv 0%nat)|auto|]. intros ty _. by apply Hv.
Qed.

(** Work on other TCSes. *)
Lemma coherent_keeps s d : coherent s -> keeps chn (drv s) d -> coherent (s <| drv := d |>).
Proof using.
  intros Hco K. pose proof (keeps_view _ _ _ K (co_rep _ Hco)) as [R I]. destruct Hco. split; [done..|].
  intros Hd ty a v Hty. cbn [drv client set_field]. rewrite I by done. by apply co_synced0.
Qed.

(** Caching votes. *)
Lemma coherent_cached s state cs :
  coherent s -> Forall vote_ok cs -> coherent (s <| client := snd (cache_all (client s) state cs) |>).
Proof using.
  intros Hco Hv. pose proof (cache_all_ok (client s) state cs (co_client _ Hco)) as Ok.
  pose proof (fun ty => cache_all_votes (client s) state cs ty (Forall_impl _ _ _ Hv (fun c Hc => proj1 Hc))) as V.
  apply (coherent_client s); try done. exact (co_standalone _ Hco).
Qed.

Lemma get_channel_serves d pl c : rpmh_rsc_get_channel d pl = Some c -> 0 <= c -> serves d c.
Proof using.
  unfold serves. induction pl as [|[u b] pl IH]; cbn [rpmh_rsc_get_channel];
    (destruct (num_channels d =? 1); [by intros [= <-]|]); [done|].
  case_goal; [done|]. unfold CH0, CH1. case_goal; [intros [= <-]; auto|]. case_goal; [intros [= <-]; auto|].
  intros [= <-]. unfold EBUSY. lia.
Qed.

Lemma run_irqs_keeps d l d' :
  chan_rep d chn -> (l <> [] -> active_apart d chn MAX_RPMH_PAYLOAD /\ Forall (irq_apart d chn) l) ->
  run_irqs d l = Some d' -> keeps chn d d'.
Proof using.
  revert d. induction l as [|st l IH]; intros d Hrep Hi; cbn [run_irqs]; [intros [= <-]; apply keeps_refl|].
  destruct (tcs_tx_done d st) as [d1|] eqn:E; [|done]. destruct (Hi ltac:(done)) as [Ha Hl].
  apply Forall_cons in Hl as [Hst Hl]. pose proof (cr_channel _ _ Hrep) as Hc.
  pose proof (tx_done_keeps _ _ _ _ Hrep (ap_clear _ _ _ Ha) Hst E) as K. intros E'.
  eapply keeps_trans; [done|done|]. apply IH; [by apply (keeps_view _ _ _ K)| |done].
  intros _. split; [by eapply keeps_active|]. eapply Forall_impl; [exact Hl|]. intros x. by apply irq_apart_keeps.
Qed.

Lemma fill_ok m state cmd n ret m' :
  votes_given cmd -> __fill_rpmh_msg MAX_RPMH_PAYLOAD m state cmd n = (ret, m') ->
  truth ret = true /\ m' = m \/
  msg_state m' = state /\ Forall vote_ok (cmds m') /\ num_cmds m' <= Z.max 0 MAX_RPMH_PAYLOAD.
Proof using.
  destruct cmd as [cs|]; cbn [__fill_rpmh_msg]; [|intros _ [= <- <-]; by left].
  intros Hv. case_goal; intros [= <- <-]; [by left|right].
  split; [done|]. split; [by apply Forall_take|]. unfold num_cmds. cbn [cmds]. rewrite length_take. zbool. lia.
Qed.

(** Sending an active request, as the callers do it. *)
Lemma coherent_sent s req pl c sts ret d :
  coherent s -> own_active s -> msg_state (req_msg req) = RPMH_ACTIVE_ONLY_STATE ->
  Forall vote_ok (cmds (req_msg req)) -> num_cmds (req_msg req) <= MAX_RPMH_PAYLOAD ->
  rpmh_rsc_get_channel (drv s) pl = Some c -> 0 <= c ->
  rpmh_rsc_send_data (drv s) req c sts = Some (ret, d) -> keeps chn (drv s) d.
Proof using H0.
  intros Hco Ha Hst Hv Hn Hg Hc E. eapply send_keeps; [by apply co_rep|exact Ha| |exact Hst| |exact Hn|exact E].
  - by eapply get_channel_serves.
  - eapply Forall_impl; [exact Hv|]. by intros ? [].
Qed.

Lemma rpmh_write_coherent s e state req ret s' :
  coherent s -> allowed s state -> msg_state (req_msg req) = state ->
  Forall vote_ok (cmds (req_msg req)) -> num_cmds (req_msg req) <= Z.max 0 MAX_RPMH_PAYLOAD ->
  __rpmh_write s e state req = Returns ret s' ->
  coherent s' /\ keeps chn (drv s) (drv s').
Proof using H0.
  intros Hco Hal Hst Hv Hn. unfold __rpmh_write.
  pose proof (coherent_cached s state (cmds (req_msg req)) Hco Hv) as Hc1.
  destruct (cache_all (client s) state (cmds (req_msg req))) as [r c1]. cbn [snd] in Hc1.
  case_goal; [intros [= <- <-]; split; [done|apply keeps_refl]|]. cbn [drv set_field].
  case_bool_decide as Ea.
  - destruct (rpmh_rsc_get_channel (drv s) (polls e)) as [c|] eqn:Eg; [|done].
    case_goal; [intros [= <- <-]; split; [done|apply keeps_refl]|].
    destruct (rpmh_rsc_send_data (drv s) req c (sts e)) as [[r2 d]|] eqn:Es; [|done]. intros [= <- <-]. zbool.
    pose proof (ap_fits _ _ _ (Hal Ea)) as [? _].
    assert (keeps chn (drv s) d) as K
      by (apply (coherent_sent s req (polls e) c (sts e) r2); [done|by apply Hal|congruence|done|lia|done..]).
    split; [|done]. exact (coherent_keeps _ _ Hc1 K).
  - intros [= <- <-]. cbn [drv set_field]. assert (keeps chn (drv s) (rpmh_tx_done (drv s) req)) as K
      by (apply keeps_same; unfold rpmh_tx_done; by case_goal).
    split; [|done]. exact (coherent_keeps _ _ Hc1 K).
Qed.

Lemma set_batch_ok c state m :
  client_ok c -> state <> RPMH_ACTIVE_ONLY_STATE ->
  m = zero_msg \/ msg_state m = state /\ Forall wait_flag (cmds m) ->
  client_ok ((set_batch c state m) <| dirty := true |>).
Proof using.
  intros [] Hs Hm. destruct cc_flags0. destruct Hm as [->|[Hm Hw]]; destruct state; try done;
    split; try done; cbn; auto; split; auto; constructor.
Qed.

Lemma set_batch_twice c state m m' : set_batch (set_batch c state m) state m' = set_batch c state m'.
Proof using. by destruct state. Qed.

Lemma batch_of_set c state m : batch_of (set_batch c state m) state = m.
Proof using. by destruct state. Qed.

Lemma irqs_ok_keeps s d l : coherent s -> keeps chn (drv s) d -> irqs_ok s l ->
  l <> [] -> active_apart d chn MAX_RPMH_PAYLOAD /\ Forall (irq_apart d chn) l.
Proof using.
  intros Hco K Hi Hl. destruct (Hi Hl) as [Ha Hf]. pose proof (cr_channel _ _ (co_rep _ Hco)) as Hc.
  split; [by eapply keeps_active|]. eapply Forall_impl; [exact Hf|]. intros x. by apply irq_apart_keeps.
Qed.

Lemma write_coherent s e k state cmd n ret s' :
  coherent s -> allowed s state -> votes_given cmd -> irqs_ok s (irqs e) ->
  rpmh_write MAX_RPMH_PAYLOAD s e k state cmd n = Returns ret s' -> coherent s'.
Proof using H0.
  intros Hco Hal Hv Hi. unfold rpmh_write. rewrite (co_standalone _ Hco). cbv zeta.
  destruct (__fill_rpmh_msg _ _ _ _ _) as [r m] eqn:Ef. case_goal; [by intros [= <- <-]|].
  case_goal; [by intros [= <- <-]|]. apply fill_ok in Ef as [[Hr _]|(F1 & F2 & F3)]; [congruence| |done].
  destruct (__rpmh_write _ _ _ _) as [r1 s1| | |] eqn:E; try done.
  apply rpmh_write_coherent in E as [Hco1 K]; [|done..].
  case_goal; [by intros [= <- <-]|]. destruct (run_irqs (drv s1) (irqs e)) as [d|] eqn:Er; [|done].
  apply run_irqs_keeps in Er; [|by apply co_rep|by apply irqs_ok_keeps with s].
  pose proof (coherent_keeps _ _ Hco1 Er).
  case_goal; [case_goal; [done|]|]; by intros [= <- <-].
Qed.

Lemma batch_active_coherent s e k cmd n ret s' :
  coherent s -> own_active s -> votes_given cmd -> irqs_ok s (irqs e) ->
  rpmh_write_batch MAX_RPMH_PAYLOAD s e k RPMH_ACTIVE_ONLY_STATE cmd n = Returns ret s' -> coherent s'.
Proof using H0.
  intros Hco Ha Hv Hi. unfold rpmh_write_batch. rewrite (co_standalone _ Hco). cbv zeta.
  rewrite bool_decide_true by done.
  destruct (__fill_rpmh_msg _ _ _ _ _) as [r m] eqn:Ef. case_goal; [by intros [= <- <-]|].
  case_goal; [by intros [= <- <-]|]. apply fill_ok in Ef as [[Hr _]|(F1 & F2 & F3)]; [congruence| |done].
  destruct (rpmh_rsc_get_channel (drv s) (polls e)) as [c|] eqn:Eg; [|done]. case_goal; [by intros [= <- <-]|].
  destruct (rpmh_rsc_send_data _ _ _ _) as [[r1 d]|] eqn:Es; [|done]. zbool.
  pose proof (ap_fits _ _ _ Ha) as [? _].
  assert (keeps chn (drv s) d) as K 
    by (apply (coherent_sent s (mk_req m (Some k)) (polls e) c (sts e) r1); [done..|cbn; lia|done|lia|done]).
  pose proof (coherent_keeps _ _ Hco K) as Hco1. case_goal; [by intros [= <- <-]|].
  destruct (run_irqs d (irqs e)) as [d2|] eqn:Er; [|done].
  apply run_irqs_keeps in Er; [|exact (co_rep _ Hco1)|by apply irqs_ok_keeps with s].
  case_goal; [done|]. intros [= <- <-]. exact (coherent_keeps _ _ Hco1 Er).
Qed.

Lemma batch_coherent s e k state cmd n ret s' :
  coherent s -> state <> RPMH_ACTIVE_ONLY_STATE -> votes_given cmd ->
  rpmh_write_batch MAX_RPMH_PAYLOAD s e k state cmd n = Returns ret s' -> coherent s'.
Proof using.
  intros Hco Hst Hv. pose proof (co_standalone _ Hco) as Hs. unfold rpmh_write_batch. rewrite Hs.
  cbv zeta. unfold check_ctrlr_state. rewrite (bool_decide_false (state = RPMH_ACTIVE_ONLY_STATE)) by done.
  cbn [negb truth Z.eqb]. rewrite batch_of_set.
  destruct (__fill_rpmh_msg MAX_RPMH_PAYLOAD zero_msg state cmd n) as [r m] eqn:Ef. apply fill_ok in Ef; [|done].
  rewrite set_batch_twice. intros [= <- <-]. destruct Hco. split; cbn [drv client rpmh_standalone set_field]; [done..| |done].
  apply (set_batch_ok (client s)); [done|done|]. destruct Ef as [[_ ->]|(? & F & _)]; [by left|right]. split; [done|].
  eapply Forall_impl; [exact F|]. by intros ? [_ ?].
Qed.

Lemma vote_step_coherent s s' : vote_step s s' -> coherent s -> coherent s'.
Proof using H0.
  intros St Hco. pose proof (co_standalone _ Hco) as Hs.
  destruct St as [s e state cmd n ret s' Hst Hv E|s e k state cmd n ret s' Hst Hv Hi E|
    s e k state cmd n ret s' Hst Hv Hi E|s state cs Hv|s req pl c sts ret d Ha Hm Hv Hn Hg Hc E|s st d Ha Hi E|
    s|s lock enable|s w ret s' E].
  - revert E. unfold rpmh_write_async. rewrite Hs. cbv zeta.
    destruct (__fill_rpmh_msg _ _ _ _ _) as [r m] eqn:Ef. case_goal; [by intros [= <- <-]|].
    case_goal; [by intros [= <- <-]|]. apply fill_ok in Ef as [[Hr _]|(F1 & F2 & F3)]; [congruence| |done].
    intros E. by eapply rpmh_write_coherent in E as [? _].
  - by eapply write_coherent.
  - destruct (decide (state = RPMH_ACTIVE_ONLY_STATE)) as [->|Hne]; [|by eapply batch_coherent].
    eapply batch_active_coherent; [done|by apply Hst|done..].
  - by apply coherent_cached.
  - apply coherent_keeps; [done|]. by eapply coherent_sent.
  - apply coherent_keeps; [done|]. eapply tx_done_keeps; [by apply co_rep|by eapply ap_clear|done|done].
  - unfold rpmh_invalidate. rewrite Hs. cbv zeta. destruct Hco as [? ? []]. destruct cc_flags0.
    split; cbn [drv client rpmh_standalone set_field]; [done..| |done].
    split; [done|done|done|by right|]. split; constructor.
  - unfold rpmh_mode_solver_set. rewrite Hs. case_goal; [done|].
    unfold rpmh_rsc_mode_solver_set. destruct (lock && _); cbn [Z.eqb snd]; [|by destruct s].
    destruct Hco as [? ? []]. set (d' := (drv s) <| in_solver_mode := enable |>).
    destruct (view_ext (drv s) d' chn eq_refl eq_refl eq_refl eq_refl eq_refl eq_refl) as [R I].
    split; cbn [drv client rpmh_standalone set_field]; [done|by apply R|by split|].
    intros Hd. apply (synced_ext s); [by apply co_synced0|intros; by apply I|done].
  - destruct (flush_cases s chn w Hs (co_rep _ Hco) (co_client _ Hco)) as (ret' & s1 & E' & R & Hs1 & C).
    rewrite E' in E. injection E as <- <-. destruct Hco.
    destruct C as [(_ & _ & ->)|[(Hd & _ & Ec)|(_ & _ & Ec & Sy)]]; [by split| |].
    + split; [done|done|by rewrite Ec|]. rewrite Ec. congruence.
    + split; [done|done| |done]. rewrite Ec. by destruct co_client0.
Qed.

(** ** Properties *)

(** C1. Flushing a channel always ends and keeps the representation of the
    channel. A clean client writes nothing. A dirty client either runs out of
    TCS space, and stays dirty, or succeeds: then it is clean and the enabled
    commands of the sleep and of the wake group are exactly the votes it
    holds, batch and cached. *)
Theorem rpmh_flush_writes_votes (s : rpmh) (w : wakeup) :
  rpmh_standalone s = false -> chan_rep (drv s) chn -> client_ok (client s) ->
  exists ret s', rpmh_flush s chn w = Some (ret, s') /\ chan_rep (drv s') chn /\
    (dirty (client s) = false -> ret = 0 /\ s' = s) /\
    (dirty (client s) = true -> ret = 0 -> dirty (client s') = false /\ synced s' chn) /\
    (dirty (client s) = true -> ret <> 0 -> ret = - ENOMEM /\ client s' = client s).
Proof using H0.
  intros Hs Hr Hc. destruct (flush_cases s chn w Hs Hr Hc) as (ret & s' & E & R & _ & C).
  exists ret, s'. split; [done|]. split; [done|].
  destruct C as [(D & -> & ->)|[(D & -> & Ec)|(D & -> & Ec & Sy)]]; rewrite D; (split; [|split]); try done.
  intros _ _. by rewrite Ec.
Qed.

(** C6. In every state reached from a freshly probed channel by any sequence
    of the steps of [vote_step], a clear dirty flag means that the sleep and
    wake TCSes of the channel hold exactly the votes of the client: a flush
    that is skipped would have written nothing new. The steps are votes in the
    three states (stored, batched or sent), the completion interrupts, dropped
    batches, switches of solver mode and flushes of this one channel, and they
    assume that no vote is UINT_MAX, that active requests are made where every
    channel has an active group of its own, and that no completion interrupt
    names a sleep or wake TCS. Where active requests borrow a wake TCS the
    property fails ([borrowed_wake_tcs_loses_votes]). *)
Theorem dirty_flag_sound (s0 s : rpmh) :
  fresh s0 -> rtc vote_step s0 s -> dirty (client s) = false -> synced s chn.
Proof using H0.
  intros Hf Hr. apply co_synced. apply fresh_coherent in Hf.
  induction Hr as [|s0 s1 s St _ IH]; [done|]. apply IH. by eapply vote_step_coherent.
Qed.

(** A vote for sleep or wake never touches the registers: it is cached
    and the completion, if any, is signalled at once. *)
Theorem sleep_wake_votes_stay_local (s : rpmh) (e : env) (state : rpmh_state) (req : rpmh_request) :
  state <> RPMH_ACTIVE_ONLY_STATE ->
  exists ret s', __rpmh_write s e state req = Returns ret s' /\
    mmio (drv s') = mmio (drv s) /\ ch (drv s') = ch (drv s) /\ tcs_in_use (drv s') = tcs_in_use (drv s) /\
    client s' = snd (cache_all (client s) state (cmds (req_msg req))) /\
    (ret = 0 -> forall k, req_completion req = Some k -> completed (drv s') = completed (drv s) ++ [k]).
Proof using.
  intros Hst. unfold __rpmh_write. pose proof (cache_all_ret (client s) state (cmds (req_msg req))) as Rt.
  destruct (cache_all (client s) state (cmds (req_msg req))) as [r c1]. cbn [fst] in Rt.
  rewrite (bool_decide_false (state = RPMH_ACTIVE_ONLY_STATE)) by done.
  destruct Rt as [->| ->]; cbn [truth Z.eqb negb Z.opp].
  - eexists _, _. split; [reflexivity|]. cbn [drv client set_field]. unfold rpmh_tx_done.
    destruct (req_completion req) as [k'|]; repeat split; try done. by intros _ k [= <-].
  - eexists _, _. split; [reflexivity|]. repeat split; try done.
Qed.

End Steps.

(** Caching a vote: as long as the array is not full the call succeeds,
    stores the vote in the half of the entry its state selects, leaves the
    other half (or the mark that it is not given) and every other entry as
    they are, and keeps one entry per address within the array. *)
Theorem cache_request_lookup (c : rpmh_ctrlr) (state : rpmh_state) (cmd : tcs_cmd) :
  client_ok c -> Z.of_nat (length (non_batch_cache c)) < CMD_DB_MAX_RESOURCES ->
  let r := cache_rpm_request c state cmd in
  fst r = 0 /\ client_ok (snd r) /\
  forall a, cache_lookup (non_batch_cache (snd r)) a =
    if a =? cmd_addr cmd
    then Some (cache_update state (cmd_data cmd)
           (default (mk_cache a UINT_MAX UINT_MAX) (cache_lookup (non_batch_cache c) a)))
    else cache_lookup (non_batch_cache c) a.
Proof.
  intros Hc Hb. cbv zeta. pose proof (cache_rpm_request_ok c state cmd Hc) as Ok.
  destruct (cache_rpm_request_cases c state cmd) as [[_ ?]|(_ & l & i & q & Hq & Ha & Hl & E)]; [lia|].
  cbv zeta in E. rewrite E in *. split; [done|]. split; [done|]. intros a. cbn [snd set_field non_batch_cache].
  destruct Hc. assert (NoDup (map c_addr l)) as Hn.
  { destruct Hl as [->|(Hn & -> & _ & ->)]; [done|]. rewrite map_app. apply NoDup_app.
    split; [done|]. split; [|apply NoDup_singleton]. intros x Hx Hy. apply list_elem_of_singleton in Hy. cbn in Hy. by subst. }
  rewrite (cache_lookup_insert l i q) by (done || apply cache_update_addr). rewrite Ha.
  destruct Hl as [->|(Hni & -> & -> & ->)].
  - destruct (Z.eqb_spec a (cmd_addr cmd)) as [->|]; [|done]. rewrite <- Ha. by rewrite (cache_lookup_at _ i q).
  - destruct (Z.eqb_spec a (cmd_addr cmd)) as [->|]; [by rewrite cache_lookup_None|].
    rewrite cache_lookup_app. cbn [c_addr]. destruct (cache_lookup _ a); [done|].
    destruct (Z.eqb_spec (cmd_addr cmd) a); [congruence|done].
Qed.

(** Once the array is full no vote is taken any more, not even for an
    address that already has an entry: every caching call answers -ENOMEM and
    changes nothing. *)
Theorem cache_full_refuses_all (c : rpmh_ctrlr) (state : rpmh_state) (cmd : tcs_cmd) :
  CMD_DB_MAX_RESOURCES <= Z.of_nat (length (non_batch_cache c)) ->
  cache_rpm_request c state cmd = (- ENOMEM, c).
Proof.
  intros Hb. destruct (cache_rpm_request_cases c state cmd) as [[? _]|(? & _)]; [done|lia].
Qed.

(** While the controller is in solver mode no active vote gets through:
    each of the three write calls answers -EBUSY before it looks at its
    arguments and changes nothing. *)
Theorem solver_mode_rejects_active `{BitmapOps} (MAX_RPMH_PAYLOAD : Z) (s : rpmh) (e : env) (k : Z)
  (cmd : option (list tcs_cmd)) (n : Z) :
  rpmh_standalone s = false -> Z.land (flags (client s)) SOLVER_PRESENT <> 0 -> c_solver_mode (client s) = true ->
  rpmh_write_async MAX_RPMH_PAYLOAD s e RPMH_ACTIVE_ONLY_STATE cmd n = Returns (- EBUSY) s /\
  rpmh_write MAX_RPMH_PAYLOAD s e k RPMH_ACTIVE_ONLY_STATE cmd n = Returns (- EBUSY) s /\
  rpmh_write_batch MAX_RPMH_PAYLOAD s e k RPMH_ACTIVE_ONLY_STATE cmd n = Returns (- EBUSY) s.
Proof.
  intros Hs Hf Hm.
  assert (check_ctrlr_state (client s) RPMH_ACTIVE_ONLY_STATE = - EBUSY) as E.
  { unfold check_ctrlr_state, truth. rewrite Hm. by rewrite (proj2 (Z.eqb_neq _ _) Hf). }
  unfold rpmh_write_async, rpmh_write, rpmh_write_batch. rewrite Hs, E. done.
Qed.

(** ** A concrete client: one resource with different sleep and wake votes
    and a batch of one sleep command, on the controller of RpmhRsc.v. *)

Definition demo_client (b : bool) : rpmh_ctrlr :=
  mk_ctrlr b true SOLVER_PRESENT (mk_msg RPMH_SLEEP_STATE false [mk_cmd 327936 5 0]) zero_msg
    [mk_cache 262400 1 2].

Definition demo_rpmh (b : bool) : rpmh := mk_rpmh demo_drv (demo_client b) false.

Definition demo_env : env := mk_env [] (fun _ => 1) [] true.

Lemma demo_client_ok b : client_ok (demo_client b).
Proof.
  split; cbn; [apply NoDup_singleton|unfold CMD_DB_MAX_RESOURCES; lia|done|by right|].
  split; [|constructor]. apply Forall_singleton. by left.
Qed.

Lemma demo_not_enabled t p : 0 <= t -> ~ enabled demo_drv t p.
Proof.
  intros Ht. unfold enabled, read_tcs_reg, readl. rewrite tcs_reg_addr_stride.
  replace (tcs_base demo_drv) with 3328 by (by vm_compute). replace (stride demo_drv) with 672 by (by vm_compute).
  replace (regs demo_drv RSC_DRV_CMD_ENABLE) with 44 by (by vm_compute).
  change (mmio demo_drv) with (upd (upd (fun _ => 0) 12 2147483663) 3328 (mmio demo_drv 3328)).
  rewrite !upd_ne by lia. by rewrite Z.bits_0.
Qed.

Lemma demo_chan_rep : chan_rep demo_drv 0.
Proof.
  split; [apply demo_shape|lia|apply tables_layout| |by vm_compute| |].
  - intros ty [->| ->]; vm_compute; intuition congruence.
  - intros x. unfold in_group. replace (tg_offset (tcs_of demo_drv 0 SLEEP_TCS)) with 2 by (by vm_compute).
    replace (tg_num_tcs (tcs_of demo_drv 0 SLEEP_TCS)) with 3 by (by vm_compute).
    replace (tg_offset (tcs_of demo_drv 0 WAKE_TCS)) with 5 by (by vm_compute). lia.
  - intros ty k p Hty Hk Hp He. exfalso. revert He. apply demo_not_enabled.
    destruct Hty as [->| ->]; [replace (tg_offset _) with 2 by (by vm_compute)|
      replace (tg_offset _) with 5 by (by vm_compute)]; lia.
Qed.

Lemma rpmh_flush_writes_votes_witness :
  exists s', rpmh_flush (demo_rpmh true) 0 (false, 0) = Some (0, s') /\ dirty (client s') = false /\
    in_image (drv s') (tcs_of (drv s') 0 WAKE_TCS) 262400 2.
Proof.
  destruct (rpmh_flush_writes_votes (H := bitmap_linear) 0 (demo_rpmh true) (false, 0))
    as (ret & s' & E & _ & _ & Ok & _).
  - reflexivity.
  - apply demo_chan_rep.
  - apply demo_client_ok.
  - assert (ret = 0) as ->.
    { clear -E. apply (f_equal (fun o => match o with Some (r, _) => r | None => 1 end)) in E. by vm_compute in E. }
    assert (client s' = demo_client false) as Ec.
    { clear -E. apply (f_equal (fun o => match o with Some (_, x) => client x | None => demo_client true end)) in E.
      by vm_compute in E. }
    exists s'. split; [exact E|]. destruct (Ok eq_refl eq_refl) as [D Sy]. split; [exact D|].
    apply Sy; [by right|]. rewrite Ec. vm_compute. left.
Defined.

Lemma demo_apart t : t < 2 -> apart demo_drv 0 t.
Proof.
  intros Ht ty [->| ->]; unfold in_group; [replace (tg_offset _) with 2 by (by vm_compute)|
    replace (tg_offset _) with 5 by (by vm_compute)]; lia.
Qed.

(** The same controller, freshly probed. *)
Definition demo_fresh : rpmh :=
  mk_rpmh demo_drv (mk_ctrlr false false SOLVER_PRESENT zero_msg zero_msg []) false.

Lemma demo_is_fresh : fresh 0 demo_fresh.
Proof. split; [done|apply demo_chan_rep| |done..]. intros ty [->| ->]; by vm_compute. Qed.

Lemma demo_own_active : active_apart demo_drv 0 16.
Proof.
  split; [vm_compute; intuition congruence| |vm_compute; intuition congruence].
  intros i Hi. assert (i = 0) as -> by (revert Hi; unfold serves; by vm_compute).
  split; [vm_compute; intuition congruence|]. split; [by vm_compute|].
  intros t. unfold in_group. replace (tg_offset _) with 0 by (by vm_compute).
  replace (tg_num_tcs _) with 2 by (by vm_compute). intros Ht. apply demo_apart. lia.
Qed.

Definition demo_irq_env : env := mk_env [] (fun _ => 1) [1] true.

(** An active request with its completion interrupt, and a sleep vote. *)
Definition demo_votes : outcome :=
  match rpmh_write 16 demo_fresh demo_irq_env 7 RPMH_ACTIVE_ONLY_STATE (Some [mk_cmd 262400 9 0]) 1 with
  | Returns 0 s1 => rpmh_write 16 s1 demo_env 7 RPMH_SLEEP_STATE (Some [mk_cmd 262400 5 0]) 1
  | o => o
  end.

Lemma demo_votes_steps ret s : demo_votes = Returns ret s -> rtc (vote_step 16 0) demo_fresh s.
Proof.
  assert (forall a v, votes_given (Some [mk_cmd a v 0]) <-> v <> UINT_MAX) as V.
  { intros. cbn. rewrite Forall_singleton. unfold vote_ok, wait_flag. cbn. tauto. }
  unfold demo_votes. destruct (rpmh_write _ _ _ _ RPMH_ACTIVE_ONLY_STATE _ _) as [r s1| | |] eqn:E; [|discriminate..].
  assert (vote_step 16 0 demo_fresh s1) as S1.
  { refine (vs_write 16 0 demo_fresh demo_irq_env 7 _ _ _ _ _ _ _ _ E); [intros _; apply demo_own_active|by apply V|].
    intros _. split; [apply demo_own_active|]. apply Forall_singleton. intros t Ht Hb. apply demo_apart.
    destruct (Z.lt_ge_cases t 2); [done|]. exfalso. revert Hb. change 1 with (2 ^ 0). by rewrite Z.pow2_bits_false by lia. }
  intros Ef. destruct r; [|injection Ef as _ <-; by apply rtc_once..].
  eapply rtc_l; [exact S1|]. apply rtc_once.
  refine (vs_write 16 0 s1 demo_env 7 _ _ _ _ _ _ _ _ Ef); [discriminate|by apply V|by intros []].
Qed.

(** The same, and a flush. *)
Definition demo_run : option (Z * rpmh) :=
  match demo_votes with
  | Returns _ s => rpmh_flush s 0 (false, 0)
  | _ => None
  end.

Lemma demo_run_result :
  option_map (fun x => (dirty (client (snd x)), votes (client (snd x)) SLEEP_TCS, votes (client (snd x)) WAKE_TCS))
    demo_run = Some (false, [(262400, 5)], [(262400, 9)]).
Proof. by vm_compute. Qed.

Lemma dirty_flag_sound_witness :
  exists s, rtc (vote_step 16 0) demo_fresh s /\ dirty (client s) = false /\ synced s 0 /\
    votes (client s) SLEEP_TCS = [(262400, 5)] /\ votes (client s) WAKE_TCS = [(262400, 9)].
Proof.
  pose proof demo_run_result as V. destruct demo_run as [[ret s]|] eqn:E; [|discriminate V].
  exists s. assert (rtc (vote_step 16 0) demo_fresh s) as R.
  { revert E. unfold demo_run. destruct demo_votes as [r s1| | |] eqn:Ev; [|discriminate..]. intros Ef.
    eapply rtc_r; [exact (demo_votes_steps _ _ Ev)|]. eapply vs_flush, Ef. }
  apply (inj Some), pair_equal_spec in V as [V Vw]. apply pair_equal_spec in V as [D Vs].
  split; [exact R|]. split; [exact D|]. split; [|exact (conj Vs Vw)].
  apply (dirty_flag_sound (H := bitmap_linear) 16 0 demo_fresh s demo_is_fresh R D).
Defined.

(** ** A borrowed wake TCS

    A controller without an active group sends active requests on a TCS of the
    wake group. The handler disables that TCS when the request is done, and
    nobody sets the dirty flag. *)

Definition borrow_drv : rsc_drv :=
  snd (rpmh_probe_tcs_config zero_drv 0 (Ok 3328) None [[2; 0; 0; 3; 1; 3; 3; 0; 4; 0]]).

(** Flush, then an active request for the wake vote that is cached already. *)
Definition borrow_run : option (rpmh * rpmh) :=
  match rpmh_flush (mk_rpmh borrow_drv ((demo_client true) <| c_solver_mode := false |>) false) 0 (false, 0) with
  | Some (0, s1) =>
      match rpmh_write 16 s1 (mk_env [] (fun _ => 1) [BIT (tg_offset (tcs_of borrow_drv 0 WAKE_TCS))] true) 7
              RPMH_ACTIVE_ONLY_STATE (Some [mk_cmd 262400 2 0]) 1 with
      | Returns 0 s2 => Some (s1, s2)
      | _ => None
      end
  | _ => None
  end.

(** The registers of the wake group that enable commands. *)
Definition wake_enables (s : rpmh) : list Z :=
  map (fun k => read_tcs_reg (drv s) (regs (drv s) RSC_DRV_CMD_ENABLE) (tg_offset (tcs_of (drv s) 0 WAKE_TCS) + k))
    [0; 1; 2].

Lemma borrow_result :
  option_map (fun x => let '(s1, s2) := x in
    (wake_enables s1, votes (client s2) WAKE_TCS, dirty (client s2), wake_enables s2, rpmh_standalone s2,
     tg_num_tcs (drv_tcs (drv s2) !!! CONTROL_TCS))) borrow_run =
  Some ([1; 0; 0], [(262400, 2)], false, [0; 0; 0], false, 0).
Proof. by vm_compute. Qed.

(** On such a controller the votes are lost: the request leaves the client
    clean, with the same wake vote, but no command of the wake group is
    enabled any more, and the next flush writes nothing. *)
Theorem borrowed_wake_tcs_loses_votes :
  exists s1 s2, borrow_run = Some (s1, s2) /\ wake_enables s1 = [1; 0; 0] /\
    votes (client s2) WAKE_TCS = [(262400, 2)] /\ dirty (client s2) = false /\ wake_enables s2 = [0; 0; 0] /\
    rpmh_flush s2 0 (false, 0) = Some (0, s2).
Proof.
  pose proof borrow_result as V. destruct borrow_run as [[s1 s2]|]; [|done].
  exists s1, s2. split; [done|]. 
  apply (inj Some), pair_equal_spec in V as [V Ct]. apply pair_equal_spec in V as [V Sa].
  apply pair_equal_spec in V as [V E2]. apply pair_equal_spec in V as [V D]. apply pair_equal_spec in V as [E1 V].
  do 4 (split; [done|]).
  unfold rpmh_flush, _rpmh_flush. rewrite Sa, D. cbn [negb fst snd].
  unfold rpmh_rsc_write_next_wakeup. rewrite Ct. by destruct s2.
Qed.

Lemma sleep_wake_votes_stay_local_witness :
  exists ret s', __rpmh_write (demo_rpmh false) demo_env RPMH_SLEEP_STATE
      (mk_req (demo_msg RPMH_SLEEP_STATE true) (Some 7)) = Returns ret s' /\
    mmio (drv s') = mmio demo_drv.
Proof.
  destruct (sleep_wake_votes_stay_local (demo_rpmh false) demo_env RPMH_SLEEP_STATE
    (mk_req (demo_msg RPMH_SLEEP_STATE true) (Some 7))) as (ret & s' & E & M & _).
  - discriminate.
  - exists ret, s'. split; [exact E|exact M].
Defined.

Lemma cache_request_lookup_witness :
  cache_lookup (non_batch_cache (snd (cache_rpm_request (demo_client false) RPMH_SLEEP_STATE (mk_cmd 262400 9 0)))) 262400
  = Some (mk_cache 262400 9 2).
Proof.
  destruct (cache_request_lookup (demo_client false) RPMH_SLEEP_STATE (mk_cmd 262400 9 0)) as (_ & _ & L).
  - apply demo_client_ok.
  - reflexivity.
  - rewrite L. reflexivity.
Defined.

Lemma cache_full_refuses_all_witness :
  let c := (demo_client false) <| non_batch_cache := replicate 250 (mk_cache 262400 1 2) |> in
  cache_rpm_request c RPMH_SLEEP_STATE (mk_cmd 262400 9 0) = (- ENOMEM, c).
Proof. intros c. apply (cache_full_refuses_all c). vm_compute. discriminate. Defined.

Lemma solver_mode_rejects_active_witness :
  rpmh_write 16 (demo_rpmh false) demo_env 1 RPMH_ACTIVE_ONLY_STATE None 0 = Returns (- EBUSY) (demo_rpmh false).
Proof.
  destruct (solver_mode_rejects_active 16 (demo_rpmh false) demo_env 1 None 0) as (_ & E & _).
  - reflexivity.
  - discriminate.
  - reflexivity.
  - exact E.
Defined.
