(* ===== verification/RpmhPm.v ===== *)
(** * RpmhPm: power management of a DRV (src/drivers/soc/qcom/rpmh-rsc.c)

    The places where the resource coordinator flushes its client: the CPU
    notifier that runs when the last CPU goes down, the power-domain notifier,
    and starting and stopping a DRV with hardware channels. *)
From stdpp Require Import prelude list gmap.
From S2P Require Import Prelude CmdDb RpmhRsc TcsImage TcsActive Rpmh.

(** ** Notifiers *)

Inductive pm_action :=
| CPU_PM_ENTER
| CPU_PM_ENTER_FAILED
| CPU_PM_EXIT
| CPU_PM_OTHER.

Inductive notify :=
| NOTIFY_DONE
| NOTIFY_OK
| NOTIFY_BAD.

#[export] Instance notify_eq_dec : EqDecision notify.
Proof. solve_decision. Defined.

(** What the callback sees of the system: the number of online CPUs at its two
    reads, whether the trylock succeeds, the channel registers, the wake-up. *)
Record pm_env := mk_pm_env {
  online_before : Z;
  online_after : Z;
  lock_free : bool;
  pm_polls : list (Z * Z);
  pm_wakeup : wakeup;
}.

Definition add_cpus (s : rpmh) (k : Z) : rpmh :=
  s <| drv := (drv s) <| cpus_in_pm := cpus_in_pm (drv s) + k |> |>.

Section Callbacks.

Context `{BitmapOps}.

(** The body under the lock: [None] while the channel registers do not settle
    or when the fuel of the flush runs out; otherwise whether it fails. *)
Definition try_flush (s : rpmh) (pl : list (Z * Z)) (flush : rpmh -> Z -> option (Z * rpmh))
  : option (bool * rpmh) :=
  match rpmh_rsc_get_channel (drv s) pl with
  | None => None
  | Some c =>
      if c <? 0 then Some (true, s)
      else if rpmh_rsc_ctrlr_is_busy (drv s) then Some (true, s)
      else
        match flush s c with
        | None => None
        | Some (ret, s') => Some (truth ret, s')
        end
  end.

Definition rpmh_rsc_cpu_pm_callback (s : rpmh) (action : pm_action) (e : pm_env) : option (notify * rpmh) :=
  match action with
  | CPU_PM_ENTER =>
      let s1 := add_cpus s 1 in
      let cpus := cpus_in_pm (drv s1) in
      if cpus <? online_before e then Some (NOTIFY_OK, s1)
      else if lock_free e then
        match try_flush s1 (pm_polls e) (fun s c => rpmh_flush s c (pm_wakeup e)) with
        | None => None
        | Some (bad, s2) =>
            if bad then
              if cpus <? online_after e then Some (NOTIFY_OK, s2)
              else Some (NOTIFY_BAD, add_cpus s2 (-1))
            else Some (NOTIFY_OK, s2)
        end
      else Some (NOTIFY_OK, s1)
  | CPU_PM_ENTER_FAILED | CPU_PM_EXIT => Some (NOTIFY_OK, add_cpus s (-1))
  | CPU_PM_OTHER => Some (NOTIFY_DONE, s)
  end.

(** [pre_off] is the test that the action is GENPD_NOTIFY_PRE_OFF. *)
Definition rpmh_rsc_pd_callback (s : rpmh) (pre_off : bool) (pl : list (Z * Z)) (w : wakeup)
  : option (notify * rpmh) :=
  match rpmh_rsc_get_channel (drv s) pl with
  | None => None
  | Some c =>
      if negb pre_off then Some (NOTIFY_OK, s)
      else if c <? 0 then Some (NOTIFY_BAD, s)
      else if rpmh_rsc_ctrlr_is_busy (drv s) then Some (NOTIFY_BAD, s)
      else
        match _rpmh_flush s c w with
        | None => None
        | Some (ret, s') => Some (if truth ret then NOTIFY_BAD else NOTIFY_OK, s')
        end
  end.

(** ** Starting and stopping a DRV *)

Definition set_chn (s : rpmh) (r : rsc_reg) (v : Z) : rpmh :=
  s <| drv := writel (drv s) v (base (drv s) + regs (drv s) r) |>.

Definition rpmh_rsc_drv_enable (s : rpmh) (enable : bool) (pl : list (Z * Z)) (w : wakeup)
  (complete : nat -> Z) : option (Z * rpmh) :=
  let chn_en := readl (drv s) (base (drv s) + regs (drv s) RSC_DRV_CHN_EN) in
  if chn_en =? b2z enable then Some (- EINVAL, s)
  else if enable then
    let c := 0 in
    match rpmh_flush s c w with
    | None => None
    | Some (ret, s1) =>
        if truth ret then Some (ret, s1)
        else
          let s2 := set_chn s1 RSC_DRV_CHN_EN (b2z enable) in
          let '(ret, d) := rpmh_rsc_switch_channel (drv s2) c complete in
          Some (ret, s2 <| drv := d |>)
    end
  else
    match rpmh_rsc_get_channel (drv s) pl with
    | None => None
    | Some c =>
        if c <? 0 then Some (0, s)
        else
          match rpmh_flush s c w with
          | None => None
          | Some (ret, s1) =>
              if truth ret then Some (ret, s1)
              else
                let '(ret, d) := rpmh_rsc_switch_channel (drv s1) c complete in
                let s2 := s1 <| drv := d |> in
                if truth ret then Some (ret, s2)
                else
                  let s3 := set_chn s2 RSC_DRV_CHN_UPDATE 0 in
                  Some (ret, set_chn s3 RSC_DRV_CHN_EN (b2z enable))
          end
    end.

(** [rpmh_drv_start] and [rpmh_drv_stop]. *)
Definition drv_start_stop (s : rpmh) (enable : bool) (pl : list (Z * Z)) (w : wakeup) (complete : nat -> Z)
  : outcome :=
  if rpmh_standalone s then Returns 0 s
  else
    match rpmh_rsc_drv_enable s enable pl w complete with
    | None => NoFuel
    | Some (ret, s') => if truth ret then Bug else Returns ret s'
    end.

Definition rpmh_drv_start (s : rpmh) (w : wakeup) (complete : nat -> Z) : outcome :=
  drv_start_stop s true [] w complete.

Definition rpmh_drv_stop (s : rpmh) (pl : list (Z * Z)) (w : wakeup) (complete : nat -> Z) : outcome :=
  drv_start_stop s false pl w complete.

(** ** CPUs going down and coming up

    Each CPU enters, and after a successful entry either exits or reports a
    failed entry; [down] is the set of CPUs that entered and did not leave. *)

Inductive cpu_step : gset Z * rpmh -> gset Z * rpmh -> Prop :=
| cs_enter down s cpu e s' : cpu ∉ down ->
    rpmh_rsc_cpu_pm_callback s CPU_PM_ENTER e = Some (NOTIFY_OK, s') -> cpu_step (down, s) ({[cpu]} ∪ down, s')
| cs_refused down s cpu e s' : cpu ∉ down ->
    rpmh_rsc_cpu_pm_callback s CPU_PM_ENTER e = Some (NOTIFY_BAD, s') -> cpu_step (down, s) (down, s')
| cs_leave down s cpu action e n s' : cpu ∈ down -> action = CPU_PM_EXIT \/ action = CPU_PM_ENTER_FAILED ->
    rpmh_rsc_cpu_pm_callback s action e = Some (n, s') -> cpu_step (down, s) (down ∖ {[cpu]}, s').

End Callbacks.

(** ** Lemmas: the counter is nobody else's *)

Lemma write_cmds_same d t j m en cp cs : same_but_mmio d (fst (fst (write_cmds d t j m en cp cs))).
Proof.
  revert d j en cp. induction cs as [|c cs IH]; intros d j en cp; [apply same_but_mmio_refl|].
  rewrite write_cmds_cons. eapply same_but_mmio_trans; [apply write_cmd_same|apply IH].
Qed.

Lemma buffer_write_cpus d t j msg : cpus_in_pm (__tcs_buffer_write d t j msg) = cpus_in_pm d.
Proof.
  unfold __tcs_buffer_write. pose proof (write_cmds_same d t j (base_msgid msg) 0
    (read_tcs_reg d (regs d RSC_DRV_CMD_WAIT_FOR_CMPL) t) (cmds msg)) as S. cbv zeta.
  destruct (write_cmds _ _ _ _ _ _ _) as [[d1 en] cp]. cbn [fst] in S. by rewrite S.
Qed.

Lemma clear_tcses_cpus d m n : cpus_in_pm (clear_tcses d m n) = cpus_in_pm d.
Proof. revert d m. induction n as [|n IH]; intros d m; [done|]. cbn [clear_tcses]. by rewrite IH. Qed.

Lemma invalidate_cpus d c : cpus_in_pm (rpmh_rsc_invalidate d c) = cpus_in_pm d.
Proof.
  assert (forall d ty, cpus_in_pm (tcs_invalidate d ty c) = cpus_in_pm d) as P.
  { intros d0 ty. unfold tcs_invalidate. case_goal; [done|]. cbn. by rewrite clear_tcses_cpus. }
  unfold rpmh_rsc_invalidate. by rewrite !P.
Qed.

Section Cpus.

Context `{BitmapOps}.

Lemma write_ctrl_cpus d msg c ret d' :
  rpmh_rsc_write_ctrl_data d msg c = Some (ret, d') -> cpus_in_pm d' = cpus_in_pm d.
Proof using.
  unfold rpmh_rsc_write_ctrl_data. case_goal; [by intros [= _ <-]|]. cbv zeta.
  destruct (find_slots _ _) as [[[[tcs' t] j]|e]|]; [|by intros [= _ <-]|done].
  intros [= _ <-]. by rewrite buffer_write_cpus.
Qed.

Lemma flush_cache_cpus d chn l ret d' :
  flush_cache d chn l = Some (ret, d') -> cpus_in_pm d' = cpus_in_pm d.
Proof using.
  revert d. induction l as [|p l IH]; intros d; cbn [flush_cache]; [by intros [= _ <-]|].
  case_goal; [apply IH|]. unfold send_single.
  destruct (rpmh_rsc_write_ctrl_data d _ chn) as [[r1 d1]|] eqn:E1; [|done]. apply write_ctrl_cpus in E1.
  case_goal; [intros [= _ <-]; done|].
  destruct (rpmh_rsc_write_ctrl_data d1 _ chn) as [[r2 d2]|] eqn:E2; [|done]. apply write_ctrl_cpus in E2.
  case_goal; [intros [= _ <-]; congruence|]. intros ->%IH. congruence.
Qed.

Lemma flush_cpus s chn w ret s' :
  rpmh_flush s chn w = Some (ret, s') -> cpus_in_pm (drv s') = cpus_in_pm (drv s).
Proof using.
  unfold rpmh_flush. case_goal; [by intros [= _ <-]|]. unfold _rpmh_flush. cbv zeta.
  assert (forall d b k, cpus_in_pm (rpmh_rsc_write_next_wakeup d b k) = cpus_in_pm d) as W
    by (intros; unfold rpmh_rsc_write_next_wakeup; by case_goal).
  case_goal; [intros [= _ <-]; cbn; by rewrite W|].
  destruct (flush_batch _ _ _) as [[r1 d1]|] eqn:E1; [|done].
  assert (cpus_in_pm d1 = cpus_in_pm (drv s)) as C1.
  { revert E1. unfold flush_batch. destruct (rpmh_rsc_write_ctrl_data _ (batch_sleep _) chn) as [[r d]|] eqn:E; [|done].
    apply write_ctrl_cpus in E. rewrite invalidate_cpus in E.
    case_goal; [intros [= _ <-]; done|]. intros ->%write_ctrl_cpus. done. }
  case_goal; [intros [= _ <-]; done|].
  destruct (flush_cache d1 chn _) as [[r2 d2]|] eqn:E2; [|done]. apply flush_cache_cpus in E2.
  case_goal; intros [= _ <-]; cbn [drv set_field]; rewrite ?W; congruence.
Qed.

Lemma try_flush_cpus s pl w b s' :
  try_flush s pl (fun s c => rpmh_flush s c w) = Some (b, s') -> cpus_in_pm (drv s') = cpus_in_pm (drv s).
Proof using.
  unfold try_flush. destruct (rpmh_rsc_get_channel _ _) as [c|]; [|done].
  case_goal; [by intros [= _ <-]|]. case_goal; [by intros [= _ <-]|].
  destruct (rpmh_flush s c w) as [[r s1]|] eqn:E; [|done]. intros [= _ <-]. by eapply flush_cpus.
Qed.

(** What the callback does to the counter. *)
Lemma callback_cpus s action e n s' :
  rpmh_rsc_cpu_pm_callback s action e = Some (n, s') ->
  cpus_in_pm (drv s') = cpus_in_pm (drv s) +
    match action, n with
    | CPU_PM_ENTER, NOTIFY_OK => 1
    | CPU_PM_ENTER_FAILED, _ | CPU_PM_EXIT, _ => -1
    | _, _ => 0
    end.
Proof using.
  unfold rpmh_rsc_cpu_pm_callback. destruct action; cbv zeta; try (intros [= <- <-]; cbn; lia).
  case_goal; [by intros [= <- <-]|]. case_goal; [|by intros [= <- <-]].
  destruct (try_flush _ _ _) as [[bad s2]|] eqn:E; [|done]. apply try_flush_cpus in E. cbn in E.
  destruct bad; [case_goal|]; intros [= <- <-]; cbn; lia.
Qed.

(** The counter of CPUs in power collapse is right at all times: in every
    state reached by CPUs entering, being refused and leaving, it is the
    number of CPUs that entered and have not left; a refused entry leaves it
    as it was. *)
Theorem cpus_in_pm_counts (s0 s : rpmh) (down : gset Z) :
  cpus_in_pm (drv s0) = 0 -> rtc cpu_step (∅, s0) (down, s) -> cpus_in_pm (drv s) = Z.of_nat (size down).
Proof using.
  intros H0 Hr.
  assert (forall x y, rtc cpu_step x y -> cpus_in_pm (drv (snd x)) = Z.of_nat (size (fst x)) ->
    cpus_in_pm (drv (snd y)) = Z.of_nat (size (fst y))) as P.
  { intros x y R. induction R as [|x y z St _ IH]; [done|]. intros Hx. apply IH. clear IH z Hr.
    destruct St as [dn t cpu e t' Hc E|dn t cpu e t' Hc E|dn t cpu action e n t' Hc Ha E];
      apply callback_cpus in E; cbn [fst snd] in *; rewrite E.
    - rewrite size_union, size_singleton by set_solver. lia.
    - lia.
    - assert (size dn = (1 + size (dn ∖ {[cpu]}))%nat) as Sz.
      { rewrite <- (size_singleton (C := gset Z) cpu) at 1. rewrite <- size_union by set_solver. f_equal.
        apply leibniz_equiv. rewrite (union_comm _ (dn ∖ _)). rewrite difference_union. set_solver. }
      destruct Ha as [->| ->]; lia. }
  apply P in Hr; [done|]. cbn [fst snd]. by rewrite H0, size_empty.
Qed.

End Cpus.

Section LastCpu.

Context `{BitmapLaws} (MAX_RPMH_PAYLOAD : Z).

(** A controller with one channel: the calls of its client and the
    notifications of its CPUs. *)
Inductive power_step : rpmh -> rpmh -> Prop :=
| ps_vote s s' : vote_step MAX_RPMH_PAYLOAD 0 s s' -> power_step s s'
| ps_pm s action e n s' : num_channels (drv s) = 1 ->
    rpmh_rsc_cpu_pm_callback s action e = Some (n, s') -> power_step s s'.

Lemma add_cpus_coherent s k : coherent 0 s -> coherent 0 (add_cpus s k).
Proof using. intros Hco. apply coherent_keeps; [done|]. by apply keeps_same. Qed.

(** The flush of the last CPU: it fails, or leaves the votes in the TCSes. *)
Lemma try_flush_coherent s pl w bad s' :
  coherent 0 s -> num_channels (drv s) = 1 -> try_flush s pl (fun s c => rpmh_flush s c w) = Some (bad, s') ->
  coherent 0 s' /\
  (bad = false -> rpmh_rsc_ctrlr_is_busy (drv s) = false /\ dirty (client s') = false /\ synced s' 0).
Proof using H0 MAX_RPMH_PAYLOAD.
  intros Hco Hn. unfold try_flush.
  assert (rpmh_rsc_get_channel (drv s) pl = Some 0) as -> by (destruct pl as [|[u b] l]; cbn; by rewrite Hn).
  change (0 <? 0) with false. cbv iota.
  destruct (rpmh_rsc_ctrlr_is_busy (drv s)); [by intros [= <- <-]|].
  destruct (flush_cases s 0 w (co_standalone _ _ Hco) (co_rep _ _ Hco) (co_client _ _ Hco)) as (ret & s2 & E & _ & _ & C).
  rewrite E. intros [= <- <-].
  assert (coherent 0 s2) as Hco2 by (eapply (vote_step_coherent MAX_RPMH_PAYLOAD); [by eapply vs_flush|done]).
  split; [done|]. destruct C as [(D & -> & ->)|[(D & -> & Ec)|(D & -> & Ec & Sy)]]; [|done|].
  - intros _. split; [done|]. split; [done|]. by apply (co_synced _ _ Hco).
  - intros _. split; [done|]. split; [by rewrite Ec|done].
Qed.

Lemma callback_coherent s action e n s' :
  coherent 0 s -> num_channels (drv s) = 1 -> rpmh_rsc_cpu_pm_callback s action e = Some (n, s') -> coherent 0 s'.
Proof using H0 MAX_RPMH_PAYLOAD.
  intros Hco Hn. unfold rpmh_rsc_cpu_pm_callback. cbv zeta. pose proof (add_cpus_coherent s) as A.
  destruct action; [|intros [= _ <-]; auto..].
  case_goal; [intros [= _ <-]; auto|]. case_goal; [|intros [= _ <-]; auto].
  destruct (try_flush _ _ _) as [[bad s2]|] eqn:E; [|done].
  apply try_flush_coherent in E as [Hco2 _]; [|auto|done].
  destruct bad; [case_goal|]; intros [= _ <-]; [done|by apply add_cpus_coherent|done].
Qed.

Lemma power_steps_coherent s0 s : fresh 0 s0 -> rtc power_step s0 s -> coherent 0 s.
Proof using H0.
  intros Hf Hr. apply fresh_coherent in Hf. induction Hr as [|s0 s1 s St _ IH]; [done|]. apply IH.
  destruct St as [s0 s1 St|s0 action e n s1 Hn E]; [by eapply vote_step_coherent|by eapply callback_coherent].
Qed.

(** C39. On a controller with one channel, after any sequence of calls of its
    client and notifications of its CPUs since probe: when a CPU goes down while
    the counter shows that no other CPU stays up, the lock is free and the
    entry is accepted, the controller was not busy and the sleep and wake TCSes
    hold exactly the votes of the client. (If the lock is taken the entry is
    accepted without a flush; the steps of the client are those of
    [vote_step], with its conditions.) *)
Theorem last_cpu_down_synced (s0 s s' : rpmh) (e : pm_env) :
  fresh 0 s0 -> rtc power_step s0 s -> num_channels (drv s) = 1 ->
  online_before e <= cpus_in_pm (drv s) + 1 -> online_after e <= cpus_in_pm (drv s) + 1 -> lock_free e = true ->
  rpmh_rsc_cpu_pm_callback s CPU_PM_ENTER e = Some (NOTIFY_OK, s') ->
  rpmh_rsc_ctrlr_is_busy (drv s) = false /\ dirty (client s') = false /\ synced s' 0.
Proof using H0.
  intros Hf Hr Hn H1 H2 Hl. pose proof (power_steps_coherent _ _ Hf Hr) as Hco.
  unfold rpmh_rsc_cpu_pm_callback. cbv zeta.
  change (cpus_in_pm (drv (add_cpus s 1))) with (cpus_in_pm (drv s) + 1).
  rewrite !(proj2 (Z.ltb_ge _ _)) by lia. rewrite Hl.
  destruct (try_flush _ _ _) as [[bad s2]|] eqn:E; [|done].
  apply try_flush_coherent in E as [_ Sy]; [|by apply add_cpus_coherent|done].
  destruct bad; intros [= <-]. by apply Sy.
Qed.

End LastCpu.

(** Stopping a DRV of which both channels read idle reports success
    without stopping anything: no flush, no register written. *)
Theorem drv_stop_no_channel `{BitmapOps} (s : rpmh) (pl : list (Z * Z)) (w : wakeup) (complete : nat -> Z) :
  readl (drv s) (base (drv s) + regs (drv s) RSC_DRV_CHN_EN) <> 0 -> num_channels (drv s) <> 1 ->
  rpmh_rsc_drv_enable s false ((0, 0) :: pl) w complete = Some (0, s).
Proof.
  intros He Hn. unfold rpmh_rsc_drv_enable. cbn [b2z]. cbv zeta.
  rewrite (proj2 (Z.eqb_neq _ _) He). cbn [rpmh_rsc_get_channel]. by rewrite (proj2 (Z.eqb_neq _ _) Hn).
Qed.

(** ** Concrete runs *)

Definition demo_pm_env : pm_env := mk_pm_env 1 1 true [] (false, 0).

Lemma cpus_in_pm_counts_witness :
  exists s, rtc cpu_step (∅, demo_rpmh true) ({[3]} ∪ ∅, s) /\ cpus_in_pm (drv s) = 1.
Proof.
  destruct (rpmh_rsc_cpu_pm_callback (demo_rpmh true) CPU_PM_ENTER demo_pm_env) as [[n s]|] eqn:E.
  - assert (n = NOTIFY_OK) as ->.
    { clear -E. apply (f_equal (fun o => match o with Some (n, _) => n | None => NOTIFY_BAD end)) in E.
      by vm_compute in E. }
    assert (rtc cpu_step (∅, demo_rpmh true) ({[3]} ∪ ∅, s)) as R.
    { eapply rtc_once, cs_enter; [apply not_elem_of_empty|exact E]. }
    exists s. split; [exact R|].
    rewrite (cpus_in_pm_counts (demo_rpmh true) s ({[3]} ∪ ∅)); [|reflexivity|exact R].
    by rewrite union_empty_r_L, size_singleton.
  - exfalso. clear -E. vm_compute in E. discriminate.
Defined.

(** An active request, a sleep vote, and the last CPU goes down. *)
Definition demo_down : option (rpmh * (notify * rpmh)) :=
  match demo_votes with
  | Returns _ s => option_map (pair s) (rpmh_rsc_cpu_pm_callback s CPU_PM_ENTER demo_pm_env)
  | _ => None
  end.

Lemma demo_down_result :
  option_map (fun x => let '(s, (n, s')) := x in
    (num_channels (drv s), cpus_in_pm (drv s), n, votes (client s') WAKE_TCS)) demo_down =
  Some (1, 0, NOTIFY_OK, [(262400, 9)]).
Proof. by vm_compute. Qed.

Lemma demo_down_inv x : demo_down = Some x ->
  rtc (power_step 16) demo_fresh (fst x) /\
  rpmh_rsc_cpu_pm_callback (fst x) CPU_PM_ENTER demo_pm_env = Some (snd x).
Proof.
  unfold demo_down. destruct demo_votes as [r s| | |] eqn:E; [|discriminate..].
  destruct (rpmh_rsc_cpu_pm_callback s CPU_PM_ENTER demo_pm_env) as [y|] eqn:Ec; [|discriminate].
  intros [= <-]. split; [|exact Ec]. apply demo_votes_steps in E. clear -E. cbn [fst].
  induction E; [done|]. eapply rtc_l; [by apply ps_vote|done].
Qed.

Lemma last_cpu_down_synced_witness :
  exists s s', rtc (power_step 16) demo_fresh s /\
    rpmh_rsc_cpu_pm_callback s CPU_PM_ENTER demo_pm_env = Some (NOTIFY_OK, s') /\ synced s' 0 /\
    votes (client s') WAKE_TCS = [(262400, 9)].
Proof.
  pose proof demo_down_result as V. destruct demo_down as [[s [n s']]|] eqn:E; [|discriminate V].
  apply demo_down_inv in E as [R Ec]. cbn [fst snd] in R, Ec.
  apply (inj Some), pair_equal_spec in V as [V Vw]. apply pair_equal_spec in V as [V Hn].
  apply pair_equal_spec in V as [Hc Hp]. subst n. exists s, s'.
  split; [exact R|]. split; [exact Ec|]. split; [|exact Vw].
  apply (last_cpu_down_synced (H := bitmap_linear) 16 demo_fresh s s' demo_pm_env demo_is_fresh R Hc);
    [rewrite Hp; cbn; lia|rewrite Hp; cbn; lia|reflexivity|exact Ec].
Defined.

Lemma drv_stop_no_channel_witness :
  let s := set_chn ((demo_rpmh true) <| drv := demo_drv <| num_channels := 2 |> |>) RSC_DRV_CHN_EN 1 in
  rpmh_rsc_drv_enable s false [(0, 0)] (false, 0) (fun _ => 0) = Some (0, s).
Proof. intros s. apply (drv_stop_no_channel s []); vm_compute; discriminate. Defined.
