(* ===== verification/Smem.v ===== *)
(** * Smem: the shared memory heaps (src/drivers/soc/qcom/smem.c)

    Processors of the SoC share a memory that is split into partitions, each a
    heap of numbered items, and a global heap. The heaps are read and written
    at byte level; a pointer is an address, NULL is 0, and every structure is
    accessed by the offsets of its fields. *)
From stdpp Require Import prelude list.
From S2P Require Import Prelude.

(** ** Layout *)

Definition SMEM_MASTER_SBL_VERSION_INDEX : Z := 7.

Definition SMEM_GLOBAL_HEAP_VERSION : Z := 11.

Definition SMEM_GLOBAL_PART_VERSION : Z := 12.

Definition SMEM_ITEM_LAST_FIXED : Z := 8.

Definition SMEM_ITEM_COUNT : Z := 512.

Definition SMEM_HOST_APPS : Z := 0.

Definition SMEM_GLOBAL_HOST : Z := 65534.

Definition SMEM_HOST_COUNT : Z := 25.

Definition IN_PARTITION_RANGE (ptr size start stop : Z) : bool :=
  (start <=? ptr) && (ptr <=? ptr + size) && (ptr + size <=? stop).

(** struct smem_global_entry: allocated, offset, size, aux_base. *)
Definition sizeof_global_entry : Z := 16.

Definition AUX_BASE_MASK : Z := 4294967292.

(** struct smem_header: proc_comm[4], version[32], initialized, free_offset,
    available, reserved, toc[SMEM_ITEM_COUNT]. *)
Definition header_version (h i : Z) : Z := h + 64 + 4 * i.

Definition header_initialized (h : Z) : Z := h + 192.

Definition header_free_offset (h : Z) : Z := h + 196.

Definition header_available (h : Z) : Z := h + 200.

Definition header_reserved (h : Z) : Z := h + 204.

Definition header_toc (h item : Z) : Z := h + 208 + sizeof_global_entry * item.

(** struct smem_ptable: magic[4], version, num_entries, reserved[5], entry[];
    struct smem_ptable_entry: offset, size, flags, host0, host1, cacheline,
    reserved[7]. *)
Definition sizeof_ptable_entry : Z := 48.

Definition ptable_entry (pt i : Z) : Z := pt + 32 + sizeof_ptable_entry * i.

Definition SMEM_PTABLE_MAGIC : list Z := [36; 84; 79; 67].

(** struct smem_partition_header: magic[4], host0, host1, size,
    offset_free_uncached, offset_free_cached, reserved[3]. *)
Definition sizeof_partition_header : Z := 32.

Definition phdr_size (m : mem) (phdr : Z) : Z := rd32 m (phdr + 8).

Definition phdr_offset_free_uncached (m : mem) (phdr : Z) : Z := rd32 m (phdr + 12).

Definition phdr_offset_free_cached (m : mem) (phdr : Z) : Z := rd32 m (phdr + 16).

Definition SMEM_PART_MAGIC : list Z := [36; 80; 82; 84].

(** struct smem_private_entry: canary, item, size, padding_data, padding_hdr,
    reserved. *)
Definition sizeof_private_entry : Z := 16.

Definition e_canary (m : mem) (e : Z) : Z := rd16 m e.

Definition e_item (m : mem) (e : Z) : Z := rd16 m (e + 2).

Definition e_size (m : mem) (e : Z) : Z := rd32 m (e + 4).

Definition e_padding_data (m : mem) (e : Z) : Z := rd16 m (e + 8).

Definition e_padding_hdr (m : mem) (e : Z) : Z := rd16 m (e + 10).

Definition SMEM_PRIVATE_CANARY : Z := 42405.

(** struct smem_info: magic[4], size, base_addr, reserved, num_items. *)
Definition SMEM_INFO_MAGIC : list Z := [83; 73; 73; 73].

Record smem_partition := mk_part {
  virt_base : Z;
  phys_base : Z;
  cacheline : Z;
  part_size : Z;
}.

Definition no_part : smem_partition := mk_part 0 0 0 0.

#[export] Instance smem_partition_inhabited : Inhabited smem_partition := populate no_part.

Record smem_region := mk_region {
  aux_base : Z;
  region_virt : Z;
  region_size : Z;
}.

#[export] Instance smem_region_inhabited : Inhabited smem_region := populate (mk_region 0 0 0).

(** struct qcom_smem, with the memory it is mapped in. *)
Record qcom_smem := mk_smem {
  smem_mem : mem;
  item_count : Z;
  ptable : Z;
  global_partition : smem_partition;
  partitions : list smem_partition;
  regions : list smem_region;
}.

#[export] Instance eta_qcom_smem : Settable qcom_smem :=
  fun s => mk_smem (smem_mem s) (item_count s) (ptable s) (global_partition s) (partitions s) (regions s).

Definition region0 (s : qcom_smem) : smem_region := regions s !!! 0%nat.

(** ** Walking a partition *)

Definition phdr_to_last_uncached_entry (m : mem) (phdr : Z) : Z := phdr + phdr_offset_free_uncached m phdr.

Definition phdr_to_first_cached_entry (m : mem) (phdr line : Z) : Z :=
  phdr + phdr_size m phdr - ALIGN sizeof_private_entry line.

Definition phdr_to_last_cached_entry (m : mem) (phdr : Z) : Z := phdr + phdr_offset_free_cached m phdr.

Definition phdr_to_first_uncached_entry (phdr : Z) : Z := phdr + sizeof_partition_header.

Definition uncached_entry_next (m : mem) (e : Z) : Z :=
  e + sizeof_private_entry + e_padding_hdr m e + e_size m e.

Definition cached_entry_next (m : mem) (e line : Z) : Z := e - e_size m e - ALIGN sizeof_private_entry line.

Definition uncached_entry_to_item (m : mem) (e : Z) : Z := e + sizeof_private_entry + e_padding_hdr m e.

Definition cached_entry_to_item (m : mem) (e : Z) : Z := e - e_size m e.

(** ** Allocation *)

(** The loop of [qcom_smem_alloc_private]: where it stops, or the error it
    returns; [None] when the fuel runs out. *)
Fixpoint alloc_scan (fuel : nat) (m : mem) (item hdr stop : Z) : option (result Z) :=
  match fuel with
  | O => None
  | S f =>
      if (hdr <? stop) && (hdr + sizeof_private_entry <? stop) then
        if negb (e_canary m hdr =? SMEM_PRIVATE_CANARY) then Some (Err (- EINVAL))
        else if e_item m hdr =? item then Some (Err (- EEXIST))
        else
          let next_hdr := uncached_entry_next m hdr in
          if next_hdr <=? hdr then Some (Err (- EINVAL))
          else alloc_scan f m item next_hdr stop
      else Some (Ok hdr)
  end.

(** Enough turns for any partition: every turn advances by an entry header. *)
Definition part_fuel (part : smem_partition) : nat := S (Z.to_nat (part_size part)).

(** The stores that make a new entry; [size] is a size_t. *)
Definition write_entry (m : mem) (hdr item size : Z) : mem :=
  let aligned := u64 (ALIGN size 8) in
  let m := wr16 m hdr SMEM_PRIVATE_CANARY in
  let m := wr16 m (hdr + 2) (u16 item) in
  let m := wr32 m (hdr + 4) (u32 aligned) in
  let m := wr16 m (hdr + 8) (u16 (e_size m hdr - size)) in
  wr16 m (hdr + 10) 0.

Definition qcom_smem_alloc_private (m : mem) (part : smem_partition) (item size : Z)
  : option (Z * mem) :=
  let phdr := virt_base part in
  let p_end := phdr + part_size part in
  let hdr := phdr_to_first_uncached_entry phdr in
  let stop := phdr_to_last_uncached_entry m phdr in
  let cached := phdr_to_last_cached_entry m phdr in
  if negb (IN_PARTITION_RANGE stop 0 phdr cached) || (p_end <? cached) then Some (- EINVAL, m)
  else
    match alloc_scan (part_fuel part) m item hdr stop with
    | None => None
    | Some (Err e) => Some (e, m)
    | Some (Ok hdr) =>
        if stop <? hdr then Some (- EINVAL, m)
        else
          let alloc_size := u64 (sizeof_private_entry + u64 (ALIGN size 8)) in
          if cached <? u64 (hdr + alloc_size) then Some (- ENOSPC, m)
          else
            let m1 := write_entry m hdr item size in
            Some (0, wr32 m1 (phdr + 12) (u32 (phdr_offset_free_uncached m1 phdr + alloc_size)))
    end.

Definition qcom_smem_alloc_global (m : mem) (header item size : Z) : Z * mem :=
  let entry := header_toc header item in
  if truth (rd32 m entry) then (- EEXIST, m)
  else
    let size := u64 (ALIGN size 8) in
    if rd32 m (header_available header) <? size then (- ENOMEM, m)
    else
      let m := wr32 m (entry + 4) (rd32 m (header_free_offset header)) in
      let m := wr32 m (entry + 8) (u32 size) in
      let m := wr32 m entry 1 in
      let m := wr32 m (header_free_offset header) (u32 (rd32 m (header_free_offset header) + size)) in
      (0, wr32 m (header_available header) (u32 (rd32 m (header_available header) - size))).

(** [qcom_smem_alloc]; [lock] is the result of taking the hardware spinlock. *)
Definition qcom_smem_alloc (s : option qcom_smem) (host item size lock : Z)
  : option (Z * option qcom_smem) :=
  match s with
  | None => Some (- EPROBE_DEFER, s)
  | Some sm =>
      if item <? SMEM_ITEM_LAST_FIXED then Some (- EINVAL, s)
      else if item_count sm <=? item then Some (- EINVAL, s)
      else if truth lock then Some (lock, s)
      else
        let private part :=
          match qcom_smem_alloc_private (smem_mem sm) part item size with
          | None => None
          | Some (ret, m) => Some (ret, Some (sm <| smem_mem := m |>))
          end in
        let p := partitions sm !!! Z.to_nat host in
        if (host <? SMEM_HOST_COUNT) && truth (virt_base p) then private p
        else if truth (virt_base (global_partition sm)) then private (global_partition sm)
        else
          let '(ret, m) := qcom_smem_alloc_global (smem_mem sm) (region_virt (region0 sm)) item size in
          Some (ret, Some (sm <| smem_mem := m |>))
  end.

(** ** Lookup *)

(** The loop over the regions in [qcom_smem_get_global]. *)
Fixpoint find_region (m : mem) (entry aux : Z) (rs : list smem_region) : result (Z * Z) :=
  match rs with
  | [] => Err (- ENOENT)
  | region :: rs' =>
      if (u32 (aux_base region) =? aux) || (aux =? 0) then
        let sz := rd32 m (entry + 8) in
        let off := rd32 m (entry + 4) in
        if region_size region <? sz + off then Err (- EINVAL) else Ok (region_virt region + off, sz)
      else find_region m entry aux rs'
  end.

Definition qcom_smem_get_global (sm : qcom_smem) (item : Z) : result (Z * Z) :=
  let m := smem_mem sm in
  let entry := header_toc (region_virt (region0 sm)) item in
  if negb (truth (rd32 m entry)) then Err (- ENXIO)
  else find_region m entry (Z.land (rd32 m (entry + 12)) AUX_BASE_MASK) (regions sm).

(** What a walk over entries ends with: the item, an error, or the place where
    it left the list. *)
Inductive walk :=
| Found (r : result (Z * Z))
| Left (e : Z).

(** The size of a matching entry without its padding, or -EINVAL. *)
Definition entry_item (m : mem) (part : smem_partition) (e item_ptr lo hi : Z) : result (Z * Z) :=
  let sz := e_size m e in
  let pad := e_padding_data m e in
  if (sz <? part_size part) && (pad <? sz) then
    let entry_size := sz - pad in
    if negb (IN_PARTITION_RANGE item_ptr entry_size lo hi) then Err (- EINVAL) else Ok (item_ptr, entry_size)
  else Err (- EINVAL).

Fixpoint walk_uncached (fuel : nat) (m : mem) (part : smem_partition) (item e stop : Z) : option walk :=
  match fuel with
  | O => None
  | S f =>
      if (e <? stop) && (e + sizeof_private_entry <? stop) then
        if negb (e_canary m e =? SMEM_PRIVATE_CANARY) then Some (Found (Err (- EINVAL)))
        else if e_item m e =? item
        then Some (Found (entry_item m part e (uncached_entry_to_item m e) e stop))
        else
          let next_e := uncached_entry_next m e in
          if next_e <=? e then Some (Found (Err (- EINVAL))) else walk_uncached f m part item next_e stop
      else Some (Left e)
  end.

Fixpoint walk_cached (fuel : nat) (m : mem) (part : smem_partition) (item e cached_end : Z) : option walk :=
  match fuel with
  | O => None
  | S f =>
      if cached_end <? e then
        if negb (e_canary m e =? SMEM_PRIVATE_CANARY) then Some (Found (Err (- EINVAL)))
        else if e_item m e =? item
        then Some (Found (entry_item m part e (cached_entry_to_item m e) cached_end e))
        else
          let next_e := cached_entry_next m e (cacheline part) in
          if e <=? next_e then Some (Found (Err (- EINVAL))) else walk_cached f m part item next_e cached_end
      else Some (Left e)
  end.

Definition qcom_smem_get_private (m : mem) (part : smem_partition) (item : Z) : option (result (Z * Z)) :=
  let phdr := virt_base part in
  let p_end := phdr + part_size part in
  let uncached_end := phdr_to_last_uncached_entry m phdr in
  let cached_end := phdr_to_last_cached_entry m phdr in
  if negb (IN_PARTITION_RANGE uncached_end 0 phdr cached_end) || (p_end <? cached_end) then
    Some (Err (- EINVAL))
  else
    match walk_uncached (part_fuel part) m part item (phdr_to_first_uncached_entry phdr) uncached_end with
    | None => None
    | Some (Found r) => Some r
    | Some (Left e) =>
        if uncached_end <? e then Some (Err (- EINVAL))
        else if cached_end =? p_end then Some (Err (- ENOENT))
        else
          let e := phdr_to_first_cached_entry m phdr (cacheline part) in
          if negb (IN_PARTITION_RANGE cached_end 0 uncached_end p_end) ||
             negb (IN_PARTITION_RANGE e sizeof_private_entry cached_end p_end) then Some (Err (- EINVAL))
          else
            match walk_cached (part_fuel part) m part item e cached_end with
            | None => None
            | Some (Found r) => Some r
            | Some (Left e) => if e <? phdr then Some (Err (- EINVAL)) else Some (Err (- ENOENT))
            end
    end.

(** [qcom_smem_get]: the address and the size of an item. *)
Definition qcom_smem_get (s : option qcom_smem) (host item : Z) : option (result (Z * Z)) :=
  match s with
  | None => Some (Err (- EPROBE_DEFER))
  | Some sm =>
      if item_count sm <=? item then Some (Err (- EINVAL))
      else
        let p := partitions sm !!! Z.to_nat host in
        if (host <? SMEM_HOST_COUNT) && truth (virt_base p) then qcom_smem_get_private (smem_mem sm) p item
        else if truth (virt_base (global_partition sm))
        then qcom_smem_get_private (smem_mem sm) (global_partition sm) item
        else Some (qcom_smem_get_global sm item)
  end.

(** The free space of a partition: the difference of the two offsets, in u32. *)
Definition part_free (m : mem) (p : smem_partition) : Z :=
  let ret := u32 (phdr_offset_free_cached m (virt_base p) - phdr_offset_free_uncached m (virt_base p)) in
  if u32 (part_size p) <? ret then - EINVAL else s32 ret.

Definition qcom_smem_get_free_space (s : option qcom_smem) (host : Z) : Z :=
  match s with
  | None => - EPROBE_DEFER
  | Some sm =>
      let p := partitions sm !!! Z.to_nat host in
      if (host <? SMEM_HOST_COUNT) && truth (virt_base p) then part_free (smem_mem sm) p
      else if truth (virt_base (global_partition sm)) then part_free (smem_mem sm) (global_partition sm)
      else
        let ret := rd32 (smem_mem sm) (header_available (region_virt (region0 sm))) in
        if region_size (region0 sm) <? ret then - EINVAL else s32 ret
  end.

Definition addr_in_range (b size addr : Z) : bool := truth b && (b <=? addr) && (addr <? b + size).

Definition qcom_smem_virt_to_phys (sm : qcom_smem) (p : Z) : Z :=
  match List.find (fun part => addr_in_range (virt_base part) (part_size part) p) (partitions sm) with
  | Some part => phys_base part + (p - virt_base part)
  | None =>
      let g := global_partition sm in
      if addr_in_range (virt_base g) (part_size g) p then phys_base g + (p - virt_base g)
      else
        match List.find (fun a => addr_in_range (region_virt a) (region_size a) p) (regions sm) with
        | Some a => aux_base a + (p - region_virt a)
        | None => 0
        end
  end.

(** [bust] is hwspin_lock_bust on the lock of the driver. *)
Definition qcom_smem_bust_hwspin_lock_by_host (bust : Z -> Z) (host : Z) : Z :=
  if (host =? SMEM_HOST_APPS) || (SMEM_HOST_COUNT <=? host) then - EINVAL else bust (host + 1).

Definition qcom_smem_is_available (s : option qcom_smem) : bool :=
  match s with
  | None => false
  | Some _ => true
  end.

(** ** Probe *)

Definition qcom_smem_get_sbl_version (sm : qcom_smem) : Z :=
  rd32 (smem_mem sm) (header_version (region_virt (region0 sm)) SMEM_MASTER_SBL_VERSION_INDEX).

Definition qcom_smem_get_ptable (sm : qcom_smem) : result Z :=
  let pt := ptable sm in
  if negb (bool_decide (load_bytes 4 (smem_mem sm) pt = SMEM_PTABLE_MAGIC)) then Err (- ENOENT)
  else if negb (rd32 (smem_mem sm) (pt + 4) =? 1) then Err (- EINVAL)
  else Ok pt.

Definition qcom_smem_get_item_count (sm : qcom_smem) : Z :=
  match qcom_smem_get_ptable sm with
  | Err _ => SMEM_ITEM_COUNT
  | Ok pt =>
      if pt =? 0 then SMEM_ITEM_COUNT
      else
        let info := ptable_entry pt (rd32 (smem_mem sm) (pt + 8)) in
        if negb (bool_decide (load_bytes 4 (smem_mem sm) info = SMEM_INFO_MAGIC)) then SMEM_ITEM_COUNT
        else rd16 (smem_mem sm) (info + 16)
  end.

Section Probe.

(** [ioremap phys size] is devm_ioremap_wc: the address of the mapping or 0. *)
Context (ioremap : Z -> Z -> Z).

(** [qcom_smem_partition_header]: the address of the validated header, or 0. *)
Definition qcom_smem_partition_header (sm : qcom_smem) (entry host0 host1 : Z) : Z :=
  let m := smem_mem sm in
  let phys_addr := u32 (aux_base (region0 sm) + rd32 m entry) in
  let header := ioremap phys_addr (rd32 m (entry + 4)) in
  if header =? 0 then 0
  else if negb (bool_decide (load_bytes 4 m header = SMEM_PART_MAGIC)) then 0
  else if negb (host0 =? rd16 m (header + 4)) then 0
  else if negb (host1 =? rd16 m (header + 6)) then 0
  else
    let size := phdr_size m header in
    if negb (size =? rd32 m (entry + 4)) then 0
    else if size <? phdr_offset_free_uncached m header then 0
    else header.

(** The description of a partition, from its table entry. *)
Definition entry_partition (sm : qcom_smem) (entry header : Z) : smem_partition :=
  let m := smem_mem sm in
  mk_part header (aux_base (region0 sm) + rd32 m entry) (rd32 m (entry + 16)) (rd32 m (entry + 4)).

(** The search of [qcom_smem_set_global_partition] from index [i] on. *)
Fixpoint find_global (m : mem) (pt i : Z) (n : nat) : option Z :=
  match n with
  | O => None
  | S k =>
      let entry := ptable_entry pt i in
      if negb (truth (rd32 m entry)) then find_global m pt (i + 1) k
      else if negb (truth (rd32 m (entry + 4))) then find_global m pt (i + 1) k
      else if negb (rd16 m (entry + 12) =? SMEM_GLOBAL_HOST) then find_global m pt (i + 1) k
      else if rd16 m (entry + 14) =? SMEM_GLOBAL_HOST then Some entry
      else find_global m pt (i + 1) k
  end.

Definition qcom_smem_set_global_partition (sm : qcom_smem) : Z * qcom_smem :=
  if truth (virt_base (global_partition sm)) then (- EINVAL, sm)
  else
    match qcom_smem_get_ptable sm with
    | Err e => (e, sm)
    | Ok pt =>
        match find_global (smem_mem sm) pt 0 (Z.to_nat (rd32 (smem_mem sm) (pt + 8))) with
        | None => (- EINVAL, sm)
        | Some entry =>
            let header := qcom_smem_partition_header sm entry SMEM_GLOBAL_HOST SMEM_GLOBAL_HOST in
            if header =? 0 then (- EINVAL, sm)
            else (0, sm <| global_partition := entry_partition sm entry header |>)
        end
    end.

(** The loop of [qcom_smem_enumerate_partitions] from index [i] on. *)
Fixpoint enumerate (sm : qcom_smem) (local_host pt i : Z) (n : nat) : Z * qcom_smem :=
  match n with
  | O => (0, sm)
  | S k =>
      let m := smem_mem sm in
      let entry := ptable_entry pt i in
      if negb (truth (rd32 m entry)) then enumerate sm local_host pt (i + 1) k
      else if negb (truth (rd32 m (entry + 4))) then enumerate sm local_host pt (i + 1) k
      else
        let host0 := rd16 m (entry + 12) in
        let host1 := rd16 m (entry + 14) in
        let remote :=
          if host0 =? local_host then Some host1
          else if host1 =? local_host then Some host0 else None in
        match remote with
        | None => enumerate sm local_host pt (i + 1) k
        | Some remote_host =>
            if SMEM_HOST_COUNT <=? remote_host then (- EINVAL, sm)
            else if truth (virt_base (partitions sm !!! Z.to_nat remote_host)) then (- EINVAL, sm)
            else
              let header := qcom_smem_partition_header sm entry host0 host1 in
              if header =? 0 then (- EINVAL, sm)
              else
                let sm := sm <| partitions :=
                  <[Z.to_nat remote_host := entry_partition sm entry header]> (partitions sm) |> in
                enumerate sm local_host pt (i + 1) k
        end
  end.

Definition qcom_smem_enumerate_partitions (sm : qcom_smem) (local_host : Z) : Z * qcom_smem :=
  match qcom_smem_get_ptable sm with
  | Err e => (e, sm)
  | Ok pt => enumerate sm local_host pt 0 (Z.to_nat (rd32 (smem_mem sm) (pt + 8)))
  end.

Definition set_region0 (sm : qcom_smem) (r : smem_region) : qcom_smem :=
  sm <| regions := <[0%nat := r]> (regions sm) |>.

Definition SZ_4K : Z := 4096.

Definition qcom_smem_map_toc (sm : qcom_smem) : Z * qcom_smem :=
  let r := region0 sm in
  let v := ioremap (aux_base r) SZ_4K in
  let sm := set_region0 sm (mk_region (aux_base r) v (region_size r)) in
  let pt := ioremap (u32 (aux_base r + region_size r - SZ_4K)) SZ_4K in
  let sm := sm <| ptable := pt |> in
  if (v =? 0) || (pt =? 0) then (- ENOMEM, sm) else (0, sm).

Definition qcom_smem_map_global (sm : qcom_smem) (size : Z) : Z * qcom_smem :=
  let r := region0 sm in
  let v := ioremap (u32 (aux_base r)) size in
  let sm := set_region0 sm (mk_region (aux_base r) v size) in
  if v =? 0 then (- ENOMEM, sm) else (0, sm).

(** The mapping of the regions behind the first. *)
Fixpoint map_regions (rs : list smem_region) : option (list smem_region) :=
  match rs with
  | [] => Some []
  | r :: rs' =>
      let v := ioremap (aux_base r) (region_size r) in
      if v =? 0 then None
      else (fun l => mk_region (aux_base r) v (region_size r) :: l) <$> map_regions rs'
  end.

(** The version switch of probe and the enumeration of the partitions. *)
Definition smem_setup (sm : qcom_smem) (size : Z) : Z * qcom_smem :=
  let version := qcom_smem_get_sbl_version sm in
  let r :=
    if Z.shiftr version 16 =? SMEM_GLOBAL_PART_VERSION then
      let '(ret, sm1) := qcom_smem_set_global_partition sm in
      if ret <? 0 then (ret, sm1) else (0, sm1 <| item_count := qcom_smem_get_item_count sm1 |>)
    else if Z.shiftr version 16 =? SMEM_GLOBAL_HEAP_VERSION then
      (0, (snd (qcom_smem_map_global sm size)) <| item_count := SMEM_ITEM_COUNT |>)
    else (- EINVAL, sm) in
  let '(ret, sm1) := r in
  if ret <? 0 then (ret, sm1)
  else
    let '(ret, sm2) := qcom_smem_enumerate_partitions sm1 SMEM_HOST_APPS in
    if (ret <? 0) && negb (ret =? - ENOENT) then (ret, sm2) else (0, sm2).

(** [qcom_smem_probe]: [rs] are the regions the device tree resolves to,
    [hwlock] and [lock] what getting and taking the hardware spinlock return.
    The driver is there afterwards when the result is zero. *)
Definition qcom_smem_probe (m : mem) (rs : result (list smem_region)) (hwlock lock : Z) : Z * option qcom_smem :=
  match rs with
  | Err e => (e, None)
  | Ok rs =>
      let sm := mk_smem m 0 0 no_part (replicate (Z.to_nat SMEM_HOST_COUNT) no_part) rs in
      let '(ret, sm) := qcom_smem_map_toc sm in
      if truth ret then (ret, None)
      else
        match map_regions (drop 1 (regions sm)) with
        | None => (- ENOMEM, None)
        | Some l =>
            let sm := sm <| regions := take 1 (regions sm) ++ l |> in
            let header := region_virt (region0 sm) in
            if negb (rd32 m (header_initialized header) =? 1) || truth (rd32 m (header_reserved header)) then (- EINVAL, None)
            else if truth hwlock then (hwlock, None)
            else if truth lock then (lock, None)
            else
              let size := u32 (rd32 m (header_available header) + rd32 m (header_free_offset header)) in
              let '(ret, sm) := smem_setup sm size in
              if ret <? 0 then (ret, None) else (0, Some sm)
        end
  end.

End Probe.

(** ** Lemmas: walking *)

(** [m] and [m'] hold the same bytes in [lo, hi). *)
Definition agree (lo hi : Z) (m m' : mem) : Prop := forall x, lo <= x < hi -> m' x = m x.

Lemma agree_rd16 lo hi m m' a : agree lo hi m m' -> lo <= a -> a + 2 <= hi -> rd16 m' a = rd16 m a.
Proof. intros H ??. apply load_le_ext. intros i Hi. apply H. lia. Qed.

Lemma agree_rd32 lo hi m m' a : agree lo hi m m' -> lo <= a -> a + 4 <= hi -> rd32 m' a = rd32 m a.
Proof. intros H ??. apply load_le_ext. intros i Hi. apply H. lia. Qed.

Lemma agree_entry lo hi m m' e :
  agree lo hi m m' -> lo <= e -> e + sizeof_private_entry <= hi ->
  e_canary m' e = e_canary m e /\ e_item m' e = e_item m e /\ e_size m' e = e_size m e /\
  e_padding_data m' e = e_padding_data m e /\ e_padding_hdr m' e = e_padding_hdr m e.
Proof.
  unfold sizeof_private_entry. intros H Hl Hh. unfold e_canary, e_item, e_size, e_padding_data, e_padding_hdr.
  repeat split; (eapply agree_rd16 || eapply agree_rd32); (eassumption || lia).
Qed.

Lemma entry_item_range m part e ptr lo hi p n :
  entry_item m part e ptr lo hi = Ok (p, n) -> lo <= p /\ 0 < n /\ p + n <= hi.
Proof.
  unfold entry_item, IN_PARTITION_RANGE. cbv zeta. case_goal; [|done]. case_goal; [done|].
  intros [= <- <-]. zbool. lia.
Qed.

Lemma entry_item_agree lo hi m m' part e ptr a b :
  agree lo hi m m' -> lo <= e -> e + sizeof_private_entry <= hi ->
  entry_item m' part e ptr a b = entry_item m part e ptr a b.
Proof.
  intros H Hl Hh. destruct (agree_entry lo hi m m' e H Hl Hh) as (_ & _ & E1 & E2 & _).
  unfold entry_item. by rewrite E1, E2.
Qed.

(** The walk over the uncached entries: it ends, an item it finds lies between
    where it started and [stop], and it reads nothing outside [lo, stop). *)
Lemma walk_uncached_spec fuel m part item e stop lo :
  lo <= e -> stop - e < Z.of_nat fuel -> 0 < Z.of_nat fuel ->
  exists w, walk_uncached fuel m part item e stop = Some w /\
    (forall p n, w = Found (Ok (p, n)) -> e <= p /\ 0 < n /\ p + n <= stop) /\
    (forall e', w = Left e' -> e <= e' /\ ~ e' + sizeof_private_entry < stop) /\
    (forall m', agree lo stop m m' -> walk_uncached fuel m' part item e stop = Some w).
Proof.
  revert e. induction fuel as [|f IH]; intros e Hlo Hf H0; [lia|]. cbn [walk_uncached].
  destruct ((e <? stop) && (e + sizeof_private_entry <? stop)) eqn:Ec.
  2: { exists (Left e). split; [done|]. split; [done|]. split; [|done]. intros e' [= <-].
       unfold sizeof_private_entry in *. lia. }
  zbool. assert (forall m', agree lo stop m m' -> e_canary m' e = e_canary m e /\ e_item m' e = e_item m e /\
    uncached_entry_next m' e = uncached_entry_next m e /\ uncached_entry_to_item m' e = uncached_entry_to_item m e) as A.
  { intros m' Hag. destruct (agree_entry lo stop m m' e Hag Hlo ltac:(lia)) as (A1 & A2 & A3 & A4 & A5).
    unfold uncached_entry_next, uncached_entry_to_item. rewrite A1, A2, A3, A5. done. }
  destruct (e_canary m e =? SMEM_PRIVATE_CANARY) eqn:E1; cbn [negb].
  2: { eexists. split; [reflexivity|]. split; [done|]. split; [done|]. intros m' Hag. by rewrite (proj1 (A m' Hag)), E1. }
  destruct (e_item m e =? item) eqn:E2.
  { eexists. split; [reflexivity|]. split; [|split; [done|]].
    - intros p n [= E]. apply entry_item_range in E. lia.
    - intros m' Hag. destruct (A m' Hag) as (-> & -> & _ & ->). rewrite E1, E2. cbn [negb].
      by rewrite (entry_item_agree lo stop m m') by (done || lia). }
  destruct (Z.leb_spec (uncached_entry_next m e) e) as [Hn|Hn].
  { eexists. split; [reflexivity|]. split; [done|]. split; [done|]. intros m' Hag. destruct (A m' Hag) as (-> & -> & -> & _).
    rewrite E1, E2. cbn [negb]. by rewrite (proj2 (Z.leb_le _ _) Hn). }
  destruct (IH (uncached_entry_next m e)) as (w & Hw & K1 & K2 & K3);
    [lia|lia|unfold sizeof_private_entry in *; lia|].
  exists w. split; [done|]. split; [|split].
  - intros p n Hp. specialize (K1 p n Hp). lia.
  - intros e' He. specialize (K2 e' He). lia.
  - intros m' Hag. destruct (A m' Hag) as (-> & -> & -> & _). rewrite E1, E2. cbn [negb].
    rewrite (proj2 (Z.leb_gt _ _) Hn). by apply K3.
Qed.

(** The same for the cached entries, which run downwards to [cached_end]. *)
Lemma walk_cached_spec fuel m part item e cached_end hi :
  e + sizeof_private_entry <= hi -> e - cached_end < Z.of_nat fuel -> 0 < Z.of_nat fuel ->
  exists w, walk_cached fuel m part item e cached_end = Some w /\
    (forall p n, w = Found (Ok (p, n)) -> cached_end <= p /\ 0 < n /\ p + n <= e) /\
    (forall m', agree cached_end hi m m' -> walk_cached fuel m' part item e cached_end = Some w).
Proof.
  revert e. induction fuel as [|f IH]; intros e Hhi Hf H0; [lia|]. cbn [walk_cached].
  destruct (Z.ltb_spec cached_end e) as [Hc|Hc]; [|exists (Left e); split; [done|split; done]].
  assert (forall m', agree cached_end hi m m' -> e_canary m' e = e_canary m e /\ e_item m' e = e_item m e /\
    cached_entry_next m' e (cacheline part) = cached_entry_next m e (cacheline part) /\
    cached_entry_to_item m' e = cached_entry_to_item m e) as A.
  { intros m' Hag. destruct (agree_entry cached_end hi m m' e Hag ltac:(lia) Hhi) as (A1 & A2 & A3 & A4 & A5).
    unfold cached_entry_next, cached_entry_to_item. rewrite A1, A2, A3. done. }
  destruct (e_canary m e =? SMEM_PRIVATE_CANARY) eqn:E1; cbn [negb].
  2: { eexists. split; [reflexivity|]. split; [done|]. intros m' Hag. by rewrite (proj1 (A m' Hag)), E1. }
  destruct (e_item m e =? item) eqn:E2.
  { eexists. split; [reflexivity|]. split.
    - intros p n [= E]. apply entry_item_range in E. lia.
    - intros m' Hag. destruct (A m' Hag) as (-> & -> & _ & ->). rewrite E1, E2. cbn [negb].
      by rewrite (entry_item_agree cached_end hi m m') by (done || lia). }
  destruct (Z.leb_spec e (cached_entry_next m e (cacheline part))) as [Hn|Hn].
  { eexists. split; [reflexivity|]. split; [done|]. intros m' Hag. destruct (A m' Hag) as (-> & -> & -> & _).
    rewrite E1, E2. cbn [negb]. by rewrite (proj2 (Z.leb_le _ _) Hn). }
  destruct (IH (cached_entry_next m e (cacheline part))) as (w & Hw & K1 & K3);
    [lia|lia|lia|].
  exists w. split; [done|]. split.
  - intros p n Hp. specialize (K1 p n Hp). lia.
  - intros m' Hag. destruct (A m' Hag) as (-> & -> & -> & _). rewrite E1, E2. cbn [negb].
    rewrite (proj2 (Z.leb_gt _ _) Hn). by apply K3.
Qed.

Lemma alloc_scan_total fuel m item e stop :
  stop - e < Z.of_nat fuel -> 0 < Z.of_nat fuel ->
  exists r, alloc_scan fuel m item e stop = Some r /\
    match r with
    | Ok hdr => e <= hdr
    | Err er => er = - EINVAL \/ er = - EEXIST
    end.
Proof.
  revert e. induction fuel as [|f IH]; intros e Hf H0; [lia|]. cbn [alloc_scan].
  destruct ((e <? stop) && (e + sizeof_private_entry <? stop)) eqn:Ec.
  2: { eexists. split; [reflexivity|]. cbn; lia. }
  zbool. case_goal; [eexists; split; [reflexivity|]; by left|].
  case_goal; [eexists; split; [reflexivity|]; by right|]. cbv zeta.
  destruct (Z.leb_spec (uncached_entry_next m e) e); [eexists; split; [reflexivity|]; by left|].
  destruct (IH (uncached_entry_next m e)) as (r & E & R); [lia|unfold sizeof_private_entry in *; lia|].
  exists r. split; [done|]. destruct r; [lia|done].
Qed.

(** ** Specification: a heap as a list of items

    [heap m e stop l]: the uncached entries from [e] to [stop] are well formed
    and hold the items [l], each with its number, address and size. *)

Inductive heap (m : mem) : Z -> Z -> list (Z * (Z * Z)) -> Prop :=
| heap_nil stop : heap m stop stop []
| heap_cons e stop l :
    e_canary m e = SMEM_PRIVATE_CANARY ->
    0 <= e_padding_data m e < e_size m e -> 0 <= e_padding_hdr m e ->
    uncached_entry_next m e <= stop ->
    heap m (uncached_entry_next m e) stop l ->
    heap m e stop ((e_item m e, (uncached_entry_to_item m e, e_size m e - e_padding_data m e)) :: l).

Definition heap_end (m : mem) (part : smem_partition) : Z := phdr_to_last_uncached_entry m (virt_base part).

(** The partition is consistent and its uncached heap holds [l]. *)
Record part_ok (m : mem) (part : smem_partition) (l : list (Z * (Z * Z))) : Prop := {
  pok_size : part_size part < 2 ^ 32;
  pok_addr : 0 <= virt_base part /\ virt_base part + part_size part < 2 ^ 64;
  pok_cached : phdr_offset_free_cached m (virt_base part) <= part_size part;
  pok_order : phdr_offset_free_uncached m (virt_base part) <= phdr_offset_free_cached m (virt_base part);
  pok_heap : heap m (virt_base part + sizeof_partition_header) (heap_end m part) l;
}.

(** The first item with a number, as the walk finds it. *)
Fixpoint heap_lookup (l : list (Z * (Z * Z))) (item : Z) : option (Z * Z) :=
  match l with
  | [] => None
  | (i, x) :: l' => if i =? item then Some x else heap_lookup l' item
  end.

Lemma heap_bounds m e stop l : heap m e stop l -> e <= stop.
Proof. induction 1; [lia|]. unfold uncached_entry_next, sizeof_private_entry in *. lia. Qed.

Lemma heap_agree m m' e stop l : heap m e stop l -> agree e stop m m' -> heap m' e stop l.
Proof.
  induction 1 as [|e stop l Hc Hp Hh Hn Hl IH]; intros Ha; [constructor|].
  assert (e + sizeof_private_entry <= stop) by (unfold uncached_entry_next in Hn; lia).
  destruct (agree_entry e stop m m' e Ha ltac:(lia) ltac:(done)) as (A1 & A2 & A3 & A4 & A5).
  assert (uncached_entry_next m' e = uncached_entry_next m e) as An by (unfold uncached_entry_next; by rewrite A3, A5).
  assert (uncached_entry_to_item m' e = uncached_entry_to_item m e) as Ai
    by (unfold uncached_entry_to_item; by rewrite A5).
  rewrite <- A2, <- Ai, <- A3, <- A4. constructor; rewrite ?A1, ?A3, ?A4, ?A5, ?An; try done.
  apply IH. intros x Hx. apply Ha. unfold uncached_entry_next, sizeof_private_entry in *. lia.
Qed.

Lemma heap_snoc m e stop l :
  heap m e stop l ->
  e_canary m stop = SMEM_PRIVATE_CANARY -> 0 <= e_padding_data m stop < e_size m stop -> 0 <= e_padding_hdr m stop ->
  heap m e (uncached_entry_next m stop)
    (l ++ [(e_item m stop, (uncached_entry_to_item m stop, e_size m stop - e_padding_data m stop))]).
Proof.
  intros Hl Hc Hp Hh. assert (stop <= uncached_entry_next m stop)
    by (unfold uncached_entry_next, sizeof_private_entry in *; lia).
  induction Hl as [|e stop l]; cbn [app]; constructor; try done; try lia; [constructor|auto].
Qed.

(** Both walks follow the list when they start on a heap that ends at [mid],
    at most one header short of [stop]. *)
Lemma walk_heap m part item e mid l stop fuel :
  heap m e mid l -> mid <= stop -> ~ mid + sizeof_private_entry < stop ->
  virt_base part <= e -> stop <= virt_base part + part_size part ->
  stop - e < Z.of_nat fuel -> 0 < Z.of_nat fuel ->
  walk_uncached fuel m part item e stop =
    Some (match heap_lookup l item with Some x => Found (Ok x) | None => Left mid end) /\
  alloc_scan fuel m item e stop =
    Some (match heap_lookup l item with Some _ => Err (- EEXIST) | None => Ok mid end).
Proof.
  intros Hl. revert fuel. induction Hl as [|e mid l Hc Hp Hh Hn Hl IH]; intros fuel Hm Hs Hb Hsz Hf H0;
    (destruct fuel as [|f]; [lia|]); cbn [walk_uncached alloc_scan heap_lookup].
  { rewrite (proj2 (Z.ltb_ge (stop0 + _) stop)) by lia. rewrite andb_false_r. done. }
  assert (e + sizeof_private_entry < stop /\ e < uncached_entry_next m e) as [Hlt Hnx]
    by (unfold uncached_entry_next, sizeof_private_entry in *; lia).
  unfold sizeof_private_entry in Hlt. rewrite (proj2 (Z.ltb_lt e stop)) by lia.
  rewrite (proj2 (Z.ltb_lt (e + sizeof_private_entry) stop)) by (unfold sizeof_private_entry; lia).
  rewrite (proj2 (Z.eqb_eq _ _) Hc). cbn [andb negb].
  rewrite (proj2 (Z.leb_gt _ _) Hnx). destruct (e_item m e =? item).
  - split; [|done]. do 2 f_equal. unfold entry_item, IN_PARTITION_RANGE.
    unfold uncached_entry_next, uncached_entry_to_item, sizeof_private_entry in *.
    rewrite (proj2 (Z.ltb_lt (e_size m e) (part_size part))) by lia.
    rewrite (proj2 (Z.ltb_lt (e_padding_data m e) (e_size m e))) by lia. cbn [andb].
    rewrite !(proj2 (Z.leb_le _ _)) by lia. done.
  - apply IH; try done; lia.
Qed.

Lemma part_ok_walk m part l item :
  part_ok m part l -> bytes_ok m ->
  alloc_scan (part_fuel part) m item (phdr_to_first_uncached_entry (virt_base part)) (heap_end m part) =
    Some (match heap_lookup l item with Some _ => Err (- EEXIST) | None => Ok (heap_end m part) end) /\
  walk_uncached (part_fuel part) m part item (phdr_to_first_uncached_entry (virt_base part)) (heap_end m part) =
    Some (match heap_lookup l item with Some x => Found (Ok x) | None => Left (heap_end m part) end) /\
  IN_PARTITION_RANGE (heap_end m part) 0 (virt_base part) (phdr_to_last_cached_entry m (virt_base part)) = true /\
  (virt_base part + part_size part <? phdr_to_last_cached_entry m (virt_base part)) = false.
Proof.
  intros [] Hb. pose proof (heap_bounds _ _ _ _ pok_heap0) as Hle. unfold phdr_to_first_uncached_entry.
  pose proof (rd32_bound m (virt_base part + 12) Hb) as B1. fold (phdr_offset_free_uncached m (virt_base part)) in B1.
  destruct (walk_heap m part item _ _ l (heap_end m part) (part_fuel part) pok_heap0) as [W A];
    unfold heap_end, phdr_to_last_uncached_entry, sizeof_partition_header, sizeof_private_entry, part_fuel in *; try lia.
  split; [exact A|]. split; [exact W|]. unfold IN_PARTITION_RANGE, phdr_to_last_cached_entry. split; lia.
Qed.

(** ** Lemmas: the stores of an allocation *)

(** Read back through stores: the same field, or one that does not overlap. *)
Ltac rdwr :=
  unfold rd16, rd32, wr16, wr32;
  repeat first [rewrite load_store_le_same | rewrite load_store_le_disjoint by lia].

Lemma ALIGN_u64 size : 0 <= size < 2 ^ 63 -> u64 (ALIGN size 8) = ALIGN size 8 /\ size <= ALIGN size 8 < size + 8.
Proof.
  intros H. pose proof (ALIGN_8_bounds size). split; [|done]. unfold u64. apply Z.mod_small. lia.
Qed.

Lemma write_entry_reads m hdr item size :
  0 <= item < 2 ^ 16 -> 0 <= size < 2 ^ 32 - 8 ->
  let m' := write_entry m hdr item size in
  e_canary m' hdr = SMEM_PRIVATE_CANARY /\ e_item m' hdr = item /\ e_size m' hdr = ALIGN size 8 /\
  e_padding_data m' hdr = ALIGN size 8 - size /\ e_padding_hdr m' hdr = 0 /\
  same_outside hdr (hdr + 12) m m'.
Proof.
  intros Hi Hs. destruct (ALIGN_u64 size) as [Ha Hb]; [lia|]. cbv zeta. unfold write_entry. cbv zeta. rewrite Ha.
  rewrite (u32_small (ALIGN size 8)) by lia. unfold u16. rewrite (Z.mod_small item) by lia.
  set (m3 := wr32 _ (hdr + 4) _).
  assert (e_size m3 hdr = ALIGN size 8) as E3.
  { unfold e_size, m3. rewrite load_le_wr_same_32 by lia. done. }
  rewrite E3, (Z.mod_small (ALIGN size 8 - size)) by lia.
  unfold e_canary, e_item, e_size, e_padding_data, e_padding_hdr, m3. repeat split.
  - rdwr. by vm_compute.
  - rdwr. apply Z.mod_small. cbn. lia.
  - rdwr. apply Z.mod_small. cbn. lia.
  - rdwr. apply Z.mod_small. cbn. lia.
  - rdwr. done.
  - intros x Hx. unfold wr16, wr32. rewrite !store_le_other by lia. done.
Qed.

(** A successful allocation on a consistent partition: where it writes, and
    what the headers read afterwards. *)
Lemma alloc_private_ok m part l item size :
  part_ok m part l -> bytes_ok m -> heap_lookup l item = None ->
  0 <= item < 2 ^ 16 -> 0 <= size < 2 ^ 32 - 8 ->
  let stop := heap_end m part in
  stop + sizeof_private_entry + ALIGN size 8 <= phdr_to_last_cached_entry m (virt_base part) ->
  exists m', qcom_smem_alloc_private m part item size = Some (0, m') /\ bytes_ok m' /\
    e_canary m' stop = SMEM_PRIVATE_CANARY /\ e_item m' stop = item /\ e_size m' stop = ALIGN size 8 /\
    e_padding_data m' stop = ALIGN size 8 - size /\ e_padding_hdr m' stop = 0 /\
    heap_end m' part = stop + sizeof_private_entry + ALIGN size 8 /\
    phdr_offset_free_cached m' (virt_base part) = phdr_offset_free_cached m (virt_base part) /\
    agree (virt_base part + sizeof_partition_header) stop m m'.
Proof.
  intros Hok Hb Hl Hi Hs stop Hfit. destruct (part_ok_walk m part l item Hok Hb) as (A & _ & R & P).
  pose proof (heap_bounds _ _ _ _ (pok_heap _ _ _ Hok)) as Hle. fold stop in Hle, A, R.
  destruct (ALIGN_u64 size) as [Ha Ha']; [lia|]. unfold qcom_smem_alloc_private. cbv zeta.
  fold (heap_end m part). fold stop. rewrite R, P. cbn [negb orb]. rewrite A, Hl, Ha.
  rewrite (proj2 (Z.ltb_ge stop stop)) by lia. unfold u64. unfold sizeof_private_entry, sizeof_partition_header in *.
  rewrite (Z.mod_small (16 + ALIGN size 8)) by lia. pose proof (pok_addr _ _ _ Hok) as [Hv1 Hv2].
  pose proof (pok_cached _ _ _ Hok) as Hv3. unfold phdr_to_last_cached_entry in Hfit at 1.
  rewrite (Z.mod_small (stop + _)) by lia. fold (phdr_to_last_cached_entry m (virt_base part)) in Hfit.
  rewrite (proj2 (Z.ltb_ge _ (stop + _))) by lia.
  eexists. split; [reflexivity|]. set (m1 := write_entry m stop item size).
  destruct (write_entry_reads m stop item size Hi Hs) as (W1 & W2 & W3 & W4 & W5 & W6). fold m1 in W1, W2, W3, W4, W5, W6.
  assert (bytes_ok m1) as Hb1 by (unfold m1, write_entry, wr16, wr32; cbv zeta; auto 10 with kernel).
  pose proof (rd32_bound m (virt_base part + 12) Hb) as B1. pose proof (rd32_bound m (virt_base part + 16) Hb) as B2.
  assert (phdr_offset_free_uncached m1 (virt_base part) = phdr_offset_free_uncached m (virt_base part)) as E1
    by (apply load_le_ext; intros; apply W6; lia).
  assert (phdr_offset_free_cached m1 (virt_base part) = phdr_offset_free_cached m (virt_base part)) as E2
    by (apply load_le_ext; intros; apply W6; lia).
  assert (phdr_offset_free_uncached m (virt_base part) + (16 + ALIGN size 8) <= phdr_offset_free_cached m (virt_base part)) as F
    by (unfold stop, heap_end, phdr_to_last_uncached_entry, phdr_to_last_cached_entry in *; lia).
  fold (phdr_offset_free_uncached m (virt_base part)) in B1. fold (phdr_offset_free_cached m (virt_base part)) in B2.
  rewrite E1, u32_small by lia. set (m' := wr32 m1 _ _).
  assert (forall x, x < virt_base part + 12 \/ virt_base part + 16 <= x -> m' x = m1 x) as O
    by (intros; unfold m', wr32; apply store_le_other; lia).
  destruct (agree_entry stop (stop + 16) m1 m' stop) as (A1 & A2 & A3 & A4 & A5);
    [intros x Hx; apply O; lia|lia|unfold sizeof_private_entry; lia|].
  split; [unfold m', wr32; auto with kernel|]. rewrite A1, A2, A3, A4, A5. do 5 (split; [done|]). split; [|split].
  - unfold heap_end, phdr_to_last_uncached_entry, phdr_offset_free_uncached, m'. rewrite load_le_wr_same_32 by lia.
    unfold stop, heap_end, phdr_to_last_uncached_entry. lia.
  - rewrite <- E2. apply load_le_ext. intros. apply O. lia.
  - intros x Hx. rewrite O, W6 by lia. done.
Qed.

Lemma get_private_found m part l item x :
  part_ok m part l -> bytes_ok m -> heap_lookup l item = Some x -> qcom_smem_get_private m part item = Some (Ok x).
Proof.
  intros Hok Hb Hl. destruct (part_ok_walk m part l item Hok Hb) as (_ & W & R & P).
  unfold qcom_smem_get_private. cbv zeta. fold (heap_end m part). rewrite R, P. cbn [negb orb].
  by rewrite W, Hl.
Qed.

Lemma heap_lookup_app l l' item :
  heap_lookup (l ++ l') item = match heap_lookup l item with Some x => Some x | None => heap_lookup l' item end.
Proof. induction l as [|[i x] l IH]; cbn; [done|]. by case_goal. Qed.

(** The header of a partition is read inside the partition. *)
Lemma agree_phdr m m' b z line :
  32 <= z -> agree b (b + z) m m' ->
  phdr_to_last_uncached_entry m' b = phdr_to_last_uncached_entry m b /\
  phdr_to_last_cached_entry m' b = phdr_to_last_cached_entry m b /\
  phdr_to_first_cached_entry m' b line = phdr_to_first_cached_entry m b line.
Proof.
  intros Hs Hag. unfold phdr_to_last_uncached_entry, phdr_to_last_cached_entry, phdr_to_first_cached_entry,
    phdr_offset_free_uncached, phdr_offset_free_cached, phdr_size.
  rewrite !(agree_rd32 b (b + z) m m') by (done || lia). done.
Qed.

(** ** Properties *)

(** C13. Looking an item up in a partition is memory safe whatever the bytes
    of the partition are: the lookup ends, an address it returns spans bytes
    of the partition, and its answer depends on bytes of the partition only. *)
Theorem get_private_safe (m : mem) (part : smem_partition) (item : Z) :
  sizeof_partition_header <= part_size part ->
  exists r, qcom_smem_get_private m part item = Some r /\
    (forall p n, r = Ok (p, n) ->
       virt_base part <= p /\ 0 < n /\ p + n <= virt_base part + part_size part) /\
    (forall m', agree (virt_base part) (virt_base part + part_size part) m m' ->
       qcom_smem_get_private m' part item = Some r).
Proof.
  unfold sizeof_partition_header. intros Hs. set (b := virt_base part). set (z := part_size part).
  pose proof (fun m' => agree_phdr m m' b z (cacheline part) Hs) as A. fold b z in A.
  unfold qcom_smem_get_private. cbv zeta. fold b z.
  set (ue := phdr_to_last_uncached_entry m b). set (ce := phdr_to_last_cached_entry m b).
  destruct (negb (IN_PARTITION_RANGE ue 0 b ce) || (b + z <? ce)) eqn:E0.
  { eexists. split; [reflexivity|]. split; [done|]. intros m' Hag. destruct (A m' Hag) as (-> & -> & _).
    fold ue ce. by rewrite E0. }
  assert (b <= ue /\ ue <= ce /\ ce <= b + z) as (B1 & B2 & B3) by (unfold IN_PARTITION_RANGE in E0; lia).
  assert (z < Z.of_nat (part_fuel part)) as Hf by (unfold part_fuel; fold z; lia).
  destruct (walk_uncached_spec (part_fuel part) m part item (phdr_to_first_uncached_entry b) ue b)
    as (w & Ew & W1 & _ & W3); [unfold phdr_to_first_uncached_entry, sizeof_partition_header; lia..|].
  assert (forall m', agree b (b + z) m m' -> agree b ue m m' /\ agree ce (b + z) m m') as Sub
    by (intros m' Hag; split; intros x Hx; apply Hag; lia).
  rewrite Ew. destruct w as [r|e].
  { exists r. split; [done|]. split.
    - intros p n ->. specialize (W1 p n eq_refl). unfold phdr_to_first_uncached_entry, sizeof_partition_header in W1. lia.
    - intros m' Hag. destruct (A m' Hag) as (-> & -> & _). fold ue ce. rewrite E0. by rewrite W3 by (by apply Sub). }
  set (fe := phdr_to_first_cached_entry m b (cacheline part)).
  destruct (ue <? e) eqn:E1; [|destruct (ce =? b + z) eqn:E2; [|destruct (negb _ || negb _) eqn:E3]].
  1-3: eexists; (split; [reflexivity|]); (split; [done|]); intros m' Hag; destruct (A m' Hag) as (-> & -> & ->);
    fold ue ce fe; rewrite E0, W3 by (by apply Sub); rewrite E1, ?E2, ?E3; done.
  destruct (walk_cached_spec (part_fuel part) m part item fe ce (b + z)) as (w & Ec & C1 & C3);
    [unfold IN_PARTITION_RANGE in E3; lia|unfold IN_PARTITION_RANGE, sizeof_private_entry in E3; lia|lia|].
  rewrite Ec. assert (forall m', agree b (b + z) m m' ->
    walk_uncached (part_fuel part) m' part item (phdr_to_first_uncached_entry b) ue = Some (Left e) /\
    walk_cached (part_fuel part) m' part item fe ce = Some w) as Ag
    by (intros m' Hag; split; [apply W3|apply C3]; by apply Sub).
  destruct w as [r|e'].
  - exists r. split; [done|]. split.
    + intros p n ->. specialize (C1 p n eq_refl). unfold IN_PARTITION_RANGE, sizeof_private_entry in E3. lia.
    + intros m' Hag. destruct (A m' Hag) as (-> & -> & ->), (Ag m' Hag) as [Y1 Y2].
      fold ue ce fe. by rewrite E0, Y1, E1, E2, E3, Y2.
  - exists (if e' <? b then Err (- EINVAL) else Err (- ENOENT)). split; [by case_goal|]. split; [by case_goal|].
    intros m' Hag. destruct (A m' Hag) as (-> & -> & ->), (Ag m' Hag) as [Y1 Y2].
    fold ue ce fe. rewrite E0, Y1, E1, E2, E3, Y2. by case_goal.
Qed.

(** An allocation in a partition writes inside the partition only,
    whatever the bytes of the partition are: the call ends, on an error the
    memory is unchanged, and on success the bytes that change are the free
    offset of the header and bytes of the heap below the cached entries. *)
Theorem alloc_private_contained (m : mem) (part : smem_partition) (item size : Z) :
  0 <= size < 2 ^ 63 -> 0 <= virt_base part -> virt_base part + part_size part + size + 24 <= 2 ^ 64 ->
  exists ret m', qcom_smem_alloc_private m part item size = Some (ret, m') /\
    (ret <> 0 -> m' = m) /\
    (ret = 0 -> phdr_to_last_cached_entry m (virt_base part) <= virt_base part + part_size part /\
       forall x, m' x <> m x ->
         virt_base part + 12 <= x < virt_base part + 16 \/
         virt_base part + sizeof_partition_header <= x < phdr_to_last_cached_entry m (virt_base part)).
Proof.
  intros Hs Hv Hv'. unfold qcom_smem_alloc_private. cbv zeta. set (b := virt_base part) in *. pose proof (ALIGN_8_bounds size).
  destruct (negb _ || _) eqn:E0; [by eexists _, _|]. unfold IN_PARTITION_RANGE in E0.
  destruct (alloc_scan_total (part_fuel part) m item (phdr_to_first_uncached_entry b) (phdr_to_last_uncached_entry m b))
    as (r & -> & R); [unfold part_fuel, phdr_to_first_uncached_entry, sizeof_partition_header; lia..|].
  destruct r as [hdr|e].
  2: { eexists _, _. split; [reflexivity|]. split; [done|]. destruct R as [->| ->]; intros Hr; discriminate Hr. }
  case_goal; [by eexists _, _|]. destruct (ALIGN_u64 size Hs) as [Ha Hb]. rewrite Ha.
  unfold u64. unfold sizeof_private_entry. rewrite (Z.mod_small (16 + _)) by lia. zbool.
  unfold phdr_to_first_uncached_entry, sizeof_partition_header in R. rewrite Z.mod_small by lia.
  destruct (Z.ltb_spec (phdr_to_last_cached_entry m b) (hdr + (16 + ALIGN size 8))); [by eexists _, _|].
  eexists _, _. split; [reflexivity|]. split; [done|]. intros _. split; [lia|]. intros x Hx.
  destruct (Z_lt_dec x (b + 12)), (Z_lt_dec x (b + 16)); try lia;
  (destruct (Z_lt_dec x hdr); [|destruct (Z_lt_dec x (hdr + 12))]);
    unfold phdr_to_first_uncached_entry, sizeof_partition_header in *; try lia;
    exfalso; apply Hx; unfold write_entry, wr16, wr32; cbv zeta; rewrite !store_le_other by lia; done.
Qed.

(** C36. Allocation and lookup: on a consistent partition with room, allocating
    a new item of non-zero size succeeds and keeps the partition consistent
    with that item added; the lookup of the item then gives the bytes after
    its header, as many as were asked for, and every item that was there is
    found where it was, its bytes untouched. *)
Theorem alloc_get_roundtrip (m : mem) (part : smem_partition) (l : list (Z * (Z * Z))) (item size : Z) :
  part_ok m part l -> bytes_ok m -> heap_lookup l item = None -> 0 <= item < 2 ^ 16 -> 0 < size < 2 ^ 32 - 8 ->
  let stop := heap_end m part in
  stop + sizeof_private_entry + ALIGN size 8 <= phdr_to_last_cached_entry m (virt_base part) ->
  exists m', qcom_smem_alloc_private m part item size = Some (0, m') /\
    part_ok m' part (l ++ [(item, (stop + sizeof_private_entry, size))]) /\
    qcom_smem_get_private m' part item = Some (Ok (stop + sizeof_private_entry, size)) /\
    (forall i x, heap_lookup l i = Some x -> qcom_smem_get_private m' part i = Some (Ok x)) /\
    agree (virt_base part + sizeof_partition_header) stop m m'.
Proof.
  intros Hok Hb Hl Hi Hs stop Hfit. pose proof (ALIGN_8_bounds size) as Ha.
  destruct (alloc_private_ok m part l item size Hok Hb Hl Hi ltac:(lia) Hfit)
    as (m' & E & Hb' & W1 & W2 & W3 & W4 & W5 & He & Hc & Ag). fold stop in W1, W2, W3, W4, W5, He, Ag.
  assert (part_ok m' part (l ++ [(item, (stop + sizeof_private_entry, size))])) as Hok'.
  { destruct Hok. split; [done|done|by rewrite Hc| |].
    - rewrite Hc. unfold heap_end, phdr_to_last_uncached_entry, phdr_to_last_cached_entry in *. lia.
    - rewrite He. pose proof (heap_snoc m' _ stop l (heap_agree _ _ _ _ _ pok_heap0 Ag) W1) as Sn.
      unfold uncached_entry_next, uncached_entry_to_item in Sn. rewrite W2, W3, W4, W5 in Sn.
      replace (ALIGN size 8 - (ALIGN size 8 - size)) with size in Sn by lia. rewrite Z.add_0_r in Sn. apply Sn; lia. }
  exists m'. split; [done|]. split; [done|]. split; [|split; [|done]].
  - apply (get_private_found _ _ _ _ _ Hok' Hb'). rewrite heap_lookup_app, Hl. cbn. by rewrite Z.eqb_refl.
  - intros i x Hx. apply (get_private_found _ _ _ _ _ Hok' Hb'). by rewrite heap_lookup_app, Hx.
Qed.

(** An item that is already there is not allocated again: on a consistent
    partition the allocation answers -EEXIST without touching the memory. *)
Theorem alloc_existing_item (m : mem) (part : smem_partition) (l : list (Z * (Z * Z))) (item size : Z) (x : Z * Z) :
  part_ok m part l -> bytes_ok m -> heap_lookup l item = Some x ->
  qcom_smem_alloc_private m part item size = Some (- EEXIST, m).
Proof.
  intros Hok Hb Hl. destruct (part_ok_walk m part l item Hok Hb) as (A & _ & R & P).
  unfold qcom_smem_alloc_private. cbv zeta. fold (heap_end m part). rewrite R, P. cbn [negb orb]. by rewrite A, Hl.
Qed.

(** An allocation of size zero is lost: it reports success and uses up an
    entry header, but the item is not found afterwards, and allocating it
    again is not refused. *)
Theorem alloc_zero_size_lost (m : mem) (part : smem_partition) (l : list (Z * (Z * Z))) (item : Z) :
  part_ok m part l -> bytes_ok m -> heap_lookup l item = None -> 0 <= item < 2 ^ 16 ->
  phdr_offset_free_cached m (virt_base part) = part_size part ->
  heap_end m part + 2 * sizeof_private_entry <= virt_base part + part_size part ->
  exists m1 m2, qcom_smem_alloc_private m part item 0 = Some (0, m1) /\
    heap_end m1 part = heap_end m part + sizeof_private_entry /\
    qcom_smem_get_private m1 part item = Some (Err (- ENOENT)) /\
    qcom_smem_alloc_private m1 part item 0 = Some (0, m2).
Proof.
  intros Hok Hb Hl Hi Hend Hfit. unfold sizeof_private_entry in Hfit.
  destruct (alloc_private_ok m part l item 0 Hok Hb Hl Hi ltac:(lia)) as (m1 & E & Hb1 & _ & _ & _ & _ & _ & He & Hc & Ag).
  { unfold phdr_to_last_cached_entry, sizeof_private_entry. rewrite Hend. change (ALIGN 0 8) with 0. lia. }
  change (ALIGN 0 8) with 0 in He. rewrite Z.add_0_r in He.
  pose proof (heap_agree _ _ _ _ _ (pok_heap _ _ _ Hok) Ag) as Hh. pose proof (heap_bounds _ _ _ _ Hh) as Hle.
  destruct (walk_heap m1 part item _ _ l (heap_end m1 part) (part_fuel part) Hh) as [W A];
    unfold sizeof_partition_header, sizeof_private_entry, part_fuel in *; try lia. rewrite Hl in W, A.
  assert (phdr_to_last_cached_entry m1 (virt_base part) = virt_base part + part_size part) as Ce
    by (unfold phdr_to_last_cached_entry; lia).
  assert (negb (IN_PARTITION_RANGE (heap_end m1 part) 0 (virt_base part) (virt_base part + part_size part)) ||
    (virt_base part + part_size part <? virt_base part + part_size part) = false) as R
    by (unfold IN_PARTITION_RANGE; lia).
  exists m1. unfold qcom_smem_get_private, qcom_smem_alloc_private at 2. cbv zeta. fold (heap_end m1 part).
  unfold phdr_to_first_uncached_entry, sizeof_partition_header, part_fuel. rewrite Ce, R, W, A.
  rewrite !(proj2 (Z.ltb_ge (heap_end m1 part) (heap_end m part))) by lia.
  rewrite (Z.eqb_refl (virt_base part + part_size part)).
  change (u64 (sizeof_private_entry + u64 (ALIGN 0 8))) with 16.
  pose proof (pok_addr _ _ _ Hok). unfold u64. rewrite (Z.mod_small (heap_end m part + 16)) by lia.
  rewrite (proj2 (Z.ltb_ge _ (heap_end m part + 16))) by lia.
  eexists. split; [exact E|]. split; [done|]. split; reflexivity.
Qed.

(** The global heap: allocating a free item of at most the available size
    gives it the next free bytes, moves the free offset up and the available
    count down by the aligned size, the lookup of the item finds exactly those
    bytes, and a second allocation is refused. *)
Theorem alloc_global_roundtrip (sm : qcom_smem) (item size : Z) :
  let m := smem_mem sm in
  let h := region_virt (region0 sm) in
  let a := ALIGN size 8 in
  bytes_ok m -> 0 <= item < SMEM_ITEM_COUNT -> 0 <= size < 2 ^ 32 -> regions sm <> [] ->
  rd32 m (header_toc h item) = 0 -> Z.land (rd32 m (header_toc h item + 12)) AUX_BASE_MASK = 0 ->
  a <= rd32 m (header_available h) ->
  rd32 m (header_free_offset h) + a <= region_size (region0 sm) -> region_size (region0 sm) < 2 ^ 32 ->
  exists m', qcom_smem_alloc_global m h item size = (0, m') /\
    qcom_smem_get_global (sm <| smem_mem := m' |>) item = Ok (h + rd32 m (header_free_offset h), a) /\
    rd32 m' (header_free_offset h) = rd32 m (header_free_offset h) + a /\
    rd32 m' (header_available h) = rd32 m (header_available h) - a /\
    qcom_smem_alloc_global m' h item size = (- EEXIST, m').
Proof.
  intros m h a Hb Hi Hs Hr H0 Hx Ha Hf Hz. destruct (ALIGN_u64 size) as [Ha1 Ha2]; [lia|]. fold a in Ha1, Ha2.
  pose proof (rd32_bound m (header_free_offset h) Hb) as B1. pose proof (rd32_bound m (header_available h) Hb) as B2.
  unfold qcom_smem_alloc_global at 1. cbv zeta. rewrite H0. fold a. rewrite Ha1.
  rewrite (proj2 (Z.ltb_ge _ a)) by lia. rewrite (u32_small a) by lia.
  set (fo := rd32 m (header_free_offset h)) in *. set (av := rd32 m (header_available h)) in *.
  set (en := header_toc h item) in *.
  assert (en = h + 208 + 16 * item) as Een by done. unfold SMEM_ITEM_COUNT in Hi.
  unfold header_free_offset, header_available in *.
  set (m1 := wr32 m (en + 4) fo). set (m2 := wr32 m1 (en + 8) a). set (m3 := wr32 m2 en 1).
  assert (rd32 m3 (h + 196) = fo) as R1 by (unfold m3, m2, m1; rdwr; done).
  rewrite R1, (u32_small (fo + a)) by lia. set (m4 := wr32 m3 (h + 196) (fo + a)).
  assert (rd32 m4 (h + 200) = av) as R2 by (unfold m4, m3, m2, m1; rdwr; done).
  rewrite R2, (u32_small (av - a)) by lia. eexists. split; [reflexivity|]. set (m5 := wr32 m4 (h + 200) (av - a)).
  assert (rd32 m5 en = 1 /\ rd32 m5 (en + 4) = fo /\ rd32 m5 (en + 8) = a /\ rd32 m5 (en + 12) = rd32 m (en + 12) /\
    rd32 m5 (h + 196) = fo + a /\ rd32 m5 (h + 200) = av - a) as (Q1 & Q2 & Q3 & Q4 & Q5 & Q6).
  { unfold m5, m4, m3, m2, m1. repeat split; rdwr; try done; apply Z.mod_small;
      change (256 ^ Z.of_nat 4) with (2 ^ 32); lia. }
  split; [|split; [done|split; [done|]]].
  - unfold qcom_smem_get_global. cbv zeta. change (smem_mem (sm <| smem_mem := m5 |>)) with m5.
    change (region0 (sm <| smem_mem := m5 |>)) with (region0 sm). fold h. fold en. rewrite Q1, Q4, Hx. cbn [truth negb Z.eqb].
    change (regions (sm <| smem_mem := m5 |>)) with (regions sm).
    unfold region0 in *. destruct (regions sm) as [|r rs]; [done|]. cbn [find_region]. rewrite orb_true_r, Q2, Q3.
    change ((r :: rs) !!! 0%nat) with r in *. rewrite (proj2 (Z.ltb_ge (region_size r) _)) by lia. done.
  - unfold qcom_smem_alloc_global. fold en. by rewrite Q1.
Qed.

(** ** A concrete partition of 1024 bytes at address 4096, empty, and the same
    after one allocation; and a global heap of 16384 bytes at address 8192. *)

Definition demo_part : smem_partition := mk_part 4096 2147483648 32 1024.

Definition demo_part_mem : mem :=
  wr32 (wr32 (wr32 (fun _ => 0) 4104 1024) 4108 32) 4112 1024.

Definition demo_part_mem1 : mem :=
  match qcom_smem_alloc_private demo_part_mem demo_part 100 20 with
  | Some (_, m) => m
  | None => demo_part_mem
  end.

Lemma demo_part_bytes : bytes_ok demo_part_mem.
Proof. unfold demo_part_mem, wr32. repeat apply bytes_ok_store_le. intros a. lia. Qed.

Lemma demo_part_ok : part_ok demo_part_mem demo_part [].
Proof.
  split; [done|cbn; lia|by vm_compute|by vm_compute|].
  replace (heap_end demo_part_mem demo_part) with 4128 by (by vm_compute). constructor.
Qed.

Lemma demo_part_bytes1 : bytes_ok demo_part_mem1.
Proof.
  unfold demo_part_mem1. destruct (alloc_private_ok demo_part_mem demo_part [] 100 20 demo_part_ok demo_part_bytes)
    as (m' & -> & Hb & _); [done|lia|lia|vm_compute; congruence|exact Hb].
Qed.

Lemma demo_part_ok1 : part_ok demo_part_mem1 demo_part [(100, (4144, 20))].
Proof.
  split; [done|cbn; lia|by vm_compute|by vm_compute|].
  replace (heap_end demo_part_mem1 demo_part) with 4168 by (by vm_compute).
  replace [(100, (4144, 20))] with
    [(e_item demo_part_mem1 4128, (uncached_entry_to_item demo_part_mem1 4128,
       e_size demo_part_mem1 4128 - e_padding_data demo_part_mem1 4128))] by (by vm_compute).
  apply heap_cons; [by vm_compute|vm_compute; intuition congruence|vm_compute; congruence|vm_compute; congruence|].
  replace (uncached_entry_next demo_part_mem1 4128) with 4168 by (by vm_compute). constructor.
Qed.

Lemma get_private_safe_witness :
  exists r, qcom_smem_get_private demo_part_mem1 demo_part 100 = Some r.
Proof.
  destruct (get_private_safe demo_part_mem1 demo_part 100) as (r & E & _); [vm_compute; congruence|].
  exists r. exact E.
Defined.

Lemma alloc_private_contained_witness :
  exists ret m', qcom_smem_alloc_private demo_part_mem demo_part 100 20 = Some (ret, m').
Proof.
  destruct (alloc_private_contained demo_part_mem demo_part 100 20) as (ret & m' & E & _); [lia|cbn; lia..|].
  exists ret, m'. exact E.
Defined.

Lemma alloc_get_roundtrip_witness :
  exists m', qcom_smem_alloc_private demo_part_mem1 demo_part 101 5 = Some (0, m') /\
    qcom_smem_get_private m' demo_part 101 = Some (Ok (4184, 5)) /\
    qcom_smem_get_private m' demo_part 100 = Some (Ok (4144, 20)).
Proof.
  destruct (alloc_get_roundtrip demo_part_mem1 demo_part [(100, (4144, 20))] 101 5) as (m' & E & _ & G & K & _).
  - apply demo_part_ok1.
  - apply demo_part_bytes1.
  - reflexivity.
  - lia.
  - lia.
  - vm_compute. congruence.
  - exists m'. split; [exact E|]. split; [|apply K; reflexivity].
    replace 4184 with (heap_end demo_part_mem1 demo_part + sizeof_private_entry) by (vm_compute; reflexivity). exact G.
Defined.

Lemma alloc_existing_item_witness :
  qcom_smem_alloc_private demo_part_mem1 demo_part 100 64 = Some (- EEXIST, demo_part_mem1).
Proof.
  apply (alloc_existing_item demo_part_mem1 demo_part [(100, (4144, 20))] 100 64 (4144, 20));
    [apply demo_part_ok1|apply demo_part_bytes1|reflexivity].
Defined.

Lemma alloc_zero_size_lost_witness :
  exists m1 m2, qcom_smem_alloc_private demo_part_mem demo_part 100 0 = Some (0, m1) /\
    qcom_smem_alloc_private m1 demo_part 100 0 = Some (0, m2).
Proof.
  destruct (alloc_zero_size_lost demo_part_mem demo_part [] 100) as (m1 & m2 & E1 & _ & _ & E2).
  - apply demo_part_ok.
  - apply demo_part_bytes.
  - reflexivity.
  - lia.
  - vm_compute. reflexivity.
  - vm_compute. congruence.
  - exists m1, m2. split; [exact E1|exact E2].
Defined.

Definition demo_smem : qcom_smem :=
  mk_smem (wr32 (wr32 (fun _ => 0) 8388 9000) 8392 4096) 512 0 no_part (replicate 25 no_part)
    [mk_region 2147483648 8192 16384].

Lemma alloc_global_roundtrip_witness :
  exists m', qcom_smem_alloc_global (smem_mem demo_smem) 8192 10 13 = (0, m') /\
    qcom_smem_get_global (demo_smem <| smem_mem := m' |>) 10 = Ok (17192, 16).
Proof.
  destruct (alloc_global_roundtrip demo_smem 10 13) as (m' & E & G & _).
  - unfold demo_smem, wr32. repeat apply bytes_ok_store_le. intros a. lia.
  - unfold SMEM_ITEM_COUNT. lia.
  - lia.
  - discriminate.
  - vm_compute. reflexivity.
  - vm_compute. reflexivity.
  - vm_compute. congruence.
  - vm_compute. congruence.
  - vm_compute. reflexivity.
  - exists m'. split; [exact E|]. rewrite G. vm_compute. reflexivity.
Defined.
