(* ===== verification/GlinkSmem.v ===== *)
(** * GLINK over shared memory: the transmit and receive FIFOs

    Models drivers/rpmsg/qcom_glink_smem.c. A [glink_smem_pipe] is a circular
    byte buffer in shared memory with two 32-bit indices, also in shared
    memory: the writer owns [head], the reader owns [tail]. Every operation
    reads the indices from the memory of the shared memory manager
    ([Smem.qcom_smem]), so a remote processor that rewrites them is simply a
    different memory. An access outside the buffer, or a division by zero, is
    the outcome [None].

    The theorems: with any contents of the index words the reader stays inside
    the buffer; with sane indices the pipe is a queue of bytes, across the wrap
    of the buffer; [tx_avail] never promises room that a write does not have. *)

From stdpp Require Import prelude list.
From S2P Require Import Prelude.
From S2P Require Import Smem.

(** ** Data *)

Definition FIFO_FULL_RESERVE : Z := 8.

Definition FIFO_ALIGNMENT : Z := 8.

Definition TX_BLOCKED_CMD_RESERVE : Z := 8.

Definition SMEM_GLINK_NATIVE_XPRT_DESCRIPTOR : Z := 478.

Definition SMEM_GLINK_NATIVE_XPRT_FIFO_0 : Z := 479.

Definition SMEM_GLINK_NATIVE_XPRT_FIFO_1 : Z := 480.

Definition SZ_16K : Z := 16384.

(** [tail], [head] and [fifo] are addresses; a [fifo] of 0 is the null pointer. *)
Record glink_smem_pipe := mk_pipe {
  length_of : Z;
  tail : Z;
  head : Z;
  fifo : Z;
  remote_pid : Z;
}.

#[export] Instance eta_glink_smem_pipe : Settable glink_smem_pipe :=
  fun p => mk_pipe (length_of p) (tail p) (head p) (fifo p) (remote_pid p).

(** ** The receive pipe *)

(** The number of unread bytes, from the two indices ([size_t] arithmetic). *)
Definition rx_len (m : mem) (p : glink_smem_pipe) : Z :=
  let h := rd32 m (head p) in
  let t := rd32 m (tail p) in
  let len := if h <? t then u64 (length_of p - t + h) else h - t in
  if length_of p <? len then 0 else len.

(** [None]: the walk over the shared memory heap did not end. *)
Definition glink_smem_rx_avail (sm : qcom_smem) (p : glink_smem_pipe) : option (Z * glink_smem_pipe) :=
  if fifo p =? 0 then
    match qcom_smem_get (Some sm) (remote_pid p) SMEM_GLINK_NATIVE_XPRT_FIFO_1 with
    | None => None
    | Some (Err _) => Some (0, p)
    | Some (Ok (addr, len)) =>
        let p' := p <| fifo := addr |> <| length_of := len |> in
        Some (rx_len (smem_mem sm) p', p')
    end
  else Some (rx_len (smem_mem sm) p, p).

(** [memcpy_fromio(_, fifo + off, n)], guarded by [if (len)] in the source:
    [None] when it would leave the buffer. *)
Definition fifo_read (m : mem) (p : glink_smem_pipe) (off n : Z) : option (list Z) :=
  if n =? 0 then Some []
  else if (0 <=? off) && (off + n <=? length_of p)
  then Some (load_bytes (Z.to_nat n) m (fifo p + off))
  else None.

(** [data] is the destination's previous contents, which stay there when the
    tail is found out of range. *)
Definition glink_smem_rx_peek (m : mem) (p : glink_smem_pipe) (data : list Z) (offset count : Z)
  : option (list Z) :=
  let t := rd32 m (tail p) in
  if length_of p <? t then Some data
  else
    let t := u32 (t + offset) in
    let t := if length_of p <=? t then u32 (t - length_of p) else t in
    let len := Z.min count (u64 (length_of p - t)) in
    match fifo_read m p t len with
    | None => None
    | Some b1 =>
        match fifo_read m p 0 (count - len) with
        | None => None
        | Some b2 => Some (b1 ++ b2)
        end
    end.

(** [None]: remainder by zero. *)
Definition glink_smem_rx_advance (m : mem) (p : glink_smem_pipe) (count : Z) : option mem :=
  let t := u32 (rd32 m (tail p) + count) in
  if length_of p <=? t then
    if length_of p =? 0 then None else Some (wr32 m (tail p) (t mod length_of p))
  else Some (wr32 m (tail p) t).

(** ** The transmit pipe *)

(** [u32] arithmetic, unlike the receive side. *)
Definition glink_smem_tx_avail (m : mem) (p : glink_smem_pipe) : Z :=
  let h := rd32 m (head p) in
  let t := rd32 m (tail p) in
  let avail := if t <=? h then u32 (length_of p - h + t) else t - h in
  let avail :=
    if avail <? FIFO_FULL_RESERVE + TX_BLOCKED_CMD_RESERVE then 0
    else avail - (FIFO_FULL_RESERVE + TX_BLOCKED_CMD_RESERVE) in
  if length_of p <? avail then 0 else avail.

(** [memcpy(fifo + off, bs, n)]: [None] when it would leave the buffer. *)
Definition fifo_write (m : mem) (p : glink_smem_pipe) (off : Z) (bs : list Z) : option mem :=
  if Z.of_nat (length bs) =? 0 then Some m
  else if (0 <=? off) && (off + Z.of_nat (length bs) <=? length_of p)
  then Some (store_bytes m (fifo p + off) bs)
  else None.

Definition glink_smem_tx_write_one (m : mem) (p : glink_smem_pipe) (h : Z) (data : list Z)
  : option (Z * mem) :=
  if length_of p <? h then Some (h, m)
  else
    let count := Z.of_nat (length data) in
    let len := Z.to_nat (Z.min count (u64 (length_of p - h))) in
    match fifo_write m p h (take len data) with
    | None => None
    | Some m1 =>
        match fifo_write m1 p 0 (drop len data) with
        | None => None
        | Some m2 =>
            let h := u32 (h + count) in
            Some (if length_of p <=? h then u32 (h - length_of p) else h, m2)
        end
    end.

Definition glink_smem_tx_write (m : mem) (p : glink_smem_pipe) (hdr data : list Z) : option mem :=
  match glink_smem_tx_write_one m p (rd32 m (head p)) hdr with
  | None => None
  | Some (h1, m1) =>
      match glink_smem_tx_write_one m1 p h1 data with
      | None => None
      | Some (h2, m2) =>
          let h := u32 (ALIGN h2 8) in
          let h := if length_of p <=? h then u32 (h - length_of p) else h in
          Some (wr32 m2 (head p) h)
      end
  end.

(** The doorbell: a mailbox message and its completion. *)
Inductive mbox_op := MboxSend | MboxTxdone.

Definition glink_smem_tx_kick : list mbox_op := [MboxSend; MboxTxdone].

(** ** Registration of an edge

    [reg_env] holds what the rest of the kernel answers to each call, in the
    order of the calls. *)
Record reg_env := mk_reg_env {
  env_smem_alloc : bool;        (* kzalloc of the edge *)
  env_device_register : Z;
  env_remote_pid : result Z;    (* of_property_read_u32 *)
  env_pipes_alloc : bool;       (* both devm_kzalloc *)
  env_lock_desc : Z;            (* hwspinlock of the descriptor allocation *)
  env_lock_fifo : Z;
  env_request_irq : Z;
  env_mbox : result Z;
  env_probe : result Z;         (* qcom_glink_native_probe *)
}.

(** What registration acquired or released, oldest first. *)
Inductive reg_event :=
| EvDeviceRegistered
| EvDevicePut
| EvDeviceUnregistered
| EvMboxRequested
| EvMboxFreed
| EvIrqEnabled.

#[export] Instance reg_event_eq_dec : EqDecision reg_event.
Proof. solve_decision. Defined.

Definition set_mem (s : option qcom_smem) (f : mem -> mem) : option qcom_smem :=
  match s with
  | Some sm => Some (sm <| smem_mem := f (smem_mem sm) |>)
  | None => None
  end.

(** The edge: its receive pipe, its transmit pipe and the native context. *)
Definition edge : Type := glink_smem_pipe * glink_smem_pipe * Z.

Definition reg_out : Type := result edge * list reg_event * option qcom_smem.

(** [err_put_dev] *)
Definition err_put_dev (ret : Z) (ev : list reg_event) (s : option qcom_smem) : reg_out :=
  (Err ret, ev ++ [EvDeviceUnregistered], s).

(** The last part of registration, once both pipes exist: IRQ, mailbox, index
    reset, native probe. *)
Definition register_edge (env : reg_env) (s : option qcom_smem) (rx tx : glink_smem_pipe)
    (ev : list reg_event) : reg_out :=
  if truth (env_request_irq env) then err_put_dev (env_request_irq env) ev s
  else match env_mbox env with
  | Err e => err_put_dev e ev s
  | Ok _ =>
      let ev := ev ++ [EvMboxRequested] in
      let s := set_mem s (fun m => wr32 m (tail rx) 0) in
      let s := set_mem s (fun m => wr32 m (head tx) 0) in
      match env_probe env with
      | Err e => err_put_dev e (ev ++ [EvMboxFreed]) s
      | Ok g => (Ok (rx, tx, g), ev ++ [EvIrqEnabled], s)
      end
  end.

(** The middle part: descriptor item, transmit FIFO item. [None]: a walk over
    the shared memory heap did not end. *)
Definition register_pipes (env : reg_env) (s : option qcom_smem) (pid : Z) (ev : list reg_event)
  : option reg_out :=
  match qcom_smem_alloc s pid SMEM_GLINK_NATIVE_XPRT_DESCRIPTOR 32 (env_lock_desc env) with
  | None => None
  | Some (ret, s) =>
      if truth ret && negb (ret =? - EEXIST) then Some (err_put_dev ret ev s)
      else match qcom_smem_get s pid SMEM_GLINK_NATIVE_XPRT_DESCRIPTOR with
      | None => None
      | Some (Err e) => Some (err_put_dev e ev s)
      | Some (Ok (descs, size)) =>
          if negb (size =? 32) then Some (err_put_dev (- EINVAL) ev s)
          else match qcom_smem_alloc s pid SMEM_GLINK_NATIVE_XPRT_FIFO_0 SZ_16K (env_lock_fifo env) with
          | None => None
          | Some (ret, s) =>
              if truth ret && negb (ret =? - EEXIST) then Some (err_put_dev ret ev s)
              else match qcom_smem_get s pid SMEM_GLINK_NATIVE_XPRT_FIFO_0 with
              | None => None
              | Some (Err e) => Some (err_put_dev e ev s)
              | Some (Ok (f, len)) =>
                  let tx := mk_pipe len descs (descs + 4) f pid in
                  let rx := mk_pipe 0 (descs + 8) (descs + 12) 0 pid in
                  Some (register_edge env s rx tx ev)
              end
          end
      end
  end.

Definition qcom_glink_smem_register (env : reg_env) (s : option qcom_smem) : option reg_out :=
  if negb (env_smem_alloc env) then Some (Err (- ENOMEM), [], s)
  else if truth (env_device_register env) then Some (Err (env_device_register env), [EvDevicePut], s)
  else
    let ev := [EvDeviceRegistered] in
    match env_remote_pid env with
    | Err e => Some (err_put_dev e ev s)
    | Ok pid =>
        if negb (env_pipes_alloc env) then Some (err_put_dev (- ENOMEM) ev s)
        else register_pipes env s pid ev
    end.

(** ** The queue a pipe represents *)

(** [n] bytes of the circular buffer from position [pos]. *)
Fixpoint ring (m : mem) (p : glink_smem_pipe) (pos : Z) (n : nat) : list Z :=
  match n with
  | O => []
  | S k => m (fifo p + pos mod length_of p) :: ring m p (pos + 1) k
  end.

(** Bytes written and not read yet, and how many. *)
Definition used (m : mem) (p : glink_smem_pipe) : Z :=
  (rd32 m (head p) - rd32 m (tail p)) mod length_of p.

Definition contents (m : mem) (p : glink_smem_pipe) : list Z :=
  ring m p (rd32 m (tail p)) (Z.to_nat (used m p)).

(** Where the pipe lives: a buffer of a multiple of 8 bytes and two index
    words, apart from each other. *)
Record pipe_layout (p : glink_smem_pipe) : Prop := {
  pl_length : 8 <= length_of p < 2 ^ 31;
  pl_aligned : length_of p mod 8 = 0;
  pl_fifo : fifo p <> 0;
  pl_head : head p + 4 <= fifo p \/ fifo p + length_of p <= head p;
  pl_tail : tail p + 4 <= fifo p \/ fifo p + length_of p <= tail p;
  pl_apart : head p + 4 <= tail p \/ tail p + 4 <= head p;
}.

(** Sane indices: in range and aligned. *)
Record pipe_ok (m : mem) (p : glink_smem_pipe) : Prop := {
  po_layout : pipe_layout p;
  po_head : 0 <= rd32 m (head p) < length_of p;
  po_tail : 0 <= rd32 m (tail p) < length_of p;
  po_head8 : rd32 m (head p) mod 8 = 0;
  po_tail8 : rd32 m (tail p) mod 8 = 0;
}.

Lemma length_ring m p pos n : length (ring m p pos n) = n.
Proof. revert pos. induction n; intros; cbn; auto. Qed.

Lemma ring_ext m m' p pos pos' n :
  (forall i, 0 <= i < Z.of_nat n ->
     m' (fifo p + (pos' + i) mod length_of p) = m (fifo p + (pos + i) mod length_of p)) ->
  ring m' p pos' n = ring m p pos n.
Proof.
  revert pos pos'. induction n as [|n IH]; intros pos pos' H; [done|]. cbn [ring]. f_equal.
  - specialize (H 0). rewrite !Z.add_0_r in H. apply H. lia.
  - apply IH. intros i Hi. rewrite <- !Z.add_assoc. apply H. lia.
Qed.

Lemma ring_mod m p pos n : ring m p (pos mod length_of p) n = ring m p pos n.
Proof. apply ring_ext. intros. by rewrite Zplus_mod_idemp_l. Qed.

Lemma ring_app m p pos n k :
  ring m p pos (n + k) = ring m p pos n ++ ring m p (pos + Z.of_nat n) k.
Proof.
  revert pos. induction n as [|n IH]; intros pos; cbn [ring Nat.add app].
  - by rewrite Z.add_0_r.
  - rewrite IH. do 3 f_equal. lia.
Qed.

Lemma ring_load m p pos n :
  0 <= pos -> pos + Z.of_nat n <= length_of p ->
  ring m p pos n = load_bytes n m (fifo p + pos).
Proof.
  revert pos. induction n as [|n IH]; intros pos H0 H; [done|]. cbn [ring load_bytes].
  rewrite Z.mod_small by lia. f_equal. rewrite IH by lia. f_equal. lia.
Qed.

Lemma ring_take m p pos n k : (n <= k)%nat -> take n (ring m p pos k) = ring m p pos n.
Proof.
  intros. replace k with (n + (k - n))%nat by lia. rewrite ring_app.
  apply take_app_length'. by rewrite length_ring.
Qed.

Lemma ring_drop m p pos n k :
  (n <= k)%nat -> drop n (ring m p pos k) = ring m p (pos + Z.of_nat n) (k - n).
Proof.
  intros. replace k with (n + (k - n))%nat at 1 by lia. rewrite ring_app.
  apply drop_app_length'. by rewrite length_ring.
Qed.

(** Two copies around the end of the buffer read a stretch of the ring. *)
Lemma fifo_read_ring m p t count :
  0 <= t <= length_of p -> 0 <= count <= length_of p ->
  (b1 ← fifo_read m p t (Z.min count (length_of p - t));
   b2 ← fifo_read m p 0 (count - Z.min count (length_of p - t)); Some (b1 ++ b2)) =
  Some (ring m p t (Z.to_nat count)).
Proof.
  intros Ht Hc.
  assert (forall off n, 0 <= off -> 0 <= n -> off + n <= length_of p ->
            fifo_read m p off n = Some (ring m p off (Z.to_nat n))) as Hr.
  { intros off n ???. unfold fifo_read. destruct (Z.eqb_spec n 0) as [->|]; [done|].
    rewrite (proj2 (Z.leb_le 0 off)), (proj2 (Z.leb_le (off + n) _)) by lia. cbn [andb].
    rewrite ring_load; [done|lia|lia]. }
  rewrite !Hr by lia. cbn. f_equal. set (k := Z.min count (length_of p - t)).
  replace (Z.to_nat count) with (Z.to_nat k + Z.to_nat (count - k))%nat by lia.
  rewrite ring_app. f_equal. destruct (Z.eq_dec k count) as [->|Hk].
  - by rewrite Z.sub_diag.
  - rewrite <- (ring_mod _ _ (t + _)). replace (t + Z.of_nat (Z.to_nat k)) with (1 * length_of p) by lia.
    by rewrite Z.mod_mul by lia.
Qed.

(** The reader, for any tail not beyond the buffer. *)
Lemma rx_peek_ring m p data offset count :
  1 <= length_of p < 2 ^ 31 -> 0 <= rd32 m (tail p) <= length_of p ->
  0 <= offset <= length_of p -> 0 <= count <= length_of p ->
  glink_smem_rx_peek m p data offset count =
  Some (ring m p (rd32 m (tail p) + offset) (Z.to_nat count)).
Proof.
  intros Hl Ht Ho Hc. unfold glink_smem_rx_peek. rewrite (proj2 (Z.ltb_ge _ _)) by lia. cbv zeta.
  rewrite (u32_small (rd32 m (tail p) + offset)) by lia.
  set (pos := rd32 m (tail p) + offset) in *.
  set (t := if length_of p <=? pos then u32 (pos - length_of p) else pos).
  assert (0 <= t <= length_of p /\ t mod length_of p = pos mod length_of p) as [Ht' Hm].
  { subst t. destruct (Z.leb_spec (length_of p) pos); [|lia].
    rewrite u32_small by lia. split; [lia|].
    rewrite <- (Z.mod_add (pos - length_of p) 1 (length_of p)) by lia. f_equal. lia. }
  assert (u64 (length_of p - t) = length_of p - t) as -> by (apply Z.mod_small; lia).
  etransitivity; [|etransitivity; [exact (fifo_read_ring m p t count Ht' Hc)|]]; [done|].
  by rewrite <- (ring_mod _ _ pos), <- Hm, ring_mod.
Qed.

Lemma rx_len_bound m p : 0 <= length_of p -> bytes_ok m -> 0 <= rx_len m p <= length_of p.
Proof.
  intros Hl Hb. pose proof (rd32_bound m (head p) Hb). pose proof (rd32_bound m (tail p) Hb).
  assert (forall z, 0 <= u64 z) as Hu by (intros z; apply Z.mod_pos_bound; lia).
  unfold rx_len. cbv zeta.
  match goal with |- context [length_of p <? ?l] => assert (0 <= l) end.
  { case_goal; zbool; [apply Hu|lia]. }
  match goal with |- context [length_of p <? ?l] => destruct (Z.ltb_spec (length_of p) l) end; lia.
Qed.

Lemma used_cases m p :
  pipe_ok m p ->
  used m p = if rd32 m (head p) <? rd32 m (tail p)
             then length_of p - rd32 m (tail p) + rd32 m (head p)
             else rd32 m (head p) - rd32 m (tail p).
Proof.
  intros [? Hh Ht _ _]. unfold used. destruct (Z.ltb_spec (rd32 m (head p)) (rd32 m (tail p))).
  - rewrite <- (Z.mod_add _ 1) by lia. rewrite Z.mod_small; lia.
  - apply Z.mod_small. lia.
Qed.

Lemma used_bound m p : pipe_ok m p -> 0 <= used m p < length_of p.
Proof. intros H. rewrite used_cases by done. destruct H. case_goal; zbool; lia. Qed.

Lemma rx_len_used m p : pipe_ok m p -> rx_len m p = used m p.
Proof.
  intros H. pose proof (used_bound m p H). rewrite used_cases in * by done.
  destruct H as [[? _ _ _ _ _] Hh Ht _ _].
  unfold rx_len. destruct (rd32 m (head p) <? rd32 m (tail p)) eqn:E; zbool.
  - assert (u64 (length_of p - rd32 m (tail p) + rd32 m (head p)) =
            length_of p - rd32 m (tail p) + rd32 m (head p)) as -> by (apply Z.mod_small; lia).
    cbv zeta. rewrite (proj2 (Z.ltb_ge _ _)); [done|lia].
  - cbv zeta. rewrite (proj2 (Z.ltb_ge _ _)); [done|lia].
Qed.

Lemma mod_mod_8 a b : 0 < b -> b mod 8 = 0 -> (a mod b) mod 8 = a mod 8.
Proof.
  intros Hb H8. apply Z.mod_mod_divide. by apply Z.mod_divide.
Qed.

Lemma used_aligned m p : pipe_ok m p -> used m p mod 8 = 0.
Proof.
  intros [L ?? Hh Ht]. unfold used. rewrite mod_mod_8; [|destruct L; lia|apply L].
  rewrite Zminus_mod, Hh, Ht. done.
Qed.

(** Unread bytes are read back where they lie in the queue. *)
Lemma rx_peek_contents m p data offset count :
  pipe_ok m p -> 0 <= offset -> 0 <= count -> offset + count <= used m p ->
  glink_smem_rx_peek m p data offset count =
  Some (take (Z.to_nat count) (drop (Z.to_nat offset) (contents m p))).
Proof.
  intros H ???. pose proof (used_bound m p H). pose proof (po_layout _ _ H) as [? _ _ _ _ _].
  pose proof (po_tail _ _ H). rewrite rx_peek_ring by (done || lia). unfold contents.
  rewrite ring_drop, ring_take by lia. do 2 f_equal. lia.
Qed.

(** ** Writing into the ring *)

(** [m'] is [m] with [bs] put into the ring from position [h] on. *)
Definition ring_put (m : mem) (p : glink_smem_pipe) (h : Z) (bs : list Z) (m' : mem) : Prop :=
  same_outside (fifo p) (fifo p + length_of p) m m' /\
  forall i, 0 <= i < length_of p ->
    m' (fifo p + (h + i) mod length_of p) =
    if i <? Z.of_nat (length bs) then bs !!! Z.to_nat i else m (fifo p + (h + i) mod length_of p).

Lemma wrap_cases a len : 0 < len -> 0 <= a < 2 * len -> a mod len = if len <=? a then a - len else a.
Proof.
  intros ??. destruct (Z.leb_spec len a).
  - rewrite <- (Z.mod_add _ (-1)) by lia. rewrite Z.mod_small; lia.
  - apply Z.mod_small. lia.
Qed.

Lemma fifo_write_eq m p off bs :
  0 <= off -> off + Z.of_nat (length bs) <= length_of p ->
  fifo_write m p off bs = Some (store_bytes m (fifo p + off) bs).
Proof.
  intros. unfold fifo_write. destruct (Z.eqb_spec (Z.of_nat (length bs)) 0).
  - destruct bs; [done|cbn in *; lia].
  - by rewrite (proj2 (Z.leb_le 0 off)), (proj2 (Z.leb_le (off + _) _)) by lia.
Qed.

Lemma tx_write_one_put m p h data :
  0 < length_of p < 2 ^ 31 -> 0 <= h < length_of p -> Z.of_nat (length data) <= length_of p ->
  exists m', glink_smem_tx_write_one m p h data =
               Some ((h + Z.of_nat (length data)) mod length_of p, m') /\
             ring_put m p h data m'.
Proof.
  intros Hl Hh Hd. unfold glink_smem_tx_write_one. rewrite (proj2 (Z.ltb_ge _ _)) by lia. cbv zeta.
  assert (u64 (length_of p - h) = length_of p - h) as -> by (apply Z.mod_small; lia).
  set (c := Z.of_nat (length data)) in *. set (n := Z.to_nat (Z.min c (length_of p - h))).
  assert (length (take n data) = n) as Hn by (rewrite length_take; lia).
  assert (Z.of_nat (length (drop n data)) = c - Z.of_nat n) as Hk by (rewrite length_drop; lia).
  rewrite fifo_write_eq by lia. rewrite fifo_write_eq by lia.
  rewrite u32_small by lia. rewrite (wrap_cases (h + c)) by lia.
  eexists. split.
  { do 2 f_equal. destruct (Z.leb_spec (length_of p) (h + c)); [|done]. apply u32_small. lia. }
  split.
  - intros x Hx. rewrite !store_bytes_other by lia. done.
  - intros i Hi. rewrite (wrap_cases (h + i)) by lia. fold c.
    destruct (Z.leb_spec (length_of p) (h + i)).
    + destruct (Z.ltb_spec i c).
      * rewrite Z.add_0_r, store_bytes_at by lia. rewrite lookup_total_drop. f_equal. lia.
      * rewrite !store_bytes_other by lia. done.
    + rewrite (store_bytes_other _ (fifo p + 0)) by lia. destruct (Z.ltb_spec i c).
      * rewrite Z.add_assoc, store_bytes_at by lia.
        by rewrite lookup_total_take, decide_True by lia.
      * rewrite store_bytes_other by lia. done.
Qed.

(** A write followed by another is the write of both. *)
Lemma ring_put_app m p h b1 b2 m1 m2 :
  0 < length_of p -> 0 <= h < length_of p ->
  Z.of_nat (length b1) + Z.of_nat (length b2) <= length_of p ->
  ring_put m p h b1 m1 -> ring_put m1 p ((h + Z.of_nat (length b1)) mod length_of p) b2 m2 ->
  ring_put m p h (b1 ++ b2) m2.
Proof.
  intros Hl Hh Hn [S1 P1] [S2 P2]. split; [by eapply same_outside_trans|].
  intros i Hi. set (n1 := Z.of_nat (length b1)) in *.
  assert (forall j, 0 <= j < length_of p ->
    m2 (fifo p + (h + n1 + j) mod length_of p) =
    if j <? Z.of_nat (length b2) then b2 !!! Z.to_nat j else m1 (fifo p + (h + n1 + j) mod length_of p)) as Q.
  { intros j Hj. rewrite <- (Zplus_mod_idemp_l (h + n1) j). by apply P2. }
  rewrite length_app, Nat2Z.inj_add. fold n1. destruct (Z.ltb_spec i n1).
  - specialize (Q (length_of p + i - n1) ltac:(lia)).
    replace (h + n1 + (length_of p + i - n1)) with (h + i + 1 * length_of p) in Q by lia.
    rewrite Z.mod_add in Q by lia. rewrite Q, P1 by lia.
    rewrite (proj2 (Z.ltb_ge _ _)), !(proj2 (Z.ltb_lt _ _)) by lia.
    rewrite lookup_total_app_l; [done|lia].
  - specialize (Q (i - n1) ltac:(lia)). replace (h + n1 + (i - n1)) with (h + i) in Q by lia.
    rewrite Q, P1 by lia. destruct (Z.ltb_spec (i - n1) (Z.of_nat (length b2))).
    + rewrite (proj2 (Z.ltb_lt _ _)) by lia. rewrite lookup_total_app_r by lia. f_equal. lia.
    + by rewrite !(proj2 (Z.ltb_ge _ _)) by lia.
Qed.

Lemma ring_ext_list m p pos (bs : list Z) :
  (forall i, 0 <= i < Z.of_nat (length bs) ->
     m (fifo p + (pos + i) mod length_of p) = bs !!! Z.to_nat i) ->
  ring m p pos (length bs) = bs.
Proof.
  revert pos. induction bs as [|b bs IH]; intros pos H; [done|]. cbn [length ring]. f_equal.
  - specialize (H 0). rewrite Z.add_0_r in H. apply H. cbn. lia.
  - apply IH. intros i Hi. rewrite <- Z.add_assoc, H by (cbn; lia).
    by replace (Z.to_nat (1 + i)) with (S (Z.to_nat i)) by lia.
Qed.

(** The written bytes are in the ring, the bytes ahead of them are not touched. *)
Lemma ring_put_same m p h bs m' :
  Z.of_nat (length bs) <= length_of p -> ring_put m p h bs m' -> ring m' p h (length bs) = bs.
Proof.
  intros Hl [_ P]. apply ring_ext_list. intros i Hi. rewrite P by lia.
  by rewrite (proj2 (Z.ltb_lt _ _)) by lia.
Qed.

Lemma ring_put_rest m p h bs m' k n :
  Z.of_nat (length bs) <= k -> k + Z.of_nat n <= length_of p -> ring_put m p h bs m' ->
  ring m' p (h + k) n = ring m p (h + k) n.
Proof.
  intros Hk Hn [_ P]. apply ring_ext. intros i Hi. rewrite <- Z.add_assoc, P by lia.
  by rewrite (proj2 (Z.ltb_ge _ _)) by lia.
Qed.

Lemma rd32_outside m m' p a :
  same_outside (fifo p) (fifo p + length_of p) m m' ->
  a + 4 <= fifo p \/ fifo p + length_of p <= a -> rd32 m' a = rd32 m a.
Proof. intros S H. apply load_le_ext. intros i Hi. apply S. lia. Qed.

Lemma rd32_wr32_ne m a b v : a + 4 <= b \/ b + 4 <= a -> rd32 (wr32 m b v) a = rd32 m a.
Proof. intros. apply load_store_le_disjoint. lia. Qed.

Lemma ring_wr32 m p a v pos n :
  0 < length_of p -> a + 4 <= fifo p \/ fifo p + length_of p <= a ->
  ring (wr32 m a v) p pos n = ring m p pos n.
Proof.
  intros Hl Ha. apply ring_ext. intros i Hi. apply store_le_other.
  pose proof (Z.mod_pos_bound (pos + i) (length_of p)). lia.
Qed.

(** The aligned head after [n] more bytes. *)
Lemma aligned_head h n len :
  0 < len < 2 ^ 31 -> len mod 8 = 0 -> 0 <= h < len -> h mod 8 = 0 -> 0 <= n -> ALIGN n 8 < len ->
  let a := u32 (ALIGN ((h + n) mod len) 8) in
  (if len <=? a then u32 (a - len) else a) = (h + ALIGN n 8) mod len.
Proof.
  intros Hl L8 Hh H8 Hn Hlt. cbv zeta. pose proof (ALIGN_8_bounds n).
  pose proof (ALIGN_8_mod n) as A8. rewrite !wrap_cases by lia.
  apply Z.mod_divide in L8 as [l ->], H8 as [k ->], A8 as [a Ha]; try lia.
  destruct (Z.leb_spec (l * 8) (k * 8 + n)).
  - replace (k * 8 + n - l * 8) with (8 * (k - l) + n) by lia. rewrite ALIGN_8_add, u32_small by lia.
    rewrite (proj2 (Z.leb_gt _ _)), (proj2 (Z.leb_le _ _)); lia.
  - rewrite (Z.mul_comm k), ALIGN_8_add, u32_small by lia.
    destruct (Z.leb_spec (l * 8) (8 * k + ALIGN n 8)); [|done]. apply u32_small. lia.
Qed.

(** The queue seen through the ring once [bs] lies behind the unread bytes. *)
Lemma ring_put_contents m p bs m1 :
  pipe_ok m p -> used m p + ALIGN (Z.of_nat (length bs)) 8 < length_of p ->
  ring_put m p (rd32 m (head p)) bs m1 ->
  let n := Z.of_nat (length bs) in
  ring m1 p (rd32 m (tail p)) (Z.to_nat (used m p + ALIGN n 8)) =
  contents m p ++ bs ++ ring m p (rd32 m (head p) + n) (Z.to_nat (ALIGN n 8 - n)).
Proof.
  intros H Hfit P n. pose proof H as [[Ll _ _ _ _ _] Hh Ht _ _].
  pose proof (used_bound m p H) as Ub. pose proof (ALIGN_8_bounds n). fold n in Hfit.
  set (h := rd32 m (head p)) in *. set (t := rd32 m (tail p)) in *.
  replace (Z.to_nat (used m p + ALIGN n 8)) with
    (Z.to_nat (used m p) + (length bs + Z.to_nat (ALIGN n 8 - n)))%nat by lia.
  rewrite !ring_app, Z2Nat.id by lia. fold n.
  assert ((t + used m p) mod length_of p = h) as Em.
  { unfold used. rewrite Zplus_mod_idemp_r. fold h t.
    replace (t + (h - t)) with h by lia. apply Z.mod_small. lia. }
  unfold contents. fold t. f_equal; [|f_equal].
  - assert (t mod length_of p = (h + (length_of p - used m p)) mod length_of p) as Er.
    { rewrite <- Em at 1. rewrite Zplus_mod_idemp_l.
      replace (t + used m p + (length_of p - used m p)) with (t + 1 * length_of p) by lia.
      by rewrite Z.mod_add by lia. }
    rewrite <- (ring_mod m1), <- (ring_mod m), Er, !ring_mod. eapply ring_put_rest; [| |exact P]; lia.
  - rewrite <- ring_mod, Em. eapply ring_put_same; [|exact P]. lia.
  - rewrite <- ring_mod, <- Zplus_mod_idemp_l, Em, ring_mod. eapply ring_put_rest; [| |exact P]; lia.
Qed.

(** What a write does to the queue. *)
Record tx_written (m : mem) (p : glink_smem_pipe) (bs : list Z) (m' : mem) : Prop := {
  tw_ok : pipe_ok m' p;
  tw_used : used m' p = used m p + ALIGN (Z.of_nat (length bs)) 8;
  tw_tail : rd32 m' (tail p) = rd32 m (tail p);
  tw_contents : exists pad, contents m' p = contents m p ++ bs ++ pad /\ (length pad < 8)%nat;
  tw_frame : forall x, (x < fifo p \/ fifo p + length_of p <= x) ->
               (x < head p \/ head p + 4 <= x) -> m' x = m x;
}.

Lemma ring_put_written m p bs m1 :
  pipe_ok m p -> used m p + ALIGN (Z.of_nat (length bs)) 8 < length_of p ->
  ring_put m p (rd32 m (head p)) bs m1 ->
  tx_written m p bs (wr32 m1 (head p) ((rd32 m (head p) + ALIGN (Z.of_nat (length bs)) 8) mod length_of p)).
Proof.
  intros H Hfit P. destruct H as [L Hh Ht Hh8 Ht8]. pose proof L as [Ll L8 Lf Lh Lt La].
  set (h := rd32 m (head p)) in *. set (n := Z.of_nat (length bs)) in *.
  pose proof (ALIGN_8_bounds n) as An. pose proof (used_bound m p ltac:(by constructor)) as Ub.
  pose proof (Z.mod_pos_bound (h + ALIGN n 8) (length_of p) ltac:(lia)) as Hb.
  set (m' := wr32 m1 (head p) ((h + ALIGN n 8) mod length_of p)).
  assert (rd32 m' (head p) = (h + ALIGN n 8) mod length_of p) as Eh by (apply load_le_wr_same_32; lia).
  assert (rd32 m' (tail p) = rd32 m (tail p)) as Et.
  { unfold m'. rewrite rd32_wr32_ne by lia. apply (rd32_outside m m1 p); [apply P|done]. }
  assert (used m' p = used m p + ALIGN n 8) as Eu.
  { unfold used. rewrite Eh, Et. fold h. rewrite Zminus_mod_idemp_l.
    replace (h + ALIGN n 8 - rd32 m (tail p)) with (h - rd32 m (tail p) + ALIGN n 8) by lia.
    rewrite <- Zplus_mod_idemp_l. apply Z.mod_small. unfold used in *. fold h in Ub, Hfit. lia. }
  constructor; [|done|done| |].
  - constructor; [done|rewrite Eh; lia|by rewrite Et| |by rewrite Et].
    rewrite Eh, mod_mod_8, Zplus_mod, Hh8, ALIGN_8_mod by lia. done.
  - exists (ring m p (h + n) (Z.to_nat (ALIGN n 8 - n))). rewrite length_ring. split; [|lia].
    unfold contents. rewrite Et, Eu. unfold m'. rewrite ring_wr32 by lia.
    by apply ring_put_contents.
  - intros x Hx1 Hx2. unfold m', wr32. rewrite store_le_other by lia. by apply P.
Qed.

Lemma tx_write_written m p hdr data :
  pipe_ok m p -> used m p + ALIGN (Z.of_nat (length (hdr ++ data))) 8 < length_of p ->
  exists m', glink_smem_tx_write m p hdr data = Some m' /\ tx_written m p (hdr ++ data) m'.
Proof.
  intros H Hfit. pose proof H as [[Ll L8 _ _ _ _] Hh Ht Hh8 Ht8].
  pose proof (ALIGN_8_bounds (Z.of_nat (length (hdr ++ data)))). pose proof (used_bound m p H).
  assert (Z.of_nat (length (hdr ++ data)) = Z.of_nat (length hdr) + Z.of_nat (length data)) as En
    by (rewrite length_app; lia).
  unfold glink_smem_tx_write.
  destruct (tx_write_one_put m p (rd32 m (head p)) hdr) as (m1 & -> & P1); [lia|lia|lia|].
  destruct (tx_write_one_put m1 p ((rd32 m (head p) + Z.of_nat (length hdr)) mod length_of p) data)
    as (m2 & -> & P2); [lia|apply Z.mod_pos_bound; lia|lia|].
  rewrite Zplus_mod_idemp_l, <- Z.add_assoc, <- En. eexists. split; [reflexivity|].
  rewrite aligned_head by lia. apply ring_put_written; [done|done|].
  eapply ring_put_app; [lia|lia|lia|done|done].
Qed.

(** The room the writer sees. *)
Lemma tx_avail_used m p :
  pipe_ok m p -> glink_smem_tx_avail m p = Z.max 0 (length_of p - used m p - 16).
Proof.
  intros H. pose proof (used_bound m p H) as Ub. rewrite used_cases in * by done.
  destruct H as [[Ll _ _ _ _ _] Hh Ht _ _]. unfold glink_smem_tx_avail. cbv zeta.
  rewrite u32_small by lia. unfold FIFO_FULL_RESERVE, TX_BLOCKED_CMD_RESERVE.
  set (h := rd32 m (head p)) in *. set (t := rd32 m (tail p)) in *.
  destruct (Z.ltb_spec h t), (Z.leb_spec t h); try lia.
  - destruct (Z.ltb_spec (t - h) (8 + 8)); [|].
    + rewrite (proj2 (Z.ltb_ge _ _)) by lia. lia.
    + rewrite (proj2 (Z.ltb_ge _ _)) by lia. lia.
  - destruct (Z.ltb_spec (length_of p - h + t) (8 + 8)).
    + rewrite (proj2 (Z.ltb_ge _ _)) by lia. lia.
    + rewrite (proj2 (Z.ltb_ge _ _)) by lia. lia.
Qed.

(** Room for [n] bytes is room for the padded packet, and 16 bytes stay free. *)
Lemma tx_avail_room m p n :
  pipe_ok m p -> 0 < n <= glink_smem_tx_avail m p -> used m p + ALIGN n 8 + 16 <= length_of p.
Proof.
  intros H Hn. rewrite tx_avail_used in Hn by done.
  pose proof (ALIGN_8_bounds n) as Ab. pose proof (ALIGN_8_mod n) as A8.
  pose proof (used_aligned m p H) as U8. pose proof (pl_aligned _ (po_layout _ _ H)) as L8.
  apply Z.mod_divide in A8 as [a Ha], U8 as [u Hu], L8 as [l Hl]; lia.
Qed.

(** ** Reading on *)

Lemma rx_advance_drop m p n :
  pipe_ok m p -> 0 <= n <= used m p -> n mod 8 = 0 ->
  exists m', glink_smem_rx_advance m p n = Some m' /\ pipe_ok m' p /\
    contents m' p = drop (Z.to_nat n) (contents m p) /\ used m' p = used m p - n /\
    rd32 m' (head p) = rd32 m (head p) /\ same_outside (tail p) (tail p + 4) m m'.
Proof.
  intros H Hn Hn8. pose proof H as [L Hh Ht Hh8 Ht8]. pose proof L as [Ll L8 Lf Lh Lt La].
  pose proof (used_bound m p H) as Ub. set (t' := (rd32 m (tail p) + n) mod length_of p).
  pose proof (Z.mod_pos_bound (rd32 m (tail p) + n) (length_of p) ltac:(lia)) as Hb'. fold t' in Hb'.
  assert (glink_smem_rx_advance m p n = Some (wr32 m (tail p) t')) as E.
  { unfold glink_smem_rx_advance. rewrite u32_small by lia. cbv zeta.
    destruct (Z.leb_spec (length_of p) (rd32 m (tail p) + n)).
    - rewrite (proj2 (Z.eqb_neq _ _)) by lia. done.
    - unfold t'. by rewrite Z.mod_small by lia. }
  set (m' := wr32 m (tail p) t') in *.
  assert (rd32 m' (tail p) = t') as Et by (apply load_le_wr_same_32; lia).
  assert (rd32 m' (head p) = rd32 m (head p)) as Eh by (apply rd32_wr32_ne; lia).
  assert (used m' p = used m p - n) as Eu.
  { unfold used. rewrite Eh, Et. unfold t'. rewrite Zminus_mod_idemp_r.
    replace (rd32 m (head p) - (rd32 m (tail p) + n)) with (rd32 m (head p) - rd32 m (tail p) - n) by lia.
    rewrite <- Zminus_mod_idemp_l. apply Z.mod_small. unfold used in *. lia. }
  exists m'. split; [done|]. split; [|split; [|split; [done|split; [done|]]]].
  - constructor; [done|by rewrite Eh|rewrite Et; lia|by rewrite Eh|].
    rewrite Et. unfold t'. rewrite mod_mod_8, Zplus_mod, Ht8, Hn8 by lia. done.
  - unfold contents. rewrite Et, Eu, ring_drop by lia. unfold m', t'.
    rewrite ring_wr32, ring_mod by lia. f_equal; lia.
  - apply same_outside_store_le; lia.
Qed.

(** ** Abstract specification: a bounded queue of packets

    The writer puts one packet at a time, padded to a multiple of 8 bytes; the
    reader looks at the oldest packet and steps over it with its padding. *)

Inductive pipe_op :=
| OpSend (hdr data : list Z)
| OpPeek (offset count : Z)
| OpAdvance (count : Z).

Inductive pipe_out :=
| OutSent (accepted : bool)
| OutBytes (bs : list Z)
| OutDone.

Definition padded (pkt : list Z) : Z := ALIGN (Z.of_nat (length pkt)) 8.

Definition queue_size (q : list (list Z)) : Z := foldr (fun pkt n => padded pkt + n) 0 q.

(** [None] where the specification makes no promise: an empty packet, a look
    beyond the oldest packet, a step that is not exactly over it. *)
Definition spec_step (cap : Z) (q : list (list Z)) (op : pipe_op) : option (pipe_out * list (list Z)) :=
  match op with
  | OpSend hdr data =>
      let n := Z.of_nat (length (hdr ++ data)) in
      if n =? 0 then None
      else if n <=? cap - queue_size q - 16 then Some (OutSent true, q ++ [hdr ++ data])
      else Some (OutSent false, q)
  | OpPeek offset count =>
      match q with
      | [] => None
      | pkt :: _ =>
          if (0 <=? offset) && (0 <=? count) && (offset + count <=? Z.of_nat (length pkt))
          then Some (OutBytes (take (Z.to_nat count) (drop (Z.to_nat offset) pkt)), q)
          else None
      end
  | OpAdvance count =>
      match q with
      | [] => None
      | pkt :: q' => if count =? padded pkt then Some (OutDone, q') else None
      end
  end.

(** The driver's side of the same operations. *)
Definition impl_step (p : glink_smem_pipe) (m : mem) (op : pipe_op) : option (pipe_out * mem) :=
  match op with
  | OpSend hdr data =>
      if glink_smem_tx_avail m p <? Z.of_nat (length (hdr ++ data)) then Some (OutSent false, m)
      else m' ← glink_smem_tx_write m p hdr data; Some (OutSent true, m')
  | OpPeek offset count =>
      bs ← glink_smem_rx_peek m p (replicate (Z.to_nat count) 0) offset count; Some (OutBytes bs, m)
  | OpAdvance count => m' ← glink_smem_rx_advance m p count; Some (OutDone, m')
  end.

Fixpoint run {S : Type} (step : S -> pipe_op -> option (pipe_out * S)) (s : S) (ops : list pipe_op)
  : option (list pipe_out * S) :=
  match ops with
  | [] => Some ([], s)
  | op :: ops' =>
      '(o, s1) ← step s op;
      '(os, s2) ← run step s1 ops';
      Some (o :: os, s2)
  end.

(** Packets laid out one after the other, each followed by its padding. *)
Inductive frames : list (list Z) -> list Z -> Prop :=
| frames_nil : frames [] []
| frames_cons pkt pad q bytes :
    Z.of_nat (length (pkt ++ pad)) = padded pkt -> frames q bytes ->
    frames (pkt :: q) (pkt ++ pad ++ bytes).

Definition represents (p : glink_smem_pipe) (m : mem) (q : list (list Z)) : Prop :=
  pipe_ok m p /\ frames q (contents m p).

Lemma frames_length q bytes : frames q bytes -> Z.of_nat (length bytes) = queue_size q.
Proof.
  induction 1 as [|pkt pad q bytes Hp Hf IH]; [done|]. cbn [queue_size foldr]. fold (queue_size q).
  rewrite <- IH, <- Hp. rewrite !length_app. lia.
Qed.

Lemma frames_snoc q bytes pkt pad :
  frames q bytes -> Z.of_nat (length (pkt ++ pad)) = padded pkt ->
  frames (q ++ [pkt]) (bytes ++ pkt ++ pad).
Proof.
  induction 1 as [|pkt' pad' q bytes Hp Hf IH]; intros Hl; cbn [app].
  - rewrite <- (app_nil_r pad). by constructor; [|constructor].
  - rewrite <- !app_assoc. constructor; [done|]. by apply IH.
Qed.

Lemma length_contents m p : pipe_ok m p -> Z.of_nat (length (contents m p)) = used m p.
Proof. intros H. pose proof (used_bound m p H). unfold contents. rewrite length_ring. lia. Qed.

Lemma represents_used p m q : represents p m q -> used m p = queue_size q.
Proof. intros [H F]. rewrite <- (frames_length _ _ F). symmetry. by apply length_contents. Qed.

Lemma send_simulated p m q hdr data o q' :
  represents p m q -> spec_step (length_of p) q (OpSend hdr data) = Some (o, q') ->
  exists m', impl_step p m (OpSend hdr data) = Some (o, m') /\ represents p m' q'.
Proof.
  intros R H. pose proof (represents_used _ _ _ R) as U. pose proof R as [Ok F].
  cbn [spec_step impl_step] in *. set (n := Z.of_nat (length (hdr ++ data))) in *.
  destruct (Z.eqb_spec n 0) as [|Hn]; [done|].
  pose proof (tx_avail_used m p Ok) as Ea. rewrite U in Ea.
  destruct (Z.leb_spec n (length_of p - queue_size q - 16)); simplify_eq.
  - rewrite (proj2 (Z.ltb_ge _ _)) by lia.
    pose proof (tx_avail_room m p n Ok ltac:(lia)) as Hroom. fold n in Hroom.
    destruct (tx_write_written m p hdr data Ok) as (m' & -> & [Ok' Hu _ (pad & Hc & _) _]); [fold n; lia|].
    exists m'. split; [done|]. split; [done|]. rewrite Hc. apply frames_snoc; [done|].
    pose proof (f_equal length Hc) as Hlen. rewrite length_app in Hlen.
    pose proof (length_contents m p Ok). pose proof (length_contents m' p Ok'). unfold padded. fold n in Hu |- *. lia.
  - rewrite (proj2 (Z.ltb_lt _ _)) by lia. eauto.
Qed.

Lemma peek_simulated p m q off n o q' :
  represents p m q -> spec_step (length_of p) q (OpPeek off n) = Some (o, q') ->
  exists m', impl_step p m (OpPeek off n) = Some (o, m') /\ represents p m' q'.
Proof.
  intros R H. pose proof (represents_used _ _ _ R) as U. pose proof R as [Ok F].
  cbn [spec_step impl_step] in *. inversion F as [|pkt pad q1 bytes Hp Hf Eq Eb]; simplify_eq.
  case_hyp H. zbool. simplify_eq. rewrite <- (frames_length _ _ F), <- Eb in U. rewrite !length_app in U.
  rewrite rx_peek_contents by (done || lia). exists m. split; [|done]. cbn. do 3 f_equal.
  rewrite <- Eb, drop_app_le, take_app_le by (rewrite ?length_drop; lia). done.
Qed.

Lemma advance_simulated p m q n o q' :
  represents p m q -> spec_step (length_of p) q (OpAdvance n) = Some (o, q') ->
  exists m', impl_step p m (OpAdvance n) = Some (o, m') /\ represents p m' q'.
Proof.
  intros R H. pose proof (represents_used _ _ _ R) as U. pose proof R as [Ok F].
  cbn [spec_step impl_step] in *. inversion F as [|pkt pad q1 bytes Hp Hf Eq Eb]; simplify_eq.
  case_hyp H. zbool. simplify_eq. rewrite <- (frames_length _ _ F), <- Eb in U. rewrite !length_app in U.
  pose proof (ALIGN_8_mod (Z.of_nat (length pkt))). rewrite length_app in Hp.
  destruct (rx_advance_drop m p (padded pkt) Ok) as (m' & -> & Ok' & Hc & _); [lia|done|].
  exists m'. split; [done|]. split; [done|]. rewrite Hc, <- Eb, app_assoc.
  rewrite drop_app_length'; [done|]. rewrite length_app. lia.
Qed.

Lemma step_simulated p m q op o q' :
  represents p m q -> spec_step (length_of p) q op = Some (o, q') ->
  exists m', impl_step p m op = Some (o, m') /\ represents p m' q'.
Proof. destruct op; [apply send_simulated|apply peek_simulated|apply advance_simulated]. Qed.

(** ** Theorems *)

(** A remote that rewrites both index words at will cannot take the reader
    out of the FIFO: after [glink_smem_rx_avail] answered [n], a peek of
    [count] bytes at [offset] with [offset + count <= n] stays inside the
    buffer in whatever memory [m1] it runs, and gives the bytes of the ring
    from the tail it finds; only a tail beyond the buffer makes it leave the
    destination as it was. *)
Theorem rx_access_in_fifo (sm : qcom_smem) (p p' : glink_smem_pipe) (n : Z) (m1 : mem)
    (data : list Z) (offset count : Z) :
  bytes_ok (smem_mem sm) -> bytes_ok m1 ->
  glink_smem_rx_avail sm p = Some (n, p') -> 0 <= length_of p' < 2 ^ 31 ->
  0 <= offset -> 0 < count -> offset + count <= n ->
  glink_smem_rx_peek m1 p' data offset count =
  Some (if length_of p' <? rd32 m1 (tail p') then data
        else ring m1 p' (rd32 m1 (tail p') + offset) (Z.to_nat count)).
Proof.
  intros Hb Hb1 Ha Hl Ho Hc Hn.
  assert (n <= length_of p') as Hle.
  { unfold glink_smem_rx_avail in Ha. branches Ha; try lia; apply rx_len_bound; cbn; (done || lia). }
  pose proof (rd32_bound m1 (tail p') Hb1). destruct (Z.ltb_spec (length_of p') (rd32 m1 (tail p'))).
  - unfold glink_smem_rx_peek. by rewrite (proj2 (Z.ltb_lt _ _)) by lia.
  - apply rx_peek_ring; lia.
Qed.

(** C23. The shared memory FIFO implements the bounded queue of packets: every
    sequence of sends, peeks and advances that the specification allows gives,
    on the driver's code and from any memory that represents the queue, the
    same answers, without ever leaving the buffer, and ends in a memory that
    represents the resulting queue. *)
Theorem pipe_refines_packet_queue (p : glink_smem_pipe) (ops : list pipe_op) (m : mem)
    (q q' : list (list Z)) (outs : list pipe_out) :
  represents p m q -> run (spec_step (length_of p)) q ops = Some (outs, q') ->
  exists m', run (impl_step p) m ops = Some (outs, m') /\ represents p m' q'.
Proof.
  revert m q outs. induction ops as [|op ops IH]; intros m q outs R H; cbn [run] in *; simplify_eq.
  - eauto.
  - destruct (spec_step (length_of p) q op) as [[o q1]|] eqn:E; [|done]. cbn in H.
    destruct (run (spec_step (length_of p)) q1 ops) as [[os q2]|] eqn:E2; [|done]. cbn in H. simplify_eq.
    destruct (step_simulated p m q op o q1 R E) as (m1 & -> & R1).
    destruct (IH m1 q1 os R1 E2) as (m2 & E3 & R2). cbn. rewrite E3. eauto.
Qed.

(** A tail index beyond the buffer is noticed by the peek but not by the
    count: bytes are announced and the destination is left as it was. *)
Lemma corrupt_tail_stale_peek (m : mem) (p : glink_smem_pipe) (data : list Z) :
  8 <= length_of p < 2 ^ 31 -> rd32 m (tail p) = length_of p + 16 -> rd32 m (head p) = length_of p + 8 ->
  8 <= length_of p - 8 -> 8 <= rx_len m p /\ glink_smem_rx_peek m p data 0 8 = Some data.
Proof.
  intros Hl Et Eh H8. unfold rx_len, glink_smem_rx_peek. rewrite Et, Eh.
  rewrite !(proj2 (Z.ltb_lt _ (length_of p + 16))) by lia. split; [|done].
  assert (u64 (length_of p - (length_of p + 16) + (length_of p + 8)) = length_of p - 8) as ->.
  { unfold u64. rewrite Z.mod_small; lia. }
  cbv zeta. rewrite (proj2 (Z.ltb_ge _ _)); lia.
Qed.

Definition count_ev (e : reg_event) (ev : list reg_event) : nat := length (filter (.= e) ev).

(** Nothing that registration acquired is still held. *)
Definition released (ev : list reg_event) : bool :=
  bool_decide (count_ev EvDeviceRegistered ev = count_ev EvDeviceUnregistered ev) &&
  bool_decide (count_ev EvMboxRequested ev = count_ev EvMboxFreed ev) &&
  bool_decide (count_ev EvIrqEnabled ev = 0%nat).

Lemma register_edge_outcome env s rx tx r ev s' :
  register_edge env s rx tx [EvDeviceRegistered] = (r, ev, s') ->
  match r with
  | Ok (rx', tx', _) =>
      rx' = rx /\ tx' = tx /\ ev = [EvDeviceRegistered; EvMboxRequested; EvIrqEnabled] /\
      s' = set_mem (set_mem s (fun m => wr32 m (tail rx) 0)) (fun m => wr32 m (head tx) 0)
  | Err _ => released ev = true
  end.
Proof. unfold register_edge, err_put_dev. intros H. branches H; done. Qed.

(** The two outcomes of the middle part. *)
Lemma register_pipes_err env s pid e ev s' :
  register_pipes env s pid [EvDeviceRegistered] = Some (Err e, ev, s') -> released ev = true.
Proof.
  unfold register_pipes, err_put_dev. intros H.
  destruct (qcom_smem_alloc s pid _ _ _) as [[r1 s1]|]; [|done].
  destruct (truth r1 && _); [by simplify_eq|].
  destruct (qcom_smem_get s1 pid _) as [[[d size]|]|]; [|by simplify_eq|done].
  destruct (negb _); [by simplify_eq|].
  destruct (qcom_smem_alloc s1 pid _ _ _) as [[r2 s2]|]; [|done].
  destruct (truth r2 && _); [by simplify_eq|].
  destruct (qcom_smem_get s2 pid _) as [[[f len]|]|]; [|by simplify_eq|done].
  injection H as H. by apply register_edge_outcome in H.
Qed.

Lemma register_pipes_ok env s pid x ev s' :
  register_pipes env s pid [EvDeviceRegistered] = Some (Ok x, ev, s') ->
  exists d s1 s2,
    let tx := x.1.2 in
    qcom_smem_get s1 pid SMEM_GLINK_NATIVE_XPRT_DESCRIPTOR = Some (Ok (d, 32)) /\
    qcom_smem_get s2 pid SMEM_GLINK_NATIVE_XPRT_FIFO_0 = Some (Ok (fifo tx, length_of tx)) /\
    register_edge env s2 (mk_pipe 0 (d + 8) (d + 12) 0 pid)
      (mk_pipe (length_of tx) d (d + 4) (fifo tx) pid) [EvDeviceRegistered] = (Ok x, ev, s').
Proof.
  unfold register_pipes, err_put_dev. intros H.
  destruct (qcom_smem_alloc s pid _ _ _) as [[r1 s1]|]; [|done].
  destruct (truth r1 && _); [done|].
  destruct (qcom_smem_get s1 pid _) as [[[d size]|]|] eqn:G1; [|done|done].
  destruct (Z.eqb_spec size 32) as [->|]; [|done]. cbn [negb] in H.
  destruct (qcom_smem_alloc s1 pid _ _ _) as [[r2 s2]|]; [|done].
  destruct (truth r2 && _); [done|].
  destruct (qcom_smem_get s2 pid _) as [[[f len]|]|] eqn:G2; [|done|done].
  injection H as H. destruct x as [[rx tx] g]. pose proof (register_edge_outcome _ _ _ _ _ _ _ H) as (_ & -> & _).
  exists d, s1, s2. done.
Qed.

(** Registration of an edge ends in one of two ways. With an error,
    everything acquired on the way was released again: the device is
    unregistered, a requested mailbox channel is freed, the interrupt is still
    disabled. With success the four index words are the first four words of the
    32-byte descriptor item of that remote, the transmit FIFO is the one its
    item describes, and the two indices this side owns are zero. *)
Theorem register_balanced (env : reg_env) (s s' : option qcom_smem) (r : result edge) (ev : list reg_event) :
  qcom_glink_smem_register env s = Some (r, ev, s') ->
  match r with
  | Err _ => released ev = true
  | Ok (rx, tx, _) =>
      exists d pid s1 s2,
        env_remote_pid env = Ok pid /\
        qcom_smem_get s1 pid SMEM_GLINK_NATIVE_XPRT_DESCRIPTOR = Some (Ok (d, 32)) /\
        qcom_smem_get s2 pid SMEM_GLINK_NATIVE_XPRT_FIFO_0 = Some (Ok (fifo tx, length_of tx)) /\
        tail tx = d /\ head tx = d + 4 /\ tail rx = d + 8 /\ head rx = d + 12 /\ fifo rx = 0 /\
        (forall sm, s' = Some sm -> rd32 (smem_mem sm) (head tx) = 0 /\ rd32 (smem_mem sm) (tail rx) = 0) /\
        ev = [EvDeviceRegistered; EvMboxRequested; EvIrqEnabled]
  end.
Proof.
  unfold qcom_glink_smem_register. intros H.
  destruct (negb (env_smem_alloc env)); [by simplify_eq|].
  destruct (truth (env_device_register env)); [by simplify_eq|].
  destruct (env_remote_pid env) as [pid|e]; [|by simplify_eq].
  destruct (negb (env_pipes_alloc env)); [by simplify_eq|].
  destruct r as [[[rx tx] g]|e]; [|by eapply register_pipes_err].
  apply register_pipes_ok in H as (d & s1 & s2 & G1 & G2 & E).
  apply register_edge_outcome in E as (-> & -> & -> & ->). cbn [fifo length_of] in G2.
  exists d, pid, s1, s2. repeat (split; [done|]). split; [|done]. intros sm Hsm.
  destruct s2 as [sm0|]; [|done]. cbn in Hsm. simplify_eq. cbn [smem_mem set_field tail head].
  split; [by apply load_le_wr_same_32|].
  etransitivity; [apply (rd32_wr32_ne (wr32 (smem_mem sm0) (d + 8) 0) (d + 8) (d + 4) 0); lia|].
  by apply load_le_wr_same_32.
Qed.

(** ** Witnesses *)

Definition demo_pipe : glink_smem_pipe := mk_pipe 64 16 20 1024 5.

(** Indices near the end of the buffer, nothing unread. *)
Definition demo_pipe_mem : mem := wr32 (wr32 (fun _ => 0) 16 48) 20 48.

Definition demo_pipe_smem : qcom_smem :=
  mk_smem (wr32 demo_pipe_mem 20 8) 512 0 no_part (replicate 25 no_part) [].

Lemma rx_access_in_fifo_witness :
  glink_smem_rx_peek (wr32 demo_pipe_mem 16 64) demo_pipe [] 4 20 = Some (replicate 20 0) /\
  glink_smem_rx_peek (wr32 demo_pipe_mem 16 4000) demo_pipe [7] 4 20 = Some [7].
Proof.
  assert (forall a v, bytes_ok (wr32 demo_pipe_mem a v)) as Hb.
  { intros a v. unfold demo_pipe_mem, wr32. repeat apply bytes_ok_store_le. intros x. lia. }
  split.
  - rewrite (rx_access_in_fifo demo_pipe_smem demo_pipe demo_pipe 24);
      [vm_compute; reflexivity|apply Hb|apply Hb|vm_compute; reflexivity|cbn; lia|lia|lia|lia].
  - rewrite (rx_access_in_fifo demo_pipe_smem demo_pipe demo_pipe 24);
      [vm_compute; reflexivity|apply Hb|apply Hb|vm_compute; reflexivity|cbn; lia|lia|lia|lia].
Defined.

Definition demo_ops : list pipe_op :=
  [OpSend [1; 2; 3; 4; 5; 6; 7; 8] [9; 10; 11]; OpSend (replicate 8 42) (replicate 16 43);
   OpSend [1; 1; 1; 1; 1; 1; 1; 1] []; OpPeek 0 8; OpPeek 8 3; OpAdvance 16; OpPeek 6 4].

Lemma pipe_refines_packet_queue_witness :
  exists m', run (impl_step demo_pipe) demo_pipe_mem demo_ops =
    Some ([OutSent true; OutSent true; OutSent true; OutBytes [1; 2; 3; 4; 5; 6; 7; 8];
           OutBytes [9; 10; 11]; OutDone; OutBytes [42; 42; 43; 43]], m').
Proof.
  destruct (pipe_refines_packet_queue demo_pipe demo_ops demo_pipe_mem []
    [replicate 8 42 ++ replicate 16 43; [1; 1; 1; 1; 1; 1; 1; 1]]
    [OutSent true; OutSent true; OutSent true; OutBytes [1; 2; 3; 4; 5; 6; 7; 8];
     OutBytes [9; 10; 11]; OutDone; OutBytes [42; 42; 43; 43]]) as (m' & E & _).
  - split.
    + constructor; [constructor|..]; vm_compute; intuition (congruence || discriminate).
    + replace (contents demo_pipe_mem demo_pipe) with (@nil Z) by (vm_compute; reflexivity). constructor.
  - vm_compute. reflexivity.
  - exists m'. exact E.
Defined.

(** A global heap of 32 KiB at 8192. *)
Definition demo_reg_smem : qcom_smem :=
  mk_smem (wr32 (wr32 (fun _ => 0) 8388 16384) 8392 32768) 512 0 no_part (replicate 25 no_part)
    [mk_region 2147483648 8192 65536].

Definition demo_reg_env : reg_env := mk_reg_env true 0 (Ok 3) true 0 0 0 (Ok 1) (Ok 77).

Lemma register_balanced_witness :
  exists d pid (s1 : option qcom_smem),
    env_remote_pid demo_reg_env = Ok pid /\
    qcom_smem_get s1 pid SMEM_GLINK_NATIVE_XPRT_DESCRIPTOR = Some (Ok (d, 32)) /\ 24576 + 4 = d + 4.
Proof.
  destruct (qcom_glink_smem_register demo_reg_env (Some demo_reg_smem)) as [[[r ev] s']|] eqn:E;
    [|vm_compute in E; discriminate].
  pose proof (register_balanced demo_reg_env (Some demo_reg_smem) s' r ev E) as H.
  destruct r as [[[rx tx] g]|e].
  - assert (tail tx = 24576) as Ht.
    { pose proof (f_equal (fun o => match o with Some (Ok (_, t, _), _, _) => tail t | _ => 0 end) E) as E'.
      vm_compute in E'. symmetry. exact E'. }
    destruct H as (d & pid & s1 & s2 & H1 & H2 & _ & H3 & _). exists d, pid, s1.
    split; [exact H1|]. split; [exact H2|]. rewrite <- H3, Ht. reflexivity.
  - pose proof (f_equal (fun o => match o with Some (Ok _, _, _) => true | _ => false end) E) as E'.
    vm_compute in E'. discriminate.
Defined.
