(* ===== verification/GlinkTransport.v ===== *)
(** * GLINK: the interface between the protocol and its pipes

    drivers/rpmsg/qcom_glink_native.h declares [struct qcom_glink_pipe], the
    function pointers through which the protocol (qcom_glink_native.c) uses a
    receive pipe and a transmit pipe. [Transport] is that interface for the two
    pipes of one edge; [TransportLaws] is what the protocol relies on. The
    shared memory pipes of GlinkSmem.v are an instance ([smem_transport]) and
    so is a pair of byte lists ([list_transport]). *)
From stdpp Require Import prelude list.
From S2P Require Import Prelude.
From S2P Require Import Smem.
From S2P Require Import GlinkSmem.

(** [None] is an access outside the pipe or a division by zero. The argument of
    [tr_rx_peek] after the pipe is the destination's previous contents. *)
Class Transport (T : Type) := {
  tr_rx_avail : T -> option (Z * T);
  tr_rx_peek : T -> list Z -> Z -> Z -> option (list Z);
  tr_rx_advance : T -> Z -> option T;
  tr_tx_length : T -> Z;
  tr_tx_avail : T -> Z;
  tr_tx_write : T -> list Z -> list Z -> option T;
}.

(** [rx_bytes]: received and not read; [tx_bytes]: written and not read by the
    remote side. *)
Class TransportLaws (T : Type) `{Transport T} := {
  tr_ok : T -> Prop;
  rx_bytes : T -> list Z;
  tx_bytes : T -> list Z;
  law_rx_avail : forall t, tr_ok t ->
    tr_rx_avail t = Some (Z.of_nat (length (rx_bytes t)), t);
  law_rx_bound : forall t, tr_ok t -> Z.of_nat (length (rx_bytes t)) < 2 ^ 31;
  law_rx_peek : forall t data offset count, tr_ok t ->
    0 <= offset -> 0 <= count -> offset + count <= Z.of_nat (length (rx_bytes t)) ->
    tr_rx_peek t data offset count = Some (take (Z.to_nat count) (drop (Z.to_nat offset) (rx_bytes t)));
  law_rx_advance : forall t n, tr_ok t ->
    0 <= n <= Z.of_nat (length (rx_bytes t)) -> n mod 8 = 0 ->
    exists t', tr_rx_advance t n = Some t' /\ tr_ok t' /\
      rx_bytes t' = drop (Z.to_nat n) (rx_bytes t) /\ tx_bytes t' = tx_bytes t /\
      tr_tx_length t' = tr_tx_length t;
  law_rx_aligned : forall t, tr_ok t -> Z.of_nat (length (rx_bytes t)) mod 8 = 0;
  law_tx_length : forall t, tr_ok t -> 8 <= tr_tx_length t < 2 ^ 31 /\ tr_tx_length t mod 8 = 0;
  law_tx_aligned : forall t, tr_ok t -> Z.of_nat (length (tx_bytes t)) mod 8 = 0;
  law_tx_avail : forall t, tr_ok t ->
    tr_tx_avail t = Z.max 0 (tr_tx_length t - Z.of_nat (length (tx_bytes t)) - 16);
  law_tx_write : forall t hdr data, tr_ok t ->
    Z.of_nat (length (tx_bytes t)) + ALIGN (Z.of_nat (length (hdr ++ data))) 8 < tr_tx_length t ->
    exists t' pad, tr_tx_write t hdr data = Some t' /\ tr_ok t' /\
      tx_bytes t' = tx_bytes t ++ (hdr ++ data) ++ pad /\
      Z.of_nat (length ((hdr ++ data) ++ pad)) = ALIGN (Z.of_nat (length (hdr ++ data))) 8 /\
      rx_bytes t' = rx_bytes t /\ tr_tx_length t' = tr_tx_length t;
}.

(** ** Two lists of bytes *)

Record lists := mk_lists {
  l_rx : list Z;
  l_tx : list Z;
  l_cap : Z;
}.

#[export] Instance eta_lists : Settable lists := fun t => mk_lists (l_rx t) (l_tx t) (l_cap t).

(** Bytes that pad a packet to a multiple of 8. *)
Definition pad_to_8 (pkt : list Z) : list Z :=
  replicate (Z.to_nat (ALIGN (Z.of_nat (length pkt)) 8) - length pkt) 0.

#[export] Instance list_transport : Transport lists := {
  tr_rx_avail t := Some (Z.of_nat (length (l_rx t)), t);
  tr_rx_peek t _ offset count :=
    if (0 <=? offset) && (0 <=? count) && (offset + count <=? Z.of_nat (length (l_rx t)))
    then Some (take (Z.to_nat count) (drop (Z.to_nat offset) (l_rx t))) else None;
  tr_rx_advance t n :=
    if (0 <=? n) && (n <=? Z.of_nat (length (l_rx t)))
    then Some (t <| l_rx := drop (Z.to_nat n) (l_rx t) |>) else None;
  tr_tx_length t := l_cap t;
  tr_tx_avail t := Z.max 0 (l_cap t - Z.of_nat (length (l_tx t)) - 16);
  tr_tx_write t hdr data := Some (t <| l_tx := l_tx t ++ (hdr ++ data) ++ pad_to_8 (hdr ++ data) |>);
}.

Record lists_ok (t : lists) : Prop := {
  lo_cap : 8 <= l_cap t < 2 ^ 31;
  lo_cap8 : l_cap t mod 8 = 0;
  lo_rx : Z.of_nat (length (l_rx t)) < 2 ^ 31;
  lo_rx8 : Z.of_nat (length (l_rx t)) mod 8 = 0;
  lo_tx8 : Z.of_nat (length (l_tx t)) mod 8 = 0;
}.

Lemma length_pad_to_8 pkt :
  Z.of_nat (length (pkt ++ pad_to_8 pkt)) = ALIGN (Z.of_nat (length pkt)) 8.
Proof.
  pose proof (ALIGN_8_bounds (Z.of_nat (length pkt))).
  unfold pad_to_8. rewrite length_app, length_replicate. lia.
Qed.

#[export, refine] Instance list_laws : TransportLaws lists := {
  tr_ok := lists_ok;
  rx_bytes := l_rx;
  tx_bytes := l_tx;
}.
Proof.
  - done.
  - by intros t [].
  - intros t data off n _ ???. cbn.
    by rewrite !(proj2 (Z.leb_le _ _)) by lia.
  - intros t n [Hc Hc8 Hr Hr8 Ht8] Hn H8. cbn. rewrite !(proj2 (Z.leb_le _ _)) by lia. eexists. split; [done|].
    split; [|done]. constructor; cbn; try done; rewrite length_drop; [lia|].
    replace (Z.of_nat _) with (Z.of_nat (length (l_rx t)) - n) by lia. rewrite Zminus_mod, Hr8, H8. done.
  - by intros t [].
  - by intros t [].
  - by intros t [].
  - done.
  - intros t hdr data [Hc Hc8 Hr Hr8 Ht8] Hfit. cbn. eexists _, _. split; [done|].
    split; [|split; [done|split; [apply length_pad_to_8|done]]].
    constructor; cbn; try done. rewrite length_app, Nat2Z.inj_add, length_pad_to_8.
    rewrite Zplus_mod, Ht8, ALIGN_8_mod. done.
Defined.

(** ** The two pipes of a shared memory edge *)

Record smem_edge := mk_smem_edge {
  se_smem : qcom_smem;
  se_rx : glink_smem_pipe;
  se_tx : glink_smem_pipe;
}.

#[export] Instance eta_smem_edge : Settable smem_edge :=
  fun t => mk_smem_edge (se_smem t) (se_rx t) (se_tx t).

Definition se_mem (t : smem_edge) : mem := smem_mem (se_smem t).

Definition se_set_mem (t : smem_edge) (m : mem) : smem_edge :=
  t <| se_smem := (se_smem t) <| smem_mem := m |> |>.

#[export] Instance smem_transport : Transport smem_edge := {
  tr_rx_avail t := '(n, p) ← glink_smem_rx_avail (se_smem t) (se_rx t); Some (n, t <| se_rx := p |>);
  tr_rx_peek t data offset count := glink_smem_rx_peek (se_mem t) (se_rx t) data offset count;
  tr_rx_advance t n := m ← glink_smem_rx_advance (se_mem t) (se_rx t) n; Some (se_set_mem t m);
  tr_tx_length t := length_of (se_tx t);
  tr_tx_avail t := glink_smem_tx_avail (se_mem t) (se_tx t);
  tr_tx_write t hdr data := m ← glink_smem_tx_write (se_mem t) (se_tx t) hdr data; Some (se_set_mem t m);
}.

(** The pipes do not overlap: nothing one side writes is read by the other. *)
Definition apart (a n b k : Z) : Prop := a + n <= b \/ b + k <= a.

Record pipes_apart (rx tx : glink_smem_pipe) : Prop := {
  pa_fifos : apart (fifo rx) (length_of rx) (fifo tx) (length_of tx);
  pa_rx_tail : apart (tail rx) 4 (fifo tx) (length_of tx);
  pa_rx_head : apart (head rx) 4 (fifo tx) (length_of tx);
  pa_tx_tail : apart (tail tx) 4 (fifo rx) (length_of rx);
  pa_tx_head : apart (head tx) 4 (fifo rx) (length_of rx);
  pa_tails : apart (tail rx) 4 (tail tx) 4;
  pa_tail_head : apart (tail rx) 4 (head tx) 4;
  pa_head_tail : apart (head rx) 4 (tail tx) 4;
  pa_heads : apart (head rx) 4 (head tx) 4;
}.

Record smem_edge_ok (t : smem_edge) : Prop := {
  so_rx : pipe_ok (se_mem t) (se_rx t);
  so_tx : pipe_ok (se_mem t) (se_tx t);
  so_apart : pipes_apart (se_rx t) (se_tx t);
}.

(** A pipe that none of the written bytes belong to stays as it was. *)
Lemma pipe_untouched m m' p :
  pipe_ok m p ->
  (forall x, fifo p <= x < fifo p + length_of p \/ tail p <= x < tail p + 4 \/ head p <= x < head p + 4 ->
     m' x = m x) ->
  pipe_ok m' p /\ contents m' p = contents m p.
Proof.
  intros H E.
  assert (rd32 m' (head p) = rd32 m (head p)) as Eh by (apply load_le_ext; intros; apply E; lia).
  assert (rd32 m' (tail p) = rd32 m (tail p)) as Et by (apply load_le_ext; intros; apply E; lia).
  destruct H as [L ????]. split.
  - constructor; rewrite ?Eh, ?Et; done.
  - unfold contents, used. rewrite Eh, Et. apply ring_ext. intros i Hi. apply E.
    pose proof (Z.mod_pos_bound (rd32 m (tail p) + i) (length_of p)). destruct L. lia.
Qed.

Lemma smem_advance t n :
  smem_edge_ok t -> 0 <= n <= Z.of_nat (length (contents (se_mem t) (se_rx t))) -> n mod 8 = 0 ->
  exists t', tr_rx_advance t n = Some t' /\ smem_edge_ok t' /\
    contents (se_mem t') (se_rx t') = drop (Z.to_nat n) (contents (se_mem t) (se_rx t)) /\
    contents (se_mem t') (se_tx t') = contents (se_mem t) (se_tx t) /\
    length_of (se_tx t') = length_of (se_tx t).
Proof.
  intros [Rx Tx A] Hn H8. rewrite length_contents in Hn by done.
  destruct (rx_advance_drop (se_mem t) (se_rx t) n Rx Hn H8) as (m' & E & Rx' & Ec & _ & _ & Hs).
  exists (se_set_mem t m'). cbn [tr_rx_advance smem_transport]. rewrite E.
  destruct (pipe_untouched (se_mem t) m' (se_tx t) Tx) as [Tx' Et].
  { intros x Hx. apply Hs. destruct A; unfold apart in *; lia. }
  split; [done|]. split; [by constructor|]. done.
Qed.

Lemma smem_write t hdr data :
  smem_edge_ok t ->
  Z.of_nat (length (contents (se_mem t) (se_tx t))) + ALIGN (Z.of_nat (length (hdr ++ data))) 8
    < length_of (se_tx t) ->
  exists t' pad, tr_tx_write t hdr data = Some t' /\ smem_edge_ok t' /\
    contents (se_mem t') (se_tx t') = contents (se_mem t) (se_tx t) ++ (hdr ++ data) ++ pad /\
    Z.of_nat (length ((hdr ++ data) ++ pad)) = ALIGN (Z.of_nat (length (hdr ++ data))) 8 /\
    contents (se_mem t') (se_rx t') = contents (se_mem t) (se_rx t) /\
    length_of (se_tx t') = length_of (se_tx t).
Proof.
  intros [Rx Tx A] Hfit. rewrite length_contents in Hfit by done.
  destruct (tx_write_written (se_mem t) (se_tx t) hdr data Tx Hfit)
    as (m' & E & [Tx' Hu _ (pad & Ec & _) Hf]).
  exists (se_set_mem t m'), pad. cbn [tr_tx_write smem_transport]. rewrite E.
  destruct (pipe_untouched (se_mem t) m' (se_rx t) Rx) as [Rx' Er].
  { intros x Hx. destruct A; unfold apart in *; apply Hf; lia. }
  split; [done|]. split; [by constructor|]. split; [done|]. split; [|done].
  pose proof (f_equal length Ec) as Hlen. rewrite length_app in Hlen.
  pose proof (length_contents _ _ Tx). pose proof (length_contents _ _ Tx'). lia.
Qed.

#[export, refine] Instance smem_laws : TransportLaws smem_edge := {
  tr_ok := smem_edge_ok;
  rx_bytes t := contents (se_mem t) (se_rx t);
  tx_bytes t := contents (se_mem t) (se_tx t);
}.
Proof.
  - intros t [Rx _ _]. cbn. unfold glink_smem_rx_avail.
    rewrite (proj2 (Z.eqb_neq _ 0)) by apply Rx. cbn.
    rewrite rx_len_used, length_contents by done. by destruct t.
  - intros t [Rx _ _]. rewrite length_contents by done. pose proof (used_bound _ _ Rx).
    pose proof (pl_length _ (po_layout _ _ Rx)). lia.
  - intros t data off n [Rx _ _] ???. cbn. apply rx_peek_contents; [done|done|done|].
    by rewrite <- length_contents.
  - exact smem_advance.
  - intros t [Rx _ _]. rewrite length_contents by done. by apply used_aligned.
  - intros t [_ Tx _]. cbn. destruct (po_layout _ _ Tx). done.
  - intros t [_ Tx _]. rewrite length_contents by done. by apply used_aligned.
  - intros t [_ Tx _]. cbn. rewrite tx_avail_used by done. by rewrite length_contents.
  - exact smem_write.
Defined.
