(* ===== verification/Glink.v ===== *)
(** * GLINK: channels, intents and messages

    Models drivers/rpmsg/qcom_glink_native.c (and the lookup of zero-copy
    buffers in drivers/rpmsg/qcom_glink_memshare.c): one edge to a remote
    processor with its two pipes ([GlinkTransport.Transport]), its channels, the
    receive intents by which each side says how much it is ready to receive,
    and the messages that cross the pipes.

    Channels and intents are objects on a heap ([channels], [intents]), named
    by pointers, because the code shares them between tables, queues and the
    remote side; using a freed object, writing outside a buffer or reading an
    unterminated name is the outcome [Fault]. A call that sleeps lets the other
    threads run: it takes the next function of the schedule [w_sched] and
    applies it to the edge, and is [Blocked] when the schedule is empty.
    Wake-ups therefore have no counterpart of their own. *)
From stdpp Require Import prelude gmap list sorting.
From S2P Require Import Prelude.
From S2P Require Import Effects.
From S2P Require Import GlinkTransport.

(** ** Constants *)

Definition GLINK_IRQ_ITERATION_LIMITS : Z := 10.

Definition GLINK_NAME_SIZE : Z := 32.

Definition GLINK_VERSION_1 : Z := 1.

Definition RPM_GLINK_CID_MIN : Z := 1.

Definition RPM_GLINK_CID_MAX : Z := 65536.

Definition GLINK_CMD_VERSION : Z := 0.

Definition GLINK_CMD_VERSION_ACK : Z := 1.

Definition GLINK_CMD_OPEN : Z := 2.

Definition GLINK_CMD_CLOSE : Z := 3.

Definition GLINK_CMD_OPEN_ACK : Z := 4.

Definition GLINK_CMD_INTENT : Z := 5.

Definition GLINK_CMD_RX_DONE : Z := 6.

Definition GLINK_CMD_RX_INTENT_REQ : Z := 7.

Definition GLINK_CMD_RX_INTENT_REQ_ACK : Z := 8.

Definition GLINK_CMD_TX_DATA : Z := 9.

Definition GLINK_CMD_TX_DATA_ZERO_COPY : Z := 10.

Definition GLINK_CMD_CLOSE_ACK : Z := 11.

Definition GLINK_CMD_TX_DATA_CONT : Z := 12.

Definition GLINK_CMD_READ_NOTIF : Z := 13.

Definition GLINK_CMD_RX_DONE_W_REUSE : Z := 14.

Definition GLINK_CMD_SIGNALS : Z := 15.

Definition GLINK_FEATURE_INTENT_REUSE : Z := BIT 0.

Definition GLINK_FEATURE_ZERO_COPY : Z := BIT 3.

Definition NATIVE_DSR_SIG : Z := BIT 31.

Definition NATIVE_DTR_SIG : Z := NATIVE_DSR_SIG.

Definition NATIVE_CTS_SIG : Z := BIT 30.

Definition NATIVE_RTS_SIG : Z := NATIVE_CTS_SIG.

Definition NATIVE_CD_SIG : Z := BIT 29.

Definition NATIVE_RI_SIG : Z := BIT 28.

(** Modem lines, from the kernel's termios header. *)
Definition TIOCM_DTR : Z := 2.

Definition TIOCM_RTS : Z := 4.

Definition TIOCM_CTS : Z := 32.

Definition TIOCM_CD : Z := 64.

Definition TIOCM_RI : Z := 128.

Definition TIOCM_DSR : Z := 256.

Definition RPMSG_DEFER : Z := 1.

Definition SZ_1K : Z := 1024.

Definition SZ_8K : Z := 8192.

Definition MAX_INTENT_TIMEOUTS : Z := 2.

(** What [kzalloc(0)] returns. *)
Definition ZERO_SIZE_PTR : Z := 16.

(** ** ID tables

    [struct idr] maps small integers to pointers. Which free identifier an
    allocation picks is the library's affair. *)
Record idr := mk_idr {
  idr_map : gmap Z Z;
  idr_next : Z;
}.

#[export] Instance eta_idr : Settable idr := fun i => mk_idr (idr_map i) (idr_next i).

Definition idr_init : idr := mk_idr ∅ 0.

(** An [end] that is not positive as an int means no upper bound. *)
Definition idr_end (stop : Z) : Z := if s32 stop <=? 0 then 2 ^ 31 else s32 stop.

Class IdrOps := {
  idr_pick : gmap Z Z -> Z -> Z -> result Z;  (* table, start, end *)
  idr_pick_cyclic : gmap Z Z -> Z -> Z -> Z -> result Z;  (* table, next, start, end *)
}.

Definition idr_find (t : idr) (id : Z) : option Z := idr_map t !! id.

Definition idr_remove (t : idr) (id : Z) : idr := t <| idr_map := delete id (idr_map t) |>.

Definition idr_insert (t : idr) (id ptr : Z) : idr := t <| idr_map := <[id := ptr]> (idr_map t) |>.

Definition key_le (x y : Z * Z) : Prop := x.1 <= y.1.

#[export] Instance key_le_dec : RelDecision key_le.
Proof. intros x y. unfold key_le. apply _. Defined.

(** The entries in the order of [idr_for_each_entry]. *)
Definition idr_entries (t : idr) : list (Z * Z) := merge_sort key_le (map_to_list (idr_map t)).

(** Search upwards for a free identifier: an implementation of the interface. *)
Fixpoint idr_first (m : gmap Z Z) (start : Z) (n : nat) : option Z :=
  match n with
  | O => None
  | S k => match m !! start with None => Some start | Some _ => idr_first m (start + 1) k end
  end.

Definition idr_pick_linear (m : gmap Z Z) (start stop : Z) : result Z :=
  if start <? 0 then Err (- EINVAL)
  else
    match idr_first m start (Z.to_nat (Z.min (idr_end stop - start) (Z.of_nat (size m) + 1))) with
    | Some i => Ok i
    | None => Err (- ENOSPC)
    end.

#[export] Instance idr_linear : IdrOps := {
  idr_pick := idr_pick_linear;
  idr_pick_cyclic m next start stop :=
    match idr_pick_linear m (Z.max next start) stop with
    | Ok i => Ok i
    | Err _ => idr_pick_linear m start stop
    end;
}.

(** ** Objects *)

(** What [intent->data] points to: nothing, a kernel buffer at an address, or
    memory the remote side shares. *)
Inductive idata :=
| DNull
| DBuf (ptr : Z) (bs : list Z)
| DVa (va : Z).

Definition data_ptr (d : idata) : Z :=
  match d with
  | DNull => 0
  | DBuf p _ => p
  | DVa va => va
  end.

Record glink_core_rx_intent := mk_intent {
  i_data : idata;
  i_id : Z;
  i_size : Z;
  i_reuse : bool;
  i_in_use : bool;
  i_advertised : bool;
  i_ack_pending : bool;
  i_offset : Z;
  i_cb_irq_done : bool;
}.

#[export] Instance eta_intent : Settable glink_core_rx_intent := fun i =>
  mk_intent (i_data i) (i_id i) (i_size i) (i_reuse i) (i_in_use i) (i_advertised i)
    (i_ack_pending i) (i_offset i) (i_cb_irq_done i).

Definition zero_intent : glink_core_rx_intent := mk_intent DNull 0 0 false false false false 0 false.

Record glink_channel := mk_channel {
  c_name : list Z;
  c_refcount : Z;
  c_lcid : Z;
  c_rcid : Z;
  c_liids : idr;
  c_riids : idr;
  c_defer_intents : list Z;
  c_rx_queue : list Z;
  c_rx_task : bool;
  c_buf : option Z;
  c_open_ack : bool;
  c_open_req : bool;
  c_intent_req_result : Z;
  c_intent_received : bool;
  c_ready : bool;
  c_intent_timeout_count : Z;
  c_cb_irq : bool;
  c_local_signals : Z;
  c_remote_signals : Z;
  c_signals_cb : bool;
  c_ept_cb : bool;
  c_rpdev : bool;
}.

#[export] Instance eta_channel : Settable glink_channel := fun c =>
  mk_channel (c_name c) (c_refcount c) (c_lcid c) (c_rcid c) (c_liids c) (c_riids c)
    (c_defer_intents c) (c_rx_queue c) (c_rx_task c) (c_buf c) (c_open_ack c) (c_open_req c)
    (c_intent_req_result c) (c_intent_received c) (c_ready c) (c_intent_timeout_count c)
    (c_cb_irq c) (c_local_signals c) (c_remote_signals c) (c_signals_cb c) (c_ept_cb c) (c_rpdev c).

Definition zero_channel (name : list Z) : glink_channel :=
  mk_channel name 1 0 0 idr_init idr_init [] [] false None false false 0 false false 0 false 0 0
    false false false.

(** What a client sees of a received message. *)
Inductive payload :=
| PBytes (bs : list Z)
| PVa (va len : Z).

Inductive event :=
| EvKick
| EvDeliver (c : Z) (p : payload)
| EvRegister (name : list Z)
| EvUnregister (name : list Z)
| EvSignals (c old new : Z).

(** A shared region of drivers/rpmsg/qcom_glink_memshare.c. *)
Record qcom_glink_mem_entry := mk_mem_entry {
  me_va : Z;
  me_da : Z;
  me_len : Z;
}.

Record qcom_glink (T : Type) := mk_glink {
  g_tr : T;
  g_features : Z;
  g_intentless : bool;
  g_sent_read_notify : bool;
  g_abort_tx : bool;
  g_lcids : idr;
  g_rcids : idr;
  g_rx_queue : list (list Z);
  g_channels : gmap Z glink_channel;
  g_intents : gmap Z glink_core_rx_intent;
  g_allocs : nat;
  g_should_wake : bool;
  g_resume_pkt : bool;
  g_log : list event;
}.
Arguments mk_glink {T}.
Arguments g_tr {T}.
Arguments g_features {T}.
Arguments g_intentless {T}.
Arguments g_sent_read_notify {T}.
Arguments g_abort_tx {T}.
Arguments g_lcids {T}.
Arguments g_rcids {T}.
Arguments g_rx_queue {T}.
Arguments g_channels {T}.
Arguments g_intents {T}.
Arguments g_allocs {T}.
Arguments g_should_wake {T}.
Arguments g_resume_pkt {T}.
Arguments g_log {T}.

#[export] Instance eta_glink {T : Type} : Settable (qcom_glink T) := fun g =>
  mk_glink (g_tr g) (g_features g) (g_intentless g) (g_sent_read_notify g) (g_abort_tx g)
    (g_lcids g) (g_rcids g) (g_rx_queue g) (g_channels g) (g_intents g) (g_allocs g)
    (g_should_wake g) (g_resume_pkt g) (g_log g).

(** What the rest of the kernel answers. *)
Record glink_env := mk_env {
  env_uninit : nat -> list Z;               (* contents of fresh memory of that size *)
  env_alloc : nat -> bool;                  (* does the k-th allocation succeed? *)
  env_cb : Z -> payload -> nat -> Z;        (* the client's callback on a channel *)
  env_cb_irq : list Z -> bool;              (* qcom,cb-irq of the channel's node *)
  env_intents : list Z -> option (list (Z * Z));  (* qcom,intents *)
  env_register : list Z -> Z;               (* rpmsg_register_device *)
  env_kthread : Z;                          (* kthread_run: 0 or an error *)
  env_mem : list qcom_glink_mem_entry;      (* registered shared regions *)
}.

(** ** Computations on an edge *)

#[local] Open Scope kernel_scope.

Section Glink.
Context {T : Type} `{Transport T} `{IdrOps} (env : glink_env).

Abbreviation M := (M (qcom_glink T)).
Abbreviation glink := (qcom_glink T).

Definition emit (e : event) : M unit := modify (fun g => g <| g_log := e :: g_log g |>).

(** Objects on the heap *)
Definition get_chan (c : Z) : M glink_channel := o <-- gets (fun g => g_channels g !! c) ;;; or_fault o.

Definition set_chan (c : Z) (x : glink_channel) : M unit :=
  modify (fun g => g <| g_channels := <[c := x]> (g_channels g) |>).

Definition upd_chan (c : Z) (f : glink_channel -> glink_channel) : M unit :=
  x <-- get_chan c ;;; set_chan c (f x).

Definition get_intent (i : Z) : M glink_core_rx_intent :=
  o <-- gets (fun g => g_intents g !! i) ;;; or_fault o.

Definition set_intent (i : Z) (x : glink_core_rx_intent) : M unit :=
  modify (fun g => g <| g_intents := <[i := x]> (g_intents g) |>).

Definition upd_intent (i : Z) (f : glink_core_rx_intent -> glink_core_rx_intent) : M unit :=
  x <-- get_intent i ;;; set_intent i (f x).

(** [kmalloc] and friends: a fresh address, or nothing. *)
Definition kmalloc : M (option Z) :=
  n <-- gets g_allocs ;;;
  modify (fun g => g <| g_allocs := S n |>) ;;;
  mret (if env_alloc env n then Some (Z.of_nat n + 32) else None).

Definition kmalloc_buf (size : Z) (fill : nat -> list Z) : M (option idata) :=
  if size =? 0 then mret (Some (DBuf ZERO_SIZE_PTR []))
  else
    p <-- kmalloc ;;;
    mret (match p with Some p => Some (DBuf p (fill (Z.to_nat size))) | None => None end).

(** [kfree(intent->data)]: only for nothing or a kernel buffer. *)
Definition kfree_data (i : Z) : M unit :=
  x <-- get_intent i ;;;
  match i_data x with
  | DVa _ => fault
  | _ => mret tt
  end.

Definition kfree_intent (i : Z) : M unit :=
  get_intent i ;;; modify (fun g => g <| g_intents := delete i (g_intents g) |>).

(** The node of an intent is on one list at most: adding it to a second one
    corrupts both, deleting it from a list it is not on follows bad links. *)
Definition on_list (i : Z) (x : glink_channel) : bool :=
  bool_decide (i ∈ c_rx_queue x) || bool_decide (i ∈ c_defer_intents x).

Definition rx_queue_add_tail (c i : Z) : M unit :=
  x <-- get_chan c ;;;
  if on_list i x then fault else set_chan c (x <| c_rx_queue := c_rx_queue x ++ [i] |>).

Definition rx_queue_add (c i : Z) : M unit :=
  x <-- get_chan c ;;;
  if on_list i x then fault else set_chan c (x <| c_rx_queue := i :: c_rx_queue x |>).

Definition defer_add_tail (c i : Z) : M unit :=
  x <-- get_chan c ;;;
  if on_list i x then fault else set_chan c (x <| c_defer_intents := c_defer_intents x ++ [i] |>).

Definition defer_del (c i : Z) : M unit :=
  x <-- get_chan c ;;;
  if bool_decide (i ∈ c_defer_intents x)
  then set_chan c (x <| c_defer_intents := filter (.≠ i) (c_defer_intents x) |>)
  else fault.

(** ** Messages on the wire *)

Definition glink_msg (cmd param1 param2 : Z) : list Z := le_bytes 2 cmd ++ le_bytes 2 param1 ++ le_bytes 4 param2.

Definition msg_cmd (bs : list Z) : Z := le_val (take 2 bs).

Definition msg_param1 (bs : list Z) : Z := le_val (take 2 (drop 2 bs)).

Definition msg_param2 (bs : list Z) : Z := le_val (take 4 (drop 4 bs)).

(** The word at a byte offset of a received header. *)
Definition msg_word (bs : list Z) (off : nat) : Z := le_val (take 4 (drop off bs)).

(** ** Channels and references *)

Definition qcom_glink_alloc_channel (name : list Z) : M (result Z) :=
  p <-- kmalloc ;;;
  match p with
  | None => mret (Err (- ENOMEM))
  | Some c =>
      n <-- kmalloc ;;;
      match n with
      | None => mret (Err (- ENOMEM))
      | Some _ => set_chan c (zero_channel name) ;;; mret (Ok c)
      end
  end.

(** Free an intent of a channel that goes away; shared memory is not freed. *)
Definition release_intent (i : Z) : M unit :=
  x <-- get_intent i ;;;
  (if i_size x =? 0 then upd_intent i (fun x => x <| i_data := DNull |>) else mret tt) ;;;
  kfree_data i ;;; kfree_intent i.

Definition qcom_glink_channel_release (c : Z) : M unit :=
  x <-- get_chan c ;;;
  for_each (c_rx_queue x) (fun i =>
    y <-- get_intent i ;;;
    upd_chan c (fun x => x <| c_liids := idr_remove (c_liids x) (i_id y) |>) ;;;
    release_intent i) ;;;
  for_each (c_defer_intents x) (fun i =>
    y <-- get_intent i ;;;
    upd_chan c (fun x => x <| c_liids := idr_remove (c_liids x) (i_id y) |>) ;;;
    release_intent i) ;;;
  x <-- get_chan c ;;;
  for_each (idr_entries (c_liids x)) (fun e => release_intent e.2) ;;;
  for_each (idr_entries (c_riids x)) (fun e => kfree_intent e.2) ;;;
  modify (fun g => g <| g_channels := delete c (g_channels g) |>).

Definition kref_get (c : Z) : M unit := upd_chan c (fun x => x <| c_refcount := c_refcount x + 1 |>).

Definition kref_put (c : Z) : M unit :=
  x <-- get_chan c ;;;
  set_chan c (x <| c_refcount := c_refcount x - 1 |>) ;;;
  if c_refcount x - 1 =? 0 then qcom_glink_channel_release c else mret tt.

Definition qcom_glink_channel_ref_get (remote_channel : bool) (cid : Z) : M (option Z) :=
  t <-- gets (fun g => if remote_channel then g_rcids g else g_lcids g) ;;;
  match idr_find t cid with
  | Some c => kref_get c ;;; mret (Some c)
  | None => mret None
  end.

Definition qcom_glink_channel_ref_put (channel : option Z) : M unit :=
  match channel with
  | Some c => kref_put c
  | None => mret tt
  end.

(** ** The pipes *)

Definition set_tr (t : T) : M unit := modify (fun g => g <| g_tr := t |>).

Definition qcom_glink_rx_avail : M Z :=
  t <-- gets g_tr ;;;
  r <-- or_fault (tr_rx_avail t) ;;;
  set_tr r.2 ;;; mret r.1.

Definition qcom_glink_rx_peek (data : list Z) (offset count : Z) : M (list Z) :=
  t <-- gets g_tr ;;; or_fault (tr_rx_peek t data offset count).

Definition qcom_glink_rx_advance (count : Z) : M unit :=
  t <-- gets g_tr ;;;
  t' <-- or_fault (tr_rx_advance t count) ;;; set_tr t'.

Definition qcom_glink_tx_write (hdr data : list Z) : M unit :=
  t <-- gets g_tr ;;;
  t' <-- or_fault (tr_tx_write t hdr data) ;;; set_tr t'.

Definition qcom_glink_tx_kick : M unit := emit EvKick.

Definition qcom_glink_send_read_notify : M unit :=
  qcom_glink_tx_write (glink_msg GLINK_CMD_READ_NOTIF 0 0) [] ;;; qcom_glink_tx_kick.

(** The loop of [qcom_glink_tx] up to the point where it sleeps ([None]) or
    ends with a result. *)
Definition tx_attempt (hdr data : list Z) (tlen : Z) (wait : bool) : M (option Z) :=
  avail <-- gets (fun g => tr_tx_avail (g_tr g)) ;;;
  if avail <? tlen then
    if negb wait then mret (Some (- EAGAIN))
    else
      abort <-- gets g_abort_tx ;;;
      if abort then mret (Some (- EIO))
      else
        sent <-- gets g_sent_read_notify ;;;
        (if sent then mret tt
         else modify (fun g => g <| g_sent_read_notify := true |>) ;;; qcom_glink_send_read_notify) ;;;
        mret None
  else
    qcom_glink_tx_write hdr data ;;; qcom_glink_tx_kick ;;; mret (Some 0).

(** After the sleep, with the lock taken again. *)
Definition tx_wake (tlen : Z) : M unit :=
  avail <-- gets (fun g => tr_tx_avail (g_tr g)) ;;;
  if tlen <=? avail then modify (fun g => g <| g_sent_read_notify := false |>) else mret tt.

Fixpoint tx_loop (fuel : nat) (hdr data : list Z) (tlen : Z) (wait : bool) : M Z :=
  r <-- tx_attempt hdr data tlen wait ;;;
  match r with
  | Some ret => mret ret
  | None =>
      sleep ;;;
      tx_wake tlen ;;;
      match fuel with
      | O => (fun _ => NoFuel)
      | S k => tx_loop k hdr data tlen wait
      end
  end.

(** Every round but the last consumes one element of the schedule. *)
Definition qcom_glink_tx (hdr data : list Z) (wait : bool) : M Z := fun w =>
  let tlen := u32 (Z.of_nat (length hdr) + Z.of_nat (length data)) in
  if tr_tx_length (g_tr (w_st w)) <=? tlen then Ret (- EINVAL) w
  else if g_abort_tx (w_st w) then Ret (- EIO) w
  else tx_loop (length (w_sched w)) hdr data tlen wait w.

(** ** Commands sent *)

Definition qcom_glink_send_version : M Z :=
  f <-- gets g_features ;;; qcom_glink_tx (glink_msg GLINK_CMD_VERSION GLINK_VERSION_1 f) [] true.

Definition qcom_glink_send_version_ack : M unit :=
  f <-- gets g_features ;;;
  qcom_glink_tx (glink_msg GLINK_CMD_VERSION_ACK GLINK_VERSION_1 f) [] true ;;; mret tt.

Definition qcom_glink_send_open_ack (c : Z) : M unit :=
  x <-- get_chan c ;;;
  qcom_glink_tx (glink_msg GLINK_CMD_OPEN_ACK (c_rcid x) 0) [] true ;;; mret tt.

(** Allocate a local channel id. *)
Definition alloc_lcid (c : Z) : M Z :=
  t <-- gets g_lcids ;;;
  match idr_pick_cyclic (idr_map t) (idr_next t) RPM_GLINK_CID_MIN RPM_GLINK_CID_MAX with
  | Err e => mret e
  | Ok id =>
      modify (fun g => g <| g_lcids := mk_idr (<[id := c]> (idr_map t)) (id + 1) |>) ;;; mret id
  end.

(** The request on the stack: header, name with its terminator, and what the
    stack held before up to the aligned length. *)
Definition open_req (lcid : Z) (name : list Z) : list Z :=
  let name_len := Z.of_nat (length name) + 1 in
  let used := glink_msg GLINK_CMD_OPEN lcid name_len ++ name ++ [0] in
  used ++ take (Z.to_nat (ALIGN (8 + name_len) 8) - length used) (env_uninit env 8).

Definition qcom_glink_send_open_req (c : Z) : M Z :=
  kref_get c ;;;
  id <-- alloc_lcid c ;;;
  if id <? 0 then mret id
  else
    upd_chan c (fun x => x <| c_lcid := id |>) ;;;
    x <-- get_chan c ;;;
    if GLINK_NAME_SIZE <? Z.of_nat (length (c_name x)) + 1 then fault
    else
      ret <-- qcom_glink_tx (open_req id (c_name x)) [] true ;;;
      if truth ret then
        x <-- get_chan c ;;;
        modify (fun g => g <| g_lcids := idr_remove (g_lcids g) (c_lcid x) |>) ;;;
        upd_chan c (fun x => x <| c_lcid := 0 |>) ;;;
        mret ret
      else mret 0.

Definition qcom_glink_send_close_req (c : Z) : M unit :=
  x <-- get_chan c ;;;
  qcom_glink_tx (glink_msg GLINK_CMD_CLOSE (c_lcid x) 0) [] true ;;; mret tt.

Definition qcom_glink_send_close_ack (c : Z) : M unit :=
  x <-- get_chan c ;;;
  qcom_glink_tx (glink_msg GLINK_CMD_CLOSE_ACK (c_rcid x) 0) [] true ;;; mret tt.

(** ** Giving intents back *)

Definition qcom_glink_send_rx_done (c i : Z) (wait : bool) : M Z :=
  x <-- get_chan c ;;;
  y <-- get_intent i ;;;
  let reuse := i_reuse y in
  let cmd := if reuse then GLINK_CMD_RX_DONE_W_REUSE else GLINK_CMD_RX_DONE in
  upd_intent i (fun y => y <| i_offset := 0 |>) ;;;
  ret <-- qcom_glink_tx (glink_msg cmd (c_lcid x) (i_id y)) [] wait ;;;
  if truth ret then mret ret
  else
    y <-- get_intent i ;;;
    (if i_size y =? 0 then upd_intent i (fun y => y <| i_data := DNull |>) else mret tt) ;;;
    (if reuse then mret tt else kfree_data i ;;; kfree_intent i) ;;;
    mret 0.

Definition __qcom_glink_rx_done (c i : Z) (wait : bool) : M Z :=
  intentless <-- gets g_intentless ;;;
  if intentless then kfree_data i ;;; kfree_intent i ;;; mret 0
  else
    y <-- get_intent i ;;;
    (if i_reuse y then mret tt
     else upd_chan c (fun x => x <| c_liids := idr_remove (c_liids x) (i_id y) |>)) ;;;
    defer_del c i ;;;
    qcom_glink_send_rx_done c i wait.

Definition qcom_glink_rx_done_supported : M bool :=
  f <-- gets g_features ;;; mret (truth (Z.land f GLINK_FEATURE_ZERO_COPY)).

(** The first deferred intent with that data. *)
Fixpoint find_deferred (l : list Z) (data : Z) : M (option Z) :=
  match l with
  | [] => mret None
  | i :: l' =>
      y <-- get_intent i ;;;
      if data_ptr (i_data y) =? data then mret (Some i) else find_deferred l' data
  end.

Definition qcom_glink_rx_done (c : Z) (data : Z) : M Z :=
  supported <-- qcom_glink_rx_done_supported ;;;
  if negb supported then mret (- EINVAL)
  else
    x <-- get_chan c ;;;
    o <-- find_deferred (c_defer_intents x) data ;;;
    match o with
    | None => mret (- EINVAL)
    | Some i =>
        defer_del c i ;;;
        y <-- get_intent i ;;;
        (if i_reuse y then mret tt
         else upd_chan c (fun x => x <| c_liids := idr_remove (c_liids x) (i_id y) |>)) ;;;
        qcom_glink_send_rx_done c i true ;;; mret 0
    end.

(** ** Version negotiation *)

Definition qcom_glink_receive_version (version features : Z) : M unit :=
  if version =? 0 then mret tt
  else
    (if version =? GLINK_VERSION_1
     then modify (fun g => g <| g_features := Z.land (g_features g) features |>) else mret tt) ;;;
    qcom_glink_send_version_ack.

Definition qcom_glink_receive_version_ack (version features : Z) : M unit :=
  f <-- gets g_features ;;;
  if version =? 0 then mret tt
  else if (version =? GLINK_VERSION_1) && (features =? f) then mret tt
  else
    (if version =? GLINK_VERSION_1
     then modify (fun g => g <| g_features := Z.land (g_features g) features |>) else mret tt) ;;;
    qcom_glink_send_version ;;; mret tt.

(** ** Local intents *)

Definition qcom_glink_send_intent_req_ack (c : Z) (granted : bool) : M Z :=
  x <-- get_chan c ;;;
  qcom_glink_tx (glink_msg GLINK_CMD_RX_INTENT_REQ_ACK (c_lcid x) (b2z granted)) [] true ;;; mret 0.

Definition intent_cmd (lcid count size liid : Z) : list Z :=
  glink_msg GLINK_CMD_INTENT lcid count ++ le_bytes 4 size ++ le_bytes 4 liid.

Definition qcom_glink_advertise_intent (c i : Z) : M Z :=
  y <-- get_intent i ;;;
  if i_advertised y then mret 0
  else
    upd_intent i (fun y => y <| i_advertised := true |>) ;;;
    x <-- get_chan c ;;;
    qcom_glink_tx (intent_cmd (c_lcid x) 1 (i_size y) (i_id y)) [] true ;;; mret 0.

Definition qcom_glink_queue_rx_intent_alloc (c size : Z) (reuseable ack_pending : bool) : M Z :=
  p <-- kmalloc ;;;
  match p with
  | None => mret (- ENOMEM)
  | Some i =>
      set_intent i (zero_intent <| i_size := size |> <| i_reuse := reuseable |>
                      <| i_ack_pending := ack_pending |>) ;;;
      rx_queue_add_tail c i ;;; mret 0
  end.

Definition zeros (n : nat) : list Z := replicate n 0.

Definition qcom_glink_alloc_intent_data (c i : Z) : M Z :=
  y <-- get_intent i ;;;
  d <-- kmalloc_buf (i_size y) zeros ;;;
  match d with
  | None => mret (- ENOMEM)
  | Some d =>
      upd_intent i (fun y => y <| i_data := d |>) ;;;
      x <-- get_chan c ;;;
      match idr_pick_cyclic (idr_map (c_liids x)) (idr_next (c_liids x)) 1 (-1) with
      | Err e => upd_intent i (fun y => y <| i_data := DNull |>) ;;; mret e
      | Ok id =>
          set_chan c (x <| c_liids := mk_idr (<[id := i]> (idr_map (c_liids x))) (id + 1) |>) ;;;
          upd_intent i (fun y => y <| i_id := id |>) ;;;
          x <-- get_chan c ;;;
          (if c_ready x then qcom_glink_advertise_intent c i ;;; mret tt else mret tt) ;;;
          mret 0
      end
  end.

(** ** Commands received in the interrupt handler *)

(** [ALIGN(sizeof(struct glink_msg), 8)] *)
Definition sizeof_glink_msg : Z := 8.

Definition qcom_glink_handle_intent_req_ack (cid : Z) (granted : bool) : M unit :=
  qcom_glink_rx_advance (ALIGN sizeof_glink_msg 8) ;;;
  channel <-- qcom_glink_channel_ref_get true cid ;;;
  match channel with
  | None => mret tt
  | Some c =>
      upd_chan c (fun x => x <| c_intent_req_result := b2z granted |> <| c_intent_timeout_count := 0 |>) ;;;
      qcom_glink_channel_ref_put channel
  end.

Definition qcom_glink_handle_rx_done (cid iid : Z) (reuse : bool) : M unit :=
  qcom_glink_rx_advance (ALIGN sizeof_glink_msg 8) ;;;
  channel <-- qcom_glink_channel_ref_get true cid ;;;
  match channel with
  | None => mret tt
  | Some c =>
      x <-- get_chan c ;;;
      match idr_find (c_riids x) iid with
      | None => qcom_glink_channel_ref_put channel
      | Some i =>
          upd_intent i (fun y => y <| i_in_use := false |>) ;;;
          y <-- get_intent i ;;;
          (if reuse then upd_chan c (fun x => x <| c_intent_received := true |>)
           else
             upd_chan c (fun x => x <| c_riids := idr_remove (c_riids x) (i_id y) |>) ;;;
             kfree_intent i) ;;;
          qcom_glink_channel_ref_put channel
      end
  end.

Definition qcom_glink_rx_defer (extra : Z) : M Z :=
  let extra := u64 (ALIGN extra 8) in
  avail <-- qcom_glink_rx_avail ;;;
  if avail <? sizeof_glink_msg + extra then mret (- ENXIO)
  else
    p <-- kmalloc ;;;
    match p with
    | None => mret (- ENOMEM)
    | Some _ =>
        bs <-- qcom_glink_rx_peek (zeros (Z.to_nat (sizeof_glink_msg + extra))) 0 (sizeof_glink_msg + extra) ;;;
        modify (fun g => g <| g_rx_queue := g_rx_queue g ++ [bs] |>) ;;;
        qcom_glink_rx_advance (sizeof_glink_msg + extra) ;;;
        mret 0
    end.

(** Copy into the buffer of an intent. *)
Definition write_data (d : idata) (off : Z) (bs : list Z) : option idata :=
  if bool_decide (bs = []) then Some d
  else
    match d with
    | DBuf p b =>
        if (0 <=? off) && (off + Z.of_nat (length bs) <=? Z.of_nat (length b))
        then Some (DBuf p (take (Z.to_nat off) b ++ bs ++ drop (Z.to_nat off + length bs) b))
        else None
    | _ => None
    end.

(** The bytes a buffer holds at an offset. *)
Definition read_data (d : idata) (off n : Z) : list Z :=
  match d with
  | DBuf _ b => take (Z.to_nat n) (drop (Z.to_nat off) b)
  | _ => []
  end.

(** What the client is handed: [intent->data] and [intent->offset]. *)
Definition payload_of (y : glink_core_rx_intent) : payload :=
  match i_data y with
  | DBuf _ b => PBytes (take (Z.to_nat (i_offset y)) b)
  | d => PVa (data_ptr d) (i_offset y)
  end.

(** Hand a message to the client; 0 when there is no callback. *)
Definition deliver (c i : Z) : M Z :=
  x <-- get_chan c ;;;
  if c_ept_cb x then
    y <-- get_intent i ;;;
    n <-- gets (fun g => length (g_log g)) ;;;
    emit (EvDeliver c (payload_of y)) ;;;
    mret (env_cb env c (payload_of y) n)
  else mret 0.

Definition qcom_glink_is_wakeup (reset : bool) : M bool :=
  r <-- gets g_resume_pkt ;;;
  if negb r then mret false
  else
    (if reset then modify (fun g => g <| g_resume_pkt := false |>) else mret tt) ;;; mret true.

(** [out:] of the data handler: leave the message to the channel's thread. *)
Definition rx_data_queue (c i : Z) : M unit := rx_queue_add_tail c i.

Definition qcom_glink_rx_data_handler (c i iters : Z) : M unit :=
  x <-- get_chan c ;;;
  if c_cb_irq x && (iters <? GLINK_IRQ_ITERATION_LIMITS) && bool_decide (c_rx_queue x = []) then
    intentless <-- gets g_intentless ;;;
    (if intentless then mret tt else defer_add_tail c i) ;;;
    ret <-- deliver c i ;;;
    qcom_glink_is_wakeup true ;;;
    upd_intent i (fun y => y <| i_offset := 0 |>) ;;;
    supported <-- qcom_glink_rx_done_supported ;;;
    if supported && (ret =? RPMSG_DEFER) then upd_chan c (fun x => x <| c_buf := None |>)
    else
      ret <-- __qcom_glink_rx_done c i false ;;;
      if ret <? 0 then
        upd_intent i (fun y => y <| i_cb_irq_done := true |>) ;;; rx_data_queue c i
      else upd_chan c (fun x => x <| c_buf := None |>)
  else rx_data_queue c i.

(** Where the payload goes: the buffer that gathers fragments on an edge
    without intents, else the announced intent. [inl ret]: drop or give up. *)
Inductive rx_target :=
| TIntent (i : Z)
| TDrop (ret : Z)
| TNoMem.

Definition rx_data_intent (c liid chunk_size left_size : Z) : M rx_target :=
  intentless <-- gets g_intentless ;;;
  x <-- get_chan c ;;;
  if intentless then
    match c_buf x with
    | Some i => mret (TIntent i)
    | None =>
        p <-- kmalloc ;;;
        match p with
        | None => mret TNoMem
        | Some i =>
            let size := u32 (chunk_size + left_size) in
            d <-- kmalloc_buf size (env_uninit env) ;;;
            match d with
            | None => mret TNoMem
            | Some d =>
                set_intent i (zero_intent <| i_data := d |> <| i_id := 3132799674 |> <| i_size := size |>) ;;;
                upd_chan c (fun x => x <| c_buf := Some i |>) ;;;
                mret (TIntent i)
            end
        end
    end
  else
    match idr_find (c_liids x) liid with
    | None => mret (TDrop (- ENOENT))
    | Some i => mret (TIntent i)
    end.

(** The copy of a chunk into its intent, and the hand-over of the last one. *)
Definition rx_data_copy (c i chunk_size left_size iters : Z) : M unit :=
  y <-- get_intent i ;;;
  if u64 (i_size y - i_offset y) <? chunk_size then mret tt
  else
    bs <-- qcom_glink_rx_peek (read_data (i_data y) (i_offset y) chunk_size) 16 chunk_size ;;;
    d <-- or_fault (write_data (i_data y) (i_offset y) bs) ;;;
    upd_intent i (fun y => y <| i_data := d |> <| i_offset := u32 (i_offset y + chunk_size) |>) ;;;
    if left_size =? 0 then qcom_glink_rx_data_handler c i iters else mret tt.

Definition qcom_glink_rx_data (avail iters : Z) : M Z :=
  if avail <? 16 then mret (- EAGAIN)
  else
    hdr <-- qcom_glink_rx_peek (env_uninit env 16) 0 16 ;;;
    let chunk_size := msg_word hdr 8 in
    let left_size := msg_word hdr 12 in
    if avail <? 16 + chunk_size then mret (- EAGAIN)
    else
      let advance_rx channel ret :=
        qcom_glink_rx_advance (ALIGN (16 + chunk_size) 8) ;;;
        qcom_glink_channel_ref_put channel ;;; mret ret in
      channel <-- qcom_glink_channel_ref_get true (msg_param1 hdr) ;;;
      match channel with
      | None => advance_rx channel 0
      | Some c =>
          t <-- rx_data_intent c (msg_param2 hdr) chunk_size left_size ;;;
          match t with
          | TNoMem => qcom_glink_channel_ref_put channel ;;; mret (- ENOMEM)
          | TDrop ret => advance_rx channel ret
          | TIntent i => rx_data_copy c i chunk_size left_size iters ;;; advance_rx channel 0
          end
      end.

(** [mem->va + offset] of the first region that holds [da .. da + len). *)
Fixpoint prepare_da (entries : list qcom_glink_mem_entry) (da len : Z) : Z :=
  match entries with
  | [] => 0
  | e :: rest =>
      let offset := s32 (da - me_da e) in
      if me_va e =? 0 then prepare_da rest da len
      else if offset <? 0 then prepare_da rest da len
      else if me_len e <? u64 (offset + len) then prepare_da rest da len
      else me_va e + offset
  end.

Definition qcom_glink_prepare_da_for_cpu (da len : Z) : Z := prepare_da (env_mem env) da len.

Definition qcom_glink_rx_data_zero_copy (avail : Z) : M Z :=
  if avail <? 24 then mret (- EAGAIN)
  else
    hdr <-- qcom_glink_rx_peek (env_uninit env 24) 0 24 ;;;
    let advance_rx channel :=
      qcom_glink_rx_advance (ALIGN 24 8) ;;;
      qcom_glink_channel_ref_put channel ;;; mret 0 in
    intentless <-- gets g_intentless ;;;
    if intentless then advance_rx None
    else
      channel <-- qcom_glink_channel_ref_get true (msg_param1 hdr) ;;;
      match channel with
      | None => advance_rx channel
      | Some c =>
          x <-- get_chan c ;;;
          match idr_find (c_liids x) (msg_param2 hdr) with
          | None => advance_rx channel
          | Some i =>
              y <-- get_intent i ;;;
              if truth (i_size y) then advance_rx channel
              else
                let da := le_val (take 8 (drop 16 hdr)) in
                let len := msg_word hdr 12 in
                let data := qcom_glink_prepare_da_for_cpu da len in
                if data =? 0 then advance_rx channel
                else
                  upd_intent i (fun y => y <| i_data := DVa data |> <| i_offset := len |>) ;;;
                  rx_queue_add_tail c i ;;;
                  advance_rx channel
          end
      end.

Definition qcom_glink_rx_read_notif : M unit :=
  qcom_glink_rx_advance (ALIGN sizeof_glink_msg 8) ;;; qcom_glink_tx_kick.

(** The remote intents of a received array, one by one; an allocation failure
    ends the loop, an identifier that is taken leaves the intent unreferenced. *)
Fixpoint store_intents (c : Z) (pairs : list (Z * Z)) : M unit :=
  match pairs with
  | [] => mret tt
  | (size, iid) :: rest =>
      p <-- kmalloc ;;;
      match p with
      | None => mret tt
      | Some i =>
          set_intent i (zero_intent <| i_id := iid |> <| i_size := size |>) ;;;
          x <-- get_chan c ;;;
          match idr_pick (idr_map (c_riids x)) (s32 iid) (s32 (iid + 1)) with
          | Ok id => set_chan c (x <| c_riids := idr_insert (c_riids x) id i |>)
          | Err _ => mret tt
          end ;;;
          store_intents c rest
      end
  end.

(** The [count] pairs behind the header of an INTENT message. *)
Fixpoint intent_pairs (bs : list Z) (count : nat) : list (Z * Z) :=
  match count with
  | O => []
  | S k => (msg_word bs 0, msg_word bs 4) :: intent_pairs (drop 8 bs) k
  end.

Definition qcom_glink_handle_intent (cid count avail : Z) : M unit :=
  let msglen := 8 + 8 * count in
  if avail <? msglen then mret tt
  else
    channel <-- qcom_glink_channel_ref_get true cid ;;;
    match channel with
    | None => qcom_glink_rx_advance (ALIGN msglen 8)
    | Some c =>
        p <-- kmalloc ;;;
        match p with
        | None => qcom_glink_channel_ref_put channel
        | Some _ =>
            msg <-- qcom_glink_rx_peek (env_uninit env (Z.to_nat msglen)) 0 msglen ;;;
            store_intents c (intent_pairs (drop 8 msg) (Z.to_nat count)) ;;;
            upd_chan c (fun x => x <| c_intent_received := true |>) ;;;
            qcom_glink_rx_advance (ALIGN msglen 8) ;;;
            qcom_glink_channel_ref_put channel
        end
    end.

Definition qcom_glink_rx_open_ack (lcid : Z) : M Z :=
  qcom_glink_rx_advance (ALIGN sizeof_glink_msg 8) ;;;
  channel <-- qcom_glink_channel_ref_get false lcid ;;;
  match channel with
  | None => mret (- EINVAL)
  | Some c =>
      upd_chan c (fun x => x <| c_open_ack := true |>) ;;;
      qcom_glink_channel_ref_put channel ;;; mret 0
  end.

(** ** Signals *)

Definition set_if (b : bool) (x mask : Z) : Z := if b then Z.lor x mask else x.

Definition clear_if (b : bool) (x mask : Z) : Z := if b then Z.land x (Z.lnot mask) else x.

Definition has (x mask : Z) : bool := truth (Z.land x mask).

(** TIOCM to the wire. *)
Definition signals_to_native (signals : Z) : Z :=
  let s := Z.land signals 4095 in
  let s := set_if (has s TIOCM_DTR) s NATIVE_DTR_SIG in
  let s := set_if (has s TIOCM_RTS) s NATIVE_CTS_SIG in
  let s := set_if (has s TIOCM_CD) s NATIVE_CD_SIG in
  set_if (has s TIOCM_RI) s NATIVE_RI_SIG.

(** The wire to TIOCM. *)
Definition signals_from_native (signals : Z) : Z :=
  let s := set_if (has signals NATIVE_DTR_SIG) signals TIOCM_DSR in
  let s := set_if (has s NATIVE_CTS_SIG) s TIOCM_CTS in
  let s := set_if (has s NATIVE_CD_SIG) s TIOCM_CD in
  let s := set_if (has s NATIVE_RI_SIG) s TIOCM_RI in
  Z.land s 4095.

Definition qcom_glink_send_signals (c signals : Z) : M Z :=
  x <-- get_chan c ;;;
  qcom_glink_tx (glink_msg GLINK_CMD_SIGNALS (c_lcid x) (signals_to_native signals)) [] true.

Definition qcom_glink_handle_signals (rcid signals : Z) : M Z :=
  qcom_glink_rx_advance (ALIGN sizeof_glink_msg 8) ;;;
  channel <-- qcom_glink_channel_ref_get true rcid ;;;
  match channel with
  | None => mret (- EINVAL)
  | Some c =>
      x <-- get_chan c ;;;
      let old := c_remote_signals x in
      let new := signals_from_native signals in
      set_chan c (x <| c_remote_signals := new |>) ;;;
      (if c_signals_cb x then emit (EvSignals c old new) else mret tt) ;;;
      qcom_glink_channel_ref_put channel ;;; mret 0
  end.

Definition qcom_glink_set_flow_control (c : Z) (pause : bool) : M Z :=
  x <-- get_chan c ;;;
  let sigs := if pause then Z.lor NATIVE_DTR_SIG NATIVE_RTS_SIG else 0 in
  qcom_glink_tx (glink_msg GLINK_CMD_SIGNALS (c_lcid x) sigs) [] true.

Definition qcom_glink_get_signals (c : Z) : M Z := x <-- get_chan c ;;; mret (c_remote_signals x).

Definition update_signals (signals set clear : Z) : Z :=
  let s := set_if (has set TIOCM_DTR) signals TIOCM_DTR in
  let s := set_if (has set TIOCM_RTS) s TIOCM_RTS in
  let s := set_if (has set TIOCM_CD) s TIOCM_CD in
  let s := set_if (has set TIOCM_RI) s TIOCM_RI in
  let s := clear_if (has clear TIOCM_DTR) s TIOCM_DTR in
  let s := clear_if (has clear TIOCM_RTS) s TIOCM_RTS in
  let s := clear_if (has clear TIOCM_CD) s TIOCM_CD in
  clear_if (has clear TIOCM_RI) s TIOCM_RI.

Definition qcom_glink_set_signals (c set clear : Z) : M Z :=
  x <-- get_chan c ;;;
  let signals := update_signals (c_local_signals x) set clear in
  set_chan c (x <| c_local_signals := signals |>) ;;;
  qcom_glink_send_signals c signals.

Definition qcom_glink_register_signals_cb (c : Z) (cb : bool) : M Z :=
  if negb cb then mret (- EINVAL)
  else upd_chan c (fun x => x <| c_signals_cb := true |>) ;;; mret 0.

(** ** The interrupt handler *)

(** One command; [None] is the [continue] of an unknown one. *)
Definition rx_dispatch (cmd param1 param2 avail iters retry : Z) : M (option Z) :=
  let ok (c : M unit) := c ;;; mret (Some 0) in
  let int (c : M Z) := r <-- c ;;; mret (Some r) in
  if (cmd =? GLINK_CMD_VERSION) || (cmd =? GLINK_CMD_VERSION_ACK) || (cmd =? GLINK_CMD_CLOSE) ||
     (cmd =? GLINK_CMD_CLOSE_ACK) || (cmd =? GLINK_CMD_RX_INTENT_REQ)
  then int (qcom_glink_rx_defer 0)
  else if cmd =? GLINK_CMD_OPEN_ACK then int (qcom_glink_rx_open_ack param1)
  else if cmd =? GLINK_CMD_OPEN then int (qcom_glink_rx_defer param2)
  else if (cmd =? GLINK_CMD_TX_DATA) || (cmd =? GLINK_CMD_TX_DATA_CONT)
  then int (qcom_glink_rx_data avail iters)
  else if cmd =? GLINK_CMD_TX_DATA_ZERO_COPY then int (qcom_glink_rx_data_zero_copy avail)
  else if cmd =? GLINK_CMD_READ_NOTIF then ok qcom_glink_rx_read_notif
  else if cmd =? GLINK_CMD_INTENT then ok (qcom_glink_handle_intent param1 param2 avail)
  else if cmd =? GLINK_CMD_RX_DONE then ok (qcom_glink_handle_rx_done param1 param2 false)
  else if cmd =? GLINK_CMD_RX_DONE_W_REUSE then ok (qcom_glink_handle_rx_done param1 param2 true)
  else if cmd =? GLINK_CMD_RX_INTENT_REQ_ACK
  then ok (qcom_glink_handle_intent_req_ack param1 (truth param2))
  else if cmd =? GLINK_CMD_SIGNALS
  then qcom_glink_handle_signals param1 param2 ;;; mret (Some 0)
  else if retry + 1 <? 5 then mret None
  else mret (Some (- EINVAL)).

(** [msg] is the header buffer on the stack, [retry] and [iters] the counters.
    A command whose handler gives no result leaves [ret] at 0, the only value
    with which the loop goes on. *)
Fixpoint rx_loop (fuel : nat) (msg : list Z) (iters retry : Z) : M unit :=
  match fuel with
  | O => (fun _ => NoFuel)
  | S k =>
      avail <-- qcom_glink_rx_avail ;;;
      let avail := u32 avail in
      if avail <? sizeof_glink_msg then mret tt
      else
        msg <-- qcom_glink_rx_peek msg 0 sizeof_glink_msg ;;;
        r <-- rx_dispatch (msg_cmd msg) (msg_param1 msg) (msg_param2 msg) avail iters retry ;;;
        match r with
        | None => rx_loop k msg iters (retry + 1)
        | Some ret => if truth ret then mret tt else rx_loop k msg (iters + 1) retry
        end
  end.

Definition qcom_glink_native_rx (fuel : nat) : M unit :=
  wake <-- gets g_should_wake ;;;
  (if wake then modify (fun g => g <| g_resume_pkt := true |> <| g_should_wake := false |>) else mret tt) ;;;
  rx_loop fuel (env_uninit env 8) 0 0.

(** ** Opening channels *)

(** [wait_for_completion_timeout]: at once when completed, else after a sleep. *)
Definition wait_completion (c : Z) (done : glink_channel -> bool) : M bool :=
  x <-- get_chan c ;;;
  if done x then mret true
  else sleep ;;; x <-- get_chan c ;;; mret (done x).

Definition release_local (c : Z) : M (result Z) := kref_put c ;;; kref_put c ;;; mret (Err (- ETIMEDOUT)).

Definition qcom_glink_create_local (name : list Z) : M (result Z) :=
  r <-- qcom_glink_alloc_channel name ;;;
  match r with
  | Err e => mret (Err e)
  | Ok c =>
      let err_timeout :=
        x <-- get_chan c ;;;
        modify (fun g => g <| g_lcids := idr_remove (g_lcids g) (c_lcid x) |>) ;;;
        release_local c in
      ret <-- qcom_glink_send_open_req c ;;;
      if truth ret then release_local c
      else
        ack <-- wait_completion c c_open_ack ;;;
        if negb ack then err_timeout
        else
          req <-- wait_completion c c_open_req ;;;
          if negb req then err_timeout else mret (Ok c)
  end.

Definition qcom_glink_create_remote (c : Z) : M Z :=
  let close_link ret := qcom_glink_send_close_req c ;;; mret ret in
  ret <-- qcom_glink_send_open_req c ;;;
  if truth ret then close_link ret
  else
    ack <-- wait_completion c c_open_ack ;;;
    if negb ack then close_link (- ETIMEDOUT) else mret 0.

(** The first channel of that name in a table. *)
Fixpoint find_name (l : list (Z * Z)) (name : list Z) : M (option Z) :=
  match l with
  | [] => mret None
  | (_, c) :: l' =>
      x <-- get_chan c ;;;
      if bool_decide (c_name x = name) then mret (Some c) else find_name l' name
  end.

(** [None]: no endpoint. *)
Definition qcom_glink_create_ept (name : list Z) : M (option Z) :=
  t <-- gets g_rcids ;;;
  o <-- find_name (idr_entries t) name ;;;
  let init_ept c := upd_chan c (fun x => x <| c_ept_cb := true |>) ;;; mret (Some c) in
  match o with
  | None =>
      r <-- qcom_glink_create_local name ;;;
      match r with
      | Err _ => mret None
      | Ok c => init_ept c
      end
  | Some c =>
      ret <-- qcom_glink_create_remote c ;;;
      if truth ret then mret None else init_ept c
  end.

(** The next entry of a table at or above an identifier. *)
Definition idr_get_next (t : idr) (id : Z) : option (Z * Z) :=
  find (fun e => id <=? e.1) (idr_entries t).

(** Advertise the pending intents; the lock is dropped around each one. *)
Fixpoint serve_pending (fuel : nat) (c id : Z) : M unit :=
  match fuel with
  | O => (fun _ => NoFuel)
  | S k =>
      x <-- get_chan c ;;;
      match idr_get_next (c_liids x) id with
      | None => mret tt
      | Some (iid, i) =>
          y <-- get_intent i ;;;
          (if negb (i_reuse y) && negb (i_advertised y)
           then qcom_glink_advertise_intent c i ;;; mret tt else mret tt) ;;;
          serve_pending k c (iid + 1)
      end
  end.

Definition default_intents : list (Z * Z) := [(0, 2); (SZ_1K, 5)].

Definition qcom_glink_announce_create (fuel : nat) (c : Z) : M Z :=
  x <-- get_chan c ;;;
  if negb (c_open_ack x) then mret 0
  else
    intentless <-- gets g_intentless ;;;
    (if intentless then mret tt
     else
       upd_chan c (fun x => x <| c_ready := true |>) ;;;
       serve_pending fuel c 0 ;;;
       let groups := default default_intents (env_intents env (c_name x)) in
       for_each groups (fun gr =>
         for_each (replicate (Z.to_nat gr.2) gr.1) (fun size =>
           qcom_glink_queue_rx_intent_alloc c size true false ;;; mret tt))) ;;;
    upd_chan c (fun x => x <| c_rx_task := (env_kthread env =? 0) |>) ;;; mret (env_kthread env).

Definition qcom_glink_destroy_ept (c : Z) : M unit :=
  x <-- get_chan c ;;;
  if negb (c_ept_cb x) then mret tt
  else
    set_chan c (x <| c_ept_cb := false |>) ;;;
    qcom_glink_send_close_req c.

(** ** Sending data *)

Definition qcom_glink_request_intent (c size : Z) : M Z :=
  upd_chan c (fun x => x <| c_intent_req_result := -1 |> <| c_intent_received := false |>) ;;;
  x <-- get_chan c ;;;
  ret <-- qcom_glink_tx (glink_msg GLINK_CMD_RX_INTENT_REQ (c_lcid x) size) [] true ;;;
  if truth ret then mret ret
  else
    let ready :=
      x <-- get_chan c ;;;
      abort <-- gets g_abort_tx ;;;
      mret (((0 <=? c_intent_req_result x) && c_intent_received x) || abort) in
    b <-- ready ;;;
    b <-- (if b then mret true else sleep ;;; ready) ;;;
    if b then x <-- get_chan c ;;; mret (if truth (c_intent_req_result x) then 0 else - ECANCELED)
    else
      upd_chan c (fun x => x <| c_intent_timeout_count := c_intent_timeout_count x + 1 |>) ;;;
      mret (- ETIMEDOUT).

(** The search for a remote intent: the first of the smallest free ones that
    are large enough; an exact fit ends it. *)
Fixpoint pick_intent (l : list (Z * Z)) (len : Z) (best : option (Z * Z)) : M (option (Z * Z)) :=
  match l with
  | [] => mret best
  | (_, i) :: l' =>
      y <-- get_intent i ;;;
      if (len <=? i_size y) && negb (i_in_use y) then
        let best := match best with
                    | None => Some (i, i_size y)
                    | Some (j, sz) => if i_size y <? sz then Some (i, i_size y) else Some (j, sz)
                    end in
        if match best with Some (_, sz) => sz =? len | None => false end then mret best
        else pick_intent l' len best
      else pick_intent l' len best
  end.

(** [inl ret]: the error to return. *)
Fixpoint acquire_intent (fuel : nat) (c len : Z) (wait : bool) : M (Z + Z) :=
  x <-- get_chan c ;;;
  o <-- pick_intent (idr_entries (c_riids x)) len None ;;;
  match o with
  | Some (i, _) => upd_intent i (fun y => y <| i_in_use := true |>) ;;; mret (inr i)
  | None =>
      if negb wait then mret (inl (- EBUSY))
      else
        ret <-- qcom_glink_request_intent c len ;;;
        if ret <? 0 then mret (inl ret)
        else
          match fuel with
          | O => (fun _ => NoFuel)
          | S k => acquire_intent k c len wait
          end
  end.

Definition data_hdr (cmd lcid iid chunk_size left_size : Z) : list Z :=
  glink_msg cmd lcid iid ++ le_bytes 4 chunk_size ++ le_bytes 4 left_size.

(** How much of the [n] bytes left goes into the next packet. *)
Definition chunk_len (n : Z) (wait : bool) : Z := if (SZ_8K <? n) && wait then SZ_8K else n.

(** The loop over the chunks of a message; [rest] is what is left of it. *)
Fixpoint send_chunks (fuel : nat) (c : Z) (intent : option Z) (iid : Z) (rest : list Z) (first wait : bool)
  : M Z :=
  match rest with
  | [] => mret 0
  | _ =>
      match fuel with
      | O => (fun _ => NoFuel)
      | S k =>
          let n := Z.of_nat (length rest) in
          let chunk_size := chunk_len n wait in
          let cmd := if first then GLINK_CMD_TX_DATA else GLINK_CMD_TX_DATA_CONT in
          x <-- get_chan c ;;;
          ret <-- qcom_glink_tx (data_hdr cmd (c_lcid x) iid chunk_size (n - chunk_size))
                    (take (Z.to_nat chunk_size) rest) wait ;;;
          if truth ret then
            match intent with
            | Some i => upd_intent i (fun y => y <| i_in_use := false |>)
            | None => mret tt
            end ;;; mret ret
          else send_chunks k c intent iid (drop (Z.to_nat chunk_size) rest) false wait
      end
  end.

Definition __qcom_glink_send (fuel : nat) (c : Z) (data : list Z) (wait : bool) : M Z :=
  intentless <-- gets g_intentless ;;;
  if intentless then send_chunks (length data) c None 0 data true wait
  else
    r <-- acquire_intent fuel c (Z.of_nat (length data)) wait ;;;
    match r with
    | inl ret => mret ret
    | inr i =>
        y <-- get_intent i ;;;
        send_chunks (length data) c (Some i) (i_id y) data true wait
    end.

Definition qcom_glink_send (fuel : nat) (c : Z) (data : list Z) : M Z := __qcom_glink_send fuel c data true.

Definition qcom_glink_trysend (c : Z) (data : list Z) : M Z := __qcom_glink_send 0 c data false.

(** ** Commands handled in the worker *)

(** A reusable local intent that is large enough answers at once; otherwise a
    new one is queued for the channel's thread. *)
Fixpoint find_reusable (l : list (Z * Z)) (size : Z) : M bool :=
  match l with
  | [] => mret false
  | (_, i) :: l' =>
      y <-- get_intent i ;;;
      if truth size && (size <=? i_size y) && i_reuse y then mret true else find_reusable l' size
  end.

Definition qcom_glink_handle_intent_req (cid size : Z) : M unit :=
  channel <-- qcom_glink_channel_ref_get true cid ;;;
  match channel with
  | None => mret tt
  | Some c =>
      x <-- get_chan c ;;;
      found <-- find_reusable (idr_entries (c_liids x)) size ;;;
      if found then
        qcom_glink_send_intent_req_ack c true ;;; qcom_glink_channel_ref_put channel
      else
        ret <-- qcom_glink_queue_rx_intent_alloc c size false true ;;;
        (if ret <? 0 then qcom_glink_send_intent_req_ack c false ;;; mret tt else mret tt) ;;;
        qcom_glink_channel_ref_put channel
  end.

Definition qcom_glink_rx_open (rcid : Z) (name : list Z) : M Z :=
  t <-- gets g_rcids ;;;
  o <-- find_name (idr_entries t) name ;;;
  r <-- match o with
        | Some c => mret (Ok (c, false))
        | None =>
            r <-- qcom_glink_alloc_channel name ;;;
            mret (match r with Ok c => Ok (c, true) | Err e => Err e end)
        end ;;;
  match r with
  | Err e => mret e
  | Ok (c, create_device) =>
      let free_channel ret := (if create_device : bool then kref_put c else mret tt) ;;; mret ret in
      let rcid_remove ret :=
        x <-- get_chan c ;;;
        modify (fun g => g <| g_rcids := idr_remove (g_rcids g) (c_rcid x) |>) ;;;
        upd_chan c (fun x => x <| c_rcid := 0 |>) ;;;
        free_channel ret in
      t <-- gets g_rcids ;;;
      match idr_pick (idr_map t) rcid (rcid + 1) with
      | Err e => free_channel e
      | Ok id =>
          modify (fun g => g <| g_rcids := idr_insert (g_rcids g) id c |>) ;;;
          upd_chan c (fun x => x <| c_rcid := id |>) ;;;
          upd_chan c (fun x => x <| c_open_req := true |>) ;;;
          qcom_glink_send_open_ack c ;;;
          if create_device then
            p <-- kmalloc ;;;
            match p with
            | None => rcid_remove (- ENOMEM)
            | Some _ =>
                (if env_cb_irq env name then upd_chan c (fun x => x <| c_cb_irq := true |>) else mret tt) ;;;
                let ret := env_register env name in
                if truth ret then rcid_remove ret
                else
                  emit (EvRegister name) ;;;
                  upd_chan c (fun x => x <| c_rpdev := true |>) ;;; mret 0
            end
          else mret 0
      end
  end.

Definition qcom_glink_rx_close (rcid : Z) : M unit :=
  t <-- gets g_rcids ;;;
  match idr_find t rcid with
  | None => mret tt
  | Some c =>
      x <-- get_chan c ;;;
      (if c_rpdev x then emit (EvUnregister (take 31 (c_name x))) else mret tt) ;;;
      upd_chan c (fun x => x <| c_rpdev := false |>) ;;;
      qcom_glink_send_close_ack c ;;;
      x <-- get_chan c ;;;
      modify (fun g => g <| g_rcids := idr_remove (g_rcids g) (c_rcid x) |>) ;;;
      upd_chan c (fun x => x <| c_rcid := 0 |>) ;;;
      kref_put c
  end.

Definition qcom_glink_rx_close_ack (lcid : Z) : M unit :=
  t <-- gets g_lcids ;;;
  match idr_find t lcid with
  | None => mret tt
  | Some c =>
      x <-- get_chan c ;;;
      modify (fun g => g <| g_lcids := idr_remove (g_lcids g) (c_lcid x) |>) ;;;
      upd_chan c (fun x => x <| c_lcid := 0 |> <| c_open_ack := false |> <| c_ready := false |>) ;;;
      kref_put c
  end.

(** A C string: the bytes before the terminator, if there is one. *)
Fixpoint c_string (bs : list Z) : option (list Z) :=
  match bs with
  | [] => None
  | b :: bs' => if b =? 0 then Some [] else s ← c_string bs'; Some (b :: s)
  end.

Definition work_dispatch (dcmd : list Z) : M unit :=
  let cmd := msg_cmd dcmd in
  let param1 := msg_param1 dcmd in
  let param2 := msg_param2 dcmd in
  if cmd =? GLINK_CMD_VERSION then qcom_glink_receive_version param1 param2
  else if cmd =? GLINK_CMD_VERSION_ACK then qcom_glink_receive_version_ack param1 param2
  else if cmd =? GLINK_CMD_OPEN then
    name <-- or_fault (c_string (drop 8 dcmd)) ;;;
    qcom_glink_rx_open param1 name ;;; mret tt
  else if cmd =? GLINK_CMD_CLOSE then qcom_glink_rx_close param1
  else if cmd =? GLINK_CMD_CLOSE_ACK then qcom_glink_rx_close_ack param1
  else if cmd =? GLINK_CMD_RX_INTENT_REQ then qcom_glink_handle_intent_req param1 param2
  else mret tt.

(** The worker empties the queue of deferred commands, which may grow while a
    handler sleeps. *)
Fixpoint qcom_glink_work (fuel : nat) : M unit :=
  q <-- gets g_rx_queue ;;;
  match q with
  | [] => mret tt
  | dcmd :: q' =>
      match fuel with
      | O => (fun _ => NoFuel)
      | S k =>
          modify (fun g => g <| g_rx_queue := q' |>) ;;;
          work_dispatch dcmd ;;;
          qcom_glink_work k
      end
  end.

(** ** The channel's thread *)

(** A message: hand it to the client, then give its intent back unless the
    client keeps it. *)
Definition rx_thread_message (c i : Z) : M unit :=
  intentless <-- gets g_intentless ;;;
  (if intentless then mret tt else defer_add_tail c i) ;;;
  y <-- get_intent i ;;;
  if i_cb_irq_done y then
    upd_intent i (fun y => y <| i_cb_irq_done := false |>) ;;;
    __qcom_glink_rx_done c i true ;;; mret tt
  else
    ret <-- deliver c i ;;;
    qcom_glink_is_wakeup true ;;;
    supported <-- qcom_glink_rx_done_supported ;;;
    if supported && (ret =? RPMSG_DEFER) then mret tt
    else __qcom_glink_rx_done c i true ;;; mret tt.

(** An intent without a buffer: allocate it, announce it, answer the request. *)
Definition rx_thread_alloc (c i : Z) : M unit :=
  ret <-- qcom_glink_alloc_intent_data c i ;;;
  if ret <? 0 then rx_queue_add c i
  else
    y <-- get_intent i ;;;
    if i_ack_pending y then
      qcom_glink_send_intent_req_ack c true ;;;
      upd_intent i (fun y => y <| i_ack_pending := false |>)
    else mret tt.

(** One turn of [qcom_glink_rx_thread]. *)
Definition qcom_glink_rx_thread (c : Z) : M unit :=
  x <-- get_chan c ;;;
  match c_rx_queue x with
  | [] => mret tt
  | i :: q =>
      set_chan c (x <| c_rx_queue := q |>) ;;;
      y <-- get_intent i ;;;
      match i_data y with
      | DNull => rx_thread_alloc c i
      | _ => rx_thread_message c i
      end
  end.

(** ** The edge itself *)

Definition qcom_glink_early_ssr_notify : M unit := modify (fun g => g <| g_abort_tx := true |>).

Definition qcom_glink_cancel_rx_work : M unit := modify (fun g => g <| g_rx_queue := [] |>).

(** The children of the device are unregistered by the driver core. *)
Definition qcom_glink_native_remove : M unit :=
  modify (fun g => g <| g_abort_tx := true |>) ;;;
  qcom_glink_cancel_rx_work ;;;
  t <-- gets g_lcids ;;; for_each (idr_entries t) (fun e => kref_put e.2) ;;;
  t <-- gets g_rcids ;;; for_each (idr_entries t) (fun e => kref_put e.2) ;;;
  modify (fun g => g <| g_lcids := idr_init |> <| g_rcids := idr_init |>).

(** [rpmsg_chrdev] *)
Definition chrdev_name : list Z := [114; 112; 109; 115; 103; 95; 99; 104; 114; 100; 101; 118].

Definition qcom_glink_create_chrdev (register : Z) : M Z :=
  p <-- kmalloc ;;;
  match p with
  | None => mret (- ENOMEM)
  | Some _ =>
      r <-- qcom_glink_alloc_channel chrdev_name ;;;
      match r with
      | Err e => mret e
      | Ok c => upd_chan c (fun x => x <| c_rpdev := true |>) ;;; mret register
      end
  end.

Definition qcom_glink_native_start (register : Z) : M Z :=
  ret <-- qcom_glink_send_version ;;;
  if truth ret then mret ret
  else qcom_glink_create_chrdev register ;;; mret 0.

Definition qcom_glink_suspend_no_irq : M Z := modify (fun g => g <| g_should_wake := true |>) ;;; mret 0.

Definition qcom_glink_resume_no_irq : M Z := modify (fun g => g <| g_should_wake := false |>) ;;; mret 0.

End Glink.

Definition qcom_glink_native_probe {T : Type} (features : Z) (t : T) (intentless : bool) : qcom_glink T :=
  mk_glink t features intentless false false idr_init idr_init [] ∅ ∅ 0 false false [].
