(* ===== verification/GlinkTx.v ===== *)
(** * GLINK: the transmit path

    Theorems on [qcom_glink_tx] of Glink.v for every transport that satisfies
    [TransportLaws]: the senders of an edge, each of which may sleep while the
    others and the remote side run, never fill the FIFO up to the point where
    full and empty look the same; a packet is written whole and once or not at
    all. Then the two negotiations that need nothing else: features and modem
    signals. *)
From stdpp Require Import prelude gmap list.
From S2P Require Import Prelude.
From S2P Require Import Effects.
From S2P Require Import Smem.
From S2P Require Import GlinkSmem.
From S2P Require Import GlinkTransport.
From S2P Require Import Glink.
#[local] Open Scope kernel_scope.

Section Tx.
Context {T : Type} {Tr : Transport T} {TL : TransportLaws T}.

(** Bytes of the transmit FIFO that are free. *)
Definition tx_free (t : T) : Z := tr_tx_length t - Z.of_nat (length (tx_bytes t)).

(** Eight bytes are always free, sixteen when no read notification is out: that
    is the room [FIFO_FULL_RESERVE] and [TX_BLOCKED_CMD_RESERVE] keep. *)
Definition tx_inv (g : qcom_glink T) : Prop :=
  tr_ok (g_tr g) /\ 8 <= tx_free (g_tr g) /\
  (g_sent_read_notify g = false -> 16 <= tx_free (g_tr g)).

Lemma tx_free_aligned t : tr_ok t -> tx_free t mod 8 = 0.
Proof.
  intros Ok. unfold tx_free. destruct (law_tx_length t Ok) as [_ L].
  by rewrite Zminus_mod, L, (law_tx_aligned t Ok).
Qed.

(** A write of [n] bytes where [n + k] are free leaves [k] free, for aligned [k]. *)
Lemma tx_write_free t hdr data k :
  tr_ok t -> k mod 8 = 0 -> 0 < k -> Z.of_nat (length (hdr ++ data)) + k <= tx_free t ->
  exists t' pad, tr_tx_write t hdr data = Some t' /\ tr_ok t' /\ k <= tx_free t' /\
    tx_bytes t' = tx_bytes t ++ (hdr ++ data) ++ pad /\ rx_bytes t' = rx_bytes t /\
    tr_tx_length t' = tr_tx_length t /\ (length pad < 8)%nat.
Proof.
  intros Ok K8 K0 Hf. pose proof (tx_free_aligned t Ok) as F8.
  set (n := Z.of_nat (length (hdr ++ data))) in *.
  pose proof (ALIGN_8_bounds n) as An. pose proof (ALIGN_8_mod n) as A8.
  assert (ALIGN n 8 + k <= tx_free t) as Hfit.
  { apply Z.mod_divide in K8 as [a Ha], F8 as [b Hb], A8 as [c Hc]; lia. }
  destruct (law_tx_write t hdr data Ok) as (t' & pad & E & Ok' & Eb & El & Er & Ec).
  { fold n. unfold tx_free in Hfit. lia. }
  exists t', pad. split; [done|]. split; [done|]. split; [|split; [done|split; [done|split; [done|]]]].
  - unfold tx_free in *. rewrite Ec, Eb, length_app, Nat2Z.inj_add, El. fold n. lia.
  - rewrite length_app in El. fold n in El. lia.
Qed.

(** What a successful send leaves behind. *)
Definition tx_sent (hdr data : list Z) (g g' : qcom_glink T) : Prop :=
  exists t' pad, g' = g <| g_tr := t' |> <| g_log := EvKick :: g_log g |> /\
    tx_bytes t' = tx_bytes (g_tr g) ++ (hdr ++ data) ++ pad /\ (length pad < 8)%nat /\
    rx_bytes t' = rx_bytes (g_tr g).

(** The outcomes of a send: an error leaves no packet behind; [Blocked] is a
    sender that still waits. *)
Definition tx_post (hdr data : list Z) (o : outcome (qcom_glink T) Z) : Prop :=
  match o with
  | Ret r w' =>
      tx_inv (w_st w') /\
      (r = 0 -> exists g, tx_inv g /\ tx_sent hdr data g (w_st w'))
  | Blocked => True
  | _ => False
  end.

Lemma write_and_kick hdr data w :
  tx_inv (w_st w) -> 0 < Z.of_nat (length (hdr ++ data)) ->
  Z.of_nat (length (hdr ++ data)) <= tr_tx_avail (g_tr (w_st w)) ->
  exists g', (qcom_glink_tx_write hdr data ;;; qcom_glink_tx_kick ;;; mret (Some 0)) w =
               Ret (Some 0) (mk_world g' (w_sched w)) /\
    tx_inv g' /\ tx_sent hdr data (w_st w) g'.
Proof.
  intros (Ok & _ & Hs) Hpos Hn. rewrite (law_tx_avail _ Ok) in Hn.
  destruct (tx_write_free (g_tr (w_st w)) hdr data 16 Ok) as (t' & pad & E & Ok' & Hf & Eb & Er & Ec & Hp);
    [done|lia|unfold tx_free; lia|].
  eexists. split; [|split].
  - unfold qcom_glink_tx_write, mbnd, gets. cbn. rewrite E. cbn. reflexivity.
  - split; [done|]. cbn. split; [lia|]. intros _. lia.
  - exists t', pad. done.
Qed.

Lemma read_notify_ok w :
  tx_inv (w_st w) -> g_sent_read_notify (w_st w) = false ->
  exists g', (modify (fun g => g <| g_sent_read_notify := true |>) ;;; qcom_glink_send_read_notify) w =
    Ret tt (mk_world g' (w_sched w)) /\ tx_inv g' /\ g_abort_tx g' = g_abort_tx (w_st w).
Proof.
  intros (Ok & _ & Hs) Hf. specialize (Hs Hf).
  destruct (tx_write_free (g_tr (w_st w)) (glink_msg GLINK_CMD_READ_NOTIF 0 0) [] 8 Ok)
    as (t' & pad & E & Ok' & Hfree & _); [done|lia|cbn; lia|].
  eexists. split; [|split].
  - unfold qcom_glink_send_read_notify, qcom_glink_tx_write, mbnd, gets, modify. cbn -[glink_msg].
    rewrite E. cbn -[glink_msg]. reflexivity.
  - split; [done|]. cbn. split; [done|]. done.
  - done.
Qed.

(** What the other threads and the remote side do while a sender sleeps. *)
Definition sched_keeps (P : qcom_glink T -> Prop) (sched : list (qcom_glink T -> qcom_glink T)) : Prop :=
  Forall (fun f => forall g, P g -> P (f g)) sched.

Lemma clear_notify_inv g n :
  tx_inv g -> 0 < n <= tr_tx_avail (g_tr g) -> tx_inv (g <| g_sent_read_notify := false |>).
Proof.
  intros (Ok & Hf & _) Hn. rewrite (law_tx_avail _ Ok) in Hn. unfold tx_inv. cbn.
  split; [done|]. split; [done|]. intros _. unfold tx_free. lia.
Qed.

Lemma notify_step g sched :
  tx_inv g ->
  exists g1, (if g_sent_read_notify g then mret tt
              else modify (fun g => g <| g_sent_read_notify := true |>) ;;; qcom_glink_send_read_notify)
               (mk_world g sched) = Ret tt (mk_world g1 sched) /\ tx_inv g1.
Proof.
  intros Hi. destruct (g_sent_read_notify g) eqn:E; [by exists g|].
  destruct (read_notify_ok (mk_world g sched) Hi E) as (g1 & E1 & Hi1 & _). by exists g1.
Qed.

(** One turn under the lock: it ends with a result or goes to sleep, and keeps
    the invariant either way. *)
Lemma tx_attempt_post hdr data tlen wait g sched :
  tlen = Z.of_nat (length (hdr ++ data)) -> 0 < tlen -> tx_inv g ->
  exists r g', tx_attempt hdr data tlen wait (mk_world g sched) = Ret r (mk_world g' sched) /\ tx_inv g' /\
    (r = Some 0 -> tx_sent hdr data g g').
Proof.
  intros -> Hpos Hi. unfold tx_attempt. unfold mbnd at 1. cbn [gets w_st].
  destruct (Z.ltb_spec (tr_tx_avail (g_tr g)) (Z.of_nat (length (hdr ++ data)))).
  - destruct wait; cbn [negb]; [|by eexists _, _].
    unfold mbnd at 1. cbn [gets w_st]. destruct (g_abort_tx g); [by eexists _, _|].
    unfold mbnd at 1. cbn [gets w_st]. destruct (notify_step g sched Hi) as (g1 & E & Hi1).
    unfold mbnd at 1. rewrite E. by eexists _, _.
  - destruct (write_and_kick hdr data (mk_world g sched)) as (g' & E & Hi' & Hsent); [done|done|done|].
    eexists _, _. split; [exact E|]. done.
Qed.

Lemma tx_wake_post tlen g sched :
  0 < tlen -> tx_inv g ->
  exists g', tx_wake tlen (mk_world g sched) = Ret tt (mk_world g' sched) /\ tx_inv g'.
Proof.
  intros Hpos Hi. unfold tx_wake. unfold mbnd at 1. cbn [gets w_st].
  destruct (Z.leb_spec tlen (tr_tx_avail (g_tr g))).
  - eexists. split; [done|]. by apply (clear_notify_inv _ tlen).
  - eexists. split; [done|]. done.
Qed.

Lemma tx_loop_post fuel hdr data tlen wait g sched :
  tlen = Z.of_nat (length (hdr ++ data)) -> 0 < tlen ->
  length sched = fuel -> sched_keeps tx_inv sched -> tx_inv g ->
  tx_post hdr data (tx_loop fuel hdr data tlen wait (mk_world g sched)).
Proof.
  intros Et Hpos. revert g sched. induction fuel as [|fuel IH]; intros g sched Hlen Hs Hi;
    cbn [tx_loop]; unfold mbnd at 1;
    destruct (tx_attempt_post hdr data tlen wait g sched Et Hpos Hi) as (r & g1 & -> & Hi1 & Hsent);
    (destruct r as [r|]; [split; [done|]; intros ->; eauto|]).
  - destruct sched; done.
  - destruct sched as [|f sched]; [done|]. apply Forall_cons in Hs as [Hf Hs].
    unfold mbnd at 1. cbn [sleep w_sched w_st]. unfold mbnd at 1.
    destruct (tx_wake_post tlen (f g1) sched Hpos (Hf _ Hi1)) as (g2 & -> & Hi2).
    apply IH; [by injection Hlen|done|done].
Qed.

Lemma tx_post_holds hdr data wait g sched :
  0 < Z.of_nat (length (hdr ++ data)) < 2 ^ 32 -> sched_keeps tx_inv sched -> tx_inv g ->
  tx_post hdr data (qcom_glink_tx hdr data wait (mk_world g sched)).
Proof.
  intros Hn Hs Hi. unfold qcom_glink_tx. cbn [w_st w_sched].
  rewrite length_app, Nat2Z.inj_add in Hn. rewrite u32_small by lia. cbv zeta.
  assert (forall r, r <> 0 -> tx_post hdr data (Ret r (mk_world g sched))) as Herr.
  { intros r Hr. by split. }
  case_goal; [by apply Herr|]. case_goal; [by apply Herr|].
  apply tx_loop_post; [rewrite length_app; lia|lia|done|done|done].
Qed.

(** ** Interleaved senders

    A sender holds the lock of the edge from its start or its wake-up until it
    ends or sleeps; between two such turns anything else may happen. *)

Inductive sender :=
| Idle
| Asleep (hdr data : list Z).

Record senders := mk_senders {
  s_g : qcom_glink T;
  s_threads : list sender;
}.

Definition after (hdr data : list Z) (r : option Z) : sender :=
  match r with
  | Some _ => Idle
  | None => Asleep hdr data
  end.

(** The remote side takes some whole words out of the FIFO, or adds to the
    other one. *)
Definition remote_turn (t t' : T) : Prop :=
  tr_ok t' /\ tr_tx_length t' = tr_tx_length t /\ exists n, tx_bytes t' = drop n (tx_bytes t).

Definition packet_len (hdr data : list Z) : Z := Z.of_nat (length (hdr ++ data)).

Inductive senders_step : senders -> senders -> Prop :=
| step_send g ths i hdr data wait r g' :
    ths !! i = Some Idle -> 0 < packet_len hdr data < tr_tx_length (g_tr g) -> g_abort_tx g = false ->
    tx_attempt hdr data (packet_len hdr data) wait (mk_world g []) = Ret r (mk_world g' []) ->
    senders_step (mk_senders g ths) (mk_senders g' (<[i := after hdr data r]> ths))
| step_wake g ths i hdr data r g' :
    ths !! i = Some (Asleep hdr data) ->
    (tx_wake (packet_len hdr data) ;;; tx_attempt hdr data (packet_len hdr data) true) (mk_world g []) =
      Ret r (mk_world g' []) ->
    senders_step (mk_senders g ths) (mk_senders g' (<[i := after hdr data r]> ths))
| step_remote g ths t' :
    remote_turn (g_tr g) t' -> senders_step (mk_senders g ths) (mk_senders (g <| g_tr := t' |>) ths)
| step_abort g ths : senders_step (mk_senders g ths) (mk_senders (g <| g_abort_tx := true |>) ths).

(** Sleeping senders have something to send. *)
Definition senders_inv (s : senders) : Prop :=
  tx_inv (s_g s) /\
  Forall (fun th => match th with Asleep hdr data => 0 < packet_len hdr data | Idle => True end) (s_threads s).

Lemma remote_turn_inv g t' : tx_inv g -> remote_turn (g_tr g) t' -> tx_inv (g <| g_tr := t' |>).
Proof.
  intros (Ok & Hf & Hs) (Ok' & El & n & Eb). unfold tx_inv, tx_free in *. cbn.
  rewrite El, Eb, length_drop. split; [done|]. split; [lia|]. intros E. specialize (Hs E). lia.
Qed.

Lemma wake_attempt_post hdr data g :
  0 < packet_len hdr data -> tx_inv g ->
  exists r g', (tx_wake (packet_len hdr data) ;;; tx_attempt hdr data (packet_len hdr data) true) (mk_world g []) =
    Ret r (mk_world g' []) /\ tx_inv g'.
Proof.
  intros Hpos Hi. destruct (tx_wake_post (packet_len hdr data) g [] Hpos Hi) as (g1 & E & Hi1).
  unfold mbnd at 1. rewrite E.
  destruct (tx_attempt_post hdr data (packet_len hdr data) true g1 [] eq_refl Hpos Hi1) as (r & g2 & E2 & Hi2 & _).
  eauto.
Qed.

Lemma senders_step_inv s s' : senders_inv s -> senders_step s s' -> senders_inv s'.
Proof.
  intros [Hi Hth] Hst. destruct Hst as [g ths i hdr data wait r g' Hl Hp Ha E|g ths i hdr data r g' Hl E|g ths t' Hr|g ths];
    cbn [s_g s_threads] in *.
  - destruct (tx_attempt_post hdr data (packet_len hdr data) wait g [] eq_refl (proj1 Hp) Hi) as (r' & g2 & E2 & Hi2 & _).
    rewrite E in E2. simplify_eq. split; [done|]. apply Forall_insert; [done|]. by destruct r'; [|apply Hp].
  - pose proof (proj1 (Forall_lookup _ _) Hth i _ Hl) as Hp. cbn in Hp.
    destruct (wake_attempt_post hdr data g Hp Hi) as (r' & g2 & E2 & Hi2).
    rewrite E in E2. simplify_eq. split; [done|]. apply Forall_insert; [done|]. by destruct r'.
  - split; [|done]. by apply remote_turn_inv.
  - split; [|done]. exact Hi.
Qed.

Lemma senders_reachable_inv s s' : senders_inv s -> rtc senders_step s s' -> senders_inv s'.
Proof. intros Hi Hr. induction Hr; eauto using senders_step_inv. Qed.

(** C29. The senders of an edge never fill the transmit FIFO: in every state that
    starts, wake-ups, sleeps and ends of any number of senders, reads by the
    remote side and an abort can reach, at least eight bytes are free, so that
    a full FIFO is never mistaken for an empty one, and sixteen while no read
    notification is out; and the next turn of any sleeping sender, or of a new
    one, stays inside the FIFO. *)
Theorem senders_never_fill (s s' : senders) :
  senders_inv s -> rtc senders_step s s' ->
  8 <= tx_free (g_tr (s_g s')) /\
  (g_sent_read_notify (s_g s') = false -> 16 <= tx_free (g_tr (s_g s'))) /\
  (forall i hdr data, s_threads s' !! i = Some (Asleep hdr data) ->
     exists r g', (tx_wake (packet_len hdr data) ;;; tx_attempt hdr data (packet_len hdr data) true)
       (mk_world (s_g s') []) = Ret r (mk_world g' [])) /\
  (forall hdr data wait, 0 < packet_len hdr data ->
     exists r g', tx_attempt hdr data (packet_len hdr data) wait (mk_world (s_g s') []) = Ret r (mk_world g' [])).
Proof.
  intros Hi Hr. destruct (senders_reachable_inv s s' Hi Hr) as [Hi' Hth].
  split; [apply Hi'|]. split; [apply Hi'|]. split.
  - intros i hdr data Hl. pose proof (proj1 (Forall_lookup _ _) Hth i _ Hl) as Hp.
    destruct (wake_attempt_post hdr data (s_g s') Hp Hi') as (r & g' & E & _). eauto.
  - intros hdr data wait Hp.
    destruct (tx_attempt_post hdr data (packet_len hdr data) wait (s_g s') [] eq_refl Hp Hi') as (r & g' & E & _).
    eauto.
Qed.

(** Without [wait] there is one turn, with a result. *)
Lemma tx_attempt_nowait hdr data tlen (g : qcom_glink T) sched r w' :
  tx_attempt hdr data tlen false (mk_world g sched) = Ret r w' ->
  r = Some 0 \/ (r = Some (- EAGAIN) /\ w' = mk_world g sched).
Proof.
  unfold tx_attempt. unfold mbnd at 1. cbn [gets w_st]. case_goal.
  - intros E. injection E as <- <-. by right.
  - intros E. apply mbnd_ret in E as (? & ? & _ & E). apply mbnd_ret in E as (? & ? & _ & E).
    injection E as <- <-. by left.
Qed.

Lemma tx_nowait hdr data (g : qcom_glink T) sched :
  0 < Z.of_nat (length (hdr ++ data)) < 2 ^ 32 -> tx_inv g ->
  exists r w', qcom_glink_tx hdr data false (mk_world g sched) = Ret r w' /\
    (r = 0 /\ tx_sent hdr data g (w_st w') /\ w_sched w' = sched \/ r <> 0 /\ w' = mk_world g sched).
Proof.
  intros Hn Hi. unfold qcom_glink_tx. cbn [w_st w_sched].
  case_goal; [eexists _, _; split; [done|by right]|]. case_goal; [eexists _, _; split; [done|by right]|].
  rewrite length_app, Nat2Z.inj_add in Hn. rewrite u32_small by lia.
  destruct (tx_attempt_post hdr data (Z.of_nat (length hdr) + Z.of_nat (length data)) false g sched)
    as (r & g1 & E & _ & Hsent); [rewrite length_app; lia|lia|done|].
  destruct (tx_attempt_nowait _ _ _ _ _ _ _ E) as [->|[-> E1]];
    (destruct (length sched); cbn [tx_loop]; unfold mbnd at 1; rewrite E; eexists _, _;
     (split; [done|])); first [left; by auto|right; by rewrite E1].
Qed.

(** A send is all or nothing: when [qcom_glink_tx] returns 0 the packet, with
    less than eight bytes of padding, was appended whole and once to what the
    FIFO held, and the doorbell rung. Without [wait] it never sleeps and an
    error leaves the edge exactly as it was. With [wait] it never writes outside
    the FIFO, provided the other threads keep the invariant while it sleeps. *)
Theorem tx_all_or_nothing (hdr data : list Z) (g : qcom_glink T)
    (sched : list (qcom_glink T -> qcom_glink T)) :
  0 < Z.of_nat (length (hdr ++ data)) < 2 ^ 32 -> tx_inv g ->
  (exists r w', qcom_glink_tx hdr data false (mk_world g sched) = Ret r w' /\
     (r = 0 /\ tx_sent hdr data g (w_st w') \/ r <> 0 /\ w' = mk_world g sched)) /\
  (sched_keeps tx_inv sched -> tx_post hdr data (qcom_glink_tx hdr data true (mk_world g sched))).
Proof.
  intros Hn Hi. split; [|intros; by apply tx_post_holds].
  destruct (tx_nowait hdr data g sched Hn Hi) as (r & w' & E & Hr). exists r, w'.
  split; [done|]. destruct Hr as [(? & ? & _)|?]; [by left|by right].
Qed.

End Tx.
