(* ===== verification/GlinkRx.v ===== *)
(** * GLINK: the receive path

    [qcom_glink_native_rx] runs in the interrupt handler. The theorems: it never
    sleeps, and it ends, whatever the state of the channels and whatever the
    remote side put into the FIFO, except on an INTENT message that is not
    complete yet, on which it spins. *)
From stdpp Require Import prelude gmap list.
From S2P Require Import Prelude.
From S2P Require Import Effects.
From S2P Require Import GlinkTransport.
From S2P Require Import Glink.
From S2P Require Import GlinkTx.
#[local] Open Scope kernel_scope.

Create HintDb glink.

Section Rx.
Context {T : Type} {Tr : Transport T} {TL : TransportLaws T} {IO : IdrOps} (env : glink_env).

Abbreviation rx w := (rx_bytes (g_tr (w_st w))).
Abbreviation okw w := (tr_ok (g_tr (w_st w))).

(** Outcomes without sleep and with enough fuel; a memory error ends the run. *)
Definition post {A : Type} (o : outcome (qcom_glink T) A) (Q : A -> world (qcom_glink T) -> Prop) : Prop :=
  match o with
  | Ret a w => Q a w
  | Fault => True
  | Blocked => False
  | NoFuel => False
  end.

(** A computation that neither sleeps nor takes anything from the FIFO. *)
Definition quiet {A : Type} (c : M (qcom_glink T) A) : Prop := forall w, okw w ->
  post (c w) (fun _ w' => okw w' /\ rx w' = rx w /\ w_sched w' = w_sched w).

Lemma rx_post_mono {A : Type} (o : outcome (qcom_glink T) A) (Q Q' : A -> world (qcom_glink T) -> Prop) :
  post o Q -> (forall a w, Q a w -> Q' a w) -> post o Q'.
Proof. destruct o; cbn; auto. Qed.

Lemma rx_post_bind {A B : Type} (c : M (qcom_glink T) A) (k : A -> M (qcom_glink T) B) w Q :
  post (c w) (fun a w' => post (k a w') Q) -> post (mbnd c k w) Q.
Proof. unfold mbnd. by destruct (c w). Qed.

Lemma quiet_ret {A : Type} (a : A) : quiet (mret a).
Proof. intros w Ok. done. Qed.

Lemma quiet_fault {A : Type} : quiet (@fault (qcom_glink T) A).
Proof. intros w Ok. done. Qed.

Lemma quiet_gets {A : Type} (f : qcom_glink T -> A) : quiet (gets f).
Proof. intros w Ok. done. Qed.

Lemma quiet_modify (f : qcom_glink T -> qcom_glink T) : (forall g, g_tr (f g) = g_tr g) -> quiet (modify f).
Proof. intros Hf w Ok. cbn. rewrite !Hf. done. Qed.

Lemma quiet_bind {A B : Type} (c : M (qcom_glink T) A) (k : A -> M (qcom_glink T) B) :
  quiet c -> (forall a, quiet (k a)) -> quiet (mbnd c k).
Proof.
  intros Hc Hk w Ok. apply rx_post_bind. eapply rx_post_mono; [by apply Hc|].
  intros a w1 (Ok1 & E1 & S1). eapply rx_post_mono; [by apply Hk|].
  intros b w2 (Ok2 & E2 & S2). rewrite E2, S2. done.
Qed.

Lemma quiet_or_fault {A : Type} (o : option A) : quiet (or_fault (S := qcom_glink T) o).
Proof. destruct o; [apply quiet_ret|apply quiet_fault]. Qed.

Lemma quiet_for_each {A : Type} (l : list A) (f : A -> M (qcom_glink T) unit) :
  (forall a, quiet (f a)) -> quiet (for_each l f).
Proof. intros Hf. induction l; cbn; auto using quiet_ret, quiet_bind. Qed.

End Rx.

#[export] Hint Resolve quiet_ret quiet_fault quiet_gets quiet_or_fault : glink.

(** Walks over a computation: sequencing, case distinctions, known parts. *)
Ltac quiet_step :=
  match goal with
  | |- forall _, _ => intros ?
  | |- quiet _ => solve [eauto with glink]
  | |- quiet (mbnd _ _) => apply quiet_bind
  | |- quiet (for_each _ _) => apply quiet_for_each
  | |- quiet (modify _) => apply quiet_modify; intros; reflexivity
  | |- quiet (emit _) => apply quiet_modify; intros; reflexivity
  | |- quiet (let _ := _ in _) => cbv zeta
  | |- quiet (if ?b then _ else _) => destruct b
  | |- quiet (match ?x with _ => _ end) => destruct x
  end.

Ltac quiet_tac := repeat quiet_step.

Section Quiet.
Context {T : Type} {Tr : Transport T} {TL : TransportLaws T} {IO : IdrOps} (env : glink_env).

Abbreviation rx w := (rx_bytes (g_tr (w_st w))).
Abbreviation okw w := (tr_ok (g_tr (w_st w))).

Lemma quiet_get_chan c : quiet (T := T) (get_chan c).
Proof. unfold get_chan. quiet_tac. Qed.

Lemma quiet_set_chan c x : quiet (T := T) (set_chan c x).
Proof. unfold set_chan. quiet_tac. Qed.

Lemma quiet_get_intent i : quiet (T := T) (get_intent i).
Proof. unfold get_intent. quiet_tac. Qed.

Lemma quiet_set_intent i x : quiet (T := T) (set_intent i x).
Proof. unfold set_intent. quiet_tac. Qed.

#[local] Hint Resolve quiet_get_chan quiet_set_chan quiet_get_intent quiet_set_intent : glink.

Lemma quiet_upd_chan c f : quiet (T := T) (upd_chan c f).
Proof. unfold upd_chan. quiet_tac. Qed.

Lemma quiet_upd_intent i f : quiet (T := T) (upd_intent i f).
Proof. unfold upd_intent. quiet_tac. Qed.

Lemma quiet_kmalloc : quiet (T := T) (kmalloc env).
Proof. unfold kmalloc. quiet_tac. Qed.

#[local] Hint Resolve quiet_upd_chan quiet_upd_intent quiet_kmalloc : glink.

Lemma quiet_kmalloc_buf size fill : quiet (T := T) (kmalloc_buf env size fill).
Proof. unfold kmalloc_buf. quiet_tac. Qed.

Lemma quiet_kfree_data i : quiet (T := T) (kfree_data i).
Proof. unfold kfree_data. quiet_tac. Qed.

Lemma quiet_kfree_intent i : quiet (T := T) (kfree_intent i).
Proof. unfold kfree_intent. quiet_tac. Qed.

Lemma quiet_rx_queue_add_tail c i : quiet (T := T) (rx_queue_add_tail c i).
Proof. unfold rx_queue_add_tail. quiet_tac. Qed.

Lemma quiet_defer_add_tail c i : quiet (T := T) (defer_add_tail c i).
Proof. unfold defer_add_tail. quiet_tac. Qed.

Lemma quiet_defer_del c i : quiet (T := T) (defer_del c i).
Proof. unfold defer_del. quiet_tac. Qed.

#[local] Hint Resolve quiet_kmalloc_buf quiet_kfree_data quiet_kfree_intent quiet_rx_queue_add_tail
  quiet_defer_add_tail quiet_defer_del : glink.

Lemma quiet_release_intent i : quiet (T := T) (release_intent i).
Proof. unfold release_intent. quiet_tac. Qed.

#[local] Hint Resolve quiet_release_intent : glink.

Lemma quiet_channel_release c : quiet (T := T) (qcom_glink_channel_release c).
Proof. unfold qcom_glink_channel_release. quiet_tac. Qed.

#[local] Hint Resolve quiet_channel_release : glink.

Lemma quiet_kref_get c : quiet (T := T) (kref_get c).
Proof. unfold kref_get. quiet_tac. Qed.

Lemma quiet_kref_put c : quiet (T := T) (kref_put c).
Proof. unfold kref_put. quiet_tac. Qed.

#[local] Hint Resolve quiet_kref_get quiet_kref_put : glink.

Lemma quiet_ref_get remote cid : quiet (T := T) (qcom_glink_channel_ref_get remote cid).
Proof. unfold qcom_glink_channel_ref_get. quiet_tac. Qed.

Lemma quiet_ref_put ch : quiet (T := T) (qcom_glink_channel_ref_put ch).
Proof. unfold qcom_glink_channel_ref_put. quiet_tac. Qed.

#[local] Hint Resolve quiet_ref_get quiet_ref_put : glink.

(** A send that does not wait. *)
Lemma quiet_tx hdr data :
  0 < Z.of_nat (length (hdr ++ data)) < 2 ^ 32 -> quiet (T := T) (qcom_glink_tx hdr data false).
Proof.
  intros Hn [g sched] Ok. cbn [w_st w_sched] in *. rewrite length_app, Nat2Z.inj_add in Hn.
  unfold qcom_glink_tx. cbn [w_st w_sched]. rewrite u32_small by lia. cbv zeta.
  case_goal; [done|]. case_goal; [done|].
  assert (post (tx_attempt hdr data (Z.of_nat (length hdr) + Z.of_nat (length data)) false (mk_world g sched))
    (fun r w' => r <> None /\ okw w' /\ rx w' = rx_bytes (g_tr g) /\ w_sched w' = sched)) as Ha.
  { unfold tx_attempt. unfold mbnd at 1. cbn [gets w_st]. rewrite (law_tx_avail _ Ok).
    case_goal; zbool; [done|].
    destruct (law_tx_write (g_tr g) hdr data Ok) as (t' & pad & E & Ok' & _ & _ & Er & _).
    { pose proof (ALIGN_8_bounds (Z.of_nat (length (hdr ++ data)))). rewrite length_app, Nat2Z.inj_add in *. lia. }
    unfold qcom_glink_tx_write, mbnd, gets. cbn. rewrite E. cbn. done. }
  destruct (length sched); cbn [tx_loop]; apply rx_post_bind; (eapply rx_post_mono; [exact Ha|]);
    intros [r|] w' (Hr & Ok' & E & Es); done.
Qed.

Lemma length_glink_msg cmd p1 p2 : length (glink_msg cmd p1 p2) = 8%nat.
Proof. unfold glink_msg. by rewrite !length_app, !length_le_bytes. Qed.

Lemma quiet_tx_msg cmd p1 p2 : quiet (T := T) (qcom_glink_tx (glink_msg cmd p1 p2) [] false).
Proof. apply quiet_tx. rewrite app_nil_r, length_glink_msg. lia. Qed.

#[local] Hint Resolve quiet_tx_msg : glink.

Lemma quiet_send_rx_done c i : quiet (T := T) (qcom_glink_send_rx_done c i false).
Proof. unfold qcom_glink_send_rx_done. quiet_tac. Qed.

#[local] Hint Resolve quiet_send_rx_done : glink.

Lemma quiet_rx_done c i : quiet (T := T) (__qcom_glink_rx_done c i false).
Proof. unfold __qcom_glink_rx_done. quiet_tac. Qed.

Lemma quiet_rx_done_supported : quiet (T := T) qcom_glink_rx_done_supported.
Proof. unfold qcom_glink_rx_done_supported. quiet_tac. Qed.

Lemma quiet_deliver c i : quiet (T := T) (deliver env c i).
Proof. unfold deliver. quiet_tac. Qed.

Lemma quiet_is_wakeup b : quiet (T := T) (qcom_glink_is_wakeup b).
Proof. unfold qcom_glink_is_wakeup. quiet_tac. Qed.

#[local] Hint Resolve quiet_rx_done quiet_rx_done_supported quiet_deliver quiet_is_wakeup : glink.

Lemma quiet_rx_data_handler c i iters : quiet (T := T) (qcom_glink_rx_data_handler env c i iters).
Proof. unfold qcom_glink_rx_data_handler, rx_data_queue. quiet_tac. Qed.

Lemma quiet_rx_data_intent c liid chunk left : quiet (T := T) (rx_data_intent env c liid chunk left).
Proof. unfold rx_data_intent. quiet_tac. Qed.

Lemma quiet_store_intents c pairs : quiet (T := T) (store_intents env c pairs).
Proof. induction pairs as [|[size iid] pairs IH]; cbn [store_intents]; quiet_tac. Qed.

#[local] Hint Resolve quiet_rx_data_handler quiet_rx_data_intent quiet_store_intents : glink.

Lemma quiet_peek data off n : quiet (T := T) (qcom_glink_rx_peek data off n).
Proof. unfold qcom_glink_rx_peek. quiet_tac. Qed.

Lemma quiet_avail : quiet (T := T) qcom_glink_rx_avail.
Proof.
  intros w Ok. unfold qcom_glink_rx_avail, mbnd, gets. cbn. rewrite (law_rx_avail _ Ok). cbn. done.
Qed.

#[local] Hint Resolve quiet_peek quiet_avail : glink.

Lemma quiet_rx_data_copy c i chunk left iters : quiet (T := T) (rx_data_copy env c i chunk left iters).
Proof. unfold rx_data_copy. quiet_tac. Qed.

#[local] Hint Resolve quiet_rx_data_copy : glink.

(** ** Commands that step over what they read *)

(** [c] takes a multiple of eight bytes from the FIFO, and at least eight unless
    it reports an error. *)
Definition consumed (r : Z) (w w' : world (qcom_glink T)) : Prop :=
  okw w' /\ w_sched w' = w_sched w /\
  exists n, rx w' = drop n (rx w) /\ (n <= length (rx w))%nat /\ Z.of_nat n mod 8 = 0 /\ (r = 0 -> (8 <= n)%nat).

Definition consumes {A : Type} (f : A -> Z) (c : M (qcom_glink T) A) (w : world (qcom_glink T)) : Prop :=
  post (c w) (fun a w' => consumed (f a) w w').

Lemma quiet_post {A : Type} (c : M (qcom_glink T) A) (w : world (qcom_glink T)) (Q : A -> world (qcom_glink T) -> Prop) :
  quiet c -> okw w ->
  (forall a w', okw w' -> rx w' = rx w -> w_sched w' = w_sched w -> Q a w') -> post (c w) Q.
Proof. intros Hc Ok HQ. eapply rx_post_mono; [by apply Hc|]. intros a w' (? & ? & ?). by apply HQ. Qed.

Lemma advance_post n w (Q : unit -> world (qcom_glink T) -> Prop) :
  okw w -> 0 <= n <= Z.of_nat (length (rx w)) -> n mod 8 = 0 ->
  (forall w', okw w' -> rx w' = drop (Z.to_nat n) (rx w) -> w_sched w' = w_sched w ->
     g_allocs (w_st w') = g_allocs (w_st w) -> Q tt w') ->
  post (qcom_glink_rx_advance n w) Q.
Proof.
  intros Ok Hn H8 HQ. destruct (law_rx_advance (g_tr (w_st w)) n Ok Hn H8) as (t' & E & Ok' & Eb & _).
  unfold qcom_glink_rx_advance, mbnd, gets. cbn. rewrite E. cbn. by apply HQ.
Qed.

(** Step over [n] bytes, then something quiet. *)
Lemma advance_consumes {A : Type} f n (k : M (qcom_glink T) A) w :
  quiet k -> okw w -> 8 <= n <= Z.of_nat (length (rx w)) -> n mod 8 = 0 ->
  consumes f (qcom_glink_rx_advance n ;;; k) w.
Proof.
  intros Hk Ok Hn H8. apply rx_post_bind, advance_post; [done|lia|done|].
  intros w1 Ok1 E1 S1 _. apply quiet_post; [done|done|]. intros r w2 Ok2 E2 S2.
  split; [done|]. split; [congruence|]. exists (Z.to_nat n). rewrite E2. split; [done|].
  rewrite Z2Nat.id by lia. split; [lia|]. split; [done|]. lia.
Qed.

(** Something quiet before. *)
Lemma quiet_consumes {A B : Type} f (c : M (qcom_glink T) A) (k : A -> M (qcom_glink T) B) w :
  quiet c -> okw w ->
  (forall a w', okw w' -> rx w' = rx w -> consumes f (k a) w') -> consumes f (mbnd c k) w.
Proof.
  intros Hc Ok Hk. apply rx_post_bind, quiet_post; [done|done|]. intros a w1 Ok1 E1 S1.
  eapply rx_post_mono; [by apply (Hk a w1)|]. intros r w2 (Ok2 & S2 & n & E2 & Hn).
  split; [done|]. split; [congruence|]. exists n. rewrite <- E1. done.
Qed.

(** The same with what is known of the value. *)
Lemma quiet_consumes_val {A B : Type} (P : A -> Prop) f (c : M (qcom_glink T) A) (k : A -> M (qcom_glink T) B) w :
  quiet c -> post (c w) (fun a _ => P a) -> okw w ->
  (forall a w', P a -> okw w' -> rx w' = rx w -> consumes f (k a) w') -> consumes f (mbnd c k) w.
Proof.
  intros Hc HP Ok Hk. pose proof (Hc w Ok) as Hq. unfold consumes, mbnd.
  destruct (c w) as [a w1| | |]; [|done|done|done]. destruct Hq as (Ok1 & E1 & S1).
  eapply rx_post_mono; [by apply (Hk a w1)|]. intros r w2 (Ok2 & S2 & n & E2 & Hn).
  split; [done|]. split; [congruence|]. exists n. rewrite <- E1. done.
Qed.

Lemma error_consumes {A : Type} f (a : A) w : f a <> 0 -> okw w -> consumes f (mret a) w.
Proof.
  intros Hr Ok. cbn. split; [done|]. split; [done|]. exists 0%nat.
  split; [done|]. split; [lia|]. split; [done|]. done.
Qed.

(** The value of a computation seen through another one. *)
Lemma consumes_map {A B : Type} f f' (c : M (qcom_glink T) A) (h : A -> B) w :
  (forall a, f' (h a) = f a) -> consumes f c w -> consumes f' (r <-- c ;;; mret (h r)) w.
Proof.
  intros Hf Hc. apply rx_post_bind. eapply rx_post_mono; [exact Hc|]. intros a w' H. cbn. by rewrite Hf.
Qed.

Abbreviation fine w := (okw w /\ 8 <= Z.of_nat (length (rx w))).

Lemma rx_open_ack_consumes lcid w : fine w -> consumes id (qcom_glink_rx_open_ack lcid) w.
Proof. intros [Ok Hl]. unfold qcom_glink_rx_open_ack. apply advance_consumes; [quiet_tac|done|done|done]. Qed.

Lemma handle_signals_consumes rcid signals w :
  fine w -> consumes (fun _ => 0) (qcom_glink_handle_signals rcid signals) w.
Proof. intros [Ok Hl]. unfold qcom_glink_handle_signals. apply advance_consumes; [quiet_tac|done|done|done]. Qed.

Lemma handle_rx_done_consumes cid iid reuse w :
  fine w -> consumes (fun _ => 0) (qcom_glink_handle_rx_done cid iid reuse) w.
Proof. intros [Ok Hl]. unfold qcom_glink_handle_rx_done. apply advance_consumes; [quiet_tac|done|done|done]. Qed.

Lemma handle_intent_req_ack_consumes cid granted w :
  fine w -> consumes (fun _ => 0) (qcom_glink_handle_intent_req_ack cid granted) w.
Proof.
  intros [Ok Hl]. unfold qcom_glink_handle_intent_req_ack. apply advance_consumes; [quiet_tac|done|done|done].
Qed.

Lemma rx_read_notif_consumes w : fine w -> consumes (fun _ => 0) qcom_glink_rx_read_notif w.
Proof. intros [Ok Hl]. unfold qcom_glink_rx_read_notif. apply advance_consumes; [quiet_tac|done|done|done]. Qed.

(** The number of unread bytes, as the loop sees it. *)
Lemma avail_post w (Q : Z -> world (qcom_glink T) -> Prop) :
  okw w -> Q (Z.of_nat (length (rx w))) w -> post (qcom_glink_rx_avail w) Q.
Proof.
  intros Ok HQ. unfold qcom_glink_rx_avail, mbnd, gets. cbn. rewrite (law_rx_avail _ Ok). cbn.
  destruct w as [[] sched]. exact HQ.
Qed.

Lemma rx_defer_consumes extra w : fine w -> 0 <= extra -> consumes id (qcom_glink_rx_defer env extra) w.
Proof.
  intros [Ok Hl] He. unfold qcom_glink_rx_defer. cbv zeta.
  assert (u64 (ALIGN extra 8) mod 8 = 0 /\ 0 <= u64 (ALIGN extra 8)) as [H8 H0].
  { unfold u64. split; [|apply Z.mod_pos_bound; lia].
    rewrite Z.mod_mod_divide; [apply ALIGN_8_mod|]. by exists (2 ^ 61). }
  apply rx_post_bind, avail_post; [done|]. unfold sizeof_glink_msg.
  case_goal; zbool; [by apply error_consumes|].
  apply quiet_consumes; [quiet_tac|done|]. intros [p|] w1 Ok1 E1; [|by apply error_consumes].
  apply quiet_consumes; [quiet_tac|done|]. intros bs w2 Ok2 E2.
  apply quiet_consumes; [quiet_tac|done|]. intros _ w3 Ok3 E3.
  apply advance_consumes; [quiet_tac|done|rewrite E3, E2, E1; lia|].
  rewrite Zplus_mod, H8. done.
Qed.

(** A padded length is inside the FIFO when the length is. *)
Lemma aligned_inside n w :
  okw w -> n <= Z.of_nat (length (rx w)) -> ALIGN n 8 <= Z.of_nat (length (rx w)).
Proof.
  intros Ok Hn. pose proof (law_rx_aligned _ Ok) as A8. pose proof (ALIGN_8_mod n) as B8.
  pose proof (ALIGN_8_bounds n).
  apply Z.mod_divide in A8 as [a Ha], B8 as [b Hb]; lia.
Qed.

Definition bytes_in_range (bs : list Z) : Prop := Forall (fun b => 0 <= b < 256) bs.

Lemma bytes_word bs off : bytes_in_range bs -> 0 <= msg_word bs off < 2 ^ 32.
Proof.
  intros H. unfold msg_word.
  pose proof (le_val_bound (take 4 (drop off bs)) (Forall_take _ _ _ (Forall_drop _ _ _ H))) as Hb.
  assert (256 ^ Z.of_nat (length (take 4 (drop off bs))) <= 256 ^ 4).
  { apply Z.pow_le_mono_r; [lia|]. rewrite length_take. lia. }
  change (2 ^ 32) with (256 ^ 4). lia.
Qed.

Lemma peek_post data off n w (Q : list Z -> world (qcom_glink T) -> Prop) :
  okw w -> 0 <= off -> 0 <= n -> off + n <= Z.of_nat (length (rx w)) ->
  Q (take (Z.to_nat n) (drop (Z.to_nat off) (rx w))) w -> post (qcom_glink_rx_peek data off n w) Q.
Proof.
  intros Ok ??? HQ. unfold qcom_glink_rx_peek, mbnd, gets. cbn. by rewrite law_rx_peek.
Qed.

Lemma rx_data_consumes avail iters w :
  fine w -> bytes_in_range (rx w) -> avail = Z.of_nat (length (rx w)) ->
  consumes id (qcom_glink_rx_data env avail iters) w.
Proof.
  intros [Ok Hl] Hb ->. unfold qcom_glink_rx_data. case_goal; zbool; [by apply error_consumes|].
  apply rx_post_bind, peek_post; [done|lia|lia|lia|]. cbn [Z.to_nat drop].
  set (hdr := take _ _). assert (bytes_in_range hdr) as Hh by (by apply Forall_take).
  pose proof (bytes_word hdr 8 Hh) as Hc. cbv zeta. set (chunk := msg_word hdr 8) in *.
  case_goal; zbool; [by apply error_consumes|].
  assert (forall channel r w', okw w' -> rx w' = rx w ->
    consumes id (qcom_glink_rx_advance (ALIGN (16 + chunk) 8) ;;;
                 qcom_glink_channel_ref_put channel ;;; mret r) w') as Hadv.
  { intros channel r w' Ok' E'. pose proof (ALIGN_8_bounds (16 + chunk)).
    apply advance_consumes; [quiet_tac|done|split; [lia|]|apply ALIGN_8_mod].
    apply aligned_inside; [done|]. rewrite E'. lia. }
  apply quiet_consumes; [quiet_tac|done|]. intros [c|] w1 Ok1 E1; [|by apply Hadv].
  apply quiet_consumes; [quiet_tac|done|]. intros [i|r|] w2 Ok2 E2.
  - apply quiet_consumes; [quiet_tac|done|]. intros _ w3 Ok3 E3. apply Hadv; congruence.
  - apply Hadv; congruence.
  - apply quiet_consumes; [quiet_tac|done|]. intros _ w3 Ok3 E3. by apply error_consumes.
Qed.

Lemma rx_data_zero_copy_consumes avail w :
  fine w -> avail = Z.of_nat (length (rx w)) ->
  consumes id (qcom_glink_rx_data_zero_copy env avail) w.
Proof.
  intros [Ok Hl] ->. unfold qcom_glink_rx_data_zero_copy. case_goal; zbool; [by apply error_consumes|].
  apply quiet_consumes; [quiet_tac|done|]. intros hdr w1 Ok1 E1. cbv zeta.
  assert (forall channel w', okw w' -> rx w' = rx w ->
    consumes id (qcom_glink_rx_advance (ALIGN 24 8) ;;; qcom_glink_channel_ref_put channel ;;; mret 0) w') as Hadv.
  { intros channel w' Ok' E'. apply advance_consumes; [quiet_tac|done| |done].
    rewrite E'. change (ALIGN 24 8) with 24. lia. }
  apply quiet_consumes; [quiet_tac|done|]. intros [] w2 Ok2 E2; [apply Hadv; congruence|].
  apply quiet_consumes; [quiet_tac|done|]. intros [c|] w3 Ok3 E3; [|apply Hadv; congruence].
  apply quiet_consumes; [quiet_tac|done|]. intros x w4 Ok4 E4.
  destruct (idr_find _ _) as [i|]; [|apply Hadv; congruence].
  apply quiet_consumes; [quiet_tac|done|]. intros y w5 Ok5 E5.
  case_goal; [apply Hadv; congruence|]. case_goal; [apply Hadv; congruence|].
  apply quiet_consumes; [quiet_tac|done|]. intros _ w6 Ok6 E6.
  apply quiet_consumes; [quiet_tac|done|]. intros _ w7 Ok7 E7. apply Hadv; congruence.
Qed.

(** An INTENT message at the front whose pairs are not all there. *)
Definition cut_intent (bs : list Z) : Prop :=
  msg_cmd bs = GLINK_CMD_INTENT /\ 8 <= Z.of_nat (length bs) < 8 + 8 * msg_param2 bs.

Lemma handle_intent_consumes cid count w :
  fine w -> 0 <= count -> (forall n, env_alloc env n = true) -> 8 + 8 * count <= Z.of_nat (length (rx w)) ->
  consumes (fun _ => 0) (qcom_glink_handle_intent env cid count (Z.of_nat (length (rx w)))) w.
Proof.
  intros [Ok Hl] Hc Hal Hn. unfold qcom_glink_handle_intent. cbv zeta.
  rewrite (proj2 (Z.ltb_ge _ _)) by lia.
  assert (forall (k : M (qcom_glink T) unit) w', quiet k -> okw w' -> rx w' = rx w ->
    consumes (fun _ => 0) (qcom_glink_rx_advance (ALIGN (8 + 8 * count) 8) ;;; k) w') as Hadv.
  { intros k w' Hk Ok' E'. pose proof (ALIGN_8_bounds (8 + 8 * count)).
    apply advance_consumes; [done|done|split; [lia|]|apply ALIGN_8_mod].
    apply aligned_inside; [done|]. rewrite E'. lia. }
  apply quiet_consumes; [quiet_tac|done|]. intros [c|] w1 Ok1 E1.
  - apply (quiet_consumes_val (fun o => is_Some o)); [quiet_tac| |done|].
    { unfold kmalloc, mbnd. cbn. by rewrite Hal. }
    intros [p|] w2 Hp Ok2 E2; [|by destruct Hp].
    apply quiet_consumes; [quiet_tac|done|]. intros msg w3 Ok3 E3.
    apply quiet_consumes; [quiet_tac|done|]. intros _ w4 Ok4 E4.
    apply quiet_consumes; [quiet_tac|done|]. intros _ w5 Ok5 E5.
    apply Hadv; [quiet_tac|done|congruence].
  - specialize (Hadv (mret tt) w1 (quiet_ret tt) Ok1 E1). unfold consumes in *.
    unfold mbnd in Hadv. by destruct (qcom_glink_rx_advance _ w1) as [[]| | |].
Qed.

(** One command: an unknown one is looked at again, a cut INTENT stays. *)
Lemma rx_dispatch_consumes msg iters retry w :
  fine w -> bytes_in_range (rx w) -> (forall n, env_alloc env n = true) -> ~ cut_intent (rx w) ->
  msg = take 8 (rx w) ->
  consumes (default 1) (rx_dispatch env (msg_cmd msg) (msg_param1 msg) (msg_param2 msg)
                          (Z.of_nat (length (rx w))) iters retry) w.
Proof.
  intros F Hb Hal Hcut ->. pose proof F as [Ok Hl].
  assert (0 <= msg_param2 (take 8 (rx w)) /\ msg_param2 (take 8 (rx w)) = msg_param2 (rx w)) as [Hp Ep].
  { split; [apply (bytes_word _ 4); by apply Forall_take|]. unfold msg_param2.
    by rewrite skipn_firstn_comm, take_take. }
  assert (msg_cmd (take 8 (rx w)) = msg_cmd (rx w)) as Ec.
  { unfold msg_cmd. by rewrite take_take. }
  unfold rx_dispatch. cbv zeta.
  set (cmd := msg_cmd (take 8 (rx w))) in *. set (p2 := msg_param2 (take 8 (rx w))) in *.
  repeat match goal with
  | |- consumes _ (if ?b then _ else _) _ => destruct b eqn:?
  | |- consumes _ (mret _) _ => by apply error_consumes
  end; try (eapply (consumes_map id); [done|]); try (eapply (consumes_map (fun _ => 0)); [done|]);
  first [by apply rx_open_ack_consumes | by apply rx_defer_consumes | by apply rx_data_consumes
        | by apply rx_data_zero_copy_consumes | by apply rx_read_notif_consumes
        | by apply handle_rx_done_consumes | by apply handle_intent_req_ack_consumes
        | by apply handle_signals_consumes | idtac].
  apply handle_intent_consumes; [done|done|done|]. zbool.
  destruct (Z.le_gt_cases (8 + 8 * p2) (Z.of_nat (length (rx w)))) as [|Hlt]; [done|].
  exfalso. apply Hcut. split; [by rewrite <- Ec|]. rewrite <- Ep. lia.
Qed.

Lemma rx_dispatch_none cmd p1 p2 avail iters retry (w w' : world (qcom_glink T)) :
  rx_dispatch env cmd p1 p2 avail iters retry w = Ret None w' -> retry + 1 < 5.
Proof.
  unfold rx_dispatch. cbv zeta. repeat case_goal; intros E;
    try (apply mbnd_ret in E as (? & ? & _ & E); discriminate E); zbool; [done|discriminate E].
Qed.

(** No INTENT message that could be met is cut. *)
Definition no_cut (bs : list Z) : Prop :=
  forall n, Z.of_nat n mod 8 = 0 -> (n <= length bs)%nat -> ~ cut_intent (drop n bs).

Lemma no_cut_drop bs n :
  no_cut bs -> Z.of_nat n mod 8 = 0 -> (n <= length bs)%nat -> no_cut (drop n bs).
Proof.
  intros H Hn Hl k Hk Hkl. rewrite length_drop in Hkl. rewrite drop_drop. apply H; [|lia].
  rewrite Nat2Z.inj_add, Zplus_mod, Hn, Hk. done.
Qed.

(** The rounds the loop may still take: one per eight bytes, and the retries. *)
Definition rx_rounds (w : world (qcom_glink T)) (retry : Z) : nat := length (rx w) / 8 + Z.to_nat (5 - retry).

Lemma rx_loop_ends fuel msg iters retry w :
  okw w -> bytes_in_range (rx w) -> (forall n, env_alloc env n = true) -> no_cut (rx w) ->
  (rx_rounds w retry < fuel)%nat ->
  post (rx_loop env fuel msg iters retry w)
    (fun _ w' => okw w' /\ w_sched w' = w_sched w /\ exists n, rx w' = drop n (rx w)).
Proof.
  revert msg iters retry w. induction fuel as [|fuel IH]; intros msg iters retry w Ok Hb Hal Hcut Hf; [lia|].
  cbn [rx_loop]. apply rx_post_bind, avail_post; [done|]. pose proof (law_rx_bound _ Ok) as Hbd.
  rewrite u32_small by lia. cbv zeta. unfold sizeof_glink_msg. case_goal; zbool; [by split; [|split; [|exists 0%nat]]|].
  apply rx_post_bind, peek_post; [done|lia|lia|lia|]. change (Z.to_nat 0) with 0%nat.
  change (Z.to_nat 8) with 8%nat. rewrite drop_0. apply rx_post_bind.
  assert (~ cut_intent (rx w)) as Hnc by (apply (Hcut 0%nat); [done|lia]).
  pose proof (rx_dispatch_consumes (take 8 (rx w)) iters retry w (conj Ok Heqb) Hb Hal Hnc eq_refl) as Hd.
  pose proof (rx_dispatch_none (msg_cmd (take 8 (rx w))) (msg_param1 (take 8 (rx w)))
    (msg_param2 (take 8 (rx w))) (Z.of_nat (length (rx w))) iters retry w) as Hnone.
  unfold consumes in Hd. destruct (rx_dispatch env _ _ _ _ _ _ w) as [o w1| | |] eqn:E; [|done|done|done].
  destruct Hd as (Ok1 & S1 & n & E1 & Hn & Hn8 & Hprog). cbn [post].
  assert (forall retry' iters', (rx_rounds w1 retry' < fuel)%nat ->
    post (rx_loop env fuel (take 8 (rx w)) iters' retry' w1)
      (fun _ w' => okw w' /\ w_sched w' = w_sched w /\ exists n, rx w' = drop n (rx w))) as Hgo.
  { intros retry' iters' Hm. eapply rx_post_mono.
    - apply IH; [done|rewrite E1; by apply Forall_drop|done|rewrite E1; by apply no_cut_drop|done].
    - intros _ w2 (Ok2 & S2 & k & E2). split; [done|]. split; [congruence|].
      exists (n + k)%nat. by rewrite E2, E1, drop_drop. }
  unfold rx_rounds in *. pose proof (f_equal length E1) as El. rewrite length_drop in El.
  destruct o as [r|].
  - destruct (truth r) eqn:Er; [split; [done|]; split; [done|]; by exists n|]. apply Hgo.
    unfold truth in Er. zbool. subst r. specialize (Hprog eq_refl).
    assert (length (rx w1) / 8 + 1 <= length (rx w) / 8)%nat.
    { rewrite El. transitivity ((length (rx w) - n + 1 * 8) / 8)%nat.
      - rewrite Nat.div_add by lia. lia.
      - apply Nat.Div0.div_le_mono. lia. }
    lia.
  - apply Hgo. specialize (Hnone w1 eq_refl).
    assert (length (rx w1) / 8 <= length (rx w) / 8)%nat by (apply Nat.Div0.div_le_mono; lia).
    lia.
Qed.

(** A run of the handler that came to an end. *)
Definition rx_ended (w : world (qcom_glink T)) (o : outcome (qcom_glink T) unit) : Prop :=
  match o with
  | Ret _ w' => okw w' /\ w_sched w' = w_sched w /\ exists n, rx w' = drop n (rx w)
  | Fault => True
  | Blocked | NoFuel => False
  end.

(** C30. The interrupt handler never sleeps, and it ends as long as no allocation
    fails and no INTENT message it could come across is cut short in the FIFO:
    whatever the channels, the intents and the bytes in the FIFO are,
    [qcom_glink_native_rx] takes at most one round per eight bytes and five more.
    It ends by returning, with a prefix of the FIFO stepped over and the schedule
    of sleepers as it was, or with [Fault], a memory error in one of the message
    handlers. (A cut INTENT message, or one for which there is no memory, is
    handled for ever, [native_rx_spins_on_cut_intent].) *)
Theorem native_rx_terminates (fuel : nat) (w : world (qcom_glink T)) :
  okw w -> bytes_in_range (rx w) -> (forall n, env_alloc env n = true) -> no_cut (rx w) ->
  (length (rx w) / 8 + 6 <= fuel)%nat ->
  rx_ended w (qcom_glink_native_rx env fuel w).
Proof.
  intros Ok Hb Hal Hcut Hf. change (post (qcom_glink_native_rx env fuel w)
    (fun _ w' => okw w' /\ w_sched w' = w_sched w /\ exists n, rx w' = drop n (rx w))).
  unfold qcom_glink_native_rx. apply rx_post_bind. cbn [gets post]. apply rx_post_bind.
  apply quiet_post; [quiet_tac|done|]. intros _ w1 Ok1 E1 S1. eapply rx_post_mono.
  - apply rx_loop_ends; [done|by rewrite E1|done|by rewrite E1|]. unfold rx_rounds. rewrite E1.
    change (Z.to_nat (5 - 0)) with 5%nat. lia.
  - intros _ w2 (Ok2 & S2 & n & E2). split; [done|]. split; [congruence|]. exists n. congruence.
Qed.

Lemma cut_intent_spins fuel msg iters retry w :
  okw w -> cut_intent (rx w) -> rx_loop env fuel msg iters retry w = NoFuel.
Proof.
  revert msg iters w. induction fuel as [|fuel IH]; intros msg iters w Ok Hc; [done|].
  pose proof Hc as [Hcmd Hlen]. pose proof (law_rx_bound _ Ok) as Hbd.
  cbn [rx_loop]. unfold qcom_glink_rx_avail, mbnd, gets. cbn [w_st]. rewrite (law_rx_avail _ Ok).
  cbn [or_fault mret set_tr modify w_st w_sched fst snd]. rewrite u32_small by lia.
  unfold sizeof_glink_msg. rewrite (proj2 (Z.ltb_ge _ _)) by lia.
  unfold qcom_glink_rx_peek, mbnd, gets. cbn [w_st set_field g_tr].
  rewrite law_rx_peek by (done || lia). cbn [or_fault mret].
  change (Z.to_nat 0) with 0%nat. change (Z.to_nat 8) with 8%nat. rewrite drop_0.
  assert (msg_cmd (take 8 (rx w)) = GLINK_CMD_INTENT) as ->.
  { rewrite <- Hcmd. unfold msg_cmd. by rewrite take_take. }
  assert (msg_param2 (take 8 (rx w)) = msg_param2 (rx w)) as ->.
  { unfold msg_param2. by rewrite skipn_firstn_comm, take_take. }
  unfold rx_dispatch. cbn -[rx_loop qcom_glink_handle_intent msg_param1 msg_param2 take].
  unfold qcom_glink_handle_intent. rewrite (proj2 (Z.ltb_lt _ _)) by lia.
  cbn -[rx_loop take]. apply IH; [done|done].
Qed.

(** On an INTENT message whose pairs are not all in the FIFO the interrupt
    handler does not end: no amount of rounds is enough. The handler of that
    command returns without stepping over it and without an error. *)
Theorem native_rx_spins_on_cut_intent (fuel : nat) (w : world (qcom_glink T)) :
  okw w -> cut_intent (rx w) -> qcom_glink_native_rx env fuel w = NoFuel.
Proof.
  intros Ok Hc. unfold qcom_glink_native_rx, mbnd, gets. cbn [w_st].
  destruct (g_should_wake (w_st w)); cbn [modify mret]; by apply cut_intent_spins.
Qed.

End Quiet.
