(* ===== verification/GlinkData.v ===== *)
(** * GLINK: messages across an edge

    What [__qcom_glink_send] writes and what [qcom_glink_rx_data] makes of it: the
    intent a sender picks, the chunks a message is cut into, their reassembly in
    the receiver's intent, and the hand-over of the whole message, once. *)
From stdpp Require Import prelude gmap list sorting.
From S2P Require Import Prelude.
From S2P Require Import Effects.
From S2P Require Import GlinkSmem.
From S2P Require Import GlinkTransport.
From S2P Require Import Glink.
From S2P Require Import GlinkTx.
From S2P Require Import GlinkRx.
#[local] Open Scope kernel_scope.

(** ** Running computations *)

Section Run.
Context {T : Type} {Tr : Transport T} {TL : TransportLaws T} {IO : IdrOps} (env : glink_env).

Lemma run_get_chan {B : Type} c x (k : glink_channel -> M (qcom_glink T) B) w :
  g_channels (w_st w) !! c = Some x -> mbnd (get_chan c) k w = k x w.
Proof. intros E. unfold get_chan, mbnd. cbn. by rewrite E. Qed.

Lemma run_get_intent {B : Type} i y (k : glink_core_rx_intent -> M (qcom_glink T) B) w :
  g_intents (w_st w) !! i = Some y -> mbnd (get_intent i) k w = k y w.
Proof. intros E. unfold get_intent, mbnd. cbn. by rewrite E. Qed.

Lemma run_set_chan {B : Type} c x (k : unit -> M (qcom_glink T) B) w :
  mbnd (set_chan c x) k w = k tt (with_st w ((w_st w) <| g_channels := <[c := x]> (g_channels (w_st w)) |>)).
Proof. done. Qed.

Lemma run_upd_chan {B : Type} c x f (k : unit -> M (qcom_glink T) B) w :
  g_channels (w_st w) !! c = Some x ->
  mbnd (upd_chan c f) k w = k tt (with_st w ((w_st w) <| g_channels := <[c := f x]> (g_channels (w_st w)) |>)).
Proof. intros E. unfold upd_chan. by rewrite run_assoc, (run_get_chan c x). Qed.

Lemma run_upd_intent {B : Type} i y f (k : unit -> M (qcom_glink T) B) w :
  g_intents (w_st w) !! i = Some y ->
  mbnd (upd_intent i f) k w = k tt (with_st w ((w_st w) <| g_intents := <[i := f y]> (g_intents (w_st w)) |>)).
Proof. intros E. unfold upd_intent. by rewrite run_assoc, (run_get_intent i y). Qed.

Lemma run_ref_get {B : Type} cid c x (k : option Z -> M (qcom_glink T) B) w :
  idr_map (g_rcids (w_st w)) !! cid = Some c -> g_channels (w_st w) !! c = Some x ->
  mbnd (qcom_glink_channel_ref_get true cid) k w =
  k (Some c) (with_st w ((w_st w) <| g_channels := <[c := x <| c_refcount := c_refcount x + 1 |>]> (g_channels (w_st w)) |>)).
Proof.
  intros E1 E2. unfold qcom_glink_channel_ref_get. rewrite run_assoc, run_gets. unfold idr_find. rewrite E1.
  rewrite run_assoc. unfold kref_get. by rewrite (run_upd_chan c x).
Qed.

(** Giving back a reference that is not the last one. *)
Lemma run_ref_put {B : Type} c x (k : unit -> M (qcom_glink T) B) w :
  g_channels (w_st w) !! c = Some x -> c_refcount x <> 1 ->
  mbnd (qcom_glink_channel_ref_put (Some c)) k w =
  k tt (with_st w ((w_st w) <| g_channels := <[c := x <| c_refcount := c_refcount x - 1 |>]> (g_channels (w_st w)) |>)).
Proof.
  intros E Hr. cbn [qcom_glink_channel_ref_put]. unfold kref_put.
  rewrite run_assoc, (run_get_chan c x), run_assoc, run_set_chan by done.
  by rewrite (proj2 (Z.eqb_neq _ _)) by lia.
Qed.

Lemma run_peek {B : Type} data off n (k : list Z -> M (qcom_glink T) B) w :
  tr_ok (g_tr (w_st w)) -> 0 <= off -> 0 <= n -> off + n <= Z.of_nat (length (rx_bytes (g_tr (w_st w)))) ->
  mbnd (qcom_glink_rx_peek data off n) k w =
  k (take (Z.to_nat n) (drop (Z.to_nat off) (rx_bytes (g_tr (w_st w))))) w.
Proof.
  intros Ok ???. unfold qcom_glink_rx_peek. rewrite run_assoc, run_gets. by rewrite law_rx_peek.
Qed.

Lemma run_advance {B : Type} n (k : unit -> M (qcom_glink T) B) w :
  tr_ok (g_tr (w_st w)) -> 0 <= n <= Z.of_nat (length (rx_bytes (g_tr (w_st w)))) -> n mod 8 = 0 ->
  exists t', tr_ok t' /\ rx_bytes t' = drop (Z.to_nat n) (rx_bytes (g_tr (w_st w))) /\
    tx_bytes t' = tx_bytes (g_tr (w_st w)) /\
    mbnd (qcom_glink_rx_advance n) k w = k tt (with_st w ((w_st w) <| g_tr := t' |>)).
Proof.
  intros Ok Hn H8. destruct (law_rx_advance _ n Ok Hn H8) as (t' & E & Ok' & Er & Et & _).
  exists t'. split; [done|]. split; [done|]. split; [done|].
  unfold qcom_glink_rx_advance. rewrite run_assoc, run_gets, run_assoc, E. done.
Qed.

Lemma run_avail {B : Type} (k : Z -> M (qcom_glink T) B) w :
  tr_ok (g_tr (w_st w)) ->
  mbnd qcom_glink_rx_avail k w = k (Z.of_nat (length (rx_bytes (g_tr (w_st w))))) w.
Proof.
  intros Ok. unfold qcom_glink_rx_avail. rewrite run_assoc, run_gets, run_assoc, (law_rx_avail _ Ok).
  destruct w as [[] ?]. done.
Qed.

End Run.

(** ** Chunks

    How a message is cut: command, bytes after this chunk, payload. *)

Fixpoint chunks (fuel : nat) (rest : list Z) (first wait : bool) : list (Z * Z * list Z) :=
  match rest, fuel with
  | [], _ | _, O => []
  | _, S k =>
      let n := Z.of_nat (length rest) in
      let size := chunk_len n wait in
      (if first then GLINK_CMD_TX_DATA else GLINK_CMD_TX_DATA_CONT, n - size, take (Z.to_nat size) rest)
        :: chunks k (drop (Z.to_nat size) rest) false wait
  end.

Definition chunk_bytes (lcid iid : Z) (ch : Z * Z * list Z) : list Z :=
  let '(cmd, remaining, payload) := ch in
  data_hdr cmd lcid iid (Z.of_nat (length payload)) remaining ++ payload.

Lemma length_data_hdr cmd lcid iid chunk left : length (data_hdr cmd lcid iid chunk left) = 16%nat.
Proof. unfold data_hdr. by rewrite !length_app, length_glink_msg, !length_le_bytes. Qed.

(** The fields of a data header, read back. *)
Lemma data_hdr_fields cmd lcid iid chunk left tl :
  0 <= cmd < 2 ^ 16 -> 0 <= lcid < 2 ^ 16 -> 0 <= iid < 2 ^ 32 -> 0 <= chunk < 2 ^ 32 -> 0 <= left < 2 ^ 32 ->
  let h := data_hdr cmd lcid iid chunk left ++ tl in
  msg_cmd h = cmd /\ msg_param1 h = lcid /\ msg_param2 h = iid /\ msg_word h 8 = chunk /\ msg_word h 12 = left.
Proof.
  intros ?????. unfold data_hdr, glink_msg, msg_cmd, msg_param1, msg_param2, msg_word. cbv zeta.
  cbn [le_bytes app take drop].
  split; [by apply (le_val_bytes_small 2)|]. split; [by apply (le_val_bytes_small 2)|].
  split; [by apply (le_val_bytes_small 4)|]. split; by apply (le_val_bytes_small 4).
Qed.

Lemma chunks_cons fuel rest first wait :
  rest <> [] ->
  let n := Z.of_nat (length rest) in
  let size := chunk_len n wait in
  chunks (S fuel) rest first wait =
  (if first then GLINK_CMD_TX_DATA else GLINK_CMD_TX_DATA_CONT, n - size, take (Z.to_nat size) rest)
    :: chunks fuel (drop (Z.to_nat size) rest) false wait.
Proof. by destruct rest. Qed.

(** The size of the next chunk is positive and within the message. *)
Lemma chunk_size_bounds (rest : list Z) (wait : bool) :
  rest <> [] ->
  let n := Z.of_nat (length rest) in
  let size := chunk_len n wait in
  0 < size <= n /\ (wait = true -> size <= SZ_8K).
Proof.
  intros Hr. destruct rest as [|z rest]; [done|]. cbv zeta. cbn [length]. unfold chunk_len, SZ_8K.
  destruct (Z.ltb_spec 8192 (Z.of_nat (S (length rest)))); destruct wait; cbn [andb]; lia.
Qed.

(** The chunks are the message: put together they give it back, none is empty,
    with [wait] none is larger than 8 KiB, each says how many bytes follow it. *)
Lemma chunks_spec fuel rest first wait :
  (length rest <= fuel)%nat ->
  concat (map snd (chunks fuel rest first wait)) = rest /\
  Forall (fun ch => ch.2 <> [] /\ (wait = true -> Z.of_nat (length ch.2) <= SZ_8K))
    (chunks fuel rest first wait).
Proof.
  revert rest first. induction fuel as [|fuel IH]; intros rest first Hl.
  - destruct rest; [done|cbn in Hl; lia].
  - destruct (decide (rest = [])) as [->|Hr]; [done|].
    rewrite chunks_cons by done. destruct (chunk_size_bounds rest wait Hr) as [Hs Hw].
    set (size := chunk_len _ _) in *. cbn [map concat snd].
    destruct (IH (drop (Z.to_nat size) rest) false) as [E F].
    { rewrite length_drop. lia. }
    split; [by rewrite E, take_drop|]. constructor; [|done]. cbn [snd]. rewrite length_take. split.
    + intros E0. apply (f_equal length) in E0. rewrite length_take in E0. cbn in E0. lia.
    + intros Hwt. specialize (Hw Hwt). lia.
Qed.

Lemma queue_size_nonneg q : 0 <= queue_size q.
Proof.
  induction q as [|pkt q IH]; [done|]. cbn [queue_size foldr]. fold (queue_size q).
  unfold padded. pose proof (ALIGN_8_bounds (Z.of_nat (length pkt))). lia.
Qed.

Section Send.
Context {T : Type} {Tr : Transport T} {TL : TransportLaws T} {IO : IdrOps}.

(** A send that finds room at once. *)
Lemma tx_room hdr data wait (w : world (qcom_glink T)) :
  tx_inv (w_st w) -> g_abort_tx (w_st w) = false -> 0 < Z.of_nat (length (hdr ++ data)) ->
  Z.of_nat (length (hdr ++ data)) + 16 <= tx_free (g_tr (w_st w)) ->
  exists t' pad, qcom_glink_tx hdr data wait w =
      Ret 0 (with_st w ((w_st w) <| g_tr := t' |> <| g_log := EvKick :: g_log (w_st w) |>)) /\
    tx_inv ((w_st w) <| g_tr := t' |> <| g_log := EvKick :: g_log (w_st w) |>) /\
    tx_bytes t' = tx_bytes (g_tr (w_st w)) ++ (hdr ++ data) ++ pad /\
    Z.of_nat (length ((hdr ++ data) ++ pad)) = padded (hdr ++ data) /\
    rx_bytes t' = rx_bytes (g_tr (w_st w)) /\
    tx_free t' = tx_free (g_tr (w_st w)) - padded (hdr ++ data).
Proof.
  intros Hi Ha Hpos Hroom. pose proof Hi as (Ok & _ & _). set (n := Z.of_nat (length (hdr ++ data))) in *.
  destruct (law_tx_length _ Ok) as [Hlen _]. pose proof (tx_free_aligned _ Ok) as F8.
  pose proof (ALIGN_8_bounds n) as An. pose proof (ALIGN_8_mod n) as A8.
  assert (ALIGN n 8 + 16 <= tx_free (g_tr (w_st w))) as Hfit.
  { apply Z.mod_divide in F8 as [b Hb], A8 as [c Hc]; lia. }
  destruct (law_tx_write _ hdr data Ok) as (t' & pad & E & Ok' & Eb & El & Er & Ec).
  { fold n. unfold tx_free in Hfit. lia. }
  exists t', pad.
  assert (tx_free t' = tx_free (g_tr (w_st w)) - padded (hdr ++ data)) as Ef.
  { unfold tx_free. rewrite Ec, Eb, (length_app (tx_bytes _)), Nat2Z.inj_add, El. unfold padded. lia. }
  split; [|split; [|done]].
  - assert (n = Z.of_nat (length hdr) + Z.of_nat (length data)) as En by (subst n; rewrite length_app; lia).
    unfold tx_free in Hfit. unfold qcom_glink_tx. rewrite <- En. rewrite u32_small by lia. cbv zeta.
    rewrite (proj2 (Z.leb_gt _ _)) by lia. rewrite Ha.
    assert (tx_attempt hdr data n wait w =
      Ret (Some 0) (with_st w ((w_st w) <| g_tr := t' |> <| g_log := EvKick :: g_log (w_st w) |>))) as Ea.
    { unfold tx_attempt. rewrite run_gets, (law_tx_avail _ Ok), (proj2 (Z.ltb_ge _ _)) by lia.
      unfold qcom_glink_tx_write. rewrite run_assoc, run_gets, run_assoc, E. done. }
    destruct (length (w_sched w)); cbn [tx_loop]; unfold mbnd at 1; by rewrite Ea.
  - split; [done|]. cbn [g_tr set_field g_sent_read_notify]. change (g_tr _) with t'. rewrite Ef. unfold padded. fold n.
    split; [lia|]. intros _. lia.
Qed.

(** What the edge looks like after a message was written. *)
Record wrote (g g' : qcom_glink T) (pkts : list (list Z)) : Prop := {
  wr_inv : tx_inv g';
  wr_bytes : exists bytes, frames pkts bytes /\ tx_bytes (g_tr g') = tx_bytes (g_tr g) ++ bytes;
  wr_rx : rx_bytes (g_tr g') = rx_bytes (g_tr g);
  wr_same : g' = g <| g_tr := g_tr g' |> <| g_log := replicate (length pkts) EvKick ++ g_log g |>;
}.

Lemma send_chunks_writes fuel c intent iid rest first wait (w : world (qcom_glink T)) x :
  tx_inv (w_st w) -> g_abort_tx (w_st w) = false -> g_channels (w_st w) !! c = Some x ->
  (length rest <= fuel)%nat ->
  let pkts := map (chunk_bytes (c_lcid x) iid) (chunks fuel rest first wait) in
  queue_size pkts + 16 <= tx_free (g_tr (w_st w)) ->
  exists g', send_chunks fuel c intent iid rest first wait w = Ret 0 (with_st w g') /\ wrote (w_st w) g' pkts.
Proof.
  revert rest first w. induction fuel as [|fuel IH]; intros rest first w Hi Ha Hc Hl; cbv zeta.
  { destruct rest; [|cbn in Hl; lia]. intros _. exists (w_st w). split; [by destruct w|].
    constructor; [done| |done|by destruct w as [[] ?]]. exists []. split; [constructor|by rewrite app_nil_r]. }
  destruct (decide (rest = [])) as [->|Hr].
  { intros _. exists (w_st w). split; [by destruct w|].
    constructor; [done| |done|by destruct w as [[] ?]]. exists []. split; [constructor|by rewrite app_nil_r]. }
  rewrite chunks_cons by done. destruct (chunk_size_bounds rest wait Hr) as [Hs _].
  set (size := chunk_len _ _) in *. cbn [map chunk_bytes].
  assert (Z.of_nat (length (take (Z.to_nat size) rest)) = size) as Esz by (rewrite length_take; lia).
  rewrite Esz. set (hdr := data_hdr _ _ _ _ _). set (pay := take (Z.to_nat size) rest) in *.
  set (more := map _ (chunks fuel _ false wait)). cbn [queue_size foldr]. fold (queue_size more). intros Hroom.
  assert (0 <= queue_size more) as Hm by apply queue_size_nonneg.
  assert (Z.of_nat (length (hdr ++ pay)) = 16 + size) as Ehp.
  { rewrite length_app. subst hdr. rewrite length_data_hdr. lia. }
  pose proof (ALIGN_8_bounds (16 + size)) as An.
  destruct (tx_room hdr pay wait w Hi Ha) as (t' & pad & E & Hi' & Eb & El & Er & Ef);
    [lia|unfold padded in Hroom; rewrite Ehp in *; lia|].
  set (g1 := (w_st w) <| g_tr := t' |> <| g_log := EvKick :: g_log (w_st w) |>) in *.
  destruct (IH (drop (Z.to_nat size) rest) false (with_st w g1)) as (g' & E' & [Hi2 (bytes & Hf & Hb) Hrx Hsame]);
    [done|done|done|rewrite length_drop; lia|cbn; rewrite Ef; fold more; lia|].
  exists g'. split.
  - destruct rest as [|z rest']; [done|]. cbn [send_chunks]. fold size. rewrite (run_get_chan c x) by done.
    unfold mbnd at 1. fold hdr pay. by rewrite E.
  - constructor; [done| | |].
    + exists (((hdr ++ pay) ++ pad) ++ bytes). split.
      * rewrite <- app_assoc. constructor; [done|exact Hf].
      * rewrite Hb. cbn. rewrite Eb, <- !app_assoc. done.
    + rewrite Hrx. done.
    + rewrite Hsame at 1. unfold g1. cbn. f_equal. by rewrite (cons_middle EvKick), app_assoc, <- replicate_cons_app.
Qed.

(** ** The intent a sender takes *)

(** A remote intent that can take a message of [len] bytes. *)
Definition usable (g : qcom_glink T) (len i : Z) (y : glink_core_rx_intent) : Prop :=
  g_intents g !! i = Some y /\ len <= i_size y /\ i_in_use y = false.

(** [o] is a usable intent of smallest size among [l] and the best so far. *)
Definition best_of (g : qcom_glink T) (l : list (Z * Z)) (len : Z) (best o : option (Z * Z)) : Prop :=
  match o with
  | None => best = None /\ forall e y, e ∈ l -> ~ usable g len e.2 y
  | Some (i, sz) =>
      (exists y, usable g len i y /\ i_size y = sz) /\
      (best = o \/ exists e, e ∈ l /\ e.2 = i) /\
      (forall e y, e ∈ l -> usable g len e.2 y -> sz <= i_size y) /\
      (forall j sj, best = Some (j, sj) -> sz <= sj)
  end.

Lemma best_of_nil g len best :
  (forall j sj, best = Some (j, sj) -> exists y, usable g len j y /\ i_size y = sj) ->
  best_of g [] len best best.
Proof.
  intros Hb. destruct best as [[j sj]|]; cbn.
  - split; [by apply Hb|]. split; [by left|]. split; [|by intros ? ? [= <- <-]].
    intros e y He. by apply elem_of_nil in He.
  - split; [done|]. intros e y He. by apply elem_of_nil in He.
Qed.

(** An intent that cannot be used does not count. *)
Lemma best_of_skip g l len best o id i :
  (forall y, ~ usable g len i y) -> best_of g l len best o -> best_of g ((id, i) :: l) len best o.
Proof.
  intros Hnot Ho. destruct o as [[m sm]|].
  - destruct Ho as (Hm & Hin & Hall & Hb). split; [done|]. split; [|split; [|done]].
    + destruct Hin as [->|(e & He & <-)]; [by left|right; exists e; by split; [constructor|]].
    + intros e y [->|He]%elem_of_cons Hy; [by apply Hnot in Hy|by apply Hall in Hy].
  - destruct Ho as [-> Hall]. split; [done|]. intros e y [->|He]%elem_of_cons; [apply Hnot|by apply Hall].
Qed.

(** One that can replaces the best so far or does not. *)
Lemma best_of_take g l len best k sk o id i y :
  usable g len i y -> sk <= i_size y -> best = Some (k, sk) \/ k = i ->
  (forall j sj, best = Some (j, sj) -> sk <= sj) ->
  best_of g l len (Some (k, sk)) o -> best_of g ((id, i) :: l) len best o.
Proof.
  intros Hu Hle Hor Hmin Ho. destruct o as [[m sm]|]; [|by destruct Ho].
  destruct Ho as (Hm & Hin & Hall & Hb). specialize (Hb k sk eq_refl). split; [done|]. split; [|split].
  - destruct Hin as [[= <- <-]|(e & He & <-)]; [|right; exists e; by split; [constructor|]].
    destruct Hor as [->| ->]; [by left|right; exists (id, i); by split; [constructor|]].
  - intros e ye [->|He]%elem_of_cons Hye; [|by apply Hall in Hye].
    destruct Hye as (Hye & _), Hu as (Hy & _). cbn [snd] in Hye. rewrite Hy in Hye. injection Hye as <-. lia.
  - intros j sj Ej. specialize (Hmin j sj Ej). lia.
Qed.

Lemma best_of_exact g l len k y :
  usable g len k y -> i_size y = len -> best_of g l len (Some (k, len)) (Some (k, len)).
Proof.
  intros Hu He. split; [by exists y|]. split; [by left|]. split; [by intros ? ? _ (_ & ? & _)|].
  by intros ? ? [= <- <-].
Qed.

Lemma pick_intent_best l len best (w : world (qcom_glink T)) :
  (forall e, e ∈ l -> is_Some (g_intents (w_st w) !! e.2)) ->
  (forall j sj, best = Some (j, sj) -> exists y, usable (w_st w) len j y /\ i_size y = sj) ->
  exists o, pick_intent l len best w = Ret o w /\ best_of (w_st w) l len best o.
Proof.
  revert best. induction l as [|[id i] l IH]; intros best Hl Hb.
  { exists best. split; [done|]. by apply best_of_nil. }
  destruct (Hl (id, i)) as [y Hy]; [constructor|]. cbn [snd] in Hy.
  assert (forall e, e ∈ l -> is_Some (g_intents (w_st w) !! e.2)) as Hl' by (intros; apply Hl; by constructor).
  cbn [pick_intent]. rewrite (run_get_intent i y) by done.
  destruct ((len <=? i_size y) && negb (i_in_use y)) eqn:Eu.
  - zbool. assert (usable (w_st w) len i y) as Hu by done.
    set (best' := match best with None => Some (i, i_size y) | Some (j, sz) => _ end).
    assert (exists k sk yk, best' = Some (k, sk) /\ sk <= i_size y /\ usable (w_st w) len k yk /\
      i_size yk = sk /\ (best = Some (k, sk) \/ k = i) /\ (forall j sj, best = Some (j, sj) -> sk <= sj)) as
      (k & sk & yk & Eb' & Hle & Hk & Hsk & Hor & Hmin).
    { unfold best'. destruct best as [[j sj]|].
      - destruct (Hb j sj eq_refl) as (yj & Hj & Hsj). destruct (Z.ltb_spec (i_size y) sj).
        + exists i, (i_size y), y. do 4 (split; [done|]). split; [by right|]. intros ? ? [= <- <-]. lia.
        + exists j, sj, yj. do 4 (split; [done|]). split; [by left|]. intros ? ? [= <- <-]. lia.
      - exists i, (i_size y), y. do 4 (split; [done|]). split; [by right|]. done. }
    rewrite Eb'. destruct (Z.eqb_spec sk len) as [->|Hne].
    + exists (Some (k, len)). split; [done|]. eapply best_of_take; [done|done|done|done|].
      by eapply best_of_exact.
    + destruct (IH (Some (k, sk)) Hl') as (o & Eo & Ho); [by intros ? ? [= <- <-]; exists yk|].
      exists o. split; [exact Eo|]. by eapply best_of_take.
  - destruct (IH best Hl' Hb) as (o & Eo & Ho). exists o. split; [exact Eo|].
    apply best_of_skip; [|done]. intros ye (H1 & H2 & H3). rewrite Hy in H1. injection H1 as <-.
    by rewrite (proj2 (Z.leb_le _ _)), H3 in Eu by done.
Qed.

Lemma idr_entries_elem t e : e ∈ idr_entries t <-> idr_map t !! e.1 = Some e.2.
Proof. unfold idr_entries. rewrite merge_sort_Permutation. destruct e. apply elem_of_map_to_list. Qed.

(** The world with intent [i], which is [y], marked as taken. *)
Definition take_intent (w : world (qcom_glink T)) (i : Z) (y : glink_core_rx_intent) : world (qcom_glink T) :=
  with_st w ((w_st w) <| g_intents := <[i := y <| i_in_use := true |>]> (g_intents (w_st w)) |>).

(** The choice of [acquire_intent]: one of the smallest intents that are free and
    large enough, which it marks as taken. *)
Lemma acquire_best_fit (fuel : nat) (c len : Z) (wait : bool) (w : world (qcom_glink T)) (x : glink_channel) :
  g_channels (w_st w) !! c = Some x ->
  (forall id i, idr_map (c_riids x) !! id = Some i -> is_Some (g_intents (w_st w) !! i)) ->
  (exists id i y, idr_map (c_riids x) !! id = Some i /\ usable (w_st w) len i y /\
     (forall id' i' y', idr_map (c_riids x) !! id' = Some i' -> usable (w_st w) len i' y' -> i_size y <= i_size y') /\
     acquire_intent fuel c len wait w =
       Ret (inr i) (take_intent w i y)) \/
  ((forall id i y, idr_map (c_riids x) !! id = Some i -> ~ usable (w_st w) len i y) /\
   (wait = false -> acquire_intent fuel c len wait w = Ret (inl (- EBUSY)) w)).
Proof.
  intros Hc Hlive.
  destruct (pick_intent_best (idr_entries (c_riids x)) len None w) as (o & Eo & Ho).
  { intros e He. apply idr_entries_elem in He. eauto. }
  { done. }
  assert (forall k, acquire_intent k c len wait w =
    match o with
    | Some (i, _) => (upd_intent i (fun y => y <| i_in_use := true |>) ;;; mret (inr i)) w
    | None => (if negb wait then mret (inl (- EBUSY))
               else ret <-- qcom_glink_request_intent c len ;;;
                 if ret <? 0 then mret (inl ret)
                 else match k with O => (fun _ => NoFuel) | S k => acquire_intent k c len wait end) w
    end) as Ea.
  { intros k. destruct k; cbn [acquire_intent]; rewrite (run_get_chan c x) by done; unfold mbnd at 1; rewrite Eo;
      by destruct o as [[]|]. }
  destruct o as [[i sz]|]; [left|right].
  - destruct Ho as ((y & Hu & Hsz) & [|(e & He & <-)] & Hall & _); [done|].
    apply idr_entries_elem in He. exists e.1, e.2, y. split; [done|]. split; [done|]. split.
    + intros id' i' y' Hi' Hu'. rewrite Hsz. apply (Hall (id', i') y'); [by apply idr_entries_elem|done].
    + rewrite Ea. rewrite (run_upd_intent _ y) by apply Hu. done.
  - destruct Ho as [_ Hall]. split.
    + intros id i y Hi. apply (Hall (id, i)). by apply idr_entries_elem.
    + intros ->. by rewrite Ea.
Qed.

(** With the intent in hand the message goes out in chunks that name it. *)
Lemma send_acquired (fuel : nat) (c i : Z) (y : glink_core_rx_intent) (data : list Z) (wait : bool) (w : world (qcom_glink T)) :
  g_intentless (w_st w) = false ->
  acquire_intent fuel c (Z.of_nat (length data)) wait w = Ret (inr i) (take_intent w i y) ->
  __qcom_glink_send fuel c data wait w =
    send_chunks (length data) c (Some i) (i_id y) data true wait (take_intent w i y).
Proof.
  intros Hf E. unfold __qcom_glink_send. rewrite run_gets, Hf. unfold mbnd at 1. rewrite E.
  by rewrite (run_get_intent i (y <| i_in_use := true |>)) by (cbn; apply lookup_insert_eq).
Qed.

(** A sender takes the best fit: on an edge with intents, either one of the
    smallest free remote intents of the channel that are large enough is marked
    as taken and the chunks of the message go out under its number; or there is
    none, and a sender that may not wait gets [-EBUSY] and nothing changes. *)
Theorem send_takes_best_fit (fuel : nat) (c : Z) (data : list Z) (wait : bool) (w : world (qcom_glink T)) (x : glink_channel) :
  g_channels (w_st w) !! c = Some x -> g_intentless (w_st w) = false ->
  (forall id i, idr_map (c_riids x) !! id = Some i -> is_Some (g_intents (w_st w) !! i)) ->
  (exists id i y, idr_map (c_riids x) !! id = Some i /\ usable (w_st w) (Z.of_nat (length data)) i y /\
     (forall id' i' y', idr_map (c_riids x) !! id' = Some i' ->
        usable (w_st w) (Z.of_nat (length data)) i' y' -> i_size y <= i_size y') /\
     __qcom_glink_send fuel c data wait w =
       send_chunks (length data) c (Some i) (i_id y) data true wait (take_intent w i y)) \/
  ((forall id i y, idr_map (c_riids x) !! id = Some i -> ~ usable (w_st w) (Z.of_nat (length data)) i y) /\
   (wait = false -> __qcom_glink_send fuel c data wait w = Ret (- EBUSY) w)).
Proof.
  intros Hc Hf Hlive.
  destruct (acquire_best_fit fuel c (Z.of_nat (length data)) wait w x Hc Hlive)
    as [(id & i & y & Hi & Hu & Hmin & E)|[Hno E]].
  - left. exists id, i, y. split; [done|]. split; [done|]. split; [done|]. by apply send_acquired.
  - right. split; [done|]. intros Hw. unfold __qcom_glink_send. rewrite run_gets, Hf. unfold mbnd at 1.
    by rewrite E.
Qed.
End Send.

(** ** Reassembly *)

Section Receive.
Context {T : Type} {Tr : Transport T} {TL : TransportLaws T} {IO : IdrOps} (env : glink_env).

(** An intent of a channel that is ready for data. *)
Record receiver (g : qcom_glink T) (rcid liid c i : Z) (x : glink_channel) (y : glink_core_rx_intent)
    (p : Z) (b : list Z) : Prop := {
  rc_ok : tr_ok (g_tr g);
  rc_intents : g_intentless g = false;
  rc_rcid : idr_map (g_rcids g) !! rcid = Some c;
  rc_chan : g_channels g !! c = Some x;
  rc_ref : 0 < c_refcount x;
  rc_liid : idr_map (c_liids x) !! liid = Some i;
  rc_intent : g_intents g !! i = Some y;
  rc_buf : i_data y = DBuf p b;
  rc_size : Z.of_nat (length b) = i_size y;
  rc_bound : i_size y < 2 ^ 31;
  rc_offset : 0 <= i_offset y;
  rc_idle : on_list i x = false;
  rc_thread : c_cb_irq x = false;
}.

(** The channel after a chunk: the last one puts the intent on the queue. *)
Definition after_chunk (x : glink_channel) (i remaining : Z) : glink_channel :=
  if remaining =? 0 then x <| c_rx_queue := c_rx_queue x ++ [i] |> else x.

Definition filled (b : list Z) (off : Z) (payload : list Z) : list Z :=
  take (Z.to_nat off) b ++ payload ++ drop (Z.to_nat off + length payload) b.

Lemma refcount_back x : x <| c_refcount := c_refcount x + 1 |> <| c_refcount := c_refcount x + 1 - 1 |> = x.
Proof. destruct x. cbn. f_equal. lia. Qed.

Lemma write_data_filled p b off payload :
  0 <= off -> off + Z.of_nat (length payload) <= Z.of_nat (length b) ->
  write_data (DBuf p b) off payload = Some (DBuf p (filled b off payload)).
Proof.
  intros H0 Hl. unfold write_data, filled. case_bool_decide as E.
  - subst. cbn. by rewrite Nat.add_0_r, take_drop.
  - by rewrite (proj2 (Z.leb_le 0 off)), (proj2 (Z.leb_le (off + _) _)) by lia.
Qed.

(** The copy, in a state where the reference is held. *)
Lemma rx_data_copy_chunk g sched rcid liid c i x y p b cmd remaining payload pad rest iters :
  receiver g rcid liid c i x y p b ->
  rx_bytes (g_tr g) = data_hdr cmd rcid liid (Z.of_nat (length payload)) remaining ++ payload ++ pad ++ rest ->
  i_offset y + Z.of_nat (length payload) <= i_size y ->
  let x1 := x <| c_refcount := c_refcount x + 1 |> in
  let y1 := y <| i_data := DBuf p (filled b (i_offset y) payload) |>
              <| i_offset := i_offset y + Z.of_nat (length payload) |> in
  rx_data_copy env c i (Z.of_nat (length payload)) remaining iters
    (mk_world (g <| g_channels := <[c := x1]> (g_channels g) |>) sched) =
  Ret tt (mk_world (g <| g_channels := <[c := after_chunk x1 i remaining]> (g_channels g) |>
                      <| g_intents := <[i := y1]> (g_intents g) |>) sched).
Proof.
  intros R Hrx Hfit x1 y1. destruct R. set (n := Z.of_nat (length payload)) in *.
  assert (c_cb_irq x1 = false) as Hcb by done. assert (on_list i x1 = false) as Hidle by done.
  subst y1. clearbody x1. set (w := mk_world _ _). unfold rx_data_copy. rewrite (run_get_intent i y) by done.
  assert (u64 (i_size y - i_offset y) = i_size y - i_offset y) as -> by (apply Z.mod_small; lia).
  rewrite (proj2 (Z.ltb_ge _ _)) by lia.
  pose proof (f_equal length Hrx) as Hlen. rewrite !length_app, length_data_hdr in Hlen.
  rewrite run_peek; [|done|lia|lia|cbn; lia]. cbn [w_st w g_tr set_field]. change (g_tr _) with (g_tr g). rewrite Hrx.
  change (Z.to_nat 16) with 16%nat. rewrite drop_app_length' by (by rewrite length_data_hdr).
  rewrite take_app_length' by lia. rewrite rc_buf0, write_data_filled by lia.
  cbn [or_fault]. rewrite run_ret. rewrite (run_upd_intent i y) by done. rewrite u32_small by lia.
  unfold after_chunk. case_goal; [|done].
  unfold qcom_glink_rx_data_handler. rewrite (run_get_chan c x1) by (cbn; apply lookup_insert_eq).
  rewrite Hcb. cbn [andb].
  unfold rx_data_queue, rx_queue_add_tail. rewrite (run_get_chan c x1) by (cbn; apply lookup_insert_eq).
  rewrite Hidle. unfold set_chan, modify. cbn. by rewrite insert_insert_eq.
Qed.

(** The edge after a chunk. *)
Definition chunk_stored (g : qcom_glink T) (t : T) (c i : Z) (x : glink_channel) (y : glink_core_rx_intent)
    (p : Z) (b : list Z) (remaining : Z) (payload : list Z) : qcom_glink T :=
  g <| g_tr := t |> <| g_channels := <[c := after_chunk x i remaining]> (g_channels g) |>
    <| g_intents := <[i := y <| i_data := DBuf p (filled b (i_offset y) payload) |>
                             <| i_offset := i_offset y + Z.of_nat (length payload) |>]> (g_intents g) |>.

Lemma rx_data_chunk g sched rcid liid c i x y p b cmd remaining payload pad rest iters :
  receiver g rcid liid c i x y p b ->
  0 <= cmd < 2 ^ 16 -> 0 <= rcid < 2 ^ 16 -> 0 <= liid < 2 ^ 32 -> 0 <= remaining < 2 ^ 32 ->
  let pkt := data_hdr cmd rcid liid (Z.of_nat (length payload)) remaining ++ payload in
  rx_bytes (g_tr g) = pkt ++ pad ++ rest -> Z.of_nat (length (pkt ++ pad)) = padded pkt ->
  i_offset y + Z.of_nat (length payload) <= i_size y ->
  exists t', tr_ok t' /\ rx_bytes t' = rest /\ tx_bytes t' = tx_bytes (g_tr g) /\
    qcom_glink_rx_data env (Z.of_nat (length (rx_bytes (g_tr g)))) iters (mk_world g sched) =
    Ret 0 (mk_world (chunk_stored g t' c i x y p b remaining payload) sched).
Proof.
  intros R Hcmd Hrc Hli Hrem pkt Hrx Hpad Hfit. pose proof R as [Ok Hint Hrcid Hchan Href Hliid _ _ _ Hb Hoff _ _].
  set (n := Z.of_nat (length payload)) in *. set (w := mk_world g sched).
  assert (Z.of_nat (length pkt) = 16 + n) as Epk by (subst pkt; rewrite length_app, length_data_hdr; lia).
  pose proof (f_equal length Hrx) as Hlen. rewrite app_assoc, (length_app (pkt ++ pad)) in Hlen.
  unfold padded in Hpad. rewrite Epk in Hpad. pose proof (ALIGN_8_bounds (16 + n)) as An.
  unfold qcom_glink_rx_data. rewrite (proj2 (Z.ltb_ge _ _)) by lia.
  rewrite run_peek; [|done|lia|lia|cbn; lia]. change (g_tr (w_st w)) with (g_tr g).
  change (Z.to_nat 16) with 16%nat. change (Z.to_nat 0) with 0%nat. rewrite drop_0.
  replace (take 16 (rx_bytes (g_tr g))) with (data_hdr cmd rcid liid n remaining ++ [])
    by (rewrite Hrx; subst pkt; rewrite <- !app_assoc, take_app_length', app_nil_r; [done|by rewrite length_data_hdr]).
  destruct (data_hdr_fields cmd rcid liid n remaining []) as (_ & -> & -> & -> & ->); [done..|lia|done|].
  cbv zeta. rewrite (proj2 (Z.ltb_ge _ _)) by lia.
  rewrite (run_ref_get rcid c x) by done.
  set (x1 := x <| c_refcount := c_refcount x + 1 |>). change (w_st w) with g. change (with_st w ?g') with (mk_world g' sched).
  set (g1 := g <| g_channels := <[c := x1]> (g_channels g) |>).
  assert (rx_data_intent env c liid n remaining (mk_world g1 sched) = Ret (TIntent i) (mk_world g1 sched)) as Et.
  { unfold rx_data_intent. rewrite run_gets. rewrite (run_get_chan c x1) by (cbn; apply lookup_insert_eq).
    cbn [w_st g_intentless set_field]. change (g_intentless g1) with (g_intentless g). rewrite Hint.
    unfold idr_find. change (c_liids x1) with (c_liids x). by rewrite Hliid. }
  unfold mbnd at 1. rewrite Et. unfold mbnd at 1.
  assert (rx_bytes (g_tr g) = data_hdr cmd rcid liid n remaining ++ payload ++ pad ++ rest) as Hrx'
    by (rewrite Hrx; subst pkt; by rewrite <- app_assoc).
  pose proof (rx_data_copy_chunk g sched rcid liid c i x y p b cmd remaining payload pad rest iters R Hrx' Hfit) as Ec.
  cbv zeta in Ec. fold n x1 g1 in Ec. rewrite Ec. clear Ec.
  set (y1 := y <| i_data := _ |> <| i_offset := _ |>). set (g2 := g <| g_channels := _ |> <| g_intents := _ |>).
  destruct (run_advance (ALIGN (16 + n) 8) (fun _ => qcom_glink_channel_ref_put (Some c) ;;; mret 0) (mk_world g2 sched))
    as (t' & Ok' & Er & Etx & ->); [done|cbn; lia|apply ALIGN_8_mod|].
  exists t'. split; [done|]. split.
  { rewrite Er. cbn. rewrite Hrx, app_assoc. apply drop_app_length'. lia. }
  split; [done|].
  rewrite (run_ref_put c (after_chunk x1 i remaining)); [|cbn; apply lookup_insert_eq|].
  - unfold with_st, chunk_stored, mret. cbn [w_st w_sched]. do 2 f_equal. unfold g2. cbn. rewrite insert_insert_eq.
    do 2 f_equal. unfold after_chunk. destruct (remaining =? 0); [|apply (refcount_back x)].
    pose proof (refcount_back x) as Hx. destruct x. cbn in *. congruence.
  - unfold after_chunk. destruct (remaining =? 0); cbn; lia.
Qed.

Lemma filled_app b off p1 p2 :
  0 <= off -> off + Z.of_nat (length p1) + Z.of_nat (length p2) <= Z.of_nat (length b) ->
  filled (filled b off p1) (off + Z.of_nat (length p1)) p2 = filled b off (p1 ++ p2).
Proof.
  intros H0 Hl. unfold filled. rewrite (app_assoc (take (Z.to_nat off) b) p1).
  rewrite take_app_length' by (rewrite length_app, length_take; lia).
  rewrite drop_app_ge by (rewrite length_app, length_take; lia).
  rewrite drop_drop, <- !app_assoc. do 4 f_equal. rewrite !length_app, length_take. lia.
Qed.

Lemma length_filled b off payload :
  0 <= off -> off + Z.of_nat (length payload) <= Z.of_nat (length b) -> length (filled b off payload) = length b.
Proof. intros. unfold filled. rewrite !length_app, length_take, length_drop. lia. Qed.

(** A chunk that is not the last leaves the receiver ready for the next. *)
Lemma receiver_next g t rcid liid c i x y p b remaining payload :
  receiver g rcid liid c i x y p b -> remaining <> 0 -> tr_ok t ->
  i_offset y + Z.of_nat (length payload) <= i_size y ->
  receiver (chunk_stored g t c i x y p b remaining payload) rcid liid c i x
    (y <| i_data := DBuf p (filled b (i_offset y) payload) |>
       <| i_offset := i_offset y + Z.of_nat (length payload) |>) p (filled b (i_offset y) payload).
Proof.
  intros [] Hr Ok Hfit. unfold chunk_stored, after_chunk. rewrite (proj2 (Z.eqb_neq _ _)) by done.
  constructor; cbn; try done.
  - by rewrite insert_id.
  - apply lookup_insert_eq.
  - rewrite length_filled; lia.
  - lia.
Qed.

(** A data command is dispatched to the data handler. *)
Lemma dispatch_data cmd p1 p2 avail iters retry (w : world (qcom_glink T)) r w' :
  cmd = GLINK_CMD_TX_DATA \/ cmd = GLINK_CMD_TX_DATA_CONT ->
  qcom_glink_rx_data env avail iters w = Ret r w' ->
  rx_dispatch env cmd p1 p2 avail iters retry w = Ret (Some r) w'.
Proof. intros [-> | ->] E; cbn -[qcom_glink_rx_data]; unfold mbnd; by rewrite E. Qed.

(** One turn of the loop on a data packet. *)
Lemma rx_loop_chunk k msg g sched rcid liid c i x y p b cmd remaining payload pad rest iters :
  receiver g rcid liid c i x y p b ->
  cmd = GLINK_CMD_TX_DATA \/ cmd = GLINK_CMD_TX_DATA_CONT ->
  0 <= rcid < 2 ^ 16 -> 0 <= liid < 2 ^ 32 -> 0 <= remaining < 2 ^ 32 ->
  let pkt := data_hdr cmd rcid liid (Z.of_nat (length payload)) remaining ++ payload in
  rx_bytes (g_tr g) = pkt ++ pad ++ rest -> Z.of_nat (length (pkt ++ pad)) = padded pkt ->
  i_offset y + Z.of_nat (length payload) <= i_size y ->
  exists t' msg', tr_ok t' /\ rx_bytes t' = rest /\ tx_bytes t' = tx_bytes (g_tr g) /\
    rx_loop env (S k) msg iters 0 (mk_world g sched) =
    rx_loop env k msg' (iters + 1) 0 (mk_world (chunk_stored g t' c i x y p b remaining payload) sched).
Proof.
  intros R Hcmd Hrc Hli Hrem pkt Hrx Hpad Hfit. pose proof R as [Ok _ _ _ _ _ _ _ _ Hb Hoff _ _].
  assert (0 <= cmd < 2 ^ 16) as Hc16 by (destruct Hcmd as [-> | ->]; done).
  destruct (rx_data_chunk g sched rcid liid c i x y p b cmd remaining payload pad rest iters R)
    as (t' & Ok' & Er & Et & E); [done..|].
  pose proof (f_equal length Hrx) as Hlen. subst pkt. rewrite !length_app, length_data_hdr in Hlen.
  pose proof (law_rx_bound _ Ok). exists t', (take 8 (rx_bytes (g_tr g))).
  split; [done|]. split; [done|]. split; [done|]. cbn [rx_loop].
  rewrite run_avail by done. cbn [w_st]. rewrite u32_small by lia. cbv zeta.
  unfold sizeof_glink_msg. rewrite (proj2 (Z.ltb_ge _ _)) by lia.
  rewrite run_peek; [|done|lia|lia|cbn; lia]. cbn [w_st]. change (Z.to_nat 0) with 0%nat.
  change (Z.to_nat 8) with 8%nat. rewrite drop_0.
  assert (msg_cmd (take 8 (rx_bytes (g_tr g))) = cmd) as Ec.
  { rewrite Hrx. unfold msg_cmd. rewrite take_take, <- app_assoc.
    by apply (data_hdr_fields cmd rcid liid (Z.of_nat (length payload)) remaining); [done..|lia|]. }
  unfold mbnd at 1. by rewrite Ec, (dispatch_data cmd _ _ _ _ _ _ _ _ Hcmd E).
Qed.

(** The whole message, chunk by chunk. *)
Lemma rx_loop_message rcid liid c i x p wait fuel rest first g sched y b bytes k msg iters :
  receiver g rcid liid c i x y p b -> 0 <= rcid < 2 ^ 16 -> 0 <= liid < 2 ^ 32 ->
  (length rest <= fuel)%nat -> rest <> [] -> i_offset y + Z.of_nat (length rest) <= i_size y ->
  frames (map (chunk_bytes rcid liid) (chunks fuel rest first wait)) bytes -> rx_bytes (g_tr g) = bytes ->
  (length rest < k)%nat ->
  exists t', tr_ok t' /\ rx_bytes t' = [] /\ tx_bytes t' = tx_bytes (g_tr g) /\
    rx_loop env k msg iters 0 (mk_world g sched) =
    Ret tt (mk_world (chunk_stored g t' c i x y p b 0 rest) sched).
Proof.
  revert rest first g y b bytes k msg iters. induction fuel as [|fuel IH];
    intros rest first g y b bytes k msg iters R Hrc Hli Hl Hr Hfit Hf Hrx Hk.
  { destruct rest; [done|cbn in Hl; lia]. }
  rewrite chunks_cons in Hf by done. destruct (chunk_size_bounds rest wait Hr) as [Hs _].
  set (size := chunk_len _ _) in *. cbn [map chunk_bytes] in Hf.
  set (pay := take (Z.to_nat size) rest) in *. set (rest' := drop (Z.to_nat size) rest) in *.
  assert (rest = pay ++ rest') as Erest by (symmetry; apply take_drop).
  assert (Z.of_nat (length pay) = size) as Esz by (subst pay; rewrite length_take; lia).
  assert (Z.of_nat (length rest') = Z.of_nat (length rest) - size) as Esz'
    by (subst rest'; rewrite length_drop; lia).
  pose proof (rc_bound _ _ _ _ _ _ _ _ _ R). pose proof (rc_size _ _ _ _ _ _ _ _ _ R).
  pose proof (rc_offset _ _ _ _ _ _ _ _ _ R).
  inversion Hf as [|pkt pad q bytes' Hp Hf' Eq Eb]; subst q pkt bytes. destruct k as [|k]; [lia|].
  destruct (rx_loop_chunk k msg g sched rcid liid c i x y p b
    (if first then GLINK_CMD_TX_DATA else GLINK_CMD_TX_DATA_CONT) (Z.of_nat (length rest) - size) pay pad bytes' iters R)
    as (t' & msg' & Ok' & Er & Et & ->);
    [by destruct first; [left|right]|done|done|lia|by rewrite <- Eb|done|lia|].
  destruct (decide (rest' = [])) as [Hnil|Hnn].
  - assert (bytes' = []) as ->.
    { rewrite Hnil in Hf'. by destruct fuel; inversion Hf'. }
    assert (pay = rest) as -> by (by rewrite Erest, Hnil, app_nil_r).
    rewrite Hnil in Esz'. cbn in Esz'. rewrite <- Esz'. exists t'. split; [done|]. split; [done|]. split; [done|].
    destruct k as [|k]; [lia|]. cbn [rx_loop]. rewrite run_avail by done. cbn [w_st chunk_stored g_tr set_field].
    change (g_tr _) with t'. by rewrite Er.
  - assert (Z.of_nat (length rest) - size <> 0) as Hrem.
    { rewrite <- Esz'. destruct rest'; [done|cbn; lia]. }
    pose proof (receiver_next g t' rcid liid c i x y p b (Z.of_nat (length rest) - size) pay R Hrem Ok' ltac:(lia)) as R'.
    destruct (IH rest' false _ _ _ bytes' k msg' (iters + 1) R') as (t2 & Ok2 & Er2 & Et2 & ->);
      [done|done|lia|done|cbn; lia|done|done|lia|].
    exists t2. split; [done|]. split; [done|]. split; [by rewrite Et2, <- Et|].
    do 2 f_equal. unfold chunk_stored. cbn. rewrite !insert_insert_eq.
    rewrite filled_app by lia. rewrite <- Erest. do 3 f_equal. lia.
Qed.
End Receive.

(** What the client will be handed from the filled intent is the message. *)
Lemma stored_payload y p b data :
  i_offset y = 0 -> Z.of_nat (length data) <= Z.of_nat (length b) ->
  payload_of (y <| i_data := DBuf p (filled b (i_offset y) data) |>
                <| i_offset := i_offset y + Z.of_nat (length data) |>) = PBytes data.
Proof.
  intros E Hl. destruct y as [d id sz re us ad ack off cb]. cbn in E. subst off.
  unfold payload_of, filled. cbn -[Z.to_nat Z.of_nat take drop Z.add].
  rewrite Z.add_0_l, Nat2Z.id. change (Z.to_nat 0) with 0%nat. rewrite take_0. f_equal.
  apply (take_app_length data).
Qed.

Section Link.
Context {T1 T2 : Type} {Tr1 : Transport T1} {TL1 : TransportLaws T1} {Tr2 : Transport T2}
  {TL2 : TransportLaws T2} {IO : IdrOps} (env : glink_env).

(** A sender that has the room and an announced intent for a message. *)
Record sender_ready (w : world (qcom_glink T1)) (c lcid liid : Z) (x : glink_channel) (data : list Z) (wait : bool) : Prop := {
  sr_inv : tx_inv (w_st w);
  sr_abort : g_abort_tx (w_st w) = false;
  sr_intents : g_intentless (w_st w) = false;
  sr_chan : g_channels (w_st w) !! c = Some x;
  sr_lcid : c_lcid x = lcid;
  sr_live : forall id i, idr_map (c_riids x) !! id = Some i -> is_Some (g_intents (w_st w) !! i);
  sr_some : exists id i y, idr_map (c_riids x) !! id = Some i /\ usable (w_st w) (Z.of_nat (length data)) i y;
  sr_liid : forall id i y, idr_map (c_riids x) !! id = Some i ->
    usable (w_st w) (Z.of_nat (length data)) i y -> i_id y = liid;
  sr_room : queue_size (map (chunk_bytes lcid liid) (chunks (length data) data true wait)) + 16
            <= tx_free (g_tr (w_st w));
}.

Lemma send_writes fuel c lcid liid x data wait w :
  sender_ready w c lcid liid x data wait ->
  exists g', __qcom_glink_send fuel c data wait w = Ret 0 (with_st w g') /\
    tx_inv g' /\ rx_bytes (g_tr g') = rx_bytes (g_tr (w_st w)) /\
    exists bytes, frames (map (chunk_bytes lcid liid) (chunks (length data) data true wait)) bytes /\
      tx_bytes (g_tr g') = tx_bytes (g_tr (w_st w)) ++ bytes.
Proof.
  intros [].
  destruct (acquire_best_fit fuel c (Z.of_nat (length data)) wait w x sr_chan0 sr_live0)
    as [(id & i & y & Hi & Hu & _ & E)|[Hno _]]; cycle 1.
  { destruct sr_some0 as (id & i & y & Hi & Hu). by destruct (Hno id i y Hi). }
  rewrite (send_acquired _ _ _ _ _ _ _ sr_intents0 E), (sr_liid0 id i y Hi Hu).
  destruct (send_chunks_writes (length data) c (Some i) liid data true wait (take_intent w i y) x) as (g' & E' & W);
    [done|done|done|done|by rewrite sr_lcid0|].
  rewrite sr_lcid0 in W. destruct W as [Hi' Hbytes Hrx _]. exists g'. split; [exact E'|]. done.
Qed.

(** C21. A message crosses the link, on an edge with intents: a sender with an
    announced intent of enough size and room in its FIFO for all the packets of
    the message returns 0. When those bytes, put into an empty FIFO, are what the
    other side finds, however many packets they are, one run of the other side's
    interrupt handler consumes them all, leaves the intent filled so that its
    payload is exactly the message, and queues it for the client's thread exactly
    once; nothing else on that side changes. There the intent is idle and empty
    (offset 0) and the channel hands its messages to the thread, not to a
    callback of the interrupt ([sender_ready], [receiver]). An edge without
    intents faults on its second message ([second_intentless_message_faults]). *)
Theorem message_crosses_link (ws : world (qcom_glink T1)) (cs lcid liid : Z) (xs : glink_channel) (data : list Z) (wait : bool)
    (fuel k : nat) (gr : qcom_glink T2) (sched : list (qcom_glink T2 -> qcom_glink T2))
    (c i : Z) (x : glink_channel) (y : glink_core_rx_intent) (p : Z) (b : list Z) :
  sender_ready ws cs lcid liid xs data wait -> tx_bytes (g_tr (w_st ws)) = [] -> data <> [] ->
  receiver gr lcid liid c i x y p b -> i_offset y = 0 -> Z.of_nat (length data) <= i_size y ->
  0 <= lcid < 2 ^ 16 -> 0 <= liid < 2 ^ 32 -> g_should_wake gr = false -> (length data < k)%nat ->
  exists gs', __qcom_glink_send fuel cs data wait ws = Ret 0 (with_st ws gs') /\ tx_inv gs' /\
    (rx_bytes (g_tr gr) = tx_bytes (g_tr gs') ->
     exists t', rx_bytes t' = [] /\ tx_bytes t' = tx_bytes (g_tr gr) /\
       let gr' := chunk_stored gr t' c i x y p b 0 data in
       qcom_glink_native_rx env k (mk_world gr sched) = Ret tt (mk_world gr' sched) /\
       (exists y', g_intents gr' !! i = Some y' /\ payload_of y' = PBytes data) /\
       (exists x', g_channels gr' !! c = Some x' /\ c_rx_queue x' = c_rx_queue x ++ [i])).
Proof.
  intros S Hempty Hne R Hoff Hfit Hlc Hli Hwake Hk.
  destruct (send_writes fuel cs lcid liid xs data wait ws S) as (gs' & E & Hi & _ & bytes & Hf & Hb).
  exists gs'. split; [done|]. split; [done|]. intros Hlink. rewrite Hb, Hempty in Hlink.
  destruct (rx_loop_message env lcid liid c i x p wait (length data) data true gr sched y b bytes k
    (env_uninit env 8) 0 R) as (t' & _ & Er & Et & Eloop); [done|done|done|done|lia|done|done|done|].
  exists t'. split; [done|]. split; [done|]. cbv zeta. split; [|split].
  - unfold qcom_glink_native_rx. rewrite run_gets. cbn [w_st]. rewrite Hwake, run_ret. exact Eloop.
  - eexists. split; [cbn; apply lookup_insert_eq|]. apply stored_payload; [done|].
    rewrite (rc_size _ _ _ _ _ _ _ _ _ R). done.
  - eexists. split; [cbn; apply lookup_insert_eq|]. done.
Qed.
End Link.
