(* ===== verification/GlinkOpen.v ===== *)
(** * GLINK: opening channels

    A channel opened from this side ([qcom_glink_create_local]) waits for the
    remote side's acknowledgement and then for the remote side's own open
    request. The open request is handled by [qcom_glink_rx_open], which looks
    for the channel among those the remote side has opened already. The theorem
    of this file is that this never finds it: whatever the other threads and the
    remote side do meanwhile, a local open ends with an error. *)
From stdpp Require Import prelude gmap list sorting.
From S2P Require Import Prelude.
From S2P Require Import Effects.
From S2P Require Import GlinkTransport.
From S2P Require Import Glink.
From S2P Require Import GlinkTx.
From S2P Require Import GlinkData.
#[local] Open Scope kernel_scope.

Section Keeps.
Context {T : Type} {Tr : Transport T} {IO : IdrOps} (env : glink_env) (c0 : Z).

(** [c0] is an address in use, not in the table of channels that the remote side
    opened, and its open request is not complete. *)
Record unanswered (g : qcom_glink T) : Prop := {
  un_rcids : forall id, idr_map (g_rcids g) !! id <> Some c0;
  un_req : forall x, g_channels g !! c0 = Some x -> c_open_req x = false;
  un_addr : c0 < Z.of_nat (g_allocs g) + 32;
}.

Definition unanswered_w (w : world (qcom_glink T)) : Prop :=
  unanswered (w_st w) /\ Forall (fun f => forall g, unanswered g -> unanswered (f g)) (w_sched w).

(** [m] keeps it so, and its value satisfies [P]. *)
Definition keeps {A : Type} (P : A -> Prop) (m : M (qcom_glink T) A) : Prop := forall w, unanswered_w w ->
  match m w with
  | Ret a w' => P a /\ unanswered_w w'
  | _ => True
  end.

Lemma keeps_ret {A : Type} (P : A -> Prop) a : P a -> keeps P (mret a).
Proof. by intros HP w Hw. Qed.

Lemma keeps_fault {A : Type} (P : A -> Prop) : keeps P fault.
Proof. by intros w Hw. Qed.

Lemma keeps_nofuel {A : Type} (P : A -> Prop) : keeps P (fun _ => NoFuel).
Proof. by intros w Hw. Qed.

Lemma keeps_bind {A B : Type} (P : A -> Prop) (Q : B -> Prop) (c : M (qcom_glink T) A) (k : A -> M (qcom_glink T) B) :
  keeps P c -> (forall a, P a -> keeps Q (k a)) -> keeps Q (mbnd c k).
Proof.
  intros Hc Hk w Hw. unfold mbnd. specialize (Hc w Hw). destruct (c w) as [a w1| | |]; [|done..].
  destruct Hc as [HP Hw1]. exact (Hk a HP w1 Hw1).
Qed.

Lemma keeps_weaken {A : Type} (P Q : A -> Prop) m : keeps P m -> (forall a, P a -> Q a) -> keeps Q m.
Proof.
  intros Hm Himp w Hw. specialize (Hm w Hw). destruct (m w); [|done..]. destruct Hm. auto.
Qed.

Lemma keeps_gets {A : Type} (P : A -> Prop) (f : qcom_glink T -> A) :
  (forall g, unanswered g -> P (f g)) -> keeps P (gets f).
Proof. intros Hf w [Hw Hs]. cbn. split; [by apply Hf|]. by split. Qed.

Lemma keeps_modify (f : qcom_glink T -> qcom_glink T) :
  (forall g, unanswered g -> unanswered (f g)) -> keeps (fun _ => True) (modify f).
Proof. intros Hf w [Hw Hs]. cbn. split; [done|]. by split; [apply Hf|]. Qed.

Lemma keeps_or_fault {A : Type} (P : A -> Prop) (o : option A) :
  (forall a, o = Some a -> P a) -> keeps P (or_fault o).
Proof. intros Ho. destruct o; [by apply keeps_ret, Ho|apply keeps_fault]. Qed.

Lemma keeps_sleep : keeps (fun _ => True) sleep.
Proof.
  intros w [Hw Hs]. unfold sleep. destruct (w_sched w) as [|f sched] eqn:E; [done|].
  apply Forall_cons in Hs as [Hf Hs]. split; [done|]. by split; [apply Hf|].
Qed.

Lemma keeps_for_each {A : Type} (l : list A) (f : A -> M (qcom_glink T) unit) :
  (forall a, keeps (fun _ => True) (f a)) -> keeps (fun _ => True) (for_each l f).
Proof.
  intros Hf. induction l; cbn; [by apply keeps_ret|]. eapply keeps_bind; [apply Hf|]. by intros _ _.
Qed.

(** A channel, if it is [c0], has no answer yet. *)
Definition chan_ok (c : Z) (x : glink_channel) : Prop := c = c0 -> c_open_req x = false.

Lemma keeps_get_chan c : keeps (chan_ok c) (get_chan c).
Proof.
  unfold get_chan. eapply keeps_bind; [apply (keeps_gets (fun o => forall x, o = Some x -> chan_ok c x))|].
  - intros g [_ Hr _] x E ->. by apply Hr.
  - intros o Ho. apply keeps_or_fault. exact Ho.
Qed.

Lemma keeps_set_chan c x : chan_ok c x -> keeps (fun _ => True) (set_chan c x).
Proof.
  intros Hx. apply keeps_modify. intros g []. constructor; cbn; [done| |done].
  intros y. destruct (decide (c = c0)) as [->|Hne].
  - rewrite lookup_insert_eq. intros [= <-]. by apply Hx.
  - rewrite lookup_insert_ne by done. apply un_req0.
Qed.

Lemma keeps_upd_chan c f :
  (forall x, chan_ok c x -> chan_ok c (f x)) -> keeps (fun _ => True) (upd_chan c f).
Proof. intros Hf. eapply keeps_bind; [apply keeps_get_chan|]. intros x Hx. by apply keeps_set_chan, Hf. Qed.

Lemma keeps_upd_chan_ne c f : c <> c0 -> keeps (fun _ => True) (upd_chan c f).
Proof. intros Hne. apply keeps_upd_chan. by intros x _ ->. Qed.

(** A fresh address is another one. *)
Lemma keeps_kmalloc : keeps (fun o => forall p, o = Some p -> p <> c0) (kmalloc env).
Proof.
  intros w [[Hr Hq Ha] Hs]. unfold kmalloc, mbnd. cbn. split.
  - intros p. case_goal; [|done]. intros [= <-]. lia.
  - split; [|done]. constructor; cbn; [done|done|lia].
Qed.

(** The first channel of a name in the table is another one. *)
Lemma keeps_find_name l name :
  (forall e, e ∈ l -> e.2 <> c0) -> keeps (fun o => forall c, o = Some c -> c <> c0) (find_name l name).
Proof.
  induction l as [|[id c] l IH]; intros Hl; cbn [find_name]; [by apply keeps_ret|].
  eapply keeps_bind; [apply keeps_get_chan|]. intros x _. case_goal.
  - apply keeps_ret. intros ? [= <-]. apply (Hl (id, c)). constructor.
  - apply IH. intros e He. apply Hl. by constructor.
Qed.

End Keeps.

Create HintDb keeps.
#[export] Hint Resolve keeps_fault keeps_nofuel keeps_sleep keeps_get_chan : keeps.

(** Walks over a computation. Values are only tracked for channels. *)
Ltac keeps_step :=
  match goal with
  | |- forall _, _ => intros ?
  | |- keeps _ _ (mret _) => apply keeps_ret; done
  | |- keeps _ (fun _ => True) _ => solve [eauto with keeps]
  | |- keeps _ _ (mbnd (get_chan _) _) => eapply keeps_bind; [apply keeps_get_chan|]
  | |- keeps _ _ (mbnd _ _) => eapply (keeps_bind _ (fun _ => True))
  | |- keeps _ _ (set_chan _ _) => apply keeps_set_chan; (assumption || done)
  | |- keeps _ _ (upd_chan _ _) => apply keeps_upd_chan; intros ? ?; (assumption || done)
  | |- keeps _ _ (gets _) => apply keeps_gets; done
  | |- keeps _ _ (modify _) => apply keeps_modify; intros ? []; constructor; done
  | |- keeps _ _ (emit _) => apply keeps_modify; intros ? []; constructor; done
  | |- keeps _ _ (or_fault _) => apply keeps_or_fault; done
  | |- keeps _ _ (for_each _ _) => apply keeps_for_each
  | |- keeps _ _ (let _ := _ in _) => cbv zeta
  | |- keeps _ _ (if ?b then _ else _) => destruct b
  | |- keeps _ _ (match ?x with _ => _ end) => destruct x
  end.

Ltac keeps_tac := repeat keeps_step.

Section Ops.
Context {T : Type} {Tr : Transport T} {IO : IdrOps} (env : glink_env) (c0 : Z).

Abbreviation keeps_val := (keeps (T := T) c0).
Abbreviation keeps := (keeps_val (fun _ => True)).

Lemma keeps_kmalloc_any : keeps (kmalloc env).
Proof. eapply keeps_weaken; [apply keeps_kmalloc|done]. Qed.

Lemma keeps_get_intent i : keeps (get_intent i).
Proof. unfold get_intent. keeps_tac. Qed.

Lemma keeps_set_intent i x : keeps (set_intent i x).
Proof. unfold set_intent. keeps_tac. Qed.

#[local] Hint Resolve keeps_kmalloc_any keeps_get_intent keeps_set_intent : keeps.

Lemma keeps_upd_intent i f : keeps (upd_intent i f).
Proof. unfold upd_intent. keeps_tac. Qed.

Lemma keeps_kmalloc_buf size fill : keeps (kmalloc_buf env size fill).
Proof. unfold kmalloc_buf. keeps_tac. Qed.

Lemma keeps_kfree_data i : keeps (kfree_data i).
Proof. unfold kfree_data. keeps_tac. Qed.

Lemma keeps_kfree_intent i : keeps (kfree_intent i).
Proof. unfold kfree_intent. keeps_tac. Qed.

Lemma keeps_rx_queue_add_tail c i : keeps (rx_queue_add_tail c i).
Proof. unfold rx_queue_add_tail. keeps_tac. Qed.

Lemma keeps_rx_queue_add c i : keeps (rx_queue_add c i).
Proof. unfold rx_queue_add. keeps_tac. Qed.

Lemma keeps_defer_add_tail c i : keeps (defer_add_tail c i).
Proof. unfold defer_add_tail. keeps_tac. Qed.

Lemma keeps_defer_del c i : keeps (defer_del c i).
Proof. unfold defer_del. keeps_tac. Qed.

#[local] Hint Resolve keeps_upd_intent keeps_kmalloc_buf keeps_kfree_data keeps_kfree_intent keeps_rx_queue_add_tail keeps_rx_queue_add keeps_defer_add_tail keeps_defer_del : keeps.

Lemma keeps_release_intent i : keeps (release_intent i).
Proof. unfold release_intent. keeps_tac. Qed.

#[local] Hint Resolve keeps_release_intent : keeps.

(** The address of a channel that is released leaves the heap. *)
Lemma keeps_delete_chan c : keeps (modify (fun g => g <| g_channels := delete c (g_channels g) |>)).
Proof.
  apply keeps_modify. intros g []. constructor; [done| |done]. cbn. intros x E.
  apply un_req0. by apply lookup_delete_Some in E as [_ ?].
Qed.

#[local] Hint Resolve keeps_delete_chan : keeps.

Lemma keeps_channel_release c : keeps (qcom_glink_channel_release c).
Proof. unfold qcom_glink_channel_release. keeps_tac. Qed.

#[local] Hint Resolve keeps_channel_release : keeps.

Lemma keeps_kref_get c : keeps (kref_get c).
Proof. unfold kref_get. keeps_tac. Qed.

Lemma keeps_kref_put c : keeps (kref_put c).
Proof. unfold kref_put. keeps_tac. Qed.

#[local] Hint Resolve keeps_kref_get keeps_kref_put : keeps.

Lemma keeps_ref_get remote cid : keeps (qcom_glink_channel_ref_get remote cid).
Proof. unfold qcom_glink_channel_ref_get. keeps_tac. Qed.

Lemma keeps_ref_put ch : keeps (qcom_glink_channel_ref_put ch).
Proof. unfold qcom_glink_channel_ref_put. keeps_tac. Qed.

Lemma keeps_rx_avail : keeps (qcom_glink_rx_avail).
Proof. unfold qcom_glink_rx_avail, set_tr. keeps_tac. Qed.

Lemma keeps_rx_peek d o n : keeps (qcom_glink_rx_peek d o n).
Proof. unfold qcom_glink_rx_peek. keeps_tac. Qed.

Lemma keeps_rx_advance n : keeps (qcom_glink_rx_advance n).
Proof. unfold qcom_glink_rx_advance, set_tr. keeps_tac. Qed.

Lemma keeps_tx_write hdr data : keeps (qcom_glink_tx_write hdr data).
Proof. unfold qcom_glink_tx_write, set_tr. keeps_tac. Qed.

Lemma keeps_tx_kick : keeps (qcom_glink_tx_kick).
Proof. unfold qcom_glink_tx_kick. keeps_tac. Qed.

#[local] Hint Resolve keeps_ref_get keeps_ref_put keeps_rx_avail keeps_rx_peek keeps_rx_advance keeps_tx_write keeps_tx_kick : keeps.

Lemma keeps_send_read_notify : keeps (qcom_glink_send_read_notify).
Proof. unfold qcom_glink_send_read_notify. keeps_tac. Qed.

#[local] Hint Resolve keeps_send_read_notify : keeps.

Lemma keeps_tx_attempt hdr data tlen wait : keeps (tx_attempt hdr data tlen wait).
Proof. unfold tx_attempt. keeps_tac. Qed.

Lemma keeps_tx_wake tlen : keeps (tx_wake tlen).
Proof. unfold tx_wake. keeps_tac. Qed.

#[local] Hint Resolve keeps_tx_attempt keeps_tx_wake : keeps.

Lemma keeps_tx_loop fuel hdr data tlen wait : keeps (tx_loop fuel hdr data tlen wait).
Proof. induction fuel; cbn [tx_loop]; keeps_tac. Qed.

#[local] Hint Resolve keeps_tx_loop : keeps.

Lemma keeps_tx hdr data wait : keeps (qcom_glink_tx hdr data wait).
Proof. intros w Hw. unfold qcom_glink_tx. cbv zeta. case_goal; [done|]. case_goal; [done|]. by apply keeps_tx_loop. Qed.

#[local] Hint Resolve keeps_tx : keeps.

Lemma keeps_send_version : keeps (qcom_glink_send_version).
Proof. unfold qcom_glink_send_version. keeps_tac. Qed.

Lemma keeps_send_version_ack : keeps (qcom_glink_send_version_ack).
Proof. unfold qcom_glink_send_version_ack. keeps_tac. Qed.

Lemma keeps_send_open_ack c : keeps (qcom_glink_send_open_ack c).
Proof. unfold qcom_glink_send_open_ack. keeps_tac. Qed.

Lemma keeps_alloc_lcid c : keeps (alloc_lcid c).
Proof. unfold alloc_lcid. keeps_tac. Qed.

Lemma keeps_send_close_req c : keeps (qcom_glink_send_close_req c).
Proof. unfold qcom_glink_send_close_req. keeps_tac. Qed.

Lemma keeps_send_close_ack c : keeps (qcom_glink_send_close_ack c).
Proof. unfold qcom_glink_send_close_ack. keeps_tac. Qed.

Lemma keeps_send_rx_done c i wait : keeps (qcom_glink_send_rx_done c i wait).
Proof. unfold qcom_glink_send_rx_done. keeps_tac. Qed.

Lemma keeps_rx_done_supported : keeps (qcom_glink_rx_done_supported).
Proof. unfold qcom_glink_rx_done_supported. keeps_tac. Qed.

#[local] Hint Resolve keeps_send_version keeps_send_version_ack keeps_send_open_ack keeps_alloc_lcid keeps_send_close_req keeps_send_close_ack keeps_send_rx_done keeps_rx_done_supported : keeps.

Lemma keeps_send_open_req c : keeps (qcom_glink_send_open_req env c).
Proof. unfold qcom_glink_send_open_req. keeps_tac. Qed.

Lemma keeps_rx_done_intent c i wait : keeps (__qcom_glink_rx_done c i wait).
Proof. unfold __qcom_glink_rx_done. keeps_tac. Qed.

Lemma keeps_find_deferred l data : keeps (find_deferred l data).
Proof. induction l; cbn [find_deferred]; keeps_tac. Qed.

#[local] Hint Resolve keeps_send_open_req keeps_rx_done_intent keeps_find_deferred : keeps.

Lemma keeps_rx_done c data : keeps (qcom_glink_rx_done c data).
Proof. unfold qcom_glink_rx_done. keeps_tac. Qed.

Lemma keeps_receive_version v f : keeps (qcom_glink_receive_version v f).
Proof. unfold qcom_glink_receive_version. keeps_tac. Qed.

Lemma keeps_receive_version_ack v f : keeps (qcom_glink_receive_version_ack v f).
Proof. unfold qcom_glink_receive_version_ack. keeps_tac. Qed.

Lemma keeps_send_intent_req_ack c granted : keeps (qcom_glink_send_intent_req_ack c granted).
Proof. unfold qcom_glink_send_intent_req_ack. keeps_tac. Qed.

Lemma keeps_advertise_intent c i : keeps (qcom_glink_advertise_intent c i).
Proof. unfold qcom_glink_advertise_intent. keeps_tac. Qed.

Lemma keeps_queue_rx_intent_alloc c size reuse ack : keeps (qcom_glink_queue_rx_intent_alloc env c size reuse ack).
Proof. unfold qcom_glink_queue_rx_intent_alloc. keeps_tac. Qed.

#[local] Hint Resolve keeps_rx_done keeps_receive_version keeps_receive_version_ack keeps_send_intent_req_ack keeps_advertise_intent keeps_queue_rx_intent_alloc : keeps.

Lemma keeps_alloc_intent_data c i : keeps (qcom_glink_alloc_intent_data env c i).
Proof. unfold qcom_glink_alloc_intent_data. keeps_tac. Qed.

Lemma keeps_handle_intent_req_ack cid granted : keeps (qcom_glink_handle_intent_req_ack cid granted).
Proof. unfold qcom_glink_handle_intent_req_ack. keeps_tac. Qed.

Lemma keeps_handle_rx_done cid iid reuse : keeps (qcom_glink_handle_rx_done cid iid reuse).
Proof. unfold qcom_glink_handle_rx_done. keeps_tac. Qed.

Lemma keeps_rx_defer extra : keeps (qcom_glink_rx_defer env extra).
Proof. unfold qcom_glink_rx_defer. keeps_tac. Qed.

Lemma keeps_deliver c i : keeps (deliver env c i).
Proof. unfold deliver. keeps_tac. Qed.

Lemma keeps_is_wakeup reset : keeps (qcom_glink_is_wakeup reset).
Proof. unfold qcom_glink_is_wakeup. keeps_tac. Qed.

#[local] Hint Resolve keeps_alloc_intent_data keeps_handle_intent_req_ack keeps_handle_rx_done keeps_rx_defer keeps_deliver keeps_is_wakeup : keeps.

Lemma keeps_rx_data_handler c i iters : keeps (qcom_glink_rx_data_handler env c i iters).
Proof. unfold qcom_glink_rx_data_handler, rx_data_queue. keeps_tac. Qed.

Lemma keeps_rx_data_intent c liid n l : keeps (rx_data_intent env c liid n l).
Proof. unfold rx_data_intent. keeps_tac. Qed.

#[local] Hint Resolve keeps_rx_data_handler keeps_rx_data_intent : keeps.

Lemma keeps_rx_data_copy c i n l iters : keeps (rx_data_copy env c i n l iters).
Proof. unfold rx_data_copy. keeps_tac. Qed.

#[local] Hint Resolve keeps_rx_data_copy : keeps.

Lemma keeps_rx_data avail iters : keeps (qcom_glink_rx_data env avail iters).
Proof. unfold qcom_glink_rx_data. keeps_tac. Qed.

Lemma keeps_rx_data_zero_copy avail : keeps (qcom_glink_rx_data_zero_copy env avail).
Proof. unfold qcom_glink_rx_data_zero_copy. keeps_tac. Qed.

Lemma keeps_rx_read_notif : keeps (qcom_glink_rx_read_notif).
Proof. unfold qcom_glink_rx_read_notif. keeps_tac. Qed.

Lemma keeps_store_intents c pairs : keeps (store_intents env c pairs).
Proof. induction pairs as [|[size iid] pairs IH]; cbn [store_intents]; keeps_tac. Qed.

#[local] Hint Resolve keeps_rx_data keeps_rx_data_zero_copy keeps_rx_read_notif keeps_store_intents : keeps.

Lemma keeps_handle_intent cid count avail : keeps (qcom_glink_handle_intent env cid count avail).
Proof. unfold qcom_glink_handle_intent. keeps_tac. Qed.

Lemma keeps_rx_open_ack lcid : keeps (qcom_glink_rx_open_ack lcid).
Proof. unfold qcom_glink_rx_open_ack. keeps_tac. Qed.

Lemma keeps_handle_signals rcid signals : keeps (qcom_glink_handle_signals rcid signals).
Proof. unfold qcom_glink_handle_signals. keeps_tac. Qed.

#[local] Hint Resolve keeps_handle_intent keeps_rx_open_ack keeps_handle_signals : keeps.

Lemma keeps_rx_dispatch cmd p1 p2 avail iters retry : keeps (rx_dispatch env cmd p1 p2 avail iters retry).
Proof. unfold rx_dispatch. keeps_tac. Qed.

#[local] Hint Resolve keeps_rx_dispatch : keeps.

Lemma keeps_rx_loop fuel msg iters retry : keeps (rx_loop env fuel msg iters retry).
Proof. revert msg iters retry. induction fuel; intros; cbn [rx_loop]; keeps_tac. Qed.

#[local] Hint Resolve keeps_rx_loop : keeps.

Lemma keeps_native_rx fuel : keeps (qcom_glink_native_rx env fuel).
Proof. unfold qcom_glink_native_rx. keeps_tac. Qed.

#[local] Hint Resolve keeps_native_rx : keeps.

(** The table of channels the remote side opened only loses entries, or gets
    another channel. *)
Lemma keeps_remove_rcid id : keeps (modify (fun g => g <| g_rcids := idr_remove (g_rcids g) id |>)).
Proof.
  apply keeps_modify. intros g []. constructor; [|done|done]. cbn. intros id' E.
  apply lookup_delete_Some in E as [_ E]. by apply (un_rcids0 id').
Qed.

Lemma keeps_insert_rcid id c :
  c <> c0 -> keeps (modify (fun g => g <| g_rcids := idr_insert (g_rcids g) id c |>)).
Proof.
  intros Hne. apply keeps_modify. intros g []. constructor; [|done|done]. cbn. intros id' E.
  apply lookup_insert_Some in E as [[_ ->]|[_ E]]; [done|]. by apply (un_rcids0 id').
Qed.

#[local] Hint Resolve keeps_remove_rcid : keeps.

Lemma keeps_alloc_channel name :
  keeps_val (fun r => forall c, r = Ok c -> c <> c0) (qcom_glink_alloc_channel env name).
Proof.
  unfold qcom_glink_alloc_channel. eapply keeps_bind; [apply keeps_kmalloc|]. intros [p|] Hp; [|by apply keeps_ret].
  eapply keeps_bind; [apply keeps_kmalloc_any|]. intros [q|] _; [|by apply keeps_ret].
  eapply keeps_bind; [by apply keeps_set_chan|]. intros _ _. apply keeps_ret. intros c [= <-]. by apply Hp.
Qed.

(** The channel an open request is for: one the remote side opened before, or a
    new one; never [c0]. *)
Lemma keeps_rx_open rcid name : keeps (qcom_glink_rx_open env rcid name).
Proof.
  unfold qcom_glink_rx_open. eapply keeps_bind.
  { apply (keeps_gets c0 (fun t => forall id, idr_map t !! id <> Some c0)). by intros g []. }
  intros t Ht. eapply keeps_bind.
  { apply keeps_find_name. intros e He E. apply idr_entries_elem in He. rewrite E in He. by apply (Ht e.1). }
  intros o Ho. eapply (keeps_bind _ (fun r => forall c b, r = Ok (c, b) -> c <> c0)).
  { destruct o as [c|]; [apply keeps_ret; intros ? ? [= <- <-]; by apply Ho|].
    eapply keeps_bind; [apply keeps_alloc_channel|]. intros [c|e] Hc; apply keeps_ret; [|done].
    intros ? ? [= <- <-]. by apply Hc. }
  intros [[c b]|e] Hc; [|by apply keeps_ret]. specialize (Hc c b eq_refl). cbv zeta.
  eapply (keeps_bind _ (fun _ => True)); [keeps_tac|]. intros t' _.
  destruct (idr_pick _ _ _) as [id|e]; [|keeps_tac].
  eapply keeps_bind; [by apply keeps_insert_rcid|]. intros _ _.
  eapply keeps_bind; [by apply keeps_upd_chan_ne|]. intros _ _.
  eapply keeps_bind; [by apply keeps_upd_chan_ne|]. intros _ _. keeps_tac.
Qed.

#[local] Hint Resolve keeps_rx_open : keeps.

Lemma keeps_rx_close rcid : keeps (qcom_glink_rx_close rcid).
Proof. unfold qcom_glink_rx_close. keeps_tac. Qed.

Lemma keeps_rx_close_ack lcid : keeps (qcom_glink_rx_close_ack lcid).
Proof. unfold qcom_glink_rx_close_ack. keeps_tac. Qed.

Lemma keeps_find_reusable l size : keeps (find_reusable l size).
Proof. induction l as [|[? ?] l IH]; cbn [find_reusable]; keeps_tac. Qed.

#[local] Hint Resolve keeps_rx_close keeps_rx_close_ack keeps_find_reusable : keeps.

Lemma keeps_handle_intent_req cid size : keeps (qcom_glink_handle_intent_req env cid size).
Proof. unfold qcom_glink_handle_intent_req. keeps_tac. Qed.

#[local] Hint Resolve keeps_handle_intent_req : keeps.

Lemma keeps_work_dispatch dcmd : keeps (work_dispatch env dcmd).
Proof. unfold work_dispatch. keeps_tac. Qed.

#[local] Hint Resolve keeps_work_dispatch : keeps.

Lemma keeps_work fuel : keeps (qcom_glink_work env fuel).
Proof. induction fuel; cbn [qcom_glink_work]; keeps_tac. Qed.

Lemma keeps_rx_thread_message c i : keeps (rx_thread_message env c i).
Proof. unfold rx_thread_message. keeps_tac. Qed.

Lemma keeps_rx_thread_alloc c i : keeps (rx_thread_alloc env c i).
Proof. unfold rx_thread_alloc. keeps_tac. Qed.

#[local] Hint Resolve keeps_work keeps_rx_thread_message keeps_rx_thread_alloc : keeps.

Lemma keeps_rx_thread c : keeps (qcom_glink_rx_thread env c).
Proof. unfold qcom_glink_rx_thread. keeps_tac. Qed.

Lemma keeps_request_intent c size : keeps (qcom_glink_request_intent c size).
Proof. unfold qcom_glink_request_intent. keeps_tac. Qed.

Lemma keeps_pick_intent l len best : keeps (pick_intent l len best).
Proof. revert best. induction l as [|[? ?] l IH]; intros; cbn [pick_intent]; keeps_tac. Qed.

#[local] Hint Resolve keeps_rx_thread keeps_request_intent keeps_pick_intent : keeps.

Lemma keeps_acquire_intent fuel c len wait : keeps (acquire_intent fuel c len wait).
Proof. induction fuel; cbn [acquire_intent]; keeps_tac. Qed.

Lemma keeps_send_chunks fuel c i iid rest first wait : keeps (send_chunks fuel c i iid rest first wait).
Proof. revert rest first. induction fuel; intros rest first; destruct rest; cbn [send_chunks]; keeps_tac. Qed.

#[local] Hint Resolve keeps_acquire_intent keeps_send_chunks : keeps.

Lemma keeps_send fuel c data wait : keeps (__qcom_glink_send fuel c data wait).
Proof. unfold __qcom_glink_send. keeps_tac. Qed.

Lemma keeps_serve_pending fuel c id : keeps (serve_pending fuel c id).
Proof. revert id. induction fuel; intros; cbn [serve_pending]; keeps_tac. Qed.

#[local] Hint Resolve keeps_send keeps_serve_pending : keeps.

Lemma keeps_announce_create fuel c : keeps (qcom_glink_announce_create env fuel c).
Proof. unfold qcom_glink_announce_create. keeps_tac. Qed.

Lemma keeps_destroy_ept c : keeps (qcom_glink_destroy_ept c).
Proof. unfold qcom_glink_destroy_ept. keeps_tac. Qed.

Lemma keeps_set_signals c s cl : keeps (qcom_glink_set_signals c s cl).
Proof. unfold qcom_glink_set_signals, qcom_glink_send_signals. keeps_tac. Qed.

Lemma keeps_set_flow_control c pause : keeps (qcom_glink_set_flow_control c pause).
Proof. unfold qcom_glink_set_flow_control. keeps_tac. Qed.

Lemma keeps_early_ssr : keeps (qcom_glink_early_ssr_notify).
Proof. unfold qcom_glink_early_ssr_notify. keeps_tac. Qed.

Lemma keeps_wait_completion c done : keeps (wait_completion c done).
Proof. unfold wait_completion. keeps_tac. Qed.

Lemma keeps_release_local c : keeps (release_local c).
Proof. unfold release_local. keeps_tac. Qed.

#[local] Hint Resolve keeps_announce_create keeps_destroy_ept keeps_set_signals keeps_set_flow_control keeps_early_ssr keeps_wait_completion keeps_release_local : keeps.

Lemma keeps_create_remote c : keeps (qcom_glink_create_remote env c).
Proof. unfold qcom_glink_create_remote. keeps_tac. Qed.

#[local] Hint Resolve keeps_create_remote : keeps.

(** A channel that is not answered is waited for in vain. *)
Lemma keeps_wait_req : keeps_val (fun b => b = false) (wait_completion c0 c_open_req).
Proof.
  unfold wait_completion. eapply keeps_bind; [apply keeps_get_chan|]. intros x Hx. rewrite (Hx eq_refl).
  eapply keeps_bind; [apply keeps_sleep|]. intros _ _.
  eapply keeps_bind; [apply keeps_get_chan|]. intros y Hy. by apply keeps_ret, Hy.
Qed.

(** The end of a local open. *)
Definition not_opened (r : result Z) : Prop := r = Err (- ETIMEDOUT).

Lemma keeps_release_err c : keeps_val not_opened (release_local c).
Proof.
  unfold release_local. eapply keeps_bind; [apply keeps_kref_put|]. intros _ _.
  eapply keeps_bind; [apply keeps_kref_put|]. intros _ _. by apply keeps_ret.
Qed.

Lemma keeps_open_wait :
  keeps_val not_opened
    (let err_timeout :=
       x <-- get_chan c0 ;;;
       modify (fun g => g <| g_lcids := idr_remove (g_lcids g) (c_lcid x) |>) ;;;
       release_local c0 in
     ret <-- qcom_glink_send_open_req env c0 ;;;
     if truth ret then release_local c0
     else
       ack <-- wait_completion c0 c_open_ack ;;;
       if negb ack then err_timeout
       else
         req <-- wait_completion c0 c_open_req ;;;
         if negb req then err_timeout else mret (Ok c0)).
Proof.
  cbv zeta.
  assert (keeps_val not_opened (x <-- get_chan c0 ;;;
    modify (fun g => g <| g_lcids := idr_remove (g_lcids g) (c_lcid x) |>) ;;; release_local c0)) as Herr.
  { eapply keeps_bind; [apply keeps_get_chan|]. intros x _.
    eapply (keeps_bind _ (fun _ => True)); [keeps_tac|]. intros _ _. apply keeps_release_err. }
  eapply keeps_bind; [apply keeps_send_open_req|]. intros ret _. case_goal; [apply keeps_release_err|].
  eapply keeps_bind; [apply keeps_wait_completion|]. intros ack _. case_goal; [done|].
  eapply keeps_bind; [apply keeps_wait_req|]. by intros req ->.
Qed.

End Ops.

(** ** What may run while a thread sleeps *)

Section Turns.
Context {T : Type} {Tr : Transport T} {IO : IdrOps} (env : glink_env).

(** The entry points of the driver. *)
Inductive driver_op : M (qcom_glink T) unit -> Prop :=
| op_irq fuel : driver_op (qcom_glink_native_rx env fuel)
| op_work fuel : driver_op (qcom_glink_work env fuel)
| op_thread c : driver_op (qcom_glink_rx_thread env c)
| op_send fuel c data wait : driver_op (__qcom_glink_send fuel c data wait ;;; mret tt)
| op_rx_done c data : driver_op (qcom_glink_rx_done c data ;;; mret tt)
| op_create_remote c : driver_op (qcom_glink_create_remote env c ;;; mret tt)
| op_announce fuel c : driver_op (qcom_glink_announce_create env fuel c ;;; mret tt)
| op_destroy c : driver_op (qcom_glink_destroy_ept c)
| op_signals c set clear : driver_op (qcom_glink_set_signals c set clear ;;; mret tt)
| op_flow c pause : driver_op (qcom_glink_set_flow_control c pause ;;; mret tt)
| op_ssr : driver_op qcom_glink_early_ssr_notify.

(** The remote side changes the pipes; a thread runs an entry point, during
    whose sleeps others run in turn, nested at most [n] deep. *)
#[warnings="-register-all"]
Inductive driver_turn : nat -> (qcom_glink T -> qcom_glink T) -> Prop :=
| turn_remote n t : driver_turn n (fun g => g <| g_tr := t |>)
| turn_op n m sched :
    driver_op m -> Forall (driver_turn n) sched ->
    driver_turn (S n) (fun g => match m (mk_world g sched) with Ret _ w => w_st w | _ => g end).

Lemma driver_op_keeps c0 m : driver_op m -> keeps c0 (fun _ => True) m.
Proof.
  intros []; try (eapply (keeps_bind _ (fun _ => True)); [|intros; by apply keeps_ret]);
    auto using keeps_native_rx, keeps_work, keeps_rx_thread, keeps_send, keeps_rx_done, keeps_create_remote,
      keeps_announce_create, keeps_destroy_ept, keeps_set_signals, keeps_set_flow_control, keeps_early_ssr.
Qed.

Lemma driver_turn_keeps c0 n f g : driver_turn n f -> unanswered c0 g -> unanswered c0 (f g).
Proof.
  revert f g. induction n as [|n IH]; intros f g Hf Hg; inversion Hf as [? t|? m sched Hm Hs]; subst;
    try (destruct Hg; by constructor).
  assert (unanswered_w c0 (mk_world g sched)) as Hw.
  { split; [done|]. eapply Forall_impl; [exact Hs|]. eauto. }
  pose proof (driver_op_keeps c0 m Hm _ Hw) as Hk. destruct (m (mk_world g sched)); [|done..].
  apply Hk.
Qed.

(** A fresh channel. *)
Lemma alloc_channel_fresh name (w : world (qcom_glink T)) :
  let c := Z.of_nat (g_allocs (w_st w)) + 32 in
  exists r g', qcom_glink_alloc_channel env name w = Ret r (mk_world g' (w_sched w)) /\
    (r = Err (- ENOMEM) \/
     r = Ok c /\ g_rcids g' = g_rcids (w_st w) /\ c < Z.of_nat (g_allocs g') + 32 /\
     g_channels g' !! c = Some (zero_channel name)).
Proof.
  cbv zeta. unfold qcom_glink_alloc_channel, kmalloc. rewrite run_assoc, run_gets, run_assoc. unfold mbnd at 1. cbn.
  case_goal; [|eexists _, _; split; [done|by left]]. unfold mbnd. cbn.
  case_goal; [|eexists _, _; split; [done|by left]]. cbn.
  eexists _, _. split; [done|]. right. split; [done|]. split; [done|]. split; [cbn; lia|]. cbn. apply lookup_insert_eq.
Qed.

(** The outcomes of a local open that does not open anything. *)
Definition open_failed (o : outcome (qcom_glink T) (result Z)) : Prop :=
  match o with
  | Ret r _ => r = Err (- ETIMEDOUT) \/ r = Err (- ENOMEM)
  | _ => True
  end.

(** A channel opened from this side never opens: with any turns of the
    driver's threads and of the remote side during its sleeps, whatever messages
    the remote side sends, [qcom_glink_create_local] does not return a channel.
    When it returns at all it reports a timeout, or that memory ran out. The open
    request of the remote side, for which it waits, is matched in
    [qcom_glink_rx_open] against the channels the remote side opened before, and
    the channel of a local open is not among them. *)
Theorem local_open_never_succeeds (name : list Z) (w : world (qcom_glink T)) (n : nat) :
  (forall id c, idr_map (g_rcids (w_st w)) !! id = Some c -> c < Z.of_nat (g_allocs (w_st w)) + 32) ->
  Forall (driver_turn n) (w_sched w) ->
  open_failed (qcom_glink_create_local env name w).
Proof.
  intros Hr Hs. unfold qcom_glink_create_local. unfold mbnd at 1.
  destruct (alloc_channel_fresh name w) as (r & g' & -> & [->|(-> & Er & Ha & Hc)]); [by right|].
  set (c0 := Z.of_nat (g_allocs (w_st w)) + 32) in *.
  assert (unanswered_w c0 (mk_world g' (w_sched w))) as Hw.
  { split.
    - constructor; [|cbn; rewrite Hc; by intros x [= <-]|done]. cbn. rewrite Er. intros id E. apply Hr in E. lia.
    - eapply Forall_impl; [exact Hs|]. eauto using driver_turn_keeps. }
  pose proof (keeps_open_wait env c0 _ Hw) as Hk. cbv zeta in Hk |- *.
  destruct (mbnd (qcom_glink_send_open_req env c0) _ _); [|done..]. left. apply Hk.
Qed.
End Turns.
