(* ===== verification/GlinkLink.v ===== *)
(** * GLINK: negotiation, signals, zero-copy buffers

    The handshake by which two edges agree on their features, the translation of
    modem signals, and the bounds of the buffers a remote side may name. *)
From stdpp Require Import prelude gmap list.
From S2P Require Import Prelude.
From S2P Require Import Effects.
From S2P Require Import Smem.
From S2P Require Import GlinkSmem.
From S2P Require Import GlinkTransport.
From S2P Require Import Glink.
From S2P Require Import GlinkTx.
From S2P Require Import GlinkRx.
From S2P Require Import GlinkData.
#[local] Open Scope kernel_scope.

(** ** Features *)

Section Features.
Context {T : Type} {Tr : Transport T} {TL : TransportLaws T} {IO : IdrOps}.

(** An edge that can send [n] more messages at once. *)
Definition roomy (n : Z) (g : qcom_glink T) : Prop :=
  tx_inv g /\ g_abort_tx g = false /\ 8 * n + 16 <= tx_free (g_tr g).

(** [g'] is [g] after the features became [f] and a message of eight bytes was
    sent. *)
Definition told (g g' : qcom_glink T) (f : Z) (msg : list Z) : Prop :=
  g_features g' = f /\ tx_bytes (g_tr g') = tx_bytes (g_tr g) ++ msg /\ rx_bytes (g_tr g') = rx_bytes (g_tr g).

Lemma tx_msg_room n cmd p1 p2 wait g sched :
  roomy (n + 1) g -> 0 <= n ->
  exists g', qcom_glink_tx (glink_msg cmd p1 p2) [] wait (mk_world g sched) = Ret 0 (mk_world g' sched) /\
    roomy n g' /\ told g g' (g_features g) (glink_msg cmd p1 p2).
Proof.
  intros (Hi & Ha & Hf) Hn.
  destruct (tx_room (glink_msg cmd p1 p2) [] wait (mk_world g sched) Hi Ha)
    as (t' & pad & E & Hi' & Eb & El & Er & Ef);
    rewrite ?app_nil_r, ?length_glink_msg in *; [lia|cbn; lia|].
  rewrite length_app, length_glink_msg in El. unfold padded in El, Ef. rewrite length_glink_msg in El, Ef.
  change (ALIGN (Z.of_nat 8) 8) with 8 in *. destruct pad; [|cbn in El; lia].
  eexists. split; [exact E|]. split.
  - split; [done|]. split; [done|]. cbn [w_st] in Ef. cbn. lia.
  - split; [done|]. by rewrite app_nil_r in Eb.
Qed.

Lemma send_features n cmd g sched :
  roomy (n + 1) g -> 0 <= n ->
  exists g', (f <-- gets g_features ;;; qcom_glink_tx (glink_msg cmd GLINK_VERSION_1 f) [] true) (mk_world g sched) =
      Ret 0 (mk_world g' sched) /\ roomy n g' /\
    told g g' (g_features g) (glink_msg cmd GLINK_VERSION_1 (g_features g)).
Proof. intros Hr Hn. rewrite run_gets. by apply tx_msg_room. Qed.

Lemma roomy_features n g f : roomy n g -> roomy n (g <| g_features := f |>).
Proof. by intros (? & ? & ?). Qed.

(** The answer to a VERSION message. *)
Lemma receive_version_told n g sched f :
  roomy (n + 1) g -> 0 <= n ->
  let f' := Z.land (g_features g) f in
  exists g', qcom_glink_receive_version GLINK_VERSION_1 f (mk_world g sched) = Ret tt (mk_world g' sched) /\
    roomy n g' /\ told g g' f' (glink_msg GLINK_CMD_VERSION_ACK GLINK_VERSION_1 f').
Proof.
  intros Hr Hn. cbv zeta. set (g1 := g <| g_features := Z.land (g_features g) f |>).
  destruct (send_features n GLINK_CMD_VERSION_ACK g1 sched) as (g' & E & Hr' & Ht); [by apply roomy_features|done|].
  exists g'. split; [|done]. unfold qcom_glink_receive_version, qcom_glink_send_version_ack. cbn [Z.eqb GLINK_VERSION_1].
  unfold mbnd at 1. cbn [Pos.eqb modify w_st w_sched]. rewrite run_gets. rewrite run_gets in E. unfold mbnd at 1.
  unfold g1 in E. by rewrite E.
Qed.

(** The answer to a VERSION_ACK message: none when the features agree. *)
Lemma receive_version_ack_told n g sched f :
  roomy (n + 1) g -> 0 <= n -> f <> g_features g ->
  let f' := Z.land (g_features g) f in
  exists g', qcom_glink_receive_version_ack GLINK_VERSION_1 f (mk_world g sched) = Ret tt (mk_world g' sched) /\
    roomy n g' /\ told g g' f' (glink_msg GLINK_CMD_VERSION GLINK_VERSION_1 f').
Proof.
  intros Hr Hn Hne. cbv zeta. set (g1 := g <| g_features := Z.land (g_features g) f |>).
  destruct (send_features n GLINK_CMD_VERSION g1 sched) as (g' & E & Hr' & Ht); [by apply roomy_features|done|].
  exists g'. split; [|done]. unfold qcom_glink_receive_version_ack, qcom_glink_send_version.
  rewrite run_gets. cbn [Z.eqb GLINK_VERSION_1 Pos.eqb w_st andb]. rewrite (proj2 (Z.eqb_neq _ _)) by done.
  unfold mbnd at 1. cbn [modify w_st w_sched]. unfold mbnd at 1. unfold g1 in E. by rewrite E.
Qed.

Lemma receive_version_ack_agreed g sched :
  qcom_glink_receive_version_ack GLINK_VERSION_1 (g_features g) (mk_world g sched) = Ret tt (mk_world g sched).
Proof. unfold qcom_glink_receive_version_ack. rewrite run_gets. cbn. by rewrite Z.eqb_refl. Qed.

End Features.

Section Negotiation.
Context {T1 T2 : Type} {Tr1 : Transport T1} {TL1 : TransportLaws T1} {Tr2 : Transport T2} {TL2 : TransportLaws T2}.

Abbreviation version f := (glink_msg GLINK_CMD_VERSION GLINK_VERSION_1 f).
Abbreviation version_ack f := (glink_msg GLINK_CMD_VERSION_ACK GLINK_VERSION_1 f).

(** Feature negotiation ends with both edges agreeing: after the VERSION
    message of [a] reached [b], [b] has the common features and offers them; [a]
    takes them over and, if they are not its own, sends them back once; the
    second answer of [b] is the same offer, on which [a] stops. *)
Theorem features_negotiation_converges (a : qcom_glink T1) (b : qcom_glink T2) :
  roomy 2 a -> roomy 2 b ->
  let f := Z.land (g_features a) (g_features b) in
  exists a1 b1,
    qcom_glink_receive_version GLINK_VERSION_1 (g_features a) (mk_world b []) = Ret tt (mk_world b1 []) /\
    told b b1 f (version_ack f) /\
    qcom_glink_receive_version_ack GLINK_VERSION_1 f (mk_world a []) = Ret tt (mk_world a1 []) /\
    g_features a1 = f /\
    (f = g_features a -> a1 = a) /\
    (f <> g_features a -> told a a1 f (version f) /\
       exists b2, qcom_glink_receive_version GLINK_VERSION_1 f (mk_world b1 []) = Ret tt (mk_world b2 []) /\
         told b1 b2 f (version_ack f)) /\
    qcom_glink_receive_version_ack GLINK_VERSION_1 f (mk_world a1 []) = Ret tt (mk_world a1 []).
Proof.
  intros Ha Hb f.
  destruct (receive_version_told 1 b [] (g_features a) Hb) as (b1 & E1 & Hb1 & Ht1); [lia|].
  rewrite (Z.land_comm (g_features b)) in Ht1. fold f in Ht1.
  destruct (Z.eq_dec f (g_features a)) as [Hf|Hf].
  - exists a, b1. split; [done|]. split; [done|]. rewrite Hf at 1 7. rewrite receive_version_ack_agreed.
    split; [done|]. split; [done|]. split; [done|]. split; [done|]. done.
  - destruct (receive_version_ack_told 1 a [] f Ha) as (a1 & E2 & _ & Ht2); [lia|done|].
    assert (Z.land (g_features a) f = f) as Eaf by (unfold f; by rewrite Z.land_assoc, Z.land_diag).
    rewrite Eaf in Ht2. exists a1, b1. split; [done|]. split; [done|]. split; [done|]. split; [apply Ht2|].
    split; [done|]. split.
    + intros _. split; [done|]. destruct (receive_version_told 0 b1 [] f Hb1) as (b2 & E3 & _ & Ht3); [lia|].
      rewrite (proj1 Ht1), Z.land_diag in Ht3. eauto.
    + rewrite <- (proj1 Ht2) at 1. apply receive_version_ack_agreed.
Qed.
End Negotiation.

(** ** Signals *)

(** What the other side makes of the modem lines [s]: the lines themselves, with
    DTR shown as DSR too and RTS as CTS. *)
Definition seen_signals (s : Z) : Z :=
  let low := Z.land s 4095 in
  set_if (has low TIOCM_RTS) (set_if (has low TIOCM_DTR) low TIOCM_DSR) TIOCM_CTS.

Lemma seen_signals_table :
  forallb (fun s => (signals_from_native (signals_to_native s) =? seen_signals s) &&
                    (0 <=? signals_to_native s) && (signals_to_native s <? 2 ^ 32)) (zseq 0 4096) = true.
Proof. vm_compute. reflexivity. Qed.

Lemma to_native_low s : signals_to_native (Z.land s 4095) = signals_to_native s.
Proof. unfold signals_to_native. by rewrite <- Z.land_assoc, Z.land_diag. Qed.

Lemma seen_low s : seen_signals (Z.land s 4095) = seen_signals s.
Proof. unfold seen_signals. by rewrite <- Z.land_assoc, Z.land_diag. Qed.

(** Modem lines survive the wire: the SIGNALS message that reports [s] is
    read by the other side as those lines, DTR raising DSR and RTS raising CTS,
    and nothing else. *)
Theorem signals_cross_link (lcid s : Z) :
  signals_from_native (msg_param2 (glink_msg GLINK_CMD_SIGNALS lcid (signals_to_native s))) = seen_signals s.
Proof.
  pose proof (proj1 (forallb_forall _ _) seen_signals_table (Z.land s 4095)) as H. cbv beta in H.
  assert (0 <= Z.land s 4095 < 4096) as Hr.
  { change 4095 with (Z.ones 12). rewrite Z.land_ones by lia. by apply Z.mod_pos_bound. }
  specialize (H ltac:(apply list_elem_of_In, zseq_elem; lia)). rewrite to_native_low, seen_low in H. zbool.
  assert (msg_param2 (glink_msg GLINK_CMD_SIGNALS lcid (signals_to_native s)) = signals_to_native s) as ->; [|done].
  by apply (le_val_bytes_small 4).
Qed.

(** ** Zero-copy buffers *)

Lemma prepare_da_inside entries da len :
  0 <= len < 2 ^ 32 -> prepare_da entries da len <> 0 ->
  exists e off, e ∈ entries /\ me_va e <> 0 /\ 0 <= off /\ off + len <= me_len e /\
    prepare_da entries da len = me_va e + off.
Proof.
  intros Hl. induction entries as [|e rest IH]; cbn [prepare_da]; [done|].
  assert ((exists e0 off, e0 ∈ rest /\ me_va e0 <> 0 /\ 0 <= off /\ off + len <= me_len e0 /\
    prepare_da rest da len = me_va e0 + off) -> exists e0 off, e0 ∈ e :: rest /\ me_va e0 <> 0 /\ 0 <= off /\
    off + len <= me_len e0 /\ prepare_da rest da len = me_va e0 + off) as Hin.
  { intros (e0 & off & He & Hx). exists e0, off. split; [by constructor|done]. }
  cbv zeta. case_goal; [intros Hne; by apply Hin, IH|].
  case_goal; [intros Hne; by apply Hin, IH|].
  case_goal; [intros Hne; by apply Hin, IH|].
  intros _. zbool. exists e, (s32 (da - me_da e)). split; [constructor|]. split; [done|]. split; [done|].
  split; [|done]. assert (s32 (da - me_da e) < 2 ^ 31).
  { unfold s32. pose proof (Z.mod_pos_bound (da - me_da e) (2 ^ 32)). cbv zeta. case_goal; zbool; lia. }
  assert (u64 (s32 (da - me_da e) + len) = s32 (da - me_da e) + len) as <- by (apply Z.mod_small; lia). lia.
Qed.

(** A zero-copy message can only name memory that was shared: whatever device
    address (all 64 bits of it) and length the remote side sends, the pointer that
    [qcom_glink_prepare_da_for_cpu] gives for it, if any, starts [len] bytes inside
    one of the registered regions. *)
Theorem zero_copy_inside_region (env : glink_env) (da len : Z) :
  0 <= len < 2 ^ 32 -> qcom_glink_prepare_da_for_cpu env da len <> 0 ->
  exists e, e ∈ env_mem env /\
    me_va e <= qcom_glink_prepare_da_for_cpu env da len /\
    qcom_glink_prepare_da_for_cpu env da len + len <= me_va e + me_len e.
Proof.
  intros Hl Hne. destruct (prepare_da_inside (env_mem env) da len Hl Hne) as (e & off & He & _ & ? & ? & E).
  exists e. split; [done|]. unfold qcom_glink_prepare_da_for_cpu. rewrite E. lia.
Qed.
