(* ===== verification/GlinkDemo.v ===== *)
(** * GLINK: concrete edges

    Edges over two byte lists on which the theorems of the GLINK files are
    applied, and the inputs on which the protocol code does something it does
    not mean to do: memory errors that a message of the remote side provokes. *)
From stdpp Require Import prelude gmap list.
From S2P Require Import Prelude.
From S2P Require Import Effects.
From S2P Require Import GlinkSmem.
From S2P Require Import GlinkTransport.
From S2P Require Import Glink.
From S2P Require Import GlinkTx.
From S2P Require Import GlinkRx.
From S2P Require Import GlinkData.
From S2P Require Import GlinkOpen.
From S2P Require Import GlinkLink.
#[local] Open Scope kernel_scope.

(** ** Concrete edges *)

Definition demo_env : glink_env :=
  mk_env (fun n => replicate n 85) (fun _ => true) (fun _ _ _ => 0) (fun _ => false) (fun _ => None)
    (fun _ => 0) 0 [mk_mem_entry 65536 4096 256].

(** A channel [AB] opened by both sides, local id 1 and remote id 7, with one
    local intent of each kind. *)
Definition demo_chan : glink_channel :=
  (zero_channel [65; 66]) <| c_refcount := 2 |> <| c_lcid := 1 |> <| c_rcid := 7 |>
    <| c_liids := mk_idr {[1 := 40; 2 := 41]} 3 |> <| c_ept_cb := true |> <| c_open_ack := true |>
    <| c_open_req := true |> <| c_ready := true |>.

Definition demo_intent (size : Z) (d : idata) (id : Z) : glink_core_rx_intent :=
  zero_intent <| i_size := size |> <| i_data := d |> <| i_id := id |> <| i_reuse := true |> <| i_advertised := true |>.

Definition demo_edge (rx : list Z) (intentless : bool) : qcom_glink lists :=
  (qcom_glink_native_probe 9 (mk_lists rx [] 256) intentless)
    <| g_lcids := mk_idr {[1 := 39]} 2 |> <| g_rcids := mk_idr {[7 := 39]} 0 |>
    <| g_channels := {[39 := demo_chan]} |>
    <| g_intents := {[40 := demo_intent 32 (DBuf 50 (zeros 32)) 1; 41 := demo_intent 0 (DBuf ZERO_SIZE_PTR []) 2]} |>
    <| g_allocs := 20%nat |>.

Definition irq (g : qcom_glink lists) : outcome (qcom_glink lists) unit :=
  qcom_glink_native_rx demo_env 50 (mk_world g []).

Definition demo_data (liid : Z) (bs : list Z) (remaining : Z) : list Z :=
  let pkt := data_hdr GLINK_CMD_TX_DATA 7 liid (Z.of_nat (length bs)) remaining ++ bs in pkt ++ pad_to_8 pkt.

(** A zero-copy message sets the offset of an intent of size 0, and the check for
    space subtracts it from the size: a data message for the same intent is
    copied to where nothing is allocated. *)
Lemma data_after_zero_copy_faults :
  let zero_copy := glink_msg GLINK_CMD_TX_DATA_ZERO_COPY 7 2 ++ le_bytes 4 0 ++ le_bytes 4 16 ++ le_bytes 8 4096 in
  (exists w, irq (demo_edge zero_copy false) = Ret tt w) /\
  irq (demo_edge (zero_copy ++ demo_data 2 [1; 2; 3; 4] 0) false) = Fault.
Proof. split; [eexists|]; vm_compute; reflexivity. Qed.

(** An intent that is complete but not given back accepts further data and is put
    on the queue a second time. *)
Lemma data_on_queued_intent_faults :
  (exists w, irq (demo_edge (demo_data 1 [1; 2] 0) false) = Ret tt w) /\
  irq (demo_edge (demo_data 1 [1; 2] 0 ++ demo_data 1 [3; 4] 0) false) = Fault.
Proof. split; [eexists|]; vm_compute; reflexivity. Qed.

(** On an edge without intents the buffer of a message stays attached to the
    channel after the channel's thread freed it: the second message uses it. *)
Lemma second_intentless_message_faults :
  let feed bs (g : qcom_glink lists) := g <| g_tr := (g_tr g) <| l_rx := bs |> |> in
  let first := qcom_glink_native_rx demo_env 50 ;;; qcom_glink_rx_thread demo_env 39 in
  (exists w, first (mk_world (demo_edge (demo_data 0 [1; 2] 0) true) []) = Ret tt w) /\
  (first ;;; modify (feed (demo_data 0 [3; 4] 0)) ;;; qcom_glink_native_rx demo_env 50)
    (mk_world (demo_edge (demo_data 0 [1; 2] 0) true) []) = Fault.
Proof. split; [eexists|]; vm_compute; reflexivity. Qed.

(** A name without terminator in an OPEN message is read beyond its buffer. *)
Lemma unterminated_name_faults :
  (qcom_glink_native_rx demo_env 50 ;;; qcom_glink_work demo_env 9)
    (mk_world (demo_edge (glink_msg GLINK_CMD_OPEN 8 8 ++ replicate 8 65) false) []) = Fault.
Proof. vm_compute. reflexivity. Qed.

(** ** Witnesses *)

Lemma demo_tx_inv rx b : lists_ok (mk_lists rx [] 256) -> tx_inv (demo_edge rx b).
Proof. intros Ok. split; [exact Ok|]. split; [|intros _]; unfold tx_free; cbn; lia. Qed.

Lemma demo_lists_ok rx : Z.of_nat (length rx) < 2 ^ 31 -> Z.of_nat (length rx) mod 8 = 0 ->
  lists_ok (mk_lists rx [] 256).
Proof. intros. constructor; cbn; done || lia. Qed.

Lemma demo_inv : tx_inv (demo_edge [] false).
Proof. by apply demo_tx_inv, demo_lists_ok. Qed.

(** One sender, one message of 48 bytes. *)
Lemma senders_never_fill_witness :
  exists g' : qcom_glink lists, 8 <= tx_free (g_tr (s_g (mk_senders g' [Idle]))).
Proof.
  destruct (tx_attempt_post (zeros 8) (zeros 40) 48 true (demo_edge [] false) [] eq_refl eq_refl demo_inv)
    as (r & g' & E & _ & _).
  assert (r = Some 0) as -> by (vm_compute in E; congruence).
  exists g'. apply (senders_never_fill (mk_senders (demo_edge [] false) [Idle])).
  - split; [exact demo_inv|]. repeat constructor.
  - apply rtc_once. apply (step_send (demo_edge [] false) [Idle] 0 (zeros 8) (zeros 40) true (Some 0) g');
      [reflexivity|split; reflexivity|reflexivity|exact E].
Defined.

Lemma tx_all_or_nothing_witness :
  exists r w', qcom_glink_tx (glink_msg GLINK_CMD_CLOSE 1 0) [] false (mk_world (demo_edge [] false) []) = Ret r w' /\
    (r = 0 /\ tx_sent (glink_msg GLINK_CMD_CLOSE 1 0) [] (demo_edge [] false) (w_st w') \/
     r <> 0 /\ w' = mk_world (demo_edge [] false) []).
Proof.
  apply (tx_all_or_nothing (glink_msg GLINK_CMD_CLOSE 1 0) [] (demo_edge [] false) []).
  - split; reflexivity.
  - exact demo_inv.
Defined.

(** Decidable form of [no_cut]. *)
Definition cut_intentb (bs : list Z) : bool :=
  (msg_cmd bs =? GLINK_CMD_INTENT) && (8 <=? Z.of_nat (length bs)) && (Z.of_nat (length bs) <? 8 + 8 * msg_param2 bs).

Lemma no_cut_check bs :
  forallb (fun n => negb (cut_intentb (drop n bs))) (seq 0 (S (length bs))) = true -> no_cut bs.
Proof.
  intros H n _ Hn [Hc [Hl Hh]]. pose proof (proj1 (forallb_forall _ _) H n) as Hb. cbv beta in Hb.
  specialize (Hb ltac:(apply in_seq; lia)). unfold cut_intentb in Hb. rewrite Hc in Hb.
  by rewrite (proj2 (Z.leb_le _ _)), (proj2 (Z.ltb_lt _ _)) in Hb by lia.
Qed.

Definition demo_rx : list Z := demo_data 1 [1; 2; 3] 0 ++ glink_msg GLINK_CMD_READ_NOTIF 0 0 ++ glink_msg 99 0 0.

Lemma demo_rx_hyps :
  bytes_in_range demo_rx /\ no_cut demo_rx /\ (length demo_rx / 8 + 6 <= 50)%nat.
Proof.
  split; [|split].
  - apply Forall_forall. intros b Hb%list_elem_of_In.
    pose proof (proj1 (forallb_forall (fun b => (0 <=? b) && (b <? 256)) demo_rx) eq_refl b Hb) as Hr. zbool. lia.
  - apply no_cut_check. vm_compute. reflexivity.
  - apply Nat.leb_le. vm_compute. reflexivity.
Qed.

Definition demo_rx_world : world (qcom_glink lists) := mk_world (demo_edge demo_rx false) [].

Lemma native_rx_terminates_witness : rx_ended demo_rx_world (qcom_glink_native_rx demo_env 50 demo_rx_world).
Proof.
  refine (native_rx_terminates demo_env 50 demo_rx_world _ _ _ _ _).
  - exact (demo_lists_ok demo_rx eq_refl eq_refl).
  - apply demo_rx_hyps.
  - intros n. reflexivity.
  - apply demo_rx_hyps.
  - apply demo_rx_hyps.
Defined.

(** On that input it does return, past everything but the unknown command. *)
Lemma demo_rx_returns :
  match irq (demo_edge demo_rx false) with
  | Ret _ w' => l_rx (g_tr (w_st w')) = glink_msg 99 0 0
  | _ => False
  end.
Proof. vm_compute. reflexivity. Qed.

(** An INTENT message that announces two intents and brings one. *)
Definition demo_cut : list Z := intent_cmd 7 2 64 5.

Lemma native_rx_spins_witness :
  qcom_glink_native_rx demo_env 100 (mk_world (demo_edge demo_cut false) []) = NoFuel.
Proof.
  apply native_rx_spins_on_cut_intent.
  - apply demo_lists_ok; vm_compute; reflexivity.
  - split; [vm_compute; reflexivity|]. split; vm_compute; [discriminate|reflexivity].
Defined.

(** A sender with two remote intents, of which only the larger one is free. *)
Definition demo_sender : qcom_glink lists :=
  (qcom_glink_native_probe 9 (mk_lists [] [] 256) false)
    <| g_channels := {[39 := demo_chan <| c_lcid := 7 |> <| c_riids := mk_idr {[1 := 60; 2 := 61]} 0 |>]} |>
    <| g_intents := {[60 := zero_intent <| i_id := 1 |> <| i_size := 32 |>;
                      61 := zero_intent <| i_id := 2 |> <| i_size := 16 |> <| i_in_use := true |>]} |>.

Definition demo_sender_chan : glink_channel := demo_chan <| c_lcid := 7 |> <| c_riids := mk_idr {[1 := 60; 2 := 61]} 0 |>.

Lemma demo_riids id i :
  ({[1 := 60; 2 := 61]} : gmap Z Z) !! id = Some i -> (id = 1 /\ i = 60) \/ (id = 2 /\ i = 61).
Proof.
  intros E. rewrite lookup_insert_Some, lookup_singleton_Some in E.
  destruct E as [[<- <-]|[_ [<- <-]]]; auto.
Qed.

Lemma demo_riids_live id i :
  idr_map (c_riids demo_sender_chan) !! id = Some i -> is_Some (g_intents demo_sender !! i).
Proof. intros [[_ ->]|[_ ->]]%demo_riids; vm_compute; eauto. Qed.

Lemma demo_usable len i y :
  0 < len -> usable demo_sender len i y -> i = 60 /\ y = zero_intent <| i_id := 1 |> <| i_size := 32 |>.
Proof.
  intros Hl (E & _ & Hu). cbn in E. rewrite lookup_insert_Some, lookup_singleton_Some in E.
  destruct E as [[<- <-]|[_ [<- <-]]]; [done|discriminate].
Qed.

Definition demo_message : list Z := [11; 12; 13; 14; 15; 16; 17; 18; 19; 20].

Lemma send_takes_best_fit_witness :
  exists id i y, idr_map (c_riids demo_sender_chan) !! id = Some i /\ usable demo_sender 10 i y.
Proof.
  destruct (send_takes_best_fit 0 39 demo_message false (mk_world demo_sender []) demo_sender_chan eq_refl eq_refl
    demo_riids_live) as [(id & i & y & Hi & Hu & _)|[Hno _]].
  - exists id, i, y. split; [exact Hi|exact Hu].
  - exfalso. apply (Hno 1 60 (zero_intent <| i_id := 1 |> <| i_size := 32 |>)); [reflexivity|].
    split; [reflexivity|]. split; [discriminate|reflexivity].
Defined.

Lemma demo_sender_ready : sender_ready (mk_world demo_sender []) 39 7 1 demo_sender_chan demo_message true.
Proof.
  constructor; try reflexivity.
  - split; [by apply (demo_lists_ok [])|]. split; [|intros _]; unfold tx_free; cbn; lia.
  - exact demo_riids_live.
  - exists 1, 60, (zero_intent <| i_id := 1 |> <| i_size := 32 |>). split; [reflexivity|].
    split; [reflexivity|]. split; [discriminate|reflexivity].
  - intros id i y _ Hu. apply demo_usable in Hu as [_ ->]; [reflexivity|done].
  - vm_compute. discriminate.
Qed.

(** What that sender writes. *)
Definition demo_wire : list Z := demo_data 1 demo_message 0.

Lemma demo_receiver :
  receiver (demo_edge demo_wire false) 7 1 39 40 demo_chan (demo_intent 32 (DBuf 50 (zeros 32)) 1) 50 (zeros 32).
Proof. constructor; try reflexivity; try discriminate. by apply demo_lists_ok. Qed.

Lemma message_crosses_link_witness :
  exists t', rx_bytes t' = [] /\
    irq (demo_edge demo_wire false) =
    Ret tt (mk_world (chunk_stored (demo_edge demo_wire false) t' 39 40 demo_chan
      (demo_intent 32 (DBuf 50 (zeros 32)) 1) 50 (zeros 32) 0 demo_message) []).
Proof.
  destruct (message_crosses_link demo_env (mk_world demo_sender []) 39 7 1 demo_sender_chan demo_message true 0 50
    (demo_edge demo_wire false) [] 39 40 demo_chan (demo_intent 32 (DBuf 50 (zeros 32)) 1) 50 (zeros 32)
    demo_sender_ready eq_refl) as (gs & E & _ & H).
  - discriminate.
  - exact demo_receiver.
  - reflexivity.
  - discriminate.
  - split; [discriminate|reflexivity].
  - split; [discriminate|reflexivity].
  - reflexivity.
  - vm_compute. repeat constructor.
  - destruct H as (t' & E1 & _ & E2 & _).
    + assert (tx_bytes (g_tr gs) = demo_wire) as ->; [|reflexivity].
      pose proof (f_equal (fun o => match o with Ret _ w => l_tx (g_tr (w_st w)) | _ => [] end) E) as E'.
      cbn [w_st with_st] in E'. etransitivity; [symmetry; exact E'|]. vm_compute. reflexivity.
    + exists t'. split; [exact E1|exact E2].
Defined.

(** The remote side answers a local open with an acknowledgement and its own
    open request; both are handled, and the open times out. *)
Definition demo_answer : list Z := glink_msg GLINK_CMD_OPEN_ACK 1 0 ++ glink_msg GLINK_CMD_OPEN 9 3 ++ [67; 68; 0; 0; 0; 0; 0; 0].

Definition demo_turn (m : M (qcom_glink lists) unit) (sched : list (qcom_glink lists -> qcom_glink lists)) (g : qcom_glink lists) :=
  match m (mk_world g sched) with Ret _ w => w_st w | _ => g end.

Definition demo_turns : list (qcom_glink lists -> qcom_glink lists) :=
  [demo_turn (qcom_glink_native_rx demo_env 20) []; demo_turn (qcom_glink_work demo_env 9) []].

Definition demo_local : world (qcom_glink lists) :=
  mk_world (qcom_glink_native_probe 9 (mk_lists demo_answer [] 256) false) demo_turns.

Lemma local_open_never_succeeds_witness :
  open_failed (qcom_glink_create_local demo_env [67; 68] demo_local).
Proof.
  apply (local_open_never_succeeds demo_env [67; 68] demo_local 1).
  - intros id c E. cbn in E. rewrite lookup_empty in E. discriminate.
  - constructor; [|constructor; [|constructor]]; apply turn_op; constructor.
Defined.

(** There the handlers complete, and the open times out. *)
Lemma demo_local_times_out :
  match qcom_glink_create_local demo_env [67; 68] demo_local with
  | Ret r _ => r = Err (- ETIMEDOUT)
  | _ => False
  end.
Proof. vm_compute. reflexivity. Qed.

Lemma features_negotiation_witness :
  exists a1 b1 : qcom_glink lists,
    qcom_glink_receive_version GLINK_VERSION_1 9 (mk_world ((demo_edge [] false) <| g_features := 3 |>) []) =
      Ret tt (mk_world b1 []) /\ g_features a1 = 1.
Proof.
  destruct (features_negotiation_converges (demo_edge [] false) ((demo_edge [] false) <| g_features := 3 |>))
    as (a1 & b1 & E & _ & _ & F & _).
  - split; [exact demo_inv|]. split; [reflexivity|]. vm_compute. discriminate.
  - split; [exact demo_inv|]. split; [reflexivity|]. vm_compute. discriminate.
  - exists a1, b1. split; [exact E|exact F].
Defined.

Lemma zero_copy_inside_region_witness :
  exists e, e ∈ env_mem demo_env /\
    me_va e <= qcom_glink_prepare_da_for_cpu demo_env (2 ^ 32 + 4100) 16 /\
    qcom_glink_prepare_da_for_cpu demo_env (2 ^ 32 + 4100) 16 + 16 <= me_va e + me_len e.
Proof.
  apply zero_copy_inside_region.
  - split; [discriminate|reflexivity].
  - vm_compute. discriminate.
Defined.
