(* ===== verification/Smp2p.v ===== *)
(** * Smp2p: point-to-point signalling over shared memory
      (src/drivers/soc/qcom/smp2p.c)

    Each side owns an item of shared memory with named 32-bit values that the
    other side reads; a kick tells the other side to look. The items live in
    the memory of Smem.v and are accessed by the offsets of their fields. *)
From stdpp Require Import prelude list.
From S2P Require Import Prelude Smem.

(** ** Layout of struct smp2p_smem_item *)

Definition SMP2P_MAX_ENTRY : Z := 16.

Definition SMP2P_MAX_ENTRY_NAME : nat := 16.

Definition SMP2P_FEATURE_SSR_ACK : Z := 1.

Definition SMP2P_FLAGS_RESTART_DONE_BIT : Z := 0.

Definition SMP2P_FLAGS_RESTART_ACK_BIT : Z := 1.

Definition SMP2P_MAGIC : Z := 1347244836.

Definition SMP2P_ALL_FEATURES : Z := SMP2P_FEATURE_SSR_ACK.

Definition SMP2P_VERSION_1 : Z := 1.

Definition sizeof_smp2p_item : Z := 340.

Definition it_version (m : mem) (it : Z) : Z := rd8 m (it + 4).

Definition it_features (m : mem) (it : Z) : Z := load_le 3 m (it + 5).

Definition it_valid_entries (m : mem) (it : Z) : Z := rd16 m (it + 14).

Definition it_flags (m : mem) (it : Z) : Z := rd32 m (it + 16).

(** The addresses of the name and of the value of entry [i]. *)
Definition it_name (it i : Z) : Z := it + 20 + 20 * i.

Definition it_value (it i : Z) : Z := it_name it i + 16.

(** ** State *)

(** struct smp2p_entry; [value] is [None] while the pointer is NULL. *)
Record smp2p_entry := mk_entry {
  en_name : list Z;
  en_value : option Z;
  last_value : Z;
  irq_enabled : Z;
  irq_pending : Z;
  irq_rising : Z;
  irq_falling : Z;
}.

#[export] Instance eta_smp2p_entry : Settable smp2p_entry :=
  fun e => mk_entry (en_name e) (en_value e) (last_value e) (irq_enabled e) (irq_pending e) (irq_rising e)
             (irq_falling e).

(** struct qcom_smp2p, with the shared memory driver, the number of kicks sent
    and the nested interrupts raised so far (entry name and bit). *)
Record qcom_smp2p := mk_smp2p {
  p_smem : option qcom_smem;
  p_in : option Z;
  p_out : Z;
  smem_in : Z;
  smem_out : Z;
  valid_entries : Z;
  ssr_ack_enabled : bool;
  ssr_ack : bool;
  negotiation_done : bool;
  local_pid : Z;
  remote_pid : Z;
  inbound : list smp2p_entry;
  outbound : list smp2p_entry;
  kicks : Z;
  fired : list (list Z * Z);
}.

#[export] Instance eta_qcom_smp2p : Settable qcom_smp2p :=
  fun s => mk_smp2p (p_smem s) (p_in s) (p_out s) (smem_in s) (smem_out s) (valid_entries s)
             (ssr_ack_enabled s) (ssr_ack s) (negotiation_done s) (local_pid s) (remote_pid s)
             (inbound s) (outbound s) (kicks s) (fired s).

Definition p_mem (s : qcom_smp2p) : mem :=
  match p_smem s with
  | Some sm => smem_mem sm
  | None => fun _ => 0
  end.

Definition set_mem (s : qcom_smp2p) (m : mem) : qcom_smp2p :=
  s <| p_smem := (fun sm => sm <| smem_mem := m |>) <$> p_smem s |>.

(** ** Operations *)

Definition qcom_smp2p_kick (s : qcom_smp2p) : qcom_smp2p := s <| kicks := kicks s + 1 |>.

(** The result of [qcom_smp2p_check_ssr], with the last values it resets;
    [it] is the inbound item. *)
Definition qcom_smp2p_check_ssr (s : qcom_smp2p) (it : Z) : bool * qcom_smp2p :=
  if negb (ssr_ack_enabled s) then (false, s)
  else
    let restart := truth (Z.land (it_flags (p_mem s) it) (BIT SMP2P_FLAGS_RESTART_DONE_BIT)) in
    let restart := xorb restart (ssr_ack s) in
    if restart && (SMP2P_VERSION_1 <? it_version (p_mem s) it) then
      (restart, s <| inbound :=
         map (fun e => match en_value e with None => e | Some _ => e <| last_value := 0 |> end) (inbound s) |>)
    else (restart, s).

Definition qcom_smp2p_do_ssr_ack (s : qcom_smp2p) : qcom_smp2p :=
  let s := s <| ssr_ack := negb (ssr_ack s) |> in
  let val := Z.land (it_flags (p_mem s) (p_out s)) (Z.lnot (BIT SMP2P_FLAGS_RESTART_ACK_BIT)) in
  let val := if ssr_ack s then Z.lor val (BIT SMP2P_FLAGS_RESTART_ACK_BIT) else val in
  qcom_smp2p_kick (set_mem s (wr32 (p_mem s) (p_out s + 16) val)).

Definition qcom_smp2p_negotiate (s : qcom_smp2p) (it : Z) : qcom_smp2p :=
  let m := p_mem s in
  if it_version m it =? it_version m (p_out s) then
    let features := Z.land (it_features m (p_out s)) (it_features m it) in
    let s := set_mem s (store_le 3 m (p_out s + 5) features) in
    let s := if truth (Z.land features SMP2P_FEATURE_SSR_ACK) then s <| ssr_ack_enabled := true |> else s in
    s <| negotiation_done := true |>
  else s.

(** [qcom_smem_get] of an item of this edge: its address. *)
Definition get_item (s : qcom_smp2p) (id : Z) : option (result Z) :=
  match qcom_smem_get (p_smem s) (remote_pid s) id with
  | None => None
  | Some (Ok (p, _)) => Some (Ok p)
  | Some (Err e) => Some (Err e)
  end.

Definition qcom_smp2p_in_version (s : qcom_smp2p) : option Z :=
  match get_item s (smem_in s) with
  | None => None
  | Some (Err _) => Some 0
  | Some (Ok it) => Some (it_version (p_mem s) it)
  end.

(** The characters of a buffer up to its terminator. *)
Fixpoint cstr (buf : list Z) : list Z :=
  match buf with
  | [] => []
  | c :: buf' => if c =? 0 then [] else c :: cstr buf'
  end.

(** [!strcmp(buf, name)] on the sixteen bytes copied from an item. A buffer
    without a terminator either differs from the name within the sixteen bytes
    or is read past its end; it does not match here. *)
Definition name_matches (buf name : list Z) : bool :=
  bool_decide (0 ∈ buf) && bool_decide (cstr buf = name).

(** The inner loop of the matching of new entries: the first inbound entry
    with the name of entry [i] gets its value; [read] also takes the value as
    the last one seen. *)
Fixpoint match_entry (m : mem) (it i : Z) (read : bool) (l : list smp2p_entry) : list smp2p_entry :=
  match l with
  | [] => []
  | e :: l' =>
      if name_matches (load_bytes SMP2P_MAX_ENTRY_NAME m (it_name it i)) (en_name e) then
        let e := e <| en_value := Some (it_value it i) |> in
        (if read then e <| last_value := rd32 m (it_value it i) |> else e) :: l'
      else e :: match_entry m it i read l'
  end.

Fixpoint match_entries (m : mem) (it i : Z) (n : nat) (read : bool) (l : list smp2p_entry) : list smp2p_entry :=
  match n with
  | O => l
  | S k => match_entries m it (i + 1) k read (match_entry m it i read l)
  end.

(** The outer loop, from the entries already known to those the remote side
    announces now, and the new count of known entries. *)
Definition match_new (s : qcom_smp2p) (it : Z) (read : bool) : qcom_smp2p :=
  let n := it_valid_entries (p_mem s) it in
  let s1 := s <| inbound :=
    match_entries (p_mem s) it (valid_entries s) (Z.to_nat (n - valid_entries s)) read (inbound s) |> in
  s1 <| valid_entries := Z.max (valid_entries s1) n |>.

Definition qcom_smp2p_start_in (s : qcom_smp2p) : option qcom_smp2p :=
  match get_item s (smem_in s) with
  | None => None
  | Some (Err _) => Some s
  | Some (Ok it) =>
      let s := s <| p_in := Some it |> in
      if it_version (p_mem s) it =? 0 then Some s else Some (match_new s it true)
  end.

(** The condition under which bit [i] of an entry raises its interrupt. *)
Definition edge_enabled (e : smp2p_entry) (val i : Z) : bool :=
  (truth (Z.land val (BIT i)) && Z.testbit (irq_rising e) i) ||
  (negb (truth (Z.land val (BIT i))) && Z.testbit (irq_falling e) i).

(** The loop over the status bits: the bits raised, and the entry. *)
Fixpoint fire_bits (e : smp2p_entry) (val : Z) (bits : list Z) : list Z * smp2p_entry :=
  match bits with
  | [] => ([], e)
  | i :: bits' =>
      if edge_enabled e val i then
        let '(l, e') := fire_bits (e <| irq_pending := Z.clearbit (irq_pending e) i |>) val bits' in (i :: l, e')
      else fire_bits e val bits'
  end.

(** One turn of the loop of [qcom_smp2p_notify_in] over the inbound entries. *)
Definition notify_entry (m : mem) (e : smp2p_entry) : list Z * smp2p_entry :=
  match en_value e with
  | None => ([], e)
  | Some a =>
      let val := rd32 m a in
      let status := Z.lxor val (last_value e) in
      let e := e <| last_value := val |> in
      let status := Z.lor status (irq_pending e) in
      if status =? 0 then ([], e) else fire_bits e val (set_bits status 32)
  end.

Fixpoint notify_entries (m : mem) (l : list smp2p_entry) : list (list Z * Z) * list smp2p_entry :=
  match l with
  | [] => ([], [])
  | e :: l' =>
      let '(bits, e') := notify_entry m e in
      let '(log, l'') := notify_entries m l' in
      (map (fun i => (en_name e, i)) bits ++ log, e' :: l'')
  end.

Definition qcom_smp2p_notify_in (s : qcom_smp2p) (it : Z) : qcom_smp2p :=
  let s := match_new s it false in
  let '(log, l) := notify_entries (p_mem s) (inbound s) in
  let s := s <| inbound := l |> in
  s <| fired := fired s ++ log |>.

Definition qcom_smp2p_intr (s : qcom_smp2p) : option qcom_smp2p :=
  let acquired :=
    match p_in s with
    | Some it => Some (Some (it, s))
    | None =>
        match get_item s (smem_in s) with
        | None => None
        | Some (Err _) => Some None
        | Some (Ok it) => Some (Some (it, s <| p_in := Some it |>))
        end
    end in
  match acquired with
  | None => None
  | Some None => Some s
  | Some (Some (it, s)) =>
      let s := if negotiation_done s then s else qcom_smp2p_negotiate s it in
      if negotiation_done s then
        let '(ack_restart, s) := qcom_smp2p_check_ssr s it in
        let s := qcom_smp2p_notify_in s it in
        Some (if ack_restart then qcom_smp2p_do_ssr_ack s else s)
      else Some s
  end.

(** ** The interrupt chip, on one entry *)

Definition IRQ_TYPE_EDGE_RISING : Z := 1.

Definition IRQ_TYPE_EDGE_FALLING : Z := 2.

Definition IRQ_TYPE_EDGE_BOTH : Z := 3.

Definition smp2p_mask_irq (e : smp2p_entry) (irq : Z) : smp2p_entry :=
  e <| irq_enabled := Z.clearbit (irq_enabled e) irq |>.

Definition smp2p_unmask_irq (e : smp2p_entry) (irq : Z) : smp2p_entry :=
  e <| irq_enabled := Z.setbit (irq_enabled e) irq |>.

Definition smp2p_set_irq_type (e : smp2p_entry) (irq type : Z) : Z * smp2p_entry :=
  if negb (truth (Z.land type IRQ_TYPE_EDGE_BOTH)) then (- EINVAL, e)
  else
    let put (b : Z) (on : bool) := if on then Z.setbit b irq else Z.clearbit b irq in
    let e := e <| irq_rising := put (irq_rising e) (truth (Z.land type IRQ_TYPE_EDGE_RISING)) |> in
    let e := e <| irq_falling := put (irq_falling e) (truth (Z.land type IRQ_TYPE_EDGE_FALLING)) |> in
    (0, e).

Definition smp2p_retrigger_irq (e : smp2p_entry) (irq : Z) : Z * smp2p_entry :=
  (0, e <| irq_pending := Z.setbit (irq_pending e) irq |>).

(** [line] is the test that the state asked for is the line level. *)
Definition smp2p_irq_get_irqchip_state (m : mem) (e : smp2p_entry) (line : bool) (irq : Z) : result bool :=
  if negb line then Err (- EINVAL)
  else
    match en_value e with
    | None => Err (- ENODEV)
    | Some a => Ok (truth (Z.land (rd32 m a) (BIT irq)))
    end.

(** ** Outbound values *)

(** [smp2p_update_bits] on the value at address [a]. *)
Definition smp2p_update_bits (s : qcom_smp2p) (a mask value : Z) : qcom_smp2p :=
  let orig := rd32 (p_mem s) a in
  let val := Z.lor (Z.land orig (Z.lnot mask)) value in
  let s := set_mem s (wr32 (p_mem s) a val) in
  if negb (val =? orig) then qcom_smp2p_kick s else s.

(** The buffer [strscpy] fills: at most fifteen characters and zeroes. *)
Definition strscpy_buf (name : list Z) : list Z :=
  take SMP2P_MAX_ENTRY_NAME (take 15 name ++ replicate SMP2P_MAX_ENTRY_NAME 0).

Definition new_entry (name : list Z) : smp2p_entry := mk_entry name None 0 0 0 0 0.

(** [qcom_smp2p_outbound_entry]; [reg] is what registering the state answers. *)
Definition qcom_smp2p_outbound_entry (s : qcom_smp2p) (e : smp2p_entry) (reg : Z) : Z * qcom_smp2p * smp2p_entry :=
  let out := p_out s in
  let v := it_valid_entries (p_mem s) out in
  let s := set_mem s (store_bytes (p_mem s) (it_name out v) (strscpy_buf (en_name e))) in
  let e := e <| en_value := Some (it_value out (it_valid_entries (p_mem s) out)) |> in
  let s := set_mem s (wr16 (p_mem s) (out + 14) (u16 (it_valid_entries (p_mem s) out + 1))) in
  ((if reg <? 0 then reg else 0), s, e).

(** [qcom_smp2p_alloc_outbound_item]; [lock] is the result of taking the
    hardware spinlock of the shared memory driver. *)
Definition qcom_smp2p_alloc_outbound_item (s : qcom_smp2p) (lock : Z) : option (Z * qcom_smp2p) :=
  match qcom_smem_alloc (p_smem s) (remote_pid s) (smem_out s) sizeof_smp2p_item lock with
  | None => None
  | Some (ret, sm) =>
      let s := s <| p_smem := sm |> in
      if (ret <? 0) && negb (ret =? - EEXIST) then Some (ret, s)
      else
        match get_item s (smem_out s) with
        | None => None
        | Some (Err e) => Some (e, s)
        | Some (Ok out) =>
            let m := store_bytes (p_mem s) out (replicate (Z.to_nat sizeof_smp2p_item) 0) in
            let m := wr32 m out SMP2P_MAGIC in
            let m := wr16 m (out + 8) (u16 (local_pid s)) in
            let m := wr16 m (out + 10) (u16 (remote_pid s)) in
            let m := wr16 m (out + 12) SMP2P_MAX_ENTRY in
            let m := wr16 m (out + 14) 0 in
            let m := store_le 3 m (out + 5) SMP2P_ALL_FEATURES in
            let s := set_mem s m in
            match qcom_smp2p_in_version s with
            | None => None
            | Some in_version =>
                let s := set_mem s (upd (p_mem s) (out + 4) (if truth in_version then in_version else 1)) in
                let s := qcom_smp2p_kick s in
                Some (0, s <| p_out := out |>)
            end
        end
  end.

(** ** Set-up and hibernation *)

(** A child node: whether its entry could be allocated, the name read from it
    and whether it is inbound. *)
Record node := mk_child { ch_alloc : bool; ch_name : result (list Z); ch_inbound : bool }.

(** The loop of probe over the child nodes; [reg] and [dom] answer for the
    registration of the state and of the interrupt domain. *)
Fixpoint probe_nodes (s : qcom_smp2p) (reg : list Z -> Z) (dom : list Z -> bool) (l : list node) : Z * qcom_smp2p :=
  match l with
  | [] => (0, s)
  | nd :: l' =>
      if negb (ch_alloc nd) then (- ENOMEM, s)
      else
        match ch_name nd with
        | Err e => (e, s)
        | Ok name =>
            let e := new_entry name in
            if ch_inbound nd then
              if dom name then probe_nodes (s <| inbound := e :: inbound s |>) reg dom l' else (- ENOMEM, s)
            else
              let '(ret, s, e) := qcom_smp2p_outbound_entry s e (reg name) in
              if ret <? 0 then (ret, s) else probe_nodes (s <| outbound := e :: outbound s |>) reg dom l'
        end
  end.

(** The error path of probe and the removal: the entries are gone and none is
    announced any more. *)
Definition smp2p_unwind (s : qcom_smp2p) : qcom_smp2p :=
  let s := s <| inbound := [] |> in
  let s := s <| outbound := [] |> in
  set_mem s (wr16 (p_mem s) (p_out s + 14) 0).

Definition qcom_smp2p_remove (s : qcom_smp2p) : qcom_smp2p := smp2p_unwind s.

(** [qcom_smp2p_probe] once the properties, the interrupt and the mailbox are
    there; [irq] is what requesting the interrupt and making it a wake source
    return. *)
Definition qcom_smp2p_probe (s : qcom_smp2p) (lock : Z) (reg : list Z -> Z) (dom : list Z -> bool)
  (l : list node) (irq : Z) : option (Z * qcom_smp2p) :=
  match qcom_smp2p_alloc_outbound_item s lock with
  | None => None
  | Some (ret, s) =>
      if ret <? 0 then Some (ret, s)
      else
        let '(ret, s) := probe_nodes s reg dom l in
        if ret <? 0 then Some (ret, smp2p_unwind s)
        else
          match qcom_smp2p_start_in s with
          | None => None
          | Some s =>
              let s := qcom_smp2p_kick s in
              if truth irq then Some (irq, smp2p_unwind s) else Some (0, s)
          end
  end.

(** The loop of [qcom_smp2p_restore]: outbound entries are created again. *)
Fixpoint restore_nodes (s : qcom_smp2p) (reg : list Z -> Z) (l : list node) : Z * qcom_smp2p :=
  match l with
  | [] => (0, s)
  | nd :: l' =>
      if negb (ch_alloc nd) then (- ENOMEM, s)
      else
        match ch_name nd with
        | Err e => (e, s)
        | Ok name =>
            if ch_inbound nd then restore_nodes s reg l'
            else
              let '(ret, s, e) := qcom_smp2p_outbound_entry s (new_entry name) (reg name) in
              if ret <? 0 then (ret, s) else restore_nodes (s <| outbound := e :: outbound s |>) reg l'
        end
  end.

Definition qcom_smp2p_restore (s : qcom_smp2p) (lock : Z) (reg : list Z -> Z) (l : list node)
  : option (Z * qcom_smp2p) :=
  match qcom_smp2p_alloc_outbound_item s lock with
  | None => None
  | Some (ret, s) =>
      if ret <? 0 then Some (ret, s)
      else
        let '(ret, s) := restore_nodes s reg l in
        if ret <? 0 then Some (ret, s) else Some (ret, qcom_smp2p_kick s)
  end.

Definition qcom_smp2p_freeze (s : qcom_smp2p) : qcom_smp2p :=
  let s := s <| outbound := [] |> in
  let s := s <| inbound := map (fun e => e <| last_value := 0 |>) (inbound s) |> in
  let s := s <| p_in := None |> in
  s <| valid_entries := 0 |>.

(** ** Lemmas *)

Lemma p_mem_set_mem s m : p_smem s <> None -> p_mem (set_mem s m) = m.
Proof. unfold p_mem, set_mem. cbn. by destruct (p_smem s). Qed.

Lemma edge_enabled_eq e e' val i :
  irq_rising e' = irq_rising e -> irq_falling e' = irq_falling e -> edge_enabled e' val i = edge_enabled e val i.
Proof. unfold edge_enabled. by intros -> ->. Qed.

Lemma edge_enabled_spec e val i :
  0 <= i -> edge_enabled e val i = if Z.testbit val i then Z.testbit (irq_rising e) i else Z.testbit (irq_falling e) i.
Proof.
  intros Hi. unfold edge_enabled. rewrite land_BIT_truth by lia.
  destruct (Z.testbit val i); cbn; by rewrite ?orb_false_r.
Qed.

Lemma fire_bits_spec e val bits :
  (forall i, i ∈ bits -> 0 <= i) ->
  let r := fire_bits e val bits in
  fst r = filter (fun i => edge_enabled e val i = true) bits /\
  snd r = e <| irq_pending := irq_pending (snd r) |> /\
  (forall i, 0 <= i -> Z.testbit (irq_pending (snd r)) i =
     Z.testbit (irq_pending e) i && negb (bool_decide (i ∈ fst r))).
Proof.
  intros Hb. cbv zeta. revert e. induction bits as [|b bits IH]; intros e; cbn [fire_bits].
  { split; [done|]. split; [by destruct e|]. intros i Hi. cbn. by rewrite andb_true_r. }
  assert (forall i, i ∈ bits -> 0 <= i) as Hb' by (intros i Hi; apply Hb; by right).
  rewrite filter_cons. destruct (edge_enabled e val b) eqn:E.
  - rewrite decide_True by done. set (e1 := e <| irq_pending := _ |>). destruct (IH Hb' e1) as (F & S & P).
    destruct (fire_bits e1 val bits) as [l e']. cbn [fst snd] in *. split; [|split].
    + f_equal. rewrite F. apply list_filter_iff. intros i. by rewrite (edge_enabled_eq e e1).
    + rewrite S. done.
    + intros i Hi. rewrite P by done. unfold e1. cbn [irq_pending set_field].
      destruct (Z.eq_dec i b) as [->|].
      * rewrite Z.clearbit_eq. rewrite (bool_decide_true (b ∈ b :: l)) by (by left). by rewrite andb_false_r.
      * rewrite Z.clearbit_neq by (try congruence; apply Hb; by left). f_equal. f_equal.
        apply bool_decide_ext. rewrite elem_of_cons. intuition congruence.
  - rewrite decide_False by congruence. by apply IH.
Qed.

(** [notify_entry] without its shortcut. *)
Lemma notify_entry_fire m e a :
  en_value e = Some a ->
  notify_entry m e =
  fire_bits (e <| last_value := rd32 m a |>) (rd32 m a)
    (set_bits (Z.lor (Z.lxor (rd32 m a) (last_value e)) (irq_pending e)) 32).
Proof.
  intros Hv. unfold notify_entry. rewrite Hv. cbv zeta. cbn [irq_pending set_field].
  destruct (Z.eqb_spec (Z.lor (Z.lxor (rd32 m a) (last_value e)) (irq_pending e)) 0) as [->|]; [|done].
  done.
Qed.

(** The bits an entry raises, the value it remembers, what stays pending. *)
Lemma notify_entry_spec m e a :
  en_value e = Some a ->
  let r := notify_entry m e in
  (forall i, i ∈ fst r <-> 0 <= i < 32 /\
     (Z.testbit (rd32 m a) i <> Z.testbit (last_value e) i \/ Z.testbit (irq_pending e) i = true) /\
     (if Z.testbit (rd32 m a) i then Z.testbit (irq_rising e) i else Z.testbit (irq_falling e) i) = true) /\
  snd r = (e <| last_value := rd32 m a |>) <| irq_pending := irq_pending (snd r) |> /\
  (forall i, 0 <= i -> Z.testbit (irq_pending (snd r)) i =
     Z.testbit (irq_pending e) i && negb (bool_decide (i ∈ fst r))).
Proof.
  intros Hv. cbv zeta. rewrite (notify_entry_fire m e a Hv). set (e1 := e <| last_value := _ |>).
  set (st := Z.lor _ _). destruct (fire_bits_spec e1 (rd32 m a) (set_bits st 32)) as (F & S & P).
  { intros i Hi. apply set_bits_spec in Hi. lia. }
  split; [|split; [exact S|exact P]]. intros i. rewrite F, list_elem_of_filter, set_bits_spec.
  unfold st. split.
  - intros (E & Hi & B). rewrite edge_enabled_spec in E by lia. split; [done|].
    rewrite Z.lor_spec, Z.lxor_spec in B. split; [|done].
    destruct (Z.testbit (irq_pending e) i); [by right|left]. rewrite orb_false_r in B.
    by destruct (Z.testbit (rd32 m a) i), (Z.testbit (last_value e) i).
  - intros (Hi & C & E). rewrite edge_enabled_spec by lia. split; [done|]. split; [done|].
    rewrite Z.lor_spec, Z.lxor_spec. destruct C as [C| ->]; [|by rewrite orb_true_r].
    by destruct (Z.testbit (rd32 m a) i), (Z.testbit (last_value e) i).
Qed.

Lemma notify_entry_again m e : notify_entry m (snd (notify_entry m e)) = ([], snd (notify_entry m e)).
Proof.
  destruct (en_value e) as [a|] eqn:Hv.
  2: { assert (notify_entry m e = ([], e)) as -> by (unfold notify_entry; by rewrite Hv). cbn [snd].
       unfold notify_entry. by rewrite Hv. }
  destruct (notify_entry_spec m e a Hv) as (F & S & P). set (r := notify_entry m e) in *.
  set (e' := snd r) in *.
  assert (en_value e' = Some a) as Hv' by (by rewrite S).
  assert (last_value e' = rd32 m a) as Hl by (by rewrite S).
  assert (irq_rising e' = irq_rising e /\ irq_falling e' = irq_falling e) as [Hr Hf] by (by rewrite S).
  destruct (notify_entry_spec m e' a Hv') as (F2 & S2 & P2). set (r2 := notify_entry m e') in *.
  assert (fst r2 = []) as E1.
  { destruct (fst r2) as [|i l] eqn:El; [done|]. exfalso. destruct (proj1 (F2 i)) as (Hi & C & Ed); [left|].
    rewrite Hl, Hr, Hf in *. destruct C as [C|C]; [done|]. rewrite P in C by lia. apply andb_true_iff in C as [C1 C2].
    apply negb_true_iff, bool_decide_eq_false in C2. apply C2, F. auto. }
  rewrite E1 in P2. destruct r2 as [l2 e2]. cbn [fst snd] in *. subst l2. f_equal.
  assert (irq_pending e2 = irq_pending e') as Ep.
  { apply Z.bits_inj'. intros i Hi. rewrite P2 by done. cbn. by rewrite andb_true_r. }
  rewrite S2, Ep, <- Hl. by destruct e'.
Qed.

(** A value whose bits from 32 on are clear fits a word. *)
Lemma word_of_bits x : (forall i, 32 <= i -> Z.testbit x i = false) -> 0 <= x < 2 ^ 32.
Proof.
  intros H. assert (x = x mod 2 ^ 32) as ->; [|apply Z.mod_pos_bound; lia].
  apply Z.bits_inj'. intros i Hi. destruct (Z.ltb_spec i 32); [by rewrite Z.mod_pow2_bits_low|].
  rewrite Z.mod_pow2_bits_high, H by lia. done.
Qed.

Lemma word_high_bits x i : 0 <= x < 2 ^ 32 -> 32 <= i -> Z.testbit x i = false.
Proof.
  intros Hx Hi. destruct (Z.eq_dec x 0) as [->|]; [by apply Z.bits_0|].
  apply Z.bits_above_log2; [lia|]. apply Z.lt_le_trans with 32; [|done]. apply Z.log2_lt_pow2; lia.
Qed.

(** The word [(x & ~mask) | value]. *)
Lemma merge_word x mask value :
  0 <= x < 2 ^ 32 -> 0 <= value < 2 ^ 32 -> 0 <= Z.lor (Z.land x (Z.lnot mask)) value < 2 ^ 32.
Proof.
  intros Hx Hv. apply word_of_bits. intros i Hi.
  rewrite Z.lor_spec, Z.land_spec, (word_high_bits x i), (word_high_bits value i) by done. done.
Qed.

Lemma merge_bits x mask value i :
  0 <= i -> Z.testbit (Z.lor (Z.land x (Z.lnot mask)) value) i =
            Z.testbit value i || (Z.testbit x i && negb (Z.testbit mask i)).
Proof. intros Hi. rewrite Z.lor_spec, Z.land_spec, Z.lnot_spec by done. apply orb_comm. Qed.

(** What [smp2p_update_bits] does to memory and how often it kicks. *)
Lemma update_bits_spec s a mask value :
  p_smem s <> None ->
  bytes_ok (p_mem s) ->
  0 <= value < 2 ^ 32 ->
  let s' := smp2p_update_bits s a mask value in
  p_mem s' = wr32 (p_mem s) a (Z.lor (Z.land (rd32 (p_mem s) a) (Z.lnot mask)) value) /\
  rd32 (p_mem s') a = Z.lor (Z.land (rd32 (p_mem s) a) (Z.lnot mask)) value /\
  kicks s' = kicks s + (if rd32 (p_mem s') a =? rd32 (p_mem s) a then 0 else 1).
Proof.
  intros Hs Hb Hv. cbv zeta.
  pose proof (merge_word (rd32 (p_mem s) a) mask value (rd32_bound _ a Hb) Hv) as Hw.
  unfold smp2p_update_bits. cbv zeta. set (val := Z.lor _ _) in *.
  assert (forall b : bool, p_mem (if b then qcom_smp2p_kick (set_mem s (wr32 (p_mem s) a val))
                 else set_mem s (wr32 (p_mem s) a val)) = wr32 (p_mem s) a val) as Hm.
  { intros []; [change (p_mem (qcom_smp2p_kick ?x)) with (p_mem x)|]; by apply p_mem_set_mem. }
  rewrite Hm, load_le_wr_same_32 by done. split; [done|]. split; [done|].
  destruct (val =? rd32 (p_mem s) a); cbn [negb]; [|done]. cbn. lia.
Qed.

Lemma zseq_NoDup a n : NoDup (zseq a n).
Proof.
  revert a. induction n as [|n IH]; intros a; cbn; constructor; [|done].
  change (a ∉ zseq (a + 1) n). rewrite zseq_elem. lia.
Qed.

Lemma notify_entry_NoDup m e : NoDup (fst (notify_entry m e)).
Proof.
  destruct (en_value e) as [a|] eqn:Hv.
  2: { unfold notify_entry. rewrite Hv. constructor. }
  rewrite (notify_entry_fire m e a Hv). destruct (fire_bits_spec (e <| last_value := rd32 m a |>) (rd32 m a)
    (set_bits (Z.lor (Z.lxor (rd32 m a) (last_value e)) (irq_pending e)) 32)) as (F & _).
  { intros i Hi. apply set_bits_spec in Hi. lia. }
  rewrite F. apply NoDup_filter. apply NoDup_filter, zseq_NoDup.
Qed.

Lemma notify_entries_again m l :
  notify_entries m (snd (notify_entries m l)) = ([], snd (notify_entries m l)).
Proof.
  induction l as [|e l IH]; [done|]. cbn [notify_entries].
  pose proof (notify_entry_again m e) as A. destruct (notify_entry m e) as [bits e'].
  destruct (notify_entries m l) as [log l'']. cbn [snd notify_entries] in *. by rewrite A, IH.
Qed.

(** With nothing new announced, matching changes nothing. *)
Lemma match_new_none s it read :
  it_valid_entries (p_mem s) it <= valid_entries s -> match_new s it read = s.
Proof.
  intros H. unfold match_new. cbv zeta. replace (Z.to_nat _) with O by lia.
  cbn [match_entries]. destruct s; cbn in *. unfold set_field; cbn. f_equal. lia.
Qed.

Lemma notify_in_view s it :
  let s1 := match_new s it false in
  let s' := qcom_smp2p_notify_in s it in
  p_mem s' = p_mem s /\ p_smem s' = p_smem s /\
  valid_entries s' = Z.max (valid_entries s) (it_valid_entries (p_mem s) it) /\
  inbound s' = snd (notify_entries (p_mem s) (inbound s1)) /\
  fired s' = fired s ++ fst (notify_entries (p_mem s) (inbound s1)) /\
  kicks s' = kicks s /\ p_out s' = p_out s /\ p_in s' = p_in s /\
  ssr_ack s' = ssr_ack s /\ ssr_ack_enabled s' = ssr_ack_enabled s /\ negotiation_done s' = negotiation_done s.
Proof.
  cbv zeta. unfold qcom_smp2p_notify_in. set (s1 := match_new s it false).
  assert (p_mem s1 = p_mem s) as -> by done.
  destruct (notify_entries (p_mem s) (inbound s1)) as [log l]. done.
Qed.

(** The reset of the last values after a restart of the remote side. *)
Definition forget_values (l : list smp2p_entry) : list smp2p_entry :=
  map (fun e => match en_value e with None => e | Some _ => e <| last_value := 0 |> end) l.

Definition forgot (c : bool) (s : qcom_smp2p) : qcom_smp2p :=
  if c then s <| inbound := forget_values (inbound s) |> else s.

Lemma check_ssr_spec s it :
  ssr_ack_enabled s = true ->
  let restart := xorb (Z.testbit (it_flags (p_mem s) it) 0) (ssr_ack s) in
  qcom_smp2p_check_ssr s it =
  (restart, forgot (restart && (SMP2P_VERSION_1 <? it_version (p_mem s) it)) s).
Proof.
  intros E. cbv zeta. unfold qcom_smp2p_check_ssr. rewrite E. cbn [negb].
  rewrite land_BIT_truth by done. change SMP2P_FLAGS_RESTART_DONE_BIT with 0. cbv zeta.
  by destruct (xorb _ _ && _).
Qed.

(** The acknowledgement: the flag takes the new state, the other flags stay,
    one kick. *)
Lemma do_ssr_ack_spec s :
  p_smem s <> None ->
  bytes_ok (p_mem s) ->
  let s' := qcom_smp2p_do_ssr_ack s in
  ssr_ack s' = negb (ssr_ack s) /\
  Z.testbit (it_flags (p_mem s') (p_out s)) 1 = ssr_ack s' /\
  (forall i, 0 <= i -> i <> 1 ->
     Z.testbit (it_flags (p_mem s') (p_out s)) i = Z.testbit (it_flags (p_mem s) (p_out s)) i) /\
  same_outside (p_out s + 16) (p_out s + 20) (p_mem s) (p_mem s') /\
  bytes_ok (p_mem s') /\ kicks s' = kicks s + 1.
Proof.
  intros Hs Hb. cbv zeta. unfold qcom_smp2p_do_ssr_ack. cbv zeta.
  set (s1 := s <| ssr_ack := _ |>). change (p_mem s1) with (p_mem s). change (p_out s1) with (p_out s).
  set (old := it_flags (p_mem s) (p_out s)). set (val := if ssr_ack s1 then _ else _).
  assert (val = Z.lor (Z.land old (Z.lnot (BIT 1))) (if ssr_ack s1 then BIT 1 else 0)) as Hval.
  { unfold val. destruct (ssr_ack s1); [done|]. by rewrite Z.lor_0_r. }
  assert (0 <= val < 2 ^ 32) as Hw.
  { rewrite Hval. apply merge_word; [by apply rd32_bound|]. destruct (ssr_ack s1); vm_compute; split; congruence. }
  change (p_mem (qcom_smp2p_kick ?x)) with (p_mem x). rewrite p_mem_set_mem by done.
  change (ssr_ack (qcom_smp2p_kick (set_mem s1 ?x))) with (ssr_ack s1).
  assert (it_flags (wr32 (p_mem s) (p_out s + 16) val) (p_out s) = val) as -> by (by apply load_le_wr_same_32).
  split; [done|]. split.
  { rewrite Hval, merge_bits by done. rewrite BIT_testbit by done. cbn [Z.eqb negb Pos.eqb].
    rewrite andb_false_r, orb_false_r. by destruct (ssr_ack s1). }
  split.
  { intros i Hi Hn. rewrite Hval, merge_bits by done. rewrite BIT_testbit by done.
    rewrite (proj2 (Z.eqb_neq 1 i)) by congruence. cbn [negb]. rewrite andb_true_r.
    destruct (ssr_ack s1); [|by rewrite Z.bits_0]. rewrite BIT_testbit by done.
    by rewrite (proj2 (Z.eqb_neq 1 i)) by congruence. }
  split; [apply same_outside_store_le; lia|]. split; [by apply bytes_ok_store_le|done].
Qed.

Lemma it_reads_eq m m' it lo hi :
  same_outside lo hi m m' ->
  it + sizeof_smp2p_item <= lo \/ hi <= it ->
  it_flags m' it = it_flags m it /\ it_version m' it = it_version m it /\
  it_valid_entries m' it = it_valid_entries m it.
Proof.
  intros Hm Hd. unfold sizeof_smp2p_item in Hd.
  split; [|split]; apply load_le_ext; intros i Hi; apply Hm; lia.
Qed.

(** The interrupt handler once the edge is open. *)
Lemma intr_open s it :
  p_in s = Some it ->
  negotiation_done s = true ->
  ssr_ack_enabled s = true ->
  let restart := xorb (Z.testbit (it_flags (p_mem s) it) 0) (ssr_ack s) in
  let s2 := qcom_smp2p_notify_in (forgot (restart && (SMP2P_VERSION_1 <? it_version (p_mem s) it)) s) it in
  qcom_smp2p_intr s = Some (if restart then qcom_smp2p_do_ssr_ack s2 else s2).
Proof.
  intros Hi Hn He. cbv zeta. unfold qcom_smp2p_intr. rewrite Hi, Hn, Hn, (check_ssr_spec s it He). done.
Qed.

(** What is fired by the loop over the entries. *)
Lemma notify_entries_fired m l e i :
  e ∈ l -> i ∈ fst (notify_entry m e) -> (en_name e, i) ∈ fst (notify_entries m l).
Proof.
  induction l as [|e' l IH]; [by intros ?%elem_of_nil|]. intros He Hi. cbn [notify_entries].
  destruct (notify_entry m e') as [bits e''] eqn:E. destruct (notify_entries m l) as [log l''].
  cbn [fst]. apply elem_of_app. apply elem_of_cons in He as [->|He].
  - left. apply list_elem_of_fmap. exists i. rewrite E in Hi. done.
  - right. by apply IH.
Qed.

(** The handling of changes in the handler: only entries and raised
    interrupts change, and forgotten values make set bits rise again. *)
Lemma notify_forgot_view c s it :
  let s2 := qcom_smp2p_notify_in (forgot c s) it in
  (p_mem s2 = p_mem s /\ p_smem s2 = p_smem s /\ kicks s2 = kicks s /\ p_out s2 = p_out s /\ p_in s2 = p_in s /\
    ssr_ack s2 = ssr_ack s /\ ssr_ack_enabled s2 = ssr_ack_enabled s /\ negotiation_done s2 = negotiation_done s) /\
    (c = true -> it_valid_entries (p_mem s) it <= valid_entries s ->
   forall e a i, e ∈ inbound s -> en_value e = Some a -> 0 <= i < 32 ->
   Z.testbit (rd32 (p_mem s) a) i = true -> Z.testbit (irq_rising e) i = true -> (en_name e, i) ∈ fired s2).
Proof.
  cbv zeta. destruct (notify_in_view (forgot c s) it) as (M & S & _ & _ & F & K & O & I & A & E & N).
  set (s2 := qcom_smp2p_notify_in (forgot c s) it) in *. clearbody s2.
  split; [rewrite M, S, K, O, I, A, E, N; by destruct c|]. intros -> Hval e a i Hin Hea Hib Hbit Hris.
  rewrite F. apply elem_of_app. right. clear - Hval Hin Hea Hib Hbit Hris.
  assert (match_new (forgot true s) it false = forgot true s) as -> by (by apply match_new_none).
  change (p_mem (forgot true s)) with (p_mem s).
  change (en_name e) with (en_name (e <| last_value := 0 |>)). apply notify_entries_fired.
  - apply list_elem_of_fmap. exists e. by rewrite Hea.
  - destruct (notify_entry_spec (p_mem s) (e <| last_value := 0 |>) a) as (F & _); [done|].
    apply F. split; [done|]. cbn [last_value irq_rising set_field]. rewrite Hbit, Z.bits_0. auto.
Qed.

(** One interrupt on an open edge. *)
Lemma intr_once s it :
  p_smem s <> None ->
  bytes_ok (p_mem s) ->
  p_in s = Some it ->
  negotiation_done s = true ->
  ssr_ack_enabled s = true ->
  Z.testbit (it_flags (p_mem s) (p_out s)) 1 = ssr_ack s ->
  let b := Z.testbit (it_flags (p_mem s) it) 0 in
  exists s',
    qcom_smp2p_intr s = Some s' /\
    (p_in s' = Some it /\ negotiation_done s' = true /\ ssr_ack_enabled s' = true) /\
    ssr_ack s' = b /\
    Z.testbit (it_flags (p_mem s') (p_out s)) 1 = b /\
    same_outside (p_out s + 16) (p_out s + 20) (p_mem s) (p_mem s') /\
    kicks s' = kicks s + (if bool_decide (b = ssr_ack s) then 0 else 1) /\
    (b <> ssr_ack s -> SMP2P_VERSION_1 < it_version (p_mem s) it ->
     it_valid_entries (p_mem s) it <= valid_entries s ->
     forall e a i, e ∈ inbound s -> en_value e = Some a -> 0 <= i < 32 ->
     Z.testbit (rd32 (p_mem s) a) i = true -> Z.testbit (irq_rising e) i = true -> (en_name e, i) ∈ fired s').
Proof.
  intros Hs Hb Hi Hn He Ha. cbv zeta. rewrite (intr_open s it Hi Hn He).
  set (b := Z.testbit (it_flags (p_mem s) it) 0).
  destruct (notify_forgot_view (xorb b (ssr_ack s) && (SMP2P_VERSION_1 <? it_version (p_mem s) it)) s it)
    as ((M & S & K & O & I & A & E & N) & F).
  set (s2 := qcom_smp2p_notify_in _ it) in *. clearbody s2. eexists. split; [done|].
  destruct (do_ssr_ack_spec s2) as (A3 & B3 & _ & M3 & _ & K3); [congruence|by rewrite M|]. rewrite O, M in *.
  destruct (bool_decide_reflect (b = ssr_ack s)) as [Eq|Hne].
  - rewrite Eq, xorb_nilpotent. rewrite M. split; [split_and!; congruence|]. split_and!; try done. by rewrite K, Z.add_0_r.
  - assert (b = negb (ssr_ack s)) as Hneg by (by destruct b, (ssr_ack s)).
    replace (xorb b (ssr_ack s)) with true in * by (by destruct b, (ssr_ack s)).
    split; [cbn; split_and!; congruence|]. rewrite B3, A3, A, K3. split_and!; try done; [by rewrite K|].
    intros _ Hver. rewrite (proj2 (Z.ltb_lt _ _) Hver) in F. exact (F eq_refl).
Qed.

(** ** Names *)

(** A name that fits an entry with its terminator. *)
Definition name_ok (name : list Z) : Prop := (length name <= 15)%nat /\ 0 ∉ name.

Lemma cstr_app name l : 0 ∉ name -> cstr (name ++ 0 :: l) = name.
Proof.
  induction name as [|c name IH]; [done|]. rewrite not_elem_of_cons. intros [Hc Hn]. cbn [app cstr].
  rewrite (proj2 (Z.eqb_neq c 0)) by congruence. by rewrite IH.
Qed.

Lemma length_strscpy_buf name : length (strscpy_buf name) = SMP2P_MAX_ENTRY_NAME.
Proof. unfold strscpy_buf. rewrite length_take, length_app, length_replicate. lia. Qed.

Lemma strscpy_buf_ok name :
  name_ok name -> exists l, strscpy_buf name = name ++ 0 :: l.
Proof.
  intros [Hl _]. unfold strscpy_buf. rewrite (take_ge name) by done. rewrite take_app.
  rewrite take_ge by (unfold SMP2P_MAX_ENTRY_NAME; lia). rewrite take_replicate.
  unfold SMP2P_MAX_ENTRY_NAME. destruct (Nat.min _ _) as [|k] eqn:E; [lia|]. by exists (replicate k 0).
Qed.

Lemma name_matches_strscpy name name' :
  name_ok name -> name_matches (strscpy_buf name) name' = bool_decide (name = name').
Proof.
  intros Hn. destruct (strscpy_buf_ok name Hn) as [l ->]. unfold name_matches.
  rewrite bool_decide_true by (apply elem_of_app; right; left). cbn [andb].
  rewrite cstr_app; [done|]. apply Hn.
Qed.

(** The announcement of an entry: where it lands, what is counted. *)
Lemma outbound_entry_spec s e reg :
  p_smem s <> None ->
  bytes_ok (p_mem s) ->
  let v := it_valid_entries (p_mem s) (p_out s) in
  let '(ret, s', e') := qcom_smp2p_outbound_entry s e reg in
  ret = (if reg <? 0 then reg else 0) /\
  p_smem s' <> None /\ p_out s' = p_out s /\
  e' = e <| en_value := Some (it_value (p_out s) v) |> /\
  it_valid_entries (p_mem s') (p_out s) = u16 (v + 1) /\
  load_bytes SMP2P_MAX_ENTRY_NAME (p_mem s') (it_name (p_out s) v) = strscpy_buf (en_name e) /\
  (forall x, x < p_out s + 14 \/ p_out s + 16 <= x -> x < it_name (p_out s) v \/ it_value (p_out s) v <= x ->
     p_mem s' x = p_mem s x).
Proof.
  intros Hs Hb. cbv zeta. pose proof (rd16_bound (p_mem s) (p_out s + 14) Hb) as Hv.
  change (rd16 (p_mem s) (p_out s + 14)) with (it_valid_entries (p_mem s) (p_out s)) in Hv.
  set (v := it_valid_entries (p_mem s) (p_out s)) in *. unfold qcom_smp2p_outbound_entry. cbv zeta.
  fold v. set (m1 := store_bytes (p_mem s) (it_name (p_out s) v) (strscpy_buf (en_name e))).
  set (s1 := set_mem s m1). assert (p_mem s1 = m1) as E1 by (by apply p_mem_set_mem).
  assert (p_smem s1 <> None) as Hs1 by (unfold s1, set_mem; cbn; by destruct (p_smem s)).
  assert (forall x, x < it_name (p_out s) v \/ it_value (p_out s) v <= x -> m1 x = p_mem s x) as O1.
  { intros x Hx. apply store_bytes_other. rewrite length_strscpy_buf. exact Hx. }
  assert (it_valid_entries (p_mem s1) (p_out s) = v) as Ev.
  { rewrite E1. apply load_le_ext. intros i Hi. apply O1. unfold it_value, it_name. lia. }
  rewrite Ev. set (m2 := wr16 _ _ _). rewrite (p_mem_set_mem s1 m2 Hs1).
  split; [done|]. split; [unfold set_mem; cbn; by destruct (p_smem s)|]. split; [done|]. split; [done|].
  split; [|split].
  - unfold m2. rewrite E1. apply load_le_wr_same_16. apply Z.mod_pos_bound. lia.
  - rewrite (load_bytes_ext _ m1).
    + unfold m1. rewrite <- (length_strscpy_buf (en_name e)). apply load_store_bytes_same.
    + intros i Hi. unfold m2. rewrite E1. apply store_le_other. unfold it_name. lia.
  - intros x H1 H2. unfold m2. rewrite E1. unfold wr16. rewrite store_le_other by lia. by apply O1.
Qed.

(** The entry found by [match_entry] is the first with the name. *)
Lemma match_entry_app m it i read l1 e l2 name :
  load_bytes SMP2P_MAX_ENTRY_NAME m (it_name it i) = strscpy_buf name ->
  name_ok name ->
  en_name e = name ->
  Forall (fun e' => en_name e' <> name) l1 ->
  exists lv, match_entry m it i read (l1 ++ e :: l2) =
  l1 ++ ((e <| en_value := Some (it_value it i) |>) <| last_value := lv |>) :: l2.
Proof.
  intros Hb Hn He. induction 1 as [|e' l1 He' _ IH]; cbn [app match_entry]; rewrite Hb, name_matches_strscpy by done.
  - rewrite bool_decide_true by done. destruct read; [by eexists|]. exists (last_value e). by destruct e.
  - rewrite bool_decide_false by congruence. destruct IH as [lv IH]. exists lv. by rewrite <- IH.
Qed.

(** ** Properties *)

(** C37. A value is delivered. [smp2p_update_bits] makes the word
    [value | (old & ~mask)] (bits of [value] outside the mask are not masked off,
    as the code does not), keeps every other byte, and kicks exactly when the
    word changed. A peer that then looks at the entry raises, once each, exactly
    the interrupts of the bits with a wanted edge that differ from the word it
    saw last or are marked to be raised again; it remembers the new word, and
    clears the marks of those it raised. A peer that had seen the old word and
    has no marks so raises the interrupts of the bits that the update changed. *)
Theorem signal_delivered (s : qcom_smp2p) (a mask value : Z) (e : smp2p_entry) :
  p_smem s <> None ->
  bytes_ok (p_mem s) ->
  0 <= value < 2 ^ 32 ->
  en_value e = Some a ->
  let s' := smp2p_update_bits s a mask value in
  let old := rd32 (p_mem s) a in
  let new := rd32 (p_mem s') a in
  let r := notify_entry (p_mem s') e in
  let wanted i := if Z.testbit new i then Z.testbit (irq_rising e) i else Z.testbit (irq_falling e) i in
  (forall i, 0 <= i -> Z.testbit new i = Z.testbit value i || (Z.testbit old i && negb (Z.testbit mask i))) /\
  same_outside a (a + 4) (p_mem s) (p_mem s') /\
  kicks s' = kicks s + (if new =? old then 0 else 1) /\
  NoDup (fst r) /\
  (forall i, i ∈ fst r <-> 0 <= i < 32 /\
     (Z.testbit new i <> Z.testbit (last_value e) i \/ Z.testbit (irq_pending e) i = true) /\ wanted i = true) /\
  last_value (snd r) = new /\
  (forall i, 0 <= i ->
     Z.testbit (irq_pending (snd r)) i = Z.testbit (irq_pending e) i && negb (bool_decide (i ∈ fst r))) /\
  (last_value e = old -> irq_pending e = 0 ->
   forall i, i ∈ fst r <-> 0 <= i < 32 /\ Z.testbit new i <> Z.testbit old i /\ wanted i = true).
Proof.
  intros Hs Hb Hv He. cbv zeta.
  destruct (update_bits_spec s a mask value Hs Hb Hv) as (Hm & Hw & Hk).
  set (s' := smp2p_update_bits s a mask value) in *.
  destruct (notify_entry_spec (p_mem s') e a He) as (F & S & P).
  split; [intros i Hi; rewrite Hw; by apply merge_bits|].
  split; [rewrite Hm; apply same_outside_store_le; lia|]. split; [done|].
  split; [apply notify_entry_NoDup|]. split; [exact F|]. split; [by rewrite S|]. split; [exact P|].
  intros Hl Hp i. rewrite F, Hl, Hp, Z.bits_0. intuition congruence.
Qed.

(** No interrupt is raised twice for one change: running the handler of
    inbound changes again on unchanged shared memory raises nothing and
    changes nothing. *)
Theorem notify_in_idempotent (s : qcom_smp2p) (it : Z) :
  let s' := qcom_smp2p_notify_in s it in
  qcom_smp2p_notify_in s' it = s'.
Proof.
  cbv zeta. destruct (notify_in_view s it) as (Hm & _ & Hv & Hi & Hf & _).
  set (s' := qcom_smp2p_notify_in s it) in *. unfold qcom_smp2p_notify_in at 1.
  rewrite match_new_none by (rewrite Hm, Hv; lia). rewrite Hm, Hi, notify_entries_again, <- Hi.
  destruct s'. unfold set_field; cbn. by rewrite app_nil_r.
Qed.

(** The restart handshake. With the feature negotiated and the ack flag
    in step with the driver, one interrupt makes the ack flag of the outbound
    item equal to the restart flag of the inbound item, touches nothing else
    and kicks exactly when it acknowledges; a second interrupt acknowledges
    nothing. After a restart of a version 2 peer every set bit with a rising
    edge asked for is raised again, since the last values were forgotten. *)
Theorem ssr_handshake (s : qcom_smp2p) (it : Z) :
  p_smem s <> None ->
  bytes_ok (p_mem s) ->
  p_in s = Some it ->
  negotiation_done s = true ->
  ssr_ack_enabled s = true ->
  it + sizeof_smp2p_item <= p_out s \/ p_out s + sizeof_smp2p_item <= it ->
  Z.testbit (it_flags (p_mem s) (p_out s)) SMP2P_FLAGS_RESTART_ACK_BIT = ssr_ack s ->
  let restart := Z.testbit (it_flags (p_mem s) it) SMP2P_FLAGS_RESTART_DONE_BIT in
  exists s' s'',
    qcom_smp2p_intr s = Some s' /\
    ssr_ack s' = restart /\
    Z.testbit (it_flags (p_mem s') (p_out s)) SMP2P_FLAGS_RESTART_ACK_BIT = restart /\
    same_outside (p_out s + 16) (p_out s + 20) (p_mem s) (p_mem s') /\
    kicks s' = kicks s + (if bool_decide (restart = ssr_ack s) then 0 else 1) /\
    (restart <> ssr_ack s -> SMP2P_VERSION_1 < it_version (p_mem s) it ->
     it_valid_entries (p_mem s) it <= valid_entries s ->
     forall e a i, e ∈ inbound s -> en_value e = Some a -> 0 <= i < 32 ->
     Z.testbit (rd32 (p_mem s) a) i = true -> Z.testbit (irq_rising e) i = true -> (en_name e, i) ∈ fired s') /\
    qcom_smp2p_intr s' = Some s'' /\
    p_mem s'' = p_mem s' /\ ssr_ack s'' = ssr_ack s' /\ kicks s'' = kicks s'.
Proof.
  unfold SMP2P_FLAGS_RESTART_DONE_BIT, SMP2P_FLAGS_RESTART_ACK_BIT, sizeof_smp2p_item.
  intros Hs Hb Hi Hn He Hd Ha. cbv zeta.
  destruct (intr_once s it Hs Hb Hi Hn He Ha) as (s' & I & (Hi' & Hn' & He') & A & B & M & K & F).
  destruct (it_reads_eq (p_mem s) (p_mem s') it _ _ M) as (Fl & _); [clear - Hd; unfold sizeof_smp2p_item; lia|].
  pose proof (intr_open s' it Hi' Hn' He') as I'. cbv zeta in I'. rewrite Fl, A, xorb_nilpotent in I'. cbn [andb] in I'.
  destruct (notify_forgot_view false s' it) as ((M4 & _ & K4 & _ & _ & A4 & _) & _).
  exists s', (qcom_smp2p_notify_in (forgot false s') it). split_and!; done.
Qed.

(** An announced entry is found by the peer. While fewer than sixteen
    entries are announced the new one stays inside the item; the peer that
    next matches entries against this item binds its first inbound entry of
    that name to the very word the local entry writes. *)
Theorem announced_entry_bound (s q : qcom_smp2p) (e e2 : smp2p_entry) (l1 l2 : list smp2p_entry) (reg : Z) (read : bool) :
  p_smem s <> None ->
  bytes_ok (p_mem s) ->
  it_valid_entries (p_mem s) (p_out s) < SMP2P_MAX_ENTRY ->
  name_ok (en_name e) ->
  let '(_, s', e') := qcom_smp2p_outbound_entry s e reg in
  p_mem q = p_mem s' ->
  valid_entries q = it_valid_entries (p_mem s) (p_out s) ->
  inbound q = l1 ++ e2 :: l2 ->
  en_name e2 = en_name e ->
  Forall (fun x => en_name x <> en_name e) l1 ->
  same_outside (p_out s) (p_out s + sizeof_smp2p_item) (p_mem s) (p_mem s') /\
  it_valid_entries (p_mem s') (p_out s) = it_valid_entries (p_mem s) (p_out s) + 1 /\
  exists e2',
    inbound (match_new q (p_out s) read) = l1 ++ e2' :: l2 /\
    en_value e2' = en_value e' /\ en_value e' <> None /\ en_name e2' = en_name e2 /\
    valid_entries (match_new q (p_out s) read) = valid_entries q + 1.
Proof.
  intros Hs Hb Hv Hn. pose proof (outbound_entry_spec s e reg Hs Hb) as O. cbv zeta in O.
  destruct (qcom_smp2p_outbound_entry s e reg) as [[ret s'] e'].
  destruct O as (_ & _ & _ & -> & Hc & Hname & Ho). intros Hq Hqv Hqi He2 Hl1.
  pose proof (rd16_bound (p_mem s) (p_out s + 14) Hb) as Hr.
  change (rd16 (p_mem s) (p_out s + 14)) with (it_valid_entries (p_mem s) (p_out s)) in Hr.
  set (v := it_valid_entries (p_mem s) (p_out s)) in *. unfold SMP2P_MAX_ENTRY in Hv.
  assert (u16 (v + 1) = v + 1) as Eu by (apply Z.mod_small; lia). rewrite Eu in Hc.
  split; [|split; [done|]].
  { intros x Hx. apply Ho; unfold sizeof_smp2p_item, it_value, it_name in *; lia. }
  unfold match_new. cbv zeta. rewrite Hq, Hc, Hqv, Hqi. replace (v + 1 - v) with 1 by lia.
  change (Z.to_nat 1) with 1%nat. cbn [match_entries].
  destruct (match_entry_app (p_mem s') (p_out s) v read l1 e2 l2 (en_name e) Hname Hn He2 Hl1) as [lv ->].
  eexists. split; [done|]. split; [done|]. split; [done|]. split; [done|].
  change (Z.max (valid_entries q) (v + 1) = v + 1). lia.
Qed.

(** There is no limit: the seventeenth entry is written past the item. *)
Lemma seventeenth_entry_outside s e reg :
  p_smem s <> None ->
  bytes_ok (p_mem s) ->
  it_valid_entries (p_mem s) (p_out s) = SMP2P_MAX_ENTRY ->
  let '(_, s', _) := qcom_smp2p_outbound_entry s e reg in
  load_bytes SMP2P_MAX_ENTRY_NAME (p_mem s') (p_out s + sizeof_smp2p_item) = strscpy_buf (en_name e).
Proof.
  intros Hs Hb Hv. pose proof (outbound_entry_spec s e reg Hs Hb) as O. cbv zeta in O.
  destruct (qcom_smp2p_outbound_entry s e reg) as [[ret s'] e']. destruct O as (_ & _ & _ & _ & _ & Hname & _).
  rewrite Hv in Hname. rewrite <- Hname. f_equal. unfold it_name, SMP2P_MAX_ENTRY, sizeof_smp2p_item. lia.
Qed.

(** ** Witnesses *)

Definition demo_smp2p_mem : mem := wr32 (wr16 (wr32 (upd (fun _ => 0) 1004 2) 1016 1) 1014 1) 1036 5.

Definition demo_smp2p_smem : qcom_smem := mk_smem demo_smp2p_mem 0 0 demo_part [] [].

Definition demo_name : list Z := [109; 97; 115; 116; 101; 114].

Definition demo_in_entry : smp2p_entry := mk_entry demo_name (Some 1036) 5 0 0 7 7.

(** Our item at 2000, the peer's at 1000; the peer has just restarted. *)
Definition demo_smp2p : qcom_smp2p :=
  mk_smp2p (Some demo_smp2p_smem) (Some 1000) 2000 1 2 1 true false true 0 1 [demo_in_entry] [] 0 [].

Lemma demo_smp2p_bytes : bytes_ok demo_smp2p_mem.
Proof.
  unfold demo_smp2p_mem, wr32, wr16. repeat apply bytes_ok_store_le. apply bytes_ok_upd; [|lia]. intros a. lia.
Qed.

Lemma demo_name_ok : name_ok demo_name.
Proof. split; [vm_compute; lia|]. by apply (bool_decide_unpack _). Qed.

Lemma signal_delivered_witness :
  fst (notify_entry (p_mem (smp2p_update_bits demo_smp2p 1036 6 2)) demo_in_entry) = [1; 2] /\
  forall i, i ∈ fst (notify_entry (p_mem (smp2p_update_bits demo_smp2p 1036 6 2)) demo_in_entry) <->
    0 <= i < 32 /\ Z.testbit 3 i <> Z.testbit 5 i /\ (if Z.testbit 3 i then Z.testbit 7 i else Z.testbit 7 i) = true.
Proof.
  split; [vm_compute; reflexivity|].
  pose proof (signal_delivered demo_smp2p 1036 6 2 demo_in_entry) as W. cbv zeta in W.
  assert (0 <= 2 < 2 ^ 32) as Hv by lia.
  destruct (W ltac:(discriminate) demo_smp2p_bytes Hv eq_refl) as (_ & _ & _ & _ & _ & _ & _ & D).
  apply D; [vm_compute; reflexivity|reflexivity].
Defined.

Lemma ssr_handshake_witness :
  exists s' s'', qcom_smp2p_intr demo_smp2p = Some s' /\ ssr_ack s' = true /\ kicks s' = 1 /\
    (demo_name, 2) ∈ fired s' /\ qcom_smp2p_intr s' = Some s'' /\ kicks s'' = 1.
Proof.
  destruct (ssr_handshake demo_smp2p 1000) as (s' & s'' & I & A & _ & _ & K & F & I' & _ & _ & K').
  { discriminate. } { exact demo_smp2p_bytes. } { reflexivity. } { reflexivity. } { reflexivity. }
  { left. vm_compute. congruence. } { vm_compute. reflexivity. }
  exists s', s''. assert (kicks s' = 1) as K1 by (rewrite K; vm_compute; reflexivity).
  split; [exact I|]. split; [rewrite A; vm_compute; reflexivity|]. split; [exact K1|].
  split; [|split; [exact I'|by rewrite K', K1]].
  apply (F ltac:(vm_compute; congruence) ltac:(vm_compute; congruence) ltac:(vm_compute; congruence)
           demo_in_entry 1036 2); [by left|reflexivity|lia|vm_compute; reflexivity|vm_compute; reflexivity].
Defined.

Definition demo_peer : qcom_smp2p :=
  demo_smp2p <| inbound := [new_entry [120]; new_entry demo_name; new_entry [121]] |>.

Definition demo_new : Z * qcom_smp2p * smp2p_entry :=
  qcom_smp2p_outbound_entry (demo_smp2p <| p_out := 1000 |>) (new_entry demo_name) 0.

Lemma announced_entry_bound_witness :
  exists e2', inbound (match_new (demo_peer <| p_smem := p_smem (snd (fst demo_new)) |>) 1000 false) =
    [new_entry [120]] ++ e2' :: [new_entry [121]] /\ en_value e2' = Some 1056.
Proof.
  pose proof (announced_entry_bound (demo_smp2p <| p_out := 1000 |>)
    (demo_peer <| p_smem := p_smem (snd (fst demo_new)) |>) (new_entry demo_name) (new_entry demo_name)
    [new_entry [120]] [new_entry [121]] 0 false) as W.
  destruct W as (_ & _ & e2' & I & V & _).
  { discriminate. } { exact demo_smp2p_bytes. } { vm_compute. reflexivity. } { exact demo_name_ok. }
  { reflexivity. } { vm_compute. reflexivity. } { reflexivity. } { reflexivity. }
  { constructor; [discriminate|constructor]. }
  exists e2'. split; [exact I|]. rewrite V. vm_compute. reflexivity.
Defined.
