(* ===== verification/QmiEncdec.v ===== *)
(** * QmiEncdec: the QMI message encoder and decoder
      (src/drivers/soc/qcom/qmi_encdec.c, src/include/linux/soc/qcom/qmi.h)

    Messages are C structures described by arrays of element descriptors.
    The encoder writes type-length-value records, the decoder reads them back.
    A pointer into a descriptor array is the rest of the array as a list. The
    structure and the message live in separate memories, since the message
    buffer is freshly allocated. [None] stands for undefined behaviour: a read
    past a descriptor array or through a null one, and for a nesting deeper
    than the bound [depth] the functions take. *)
From stdpp Require Import prelude list.
From S2P Require Import Prelude.

(** ** Descriptors *)

Inductive qmi_elem_type :=
| QMI_EOTI
| QMI_OPT_FLAG
| QMI_DATA_LEN
| QMI_UNSIGNED_1_BYTE
| QMI_UNSIGNED_2_BYTE
| QMI_UNSIGNED_4_BYTE
| QMI_UNSIGNED_8_BYTE
| QMI_SIGNED_2_BYTE_ENUM
| QMI_SIGNED_4_BYTE_ENUM
| QMI_STRUCT
| QMI_STRING.

#[global] Instance qmi_elem_type_eq_dec : EqDecision qmi_elem_type.
Proof. solve_decision. Defined.

Inductive qmi_array_type :=
| NO_ARRAY
| STATIC_ARRAY
| VAR_LEN_ARRAY.

#[global] Instance qmi_array_type_eq_dec : EqDecision qmi_array_type.
Proof. solve_decision. Defined.

#[warnings="-register-all"]
Inductive qmi_elem_info := mk_ei {
  data_type : qmi_elem_type;
  elem_len : Z;
  elem_size : Z;
  array_type : qmi_array_type;
  tlv_type : Z;
  offset : Z;
  ei_array : option (list qmi_elem_info);
}.

Definition TLV_LEN_SIZE : Z := 2.

Definition TLV_TYPE_SIZE : Z := 1.

Definition OPTIONAL_TLV_TYPE_START : Z := 16.

Definition sizeof_qmi_header : Z := 7.

(** ** Helpers *)

(** The do-while of [skip_to_next_elem]. *)
Fixpoint skip_same_type (l : list qmi_elem_info) : option (list qmi_elem_info) :=
  match l with
  | e :: l' =>
      match l' with
      | e' :: _ => if tlv_type e =? tlv_type e' then skip_same_type l' else Some l'
      | [] => None
      end
  | [] => None
  end.

Definition skip_to_next_elem (l : list qmi_elem_info) (level : Z) : option (list qmi_elem_info) :=
  if 1 <? level then
    match l with
    | _ :: l' => Some l'
    | [] => None
    end
  else skip_same_type l.

(** The size of a length on the wire. *)
Definition data_len_size (e : qmi_elem_info) : Z := if elem_size e =? 1 then 1 else 2.

Definition string_len_size (e : qmi_elem_info) : Z := if elem_len e <=? U8_MAX then 1 else 2.

(** The loop of [qmi_calc_min_msg_len] over the array; [rec] is the function
    itself on nested arrays and [n] bounds the turns. *)
Fixpoint min_len_loop (rec : option (list qmi_elem_info) -> option Z) (level : Z) (n : nat)
  (l : list qmi_elem_info) (min_msg_len : Z) : option Z :=
  match n with
  | O => None
  | S n' =>
      match l with
      | [] => None
      | e :: l' =>
          let next (add : Z) :=
            min_len_loop rec level n' l' (s32 (min_msg_len + add + (if level =? 1 then TLV_TYPE_SIZE + TLV_LEN_SIZE else 0))) in
          match data_type e with
          | QMI_EOTI => Some min_msg_len
          | QMI_OPT_FLAG =>
              match skip_to_next_elem l level with
              | None => None
              | Some l'' => min_len_loop rec level n' l'' min_msg_len
              end
          | QMI_DATA_LEN => min_len_loop rec level n' l' (s32 (min_msg_len + data_len_size e))
          | QMI_STRUCT =>
              match rec (ei_array e) with
              | None => None
              | Some k => next k
              end
          | QMI_STRING => next ((if 1 <? level then string_len_size e else 0) + u32 (elem_len e * elem_size e))
          | _ => next (u32 (elem_len e * elem_size e))
          end
      end
  end.

Fixpoint qmi_calc_min_msg_len (depth : nat) (ei : option (list qmi_elem_info)) (level : Z) : option Z :=
  match ei with
  | None => Some 0
  | Some l =>
      match depth with
      | O => None
      | S d => min_len_loop (fun ei => qmi_calc_min_msg_len d ei (level + 1)) level (length l) l 0
      end
  end.

(** A local 32-bit variable, as the bytes at addresses 0 to 3. *)
Definition word_mem (v : Z) : mem := store_le 4 (fun _ => 0) 0 v.

Definition word_of (m : mem) : Z := load_le 4 m 0.

(** The copy loop of the basic elements: [elem_len] times [elem_size] bytes
    from [src] in memory [sm] to [dst] in memory [m]; the bytes copied. *)
Fixpoint copy_elems (n : nat) (size : Z) (sm : mem) (src : Z) (m : mem) (dst rc : Z) : Z * mem :=
  match n with
  | O => (rc, m)
  | S k =>
      copy_elems k size sm (src + size) (store_bytes m dst (load_bytes (Z.to_nat size) sm src)) (dst + size)
        (u32 (rc + size))
  end.

(** ** Encoding *)

Definition qmi_encode_basic_elem (m : mem) (buf_dst : Z) (sm : mem) (buf_src len size : Z) : Z * mem :=
  let '(rc, m) := copy_elems (Z.to_nat len) size sm buf_src m buf_dst 0 in (s32 rc, m).

(** The type of [qmi_encode], for the calls on nested structures: descriptor
    array, message memory, buffer, structure, space left, level. *)
Definition encoder : Type := option (list qmi_elem_info) -> mem -> Z -> Z -> Z -> Z -> option (Z * mem).

Fixpoint encode_structs (rec : encoder) (e : qmi_elem_info) (n : nat) (m : mem)
  (buf_dst buf_src out_buf_len enc_level encoded_bytes : Z) : option (Z * mem) :=
  match n with
  | O => Some (encoded_bytes, m)
  | S k =>
      match rec (ei_array e) m buf_dst buf_src (u32 (out_buf_len - encoded_bytes)) enc_level with
      | None => None
      | Some (rc, m) =>
          if rc <? 0 then Some (rc, m)
          else encode_structs rec e k m (buf_dst + rc) (buf_src + elem_size e) out_buf_len enc_level
                 (encoded_bytes + rc)
      end
  end.

Definition qmi_encode_struct_elem (rec : encoder) (e : qmi_elem_info) (m : mem)
  (buf_dst buf_src len out_buf_len enc_level : Z) : option (Z * mem) :=
  encode_structs rec e (Z.to_nat len) m buf_dst buf_src out_buf_len enc_level 0.

(** [strlen] of the string at [a], counted up to [n]: the code only asks
    whether it exceeds [elem_len], and for its value when it does not. *)
Fixpoint strlen_upto (n : nat) (sm : mem) (a : Z) : Z :=
  match n with
  | O => 0
  | S k => if sm a =? 0 then 0 else 1 + strlen_upto k sm (a + 1)
  end.

Definition qmi_encode_string_elem (e : qmi_elem_info) (m : mem) (buf_dst : Z) (sm : mem)
  (buf_src out_buf_len enc_level : Z) : Z * mem :=
  let string_len := strlen_upto (S (Z.to_nat (elem_len e))) sm buf_src in
  let string_len_sz := string_len_size e in
  if elem_len e <? string_len then (- EINVAL, m)
  else if enc_level =? 1 then
    if out_buf_len <? string_len + TLV_LEN_SIZE + TLV_TYPE_SIZE then (- ETOOSMALL, m)
    else qmi_encode_basic_elem m buf_dst sm buf_src string_len (elem_size e)
  else if out_buf_len <? u32 (string_len + string_len_sz) then (- ETOOSMALL, m)
  else
    let '(encoded_bytes, m) := qmi_encode_basic_elem m buf_dst (word_mem string_len) 0 1 string_len_sz in
    let '(rc, m) := qmi_encode_basic_elem m (buf_dst + encoded_bytes) sm buf_src string_len (elem_size e) in
    (encoded_bytes + rc, m).

(** The variables of [qmi_encode]'s loop. *)
Record enc_state := mk_enc {
  es_ei : list qmi_elem_info;
  es_data_len_value : Z;
  es_buf_dst : Z;
  es_tlv_pointer : Z;
  es_tlv_len : Z;
  es_encoded_bytes : Z;
  es_encode_tlv : bool;
  es_mem : mem;
}.

#[export] Instance eta_enc_state : Settable enc_state :=
  fun s => mk_enc (es_ei s) (es_data_len_value s) (es_buf_dst s) (es_tlv_pointer s) (es_tlv_len s)
             (es_encoded_bytes s) (es_encode_tlv s) (es_mem s).

(** A turn of a loop: go on, or return from the function. *)
Inductive turn (S : Type) :=
| Next (s : S)
| Return (rc : Z) (m : mem).
Arguments Next {S} s.
Arguments Return {S} rc m.

(** [UPDATE_ENCODE_VARIABLES], with the memory written. *)
Definition update_encode (s : enc_state) (rc : Z) (m : mem) : enc_state :=
  let s := s <| es_mem := m |> in
  let s := s <| es_buf_dst := es_buf_dst s + rc |> in
  let s := s <| es_encoded_bytes := u32 (es_encoded_bytes s + rc) |> in
  let s := s <| es_tlv_len := u32 (es_tlv_len s + rc) |> in
  let s := s <| es_ei := tail (es_ei s) |> in
  s <| es_encode_tlv := true |>.

(** [QMI_ENCDEC_ENCODE_TLV] and the start of the next record. *)
Definition finish_tlv (s : enc_state) (ty enc_level : Z) : enc_state :=
  if es_encode_tlv s && (enc_level =? 1) then
    let m := store_bytes (es_mem s) (es_tlv_pointer s)
               [ty; Z.land (es_tlv_len s) 255; Z.land (Z.shiftr (es_tlv_len s) 8) 255] in
    let s := s <| es_mem := m |> in
    let s := s <| es_encoded_bytes := u32 (es_encoded_bytes s + (TLV_TYPE_SIZE + TLV_LEN_SIZE)) |> in
    let s := s <| es_tlv_pointer := es_buf_dst s |> in
    let s := s <| es_tlv_len := 0 |> in
    let s := s <| es_buf_dst := es_buf_dst s + TLV_LEN_SIZE + TLV_TYPE_SIZE |> in
    s <| es_encode_tlv := false |>
  else s.

(** The choice of [data_len_value] before the switch; [None] is the error
    return. *)
Definition enc_data_len (e : qmi_elem_info) (old : Z) : option Z :=
  match array_type e with
  | NO_ARRAY => Some 1
  | STATIC_ARRAY => Some (elem_len e)
  | VAR_LEN_ARRAY => if (old <=? 0) || (elem_len e <? old) then None else Some old
  end.

(** The switch of [qmi_encode] on an element other than the end. *)
Definition encode_switch (rec : encoder) (s : enc_state) (e : qmi_elem_info) (sm : mem)
  (in_c_struct out_buf_len enc_level : Z) : option (turn enc_state) :=
  let buf_src := in_c_struct + offset e in
  match data_type e with
  | QMI_EOTI => Some (Return (- EINVAL) (es_mem s))
  | QMI_OPT_FLAG =>
      if truth (rd8 sm buf_src) then Some (Next (s <| es_ei := tail (es_ei s) |>))
      else
        match skip_to_next_elem (es_ei s) enc_level with
        | None => None
        | Some l => Some (Next (s <| es_ei := l |>))
        end
  | QMI_DATA_LEN =>
      if 4 <? elem_size e then None
      else
        let v := word_of (store_bytes (word_mem (es_data_len_value s)) 0
                            (load_bytes (Z.to_nat (elem_size e)) sm buf_src)) in
        let s := s <| es_data_len_value := v |> in
        let data_len_sz := data_len_size e in
        if out_buf_len <? u32 (data_len_sz + es_encoded_bytes s) + TLV_LEN_SIZE + TLV_TYPE_SIZE then
          Some (Return (- ETOOSMALL) (es_mem s))
        else
          let '(rc, m) := qmi_encode_basic_elem (es_mem s) (es_buf_dst s) (word_mem v) 0 1 data_len_sz in
          let s := update_encode s rc m in
          if v =? 0 then
            match skip_to_next_elem (es_ei s) enc_level with
            | None => None
            | Some l => Some (Next (s <| es_ei := l |>))
            end
          else Some (Next (s <| es_encode_tlv := false |>))
  | QMI_STRUCT =>
      match qmi_encode_struct_elem rec e (es_mem s) (es_buf_dst s) buf_src (es_data_len_value s)
              (u32 (out_buf_len - es_encoded_bytes s)) (enc_level + 1) with
      | None => None
      | Some (rc, m) => if rc <? 0 then Some (Return rc m) else Some (Next (update_encode s rc m))
      end
  | QMI_STRING =>
      let '(rc, m) := qmi_encode_string_elem e (es_mem s) (es_buf_dst s) sm buf_src
                        (u32 (out_buf_len - es_encoded_bytes s)) enc_level in
      if rc <? 0 then Some (Return rc m) else Some (Next (update_encode s rc m))
  | _ =>
      if out_buf_len <? u32 (u32 (es_data_len_value s * elem_size e) + es_encoded_bytes s)
                        + TLV_LEN_SIZE + TLV_TYPE_SIZE then
        Some (Return (- ETOOSMALL) (es_mem s))
      else
        let '(rc, m) := qmi_encode_basic_elem (es_mem s) (es_buf_dst s) sm buf_src (es_data_len_value s)
                          (elem_size e) in
        Some (Next (update_encode s rc m))
  end.

(** One turn of the loop on element [e]. *)
Definition encode_turn (rec : encoder) (s : enc_state) (e : qmi_elem_info) (sm : mem)
  (in_c_struct out_buf_len enc_level : Z) : option (turn enc_state) :=
  match enc_data_len e (es_data_len_value s) with
  | None => Some (Return (- EINVAL) (es_mem s))
  | Some v =>
      match encode_switch rec (s <| es_data_len_value := v |>) e sm in_c_struct out_buf_len enc_level with
      | Some (Next s) => Some (Next (finish_tlv s (tlv_type e) enc_level))
      | r => r
      end
  end.

(** The loop; every turn moves on in the array, so [n] is its length. *)
Fixpoint encode_loop (rec : encoder) (sm : mem) (in_c_struct out_buf_len enc_level : Z) (n : nat) (s : enc_state)
  : option (Z * mem) :=
  match n with
  | O => None
  | S k =>
      match es_ei s with
      | [] => None
      | e :: _ =>
          if decide (data_type e = QMI_EOTI) then Some (s32 (es_encoded_bytes s), es_mem s)
          else
            match encode_turn rec s e sm in_c_struct out_buf_len enc_level with
            | None => None
            | Some (Return rc m) => Some (rc, m)
            | Some (Next s) => encode_loop rec sm in_c_struct out_buf_len enc_level k s
            end
      end
  end.

Fixpoint qmi_encode (depth : nat) (sm : mem) (ei : option (list qmi_elem_info)) (m : mem)
  (out_buf in_c_struct out_buf_len enc_level : Z) : option (Z * mem) :=
  match ei with
  | None => Some (0, m)
  | Some l =>
      match depth with
      | O => None
      | S d =>
          let buf_dst := if enc_level =? 1 then out_buf + (TLV_LEN_SIZE + TLV_TYPE_SIZE) else out_buf in
          encode_loop (qmi_encode d sm) sm in_c_struct out_buf_len enc_level (length l)
            (mk_enc l 0 buf_dst out_buf 0 0 false m)
      end
  end.

(** ** Decoding *)

Definition qmi_decode_basic_elem (m : mem) (buf_dst : Z) (bm : mem) (buf_src len size src_len : Z) : Z * mem :=
  if src_len <? u32 (len * size) then (- EINVAL, m)
  else let '(rc, m) := copy_elems (Z.to_nat len) size bm buf_src m buf_dst 0 in (s32 rc, m).

(** The type of [qmi_decode] for nested structures: descriptor array,
    structure memory, structure, buffer, length, level. *)
Definition decoder : Type := option (list qmi_elem_info) -> mem -> Z -> Z -> Z -> Z -> option (Z * mem).

(** The loop over the structures of an array: the return value of a failed
    decoding, or the elements left and the bytes decoded. *)
Fixpoint decode_structs (rec : decoder) (e : qmi_elem_info) (n : nat) (m : mem)
  (buf_dst buf_src tlv_len dec_level decoded_bytes : Z) : option ((Z + nat * Z) * mem) :=
  match n with
  | O => Some (inr (O, decoded_bytes), m)
  | S k =>
      if u32 decoded_bytes <? tlv_len then
        match rec (ei_array e) m buf_dst buf_src (u32 (tlv_len - decoded_bytes)) dec_level with
        | None => None
        | Some (rc, m) =>
            if rc <? 0 then Some (inl rc, m)
            else decode_structs rec e k m (buf_dst + elem_size e) (buf_src + rc) tlv_len dec_level
                   (decoded_bytes + rc)
        end
      else Some (inr (n, decoded_bytes), m)
  end.

Definition qmi_decode_struct_elem (rec : decoder) (e : qmi_elem_info) (m : mem)
  (buf_dst buf_src len tlv_len dec_level src_len : Z) : option (Z * mem) :=
  if src_len <? tlv_len then Some (- EINVAL, m)
  else
    match decode_structs rec e (Z.to_nat len) m buf_dst buf_src tlv_len dec_level 0 with
    | None => None
    | Some (inl rc, m) => Some (rc, m)
    | Some (inr (todo, decoded_bytes), m) =>
        if ((dec_level <=? 2) && negb (u32 decoded_bytes =? tlv_len)) ||
           ((2 <? dec_level) && ((0 <? Z.of_nat todo) || (tlv_len <? u32 decoded_bytes))) then
          Some (- EFAULT, m)
        else Some (decoded_bytes, m)
    end.

Definition qmi_decode_string_elem (e : qmi_elem_info) (m : mem) (buf_dst : Z) (bm : mem)
  (buf_src tlv_len dec_level src_len : Z) : Z * mem :=
  let '(rc, string_len) :=
    if dec_level =? 1 then (0, tlv_len)
    else
      let '(rc, w) := qmi_decode_basic_elem (word_mem 0) 0 bm buf_src 1 (string_len_size e) src_len in
      (rc, word_of w) in
  if rc <? 0 then (rc, m)
  else if elem_len e <=? string_len then (- ETOOSMALL, m)
  else if tlv_len <? string_len then (- EFAULT, m)
  else
    let decoded_bytes := rc in
    let '(rc, m) := qmi_decode_basic_elem m buf_dst bm (buf_src + decoded_bytes) string_len (elem_size e)
                      (u32 (src_len - decoded_bytes)) in
    if rc <? 0 then (rc, m)
    else (decoded_bytes + rc, upd m (buf_dst + string_len) 0).

Fixpoint find_ei (l : list qmi_elem_info) (ty : Z) : option (option (list qmi_elem_info)) :=
  match l with
  | [] => None
  | e :: l' =>
      if decide (data_type e = QMI_EOTI) then Some None
      else if tlv_type e =? u8 ty then Some (Some l)
      else find_ei l' ty
  end.

(** The variables of [qmi_decode]'s loop. *)
Record dec_state := mk_dec {
  ds_ei : list qmi_elem_info;
  ds_data_len_value : Z;
  ds_buf_src : Z;
  ds_tlv_len : Z;
  ds_decoded_bytes : Z;
  ds_mem : mem;
}.

#[export] Instance eta_dec_state : Settable dec_state :=
  fun s => mk_dec (ds_ei s) (ds_data_len_value s) (ds_buf_src s) (ds_tlv_len s) (ds_decoded_bytes s) (ds_mem s).

(** [UPDATE_DECODE_VARIABLES] *)
Definition update_decode (s : dec_state) (rc : Z) : dec_state :=
  let s := s <| ds_buf_src := ds_buf_src s + rc |> in
  s <| ds_decoded_bytes := u32 (ds_decoded_bytes s + rc) |>.

(** The start of a turn: the record header at level 1, the rest of the buffer
    at nested levels. [inr] skips the rest of the turn: the record is unknown
    and optional. *)
Definition decode_header (arr : list qmi_elem_info) (bm : mem) (in_buf_len dec_level : Z) (s : dec_state)
  : option (turn dec_state + dec_state) :=
  if dec_level =? 1 then
    if in_buf_len <? ds_decoded_bytes s + TLV_TYPE_SIZE + TLV_LEN_SIZE then Some (inl (Return (- EINVAL) (ds_mem s)))
    else
      let ty := rd8 bm (ds_buf_src s) in
      let len := Z.lor (rd8 bm (ds_buf_src s + 1)) (Z.shiftl (rd8 bm (ds_buf_src s + 2)) 8) in
      let s := s <| ds_tlv_len := len |> in
      let s := update_decode s (TLV_TYPE_SIZE + TLV_LEN_SIZE) in
      match find_ei arr ty with
      | None => None
      | Some None =>
          if ty <? OPTIONAL_TLV_TYPE_START then Some (inl (Return (- EINVAL) (ds_mem s)))
          else Some (inl (Next (update_decode s len)))
      | Some (Some l) => Some (inr (s <| ds_ei := l |>))
      end
  else Some (inr (s <| ds_tlv_len := u32 (in_buf_len - ds_decoded_bytes s) |>)).

(** The optional flag in front of an element is set. *)
Definition decode_opt_flag (out : Z) (s : dec_state) : option dec_state :=
  match ds_ei s with
  | [] => None
  | e :: l =>
      if decide (data_type e = QMI_OPT_FLAG) then
        let s := s <| ds_mem := upd (ds_mem s) (out + offset e) 1 |> in
        Some (s <| ds_ei := l |>)
      else Some s
  end.

(** The length in front of an array is read; [inl] is the error return. *)
Definition decode_data_len (out : Z) (bm : mem) (in_buf_len : Z) (s : dec_state) : option (Z + dec_state) :=
  match ds_ei s with
  | [] => None
  | e :: l =>
      if decide (data_type e = QMI_DATA_LEN) then
        let data_len_sz := data_len_size e in
        let '(rc, w) := qmi_decode_basic_elem (word_mem (ds_data_len_value s)) 0 bm (ds_buf_src s) 1 data_len_sz
                          (u32 (in_buf_len - ds_decoded_bytes s)) in
        if rc <? 0 then Some (inl rc)
        else
          let s := s <| ds_data_len_value := word_of w |> in
          let s := s <| ds_mem := store_le 4 (ds_mem s) (out + offset e) (ds_data_len_value s) |> in
          let s := s <| ds_ei := l |> in
          let s := s <| ds_tlv_len := u32 (ds_tlv_len s - data_len_sz) |> in
          Some (inr (update_decode s rc))
      else Some (inr s)
  end.

(** The choice of [data_len_value]; [None] is the error return. *)
Definition dec_data_len (e : qmi_elem_info) (old : Z) : option Z :=
  match array_type e with
  | NO_ARRAY => Some 1
  | STATIC_ARRAY => Some (elem_len e)
  | VAR_LEN_ARRAY => if elem_len e <? old then None else Some old
  end.

(** The switch of [qmi_decode]: the bytes decoded or an error, and memory. *)
Definition decode_switch (rec : decoder) (e : qmi_elem_info) (out : Z) (bm : mem) (in_buf_len dec_level : Z)
  (s : dec_state) : option (Z * mem) :=
  let buf_dst := out + offset e in
  let src_len := u32 (in_buf_len - ds_decoded_bytes s) in
  match data_type e with
  | QMI_EOTI | QMI_OPT_FLAG | QMI_DATA_LEN => Some (- EINVAL, ds_mem s)
  | QMI_STRUCT =>
      qmi_decode_struct_elem rec e (ds_mem s) buf_dst (ds_buf_src s) (ds_data_len_value s) (ds_tlv_len s)
        (dec_level + 1) src_len
  | QMI_STRING =>
      Some (qmi_decode_string_elem e (ds_mem s) buf_dst bm (ds_buf_src s) (ds_tlv_len s) dec_level src_len)
  | _ =>
      Some (qmi_decode_basic_elem (ds_mem s) buf_dst bm (ds_buf_src s) (ds_data_len_value s) (elem_size e) src_len)
  end.

(** The rest of a turn: flag, length, element. *)
Definition decode_element (rec : decoder) (out : Z) (bm : mem) (in_buf_len dec_level : Z) (s : dec_state)
  : option (turn dec_state) :=
  match decode_opt_flag out s with
  | None => None
  | Some s =>
      match decode_data_len out bm in_buf_len s with
      | None => None
      | Some (inl rc) => Some (Return rc (ds_mem s))
      | Some (inr s) =>
          match ds_ei s with
          | [] => None
          | e :: l =>
              match dec_data_len e (ds_data_len_value s) with
              | None => Some (Return (- ETOOSMALL) (ds_mem s))
              | Some v =>
                  let s := s <| ds_data_len_value := v |> in
                  match decode_switch rec e out bm in_buf_len dec_level s with
                  | None => None
                  | Some (rc, m) =>
                      if rc <? 0 then Some (Return rc m)
                      else
                        let s := s <| ds_mem := m |> in
                        let s := update_decode s rc in
                        Some (Next (s <| ds_ei := l |>))
                  end
              end
          end
      end
  end.

(** The test for the end of a nested array. *)
Definition decode_at_end (dec_level : Z) (s : dec_state) : option bool :=
  if 2 <=? dec_level then
    match ds_ei s with
    | [] => None
    | e :: _ => Some (bool_decide (data_type e = QMI_EOTI))
    end
  else Some false.

(** One turn of the loop. *)
Definition decode_turn (rec : decoder) (arr : list qmi_elem_info) (out : Z) (bm : mem) (in_buf_len dec_level : Z)
  (s : dec_state) : option (turn dec_state) :=
  match decode_at_end dec_level s with
  | None => None
  | Some true => Some (Return (s32 (ds_decoded_bytes s)) (ds_mem s))
  | Some false =>
      match decode_header arr bm in_buf_len dec_level s with
      | None => None
      | Some (inl t) => Some t
      | Some (inr s) => decode_element rec out bm in_buf_len dec_level s
      end
  end.

(** The loop: at level 1 every turn takes at least three bytes, at nested
    levels every turn moves on in the array. *)
Fixpoint decode_loop (rec : decoder) (arr : list qmi_elem_info) (out : Z) (bm : mem) (in_buf_len dec_level : Z)
  (n : nat) (s : dec_state) : option (Z * mem) :=
  match n with
  | O => None
  | S k =>
      if ds_decoded_bytes s <? in_buf_len then
        match decode_turn rec arr out bm in_buf_len dec_level s with
        | None => None
        | Some (Return rc m) => Some (rc, m)
        | Some (Next s) => decode_loop rec arr out bm in_buf_len dec_level k s
        end
      else Some (s32 (ds_decoded_bytes s), ds_mem s)
  end.

Fixpoint qmi_decode (depth : nat) (bm : mem) (ei : option (list qmi_elem_info)) (m : mem)
  (out_c_struct in_buf in_buf_len dec_level : Z) : option (Z * mem) :=
  match ei with
  | None => if 0 <? in_buf_len then None else Some (0, m)
  | Some l =>
      match depth with
      | O => None
      | S d =>
          decode_loop (qmi_decode d bm) l out_c_struct bm in_buf_len dec_level
            (S (length l + Z.to_nat in_buf_len)) (mk_dec l 0 in_buf 0 0 m)
      end
  end.

(** ** Messages *)

(** [qmi_encode_message]: [ei] and [c_struct] may be null, [msg] is what
    [kzalloc] returns. The result is the length and the memory of the message. *)
Definition qmi_encode_message (depth : nat) (ty msg_id len txn_id : Z) (ei : option (list qmi_elem_info))
  (sm : mem) (c_struct msg : option Z) : option (result (Z * mem)) :=
  let min :=
    match c_struct with
    | None => qmi_calc_min_msg_len depth ei 1
    | Some _ => Some 0
    end in
  match min with
  | None => None
  | Some ret =>
      if truth ret then Some (Err (- EINVAL))
      else
        match msg with
        | None => Some (Err (- ENOMEM))
        | Some msg =>
            let encoded :=
              match c_struct with
              | None => Some (0, fun _ => 0)
              | Some c => qmi_encode depth sm ei (fun _ => 0) (msg + sizeof_qmi_header) c (u32 len) 1
              end in
            match encoded with
            | None => None
            | Some (msglen, m) =>
                if msglen <? 0 then Some (Err msglen)
                else
                  let m := upd m msg (u8 ty) in
                  let m := wr16 m (msg + 1) (u16 txn_id) in
                  let m := wr16 m (msg + 3) (u16 msg_id) in
                  let m := wr16 m (msg + 5) (u16 msglen) in
                  Some (Ok (sizeof_qmi_header + msglen, m))
            end
        end
  end.

(** [qmi_decode_message]; null pointers are [None]. *)
Definition qmi_decode_message (depth : nat) (bm : mem) (buf : option Z) (len : Z) (ei : option (list qmi_elem_info))
  (m : mem) (c_struct : option Z) : option (Z * mem) :=
  match ei, c_struct, buf with
  | Some _, Some c, Some b =>
      if len =? 0 then Some (- EINVAL, m)
      else qmi_decode depth bm ei m c (b + sizeof_qmi_header) (u32 (len - sizeof_qmi_header)) 1
  | _, _, _ => Some (- EINVAL, m)
  end.

(** The common response header. *)
Definition qmi_response_type_v01_ei : list qmi_elem_info :=
  [ mk_ei QMI_SIGNED_2_BYTE_ENUM 1 2 NO_ARRAY 0 0 None;
    mk_ei QMI_SIGNED_2_BYTE_ENUM 1 2 NO_ARRAY 0 2 None;
    mk_ei QMI_EOTI 0 0 NO_ARRAY 0 0 None ].

(** ** Lemmas: copying *)

(** The copy loop copies one block. *)
Lemma copy_elems_block n size sm src m dst rc :
  0 <= size -> 0 <= rc -> rc + Z.of_nat n * size < 2 ^ 32 ->
  copy_elems n size sm src m dst rc =
  (rc + Z.of_nat n * size, store_bytes m dst (load_bytes (Z.to_nat (Z.of_nat n * size)) sm src)).
Proof.
  intros Hs. revert src m dst rc. induction n as [|n IH]; intros src m dst rc Hr Hb; cbn [copy_elems].
  { by rewrite Z.mul_0_l, Z.add_0_r. }
  rewrite Nat2Z.inj_succ in *. rewrite u32_small by nia. rewrite IH by nia. f_equal; [lia|].
  replace (Z.to_nat (Z.succ (Z.of_nat n) * size)) with (Z.to_nat size + Z.to_nat (Z.of_nat n * size))%nat by nia.
  rewrite load_bytes_app, store_bytes_app, length_load_bytes, Z2Nat.id by lia. done.
Qed.

Lemma encode_basic_block m dst sm src len size :
  0 <= len -> 0 <= size -> len * size < 2 ^ 31 ->
  qmi_encode_basic_elem m dst sm src len size =
  (len * size, store_bytes m dst (load_bytes (Z.to_nat (len * size)) sm src)).
Proof.
  intros. unfold qmi_encode_basic_elem. rewrite copy_elems_block by lia. rewrite Z2Nat.id by lia.
  rewrite s32_small by nia. done.
Qed.

Lemma decode_basic_block m dst bm src len size src_len :
  0 <= len -> 0 <= size -> len * size < 2 ^ 31 ->
  qmi_decode_basic_elem m dst bm src len size src_len =
  if src_len <? len * size then (- EINVAL, m)
  else (len * size, store_bytes m dst (load_bytes (Z.to_nat (len * size)) bm src)).
Proof.
  intros. unfold qmi_decode_basic_elem. rewrite u32_small by nia. case_match; [done|].
  rewrite copy_elems_block by lia. rewrite Z2Nat.id by lia. rewrite s32_small by nia. done.
Qed.

(** ** Well-formed descriptors *)

(** The instances of an element in the structure. *)
Definition ei_count (e : qmi_elem_info) : Z :=
  match array_type e with
  | NO_ARRAY => 1
  | _ => elem_len e
  end.

(** The checks of a descriptor array up to its end. *)
Fixpoint terminated (P : qmi_elem_info -> bool) (l : list qmi_elem_info) : bool :=
  match l with
  | [] => false
  | e :: l' => if decide (data_type e = QMI_EOTI) then true else P e && terminated P l'
  end.

(** An element whose instances lie inside a structure of [size] bytes;
    [nested] checks the descriptors of a nested structure. *)
Definition elem_fits (nested : Z -> list qmi_elem_info -> bool) (size : Z) (e : qmi_elem_info) : bool :=
  (0 <=? offset e) && (0 <=? elem_len e) && (elem_len e <? 2 ^ 32) && (0 <=? elem_size e) && (ei_count e * elem_size e <? 2 ^ 31) &&
  match data_type e with
  | QMI_EOTI => true
  | QMI_OPT_FLAG => offset e + 1 <=? size
  | QMI_DATA_LEN => offset e + 4 <=? size
  | QMI_STRUCT =>
      (offset e + ei_count e * elem_size e <=? size) &&
      match ei_array e with
      | None => false
      | Some l => nested (elem_size e) l
      end
  | QMI_STRING => (elem_size e =? 1) && (offset e + elem_len e <=? size) && (elem_len e <? 2 ^ 31)
  | _ => offset e + ei_count e * elem_size e <=? size
  end.

(** The descriptors of a structure of [size] bytes, nested at most [depth]
    deep. *)
Fixpoint ei_fits (depth : nat) (size : Z) (l : list qmi_elem_info) : bool :=
  match depth with
  | O => false
  | S d => terminated (elem_fits (ei_fits d) size) l
  end.

(** The bytes of [lo, hi) are the same. *)
Definition same_inside (lo hi : Z) (m m' : mem) : Prop := forall x, lo <= x < hi -> m' x = m x.

Lemma same_inside_load n lo hi m m' a :
  same_inside lo hi m m' -> lo <= a -> a + Z.of_nat n <= hi -> load_bytes n m' a = load_bytes n m a.
Proof. intros H ??. apply load_bytes_ext. intros i Hi. apply H. lia. Qed.

Lemma same_inside_le n lo hi m m' a :
  same_inside lo hi m m' -> lo <= a -> a + Z.of_nat n <= hi -> load_le n m' a = load_le n m a.
Proof. intros H ??. apply load_le_ext. intros i Hi. apply H. lia. Qed.

Lemma bytes_ok_word v : bytes_ok (word_mem v).
Proof. apply bytes_ok_store_le. intros a. lia. Qed.

(** A word partly read from bytes is a word. *)
Lemma word_of_range v n m a :
  bytes_ok m -> 0 <= word_of (store_bytes (word_mem v) 0 (load_bytes n m a)) < 2 ^ 32.
Proof.
  intros Hm. apply (load_le_bound 4). apply bytes_ok_store_bytes; [apply bytes_ok_word|by apply load_bytes_ok].
Qed.

(** What [elem_fits] says of an element. *)
Lemma elem_fits_range nested size e :
  elem_fits nested size e = true ->
  0 <= offset e /\ 0 <= elem_len e < 2 ^ 32 /\ 0 <= elem_size e /\ 0 <= ei_count e /\ ei_count e * elem_size e < 2 ^ 31.
Proof.
  unfold elem_fits. intros H. zbool. split_and!; try done. unfold ei_count. destruct (array_type e); lia.
Qed.

(** The bytes an element of basic type occupies. *)
Lemma elem_fits_extent nested size e :
  elem_fits nested size e = true ->
  match data_type e with
  | QMI_EOTI => True
  | QMI_OPT_FLAG => offset e + 1 <= size
  | QMI_DATA_LEN => offset e + 4 <= size
  | QMI_STRUCT => offset e + ei_count e * elem_size e <= size /\
      exists l, ei_array e = Some l /\ nested (elem_size e) l = true
  | QMI_STRING => elem_size e = 1 /\ offset e + elem_len e <= size /\ elem_len e < 2 ^ 31
  | _ => offset e + ei_count e * elem_size e <= size
  end.
Proof.
  unfold elem_fits. intros H. apply andb_true_iff in H as [_ H].
  destruct (data_type e); zbool; try done. split; [done|]. destruct (ei_array e); [by eexists|done].
Qed.

Lemma terminated_head P l : terminated P l = true -> exists e l', l = e :: l'.
Proof. destruct l as [|e l']; [done|]. eauto. Qed.

Lemma terminated_cons P e l :
  terminated P (e :: l) = true -> data_type e <> QMI_EOTI -> P e = true /\ terminated P l = true.
Proof. cbn [terminated]. intros H Hd. rewrite decide_False in H by done. by apply andb_true_iff. Qed.

(** The two bytes of a length. *)
Lemma lor_shiftl_8 a b : 0 <= a < 256 -> Z.lor a (Z.shiftl b 8) = a + 256 * b.
Proof.
  intros Ha. assert (Z.land a (Z.shiftl b 8) = 0) as L.
  { apply Z.bits_inj'. intros i Hi. rewrite Z.land_spec, Z.bits_0, Z.shiftl_spec by done.
    destruct (Z.ltb_spec i 8).
    - rewrite (Z.testbit_neg_r b) by lia. by rewrite andb_false_r.
    - destruct (Z.eq_dec a 0) as [->|]; [by rewrite Z.bits_0|].
      rewrite (Z.bits_above_log2 a); [done|lia|]. apply Z.lt_le_trans with 8; [|done]. apply Z.log2_lt_pow2; lia. }
  rewrite <- Z.lxor_lor, <- Z.add_nocarry_lxor by done. rewrite Z.shiftl_mul_pow2 by done. lia.
Qed.

(** ** Decoding is safe *)

(** The error numbers the decoder returns. *)
Definition decode_error (rc : Z) : Prop := rc = - EINVAL \/ rc = - EFAULT \/ rc = - ETOOSMALL.

Definition rc_ok (rc bound : Z) : Prop := 0 <= rc <= bound \/ decode_error rc.

Ltac codes := unfold rc_ok, decode_error, EINVAL, EFAULT, ETOOSMALL in *; lia.

Section DecodeSafe.
Context (bm bm' : mem) (Hbm : bytes_ok bm) (Hbm' : bytes_ok bm').

(** Two runs agree, return at most [bound] or an error, and write inside
    [lo, hi). *)
Definition dec_ok (r r' : option (Z * mem)) (m : mem) (lo hi bound : Z) : Prop :=
  exists rc m1, r = Some (rc, m1) /\ r' = Some (rc, m1) /\ rc_ok rc bound /\ same_outside lo hi m m1.

Lemma decode_basic_ok m dst src len size src_len lo hi :
  0 <= len -> 0 <= size -> len * size < 2 ^ 31 -> 0 <= src_len ->
  lo <= dst -> dst + len * size <= hi ->
  same_inside src (src + src_len) bm bm' ->
  dec_ok (Some (qmi_decode_basic_elem m dst bm src len size src_len))
         (Some (qmi_decode_basic_elem m dst bm' src len size src_len)) m lo hi src_len.
Proof.
  intros Hl Hs Hm Hsl Hlo Hhi Hw. rewrite !decode_basic_block by done. case_match; zbool.
  - exists (- EINVAL), m. split; [done|]. split; [done|]. split; [codes|apply same_outside_refl].
  - eexists _, _. split; [done|]. split.
    + by rewrite (same_inside_load _ _ _ bm bm' src Hw) by nia.
    + split; [left; nia|]. apply same_outside_store_bytes; [done|]. rewrite length_load_bytes. nia.
Qed.

Lemma string_length_ok src e src_len (level tlv_len : Z) :
  0 <= src_len -> 0 <= tlv_len ->
  same_inside src (src + src_len) bm bm' ->
  let f (b : mem) := if level =? 1 then (0, tlv_len)
    else let '(rc, w) := qmi_decode_basic_elem (word_mem 0) 0 b src 1 (string_len_size e) src_len in (rc, word_of w) in
  exists rc n, f bm = (rc, n) /\ f bm' = (rc, n) /\ rc_ok rc src_len /\ 0 <= n.
Proof.
  intros Hs Ht Hw. cbv zeta. case_match; [exists 0, tlv_len; split_and!; try done; codes|].
  assert (0 <= string_len_size e <= 2) by (unfold string_len_size; case_match; lia).
  rewrite !decode_basic_block by lia. rewrite Z.mul_1_l. destruct (src_len <? string_len_size e) eqn:E; zbool.
  - eexists _, _. split; [done|]. split; [done|]. split; [codes|]. by vm_compute.
  - eexists _, _. split; [done|]. split; [by rewrite (same_inside_load _ _ _ bm bm' src Hw) by lia|].
    split; [codes|]. by apply word_of_range.
Qed.

Lemma decode_string_ok e m dst src tlv_len level src_len lo hi :
  elem_size e = 1 -> elem_len e < 2 ^ 31 -> 0 <= src_len < 2 ^ 31 -> 0 <= tlv_len ->
  lo <= dst -> dst + elem_len e <= hi ->
  same_inside src (src + src_len) bm bm' ->
  dec_ok (Some (qmi_decode_string_elem e m dst bm src tlv_len level src_len))
         (Some (qmi_decode_string_elem e m dst bm' src tlv_len level src_len)) m lo hi src_len.
Proof.
  intros He Hl Hs Ht Hlo Hhi Hw. unfold qmi_decode_string_elem.
  destruct (string_length_ok src e src_len level tlv_len) as (rc & n & E & E' & Hrc & Hn); [lia|done..|].
  cbv zeta in E, E'. rewrite E, E'. clear E E'.
  assert (forall c, decode_error c -> dec_ok (Some (c, m)) (Some (c, m)) m lo hi src_len) as Q.
  { intros c Hc. exists c, m. split_and!; try done. by right. }
  destruct (rc <? 0) eqn:C1; zbool; [apply Q; codes|]. destruct (elem_len e <=? n) eqn:C2; zbool; [apply Q; codes|].
  destruct (tlv_len <? n) eqn:C3; zbool; [apply Q; codes|]. assert (0 <= rc <= src_len) by codes. rewrite He, u32_small by lia.
  destruct (decode_basic_ok m dst (src + rc) n 1 (src_len - rc) lo hi) as (c & m1 & E & E' & Hc & Ho); try lia.
  { intros x Hx. apply Hw. lia. }
  simplify_eq. rewrite E, E'. clear E E'. destruct (c <? 0) eqn:C4; zbool.
  - exists c, m1. split_and!; try done; codes.
  - eexists _, _. split; [done|]. split; [done|]. split; [codes|].
    intros x Hx. rewrite upd_ne by lia. apply Ho. lia.
Qed.

(** What the decoder of nested structures promises. *)
Definition rec_ok (rec rec' : decoder) (l : list qmi_elem_info) (size : Z) : Prop :=
  forall m out src len level,
    2 <= level -> 0 <= len < 2 ^ 31 -> same_inside src (src + len) bm bm' ->
    dec_ok (rec (Some l) m out src len level) (rec' (Some l) m out src len level) m out (out + size) len.

Lemma decode_structs_ok rec rec' e l n m dst src tlv_len level decoded lo hi :
  ei_array e = Some l -> rec_ok rec rec' l (elem_size e) -> 0 <= elem_size e ->
  2 <= level -> 0 <= decoded <= tlv_len -> tlv_len < 2 ^ 31 ->
  lo <= dst -> dst + Z.of_nat n * elem_size e <= hi ->
  same_inside (src - decoded) (src - decoded + tlv_len) bm bm' ->
  exists r m1,
    decode_structs rec e n m dst src tlv_len level decoded = Some (r, m1) /\
    decode_structs rec' e n m dst src tlv_len level decoded = Some (r, m1) /\
    same_outside lo hi m m1 /\
    match r with inl rc => decode_error rc | inr (_, d) => 0 <= d <= tlv_len end.
Proof.
  intros He Hrec Hsz Hlv. revert m dst src decoded.
  induction n as [|n IH]; intros m dst src decoded Hd Ht Hlo Hhi Hw; cbn [decode_structs].
  { eexists _, _. split; [done|]. split; [done|]. split; [apply same_outside_refl|done]. }
  rewrite !u32_small by lia. destruct (decoded <? tlv_len) eqn:C; zbool.
  2: { eexists _, _. split; [done|]. split; [done|]. split; [apply same_outside_refl|done]. }
  rewrite Nat2Z.inj_succ in Hhi. rewrite He.
  destruct (Hrec m dst src (tlv_len - decoded) level) as (rc & m1 & E & E' & Hrc & Ho); [done|lia|..].
  { intros x Hx. apply Hw. lia. }
  rewrite E, E'. assert (same_outside lo hi m m1) as Ho' by (eapply same_outside_weaken; [exact Ho|lia|nia]).
  destruct (rc <? 0) eqn:C2; zbool.
  { exists (inl rc), m1. split_and!; try done. codes. }
  assert (0 <= rc <= tlv_len - decoded) by codes.
  destruct (IH m1 (dst + elem_size e) (src + rc) (decoded + rc)) as (r & m2 & F & F' & Ho2 & Hr); [lia..| |].
  { intros x Hx. apply Hw. lia. }
  exists r, m2. split; [done|]. split; [done|]. split; [by eapply same_outside_trans|done].
Qed.

Lemma decode_struct_elem_ok rec rec' e l m dst src len tlv_len level src_len lo hi :
  ei_array e = Some l -> rec_ok rec rec' l (elem_size e) -> 0 <= elem_size e -> 0 <= len ->
  2 <= level -> 0 <= tlv_len -> src_len < 2 ^ 31 ->  0 <= src_len ->
  lo <= dst -> dst + len * elem_size e <= hi ->
  same_inside src (src + src_len) bm bm' ->
  dec_ok (qmi_decode_struct_elem rec e m dst src len tlv_len level src_len)
         (qmi_decode_struct_elem rec' e m dst src len tlv_len level src_len) m lo hi src_len.
Proof.
  intros He Hrec Hsz Hl Hlv Ht Hs Hs0 Hlo Hhi Hw. unfold qmi_decode_struct_elem.
  destruct (src_len <? tlv_len) eqn:C; zbool.
  { exists (- EINVAL), m. split_and!; try done. codes. }
  destruct (decode_structs_ok rec rec' e l (Z.to_nat len) m dst src tlv_len level 0 lo hi)
    as (r & m1 & E & E' & Ho & Hr); try done; try lia.
  { rewrite Z.sub_0_r. intros x Hx. apply Hw. lia. }
  rewrite E, E'. destruct r as [rc|[todo d]].
  - exists rc, m1. split_and!; try done. by right.
  - destruct (_ || _); eexists _, _; (split; [done|]); (split; [done|]); (split; [codes|done]).
Qed.

Context (rec rec' : decoder) (d : nat) (size : Z) (out in_buf len level : Z).
Context (Hrec : forall l sz, ei_fits d sz l = true -> rec_ok rec rec' l sz).
Context (Hlen : 0 <= len < 2 ^ 31) (Hlevel : 1 <= level).
Context (Hwin : same_inside in_buf (in_buf + len) bm bm').

Definition fits (l : list qmi_elem_info) : Prop := terminated (elem_fits (ei_fits d) size) l = true.

Definition dec_inv (s : dec_state) : Prop :=
  0 <= ds_decoded_bytes s <= len /\ ds_buf_src s = in_buf + ds_decoded_bytes s /\
  0 <= ds_data_len_value s < 2 ^ 32 /\ 0 <= ds_tlv_len s.

(** A turn that goes on from [s]. *)
Definition dec_next (s s' : dec_state) : Prop :=
  same_outside out (out + size) (ds_mem s) (ds_mem s') /\ dec_inv s' /\ fits (ds_ei s') /\
  (length (ds_ei s') <= length (ds_ei s))%nat /\ ds_decoded_bytes s <= ds_decoded_bytes s'.

Lemma dec_next_refl s : dec_inv s -> fits (ds_ei s) -> dec_next s s.
Proof. intros. split; [apply same_outside_refl|]. done. Qed.

Lemma dec_next_trans s1 s2 s3 : dec_next s1 s2 -> dec_next s2 s3 -> dec_next s1 s3.
Proof.
  intros (O1 & _ & _ & L1 & D1) (O2 & I2 & F2 & L2 & D2). split; [by eapply same_outside_trans|].
  split; [done|]. split; [done|]. split; lia.
Qed.

(** The window left of the buffer. *)
Lemma window_left s :
  dec_inv s ->
  u32 (len - ds_decoded_bytes s) = len - ds_decoded_bytes s /\
  same_inside (ds_buf_src s) (ds_buf_src s + (len - ds_decoded_bytes s)) bm bm'.
Proof using Hwin Hlen.
  intros (Hd & Hs & _). split; [apply u32_small; lia|]. intros x Hx. apply Hwin. lia.
Qed.

Lemma update_decode_inv s rc :
  dec_inv s -> 0 <= rc <= len - ds_decoded_bytes s ->
  dec_inv (update_decode s rc) /\ ds_decoded_bytes (update_decode s rc) = ds_decoded_bytes s + rc.
Proof using Hlen.
  intros (Hd & Hs & Hv & Ht) Hrc. unfold update_decode, dec_inv. cbn.
  rewrite u32_small by lia. split; [|done]. split; [lia|]. split; [rewrite Hs; lia|]. done.
Qed.

Lemma decode_opt_flag_ok s :
  fits (ds_ei s) -> dec_inv s ->
  exists s1, decode_opt_flag out s = Some s1 /\ dec_next s s1.
Proof.
  intros Hf Hi. unfold decode_opt_flag. destruct (terminated_head _ _ Hf) as (e & l & El). rewrite El.
  unfold fits in Hf. rewrite El in Hf. case_decide as Ht.
  - apply terminated_cons in Hf as [Hf Hl]; [|by rewrite Ht].
    pose proof (elem_fits_extent _ _ _ Hf) as X. rewrite Ht in X.
    destruct (elem_fits_range _ _ _ Hf) as (Ho & _).
    eexists. split; [done|]. split; [|split; [exact Hi|split; [done|]]].
    + cbn. intros x Hx. apply upd_ne. lia.
    + cbn. rewrite El. cbn. lia.
  - exists s. split; [done|]. apply dec_next_refl; [done|]. unfold fits. by rewrite El.
Qed.

Lemma decode_data_len_ok s :
  fits (ds_ei s) -> dec_inv s ->
  exists r, decode_data_len out bm len s = Some r /\ decode_data_len out bm' len s = Some r /\
  match r with inl rc => decode_error rc | inr s1 => dec_next s s1 end.
Proof using Hbm Hlen Hwin.
  intros Hf Hi. unfold decode_data_len. destruct (terminated_head _ _ Hf) as (e & l & El). rewrite El.
  unfold fits in Hf. rewrite El in Hf. case_decide as Ht.
  2: { exists (inr s). split; [done|]. split; [done|]. apply dec_next_refl; [done|]. unfold fits. by rewrite El. }
  apply terminated_cons in Hf as [Hf Hl]; [|by rewrite Ht].
  pose proof (elem_fits_extent _ _ _ Hf) as X. rewrite Ht in X. destruct (elem_fits_range _ _ _ Hf) as (Ho & _).
  destruct (window_left s Hi) as [Eu Hw].
  assert (1 <= data_len_size e <= 2) by (unfold data_len_size; case_match; lia).
  rewrite Eu, !decode_basic_block, Z.mul_1_l by lia. destruct (_ <? _) eqn:C; zbool.
  { exists (inl (- EINVAL)). split; [done|]. split; [done|]. codes. }
  rewrite (same_inside_load _ _ _ bm bm' (ds_buf_src s) Hw) by lia.
  rewrite (proj2 (Z.ltb_ge (data_len_size e) 0)) by lia. eexists. split; [done|]. split; [done|].
  pose proof (word_of_range (ds_data_len_value s) (Z.to_nat (data_len_size e)) bm (ds_buf_src s) Hbm) as Hv.
  set (v := word_of _) in *. clearbody v.
  match goal with |- dec_next _ (update_decode ?x _) => set (s1 := x) end.
  assert (dec_inv s1) as I1.
  { destruct Hi as (I1 & I2 & I3 & I4). split; [done|]. split; [done|]. split; [done|]. apply Z.mod_pos_bound. lia. }
  destruct (update_decode_inv s1 (data_len_size e) I1) as [I2 Ed]; [cbn; lia|].
  split; [|split; [done|split; [exact Hl|split; [cbn; rewrite El; cbn; lia|rewrite Ed; cbn; lia]]]].
  cbn. apply (same_outside_store_le 4); lia.
Qed.

(** The switch on an element that is not the end of the array. *)
Lemma decode_switch_ok e s :
  elem_fits (ei_fits d) size e = true -> dec_inv s ->
  0 <= ds_data_len_value s <= ei_count e ->
  dec_ok (decode_switch rec e out bm len level s) (decode_switch rec' e out bm' len level s)
    (ds_mem s) out (out + size) (len - ds_decoded_bytes s).
Proof using Hbm Hlen Hwin Hlevel Hrec.
  intros Hf Hi Hv. destruct (elem_fits_range _ _ _ Hf) as (Ho & Hel & Hes & Hc & Hm).
  pose proof (elem_fits_extent _ _ _ Hf) as X. destruct (window_left s Hi) as [Eu Hw].
  destruct Hi as (Hd & _ & _ & Ht). unfold decode_switch. cbv zeta. rewrite Eu.
  assert (dec_ok (Some (- EINVAL, ds_mem s)) (Some (- EINVAL, ds_mem s)) (ds_mem s) out (out + size)
            (len - ds_decoded_bytes s)) as Q.
  { exists (- EINVAL), (ds_mem s). split_and!; try done. codes. }
  assert (forall sz, offset e + ei_count e * elem_size e <= sz ->
    out + offset e + ds_data_len_value s * elem_size e <= out + sz) as B by (intros; nia).
  destruct (data_type e); try exact Q; try (apply decode_basic_ok; try done; try lia; nia).
  - destruct X as [X (l & El & Hn)]. apply (decode_struct_elem_ok rec rec' e l); try done; try lia; eauto.
  - destruct X as (X1 & X2 & X3). apply decode_string_ok; try done; lia.
Qed.

Lemma decode_element_ok s :
  fits (ds_ei s) -> dec_inv s ->
  exists t, decode_element rec out bm len level s = Some t /\ decode_element rec' out bm' len level s = Some t /\
  match t with
  | Return rc m => rc_ok rc len /\ same_outside out (out + size) (ds_mem s) m
  | Next s1 => dec_next s s1 /\ (length (ds_ei s1) < length (ds_ei s))%nat
  end.
Proof using Hbm Hlen Hwin Hlevel Hrec.
  intros Hf Hi. unfold decode_element. destruct (decode_opt_flag_ok s Hf Hi) as (s1 & -> & N1).
  pose proof N1 as (O1 & I1 & F1 & L1 & _).
  destruct (decode_data_len_ok s1 F1 I1) as (r & -> & -> & Hr). destruct r as [rc|s2].
  { eexists. split; [done|]. split; [done|]. split; [by right|done]. }
  pose proof (dec_next_trans _ _ _ N1 Hr) as N2. clear N1 O1 I1 F1 L1 Hr s1. pose proof N2 as (O2 & I2 & F2 & L2 & D2).
  unfold fits in F2. destruct (terminated_head _ _ F2) as (e & l & El). rewrite El in *.
  destruct (dec_data_len e (ds_data_len_value s2)) as [v|] eqn:Ev.
  2: { eexists. split; [done|]. split; [done|]. split; [codes|done]. }
  destruct (decide (data_type e = QMI_EOTI)) as [He|He].
  { unfold decode_switch. rewrite He. eexists. split; [done|]. split; [done|]. split; [codes|done]. }
  apply terminated_cons in F2 as [Fe Fl]; [|done]. destruct (elem_fits_range _ _ _ Fe) as (_ & Hel & _ & _ & _).
  assert (0 <= v <= ei_count e) as Hv.
  { unfold dec_data_len in Ev. unfold ei_count. destruct I2 as (_ & _ & I2 & _).
    destruct (array_type e); cbn; simplify_eq; [lia|lia|]. case_match; zbool; simplify_eq. lia. }
  set (s3 := s2 <| ds_data_len_value := v |>).
  assert (dec_inv s3) as I3.
  { destruct I2 as (A & B & C & D). split; [done|]. split; [done|]. split; [|done]. cbn. unfold dec_data_len in Ev.
    destruct (array_type e); simplify_eq; [lia|lia|]. case_match; by simplify_eq. }
  destruct (decode_switch_ok e s3 Fe I3 Hv) as (rc & m & -> & -> & Hrc & Ho).
  assert (same_outside out (out + size) (ds_mem s) m) as Om by (eapply same_outside_trans; [exact O2|exact Ho]).
  destruct (rc <? 0) eqn:C; zbool.
  { eexists. split; [done|]. split; [done|]. split; [codes|done]. }
  eexists. split; [done|]. split; [done|]. assert (rc <= len - ds_decoded_bytes s3) as Hrc' by codes.
  assert (dec_inv (s3 <| ds_mem := m |>)) as I3' by exact I3.
  destruct (update_decode_inv (s3 <| ds_mem := m |>) rc I3') as [I4 Ed]; [exact (conj C Hrc')|].
  cbn [length] in L2. split; [|cbn; lia].
  split; [exact Om|]. split; [exact I4|]. split; [exact Fl|]. split; [cbn; lia|].
  change (ds_decoded_bytes s <= ds_decoded_bytes (update_decode (s3 <| ds_mem := m |>) rc)). rewrite Ed. cbn. lia.
Qed.

Lemma find_ei_ok P l ty :
  terminated P l = true ->
  find_ei l ty = Some None \/
  exists l', find_ei l ty = Some (Some l') /\ terminated P l' = true.
Proof.
  induction l as [|e l IH]; [done|]. cbn [terminated find_ei]. case_decide as He; [by left|].
  intros H. destruct (tlv_type e =? u8 ty); [|apply andb_true_iff in H as [_ H]; by apply IH].
  right. exists (e :: l). split; [done|]. cbn. by rewrite decide_False.
Qed.

Lemma rd8_range m a : bytes_ok m -> 0 <= rd8 m a < 256.
Proof. intros H. apply (load_le_bound 1 m a H). Qed.

(** Where a level-1 loop may be left by a record that claims too much. *)
Definition dec_past (s : dec_state) : Prop := len <= ds_decoded_bytes s <= len + 65535.

Lemma decode_header_ok arr s :
  fits arr -> (2 <= level -> fits (ds_ei s)) -> dec_inv s -> len < 2 ^ 31 - 65536 \/ 2 <= level ->
  exists r, decode_header arr bm len level s = Some r /\ decode_header arr bm' len level s = Some r /\
  match r with
  | inl (Return rc m) => decode_error rc /\ m = ds_mem s
  | inl (Next s1) => level = 1 /\ ds_mem s1 = ds_mem s /\ ds_decoded_bytes s + 3 <= ds_decoded_bytes s1 /\
      (dec_inv s1 \/ dec_past s1)
  | inr s1 => ds_mem s1 = ds_mem s /\ dec_inv s1 /\ fits (ds_ei s1) /\
      (if level =? 1 then ds_decoded_bytes s + 3 <= ds_decoded_bytes s1
       else ds_ei s1 = ds_ei s /\ ds_decoded_bytes s1 = ds_decoded_bytes s)
  end.
Proof using Hbm Hlen Hwin Hlevel.
  intros Ha Hf Hi H31. unfold decode_header. destruct (Z.eqb_spec level 1) as [Hl|Hl].
  2: { eexists. split; [done|]. split; [done|]. split; [done|]. split; [|split; [cbn; apply Hf; lia|done]].
       destruct Hi as (A & B & C & D). split; [done|]. split; [done|]. split; [done|]. apply Z.mod_pos_bound. lia. }
  destruct (_ <? _) eqn:C; unfold TLV_TYPE_SIZE, TLV_LEN_SIZE in *; zbool.
  { eexists. split; [done|]. split; [done|]. split; [codes|done]. }
  pose proof Hi as (Hd & Hs & _). unfold rd8 at 4 5 6.
  rewrite !(same_inside_le 1 _ _ bm bm' _ Hwin) by lia. fold (rd8 bm (ds_buf_src s)).
  fold (rd8 bm (ds_buf_src s + 1)). fold (rd8 bm (ds_buf_src s + 2)).
  pose proof (rd8_range bm (ds_buf_src s + 1) Hbm). pose proof (rd8_range bm (ds_buf_src s + 2) Hbm).
  rewrite lor_shiftl_8 by done. set (n := rd8 bm (ds_buf_src s + 1) + _) in *.
  assert (0 <= n <= 65535) as Hn by lia. set (s1 := s <| ds_tlv_len := n |>).
  assert (dec_inv s1) as I1 by (destruct Hi as (A & B & D & _); (split; [done|split; [done|split; [done|cbn; lia]]])).
  destruct (update_decode_inv s1 (1 + 2) I1) as [I2 E2]; [cbn; lia|].
  set (s2 := update_decode s1 (1 + 2)) in *.
  destruct (find_ei_ok _ arr (rd8 bm (ds_buf_src s)) Ha) as [E|(l & E & Fl)]; rewrite E.
  - destruct (_ <? _).
    { eexists. split; [done|]. split; [done|]. split; [codes|done]. }
    eexists. split; [done|]. split; [done|]. split; [done|]. split; [done|].
    assert (ds_decoded_bytes (update_decode s2 n) = ds_decoded_bytes s2 + n) as E3.
    { cbn. apply u32_small. destruct I2 as (I2 & _). cbn in I2. lia. }
    change (ds_decoded_bytes s1) with (ds_decoded_bytes s) in E2. split; [lia|].
    destruct (Z_le_gt_dec n (len - ds_decoded_bytes s2)).
    + left. apply update_decode_inv; [done|lia].
    + right. unfold dec_past. rewrite E3. destruct I2 as (I2 & _). lia.
  - eexists. split; [done|]. split; [done|]. split; [done|]. split; [exact I2|]. split; [exact Fl|].
    change (ds_decoded_bytes s1) with (ds_decoded_bytes s) in E2.
    change (ds_decoded_bytes s + 3 <= ds_decoded_bytes s2). lia.
Qed.

Definition dec_measure (s : dec_state) : nat :=
  if level =? 1 then Z.to_nat (len - ds_decoded_bytes s) else length (ds_ei s).

Definition loop_inv (s : dec_state) : Prop :=
  (dec_inv s /\ (2 <= level -> fits (ds_ei s))) \/ (level = 1 /\ dec_past s).

Lemma decode_at_end_ok s :
  (2 <= level -> fits (ds_ei s)) ->
  exists b, decode_at_end level s = Some b /\ (b = true -> 2 <= level).
Proof.
  intros Hf. unfold decode_at_end. destruct (2 <=? level) eqn:C; zbool; [|by exists false].
  destruct (terminated_head _ _ (Hf C)) as (e & l & ->). by eexists.
Qed.

Lemma decode_turn_ok arr s :
  fits arr -> dec_inv s -> (2 <= level -> fits (ds_ei s)) -> ds_decoded_bytes s < len ->
  len < 2 ^ 31 - 65536 \/ 2 <= level ->
  exists t, decode_turn rec arr out bm len level s = Some t /\ decode_turn rec' arr out bm' len level s = Some t /\
  match t with
  | Return rc m => rc_ok rc len /\ same_outside out (out + size) (ds_mem s) m
  | Next s1 => same_outside out (out + size) (ds_mem s) (ds_mem s1) /\ loop_inv s1 /\ (dec_measure s1 < dec_measure s)%nat
  end.
Proof using Hbm Hlen Hwin Hlevel Hrec.
  intros Ha Hi Hf Hd H31. unfold decode_turn. destruct (decode_at_end_ok s Hf) as (b & -> & Hb). destruct b.
  { eexists. split; [done|]. split; [done|]. destruct Hi as (Hi & _). rewrite s32_small by lia.
    split; [codes|apply same_outside_refl]. }
  destruct (decode_header_ok arr s Ha Hf Hi H31) as (r & -> & -> & Hr). destruct r as [[s1|rc m]|s1].
  - eexists. split; [done|]. split; [done|]. destruct Hr as (Hl & -> & Hp & Hq). split; [apply same_outside_refl|].
    split; [destruct Hq as [Hq|Hq]; [left; split; [done|lia]|by right]|]. unfold dec_measure. rewrite Hl. cbn. lia.
  - destruct Hr as [Hr ->]. eexists. split; [done|]. split; [done|]. split; [by right|apply same_outside_refl].
  - destruct Hr as (Hm & I1 & F1 & Hp). destruct (decode_element_ok s1 F1 I1) as (t & -> & -> & Ht).
    exists t. split; [done|]. split; [done|]. rewrite Hm in Ht. destruct t as [s2|rc m]; [|done].
    destruct Ht as ((O2 & I2 & F2 & L2 & D2) & L3). rewrite Hm in O2. split; [done|]. split; [by left|].
    unfold dec_measure. destruct (level =? 1); [destruct I1 as (I1 & _); lia|]. destruct Hp as [<- _]. done.
Qed.

Lemma decode_loop_ok arr n s :
  fits arr -> loop_inv s -> (dec_measure s < n)%nat -> len < 2 ^ 31 - 65536 \/ 2 <= level ->
  dec_ok (decode_loop rec arr out bm len level n s) (decode_loop rec' arr out bm' len level n s)
    (ds_mem s) out (out + size) (if level =? 1 then len + 65535 else len).
Proof using Hbm Hlen Hwin Hlevel Hrec.
  intros Ha. revert s. induction n as [|n IH]; intros s Hi Hn H31; [lia|]. cbn [decode_loop].
  destruct (ds_decoded_bytes s <? len) eqn:C; zbool.
  - destruct Hi as [[Hi Hf]|[_ Hp]]; [|unfold dec_past in Hp; lia].
    destruct (decode_turn_ok arr s Ha Hi Hf C H31) as (t & -> & -> & Ht). destruct t as [s1|rc m].
    + destruct Ht as (O1 & I1 & M1). destruct (IH s1 I1) as (rc & m1 & E & E' & Hrc & O2); [lia|done|].
      exists rc, m1. split; [done|]. split; [done|]. split; [done|]. by eapply same_outside_trans.
    + destruct Ht as [Hrc Ho]. exists rc, m. split; [done|]. split; [done|]. split; [case_match; codes|done].
  - exists (s32 (ds_decoded_bytes s)), (ds_mem s). split; [done|]. split; [done|].
    split; [|apply same_outside_refl].
    destruct Hi as [[(Hi & _) _]|[-> Hp]]; [rewrite s32_small by lia; case_match; codes|].
    unfold dec_past in Hp. cbn. rewrite s32_small by lia. codes.
Qed.

End DecodeSafe.

Lemma qmi_decode_ok depth bm bm' l size m out in_buf len level :
  bytes_ok bm -> bytes_ok bm' ->
  ei_fits depth size l = true -> 1 <= level -> 0 <= len < 2 ^ 31 -> len < 2 ^ 31 - 65536 \/ 2 <= level ->
  same_inside in_buf (in_buf + len) bm bm' ->
  dec_ok (qmi_decode depth bm (Some l) m out in_buf len level) (qmi_decode depth bm' (Some l) m out in_buf len level)
    m out (out + size) (if level =? 1 then len + 65535 else len).
Proof.
  intros Hb Hb'. revert l size m out in_buf len level.
  induction depth as [|d IH]; intros l size m out in_buf len level Hf Hl Hlen H31 Hw; [done|]. cbn [qmi_decode].
  apply (decode_loop_ok bm bm' Hb _ _ d size out in_buf len level); try done.
  - intros l' sz Hn m' out' src len' level' Hl' Hlen' Hw'.
    pose proof (IH l' sz m' out' src len' level' Hn) as I. rewrite (proj2 (Z.eqb_neq level' 1)) in I by lia.
    apply I; [lia|done|by right|done].
  - left. split; [|done]. split; [cbn; lia|]. split; [cbn; lia|]. cbn. lia.
  - unfold dec_measure. cbn. case_match; lia.
Qed.

(** C15. Decoding is memory safe and total. For descriptors that fit a
    structure of [size] bytes and a message of any bytes, [qmi_decode]
    terminates without undefined behaviour, writes only bytes of the
    structure, reads only the [len] bytes of the message (a second message
    that agrees on them gives the same result), and returns one of its three
    errors or counts at most the bytes of the message, plus what a record of
    unknown optional type claims. *)
Theorem decode_safe (depth : nat) (bm bm' m : mem) (l : list qmi_elem_info) (size out in_buf len : Z) :
  bytes_ok bm ->
  bytes_ok bm' ->
  ei_fits depth size l = true ->
  0 <= len < 2 ^ 31 - 65536 ->
  (forall x, in_buf <= x < in_buf + len -> bm' x = bm x) ->
  exists rc m1,
    qmi_decode depth bm (Some l) m out in_buf len 1 = Some (rc, m1) /\
    qmi_decode depth bm' (Some l) m out in_buf len 1 = Some (rc, m1) /\
    (0 <= rc <= len + 65535 \/ decode_error rc) /\ same_outside out (out + size) m m1.
Proof.
  intros Hb Hb' Hf Hl Hw. apply (qmi_decode_ok depth bm bm' l size m out in_buf len 1); try done; [lia|]. left. lia.
Qed.

(** ** Encoding stays inside the buffer *)

Definition is_end (e : qmi_elem_info) : bool := bool_decide (data_type e = QMI_EOTI).

(** The first element of a nested array writes something. *)
Definition productive (l : list qmi_elem_info) : bool :=
  match l with
  | [] => false
  | e :: _ => negb (bool_decide (data_type e = QMI_EOTI)) && negb (bool_decide (data_type e = QMI_OPT_FLAG))
  end.

(** An element the encoder handles within its buffer. Strings are allowed at
    the top level only. *)
Definition elem_encodable (nested : list qmi_elem_info -> bool) (top : bool) (e : qmi_elem_info) : bool :=
  (0 <=? elem_len e) && (elem_len e <? 2 ^ 32) && (0 <=? elem_size e) && (ei_count e * elem_size e <? 2 ^ 31) &&
  match data_type e with
  | QMI_DATA_LEN => elem_size e <=? 4
  | QMI_STRUCT =>
      (1 <=? ei_count e) &&
      match ei_array e with
      | None => false
      | Some l => productive l && nested l
      end
  | QMI_STRING => top && (elem_size e =? 1) && (elem_len e <? 2 ^ 31)
  | _ => true
  end.

(** A terminated array in which a length has its array behind it and, at the
    top level, the end mark has a record type of its own. *)
Fixpoint encodable_list (P : qmi_elem_info -> bool) (top : bool) (l : list qmi_elem_info) : bool :=
  match l with
  | [] => false
  | e :: l' =>
      if decide (data_type e = QMI_EOTI) then true
      else
        P e && encodable_list P top l' &&
        match l' with
        | [] => false
        | e' :: _ => negb (is_end e' && (bool_decide (data_type e = QMI_DATA_LEN) || (top && (tlv_type e =? tlv_type e'))))
        end
  end.

Fixpoint encodable (depth : nat) (top : bool) (l : list qmi_elem_info) : bool :=
  match depth with
  | O => false
  | S d => encodable_list (elem_encodable (encodable d false) top) top l
  end.

Lemma encodable_cons P top e l :
  encodable_list P top (e :: l) = true -> data_type e <> QMI_EOTI ->
  P e = true /\ encodable_list P top l = true /\
  exists e' l', l = e' :: l' /\
    (data_type e' = QMI_EOTI -> data_type e <> QMI_DATA_LEN /\ (top = true -> tlv_type e <> tlv_type e')).
Proof.
  cbn [encodable_list]. intros H He. rewrite decide_False in H by done. apply andb_true_iff in H as [H1 H2].
  apply andb_true_iff in H1 as [H0 H1]. destruct l as [|e' l']; [done|]. split; [done|]. split; [done|].
  exists e', l'. split; [done|]. intros E. unfold is_end in H2. rewrite bool_decide_true in H2 by done.
  cbn [andb] in H2. apply negb_true_iff, orb_false_iff in H2 as [A B].
  apply bool_decide_eq_false in A. split; [done|]. intros ->. by apply Z.eqb_neq.
Qed.

Lemma encodable_not_nil P top l : encodable_list P top l = true -> exists e l', l = e :: l'.
Proof. destruct l; [done|]. eauto. Qed.

(** Skipping over a record ends at or before the end mark. *)
Lemma skip_same_type_ok P e l :
  encodable_list P true (e :: l) = true -> data_type e <> QMI_EOTI ->
  exists l', skip_same_type (e :: l) = Some l' /\ encodable_list P true l' = true /\ (length l' <= length l)%nat.
Proof.
  revert e. induction l as [|e1 l IH]; intros e H He.
  - apply encodable_cons in H as (_ & H & _); [|done]. done.
  - destruct (encodable_cons _ _ _ _ H He) as (_ & Hl & e' & l' & [= <- <-] & Hend).
    change (skip_same_type (e :: e1 :: l)) with
      (if tlv_type e =? tlv_type e1 then skip_same_type (e1 :: l) else Some (e1 :: l)).
    destruct (tlv_type e =? tlv_type e1) eqn:T; zbool.
    + destruct (IH e1 Hl) as (l' & E & Hl' & Hn). { intros E1. by apply (Hend E1). }
      exists l'. split; [done|]. split; [done|]. cbn. lia.
    + exists (e1 :: l). done.
Qed.

Lemma skip_to_next_ok P e l level :
  1 <= level -> encodable_list P (level =? 1) (e :: l) = true -> data_type e <> QMI_EOTI ->
  exists l', skip_to_next_elem (e :: l) level = Some l' /\ encodable_list P (level =? 1) l' = true /\
    (length l' <= length l)%nat.
Proof.
  intros Hl H He. unfold skip_to_next_elem. destruct (1 <? level) eqn:C; zbool.
  - exists l. split; [done|]. split; [|done]. by apply encodable_cons in H as (_ & H & _).
  - replace (level =? 1) with true in * by lia. by apply (skip_same_type_ok P).
Qed.

(** The source value of a string length. *)
Lemma strlen_upto_range n sm a : 0 <= strlen_upto n sm a <= Z.of_nat n.
Proof.
  revert a. induction n as [|n IH]; intros a; cbn [strlen_upto]; [lia|]. case_match; [lia|]. specialize (IH (a + 1)). lia.
Qed.

Lemma elem_encodable_range nested top e :
  elem_encodable nested top e = true ->
  0 <= elem_len e < 2 ^ 32 /\ 0 <= elem_size e /\ ei_count e * elem_size e < 2 ^ 31 /\
  match data_type e with
  | QMI_DATA_LEN => elem_size e <= 4
  | QMI_STRUCT => 1 <= ei_count e /\ exists l, ei_array e = Some l /\ productive l = true /\ nested l = true
  | QMI_STRING => top = true /\ elem_size e = 1 /\ elem_len e < 2 ^ 31
  | _ => True
  end.
Proof.
  unfold elem_encodable. intros H. apply andb_true_iff in H as [H X]. zbool.
  split; [done|]. split; [done|]. split; [done|]. destruct (data_type e); try (zbool; done).
  apply andb_true_iff in X as [X1 X]. split; [by apply Z.leb_le|].
  destruct (ei_array e) as [l|]; [|done]. apply andb_true_iff in X as [A B]. eauto.
Qed.

Section EncodeSafe.
Context (sm : mem) (Hsm : bytes_ok sm) (rec : encoder) (d : nat).

(** What the encoder of nested structures promises: it leaves room for a
    record header. *)
Definition enc_rec_ok (l : list qmi_elem_info) : Prop :=
  forall m buf src len level,
    2 <= level -> 0 <= len < 2 ^ 31 ->
    exists rc m1, rec (Some l) m buf src len level = Some (rc, m1) /\
      (rc < 0 \/ (0 <= rc /\ rc + 3 <= len)) /\ same_outside buf (buf + Z.max 0 (len - 3)) m m1.

Context (Hrec : forall l, encodable d false l = true -> productive l = true -> enc_rec_ok l).
Context (buf src len level : Z) (Hlen : 0 <= len < 2 ^ 31) (Hlevel : 1 <= level).

Lemma encode_structs_ok e l n m dst s lim lv enc :
  ei_array e = Some l -> enc_rec_ok l -> 2 <= lv -> 0 <= lim < 2 ^ 31 -> 0 <= enc <= lim ->
  exists rc m1, encode_structs rec e n m dst s lim lv enc = Some (rc, m1) /\
    (rc < 0 \/ (enc <= rc /\ (rc + 3 <= lim \/ (rc = enc /\ n = O)))) /\
    same_outside dst (dst + Z.max 0 (lim - 3 - enc)) m m1.
Proof.
  intros He Hr Hlv Hlim. revert m dst s enc. induction n as [|n IH]; intros m dst s enc Henc; cbn [encode_structs].
  { eexists _, _. split; [done|]. split; [right; lia|apply same_outside_refl]. }
  rewrite He, u32_small by lia.
  destruct (Hr m dst s (lim - enc) lv) as (rc & m1 & -> & Hrc & Ho); [done|lia|].
  assert (same_outside dst (dst + Z.max 0 (lim - 3 - enc)) m m1) as Ho' by (eapply same_outside_weaken; [exact Ho|lia|lia]).
  destruct (rc <? 0) eqn:C; zbool; [by exists rc, m1; split_and!; [|left|]|].
  destruct Hrc as [Hrc|Hrc]; [lia|].
  destruct (IH m1 (dst + rc) (s + elem_size e) (enc + rc)) as (rc2 & m2 & -> & Hrc2 & Ho2); [lia|].
  exists rc2, m2. split; [done|]. split; [lia|].
  eapply same_outside_trans; [exact Ho'|]. eapply same_outside_weaken; [exact Ho2|lia|lia].
Qed.

(** Room for a record header in front of the elements of the top level. *)
Definition hdr_room : Z := if level =? 1 then 3 else 0.

(** Where the loop may write. *)
Definition enc_frame (m m1 : mem) : Prop := same_outside buf (buf + Z.max 0 (len - 3 + hdr_room)) m m1.

Definition enc_list_ok (l : list qmi_elem_info) : Prop :=
  encodable_list (elem_encodable (encodable d false) (level =? 1)) (level =? 1) l = true.

Definition enc_inv (s : enc_state) : Prop :=
  0 <= es_encoded_bytes s <= len /\ es_buf_dst s = buf + es_encoded_bytes s + hdr_room /\
  0 <= es_tlv_len s <= es_encoded_bytes s /\ es_tlv_pointer s = buf + es_encoded_bytes s - es_tlv_len s /\
  0 <= es_data_len_value s < 2 ^ 32 /\ enc_list_ok (es_ei s) /\ (level = 1 -> es_encode_tlv s = false).

(** The step from [s] to [s1] in the switch. *)
Definition enc_step (e : qmi_elem_info) (s s1 : enc_state) : Prop :=
  exists rc, 0 <= rc /\ es_encoded_bytes s1 = es_encoded_bytes s + rc /\ es_encoded_bytes s1 <= len /\
    es_buf_dst s1 = es_buf_dst s + rc /\ es_tlv_len s1 = es_tlv_len s + rc /\
    es_tlv_pointer s1 = es_tlv_pointer s /\ 0 <= es_data_len_value s1 < 2 ^ 32 /\
    enc_list_ok (es_ei s1) /\ (length (es_ei s1) < length (es_ei s))%nat /\
    enc_frame (es_mem s) (es_mem s1) /\
    (data_type e = QMI_OPT_FLAG -> es_encode_tlv s1 = es_encode_tlv s /\ es_encoded_bytes s1 = es_encoded_bytes s) /\
    (data_type e <> QMI_OPT_FLAG -> es_encoded_bytes s1 + 3 <= len).

Lemma hdr_room_range : 0 <= hdr_room <= 3.
Proof. unfold hdr_room. case_match; lia. Qed.

(** The state after [rc] bytes were written behind the others. *)
Lemma update_encode_step e l s rc m :
  enc_inv s -> es_ei s = e :: l -> data_type e <> QMI_EOTI -> data_type e <> QMI_OPT_FLAG ->
  0 <= rc -> es_encoded_bytes s + rc + 3 <= len -> enc_frame (es_mem s) m ->
  enc_step e s (update_encode s rc m).
Proof using Hlen Hlevel.
  intros (I1 & I2 & I3 & I4 & I5 & I6 & I7) El He Ho Hrc Hb Hf. exists rc. unfold update_encode. cbn.
  rewrite !u32_small by lia. unfold enc_list_ok in I6. rewrite El in *.
  apply encodable_cons in I6 as (_ & I6 & _); [|done]. split_and!; try done; try lia. cbn. lia.
Qed.

(** A block of bytes that fits, written at the current position. *)
Lemma enc_frame_block m bs s :
  enc_inv s -> es_encoded_bytes s + Z.of_nat (length bs) + 3 <= len ->
  enc_frame m (store_bytes m (es_buf_dst s) bs).
Proof.
  intros (I1 & I2 & _) Hb. pose proof hdr_room_range. apply same_outside_store_bytes; lia.
Qed.

(** The element is written, or the call fails with memory within bounds. *)
Definition switch_ok (e : qmi_elem_info) (s : enc_state) (r : option (turn enc_state)) : Prop :=
  exists t, r = Some t /\
  match t with
  | Return rc m => rc < 0 /\ enc_frame (es_mem s) m
  | Next s1 => enc_step e s s1
  end.

Lemma switch_ok_error e s rc : rc < 0 -> switch_ok e s (Some (Return rc (es_mem s))).
Proof. intros H. eexists. split; [done|]. split; [done|apply same_outside_refl]. Qed.

Lemma encode_basic_ok e l s :
  enc_inv s -> es_ei s = e :: l -> data_type e <> QMI_EOTI -> data_type e <> QMI_OPT_FLAG ->
  0 <= elem_size e -> ei_count e * elem_size e < 2 ^ 31 -> 0 <= es_data_len_value s <= ei_count e ->
  switch_ok e s
    (if len <? u32 (u32 (es_data_len_value s * elem_size e) + es_encoded_bytes s) + TLV_LEN_SIZE + TLV_TYPE_SIZE then
       Some (Return (- ETOOSMALL) (es_mem s))
     else
       let '(rc, m) := qmi_encode_basic_elem (es_mem s) (es_buf_dst s) sm (src + offset e) (es_data_len_value s)
                         (elem_size e) in
       Some (Next (update_encode s rc m))).
Proof using Hlen Hlevel.
  intros Hi El He Ho Hs Hm Hv. pose proof Hi as (I1 & _). set (n := es_data_len_value s * elem_size e) in *.
  assert (0 <= n < 2 ^ 31) as Hn by (unfold n; nia). rewrite (u32_small n), u32_small by lia.
  unfold TLV_LEN_SIZE, TLV_TYPE_SIZE. destruct (_ <? _) eqn:C; zbool; [by apply switch_ok_error|].
  rewrite encode_basic_block by (unfold n in *; lia). fold n. eexists. split; [done|].
  apply (update_encode_step e l); try done; [lia|lia|]. apply enc_frame_block; [done|].
  rewrite length_load_bytes. lia.
Qed.

Lemma encode_string_ok e l s :
  enc_inv s -> es_ei s = e :: l -> data_type e = QMI_STRING -> level = 1 ->
  elem_size e = 1 -> 0 <= elem_len e < 2 ^ 31 ->
  switch_ok e s
    (let '(rc, m) := qmi_encode_string_elem e (es_mem s) (es_buf_dst s) sm (src + offset e)
                       (u32 (len - es_encoded_bytes s)) level in
     if rc <? 0 then Some (Return rc m) else Some (Next (update_encode s rc m))).
Proof using Hlen Hlevel.
  intros Hi El Ht Hl Hs Hel. pose proof Hi as (I1 & _). unfold qmi_encode_string_elem.
  pose proof (strlen_upto_range (S (Z.to_nat (elem_len e))) sm (src + offset e)) as Hr.
  set (n := strlen_upto _ _ _) in *. rewrite u32_small by lia. rewrite Hl. cbn [Z.eqb Pos.eqb].
  destruct (elem_len e <? n) eqn:C1; zbool; [by apply switch_ok_error|]. unfold TLV_LEN_SIZE, TLV_TYPE_SIZE.
  destruct (_ <? n + 2 + 1) eqn:C2; zbool; [by apply switch_ok_error|]. rewrite Hs.
  rewrite encode_basic_block, Z.mul_1_r by lia. rewrite (proj2 (Z.ltb_ge n 0)) by lia. eexists. split; [done|].
  apply (update_encode_step e l); try done; [by rewrite Ht|by rewrite Ht|lia|lia|].
  apply enc_frame_block; [done|]. rewrite length_load_bytes. lia.
Qed.

Lemma encode_struct_ok e l s nl :
  enc_inv s -> es_ei s = e :: l -> data_type e = QMI_STRUCT -> ei_array e = Some nl ->
  encodable d false nl = true -> productive nl = true -> 1 <= es_data_len_value s ->
  switch_ok e s
    (match qmi_encode_struct_elem rec e (es_mem s) (es_buf_dst s) (src + offset e) (es_data_len_value s)
             (u32 (len - es_encoded_bytes s)) (level + 1) with
     | None => None
     | Some (rc, m) => if rc <? 0 then Some (Return rc m) else Some (Next (update_encode s rc m))
     end).
Proof using Hlen Hlevel Hrec.
  intros Hi El Ht Hnl Hen Hp Hv. pose proof Hi as (I1 & I2 & _). unfold qmi_encode_struct_elem.
  rewrite u32_small by lia. pose proof hdr_room_range as Hh.
  destruct (encode_structs_ok e nl (Z.to_nat (es_data_len_value s)) (es_mem s) (es_buf_dst s) (src + offset e)
    (len - es_encoded_bytes s) (level + 1) 0) as (rc & m & -> & Hrc & Ho); [done|by apply Hrec|lia|lia|lia|].
  assert (enc_frame (es_mem s) m) as Hf by (intros x Hx; apply Ho; lia).
  destruct (rc <? 0) eqn:C; zbool; [by eexists|]. eexists. split; [done|].
  apply (update_encode_step e l); try done; [by rewrite Ht|by rewrite Ht|lia].
Qed.

Lemma encode_opt_flag_ok e l s :
  enc_inv s -> es_ei s = e :: l -> data_type e = QMI_OPT_FLAG ->
  switch_ok e s
    (if truth (rd8 sm (src + offset e)) then Some (Next (s <| es_ei := tail (es_ei s) |>))
     else
       match skip_to_next_elem (es_ei s) level with
       | None => None
       | Some l => Some (Next (s <| es_ei := l |>))
       end).
Proof using Hlevel.
  intros (I1 & I2 & I3 & I4 & I5 & I6 & I7) El Ht. unfold enc_list_ok in I6. rewrite El in *.
  assert (forall l', enc_list_ok l' -> (length l' <= length l)%nat -> enc_step e s (s <| es_ei := l' |>)) as Q.
  { intros l' Hl' Hn. exists 0. cbn. rewrite El. cbn [length].
    split_and!; try done; try lia. }
  assert (data_type e <> QMI_EOTI) as He by congruence. destruct (truth _).
  - eexists. split; [done|]. apply Q; [|done]. by apply encodable_cons in I6 as (_ & I6 & _).
  - destruct (skip_to_next_ok _ e l level Hlevel I6 He) as (l' & -> & Hl' & Hn). eexists. split; [done|]. by apply Q.
Qed.

Lemma encode_data_len_ok e l s :
  enc_inv s -> es_ei s = e :: l -> data_type e = QMI_DATA_LEN -> elem_size e <= 4 ->
  switch_ok e s (encode_switch rec s e sm src len level).
Proof using Hlen Hlevel Hsm.
  intros Hi El Ht Hs. unfold encode_switch. rewrite Ht, (proj2 (Z.ltb_ge 4 (elem_size e))) by lia. cbv zeta.
  pose proof (word_of_range (es_data_len_value s) (Z.to_nat (elem_size e)) sm (src + offset e) Hsm) as Hv.
  set (v := word_of _) in *. clearbody v. set (s0 := s <| es_data_len_value := v |>).
  assert (enc_inv s0) as I0.
  { destruct Hi as (I1 & I2 & I3 & I4 & _ & I6 & I7). exact (conj I1 (conj I2 (conj I3 (conj I4 (conj Hv (conj I6 I7)))))). }
  assert (1 <= data_len_size e <= 2) as Hd by (unfold data_len_size; case_match; lia). pose proof I0 as (I1 & _).
  rewrite u32_small by lia. unfold TLV_LEN_SIZE, TLV_TYPE_SIZE. destruct (_ <? _) eqn:C; zbool.
  { by apply (switch_ok_error e s). }
  rewrite encode_basic_block, Z.mul_1_l by lia.
  set (m := store_bytes _ _ _).
  assert (enc_step e s0 (update_encode s0 (data_len_size e) m)) as St.
  { apply (update_encode_step e l); try done; [by rewrite Ht|by rewrite Ht|lia|lia|].
    apply enc_frame_block; [done|]. rewrite length_load_bytes. lia. }
  clearbody m. destruct St as (rc & S0 & S1 & S2 & S3 & S4 & S5 & S6 & S7 & S8 & S9 & _ & S11).
  set (s1 := update_encode s0 (data_len_size e) m) in *.
  assert (forall l' b, enc_list_ok l' -> (length l' <= length l)%nat ->
    enc_step e s (s1 <| es_ei := l' |> <| es_encode_tlv := b |>)) as Q.
  { intros l' b Hl' Hn. exists rc. do 7 (split; [assumption|]). split; [exact Hl'|].
    split; [rewrite El; cbn; lia|]. split; [exact S9|]. split; [by rewrite Ht|exact S11]. }
  assert (es_ei s1 = l) as El1 by (unfold s1; cbn; by rewrite El). clearbody s1.
  assert (data_type e <> QMI_EOTI) as He by congruence. destruct Hi as (_ & _ & _ & _ & _ & I6 & _).
  unfold enc_list_ok in I6. rewrite El in I6. apply encodable_cons in I6 as (_ & I6 & e' & l' & -> & Hend); [|done].
  destruct (v =? 0).
  - rewrite El1. destruct (skip_to_next_ok _ e' l' level Hlevel I6) as (l2 & -> & Hl2 & Hn).
    { intros E. exact (proj1 (Hend E) Ht). }
    eexists. split; [done|]. assert (s1 <| es_ei := l2 |> = s1 <| es_ei := l2 |> <| es_encode_tlv := es_encode_tlv s1 |>) as -> by done.
    apply Q; [done|cbn; lia].
  - eexists. split; [done|]. assert (s1 <| es_encode_tlv := false |> = s1 <| es_ei := e' :: l' |> <| es_encode_tlv := false |>) as -> by (rewrite <- El1; done).
    by apply Q.
Qed.

Lemma encode_switch_ok e l s :
  enc_inv s -> es_ei s = e :: l -> data_type e <> QMI_EOTI ->
  (array_type e = NO_ARRAY -> es_data_len_value s = 1) ->
  (array_type e = STATIC_ARRAY -> es_data_len_value s = elem_len e) ->
  (array_type e = VAR_LEN_ARRAY -> 1 <= es_data_len_value s <= elem_len e) ->
  switch_ok e s (encode_switch rec s e sm src len level).
Proof using Hlen Hlevel Hrec Hsm.
  intros Hi El He A1 A2 A3. pose proof Hi as (_ & _ & _ & _ & _ & I6 & _). unfold enc_list_ok in I6. rewrite El in I6.
  apply encodable_cons in I6 as (Fe & _); [|done]. apply elem_encodable_range in Fe as (Hel & Hes & Hm & X).
  assert (0 <= es_data_len_value s <= ei_count e) as Hv.
  { unfold ei_count. destruct (array_type e); intuition lia. }
  destruct (data_type e) eqn:Ht; try done;
    try (unfold encode_switch; rewrite Ht; cbv zeta; eapply encode_basic_ok; try done; by rewrite Ht).
  - unfold encode_switch. rewrite Ht. by apply (encode_opt_flag_ok e l).
  - by apply (encode_data_len_ok e l).
  - unfold encode_switch. rewrite Ht. destruct X as (X1 & nl & X2 & X3 & X4).
    apply (encode_struct_ok e l s nl); try done. unfold ei_count in X1. destruct (array_type e); intuition lia.
  - unfold encode_switch. rewrite Ht. destruct X as (X1 & X2 & X3). apply (encode_string_ok e l); try done; lia.
Qed.

(** The step together with the record header that may follow. *)
Lemma finish_tlv_ok e s s1 :
  enc_inv s -> enc_step e s s1 ->
  let s2 := finish_tlv s1 (tlv_type e) level in
  enc_inv s2 /\ enc_frame (es_mem s) (es_mem s2) /\ es_ei s2 = es_ei s1 /\
  (2 <= level -> es_encoded_bytes s2 = es_encoded_bytes s1).
Proof using Hlen Hlevel.
  intros (I1 & I2 & I3 & I4 & I5 & I6 & I7) (rc & S0 & S1 & S2 & S3 & S4 & S5 & S6 & S7 & _ & S9 & S10 & S11).
  cbv zeta. unfold finish_tlv. destruct (es_encode_tlv s1 && (level =? 1)) eqn:C; zbool.
  - assert (es_encoded_bytes s1 + 3 <= len) as Hb.
    { destruct (decide (data_type e = QMI_OPT_FLAG)) as [E|E]; [|by apply S11].
      destruct (S10 E) as [S10' _]. rewrite S10', I7 in * by done. done. }
    assert (hdr_room = 3) as Hh by (unfold hdr_room; by rewrite (proj2 (Z.eqb_eq level 1))).
    unfold TLV_TYPE_SIZE, TLV_LEN_SIZE. split; [|split; [|split; [done|lia]]].
    + unfold enc_inv. cbn. rewrite u32_small by lia. split_and!; try done; lia.
    + cbn -[store_bytes]. eapply same_outside_trans; [exact S9|]. apply same_outside_store_bytes; cbn; lia.
  - split; [|split; [exact S9|done]]. unfold enc_inv. split; [lia|]. split; [lia|]. split; [lia|]. split; [lia|].
    split; [done|]. split; [done|]. intros Hl. apply andb_false_iff in C as [C|C]; [done|]. lia.
Qed.

Lemma encode_turn_ok e l s :
  enc_inv s -> es_ei s = e :: l -> data_type e <> QMI_EOTI ->
  exists t, encode_turn rec s e sm src len level = Some t /\
  match t with
  | Return rc m => rc < 0 /\ enc_frame (es_mem s) m
  | Next s2 => enc_inv s2 /\ enc_frame (es_mem s) (es_mem s2) /\ (length (es_ei s2) < length (es_ei s))%nat /\
      (2 <= level -> (data_type e = QMI_OPT_FLAG -> es_encoded_bytes s2 = es_encoded_bytes s) /\
         (data_type e <> QMI_OPT_FLAG -> es_encoded_bytes s2 + 3 <= len))
  end.
Proof using Hlen Hlevel Hrec Hsm.
  intros Hi El He. unfold encode_turn. destruct (enc_data_len e (es_data_len_value s)) as [v|] eqn:Ev.
  2: { eexists. split; [done|]. split; [done|apply same_outside_refl]. }
  set (s0 := s <| es_data_len_value := v |>).
  assert (enc_list_ok (e :: l)) as Le by (destruct Hi as (_ & _ & _ & _ & _ & I6 & _); by rewrite <- El).
  apply encodable_cons in Le as (Fe & _); [|done]. apply elem_encodable_range in Fe as (Hel & Hes & Hm & _).
  assert (0 <= v < 2 ^ 32 /\ (array_type e = NO_ARRAY -> v = 1) /\ (array_type e = STATIC_ARRAY -> v = elem_len e) /\
    (array_type e = VAR_LEN_ARRAY -> 1 <= v <= elem_len e)) as (V0 & V1 & V2 & V3).
  { destruct Hi as (_ & _ & _ & _ & Hv & _). unfold enc_data_len in Ev.
    destruct (array_type e); [by simplify_eq|by simplify_eq|].
    destruct (_ || _) eqn:C; simplify_eq. zbool. split; [done|]. split; [done|]. split; [done|]. lia. }
  assert (enc_inv s0) as I0.
  { destruct Hi as (I1 & I2 & I3 & I4 & _ & I6 & I7). exact (conj I1 (conj I2 (conj I3 (conj I4 (conj V0 (conj I6 I7)))))). }
  destruct (encode_switch_ok e l s0 I0 El He V1 V2 V3) as (t & -> & Ht). destruct t as [s1|rc m].
  - eexists. split; [done|]. destruct (finish_tlv_ok e s0 s1 I0 Ht) as (J1 & J2 & J3 & J4). cbv zeta in *.
    split; [done|]. split; [done|]. destruct Ht as (rc & S0 & S1 & _ & _ & _ & _ & _ & _ & S8 & _ & S10 & S11).
    rewrite J3. split; [done|]. intros Hl. rewrite (J4 Hl). split; [|exact S11]. intros E. by apply S10.
  - eexists. split; [done|]. done.
Qed.

Lemma encode_loop_ok n s :
  enc_inv s -> (length (es_ei s) <= n)%nat ->
  exists rc m1, encode_loop rec sm src len level n s = Some (rc, m1) /\ enc_frame (es_mem s) m1 /\
    (rc < 0 \/ (0 <= rc <= len /\
    (2 <= level -> productive (es_ei s) = true \/ es_encoded_bytes s + 3 <= len -> rc + 3 <= len))).
Proof using Hlen Hlevel Hrec Hsm.
  revert s. induction n as [|n IH]; intros s Hi Hn; pose proof Hi as (I1 & _ & _ & _ & _ & I6 & _);
    destruct (encodable_not_nil _ _ _ I6) as (e & l & El); rewrite El in Hn; cbn [length] in Hn; [lia|].
  cbn [encode_loop]. rewrite El. case_decide as He.
  { eexists _, _. split; [done|]. split; [apply same_outside_refl|]. right. rewrite s32_small by lia.
    split; [done|]. intros _ [H|H]; [|done]. cbn in H. by rewrite He in H. }
  destruct (encode_turn_ok e l s Hi El He) as (t & -> & Ht). destruct t as [s2|rc m].
  2: { eexists _, _. split; [done|]. split; [apply Ht|left; apply Ht]. }
  destruct Ht as (J1 & J2 & J3 & J4). rewrite El in J3. cbn [length] in J3.
  destruct (IH s2 J1) as (rc & m1 & -> & Ho & Hr); [lia|]. exists rc, m1. split; [done|].
  split; [by eapply same_outside_trans|]. destruct Hr as [Hr|[Hr Hp]]; [by left|right]. split; [done|].
  intros Hl Hc. apply (Hp Hl). right. destruct (J4 Hl) as [K1 K2].
  destruct (decide (data_type e = QMI_OPT_FLAG)) as [E|E]; [|by apply K2].
  destruct Hc as [Hc|Hc]; [cbn in Hc; by rewrite E in Hc|]. by rewrite K1.
Qed.

End EncodeSafe.

Lemma qmi_encode_ok depth sm l m buf src len level :
  bytes_ok sm -> 1 <= level -> 0 <= len < 2 ^ 31 -> encodable depth (level =? 1) l = true ->
  exists rc m1, qmi_encode depth sm (Some l) m buf src len level = Some (rc, m1) /\
    enc_frame buf len level m m1 /\
    (rc < 0 \/ (0 <= rc <= len /\ (2 <= level -> productive l = true -> rc + 3 <= len))).
Proof.
  intros Hs. revert l m buf src len level. induction depth as [|d IH]; intros l m buf src len level Hl Hlen He; [done|].
  cbn [qmi_encode]. edestruct (encode_loop_ok sm Hs (qmi_encode d sm) d) with (buf := buf) (src := src) (len := len) (level := level) (s := mk_enc l 0
    (if level =? 1 then buf + (TLV_LEN_SIZE + TLV_TYPE_SIZE) else buf) buf 0 0 false m) as (rc & m1 & E & Ho & Hr).
  - intros l' Hen Hp m' buf' src' len' level' Hl' Hlen'.
    destruct (IH l' m' buf' src' len' level') as (rc & m1 & E & Ho & Hr); [lia|done|by replace (level' =? 1) with false by lia|].
    exists rc, m1. split; [done|]. split; [intuition|]. unfold enc_frame, hdr_room in Ho.
    replace (level' =? 1) with false in Ho by lia. by rewrite Z.add_0_r in Ho.
  - exact Hlen.
  - exact Hl.
  - split; [cbn; lia|]. split; [unfold hdr_room, TLV_LEN_SIZE, TLV_TYPE_SIZE; cbn [es_buf_dst es_encoded_bytes]; destruct (level =? 1); lia|].
    split; [cbn; lia|]. split; [cbn; lia|]. split; [cbn; lia|]. split; [exact He|done].
  - done.
  - exists rc, m1. split; [exact E|]. split; [exact Ho|]. intuition.
Qed.

(** C38. Encoding is memory safe and total. For descriptors without strings in
    nested structures and whose nested arrays begin with an element that is
    always written ([encodable], so not empty), [qmi_encode] terminates without
    undefined behaviour for every structure, writes only the [len] bytes of the
    message buffer even when it fails, and returns an error or a length of at
    most [len]. *)
Theorem encode_safe (depth : nat) (sm m : mem) (l : list qmi_elem_info) (buf src len : Z) :
  bytes_ok sm ->
  0 <= len < 2 ^ 31 ->
  encodable depth true l = true ->
  exists rc m1,
    qmi_encode depth sm (Some l) m buf src len 1 = Some (rc, m1) /\
    (rc < 0 \/ 0 <= rc <= len) /\ same_outside buf (buf + len) m m1.
Proof.
  intros Hs Hl He. destruct (qmi_encode_ok depth sm l m buf src len 1) as (rc & m1 & E & Ho & Hr); try done.
  exists rc, m1. split; [done|]. split; [intuition|]. unfold enc_frame, hdr_room in Ho. cbn in Ho.
  eapply same_outside_weaken; [exact Ho|lia|lia].
Qed.

(** ** Messages of plain fields *)

Definition is_basic (e : qmi_elem_info) : bool :=
  match data_type e with
  | QMI_EOTI | QMI_OPT_FLAG | QMI_DATA_LEN | QMI_STRUCT | QMI_STRING => false
  | _ => true
  end.

(** A field of a message: always there, or behind an optional flag. *)
Inductive field :=
| Mandatory (e : qmi_elem_info)
| Optional (flag e : qmi_elem_info).

Definition f_elem (f : field) : qmi_elem_info :=
  match f with
  | Mandatory e => e
  | Optional _ e => e
  end.

Definition f_type (f : field) : Z := tlv_type (f_elem f).

(** The bytes of the field's value. *)
Definition f_size (f : field) : Z := ei_count (f_elem f) * elem_size (f_elem f).

Definition f_desc (f : field) : list qmi_elem_info :=
  match f with
  | Mandatory e => [e]
  | Optional flag e => [flag; e]
  end.

(** The descriptor array of the fields, with its end mark. *)
Definition descriptor (fs : list field) (eoti : qmi_elem_info) : list qmi_elem_info :=
  flat_map f_desc fs ++ [eoti].

(** One value, of a fixed number of instances, in a record of its own. *)
Definition field_ok (f : field) : bool :=
  is_basic (f_elem f) && negb (bool_decide (array_type (f_elem f) = VAR_LEN_ARRAY)) &&
  (0 <=? elem_len (f_elem f)) && (0 <=? elem_size (f_elem f)) && (f_size f <? 65536) &&
  (0 <=? f_type f) && (f_type f <? 256) &&
  match f with
  | Mandatory _ => true
  | Optional flag e =>
      bool_decide (data_type flag = QMI_OPT_FLAG) && bool_decide (array_type flag = NO_ARRAY) &&
      (tlv_type flag =? tlv_type e)
  end.

(** The fields and the end mark have record types of their own. *)
Definition message_ok (fs : list field) (eoti : qmi_elem_info) : Prop :=
  Forall (fun f => field_ok f = true) fs /\ data_type eoti = QMI_EOTI /\ NoDup (map f_type fs ++ [tlv_type eoti]).

(** The field is in the message for structure [c] of memory [sm]. *)
Definition present (sm : mem) (c : Z) (f : field) : bool :=
  match f with
  | Mandatory _ => true
  | Optional flag _ => truth (rd8 sm (c + offset flag))
  end.

Definition value_bytes (sm : mem) (c : Z) (f : field) : list Z :=
  load_bytes (Z.to_nat (f_size f)) sm (c + offset (f_elem f)).

(** The wire format: type, length, value of the fields that are present. *)
Definition wire_field (sm : mem) (c : Z) (f : field) : list Z :=
  if present sm c f then
    [f_type f; Z.land (f_size f) 255; Z.land (Z.shiftr (f_size f) 8) 255] ++ value_bytes sm c f
  else [].

Definition wire (sm : mem) (c : Z) (fs : list field) : list Z := flat_map (wire_field sm c) fs.

(** The structure at [out] of memory [m] after the fields are put there. *)
Definition put_field (sm : mem) (c out : Z) (m : mem) (f : field) : mem :=
  if present sm c f then
    store_bytes
      (match f with
       | Mandatory _ => m
       | Optional flag _ => upd m (out + offset flag) 1
       end) (out + offset (f_elem f)) (value_bytes sm c f)
  else m.

Definition put_fields (sm : mem) (c out : Z) (m : mem) (fs : list field) : mem := foldl (put_field sm c out) m fs.

Lemma field_ok_elem f :
  field_ok f = true ->
  is_basic (f_elem f) = true /\ array_type (f_elem f) <> VAR_LEN_ARRAY /\ 0 <= elem_size (f_elem f) /\
  0 <= ei_count (f_elem f) /\ 0 <= f_size f < 65536 /\ 0 <= f_type f < 256.
Proof.
  unfold field_ok. intros H. zbool.
  assert (0 <= ei_count (f_elem f)) by (unfold ei_count; destruct (array_type (f_elem f)); lia).
  assert (0 <= f_size f) by (unfold f_size; nia).
  repeat match goal with X : bool_decide _ = false |- _ => apply bool_decide_eq_false in X end.
  split_and!; done.
Qed.

Lemma field_ok_flag flag e :
  field_ok (Optional flag e) = true ->
  data_type flag = QMI_OPT_FLAG /\ array_type flag = NO_ARRAY /\ tlv_type flag = tlv_type e.
Proof.
  unfold field_ok. intros H. apply andb_true_iff in H as [_ H]. zbool.
  repeat match goal with X : bool_decide _ = true |- _ => apply bool_decide_eq_true in X end. done.
Qed.

Lemma is_basic_not e : is_basic e = true -> data_type e <> QMI_EOTI /\ data_type e <> QMI_OPT_FLAG /\ data_type e <> QMI_DATA_LEN.
Proof. unfold is_basic. by destruct (data_type e). Qed.

(** The descriptor of a message starts with the next type in line. *)
Lemma descriptor_head fs eoti :
  message_ok fs eoti -> exists e l, descriptor fs eoti = e :: l /\
    tlv_type e = match fs with f :: _ => f_type f | [] => tlv_type eoti end.
Proof.
  intros (Hf & _ & _). destruct fs as [|f fs]; [by eexists _, _|]. inversion_clear Hf as [|? ? H _].
  destruct f as [e|flag e]; [by eexists _, _|]. eexists _, _. split; [done|].
  by destruct (field_ok_flag _ _ H) as (_ & _ & ->).
Qed.

Lemma message_ok_tail f fs eoti : message_ok (f :: fs) eoti ->
  field_ok f = true /\ message_ok fs eoti /\
  f_type f <> match fs with g :: _ => f_type g | [] => tlv_type eoti end.
Proof.
  intros (Hf & He & Hn). inversion_clear Hf as [|? ? H Hf']. cbn in Hn. apply NoDup_cons in Hn as [Hx Hn].
  split; [done|]. split; [done|]. intros E. apply Hx. rewrite E. destruct fs; cbn; left.
Qed.

Lemma encode_switch_basic rec s e sm c len level :
  is_basic e = true ->
  encode_switch rec s e sm c len level =
  if len <? u32 (u32 (es_data_len_value s * elem_size e) + es_encoded_bytes s) + TLV_LEN_SIZE + TLV_TYPE_SIZE then
    Some (Return (- ETOOSMALL) (es_mem s))
  else
    let '(rc, m) := qmi_encode_basic_elem (es_mem s) (es_buf_dst s) sm (c + offset e) (es_data_len_value s)
                      (elem_size e) in
    Some (Next (update_encode s rc m)).
Proof. unfold is_basic, encode_switch. by destruct (data_type e). Qed.

(** A state of the encoder between two records: [k] bytes are written. *)
Definition at_record (l : list qmi_elem_info) (v buf k : Z) (m : mem) : enc_state :=
  mk_enc l v (buf + k + 3) (buf + k) 0 k false m.

(** A record written at [a]: value first, header last. *)
Definition put_record (m : mem) (a ty n : Z) (bs : list Z) : mem :=
  store_bytes (store_bytes m (a + 3) bs) a [ty; Z.land n 255; Z.land (Z.shiftr n 8) 255].

Lemma encode_turn_value rec sm c len f l v buf k m :
  field_ok f = true -> 0 <= k -> k + f_size f + 3 <= len -> len < 2 ^ 31 ->
  encode_turn rec (at_record (f_elem f :: l) v buf k m) (f_elem f) sm c len 1 =
  Some (Next (at_record l (ei_count (f_elem f)) buf (k + 3 + f_size f)
                (put_record m (buf + k) (f_type f) (f_size f) (value_bytes sm c f)))).
Proof.
  intros Hf Hk Hb Hlen. apply field_ok_elem in Hf as (Hb' & Hv & Hs & Hc & Hn & _). unfold encode_turn.
  assert (enc_data_len (f_elem f) v = Some (ei_count (f_elem f))) as E.
  { unfold enc_data_len, ei_count. by destruct (array_type (f_elem f)). }
  change (es_data_len_value (at_record (f_elem f :: l) v buf k m)) with v. rewrite E, encode_switch_basic by done.
  cbn [es_data_len_value es_encoded_bytes es_mem es_buf_dst set_field at_record].
  fold (f_size f). unfold TLV_LEN_SIZE, TLV_TYPE_SIZE. rewrite (u32_small (f_size f)), u32_small by lia.
  rewrite (proj2 (Z.ltb_ge _ _)) by lia. rewrite encode_basic_block by (unfold f_size in Hn; lia). fold (f_size f).
  unfold finish_tlv, update_encode, at_record, put_record, value_bytes, TLV_TYPE_SIZE, TLV_LEN_SIZE. cbn -[Z.land Z.shiftr].
  rewrite Z.add_0_l, (u32_small (f_size f)), (u32_small (k + f_size f)), u32_small by lia.
  do 3 f_equal; lia.
Qed.

(** The two turns on an optional field that is there; the jump over one that
    is not. *)
Lemma encode_turn_flag rec sm c len flag e l v buf k m l' :
  field_ok (Optional flag e) = true ->
  (if present sm c (Optional flag e) then l' = e :: l else skip_same_type (flag :: e :: l) = Some l') ->
  encode_turn rec (at_record (flag :: e :: l) v buf k m) flag sm c len 1 = Some (Next (at_record l' 1 buf k m)).
Proof.
  intros Hf Hl'. destruct (field_ok_flag _ _ Hf) as (Ht & Ha & _). unfold encode_turn, enc_data_len. rewrite Ha.
  unfold encode_switch. rewrite Ht. cbn [present] in Hl'. destruct (truth _).
  - by subst l'.
  - unfold skip_to_next_elem. cbn [Z.ltb Z.compare Pos.compare Pos.compare_cont].
    cbn [es_ei set_field at_record]. by rewrite Hl'.
Qed.

Lemma load_put_record m a ty n bs :
  Z.of_nat (length bs) = n ->
  load_bytes (3 + length bs) (put_record m a ty n bs) a = [ty; Z.land n 255; Z.land (Z.shiftr n 8) 255] ++ bs.
Proof.
  intros Hn. rewrite load_bytes_app. unfold put_record. f_equal.
  - apply (load_store_bytes_same _ a [ty; Z.land n 255; Z.land (Z.shiftr n 8) 255]).
  - rewrite (load_bytes_ext _ (store_bytes m (a + 3) bs)); [apply load_store_bytes_same|].
    intros i Hi. apply store_bytes_other. cbn [length]. lia.
Qed.

(** The loop stands at a record: what it writes from there on. *)
Definition encodes (r : option (Z * mem)) (m : mem) (buf k : Z) (bs : list Z) : Prop :=
  exists m1, r = Some (k + Z.of_nat (length bs), m1) /\
    load_bytes (length bs) m1 (buf + k) = bs /\ (forall x, x < buf + k -> m1 x = m x).

Lemma encode_loop_turn rec sm c len n e l v buf k m s :
  data_type e <> QMI_EOTI ->
  encode_turn rec (at_record (e :: l) v buf k m) e sm c len 1 = Some (Next s) ->
  encode_loop rec sm c len 1 (S n) (at_record (e :: l) v buf k m) = encode_loop rec sm c len 1 n s.
Proof. intros He E. cbn [encode_loop es_ei at_record]. rewrite decide_False by done. by rewrite E. Qed.

Lemma encodes_value rec sm c len f l v buf k m n bs :
  field_ok f = true -> 0 <= k -> k + f_size f + 3 <= len -> len < 2 ^ 31 ->
  (forall v m, encodes (encode_loop rec sm c len 1 n (at_record l v buf (k + 3 + f_size f) m)) m buf (k + 3 + f_size f) bs) ->
  encodes (encode_loop rec sm c len 1 (S n) (at_record (f_elem f :: l) v buf k m)) m buf k
    ([f_type f; Z.land (f_size f) 255; Z.land (Z.shiftr (f_size f) 8) 255] ++ value_bytes sm c f ++ bs).
Proof.
  intros Hf Hk Hb Hlen IH. pose proof (field_ok_elem f Hf) as (Hb' & _ & _ & _ & Hn & _).
  erewrite encode_loop_turn; [|by apply is_basic_not|by apply encode_turn_value].
  set (m0 := put_record _ _ _ _ _). destruct (IH (ei_count (f_elem f)) m0) as (m1 & -> & L & F).
  assert (Z.of_nat (length (value_bytes sm c f)) = f_size f) as El by (unfold value_bytes; rewrite length_load_bytes; lia).
  exists m1. rewrite !length_app. cbn [length]. split; [do 2 f_equal; lia|]. split.
  - replace (3 + (length (value_bytes sm c f) + length bs))%nat with ((3 + length (value_bytes sm c f)) + length bs)%nat by lia.
    rewrite load_bytes_app, app_assoc. f_equal.
    + rewrite <- (load_put_record m (buf + k) (f_type f) (f_size f) (value_bytes sm c f)) by done.
      apply load_bytes_ext. intros i Hi. apply F. lia.
    + etransitivity; [|exact L]. f_equal. lia.
  - intros x Hx. rewrite F by lia. unfold m0, put_record. rewrite !store_bytes_other by lia. done.
Qed.

Lemma encode_fields_wire rec sm c len eoti fs :
  len < 2 ^ 31 -> message_ok fs eoti -> forall k buf,
  0 <= k -> k + Z.of_nat (length (wire sm c fs)) <= len -> forall n v m,
  (length (descriptor fs eoti) <= n)%nat ->
  encodes (encode_loop rec sm c len 1 n (at_record (descriptor fs eoti) v buf k m)) m buf k (wire sm c fs).
Proof.
  intros Hlen. induction fs as [|f fs IH]; intros Hm k buf Hk Hb n v m Hn.
  { destruct n as [|n]; [cbn in Hn; lia|]. destruct Hm as (_ & He & _). exists m.
    cbn [encode_loop at_record es_ei descriptor flat_map app]. rewrite decide_True by done. cbn in Hb |- *.
    rewrite s32_small by lia. by rewrite Z.add_0_r. }
  destruct (message_ok_tail _ _ _ Hm) as (Hf & Hm' & Hne).
  pose proof (field_ok_elem f Hf) as (_ & _ & _ & _ & Hsz & _).
  assert (length (value_bytes sm c f) = Z.to_nat (f_size f)) as Hl by apply length_load_bytes.
  change (wire sm c (f :: fs)) with (wire_field sm c f ++ wire sm c fs) in *.
  assert (present sm c f = true -> forall v m n, (length (descriptor fs eoti) <= n)%nat ->
    encodes (encode_loop rec sm c len 1 (S n) (at_record (f_elem f :: descriptor fs eoti) v buf k m)) m buf k
      (wire_field sm c f ++ wire sm c fs)) as V.
  { intros Hp v' m' n' Hn'. unfold wire_field in *. rewrite Hp in *. rewrite <- app_assoc in *.
    rewrite !length_app, Hl in Hb. cbn [length] in Hb.
    apply encodes_value; try done; [lia|]. intros v2 m2. apply IH; try done; lia. }
  destruct f as [e|flag e].
  { destruct n as [|n]; [cbn in Hn; lia|]. apply V; [done|]. cbn in Hn. unfold descriptor in *. lia. }
  destruct (field_ok_flag _ _ Hf) as (Ht & _ & Ety). destruct n as [|[|n]]; [cbn in Hn; lia..|].
  change (descriptor (Optional flag e :: fs) eoti) with (flag :: e :: descriptor fs eoti) in *. cbn [length] in Hn.
  destruct (present sm c (Optional flag e)) eqn:P.
  - erewrite encode_loop_turn; [|by rewrite Ht|apply encode_turn_flag; [done|rewrite P; reflexivity]].
    apply V; [done|lia].
  - erewrite encode_loop_turn; [|by rewrite Ht|apply encode_turn_flag; [done|rewrite P]].
    + unfold wire_field in *. rewrite P in *. apply IH; try done; lia.
    + destruct (descriptor_head fs eoti Hm') as (e' & l' & E & Et). rewrite E. cbn [skip_same_type].
      rewrite Ety, Z.eqb_refl, Et. by rewrite (proj2 (Z.eqb_neq (tlv_type e) _)) by exact Hne.
Qed.

Lemma find_ei_skip fs f l :
  Forall (fun g => field_ok g = true /\ f_type g <> f_type f) fs -> field_ok f = true ->
  find_ei (flat_map f_desc fs ++ l) (f_type f) = find_ei l (f_type f).
Proof.
  intros H Hf. apply field_ok_elem in Hf as (_ & _ & _ & _ & _ & Ht).
  assert (u8 (f_type f) = f_type f) as Eu by (apply Z.mod_small; lia).
  induction H as [|g fs [Hg Hn] _ IH]; [done|]. cbn [flat_map]. rewrite <- app_assoc.
  pose proof (field_ok_elem g Hg) as (Hb & _). apply is_basic_not in Hb as (Hb & _).
  assert (forall l', find_ei (f_elem g :: l') (f_type f) = find_ei l' (f_type f)) as Q.
  { intros l'. cbn [find_ei]. rewrite decide_False, Eu by done. by rewrite (proj2 (Z.eqb_neq _ _)) by exact Hn. }
  destruct g as [e|flag e]; cbn [f_desc app]; [exact (eq_trans (Q _) IH)|].
  destruct (field_ok_flag _ _ Hg) as (Ef & _ & Et). cbn [find_ei]. rewrite decide_False by (by rewrite Ef).
  rewrite Eu, Et, (proj2 (Z.eqb_neq _ _)) by exact Hn.
  rewrite decide_False by exact Hb. exact IH.
Qed.

Lemma find_ei_field fs1 f fs2 eoti :
  message_ok (fs1 ++ f :: fs2) eoti ->
  find_ei (descriptor (fs1 ++ f :: fs2) eoti) (f_type f) = Some (Some (descriptor (f :: fs2) eoti)).
Proof.
  intros (Hf & _ & Hn). apply Forall_app in Hf as [Hf1 Hf2]. inversion_clear Hf2 as [|? ? Hf _].
  unfold descriptor. rewrite flat_map_app, <- app_assoc. rewrite find_ei_skip.
  - pose proof (field_ok_elem f Hf) as (Hb & _ & _ & _ & _ & Ht). apply is_basic_not in Hb as (Hb & _).
    assert (u8 (f_type f) = f_type f) as Eu by (apply Z.mod_small; lia).
    destruct f as [e|flag e]; cbn [flat_map f_desc app find_ei]; rewrite Eu.
    + rewrite decide_False by done. by rewrite Z.eqb_refl.
    + destruct (field_ok_flag _ _ Hf) as (Ef & _ & Et). rewrite decide_False by (by rewrite Ef).
      rewrite Et. by rewrite Z.eqb_refl.
  - apply Forall_forall. intros g Hg. rewrite Forall_forall in Hf1. split; [by apply Hf1|]. intros E.
    rewrite map_app, <- app_assoc in Hn. apply NoDup_app in Hn as (_ & Hn & _).
    apply (Hn (f_type g)); [by apply list_elem_of_fmap_2|]. rewrite E. cbn. left.
  - done.
Qed.

(** The length of a record comes back. *)
Lemma tlv_length n : 0 <= n < 65536 -> Z.lor (Z.land n 255) (Z.shiftl (Z.land (Z.shiftr n 8) 255) 8) = n.
Proof.
  intros Hn. change 255 with (Z.ones 8). rewrite !Z.land_ones, Z.shiftr_div_pow2 by done.
  change (2 ^ 8) with 256. rewrite lor_shiftl_8 by (apply Z.mod_pos_bound; lia).
  rewrite (Z.mod_small (n / 256)); [|split; [apply Z.div_pos; lia|apply Z.div_lt_upper_bound; lia]].
  rewrite Z.add_comm. symmetry. apply Z.div_mod. done.
Qed.

Lemma rd8_eq m a : rd8 m a = m a.
Proof. unfold rd8. cbn. lia. Qed.

Lemma decode_switch_basic rec e out bm len level s :
  is_basic e = true ->
  decode_switch rec e out bm len level s =
  Some (qmi_decode_basic_elem (ds_mem s) (out + offset e) bm (ds_buf_src s) (ds_data_len_value s) (elem_size e)
          (u32 (len - ds_decoded_bytes s))).
Proof. unfold is_basic, decode_switch. by destruct (data_type e). Qed.

(** The value behind the flag, when there is one. *)
Lemma decode_element_field rec out bm len sm c f l v b n k m :
  field_ok f = true -> present sm c f = true -> 0 <= k -> k + f_size f <= len -> len < 2 ^ 31 ->
  load_bytes (Z.to_nat (f_size f)) bm b = value_bytes sm c f ->
  decode_element rec out bm len 1 (mk_dec (f_desc f ++ l) v b n k m) =
  Some (Next (mk_dec l (ei_count (f_elem f)) (b + f_size f) n (k + f_size f) (put_field sm c out m f))).
Proof.
  intros Hf Hp Hk Hb Hlen Hl. pose proof (field_ok_elem f Hf) as (Hb' & Hv & Hs & Hc & Hn & _).
  apply is_basic_not in Hb' as H3. destruct H3 as (N1 & N2 & N3).
  assert (forall v, dec_data_len (f_elem f) v = Some (ei_count (f_elem f))) as E.
  { intros v'. unfold dec_data_len, ei_count. by destruct (array_type (f_elem f)). }
  set (m0 := match f with Mandatory _ => m | Optional flag _ => upd m (out + offset flag) 1 end).
  assert (decode_opt_flag out (mk_dec (f_desc f ++ l) v b n k m) = Some (mk_dec (f_elem f :: l) v b n k m0)) as Eo.
  { unfold decode_opt_flag, m0. destruct f as [e|flag e]; cbn [f_desc app f_elem ds_ei] in *.
    - by rewrite decide_False.
    - destruct (field_ok_flag _ _ Hf) as (Ht & _). by rewrite decide_True. }
  unfold decode_element. rewrite Eo. unfold decode_data_len. cbn [ds_ei]. rewrite decide_False by done.
  cbn [ds_ei]. rewrite E, decode_switch_basic by done.
  cbn [set_field ds_mem ds_buf_src ds_data_len_value ds_decoded_bytes].
  rewrite decode_basic_block by (unfold f_size in Hn; lia). fold (f_size f).
  rewrite u32_small, (proj2 (Z.ltb_ge _ (f_size f))) by lia. rewrite (proj2 (Z.ltb_ge (f_size f) 0)) by lia.
  unfold update_decode. cbn [set_field ds_mem ds_buf_src ds_data_len_value ds_decoded_bytes ds_ei ds_tlv_len].
  rewrite u32_small by lia. rewrite Hl. unfold put_field. by rewrite Hp.
Qed.

(** One turn of the decoder on the record of a field. *)
Lemma decode_turn_field rec fs1 f fs2 eoti out bm len sm c l v b n k m :
  message_ok (fs1 ++ f :: fs2) eoti -> present sm c f = true ->
  0 <= k -> k + 3 + f_size f <= len -> len < 2 ^ 31 ->
  load_bytes (length (wire_field sm c f)) bm b = wire_field sm c f ->
  decode_turn rec (descriptor (fs1 ++ f :: fs2) eoti) out bm len 1 (mk_dec l v b n k m) =
  Some (Next (mk_dec (descriptor fs2 eoti) (ei_count (f_elem f)) (b + 3 + f_size f) (f_size f) (k + 3 + f_size f)
                (put_field sm c out m f))).
Proof.
  intros Hm Hp Hk Hb Hlen Hw.
  assert (field_ok f = true) as Hf.
  { destruct Hm as (Hf & _). apply Forall_app in Hf as [_ Hf]. by inversion_clear Hf. }
  pose proof (field_ok_elem f Hf) as (_ & _ & _ & _ & Hn & Ht).
  assert (length (value_bytes sm c f) = Z.to_nat (f_size f)) as Hl by apply length_load_bytes.
  unfold wire_field in Hw. rewrite Hp in Hw. rewrite length_app in Hw. cbn [length Nat.add load_bytes app] in Hw.
  injection Hw as B0 B1 B2 Hw. rewrite Hl in Hw.
  unfold decode_turn. change (decode_at_end 1 _) with (Some false). unfold decode_header.
  cbn [ds_decoded_bytes ds_buf_src ds_mem ds_ei ds_tlv_len ds_data_len_value set_field update_decode Z.eqb Pos.eqb].
  unfold TLV_TYPE_SIZE, TLV_LEN_SIZE. rewrite (proj2 (Z.ltb_ge _ _)) by lia.
  rewrite !rd8_eq, B0, B1. replace (b + 2) with (b + 1 + 1) by lia. rewrite B2, tlv_length by done.
  rewrite (find_ei_field fs1 f fs2 eoti Hm), u32_small by lia.
  change (descriptor (f :: fs2) eoti) with ((f_desc f ++ flat_map f_desc fs2) ++ [eoti]). rewrite <- app_assoc.
  rewrite (decode_element_field rec out bm len sm c f _ v (b + (1 + 2)) (f_size f) (k + (1 + 2)) m); try done; try lia.
  etransitivity; [|exact Hw]. f_equal. lia.
Qed.

Lemma decode_fields rec fs eoti out bm len sm c :
  message_ok fs eoti -> len < 2 ^ 31 -> forall fs2 fs1, fs = fs1 ++ fs2 -> forall l v b n k m fuel,
  0 <= k -> k + Z.of_nat (length (wire sm c fs2)) = len ->
  load_bytes (length (wire sm c fs2)) bm b = wire sm c fs2 -> (length fs2 < fuel)%nat ->
  decode_loop rec (descriptor fs eoti) out bm len 1 fuel (mk_dec l v b n k m) = Some (len, put_fields sm c out m fs2).
Proof.
  intros Hm Hlen. induction fs2 as [|f fs2 IH]; intros fs1 Efs l v b n k m fuel Hk Hb Hw Hfuel.
  { destruct fuel as [|fuel]; [lia|]. cbn in Hb. cbn [decode_loop ds_decoded_bytes ds_mem].
    rewrite (proj2 (Z.ltb_ge _ _)), s32_small by lia. cbn. do 2 f_equal. lia. }
  change (wire sm c (f :: fs2)) with (wire_field sm c f ++ wire sm c fs2) in *.
  change (put_fields sm c out m (f :: fs2)) with (put_fields sm c out (put_field sm c out m f) fs2).
  rewrite length_app in Hb, Hw. rewrite load_bytes_app in Hw.
  apply app_inj_1 in Hw as [W1 W2]; [|apply length_load_bytes]. cbn [length] in Hfuel.
  assert (fs = (fs1 ++ [f]) ++ fs2) as Efs' by (by rewrite <- app_assoc). destruct (present sm c f) eqn:P.
  - destruct fuel as [|fuel]; [lia|].
    assert (Z.of_nat (length (wire_field sm c f)) = 3 + f_size f /\ 0 <= f_size f) as [El Hs].
    { destruct Hm as (Hf & _). rewrite Efs in Hf. apply Forall_app in Hf as [_ Hf]. inversion_clear Hf as [|? ? H _].
      apply field_ok_elem in H as (_ & _ & _ & _ & Hn & _). unfold wire_field. rewrite P, length_app.
      unfold value_bytes. rewrite length_load_bytes. cbn [length]. lia. }
    cbn [decode_loop ds_decoded_bytes]. rewrite (proj2 (Z.ltb_lt k len)) by lia. rewrite Efs in Hm |- *.
    rewrite (decode_turn_field rec fs1 f fs2 eoti out bm len sm c) by (done || lia). rewrite <- Efs in *.
    apply (IH (fs1 ++ [f])); try done; try lia. etransitivity; [|exact W2]. f_equal. lia.
  - assert (wire_field sm c f = []) as Ew by (unfold wire_field; by rewrite P).
    assert (put_field sm c out m f = m) as -> by (unfold put_field; by rewrite P).
    rewrite Ew in *. cbn [length] in *. apply (IH (fs1 ++ [f])); try done; try lia.
    etransitivity; [|exact W2]. f_equal. cbn. lia.
Qed.

(** ** Reading the structure back *)

(** The bytes a field occupies. *)
Definition f_owns (f : field) (x : Z) : Prop :=
  offset (f_elem f) <= x < offset (f_elem f) + f_size f \/
  match f with
  | Mandatory _ => False
  | Optional flag _ => x = offset flag
  end.

(** Fields do not overlap, and a flag lies outside its value. *)
Definition disjoint_fields (fs : list field) : Prop :=
  (forall i j f g x, fs !! i = Some f -> fs !! j = Some g -> i <> j -> f_owns f x -> ~ f_owns g x) /\
  Forall (fun f => match f with
                   | Mandatory _ => True
                   | Optional flag e => ~ offset e <= offset flag < offset e + f_size f
                   end) fs.

(** What the structure at [out] holds of a field. *)
Definition field_read (sm : mem) (c out : Z) (m : mem) (f : field) : Prop :=
  if present sm c f then
    load_bytes (Z.to_nat (f_size f)) m (out + offset (f_elem f)) = value_bytes sm c f /\
    match f with
    | Mandatory _ => True
    | Optional flag _ => m (out + offset flag) = 1
    end
  else True.

Lemma value_bytes_length sm c f : field_ok f = true -> Z.of_nat (length (value_bytes sm c f)) = f_size f.
Proof. intros H. apply field_ok_elem in H as (_ & _ & _ & _ & H & _). unfold value_bytes. rewrite length_load_bytes. lia. Qed.

Lemma put_field_other sm c out m f x :
  field_ok f = true -> (present sm c f = true -> ~ f_owns f x) -> put_field sm c out m f (out + x) = m (out + x).
Proof.
  intros Hf Hx. unfold put_field. destruct (present sm c f); [|done]. specialize (Hx eq_refl). unfold f_owns in Hx.
  rewrite store_bytes_other by (rewrite value_bytes_length by done; lia).
  destruct f as [e|flag e]; [done|]. apply upd_ne. intros E. apply Hx. right. lia.
Qed.

Lemma put_fields_other sm c out fs x : forall m,
  Forall (fun f => field_ok f = true) fs -> (forall f, f ∈ fs -> present sm c f = true -> ~ f_owns f x) ->
  put_fields sm c out m fs (out + x) = m (out + x).
Proof.
  induction fs as [|f fs IH]; intros m Hf Hx; [done|]. inversion_clear Hf as [|? ? H1 H2].
  change (put_fields sm c out (put_field sm c out m f) fs (out + x) = m (out + x)). rewrite IH; [|done|].
  - apply put_field_other; [done|]. apply Hx. left.
  - intros g Hg. apply Hx. by right.
Qed.

Lemma put_field_read sm c out m f :
  field_ok f = true ->
  match f with Mandatory _ => True | Optional flag e => ~ offset e <= offset flag < offset e + f_size f end ->
  field_read sm c out (put_field sm c out m f) f.
Proof.
  intros Hf Hd. unfold field_read, put_field. destruct (present sm c f); [|done].
  pose proof (value_bytes_length sm c f Hf) as Hl. split.
  - rewrite <- (load_store_bytes_same (match f with Mandatory _ => m | Optional flag _ => upd m (out + offset flag) 1 end)
      (out + offset (f_elem f)) (value_bytes sm c f)) at 2. f_equal. lia.
  - destruct f as [e|flag e]; [done|]. rewrite store_bytes_other; [apply upd_eq|]. cbn [f_elem] in *. lia.
Qed.

Lemma field_read_ext sm c out m m' f :
  (forall x, f_owns f x -> m' (out + x) = m (out + x)) -> field_read sm c out m f -> field_read sm c out m' f.
Proof.
  unfold field_read. intros H. destruct (present sm c f); [|done]. intros [R1 R2]. split.
  - rewrite <- R1. apply load_bytes_ext. intros i Hi. rewrite <- !Z.add_assoc. apply H. left. lia.
  - destruct f as [e|flag e]; [done|]. rewrite H; [done|]. by right.
Qed.

(** Every field that was sent is in the structure after all were put there. *)
Lemma put_fields_read sm c out m fs :
  Forall (fun f => field_ok f = true) fs -> disjoint_fields fs -> Forall (field_read sm c out (put_fields sm c out m fs)) fs.
Proof.
  intros Hf [Hd Hs]. apply Forall_forall. intros f Hin. apply list_elem_of_split in Hin as (fs1 & fs2 & ->).
  apply Forall_app in Hf as [_ Hf]. apply Forall_app in Hs as [_ Hs]. inversion_clear Hf as [|? ? Hf1 Hf2].
  inversion_clear Hs as [|? ? Hs1 _].
  assert (put_fields sm c out m (fs1 ++ f :: fs2) =
          put_fields sm c out (put_field sm c out (put_fields sm c out m fs1) f) fs2) as ->.
  { unfold put_fields. by rewrite foldl_app. }
  eapply field_read_ext; [|by apply put_field_read]. intros x Hx. apply put_fields_other; [done|].
  intros g Hg _ Hgx. apply list_elem_of_lookup_1 in Hg as [j Hj].
  apply (Hd (length fs1) (length fs1 + S j)%nat f g x); [|..|lia|done|done].
  - by rewrite lookup_app_r, Nat.sub_diag by lia.
  - rewrite lookup_app_r by lia. by replace (length fs1 + S j - length fs1)%nat with (S j) by lia.
Qed.

(** A message on the wire: the header and the records. *)
Definition header_bytes (ty txn_id msg_id n : Z) : list Z :=
  u8 ty :: le_bytes 2 (u16 txn_id) ++ le_bytes 2 (u16 msg_id) ++ le_bytes 2 (u16 n).

Lemma encode_message_wire (d : nat) (fs : list field) (eoti : qmi_elem_info) (sm : mem) (ty msg_id txn_id len c msg : Z) :
  message_ok fs eoti -> Z.of_nat (length (wire sm c fs)) <= len -> len < 2 ^ 31 ->
  let n := Z.of_nat (length (wire sm c fs)) in
  exists mm,
    qmi_encode_message (S d) ty msg_id len txn_id (Some (descriptor fs eoti)) sm (Some c) (Some msg) =
      Some (Ok (sizeof_qmi_header + n, mm)) /\
    load_bytes (Z.to_nat (sizeof_qmi_header + n)) mm msg = header_bytes ty txn_id msg_id n ++ wire sm c fs.
Proof.
  intros Hm Hl Hlen. cbv zeta. set (n := Z.of_nat (length (wire sm c fs))) in *.
  destruct (encode_fields_wire (qmi_encode d sm) sm c len eoti fs Hlen Hm 0 (msg + sizeof_qmi_header)
    ltac:(lia) Hl (length (descriptor fs eoti)) 0 (fun _ => 0) ltac:(lia)) as (m1 & E & W & F).
  rewrite Z.add_0_r in W. fold n in E. rewrite Z.add_0_l in E.
  set (mm := wr16 (wr16 (wr16 (upd m1 msg (u8 ty)) (msg + 1) (u16 txn_id)) (msg + 3) (u16 msg_id)) (msg + 5) (u16 n)).
  exists mm. split.
  - unfold qmi_encode_message. change (truth 0) with false. cbv iota. rewrite u32_small by lia.
    assert (qmi_encode (S d) sm (Some (descriptor fs eoti)) (fun _ => 0) (msg + sizeof_qmi_header) c len 1 = Some (n, m1)) as ->.
    { etransitivity; [|exact E]. cbn [qmi_encode Z.eqb Pos.eqb]. unfold at_record. by rewrite !Z.add_0_r. }
    by rewrite (proj2 (Z.ltb_ge n 0)) by lia.
  - replace (Z.to_nat (sizeof_qmi_header + n)) with (7 + length (wire sm c fs))%nat by (unfold sizeof_qmi_header; lia).
    rewrite load_bytes_app. f_equal.
    + cbn [load_bytes Z.of_nat]. unfold header_bytes. cbn [le_bytes app].
      unfold mm, wr16. cbn [store_le]. unfold upd. repeat f_equal; repeat (case_match; zbool; try lia); done.
    + rewrite <- W at 2. apply load_bytes_ext. intros k Hk. unfold mm, wr16, sizeof_qmi_header.
      rewrite !store_le_other by lia. apply upd_ne. lia.
Qed.

Lemma decode_message_wire (d : nat) (fs : list field) (eoti : qmi_elem_info) (sm bm m0 : mem) (c b out : Z) :
  message_ok fs eoti ->
  let n := Z.of_nat (length (wire sm c fs)) in
  n < 2 ^ 31 ->
  load_bytes (length (wire sm c fs)) bm (b + sizeof_qmi_header) = wire sm c fs ->
  qmi_decode_message (S d) bm (Some b) (sizeof_qmi_header + n) (Some (descriptor fs eoti)) m0 (Some out) =
    Some (n, put_fields sm c out m0 fs).
Proof.
  intros Hm. cbv zeta. set (n := Z.of_nat (length (wire sm c fs))). intros Hlen W.
  unfold qmi_decode_message. rewrite (proj2 (Z.eqb_neq (sizeof_qmi_header + n) 0)) by (unfold sizeof_qmi_header; lia).
  replace (sizeof_qmi_header + n - sizeof_qmi_header) with n by lia. rewrite u32_small by lia. cbn [qmi_decode].
  apply (decode_fields _ fs eoti out bm n sm c Hm ltac:(lia) fs []); try done.
  apply Nat.lt_succ_r. unfold descriptor. rewrite length_app.
  assert (length fs <= length (flat_map f_desc fs))%nat; [|lia].
  clear. induction fs as [|f fs IH]; [done|]. cbn [flat_map length]. rewrite length_app. destruct f; cbn; lia.
Qed.

Lemma length_header_bytes ty txn_id msg_id n : length (header_bytes ty txn_id msg_id n) = 7%nat.
Proof. done. Qed.

(** The fields of a header in a buffer. *)
Lemma read_header ty txn_id msg_id n bs m a :
  load_bytes (7 + length bs) m a = header_bytes ty txn_id msg_id n ++ bs ->
  rd8 m a = u8 ty /\ rd16 m (a + 1) = u16 txn_id /\ rd16 m (a + 3) = u16 msg_id /\ rd16 m (a + 5) = u16 n /\
  load_bytes (length bs) m (a + sizeof_qmi_header) = bs.
Proof.
  rewrite load_bytes_app. intros E. apply app_inj_1 in E as [E1 E2]; [|by rewrite length_load_bytes].
  cbn [load_bytes] in E1. unfold header_bytes in E1. cbn [le_bytes app] in E1. unfold rd8, rd16. cbn [load_le].
  replace (a + 1 + 1 + 1) with (a + 3) in E1 by lia. replace (a + 3 + 1 + 1) with (a + 5) in E1 by lia.
  injection E1 as -> -> -> -> -> -> ->.
  assert (forall v, u16 v mod 256 + 256 * (u16 v / 256 mod 256 + 256 * 0) = u16 v) as U.
  { intros v. pose proof (Z.mod_pos_bound v 65536 ltac:(lia)). change (u16 v) with (v mod 65536).
    rewrite (Z.mod_small (v mod 65536 / 256)) by (split; [apply Z.div_pos; lia|apply Z.div_lt_upper_bound; lia]).
    pose proof (Z.div_mod (v mod 65536) 256 ltac:(lia)). lia. }
  split; [lia|]. split; [apply U|]. split; [apply U|]. split; [apply U|]. exact E2.
Qed.

(** C28. Messages survive the wire. For a message of mandatory and optional
    fields of basic types, each with a record type of its own and bytes of its
    own, encoding into a buffer that is large enough yields the header and the
    type-length-value records of the fields that are present, and decoding
    that message restores exactly those fields, sets their flags and leaves
    every other byte of the destination alone. *)
Theorem message_roundtrip (d : nat) (fs : list field) (eoti : qmi_elem_info) (sm m0 : mem)
  (ty msg_id txn_id len c msg out : Z) :
  message_ok fs eoti ->
  disjoint_fields fs ->
  Z.of_nat (length (wire sm c fs)) <= len ->
  len < 2 ^ 31 ->
  let n := Z.of_nat (length (wire sm c fs)) in
  exists mm m2,
    qmi_encode_message (S d) ty msg_id len txn_id (Some (descriptor fs eoti)) sm (Some c) (Some msg) =
      Some (Ok (sizeof_qmi_header + n, mm)) /\
    rd8 mm msg = u8 ty /\ rd16 mm (msg + 1) = u16 txn_id /\ rd16 mm (msg + 3) = u16 msg_id /\
    rd16 mm (msg + 5) = u16 n /\
    load_bytes (length (wire sm c fs)) mm (msg + sizeof_qmi_header) = wire sm c fs /\
    qmi_decode_message (S d) mm (Some msg) (sizeof_qmi_header + n) (Some (descriptor fs eoti)) m0 (Some out) =
      Some (n, m2) /\
    Forall (field_read sm c out m2) fs /\
    (forall x, (forall f, f ∈ fs -> present sm c f = true -> ~ f_owns f x) -> m2 (out + x) = m0 (out + x)).
Proof.
  intros Hm Hd Hl Hlen. cbv zeta. set (n := Z.of_nat (length (wire sm c fs))) in *.
  destruct (encode_message_wire d fs eoti sm ty msg_id txn_id len c msg Hm Hl Hlen) as (mm & E & L). fold n in E, L.
  replace (Z.to_nat (sizeof_qmi_header + n)) with (7 + length (wire sm c fs))%nat in L by (unfold sizeof_qmi_header; lia).
  destruct (read_header _ _ _ _ _ _ _ L) as (R1 & R2 & R3 & R4 & W).
  exists mm, (put_fields sm c out m0 fs). split; [exact E|]. do 5 (split; [done|]).
  split; [apply decode_message_wire; [done|lia|done]|]. split; [apply put_fields_read; [apply Hm|done]|].
  intros x Hx. apply put_fields_other; [apply Hm|done].
Qed.

(** ** Limits of the code *)

Definition demo_eoti : qmi_elem_info := mk_ei QMI_EOTI 0 0 NO_ARRAY 0 0 None.

Definition zero_mem : mem := fun _ => 0.

(** A string in a nested structure is checked against the buffer without the
    three bytes of the record header in front of it: here a buffer of five
    bytes is overrun by three. *)
Lemma nested_string_overruns :
  let ei := [mk_ei QMI_STRUCT 1 5 NO_ARRAY 1 0 (Some [mk_ei QMI_STRING 4 1 NO_ARRAY 1 0 None; demo_eoti]); demo_eoti] in
  exists m1, qmi_encode 2 (store_bytes zero_mem 0 [97; 98; 99; 100]) (Some ei) zero_mem 1000 0 5 1 = Some (8, m1) /\
    load_bytes 3 m1 1005 = [98; 99; 100].
Proof. cbv zeta. eexists. split; [vm_compute; reflexivity|vm_compute; reflexivity]. Qed.

(** The decoder reads a one-byte length into a variable that still holds the
    count of the previous array: after an array of 300 the length 2 is taken
    for 258, and a message of the encoder is refused. *)
Lemma stale_length_refused :
  let ei := [mk_ei QMI_UNSIGNED_1_BYTE 300 1 STATIC_ARRAY 1 0 None; mk_ei QMI_DATA_LEN 1 1 NO_ARRAY 2 300 None;
             mk_ei QMI_UNSIGNED_1_BYTE 8 1 VAR_LEN_ARRAY 2 304 None; demo_eoti] in
  ei_fits 1 312 ei = true /\ encodable 1 true ei = true /\
  exists mm, qmi_encode 1 (store_bytes zero_mem 300 [2; 0; 0; 0; 7; 9]) (Some ei) zero_mem 0 0 400 1 = Some (309, mm) /\
    fst <$> qmi_decode 1 mm (Some ei) zero_mem 0 0 309 1 = Some (- ETOOSMALL).
Proof.
  cbv zeta. split; [vm_compute; reflexivity|]. split; [vm_compute; reflexivity|].
  eexists. split; [vm_compute; reflexivity|vm_compute; reflexivity].
Qed.

(** ** Witnesses *)

Lemma zero_mem_ok : bytes_ok zero_mem.
Proof. intros a. unfold zero_mem. lia. Qed.

Definition demo_ei : list qmi_elem_info :=
  [ mk_ei QMI_UNSIGNED_4_BYTE 1 4 NO_ARRAY 1 0 None;
    mk_ei QMI_STRUCT 1 4 NO_ARRAY 2 4 (Some qmi_response_type_v01_ei);
    mk_ei QMI_OPT_FLAG 1 1 NO_ARRAY 16 8 None;
    mk_ei QMI_DATA_LEN 1 1 NO_ARRAY 16 12 None;
    mk_ei QMI_UNSIGNED_1_BYTE 8 1 VAR_LEN_ARRAY 16 16 None;
    mk_ei QMI_STRING 8 1 NO_ARRAY 3 24 None;
    demo_eoti ].

Definition demo_msg_bytes : list Z :=
  [1; 4; 0; 11; 12; 13; 14; 16; 3; 0; 2; 21; 22; 99; 200; 1; 2; 4; 0; 5; 0; 6; 0].

Definition demo_msg : mem := store_bytes zero_mem 100 demo_msg_bytes.

Lemma demo_msg_ok : bytes_ok demo_msg.
Proof. apply bytes_ok_store_bytes; [exact zero_mem_ok|]. repeat constructor; lia. Qed.

(** A message with an unknown optional record that claims more than is left. *)
Lemma decode_safe_witness :
  ei_fits 2 32 demo_ei = true /\
  fst <$> qmi_decode 2 demo_msg (Some demo_ei) zero_mem 1000 100 23 1 = Some 472 /\
  exists rc m1, qmi_decode 2 demo_msg (Some demo_ei) zero_mem 1000 100 23 1 = Some (rc, m1) /\
    (0 <= rc <= 23 + 65535 \/ decode_error rc) /\ same_outside 1000 (1000 + 32) zero_mem m1.
Proof.
  split; [vm_compute; reflexivity|]. split; [vm_compute; reflexivity|].
  destruct (decode_safe 2 demo_msg demo_msg zero_mem demo_ei 32 1000 100 23) as (rc & m1 & E & _ & H).
  { exact demo_msg_ok. } { exact demo_msg_ok. } { vm_compute. reflexivity. } { lia. } { intros x _. reflexivity. }
  exists rc, m1. split; [exact E|exact H].
Defined.

Definition demo_struct : mem :=
  store_bytes zero_mem 0 [11; 12; 13; 14; 5; 0; 6; 0; 1; 0; 0; 0; 2; 0; 0; 0; 21; 22].

Lemma demo_struct_ok : bytes_ok demo_struct.
Proof. apply bytes_ok_store_bytes; [exact zero_mem_ok|]. repeat constructor; lia. Qed.

Lemma encode_safe_witness :
  encodable 2 true demo_ei = true /\
  fst <$> qmi_encode 2 demo_struct (Some demo_ei) zero_mem 100 0 64 1 = Some 23 /\
  fst <$> qmi_encode 2 demo_struct (Some demo_ei) zero_mem 100 0 22 1 = Some (- ETOOSMALL) /\
  exists rc m1, qmi_encode 2 demo_struct (Some demo_ei) zero_mem 100 0 22 1 = Some (rc, m1) /\
    same_outside 100 (100 + 22) zero_mem m1.
Proof.
  split; [vm_compute; reflexivity|]. split; [vm_compute; reflexivity|]. split; [vm_compute; reflexivity|].
  destruct (encode_safe 2 demo_struct zero_mem demo_ei 100 0 22) as (rc & m1 & E & _ & H).
  { exact demo_struct_ok. } { lia. } { vm_compute. reflexivity. }
  exists rc, m1. split; [exact E|exact H].
Defined.

Definition demo_fields : list field :=
  [ Mandatory (mk_ei QMI_UNSIGNED_4_BYTE 1 4 NO_ARRAY 1 0 None);
    Optional (mk_ei QMI_OPT_FLAG 1 1 NO_ARRAY 16 4 None) (mk_ei QMI_UNSIGNED_2_BYTE 1 2 NO_ARRAY 16 6 None);
    Optional (mk_ei QMI_OPT_FLAG 1 1 NO_ARRAY 17 8 None) (mk_ei QMI_UNSIGNED_8_BYTE 2 8 STATIC_ARRAY 17 16 None) ].

Definition demo_plain : mem := store_bytes zero_mem 0 [11; 12; 13; 14; 1; 0; 7; 8].

Lemma demo_fields_disjoint : disjoint_fields demo_fields.
Proof.
  split.
  - intros i j f g x Hi Hj Hn. destruct i as [|[|[|i]]], j as [|[|[|j]]]; cbn in Hi, Hj; simplify_eq;
      unfold f_owns, f_size, ei_count; cbn; lia.
  - repeat constructor; unfold f_size, ei_count; cbn; lia.
Qed.

Lemma demo_message_ok : message_ok demo_fields demo_eoti.
Proof.
  split; [repeat constructor|]. split; [done|]. apply (bool_decide_unpack _). vm_compute. exact I.
Qed.

Lemma message_roundtrip_witness :
  wire demo_plain 0 demo_fields = [1; 4; 0; 11; 12; 13; 14; 16; 2; 0; 7; 8] /\
  exists mm m2,
    qmi_encode_message 1 0 32 64 1 (Some (descriptor demo_fields demo_eoti)) demo_plain (Some 0) (Some 500) = Some (Ok (19, mm)) /\
    qmi_decode_message 1 mm (Some 500) 19 (Some (descriptor demo_fields demo_eoti)) zero_mem (Some 900) = Some (12, m2) /\
    load_bytes 4 m2 900 = [11; 12; 13; 14] /\ m2 904 = 1.
Proof.
  split; [vm_compute; reflexivity|].
  destruct (message_roundtrip 0 demo_fields demo_eoti demo_plain zero_mem 0 32 1 64 0 500 900)
    as (mm & m2 & E & _ & _ & _ & _ & _ & D & R & _).
  { exact demo_message_ok. } { exact demo_fields_disjoint. } { vm_compute. congruence. } { lia. }
  exists mm, m2. split; [exact E|]. split; [exact D|].
  inversion_clear R as [|? ? R1 R2]. inversion_clear R2 as [|? ? R2' _]. split; [apply R1|apply R2'].
Defined.
