(* ===== verification/Qrtr.v ===== *)
(** * Qrtr: the vocabulary of the IPC router
      (src/include/uapi/linux/qrtr.h)

    What the sockets of the router (AfQrtr.v) and its name service (QrtrNs.v)
    share: addresses, packet types and control packets. *)
From stdpp Require Import prelude list gmap.
From S2P Require Import Prelude.

(** ** Data *)

Definition QRTR_NODE_BCAST : Z := 4294967295.

Definition QRTR_PORT_CTRL : Z := 4294967294.

Definition QRTR_TYPE_DATA : Z := 1.

Definition QRTR_TYPE_HELLO : Z := 2.

Definition QRTR_TYPE_BYE : Z := 3.

Definition QRTR_TYPE_NEW_SERVER : Z := 4.

Definition QRTR_TYPE_DEL_SERVER : Z := 5.

Definition QRTR_TYPE_DEL_CLIENT : Z := 6.

Definition QRTR_TYPE_RESUME_TX : Z := 7.

Definition QRTR_TYPE_EXIT : Z := 8.

Definition QRTR_TYPE_PING : Z := 9.

Definition QRTR_TYPE_NEW_LOOKUP : Z := 10.

Definition QRTR_TYPE_DEL_LOOKUP : Z := 11.

Definition QRTR_TYPE_DEL_PROC : Z := 13.

Record sockaddr_qrtr := mk_sq { sq_node : Z; sq_port : Z }.

#[global] Instance sockaddr_qrtr_eq_dec : EqDecision sockaddr_qrtr.
Proof. solve_decision. Defined.

(** The command and the four words of the union; as a client the first two
    are the node and the port. *)
Record qrtr_ctrl_pkt := mk_pkt { cmd : Z; w_service : Z; w_instance : Z; w_node : Z; w_port : Z }.

#[global] Instance qrtr_ctrl_pkt_eq_dec : EqDecision qrtr_ctrl_pkt.
Proof. solve_decision. Defined.

Definition client_node (p : qrtr_ctrl_pkt) : Z := w_service p.

Definition client_port (p : qrtr_ctrl_pkt) : Z := w_instance p.
