(* ===== verification/QrtrNs.v ===== *)
(** * QrtrNs: the name service of the IPC router
      (src/net/qrtr/ns.c)

    The name service keeps the servers of every node, by port, and the
    observers that asked to be told about servers. It is driven by control
    packets and answers with control packets. The results of the socket layer
    and of the allocators are the inputs [ns_env] of each handler; the packets
    that were delivered are logged in the state. *)
From Stdlib Require Import Sorted.
From stdpp Require Import prelude list gmap.
From S2P Require Import Prelude.
From S2P Require Import XArray.
From S2P Require Import Qrtr.

(** ** Data *)

Record qrtr_lookup := mk_lookup { lk_service : Z; lk_instance : Z; lk_sq : sockaddr_qrtr }.

Record qrtr_server := mk_server { srv_service : Z; srv_instance : Z; srv_node : Z; srv_port : Z }.

#[global] Instance qrtr_server_eq_dec : EqDecision qrtr_server.
Proof. solve_decision. Defined.

Record qrtr_server_filter := mk_filter { fl_service : Z; fl_instance : Z; fl_ifilter : Z }.

Record qrtr_node := mk_node { nd_id : Z; nd_servers : xarray qrtr_server }.

#[export] Instance eta_qrtr_node : Settable qrtr_node := fun n => mk_node (nd_id n) (nd_servers n).

(** The static state: the nodes, the observers, the local node, and the
    packets delivered so far. *)
Record qrtr_ns := mk_ns {
  nodes : xarray qrtr_node;
  lookups : list qrtr_lookup;
  local_node : Z;
  sent : list (sockaddr_qrtr * qrtr_ctrl_pkt);
}.

#[export] Instance eta_qrtr_ns : Settable qrtr_ns :=
  fun s => mk_ns (nodes s) (lookups s) (local_node s) (sent s).

Definition bcast_sq : sockaddr_qrtr := mk_sq QRTR_NODE_BCAST QRTR_PORT_CTRL.

(** What the socket layer answers and which allocations succeed. *)
Record ns_env := mk_env {
  e_send : sockaddr_qrtr -> qrtr_ctrl_pkt -> Z;
  e_node_alloc : Z -> bool;
  e_server_alloc : bool;
  e_server_store : bool;
  e_lookup_alloc : bool;
}.

(** ** Nodes, servers, packets *)

(** [kernel_sendmsg]; a packet is delivered when no error is returned. *)
Definition kernel_sendmsg (env : ns_env) (s : qrtr_ns) (dest : sockaddr_qrtr) (pkt : qrtr_ctrl_pkt) : Z * qrtr_ns :=
  let ret := e_send env dest pkt in
  (ret, if ret <? 0 then s else s <| sent := sent s ++ [(dest, pkt)] |>).

(** Whether [node_get] returns a node, with the node created if need be. *)
Definition node_get (env : ns_env) (s : qrtr_ns) (node_id : Z) : bool * qrtr_ns :=
  match xa_load (nodes s) node_id with
  | Some _ => (true, s)
  | None =>
      if e_node_alloc env node_id then (true, s <| nodes := xa_store (nodes s) node_id (mk_node node_id []) |>)
      else (false, s)
  end.

(** The servers of a node. *)
Definition servers_of (s : qrtr_ns) (node_id : Z) : xarray qrtr_server :=
  match xa_load (nodes s) node_id with
  | Some n => nd_servers n
  | None => []
  end.

(** A change of the servers of an existing node. *)
Definition set_servers (s : qrtr_ns) (node_id : Z) (x : xarray qrtr_server) : qrtr_ns :=
  match xa_load (nodes s) node_id with
  | Some n => s <| nodes := xa_store (nodes s) node_id (n <| nd_servers := x |>) |>
  | None => s
  end.

Definition qrtr_get_service_id (s : qrtr_ns) (node_id port_id : Z) : Z :=
  match xa_load (nodes s) node_id with
  | None => - EINVAL
  | Some n =>
      match list_find (fun iv => srv_node (snd iv) = node_id /\ srv_port (snd iv) = port_id) (nd_servers n) with
      | Some (_, (_, srv)) => srv_service srv
      | None => - EINVAL
      end
  end.

Definition server_match (srv : qrtr_server) (f : qrtr_server_filter) : bool :=
  if negb (fl_service f =? 0) && negb (srv_service srv =? fl_service f) then false
  else
    let ifilter := if (fl_ifilter f =? 0) && negb (fl_instance f =? 0) then UINT_MAX else fl_ifilter f in
    Z.land (srv_instance srv) ifilter =? fl_instance f.

Definition server_pkt (c : Z) (srv : qrtr_server) : qrtr_ctrl_pkt :=
  mk_pkt c (srv_service srv) (srv_instance srv) (srv_node srv) (srv_port srv).

Definition service_announce_new (env : ns_env) (s : qrtr_ns) (dest : sockaddr_qrtr) (srv : qrtr_server) : Z * qrtr_ns :=
  kernel_sendmsg env s dest (server_pkt QRTR_TYPE_NEW_SERVER srv).

Definition service_announce_del (env : ns_env) (s : qrtr_ns) (dest : sockaddr_qrtr) (srv : qrtr_server) : qrtr_ns :=
  snd (kernel_sendmsg env s dest (server_pkt QRTR_TYPE_DEL_SERVER srv)).

Definition lookup_notify (env : ns_env) (s : qrtr_ns) (to : sockaddr_qrtr) (srv : option qrtr_server) (new : bool) : qrtr_ns :=
  let c := if new then QRTR_TYPE_NEW_SERVER else QRTR_TYPE_DEL_SERVER in
  let pkt :=
    match srv with
    | Some srv => server_pkt c srv
    | None => mk_pkt c 0 0 0 0
    end in
  snd (kernel_sendmsg env s to pkt).

(** The inner loop of [announce_servers]; [Err] is the early return. *)
Fixpoint announce_list (env : ns_env) (s : qrtr_ns) (sq : sockaddr_qrtr) (l : xarray qrtr_server) : result unit * qrtr_ns :=
  match l with
  | [] => (Ok tt, s)
  | (_, srv) :: l' =>
      let '(ret, s) := service_announce_new env s sq srv in
      if (ret <? 0) && negb (ret =? - ENODEV) then (Err ret, s) else announce_list env s sq l'
  end.

Fixpoint announce_nodes (env : ns_env) (s : qrtr_ns) (sq : sockaddr_qrtr) (l : xarray qrtr_node) : Z * qrtr_ns :=
  match l with
  | [] => (0, s)
  | (_, n) :: l' =>
      if nd_id n =? sq_node sq then announce_nodes env s sq l'
      else
        match announce_list env s sq (nd_servers n) with
        | (Err ret, s) => (ret, s)
        | (Ok _, s) => announce_nodes env s sq l'
        end
  end.

Definition announce_servers (env : ns_env) (s : qrtr_ns) (sq : sockaddr_qrtr) : Z * qrtr_ns :=
  announce_nodes env s sq (nodes s).

Definition server_add (env : ns_env) (s : qrtr_ns) (service instance node_id port : Z) : option qrtr_server * qrtr_ns :=
  if (service =? 0) || (port =? 0) then (None, s)
  else if negb (e_server_alloc env) then (None, s)
  else
    let srv := mk_server service instance node_id port in
    let '(node, s) := node_get env s node_id in
    if negb node then (None, s)
    else if negb (e_server_store env) then (None, s)
    else (Some srv, set_servers s node_id (xa_store (servers_of s node_id) port srv)).

(** The test of an observer against a service and an instance. *)
Definition lookup_wants (l : qrtr_lookup) (service instance : Z) : bool :=
  negb (negb (lk_service l =? 0) && negb (lk_service l =? service)) &&
  negb (negb (lk_instance l =? 0) && negb (lk_instance l =? instance)).

(** The loop over the observers. *)
Fixpoint notify_lookups (env : ns_env) (s : qrtr_ns) (l : list qrtr_lookup) (srv : qrtr_server) (new : bool) : qrtr_ns :=
  match l with
  | [] => s
  | lk :: l' =>
      let s := if lookup_wants lk (srv_service srv) (srv_instance srv) then lookup_notify env s (lk_sq lk) (Some srv) new else s in
      notify_lookups env s l' srv new
  end.

Definition server_del (env : ns_env) (s : qrtr_ns) (node_id port : Z) (bcast : bool) : qrtr_ns :=
  match xa_load (servers_of s node_id) port with
  | None => s
  | Some srv =>
      let s := set_servers s node_id (xa_erase (servers_of s node_id) port) in
      let s := if (srv_node srv =? local_node s) && bcast then service_announce_del env s bcast_sq srv else s in
      notify_lookups env s (lookups s) srv false
  end.

Definition say_hello (env : ns_env) (s : qrtr_ns) (dest : sockaddr_qrtr) : Z * qrtr_ns :=
  kernel_sendmsg env s dest (mk_pkt QRTR_TYPE_HELLO 0 0 0 0).

(** ** Control packets *)

Definition ctrl_cmd_hello (env : ns_env) (s : qrtr_ns) (sq : sockaddr_qrtr) : Z * qrtr_ns :=
  let '(ret, s) := say_hello env s sq in
  if ret <? 0 then (ret, s) else announce_servers env s sq.

(** The loop that removes the servers of a node. *)
Fixpoint del_servers (env : ns_env) (s : qrtr_ns) (node_id : Z) (l : xarray qrtr_server) : qrtr_ns :=
  match l with
  | [] => s
  | (_, srv) :: l' => del_servers env (server_del env s node_id (srv_port srv) true) node_id l'
  end.

(** The loop that sends a packet to local servers; errors are only logged. *)
Fixpoint tell_servers (env : ns_env) (s : qrtr_ns) (pkt : qrtr_ctrl_pkt) (l : xarray qrtr_server) : qrtr_ns :=
  match l with
  | [] => s
  | (_, srv) :: l' => tell_servers env (snd (kernel_sendmsg env s (mk_sq (srv_node srv) (srv_port srv)) pkt)) pkt l'
  end.

Definition ctrl_cmd_bye (env : ns_env) (s : qrtr_ns) (from : sockaddr_qrtr) : Z * qrtr_ns :=
  let '(node, s) := node_get env s (sq_node from) in
  if negb node then (0, s)
  else
    let s := del_servers env s (sq_node from) (servers_of s (sq_node from)) in
    let '(local, s) := node_get env s (local_node s) in
    if negb local then (0, s)
    else (0, tell_servers env s (mk_pkt QRTR_TYPE_BYE (sq_node from) 0 0 0) (servers_of s (local_node s))).

Definition ctrl_cmd_del_client (env : ns_env) (s : qrtr_ns) (from : sockaddr_qrtr) (node_id port : Z) : Z * qrtr_ns :=
  if negb (sq_node from =? node_id) then (- EINVAL, s)
  else if (sq_node from =? local_node s) && negb (sq_port from =? port) then (- EINVAL, s)
  else
    let s := s <| lookups := filter (fun l => ~ (sq_node (lk_sq l) = node_id /\ sq_port (lk_sq l) = port)) (lookups s) |> in
    let '(node, s) := node_get env s node_id in
    let s := if node then server_del env s node_id port false else s in
    let '(local, s) := node_get env s (local_node s) in
    if negb local then (0, s)
    else (0, tell_servers env s (mk_pkt QRTR_TYPE_DEL_CLIENT node_id port 0 0) (servers_of s (local_node s))).

(** The node and port a server packet is about. *)
Definition server_addr (s : qrtr_ns) (from : sockaddr_qrtr) (node_id port : Z) : Z * Z :=
  if sq_node from =? local_node s then (sq_node from, sq_port from) else (node_id, port).

Definition ctrl_cmd_new_server (env : ns_env) (s : qrtr_ns) (from : sockaddr_qrtr) (service instance node_id port : Z)
  : Z * qrtr_ns :=
  let '(node_id, port) := server_addr s from node_id port in
  match server_add env s service instance node_id port with
  | (None, s) => (- EINVAL, s)
  | (Some srv, s) =>
      let '(ret, s) := if srv_node srv =? local_node s then service_announce_new env s bcast_sq srv else (0, s) in
      if ret <? 0 then (ret, s) else (ret, notify_lookups env s (lookups s) srv true)
  end.

Definition ctrl_cmd_del_server (env : ns_env) (s : qrtr_ns) (from : sockaddr_qrtr) (service instance node_id port : Z)
  : Z * qrtr_ns :=
  let '(node_id, port) := server_addr s from node_id port in
  if (sq_node from =? local_node s) && negb (sq_port from =? port) then (- EINVAL, s)
  else
    let '(node, s) := node_get env s node_id in
    if negb node then (- ENOENT, s) else (0, server_del env s node_id port true).

(** The loops of [ctrl_cmd_new_lookup] over the servers of a node and over
    the nodes. *)
Fixpoint list_servers (env : ns_env) (s : qrtr_ns) (from : sockaddr_qrtr) (f : qrtr_server_filter) (l : xarray qrtr_server)
  : qrtr_ns :=
  match l with
  | [] => s
  | (_, srv) :: l' =>
      list_servers env (if server_match srv f then lookup_notify env s from (Some srv) true else s) from f l'
  end.

Fixpoint list_nodes (env : ns_env) (s : qrtr_ns) (from : sockaddr_qrtr) (f : qrtr_server_filter) (l : xarray qrtr_node)
  : qrtr_ns :=
  match l with
  | [] => s
  | (_, n) :: l' => list_nodes env (list_servers env s from f (nd_servers n)) from f l'
  end.

Definition ctrl_cmd_new_lookup (env : ns_env) (s : qrtr_ns) (from : sockaddr_qrtr) (service instance : Z) : Z * qrtr_ns :=
  if negb (sq_node from =? local_node s) then (- EINVAL, s)
  else if negb (e_lookup_alloc env) then (- ENOMEM, s)
  else
    let s := s <| lookups := lookups s ++ [mk_lookup service instance from] |> in
    let s := list_nodes env s from (mk_filter service instance 0) (nodes s) in
    (0, lookup_notify env s from None true).

Definition del_lookup_matches (from : sockaddr_qrtr) (service instance : Z) (l : qrtr_lookup) : bool :=
  (sq_node (lk_sq l) =? sq_node from) && (sq_port (lk_sq l) =? sq_port from) && (lk_service l =? service) &&
  negb (negb (lk_instance l =? 0) && negb (lk_instance l =? instance)).

Definition ctrl_cmd_del_lookup (s : qrtr_ns) (from : sockaddr_qrtr) (service instance : Z) : qrtr_ns :=
  s <| lookups := filter (fun l => del_lookup_matches from service instance l = false) (lookups s) |>.

(** ** The worker *)

(** The packet at the start of the receive buffer. *)
Definition recv_pkt (b : mem) : qrtr_ctrl_pkt := mk_pkt (rd32 b 0) (rd32 b 4) (rd32 b 8) (rd32 b 12) (rd32 b 16).

(** The switch of [qrtr_ns_worker]. *)
Definition handle_pkt (env : ns_env) (s : qrtr_ns) (sq : sockaddr_qrtr) (p : qrtr_ctrl_pkt) : Z * qrtr_ns :=
  let c := cmd p in
  if c =? QRTR_TYPE_HELLO then ctrl_cmd_hello env s sq
  else if c =? QRTR_TYPE_BYE then ctrl_cmd_bye env s sq
  else if c =? QRTR_TYPE_DEL_CLIENT then ctrl_cmd_del_client env s sq (client_node p) (client_port p)
  else if c =? QRTR_TYPE_NEW_SERVER then
    ctrl_cmd_new_server env s sq (w_service p) (w_instance p) (w_node p) (w_port p)
  else if c =? QRTR_TYPE_DEL_SERVER then
    ctrl_cmd_del_server env s sq (w_service p) (w_instance p) (w_node p) (w_port p)
  else if (c =? QRTR_TYPE_EXIT) || (c =? QRTR_TYPE_PING) || (c =? QRTR_TYPE_RESUME_TX) then (0, s)
  else if c =? QRTR_TYPE_NEW_LOOKUP then ctrl_cmd_new_lookup env s sq (w_service p) (w_instance p)
  else if c =? QRTR_TYPE_DEL_LOOKUP then (0, ctrl_cmd_del_lookup s sq (w_service p) (w_instance p))
  else (0, s).

(** The loop of [qrtr_ns_worker] over the messages received until the socket
    is empty: sender, bytes, and the answers of the environment. A message is
    received over the start of the buffer; what a short one leaves behind it
    is the previous message. *)
Fixpoint worker_loop (s : qrtr_ns) (b : mem) (msgs : list (sockaddr_qrtr * list Z * ns_env)) : qrtr_ns :=
  match msgs with
  | [] => s
  | (sq, bytes, env) :: msgs' =>
      let b := store_bytes b 0 bytes in
      worker_loop (snd (handle_pkt env s sq (recv_pkt b))) b msgs'
  end.

Definition qrtr_ns_worker (s : qrtr_ns) (msgs : list (sockaddr_qrtr * list Z * ns_env)) : qrtr_ns :=
  worker_loop s (fun _ => 0) msgs.

(** [qrtr_ns_init] once the socket is bound on [node]: the first hello. *)
Definition qrtr_ns_init (env : ns_env) (node : Z) : Z * qrtr_ns :=
  let '(ret, s) := say_hello env (mk_ns [] [] node []) bcast_sq in
  ((if ret <? 0 then ret else 0), s).

(** ** The registry and its invariant *)

(** The server at a port of a node. *)
Definition reg (s : qrtr_ns) (n p : Z) : option qrtr_server := xa_load (servers_of s n) p.

Definition server_ok (n p : Z) (srv : qrtr_server) : Prop :=
  srv_node srv = n /\ srv_port srv = p /\ srv_service srv <> 0 /\ p <> 0 /\ 0 <= srv_instance srv < 2 ^ 32.

Definition node_ok (k : Z) (n : qrtr_node) : Prop :=
  nd_id n = k /\ xa_sorted (nd_servers n) /\ forall p srv, xa_load (nd_servers n) p = Some srv -> server_ok k p srv.

Definition ns_ok (s : qrtr_ns) : Prop :=
  xa_sorted (nodes s) /\ forall k n, xa_load (nodes s) k = Some n -> node_ok k n.

Lemma servers_sorted s n : ns_ok s -> xa_sorted (servers_of s n).
Proof.
  intros [_ H]. unfold servers_of. destruct (xa_load (nodes s) n) eqn:E; [|constructor]. by apply (H n).
Qed.

Lemma reg_ok s n p srv : ns_ok s -> reg s n p = Some srv -> server_ok n p srv.
Proof.
  intros [_ H]. unfold reg, servers_of. destruct (xa_load (nodes s) n) eqn:E; [|done]. by apply (H n).
Qed.

Lemma nodes_store_ok s k n :
  ns_ok s -> node_ok k n ->
  ns_ok (s <| nodes := xa_store (nodes s) k n |>) /\
  forall k', servers_of (s <| nodes := xa_store (nodes s) k n |>) k' = if k =? k' then nd_servers n else servers_of s k'.
Proof.
  intros [Hs H] Hn. split.
  - split; [by apply xa_sorted_store|]. cbn. intros k' n'. rewrite xa_load_store by done.
    destruct (Z.eqb_spec k k') as [<-|]; [by intros [= <-]|apply H].
  - intros k'. unfold servers_of. cbn. rewrite xa_load_store by done. by destruct (k =? k').
Qed.

(** The effect of [node_get] on the registry: none. *)
Lemma node_get_ok env s k :
  ns_ok s ->
  let '(b, s1) := node_get env s k in
  ns_ok s1 /\ (forall n p, reg s1 n p = reg s n p) /\ (b = true -> xa_load (nodes s1) k <> None) /\
  lookups s1 = lookups s /\ local_node s1 = local_node s /\ sent s1 = sent s /\
  (forall n, servers_of s1 n = servers_of s n).
Proof.
  intros Hs. unfold node_get. destruct (xa_load (nodes s) k) as [n0|] eqn:E.
  { split; [done|]. split; [done|]. split; [by rewrite E|]. done. }
  destruct (e_node_alloc env k); [|by split_and!].
  destruct (nodes_store_ok s k (mk_node k []) Hs) as [H1 H2]; [split; [done|split; [constructor|done]]|].
  assert (forall n, servers_of (s <| nodes := xa_store (nodes s) k (mk_node k []) |>) n = servers_of s n) as Q.
  { intros n. rewrite H2. destruct (Z.eqb_spec k n) as [<-|]; [|done]. unfold servers_of. by rewrite E. }
  split; [done|]. split; [intros n p; unfold reg; by rewrite Q|]. split; [|done].
  intros _. cbn. rewrite xa_load_store by apply Hs. by rewrite Z.eqb_refl.
Qed.

(** The effect of a change to the servers of a node. *)
Lemma set_servers_ok s k x :
  ns_ok s -> xa_load (nodes s) k <> None -> xa_sorted x -> (forall p srv, xa_load x p = Some srv -> server_ok k p srv) ->
  let s1 := set_servers s k x in
  ns_ok s1 /\ (forall n, servers_of s1 n = if k =? n then x else servers_of s n) /\
  lookups s1 = lookups s /\ local_node s1 = local_node s /\ sent s1 = sent s.
Proof.
  intros Hs Hk Hx Ho. cbv zeta. unfold set_servers. destruct (xa_load (nodes s) k) as [n|] eqn:E; [|done].
  destruct (nodes_store_ok s k (n <| nd_servers := x |>) Hs) as [H1 H2].
  { destruct Hs as [_ H]. destruct (H _ _ E) as (Hi & _). split; [exact Hi|]. done. }
  split; [done|]. split; [exact H2|done].
Qed.

(** ** What is sent *)

Definition send_all (s : qrtr_ns) (log : list (sockaddr_qrtr * qrtr_ctrl_pkt)) : qrtr_ns := s <| sent := sent s ++ log |>.

(** The packet, if it is delivered. *)
Definition delivery (env : ns_env) (d : sockaddr_qrtr) (p : qrtr_ctrl_pkt) : list (sockaddr_qrtr * qrtr_ctrl_pkt) :=
  if e_send env d p <? 0 then [] else [(d, p)].

Lemma send_all_app s l1 l2 : send_all (send_all s l1) l2 = send_all s (l1 ++ l2).
Proof. unfold send_all. destruct s. cbn. by rewrite app_assoc. Qed.

Lemma send_all_nil s : send_all s [] = s.
Proof. unfold send_all. destruct s. cbn. by rewrite app_nil_r. Qed.

Lemma kernel_sendmsg_eq env s d p : kernel_sendmsg env s d p = (e_send env d p, send_all s (delivery env d p)).
Proof. unfold kernel_sendmsg, delivery. destruct (_ <? 0); [by rewrite send_all_nil|done]. Qed.

Lemma reg_send_all s log n p : reg (send_all s log) n p = reg s n p.
Proof. done. Qed.

Lemma ns_ok_send_all s log : ns_ok (send_all s log) <-> ns_ok s.
Proof. done. Qed.

(** The notifications of the observers about a server. *)
Definition notices (env : ns_env) (ls : list qrtr_lookup) (srv : qrtr_server) (new : bool) : list (sockaddr_qrtr * qrtr_ctrl_pkt) :=
  flat_map (fun lk => delivery env (lk_sq lk) (server_pkt (if new then QRTR_TYPE_NEW_SERVER else QRTR_TYPE_DEL_SERVER) srv))
    (filter (fun lk => lookup_wants lk (srv_service srv) (srv_instance srv) = true) ls).

Lemma notify_lookups_eq env ls srv new : forall s, notify_lookups env s ls srv new = send_all s (notices env ls srv new).
Proof.
  induction ls as [|lk ls IH]; intros s; cbn [notify_lookups]; [by rewrite send_all_nil|]. rewrite IH.
  unfold notices. rewrite filter_cons. destruct (lookup_wants lk _ _); [|done].
  rewrite decide_True by done. unfold lookup_notify. rewrite kernel_sendmsg_eq. cbn [snd flat_map]. apply send_all_app.
Qed.

Lemma tell_servers_eq env pkt l : forall s,
  tell_servers env s pkt l = send_all s (flat_map (fun iv => delivery env (mk_sq (srv_node (snd iv)) (srv_port (snd iv))) pkt) l).
Proof.
  induction l as [|[i srv] l IH]; intros s; cbn [tell_servers flat_map]; [by rewrite send_all_nil|].
  rewrite IH, kernel_sendmsg_eq. apply send_all_app.
Qed.

(** Sending only packets that announce servers of [P]. *)
Definition announces (P : qrtr_server -> Prop) (log : list (sockaddr_qrtr * qrtr_ctrl_pkt)) : Prop :=
  Forall (fun dp => exists srv, P srv /\ snd dp = server_pkt QRTR_TYPE_NEW_SERVER srv) log.

Lemma announce_list_eq env sq l : forall s,
  exists log, snd (announce_list env s sq l) = send_all s log /\ announces (fun srv => exists i, (i, srv) ∈ l) log.
Proof.
  induction l as [|[i srv] l IH]; intros s; cbn [announce_list]; [exists []; split; [by rewrite send_all_nil|constructor]|].
  unfold service_announce_new. rewrite kernel_sendmsg_eq. set (d := delivery _ _ _).
  assert (announces (fun v => exists j, (j, v) ∈ (i, srv) :: l) d) as Hd.
  { unfold d, delivery. destruct (_ <? 0); [constructor|]. constructor; [|constructor]. exists srv. split; [|done].
    exists i. left. }
  destruct (_ && _); [by exists d|]. destruct (IH (send_all s d)) as (log & -> & Hl). exists (d ++ log).
  rewrite send_all_app. split; [done|]. apply Forall_app. split; [done|]. eapply Forall_impl; [exact Hl|].
  intros x (v & (j & Hj) & E). exists v. split; [|done]. exists j. by right.
Qed.

Lemma announce_nodes_eq env sq l : forall s,
  exists log, snd (announce_nodes env s sq l) = send_all s log /\
    announces (fun srv => exists k n i, (k, n) ∈ l /\ (i, srv) ∈ nd_servers n) log.
Proof.
  induction l as [|[k n] l IH]; intros s; cbn [announce_nodes]; [exists []; split; [by rewrite send_all_nil|constructor]|].
  assert (forall s, exists log, snd (announce_nodes env s sq l) = send_all s log /\
    announces (fun srv => exists k' n' i, (k', n') ∈ (k, n) :: l /\ (i, srv) ∈ nd_servers n') log) as IH'.
  { intros s'. destruct (IH s') as (log & -> & Hl). exists log. split; [done|]. eapply Forall_impl; [exact Hl|].
    intros x (v & (k' & n' & i & H1 & H2) & E). exists v. split; [|done]. exists k', n', i. split; [by right|done]. }
  destruct (_ =? _); [apply IH'|]. destruct (announce_list_eq env sq (nd_servers n) s) as (log & E & Hl).
  assert (announces (fun srv => exists k' n' i, (k', n') ∈ (k, n) :: l /\ (i, srv) ∈ nd_servers n') log) as Hl'.
  { eapply Forall_impl; [exact Hl|]. intros x (v & (i & H) & E'). exists v. split; [|done].
    exists k, n, i. split; [left|done]. }
  destruct (announce_list env s sq (nd_servers n)) as [[[]|e] s1]; cbn [snd] in *; subst s1; [|by exists log].
  destruct (IH' (send_all s log)) as (log2 & -> & Hl2). exists (log ++ log2). rewrite send_all_app.
  split; [done|]. by apply Forall_app.
Qed.

(** The listing for a new observer. *)
Definition listing (env : ns_env) (from : sockaddr_qrtr) (f : qrtr_server_filter) (l : xarray qrtr_server)
  : list (sockaddr_qrtr * qrtr_ctrl_pkt) :=
  flat_map (fun iv => if server_match (snd iv) f then delivery env from (server_pkt QRTR_TYPE_NEW_SERVER (snd iv)) else []) l.

Lemma list_servers_eq env from f l : forall s, list_servers env s from f l = send_all s (listing env from f l).
Proof.
  induction l as [|[i srv] l IH]; intros s; cbn [list_servers listing flat_map snd]; [by rewrite send_all_nil|].
  rewrite IH. destruct (server_match srv f); [|done]. unfold lookup_notify. rewrite kernel_sendmsg_eq. apply send_all_app.
Qed.

Lemma list_nodes_eq env from f l : forall s,
  list_nodes env s from f l = send_all s (flat_map (fun kn => listing env from f (nd_servers (snd kn))) l).
Proof.
  induction l as [|[k n] l IH]; intros s; cbn [list_nodes flat_map snd]; [by rewrite send_all_nil|].
  rewrite IH, list_servers_eq. apply send_all_app.
Qed.

(** ** Adding and removing servers *)

Definition same_rest (s s1 : qrtr_ns) : Prop := lookups s1 = lookups s /\ local_node s1 = local_node s.

Definition reg_upd (s s1 : qrtr_ns) (n p : Z) (v : option qrtr_server) : Prop :=
  forall n' p', reg s1 n' p' = if (n =? n') && (p =? p') then v else reg s n' p'.

Lemma server_add_ok env s service instance n p :
  ns_ok s -> 0 <= instance < 2 ^ 32 ->
  let '(r, s1) := server_add env s service instance n p in
  ns_ok s1 /\ same_rest s s1 /\ sent s1 = sent s /\
  match r with
  | None => forall n' p', reg s1 n' p' = reg s n' p'
  | Some srv => srv = mk_server service instance n p /\ service <> 0 /\ p <> 0 /\ reg_upd s s1 n p (Some srv)
  end.
Proof.
  intros Hs Hi. unfold server_add. destruct (_ || _) eqn:C; [by split_and!|]. zbool.
  destruct (e_server_alloc env); [cbn [negb]|by split_and!].
  pose proof (node_get_ok env s n Hs) as N. destruct (node_get env s n) as [b s1].
  destruct N as (N1 & N2 & N3 & N4 & N5 & N6 & N7). destruct b; [cbn [negb]|by split_and!].
  destruct (e_server_store env); [cbn [negb]|by split_and!].
  set (srv := mk_server service instance n p). set (x := xa_store (servers_of s1 n) p srv).
  pose proof (servers_sorted s1 n N1) as Hx.
  destruct (set_servers_ok s1 n x N1 (N3 eq_refl)) as (M1 & M2 & M3 & M4 & M5).
  { by apply xa_sorted_store. }
  { intros p' v. unfold x. rewrite xa_load_store by done. destruct (Z.eqb_spec p p') as [<-|].
    - intros [= <-]. do 4 (split; [first [reflexivity | assumption]|]). exact Hi.
    - by apply reg_ok. }
  cbv zeta in *. split; [done|]. split; [split; congruence|]. split; [congruence|]. split; [done|]. split; [done|].
  split; [done|]. intros n' p'. unfold reg. rewrite M2. destruct (Z.eqb_spec n n') as [<-|]; cbn [andb]; [|by rewrite N7].
  unfold x. rewrite xa_load_store by done. destruct (p =? p'); [done|]. by rewrite N7.
Qed.

(** The packets of a removal. *)
Definition del_log (env : ns_env) (s : qrtr_ns) (srv : qrtr_server) (bcast : bool) : list (sockaddr_qrtr * qrtr_ctrl_pkt) :=
  (if (srv_node srv =? local_node s) && bcast then delivery env bcast_sq (server_pkt QRTR_TYPE_DEL_SERVER srv) else []) ++
  notices env (lookups s) srv false.

Lemma server_del_ok env s n p b :
  ns_ok s ->
  let s1 := server_del env s n p b in
  ns_ok s1 /\ same_rest s s1 /\ reg_upd s s1 n p None /\
  sent s1 = sent s ++ match reg s n p with Some srv => del_log env s srv b | None => [] end.
Proof.
  intros Hs. cbv zeta. unfold server_del. fold (reg s n p). destruct (reg s n p) as [srv|] eqn:E.
  2: { split; [done|]. split; [done|]. split; [|by rewrite app_nil_r]. intros n' p'.
       destruct (Z.eqb_spec n n') as [<-|], (Z.eqb_spec p p') as [<-|]; done. }
  set (x := xa_erase (servers_of s n) p).
  assert (xa_load (nodes s) n <> None) as Hn.
  { unfold reg, servers_of in E. by destruct (xa_load (nodes s) n). }
  pose proof (servers_sorted s n Hs) as Hx.
  destruct (set_servers_ok s n x Hs Hn) as (M1 & M2 & M3 & M4 & M5).
  { by apply xa_sorted_erase. }
  { intros p' v. unfold x. rewrite xa_load_erase. destruct (p =? p'); [done|]. by apply reg_ok. }
  cbv zeta in *. set (s1 := set_servers s n x) in *.
  assert (forall c : bool, (if c then service_announce_del env s1 bcast_sq srv else s1) =
    send_all s1 (if c then delivery env bcast_sq (server_pkt QRTR_TYPE_DEL_SERVER srv) else [])) as Q.
  { intros []; [unfold service_announce_del; by rewrite kernel_sendmsg_eq|by rewrite send_all_nil]. }
  rewrite Q, notify_lookups_eq, send_all_app. split; [done|]. split; [by split|]. split.
  - intros n' p'. unfold reg. change (servers_of (send_all s1 ?l) n') with (servers_of s1 n'). rewrite M2.
    destruct (Z.eqb_spec n n') as [<-|]; cbn [andb]; [|done]. unfold x. apply xa_load_erase.
  - unfold del_log. change (lookups (send_all s1 ?l)) with (lookups s1). rewrite M3, M4.
    change (sent (send_all s1 ?l)) with (sent s1 ++ l). by rewrite M5.
Qed.

(** ** The invariant is kept *)

Definition pkt_ok (p : qrtr_ctrl_pkt) : Prop := 0 <= w_instance p < 2 ^ 32.

Lemma del_servers_ok env n l : forall s,
  ns_ok s ->
  let s1 := del_servers env s n l in
  ns_ok s1 /\ same_rest s s1 /\
  (forall n' p', reg s1 n' p' = if (n =? n') && bool_decide (p' ∈ map (fun iv => srv_port (snd iv)) l) then None else reg s n' p').
Proof.
  induction l as [|[i srv] l IH]; intros s Hs; cbv zeta; cbn [del_servers].
  { split; [done|]. split; [done|]. intros n' p'. rewrite bool_decide_false by apply not_elem_of_nil.
    by rewrite andb_false_r. }
  destruct (server_del_ok env s n (srv_port srv) true Hs) as (D1 & [D2 D3] & D4 & _). cbv zeta in *.
  destruct (IH _ D1) as (I1 & [I2 I3] & I4). cbv zeta in *. split; [done|]. split; [split; congruence|].
  intros n' p'. rewrite I4, D4. destruct (Z.eqb_spec n n') as [<-|]; cbn [andb map]; [|done].
  destruct (Z.eqb_spec (srv_port srv) p') as [<-|Hp].
  - rewrite (bool_decide_true (srv_port srv ∈ _ :: _)) by left. by case_bool_decide.
  - destruct (bool_decide_reflect (p' ∈ map (fun iv => srv_port (snd iv)) l)) as [Hin|Hin].
    + by rewrite bool_decide_true by (by right).
    + rewrite bool_decide_false; [done|]. rewrite elem_of_cons. intros [E|E]; [done|]. done.
Qed.

(** ** What an observer has seen *)

(** The servers an observer at address [a] knows from the packets it got: by
    node and port, the service and the instance. *)
Definition view_step (a : sockaddr_qrtr) (v : gmap (Z * Z) (Z * Z)) (dp : sockaddr_qrtr * qrtr_ctrl_pkt) : gmap (Z * Z) (Z * Z) :=
  let '(d, p) := dp in
  if decide (d = a) then
    if (cmd p =? QRTR_TYPE_NEW_SERVER) && negb (w_service p =? 0) then <[(w_node p, w_port p) := (w_service p, w_instance p)]> v
    else if cmd p =? QRTR_TYPE_DEL_SERVER then delete (w_node p, w_port p) v
    else v
  else v.

Definition view (a : sockaddr_qrtr) (log : list (sockaddr_qrtr * qrtr_ctrl_pkt)) : gmap (Z * Z) (Z * Z) :=
  foldl (view_step a) ∅ log.

(** The view at one address and port agrees with the registry as far as the
    observer asked. *)
Definition tracks_at (s : qrtr_ns) (l : qrtr_lookup) (n p : Z) : Prop :=
  forall sv inst, lookup_wants l sv inst = true ->
    view (lk_sq l) (sent s) !! (n, p) = Some (sv, inst) <-> reg s n p = Some (mk_server sv inst n p).

(** The view agrees with the registry. *)
Definition tracks (s : qrtr_ns) (l : qrtr_lookup) : Prop := forall n p, tracks_at s l n p.

(** A packet that agrees with the registry. *)
Definition benign (s : qrtr_ns) (p : qrtr_ctrl_pkt) : Prop :=
  (cmd p <> QRTR_TYPE_NEW_SERVER /\ cmd p <> QRTR_TYPE_DEL_SERVER) \/
  (cmd p = QRTR_TYPE_NEW_SERVER /\ w_service p = 0) \/
  (exists srv, reg s (srv_node srv) (srv_port srv) = Some srv /\ p = server_pkt QRTR_TYPE_NEW_SERVER srv).

Lemma view_app a log1 log2 : view a (log1 ++ log2) = foldl (view_step a) (view a log1) log2.
Proof. unfold view. by rewrite foldl_app. Qed.

Lemma view_snoc a log x : view a (log ++ [x]) = view_step a (view a log) x.
Proof. apply view_app. Qed.

Lemma tracks_send_one s l d p : ns_ok s -> tracks s l -> benign s p -> tracks (send_all s [(d, p)]) l.
Proof.
  intros Hs Ht Hb n q sv inst Hw. change (reg (send_all s [(d, p)]) n q) with (reg s n q).
  change (sent (send_all s [(d, p)])) with (sent s ++ [(d, p)]). rewrite view_snoc. unfold view_step.
  case_decide as Hd; [|by apply Ht]. destruct Hb as [[H1 H2]|[[H1 H2]|(srv & Hr & ->)]].
  - rewrite (proj2 (Z.eqb_neq _ _) H1), (proj2 (Z.eqb_neq _ _) H2). by apply Ht.
  - rewrite H1, H2. by apply Ht.
  - destruct (reg_ok s _ _ _ Hs Hr) as (_ & _ & Hsv & _). cbn [server_pkt cmd w_service w_node w_port w_instance].
    rewrite (proj2 (Z.eqb_neq _ 0) Hsv). cbn [Z.eqb negb andb QRTR_TYPE_NEW_SERVER Pos.eqb].
    destruct (decide ((srv_node srv, srv_port srv) = (n, q))) as [E|E].
    + injection E as <- <-. rewrite lookup_insert_eq, Hr. destruct srv as [a b c e]. cbn. split; by intros [= -> ->].
    + rewrite lookup_insert_ne by done. by apply Ht.
Qed.

Lemma tracks_send s l log : ns_ok s -> Forall (fun dp => benign s (snd dp)) log -> tracks s l -> tracks (send_all s log) l.
Proof.
  intros Hs Hb. revert s Hs Hb. induction log as [|[d p] log IH]; intros s Hs Hb Ht; [by rewrite send_all_nil|].
  inversion_clear Hb as [|? ? H1 H2]. change ((d, p) :: log) with ([(d, p)] ++ log). rewrite <- send_all_app.
  apply IH; [done|done|]. by apply tracks_send_one.
Qed.

Lemma delivery_benign env s d p : benign s p -> Forall (fun dp => benign s (snd dp)) (delivery env d p).
Proof. intros H. unfold delivery. destruct (_ <? 0); [constructor|]. constructor; [exact H|constructor]. Qed.

(** The view only depends on the registry and the log. *)
Lemma tracks_ext s s1 l : sent s1 = sent s -> (forall n p, reg s1 n p = reg s n p) -> tracks s l -> tracks s1 l.
Proof. intros E R H n p sv inst Hw. rewrite E, R. by apply H. Qed.

Definition delivered (env : ns_env) : Prop := forall d p, 0 <= e_send env d p.

Lemma delivery_all env d p : delivered env -> delivery env d p = [(d, p)].
Proof. intros H. unfold delivery. specialize (H d p). by rewrite (proj2 (Z.ltb_ge _ _) H). Qed.

(** The same packet to several addresses: a view takes it once. *)
Lemma view_step_idem a v d1 d2 p : view_step a (view_step a v (d1, p)) (d2, p) = 
  if decide (d1 = a) then view_step a v (d1, p) else view_step a v (d2, p).
Proof.
  unfold view_step. destruct (decide (d1 = a)), (decide (d2 = a)); try done.
  destruct (_ && _); [by rewrite insert_insert_eq|]. destruct (_ =? _); [by rewrite delete_delete_eq|done].
Qed.

Lemma view_same a p ds : forall v,
  foldl (view_step a) v (map (fun d => (d, p)) ds) = if decide (a ∈ ds) then view_step a v (a, p) else v.
Proof.
  induction ds as [|d ds IH]; intros v; cbn [map foldl]; [done|]. rewrite IH.
  destruct (decide (a ∈ ds)) as [H|H].
  - rewrite decide_True by (by right). rewrite view_step_idem. case_decide; [by subst d|done].
  - destruct (decide (d = a)) as [->|Hd]; [by rewrite decide_True by left|].
    rewrite decide_False by (rewrite elem_of_cons; intros [|]; congruence). unfold view_step. by rewrite decide_False.
Qed.

Lemma notices_map env ls srv new :
  delivered env ->
  notices env ls srv new =
  map (fun d => (d, server_pkt (if new then QRTR_TYPE_NEW_SERVER else QRTR_TYPE_DEL_SERVER) srv))
    (map lk_sq (filter (fun lk => lookup_wants lk (srv_service srv) (srv_instance srv) = true) ls)).
Proof.
  intros Hd. unfold notices. induction (filter _ ls) as [|lk l IH]; [done|]. cbn [flat_map map].
  by rewrite delivery_all, IH.
Qed.

Lemma wants_elem l ls srv :
  l ∈ ls -> lookup_wants l (srv_service srv) (srv_instance srv) = true ->
  lk_sq l ∈ map lk_sq (filter (fun lk => lookup_wants lk (srv_service srv) (srv_instance srv) = true) ls).
Proof. intros Hl Hw. apply list_elem_of_fmap_2. by apply list_elem_of_filter. Qed.

Lemma del_log_map env s srv b :
  delivered env ->
  exists ds, del_log env s srv b = map (fun d => (d, server_pkt QRTR_TYPE_DEL_SERVER srv)) ds /\
    forall l, l ∈ lookups s -> lookup_wants l (srv_service srv) (srv_instance srv) = true -> lk_sq l ∈ ds.
Proof.
  intros Hd. unfold del_log. rewrite notices_map by done.
  set (ds := map lk_sq _). assert (forall l, l ∈ lookups s ->
    lookup_wants l (srv_service srv) (srv_instance srv) = true -> lk_sq l ∈ ds) as H.
  { intros l Hl Hw. by apply wants_elem. }
  destruct (_ && _); [|by exists ds]. exists (bcast_sq :: ds). rewrite delivery_all by done. split; [done|].
  intros l Hl Hw. right. by apply H.
Qed.

(** Removing a server keeps every observer right. *)
Lemma tracks_del env s l n p b :
  ns_ok s -> delivered env -> l ∈ lookups s -> tracks s l -> tracks (server_del env s n p b) l.
Proof.
  intros Hs Hd Hl Ht. destruct (server_del_ok env s n p b Hs) as (_ & _ & R & S). cbv zeta in *.
  set (s1 := server_del env s n p b) in *. clearbody s1. intros n' p' sv inst Hw. rewrite S, R.
  destruct (reg s n p) as [srv|] eqn:E.
  2: { rewrite app_nil_r. destruct (Z.eqb_spec n n') as [<-|], (Z.eqb_spec p p') as [<-|]; cbn [andb]; try (by apply Ht).
       rewrite <- E. by apply Ht. }
  destruct (del_log_map env s srv b Hd) as (ds & -> & Hds). rewrite view_app, view_same.
  destruct (reg_ok s n p srv Hs E) as (Hn & Hp & _).
  assert (forall v, view_step (lk_sq l) v (lk_sq l, server_pkt QRTR_TYPE_DEL_SERVER srv) = delete (n, p) v) as V.
  { intros v. unfold view_step. rewrite decide_True by done. cbn. by rewrite Hn, Hp. }
  rewrite V. destruct (decide ((n, p) = (n', p'))) as [[= <- <-]|Hne].
  - rewrite !Z.eqb_refl. cbn [andb]. split; [|done]. case_decide as Hin; [by rewrite lookup_delete_eq|].
    intros Hv. exfalso. apply Hin, Hds; [done|]. apply Ht in Hv; [|done]. rewrite E in Hv. by injection Hv as ->.
  - assert ((n =? n') && (p =? p') = false) as -> by (destruct (Z.eqb_spec n n'), (Z.eqb_spec p p'); congruence || done).
    case_decide; [rewrite lookup_delete_ne by done|]; by apply Ht.
Qed.

(** Adding a server and telling those who want it keeps an observer right,
    unless it replaces a server the observer wanted by one it does not. *)
Lemma tracks_add s s1 l srv ds :
  ns_ok s -> tracks s l -> srv_service srv <> 0 ->
  reg_upd s s1 (srv_node srv) (srv_port srv) (Some srv) ->
  sent s1 = sent s ++ map (fun d => (d, server_pkt QRTR_TYPE_NEW_SERVER srv)) ds ->
  (lookup_wants l (srv_service srv) (srv_instance srv) = true -> lk_sq l ∈ ds) ->
  (forall old, reg s (srv_node srv) (srv_port srv) = Some old ->
     lookup_wants l (srv_service old) (srv_instance old) = true ->
     lookup_wants l (srv_service srv) (srv_instance srv) = true) ->
  tracks s1 l.
Proof.
  intros Hs Ht Hsv R S Hds Hold n' p' sv inst Hw. rewrite S, R, view_app, view_same.
  assert (forall v, view_step (lk_sq l) v (lk_sq l, server_pkt QRTR_TYPE_NEW_SERVER srv) =
    <[(srv_node srv, srv_port srv) := (srv_service srv, srv_instance srv)]> v) as V.
  { intros v. unfold view_step. rewrite decide_True by done. cbn [server_pkt cmd w_service w_node w_port w_instance].
    by rewrite (proj2 (Z.eqb_neq _ 0) Hsv). }
  rewrite V. destruct (decide ((srv_node srv, srv_port srv) = (n', p'))) as [[= <- <-]|Hne].
  - rewrite !Z.eqb_refl. cbn [andb]. case_decide as Hin.
    + rewrite lookup_insert_eq. destruct srv as [a b c e]. cbn. split; by intros [= -> ->].
    + split.
      * intros Hv. exfalso. apply Hin, Hds. apply Ht in Hv; [|done]. by apply (Hold _ Hv).
      * intros Hv. exfalso. apply Hin, Hds. injection Hv as ->. exact Hw.
  - assert ((srv_node srv =? n') && (srv_port srv =? p') = false) as ->
      by (destruct (Z.eqb_spec (srv_node srv) n'), (Z.eqb_spec (srv_port srv) p'); congruence || done).
    case_decide; [rewrite lookup_insert_ne by done|]; by apply Ht.
Qed.

(** ** The handlers *)

(** A handler that only sends packets in agreement with the registry. *)
Lemma hello_ok env s sq :
  ns_ok s -> exists log, snd (ctrl_cmd_hello env s sq) = send_all s log /\ Forall (fun dp => benign s (snd dp)) log.
Proof.
  intros Hs. unfold ctrl_cmd_hello, say_hello. rewrite kernel_sendmsg_eq. set (d := delivery _ _ _).
  assert (Forall (fun dp => benign s (snd dp)) d) as Hd by (apply delivery_benign; by left).
  destruct (_ <? 0); [by exists d|]. unfold announce_servers.
  destruct (announce_nodes_eq env sq (nodes (send_all s d)) (send_all s d)) as (log & -> & Hl).
  exists (d ++ log). rewrite send_all_app. split; [done|]. apply Forall_app. split; [done|].
  eapply Forall_impl; [exact Hl|]. intros x (srv & (k & n & i & H1 & H2) & E). right. right. exists srv. split; [|done].
  change (nodes (send_all s d)) with (nodes s) in H1. apply xa_elem_load in H1; [|apply Hs]. destruct (proj2 Hs _ _ H1) as (_ & Hx & Ho).
  apply xa_elem_load in H2; [|done]. destruct (Ho _ _ H2) as (-> & -> & _). unfold reg, servers_of. by rewrite H1.
Qed.

(** The end of [ctrl_cmd_bye] and [ctrl_cmd_del_client]: local servers are told. *)
Lemma tell_local_ok env s pkt :
  ns_ok s ->
  let s1 := snd (let '(local, s) := node_get env s (local_node s) in
                 if negb local then (0, s) else (0, tell_servers env s pkt (servers_of s (local_node s)))) in
  ns_ok s1 /\ same_rest s s1 /\ (forall n p, reg s1 n p = reg s n p) /\
  exists log, sent s1 = sent s ++ log /\ Forall (fun dp => snd dp = pkt) log.
Proof.
  intros Hs. cbv zeta. pose proof (node_get_ok env s (local_node s) Hs) as N.
  destruct (node_get env s (local_node s)) as [b s1]. destruct N as (N1 & N2 & _ & N4 & N5 & N6 & _). destruct b; cbn [negb snd].
  - rewrite tell_servers_eq. split; [done|]. split; [done|]. split; [done|]. eexists. split; [cbn; by rewrite N6|].
    apply Forall_flat_map, Forall_forall. intros iv _. unfold delivery. destruct (_ <? 0); [constructor|].
    constructor; [done|constructor].
  - split; [done|]. split; [done|]. split; [done|]. exists []. by rewrite app_nil_r, N6.
Qed.

(** A server the observer [l] wants is not replaced by one it does not. *)
Definition keeps_wanted (s : qrtr_ns) (l : qrtr_lookup) (n q service instance : Z) : Prop :=
  forall old, reg s n q = Some old -> lookup_wants l (srv_service old) (srv_instance old) = true ->
    lookup_wants l service instance = true.

(** A handler keeps the invariant, and the observers that remain right as far
    as [C] holds of them. *)
Definition step_ok (env : ns_env) (s s1 : qrtr_ns) (C : qrtr_lookup -> Prop) : Prop :=
  ns_ok s1 /\ local_node s1 = local_node s /\
  (delivered env -> forall l, l ∈ lookups s -> l ∈ lookups s1 -> tracks s l -> C l -> tracks s1 l).

Lemma tracks_tell s s1 l pkt log :
  ns_ok s -> cmd pkt <> QRTR_TYPE_NEW_SERVER -> cmd pkt <> QRTR_TYPE_DEL_SERVER ->
  (forall n p, reg s1 n p = reg s n p) -> sent s1 = sent s ++ log -> Forall (fun dp => snd dp = pkt) log ->
  tracks s l -> tracks s1 l.
Proof.
  intros Hs H1 H2 R S F Ht. apply (tracks_ext (send_all s log) s1); [done|done|]. apply tracks_send; [done| |done].
  eapply Forall_impl; [exact F|]. intros x ->. by left.
Qed.

Lemma tracks_del_servers env n l0 l : forall s,
  ns_ok s -> delivered env -> l ∈ lookups s -> tracks s l -> tracks (del_servers env s n l0) l.
Proof.
  induction l0 as [|[i srv] l0 IH]; intros s Hs Hd Hl Ht; cbn [del_servers]; [done|].
  destruct (server_del_ok env s n (srv_port srv) true Hs) as (D1 & [D2 _] & _). cbv zeta in *.
  apply IH; [done|done|by rewrite D2|]. by apply tracks_del.
Qed.

Lemma bye_ok env s from :
  ns_ok s -> step_ok env s (snd (ctrl_cmd_bye env s from)) (fun _ => True).
Proof.
  intros Hs. unfold ctrl_cmd_bye. pose proof (node_get_ok env s (sq_node from) Hs) as N.
  destruct (node_get env s (sq_node from)) as [b s1]. destruct N as (N1 & N2 & _ & N4 & N5 & N6 & _).
  assert (forall l, tracks s l -> tracks s1 l) as T1 by (intros l; apply tracks_ext; [exact N6|exact N2]).
  destruct b; cbn [negb]; [|split; [done|split; [done|by auto]]].
  set (l0 := servers_of s1 (sq_node from)). destruct (del_servers_ok env (sq_node from) l0 s1 N1) as (D1 & [D2 D3] & _).
  cbv zeta in *. set (s2 := del_servers env s1 (sq_node from) l0) in *.
  assert (forall l, delivered env -> l ∈ lookups s -> tracks s l -> tracks s2 l) as T2.
  { intros l Hd Hl Ht. apply tracks_del_servers; [done|done|by rewrite N4|auto]. }
  clearbody s2. destruct (tell_local_ok env s2 (mk_pkt QRTR_TYPE_BYE (sq_node from) 0 0 0) D1) as (M1 & [M2 M3] & M4 & log & M5 & M6).
  cbv zeta in *. split; [exact M1|]. split; [congruence|]. intros Hd l Hl _ Ht _.
  eapply tracks_tell; [exact D1|..|exact M4|exact M5|exact M6|]; [done|done|]. by apply T2.
Qed.

Lemma del_client_ok env s from n p :
  ns_ok s -> step_ok env s (snd (ctrl_cmd_del_client env s from n p)) (fun _ => True).
Proof.
  intros Hs. unfold ctrl_cmd_del_client. destruct (negb _); [by split; [|split]|]. destruct (_ && _); [by split; [|split]|].
  set (s0 := s <| lookups := _ |>). assert (ns_ok s0) as H0 by done.
  pose proof (node_get_ok env s0 n H0) as N. destruct (node_get env s0 n) as [b s1].
  destruct N as (N1 & N2 & _ & N4 & N5 & N6 & _).
  assert (forall l, tracks s l -> tracks s1 l) as T1 by (intros l; apply tracks_ext; [exact N6|exact N2]).
  set (s2 := if b then server_del env s1 n p false else s1).
  assert (ns_ok s2 /\ local_node s2 = local_node s1 /\ lookups s2 = lookups s1 /\
    (forall l, delivered env -> l ∈ lookups s1 -> tracks s1 l -> tracks s2 l)) as (D1 & D2 & D3 & D4).
  { unfold s2. destruct b; [|done]. destruct (server_del_ok env s1 n p false N1) as (E1 & [E2 E3] & _). cbv zeta in *.
    split; [done|]. split; [done|]. split; [done|]. intros l. by apply tracks_del. }
  clearbody s2. destruct (tell_local_ok env s2 (mk_pkt QRTR_TYPE_DEL_CLIENT n p 0 0) D1) as (M1 & [M2 M3] & M4 & log & M5 & M6).
  cbv zeta in *. split; [exact M1|]. split; [etransitivity; [exact M3|by rewrite D2, N5]|]. intros Hd l Hl Hl1 Ht _.
  eapply tracks_tell; [exact D1|..|exact M4|exact M5|exact M6|]; [done|done|]. apply D4; [done| |auto].
  rewrite <- D3. by rewrite M2 in Hl1.
Qed.

Lemma new_server_ok env s from service instance n0 p0 :
  ns_ok s -> 0 <= instance < 2 ^ 32 ->
  step_ok env s (snd (ctrl_cmd_new_server env s from service instance n0 p0))
    (fun l => let '(n, q) := server_addr s from n0 p0 in keeps_wanted s l n q service instance).
Proof.
  intros Hs Hi. unfold ctrl_cmd_new_server. destruct (server_addr s from n0 p0) as [n p].
  pose proof (server_add_ok env s service instance n p Hs Hi) as A.
  destruct (server_add env s service instance n p) as [r s1]. destruct A as (A1 & [A2 A3] & A4 & A5). destruct r as [srv|].
  2: { split; [done|]. split; [done|]. intros _ l _ _ Ht _. by eapply tracks_ext. }
  destruct A5 as (-> & Hsv & Hp & R). set (srv := mk_server service instance n p) in *.
  set (d := if srv_node srv =? local_node s1 then delivery env bcast_sq (server_pkt QRTR_TYPE_NEW_SERVER srv) else []).
  assert (exists ret, (if srv_node srv =? local_node s1 then service_announce_new env s1 bcast_sq srv else (0, s1)) =
    (ret, send_all s1 d) /\ (delivered env -> 0 <= ret)) as (ret & -> & Hret).
  { unfold d, service_announce_new. destruct (_ =? _); [rewrite kernel_sendmsg_eq; eauto|].
    rewrite send_all_nil. eexists. split; [done|]. lia. }
  rewrite notify_lookups_eq. assert (lookups (send_all s1 d) = lookups s) as El by done. rewrite El, send_all_app.
  split; [by destruct (_ <? _)|]. split; [by destruct (_ <? _)|]. intros Hd l Hl _ Ht Hk.
  rewrite (proj2 (Z.ltb_ge _ _) (Hret Hd)). cbn [snd].
  set (ds := map lk_sq (filter (fun lk => lookup_wants lk (srv_service srv) (srv_instance srv) = true) (lookups s))).
  apply (tracks_add s _ l srv ((if srv_node srv =? local_node s1 then [bcast_sq] else []) ++ ds)); try done.
  - cbn [sent send_all set_field]. rewrite A4. f_equal. rewrite notices_map, map_app by done. f_equal. unfold d.
    destruct (_ =? _); [by rewrite delivery_all|done].
  - intros Hw. apply elem_of_app. right. by apply wants_elem.
Qed.

Lemma del_server_ok env s from service instance n0 p0 :
  ns_ok s -> step_ok env s (snd (ctrl_cmd_del_server env s from service instance n0 p0)) (fun _ => True).
Proof.
  intros Hs. unfold ctrl_cmd_del_server. destruct (server_addr s from n0 p0) as [n p].
  destruct (_ && _); [by split; [|split]|]. pose proof (node_get_ok env s n Hs) as N.
  destruct (node_get env s n) as [b s1]. destruct N as (N1 & N2 & _ & N4 & N5 & N6 & _).
  assert (forall l, tracks s l -> tracks s1 l) as T1 by (intros l; apply tracks_ext; [exact N6|exact N2]).
  destruct b; cbn [negb snd]; [|split; [done|split; [done|by auto]]].
  destruct (server_del_ok env s1 n p true N1) as (D1 & [D2 D3] & _). cbv zeta in *.
  split; [done|]. split; [congruence|]. intros Hd l Hl _ Ht _. apply tracks_del; [done|done|by rewrite N4|auto].
Qed.

(** The filter of the listing and the test of the notifications agree. *)
Lemma server_match_wants srv service instance a :
  0 <= srv_instance srv < 2 ^ 32 ->
  server_match srv (mk_filter service instance 0) =
  lookup_wants (mk_lookup service instance a) (srv_service srv) (srv_instance srv).
Proof.
  intros Hi. unfold server_match, lookup_wants.
  cbn [fl_service fl_instance fl_ifilter lk_service lk_instance Z.eqb andb].
  rewrite (Z.eqb_sym (srv_service srv) service). destruct (negb (service =? 0) && negb (service =? srv_service srv)); [done|].
  cbn [negb andb]. destruct (Z.eqb_spec instance 0) as [->|Hn]; cbn [negb andb].
  - by rewrite Z.land_0_r.
  - change UINT_MAX with (Z.ones 32). rewrite Z.land_ones, Z.mod_small by (done || lia). rewrite Z.eqb_sym.
    by destruct (instance =? srv_instance srv).
Qed.

(** The packets of a listing: servers of the registry. *)
Definition lists (s : qrtr_ns) (a : sockaddr_qrtr) (dp : sockaddr_qrtr * qrtr_ctrl_pkt) : Prop :=
  exists srv, reg s (srv_node srv) (srv_port srv) = Some srv /\ dp = (a, server_pkt QRTR_TYPE_NEW_SERVER srv).

Lemma listing_lists env s a f :
  ns_ok s -> Forall (lists s a) (flat_map (fun kn => listing env a f (nd_servers (snd kn))) (nodes s)).
Proof.
  intros Hs. apply Forall_flat_map, Forall_forall. intros [k n] Hkn. apply xa_elem_load in Hkn; [|apply Hs].
  destruct (proj2 Hs _ _ Hkn) as (_ & Hx & Ho). apply Forall_flat_map, Forall_forall. intros [i srv] Hi. cbn [snd] in *.
  apply xa_elem_load in Hi; [|done]. destruct (Ho _ _ Hi) as (H1 & H2 & _).
  destruct (server_match srv f); [|constructor]. unfold delivery. destruct (_ <? 0); [constructor|].
  constructor; [|constructor]. exists srv. split; [|done]. unfold reg, servers_of. by rewrite H1, H2, Hkn.
Qed.

Lemma listing_complete env s a f n p srv :
  ns_ok s -> delivered env -> reg s n p = Some srv -> server_match srv f = true ->
  (a, server_pkt QRTR_TYPE_NEW_SERVER srv) ∈ flat_map (fun kn => listing env a f (nd_servers (snd kn))) (nodes s).
Proof.
  intros Hs Hd Hr Hm. unfold reg, servers_of in Hr. destruct (xa_load (nodes s) n) as [nd|] eqn:E; [|done].
  apply list_elem_of_In, in_flat_map. exists (n, nd). split; [apply list_elem_of_In, xa_elem_load; [apply Hs|done]|].
  apply in_flat_map. exists (p, srv). cbn [snd]. split.
  - apply list_elem_of_In, xa_elem_load; [|done]. by apply (proj2 Hs _ _ E).
  - rewrite Hm, delivery_all by done. by left.
Qed.

Lemma view_lists s a log : ns_ok s -> Forall (lists s a) log -> forall v n p,
  foldl (view_step a) v log !! (n, p) =
  match reg s n p with
  | Some srv => if decide ((a, server_pkt QRTR_TYPE_NEW_SERVER srv) ∈ log) then Some (srv_service srv, srv_instance srv)
                else v !! (n, p)
  | None => v !! (n, p)
  end.
Proof.
  intros Hs. induction 1 as [|dp log (srv & Hr & ->) _ IH]; intros v n p; cbn [foldl].
  { destruct (reg s n p); [|done]. by rewrite decide_False by (by apply not_elem_of_nil). }
  destruct (reg_ok _ _ _ _ Hs Hr) as (_ & _ & Hsv & _).
  assert (view_step a v (a, server_pkt QRTR_TYPE_NEW_SERVER srv) =
    <[(srv_node srv, srv_port srv) := (srv_service srv, srv_instance srv)]> v) as ->.
  { unfold view_step. rewrite decide_True by done. cbn [server_pkt cmd w_service w_node w_port w_instance].
    by rewrite (proj2 (Z.eqb_neq _ 0) Hsv). }
  rewrite IH. destruct (decide ((srv_node srv, srv_port srv) = (n, p))) as [[= <- <-]|Hne].
  - rewrite Hr, lookup_insert_eq. rewrite (decide_True (P := _ ∈ _ :: _)) by left. by case_decide.
  - rewrite lookup_insert_ne by done. destruct (reg s n p) as [srv'|] eqn:E; [|done].
    destruct (reg_ok _ _ _ _ Hs E) as (E1 & E2 & _).
    case_decide as H1; [by rewrite decide_True by (by right)|]. rewrite decide_False; [done|].
    rewrite elem_of_cons. intros [H|H]; [|done]. apply Hne. injection H as _ _ H3 H4. congruence.
Qed.

(** The state after a new observer was accepted. *)
Lemma new_lookup_eq env s from service instance :
  sq_node from = local_node s -> e_lookup_alloc env = true ->
  ctrl_cmd_new_lookup env s from service instance =
  (0, send_all (s <| lookups := lookups s ++ [mk_lookup service instance from] |>)
        (flat_map (fun kn => listing env from (mk_filter service instance 0) (nd_servers (snd kn))) (nodes s) ++
         delivery env from (mk_pkt QRTR_TYPE_NEW_SERVER 0 0 0 0))).
Proof.
  intros E1 E2. unfold ctrl_cmd_new_lookup. rewrite E1, Z.eqb_refl, E2. cbn [negb]. rewrite list_nodes_eq.
  unfold lookup_notify. rewrite kernel_sendmsg_eq. cbn [snd]. by rewrite send_all_app.
Qed.

Lemma new_lookup_ok env s from service instance :
  ns_ok s -> step_ok env s (snd (ctrl_cmd_new_lookup env s from service instance)) (fun _ => True).
Proof.
  intros Hs. destruct (Z.eqb_spec (sq_node from) (local_node s)) as [E|E].
  2: { unfold ctrl_cmd_new_lookup. rewrite (proj2 (Z.eqb_neq _ _) E). by split; [|split]. }
  destruct (e_lookup_alloc env) eqn:E2.
  2: { unfold ctrl_cmd_new_lookup. rewrite E, Z.eqb_refl, E2. by split; [|split]. }
  rewrite new_lookup_eq by done. cbn [snd]. split; [done|]. split; [done|]. intros Hd l _ _ Ht _.
  apply tracks_send; [done| |by apply (tracks_ext s)]. apply Forall_app. split.
  - eapply Forall_impl; [by apply listing_lists|]. intros dp (srv & Hr & ->). right. right. by exists srv.
  - apply delivery_benign. right. by left.
Qed.

(** The listing brings a new observer up to date. *)
Lemma new_lookup_tracks env s from service instance :
  ns_ok s -> delivered env -> sq_node from = local_node s -> e_lookup_alloc env = true ->
  view from (sent s) = ∅ ->
  tracks (snd (ctrl_cmd_new_lookup env s from service instance)) (mk_lookup service instance from).
Proof.
  intros Hs Hd E1 E2 Hv. rewrite new_lookup_eq by done. cbn [snd]. rewrite delivery_all by done.
  rewrite <- send_all_app. apply tracks_send_one; [done| |right; by left]. intros n p sv inst Hw.
  change (reg (send_all ?x ?y) n p) with (reg s n p). cbn [sent send_all set_field lk_sq].
  rewrite view_app, Hv. rewrite (view_lists s) by (done || by apply listing_lists).
  destruct (reg s n p) as [srv|] eqn:E; [|by rewrite lookup_empty].
  destruct (reg_ok _ _ _ _ Hs E) as (N1 & N2 & _ & _ & N3). case_decide as Hin.
  - destruct srv as [a b c d]. cbn in *. subst. split; by intros [= -> ->].
  - rewrite lookup_empty. split; [done|]. intros X. exfalso. apply Hin. apply (listing_complete env s from _ n p); try done.
    rewrite (server_match_wants srv service instance from) by done. by injection X as ->.
Qed.

(** What a packet must not do to the observer [l] for its view to stay right. *)
Definition fair_to (s : qrtr_ns) (sq : sockaddr_qrtr) (p : qrtr_ctrl_pkt) (l : qrtr_lookup) : Prop :=
  cmd p = QRTR_TYPE_NEW_SERVER ->
  let '(n, q) := server_addr s sq (w_node p) (w_port p) in keeps_wanted s l n q (w_service p) (w_instance p).

Lemma handle_pkt_ok env s sq p :
  ns_ok s -> pkt_ok p -> step_ok env s (snd (handle_pkt env s sq p)) (fair_to s sq p).
Proof.
  intros Hs Hp.
  assert (forall s1, step_ok env s s1 (fun _ => True) -> step_ok env s s1 (fair_to s sq p)) as W.
  { intros s1 (H1 & H2 & H3). split; [done|]. split; [done|]. intros Hd l A B T _. by apply H3. }
  assert (step_ok env s s (fair_to s sq p)) as Q by (apply W; by split; [|split]).
  unfold handle_pkt. cbv zeta. destruct (cmd p =? QRTR_TYPE_HELLO).
  { apply W. destruct (hello_ok env s sq Hs) as (log & -> & Hl). split; [done|]. split; [done|].
    intros Hd l _ _ Ht _. by apply tracks_send. }
  destruct (cmd p =? QRTR_TYPE_BYE); [by apply W, bye_ok|].
  destruct (cmd p =? QRTR_TYPE_DEL_CLIENT); [by apply W, del_client_ok|].
  destruct (Z.eqb_spec (cmd p) QRTR_TYPE_NEW_SERVER) as [E|_].
  { destruct (new_server_ok env s sq (w_service p) (w_instance p) (w_node p) (w_port p) Hs Hp) as (H1 & H2 & H3).
    split; [done|]. split; [done|]. intros Hd l A B T F. apply H3; [done|done|done|done|exact (F E)]. }
  destruct (cmd p =? QRTR_TYPE_DEL_SERVER); [by apply W, del_server_ok|].
  destruct (_ || _); [exact Q|]. destruct (cmd p =? QRTR_TYPE_NEW_LOOKUP); [by apply W, new_lookup_ok|].
  destruct (cmd p =? QRTR_TYPE_DEL_LOOKUP); [|exact Q]. apply W. split; [done|]. split; [done|].
  intros _ l _ _ Ht _. by apply (tracks_ext s).
Qed.

Lemma worker_loop_ok msgs : forall s b,
  ns_ok s -> bytes_ok b -> Forall (fun m => Forall (fun x => 0 <= x < 256) (snd (fst m))) msgs ->
  ns_ok (worker_loop s b msgs) /\ local_node (worker_loop s b msgs) = local_node s.
Proof.
  induction msgs as [|[[sq bs] env] msgs IH]; intros s b Hs Hb Hm; [done|]. inversion_clear Hm as [|? ? H1 H2].
  cbn [worker_loop]. assert (bytes_ok (store_bytes b 0 bs)) as Hb'.
  { cbn [fst snd] in H1. clear - Hb H1. revert b Hb. generalize 0 as a. induction H1 as [|x bs Hx _ IH]; intros a b Hb; [done|].
    cbn [store_bytes]. apply IH. by apply bytes_ok_upd. }
  destruct (handle_pkt_ok env s sq (recv_pkt (store_bytes b 0 bs)) Hs) as (K1 & K2 & _).
  { unfold pkt_ok. cbn. by apply rd32_bound. }
  destruct (IH _ (store_bytes b 0 bs) K1 Hb' H2) as [I1 I2]. split; [done|congruence].
Qed.

Lemma service_id_reg s n p :
  ns_ok s ->
  qrtr_get_service_id s n p = match reg s n p with Some srv => srv_service srv | None => - EINVAL end.
Proof.
  intros Hs. unfold qrtr_get_service_id, reg, servers_of. destruct (xa_load (nodes s) n) as [nd|] eqn:E; [|done].
  destruct (proj2 Hs _ _ E) as (_ & Hx & Ho). destruct (list_find _ _) as [[i [k srv]]|] eqn:F.
  - apply list_find_Some in F as (F1 & [F2 F3] & _). cbn [snd] in *. apply list_elem_of_lookup_2, xa_elem_load in F1; [|done].
    destruct (Ho _ _ F1) as (_ & G & _). subst p. rewrite G. by rewrite F1.
  - destruct (xa_load (nd_servers nd) p) as [srv|] eqn:L; [|done]. exfalso.
    apply list_find_None in F. rewrite Forall_forall in F. destruct (Ho _ _ L) as (G1 & G2 & _).
    apply xa_elem_load in L; [|done]. by apply (F _ L).
Qed.

(** ** Who may change what *)

Lemma same_rest_trans s1 s2 s3 : same_rest s1 s2 -> same_rest s2 s3 -> same_rest s1 s3.
Proof. intros [A B] [C D]. split; congruence. Qed.

Lemma new_server_reg env s from service instance n0 p0 n p :
  ns_ok s -> 0 <= instance < 2 ^ 32 -> server_addr s from n0 p0 = (n, p) ->
  let s1 := snd (ctrl_cmd_new_server env s from service instance n0 p0) in
  same_rest s s1 /\ forall n' p', (n', p') <> (n, p) -> reg s1 n' p' = reg s n' p'.
Proof.
  intros Hs Hi Ha. cbv zeta. unfold ctrl_cmd_new_server. rewrite Ha.
  pose proof (server_add_ok env s service instance n p Hs Hi) as A.
  destruct (server_add env s service instance n p) as [[srv|] s1]; destruct A as (_ & A2 & _ & A5); [|by split].
  destruct A5 as (-> & _ & _ & R). set (srv := mk_server service instance n p) in *.
  assert (forall n' p', (n', p') <> (n, p) -> reg s1 n' p' = reg s n' p') as Q.
  { intros n' p' Hne. rewrite R. destruct (Z.eqb_spec n n'), (Z.eqb_spec p p'); cbn [andb]; congruence || done. }
  destruct (srv_node srv =? local_node s1); [unfold service_announce_new; rewrite kernel_sendmsg_eq|];
    (destruct (_ <? 0); [by split|]); rewrite notify_lookups_eq; by split.
Qed.

Lemma del_server_reg env s from service instance n0 p0 n p :
  ns_ok s -> server_addr s from n0 p0 = (n, p) ->
  let s1 := snd (ctrl_cmd_del_server env s from service instance n0 p0) in
  same_rest s s1 /\ forall n' p', (n', p') <> (n, p) -> reg s1 n' p' = reg s n' p'.
Proof.
  intros Hs Ha. cbv zeta. unfold ctrl_cmd_del_server. rewrite Ha. destruct (_ && _); [by split|].
  pose proof (node_get_ok env s n Hs) as N. destruct (node_get env s n) as [b s1].
  destruct N as (N1 & N2 & _ & N4 & N5 & _). destruct b; cbn [negb snd]; [|by split].
  destruct (server_del_ok env s1 n p true N1) as (_ & D2 & D3 & _). cbv zeta in *.
  split; [by apply (same_rest_trans s s1)|]. intros n' p' Hne. rewrite D3.
  destruct (Z.eqb_spec n n'), (Z.eqb_spec p p'); cbn [andb]; congruence || by rewrite N2.
Qed.

(** A client removed by its own node and, when local, by its own port. *)
Lemma del_client_reg env s from n p :
  ns_ok s ->
  let s1 := snd (ctrl_cmd_del_client env s from n p) in
  (s1 = s \/ (sq_node from = n /\ (n = local_node s -> sq_port from = p))) /\
  (forall l, lk_sq l <> mk_sq n p -> l ∈ lookups s1 <-> l ∈ lookups s) /\
  forall n' p', (n', p') <> (n, p) -> reg s1 n' p' = reg s n' p'.
Proof.
  intros Hs. cbv zeta. unfold ctrl_cmd_del_client.
  destruct (Z.eqb_spec (sq_node from) n) as [Hn|Hn]; cbn [negb]; [|split; [by left|done]].
  destruct ((sq_node from =? local_node s) && negb (sq_port from =? p)) eqn:C; [split; [by left|done]|].
  set (s0 := s <| lookups := _ |>). assert (ns_ok s0) as H0 by done.
  pose proof (node_get_ok env s0 n H0) as N. destruct (node_get env s0 n) as [b s1].
  destruct N as (N1 & N2 & _ & N4 & N5 & _). set (s2 := if b then server_del env s1 n p false else s1).
  assert (ns_ok s2 /\ lookups s2 = lookups s1 /\ forall n' p', (n', p') <> (n, p) -> reg s2 n' p' = reg s1 n' p')
    as (D1 & D2 & D3).
  { unfold s2. destruct b; [|done]. destruct (server_del_ok env s1 n p false N1) as (E1 & [E2 _] & E3 & _). cbv zeta in *.
    split; [done|]. split; [done|]. intros n' p' Hne. rewrite E3.
    destruct (Z.eqb_spec n n'), (Z.eqb_spec p p'); cbn [andb]; congruence || done. }
  clearbody s2. destruct (tell_local_ok env s2 (mk_pkt QRTR_TYPE_DEL_CLIENT n p 0 0) D1) as (_ & [M2 _] & M4 & _).
  cbv zeta in *. split; [|split].
  - right. split; [done|]. intros Hl. apply andb_false_iff in C as [C|C]; zbool; congruence.
  - intros l Hne. rewrite M2, D2, N4. cbn. rewrite list_elem_of_filter. split; [tauto|]. intros Hl. split; [|done].
    intros [A B]. apply Hne. destruct (lk_sq l). cbn in *. congruence.
  - intros n' p' Hne. rewrite M4, D3, N2 by done. done.
Qed.

Lemma bye_reg env s from :
  ns_ok s ->
  let s1 := snd (ctrl_cmd_bye env s from) in
  same_rest s s1 /\
  ((forall n p, reg s1 n p = if n =? sq_node from then None else reg s n p) \/
   (e_node_alloc env (sq_node from) = false /\ s1 = s /\ forall p, reg s (sq_node from) p = None)).
Proof.
  intros Hs. cbv zeta. unfold ctrl_cmd_bye. set (k := sq_node from).
  pose proof (node_get_ok env s k Hs) as N. destruct (node_get env s k) as [b s1] eqn:G.
  destruct N as (N1 & N2 & _ & N4 & N5 & _ & N7). destruct b; cbn [negb snd].
  2: { unfold node_get in G. destruct (xa_load (nodes s) k) eqn:E; [done|]. destruct (e_node_alloc env k); [done|].
       injection G as <-. split; [done|]. right. split; [done|]. split; [done|]. intros p. unfold reg, servers_of. by rewrite E. }
  destruct (del_servers_ok env k (servers_of s1 k) s1 N1) as (D1 & D2 & D3). cbv zeta in *.
  set (s2 := del_servers env s1 k (servers_of s1 k)) in *. clearbody s2.
  destruct (tell_local_ok env s2 (mk_pkt QRTR_TYPE_BYE k 0 0 0) D1) as (_ & M2 & M4 & _). cbv zeta in *.
  split; [apply (same_rest_trans s s2); [apply (same_rest_trans s s1); [by split|done]|done]|]. left. intros n p.
  rewrite M4, D3, N2. rewrite (Z.eqb_sym n k). destruct (Z.eqb_spec k n) as [<-|]; cbn [andb]; [|done].
  case_bool_decide as Hin; [done|]. destruct (reg s k p) as [srv|] eqn:E; [|done]. exfalso. apply Hin.
  rewrite <- N2 in E. destruct (reg_ok _ _ _ _ N1 E) as (_ & <- & _).
  apply (list_elem_of_fmap_2 (fun iv => srv_port (snd iv)) _ (srv_port srv, srv)).
  apply xa_elem_load; [by apply servers_sorted|done].
Qed.

(** ** Properties *)

(** C40. The registry stays well formed. Whatever bytes the worker receives,
    from whatever senders and with whatever failures of allocation and
    sending, every entry sits under its own node and port, has a nonzero
    service and port, and no index occurs twice; and the service id asked for
    by address is that of the registered server. *)
Theorem registry_invariant (env : ns_env) (node : Z) (msgs : list (sockaddr_qrtr * list Z * ns_env)) :
  Forall (fun m => Forall (fun x => 0 <= x < 256) (snd (fst m))) msgs ->
  let s := qrtr_ns_worker (snd (qrtr_ns_init env node)) msgs in
  ns_ok s /\ local_node s = node /\
  forall n p, qrtr_get_service_id s n p = match reg s n p with Some srv => srv_service srv | None => - EINVAL end.
Proof.
  intros Hm. cbv zeta. unfold qrtr_ns_worker. set (s0 := snd (qrtr_ns_init env node)).
  assert (ns_ok s0 /\ local_node s0 = node) as [H0 L0].
  { unfold s0, qrtr_ns_init, say_hello. rewrite kernel_sendmsg_eq. split; [|done]. split; [constructor|done]. }
  destruct (worker_loop_ok msgs s0 (fun _ => 0) H0 ltac:(intros a; lia) Hm) as [H1 L1].
  split; [done|]. split; [congruence|]. intros n p. by apply service_id_reg.
Qed.

(** A run of the switch over packets. *)
Fixpoint handle_all (env : ns_env) (s : qrtr_ns) (msgs : list (sockaddr_qrtr * qrtr_ctrl_pkt)) : qrtr_ns :=
  match msgs with
  | [] => s
  | (sq, p) :: msgs' => handle_all env (snd (handle_pkt env s sq p)) msgs'
  end.

(** All along the run the observer stays registered and is treated fairly. *)
Fixpoint undisturbed (env : ns_env) (s : qrtr_ns) (l : qrtr_lookup) (msgs : list (sockaddr_qrtr * qrtr_ctrl_pkt)) : Prop :=
  match msgs with
  | [] => True
  | (sq, p) :: msgs' =>
      pkt_ok p /\ fair_to s sq p l /\ l ∈ lookups (snd (handle_pkt env s sq p)) /\
      undisturbed env (snd (handle_pkt env s sq p)) l msgs'
  end.

Lemma handle_all_tracks env l msgs : forall s,
  delivered env -> ns_ok s -> l ∈ lookups s -> tracks s l -> undisturbed env s l msgs -> tracks (handle_all env s msgs) l.
Proof.
  induction msgs as [|[sq p] msgs IH]; intros s Hd Hs Hl Ht Hu; cbn [handle_all]; [done|].
  destruct Hu as (Hp & Hf & Hl' & Hu). destruct (handle_pkt_ok env s sq p Hs Hp) as (K1 & _ & K3). apply IH; auto.
Qed.

(** C33. Observers know the registry. A local client that knows nothing yet asks
    for a service. While its request stands, packets are delivered, memory is at
    hand, and no port of a server it asked for is registered again for a service
    it did not ask for ([undisturbed]), the packets it was sent tell it exactly
    the servers registered now that match its request: none is missing and none
    is stale. A port that is registered again for another service stays in its
    view ([replaced_server_stale]). *)
Theorem observer_view (env : ns_env) (s : qrtr_ns) (a : sockaddr_qrtr) (p : qrtr_ctrl_pkt)
  (msgs : list (sockaddr_qrtr * qrtr_ctrl_pkt)) :
  ns_ok s ->
  delivered env ->
  e_lookup_alloc env = true ->
  cmd p = QRTR_TYPE_NEW_LOOKUP ->
  pkt_ok p ->
  sq_node a = local_node s ->
  view a (sent s) = ∅ ->
  let l := mk_lookup (w_service p) (w_instance p) a in
  let s1 := snd (handle_pkt env s a p) in
  undisturbed env s1 l msgs ->
  forall n q sv inst, lookup_wants l sv inst = true ->
    view a (sent (handle_all env s1 msgs)) !! (n, q) = Some (sv, inst) <->
    reg (handle_all env s1 msgs) n q = Some (mk_server sv inst n q).
Proof.
  intros Hs Hd Ha Hc Hp Hn Hv. cbv zeta. set (l := mk_lookup _ _ a).
  assert (handle_pkt env s a p = ctrl_cmd_new_lookup env s a (w_service p) (w_instance p)) as E.
  { unfold handle_pkt. by rewrite Hc. }
  intros Hu n q sv inst Hw. destruct (handle_pkt_ok env s a p Hs Hp) as (K1 & _ & _).
  refine (handle_all_tracks env l msgs _ Hd K1 _ _ Hu n q sv inst Hw); rewrite E.
  - rewrite new_lookup_eq by done. cbn. apply elem_of_app. right. left.
  - by apply new_lookup_tracks.
Qed.

(** A local client is confined to its own address. Except for a goodbye,
    which speaks for a whole node, no packet of a local client changes what
    is registered under another address, or the requests of another
    observer. *)
Theorem local_client_confined (env : ns_env) (s : qrtr_ns) (q : Z) (p : qrtr_ctrl_pkt) :
  ns_ok s ->
  pkt_ok p ->
  cmd p <> QRTR_TYPE_BYE ->
  let from := mk_sq (local_node s) q in
  let s1 := snd (handle_pkt env s from p) in
  (forall n r, (n, r) <> (local_node s, q) -> reg s1 n r = reg s n r) /\
  (forall l, lk_sq l <> from -> l ∈ lookups s1 <-> l ∈ lookups s).
Proof.
  intros Hs Hp Hc. cbv zeta. set (from := mk_sq (local_node s) q).
  assert (forall n0 p0, server_addr s from n0 p0 = (local_node s, q)) as Ha.
  { intros n0 p0. unfold server_addr, from. cbn. by rewrite Z.eqb_refl. }
  unfold handle_pkt. cbv zeta. destruct (cmd p =? QRTR_TYPE_HELLO).
  { destruct (hello_ok env s from Hs) as (log & -> & _). by split. }
  rewrite (proj2 (Z.eqb_neq _ _) Hc). destruct (cmd p =? QRTR_TYPE_DEL_CLIENT).
  { destruct (del_client_reg env s from (client_node p) (client_port p) Hs) as ([E|[E1 E2]] & D2 & D3); cbv zeta in *.
    - rewrite E. by split.
    - cbn in E1. rewrite <- E1 in *. specialize (E2 eq_refl). cbn in E2. rewrite <- E2 in *. by split. }
  destruct (cmd p =? QRTR_TYPE_NEW_SERVER).
  { destruct (new_server_reg env s from (w_service p) (w_instance p) _ _ _ _ Hs Hp (Ha (w_node p) (w_port p))) as [[L _] R].
    cbv zeta in *. split; [exact R|]. intros l _. by rewrite L. }
  destruct (cmd p =? QRTR_TYPE_DEL_SERVER).
  { destruct (del_server_reg env s from (w_service p) (w_instance p) _ _ _ _ Hs (Ha (w_node p) (w_port p))) as [[L _] R].
    cbv zeta in *. split; [exact R|]. intros l _. by rewrite L. }
  destruct (_ || _); [by split|]. destruct (cmd p =? QRTR_TYPE_NEW_LOOKUP).
  { destruct (e_lookup_alloc env) eqn:E.
    - rewrite new_lookup_eq by done. split; [done|]. intros l Hl. cbn. rewrite elem_of_app, list_elem_of_singleton.
      split; [|by left]. intros [H| ->]; [done|]. by destruct Hl.
    - unfold ctrl_cmd_new_lookup, from. cbn. rewrite Z.eqb_refl, E. by split. }
  destruct (cmd p =? QRTR_TYPE_DEL_LOOKUP); [|by split]. split; [done|]. intros l Hl. cbn. rewrite list_elem_of_filter.
  split; [tauto|]. intros H. split; [|done]. unfold del_lookup_matches. destruct l as [a b [c e]]. unfold from. cbn in *.
  destruct (Z.eqb_spec c (local_node s)) as [->|], (Z.eqb_spec e q) as [->|]; try done.
Qed.

(** A goodbye removes a node. After BYE from a node none of its servers is
    registered and those of every other node are as before; the only failure,
    of the allocation of an unknown node, leaves a state with none of its
    servers either. *)
Theorem bye_removes_node (env : ns_env) (s : qrtr_ns) (from : sockaddr_qrtr) :
  ns_ok s ->
  let s1 := snd (ctrl_cmd_bye env s from) in
  fst (ctrl_cmd_bye env s from) = 0 /\ ns_ok s1 /\ lookups s1 = lookups s /\
  (forall p, reg s1 (sq_node from) p = None) /\
  (forall n p, n <> sq_node from -> reg s1 n p = reg s n p) /\
  (delivered env -> forall l, l ∈ lookups s -> tracks s l -> tracks s1 l).
Proof.
  intros Hs. cbv zeta. destruct (bye_ok env s from Hs) as (B1 & _ & B3).
  destruct (bye_reg env s from Hs) as ([L _] & R). cbv zeta in *. split.
  { unfold ctrl_cmd_bye. destruct (node_get env s (sq_node from)) as [[] s1]; [cbn [negb]|done].
    by destruct (node_get env _ _) as [[] s2]. }
  split; [done|]. split; [done|]. split; [|split].
  - intros p. destruct R as [R|(_ & R & Hr)]; [rewrite R; by rewrite Z.eqb_refl|by rewrite R].
  - intros n p Hn. destruct R as [R|(_ & R & _)]; rewrite R; [|done]. by rewrite (proj2 (Z.eqb_neq _ _) Hn).
  - intros Hd l Hl Ht. apply B3; [done|done|by rewrite L|done|done].
Qed.

(** ** Limits of the code *)

Definition demo_env : ns_env := mk_env (fun _ _ => 20) (fun _ => true) true true true.

(** A server of node 5 and an empty list of observers on node 1. *)
Definition demo_ns : qrtr_ns :=
  handle_all demo_env (snd (qrtr_ns_init demo_env 1)) [(mk_sq 5 QRTR_PORT_CTRL, mk_pkt QRTR_TYPE_NEW_SERVER 7 1 5 20)].

(** A port that is registered again for another service: the observer of the
    first is not told, and keeps a server that is gone. *)
Lemma replaced_server_stale :
  let a := mk_sq 1 100 in
  let s := handle_all demo_env demo_ns
    [ (a, mk_pkt QRTR_TYPE_NEW_LOOKUP 7 0 0 0);
      (mk_sq 1 30, mk_pkt QRTR_TYPE_NEW_SERVER 7 2 0 0);
      (mk_sq 1 30, mk_pkt QRTR_TYPE_NEW_SERVER 9 0 0 0) ] in
  view a (sent s) !! (1, 30) = Some (7, 2) /\ reg s 1 30 = Some (mk_server 9 0 1 30).
Proof. cbv zeta. split; vm_compute; reflexivity. Qed.

(** ** Witnesses *)

Lemma demo_init_ok : ns_ok (snd (qrtr_ns_init demo_env 1)).
Proof. split; [constructor|done]. Qed.

Lemma demo_ns_ok : ns_ok demo_ns.
Proof.
  unfold demo_ns. cbn [handle_all]. apply (handle_pkt_ok demo_env); [exact demo_init_ok|]. unfold pkt_ok. cbn. lia.
Qed.

Lemma demo_delivered : delivered demo_env.
Proof. intros d p. cbn. lia. Qed.

(** A registration, a short packet that reuses its words, and garbage. *)
Definition demo_msgs : list (sockaddr_qrtr * list Z * ns_env) :=
  [ (mk_sq 1 30, [4; 0; 0; 0; 7; 0; 0; 0; 2; 0; 0; 0], demo_env);
    (mk_sq 1 31, [4], demo_env);
    (mk_sq 9 9, [255; 255; 255; 255], demo_env) ].

Lemma registry_invariant_witness :
  ns_ok (qrtr_ns_worker (snd (qrtr_ns_init demo_env 1)) demo_msgs) /\
  qrtr_get_service_id (qrtr_ns_worker (snd (qrtr_ns_init demo_env 1)) demo_msgs) 1 31 = 7.
Proof.
  split; [|vm_compute; reflexivity]. apply (registry_invariant demo_env 1 demo_msgs).
  repeat constructor; lia.
Defined.

Definition demo_pkts : list (sockaddr_qrtr * qrtr_ctrl_pkt) :=
  [ (mk_sq 1 30, mk_pkt QRTR_TYPE_NEW_SERVER 7 2 0 0); (mk_sq 5 QRTR_PORT_CTRL, mk_pkt QRTR_TYPE_DEL_SERVER 7 1 5 20) ].

Lemma observer_view_witness :
  let s := handle_all demo_env (snd (handle_pkt demo_env demo_ns (mk_sq 1 100) (mk_pkt QRTR_TYPE_NEW_LOOKUP 7 0 0 0))) demo_pkts in
  reg s 1 30 = Some (mk_server 7 2 1 30) /\ reg s 5 20 = None /\
  (view (mk_sq 1 100) (sent s) !! (1, 30) = Some (7, 2) <-> reg s 1 30 = Some (mk_server 7 2 1 30)).
Proof.
  cbv zeta. split; [vm_compute; reflexivity|]. split; [vm_compute; reflexivity|].
  apply (observer_view demo_env demo_ns (mk_sq 1 100) (mk_pkt QRTR_TYPE_NEW_LOOKUP 7 0 0 0) demo_pkts).
  { exact demo_ns_ok. } { exact demo_delivered. } { reflexivity. } { reflexivity. } { unfold pkt_ok; cbn; lia. }
  { vm_compute. reflexivity. } { vm_compute. reflexivity. }
  2: { vm_compute. reflexivity. }
  split; [unfold pkt_ok; cbn; lia|]. split; [|split].
  - intros _. intros old H. vm_compute in H. discriminate H.
  - assert (lookups (snd (handle_pkt demo_env (snd (handle_pkt demo_env demo_ns (mk_sq 1 100)
      (mk_pkt QRTR_TYPE_NEW_LOOKUP 7 0 0 0))) (mk_sq 1 30) (mk_pkt QRTR_TYPE_NEW_SERVER 7 2 0 0))) =
      [mk_lookup 7 0 (mk_sq 1 100)]) as -> by (vm_compute; reflexivity). left.
  - split; [unfold pkt_ok; cbn; lia|]. split; [intros E; discriminate E|]. split; [|exact I].
    match goal with |- _ ∈ lookups ?x => assert (lookups x = [mk_lookup 7 0 (mk_sq 1 100)]) as -> by (vm_compute; reflexivity) end.
    left.
Defined.

Lemma local_client_confined_witness :
  reg (snd (handle_pkt demo_env demo_ns (mk_sq (local_node demo_ns) 30) (mk_pkt QRTR_TYPE_DEL_SERVER 7 1 5 20))) 5 20 =
  reg demo_ns 5 20 /\ reg demo_ns 5 20 = Some (mk_server 7 1 5 20).
Proof.
  split; [|vm_compute; reflexivity].
  apply (local_client_confined demo_env demo_ns 30 (mk_pkt QRTR_TYPE_DEL_SERVER 7 1 5 20)).
  { exact demo_ns_ok. } { unfold pkt_ok; cbn; lia. } { discriminate. } { discriminate. }
Defined.

Lemma bye_removes_node_witness :
  reg demo_ns 5 20 = Some (mk_server 7 1 5 20) /\ reg (snd (ctrl_cmd_bye demo_env demo_ns (mk_sq 5 QRTR_PORT_CTRL))) 5 20 = None.
Proof.
  split; [vm_compute; reflexivity|].
  destruct (bye_removes_node demo_env demo_ns (mk_sq 5 QRTR_PORT_CTRL) demo_ns_ok) as (_ & _ & _ & H & _). apply H.
Defined.
