(* ===== verification/QrtrPkt.v ===== *)
(** * QrtrPkt: packets of the IPC router on the wire
      (src/net/qrtr/af_qrtr.c: header formats, parsing, sizes, checksum)

    A packet is a header of version 1 or 2, the payload and padding to a word.
    A field that is read outside the bytes at hand is [None]. *)
From stdpp Require Import prelude list.
From S2P Require Import Prelude.
From S2P Require Import XArray.
From S2P Require Import Qrtr.

(** ** Headers *)

Definition QRTR_PROTO_VER_1 : Z := 1.

Definition QRTR_PROTO_VER_2 : Z := 3.

Definition QRTR_PORT_CTRL_LEGACY : Z := 65535.

Definition QRTR_FLAGS_CONFIRM_RX : Z := BIT 0.

Record qrtr_hdr_v1 := mk_hdr_v1 {
  v1_version : Z;
  v1_type : Z;
  v1_src_node_id : Z;
  v1_src_port_id : Z;
  v1_confirm_rx : Z;
  v1_size : Z;
  v1_dst_node_id : Z;
  v1_dst_port_id : Z;
}.

Record qrtr_hdr_v2 := mk_hdr_v2 {
  v2_version : Z;
  v2_type : Z;
  v2_flags : Z;
  v2_optlen : Z;
  v2_size : Z;
  v2_src_node_id : Z;
  v2_src_port_id : Z;
  v2_dst_node_id : Z;
  v2_dst_port_id : Z;
}.

Definition sizeof_hdr_v1 : Z := 32.

Definition sizeof_hdr_v2 : Z := 16.

Definition QRTR_HDR_MAX_SIZE : Z := Z.max sizeof_hdr_v1 sizeof_hdr_v2.

Definition sizeof_ctrl_pkt : Z := 20.

(** The little-endian field of [n] bytes at an offset. *)
Definition field (n off : nat) (bs : list Z) : option Z :=
  if (off + n <=? length bs)%nat then Some (le_val (take n (drop off bs))) else None.

Definition hdr_v1_bytes (h : qrtr_hdr_v1) : list Z :=
  le_bytes 4 (v1_version h) ++ le_bytes 4 (v1_type h) ++ le_bytes 4 (v1_src_node_id h) ++
  le_bytes 4 (v1_src_port_id h) ++ le_bytes 4 (v1_confirm_rx h) ++ le_bytes 4 (v1_size h) ++
  le_bytes 4 (v1_dst_node_id h) ++ le_bytes 4 (v1_dst_port_id h).

(** A pointer to a header: all its fields, when they are there. *)
Definition hdr_v1_at (bs : list Z) : option qrtr_hdr_v1 :=
  version ← field 4 0 bs; type ← field 4 4 bs; sn ← field 4 8 bs; sp ← field 4 12 bs;
  confirm ← field 4 16 bs; size ← field 4 20 bs; dn ← field 4 24 bs; dp ← field 4 28 bs;
  Some (mk_hdr_v1 version type sn sp confirm size dn dp).

Definition hdr_v2_at (bs : list Z) : option qrtr_hdr_v2 :=
  version ← field 1 0 bs; type ← field 1 1 bs; flags ← field 1 2 bs; optlen ← field 1 3 bs;
  size ← field 4 4 bs; sn ← field 2 8 bs; sp ← field 2 10 bs; dn ← field 2 12 bs; dp ← field 2 14 bs;
  Some (mk_hdr_v2 version type flags optlen size sn sp dn dp).

(** The control block of a packet buffer. *)
Record qrtr_cb := mk_cb {
  cb_src_node : Z;
  cb_src_port : Z;
  cb_dst_node : Z;
  cb_dst_port : Z;
  cb_type : Z;
  cb_confirm_rx : Z;
}.

#[export] Instance eta_qrtr_cb : Settable qrtr_cb := fun c =>
  mk_cb (cb_src_node c) (cb_src_port c) (cb_dst_node c) (cb_dst_port c) (cb_type c) (cb_confirm_rx c).

#[global] Instance qrtr_cb_eq_dec : EqDecision qrtr_cb.
Proof. solve_decision. Defined.

Definition zero_cb : qrtr_cb := mk_cb 0 0 0 0 0 0.

(** A port of a short header: the low half of the control port means it. *)
Definition widen_port (p : Z) : Z := if p =? u16 QRTR_PORT_CTRL then QRTR_PORT_CTRL else p.

(** [qrtr_parse_header]: addresses, header length and size; [Err] is an unknown
    version. The outer option is a read beyond the bytes. *)
Definition qrtr_parse_header (data : list Z) : option (result (qrtr_cb * Z * Z)) :=
  ver ← field 1 0 data;
  if ver =? QRTR_PROTO_VER_1 then
    h ← hdr_v1_at data;
    Some (Ok (mk_cb (v1_src_node_id h) (v1_src_port_id h) (v1_dst_node_id h) (v1_dst_port_id h) 0 0,
              sizeof_hdr_v1, v1_size h))
  else if ver =? QRTR_PROTO_VER_2 then
    h ← hdr_v2_at data;
    Some (Ok (mk_cb (v2_src_node_id h) (widen_port (v2_src_port_id h)) (v2_dst_node_id h)
                    (widen_port (v2_dst_port_id h)) 0 0,
              sizeof_hdr_v2 + v2_optlen h, v2_size h))
  else Some (Err (- 1)).

(** [qrtr_peek_pkt_size]: all in [unsigned int], returned as an [int]. *)
Definition qrtr_peek_pkt_size (data : list Z) : option Z :=
  ver ← field 1 0 data;
  if ver =? QRTR_PROTO_VER_1 then
    size ← field 4 20 data;
    Some (s32 (u32 (ALIGN size 4 + sizeof_hdr_v1)))
  else if ver =? QRTR_PROTO_VER_2 then
    optlen ← field 1 3 data; size ← field 4 4 data;
    Some (s32 (u32 (ALIGN size 4 + (sizeof_hdr_v2 + optlen))))
  else Some (- EINVAL).

(** The header part of [qrtr_endpoint_post]: the control block, the length of
    the header and the size of the payload, or [Err] for the jump to [err]. *)
Definition post_header (data : list Z) : option (result (qrtr_cb * Z * Z)) :=
  let len := Z.of_nat (length data) in
  ver ← field 1 0 data;
  if ver =? QRTR_PROTO_VER_1 then
    if len <? sizeof_hdr_v1 then Some (Err (- EINVAL))
    else
      h ← hdr_v1_at data;
      Some (Ok (mk_cb (v1_src_node_id h) (v1_src_port_id h) (v1_dst_node_id h) (v1_dst_port_id h)
                      (u8 (v1_type h)) (b2z (truth (v1_confirm_rx h))),
                sizeof_hdr_v1, v1_size h))
  else if ver =? QRTR_PROTO_VER_2 then
    if len <? sizeof_hdr_v2 then Some (Err (- EINVAL))
    else
      h ← hdr_v2_at data;
      Some (Ok (mk_cb (v2_src_node_id h) (widen_port (v2_src_port_id h)) (v2_dst_node_id h)
                      (widen_port (v2_dst_port_id h)) (v2_type h)
                      (b2z (truth (Z.land (v2_flags h) QRTR_FLAGS_CONFIRM_RX))),
                sizeof_hdr_v2 + v2_optlen h, v2_size h))
  else Some (Err (- EINVAL)).

(** The tests that follow: [None] is the jump to [err]. The sum is a [size_t],
    wide enough for both terms. *)
Definition post_checks (len : Z) (cb : qrtr_cb) (hdrlen size : Z) : option qrtr_cb :=
  let cb := if cb_dst_port cb =? QRTR_PORT_CTRL_LEGACY then cb <| cb_dst_port := QRTR_PORT_CTRL |> else cb in
  if (size =? 0) || negb (len =? ALIGN size 4 + hdrlen) then None
  else if ((cb_type cb =? QRTR_TYPE_NEW_SERVER) || (cb_type cb =? QRTR_TYPE_RESUME_TX)) &&
          (size <? sizeof_ctrl_pkt) then None
  else if negb (cb_dst_port cb =? QRTR_PORT_CTRL) && negb (cb_type cb =? QRTR_TYPE_DATA) &&
          negb (cb_type cb =? QRTR_TYPE_RESUME_TX) then None
  else Some cb.

(** ** Control packets *)

Definition ctrl_pkt_words (p : qrtr_ctrl_pkt) : list Z := [cmd p; w_service p; w_instance p; w_node p; w_port p].

Definition ctrl_pkt_bytes (p : qrtr_ctrl_pkt) : list Z := flat_map (le_bytes 4) (ctrl_pkt_words p).

Definition QRTR_DEL_PROC_MAGIC : Z := 57617.

(** The loop that folds the carries back in: twice is enough for 32 bits. *)
Fixpoint fold_carries (fuel : nat) (checksum : Z) : option Z :=
  if 65535 <? checksum then
    match fuel with
    | O => None
    | S k => fold_carries k (u32 (Z.land checksum 65535 + Z.land (Z.shiftr checksum 16) 65535))
    end
  else Some checksum.

(** The loop over the words of a packet. *)
Fixpoint sum_halves (words : list Z) (checksum : Z) : Z :=
  match words with
  | [] => checksum
  | msg :: words' =>
      let lower_nb := u16 (Z.land msg 65535) in
      let upper_nb := u16 (Z.land (Z.shiftr msg 16) 65535) in
      sum_halves words' (u32 (checksum + (upper_nb + lower_nb)))
  end.

Definition qrtr_calc_checksum (pkt : option qrtr_ctrl_pkt) : option Z :=
  match pkt with
  | None => Some 0
  | Some p =>
      c ← fold_carries 2 (sum_halves (ctrl_pkt_words p) 0);
      Some (Z.land (Z.lnot c) 65535)
  end.

(** ** Lemmas: fields *)

Definition is_bytes (bs : list Z) : Prop := Forall (fun b => 0 <= b < 256) bs.

Lemma field_some n off bs : (off + n <= length bs)%nat -> field n off bs = Some (le_val (take n (drop off bs))).
Proof. intros H. unfold field. by rewrite (proj2 (Nat.leb_le _ _)). Qed.

(** A field of bytes is in the range of its width. *)
Lemma field_range n off bs v : is_bytes bs -> field n off bs = Some v -> 0 <= v < 256 ^ Z.of_nat n.
Proof.
  intros Hb. unfold field. destruct (off + n <=? length bs)%nat eqn:E; [|done]. intros [= <-].
  apply Nat.leb_le in E. pose proof (le_val_bound (take n (drop off bs))) as B.
  rewrite length_take_le in B by (rewrite length_drop; lia). apply B. by apply Forall_take, Forall_drop.
Qed.

Lemma length_words ws : length (flat_map (le_bytes 4) ws) = (4 * length ws)%nat.
Proof. induction ws as [|w ws IH]; [done|]. cbn [flat_map]. rewrite length_app, length_le_bytes, IH. cbn [length]. lia. Qed.

(** The words of a structure, read back. *)
Lemma field_words ws rest : forall k v,
  ws !! k = Some v -> 0 <= v < 2 ^ 32 -> field 4 (4 * k) (flat_map (le_bytes 4) ws ++ rest) = Some v.
Proof.
  induction ws as [|w ws IH]; intros k v Hk Hv; [done|].
  rewrite field_some; cycle 1.
  { rewrite length_app, length_words. apply lookup_lt_Some in Hk. lia. }
  cbn [flat_map]. rewrite <- app_assoc. destruct k as [|k]; cbn in Hk.
  - injection Hk as ->. rewrite Nat.mul_0_r, drop_0, take_app_le by (rewrite length_le_bytes; lia).
    rewrite take_ge by (rewrite length_le_bytes; lia). f_equal. by apply le_val_bytes_small.
  - rewrite drop_app_ge by (rewrite length_le_bytes; lia). rewrite length_le_bytes.
    replace (4 * S k - 4)%nat with (4 * k)%nat by lia. rewrite <- (IH k v Hk Hv).
    rewrite field_some; [done|]. rewrite length_app, length_words. apply lookup_lt_Some in Hk. lia.
Qed.

Definition hdr_v1_words (h : qrtr_hdr_v1) : list Z :=
  [v1_version h; v1_type h; v1_src_node_id h; v1_src_port_id h; v1_confirm_rx h; v1_size h;
   v1_dst_node_id h; v1_dst_port_id h].

Lemma hdr_v1_bytes_words h : hdr_v1_bytes h = flat_map (le_bytes 4) (hdr_v1_words h).
Proof. unfold hdr_v1_bytes. cbn [flat_map hdr_v1_words]. by rewrite app_nil_r. Qed.

Lemma length_hdr_v1_bytes h : length (hdr_v1_bytes h) = 32%nat.
Proof. by rewrite hdr_v1_bytes_words, length_words. Qed.

Lemma length_ctrl_pkt_bytes p : length (ctrl_pkt_bytes p) = 20%nat.
Proof. unfold ctrl_pkt_bytes. by rewrite length_words. Qed.

(** A header is read back as it was written. *)
Lemma hdr_v1_at_bytes h rest :
  Forall (fun v => 0 <= v < 2 ^ 32) (hdr_v1_words h) -> hdr_v1_at (hdr_v1_bytes h ++ rest) = Some h.
Proof.
  intros H. rewrite hdr_v1_bytes_words.
  assert (forall off k v, off = (4 * k)%nat -> hdr_v1_words h !! k = Some v ->
    field 4 off (flat_map (le_bytes 4) (hdr_v1_words h) ++ rest) = Some v) as F.
  { intros off k v -> Hk. apply field_words; [done|]. by eapply (Forall_lookup_1 _ _ k) in H. }
  unfold hdr_v1_at. destruct h.
  rewrite (F 0%nat 0%nat _ eq_refl eq_refl), (F 4%nat 1%nat _ eq_refl eq_refl), (F 8%nat 2%nat _ eq_refl eq_refl),
    (F 12%nat 3%nat _ eq_refl eq_refl), (F 16%nat 4%nat _ eq_refl eq_refl), (F 20%nat 5%nat _ eq_refl eq_refl),
    (F 24%nat 6%nat _ eq_refl eq_refl), (F 28%nat 7%nat _ eq_refl eq_refl).
  done.
Qed.

Lemma first_byte_version h rest :
  0 <= v1_version h < 256 -> field 1 0 (hdr_v1_bytes h ++ rest) = Some (v1_version h).
Proof.
  intros Hv. rewrite field_some by (rewrite length_app, length_hdr_v1_bytes; lia).
  unfold hdr_v1_bytes. cbn. rewrite Z.add_0_r. f_equal. by apply Z.mod_small.
Qed.

(** A header that fits is read without leaving the bytes. *)
Lemma hdr_v1_at_some bs : (32 <= length bs)%nat -> is_Some (hdr_v1_at bs).
Proof. intros H. unfold hdr_v1_at. rewrite !field_some by lia. cbn. eauto. Qed.

Lemma hdr_v2_at_some bs : (16 <= length bs)%nat -> is_Some (hdr_v2_at bs).
Proof. intros H. unfold hdr_v2_at. rewrite !field_some by lia. cbn. eauto. Qed.

(** ** Lemmas: what the parsers agree on *)

Lemma post_header_total data : data <> [] -> is_Some (post_header data).
Proof.
  intros Hne. unfold post_header. rewrite field_some by (destruct data; [done|cbn; lia]). cbn [mbind option_bind].
  destruct (_ =? _); [|destruct (_ =? _); [|eauto]].
  - destruct (Z.ltb_spec (Z.of_nat (length data)) sizeof_hdr_v1) as [|H]; [eauto|].
    destruct (hdr_v1_at_some data) as [h ->]; [unfold sizeof_hdr_v1 in H; lia|]. cbn. eauto.
  - destruct (Z.ltb_spec (Z.of_nat (length data)) sizeof_hdr_v2) as [|H]; [eauto|].
    destruct (hdr_v2_at_some data) as [h ->]; [unfold sizeof_hdr_v2 in H; lia|]. cbn. eauto.
Qed.

Ltac binds H := repeat (let x := fresh in let E := fresh in apply bind_Some in H as (x & E & H)).

Lemma hdr_v1_at_size bs h : hdr_v1_at bs = Some h -> field 4 20 bs = Some (v1_size h).
Proof. unfold hdr_v1_at. intros E. binds E. by injection E as <-. Qed.

Lemma hdr_v2_at_size bs h :
  hdr_v2_at bs = Some h -> field 1 3 bs = Some (v2_optlen h) /\ field 4 4 bs = Some (v2_size h).
Proof. unfold hdr_v2_at. intros E. binds E. by injection E as <-. Qed.

(** The cases of a header that [qrtr_endpoint_post] reads. *)
Lemma post_header_inv data cb hdrlen size :
  post_header data = Some (Ok (cb, hdrlen, size)) ->
  (exists h, field 1 0 data = Some QRTR_PROTO_VER_1 /\ hdr_v1_at data = Some h /\ hdrlen = sizeof_hdr_v1 /\
     size = v1_size h /\ cb_src_node cb = v1_src_node_id h /\ cb_src_port cb = v1_src_port_id h /\
     cb_dst_node cb = v1_dst_node_id h /\ cb_dst_port cb = v1_dst_port_id h /\ 32 <= Z.of_nat (length data)) \/
  (exists h, field 1 0 data = Some QRTR_PROTO_VER_2 /\ hdr_v2_at data = Some h /\
     hdrlen = sizeof_hdr_v2 + v2_optlen h /\ size = v2_size h /\ cb_src_node cb = v2_src_node_id h /\
     cb_src_port cb = widen_port (v2_src_port_id h) /\ cb_dst_node cb = v2_dst_node_id h /\
     cb_dst_port cb = widen_port (v2_dst_port_id h) /\ 16 <= Z.of_nat (length data)).
Proof.
  unfold post_header. intros E. apply bind_Some in E as (ver & Ev & E).
  destruct (Z.eqb_spec ver QRTR_PROTO_VER_1) as [->|_]; [left|destruct (Z.eqb_spec ver QRTR_PROTO_VER_2) as [->|_]; [right|done]].
  - destruct (Z.ltb_spec (Z.of_nat (length data)) sizeof_hdr_v1) as [|Hl]; [done|]. apply bind_Some in E as (h & Eh & E).
    injection E as <- <- <-. exists h. by split_and!.
  - destruct (Z.ltb_spec (Z.of_nat (length data)) sizeof_hdr_v2) as [|Hl]; [done|]. apply bind_Some in E as (h & Eh & E).
    injection E as <- <- <-. exists h. by split_and!.
Qed.

(** The size of a header in bytes, and the range of what it announces. *)
Lemma post_header_range data cb hdrlen size :
  is_bytes data -> post_header data = Some (Ok (cb, hdrlen, size)) -> 16 <= hdrlen < 16 + 256 /\ 0 <= size < 2 ^ 32.
Proof.
  intros Hb E. apply post_header_inv in E as [(h & _ & Eh & -> & -> & _)|(h & _ & Eh & -> & -> & _)].
  - apply hdr_v1_at_size, field_range in Eh; [|done]. unfold sizeof_hdr_v1. cbn in Eh. lia.
  - apply hdr_v2_at_size in Eh as [Eo Es]. apply field_range in Eo, Es; [|done..]. unfold sizeof_hdr_v2. cbn in Eo, Es. lia.
Qed.

(** An accepted packet is exactly its header, its payload and the padding. *)
Lemma post_checks_size len cb hdrlen size cb' :
  post_checks len cb hdrlen size = Some cb' -> size <> 0 /\ len = ALIGN size 4 + hdrlen.
Proof.
  unfold post_checks. cbv zeta.
  destruct (_ || _) eqn:E1; [done|]. intros _. zbool. done.
Qed.

(** The announcement of a server carries a whole control packet. *)
Lemma post_checks_new_server len cb hdrlen size cb' :
  post_checks len cb hdrlen size = Some cb' -> cb_type cb' = QRTR_TYPE_NEW_SERVER -> sizeof_ctrl_pkt <= size.
Proof.
  unfold post_checks. cbv zeta. set (cb1 := if cb_dst_port cb =? _ then _ else _).
  destruct ((size =? 0) || _); [done|].
  destruct (((_ || _) && (size <? _))%bool) eqn:E; [done|].
  clearbody cb1. destruct (negb _ && _ && _); [done|]. intros H Et. injection H as <-.
  rewrite Et, Z.eqb_refl in E. cbn in E. by apply Z.ltb_ge in E.
Qed.

(** The three readers of a header agree: when the receiver accepts a packet,
    its header, its payload and less than a word of padding are exactly the
    bytes received; the size a transport computes in advance to reassemble the
    packet is that length; and the header reader used for reports finds the same
    addresses, header length and size. *)
Theorem header_readers_agree (data : list Z) (cb cb' : qrtr_cb) (hdrlen size : Z) :
  is_bytes data -> Z.of_nat (length data) < 2 ^ 31 ->
  post_header data = Some (Ok (cb, hdrlen, size)) ->
  post_checks (Z.of_nat (length data)) cb hdrlen size = Some cb' ->
  0 < size /\ hdrlen + size <= Z.of_nat (length data) < hdrlen + size + 4 /\
  qrtr_peek_pkt_size data = Some (Z.of_nat (length data)) /\
  exists cb0, qrtr_parse_header data = Some (Ok (cb0, hdrlen, size)) /\
    cb_src_node cb0 = cb_src_node cb /\ cb_src_port cb0 = cb_src_port cb /\
    cb_dst_node cb0 = cb_dst_node cb /\ cb_dst_port cb0 = cb_dst_port cb.
Proof.
  intros Hb Hl Eh Ec. destruct (post_header_range _ _ _ _ Hb Eh) as [R1 R2].
  apply post_checks_size in Ec as [Hs Elen]. pose proof (ALIGN_4_bounds size) as A.
  split; [lia|]. split; [lia|].
  assert (s32 (u32 (ALIGN size 4 + hdrlen)) = Z.of_nat (length data)) as Es.
  { rewrite <- Elen. unfold u32. rewrite Z.mod_small by lia. apply s32_small. lia. }
  apply post_header_inv in Eh as [(h & Ev & Ea & -> & -> & E1 & E2 & E3 & E4 & _)|(h & Ev & Ea & -> & -> & E1 & E2 & E3 & E4 & _)].
  - split.
    + unfold qrtr_peek_pkt_size. rewrite Ev. cbn [mbind option_bind]. rewrite Z.eqb_refl.
      rewrite (hdr_v1_at_size _ _ Ea). cbn [mbind option_bind]. by rewrite Es.
    + unfold qrtr_parse_header. rewrite Ev. cbn [mbind option_bind]. rewrite Z.eqb_refl, Ea. cbn [mbind option_bind].
      eexists. split; [reflexivity|]. by split_and!.
  - destruct (hdr_v2_at_size _ _ Ea) as [Fo Fs]. split.
    + unfold qrtr_peek_pkt_size. rewrite Ev. cbn [mbind option_bind]. cbn [Z.eqb QRTR_PROTO_VER_1 QRTR_PROTO_VER_2 Pos.eqb].
      rewrite Fo. cbn [mbind option_bind]. rewrite Fs. cbn [mbind option_bind]. by rewrite Es.
    + unfold qrtr_parse_header. rewrite Ev. cbn [mbind option_bind]. cbn [Z.eqb QRTR_PROTO_VER_1 QRTR_PROTO_VER_2 Pos.eqb].
      rewrite Ea. cbn [mbind option_bind]. eexists. split; [reflexivity|]. by split_and!.
Qed.

(** ** The checksum *)

Lemma land_halves z : 0 <= z -> Z.land z 65535 = z mod 2 ^ 16 /\ Z.land (Z.shiftr z 16) 65535 = (z / 2 ^ 16) mod 2 ^ 16.
Proof.
  intros Hz. change 65535 with (Z.ones 16). rewrite !Z.land_ones by lia. by rewrite Z.shiftr_div_pow2 by lia.
Qed.

(** Folding the carry keeps the value modulo [2^16 - 1]. *)
Lemma fold_step z : 0 <= z < 2 ^ 32 ->
  let z' := u32 (Z.land z 65535 + Z.land (Z.shiftr z 16) 65535) in
  z' = z mod 2 ^ 16 + z / 2 ^ 16 /\ z' mod 65535 = z mod 65535.
Proof.
  intros Hz. cbv zeta. destruct (land_halves z) as [-> ->]; [lia|].
  pose proof (Z.div_mod z (2 ^ 16)) as D. pose proof (Z.mod_pos_bound z (2 ^ 16)) as B.
  assert (0 <= z / 2 ^ 16 < 2 ^ 16) as Q by (split; [apply Z.div_pos; lia|apply Z.div_lt_upper_bound; lia]).
  rewrite (Z.mod_small (z / 2 ^ 16)) by lia. unfold u32. rewrite Z.mod_small by lia. split; [done|].
  rewrite <- (Z.mod_add _ (z / 2 ^ 16)) by lia. f_equal. lia.
Qed.

Lemma fold_carries_spec z : 0 <= z < 2 ^ 32 ->
  exists y, fold_carries 2 z = Some y /\ 0 <= y <= 65535 /\ y mod 65535 = z mod 65535.
Proof.
  intros Hz. cbn [fold_carries]. destruct (Z.ltb_spec 65535 z) as [H1|H1]; [|exists z; split; [done|lia]].
  destruct (fold_step z Hz) as [E1 M1]. set (z1 := u32 _) in *.
  pose proof (Z.mod_pos_bound z (2 ^ 16)) as B1. assert (z / 2 ^ 16 < 2 ^ 16) by (apply Z.div_lt_upper_bound; lia).
  assert (0 <= z / 2 ^ 16) by (apply Z.div_pos; lia). clearbody z1.
  destruct (Z.ltb_spec 65535 z1) as [H2|H2]; [|exists z1; split; [done|lia]].
  destruct (fold_step z1) as [E2 M2]; [lia|]. set (z2 := u32 _) in *. clearbody z2.
  assert (z1 / 2 ^ 16 = 1) as Q1 by (symmetry; apply (Z.div_unique _ _ _ (z1 - 2 ^ 16)); lia).
  pose proof (Z.div_mod z1 (2 ^ 16)). pose proof (Z.mod_pos_bound z1 (2 ^ 16)).
  destruct (Z.ltb_spec 65535 z2) as [Hc|Hc]; [lia|]. exists z2. split; [done|lia].
Qed.

Lemma sum_halves_spec ws : forall acc,
  Forall (fun w => 0 <= w < 2 ^ 32) ws -> 0 <= acc -> acc + Z.of_nat (length ws) * 131070 < 2 ^ 32 ->
  0 <= sum_halves ws acc < 2 ^ 32 /\ sum_halves ws acc mod 65535 = (acc + foldr Z.add 0 ws) mod 65535.
Proof.
  induction ws as [|w ws IH]; intros acc Hw Ha Hb; cbn [sum_halves foldr length] in *.
  { rewrite Z.add_0_r. lia. }
  apply Forall_cons in Hw as [Hw Hws]. destruct (land_halves w) as [-> ->]; [lia|].
  pose proof (Z.div_mod w (2 ^ 16)) as D. pose proof (Z.mod_pos_bound w (2 ^ 16)) as B.
  assert (0 <= w / 2 ^ 16 < 2 ^ 16) as Q by (split; [apply Z.div_pos; lia|apply Z.div_lt_upper_bound; lia]).
  unfold u16. rewrite !(Z.mod_small (w / 2 ^ 16)), !(Z.mod_small (w mod 2 ^ 16)) by lia.
  assert (u32 (acc + (w / 2 ^ 16 + w mod 2 ^ 16)) = acc + (w / 2 ^ 16 + w mod 2 ^ 16)) as ->.
  { unfold u32. apply Z.mod_small. lia. }
  destruct (IH (acc + (w / 2 ^ 16 + w mod 2 ^ 16)) Hws) as [R M]; [lia|lia|]. split; [done|]. rewrite M.
  rewrite <- (Z.mod_add _ (w / 2 ^ 16)) by lia. f_equal. lia.
Qed.

(** The checksum ends, fits in 16 bits, and the words of the packet together
    with it are a multiple of [2^16 - 1]. *)
Lemma calc_checksum_spec p :
  Forall (fun w => 0 <= w < 2 ^ 32) (ctrl_pkt_words p) ->
  exists c, qrtr_calc_checksum (Some p) = Some c /\ 0 <= c < 2 ^ 16 /\
    (foldr Z.add 0 (ctrl_pkt_words p) + c) mod 65535 = 0.
Proof.
  intros Hw. destruct (sum_halves_spec (ctrl_pkt_words p) 0 Hw) as [R E]; [lia|cbn; lia|].
  destruct (fold_carries_spec _ R) as (y & Ey & Hy & My). unfold qrtr_calc_checksum. rewrite Ey. cbn [mbind option_bind].
  assert (Z.land (Z.lnot y) 65535 = 65535 - y) as ->.
  { change 65535 with (Z.ones 16) at 1. rewrite Z.land_ones by lia. unfold Z.lnot.
    rewrite <- (Z.mod_add _ 1), Z.mod_small by lia. lia. }
  exists (65535 - y). split; [done|]. split; [lia|]. rewrite Z.add_0_l in E.
  replace (foldr Z.add 0 (ctrl_pkt_words p) + (65535 - y))
    with (foldr Z.add 0 (ctrl_pkt_words p) - y + 1 * 65535) by lia.
  rewrite Z.mod_add, Zminus_mod, My, E by lia. by rewrite Z.sub_diag.
Qed.
