(* ===== verification/AfQrtr.v ===== *)
(** * AfQrtr: the sockets, nodes and flows of the IPC router
      (src/net/qrtr/af_qrtr.c, src/net/qrtr/qrtr.h)

    Endpoints (transports to other processors) register nodes; sockets are
    bound to ports; packets go from socket to socket on this processor or
    through a node's endpoint, with flow control per remote address, and
    packets for other processors are forwarded. Sockets and nodes are objects
    of heaps, since ports, the node tree, flows and callers share them and
    count references to them. A packet buffer is a value: its bytes, its control
    block, its owner and the sizes of its fragments. Functions are computations
    of Effects.v; those that wait let other threads run. The network core, the
    allocators and the transports are the arguments [qrtr_env]. *)
From stdpp Require Import prelude gmap list.
From S2P Require Import Prelude.
From S2P Require Import Effects.
From S2P Require Import XArray.
From S2P Require Import Qrtr.
From S2P Require Import QrtrNs.
From S2P Require Import QrtrPkt.
#[local] Open Scope kernel_scope.

(** ** Constants *)

Definition QRTR_MIN_EPH_SOCKET : Z := 16384.

Definition QRTR_MAX_EPH_SOCKET : Z := 32767.

Definition QRTR_STATE_MULTI : Z := - 2.

Definition QRTR_STATE_INIT : Z := - 1.

Definition QRTR_LOCAL_PVM_NODE_ID : Z := 1.

Definition QRTR_LOCAL_MDM_NODE_ID : Z := 2.

Definition QRTR_BACKUP_HI_NUM : nat := 5.

Definition QRTR_BACKUP_HI_SIZE : Z := 16384.

Definition QRTR_BACKUP_LO_NUM : nat := 20.

Definition QRTR_BACKUP_LO_SIZE : Z := 1024.

Definition QRTR_TX_FLOW_HIGH : Z := 10.

Definition QRTR_TX_FLOW_LOW : Z := 5.

(** [(-1)] in the [unsigned int] of a node id. *)
Definition QRTR_EP_NID_AUTO : Z := 4294967295.

Definition QRTR_EP_NET_ID_AUTO : Z := 1.

Definition AF_QIPCRTR : Z := 42.

Definition MSG_DONTWAIT : Z := 64.

Definition PAGE_SIZE : Z := 4096.

Definition is_primary (nid : Z) : bool := (nid =? QRTR_LOCAL_PVM_NODE_ID) || (nid =? QRTR_LOCAL_MDM_NODE_ID).

(** ** Data *)

(** A packet buffer: [skb->len] is the number of bytes, of which the last
    [skb_data_len] are in page fragments. *)
Record sk_buff := mk_skb {
  skb_sk : option Z;
  skb_cb : qrtr_cb;
  skb_bytes : list Z;
  skb_data_len : Z;
  skb_frags : list Z;
}.

#[export] Instance eta_sk_buff : Settable sk_buff := fun b =>
  mk_skb (skb_sk b) (skb_cb b) (skb_bytes b) (skb_data_len b) (skb_frags b).

Definition skb_len (b : sk_buff) : Z := Z.of_nat (length (skb_bytes b)).

Record qrtr_sock := mk_sock {
  us : sockaddr_qrtr;
  peer : sockaddr_qrtr;
  state : Z;
  rx_queue_has_space : bool;
  signal_on_recv : bool;
  sk_receive_queue : list sk_buff;
  sk_err : Z;
  sk_established : bool;
  sk_zapped : bool;
  sk_dead : bool;
  sk_shutdown : Z;
  sk_refcnt : Z;
}.

#[export] Instance eta_qrtr_sock : Settable qrtr_sock := fun s =>
  mk_sock (us s) (peer s) (state s) (rx_queue_has_space s) (signal_on_recv s) (sk_receive_queue s)
    (sk_err s) (sk_established s) (sk_zapped s) (sk_dead s) (sk_shutdown s) (sk_refcnt s).

(** The waiters are the sockets to notify when the flow resumes. *)
Record qrtr_tx_flow := mk_flow { pending : Z; tx_failed : Z; waiters : list Z }.

#[export] Instance eta_qrtr_tx_flow : Settable qrtr_tx_flow := fun f => mk_flow (pending f) (tx_failed f) (waiters f).

(** The last two fields say whether the work items are queued to the node's
    worker thread. *)
Record qrtr_node := mk_qnode {
  n_ep : option Z;
  n_ref : Z;
  n_nid : Z;
  n_net_id : Z;
  n_hello_sent : Z;
  n_hello_rcvd : Z;
  n_tx_flow : xarray qrtr_tx_flow;
  n_rx_queue : list sk_buff;
  n_no_wake_svc : xarray unit;
  n_read_data : bool;
  n_say_hello : bool;
}.

#[export] Instance eta_af_qrtr_node : Settable qrtr_node := fun n =>
  mk_qnode (n_ep n) (n_ref n) (n_nid n) (n_net_id n) (n_hello_sent n) (n_hello_rcvd n) (n_tx_flow n)
    (n_rx_queue n) (n_no_wake_svc n) (n_read_data n) (n_say_hello n).

Inductive qevent :=
| EvXmit (ep : Z) (skb : sk_buff) (rc : Z)
| EvFree (skb : sk_buff)
| EvWakeup (node : Z)
| EvErrorReport (sk : Z).

(** The static state of the module. [q_epts_lock] counts the readers of the
    semaphore, or is -1 for a writer; [q_eps] is the field [node] of each
    endpoint. *)
Record qrtr := mk_qrtr {
  q_socks : gmap Z qrtr_sock;
  q_ports : xarray Z;
  q_ports_next : Z;
  q_heap : gmap Z qrtr_node;
  q_nodes : xarray Z;
  q_all_epts : list Z;
  q_epts_lock : Z;
  q_eps : gmap Z Z;
  q_local_nid : Z;
  q_backup_lo : nat;
  q_backup_hi : nat;
  q_backup_work : bool;
  q_allocs : nat;
  q_log : list qevent;
}.

#[export] Instance eta_qrtr : Settable qrtr := fun q =>
  mk_qrtr (q_socks q) (q_ports q) (q_ports_next q) (q_heap q) (q_nodes q) (q_all_epts q) (q_epts_lock q)
    (q_eps q) (q_local_nid q) (q_backup_lo q) (q_backup_hi q) (q_backup_work q) (q_allocs q) (q_log q).

(** What the rest of the kernel answers. [e_wait] ends a wait that may time out
    after that many turns of other threads, by a signal when the flag is set. *)
Record qrtr_env := mk_qenv {
  e_alloc : nat -> bool;                   (* does the k-th allocation succeed? *)
  e_rcv : qrtr_sock -> sk_buff -> Z;       (* the verdict of sock_queue_rcv_skb *)
  e_xmit : Z -> sk_buff -> nat -> Z;       (* the transport's xmit *)
  e_wait : nat * bool;                     (* the send timeout *)
  e_ns : qrtr_ns;                          (* the registry of the name service *)
  e_privileged : bool;                     (* capability or group of the caller *)
  e_uninit : nat -> list Z;                (* contents of fresh memory *)
  e_frags : Z -> list Z;                   (* fragments of an allocation *)
  e_pages : Z -> list Z;                   (* mapped pieces of a fragment *)
  e_skb_max_alloc : Z;                     (* SKB_MAX_ALLOC *)
  e_max_skb_frags : Z;                     (* MAX_SKB_FRAGS *)
}.

Section Qrtr.
Context {XC : XaCyclic} (env : qrtr_env).

Abbreviation M := (M qrtr).

Definition emit (e : qevent) : M unit := modify (fun q => q <| q_log := e :: q_log q |>).

Definition kfree_skb (skb : sk_buff) : M unit := emit (EvFree skb).

(** An allocation, as a fresh address. *)
Definition kmalloc : M (option Z) :=
  n <-- gets q_allocs ;;;
  modify (fun q => q <| q_allocs := S n |>) ;;;
  mret (if e_alloc env n then Some (Z.of_nat n + 32) else None).

Definition get_sock (s : Z) : M qrtr_sock := o <-- gets (fun q => q_socks q !! s) ;;; or_fault o.

Definition set_sock (s : Z) (x : qrtr_sock) : M unit := modify (fun q => q <| q_socks := <[s := x]> (q_socks q) |>).

Definition upd_sock (s : Z) (f : qrtr_sock -> qrtr_sock) : M unit := x <-- get_sock s ;;; set_sock s (f x).

Definition get_node (n : Z) : M qrtr_node := o <-- gets (fun q => q_heap q !! n) ;;; or_fault o.

Definition set_node (n : Z) (x : qrtr_node) : M unit := modify (fun q => q <| q_heap := <[n := x]> (q_heap q) |>).

Definition upd_node (n : Z) (f : qrtr_node -> qrtr_node) : M unit := x <-- get_node n ;;; set_node n (f x).

(** References to sockets; the last one frees the socket. *)
Definition sock_hold (s : Z) : M unit := upd_sock s (fun x => x <| sk_refcnt := sk_refcnt x + 1 |>).

Definition __sock_put (s : Z) : M unit := upd_sock s (fun x => x <| sk_refcnt := sk_refcnt x - 1 |>).

Definition sock_put (s : Z) : M unit :=
  x <-- get_sock s ;;;
  if sk_refcnt x =? 1 then modify (fun q => q <| q_socks := delete s (q_socks q) |>)
  else set_sock s (x <| sk_refcnt := sk_refcnt x - 1 |>).

(** The semaphore of the endpoint list. *)
Definition down_read : M unit :=
  wait_until (fun q => 0 <=? q_epts_lock q) ;;; modify (fun q => q <| q_epts_lock := q_epts_lock q + 1 |>).

Definition up_read : M unit := modify (fun q => q <| q_epts_lock := q_epts_lock q - 1 |>).

Definition down_write : M unit :=
  wait_until (fun q => q_epts_lock q =? 0) ;;; modify (fun q => q <| q_epts_lock := - 1 |>).

Definition up_write : M unit := modify (fun q => q <| q_epts_lock := 0 |>).

(** ** Ports *)

(** The index of a port: the argument is an [int], the index an [unsigned
    long]; the control port has index 0. *)
Definition port_index (port : Z) : Z := if u32 port =? QRTR_PORT_CTRL then 0 else u64 (s32 port).

Definition qrtr_port_lookup (port : Z) : M (option Z) :=
  ipc <-- gets (fun q => xa_load (q_ports q) (port_index port)) ;;;
  match ipc with
  | Some s => sock_hold s ;;; mret (Some s)
  | None => mret None
  end.

Definition qrtr_port_put (s : Z) : M unit := sock_put s.

(** ** Delivery to a socket *)

(** [sock_queue_rcv_skb]: the packet is queued and the receiver owns it, or an
    error is returned. *)
Definition sock_queue_rcv_skb (s : Z) (skb : sk_buff) : M Z :=
  x <-- get_sock s ;;;
  let rc := e_rcv env x skb in
  (if rc =? 0
   then set_sock s (x <| sk_receive_queue := sk_receive_queue x ++ [skb <| skb_sk := Some s |>] |>)
   else mret tt) ;;;
  mret rc.

(** Every turn of the loop but the last waits for a turn of another thread. *)
Fixpoint queue_ctrl_loop (fuel : nat) (s : Z) (skb : sk_buff) : M Z :=
  rc <-- sock_queue_rcv_skb s skb ;;;
  if (rc =? - ENOMEM) || (rc =? - ENOBUFS) then
    upd_sock s (fun x => x <| rx_queue_has_space := false |> <| signal_on_recv := true |>) ;;;
    wait_until (fun q => match q_socks q !! s with Some x => rx_queue_has_space x | None => true end) ;;;
    match fuel with
    | O => (fun _ => NoFuel)
    | S k => queue_ctrl_loop k s skb
    end
  else mret rc.

Definition qrtr_sock_queue_ctrl_skb (s : Z) (skb : sk_buff) : M Z := fun w =>
  queue_ctrl_loop (length (w_sched w)) s skb w.

(** The choice between the two that [qrtr_local_enqueue] and
    [qrtr_sock_queue_skb] make. *)
Definition queue_to_port (s : Z) (skb : sk_buff) : M Z :=
  x <-- get_sock s ;;;
  if sq_port (us x) =? QRTR_PORT_CTRL then qrtr_sock_queue_ctrl_skb s skb else sock_queue_rcv_skb s skb.

Definition qrtr_local_enqueue (skb : sk_buff) (type : Z) (from to : sockaddr_qrtr) : M Z :=
  ipc <-- qrtr_port_lookup (sq_port to) ;;;
  match ipc with
  | None => kfree_skb skb ;;; mret (- ENODEV)
  | Some s =>
      if bool_decide (skb_sk skb = Some s) then
        qrtr_port_put s ;;; kfree_skb skb ;;; mret (- ENODEV)
      else
        reset <-- match skb_sk skb with
                  | Some sk => x <-- get_sock sk ;;; mret (sk_err x =? ENETRESET)
                  | None => mret false
                  end ;;;
        if reset : bool then
          (match skb_sk skb with Some sk => emit (EvErrorReport sk) | None => mret tt end) ;;;
          qrtr_port_put s ;;; kfree_skb skb ;;; mret 0
        else
          let skb := skb <| skb_cb := (skb_cb skb) <| cb_src_node := sq_node from |>
                                                   <| cb_src_port := sq_port from |> |> in
          rc <-- queue_to_port s skb ;;;
          qrtr_port_put s ;;;
          if truth rc then kfree_skb skb ;;; mret (- ENOSPC) else mret 0
  end.

(** ** Flow control *)

(** The key of a flow, from [u32] halves. *)
Definition flow_key (node port : Z) : Z := Z.lor (u64 (Z.shiftl node 32)) port.

(** The key in [qrtr_tx_flow_failed], whose arguments are [int]s: both are
    sign-extended. *)
Definition flow_key_int (node port : Z) : Z := Z.lor (u64 (Z.shiftl (u64 (s32 node)) 32)) (u64 (s32 port)).

Definition get_flow (n key : Z) : M (option qrtr_tx_flow) :=
  x <-- get_node n ;;; mret (xa_load (n_tx_flow x) key).

Definition set_flow (n key : Z) (f : qrtr_tx_flow) : M unit :=
  upd_node n (fun x => x <| n_tx_flow := xa_store (n_tx_flow x) key f |>).

(** The control packet in a buffer; a short one leaves the zeroes. *)
Definition copy_ctrl_pkt (skb : sk_buff) (fill : list Z) : list Z :=
  if sizeof_ctrl_pkt <=? skb_len skb then take 20 (skb_bytes skb) else fill.

Definition pkt_word (k : nat) (bs : list Z) : Z := le_val (take 4 (drop (4 * k) bs)).

Definition alloc_skb : M bool := p <-- kmalloc ;;; mret (match p with Some _ => true | None => false end).

Definition qrtr_tx_resume (n : Z) (skb : sk_buff) : M unit :=
  let pkt := copy_ctrl_pkt skb (replicate 20 0) in
  if negb (pkt_word 0 pkt =? QRTR_TYPE_RESUME_TX) then mret tt
  else
    let src := mk_sq (pkt_word 1 pkt) (pkt_word 2 pkt) in
    let key := flow_key (sq_node src) (sq_port src) in
    flow <-- get_flow n key ;;;
    match flow with
    | None => mret tt
    | Some f =>
        set_flow n key (f <| pending := 0 |> <| waiters := [] |>) ;;;
        for_each (waiters f) (fun sk =>
          b <-- alloc_skb ;;;
          (if b : bool then
             x <-- get_sock sk ;;;
             qrtr_local_enqueue (mk_skb None zero_cb [] 0 []) QRTR_TYPE_RESUME_TX src (us x) ;;; mret tt
           else mret tt) ;;;
          sock_put sk) ;;;
        kfree_skb skb
    end.

(** The condition a sender waits for. *)
Definition flow_open (n key : Z) (q : qrtr) : bool :=
  match q_heap q !! n with
  | Some x =>
      match xa_load (n_tx_flow x) key with
      | Some f => (pending f <? QRTR_TX_FLOW_HIGH) || truth (tx_failed f) || bool_decide (n_ep x = None)
      | None => true
      end
  | None => true
  end.

(** [wait_event_interruptible_lock_irq_timeout]: negative for a signal, 0 for a
    timeout, 1 when the condition holds. *)
Definition wait_flow (n key : Z) (dontwait : bool) : M Z :=
  let '(turns, signal) := if dontwait then (0%nat, false) else e_wait env in
  ok <-- wait_upto turns (flow_open n key) ;;;
  mret (if ok : bool then 1 else if signal : bool then - ERESTARTSYS else 0).

(** The flow, which is created when it is new. *)
Definition find_flow (n key : Z) : M bool :=
  flow <-- get_flow n key ;;;
  match flow with
  | Some _ => mret true
  | None =>
      p <-- alloc_skb ;;;
      if p : bool then
        ins <-- alloc_skb ;;;
        if ins : bool then set_flow n key (mk_flow 0 0 []) ;;; mret true else mret false
      else mret false
  end.

Definition qrtr_tx_wait (n : Z) (to : sockaddr_qrtr) (sk type : Z) (dontwait : bool) : M Z :=
  let key := flow_key (sq_node to) (sq_port to) in
  if negb (type =? QRTR_TYPE_DATA) then mret 0
  else
    found <-- find_flow n key ;;;
    if negb found then mret 1
    else
      ret <-- wait_flow n key dontwait ;;;
      x <-- get_node n ;;;
      o <-- get_flow n key ;;;
      f <-- or_fault o ;;;
      if ret <? 0 then mret ret
      else if bool_decide (n_ep x = None) then mret (- EPIPE)
      else if truth (tx_failed f) then set_flow n key (f <| tx_failed := 0 |>) ;;; mret 1
      else if (ret =? 0) && (QRTR_TX_FLOW_HIGH <=? pending f) then
        if bool_decide (sk ∈ waiters f) then mret (- EAGAIN)
        else
          p <-- alloc_skb ;;;
          if negb p then mret (- ENOMEM)
          else
            sock_hold sk ;;;
            set_flow n key (f <| waiters := waiters f ++ [sk] |>) ;;; mret (- EAGAIN)
      else
        set_flow n key (f <| pending := pending f + 1 |>) ;;;
        mret (b2z (pending f + 1 =? QRTR_TX_FLOW_LOW)).

Definition qrtr_tx_flow_failed (n dest_node dest_port : Z) : M unit :=
  let key := flow_key_int dest_node dest_port in
  flow <-- get_flow n key ;;;
  match flow with
  | Some f => set_flow n key (f <| tx_failed := 1 |>)
  | None => mret tt
  end.

(** ** Padding *)

Record pad_state := mk_pad { pd_count : Z; pd_len : Z; pd_data_len : Z; pd_padding : Z }.

(** The bytes [memset] clears start at [pd_count + d_off], which must be the end
    of the data, and lie in the piece of [p_len] bytes. *)
Definition pad_memset (s : pad_state) (d_off n p_len : Z) : bool :=
  (pd_count s + d_off =? pd_len s) && (0 <=? d_off) && (d_off + n <=? p_len).

(** The pieces of a fragment that holds all the padding. *)
Fixpoint pad_fit (pages : list Z) (padto : Z) (s : pad_state) : option pad_state :=
  match pages with
  | [] => Some s
  | p_len :: pages' =>
      if pd_count s + p_len <? padto then
        pad_fit pages' padto (mk_pad (pd_count s + p_len) (pd_len s) (pd_data_len s) (pd_padding s))
      else
        let d_off := pd_len s - pd_count s in
        if pad_memset s d_off (pd_padding s) p_len
        then Some (mk_pad (pd_count s + d_off + pd_padding s) padto (pd_data_len s + pd_padding s) (pd_padding s))
        else None
  end.

(** The pieces of a fragment across which the padding is split. *)
Fixpoint pad_split (pages : list Z) (padto : Z) (s : pad_state) : option pad_state :=
  match pages with
  | [] => Some s
  | p_len :: pages' =>
      if pd_count s + p_len <? pd_len s then
        pad_split pages' padto (mk_pad (pd_count s + p_len) (pd_len s) (pd_data_len s) (pd_padding s))
      else if pd_count s + p_len <? padto then
        let d_off := pd_len s - pd_count s in
        let d_len := p_len - d_off in
        let padding := pd_padding s - d_len in
        if pad_memset s d_off d_len p_len
        then pad_split pages' padto (mk_pad (pd_count s + p_len) (pd_len s + d_len) (pd_data_len s + padding) padding)
        else None
      else
        let d_off := if pd_count s <? pd_len s then pd_len s - pd_count s else 0 in
        if pad_memset s d_off (pd_padding s) p_len
        then pad_split pages' padto (mk_pad (pd_count s + d_off + pd_padding s) (pd_len s + pd_padding s)
                                       (pd_data_len s + pd_padding s) (pd_padding s))
        else None
  end.

(** The loop over the fragments. *)
Fixpoint pad_frags (frags : list Z) (padto : Z) (s : pad_state) : option pad_state :=
  match frags with
  | [] => Some s
  | f_len :: frags' =>
      if pd_count s + f_len <? pd_len s then
        pad_frags frags' padto (mk_pad (pd_count s + f_len) (pd_len s) (pd_data_len s) (pd_padding s))
      else
        match (if padto <=? pd_count s + f_len then pad_fit else pad_split) (e_pages env f_len) padto s with
        | None => None
        | Some s' => if pd_len s' =? padto then Some s' else pad_frags frags' padto s'
        end
  end.

(** The buffer with the zeroes appended; [None] is a write outside a piece. *)
Definition qrtr_pad_word_pskb (skb : sk_buff) : option sk_buff :=
  let padto := ALIGN (skb_len skb) 4 in
  let padding_len := padto - skb_len skb in
  if padding_len =? 0 then Some skb
  else
    s ← pad_frags (skb_frags skb) padto
          (mk_pad (skb_len skb - skb_data_len skb) (skb_len skb) (skb_data_len skb) padding_len);
    Some (skb <| skb_bytes := skb_bytes skb ++ replicate (Z.to_nat (pd_len s - skb_len skb)) 0 |>
              <| skb_data_len := pd_data_len s |>).

(** [skb_put_padto] of a linear buffer: zeroes up to a length, which may need
    memory. The buffer is freed when there is none. *)
Definition skb_put_padto (skb : sk_buff) (to : Z) : M (option sk_buff) :=
  if to <=? skb_len skb then mret (Some skb)
  else
    b <-- alloc_skb ;;;
    if b : bool
    then mret (Some (skb <| skb_bytes := skb_bytes skb ++ replicate (Z.to_nat (to - skb_len skb)) 0 |>))
    else kfree_skb skb ;;; mret None.

(** ** Sending through a node *)

(** The header [qrtr_node_enqueue] pushes. *)
Definition enqueue_hdr (nid type : Z) (from to : sockaddr_qrtr) (len confirm_rx : Z) : qrtr_hdr_v1 :=
  let ctrl := sq_port to =? QRTR_PORT_CTRL in
  mk_hdr_v1 QRTR_PROTO_VER_1 type (sq_node from) (sq_port from) (b2z (truth confirm_rx)) (u32 len)
    (if ctrl then nid else sq_node to) (if ctrl then QRTR_PORT_CTRL else sq_port to).

(** The hand-over to the transport. *)
Definition xmit_skb (n : Z) (skb : sk_buff) : M Z :=
  x <-- get_node n ;;;
  match n_ep x with
  | None => kfree_skb skb ;;; mret (- ENODEV)
  | Some ep =>
      k <-- gets (fun q => length (q_log q)) ;;;
      let rc := e_xmit env ep skb k in
      emit (EvXmit ep skb rc) ;;; mret rc
  end.

(** The gate on the HELLO exchange: whether the packet goes on. *)
Definition hello_gate (n type : Z) : M bool :=
  x <-- get_node n ;;;
  let hello := type =? QRTR_TYPE_HELLO in
  let said := truth (n_hello_sent x) in
  if negb said && negb hello then mret false
  else if said && hello then mret false
  else
    (if negb said && hello then set_node n (x <| n_hello_sent := n_hello_sent x + 1 |>) else mret tt) ;;;
    mret true.

Definition qrtr_node_enqueue (n : Z) (skb : sk_buff) (type : Z) (from to : sockaddr_qrtr) (dontwait : bool) : M Z :=
  let len := skb_len skb in
  pass <-- hello_gate n type ;;;
  if negb pass then kfree_skb skb ;;; mret 0
  else
    confirm_rx <-- match skb_sk skb with
                   | None => mret (cb_confirm_rx (skb_cb skb))
                   | Some sk => qrtr_tx_wait n to sk type dontwait
                   end ;;;
    if confirm_rx <? 0 then kfree_skb skb ;;; mret confirm_rx
    else
      x <-- get_node n ;;;
      let skb := skb <| skb_bytes := hdr_v1_bytes (enqueue_hdr (n_nid x) type from to len confirm_rx)
                                     ++ skb_bytes skb |> in
      padded <-- (if truth (skb_data_len skb)
                  then o <-- or_fault (qrtr_pad_word_pskb skb) ;;; mret (Some o)
                  else skb_put_padto skb (ALIGN len 4 + sizeof_hdr_v1)) ;;;
      rc <-- match padded with
             | None => mret (- ENOMEM)
             | Some skb => xmit_skb n skb
             end ;;;
      (if truth rc && truth confirm_rx then qrtr_tx_flow_failed n (sq_node to) (sq_port to) else mret tt) ;;;
      (if truth rc && (type =? QRTR_TYPE_HELLO)
       then upd_node n (fun x => x <| n_hello_sent := n_hello_sent x - 1 |> <| n_say_hello := true |>)
       else mret tt) ;;;
      mret rc.

(** ** Nodes *)

(** Free a node whose last reference is gone; the semaphore is held for
    writing. The worker thread finishes first. *)
Definition __qrtr_node_release (n : Z) : M unit :=
  modify (fun q => q <| q_nodes := filter (fun e => snd e <> n) (q_nodes q) |>
                     <| q_all_epts := filter (.≠ n) (q_all_epts q) |>) ;;;
  up_write ;;;
  wait_until (fun q => match q_heap q !! n with
                       | Some x => negb (n_read_data x) && negb (n_say_hello x)
                       | None => true
                       end) ;;;
  x <-- get_node n ;;;
  for_each (n_rx_queue x) kfree_skb ;;;
  for_each (n_tx_flow x) (fun e =>
    upd_node n (fun x => x <| n_tx_flow := xa_erase (n_tx_flow x) (fst e) |>) ;;;
    for_each (waiters (snd e)) sock_put) ;;;
  modify (fun q => q <| q_heap := delete n (q_heap q) |>).

Definition qrtr_node_acquire (n : Z) : M unit := upd_node n (fun x => x <| n_ref := n_ref x + 1 |>).

(** The semaphore is taken before the count can reach 0. *)
Definition kref_put_rwsem_lock (n : Z) (release : M unit) : M unit :=
  x <-- get_node n ;;;
  if negb (n_ref x =? 1) then set_node n (x <| n_ref := n_ref x - 1 |>)
  else
    down_write ;;;
    x <-- get_node n ;;;
    set_node n (x <| n_ref := n_ref x - 1 |>) ;;;
    if n_ref x - 1 =? 0 then release else up_write.

Definition qrtr_node_release (node : option Z) : M unit :=
  match node with
  | None => mret tt
  | Some n => kref_put_rwsem_lock n (__qrtr_node_release n)
  end.

Definition qrtr_node_lookup (nid : Z) : M (option Z) :=
  down_read ;;;
  node <-- gets (fun q => xa_load (q_nodes q) nid) ;;;
  (match node with Some n => qrtr_node_acquire n | None => mret tt end) ;;;
  up_read ;;; mret node.

(** The memory of the tree is allocated without waiting. *)
Definition qrtr_node_assign (n nid : Z) : M unit :=
  x <-- get_node n ;;;
  if (nid =? n_nid x) || (nid =? QRTR_EP_NID_AUTO) then mret tt
  else
    old <-- gets (fun q => xa_load (q_nodes q) nid) ;;;
    (match old with
     | Some _ => mret tt
     | None =>
         b <-- alloc_skb ;;;
         if b : bool then modify (fun q => q <| q_nodes := xa_store (q_nodes q) nid n |>) else mret tt
     end) ;;;
    if n_nid x =? QRTR_EP_NID_AUTO then set_node n (x <| n_nid := nid |>) else mret tt.

(** ** Backup buffers *)

(** The number of buffers after a refill loop that stops at the first failure. *)
Fixpoint refill (fuel have want : nat) : M nat :=
  if (have <? want)%nat then
    b <-- alloc_skb ;;;
    if b : bool then
      match fuel with
      | O => (fun _ => NoFuel)
      | S k => refill k (S have) want
      end
    else mret have
  else mret have.

Definition qrtr_alloc_backup : M unit :=
  modify (fun q => q <| q_backup_work := false |>) ;;;
  lo <-- gets q_backup_lo ;;;
  lo <-- refill QRTR_BACKUP_LO_NUM lo QRTR_BACKUP_LO_NUM ;;;
  modify (fun q => q <| q_backup_lo := lo |>) ;;;
  hi <-- gets q_backup_hi ;;;
  hi <-- refill QRTR_BACKUP_HI_NUM hi QRTR_BACKUP_HI_NUM ;;;
  modify (fun q => q <| q_backup_hi := hi |>).

(** The size of the buffer taken, if any. *)
Definition qrtr_get_backup (len : Z) : M (option Z) :=
  lo <-- gets q_backup_lo ;;;
  hi <-- gets q_backup_hi ;;;
  if len <? QRTR_BACKUP_LO_SIZE then
    match lo with
    | O => mret None
    | S k => modify (fun q => q <| q_backup_lo := k |> <| q_backup_work := true |>) ;;; mret (Some QRTR_BACKUP_LO_SIZE)
    end
  else if len <? QRTR_BACKUP_HI_SIZE then
    match hi with
    | O => mret None
    | S k => modify (fun q => q <| q_backup_hi := k |> <| q_backup_work := true |>) ;;; mret (Some QRTR_BACKUP_HI_SIZE)
    end
  else mret None.

Definition qrtr_backup_init : M unit :=
  modify (fun q => q <| q_backup_lo := 0%nat |> <| q_backup_hi := 0%nat |> <| q_backup_work := true |>).

Definition qrtr_backup_deinit : M unit :=
  modify (fun q => q <| q_backup_lo := 0%nat |> <| q_backup_hi := 0%nat |> <| q_backup_work := false |>).

(** ** Packets from an endpoint *)

(** The reports read the header of the packet whatever its length. *)
Definition qrtr_print_skb_failure_reason (data : list Z) : M unit :=
  or_fault (qrtr_parse_header data) ;;; mret tt.

Definition qrtr_print_wakeup_reason (data : list Z) : M unit :=
  r <-- or_fault (qrtr_parse_header data) ;;;
  match r with
  | Err _ => fault
  | Ok (_, hdrlen, size) =>
      let size := if size <? 8 then size else 8 in
      if hdrlen + size <=? Z.of_nat (length data) then mret tt else fault
  end.

(** The buffer for a packet: its fragments, from the allocator or a backup. *)
Definition post_alloc (data : list Z) : M (option (list Z)) :=
  let len := Z.of_nat (length data) in
  b <-- alloc_skb ;;;
  if b : bool then mret (Some (e_frags env len))
  else
    o <-- qrtr_get_backup len ;;;
    match o with
    | Some size => mret (Some (e_frags env size))
    | None => qrtr_print_skb_failure_reason data ;;; mret None
    end.

(** The dispatch of an accepted packet. *)
Definition post_deliver (n : Z) (skb : sk_buff) : M Z :=
  let cb := skb_cb skb in
  local <-- gets q_local_nid ;;;
  let svc_id := qrtr_get_service_id (e_ns env) (cb_src_node cb) (cb_src_port cb) in
  if negb (cb_type cb =? QRTR_TYPE_DATA) || negb (cb_dst_node cb =? local) then
    upd_node n (fun x => x <| n_rx_queue := n_rx_queue x ++ [skb] |> <| n_read_data := true |>) ;;;
    emit (EvWakeup n) ;;; mret 0
  else
    ipc <-- qrtr_port_lookup (cb_dst_port cb) ;;;
    match ipc with
    | None => kfree_skb skb ;;; mret (- ENODEV)
    | Some s =>
        rc <-- sock_queue_rcv_skb s skb ;;;
        if truth rc then qrtr_port_put s ;;; kfree_skb skb ;;; mret (- EINVAL)
        else
          x <-- get_node n ;;;
          (match xa_load (n_no_wake_svc x) (u64 svc_id) with
           | None => emit (EvWakeup n)
           | Some _ => mret tt
           end) ;;;
          qrtr_port_put s ;;; mret 0
    end.

Definition qrtr_endpoint_post (ep : Z) (data : list Z) : M Z :=
  let len := Z.of_nat (length data) in
  if (len =? 0) || truth (Z.land len 3) then mret (- EINVAL)
  else
    frags <-- post_alloc data ;;;
    match frags with
    | None => mret (- ENOMEM)
    | Some frags =>
        let skb0 := mk_skb None zero_cb [] 0 frags in
        let err := kfree_skb skb0 ;;; mret (- EINVAL) in
        h <-- or_fault (post_header data) ;;;
        match h with
        | Err _ => err
        | Ok (cb, hdrlen, size) =>
            match post_checks len cb hdrlen size with
            | None => err
            | Some cb =>
                let payload := take (Z.to_nat size) (drop (Z.to_nat hdrlen) data) in
                (if hdrlen + size <=? len then mret tt else fault) ;;;
                let skb := mk_skb None cb payload size frags in
                o <-- gets (fun q => q_eps q !! ep) ;;;
                n <-- or_fault o ;;;
                qrtr_node_assign n (cb_src_node cb) ;;;
                (if cb_type cb =? QRTR_TYPE_NEW_SERVER
                 then nid <-- or_fault (field 4 12 payload) ;;; qrtr_node_assign n nid
                 else mret tt) ;;;
                post_deliver n skb
            end
        end
    end.

(** ** Forwarding *)

(** Nodes are compared by identity; [net_id]s are [unsigned int]s and their
    difference is read as an [int]. *)
Definition qrtr_must_forward (src dst : option (Z * qrtr_node)) (type : Z) : bool :=
  match src, dst with
  | None, _ => true
  | _, None => false
  | Some (i, s), Some (j, d) =>
      if (type =? QRTR_TYPE_HELLO) || (type =? QRTR_TYPE_RESUME_TX) then false
      else if (j =? i) || (n_nid d =? QRTR_EP_NID_AUTO) then false
      else 1 <? Z.abs (s32 (n_net_id d - n_net_id s))
  end.

Definition node_view (node : option Z) : M (option (Z * qrtr_node)) :=
  match node with
  | None => mret None
  | Some n => x <-- get_node n ;;; mret (Some (n, x))
  end.

(** The loop over the endpoints, which ends when a copy fails. *)
Fixpoint fwd_loop (epts : list Z) (src : Z) (skb : sk_buff) : M unit :=
  match epts with
  | [] => mret tt
  | n :: epts' =>
      let cb := skb_cb skb in
      s <-- node_view (Some src) ;;;
      d <-- node_view (Some n) ;;;
      x <-- get_node n ;;;
      if negb (qrtr_must_forward s d (cb_type cb)) then fwd_loop epts' src skb
      else
        b <-- alloc_skb ;;;
        if negb b then mret tt
        else
          qrtr_node_enqueue n (skb <| skb_sk := None |>) (cb_type cb) (mk_sq (cb_src_node cb) (cb_src_port cb))
            (mk_sq (n_nid x) QRTR_PORT_CTRL) false ;;;
          fwd_loop epts' src skb
  end.

Definition qrtr_fwd_ctrl_pkt (src : Z) (skb : sk_buff) : M unit :=
  down_read ;;;
  epts <-- gets q_all_epts ;;;
  fwd_loop epts src skb ;;;
  up_read.

Definition qrtr_fwd_pkt (skb : sk_buff) (cb : qrtr_cb) : M unit :=
  let from := mk_sq (cb_src_node cb) (cb_src_port cb) in
  let to := mk_sq (cb_dst_node cb) (cb_dst_port cb) in
  node <-- qrtr_node_lookup (cb_dst_node cb) ;;;
  match node with
  | None => kfree_skb skb
  | Some n => qrtr_node_enqueue n skb (cb_type cb) from to false ;;; qrtr_node_release node
  end.

(** A second HELLO is dropped. *)
Definition qrtr_sock_queue_skb (n : Z) (skb : sk_buff) (s : Z) : M unit :=
  x <-- get_node n ;;;
  if (cb_type (skb_cb skb) =? QRTR_TYPE_HELLO) && truth (n_hello_rcvd x) then kfree_skb skb
  else
    (if cb_type (skb_cb skb) =? QRTR_TYPE_HELLO
     then set_node n (x <| n_hello_rcvd := n_hello_rcvd x + 1 |>) else mret tt) ;;;
    rc <-- queue_to_port s skb ;;;
    if truth rc then kfree_skb skb else mret tt.

(** One packet of the receive queue. *)
Definition rx_one (n : Z) (skb : sk_buff) : M unit :=
  let cb := skb_cb skb in
  local <-- gets q_local_nid ;;;
  (if negb (cb_type cb =? QRTR_TYPE_DATA) then qrtr_fwd_ctrl_pkt n skb else mret tt) ;;;
  if cb_type cb =? QRTR_TYPE_RESUME_TX then
    if negb (cb_dst_node cb =? local) then qrtr_fwd_pkt skb cb else qrtr_tx_resume n skb
  else if negb (cb_dst_node cb =? local) && (cb_type cb =? QRTR_TYPE_DATA) then qrtr_fwd_pkt skb cb
  else
    ipc <-- qrtr_port_lookup (cb_dst_port cb) ;;;
    match ipc with
    | None => kfree_skb skb
    | Some s => qrtr_sock_queue_skb n skb s ;;; qrtr_port_put s
    end.

(** The loop of [qrtr_node_rx_work] until the queue is empty. *)
Fixpoint rx_work_loop (fuel : nat) (n : Z) : M unit :=
  x <-- get_node n ;;;
  match n_rx_queue x with
  | [] => mret tt
  | skb :: rest =>
      set_node n (x <| n_rx_queue := rest |>) ;;;
      rx_one n skb ;;;
      match fuel with
      | O => (fun _ => NoFuel)
      | S k => rx_work_loop k n
      end
  end.

Definition qrtr_node_rx_work (fuel : nat) (n : Z) : M unit := rx_work_loop fuel n.

(** The bytes of a control packet in a fresh buffer. *)
Definition qrtr_alloc_ctrl_packet (pkt : qrtr_ctrl_pkt) : M (option sk_buff) :=
  b <-- alloc_skb ;;;
  mret (if b : bool then Some (mk_skb None zero_cb (ctrl_pkt_bytes pkt) 0 []) else None).

Definition qrtr_hello_work (n : Z) : M unit :=
  ctrl <-- qrtr_port_lookup QRTR_PORT_CTRL ;;;
  match ctrl with
  | None => mret tt
  | Some c =>
      o <-- qrtr_alloc_ctrl_packet (mk_pkt QRTR_TYPE_HELLO 0 0 0 0) ;;;
      match o with
      | None => qrtr_port_put c
      | Some skb =>
          local <-- gets q_local_nid ;;;
          x <-- get_node n ;;;
          qrtr_node_enqueue n skb QRTR_TYPE_HELLO (mk_sq local QRTR_PORT_CTRL) (mk_sq (n_nid x) QRTR_PORT_CTRL) false ;;;
          qrtr_port_put c
      end
  end.

(** A turn of a node's worker thread: the item is taken off before it runs. *)
Definition qrtr_kworker (fuel : nat) (n : Z) : M unit :=
  x <-- get_node n ;;;
  (if n_read_data x then set_node n (x <| n_read_data := false |>) ;;; qrtr_node_rx_work fuel n else mret tt) ;;;
  x <-- get_node n ;;;
  if n_say_hello x then set_node n (x <| n_say_hello := false |>) ;;; qrtr_hello_work n else mret tt.

(** ** Endpoints *)

(** The services that do not wake the system; [Err] is the failed insertion. *)
Fixpoint no_wake_array (l : list Z) (x : xarray unit) : M (result (xarray unit)) :=
  match l with
  | [] => mret (Ok x)
  | svc :: l' =>
      match xa_load x svc with
      | Some _ => mret (Err (- EBUSY))
      | None =>
          b <-- alloc_skb ;;;
          if b : bool then no_wake_array l' (xa_store x svc tt) else mret (Err (- ENOMEM))
      end
  end.

(** [task] is whether the worker thread could be started. *)
Definition qrtr_endpoint_register (ep : option Z) (has_xmit task : bool) (net_id : Z) (no_wake : list Z) : M Z :=
  match ep with
  | None => mret (- EINVAL)
  | Some ep =>
      if negb has_xmit then mret (- EINVAL)
      else
        p <-- kmalloc ;;;
        match p with
        | None => mret (- ENOMEM)
        | Some n =>
            if negb task then mret (- ENOMEM)
            else
              r <-- no_wake_array no_wake [] ;;;
              match r with
              | Err rc => mret rc
              | Ok svcs =>
                  set_node n (mk_qnode (Some ep) 1 QRTR_EP_NID_AUTO 0 0 0 [] [] svcs false false) ;;;
                  qrtr_node_assign n QRTR_EP_NID_AUTO ;;;
                  upd_node n (fun x => x <| n_net_id := net_id |>) ;;;
                  down_write ;;;
                  modify (fun q => q <| q_all_epts := n :: q_all_epts q |>) ;;;
                  up_write ;;;
                  modify (fun q => q <| q_eps := <[ep := n]> (q_eps q) |>) ;;;
                  upd_node n (fun x => x <| n_say_hello := true |>) ;;;
                  mret 0
              end
        end
  end.

(** [false]: the early return, which leaves the semaphore held. *)
Fixpoint fwd_del_proc_loop (epts : list Z) (src nid : Z) : M bool :=
  match epts with
  | [] => mret true
  | n :: epts' =>
      s <-- node_view (Some src) ;;;
      d <-- node_view (Some n) ;;;
      sx <-- get_node src ;;;
      x <-- get_node n ;;;
      if negb (qrtr_must_forward s d QRTR_TYPE_DEL_PROC) then fwd_del_proc_loop epts' src nid
      else
        let proc rsvd := mk_pkt QRTR_TYPE_DEL_PROC rsvd nid 0 0 in
        sum <-- or_fault (qrtr_calc_checksum (Some (proc QRTR_DEL_PROC_MAGIC))) ;;;
        o <-- qrtr_alloc_ctrl_packet (proc sum) ;;;
        match o with
        | None => mret false
        | Some skb =>
            qrtr_node_enqueue n skb QRTR_TYPE_DEL_PROC (mk_sq (n_nid sx) QRTR_PORT_CTRL)
              (mk_sq (n_nid x) QRTR_PORT_CTRL) false ;;;
            fwd_del_proc_loop epts' src nid
        end
  end.

Definition qrtr_fwd_del_proc (src nid : Z) : M unit :=
  down_read ;;;
  epts <-- gets q_all_epts ;;;
  done <-- fwd_del_proc_loop epts src nid ;;;
  if done : bool then up_read else mret tt.

(** The first entry of an array from an index on. *)
Fixpoint xa_find {A : Type} (x : xarray A) (i : Z) : option (Z * A) :=
  match x with
  | [] => None
  | (k, v) :: x' => if i <=? k then Some (k, v) else xa_find x' i
  end.

(** The loop over the ids of a node, with the lock dropped in the body. *)
Fixpoint unregister_loop (fuel : nat) (n i : Z) : M unit :=
  e <-- gets (fun q => xa_find (q_nodes q) i) ;;;
  match e with
  | None => mret tt
  | Some (nid, m) =>
      (if m =? n then
         local <-- gets q_local_nid ;;;
         o <-- qrtr_alloc_ctrl_packet (mk_pkt QRTR_TYPE_BYE 0 0 0 0) ;;;
         (match o with
          | Some skb => qrtr_local_enqueue skb QRTR_TYPE_BYE (mk_sq nid QRTR_PORT_CTRL) (mk_sq local QRTR_PORT_CTRL) ;;; mret tt
          | None => mret tt
          end) ;;;
         qrtr_fwd_del_proc n nid
       else mret tt) ;;;
      match fuel with
      | O => (fun _ => NoFuel)
      | S k => unregister_loop k n (nid + 1)
      end
  end.

(** Waking the senders has no effect of its own: each evaluates its condition
    again. *)
Definition qrtr_endpoint_unregister (fuel : nat) (ep : Z) : M unit :=
  o <-- gets (fun q => q_eps q !! ep) ;;;
  n <-- or_fault o ;;;
  upd_node n (fun x => x <| n_ep := None |>) ;;;
  unregister_loop fuel n 0 ;;;
  qrtr_node_release (Some n) ;;;
  modify (fun q => q <| q_eps := delete ep (q_eps q) |>).

(** ** Broadcast *)

(** The loop over the endpoints, which ends when a copy fails. *)
Fixpoint bcast_loop (epts : list Z) (skb : sk_buff) (type : Z) (from to : sockaddr_qrtr) (dontwait : bool) : M unit :=
  match epts with
  | [] => mret tt
  | n :: epts' =>
      x <-- get_node n ;;;
      if (n_nid x =? QRTR_EP_NID_AUTO) && negb (type =? QRTR_TYPE_HELLO)
      then bcast_loop epts' skb type from to dontwait
      else
        b <-- alloc_skb ;;;
        if negb b then mret tt
        else qrtr_node_enqueue n skb type from to dontwait ;;; bcast_loop epts' skb type from to dontwait
  end.

Definition qrtr_bcast_enqueue (skb : sk_buff) (type : Z) (from to : sockaddr_qrtr) (dontwait : bool) : M Z :=
  down_read ;;;
  epts <-- gets q_all_epts ;;;
  bcast_loop epts skb type from to dontwait ;;;
  up_read ;;;
  qrtr_local_enqueue skb type from to ;;; mret 0.

(** ** Binding *)

(** The notification of a port that goes away. *)
Definition qrtr_send_del_client (s : Z) : M unit :=
  x <-- get_sock s ;;;
  o <-- qrtr_alloc_ctrl_packet (mk_pkt QRTR_TYPE_DEL_CLIENT (sq_node (us x)) (sq_port (us x)) 0 0) ;;;
  match o with
  | None => mret tt
  | Some skb =>
      let skb := skb <| skb_sk := Some s |> in
      let to := mk_sq QRTR_NODE_BCAST QRTR_PORT_CTRL in
      let type := QRTR_TYPE_DEL_CLIENT in
      if state x =? QRTR_STATE_MULTI then qrtr_bcast_enqueue skb type (us x) to false ;;; mret tt
      else
        (if QRTR_STATE_INIT <? state x then
           node <-- qrtr_node_lookup (u32 (state x)) ;;;
           match node with
           | None => mret tt
           | Some n =>
               b <-- alloc_skb ;;;
               (if b : bool then qrtr_node_enqueue n skb type (us x) to false ;;; mret tt else mret tt) ;;;
               qrtr_node_release node
           end
         else mret tt) ;;;
        qrtr_local_enqueue skb type (us x) to ;;; mret tt
  end.

Definition qrtr_port_remove (s : Z) : M unit :=
  x <-- get_sock s ;;;
  qrtr_send_del_client s ;;;
  __sock_put s ;;;
  modify (fun q => q <| q_ports := xa_erase (q_ports q) (port_index (sq_port (us x))) |>).

(** [xa_insert] *)
Definition ports_insert (s i : Z) : M Z :=
  o <-- gets (fun q => xa_load (q_ports q) i) ;;;
  match o with
  | Some _ => mret (- EBUSY)
  | None =>
      b <-- alloc_skb ;;;
      if b : bool then modify (fun q => q <| q_ports := xa_store (q_ports q) i s |>) ;;; mret 0
      else mret (- ENOMEM)
  end.

(** The port as an [int]; the result is a port or an error. *)
Definition qrtr_port_assign (s port : Z) : M (result Z) :=
  r <-- (if port =? 0 then
           q <-- gets (fun q => q) ;;;
           match xa_alloc_cyclic (q_ports q) QRTR_MIN_EPH_SOCKET QRTR_MAX_EPH_SOCKET (q_ports_next q) with
           | None => mret (Err (- EBUSY))
           | Some (i, next) =>
               b <-- alloc_skb ;;;
               if b : bool then
                 modify (fun q => q <| q_ports := xa_store (q_ports q) i s |> <| q_ports_next := next |>) ;;; mret (Ok i)
               else mret (Err (- ENOMEM))
           end
         else if (port <? QRTR_MIN_EPH_SOCKET) && negb (e_privileged env) then mret (Err (- EACCES))
         else
           rc <-- ports_insert s (port_index port) ;;;
           mret (if truth rc then Err rc else Ok port)) ;;;
  match r with
  | Err e => mret (Err (if e =? - EBUSY then - EADDRINUSE else e))
  | Ok p => sock_hold s ;;; mret (Ok p)
  end.

(** Every port from index 1 on. *)
Definition qrtr_reset_ports : M unit :=
  ports <-- gets q_ports ;;;
  for_each (filter (fun e => 1 <= fst e) ports) (fun e =>
    upd_sock (snd e) (fun x => x <| sk_err := ENETRESET |>) ;;; emit (EvErrorReport (snd e))).

Definition __qrtr_bind (s sq_port_ : Z) (zapped : bool) : M Z :=
  x <-- get_sock s ;;;
  if negb zapped && (sq_port_ =? sq_port (us x)) then mret 0
  else
    r <-- qrtr_port_assign s (s32 sq_port_) ;;;
    match r with
    | Err rc => mret rc
    | Ok port =>
        (if u32 port =? QRTR_PORT_CTRL then qrtr_reset_ports else mret tt) ;;;
        (if negb zapped then qrtr_port_remove s else mret tt) ;;;
        upd_sock s (fun x => x <| us := mk_sq (sq_node (us x)) (u32 port) |> <| sk_zapped := false |>) ;;;
        mret 0
    end.

Definition qrtr_autobind (s : Z) : M Z :=
  x <-- get_sock s ;;;
  if negb (sk_zapped x) then mret 0 else __qrtr_bind s 0 true.

(** An address from a caller: its length, its family and its contents. *)
Record msg_addr := mk_addr { ma_len : Z; ma_family : Z; ma_sq : sockaddr_qrtr }.

Definition sizeof_sockaddr_qrtr : Z := 12.

Definition addr_ok (a : msg_addr) : bool := negb (ma_len a <? sizeof_sockaddr_qrtr) && (ma_family a =? AF_QIPCRTR).

Definition qrtr_bind (s : Z) (a : msg_addr) : M Z :=
  x <-- get_sock s ;;;
  if negb (addr_ok a) then mret (- EINVAL)
  else if negb (sq_node (ma_sq a) =? sq_node (us x)) then mret (- EINVAL)
  else __qrtr_bind s (sq_port (ma_sq a)) (sk_zapped x).

(** ** Sending *)

Definition PAGE_ALIGN (z : Z) : Z := ALIGN z PAGE_SIZE.

(** The buffer for a message of [len] bytes: the head room is reserved, the
    contents are what the memory held. *)
Definition qrtr_sock_alloc_skb_send (s len : Z) : M (option sk_buff) :=
  local <-- gets q_local_nid ;;;
  let plen := Z.land (len + 3) (Z.lnot 3) in
  let data_len limit := if limit <? plen then Z.min (plen - limit) (e_max_skb_frags env * PAGE_SIZE) else 0 in
  let buffer len data_len pages := mk_skb (Some s) zero_cb (e_uninit env (Z.to_nat len)) data_len (e_frags env pages) in
  b <-- alloc_skb ;;;
  if negb b then mret None
  else if is_primary local then
    let dl := data_len (e_skb_max_alloc env) in
    mret (Some (buffer len dl (PAGE_ALIGN dl)))
  else
    let dl := data_len PAGE_SIZE in
    let total := (plen - dl) + PAGE_ALIGN dl in
    mret (Some (if truth dl then buffer total (total - QRTR_HDR_MAX_SIZE) total
                else buffer len dl (PAGE_ALIGN dl))).

(** A message to send; [m_copy] is the result of copying it from the caller. *)
Record msghdr := mk_msg { m_name : option msg_addr; m_flags : Z; m_data : list Z; m_copy : Z }.

Inductive route := RBcast | RLocal | RNode (n : Z).

Definition enqueue_fn (r : route) (skb : sk_buff) (type : Z) (from to : sockaddr_qrtr) (dontwait : bool) : M Z :=
  match r with
  | RBcast => qrtr_bcast_enqueue skb type from to dontwait
  | RLocal => qrtr_local_enqueue skb type from to
  | RNode n => qrtr_node_enqueue n skb type from to dontwait
  end.

Definition route_node (r : route) : option Z := match r with RNode n => Some n | _ => None end.

(** The destination: the given address, for which the socket is bound, or the
    connected peer. *)
Definition send_addr (s : Z) (msg : msghdr) : M (result sockaddr_qrtr) :=
  match m_name msg with
  | Some a =>
      if negb (addr_ok a) then mret (Err (- EINVAL))
      else
        rc <-- qrtr_autobind s ;;;
        mret (if truth rc then Err rc else Ok (ma_sq a))
  | None =>
      x <-- get_sock s ;;;
      mret (if sk_established x then Ok (peer x) else Err (- ENOTCONN))
  end.

(** The way to the destination, with the state of the socket that follows from
    it. *)
Definition send_route (s : Z) (addr : sockaddr_qrtr) : M (result route) :=
  x <-- get_sock s ;;;
  local <-- gets q_local_nid ;;;
  if sq_node addr =? QRTR_NODE_BCAST then
    if negb (sq_port addr =? QRTR_PORT_CTRL) && negb (local =? QRTR_NODE_BCAST) then mret (Err (- ENOTCONN))
    else mret (Ok RBcast)
  else if sq_node addr =? sq_node (us x) then mret (Ok RLocal)
  else
    node <-- qrtr_node_lookup (sq_node addr) ;;;
    match node with
    | None => mret (Err (- ECONNRESET))
    | Some n =>
        y <-- get_node n ;;;
        (if (QRTR_STATE_INIT <? state x) && negb (u32 (state x) =? n_nid y)
         then upd_sock s (fun x => x <| state := QRTR_STATE_MULTI |>)
         else if state x =? QRTR_STATE_INIT then upd_sock s (fun x => x <| state := s32 (n_nid y) |>)
         else mret tt) ;;;
        mret (Ok (RNode n))
    end.

(** A new server is announced only to nodes it must be forwarded to; whether the
    packet is dropped. *)
Definition drop_server (r : route) (skb : sk_buff) : M bool :=
  srv_node <-- qrtr_node_lookup (pkt_word 3 (copy_ctrl_pkt skb (e_uninit env 20))) ;;;
  sv <-- node_view srv_node ;;;
  dv <-- node_view (route_node r) ;;;
  qrtr_node_release srv_node ;;;
  mret (negb (qrtr_must_forward sv dv QRTR_TYPE_NEW_SERVER)).

(** From the buffer to the result. *)
Definition send_packet (s : Z) (msg : msghdr) (addr : sockaddr_qrtr) (r : route) : M Z :=
  let len := Z.of_nat (length (m_data msg)) in
  o <-- qrtr_sock_alloc_skb_send s len ;;;
  match o with
  | None => mret (- ENOMEM)
  | Some skb =>
      if truth (m_copy msg) then kfree_skb skb ;;; mret (m_copy msg)
      else
        let skb := skb <| skb_bytes := m_data msg ++ drop (length (m_data msg)) (skb_bytes skb) |> in
        x <-- get_sock s ;;;
        let ctrl := (sq_port (us x) =? QRTR_PORT_CTRL) || (sq_port addr =? QRTR_PORT_CTRL) in
        if ctrl && (len <? 4) then kfree_skb skb ;;; mret (- EINVAL)
        else
          let type := if ctrl then pkt_word 0 (skb_bytes skb) else QRTR_TYPE_DATA in
          dropped <-- (if (sq_port addr =? QRTR_PORT_CTRL) && (type =? QRTR_TYPE_NEW_SERVER)
                       then upd_sock s (fun x => x <| state := QRTR_STATE_MULTI |>) ;;; drop_server r skb
                       else mret false) ;;;
          if dropped : bool then kfree_skb skb ;;; mret 0
          else
            x <-- get_sock s ;;;
            rc <-- enqueue_fn r skb type (us x) addr (truth (Z.land (m_flags msg) MSG_DONTWAIT)) ;;;
            mret (if 0 <=? rc then len else rc)
  end.

Definition qrtr_sendmsg (s : Z) (msg : msghdr) : M Z :=
  if truth (Z.land (m_flags msg) (Z.lnot MSG_DONTWAIT)) then mret (- EINVAL)
  else if 65535 <? Z.of_nat (length (m_data msg)) then mret (- EMSGSIZE)
  else
    a <-- send_addr s msg ;;;
    match a with
    | Err rc => mret rc
    | Ok addr =>
        r <-- send_route s addr ;;;
        match r with
        | Err rc => mret rc
        | Ok r =>
            rc <-- send_packet s msg addr r ;;;
            qrtr_node_release (route_node r) ;;;
            mret rc
        end
    end.

(** ** Receiving *)

Definition qrtr_send_resume_tx (cb : qrtr_cb) : M Z :=
  let remote := mk_sq (cb_src_node cb) (cb_src_port cb) in
  let local := mk_sq (cb_dst_node cb) (cb_dst_port cb) in
  node <-- qrtr_node_lookup (sq_node remote) ;;;
  match node with
  | None => mret (- EINVAL)
  | Some n =>
      o <-- qrtr_alloc_ctrl_packet (mk_pkt QRTR_TYPE_RESUME_TX (cb_dst_node cb) (cb_dst_port cb) 0 0) ;;;
      match o with
      | None => qrtr_node_release node ;;; mret (- ENOMEM)
      | Some skb =>
          ret <-- qrtr_node_enqueue n skb QRTR_TYPE_RESUME_TX local remote false ;;;
          qrtr_node_release node ;;; mret ret
      end
  end.

(** [skb_recv_datagram]: a pending error of the socket first; then the head of
    the queue, for which a caller may wait. *)
Definition skb_recv_datagram (s : Z) (dontwait : bool) : M (result sk_buff) :=
  (if dontwait then mret tt
   else wait_until (fun q => match q_socks q !! s with
                             | Some x => truth (sk_err x) || negb (bool_decide (sk_receive_queue x = []))
                             | None => true
                             end)) ;;;
  x <-- get_sock s ;;;
  if truth (sk_err x) then set_sock s (x <| sk_err := 0 |>) ;;; mret (Err (- sk_err x))
  else
    match sk_receive_queue x with
    | [] => mret (Err (- EAGAIN))
    | skb :: rest => set_sock s (x <| sk_receive_queue := rest |>) ;;; mret (Ok skb)
    end.

(** What the caller gets: the bytes, the sender, and whether it was cut. *)
Record received := mk_received { rv_data : list Z; rv_from : sockaddr_qrtr; rv_trunc : bool }.

(** [copy] is the result of copying to the caller. *)
Definition qrtr_recvmsg (s size : Z) (dontwait : bool) (copy : Z) : M (result received) :=
  x <-- get_sock s ;;;
  if sk_zapped x then mret (Err (- EADDRNOTAVAIL))
  else
    r <-- skb_recv_datagram s dontwait ;;;
    match r with
    | Err rc => mret (Err rc)
    | Ok skb =>
        let cb := skb_cb skb in
        let trunc := size <? skb_len skb in
        let copied := if trunc then size else skb_len skb in
        (if truth (cb_confirm_rx cb) then qrtr_send_resume_tx cb ;;; mret tt else mret tt) ;;;
        kfree_skb skb ;;;
        x <-- get_sock s ;;;
        (if (sq_port (us x) =? QRTR_PORT_CTRL) && signal_on_recv x
         then set_sock s (x <| rx_queue_has_space := true |> <| signal_on_recv := false |>)
         else mret tt) ;;;
        mret (if copy <? 0 then Err copy
              else Ok (mk_received (take (Z.to_nat copied) (skb_bytes skb)) (mk_sq (cb_src_node cb) (cb_src_port cb)) trunc))
    end.

(** ** The other socket operations *)

Definition qrtr_connect (s : Z) (a : msg_addr) : M Z :=
  if negb (addr_ok a) then mret (- EINVAL)
  else
    upd_sock s (fun x => x <| sk_established := false |>) ;;;
    rc <-- qrtr_autobind s ;;;
    if truth rc then mret rc
    else upd_sock s (fun x => x <| peer := ma_sq a |> <| sk_established := true |>) ;;; mret 0.

Definition qrtr_getname (s : Z) (want_peer : bool) : M (result sockaddr_qrtr) :=
  x <-- get_sock s ;;;
  mret (if want_peer then if sk_established x then Ok (peer x) else Err (- ENOTCONN) else Ok (us x)).

Definition qrtr_shutdown (s mode : Z) : M Z :=
  let mode := mode + 1 in
  if truth (Z.land mode (Z.lnot 3)) || (mode =? 0) then mret (- EINVAL)
  else upd_sock s (fun x => x <| sk_shutdown := Z.lor (sk_shutdown x) mode |>) ;;; mret 0.

(** The last close of a socket. *)
Definition qrtr_release (s : Z) : M Z :=
  x <-- get_sock s ;;;
  (if sq_port (us x) =? QRTR_PORT_CTRL then
     down_write ;;;
     epts <-- gets q_all_epts ;;;
     for_each epts (fun n => upd_node n (fun x => x <| n_hello_sent := 0 |> <| n_hello_rcvd := 0 |>)) ;;;
     up_write
   else mret tt) ;;;
  upd_sock s (fun x => x <| sk_shutdown := 3 |> <| sk_dead := true |>) ;;;
  x <-- get_sock s ;;;
  (if negb (sk_zapped x) then qrtr_port_remove s else mret tt) ;;;
  x <-- get_sock s ;;;
  for_each (sk_receive_queue x) kfree_skb ;;;
  upd_sock s (fun x => x <| sk_receive_queue := [] |>) ;;;
  sock_put s ;;; mret 0.

Definition SOCK_DGRAM : Z := 2.

Definition qrtr_create (type : Z) : M (result Z) :=
  if negb (type =? SOCK_DGRAM) then mret (Err (- EPROTOTYPE))
  else
    p <-- kmalloc ;;;
    match p with
    | None => mret (Err (- ENOMEM))
    | Some s =>
        local <-- gets q_local_nid ;;;
        set_sock s (mk_sock (mk_sq local 0) (mk_sq 0 0) QRTR_STATE_INIT false false [] 0 false true false 0 1) ;;;
        mret (Ok s)
    end.

(** The first node of the device tree that has a node id. *)
Fixpoint qrtr_update_node_id (nodes : list (option Z)) : M unit :=
  match nodes with
  | [] => mret tt
  | None :: nodes' => qrtr_update_node_id nodes'
  | Some id :: _ => modify (fun q => q <| q_local_nid := id |>)
  end.
End Qrtr.
