(* ===== verification/QrtrInv.v ===== *)
(** * QrtrInv: references in the IPC router

    Sockets and nodes are shared and counted. The invariant of this file says
    that every count is exact: a socket is referenced by its open handle, by its
    ports and by the flows that will notify it, a node by its endpoint; and that
    every pointer the state holds is to something that is still there. It is
    stated relative to a frame, the references that running functions hold. *)
From Stdlib Require Import Sorted.
From stdpp Require Import prelude gmap list.
From S2P Require Import Prelude.
From S2P Require Import Effects.
From S2P Require Import XArray.
From S2P Require Import Qrtr.
From S2P Require Import QrtrPkt.
From S2P Require Import AfQrtr.
#[local] Open Scope kernel_scope.

(** ** Counting references *)

(** How often a socket occurs in a list. *)
Definition occurs (s : Z) (l : list Z) : Z := Z.of_nat (length (filter (.= s) l)).

Definition flow_refs (s : Z) (x : xarray qrtr_tx_flow) : Z :=
  foldr (fun e acc => occurs s (waiters (snd e)) + acc) 0 x.

Definition wait_refs (s : Z) (heap : gmap Z qrtr_node) : Z :=
  map_fold (fun _ x acc => flow_refs s (n_tx_flow x) + acc) 0 heap.

Definition port_refs (s : Z) (ports : xarray Z) : Z :=
  foldr (fun e acc => b2z (bool_decide (snd e = s)) + acc) 0 ports.

Lemma occurs_app s l1 l2 : occurs s (l1 ++ l2) = occurs s l1 + occurs s l2.
Proof. unfold occurs. rewrite filter_app, length_app. lia. Qed.

Lemma occurs_cons s a l : occurs s (a :: l) = b2z (bool_decide (a = s)) + occurs s l.
Proof.
  unfold occurs. rewrite filter_cons. case_decide as E.
  - rewrite bool_decide_true by done. cbn [length b2z]. lia.
  - rewrite bool_decide_false by done. cbn [b2z]. lia.
Qed.

Lemma occurs_nonneg s l : 0 <= occurs s l.
Proof. unfold occurs. lia. Qed.

Lemma occurs_in s l : s ∈ l -> 1 <= occurs s l.
Proof.
  intros H. unfold occurs. assert (s ∈ filter (.= s) l) as Hs by (apply list_elem_of_filter; done).
  destruct (filter (.= s) l); [by apply not_elem_of_nil in Hs|cbn; lia].
Qed.

Lemma flow_refs_nonneg s x : 0 <= flow_refs s x.
Proof. induction x as [|[k f] x IH]; cbn; [lia|]. pose proof (occurs_nonneg s (waiters f)). unfold flow_refs in IH. lia. Qed.

(** The references of one flow of a tree. *)
Definition old_refs (s : Z) (o : option qrtr_tx_flow) : Z :=
  match o with Some f => occurs s (waiters f) | None => 0 end.

Lemma flow_refs_store s k f x :
  xa_sorted x -> flow_refs s (xa_store x k f) = flow_refs s x - old_refs s (xa_load x k) + occurs s (waiters f).
Proof.
  intros Hs. induction Hs as [|[i g] x Hs IH Hall]; cbn [xa_store xa_load flow_refs foldr old_refs snd]; [lia|].
  destruct (Z.ltb_spec k i) as [Hk|Hk].
  - cbn [foldr snd]. destruct (Z.eqb_spec i k) as [->|_]; [lia|].
    assert (xa_load x k = None) as ->; [|cbn [old_refs]; fold (flow_refs s x); lia].
    destruct (xa_load x k) as [f'|] eqn:E; [|done]. apply xa_elem_load in E; [|done].
    rewrite Forall_forall in Hall. specialize (Hall _ E). cbn in Hall. lia.
  - destruct (Z.eqb_spec i k) as [->|Hi]; cbn [foldr snd old_refs].
    + fold (flow_refs s x). lia.
    + fold (flow_refs s x). fold (flow_refs s (xa_store x k f)). rewrite IH. lia.
Qed.

Lemma wait_refs_insert s n x heap :
  heap !! n = None -> wait_refs s (<[n := x]> heap) = flow_refs s (n_tx_flow x) + wait_refs s heap.
Proof. intros H. unfold wait_refs. rewrite map_fold_insert_L; [done| |done]. intros. lia. Qed.

Lemma wait_refs_delete s n x heap :
  heap !! n = Some x -> wait_refs s (delete n heap) = wait_refs s heap - flow_refs s (n_tx_flow x).
Proof.
  intros H. rewrite <- (insert_delete_id heap n x H) at 2.
  rewrite wait_refs_insert by apply lookup_delete_eq. lia.
Qed.

Lemma wait_refs_upd s n x x' heap :
  heap !! n = Some x ->
  wait_refs s (<[n := x']> heap) = wait_refs s heap - flow_refs s (n_tx_flow x) + flow_refs s (n_tx_flow x').
Proof.
  intros H. rewrite <- insert_delete_eq, wait_refs_insert by apply lookup_delete_eq.
  rewrite (wait_refs_delete s n x) by done. lia.
Qed.

Lemma wait_refs_nonneg s heap : 0 <= wait_refs s heap.
Proof.
  induction heap as [|n x heap Hn IH] using map_ind; [done|].
  rewrite wait_refs_insert by done. pose proof (flow_refs_nonneg s (n_tx_flow x)). lia.
Qed.

Lemma flow_refs_waiter s key f x : xa_sorted x -> xa_load x key = Some f -> s ∈ waiters f -> 1 <= flow_refs s x.
Proof.
  intros Hs Hf Hin. pose proof (flow_refs_store s key (mk_flow 0 0 []) x Hs) as E.
  pose proof (flow_refs_nonneg s (xa_store x key (mk_flow 0 0 []))). rewrite Hf in E. cbn [old_refs waiters] in E.
  change (occurs s []) with 0 in E. pose proof (occurs_in s (waiters f) Hin). lia.
Qed.

(** A waiter of a flow is counted. *)
Lemma wait_refs_waiter s n x key f heap :
  heap !! n = Some x -> xa_sorted (n_tx_flow x) -> xa_load (n_tx_flow x) key = Some f -> s ∈ waiters f ->
  1 <= wait_refs s heap.
Proof.
  intros Hn Hs Hf Hin. pose proof (wait_refs_delete s n x heap Hn). pose proof (wait_refs_nonneg s (delete n heap)).
  pose proof (flow_refs_waiter s key f _ Hs Hf Hin). lia.
Qed.

(** ** Ports *)

Lemma port_refs_store s i v ports :
  xa_sorted ports -> xa_load ports i = None ->
  port_refs s (xa_store ports i v) = port_refs s ports + b2z (bool_decide (v = s)).
Proof.
  intros Hs Hi. induction Hs as [|[k w] x Hs IH Hall]; cbn [xa_store port_refs foldr snd]; [lia|].
  cbn [xa_load] in Hi. destruct (Z.eqb_spec k i) as [->|Hk]; [done|]. fold (port_refs s x).
  destruct (i <? k); cbn [foldr snd]; [fold (port_refs s x); lia|].
  fold (port_refs s (xa_store x i v)). rewrite IH by done. lia.
Qed.

Lemma port_refs_nonneg s ports : 0 <= port_refs s ports.
Proof. induction ports as [|e x IH]; cbn; [lia|]. fold (port_refs s x). destruct (bool_decide _); cbn; lia. Qed.

Lemma port_refs_erase s i v ports :
  xa_sorted ports -> xa_load ports i = Some v ->
  port_refs s (xa_erase ports i) = port_refs s ports - b2z (bool_decide (v = s)).
Proof.
  intros Hs Hi. induction Hs as [|[k w] x Hs IH Hall]; [done|]. cbn [xa_load] in Hi. rewrite xa_erase_cons.
  destruct (Z.eqb_spec k i) as [->|Hk]; cbn [port_refs foldr snd]; fold (port_refs s x).
  - injection Hi as ->. rewrite xa_erase_absent by (try apply xa_load_above; done). lia.
  - fold (port_refs s (xa_erase x i)). rewrite IH by done. lia.
Qed.

Lemma port_refs_in s i ports : xa_load ports i = Some s -> 1 <= port_refs s ports.
Proof.
  induction ports as [|[k w] x IH]; [done|]. cbn [xa_load port_refs foldr snd]. fold (port_refs s x).
  pose proof (port_refs_nonneg s x). destruct (k =? i).
  - intros [= ->]. rewrite bool_decide_true by done. cbn. lia.
  - intros Hi. specialize (IH Hi). destruct (bool_decide _); cbn; lia.
Qed.

#[global] Arguments occurs : simpl never.
#[global] Arguments flow_refs : simpl never.
#[global] Arguments wait_refs : simpl never.
#[global] Arguments port_refs : simpl never.
#[global] Arguments port_index : simpl never.

(** ** The invariant *)

(** What running functions hold: references to sockets and nodes, a port entry
    of a socket whose address is still the old one, the nodes that are being
    unregistered and the sockets that are being closed. *)
Record frame := mk_frame {
  held : Z -> Z;
  nheld : Z -> Z;
  rebinding : Z -> Z -> Prop;
  leaving : Z -> Prop;
  closing : Z -> Prop;
}.

#[export] Instance eta_frame : Settable frame := fun f => mk_frame (held f) (nheld f) (rebinding f) (leaving f) (closing f).

(** Nothing runs. *)
Definition idle : frame := mk_frame (fun _ => 0) (fun _ => 0) (fun _ _ => False) (fun _ => False) (fun _ => False).

Definition hold (s : Z) (d : Z) (fr : frame) : frame := fr <| held := fun t => held fr t + (if s =? t then d else 0) |>.

Definition nhold (n : Z) (d : Z) (fr : frame) : frame := fr <| nheld := fun m => nheld fr m + (if n =? m then d else 0) |>.

Definition handle (x : qrtr_sock) : Z := b2z (negb (sk_dead x)).

Definition owner (x : qrtr_node) : Z := match n_ep x with Some _ => 1 | None => 0 end.

(** A buffer that can be forwarded. *)
Definition skb_wf (b : sk_buff) : Prop := 0 <= skb_data_len b /\ Forall (fun f => 0 <= f) (skb_frags b).

Definition fwd_wf (b : sk_buff) : Prop := skb_sk b = None /\ skb_wf b.

Record Inv (fr : frame) (q : qrtr) : Prop := {
  inv_ports : xa_sorted (q_ports q);
  inv_tree : xa_sorted (q_nodes q);
  inv_held : forall s, 0 <= held fr s;
  inv_nheld : forall n, 0 <= nheld fr n;
  inv_sock : forall s x, q_socks q !! s = Some x ->
    sk_refcnt x = handle x + port_refs s (q_ports q) + wait_refs s (q_heap q) + held fr s /\
    1 <= sk_refcnt x /\ s < Z.of_nat (q_allocs q) + 32;
  inv_nosock : forall s, q_socks q !! s = None ->
    port_refs s (q_ports q) = 0 /\ wait_refs s (q_heap q) = 0 /\ held fr s = 0;
  inv_bound : forall i s, xa_load (q_ports q) i = Some s ->
    rebinding fr i s \/
    exists x, q_socks q !! s = Some x /\ sk_zapped x = false /\ port_index (sq_port (us x)) = i /\
      (sk_dead x = false \/ closing fr s);
  inv_port : forall s x, q_socks q !! s = Some x -> sk_dead x = false -> sk_zapped x = false ->
    xa_load (q_ports q) (port_index (sq_port (us x))) = Some s \/ exists i, rebinding fr i s;
  inv_node : forall n x, q_heap q !! n = Some x ->
    n_ref x = owner x + nheld fr n /\ n < Z.of_nat (q_allocs q) + 32 /\
    xa_sorted (n_tx_flow x) /\ Forall fwd_wf (n_rx_queue x);
  inv_nonode : forall n, q_heap q !! n = None -> nheld fr n = 0;
  inv_nodes : forall nid n, xa_load (q_nodes q) nid = Some n -> n ∈ q_all_epts q;
  inv_epts : forall n, n ∈ q_all_epts q ->
    exists x, q_heap q !! n = Some x /\ (n_ep x <> None \/ leaving fr n);
  inv_eps : forall ep n, q_eps q !! ep = Some n ->
    leaving fr n \/ (n ∈ q_all_epts q /\ exists x, q_heap q !! n = Some x /\ n_ep x = Some ep);
}.

(** A socket that is open. *)
Definition opened (q : qrtr) (s : Z) : Prop := exists x, q_socks q !! s = Some x /\ sk_dead x = false.

(** A socket a running function may use. *)
Definition usable (fr : frame) (q : qrtr) (s : Z) : Prop := opened q s \/ 1 <= held fr s.

Definition present (q : qrtr) (n : Z) : Prop := is_Some (q_heap q !! n).

(** What no function takes away but the ones that close or unregister. *)
Record stable (q q' : qrtr) : Prop := {
  st_node : forall n, present q n -> present q' n;
  st_ep : forall n x x', q_heap q !! n = Some x -> q_heap q' !! n = Some x' -> n_ep x' = n_ep x;
  st_epts : q_all_epts q' = q_all_epts q;
  st_eps : q_eps q' = q_eps q;
  st_ports : q_ports q' = q_ports q;
  st_open : forall s, opened q s -> opened q' s;
  st_none : forall s, q_socks q !! s = None -> q_socks q' !! s = None;
  st_us : forall s x x', q_socks q !! s = Some x -> q_socks q' !! s = Some x' ->
    us x' = us x /\ sk_zapped x' = sk_zapped x /\ sk_dead x' = sk_dead x;
  st_lnid : q_local_nid q' = q_local_nid q;
}.

#[export] Instance stable_refl : Reflexive stable.
Proof. intros q. split; try done; [intros n x x' H1 H2; congruence|]. intros s x x' H1 H2. by simplify_eq. Qed.

#[export] Instance stable_trans : Transitive stable.
Proof.
  intros q1 q2 q3 [] []. split; try congruence; [auto| |auto|auto|].
  - intros n x x' H1 H3. destruct (st_node0 n) as [y Hy]; [by exists x|].
    rewrite (st_ep1 n y x' Hy H3). by apply (st_ep0 n).
  - intros s x x' H1 H3. destruct (q_socks q2 !! s) as [y|] eqn:E; [|by rewrite (st_none1 s E) in H3].
    destruct (st_us0 s x y H1 E) as (? & ? & ?), (st_us1 s y x' E H3) as (? & ? & ?). split_and!; congruence.
Qed.

(** ** The invariant along a computation *)

(** The usual postcondition. *)
Definition kept {A : Type} (fr : frame) (q : qrtr) (P : A -> qrtr -> Prop) (a : A) (q' : qrtr) : Prop :=
  Inv fr q' /\ stable q q' /\ P a q'.

Definition any {A : Type} (_ : A) (_ : qrtr) : Prop := True.

(** One step of a computation by a lemma about it. *)
Lemma post_step {A B : Type} fr (c : M qrtr A) (k : A -> M qrtr B) q (P : A -> qrtr -> Prop) Q :
  post (c (W q)) (kept fr q P) ->
  (forall a q', Inv fr q' -> stable q q' -> P a q' -> post (k a (W q')) Q) ->
  post (mbnd c k (W q)) Q.
Proof.
  intros Hc Hk. apply post_bind. eapply post_mono; [exact Hc|]. intros a q' (H1 & H2 & H3). by apply Hk.
Qed.

(** The last step: the stability of what came before is added. *)
Lemma post_last {A : Type} fr (c : M qrtr A) q0 q (P P' : A -> qrtr -> Prop) :
  stable q0 q -> post (c (W q)) (kept fr q P) -> (forall a q', P a q' -> P' a q') ->
  post (c (W q)) (kept fr q0 P').
Proof.
  intros Hs Hc HP. eapply post_mono; [exact Hc|]. intros a q' (H1 & H2 & H3). split; [done|]. split; [by etrans|auto].
Qed.

(** ** Changes of the state *)

(** A change of what the invariant does not speak about. *)
Definition same_refs (q q' : qrtr) : Prop :=
  q_socks q' = q_socks q /\ q_ports q' = q_ports q /\ q_heap q' = q_heap q /\ q_nodes q' = q_nodes q /\
  q_all_epts q' = q_all_epts q /\ q_eps q' = q_eps q /\ q_local_nid q' = q_local_nid q /\
  (q_allocs q <= q_allocs q')%nat.

Lemma same_refs_ok fr q q' : Inv fr q -> same_refs q q' -> Inv fr q' /\ stable q q'.
Proof.
  intros [] (E1 & E2 & E3 & E4 & E5 & E6 & E7 & Ha). split.
  - split; rewrite ?E1, ?E2, ?E3, ?E4, ?E5, ?E6; try assumption.
    + intros s x Hs. destruct (inv_sock0 s x Hs) as (? & ? & ?). split; [done|]. split; [done|lia].
    + intros n x Hn. destruct (inv_node0 n x Hn) as (? & ? & ?). split; [done|]. split; [lia|done].
  - split; unfold present, opened; rewrite ?E1, ?E3; try done; [intros n x x' H1 H2; congruence|].
    intros s x x' H1 H2. by simplify_eq.
Qed.

Definition sock_put_in (q : qrtr) (s : Z) (x : qrtr_sock) : qrtr := q <| q_socks := <[s := x]> (q_socks q) |>.

Definition node_put_in (q : qrtr) (n : Z) (x : qrtr_node) : qrtr := q <| q_heap := <[n := x]> (q_heap q) |>.

(** A socket keeps its address and whether it is open; its count follows the
    frame. *)
Lemma sock_upd_ok fr d q s x x' :
  Inv fr q -> q_socks q !! s = Some x -> us x' = us x -> sk_zapped x' = sk_zapped x -> sk_dead x' = sk_dead x ->
  sk_refcnt x' = sk_refcnt x + d -> 0 <= held fr s + d -> 1 <= sk_refcnt x + d ->
  Inv (hold s d fr) (sock_put_in q s x') /\ stable q (sock_put_in q s x').
Proof.
  intros [] Hx Eu Ez Ed Er Hd Hr. split.
  - split; cbn -[Z.of_nat Z.add]; try assumption.
    + intros t. destruct (Z.eqb_spec s t) as [<-|]; [lia|]. specialize (inv_held0 t). lia.
    + intros t y. destruct (Z.eqb_spec s t) as [<-|Ht].
      * rewrite lookup_insert_eq. intros [= <-]. destruct (inv_sock0 s x Hx) as (? & ? & ?).
        unfold handle in *. rewrite Er, Ed. lia.
      * rewrite lookup_insert_ne by done. intros Hy. destruct (inv_sock0 t y Hy) as (? & ? & ?). lia.
    + intros t. destruct (Z.eqb_spec s t) as [<-|Ht]; [by rewrite lookup_insert_eq|].
      rewrite lookup_insert_ne by done. intros Hy. destruct (inv_nosock0 t Hy) as (? & ? & ?). lia.
    + intros i t Hi. destruct (inv_bound0 i t Hi) as [|(y & Hy & Hz & Hp & Hc)]; [by left|right].
      destruct (Z.eqb_spec s t) as [<-|Ht].
      * exists x'. rewrite lookup_insert_eq. rewrite Hx in Hy. injection Hy as <-. by rewrite Ez, Eu, Ed.
      * exists y. by rewrite lookup_insert_ne.
    + intros t y. destruct (Z.eqb_spec s t) as [<-|Ht].
      * rewrite lookup_insert_eq. intros [= <-]. rewrite Ed, Ez, Eu. by apply inv_port0.
      * rewrite lookup_insert_ne by done. apply inv_port0.
  - split; try done; cbn; [intros n y y' H1 H2; congruence| | |].
    + intros t (y & Hy & Hd'). unfold opened. cbn. destruct (Z.eqb_spec s t) as [<-|Ht].
      * exists x'. rewrite lookup_insert_eq. rewrite Hx in Hy. injection Hy as <-. by rewrite Ed.
      * exists y. by rewrite lookup_insert_ne.
    + intros t Ht. rewrite lookup_insert_ne; [done|congruence].
    + intros t y y' H1. destruct (Z.eqb_spec s t) as [<-|Ht].
      * rewrite lookup_insert_eq. intros [= <-]. rewrite Hx in H1. injection H1 as <-. done.
      * rewrite lookup_insert_ne by done. intros. by simplify_eq.
Qed.

(** Frames are compared by what they count. *)
Lemma Inv_ext fr fr' q :
  (forall s, held fr s = held fr' s) -> (forall n, nheld fr n = nheld fr' n) ->
  (forall i s, rebinding fr i s -> rebinding fr' i s) -> (forall n, leaving fr n -> leaving fr' n) ->
  (forall s, closing fr s -> closing fr' s) -> Inv fr q -> Inv fr' q.
Proof.
  intros Eh En Hr Hl Hc []. split; try assumption.
  - intros s. by rewrite <- Eh.
  - intros n. by rewrite <- En.
  - intros s x. rewrite <- Eh. apply inv_sock0.
  - intros s. rewrite <- Eh. apply inv_nosock0.
  - intros i s Hi. destruct (inv_bound0 i s Hi) as [|(x & ? & ? & ? & [|])]; eauto 8.
  - intros s x Hx Hd Hz. destruct (inv_port0 s x Hx Hd Hz) as [|[i Hi]]; eauto.
  - intros n x. rewrite <- En. apply inv_node0.
  - intros n. rewrite <- En. apply inv_nonode0.
  - intros n Hn. destruct (inv_epts0 n Hn) as (x & Hx & []); eauto.
  - intros ep n He. destruct (inv_eps0 ep n He); auto.
Qed.

Lemma sock_same_ok fr q s x x' :
  Inv fr q -> q_socks q !! s = Some x -> us x' = us x -> sk_zapped x' = sk_zapped x -> sk_dead x' = sk_dead x ->
  sk_refcnt x' = sk_refcnt x -> Inv fr (sock_put_in q s x') /\ stable q (sock_put_in q s x').
Proof.
  intros HI Hx Eu Ez Ed Er. pose proof (inv_held _ _ HI s) as Hh. destruct (inv_sock _ _ HI s x Hx) as (_ & Hr & _).
  destruct (sock_upd_ok fr 0 q s x x' HI Hx Eu Ez Ed) as [H1 H2]; [lia..|]. split; [|done].
  eapply Inv_ext; [| | | | |exact H1]; [|done..]. intros t. cbn. destruct (s =? t); lia.
Qed.

(** A socket whose last reference goes away. *)
Lemma sock_delete_ok fr q s x :
  Inv fr q -> q_socks q !! s = Some x -> sk_refcnt x = 1 -> 1 <= held fr s ->
  Inv (hold s (- 1) fr) (q <| q_socks := delete s (q_socks q) |>) /\
  stable q (q <| q_socks := delete s (q_socks q) |>).
Proof.
  intros HI Hx Er Hh. destruct (inv_sock _ _ HI s x Hx) as (E & _ & _).
  pose proof (port_refs_nonneg s (q_ports q)). pose proof (wait_refs_nonneg s (q_heap q)).
  assert (0 <= handle x) by (unfold handle; destruct (sk_dead x); cbn; lia).
  assert (sk_dead x = true) as Hd by (destruct (sk_dead x) eqn:Ed; [done|unfold handle in *; rewrite Ed in *; cbn in *; lia]).
  assert (forall i t, xa_load (q_ports q) i = Some t -> t <> s) as Hp.
  { intros i t Hi ->. pose proof (port_refs_in s i _ Hi). lia. }
  destruct HI. split.
  - split; cbn -[Z.of_nat Z.add Z.sub Z.opp]; try assumption.
    + intros t. destruct (Z.eqb_spec s t) as [<-|]; [lia|]. specialize (inv_held0 t). lia.
    + intros t y. destruct (Z.eqb_spec s t) as [<-|Ht]; [by rewrite lookup_delete_eq|].
      rewrite lookup_delete_ne by done. intros Hy. destruct (inv_sock0 t y Hy) as (? & ? & ?). lia.
    + intros t. destruct (Z.eqb_spec s t) as [<-|Ht]; [lia|].
      rewrite lookup_delete_ne by done. intros Hy. destruct (inv_nosock0 t Hy) as (? & ? & ?). lia.
    + intros i t Hi. destruct (inv_bound0 i t Hi) as [|(y & Hy & Hz)]; [by left|right].
      exists y. rewrite lookup_delete_ne; [done|]. specialize (Hp i t Hi). done.
    + intros t y. destruct (Z.eqb_spec s t) as [<-|Ht]; [by rewrite lookup_delete_eq|].
      rewrite lookup_delete_ne by done. apply inv_port0.
  - split; try done; cbn; [intros n y y2 K1 K2; congruence| | |].
    + intros t (y & Hy & Hd'). exists y. cbn. destruct (Z.eqb_spec s t) as [<-|Ht]; [congruence|]. by rewrite lookup_delete_ne.
    + intros t Ht. destruct (Z.eqb_spec s t) as [<-|Hne]; [congruence|]. by rewrite lookup_delete_ne.
    + intros t y y' K1. destruct (Z.eqb_spec s t) as [<-|Ht]; [by rewrite lookup_delete_eq|].
      rewrite lookup_delete_ne by done. intros. by simplify_eq.
Qed.

(** A node keeps its endpoint; its count and its waiters follow the frame. *)
Lemma node_upd_ok fr fr' q n x x' :
  Inv fr q -> q_heap q !! n = Some x -> n_ep x' = n_ep x ->
  (forall m, 0 <= nheld fr' m) -> (forall m, nheld fr' m = nheld fr m + (if n =? m then n_ref x' - n_ref x else 0)) ->
  xa_sorted (n_tx_flow x') -> Forall fwd_wf (n_rx_queue x') ->
  (forall s, 0 <= held fr' s) ->
  (forall s, held fr' s = held fr s + flow_refs s (n_tx_flow x) - flow_refs s (n_tx_flow x')) ->
  rebinding fr' = rebinding fr -> leaving fr' = leaving fr -> closing fr' = closing fr ->
  Inv fr' (node_put_in q n x') /\ stable q (node_put_in q n x').
Proof.
  intros HI Hx Ee Hn0 Hn Hs Hq Hh0 Hh Erb Elv Ecl.
  assert (forall s, wait_refs s (<[n := x']> (q_heap q)) + held fr' s = wait_refs s (q_heap q) + held fr s) as Hw.
  { intros s. rewrite (wait_refs_upd s n x) by done. specialize (Hh s). lia. }
  destruct HI. split.
  - split; cbn -[Z.of_nat Z.add]; try assumption.
    + intros s y Hy. destruct (inv_sock0 s y Hy) as (? & ? & ?). specialize (Hw s). lia.
    + intros s Hy. destruct (inv_nosock0 s Hy) as (? & ? & ?). specialize (Hw s).
      pose proof (wait_refs_nonneg s (<[n := x']> (q_heap q))). specialize (Hh0 s). lia.
    + by rewrite Erb, Ecl.
    + by rewrite Erb.
    + intros m y. destruct (Z.eqb_spec n m) as [<-|Hm].
      * rewrite lookup_insert_eq. intros [= <-]. destruct (inv_node0 n x Hx) as (? & ? & _).
        specialize (Hn n). rewrite Z.eqb_refl in Hn. unfold owner in *. rewrite Ee. split; [lia|]. done.
      * rewrite lookup_insert_ne by done. intros Hy. destruct (inv_node0 m y Hy) as (? & ?).
        specialize (Hn m). rewrite (proj2 (Z.eqb_neq n m)) in Hn by done. split; [lia|done].
    + intros m. destruct (Z.eqb_spec n m) as [<-|Hm]; [by rewrite lookup_insert_eq|].
      rewrite lookup_insert_ne by done. intros Hy. specialize (Hn m). rewrite (proj2 (Z.eqb_neq n m)) in Hn by done.
      rewrite Hn, (inv_nonode0 m Hy). lia.
    + rewrite Elv. intros m Hm. destruct (inv_epts0 m Hm) as (y & Hy & Ho). destruct (Z.eqb_spec n m) as [<-|Hne].
      * exists x'. rewrite lookup_insert_eq. rewrite Hx in Hy. injection Hy as <-. by rewrite Ee.
      * exists y. by rewrite lookup_insert_ne.
    + rewrite Elv. intros ep m Hm. destruct (inv_eps0 ep m Hm) as [|(He & y & Hy & Ho)]; [by left|right]. split; [done|].
      destruct (Z.eqb_spec n m) as [<-|Hne].
      * exists x'. rewrite lookup_insert_eq. rewrite Hx in Hy. injection Hy as <-. by rewrite Ee.
      * exists y. by rewrite lookup_insert_ne.
  - split; try done; unfold present; cbn.
    + intros m [y Hy]. destruct (Z.eqb_spec n m) as [<-|Hne]; [rewrite lookup_insert_eq|rewrite lookup_insert_ne by done]; eauto.
    + intros m y y' H1 H2. destruct (Z.eqb_spec n m) as [<-|Hne].
      * rewrite lookup_insert_eq in H2. congruence.
      * rewrite lookup_insert_ne in H2 by done. congruence.
    + intros s y y' H1 H2. by simplify_eq.
Qed.

(** The common case: neither count nor waiters change. *)
Lemma node_same_ok fr q n x x' :
  Inv fr q -> q_heap q !! n = Some x -> n_ep x' = n_ep x -> n_ref x' = n_ref x ->
  xa_sorted (n_tx_flow x') -> (forall s, flow_refs s (n_tx_flow x') = flow_refs s (n_tx_flow x)) ->
  Forall fwd_wf (n_rx_queue x') ->
  Inv fr (node_put_in q n x') /\ stable q (node_put_in q n x').
Proof.
  intros HI Hx Ee Er Hs Hf Hq.
  apply (node_upd_ok fr fr q n x x'); try done.
  - apply HI.
  - intros m. rewrite Er. destruct (n =? m); lia.
  - apply HI.
  - intros s. rewrite Hf. lia.
Qed.
