(* ===== verification/QrtrSafe.v ===== *)
(** * QrtrSafe: no function of the IPC router uses what was freed

    Every function of AfQrtr.v keeps the invariant of QrtrInv.v and does not
    fault, when it runs without waiting for other threads. *)
From Stdlib Require Import Sorted.
From stdpp Require Import prelude gmap list.
From S2P Require Import Prelude.
From S2P Require Import Effects.
From S2P Require Import XArray.
From S2P Require Import Qrtr.
From S2P Require Import QrtrNs.
From S2P Require Import QrtrPkt.
From S2P Require Import AfQrtr.
From S2P Require Import QrtrInv.
#[local] Open Scope kernel_scope.

(** Fragments have sizes, and a fragment is mapped in one piece (there is no
    high memory). *)
Record env_ok (env : qrtr_env) : Prop := {
  env_pages : forall f, e_pages env f = [f];
  env_frags : forall n, Forall (fun f => 0 <= f) (e_frags env n);
  env_max_frags : 0 <= e_max_skb_frags env;
}.

(** ** Facts that last *)

Lemma usable_stable fr q q' s : usable fr q s -> stable q q' -> usable fr q' s.
Proof. intros [Ho|Hh] Hs; [left; by apply (st_open _ _ Hs)|by right]. Qed.

Lemma usable_hold fr q s t : usable fr q s -> usable (hold t 1 fr) q s.
Proof. intros [Ho|Hh]; [by left|right]. cbn -[Z.add]. destruct (t =? s); lia. Qed.

Lemma held_usable fr q s : 1 <= held fr s -> usable fr q s.
Proof. by right. Qed.

Lemma usable_live fr q s : Inv fr q -> usable fr q s -> exists x, q_socks q !! s = Some x.
Proof.
  intros HI [(x & Hx & _)|Hh]; [by exists x|]. destruct (q_socks q !! s) as [x|] eqn:E; [by exists x|].
  destruct (inv_nosock _ _ HI s E) as (_ & _ & H). lia.
Qed.

Lemma hold_held fr s : 0 <= held fr s -> 1 <= held (hold s 1 fr) s.
Proof. intros H. cbn -[Z.add]. rewrite Z.eqb_refl. lia. Qed.

Lemma unhold fr s q : Inv (hold s (- 1) (hold s 1 fr)) q -> Inv fr q.
Proof. apply Inv_ext; try done. intros t. cbn. destruct (s =? t); lia. Qed.

Lemma ports_live fr q i s : Inv fr q -> xa_load (q_ports q) i = Some s -> exists x, q_socks q !! s = Some x.
Proof.
  intros HI Hi. destruct (q_socks q !! s) as [x|] eqn:E; [by exists x|].
  destruct (inv_nosock _ _ HI s E) as (H & _). pose proof (port_refs_in s i _ Hi). lia.
Qed.

Section Safe.
Context {XC : XaCyclic} {XL : XaCyclicLaws XC} (env : qrtr_env) (Eok : env_ok env).

Abbreviation keeps c fr q := (post (c (W q)) (kept fr q any)).

(** ** Primitive steps *)

Lemma kept_any {A : Type} fr q q' (a : A) : Inv fr q' /\ stable q q' -> kept fr q any a q'.
Proof. intros []. by split. Qed.

Lemma misc_ok fr q f : Inv fr q -> (forall q, same_refs q (f q)) -> keeps (modify f) fr q.
Proof. intros HI Hf. cbn. split; [done|]. apply kept_any. by apply same_refs_ok. Qed.

Lemma emit_ok fr q e : Inv fr q -> keeps (emit e) fr q.
Proof. intros HI. apply misc_ok; [done|]. intros. by split_and!. Qed.

Lemma kfree_skb_ok fr q b : Inv fr q -> keeps (kfree_skb b) fr q.
Proof. apply emit_ok. Qed.

(** A fresh address is the address of nothing. *)
Lemma kmalloc_ok fr q :
  Inv fr q -> post (kmalloc env (W q)) (kept fr q (fun o q' =>
    match o with
    | Some p => q_socks q' !! p = None /\ q_heap q' !! p = None /\ p < Z.of_nat (q_allocs q') + 32
    | None => True
    end)).
Proof.
  intros HI. cbn -[Z.of_nat]. split; [done|].
  set (q' := q <| q_allocs := S (q_allocs q) |>).
  assert (same_refs q q') as Hs by (split_and!; try done; cbn; lia).
  destruct (same_refs_ok fr q q' HI Hs) as [H1 H2]. split; [done|]. split; [done|].
  destruct (e_alloc env (q_allocs q)); [|done]. cbn -[Z.of_nat]. split; [|split].
  - destruct (q_socks q !! _) as [x|] eqn:E; [|done]. destruct (inv_sock _ _ HI _ _ E) as (_ & _ & ?). lia.
  - destruct (q_heap q !! _) as [x|] eqn:E; [|done]. destruct (inv_node _ _ HI _ _ E) as (_ & ? & _). lia.
  - lia.
Qed.

Lemma alloc_skb_ok fr q : Inv fr q -> post (alloc_skb env (W q)) (kept fr q (fun _ => same_refs q)).
Proof.
  intros HI. cbn -[Z.of_nat]. split; [done|]. set (q' := q <| q_allocs := S (q_allocs q) |>).
  assert (same_refs q q') as Hs by (split_and!; try done; cbn; lia).
  by destruct (same_refs_ok fr q q' HI Hs).
Qed.

Lemma wait_until_ok (cond : qrtr -> bool) q : post (wait_until cond (W q)) (fun _ q' => q' = q /\ cond q = true).
Proof. unfold wait_until, W. cbn. by destruct (cond q) eqn:E; cbn. Qed.

Lemma lock_ok fr q cond f : Inv fr q -> (forall q, same_refs q (f q)) -> keeps (wait_until cond ;;; modify f) fr q.
Proof.
  intros HI Hf. apply post_bind. eapply post_mono; [apply wait_until_ok|]. intros _ q' [-> _]. by apply misc_ok.
Qed.

Lemma down_read_ok fr q : Inv fr q -> keeps down_read fr q.
Proof. intros HI. apply lock_ok; [done|]. intros. by split_and!. Qed.

Lemma up_read_ok fr q : Inv fr q -> keeps up_read fr q.
Proof. intros HI. apply misc_ok; [done|]. intros. by split_and!. Qed.

Lemma down_write_ok fr q : Inv fr q -> keeps down_write fr q.
Proof. intros HI. apply lock_ok; [done|]. intros. by split_and!. Qed.

Lemma up_write_ok fr q : Inv fr q -> keeps up_write fr q.
Proof. intros HI. apply misc_ok; [done|]. intros. by split_and!. Qed.

Lemma post_get_sock {B : Type} fr q s (k : qrtr_sock -> M qrtr B) Q :
  Inv fr q -> usable fr q s -> (forall x, q_socks q !! s = Some x -> post (k x (W q)) Q) ->
  post (mbnd (get_sock s) k (W q)) Q.
Proof.
  intros HI Hu Hk. destruct (usable_live fr q s HI Hu) as [x Hx]. unfold get_sock. rewrite run_assoc, run_gets.
  cbn [w_st W]. rewrite Hx. by apply Hk.
Qed.

Lemma post_get_node {B : Type} q n (k : qrtr_node -> M qrtr B) Q :
  present q n -> (forall x, q_heap q !! n = Some x -> post (k x (W q)) Q) -> post (mbnd (get_node n) k (W q)) Q.
Proof.
  intros [x Hx] Hk. unfold get_node. rewrite run_assoc, run_gets. cbn [w_st W]. rewrite Hx. by apply Hk.
Qed.

(** A change of a socket that keeps its address, its state and its count. *)
Definition sock_silent (f : qrtr_sock -> qrtr_sock) : Prop :=
  forall x, us (f x) = us x /\ sk_zapped (f x) = sk_zapped x /\ sk_dead (f x) = sk_dead x /\ sk_refcnt (f x) = sk_refcnt x.

Lemma set_sock_ok fr q s x f :
  Inv fr q -> q_socks q !! s = Some x -> sock_silent f -> keeps (set_sock s (f x)) fr q.
Proof.
  intros HI Hx Hf. destruct (Hf x) as (? & ? & ? & ?). cbn. split; [done|]. apply kept_any.
  by apply (sock_same_ok fr q s x).
Qed.

Lemma upd_sock_ok fr q s f : Inv fr q -> usable fr q s -> sock_silent f -> keeps (upd_sock s f) fr q.
Proof.
  intros HI Hu Hf. unfold upd_sock. eapply post_get_sock; [done..|]. intros x Hx. by apply set_sock_ok.
Qed.

(** A change of a node that keeps its endpoint, its count and its waiters. *)
Definition node_silent (f : qrtr_node -> qrtr_node) : Prop :=
  forall x, n_ep (f x) = n_ep x /\ n_ref (f x) = n_ref x /\ n_tx_flow (f x) = n_tx_flow x /\
    (Forall fwd_wf (n_rx_queue x) -> Forall fwd_wf (n_rx_queue (f x))).

Lemma set_node_ok fr q n x f :
  Inv fr q -> q_heap q !! n = Some x -> node_silent f -> keeps (set_node n (f x)) fr q.
Proof.
  intros HI Hx Hf. destruct (Hf x) as (E1 & E2 & E3 & E4). destruct (inv_node _ _ HI n x Hx) as (_ & _ & Hs & Hq).
  cbn. split; [done|]. apply kept_any. apply (node_same_ok fr q n x); try done; [by rewrite E3|by rewrite E3|auto].
Qed.

Lemma upd_node_ok fr q n f : Inv fr q -> present q n -> node_silent f -> keeps (upd_node n f) fr q.
Proof.
  intros HI Hp Hf. unfold upd_node. apply post_get_node; [done|]. intros x Hx. by apply set_node_ok.
Qed.

(** ** References to sockets *)

Lemma sock_hold_ok fr q s x :
  Inv fr q -> q_socks q !! s = Some x ->
  post (sock_hold s (W q)) (kept (hold s 1 fr) q (fun _ q' => q_heap q' = q_heap q)).
Proof.
  intros HI Hx. destruct (inv_sock _ _ HI s x Hx) as (_ & Hr & _). pose proof (inv_held _ _ HI s).
  unfold sock_hold, upd_sock, get_sock. rewrite run_assoc, run_gets. cbn [w_st W]. rewrite Hx.
  cbn. split; [done|]. set (x' := x <| sk_refcnt := sk_refcnt x + 1 |>).
  destruct (sock_upd_ok fr 1 q s x x' HI Hx) as [H1 H2]; [done..|lia|lia|]. by split.
Qed.

Lemma sock_put_ok fr q s :
  Inv fr q -> 1 <= held fr s ->
  post (sock_put s (W q)) (kept (hold s (- 1) fr) q (fun _ q' => q_heap q' = q_heap q)).
Proof.
  intros HI Hh. unfold sock_put. eapply post_get_sock; [done|by right|]. intros x Hx.
  destruct (inv_sock _ _ HI s x Hx) as (_ & Hr & _). destruct (Z.eqb_spec (sk_refcnt x) 1) as [E|E].
  - cbn. split; [done|]. by destruct (sock_delete_ok fr q s x HI Hx E Hh).
  - cbn. split; [done|]. set (x' := x <| sk_refcnt := sk_refcnt x - 1 |>).
    destruct (sock_upd_ok fr (- 1) q s x x' HI Hx) as [H1 H2]; [done..|lia|lia|]. by split.
Qed.

(** The release of a reference that was taken before. *)
Lemma put_held_ok fr q s :
  Inv (hold s 1 fr) q -> (forall t, 0 <= held fr t) -> keeps (sock_put s) fr q.
Proof.
  intros HI Hh. eapply post_mono; [apply sock_put_ok; [exact HI|by apply hold_held]|].
  intros a q' (H1 & H2 & _). apply kept_any. split; [|done]. by apply (unhold fr s).
Qed.

Lemma port_lookup_ok fr q port :
  Inv fr q -> post (qrtr_port_lookup port (W q)) (fun o q' => stable q q' /\
    match o with
    | Some s => Inv (hold s 1 fr) q' /\ exists i, xa_load (q_ports q) i = Some s
    | None => Inv fr q'
    end).
Proof.
  intros HI. unfold qrtr_port_lookup. apply post_gets. destruct (xa_load (q_ports q) _) as [s|] eqn:E.
  - destruct (ports_live fr q _ s HI E) as [x Hx]. eapply post_step; [by apply (sock_hold_ok fr q s x)|].
    intros _ q' H1 H2 _. apply post_ret. split; [done|]. split; [done|]. eauto.
  - apply post_ret. by split.
Qed.

(** ** Delivery *)

Lemma sock_queue_ok fr q s b : Inv fr q -> usable fr q s -> keeps (sock_queue_rcv_skb env s b) fr q.
Proof.
  intros HI Hu. unfold sock_queue_rcv_skb. eapply post_get_sock; [done..|]. intros x Hx.
  destruct (_ =? 0).
  - eapply post_step; [|intros _ q' H1 H2 _; apply post_ret; by split].
    apply (set_sock_ok fr q s x (fun x => x <| sk_receive_queue := sk_receive_queue x ++ [b <| skb_sk := Some s |>] |>)); [done..|].
    intros y. by split_and!.
  - rewrite run_ret. apply post_ret. by split.
Qed.

Lemma queue_ctrl_loop_ok s b : forall fuel fr q,
  Inv fr q -> usable fr q s -> keeps (queue_ctrl_loop env fuel s b) fr q.
Proof.
  induction fuel as [|fuel IH]; intros fr q HI Hu; cbn [queue_ctrl_loop].
  all: eapply post_step; [by apply (sock_queue_ok fr)|]; intros rc q1 I1 S1 _.
  all: destruct (_ || _); [|apply post_ret; by split].
  all: assert (usable fr q1 s) as Hu1 by (by eapply usable_stable).
  all: eapply post_step; [apply (upd_sock_ok fr); [done|done|intros y; by split_and!]|]; intros _ q2 I2 S2 _.
  all: apply post_bind; eapply post_mono; [apply wait_until_ok|]; intros _ q3 [-> _].
  { done. }
  eapply post_last; [by etrans|apply IH; [done|by eapply usable_stable]|done].
Qed.

Lemma queue_to_port_ok fr q s b : Inv fr q -> usable fr q s -> keeps (queue_to_port env s b) fr q.
Proof.
  intros HI Hu. unfold queue_to_port. eapply post_get_sock; [done..|]. intros x Hx.
  destruct (_ =? _); [by apply (queue_ctrl_loop_ok s b)|by apply sock_queue_ok].
Qed.

(** The owner of a buffer can be used. *)
Definition skb_owned (fr : frame) (q : qrtr) (b : sk_buff) : Prop :=
  match skb_sk b with Some s => usable fr q s | None => True end.

Lemma skb_owned_stable fr q q' b : skb_owned fr q b -> stable q q' -> skb_owned fr q' b.
Proof. unfold skb_owned. destruct (skb_sk b); [apply usable_stable|done]. Qed.

(** Put the port and free the buffer, with a result. *)
Lemma put_free_ok fr q0 q s b (rc : Z) :
  Inv (hold s 1 fr) q -> (forall t, 0 <= held fr t) -> stable q0 q ->
  post ((qrtr_port_put s ;;; kfree_skb b ;;; mret rc) (W q)) (kept fr q0 any).
Proof.
  intros HI Hh Hs. eapply post_step; [by apply put_held_ok|]. intros _ q1 I1 S1 _.
  eapply post_step; [by apply (kfree_skb_ok fr)|]. intros _ q2 I2 S2 _. apply post_ret. split; [done|].
  split; [by do 2 (etrans; [done|])|done].
Qed.

Lemma local_enqueue_ok fr q b type from to :
  Inv fr q -> skb_owned fr q b -> keeps (qrtr_local_enqueue env b type from to) fr q.
Proof.
  intros HI Ho. pose proof (inv_held _ _ HI) as Hh. unfold qrtr_local_enqueue.
  apply post_bind. eapply post_mono; [by apply port_lookup_ok|]. intros [s|] q1 [S1 H]; cycle 1.
  { eapply post_step; [by apply (kfree_skb_ok fr)|]. intros _ q2 I2 S2 _. apply post_ret. split; [done|]. split; [by etrans|done]. }
  destruct H as [I1 _]. case_bool_decide as Eb; [by apply put_free_ok|].
  assert (skb_owned (hold s 1 fr) q1 b) as Ho1.
  { apply (skb_owned_stable _ q); [|done]. unfold skb_owned in *. destruct (skb_sk b); [by apply usable_hold|done]. }
  apply post_bind. eapply (post_mono _ (fun _ q' => q' = q1)).
  { unfold skb_owned in Ho1. destruct (skb_sk b) as [k|]; [|by apply post_ret].
    eapply post_get_sock; [done..|]. intros x _. by apply post_ret. }
  intros reset q' ->. destruct reset.
  - eapply (post_step (hold s 1 fr) _ _ _ any).
    { destruct (skb_sk b); [by apply emit_ok|apply post_ret; by split]. }
    intros _ q2 I2 S2 _. apply put_free_ok; [done..|by etrans].
  - eapply post_step; [apply (queue_to_port_ok (hold s 1 fr)); [done|apply held_usable, hold_held, Hh]|].
    intros rc q2 I2 S2 _. eapply post_step; [by apply (put_held_ok fr)|]. intros _ q3 I3 S3 _.
    destruct (truth rc).
    + eapply post_step; [by apply (kfree_skb_ok fr)|]. intros _ q4 I4 S4 _. apply post_ret. split; [done|].
      split; [by do 3 (etrans; [done|])|done].
    + apply post_ret. split; [done|]. split; [by do 2 (etrans; [done|])|done].
Qed.

(** ** Flows *)

Lemma set_flow_ok fr fr' q n x key f :
  Inv fr q -> q_heap q !! n = Some x ->
  (forall s, 0 <= held fr' s) ->
  (forall s, held fr' s = held fr s + old_refs s (xa_load (n_tx_flow x) key) - occurs s (waiters f)) ->
  nheld fr' = nheld fr -> rebinding fr' = rebinding fr -> leaving fr' = leaving fr -> closing fr' = closing fr ->
  post (set_flow n key f (W q)) (kept fr' q any).
Proof.
  intros HI Hx H0 Hh En Er El Ec. destruct (inv_node _ _ HI n x Hx) as (_ & _ & Hs & Hq).
  unfold set_flow, upd_node. apply post_get_node; [by exists x|]. intros x' Hx'. rewrite Hx in Hx'. injection Hx' as <-.
  cbn. split; [done|]. apply kept_any. apply (node_upd_ok fr fr' q n x); try done.
  - rewrite En. apply HI.
  - intros m. rewrite En. cbn. destruct (n =? m); lia.
  - by apply xa_sorted_store.
  - intros s. rewrite Hh. cbn [n_tx_flow]. rewrite flow_refs_store by done. lia.
Qed.

(** A change of a flow that keeps its waiters. *)
Lemma set_flow_same_ok fr q n x key f f' :
  Inv fr q -> q_heap q !! n = Some x -> xa_load (n_tx_flow x) key = Some f -> waiters f' = waiters f ->
  keeps (set_flow n key f') fr q.
Proof.
  intros HI Hx Hf Ew. eapply (set_flow_ok fr fr q n x); try done; [apply HI|]. intros s. rewrite Hf, Ew. cbn [old_refs]. lia.
Qed.

Lemma post_get_flow {B : Type} q n key (k : option qrtr_tx_flow -> M qrtr B) Q :
  present q n -> (forall x, q_heap q !! n = Some x -> post (k (xa_load (n_tx_flow x) key) (W q)) Q) ->
  post (mbnd (get_flow n key) k (W q)) Q.
Proof.
  intros Hp Hk. unfold get_flow. rewrite run_assoc. apply post_get_node; [done|]. intros x Hx. rewrite run_ret. by apply Hk.
Qed.

Lemma flow_failed_ok fr q n dn dp : Inv fr q -> present q n -> keeps (qrtr_tx_flow_failed n dn dp) fr q.
Proof.
  intros HI Hp. unfold qrtr_tx_flow_failed. apply post_get_flow; [done|]. intros x Hx.
  destruct (xa_load _ _) as [f|] eqn:E; [|apply post_ret; by split]. by eapply set_flow_same_ok.
Qed.

(** A flow with these waiters is at the key. *)
Definition has_flow (q : qrtr) (n key : Z) : Prop :=
  exists x f, q_heap q !! n = Some x /\ xa_load (n_tx_flow x) key = Some f.

Lemma set_flow_has q n key f :
  present q n -> (forall x, q_heap q !! n = Some x -> xa_sorted (n_tx_flow x)) ->
  post (set_flow n key f (W q)) (fun _ q' => has_flow q' n key).
Proof.
  intros Hp Hs. unfold set_flow, upd_node. apply post_get_node; [done|]. intros x Hx. cbn. split; [done|].
  eexists _, f. split; [apply lookup_insert_eq|]. cbn. rewrite xa_load_store by by apply Hs. by rewrite Z.eqb_refl.
Qed.

Lemma post_and {A : Type} (o : outcome qrtr A) (Q Q' : A -> qrtr -> Prop) :
  post o Q -> post o Q' -> post o (fun a q => Q a q /\ Q' a q).
Proof. destruct o; cbn; tauto. Qed.

Lemma find_flow_ok fr q n key :
  Inv fr q -> present q n ->
  post (find_flow env n key (W q)) (kept fr q (fun found q' => found = true -> has_flow q' n key)).
Proof.
  intros HI Hp. unfold find_flow. apply post_get_flow; [done|]. intros x Hx.
  destruct (xa_load _ _) as [f|] eqn:E.
  { apply post_ret. split; [done|]. split; [done|]. intros _. by exists x, f. }
  eapply post_step; [by apply (alloc_skb_ok fr)|]. intros b q1 I1 S1 R1. destruct b; [|apply post_ret; by split].
  eapply post_step; [by apply (alloc_skb_ok fr)|]. intros b q2 I2 S2 R2. destruct b; [|apply post_ret; split; [done|split; [by etrans|done]]].
  assert (q_heap q2 !! n = Some x) as Hx2.
  { destruct R1 as (_ & _ & R1 & _), R2 as (_ & _ & R2 & _). by rewrite R2, R1. }
  apply post_bind. eapply post_mono; [apply post_and|].
  - apply (set_flow_ok fr fr q2 n x); try done; [apply I2|]. intros s. rewrite E. change (occurs s (waiters (mk_flow 0 0 []))) with 0.
    cbn [old_refs]. lia.
  - apply set_flow_has; [by exists x|]. intros y Hy. by apply (inv_node _ _ I2 n).
  - intros _ q3 [(I3 & S3 & _) F]. apply post_ret. split; [done|]. split; [by do 2 (etrans; [done|])|done].
Qed.

Lemma wait_flow_ok q n key dontwait : post (wait_flow env n key dontwait (W q)) (fun _ q' => q' = q).
Proof.
  unfold wait_flow. destruct (if dontwait then _ else _) as [turns signal]. apply post_bind.
  unfold wait_upto, W. cbn. destruct turns; cbn; destruct (flow_open n key q); done.
Qed.

Lemma tx_wait_ok fr q n to sk type dontwait :
  Inv fr q -> present q n -> usable fr q sk -> keeps (qrtr_tx_wait env n to sk type dontwait) fr q.
Proof.
  intros HI Hp Hu. unfold qrtr_tx_wait. destruct (negb _); [apply post_ret; by split|].
  eapply post_step; [by apply find_flow_ok|]. intros found q1 I1 S1 F. destruct found; cbn [negb]; [|apply post_ret; by split].
  destruct (F eq_refl) as (x & f & Hx & Hf). apply post_bind. eapply post_mono; [apply wait_flow_ok|]. intros ret q1' ->.
  apply post_get_node; [by exists x|]. intros x' Hx'. rewrite Hx in Hx'. injection Hx' as <-.
  apply post_get_flow; [by exists x|]. intros x' Hx'. rewrite Hx in Hx'. injection Hx' as <-. rewrite Hf.
  rewrite run_or_fault.
  destruct (ret <? 0); [apply post_ret; by split|]. case_bool_decide as He; [apply post_ret; by split|].
  destruct (truth (tx_failed f)).
  { eapply post_step; [by eapply (set_flow_same_ok fr q1 n x)|]. intros _ q2 I2 S2 _. apply post_ret. split; [done|]. split; [by etrans|done]. }
  destruct (_ && _); cycle 1.
  { eapply post_step; [by eapply (set_flow_same_ok fr q1 n x)|]. intros _ q2 I2 S2 _. apply post_ret. split; [done|]. split; [by etrans|done]. }
  case_bool_decide; [apply post_ret; by split|].
  eapply post_step; [by apply (alloc_skb_ok fr)|]. intros b q2 I2 S2 R2. destruct b; cbn [negb]; [|apply post_ret; split; [done|split; [by etrans|done]]].
  assert (usable fr q2 sk) as Hu2 by (eapply usable_stable; [by eapply usable_stable|done]).
  destruct (usable_live _ _ _ I2 Hu2) as [y Hy]. apply post_bind.
  eapply post_mono; [by apply (sock_hold_ok fr q2 sk y)|]. intros _ q3 (I3 & S3 & Eh). apply post_bind. destruct R2 as (_ & _ & R2 & _).
  eapply post_mono; [apply (set_flow_ok (hold sk 1 fr) fr q3 n x)|]; try done.
  - congruence.
  - apply HI.
  - intros s. rewrite Hf. change (waiters (f <| waiters := ?l |>)) with l. rewrite occurs_app, occurs_cons. cbn -[Z.add].
    change (occurs s []) with 0. destruct (Z.eqb_spec sk s); case_bool_decide; cbn; lia || done.
  - intros _ q4 (I4 & S4 & _). apply post_ret. split; [done|]. split; [by do 3 (etrans; [done|])|done].
Qed.

(** ** Resuming a flow *)

(** The frame that also holds a reference for every socket of a list. *)
Definition hold_all (l : list Z) (fr : frame) : frame := fr <| held := fun s => held fr s + occurs s l |>.

Lemma hold_all_nil fr q : Inv (hold_all [] fr) q -> Inv fr q.
Proof. apply Inv_ext; try done. intros s. cbn -[Z.add]. change (occurs s []) with 0. lia. Qed.

Lemma hold_all_cons fr q s l : Inv (hold s (- 1) (hold_all (s :: l) fr)) q -> Inv (hold_all l fr) q.
Proof.
  apply Inv_ext; try done. intros t. cbn -[Z.add]. rewrite occurs_cons.
  destruct (Z.eqb_spec s t); case_bool_decide; cbn -[Z.add]; lia || done.
Qed.

Lemma hold_all_held fr s l : 0 <= held fr s -> 1 <= held (hold_all (s :: l) fr) s.
Proof. intros H. cbn -[Z.add]. rewrite occurs_cons, bool_decide_true by done. pose proof (occurs_nonneg s l). cbn -[Z.add]. lia. Qed.

(** References that are given back one by one. *)
Lemma for_each_put_ok fr (body : Z -> M qrtr unit) :
  (forall t, 0 <= held fr t) ->
  (forall s l q, Inv (hold_all (s :: l) fr) q -> post (body s (W q)) (kept (hold s (- 1) (hold_all (s :: l) fr)) q any)) ->
  forall l q, Inv (hold_all l fr) q -> post (for_each l body (W q)) (kept fr q any).
Proof.
  intros Hh Hb. induction l as [|s l IH]; intros q HI; cbn [for_each].
  - apply post_ret. apply kept_any. split; [by apply hold_all_nil|done].
  - eapply post_step; [by apply Hb|]. intros _ q1 I1 S1 _. eapply post_last; [exact S1| |done].
    apply IH. by apply hold_all_cons in I1.
Qed.

Lemma tx_resume_ok fr q n b : Inv fr q -> present q n -> keeps (qrtr_tx_resume env n b) fr q.
Proof.
  intros HI Hp. pose proof (inv_held _ _ HI) as Hh. unfold qrtr_tx_resume. destruct (negb _); [apply post_ret; by split|].
  apply post_get_flow; [done|]. intros x Hx. destruct (xa_load _ _) as [f|] eqn:Ef; [|apply post_ret; by split].
  apply post_bind. eapply post_mono; [apply (set_flow_ok fr (hold_all (waiters f) fr) q n x)|]; try done.
  { intros s. cbn -[Z.add]. pose proof (occurs_nonneg s (waiters f)). specialize (Hh s). lia. }
  { intros s. rewrite Ef. cbn -[Z.add]. change (occurs s []) with 0. lia. }
  intros _ q1 (I1 & S1 & _). eapply post_step; [apply (for_each_put_ok fr); [done| |exact I1]|].
  - intros s l q2 I2. set (fr' := hold_all (s :: l) fr) in *. assert (1 <= held fr' s) as Hs by by apply hold_all_held.
    eapply post_step; [by apply (alloc_skb_ok fr')|]. intros ok q3 I3 S3 _. eapply (post_step fr' _ _ _ any).
    { destruct ok; [|apply post_ret; by split]. eapply post_get_sock; [done|by right|]. intros y Hy.
      eapply post_step; [by apply (local_enqueue_ok fr')|]. intros _ q4 I4 S4 _. apply post_ret. by split. }
    intros _ q4 I4 S4 _. eapply post_last; [by etrans|by apply sock_put_ok|done].
  - intros _ q2 I2 S2 _. eapply post_last; [by etrans|by apply kfree_skb_ok|done].
Qed.

(** ** Padding *)

Lemma pad_frags_some padto frags : forall s,
  Forall (fun f => 0 <= f) frags -> pd_count s <= pd_len s -> pd_padding s = padto - pd_len s -> 0 <= pd_padding s ->
  is_Some (pad_frags env frags padto s).
Proof.
  induction frags as [|f frags IH]; intros s Hf Hc Hp Hp0; cbn [pad_frags]; [eauto|].
  apply Forall_cons in Hf as [Hf0 Hf]. destruct (Z.ltb_spec (pd_count s + f) (pd_len s)) as [Hlt|Hge].
  - apply IH; cbn; [done|lia|lia|lia].
  - rewrite (env_pages _ Eok). destruct (Z.leb_spec padto (pd_count s + f)) as [Hfit|Hfit].
    + cbn [pad_fit]. destruct (Z.ltb_spec (pd_count s + f) padto); [lia|].
      assert (pad_memset s (pd_len s - pd_count s) (pd_padding s) f = true) as ->.
      { unfold pad_memset. rewrite !andb_true_iff, Z.eqb_eq, !Z.leb_le. lia. }
      cbn. rewrite Z.eqb_refl. eauto.
    + cbn [pad_split]. destruct (Z.ltb_spec (pd_count s + f) (pd_len s)); [lia|].
      destruct (Z.ltb_spec (pd_count s + f) padto); [|lia].
      assert (pad_memset s (pd_len s - pd_count s) (f - (pd_len s - pd_count s)) f = true) as ->.
      { unfold pad_memset. rewrite !andb_true_iff, Z.eqb_eq, !Z.leb_le. lia. }
      cbn [pd_len]. destruct (_ =? _); [eauto|]. apply IH; cbn; [done|lia|lia|lia].
Qed.

Lemma pad_word_some b : skb_wf b -> is_Some (qrtr_pad_word_pskb env b).
Proof.
  intros [Hd Hf]. unfold qrtr_pad_word_pskb. destruct (_ =? 0) eqn:E; [eauto|].
  pose proof (ALIGN_4_bounds (skb_len b)).
  destruct (pad_frags_some (ALIGN (skb_len b) 4) (skb_frags b)
    (mk_pad (skb_len b - skb_data_len b) (skb_len b) (skb_data_len b) (ALIGN (skb_len b) 4 - skb_len b)))
    as [s ->]; cbn; [done|lia|lia|lia|eauto].
Qed.

Lemma put_padto_ok fr q b to : Inv fr q -> keeps (skb_put_padto env b to) fr q.
Proof.
  intros HI. unfold skb_put_padto. destruct (_ <=? _); [apply post_ret; by split|].
  eapply post_step; [by apply (alloc_skb_ok fr)|]. intros ok q1 I1 S1 _. destruct ok; [apply post_ret; by split|].
  eapply post_step; [by apply (kfree_skb_ok fr)|]. intros _ q2 I2 S2 _. apply post_ret. split; [done|]. split; [by etrans|done].
Qed.

(** ** Sending through a node *)

Lemma hello_gate_ok fr q n type : Inv fr q -> present q n -> keeps (hello_gate n type) fr q.
Proof.
  intros HI Hp. unfold hello_gate. apply post_get_node; [done|]. intros x Hx.
  destruct (_ && _); [apply post_ret; by split|]. destruct (_ && _); [apply post_ret; by split|].
  eapply (post_step fr _ _ _ any); [|intros _ q1 I1 S1 _; apply post_ret; by split].
  destruct (_ && _); [|apply post_ret; by split].
  apply (set_node_ok fr q n x (fun x => x <| n_hello_sent := n_hello_sent x + 1 |>)); [done..|]. intros y. by split_and!.
Qed.

Lemma xmit_skb_ok fr q n b : Inv fr q -> present q n -> keeps (xmit_skb env n b) fr q.
Proof.
  intros HI Hp. unfold xmit_skb. apply post_get_node; [done|]. intros x Hx. destruct (n_ep x) as [ep|].
  - apply post_gets. eapply post_step; [by apply (emit_ok fr)|]. intros _ q1 I1 S1 _. apply post_ret. by split.
  - eapply post_step; [by apply (kfree_skb_ok fr)|]. intros _ q1 I1 S1 _. apply post_ret. by split.
Qed.

Lemma node_enqueue_ok fr q n b type from to dontwait :
  Inv fr q -> present q n -> skb_owned fr q b -> skb_wf b -> keeps (qrtr_node_enqueue env n b type from to dontwait) fr q.
Proof.
  intros HI Hp Ho Hw. unfold qrtr_node_enqueue.
  eapply post_step; [by apply (hello_gate_ok fr)|]. intros pass q1 I1 S1 _. pose proof (st_node _ _ S1 n Hp) as Hp1.
  destruct pass; cbn [negb]; cycle 1.
  { eapply post_step; [by apply (kfree_skb_ok fr)|]. intros _ q2 I2 S2 _. apply post_ret. split; [done|]. split; [by etrans|done]. }
  eapply (post_step fr _ _ _ any).
  { apply (skb_owned_stable _ _ q1) in Ho; [|done]. unfold skb_owned in Ho. destruct (skb_sk b) as [k|]; [|apply post_ret; by split].
    by apply tx_wait_ok. }
  intros confirm q2 I2 S2 _. pose proof (st_node _ _ S2 n Hp1) as Hp2. destruct (confirm <? 0).
  { eapply post_step; [by apply (kfree_skb_ok fr)|]. intros _ q3 I3 S3 _. apply post_ret. split; [done|].
    split; [by do 2 (etrans; [done|])|done]. }
  apply post_get_node; [done|]. intros x Hx. set (b1 := b <| skb_bytes := _ |>).
  assert (skb_wf b1) as Hw1 by done.
  eapply (post_step fr _ _ _ any).
  { destruct (truth _); [|by apply put_padto_ok]. destruct (pad_word_some b1 Hw1) as [b2 ->]. rewrite run_or_fault. apply post_ret. by split. }
  intros padded q3 I3 S3 _. pose proof (st_node _ _ S3 n Hp2) as Hp3. eapply (post_step fr _ _ _ any).
  { destruct padded; [by apply xmit_skb_ok|apply post_ret; by split]. }
  intros rc q4 I4 S4 _. pose proof (st_node _ _ S4 n Hp3) as Hp4. eapply (post_step fr _ _ _ any).
  { destruct (_ && _); [by apply flow_failed_ok|apply post_ret; by split]. }
  intros _ q5 I5 S5 _. pose proof (st_node _ _ S5 n Hp4) as Hp5. eapply (post_step fr _ _ _ any).
  { destruct (_ && _); [|apply post_ret; by split]. apply upd_node_ok; [done..|]. intros y. by split_and!. }
  intros _ q6 I6 S6 _. apply post_ret. split; [done|]. split; [|done]. by do 5 (etrans; [done|]).
Qed.

(** ** References to nodes *)

(** A node that is registered, as far as the frame knows. *)
Definition registered (q : qrtr) (n : Z) : Prop := exists x, q_heap q !! n = Some x /\ n_ep x <> None.

Lemma registered_stable q q' n : registered q n -> stable q q' -> registered q' n.
Proof.
  intros (x & Hx & He) Hs. destruct (st_node _ _ Hs n) as [y Hy]; [by exists x|].
  exists y. split; [done|]. by rewrite (st_ep _ _ Hs n x y).
Qed.

Lemma registered_present q n : registered q n -> present q n.
Proof. intros (x & Hx & _). by exists x. Qed.

(** A change of the count of a node, with the frame. *)
Lemma node_ref_ok fr q n x d :
  Inv fr q -> q_heap q !! n = Some x -> 0 <= nheld fr n + d ->
  keeps (set_node n (x <| n_ref := n_ref x + d |>)) (nhold n d fr) q.
Proof.
  intros HI Hx Hd. destruct (inv_node _ _ HI n x Hx) as (_ & _ & Hs & Hq). pose proof (inv_nheld _ _ HI) as Hn.
  cbn. split; [done|]. apply kept_any. apply (node_upd_ok fr (nhold n d fr) q n x); try done.
  - intros m. cbn -[Z.add]. specialize (Hn m). destruct (Z.eqb_spec n m) as [<-|]; lia.
  - intros m. cbn -[Z.add]. destruct (n =? m); lia.
  - apply HI.
  - intros s. cbn -[Z.add]. lia.
Qed.

Lemma nunhold fr n q : Inv (nhold n (- 1) (nhold n 1 fr)) q -> Inv fr q.
Proof. apply Inv_ext; try done. intros m. cbn. destruct (n =? m); lia. Qed.

Lemma node_lookup_ok fr q nid :
  Inv fr q -> (forall n, ~ leaving fr n) ->
  post (qrtr_node_lookup nid (W q)) (fun o q' => stable q q' /\
    match o with Some n => Inv (nhold n 1 fr) q' /\ registered q' n | None => Inv fr q' end).
Proof.
  intros HI Hl. unfold qrtr_node_lookup. eapply post_step; [by apply (down_read_ok fr)|]. intros _ q1 I1 S1 _.
  apply post_gets. destruct (xa_load (q_nodes q1) nid) as [n|] eqn:E.
  - pose proof (inv_nodes _ _ I1 nid n E) as He. destruct (inv_epts _ _ I1 n He) as (x & Hx & [Ho|Ho]); [|by destruct (Hl n)].
    eapply (post_step (nhold n 1 fr) _ _ _ any).
    { unfold qrtr_node_acquire, upd_node. apply post_get_node; [by exists x|]. intros y Hy. rewrite Hx in Hy. injection Hy as <-.
      apply node_ref_ok; [done..|]. pose proof (inv_nheld _ _ I1 n). lia. }
    intros _ q2 I2 S2 _. eapply post_step; [by apply (up_read_ok (nhold n 1 fr))|]. intros _ q3 I3 S3 _.
    apply post_ret. split; [by do 2 (etrans; [done|])|]. split; [done|].
    eapply registered_stable; [|exact S3]. eapply registered_stable; [|exact S2]. by exists x.
  - rewrite run_ret. eapply post_step; [by apply (up_read_ok fr)|]. intros _ q2 I2 S2 _. apply post_ret. split; [by etrans|done].
Qed.

(** Giving back a reference to a registered node never frees it. *)
Lemma node_release_ok fr q n :
  Inv (nhold n 1 fr) q -> (forall m, 0 <= nheld fr m) -> registered q n -> keeps (qrtr_node_release (Some n)) fr q.
Proof.
  intros HI Hn (x & Hx & Ho). cbn [qrtr_node_release]. unfold kref_put_rwsem_lock. apply post_get_node; [by exists x|].
  intros y Hy. rewrite Hx in Hy. injection Hy as <-. destruct (inv_node _ _ HI n x Hx) as (Er & _).
  assert (owner x = 1) as Eo by (unfold owner; by destruct (n_ep x)).
  cbn -[Z.add] in Er. rewrite Z.eqb_refl in Er. specialize (Hn n). destruct (Z.eqb_spec (n_ref x) 1) as [|_]; [lia|]. cbn [negb].
  eapply post_mono; [apply (node_ref_ok (nhold n 1 fr) q n x (- 1)); [done|done|cbn -[Z.add]; rewrite Z.eqb_refl; lia]|].
  intros a q' (I1 & S1 & _). apply kept_any. split; [by apply nunhold in I1|done].
Qed.

Lemma node_assign_ok fr q n nid :
  Inv fr q -> n ∈ q_all_epts q -> keeps (qrtr_node_assign env n nid) fr q.
Proof.
  intros HI He. destruct (inv_epts _ _ HI n He) as (x & Hx & _). unfold qrtr_node_assign.
  apply post_get_node; [by exists x|]. intros y Hy. rewrite Hx in Hy. injection Hy as <-.
  destruct (_ || _); [apply post_ret; by split|]. apply post_gets.
  eapply (post_step fr _ _ _ (fun _ q' => q_heap q' = q_heap q)).
  - destruct (xa_load (q_nodes q) nid) as [m|] eqn:E; [apply post_ret; by split|].
    eapply post_step; [by apply (alloc_skb_ok fr)|]. intros ok q1 I1 S1 (_ & _ & R1 & R2 & R3 & _). destruct ok; [|apply post_ret; by split].
    cbn. split; [done|]. split; [|split; [|done]].
    + pose proof (inv_nodes _ _ I1) as Hnodes. destruct I1. split; cbn; try done; [by apply xa_sorted_store|].
      intros k m. rewrite xa_load_store by done. destruct (nid =? k); [intros [= <-]; by rewrite R3|apply Hnodes].
    + etrans; [exact S1|]. split; try done; cbn; [intros m y y' K1 K2; congruence|]. intros s y y' K1 K2. by simplify_eq.
  - intros _ q1 I1 S1 Eh. destruct (_ =? _); [|apply post_ret; by split]. eapply post_last; [exact S1| |done].
    apply (set_node_ok fr q1 n x (fun x => x <| n_nid := nid |>)); [done|congruence|]. intros y. by split_and!.
Qed.

(** ** Backup buffers *)

Lemma refill_ok fr want : forall fuel have q, Inv fr q -> keeps (refill env fuel have want) fr q.
Proof.
  induction fuel as [|fuel IH]; intros have q HI; cbn [refill].
  all: destruct (_ <? _)%nat; [|apply post_ret; by split].
  all: eapply post_step; [by apply (alloc_skb_ok fr)|]; intros ok q1 I1 S1 _; destruct ok; [|apply post_ret; by split].
  { done. }
  eapply post_last; [exact S1|by apply IH|done].
Qed.

Lemma alloc_backup_ok fr q : Inv fr q -> keeps (qrtr_alloc_backup env) fr q.
Proof.
  intros HI. unfold qrtr_alloc_backup. eapply post_step; [apply (misc_ok fr); [done|intros; by split_and!]|].
  intros _ q1 I1 S1 _. apply post_gets. eapply post_step; [by apply (refill_ok fr)|]. intros lo q2 I2 S2 _.
  eapply post_step; [apply (misc_ok fr); [done|intros; by split_and!]|]. intros _ q3 I3 S3 _. apply post_gets.
  eapply post_step; [by apply (refill_ok fr)|]. intros hi q4 I4 S4 _.
  eapply post_last; [by do 3 (etrans; [done|])|apply misc_ok; [done|intros; by split_and!]|done].
Qed.

Lemma get_backup_ok fr q len : Inv fr q -> keeps (qrtr_get_backup len) fr q.
Proof.
  intros HI. unfold qrtr_get_backup. apply post_gets. apply post_gets.
  destruct (_ <? _); [|destruct (_ <? _); [|apply post_ret; by split]].
  all: destruct (_ : nat); [apply post_ret; by split|].
  all: eapply post_step; [apply (misc_ok fr); [done|intros; by split_and!]|]; intros _ q1 I1 S1 _; apply post_ret; by split.
Qed.

(** ** Packets from an endpoint *)

(** The report of a failed allocation reads a whole header. *)
Lemma parse_header_some data : (32 <= length data)%nat -> is_Some (qrtr_parse_header data).
Proof.
  intros Hl. unfold qrtr_parse_header. rewrite field_some by lia. cbn [mbind option_bind].
  destruct (_ =? _); [|destruct (_ =? _); [|eauto]].
  - destruct (hdr_v1_at_some data) as [h ->]; [lia|]. cbn. eauto.
  - destruct (hdr_v2_at_some data) as [h ->]; [lia|]. cbn. eauto.
Qed.

(** A packet for which there is memory, or that has a whole header. *)
Definition reportable (q : qrtr) (data : list Z) : Prop :=
  e_alloc env (q_allocs q) = true \/ (32 <= length data)%nat.

Lemma post_alloc_ok fr q data :
  Inv fr q -> reportable q data ->
  post (post_alloc env data (W q)) (kept fr q (fun o _ =>
    match o with Some frags => Forall (fun f => 0 <= f) frags | None => True end)).
Proof.
  intros HI Hr. unfold post_alloc. apply post_bind.
  eapply (post_mono _ (kept fr q (fun b _ => b = e_alloc env (q_allocs q)))).
  { pose proof (alloc_skb_ok fr q HI) as H. unfold alloc_skb, kmalloc, mbnd in *. cbn in *. destruct H as (? & ? & ? & ?).
    split; [done|]. split; [done|]. split; [done|]. by destruct (e_alloc env _). }
  intros b q1 (I1 & S1 & ->). destruct (e_alloc env (q_allocs q)) eqn:Ea.
  { apply post_ret. split; [done|]. split; [done|]. apply env_frags, Eok. }
  eapply post_step; [by apply (get_backup_ok fr)|]. intros o q2 I2 S2 _. destruct o as [size|].
  { apply post_ret. split; [done|]. split; [by etrans|apply env_frags, Eok]. }
  destruct Hr as [Hr|Hr]; [congruence|]. destruct (parse_header_some data Hr) as [r Er].
  unfold qrtr_print_skb_failure_reason. rewrite Er, run_assoc, run_or_fault, run_ret. apply post_ret.
  split; [done|]. split; [by etrans|done].
Qed.

Lemma rx_queue_push_ok fr q n b :
  Inv fr q -> present q n -> fwd_wf b ->
  keeps (upd_node n (fun x => x <| n_rx_queue := n_rx_queue x ++ [b] |> <| n_read_data := true |>)) fr q.
Proof.
  intros HI Hp Hb. apply upd_node_ok; [done..|]. intros x. split_and!; try done. intros Hq. cbn. apply Forall_app.
  split; [done|]. by constructor.
Qed.

Lemma post_deliver_ok fr q n b : Inv fr q -> present q n -> fwd_wf b -> keeps (post_deliver env n b) fr q.
Proof.
  intros HI Hp Hb. pose proof (inv_held _ _ HI) as Hh. unfold post_deliver. apply post_gets. destruct (_ || _).
  { eapply post_step; [by apply (rx_queue_push_ok fr)|]. intros _ q1 I1 S1 _.
    eapply post_step; [by apply (emit_ok fr)|]. intros _ q2 I2 S2 _. apply post_ret. split; [done|]. split; [by etrans|done]. }
  apply post_bind. eapply post_mono; [by apply port_lookup_ok|]. intros [s|] q1 [S1 H]; cycle 1.
  { eapply post_step; [by apply (kfree_skb_ok fr)|]. intros _ q2 I2 S2 _. apply post_ret. split; [done|]. split; [by etrans|done]. }
  destruct H as [I1 _]. eapply post_step; [apply (sock_queue_ok (hold s 1 fr)); [done|apply held_usable, hold_held, Hh]|].
  intros rc q2 I2 S2 _. destruct (truth rc); [apply put_free_ok; [done..|by etrans]|].
  apply post_get_node; [apply (st_node _ _ S2), (st_node _ _ S1), Hp|]. intros x Hx.
  eapply (post_step (hold s 1 fr) _ _ _ any).
  { destruct (xa_load _ _); [apply post_ret; by split|by apply emit_ok]. }
  intros _ q3 I3 S3 _. eapply post_step; [by apply (put_held_ok fr)|]. intros _ q4 I4 S4 _. apply post_ret.
  split; [done|]. split; [by do 3 (etrans; [done|])|done].
Qed.

Lemma free_err_ok fr q0 q b (rc : Z) : Inv fr q -> stable q0 q -> post ((kfree_skb b ;;; mret rc) (W q)) (kept fr q0 any).
Proof.
  intros HI Hs. eapply post_step; [by apply (kfree_skb_ok fr)|]. intros _ q1 I1 S1 _. apply post_ret. split; [done|]. split; [by etrans|done].
Qed.

Lemma endpoint_post_ok fr q ep n data :
  Inv fr q -> q_eps q !! ep = Some n -> n ∈ q_all_epts q -> is_bytes data -> reportable q data ->
  keeps (qrtr_endpoint_post env ep data) fr q.
Proof.
  intros HI He Hn Hb Hr. unfold qrtr_endpoint_post. destruct (Z.eqb_spec (Z.of_nat (length data)) 0) as [|Hne]; [apply post_ret; by split|].
  cbn [orb]. destruct (truth _); [apply post_ret; by split|].
  eapply post_step; [by apply (post_alloc_ok fr)|]. intros [frags|] q1 I1 S1 Hf; [|apply post_ret; by split].
  destruct (post_header_total data) as [h Eh]; [by intros ->|]. rewrite Eh, run_or_fault.
  destruct h as [[[cb hdrlen] size]|e]; [|by apply free_err_ok].
  destruct (post_checks _ cb hdrlen size) as [cb'|] eqn:Ec; [|by apply free_err_ok].
  destruct (post_header_range _ _ _ _ Hb Eh) as [R1 R2]. destruct (post_checks_size _ _ _ _ _ Ec) as [Hs Elen].
  pose proof (ALIGN_4_bounds size). rewrite (proj2 (Z.leb_le _ _)) by lia. rewrite run_ret.
  set (payload := take _ _). set (b := mk_skb None cb' payload size frags).
  assert (fwd_wf b) as Hwf by (split; [done|]; split; [cbn; lia|done]).
  apply post_gets. rewrite (st_eps _ _ S1), He, run_or_fault.
  assert (n ∈ q_all_epts q1) as Hn1 by (by rewrite (st_epts _ _ S1)).
  eapply post_step; [by apply (node_assign_ok fr)|]. intros _ q2 I2 S2 _.
  assert (n ∈ q_all_epts q2) as Hn2 by (by rewrite (st_epts _ _ S2)).
  eapply (post_step fr _ _ _ any).
  { destruct (Z.eqb_spec (cb_type cb') QRTR_TYPE_NEW_SERVER) as [Et|_]; [|apply post_ret; by split].
    rewrite field_some; [rewrite run_or_fault; by apply node_assign_ok|].
    apply post_checks_new_server in Ec; [|done]. unfold sizeof_ctrl_pkt in Ec. unfold payload. rewrite length_take, length_drop. lia. }
  intros _ q3 I3 S3 _. assert (present q3 n) as Hp.
  { destruct (inv_epts _ _ I2 n Hn2) as (x & Hx & _). apply (st_node _ _ S3). by exists x. }
  eapply post_last; [by do 2 (etrans; [done|])|by apply post_deliver_ok|done].
Qed.

(** ** Forwarding *)

(** Two steps of which the first leaves the state as it is. *)
Lemma post_node_view {B : Type} q n (k : option (Z * qrtr_node) -> M qrtr B) Q :
  present q n -> (forall x, q_heap q !! n = Some x -> post (k (Some (n, x)) (W q)) Q) ->
  post (mbnd (node_view (Some n)) k (W q)) Q.
Proof.
  intros Hp Hk. unfold node_view. rewrite run_assoc. apply post_get_node; [done|]. intros x Hx. rewrite run_ret. by apply Hk.
Qed.

Lemma epts_present fr q n : Inv fr q -> n ∈ q_all_epts q -> present q n.
Proof. intros HI Hn. destruct (inv_epts _ _ HI n Hn) as (x & Hx & _). by exists x. Qed.

Lemma Forall_present l q q' : Forall (present q) l -> stable q q' -> Forall (present q') l.
Proof. intros H Hs. eapply Forall_impl; [exact H|]. intros n. apply (st_node _ _ Hs). Qed.

Lemma fwd_loop_ok fr src b : skb_wf b -> forall epts q,
  Inv fr q -> present q src -> Forall (present q) epts -> keeps (fwd_loop env epts src b) fr q.
Proof.
  intros Hw. induction epts as [|n epts IH]; intros q HI Hsrc Hp; cbn [fwd_loop]; [apply post_ret; by split|].
  apply Forall_cons in Hp as [Hn Hp]. apply post_node_view; [done|]. intros xs Hxs. apply post_node_view; [done|]. intros x Hx.
  apply post_get_node; [done|]. intros y Hy. destruct (negb _); [by apply IH|].
  eapply post_step; [by apply (alloc_skb_ok fr)|]. intros ok q1 I1 S1 _. destruct ok; cbn [negb]; [|apply post_ret; by split].
  eapply post_step; [apply (node_enqueue_ok fr); [done|by apply (st_node _ _ S1)|done|done]|]. intros _ q2 I2 S2 _.
  eapply post_last; [by etrans|apply IH; [done| |]|done].
  - by apply (st_node _ _ S2), (st_node _ _ S1).
  - eapply Forall_present; [by eapply Forall_present|done].
Qed.

Lemma fwd_ctrl_pkt_ok fr q src b : Inv fr q -> present q src -> skb_wf b -> keeps (qrtr_fwd_ctrl_pkt env src b) fr q.
Proof.
  intros HI Hs Hw. unfold qrtr_fwd_ctrl_pkt. eapply post_step; [by apply (down_read_ok fr)|]. intros _ q1 I1 S1 _.
  apply post_gets. eapply post_step; [apply (fwd_loop_ok fr); [done|done|by apply (st_node _ _ S1)|]|].
  { apply Forall_forall. intros n Hn. by apply (epts_present fr). }
  intros _ q2 I2 S2 _. eapply post_last; [by etrans|by apply up_read_ok|done].
Qed.

Lemma fwd_pkt_ok fr q b cb :
  Inv fr q -> (forall n, ~ leaving fr n) -> fwd_wf b -> keeps (qrtr_fwd_pkt env b cb) fr q.
Proof.
  intros HI Hl [Ho Hw]. pose proof (inv_nheld _ _ HI) as Hn. unfold qrtr_fwd_pkt.
  apply post_bind. eapply post_mono; [by apply node_lookup_ok|]. intros [n|] q1 [S1 H]; cycle 1.
  { eapply post_last; [exact S1|by apply kfree_skb_ok|done]. }
  destruct H as [I1 R1]. eapply post_step; [apply (node_enqueue_ok (nhold n 1 fr)); [done|by apply registered_present| |done]|].
  { unfold skb_owned. by rewrite Ho. }
  intros _ q2 I2 S2 _. eapply post_last; [by etrans|apply node_release_ok; [done..|by eapply registered_stable]|done].
Qed.

Lemma sock_queue_skb_ok fr q n b s :
  Inv fr q -> present q n -> usable fr q s -> keeps (qrtr_sock_queue_skb env n b s) fr q.
Proof.
  intros HI Hp Hu. unfold qrtr_sock_queue_skb. apply post_get_node; [done|]. intros x Hx.
  destruct (_ && _); [by apply kfree_skb_ok|]. eapply (post_step fr _ _ _ any).
  { destruct (_ =? _); [|apply post_ret; by split].
    apply (set_node_ok fr q n x (fun x => x <| n_hello_rcvd := n_hello_rcvd x + 1 |>)); [done..|]. intros y. by split_and!. }
  intros _ q1 I1 S1 _. eapply post_step; [apply (queue_to_port_ok fr); [done|by eapply usable_stable]|]. intros rc q2 I2 S2 _.
  destruct (truth rc); [|apply post_ret; split; [done|split; [by etrans|done]]].
  eapply post_last; [by etrans|by apply kfree_skb_ok|done].
Qed.

Lemma rx_one_ok fr q n b :
  Inv fr q -> (forall n, ~ leaving fr n) -> present q n -> fwd_wf b -> keeps (rx_one env n b) fr q.
Proof.
  intros HI Hl Hp Hb. pose proof (inv_held _ _ HI) as Hh. unfold rx_one. apply post_gets. eapply (post_step fr _ _ _ any).
  { destruct (negb _); [|apply post_ret; by split]. apply fwd_ctrl_pkt_ok; [done..|apply Hb]. }
  intros _ q1 I1 S1 _. pose proof (st_node _ _ S1 n Hp) as Hp1.
  destruct (_ =? _); [destruct (negb _)|destruct (_ && _)].
  - eapply post_last; [exact S1|by apply fwd_pkt_ok|done].
  - eapply post_last; [exact S1|by apply tx_resume_ok|done].
  - eapply post_last; [exact S1|by apply fwd_pkt_ok|done].
  - apply post_bind. eapply post_mono; [by apply port_lookup_ok|]. intros [s|] q2 [S2 H]; cycle 1.
    { eapply post_last; [by etrans|by apply kfree_skb_ok|done]. }
    destruct H as [I2 _]. eapply post_step; [apply (sock_queue_skb_ok (hold s 1 fr)); [done|by apply (st_node _ _ S2)|]|].
    { apply held_usable, hold_held, Hh. }
    intros _ q3 I3 S3 _. eapply post_last; [by do 2 (etrans; [done|])|by apply put_held_ok|done].
Qed.

Lemma rx_work_ok fr n : (forall n, ~ leaving fr n) -> forall fuel q,
  Inv fr q -> present q n -> keeps (qrtr_node_rx_work env fuel n) fr q.
Proof.
  intros Hl. unfold qrtr_node_rx_work. induction fuel as [|fuel IH]; intros q HI Hp; cbn [rx_work_loop].
  all: apply post_get_node; [done|]; intros x Hx; destruct (inv_node _ _ HI n x Hx) as (_ & _ & _ & Hq).
  all: destruct (n_rx_queue x) as [|b rest] eqn:Eq; [apply post_ret; by split|]; apply Forall_cons in Hq as [Hb Hq].
  all: apply post_bind; eapply post_mono.
  1, 3: cbn; split; [done|]; apply (kept_any fr q);
    apply (node_same_ok fr q n x); try done; by apply (inv_node _ _ HI n x).
  all: intros _ q1 (I1 & S1 & _); pose proof (st_node _ _ S1 n Hp) as Hp1.
  all: eapply post_step; [by apply (rx_one_ok fr)|]; intros _ q2 I2 S2 _.
  { done. }
  eapply post_last; [by etrans|apply IH; [done|by apply (st_node _ _ S2)]|done].
Qed.

Lemma alloc_ctrl_ok fr q pkt :
  Inv fr q -> post (qrtr_alloc_ctrl_packet env pkt (W q)) (kept fr q (fun o _ =>
    match o with Some b => fwd_wf b | None => True end)).
Proof.
  intros HI. unfold qrtr_alloc_ctrl_packet. eapply post_step; [by apply (alloc_skb_ok fr)|]. intros ok q1 I1 S1 _.
  apply post_ret. split; [done|]. split; [done|]. destruct ok; [|done]. split; [done|]. split; [done|constructor].
Qed.

Lemma fwd_owned fr q b : fwd_wf b -> skb_owned fr q b.
Proof. intros [E _]. unfold skb_owned. by rewrite E. Qed.

Lemma hello_work_ok fr q n : Inv fr q -> present q n -> keeps (qrtr_hello_work env n) fr q.
Proof.
  intros HI Hp. pose proof (inv_held _ _ HI) as Hh. unfold qrtr_hello_work.
  apply post_bind. eapply post_mono; [by apply port_lookup_ok|]. intros [c|] q1 [S1 H]; [|apply post_ret; by split].
  destruct H as [I1 _]. eapply post_step; [by apply (alloc_ctrl_ok (hold c 1 fr))|]. intros [b|] q2 I2 S2 Hb; cycle 1.
  { eapply post_last; [by etrans|by apply put_held_ok|done]. }
  assert (present q2 n) as Hp2 by (by apply (st_node _ _ S2), (st_node _ _ S1)).
  apply post_gets. apply post_get_node; [done|]. intros x Hx.
  eapply post_step; [apply (node_enqueue_ok (hold c 1 fr)); [done|done|by apply fwd_owned|apply Hb]|]. intros _ q3 I3 S3 _.
  eapply post_last; [by do 2 (etrans; [done|])|by apply put_held_ok|done].
Qed.

Lemma kworker_ok fr q fuel n :
  Inv fr q -> (forall n, ~ leaving fr n) -> present q n -> keeps (qrtr_kworker env fuel n) fr q.
Proof.
  intros HI Hl Hp. unfold qrtr_kworker. apply post_get_node; [done|]. intros x Hx. eapply (post_step fr _ _ _ any).
  { destruct (n_read_data x); [|apply post_ret; by split]. eapply post_step.
    - apply (set_node_ok fr q n x (fun x => x <| n_read_data := false |>)); [done..|]. intros y. by split_and!.
    - intros _ q1 I1 S1 _. eapply post_last; [exact S1|apply rx_work_ok; [done|done|by apply (st_node _ _ S1)]|done]. }
  intros _ q1 I1 S1 _. apply post_get_node; [by apply (st_node _ _ S1)|]. intros y Hy.
  destruct (n_say_hello y); [|apply post_ret; by split]. eapply post_step.
  - apply (set_node_ok fr q1 n y (fun x => x <| n_say_hello := false |>)); [done..|]. intros z. by split_and!.
  - intros _ q2 I2 S2 _. eapply post_last; [by etrans|apply hello_work_ok; [done|]|done].
    by apply (st_node _ _ S2), (st_node _ _ S1).
Qed.

(** ** Endpoints *)

Lemma no_wake_ok fr : forall l x q, Inv fr q ->
  post (no_wake_array env l x (W q)) (kept fr q (fun _ => same_refs q)).
Proof.
  induction l as [|svc l IH]; intros x q HI; cbn [no_wake_array]; [apply post_ret; by split|].
  destruct (xa_load x svc); [apply post_ret; by split|].
  eapply post_step; [by apply (alloc_skb_ok fr)|]. intros ok q1 I1 S1 R1. destruct ok; [|apply post_ret; by split].
  eapply post_last; [exact S1|by apply IH|]. intros r q2 R2. unfold same_refs in *. intuition (congruence || lia).
Qed.

(** A new node, which nothing refers to yet but its endpoint. *)
Lemma node_new_ok fr q n x :
  Inv fr q -> q_heap q !! n = None -> n < Z.of_nat (q_allocs q) + 32 -> n_ref x = owner x ->
  n_tx_flow x = [] -> n_rx_queue x = [] -> Inv fr (node_put_in q n x) /\ stable q (node_put_in q n x).
Proof.
  intros HI Hn Ha Er Ef Eq.
  assert (forall s, wait_refs s (<[n := x]> (q_heap q)) = wait_refs s (q_heap q)) as Hw.
  { intros s. rewrite wait_refs_insert by done. rewrite Ef. change (flow_refs s []) with 0. lia. }
  destruct HI. split.
  - split; cbn -[Z.of_nat Z.add]; try assumption.
    + intros s. rewrite Hw. apply inv_sock.
    + intros s. rewrite Hw. apply inv_nosock.
    + intros m y. destruct (Z.eqb_spec n m) as [<-|Hm]; [|rewrite lookup_insert_ne by done; apply inv_node].
      rewrite lookup_insert_eq. intros [= <-]. rewrite (inv_nonode n Hn), Ef, Eq. split; [lia|]. split; [done|]. split; constructor.
    + intros m. destruct (Z.eqb_spec n m) as [<-|Hm]; [by rewrite lookup_insert_eq|]. rewrite lookup_insert_ne by done. apply inv_nonode.
    + intros m Hm. destruct (inv_epts m Hm) as (y & Hy & Ho). exists y. rewrite lookup_insert_ne; [done|congruence].
    + intros ep m Hm. destruct (inv_eps ep m Hm) as [|(He & y & Hy & Ho)]; [by left|right]. split; [done|]. exists y.
      rewrite lookup_insert_ne; [done|congruence].
  - split; try done; unfold present; cbn.
    + intros m [y Hy]. rewrite lookup_insert_ne by congruence. by exists y.
    + intros m y y' H1 H2. rewrite lookup_insert_ne in H2 by congruence. congruence.
    + intros s y y' H1 H2. by simplify_eq.
Qed.

Definition safely {A : Type} (_ : A) (q : qrtr) : Prop := Inv idle q.

(** The new node joins the endpoints and its endpoint points to it. *)
Lemma join_epts_ok q n ep x :
  Inv idle q -> q_heap q !! n = Some x -> n_ep x = Some ep ->
  Inv idle (q <| q_all_epts := n :: q_all_epts q |>) /\
  Inv idle (q <| q_all_epts := n :: q_all_epts q |> <| q_eps := <[ep := n]> (q_eps q) |>).
Proof.
  intros [] Hx Ee.
  assert (forall m, m ∈ n :: q_all_epts q -> exists y, q_heap q !! m = Some y /\ (n_ep y <> None \/ leaving idle m)) as He.
  { intros m Hm. apply elem_of_cons in Hm as [->|Hm]; [|by apply inv_epts]. exists x. split; [done|]. left. by rewrite Ee. }
  assert (forall ep n', q_eps q !! ep = Some n' -> leaving idle n' \/
    (n' ∈ n :: q_all_epts q /\ exists y, q_heap q !! n' = Some y /\ n_ep y = Some ep)) as Hp.
  { intros ep' m Hm. destruct (inv_eps ep' m Hm) as [|[Hin Hy]]; [by left|right]. split; [by right|done]. }
  split; split; cbn; try assumption.
  - intros nid m Hm. right. by eapply inv_nodes.
  - intros nid m Hm. right. by eapply inv_nodes.
  - intros ep' m. destruct (Z.eqb_spec ep ep') as [<-|Hne]; [|rewrite lookup_insert_ne by done; apply Hp].
    rewrite lookup_insert_eq. intros [= <-]. right. split; [left|]. by exists x.
Qed.

Lemma register_ok q ep has_xmit task net_id no_wake :
  Inv idle q -> post (qrtr_endpoint_register env ep has_xmit task net_id no_wake (W q)) safely.
Proof.
  intros HI. unfold qrtr_endpoint_register. destruct ep as [ep|]; [|by apply post_ret]. destruct has_xmit; cbn [negb]; [|by apply post_ret].
  eapply post_step; [by apply (kmalloc_ok idle)|]. intros [n|] q1 I1 S1 Hf; [|by apply post_ret]. destruct Hf as (_ & Hn & Ha).
  destruct task; cbn [negb]; [|by apply post_ret].
  eapply post_step; [by apply (no_wake_ok idle)|]. intros [svcs|rc] q2 I2 S2 R2; [|by apply post_ret].
  destruct R2 as (_ & _ & R2 & _ & _ & _ & _ & R3). set (x := mk_qnode _ _ _ _ _ _ _ _ _ _ _).
  destruct (node_new_ok idle q2 n x I2) as [I3 S3]; [by rewrite R2|lia|done..|].
  unfold set_node at 1. apply post_modify. change (q2 <| q_heap := <[n := x]> (q_heap q2) |>) with (node_put_in q2 n x).
  set (q3 := node_put_in q2 n x) in *.
  assert (q_heap q3 !! n = Some x) as Hx by apply lookup_insert_eq.
  unfold qrtr_node_assign. rewrite run_assoc. apply post_get_node; [by exists x|]. intros y Hy. rewrite Hx in Hy. injection Hy as <-.
  change (QRTR_EP_NID_AUTO =? n_nid x) with true. cbn [orb]. rewrite run_ret.
  eapply post_step; [apply (upd_node_ok idle); [done|by exists x|intros y; by split_and!]|]. intros _ q4 I4 S4 _.
  eapply post_step; [by apply (down_write_ok idle)|]. intros _ q5 I5 S5 _.
  destruct (st_node _ _ S5 n) as [x5 Hx5]; [apply (st_node _ _ S4); by exists x|].
  assert (n_ep x5 = Some ep) as E5.
  { destruct (st_node _ _ S4 n) as [x4 Hx4]; [by exists x|]. by rewrite (st_ep _ _ S5 n x4 x5), (st_ep _ _ S4 n x x4). }
  destruct (join_epts_ok q5 n ep x5 I5 Hx5 E5) as [J1 J2]. do 3 apply post_modify. unfold up_write.
  set (q6 := _ <| q_eps := _ |>). assert (Inv idle q6) as I6.
  { apply (same_refs_ok idle _ q6) in J2; [apply J2|]. by split_and!. }
  eapply post_step; [apply (upd_node_ok idle); [done|by exists x5|intros y; by split_and!]|].
  intros _ q7 I7 S7 _. by apply post_ret.
Qed.

Lemma sum_halves_range ws : forall acc, 0 <= acc < 2 ^ 32 -> 0 <= sum_halves ws acc < 2 ^ 32.
Proof.
  induction ws as [|w ws IH]; intros acc Ha; [done|]. cbn [sum_halves]. apply IH. by apply Z.mod_pos_bound.
Qed.

Lemma checksum_some p : is_Some (qrtr_calc_checksum (Some p)).
Proof.
  unfold qrtr_calc_checksum. destruct (fold_carries_spec (sum_halves (ctrl_pkt_words p) 0)) as (y & -> & _); [|cbn; eauto].
  by apply sum_halves_range.
Qed.

Lemma fwd_del_proc_loop_ok fr src nid : forall epts q,
  Inv fr q -> present q src -> Forall (present q) epts -> keeps (fwd_del_proc_loop env epts src nid) fr q.
Proof.
  induction epts as [|n epts IH]; intros q HI Hsrc Hp; cbn [fwd_del_proc_loop]; [apply post_ret; by split|].
  apply Forall_cons in Hp as [Hn Hp]. apply post_node_view; [done|]. intros xs Hxs. apply post_node_view; [done|]. intros x Hx.
  apply post_get_node; [done|]. intros ys Hys. apply post_get_node; [done|]. intros y Hy. destruct (negb _); [by apply IH|].
  destruct (checksum_some (mk_pkt QRTR_TYPE_DEL_PROC QRTR_DEL_PROC_MAGIC nid 0 0)) as [sum ->]. rewrite run_or_fault.
  eapply post_step; [by apply (alloc_ctrl_ok fr)|]. intros [b|] q1 I1 S1 Hb; [|apply post_ret; by split].
  eapply post_step; [apply (node_enqueue_ok fr); [done|by apply (st_node _ _ S1)|by apply fwd_owned|apply Hb]|].
  intros _ q2 I2 S2 _. eapply post_last; [by etrans|apply IH; [done| |]|done].
  - by apply (st_node _ _ S2), (st_node _ _ S1).
  - eapply Forall_present; [by eapply Forall_present|done].
Qed.

Lemma fwd_del_proc_ok fr q src nid : Inv fr q -> present q src -> keeps (qrtr_fwd_del_proc env src nid) fr q.
Proof.
  intros HI Hs. unfold qrtr_fwd_del_proc. eapply post_step; [by apply (down_read_ok fr)|]. intros _ q1 I1 S1 _.
  apply post_gets. eapply post_step; [apply (fwd_del_proc_loop_ok fr); [done|by apply (st_node _ _ S1)|]|].
  { apply Forall_forall. intros n Hn. by apply (epts_present fr). }
  intros ok q2 I2 S2 _. destruct ok; [|apply post_ret; split; [done|split; [by etrans|done]]].
  eapply post_last; [by etrans|by apply up_read_ok|done].
Qed.

Lemma unregister_loop_ok fr n : forall fuel i q, Inv fr q -> present q n -> keeps (unregister_loop env fuel n i) fr q.
Proof.
  induction fuel as [|fuel IH]; intros i q HI Hp; cbn [unregister_loop].
  all: apply post_gets; destruct (xa_find _ _) as [[nid m]|]; [|apply post_ret; by split].
  all: eapply (post_step fr _ _ _ any); [|intros _ q1 I1 S1 _].
  1, 3: destruct (m =? n); [|apply post_ret; by split]; apply post_gets;
    eapply post_step; [by apply (alloc_ctrl_ok fr)|]; intros o q1 I1 S1 Hb;
    eapply (post_step fr _ _ _ any);
      [ destruct o as [b|]; [|apply post_ret; by split];
       eapply post_step; [apply (local_enqueue_ok fr); [done|by apply fwd_owned]|]; intros _ q2 I2 S2 _; apply post_ret; by split
      |intros _ q2 I2 S2 _; eapply post_last; [by etrans|apply fwd_del_proc_ok; [done|by apply (st_node _ _ S2), (st_node _ _ S1)]|done]].
  { done. }
  eapply post_last; [exact S1|apply IH; [done|by apply (st_node _ _ S1)]|done].
Qed.

(** The frame of a node that is leaving: its endpoint is gone, its reference is
    held by the unregistering function. *)
Definition departing (n : Z) : frame := nhold n 1 (idle <| leaving := fun m => m = n |>).

Lemma depart_ok q n x :
  Inv idle q -> q_heap q !! n = Some x -> n_ep x <> None ->
  Inv (departing n) (node_put_in q n (x <| n_ep := None |>)).
Proof.
  intros HI Hx Ho. pose proof (inv_node _ _ HI n x Hx) as (Er & Ha & Hs & Hq).
  assert (owner x = 1) as Eo by (unfold owner; by destruct (n_ep x)).
  assert (forall s, wait_refs s (<[n := x <| n_ep := None |>]> (q_heap q)) = wait_refs s (q_heap q)) as Hw.
  { intros s. rewrite (wait_refs_upd s n x) by done. change (n_tx_flow (x <| n_ep := None |>)) with (n_tx_flow x). lia. }
  destruct HI. split; cbn -[Z.of_nat Z.add]; try assumption.
  - intros m. destruct (n =? m); lia.
  - intros s. rewrite Hw. apply inv_sock.
  - intros s. rewrite Hw. apply inv_nosock.
  - intros m y. destruct (Z.eqb_spec n m) as [<-|Hm].
    + rewrite lookup_insert_eq. intros [= <-]. cbn -[Z.of_nat Z.add]. cbn in Er. split; [lia|]. done.
    + rewrite lookup_insert_ne by done. intros Hy. destruct (inv_node m y Hy) as (E & ?). cbn in E. split; [lia|done].
  - intros m. destruct (Z.eqb_spec n m) as [<-|Hm]; [by rewrite lookup_insert_eq|]. done.
  - intros m Hm. destruct (Z.eqb_spec n m) as [<-|Hne].
    + exists (x <| n_ep := None |>). rewrite lookup_insert_eq. auto.
    + destruct (inv_epts m Hm) as (y & Hy & [Hy'|[]]). exists y. rewrite lookup_insert_ne by done. auto.
  - intros ep m Hm. destruct (Z.eqb_spec n m) as [<-|Hne]; [by left|right].
    destruct (inv_eps ep m Hm) as [[]|(He & y & Hy & Ho')]. split; [done|]. exists y. by rewrite lookup_insert_ne.
Qed.

Lemma xa_sorted_filter {A : Type} (P : Z * A -> Prop) `{forall e, Decision (P e)} x : xa_sorted x -> xa_sorted (filter P x).
Proof.
  intros Hs. induction Hs as [|e x Hs IH Hall]; [constructor|]. rewrite filter_cons. case_decide; [|done]. constructor; [done|].
  rewrite Forall_forall in Hall |- *. intros y Hy. apply list_elem_of_filter in Hy as [_ Hy]. by apply Hall.
Qed.

(** The node leaves the tree and the list. *)
Lemma unlink_ok fr q n :
  Inv fr q -> leaving fr = (fun m => m = n) ->
  Inv fr (q <| q_nodes := filter (fun e => snd e <> n) (q_nodes q) |> <| q_all_epts := filter (.≠ n) (q_all_epts q) |>).
Proof.
  intros [] El. split; cbn; try assumption.
  - by apply xa_sorted_filter.
  - intros nid m Hm. apply xa_elem_load in Hm; [|by apply xa_sorted_filter]. apply list_elem_of_filter in Hm as [Hne Hm].
    apply list_elem_of_filter. split; [done|]. apply xa_elem_load in Hm; [|done]. by eapply inv_nodes.
  - intros m Hm. apply list_elem_of_filter in Hm as [_ Hm]. by apply inv_epts.
  - intros ep m Hm. destruct (inv_eps ep m Hm) as [|[He Hy]]; [by left|]. rewrite El. destruct (decide (m = n)) as [->|Hne]; [by left|right].
    split; [|done]. by apply list_elem_of_filter.
Qed.

Lemma puts_ok fr : (forall t, 0 <= held fr t) -> forall l q, Inv (hold_all l fr) q ->
  post (for_each l sock_put (W q)) (kept fr q (fun _ q' => q_heap q' = q_heap q)).
Proof.
  intros Hh. induction l as [|s l IH]; intros q HI; cbn [for_each].
  - apply post_ret. split; [by apply hold_all_nil|done].
  - eapply post_step; [apply sock_put_ok; [done|by apply hold_all_held]|]. intros u q1 I1 S1 E1.
    eapply post_last; [exact S1|apply IH; by apply hold_all_cons in I1|]. intros u2 q2 E2. by rewrite E2.
Qed.

(** The flows of a node are freed, with the references of their waiters. *)
Lemma free_flows_ok fr n : (forall t, 0 <= held fr t) -> forall l q x,
  Inv fr q -> q_heap q !! n = Some x -> n_tx_flow x = l ->
  post (for_each l (fun e => upd_node n (fun x => x <| n_tx_flow := xa_erase (n_tx_flow x) (fst e) |>) ;;;
                             for_each (waiters (snd e)) sock_put) (W q))
    (kept fr q (fun _ q' => exists x', q_heap q' !! n = Some x' /\ n_tx_flow x' = [])).
Proof.
  intros Hh. induction l as [|[k f] l IH]; intros q x HI Hx El; cbn [for_each].
  { apply post_ret. split; [done|]. split; [done|]. by exists x. }
  destruct (inv_node _ _ HI n x Hx) as (_ & _ & Hs & Hq). rewrite El in Hs. pose proof (xa_erase_head l k f Hs) as Ee.
  rewrite run_assoc. apply post_bind. unfold upd_node. apply post_get_node; [by exists x|]. intros y Hy. rewrite Hx in Hy. injection Hy as <-.
  set (x1 := x <| n_tx_flow := _ |>). assert (n_tx_flow x1 = l) as E1.
  { change (n_tx_flow x1) with (xa_erase (n_tx_flow x) k). by rewrite El. }
  cbn. split; [done|]. destruct (node_upd_ok fr (hold_all (waiters f) fr) q n x x1) as [I1 S1]; try done.
  - apply HI.
  - intros m. cbn -[Z.add]. destruct (n =? m); lia.
  - rewrite E1. by apply StronglySorted_inv in Hs as [? _].
  - intros s. cbn -[Z.add]. pose proof (occurs_nonneg s (waiters f)). specialize (Hh s). lia.
  - intros s. rewrite E1, El. cbn -[Z.add]. change (flow_refs s ((k, f) :: l)) with (occurs s (waiters f) + flow_refs s l). lia.
  - eapply post_step; [by apply (puts_ok fr)|]. intros u2 q2 I2 S2 E2.
    eapply post_last; [by etrans|apply (IH q2 x1); [done| |done]|done]. rewrite E2. cbn. apply lookup_insert_eq.
Qed.

Lemma node_delete_ok fr q n x :
  Inv fr q -> q_heap q !! n = Some x -> n_tx_flow x = [] -> nheld fr n = 0 -> n ∉ q_all_epts q ->
  leaving fr = (fun m => m = n) -> Inv fr (q <| q_heap := delete n (q_heap q) |>).
Proof.
  intros HI Hx Ef En He El.
  assert (forall s, wait_refs s (delete n (q_heap q)) = wait_refs s (q_heap q)) as Hw.
  { intros s. rewrite (wait_refs_delete s n x), Ef by done. change (flow_refs s []) with 0. lia. }
  destruct HI. split; cbn -[Z.of_nat Z.add]; try assumption.
  - intros s. rewrite Hw. apply inv_sock.
  - intros s. rewrite Hw. apply inv_nosock.
  - intros m y. destruct (Z.eqb_spec n m) as [<-|Hm]; [by rewrite lookup_delete_eq|]. rewrite lookup_delete_ne by done. apply inv_node.
  - intros m. destruct (Z.eqb_spec n m) as [<-|Hm]; [done|]. rewrite lookup_delete_ne by done. apply inv_nonode.
  - intros m Hm. destruct (Z.eqb_spec n m) as [<-|Hne]; [done|]. rewrite lookup_delete_ne by done. by apply inv_epts.
  - intros ep m Hm. rewrite El. destruct (Z.eqb_spec n m) as [<-|Hne]; [by left|].
    destruct (inv_eps ep m Hm) as [Hl|Hr]; [rewrite El in Hl; by left|right]. by rewrite lookup_delete_ne.
Qed.

Lemma frees_ok fr : forall l q,
  Inv fr q -> post (for_each l kfree_skb (W q)) (kept fr q (fun _ q' => q_heap q' = q_heap q)).
Proof.
  induction l as [|b l IH]; intros q HI; cbn [for_each]; [apply post_ret; by split|].
  unfold kfree_skb at 1, emit. apply post_modify. set (q1 := q <| q_log := _ |>).
  destruct (same_refs_ok fr q q1 HI) as [I1 S1]; [by split_and!|].
  eapply post_last; [exact S1|by apply IH|]. intros u q2 E2. by rewrite E2.
Qed.

Definition departed (n : Z) : frame := idle <| leaving := fun m => m = n |>.

Lemma departed_ext n q : Inv (nhold n (- 1) (departing n)) q -> Inv (departed n) q.
Proof. apply Inv_ext; try done. intros m. cbn. destruct (n =? m); lia. Qed.

(** The last reference of a node that left frees it. *)
Lemma depart_release_ok q n x :
  Inv (departing n) q -> q_heap q !! n = Some x -> n_ep x = None ->
  post (qrtr_node_release (Some n) (W q)) (fun _ q' => Inv (departed n) q' /\ (n ∉ q_all_epts q') /\ q_eps q' = q_eps q /\ q_heap q' !! n = None).
Proof.
  intros HI Hx Ee. cbn [qrtr_node_release]. unfold kref_put_rwsem_lock. apply post_get_node; [by exists x|]. intros y Hy. rewrite Hx in Hy. injection Hy as <-.
  assert (forall q' x', Inv (departing n) q' -> q_heap q' !! n = Some x' -> n_ep x' = None -> n_ref x' = 1) as Hone.
  { intros q' x' I' H' E'. destruct (inv_node _ _ I' n x' H') as (Er & _). unfold owner in Er. rewrite E' in Er.
    cbn -[Z.add] in Er. rewrite Z.eqb_refl in Er. lia. }
  rewrite (Hone q x), Z.eqb_refl by done. cbn [negb].
  eapply post_step; [by apply (down_write_ok (departing n))|]. intros _ q1 I1 S1 _. destruct (st_node _ _ S1 n) as [x1 Hx1]; [by exists x|].
  apply post_get_node; [by exists x1|]. intros y Hy. rewrite Hx1 in Hy. injection Hy as <-.
  assert (n_ref x1 = 1) as E1 by (apply (Hone q1); [done|done|by rewrite (st_ep _ _ S1 n x x1)]).
  eapply post_step; [apply (node_ref_ok (departing n) q1 n x1 (- 1)); [done|done|cbn -[Z.add]; rewrite Z.eqb_refl; lia]|].
  intros _ q2 I2 S2 _. apply departed_ext in I2. rewrite E1. cbn [Z.sub Z.eqb Z.add Z.opp Z.pos_sub].
  unfold __qrtr_node_release. apply post_modify. apply (unlink_ok (departed n) q2 n) in I2; [|done].
  set (q3 := q2 <| q_nodes := _ |> <| q_all_epts := _ |>) in *.
  assert (n ∉ q_all_epts q3) as Hn3 by (cbn; rewrite list_elem_of_filter; tauto).
  assert (present q3 n) as Hp3 by (apply (st_node _ _ S2); by exists x1).
  assert (q_eps q3 = q_eps q) as Hq3 by (change (q_eps q3) with (q_eps q2); by rewrite (st_eps _ _ S2), (st_eps _ _ S1)).
  clearbody q3. eapply post_step; [by apply (up_write_ok (departed n))|]. intros _ q4 I4 S4 _.
  apply post_bind. eapply post_mono; [apply wait_until_ok|]. intros _ q4' [-> _].
  apply post_get_node; [by apply (st_node _ _ S4)|]. intros x4 Hx4.
  eapply (post_step (departed n) _ _ _ (fun _ q' => q_heap q' = q_heap q4)).
  { by apply frees_ok. }
  intros u5 q5 I5 S5 E5. eapply post_step.
  { eapply (free_flows_ok (departed n) n); [done|exact I5|rewrite E5; exact Hx4|done]. }
  intros _ q6 I6 S6 (x6 & Hx6 & Hf6). cbn. split; [done|]. split; [|split; [|split; [|apply lookup_delete_eq]]].
  - apply (node_delete_ok (departed n) q6 n x6); try done. by rewrite (st_epts _ _ S6), (st_epts _ _ S5), (st_epts _ _ S4).
  - by rewrite (st_epts _ _ S6), (st_epts _ _ S5), (st_epts _ _ S4).
  - by rewrite (st_eps _ _ S6), (st_eps _ _ S5), (st_eps _ _ S4).
Qed.

Lemma forget_ep_ok q ep n :
  Inv (departed n) q -> n ∉ q_all_epts q -> (forall ep', q_eps q !! ep' = Some n -> ep' = ep) ->
  Inv idle (q <| q_eps := delete ep (q_eps q) |>).
Proof.
  intros [] He Hu. split; cbn; try assumption.
  - intros m Hm. destruct (inv_epts m Hm) as (x & Hx & [Ho|Ho]); [by exists x; auto|]. cbn in Ho. by subst m.
  - intros ep' m. destruct (Z.eqb_spec ep ep') as [<-|Hne]; [by rewrite lookup_delete_eq|]. rewrite lookup_delete_ne by done.
    intros Hm. destruct (inv_eps ep' m Hm) as [Hl|Hr]; [|by right]. cbn in Hl. subst m. by destruct (Hu ep' Hm).
Qed.

Lemma unregister_ok q fuel ep n :
  Inv idle q -> q_eps q !! ep = Some n -> post (qrtr_endpoint_unregister env fuel ep (W q)) (fun _ q' =>
    Inv idle q' /\ q_heap q' !! n = None /\ q_eps q' !! ep = None).
Proof.
  intros HI He. destruct (inv_eps _ _ HI ep n He) as [[]|(Hin & x & Hx & Ho)]. unfold qrtr_endpoint_unregister.
  assert (forall ep', q_eps q !! ep' = Some n -> ep' = ep) as Hu.
  { intros ep' He'. destruct (inv_eps _ _ HI ep' n He') as [[]|(_ & y & Hy & Ho')]. congruence. }
  apply post_gets. rewrite He, run_or_fault. unfold upd_node at 1. rewrite run_assoc. apply post_get_node; [by exists x|].
  intros y Hy. rewrite Hx in Hy. injection Hy as <-. unfold set_node at 1. apply post_modify.
  pose proof (depart_ok q n x HI Hx) as I1. specialize (I1 ltac:(by rewrite Ho)). unfold node_put_in in I1.
  set (q1 := q <| q_heap := _ |>) in *. assert (q_heap q1 !! n = Some (x <| n_ep := None |>)) as Hx1 by apply lookup_insert_eq.
  assert (q_eps q1 = q_eps q) as E1 by done. clearbody q1.
  eapply post_step; [apply (unregister_loop_ok (departing n)); [done|by eexists]|]. intros _ q2 I2 S2 _.
  destruct (st_node _ _ S2 n) as [x2 Hx2]; [by eexists|]. apply post_bind.
  eapply post_mono; [apply (depart_release_ok q2 n x2); [done|done|by rewrite (st_ep _ _ S2 n _ x2 Hx1 Hx2)]|].
  intros _ q3 (I3 & Hn3 & E3 & Hh3). cbn. split; [done|]. split; [|split; [done|apply lookup_delete_eq]].
  apply (forget_ep_ok q3 ep n); [done|done|].
  intros ep' He'. apply Hu. by rewrite <- E1, <- (st_eps _ _ S2), <- E3.
Qed.

(** ** Broadcast and the notification of a closed port *)

Lemma bcast_loop_ok fr b type from to dontwait : skb_wf b -> forall epts q,
  Inv fr q -> skb_owned fr q b -> Forall (present q) epts -> keeps (bcast_loop env epts b type from to dontwait) fr q.
Proof.
  intros Hw. induction epts as [|n epts IH]; intros q HI Ho Hp; cbn [bcast_loop]; [apply post_ret; by split|].
  apply Forall_cons in Hp as [Hn Hp]. apply post_get_node; [done|]. intros x Hx. destruct (_ && _); [by apply IH|].
  eapply post_step; [by apply (alloc_skb_ok fr)|]. intros ok q1 I1 S1 _. destruct ok; cbn [negb]; [|apply post_ret; by split].
  eapply post_step; [apply (node_enqueue_ok fr); [done|by apply (st_node _ _ S1)|by eapply skb_owned_stable|done]|]. intros _ q2 I2 S2 _.
  eapply post_last; [by etrans|apply IH; [done| |]|done].
  - eapply skb_owned_stable; [by eapply skb_owned_stable|done].
  - eapply Forall_present; [by eapply Forall_present|done].
Qed.

Lemma bcast_ok fr q b type from to dontwait :
  Inv fr q -> skb_owned fr q b -> skb_wf b -> keeps (qrtr_bcast_enqueue env b type from to dontwait) fr q.
Proof.
  intros HI Ho Hw. unfold qrtr_bcast_enqueue. eapply post_step; [by apply (down_read_ok fr)|]. intros _ q1 I1 S1 _.
  apply post_gets. eapply post_step; [apply (bcast_loop_ok fr); [done|done|by eapply skb_owned_stable|]|].
  { apply Forall_forall. intros n Hn. by apply (epts_present fr). }
  intros _ q2 I2 S2 _. eapply post_step; [by apply (up_read_ok fr)|]. intros _ q3 I3 S3 _.
  eapply post_step; [apply (local_enqueue_ok fr); [done|]|].
  { eapply skb_owned_stable; [exact Ho|]. by do 2 (etrans; [done|]). }
  intros _ q4 I4 S4 _. apply post_ret. split; [done|]. split; [by do 3 (etrans; [done|])|done].
Qed.

Lemma send_del_client_ok fr q s :
  Inv fr q -> (forall n, ~ leaving fr n) -> usable fr q s -> keeps (qrtr_send_del_client env s) fr q.
Proof.
  intros HI Hl Hu. pose proof (inv_nheld _ _ HI) as Hnh. unfold qrtr_send_del_client. eapply post_get_sock; [done..|]. intros x Hx.
  eapply post_step; [by apply (alloc_ctrl_ok fr)|]. intros [b|] q1 I1 S1 Hb; [|apply post_ret; by split].
  destruct Hb as [_ Hw]. set (b' := b <| skb_sk := Some s |>).
  assert (skb_owned fr q1 b') as Ho by (by eapply usable_stable). assert (skb_wf b') as Hw' by done. clearbody b'.
  destruct (state x =? QRTR_STATE_MULTI).
  { eapply post_step; [by apply (bcast_ok fr)|]. intros _ q2 I2 S2 _. apply post_ret. split; [done|]. split; [by etrans|done]. }
  eapply (post_step fr _ _ _ any).
  { destruct (_ <? _); [|apply post_ret; by split].
    apply post_bind. eapply post_mono; [by apply node_lookup_ok|]. intros [n|] q2 [S2 H]; [|apply post_ret; by split].
    destruct H as [I2 R2]. eapply post_step; [by apply (alloc_skb_ok (nhold n 1 fr))|]. intros ok q3 I3 S3 _.
    eapply (post_step (nhold n 1 fr) _ _ _ any).
    - destruct ok; [|apply post_ret; by split]. eapply post_step.
      + apply (node_enqueue_ok (nhold n 1 fr)); [done|apply registered_present; by eapply registered_stable| |done].
        eapply skb_owned_stable; [exact Ho|by etrans].
      + intros _ q4 I4 S4 _. apply post_ret. by split.
    - intros _ q4 I4 S4 _. eapply post_last; [by do 2 (etrans; [done|])|apply node_release_ok; [done..|]|done].
      eapply registered_stable; [exact R2|by etrans]. }
  intros _ q2 I2 S2 _. eapply post_step; [apply (local_enqueue_ok fr); [done|by eapply skb_owned_stable]|].
  intros _ q3 I3 S3 _. apply post_ret. split; [done|]. split; [by do 2 (etrans; [done|])|done].
Qed.

(** ** Ports *)

(** The socket gives up its port: the entry and its reference go together. *)
Lemma unbind_ok fr q s x :
  Inv fr q -> usable fr q s -> q_socks q !! s = Some x ->
  xa_load (q_ports q) (port_index (sq_port (us x))) = Some s ->
  sk_dead x = true \/ (exists i, rebinding fr i s) ->
  Inv fr ((sock_put_in q s (x <| sk_refcnt := sk_refcnt x - 1 |>))
            <| q_ports := xa_erase (q_ports q) (port_index (sq_port (us x))) |>).
Proof.
  intros HI Hu Hx Hi Hor. set (i := port_index (sq_port (us x))) in *.
  destruct (inv_sock _ _ HI s x Hx) as (Er & _ & Ha). pose proof (inv_held _ _ HI s) as Hh.
  pose proof (port_refs_in s i _ Hi). pose proof (wait_refs_nonneg s (q_heap q)).
  assert (1 <= handle x + held fr s) as Hone.
  { destruct Hu as [(y & Hy & Hd)|Hh']; [|unfold handle; destruct (sk_dead x); cbn; lia].
    rewrite Hx in Hy. injection Hy as <-. unfold handle. rewrite Hd. cbn. lia. }
  destruct HI. assert (forall t, port_refs t (xa_erase (q_ports q) i) = port_refs t (q_ports q) - b2z (bool_decide (s = t))) as Hpr.
  { intros t. by apply port_refs_erase. }
  split; cbn -[Z.of_nat Z.add Z.sub]; try assumption.
  - by apply xa_sorted_erase.
  - intros t y. rewrite Hpr. destruct (Z.eqb_spec s t) as [<-|Ht].
    + rewrite lookup_insert_eq. intros [= <-]. rewrite bool_decide_true by done. cbn -[Z.of_nat Z.add Z.sub]. unfold handle in *.
      cbn -[Z.of_nat Z.add Z.sub]. cbn [b2z]. lia.
    + rewrite lookup_insert_ne, bool_decide_false by done. intros Hy. destruct (inv_sock t y Hy) as (? & ? & ?). cbn [b2z]. lia.
  - intros t. rewrite Hpr. destruct (Z.eqb_spec s t) as [<-|Ht]; [by rewrite lookup_insert_eq|].
    rewrite lookup_insert_ne, bool_decide_false by done. intros Hy. destruct (inv_nosock t Hy) as (? & ? & ?). cbn [b2z]. lia.
  - intros j t. rewrite xa_load_erase. destruct (Z.eqb_spec i j) as [|Hj]; [done|]. intros Ht.
    destruct (inv_bound j t Ht) as [|(y & Hy & Hz & Hp & Hc)]; [by left|]. destruct (Z.eqb_spec s t) as [<-|Hne].
    + rewrite Hx in Hy. injection Hy as <-. by destruct Hj.
    + right. exists y. by rewrite lookup_insert_ne.
  - intros t y. rewrite xa_load_erase. destruct (Z.eqb_spec s t) as [<-|Ht].
    + rewrite lookup_insert_eq. intros [= <-]. cbn. intros Hd _. destruct Hor as [Hor|Hor]; [congruence|by right].
    + rewrite lookup_insert_ne by done. intros Hy Hd Hz. destruct (inv_port t y Hy Hd Hz) as [Hl|]; [|by right].
      left. destruct (Z.eqb_spec i (port_index (sq_port (us y)))) as [E|]; [|done]. rewrite <- E, Hi in Hl. by injection Hl.
Qed.

Lemma port_remove_ok fr q s x :
  Inv fr q -> (forall n, ~ leaving fr n) -> usable fr q s -> q_socks q !! s = Some x ->
  xa_load (q_ports q) (port_index (sq_port (us x))) = Some s ->
  sk_dead x = true \/ (exists i, rebinding fr i s) ->
  post (qrtr_port_remove env s (W q)) (fun _ q' => Inv fr q' /\ q_ports q' = xa_erase (q_ports q) (port_index (sq_port (us x))) /\
    (opened q s -> opened q' s) /\ exists x', q_socks q' !! s = Some x' /\ us x' = us x /\ sk_zapped x' = sk_zapped x).
Proof.
  intros HI Hl Hu Hx Hi Hor. unfold qrtr_port_remove. eapply post_get_sock; [done..|]. intros y Hy. rewrite Hx in Hy. injection Hy as <-.
  eapply post_step; [by apply (send_del_client_ok fr)|]. intros _ q1 I1 S1 _. pose proof (usable_stable _ _ _ _ Hu S1) as Hu1.
  destruct (usable_live _ _ _ I1 Hu1) as [x1 Hx1]. destruct (st_us _ _ S1 s x x1 Hx Hx1) as (Eu & Ez & Ed).
  unfold __sock_put, upd_sock. rewrite run_assoc. eapply post_get_sock; [done..|]. intros y Hy. rewrite Hx1 in Hy. injection Hy as <-.
  unfold set_sock. apply post_modify. cbn -[Z.sub]. split; [done|].
  split; [|split; [|split]].
  - rewrite <- Eu. apply (unbind_ok fr q1 s x1); try done; [by rewrite Eu, (st_ports _ _ S1)|by rewrite Ed].
  - by rewrite (st_ports _ _ S1).
  - intros Ho. apply (st_open _ _ S1) in Ho as (y & Hy & Hd). rewrite Hx1 in Hy. injection Hy as <-. eexists. split; [apply lookup_insert_eq|done].
  - eexists. split; [apply lookup_insert_eq|done].
Qed.

Lemma port_index_small p : 0 < p < 2 ^ 31 -> port_index p = p.
Proof.
  intros Hp. unfold port_index, u32. rewrite Z.mod_small by lia.
  destruct (Z.eqb_spec p QRTR_PORT_CTRL) as [E|_]; [unfold QRTR_PORT_CTRL in E; lia|].
  rewrite s32_small by lia. unfold u64. by rewrite Z.mod_small by lia.
Qed.

Lemma port_index_u32 p : port_index (u32 p) = port_index p.
Proof. unfold port_index, u32, s32. by rewrite !Z.mod_mod by lia. Qed.

Lemma port_index_s32 p : 0 <= p < 2 ^ 32 -> port_index (s32 p) = port_index p.
Proof.
  intros Hp. rewrite <- (port_index_u32 (s32 p)). f_equal. unfold u32, s32. rewrite (Z.mod_small p) by lia.
  destruct (Z.ltb_spec p (2 ^ 31)); [by apply Z.mod_small; lia|].
  rewrite <- (Z.mod_add _ 1) by lia. rewrite Z.mod_small by lia. lia.
Qed.

(** A port is being given to a socket whose address is not set yet. *)
Definition rebind (i s : Z) : frame := idle <| rebinding := fun j t => j = i /\ t = s |>.

Lemma assign_entry_ok q s x i next :
  Inv idle q -> q_socks q !! s = Some x -> xa_load (q_ports q) i = None ->
  Inv (rebind i s) ((sock_put_in q s (x <| sk_refcnt := sk_refcnt x + 1 |>))
                      <| q_ports := xa_store (q_ports q) i s |> <| q_ports_next := next |>).
Proof.
  intros HI Hx Hi. destruct HI.
  assert (forall t, port_refs t (xa_store (q_ports q) i s) = port_refs t (q_ports q) + b2z (bool_decide (s = t))) as Hpr.
  { intros t. by apply port_refs_store. }
  split; cbn -[Z.of_nat Z.add Z.sub]; try assumption.
  - by apply xa_sorted_store.
  - intros t y. rewrite Hpr. destruct (Z.eqb_spec s t) as [<-|Ht].
    + rewrite lookup_insert_eq. intros [= <-]. rewrite bool_decide_true by done. destruct (inv_sock s x Hx) as (Er & ? & ?).
      cbn -[Z.of_nat Z.add] in *. unfold handle in *. cbn -[Z.of_nat Z.add]. cbn [b2z]. lia.
    + rewrite lookup_insert_ne, bool_decide_false by done. intros Hy. destruct (inv_sock t y Hy) as (Er & ? & ?). cbn in Er. cbn [b2z]. lia.
  - intros t. rewrite Hpr. destruct (Z.eqb_spec s t) as [<-|Ht]; [by rewrite lookup_insert_eq|].
    rewrite lookup_insert_ne, bool_decide_false by done. intros Hy. destruct (inv_nosock t Hy) as (? & ? & ?). cbn [b2z]. lia.
  - intros j t. rewrite xa_load_store by done. destruct (Z.eqb_spec i j) as [<-|Hj]; [intros [= <-]; by left|]. intros Ht.
    destruct (inv_bound j t Ht) as [[]|(y & Hy & Hz & Hp & Hc)]. right. destruct (Z.eqb_spec s t) as [<-|Hne].
    + rewrite Hx in Hy. injection Hy as <-. eexists. rewrite lookup_insert_eq. by split.
    + exists y. by rewrite lookup_insert_ne.
  - intros t y. rewrite xa_load_store by done. destruct (Z.eqb_spec s t) as [<-|Ht]; [intros; right; by exists i|].
    rewrite lookup_insert_ne by done. intros Hy Hd Hz. destruct (inv_port t y Hy Hd Hz) as [Hl|[? []]]. left.
    destruct (Z.eqb_spec i (port_index (sq_port (us y)))) as [E|]; [|done]. by rewrite <- E, Hi in Hl.
Qed.

(** The address of a socket and whether it is open. *)
Definition same_sock (q q' : qrtr) (s : Z) : Prop :=
  exists x x', q_socks q !! s = Some x /\ q_socks q' !! s = Some x' /\ us x' = us x /\ sk_zapped x' = sk_zapped x /\ sk_dead x' = sk_dead x.

Lemma same_sock_stable q q' s : opened q s -> stable q q' -> same_sock q q' s.
Proof.
  intros Ho Hs. destruct (st_open _ _ Hs s Ho) as (x' & Hx' & _). destruct Ho as (x & Hx & _).
  exists x, x'. split; [done|]. split; [done|]. by apply (st_us _ _ Hs s).
Qed.

(** The entry of a new port, before its reference is taken. *)
Definition entered (q : qrtr) (s : Z) (r : result Z) (q1 : qrtr) : Prop :=
  match r with
  | Err _ => Inv idle q1 /\ stable q q1
  | Ok p => exists q0 next, Inv idle q0 /\ stable q q0 /\ xa_load (q_ports q) (port_index p) = None /\
      q1 = q0 <| q_ports := xa_store (q_ports q0) (port_index p) s |> <| q_ports_next := next |>
  end.

Lemma ports_insert_ok q s p :
  Inv idle q ->
  post ((rc <-- ports_insert env s (port_index p) ;;; mret (if truth rc then Err rc else Ok p)) (W q)) (entered q s).
Proof.
  intros HI. unfold ports_insert. rewrite run_assoc, run_gets. cbn [w_st W]. destruct (xa_load _ _) as [t|] eqn:E; [by apply post_ret|].
  rewrite run_assoc. eapply post_step; [by apply (alloc_skb_ok idle)|]. intros ok q1 I1 S1 _.
  destruct ok; [|by apply post_ret]. rewrite run_assoc. apply post_modify. rewrite run_ret. apply post_ret.
  exists q1, (q_ports_next q1). split; [done|]. split; [done|]. split; [done|]. by destruct q1.
Qed.

Lemma cyclic_ok q s :
  Inv idle q ->
  post ((q <-- gets (fun q => q) ;;;
         match xa_alloc_cyclic (q_ports q) QRTR_MIN_EPH_SOCKET QRTR_MAX_EPH_SOCKET (q_ports_next q) with
         | None => mret (Err (- EBUSY))
         | Some (i, next) =>
             b <-- alloc_skb env ;;;
             if b : bool then
               modify (fun q => q <| q_ports := xa_store (q_ports q) i s |> <| q_ports_next := next |>) ;;; mret (Ok i)
             else mret (Err (- ENOMEM))
         end) (W q)) (entered q s).
Proof.
  intros HI. apply post_gets. destruct (xa_alloc_cyclic _ _ _ _) as [[i next]|] eqn:E; [|by apply post_ret].
  apply cyclic_in_range in E as [Hi Hl]; [|done]. unfold QRTR_MIN_EPH_SOCKET, QRTR_MAX_EPH_SOCKET in Hi.
  eapply post_step; [by apply (alloc_skb_ok idle)|]. intros ok q1 I1 S1 _. destruct ok; [|by apply post_ret].
  apply post_modify. apply post_ret. exists q1, next. rewrite port_index_small by lia. by split_and!.
Qed.

Lemma port_assign_ok q s port :
  Inv idle q -> opened q s ->
  post (qrtr_port_assign env s port (W q)) (fun r q' => same_sock q q' s /\
    match r with
    | Err _ => Inv idle q' /\ stable q q'
    | Ok p => Inv (rebind (port_index p) s) q' /\ xa_load (q_ports q) (port_index p) = None /\
        q_ports q' = xa_store (q_ports q) (port_index p) s
    end).
Proof.
  intros HI Ho. unfold qrtr_port_assign. apply post_bind. eapply (post_mono _ (entered q s)).
  { destruct (port =? 0); [by apply cyclic_ok|]. destruct (_ && _); [by apply post_ret|]. by apply ports_insert_ok. }
  intros [p|e] q1 H; [|destruct H as [I1 S1]; apply post_ret; split; [by apply same_sock_stable|done]].
  destruct H as (q0 & next & I0 & S0 & Hn & ->). destruct (same_sock_stable _ _ _ Ho S0) as (x & x0 & Hx & Hx0 & Eu & Ez & Ed).
  unfold sock_hold, upd_sock, get_sock. rewrite !run_assoc, run_gets. cbn [w_st W q_socks]. change (q_socks (_ <| q_ports_next := _ |>)) with (q_socks q0).
  rewrite Hx0, run_or_fault. unfold set_sock. apply post_modify. apply post_ret. split; [|split; [|split]].
  - exists x. eexists. split; [done|]. split; [apply lookup_insert_eq|]. done.
  - assert (xa_load (q_ports q0) (port_index p) = None) as Hn0 by (by rewrite (st_ports _ _ S0)).
    exact (assign_entry_ok q0 s x0 (port_index p) next I0 Hx0 Hn0).
  - done.
  - cbn. by rewrite (st_ports _ _ S0).
Qed.

Lemma reset_loop_ok fr : forall l q,
  Inv fr q -> (forall e, e ∈ l -> xa_load (q_ports q) (fst e) = Some (snd e)) ->
  keeps (for_each l (fun e => upd_sock (snd e) (fun x => x <| sk_err := ENETRESET |>) ;;; emit (EvErrorReport (snd e)))) fr q.
Proof.
  induction l as [|[i s] l IH]; intros q HI Hl; cbn [for_each]; [apply post_ret; by split|]. rewrite run_assoc.
  destruct (ports_live fr q i s HI) as [x Hx]; [apply (Hl (i, s)); left|].
  eapply (post_step fr _ _ _ any).
  { cbn [snd]. unfold upd_sock, get_sock. rewrite run_assoc, run_gets. cbn [w_st W]. rewrite Hx, run_or_fault.
    apply (set_sock_ok fr q s x (fun x => x <| sk_err := ENETRESET |>)); [done..|]. intros y. by split_and!. }
  intros _ q1 I1 S1 _. eapply post_step; [by apply (emit_ok fr)|]. intros _ q2 I2 S2 _.
  eapply post_last; [by etrans|apply IH; [done|]|done]. intros e He. rewrite (st_ports _ _ S2), (st_ports _ _ S1). apply Hl. by right.
Qed.

Lemma reset_ports_ok fr q : Inv fr q -> keeps qrtr_reset_ports fr q.
Proof.
  intros HI. unfold qrtr_reset_ports. apply post_gets. apply reset_loop_ok; [done|]. intros [i s] He.
  apply list_elem_of_filter in He as [_ He]. apply xa_elem_load in He; [done|apply HI].
Qed.

(** The address is set, and the port is the only one of the socket. *)
Lemma bind_done_ok q s x i p :
  Inv (rebind i s) q -> q_socks q !! s = Some x -> sk_dead x = false -> xa_load (q_ports q) i = Some s ->
  (forall j, xa_load (q_ports q) j = Some s -> j = i) -> port_index p = i ->
  Inv idle (sock_put_in q s (x <| us := mk_sq (sq_node (us x)) (u32 p) |> <| sk_zapped := false |>)).
Proof.
  intros [] Hx Hd Hi Hu Ep. set (x' := _ <| sk_zapped := false |>).
  assert (port_index (sq_port (us x')) = i) as Ei by (cbn; by rewrite port_index_u32). split; cbn -[Z.of_nat Z.add]; try assumption.
  - intros t y. destruct (Z.eqb_spec s t) as [<-|Ht]; [|rewrite lookup_insert_ne by done; apply inv_sock].
    rewrite lookup_insert_eq. intros [= <-]. exact (inv_sock s x Hx).
  - intros t. destruct (Z.eqb_spec s t) as [<-|Ht]; [by rewrite lookup_insert_eq|]. rewrite lookup_insert_ne by done. apply inv_nosock.
  - intros j t Hj. right. destruct (Z.eqb_spec s t) as [<-|Ht].
    + exists x'. rewrite lookup_insert_eq. rewrite (Hu j Hj). by auto.
    + rewrite lookup_insert_ne by done. destruct (inv_bound j t Hj) as [[-> ->]|]; [done|done].
  - intros t y. destruct (Z.eqb_spec s t) as [<-|Ht].
    + rewrite lookup_insert_eq. intros [= <-] _ _. left. by rewrite Ei.
    + rewrite lookup_insert_ne by done. intros Hy Hd' Hz. destruct (inv_port t y Hy Hd' Hz) as [|[j [_ ->]]]; [by left|done].
Qed.

(** Binding leaves the sockets it is not about as they were. *)
Definition binds {A : Type} (s : Z) (_ : A) (q' : qrtr) : Prop := Inv idle q' /\ opened q' s.

Lemma opened_same q q' s : same_sock q q' s -> opened q s -> opened q' s.
Proof. intros (x & x' & Hx & Hx' & _ & _ & Ed) (y & Hy & Hd). exists x'. rewrite Hx in Hy. injection Hy as <-. by rewrite Ed. Qed.

Lemma rebind_ports q s x :
  Inv idle q -> q_socks q !! s = Some x -> sk_dead x = false ->
  if sk_zapped x then forall j, xa_load (q_ports q) j <> Some s
  else forall j, xa_load (q_ports q) j = Some s <-> j = port_index (sq_port (us x)).
Proof.
  intros HI Hx Hd. assert (forall j, xa_load (q_ports q) j = Some s -> sk_zapped x = false /\ port_index (sq_port (us x)) = j) as H.
  { intros j Hj. destruct (inv_bound _ _ HI j s Hj) as [[]|(y & Hy & Hz & Hp & _)]. rewrite Hx in Hy. injection Hy as <-. done. }
  destruct (sk_zapped x) eqn:Ez; [intros j Hj; by destruct (H j Hj)|]. intros j. split; [intros Hj; by destruct (H j Hj)|].
  intros ->. destruct (inv_port _ _ HI s x Hx Hd Ez) as [|[? []]]. done.
Qed.

Lemma bind_ok q s x p :
  Inv idle q -> q_socks q !! s = Some x -> sk_dead x = false -> post (__qrtr_bind env s p (sk_zapped x) (W q)) (binds s).
Proof.
  intros HI Hx Hd. assert (opened q s) as Ho by by exists x. unfold __qrtr_bind. eapply post_get_sock; [done|by left|].
  intros y Hy. rewrite Hx in Hy. injection Hy as <-. destruct (_ && _); [by apply post_ret|].
  apply post_bind. eapply post_mono; [by apply port_assign_ok|]. intros [port|rc] q1 [Hs1 H1]; cycle 1.
  { destruct H1 as [I1 S1]. apply post_ret. split; [done|by apply (st_open _ _ S1)]. }
  destruct H1 as (I1 & Hn & Hp1). pose proof (opened_same _ _ _ Hs1 Ho) as Ho1. set (i := port_index port) in *.
  destruct Hs1 as (x0 & x1 & H0 & Hx1 & Eu1 & Ez1 & Ed1). rewrite Hx in H0. injection H0 as <-.
  eapply (post_step (rebind i s) _ _ _ any); [destruct (_ =? _); [by apply reset_ports_ok|apply post_ret; by split]|].
  intros _ q2 I2 S2 _. pose proof (st_open _ _ S2 s Ho1) as Ho2. destruct Ho2 as (x2 & Hx2 & Hd2).
  destruct (st_us _ _ S2 s x1 x2 Hx1 Hx2) as (Eu2 & Ez2 & _).
  assert (xa_sorted (q_ports q)) as Hsrt by apply HI.
  pose proof (rebind_ports q s x HI Hx Hd) as Hports. apply post_bind.
  eapply (post_mono _ (fun _ q3 => Inv (rebind i s) q3 /\ opened q3 s /\ xa_load (q_ports q3) i = Some s /\
    forall j, xa_load (q_ports q3) j = Some s -> j = i)).
  - assert (forall j, xa_load (q_ports q2) j = if i =? j then Some s else xa_load (q_ports q) j) as L2.
    { intros j. rewrite (st_ports _ _ S2), Hp1. by apply xa_load_store. }
    destruct (sk_zapped x) eqn:Ez; cbn [negb].
    + apply post_ret. split; [done|]. split; [by exists x2|]. split; [by rewrite L2, Z.eqb_refl|].
      intros j. rewrite L2. destruct (Z.eqb_spec i j) as [<-|]; [done|]. intros Hj. by destruct (Hports j).
    + assert (i <> port_index (sq_port (us x))) as Hne.
      { intros E. rewrite E in Hn. rewrite (proj2 (Hports _) eq_refl) in Hn. done. }
      eapply post_mono; [apply (port_remove_ok (rebind i s) q2 s x2); try done|].
      * intros n [].
      * left. by exists x2.
      * rewrite L2, Eu2, Eu1. destruct (Z.eqb_spec i (port_index (sq_port (us x)))) as [|_]; [done|]. by apply Hports.
      * right. by exists i.
      * intros _ q3 (I3 & Hp3 & Ho3 & _). split; [done|]. split; [apply Ho3; by exists x2|].
        rewrite Hp3, Eu2, Eu1. split.
        -- rewrite xa_load_erase, L2, Z.eqb_refl. by rewrite (proj2 (Z.eqb_neq _ _)) by congruence.
        -- intros j. rewrite xa_load_erase, L2. destruct (Z.eqb_spec (port_index (sq_port (us x))) j) as [|Hj]; [done|].
           destruct (Z.eqb_spec i j) as [<-|]; [done|]. intros Hjs. by apply Hports in Hjs.
  - intros _ q3 (I3 & (x3 & Hx3 & Hd3) & Hi3 & Hu3). unfold upd_sock. rewrite run_assoc.
    eapply post_get_sock; [exact I3|left; by exists x3|]. intros y Hy. rewrite Hx3 in Hy. injection Hy as <-.
    unfold set_sock. apply post_modify. apply post_ret. split; [by apply (bind_done_ok q3 s x3 i port)|].
    eexists. split; [apply lookup_insert_eq|done].
Qed.

Lemma autobind_ok q s : Inv idle q -> opened q s -> post (qrtr_autobind env s (W q)) (binds s).
Proof.
  intros HI Ho. unfold qrtr_autobind. eapply post_get_sock; [done|by left|]. intros x Hx.
  destruct Ho as (y & Hy & Hd). rewrite Hx in Hy. injection Hy as <-.
  destruct (sk_zapped x) eqn:Ez; cbn [negb]; [|apply post_ret; split; [done|by exists x]]. rewrite <- Ez. by apply bind_ok.
Qed.

(** ** Sending *)

Lemma PAGE_ALIGN_ge z : z <= PAGE_ALIGN z.
Proof.
  unfold PAGE_ALIGN, PAGE_SIZE. change 4096 with (2 ^ 12). rewrite ALIGN_pow2 by lia.
  pose proof (Z.div_mod (z + (2 ^ 12 - 1)) (2 ^ 12)). pose proof (Z.mod_pos_bound (z + (2 ^ 12 - 1)) (2 ^ 12)). lia.
Qed.

Lemma data_len_range limit plen :
  let dl := if limit <? plen then Z.min (plen - limit) (e_max_skb_frags env * PAGE_SIZE) else 0 in
  0 <= dl /\ (dl <> 0 -> limit < plen).
Proof.
  pose proof (env_max_frags _ Eok) as Hm. unfold PAGE_SIZE. cbn zeta. destruct (Z.ltb_spec limit plen); lia.
Qed.

Lemma alloc_skb_send_ok fr q s len :
  Inv fr q -> post (qrtr_sock_alloc_skb_send env s len (W q)) (kept fr q (fun o _ =>
    match o with Some b => skb_wf b /\ skb_sk b = Some s | None => True end)).
Proof.
  intros HI. unfold qrtr_sock_alloc_skb_send. apply post_gets.
  eapply post_step; [by apply (alloc_skb_ok fr)|]. intros ok q1 I1 S1 _. destruct ok; cbn [negb]; [|apply post_ret; by split].
  set (plen := Z.land (len + 3) (Z.lnot 3)).
  assert (forall n, Forall (fun f => 0 <= f) (e_frags env n)) as Hf by apply Eok.
  pose proof (data_len_range (e_skb_max_alloc env) plen) as [H1 _]. pose proof (data_len_range PAGE_SIZE plen) as [H2 H3].
  destruct (is_primary _); apply post_ret; (split; [done|]; split; [done|]).
  { split; [|done]. split; [exact H1|apply Hf]. }
  set (dl := if PAGE_SIZE <? plen then _ else 0) in *.
  destruct (truth dl) eqn:Et; (split; [|done]; split; [|apply Hf]); [|done].
  pose proof (PAGE_ALIGN_ge dl). unfold truth in Et. zbool. unfold PAGE_SIZE in H3.
  cbn [skb_data_len]. change QRTR_HDR_MAX_SIZE with 32. lia.
Qed.

Definition route_frame (r : route) : frame := match r with RNode n => nhold n 1 idle | _ => idle end.

Definition route_ok (r : route) (q : qrtr) : Prop := match r with RNode n => registered q n | _ => True end.

Lemma route_ok_stable r q q' : route_ok r q -> stable q q' -> route_ok r q'.
Proof. destruct r; [done|done|apply registered_stable]. Qed.

Lemma route_leaving r n : ~ leaving (route_frame r) n.
Proof. destruct r; intros []. Qed.

Lemma route_nheld r m : 0 <= nheld (route_frame r) m.
Proof. destruct r as [| |n]; cbn; [done|done|]. destruct (n =? m); lia. Qed.

(** The end of a send. *)
Lemma route_release_ok r q : Inv (route_frame r) q -> route_ok r q -> keeps (qrtr_node_release (route_node r)) idle q.
Proof.
  destruct r as [| |n]; intros HI Hr; [apply post_ret; by split..|]. by apply node_release_ok.
Qed.

Lemma send_route_ok q s addr :
  Inv idle q -> opened q s ->
  post (send_route s addr (W q)) (fun r q' => stable q q' /\
    match r with Ok r => Inv (route_frame r) q' /\ route_ok r q' | Err _ => Inv idle q' end).
Proof.
  intros HI Ho. unfold send_route. eapply post_get_sock; [done|by left|]. intros x Hx. apply post_gets.
  destruct (sq_node addr =? QRTR_NODE_BCAST); [destruct (_ && _); apply post_ret; by split|].
  destruct (_ =? _); [apply post_ret; by split|].
  apply post_bind. eapply post_mono; [apply node_lookup_ok; [done|intros n []]|]. intros [n|] q1 [S1 H]; [|apply post_ret; by split].
  destruct H as [I1 R1]. apply post_get_node; [by apply registered_present|]. intros y Hy.
  assert (usable (nhold n 1 idle) q1 s) as Hu by (left; by apply (st_open _ _ S1)).
  eapply (post_step (nhold n 1 idle) _ _ _ any).
  { destruct (_ && _); [apply upd_sock_ok; [done..|intros z; by split_and!]|].
    destruct (_ =? _); [apply upd_sock_ok; [done..|intros z; by split_and!]|apply post_ret; by split]. }
  intros _ q2 I2 S2 _. apply post_ret. split; [by etrans|]. split; [done|]. by eapply registered_stable.
Qed.

Lemma drop_server_ok r q b : Inv (route_frame r) q -> route_ok r q -> keeps (drop_server env r b) (route_frame r) q.
Proof.
  intros HI Hr. unfold drop_server. apply post_bind. eapply post_mono; [apply node_lookup_ok; [done|apply route_leaving]|].
  intros o q1 [S1 H]. pose proof (route_ok_stable _ _ _ Hr S1) as Hr1.
  set (fr1 := match o with Some n => nhold n 1 (route_frame r) | None => route_frame r end).
  assert (Inv fr1 q1) as I1 by (destruct o; [apply H|done]).
  assert (match o with Some n => registered q1 n | None => True end) as R1 by (destruct o; [apply H|done]).
  apply post_bind. eapply (post_mono _ (fun _ q' => q' = q1)).
  { destruct o as [n|]; [|by apply post_ret]. unfold node_view. apply post_get_node; [by apply registered_present|]. intros; by apply post_ret. }
  intros sv q1' ->. apply post_bind. eapply (post_mono _ (fun _ q' => q' = q1)).
  { destruct r as [| |n]; [by apply post_ret..|]. cbn [route_node]. unfold node_view.
    apply post_get_node; [by apply registered_present|]. intros; by apply post_ret. }
  intros dv q1' ->. eapply (post_step (route_frame r) _ _ _ any).
  { destruct o as [n|]; [|apply post_ret; by split]. apply node_release_ok; [done|apply route_nheld|done]. }
  intros _ q2 I2 S2 _. apply post_ret. split; [done|]. split; [by etrans|done].
Qed.

Lemma enqueue_fn_ok r q b type from to dontwait :
  Inv (route_frame r) q -> route_ok r q -> skb_owned (route_frame r) q b -> skb_wf b ->
  keeps (enqueue_fn env r b type from to dontwait) (route_frame r) q.
Proof.
  intros HI Hr Ho Hw. destruct r as [| |n]; cbn [enqueue_fn]; [by apply bcast_ok|by apply local_enqueue_ok|].
  apply node_enqueue_ok; [done|by apply registered_present|done|done].
Qed.

Lemma send_packet_ok s msg addr r q :
  Inv (route_frame r) q -> opened q s -> route_ok r q -> keeps (send_packet env s msg addr r) (route_frame r) q.
Proof.
  intros HI Ho Hr. set (fr := route_frame r) in *. unfold send_packet.
  eapply post_step; [by apply (alloc_skb_send_ok fr)|]. intros [b|] q1 I1 S1 Hb; [|apply post_ret; by split].
  destruct Hb as [Hw Es]. assert (usable fr q1 s) as Hu1 by (left; by apply (st_open _ _ S1)).
  destruct (truth (m_copy msg)); [by apply free_err_ok|]. set (b1 := b <| skb_bytes := _ |>).
  assert (skb_wf b1 /\ skb_sk b1 = Some s) as [Hw1 Es1] by done. clearbody b1.
  eapply post_get_sock; [done..|]. intros x Hx. destruct (_ && _); [by apply free_err_ok|].
  eapply (post_step fr _ _ _ any).
  { destruct (_ && _); [|apply post_ret; by split]. eapply post_step.
    - apply (upd_sock_ok fr); [done|done|intros z; by split_and!].
    - intros _ q2 I2 S2 _. eapply post_last; [exact S2|apply drop_server_ok; [done|]|done].
      eapply route_ok_stable; [exact Hr|by etrans]. }
  intros dropped q2 I2 S2 _. destruct dropped; [by apply free_err_ok; [|etrans]|].
  assert (usable fr q2 s) as Hu2 by (by eapply usable_stable). eapply post_get_sock; [done..|]. intros x2 Hx2.
  eapply post_step; [apply (enqueue_fn_ok r); [done| | |done]|].
  - eapply route_ok_stable; [exact Hr|by etrans].
  - unfold skb_owned. by rewrite Es1.
  - intros rc q3 I3 S3 _. apply post_ret. split; [done|]. split; [by do 2 (etrans; [done|])|done].
Qed.

Lemma send_addr_ok q s msg : Inv idle q -> opened q s -> post (send_addr env s msg (W q)) (binds s).
Proof.
  intros HI Ho. unfold send_addr. destruct (m_name msg) as [a|].
  - destruct (negb _); [by apply post_ret|]. apply post_bind. eapply post_mono; [by apply autobind_ok|].
    intros rc q1 [I1 O1]. by apply post_ret.
  - eapply post_get_sock; [done|by left|]. intros x Hx. by apply post_ret.
Qed.

Lemma sendmsg_ok q s msg : Inv idle q -> opened q s -> post (qrtr_sendmsg env s msg (W q)) (binds s).
Proof.
  intros HI Ho. unfold qrtr_sendmsg. destruct (truth _); [by apply post_ret|]. destruct (_ <? _); [by apply post_ret|].
  apply post_bind. eapply post_mono; [by apply send_addr_ok|]. intros [addr|rc] q1 [I1 O1]; [|by apply post_ret].
  apply post_bind. eapply post_mono; [by apply send_route_ok|]. intros [r|rc] q2 [S2 H]; cycle 1.
  { apply post_ret. split; [done|by apply (st_open _ _ S2)]. }
  destruct H as [I2 R2]. pose proof (st_open _ _ S2 s O1) as O2.
  eapply post_step; [by apply send_packet_ok|]. intros rc q3 I3 S3 _.
  eapply post_step; [apply (route_release_ok r); [done|by eapply route_ok_stable]|]. intros _ q4 I4 S4 _.
  apply post_ret. split; [done|]. by apply (st_open _ _ S4), (st_open _ _ S3).
Qed.

Lemma bind_sock_ok q s a : Inv idle q -> opened q s -> post (qrtr_bind env s a (W q)) (binds s).
Proof.
  intros HI Ho. unfold qrtr_bind. eapply post_get_sock; [done|by left|]. intros x Hx.
  destruct (negb (addr_ok a)); [by apply post_ret|]. destruct (negb _); [by apply post_ret|].
  destruct Ho as (y & Hy & Hd). rewrite Hx in Hy. injection Hy as <-. by apply bind_ok.
Qed.

(** ** Receiving *)

Lemma send_resume_tx_ok q cb : Inv idle q -> keeps (qrtr_send_resume_tx env cb) idle q.
Proof.
  intros HI. unfold qrtr_send_resume_tx. apply post_bind. eapply post_mono; [apply node_lookup_ok; [done|intros n []]|].
  intros [n|] q1 [S1 H]; [|apply post_ret; by split]. destruct H as [I1 R1].
  eapply post_step; [by apply (alloc_ctrl_ok (nhold n 1 idle))|]. intros o q2 I2 S2 Hb.
  pose proof (registered_stable _ _ _ R1 S2) as R2.
  assert (forall q' (rc : Z), Inv (nhold n 1 idle) q' -> stable q2 q' ->
    keeps (qrtr_node_release (Some n) ;;; mret rc) idle q') as Hend.
  { intros q' rc I' S'. eapply post_step; [apply (node_release_ok idle); [done|done|by eapply registered_stable]|].
    intros _ q3 I3 S3 _. apply post_ret. by split. }
  destruct o as [b|]; [|eapply post_last; [by etrans|by apply Hend|done]].
  eapply post_step; [apply (node_enqueue_ok (nhold n 1 idle)); [done|by apply registered_present|by apply fwd_owned|apply Hb]|].
  intros rc q3 I3 S3 _. eapply post_last; [by do 2 (etrans; [done|])|by apply Hend|done].
Qed.

Lemma recv_datagram_ok q s dontwait : Inv idle q -> opened q s -> keeps (skb_recv_datagram s dontwait) idle q.
Proof.
  intros HI Ho. unfold skb_recv_datagram. apply post_bind. eapply (post_mono _ (fun _ q' => q' = q)).
  { destruct dontwait; [by apply post_ret|]. eapply post_mono; [apply wait_until_ok|]. by intros _ q' [-> _]. }
  intros _ q' ->. eapply post_get_sock; [done|by left|]. intros x Hx. destruct (truth _).
  - eapply post_step; [apply (set_sock_ok idle q s x (fun x => x <| sk_err := 0 |>)); [done..|intros y; by split_and!]|].
    intros _ q1 I1 S1 _. apply post_ret. by split.
  - destruct (sk_receive_queue x) as [|b rest]; [apply post_ret; by split|]. eapply post_step.
    { apply (set_sock_ok idle q s x (fun x => x <| sk_receive_queue := rest |>)); [done..|intros y; by split_and!]. }
    intros _ q1 I1 S1 _. apply post_ret. by split.
Qed.

Lemma recvmsg_ok q s size dontwait copy : Inv idle q -> opened q s -> keeps (qrtr_recvmsg env s size dontwait copy) idle q.
Proof.
  intros HI Ho. unfold qrtr_recvmsg. eapply post_get_sock; [done|by left|]. intros x Hx.
  destruct (sk_zapped x); [apply post_ret; by split|].
  eapply post_step; [by apply recv_datagram_ok|]. intros [b|rc] q1 I1 S1 _; [|apply post_ret; by split].
  eapply (post_step idle _ _ _ any).
  { destruct (truth _); [|apply post_ret; by split]. eapply post_step; [by apply send_resume_tx_ok|].
    intros _ q2 I2 S2 _. apply post_ret. by split. }
  intros _ q2 I2 S2 _. eapply post_step; [by apply (kfree_skb_ok idle)|]. intros _ q3 I3 S3 _.
  assert (stable q q3) as S by by do 2 (etrans; [done|]).
  eapply post_get_sock; [done|left; by apply (st_open _ _ S)|]. intros x3 Hx3. eapply (post_step idle _ _ _ any).
  { destruct (_ && _); [|apply post_ret; by split].
    apply (set_sock_ok idle q3 s x3 (fun x => x <| rx_queue_has_space := true |> <| signal_on_recv := false |>));
      [done..|intros y; by split_and!]. }
  intros _ q4 I4 S4 _. apply post_ret. split; [done|]. split; [by etrans|done].
Qed.

(** ** The other operations of a socket *)

Lemma connect_ok q s a : Inv idle q -> opened q s -> post (qrtr_connect env s a (W q)) (binds s).
Proof.
  intros HI Ho. unfold qrtr_connect. destruct (negb _); [by apply post_ret|].
  eapply post_step; [apply (upd_sock_ok idle); [done|by left|intros y; by split_and!]|]. intros _ q1 I1 S1 _.
  apply post_bind. eapply post_mono; [apply autobind_ok; [done|by apply (st_open _ _ S1)]|].
  intros rc q2 [I2 O2]. destruct (truth rc); [by apply post_ret|].
  eapply post_step; [apply (upd_sock_ok idle); [done|by left|intros y; by split_and!]|]. intros _ q3 I3 S3 _.
  apply post_ret. split; [done|by apply (st_open _ _ S3)].
Qed.

Lemma shutdown_ok q s mode : Inv idle q -> opened q s -> keeps (qrtr_shutdown s mode) idle q.
Proof.
  intros HI Ho. unfold qrtr_shutdown. destruct (_ || _); [apply post_ret; by split|].
  eapply post_step; [apply (upd_sock_ok idle); [done|by left|intros y; by split_and!]|]. intros _ q1 I1 S1 _.
  apply post_ret. by split.
Qed.

Lemma getname_ok q s want_peer : Inv idle q -> opened q s -> keeps (qrtr_getname s want_peer) idle q.
Proof. intros HI Ho. unfold qrtr_getname. eapply post_get_sock; [done|by left|]. intros x Hx. apply post_ret. by split. Qed.

(** The last close turns the reference of the handle into the caller's. *)
Definition orphan (s : Z) : frame := (hold s 1 idle) <| closing := fun t => t = s |>.

Lemma orphan_ok q s x :
  Inv idle q -> q_socks q !! s = Some x -> sk_dead x = false ->
  Inv (orphan s) (sock_put_in q s (x <| sk_shutdown := 3 |> <| sk_dead := true |>)).
Proof.
  intros [] Hx Hd. split; cbn -[Z.of_nat Z.add]; try assumption.
  - intros t. destruct (s =? t); lia.
  - intros t y. destruct (Z.eqb_spec s t) as [<-|Ht].
    + rewrite lookup_insert_eq. intros [= <-]. destruct (inv_sock s x Hx) as (Er & ? & ?). unfold handle in *.
      cbn -[Z.of_nat Z.add] in *. rewrite Hd in Er. cbn [negb b2z] in *. lia.
    + rewrite lookup_insert_ne by done. intros Hy. destruct (inv_sock t y Hy) as (Er & ? & ?). cbn -[Z.add] in Er. lia.
  - intros t. destruct (Z.eqb_spec s t) as [<-|Ht]; [by rewrite lookup_insert_eq|].
    rewrite lookup_insert_ne by done. intros Hy. destruct (inv_nosock t Hy) as (? & ? & ?). lia.
  - intros i t Hi. destruct (inv_bound i t Hi) as [[]|(y & Hy & Hz & Hp & [Hc|[]])]. right. destruct (Z.eqb_spec s t) as [<-|Ht].
    + rewrite Hx in Hy. injection Hy as <-. eexists. rewrite lookup_insert_eq. split_and!; [done..|by right].
    + exists y. rewrite lookup_insert_ne by done. by auto.
  - intros t y. destruct (Z.eqb_spec s t) as [<-|Ht]; [rewrite lookup_insert_eq; by intros [= <-]|].
    rewrite lookup_insert_ne by done. apply inv_port.
Qed.

(** A closed socket without a port is closed for good. *)
Lemma closed_ok q s : Inv (orphan s) q -> (forall i, xa_load (q_ports q) i <> Some s) -> Inv (hold s 1 idle) q.
Proof.
  intros [] Hn. split; try assumption.
  intros i t Hi. destruct (inv_bound i t Hi) as [|(x & Hx & Hz & Hp & [|Hc])]; [by left|by eauto 8|]. cbn in Hc. subst t. by destruct (Hn i).
Qed.

Lemma reset_hello_ok : forall l q,
  Inv idle q -> Forall (present q) l ->
  keeps (for_each l (fun n => upd_node n (fun x => x <| n_hello_sent := 0 |> <| n_hello_rcvd := 0 |>))) idle q.
Proof.
  induction l as [|n l IH]; intros q HI Hl; cbn [for_each]; [apply post_ret; by split|].
  apply Forall_cons in Hl as [Hn Hl]. eapply post_step; [apply (upd_node_ok idle); [done..|intros y; by split_and!]|].
  intros _ q1 I1 S1 _. eapply post_last; [exact S1|apply IH; [done|by eapply Forall_present]|done].
Qed.

Lemma close_ctrl_ok q (b : bool) :
  Inv idle q ->
  keeps (if b then
           down_write ;;; epts <-- gets q_all_epts ;;;
           for_each epts (fun n => upd_node n (fun x => x <| n_hello_sent := 0 |> <| n_hello_rcvd := 0 |>)) ;;; up_write
         else mret tt) idle q.
Proof.
  intros HI. destruct b; [|apply post_ret; by split]. eapply post_step; [by apply (down_write_ok idle)|]. intros _ q1 I1 S1 _.
  apply post_gets. eapply post_step; [apply reset_hello_ok; [done|]|].
  - apply Forall_forall. intros n Hn. by apply (epts_present idle).
  - intros _ q2 I2 S2 _. eapply post_last; [by etrans|by apply (up_write_ok idle)|done].
Qed.

Lemma release_ok q s : Inv idle q -> opened q s -> post (qrtr_release env s (W q)) safely.
Proof.
  intros HI Ho. unfold qrtr_release. eapply post_get_sock; [done|by left|]. intros x0 Hx0.
  eapply post_step; [by apply close_ctrl_ok|]. intros _ q1 I1 S1 _. destruct (st_open _ _ S1 s Ho) as (x & Hx & Hd).
  unfold upd_sock at 1. rewrite run_assoc. eapply post_get_sock; [done|left; by exists x|]. intros y Hy. rewrite Hx in Hy. injection Hy as <-.
  unfold set_sock at 1. apply post_modify. pose proof (orphan_ok q1 s x I1 Hx Hd) as I2. unfold sock_put_in in I2.
  set (x2 := x <| sk_shutdown := 3 |> <| sk_dead := true |>) in *. set (q2 := q1 <| q_socks := _ |>) in *.
  assert (q_socks q2 !! s = Some x2) as Hx2 by apply lookup_insert_eq.
  assert (1 <= held (orphan s) s) as Hh by (by apply (hold_held idle)).
  assert (q_ports q2 = q_ports q1) as Ep by done. pose proof (rebind_ports q1 s x I1 Hx Hd) as Hports. rewrite <- Ep in Hports.
  clearbody q2. eapply post_get_sock; [done|by right|]. intros y Hy. rewrite Hx2 in Hy. injection Hy as <-. apply post_bind.
  eapply (post_mono _ (fun _ => Inv (hold s 1 idle))).
  { change (sk_zapped x2) with (sk_zapped x). destruct (sk_zapped x) eqn:Ez; [apply post_ret; by apply closed_ok|]. cbn [negb].
    eapply post_mono; [apply (port_remove_ok (orphan s) q2 s x2); try done; [intros n []|by right|by apply Hports|by left]|].
    intros _ q3 (I3 & E3 & _). apply closed_ok; [done|]. intros i. rewrite E3, xa_load_erase.
    destruct (Z.eqb_spec (port_index (sq_port (us x2))) i) as [|Hne]; [done|]. rewrite Hports. intros ->. by destruct Hne. }
  intros _ q3 I3. assert (1 <= held (hold s 1 idle) s) as Hh' by (by apply hold_held).
  eapply post_get_sock; [done|by right|]. intros x3 Hx3.
  eapply post_step; [by apply (frees_ok (hold s 1 idle))|]. intros u q4 I4 S4 _. clear u.
  eapply post_step; [apply (upd_sock_ok (hold s 1 idle)); [done|by right|intros y; by split_and!]|]. intros _ q5 I5 S5 _.
  eapply post_step; [apply (put_held_ok idle); [done|done]|]. intros _ q6 I6 S6 _. by apply post_ret.
Qed.

(** A new socket: no port, and the reference of its handle. *)
Lemma sock_new_ok q s x :
  Inv idle q -> q_socks q !! s = None -> s < Z.of_nat (q_allocs q) + 32 ->
  sk_dead x = false -> sk_zapped x = true -> sk_refcnt x = 1 -> Inv idle (sock_put_in q s x).
Proof.
  intros HI Hn Ha Hd Hz Hr. destruct (inv_nosock _ _ HI s Hn) as (Hp & Hw & _).
  assert (forall i t, xa_load (q_ports q) i = Some t -> t <> s) as Hne.
  { intros i t Hi ->. pose proof (port_refs_in s i _ Hi). lia. }
  destruct HI. split; cbn -[Z.of_nat Z.add]; try assumption.
  - intros t y. destruct (Z.eqb_spec s t) as [<-|Ht]; [|rewrite lookup_insert_ne by done; apply inv_sock].
    rewrite lookup_insert_eq. intros [= <-]. unfold handle. rewrite Hd, Hr, Hp, Hw. cbn [negb b2z]. lia.
  - intros t. destruct (Z.eqb_spec s t) as [<-|Ht]; [by rewrite lookup_insert_eq|]. rewrite lookup_insert_ne by done. apply inv_nosock.
  - intros i t Hi. right. destruct (inv_bound i t Hi) as [[]|(y & Hy & Hzy)]. exists y. specialize (Hne i t Hi).
    by rewrite lookup_insert_ne.
  - intros t y. destruct (Z.eqb_spec s t) as [<-|Ht]; [rewrite lookup_insert_eq; intros [= <-]; congruence|].
    rewrite lookup_insert_ne by done. apply inv_port.
Qed.

Lemma create_ok q type : Inv idle q -> post (qrtr_create env type (W q)) safely.
Proof.
  intros HI. unfold qrtr_create. destruct (negb _); [by apply post_ret|].
  eapply post_step; [by apply (kmalloc_ok idle)|]. intros [s|] q1 I1 S1 Hf; [|by apply post_ret]. destruct Hf as (Hs & _ & Ha).
  apply post_gets. unfold set_sock. apply post_modify. apply post_ret. by apply (sock_new_ok q1).
Qed.

End Safe.
