(* ===== verification/QrtrOps.v ===== *)
(** * QrtrOps: the IPC router as a transition system

    The calls that the network core, the transports and the worker threads make,
    what they promise about them, and the states that any sequence of such calls
    reaches from the start. In all of them the reference counts are exact and no
    call uses what was freed. *)
From stdpp Require Import prelude gmap list relations.
From S2P Require Import Prelude.
From S2P Require Import Effects.
From S2P Require Import XArray.
From S2P Require Import Qrtr.
From S2P Require Import QrtrPkt.
From S2P Require Import AfQrtr.
From S2P Require Import QrtrInv.
From S2P Require Import QrtrSafe.
#[local] Open Scope kernel_scope.

Inductive qop :=
| OpCreate (type : Z)
| OpBind (s : Z) (a : msg_addr)
| OpConnect (s : Z) (a : msg_addr)
| OpSendmsg (s : Z) (msg : msghdr)
| OpRecvmsg (s size : Z) (dontwait : bool) (copy : Z)
| OpGetname (s : Z) (want_peer : bool)
| OpShutdown (s mode : Z)
| OpRelease (s : Z)
| OpRegister (ep : option Z) (has_xmit task : bool) (net_id : Z) (no_wake : list Z)
| OpPost (ep : Z) (data : list Z)
| OpUnregister (ep : Z)
| OpWorker (n : Z)
| OpBackup
| OpNodeId (nodes : list (option Z)).

Definition discard {A : Type} (c : M qrtr A) : M qrtr unit := c ;;; mret tt.

(** The packets a worker thread finds, and the ids a node may have. *)
Definition queue_len (q : qrtr) (n : Z) : nat :=
  match q_heap q !! n with Some x => length (n_rx_queue x) | None => 0 end.

Section Ops.
Context {XC : XaCyclic}.

(** The loops get as much fuel as there are packets or ids. *)
Definition run_op (env : qrtr_env) (o : qop) : M qrtr unit :=
  match o with
  | OpCreate type => discard (qrtr_create env type)
  | OpBind s a => discard (qrtr_bind env s a)
  | OpConnect s a => discard (qrtr_connect env s a)
  | OpSendmsg s msg => discard (qrtr_sendmsg env s msg)
  | OpRecvmsg s size dontwait copy => discard (qrtr_recvmsg env s size dontwait copy)
  | OpGetname s p => discard (qrtr_getname s p)
  | OpShutdown s mode => discard (qrtr_shutdown s mode)
  | OpRelease s => discard (qrtr_release env s)
  | OpRegister ep x t net nw => discard (qrtr_endpoint_register env ep x t net nw)
  | OpPost ep data => discard (qrtr_endpoint_post env ep data)
  | OpUnregister ep => fuel <-- gets (fun q => length (q_nodes q)) ;;; qrtr_endpoint_unregister env fuel ep
  | OpWorker n => fuel <-- gets (fun q => queue_len q n) ;;; qrtr_kworker env fuel n
  | OpBackup => qrtr_alloc_backup env
  | OpNodeId nodes => qrtr_update_node_id nodes
  end.

(** The callers' side: socket calls are for open sockets, a transport uses its
    endpoint between registering and unregistering it, a worker thread runs
    while its node is registered. *)
Definition op_ok (env : qrtr_env) (q : qrtr) (o : qop) : Prop :=
  match o with
  | OpBind s _ | OpConnect s _ | OpSendmsg s _ | OpRecvmsg s _ _ _ | OpGetname s _ | OpShutdown s _ | OpRelease s => opened q s
  | OpPost ep data => is_Some (q_eps q !! ep) /\ is_bytes data /\ reportable env q data
  | OpUnregister ep => is_Some (q_eps q !! ep)
  | OpWorker n => n ∈ q_all_epts q
  | _ => True
  end.

(** One call that returns. The answers of the environment may differ from call
    to call. *)
Inductive step (q q' : qrtr) : Prop :=
| step_op env o : env_ok env -> op_ok env q o -> run_op env o (W q) = Ret tt (W q') -> step q q'.

(** Nothing is registered, opened or allocated. *)
Definition qrtr_boot : qrtr := mk_qrtr ∅ [] QRTR_MIN_EPH_SOCKET ∅ [] [] 0 ∅ QRTR_LOCAL_PVM_NODE_ID 0 0 false 0 [].

Definition reachable (q : qrtr) : Prop := rtc step qrtr_boot q.

Lemma boot_inv : Inv idle qrtr_boot.
Proof.
  split; cbn; try done; [constructor|constructor|]. by intros n Hn%not_elem_of_nil.
Qed.

Lemma discard_post {A : Type} (c : M qrtr A) q (Q : qrtr -> Prop) :
  post (c (W q)) (fun _ => Q) -> post (discard c (W q)) (fun _ => Q).
Proof. intros H. apply post_bind. eapply post_mono; [exact H|]. intros a q' Hq. by apply post_ret. Qed.

Lemma kept_post {A : Type} (o : outcome qrtr A) q (P : A -> qrtr -> Prop) :
  post o (kept idle q P) -> post o (fun _ => Inv idle).
Proof. intros H. eapply post_mono; [exact H|]. by intros a q' (HI & _). Qed.

Lemma binds_post {A : Type} (o : outcome qrtr A) s : post o (binds s) -> post o (fun _ => Inv idle).
Proof. intros H. eapply post_mono; [exact H|]. by intros a q' (HI & _). Qed.

Context {XL : XaCyclicLaws XC}.

Lemma run_op_ok env q o :
  env_ok env -> Inv idle q -> op_ok env q o -> post (run_op env o (W q)) (fun _ => Inv idle).
Proof.
  intros Eok HI Hok. destruct o as [type|s a|s a|s msg|s size dw cp|s p|s mode|s|ep x t net nw|ep data|ep|n| |nodes]; cbn [run_op op_ok] in *.
  - apply discard_post. by apply create_ok.
  - apply discard_post. eapply binds_post. by apply bind_sock_ok.
  - apply discard_post. eapply binds_post. by apply connect_ok.
  - apply discard_post. eapply binds_post. by apply sendmsg_ok.
  - apply discard_post. eapply kept_post. by apply recvmsg_ok.
  - apply discard_post. eapply kept_post. by apply getname_ok.
  - apply discard_post. eapply kept_post. by apply shutdown_ok.
  - apply discard_post. by apply release_ok.
  - apply discard_post. by apply register_ok.
  - apply discard_post. destruct Hok as ([n He] & Hb & Hr). destruct (inv_eps _ _ HI ep n He) as [[]|[Hn _]].
    eapply kept_post. by eapply endpoint_post_ok.
  - apply post_gets. destruct Hok as [n He]. eapply post_mono; [by eapply unregister_ok|]. by intros _ q' (? & _).
  - apply post_gets. eapply kept_post. apply kworker_ok; [done|done|intros m []|]. by eapply (epts_present idle).
  - eapply kept_post. by apply alloc_backup_ok.
  - induction nodes as [|[id|] nodes IH]; cbn [qrtr_update_node_id]; [by apply post_ret| |exact IH].
    cbn. split; [done|]. destruct HI. split; cbn; assumption.
Qed.

Lemma step_inv q q' : step q q' -> Inv idle q -> Inv idle q'.
Proof.
  intros [env o Eok Hok E] HI. pose proof (run_op_ok env q o Eok HI Hok) as H. rewrite E in H. by destruct H.
Qed.

Lemma reachable_inv q : reachable q -> Inv idle q.
Proof.
  intros H. unfold reachable in H. pose proof boot_inv as HI. revert HI. induction H as [|q1 q2 q3 H12 _ IH]; [done|].
  intros HI. apply IH. by eapply step_inv.
Qed.
End Ops.
