(* ===== verification/QrtrTerm.v ===== *)
(** * QrtrTerm: the loops of the IPC router end

    The worker thread takes packets from a queue that its own work does not
    fill; the unregistration of an endpoint goes through a tree that its own
    work does not extend. So the fuel of QrtrOps.v is enough for every call: it
    returns, unless it waits for another thread. *)
From Stdlib Require Import Sorted.
From stdpp Require Import prelude gmap list.
From S2P Require Import Prelude.
From S2P Require Import Effects.
From S2P Require Import XArray.
From S2P Require Import Qrtr.
From S2P Require Import QrtrNs.
From S2P Require Import QrtrPkt.
From S2P Require Import AfQrtr.
From S2P Require Import QrtrInv.
From S2P Require Import QrtrSafe.
From S2P Require Import QrtrOps.
#[local] Open Scope kernel_scope.

(** ** Runs that end *)

(** The computation does not run out of fuel, and what it did is in [R]. *)
Definition runs_at {A : Type} (R : relation qrtr) (q : qrtr) (c : M qrtr A) : Prop :=
  match c (W q) with
  | Ret _ w => w_sched w = [] /\ R q (w_st w)
  | NoFuel => False
  | Fault | Blocked => True
  end.

Definition runs {A : Type} (R : relation qrtr) (c : M qrtr A) : Prop := forall q, runs_at R q c.

(** No queue of packets is filled, and no id is added to the tree. *)
Definition settled (q q' : qrtr) : Prop :=
  q_nodes q' `sublist_of` q_nodes q /\
  forall n x', q_heap q' !! n = Some x' -> exists x, q_heap q !! n = Some x /\ n_rx_queue x' = n_rx_queue x.

#[export] Instance settled_pre : PreOrder settled.
Proof.
  split.
  - intros q. split; [done|]. eauto.
  - intros q1 q2 q3 [N12 H12] [N23 H23]. split; [by etrans|]. intros n x3 H3. destruct (H23 n x3 H3) as (x2 & H2 & E2).
    destruct (H12 n x2 H2) as (x1 & H1 & E1). exists x1. split; [done|congruence].
Qed.

Definition anyhow (q q' : qrtr) : Prop := True.

#[export] Instance anyhow_pre : PreOrder anyhow.
Proof. split; done. Qed.

Lemma runs_weaken {A : Type} (c : M qrtr A) q : runs_at settled q c -> runs_at anyhow q c.
Proof. unfold runs_at. destruct (c (W q)); [|done..]. by intros []. Qed.

Section Rel.
Context (R : relation qrtr) {PR : PreOrder R}.

Lemma runs_bind_at {A B : Type} (c : M qrtr A) (k : A -> M qrtr B) q :
  runs_at R q c -> (forall a q', R q q' -> runs_at R q' (k a)) -> runs_at R q (mbnd c k).
Proof.
  unfold runs_at, mbnd. destruct (c (W q)) as [a [q' sched]| | |]; [|done..]. cbn. intros [-> H1] H2.
  specialize (H2 a q' H1). change (mk_world q' []) with (W q'). destruct (k a (W q')); [|done..].
  destruct H2. split; [done|]. by etrans.
Qed.

Lemma runs_bind {A B : Type} (c : M qrtr A) (k : A -> M qrtr B) : runs R c -> (forall a, runs R (k a)) -> runs R (mbnd c k).
Proof. intros Hc Hk q. apply runs_bind_at; [apply Hc|]. intros a q' _. apply Hk. Qed.

Lemma runs_ret {A : Type} (a : A) : runs R (mret a).
Proof. intros q. by split. Qed.

Lemma runs_gets {A : Type} (f : qrtr -> A) : runs R (gets f).
Proof. intros q. by split. Qed.

Lemma runs_fault {A : Type} : runs R (fault : M qrtr A).
Proof. done. Qed.

Lemma runs_or_fault {A : Type} (o : option A) : runs R (or_fault o).
Proof. intros q. by destruct o. Qed.

Lemma runs_modify f : (forall q, R q (f q)) -> runs R (modify f).
Proof. intros Hf q. split; [done|]. apply Hf. Qed.

Lemma runs_wait_until cond : runs R (wait_until cond).
Proof. intros q. unfold runs_at, wait_until, W. cbn. destruct (cond q); [|done]. by split. Qed.

Lemma runs_wait_upto n cond : runs R (wait_upto n cond).
Proof. intros q. unfold runs_at, wait_upto, W. cbn. destruct n; cbn; destruct (cond q); by split. Qed.

Lemma runs_for_each {A : Type} (l : list A) (f : A -> M qrtr unit) : (forall a, runs R (f a)) -> runs R (for_each l f).
Proof. intros Hf. induction l as [|a l IH]; cbn [for_each]; [apply runs_ret|]. by apply runs_bind. Qed.

Lemma runs_get_sock s : runs R (get_sock s).
Proof. apply runs_bind; [apply runs_gets|]. intros o. apply runs_or_fault. Qed.

Lemma runs_get_node n : runs R (get_node n).
Proof. apply runs_bind; [apply runs_gets|]. intros o. apply runs_or_fault. Qed.

(** A read of a node, when what follows writes it back. *)
Lemma runs_with_node {B : Type} n (k : qrtr_node -> M qrtr B) :
  (forall q x, q_heap q !! n = Some x -> runs_at R q (k x)) -> runs R (mbnd (get_node n) k).
Proof.
  intros Hk q. unfold runs_at, get_node. rewrite run_assoc, run_gets. cbn [w_st W].
  destruct (q_heap q !! n) as [x|] eqn:E; [|done]. rewrite run_or_fault. by apply Hk.
Qed.
End Rel.

(** ** Runs that fill no queue *)

Abbreviation calm c := (runs settled c).

Lemma settled_same q q' : q_heap q' = q_heap q -> q_nodes q' = q_nodes q -> settled q q'.
Proof. intros Eh En. split; [by rewrite En|]. rewrite Eh. eauto. Qed.

Lemma settled_node q n x x' :
  q_heap q !! n = Some x -> n_rx_queue x' = n_rx_queue x -> settled q (node_put_in q n x').
Proof.
  intros Hx E. split; [done|]. intros m y. cbn. destruct (Z.eqb_spec n m) as [<-|Hm].
  - rewrite lookup_insert_eq. intros [= <-]. eauto.
  - rewrite lookup_insert_ne by done. eauto.
Qed.

Lemma calm_set_node q n x x' : q_heap q !! n = Some x -> n_rx_queue x' = n_rx_queue x -> runs_at settled q (set_node n x').
Proof. intros Hx E. split; [done|]. by apply (settled_node q n x). Qed.

Lemma calm_upd_node n f : (forall x, n_rx_queue (f x) = n_rx_queue x) -> calm (upd_node n f).
Proof. intros Hf. apply runs_with_node. intros q x Hx. by eapply calm_set_node. Qed.

Lemma calm_ret_at {A : Type} q (a : A) : runs_at settled q (mret a).
Proof. by split. Qed.

Create HintDb calm discriminated.
#[export] Hint Resolve runs_ret runs_gets runs_fault runs_or_fault runs_wait_until runs_wait_upto runs_get_sock runs_get_node : calm.
#[export] Hint Extern 1 (PreOrder _) => typeclasses eauto : calm.
#[export] Hint Extern 2 (runs _ (modify _)) => apply runs_modify; intros; by apply settled_same : calm.
#[export] Hint Extern 2 (runs _ (upd_node _ _)) => apply calm_upd_node; done : calm.

(** One step through a computation: a bind, a case, a known function. *)
Ltac calm_step :=
  match goal with
  | |- runs _ (mbnd _ _) => apply runs_bind; [typeclasses eauto| |intros ?]
  | |- runs _ (for_each _ _) => apply runs_for_each; [typeclasses eauto|intros ?]
  | |- runs _ (match ?x with _ => _ end) => destruct x
  | |- runs _ (let _ := _ in _) => cbv zeta
  end.

Ltac calms := cbv beta zeta; repeat (first [solve [eauto 3 with calm nocore] | calm_step]; cbv beta zeta).

Section Calm.
Context (env : qrtr_env).

Lemma calm_emit e : calm (emit e).
Proof. unfold emit. calms. Qed.

Lemma calm_kfree_skb b : calm (kfree_skb b).
Proof. apply calm_emit. Qed.

Lemma calm_set_sock s x : calm (set_sock s x).
Proof. unfold set_sock. calms. Qed.
Hint Resolve calm_emit calm_kfree_skb calm_set_sock : calm.

Lemma calm_upd_sock s f : calm (upd_sock s f).
Proof. unfold upd_sock. calms. Qed.
Hint Resolve calm_upd_sock : calm.

Lemma calm_kmalloc : calm (kmalloc env).
Proof. unfold kmalloc. calms. Qed.
Hint Resolve calm_kmalloc : calm.

Lemma calm_alloc_skb : calm (alloc_skb env).
Proof. unfold alloc_skb. calms. Qed.

Lemma calm_sock_put s : calm (sock_put s).
Proof. unfold sock_put. calms. Qed.
Hint Resolve calm_alloc_skb calm_sock_put : calm.

Lemma calm_port_lookup port : calm (qrtr_port_lookup port).
Proof. unfold qrtr_port_lookup, sock_hold. calms. Qed.
Hint Resolve calm_port_lookup : calm.

Lemma calm_locks : calm down_read /\ calm up_read /\ calm down_write /\ calm up_write.
Proof. unfold down_read, up_read, down_write, up_write. split; [|split; [|split]]; calms. Qed.

Lemma calm_down_read : calm down_read.
Proof. apply calm_locks. Qed.

Lemma calm_up_read : calm up_read.
Proof. apply calm_locks. Qed.

Lemma calm_down_write : calm down_write.
Proof. apply calm_locks. Qed.

Lemma calm_up_write : calm up_write.
Proof. apply calm_locks. Qed.
Hint Resolve calm_down_read calm_up_read calm_down_write calm_up_write : calm.

Lemma calm_sock_queue s b : calm (sock_queue_rcv_skb env s b).
Proof. unfold sock_queue_rcv_skb. calms. Qed.
Hint Resolve calm_sock_queue : calm.

(** With no other thread to make room, the wait does not end. *)
Lemma calm_queue_ctrl s b : calm (qrtr_sock_queue_ctrl_skb env s b).
Proof.
  intros q. change (runs_at settled q (queue_ctrl_loop env 0 s b)). cbn [queue_ctrl_loop].
  apply runs_bind_at; [typeclasses eauto|apply calm_sock_queue|]. intros rc q1 _.
  destruct (_ || _); [|by apply calm_ret_at]. unfold runs_at, upd_sock, get_sock. rewrite !run_assoc, run_gets.
  cbn [w_st W]. destruct (q_socks q1 !! s) as [x|]; [|done]. rewrite run_or_fault. unfold set_sock. rewrite run_modify.
  unfold wait_until, mbnd. cbn. by rewrite lookup_insert_eq.
Qed.
Hint Resolve calm_queue_ctrl : calm.

Lemma calm_queue_to_port s b : calm (queue_to_port env s b).
Proof. unfold queue_to_port. calms. Qed.
Hint Resolve calm_queue_to_port : calm.

Lemma calm_local_enqueue b type from to : calm (qrtr_local_enqueue env b type from to).
Proof. unfold qrtr_local_enqueue, qrtr_port_put. calms. Qed.
Hint Resolve calm_local_enqueue : calm.

Lemma calm_set_flow n key f : calm (set_flow n key f).
Proof. unfold set_flow. calms. Qed.
Hint Resolve calm_set_flow : calm.

Lemma calm_tx_wait n to sk type dontwait : calm (qrtr_tx_wait env n to sk type dontwait).
Proof. unfold qrtr_tx_wait, find_flow, get_flow, wait_flow, sock_hold. calms. Qed.

Lemma calm_tx_resume n b : calm (qrtr_tx_resume env n b).
Proof. unfold qrtr_tx_resume, get_flow. calms. Qed.

Lemma calm_flow_failed n dn dp : calm (qrtr_tx_flow_failed n dn dp).
Proof. unfold qrtr_tx_flow_failed, get_flow. calms. Qed.
Hint Resolve calm_tx_wait calm_tx_resume calm_flow_failed : calm.

Lemma calm_hello_gate n type : calm (hello_gate n type).
Proof.
  apply runs_with_node. intros q x Hx. cbv zeta. destruct (_ && _); [by apply calm_ret_at|].
  destruct (_ && _); [by apply calm_ret_at|]. apply runs_bind_at; [typeclasses eauto| |].
  - destruct (_ && _); [by eapply calm_set_node|by apply calm_ret_at].
  - intros u q' _. by apply calm_ret_at.
Qed.
Hint Resolve calm_hello_gate : calm.

Lemma calm_node_enqueue n b type from to dontwait : calm (qrtr_node_enqueue env n b type from to dontwait).
Proof. unfold qrtr_node_enqueue, skb_put_padto, xmit_skb. calms. Qed.
Hint Resolve calm_node_enqueue : calm.

(** A node that is freed leaves the tree and the heap. *)
Lemma calm_free_node n : calm (__qrtr_node_release n).
Proof.
  unfold __qrtr_node_release. apply runs_bind; [typeclasses eauto| |intros ?].
  { apply runs_modify. intros q. split; [apply sublist_filter|]. eauto. }
  do 5 (apply runs_bind; [typeclasses eauto|calms|intros ?]).
  apply runs_modify. intros q. split; [done|]. intros m x'. cbn. destruct (Z.eqb_spec n m) as [<-|Hm].
  - by rewrite lookup_delete_eq.
  - rewrite lookup_delete_ne by done. eauto.
Qed.
Hint Resolve calm_free_node : calm.

Lemma calm_node_release o : calm (qrtr_node_release o).
Proof.
  destruct o as [n|]; [|intros q; by apply calm_ret_at]. cbn [qrtr_node_release]. unfold kref_put_rwsem_lock. apply runs_with_node. intros q x Hx.
  destruct (negb _); [by eapply calm_set_node|]. apply runs_bind; [typeclasses eauto|calms|intros _].
  apply runs_with_node. intros q1 x1 Hx1. apply runs_bind_at; [typeclasses eauto|by eapply calm_set_node|].
  intros _ q2 _. destruct (_ =? _); [apply calm_free_node|apply calm_up_write].
Qed.
Hint Resolve calm_node_release : calm.

Lemma calm_node_lookup nid : calm (qrtr_node_lookup nid).
Proof. unfold qrtr_node_lookup, qrtr_node_acquire. calms. Qed.
Hint Resolve calm_node_lookup : calm.

Lemma calm_fwd_loop src b : forall epts, calm (fwd_loop env epts src b).
Proof. induction epts as [|n epts IH]; cbn [fwd_loop node_view]; calms. Qed.
Hint Resolve calm_fwd_loop : calm.

Lemma calm_fwd_pkt b cb : calm (qrtr_fwd_pkt env b cb).
Proof. unfold qrtr_fwd_pkt. calms. Qed.
Hint Resolve calm_fwd_pkt : calm.

Lemma calm_sock_queue_skb n b s : calm (qrtr_sock_queue_skb env n b s).
Proof.
  apply runs_with_node. intros q x Hx. cbv zeta. destruct (_ && _); [apply calm_kfree_skb|]. apply runs_bind_at; [typeclasses eauto| |].
  - destruct (_ =? _); [by eapply calm_set_node|by apply calm_ret_at].
  - intros u q' _. revert q'. change (calm (rc <-- queue_to_port env s b ;;; if truth rc then kfree_skb b else mret tt)). calms.
Qed.
Hint Resolve calm_sock_queue_skb : calm.

Lemma calm_rx_one n b : calm (rx_one env n b).
Proof. unfold rx_one, qrtr_fwd_ctrl_pkt, qrtr_port_put. calms. Qed.

Lemma calm_alloc_ctrl pkt : calm (qrtr_alloc_ctrl_packet env pkt).
Proof. unfold qrtr_alloc_ctrl_packet. calms. Qed.
Hint Resolve calm_rx_one calm_alloc_ctrl : calm.

Lemma calm_hello_work n : calm (qrtr_hello_work env n).
Proof. unfold qrtr_hello_work, qrtr_port_put. calms. Qed.

Lemma calm_del_proc_loop src nid : forall epts, calm (fwd_del_proc_loop env epts src nid).
Proof. induction epts as [|n epts IH]; cbn [fwd_del_proc_loop node_view]; calms. Qed.
Hint Resolve calm_hello_work calm_del_proc_loop : calm.

Lemma calm_del_proc src nid : calm (qrtr_fwd_del_proc env src nid).
Proof. unfold qrtr_fwd_del_proc. calms. Qed.
Hint Resolve calm_del_proc : calm.

(** ** The two loops *)

(** The queue of a node is empty, if the node is still there. *)
Definition drained (n : Z) (q : qrtr) : Prop := forall x, q_heap q !! n = Some x -> n_rx_queue x = [].

Lemma rx_work_ends n : forall fuel q,
  (queue_len q n <= fuel)%nat -> runs_at (fun _ => drained n) q (qrtr_node_rx_work env fuel n).
Proof.
  unfold qrtr_node_rx_work. induction fuel as [|fuel IH]; intros q Hl; cbn [rx_work_loop].
  all: unfold runs_at, get_node; rewrite run_assoc, run_gets; cbn [w_st W]; unfold queue_len in Hl.
  all: destruct (q_heap q !! n) as [x|] eqn:Ex; [|done]; rewrite run_or_fault.
  all: destruct (n_rx_queue x) as [|b rest] eqn:Eq.
  1, 3: cbn; split; [done|]; intros y Hy; congruence.
  { cbn in Hl. lia. }
  unfold set_node. rewrite run_modify. set (q1 := _ <| q_heap := _ |>). change (with_st _ q1) with (W q1).
  unfold mbnd at 1. pose proof (calm_rx_one n b q1) as H. unfold runs_at in H.
  destruct (rx_one env n b (W q1)) as [u [q2 sched]| | |]; [|done..]. cbn in H. destruct H as [-> [_ H]].
  apply (IH q2). unfold queue_len. destruct (q_heap q2 !! n) as [y|] eqn:Ey; [|lia].
  destruct (H n y Ey) as (z & Hz & ->). subst q1. cbn in Hz. rewrite lookup_insert_eq in Hz. injection Hz as <-. cbn in Hl |- *. lia.
Qed.

Lemma calm_say_hello n :
  calm (x <-- get_node n ;;; if n_say_hello x then set_node n (x <| n_say_hello := false |>) ;;; qrtr_hello_work env n else mret tt).
Proof.
  apply runs_with_node. intros q y Hy. destruct (n_say_hello y); [|by apply calm_ret_at].
  apply runs_bind_at; [typeclasses eauto|by eapply calm_set_node|]. intros _ q3 _. apply calm_hello_work.
Qed.

(** A turn of the worker: no fuel is missing, and the queue is empty when it
    was told that there is data. *)
Lemma kworker_ends n q x :
  q_heap q !! n = Some x -> n_read_data x = true ->
  runs_at (fun _ => drained n) q (qrtr_kworker env (queue_len q n) n).
Proof.
  intros Hx Hd. unfold runs_at, qrtr_kworker, get_node. rewrite !run_assoc, run_gets. cbn [w_st W]. rewrite Hx, run_or_fault, Hd.
  rewrite run_assoc. unfold set_node at 1. rewrite run_modify. set (q1 := _ <| q_heap := _ |>). change (with_st _ q1) with (W q1).
  assert (queue_len q1 n <= queue_len q n)%nat as Hl.
  { unfold queue_len. subst q1. cbn. by rewrite lookup_insert_eq, Hx. }
  clearbody q1. pose proof (rx_work_ends n _ q1 Hl) as H. unfold runs_at in H. unfold mbnd at 1.
  destruct (qrtr_node_rx_work _ _ _ _) as [u [q2 sched]| | |]; [|done..]. cbn in H. destruct H as [-> H].
  pose proof (calm_say_hello n q2) as H2.
  unfold runs_at in H2. unfold get_node in H2. rewrite run_assoc in H2. change (mk_world q2 []) with (W q2).
  destruct (mbnd _ _ (W q2)) as [u' [q3 sched]| | |]; [|done..]. cbn in H2 |- *. destruct H2 as [-> [_ H2]]. split; [done|].
  intros z Hz. destruct (H2 n z Hz) as (y & Hy & ->). by apply H.
Qed.

(** The entries of an array from an index on. *)
Definition entries_from {A : Type} (i : Z) (x : xarray A) : nat := length (filter (fun e => i <= fst e) x).

Lemma xa_find_in {A : Type} (x : xarray A) i k v : xa_find x i = Some (k, v) -> i <= k /\ (k, v) ∈ x.
Proof.
  induction x as [|[k' v'] x IH]; [done|]. cbn. destruct (Z.leb_spec i k').
  - intros [= -> ->]. split; [done|left].
  - intros E. destruct (IH E). split; [done|by right].
Qed.

(** Fewer are left after one that was found. *)
Lemma entries_from_next {A : Type} (x : xarray A) i k v :
  i <= k -> (k, v) ∈ x -> (entries_from (k + 1) x < entries_from i x)%nat.
Proof.
  intros Hi Hin. unfold entries_from.
  assert (forall y : xarray A, (length (filter (fun e => (k + 1 <= fst e)%Z) y) <= length (filter (fun e => (i <= fst e)%Z) y))%nat) as Hle.
  { induction y as [|e y IH]; [done|]. rewrite !filter_cons. repeat case_decide; cbn; lia. }
  induction x as [|e x IH]; [by apply not_elem_of_nil in Hin|]. rewrite !filter_cons. apply elem_of_cons in Hin as [<-|Hin].
  - cbn [fst]. rewrite decide_False, decide_True by lia. cbn. specialize (Hle x). lia.
  - specialize (IH Hin). repeat case_decide; cbn; lia.
Qed.

Lemma entries_from_sublist {A : Type} (x y : xarray A) i : x `sublist_of` y -> (entries_from i x <= entries_from i y)%nat.
Proof. unfold entries_from. induction 1 as [|e x y _ IH|e x y _ IH]; [done|..]; rewrite ?filter_cons; repeat case_decide; cbn; lia. Qed.

Lemma unregister_body_calm n m nid :
  calm (if m =? n then
          local <-- gets q_local_nid ;;;
          o <-- qrtr_alloc_ctrl_packet env (mk_pkt QRTR_TYPE_BYE 0 0 0 0) ;;;
          (match o with
           | Some skb => qrtr_local_enqueue env skb QRTR_TYPE_BYE (mk_sq nid QRTR_PORT_CTRL) (mk_sq local QRTR_PORT_CTRL) ;;; mret tt
           | None => mret tt
           end) ;;;
          qrtr_fwd_del_proc env n nid
        else mret tt).
Proof. calms. Qed.

Lemma unregister_loop_ends n : forall fuel i q,
  (entries_from i (q_nodes q) <= fuel)%nat -> runs_at settled q (unregister_loop env fuel n i).
Proof.
  induction fuel as [|fuel IH]; intros i q Hl; cbn [unregister_loop]; unfold runs_at; rewrite run_gets; cbn [w_st W].
  all: destruct (xa_find (q_nodes q) i) as [[nid m]|] eqn:E; [|by split].
  all: apply xa_find_in in E as [Hi Hin]; pose proof (entries_from_next _ i nid m Hi Hin).
  { lia. }
  apply (runs_bind_at settled _ _ q (unregister_body_calm n m nid q)). intros u q' [Hs _]. apply IH.
  pose proof (entries_from_sublist _ _ (nid + 1) Hs). lia.
Qed.

End Calm.

(** ** Every call ends *)

Abbreviation ends c := (runs anyhow c).

Lemma calm_ends {A : Type} (c : M qrtr A) : calm c -> ends c.
Proof. intros H q. by apply runs_weaken. Qed.

Lemma ends_modify f : ends (modify f).
Proof. by apply runs_modify. Qed.

#[export] Hint Resolve calm_ends ends_modify : calm.
#[export] Hint Resolve calm_emit calm_kfree_skb calm_set_sock calm_upd_sock calm_kmalloc calm_alloc_skb calm_sock_put
  calm_port_lookup calm_down_read calm_up_read calm_down_write calm_up_write calm_sock_queue calm_queue_to_port
  calm_local_enqueue calm_node_enqueue calm_node_release calm_node_lookup calm_alloc_ctrl : calm.

Section Ends.
Context {XC : XaCyclic} (env : qrtr_env).

Lemma ends_refill want : forall fuel have, (want <= have + fuel)%nat -> ends (refill env fuel have want).
Proof.
  induction fuel as [|fuel IH]; intros have Hf; cbn [refill]; destruct (Nat.ltb_spec have want); try (calms; fail).
  - lia.
  - apply runs_bind; [typeclasses eauto|calms|]. intros [|]; [apply IH; lia|calms].
Qed.

Lemma ends_backup : ends (qrtr_alloc_backup env).
Proof.
  unfold qrtr_alloc_backup. do 2 (apply runs_bind; [typeclasses eauto|calms|intros ?]).
  apply runs_bind; [typeclasses eauto|apply ends_refill; lia|intros ?].
  do 2 (apply runs_bind; [typeclasses eauto|calms|intros ?]).
  apply runs_bind; [typeclasses eauto|apply ends_refill; lia|intros ?]. calms.
Qed.

Lemma ends_node_assign n nid : ends (qrtr_node_assign env n nid).
Proof. unfold qrtr_node_assign, set_node. calms. Qed.
Hint Resolve ends_backup ends_node_assign : calm.

Lemma ends_post_alloc data : ends (post_alloc env data).
Proof. unfold post_alloc, qrtr_get_backup, qrtr_print_skb_failure_reason. calms. Qed.

Lemma ends_post_deliver n b : ends (post_deliver env n b).
Proof. unfold post_deliver, upd_node, set_node, qrtr_port_put. calms. Qed.
Hint Resolve ends_post_alloc ends_post_deliver : calm.

Lemma ends_post ep data : ends (qrtr_endpoint_post env ep data).
Proof. unfold qrtr_endpoint_post. calms. Qed.

Lemma ends_no_wake : forall l x, ends (no_wake_array env l x).
Proof. induction l as [|svc l IH]; intros x; cbn [no_wake_array]; calms. Qed.
Hint Resolve ends_no_wake : calm.

Lemma ends_register ep has_xmit task net_id no_wake : ends (qrtr_endpoint_register env ep has_xmit task net_id no_wake).
Proof. unfold qrtr_endpoint_register, upd_node, set_node. calms. Qed.

Lemma calm_bcast_loop b type from to dontwait : forall epts, calm (bcast_loop env epts b type from to dontwait).
Proof. induction epts as [|n epts IH]; cbn [bcast_loop]; calms. Qed.
Hint Resolve calm_bcast_loop : calm.

Lemma calm_bcast b type from to dontwait : calm (qrtr_bcast_enqueue env b type from to dontwait).
Proof. unfold qrtr_bcast_enqueue. calms. Qed.
Hint Resolve calm_bcast : calm.

Lemma calm_send_del_client s : calm (qrtr_send_del_client env s).
Proof. unfold qrtr_send_del_client. calms. Qed.
Hint Resolve calm_send_del_client : calm.

Lemma calm_port_remove s : calm (qrtr_port_remove env s).
Proof. unfold qrtr_port_remove, __sock_put. calms. Qed.

Lemma calm_port_assign s port : calm (qrtr_port_assign env s port).
Proof. unfold qrtr_port_assign, ports_insert, sock_hold. calms. Qed.
Hint Resolve calm_port_remove calm_port_assign : calm.

Lemma calm_bind s p zapped : calm (__qrtr_bind env s p zapped).
Proof. unfold __qrtr_bind, qrtr_reset_ports. calms. Qed.
Hint Resolve calm_bind : calm.

Lemma calm_autobind s : calm (qrtr_autobind env s).
Proof. unfold qrtr_autobind. calms. Qed.
Hint Resolve calm_autobind : calm.

Lemma calm_send_packet s msg addr r : calm (send_packet env s msg addr r).
Proof. unfold send_packet, qrtr_sock_alloc_skb_send, drop_server, node_view, enqueue_fn. calms. Qed.
Hint Resolve calm_send_packet : calm.

Lemma calm_sendmsg s msg : calm (qrtr_sendmsg env s msg).
Proof. unfold qrtr_sendmsg, send_addr, send_route. calms. Qed.

Lemma calm_recvmsg s size dontwait copy : calm (qrtr_recvmsg env s size dontwait copy).
Proof. unfold qrtr_recvmsg, skb_recv_datagram, qrtr_send_resume_tx. calms. Qed.

Lemma calm_release s : calm (qrtr_release env s).
Proof. unfold qrtr_release. calms. Qed.
Hint Resolve ends_post ends_register calm_sendmsg calm_recvmsg calm_release : calm.

Lemma unregister_ends q ep : runs_at anyhow q (qrtr_endpoint_unregister env (length (q_nodes q)) ep).
Proof.
  apply runs_weaken. unfold qrtr_endpoint_unregister, runs_at. rewrite run_gets. cbn [w_st W].
  destruct (q_eps q !! ep) as [n|]; [|done]. rewrite run_or_fault. apply (runs_bind_at settled); [by apply calm_upd_node|].
  intros u q1 [Hs _]. apply runs_bind_at; [typeclasses eauto|apply unregister_loop_ends|].
  - etrans; [by apply entries_from_sublist|]. apply length_filter.
  - intros u2 q2 _. apply runs_bind; [typeclasses eauto|calms|intros ?]. calms.
Qed.

Lemma worker_ends q n : runs_at anyhow q (qrtr_kworker env (queue_len q n) n).
Proof.
  destruct (q_heap q !! n) as [x|] eqn:Ex; [|unfold runs_at, qrtr_kworker, get_node; rewrite run_assoc, run_gets; cbn [w_st W]; by rewrite Ex].
  destruct (n_read_data x) eqn:Ed.
  - pose proof (kworker_ends env n q x Ex Ed) as H. unfold runs_at in *. destruct (qrtr_kworker _ _ _ _); [|done..]. by destruct H.
  - unfold runs_at, qrtr_kworker, get_node. rewrite run_assoc, run_gets. cbn [w_st W]. rewrite Ex, run_or_fault, Ed, run_ret.
    apply runs_weaken, calm_say_hello.
Qed.

(** Every call of the transition system returns, faults or waits: its fuel is
    enough. *)
Lemma run_op_ends o q : runs_at anyhow q (run_op env o).
Proof.
  destruct o; cbn [run_op]; unfold discard.
  11: unfold runs_at; rewrite run_gets; apply unregister_ends.
  11: unfold runs_at; rewrite run_gets; apply worker_ends.
  12: induction nodes as [|[id|] nodes IH]; cbn [qrtr_update_node_id]; [by split|by split|exact IH].
  all: revert q; match goal with |- forall q, runs_at anyhow q ?c => change (ends c) end.
  all: unfold qrtr_create, qrtr_bind, qrtr_connect, qrtr_getname, qrtr_shutdown; calms.
Qed.
End Ends.
