(* ===== verification/QrtrThm.v ===== *)
(** * QrtrThm: what holds of the IPC router in every reachable state

    The theorems about the transition system of QrtrOps.v: references are exact,
    ports belong to open sockets, calls return unless they wait, the worker
    thread empties its queue, an unregistered endpoint leaves nothing behind. *)
From stdpp Require Import prelude gmap list.
From S2P Require Import Prelude.
From S2P Require Import Effects.
From S2P Require Import XArray.
From S2P Require Import Qrtr.
From S2P Require Import QrtrPkt.
From S2P Require Import AfQrtr.
From S2P Require Import QrtrInv.
From S2P Require Import QrtrSafe.
From S2P Require Import QrtrOps.
From S2P Require Import QrtrTerm.
#[local] Open Scope kernel_scope.

(** The references the state holds to a socket. *)
Definition references (q : qrtr) (s : Z) (x : qrtr_sock) : Z :=
  handle x + port_refs s (q_ports q) + wait_refs s (q_heap q).

Section Thm.
Context {XC : XaCyclic} {XL : XaCyclicLaws XC}.

(** Two predicates about the same run. *)
Lemma post_runs {A : Type} R q (c : M qrtr A) (Q : A -> qrtr -> Prop) :
  post (c (W q)) Q -> runs_at R q c ->
  (exists a q', c (W q) = Ret a (W q') /\ Q a q' /\ R q q') \/ c (W q) = Blocked.
Proof.
  unfold runs_at. destruct (c (W q)) as [a [q' sched]| | |]; [|done|by right|done]. cbn. intros [-> HQ] [_ HR]. left. by exists a, q'.
Qed.

(** C9. In every state that calls of the network core, of transports and of
    worker threads reach, every reference count is exact and positive: a socket
    is counted once for its open handle, once for each port and once for each
    flow that will notify it, a node once for its endpoint; whatever the
    allocators and transports answered on the way. *)
Theorem references_exact q :
  reachable q ->
  (forall s x, q_socks q !! s = Some x -> sk_refcnt x = references q s x /\ 1 <= sk_refcnt x) /\
  (forall s, q_socks q !! s = None -> port_refs s (q_ports q) = 0 /\ wait_refs s (q_heap q) = 0) /\
  (forall n x, q_heap q !! n = Some x -> n_ref x = owner x).
Proof.
  intros Hq. pose proof (reachable_inv q Hq) as HI. split; [|split].
  - intros s x Hx. destruct (inv_sock _ _ HI s x Hx) as (E & H1 & _). cbn -[Z.add] in E. unfold references. lia.
  - intros s Hs. by destruct (inv_nosock _ _ HI s Hs) as (? & ? & _).
  - intros n x Hx. destruct (inv_node _ _ HI n x Hx) as (E & _). cbn -[Z.add] in E. lia.
Qed.

(** C8. A call in such a state never touches what was freed and never runs out
    of fuel: it returns, in a state that is reachable again, or it waits. It
    waits for another thread, or for the semaphore of the endpoints that it
    holds itself, which a forwarding without memory leaves held
    ([unregister_deadlocks_itself] is the run). This is for calls as [op_ok] has
    them: sockets are open, endpoints registered, and a packet from a transport
    is made of bytes and [reportable], that is the first allocation succeeds or
    the packet has at least 32 bytes (of a shorter one the report of the failure
    reads past the end, [short_packet_report_faults]). *)
Theorem calls_return_or_wait env q o :
  reachable q -> env_ok env -> op_ok env q o ->
  (exists q', run_op env o (W q) = Ret tt (W q') /\ reachable q') \/ run_op env o (W q) = Blocked.
Proof.
  intros Hq He Ho. pose proof (reachable_inv q Hq) as HI.
  destruct (post_runs _ q _ _ (run_op_ok env q o He HI Ho) (run_op_ends env o q)) as [([] & q' & E & _)|E]; [left|by right].
  exists q'. split; [done|]. eapply rtc_r; [exact Hq|]. by apply (step_op q q' env o).
Qed.

(** The port table and the open sockets agree: a port belongs to one open
    socket, whose address it is, and an open socket that is bound is found under
    its port. So packets are never queued to a closed socket, and no two open
    sockets share a port. *)
Theorem ports_match_open_sockets q :
  reachable q ->
  (forall i s, xa_load (q_ports q) i = Some s ->
     exists x, q_socks q !! s = Some x /\ sk_dead x = false /\ sk_zapped x = false /\ port_index (sq_port (us x)) = i) /\
  (forall s x, q_socks q !! s = Some x -> sk_dead x = false -> sk_zapped x = false ->
     xa_load (q_ports q) (port_index (sq_port (us x))) = Some s).
Proof.
  intros Hq. pose proof (reachable_inv q Hq) as HI. split.
  - intros i s Hi. destruct (inv_bound _ _ HI i s Hi) as [[]|(x & Hx & Hz & Hp & [Hd|[]])]. by exists x.
  - intros s x Hx Hd Hz. by destruct (inv_port _ _ HI s x Hx Hd Hz) as [|[? []]].
Qed.

(** A worker thread that is told of data ends: the loop takes as many turns
    as there are packets in the queue, since nothing the loop does fills it, and
    leaves the queue empty, unless it has to wait for another thread. *)
Theorem worker_empties_queue env q n x :
  reachable q -> env_ok env -> n ∈ q_all_epts q -> q_heap q !! n = Some x -> n_read_data x = true ->
  (exists q', qrtr_kworker env (queue_len q n) n (W q) = Ret tt (W q') /\ drained n q') \/
  qrtr_kworker env (queue_len q n) n (W q) = Blocked.
Proof.
  intros Hq He Hn Hx Hd. pose proof (reachable_inv q Hq) as HI.
  assert (post (qrtr_kworker env (queue_len q n) n (W q)) (fun _ => Inv idle)) as Hp.
  { eapply kept_post. apply kworker_ok; [done|done|intros m []|]. by eapply (epts_present idle). }
  destruct (post_runs _ q _ _ Hp (kworker_ends env n q x Hx Hd)) as [([] & q' & E & _ & H)|E]; [left|by right]. by exists q'.
Qed.

(** An endpoint that was unregistered leaves nothing behind: its node is
    freed, no id of the tree and no entry of the endpoint list refers to it, and
    no socket is still counted for its flows. *)
Theorem unregister_forgets_node env q ep n :
  reachable q -> env_ok env -> q_eps q !! ep = Some n ->
  (exists q', run_op env (OpUnregister ep) (W q) = Ret tt (W q') /\ q_heap q' !! n = None /\ q_eps q' !! ep = None /\
     (n ∉ q_all_epts q') /\ (forall nid, xa_load (q_nodes q') nid <> Some n) /\
     forall s x, q_socks q' !! s = Some x -> sk_refcnt x = references q' s x) \/
  run_op env (OpUnregister ep) (W q) = Blocked.
Proof.
  intros Hq He Hep. pose proof (reachable_inv q Hq) as HI.
  destruct (post_runs _ q _ _ (unregister_ok env He q (length (q_nodes q)) ep n HI Hep) (unregister_ends env q ep))
    as [([] & q' & E & (I' & Hn & Hd) & _)|E]; [left|by right].
  assert (n ∉ q_all_epts q') as Hne.
  { intros Hin. destruct (inv_epts _ _ I' n Hin) as (x & Hx & _). congruence. }
  exists q'. split; [done|]. split; [done|]. split; [done|]. split; [done|]. split.
  - intros nid Hnid. by apply Hne, (inv_nodes _ _ I' nid).
  - intros s x Hx. destruct (inv_sock _ _ I' s x Hx) as (Er & _). cbn -[Z.add] in Er. unfold references. lia.
Qed.
End Thm.
