(* ===== verification/QrtrFlow.v ===== *)
(** * QrtrFlow: flow control between processors

    A sender counts the packets it sends to a remote address. The packet that
    brings the count to the low mark asks the receiver for a confirmation; at
    the high mark senders are turned away until the confirmation comes. The
    functions of AfQrtr.v are shown to do what a small automaton does, and the
    automaton never turns a sender away without a confirmation on its way. *)
From stdpp Require Import prelude gmap list.
From S2P Require Import Prelude.
From S2P Require Import Effects.
From S2P Require Import XArray.
From S2P Require Import Qrtr.
From S2P Require Import QrtrPkt.
From S2P Require Import AfQrtr.
From S2P Require Import QrtrInv.
#[local] Open Scope kernel_scope.

(** ** The automaton *)

(** The flow of a key; one that is not in the tree yet is new. *)
Definition flow_of (t : xarray qrtr_tx_flow) (key : Z) : qrtr_tx_flow :=
  match xa_load t key with Some f => f | None => mk_flow 0 0 [] end.

(** What a packet does to a flow before it is sent: whether it asks for a
    confirmation, or [None] when the sender is turned away. *)
Definition flow_admit (f : qrtr_tx_flow) : option (Z * qrtr_tx_flow) :=
  if truth (tx_failed f) then Some (1, f <| tx_failed := 0 |>)
  else if QRTR_TX_FLOW_HIGH <=? pending f then None
  else Some (b2z (pending f + 1 =? QRTR_TX_FLOW_LOW), f <| pending := pending f + 1 |>).

(** What the transport's answer does to it afterwards. *)
Definition flow_sent (c rc : Z) (f : qrtr_tx_flow) : qrtr_tx_flow :=
  if truth rc && truth c then f <| tx_failed := 1 |> else f.

(** A packet that is sent, by the transport's answer. *)
Definition flow_send (f : qrtr_tx_flow) (rc : Z) : option (Z * qrtr_tx_flow) :=
  match flow_admit f with
  | Some (c, f') => Some (c, flow_sent c rc f')
  | None => None
  end.

(** The flow and the packets after a run of sends, each with whether it asked for
    a confirmation and the transport's answer; a sender that is turned away
    leaves nothing. *)
Fixpoint flow_run (f : qrtr_tx_flow) (rcs : list Z) : qrtr_tx_flow * list (Z * Z) :=
  match rcs with
  | [] => (f, [])
  | rc :: rcs' =>
      match flow_send f rc with
      | Some (c, f') => let '(g, sent) := flow_run f' rcs' in (g, (c, rc) :: sent)
      | None => flow_run f rcs'
      end
  end.

(** A confirmation is on its way: some packet that asked for it was accepted by
    the transport. *)
Definition confirm_coming (sent : list (Z * Z)) : Prop := exists c rc, (c, rc) ∈ sent /\ c <> 0 /\ rc = 0.

(** The flow is sound: the count is within its marks, and from the low mark on a
    confirmation comes or the next packet will ask for it. *)
Definition flow_sound (coming : Prop) (f : qrtr_tx_flow) : Prop :=
  0 <= pending f <= QRTR_TX_FLOW_HIGH /\ (QRTR_TX_FLOW_LOW <= pending f -> coming \/ tx_failed f <> 0).

Lemma flow_sound_mono (P Q : Prop) f : (P -> Q) -> flow_sound P f -> flow_sound Q f.
Proof. intros H [H1 H2]. split; [done|]. intros Hp. destruct (H2 Hp); auto. Qed.

Lemma flow_admit_confirm f c f' : flow_admit f = Some (c, f') -> 0 <= c.
Proof.
  unfold flow_admit. destruct (truth _); [by intros [= <- _]|]. destruct (_ <=? _); [done|]. intros [= <- _].
  destruct (_ =? _); cbn; lia.
Qed.

Lemma flow_send_sound coming f rc c f' :
  flow_sound coming f -> flow_send f rc = Some (c, f') -> flow_sound (coming \/ (c <> 0 /\ rc = 0)) f'.
Proof.
  unfold flow_sound, flow_send, flow_admit, flow_sent, QRTR_TX_FLOW_HIGH, QRTR_TX_FLOW_LOW. intros [Hp Hc].
  destruct (truth (tx_failed f)) eqn:Ef.
  - intros [= <- <-]. destruct (truth rc) eqn:Er; cbn.
    + split; [cbn; lia|]. intros _. right. cbn. lia.
    + split; [cbn; lia|]. intros _. left. right. unfold truth in Er. zbool. lia.
  - destruct (Z.leb_spec 10 (pending f)) as [|Hlt]; [done|]. intros [= <- <-].
    assert (tx_failed f = 0) as E0 by (unfold truth in Ef; zbool; done).
    destruct (truth rc) eqn:Er, (Z.eqb_spec (pending f + 1) 5) as [E5|E5]; cbn; (split; [cbn; lia|cbn; intros H]).
    + right. lia.
    + left. left. destruct Hc; [lia|done|done].
    + left. right. unfold truth in Er. zbool. cbn. lia.
    + left. left. destruct Hc; [lia|done|done].
Qed.

Lemma flow_run_sound rcs : forall coming f,
  flow_sound coming f -> flow_sound (coming \/ confirm_coming (flow_run f rcs).2) (flow_run f rcs).1.
Proof.
  induction rcs as [|rc rcs IH]; intros coming f Hf; cbn [flow_run].
  { eapply flow_sound_mono; [|exact Hf]. auto. }
  destruct (flow_send f rc) as [[c f']|] eqn:E; [|by apply IH].
  pose proof (IH _ f' (flow_send_sound _ _ _ _ _ Hf E)) as H. destruct (flow_run f' rcs) as [g sent]. cbn in H |- *.
  eapply flow_sound_mono; [|exact H]. unfold confirm_coming. intros [[Hc|[Hc ->]]|(c' & rc' & Hin & H')]; [by left|right|right].
  - exists c, 0. split; [left|done].
  - exists c', rc'. split; [by right|done].
Qed.

(** ** The code does what the automaton does *)

(** What a sender that only looks at its flow leaves alone. *)
Definition flow_only (q q' : qrtr) : Prop :=
  q_socks q' = q_socks q /\ q_ports q' = q_ports q /\ q_nodes q' = q_nodes q /\ q_all_epts q' = q_all_epts q /\
  q_epts_lock q' = q_epts_lock q /\ q_eps q' = q_eps q /\ q_local_nid q' = q_local_nid q /\ q_log q' = q_log q.

#[export] Instance flow_only_pre : PreOrder flow_only.
Proof. split; [by intros q|]. unfold flow_only. intros q1 q2 q3 H1 H2. intuition congruence. Qed.

Definition alloc_all (env : qrtr_env) : Prop := forall k, e_alloc env k = true.

Section Flow.
Context (env : qrtr_env) (Ha : alloc_all env).

Lemma run_alloc {B : Type} (k : bool -> M qrtr B) q :
  mbnd (alloc_skb env) k (W q) = k true (W (q <| q_allocs := S (q_allocs q) |>)).
Proof. unfold alloc_skb, kmalloc, mbnd, W. cbn -[Z.of_nat Z.add]. by rewrite Ha. Qed.

Lemma run_get_node {B : Type} q n x (k : qrtr_node -> M qrtr B) :
  q_heap q !! n = Some x -> mbnd (get_node n) k (W q) = k x (W q).
Proof. intros Hx. unfold get_node. rewrite run_assoc, run_gets. cbn [w_st W]. by rewrite Hx, run_or_fault. Qed.

Lemma run_set_flow {B : Type} q n x key f (k : unit -> M qrtr B) :
  q_heap q !! n = Some x ->
  mbnd (set_flow n key f) k (W q) =
  k tt (W (node_put_in q n (x <| n_tx_flow := xa_store (n_tx_flow x) key f |>))).
Proof. intros Hx. unfold set_flow, upd_node. rewrite run_assoc, (run_get_node q n x) by done. done. Qed.

Lemma flow_of_store t key f : xa_sorted t -> flow_of (xa_store t key f) key = f.
Proof. intros Hs. unfold flow_of. by rewrite xa_load_store, Z.eqb_refl by done. Qed.

Definition flow_at (q : qrtr) (n key : Z) (x : qrtr_node) (t : xarray qrtr_tx_flow) (f : qrtr_tx_flow) : Prop :=
  q_heap q !! n = Some (x <| n_tx_flow := t |>) /\ xa_sorted t /\ xa_load t key = Some f.

Lemma flow_at_put q n key x t f : xa_sorted t ->
  flow_at (node_put_in q n ((x <| n_tx_flow := t |>) <| n_tx_flow := xa_store t key f |>)) n key x (xa_store t key f) f.
Proof. intros Hs. split; [apply lookup_insert_eq|]. split; [by apply xa_sorted_store|]. by rewrite xa_load_store, Z.eqb_refl. Qed.

(** The flow is found, or a new one is made. *)
Lemma find_flow_runs q n key x :
  q_heap q !! n = Some x -> xa_sorted (n_tx_flow x) ->
  exists t q', find_flow env n key (W q) = Ret true (W q') /\ flow_only q q' /\ flow_at q' n key x t (flow_of (n_tx_flow x) key).
Proof.
  intros Hx Hs. unfold find_flow, get_flow. rewrite run_assoc, (run_get_node q n x), run_ret by done. unfold flow_of.
  destruct (xa_load (n_tx_flow x) key) as [f|] eqn:Ef.
  - exists (n_tx_flow x), q. split; [done|]. split; [done|]. split; [|done]. by destruct x.
  - rewrite !run_alloc. rewrite (run_set_flow _ n x) by done. eexists _, _. split; [reflexivity|].
    split; [by split_and!|]. by apply (flow_at_put _ n key x (n_tx_flow x)).
Qed.

(** A packet that is admitted. *)
Lemma tx_wait_admits q n x ep to sk dontwait c f' :
  q_heap q !! n = Some x -> xa_sorted (n_tx_flow x) -> n_ep x = Some ep ->
  flow_admit (flow_of (n_tx_flow x) (flow_key (sq_node to) (sq_port to))) = Some (c, f') ->
  exists t q', qrtr_tx_wait env n to sk QRTR_TYPE_DATA dontwait (W q) = Ret c (W q') /\ flow_only q q' /\
    flow_at q' n (flow_key (sq_node to) (sq_port to)) x t f'.
Proof.
  intros Hx Hs Hep Hf. unfold qrtr_tx_wait. set (key := flow_key _ _) in *. rewrite Z.eqb_refl. cbn [negb].
  destruct (find_flow_runs q n key x Hx Hs) as (t & q1 & E1 & F1 & (Hx1 & Hs1 & Hl1)). unfold mbnd at 1. rewrite E1. cbn [negb].
  set (f := flow_of (n_tx_flow x) key) in *. unfold wait_flow.
  destruct (if dontwait then (0%nat, false) else e_wait env) as [turns signal]. rewrite run_assoc.
  assert (flow_open n key q1 = true) as Ho.
  { unfold flow_open. rewrite Hx1. change (n_tx_flow (x <| n_tx_flow := t |>)) with t. rewrite Hl1. unfold flow_admit in Hf. destruct (truth (tx_failed f)); [by rewrite orb_true_r|].
    destruct (Z.leb_spec QRTR_TX_FLOW_HIGH (pending f)) as [|Hlt]; [done|]. by rewrite (proj2 (Z.ltb_lt _ _) Hlt). }
  unfold mbnd at 1, wait_upto. cbn [W w_st w_sched]. assert (wait_turns_upto turns (flow_open n key) q1 [] = (true, mk_world q1 [])) as ->.
  { destruct turns; cbn; by rewrite Ho. }
  rewrite run_ret. change (mk_world q1 []) with (W q1). rewrite (run_get_node q1 n _ _ Hx1).
  unfold get_flow. rewrite run_assoc, (run_get_node q1 n _ _ Hx1), run_ret.
  change (n_tx_flow (x <| n_tx_flow := t |>)) with t. rewrite Hl1, run_or_fault.
  change (1 <? 0) with false. change (n_ep (x <| n_tx_flow := t |>)) with (n_ep x). rewrite Hep.
  rewrite bool_decide_false by done. change (1 =? 0) with false. cbn [andb]. unfold flow_admit in Hf.
  destruct (truth (tx_failed f)).
  - injection Hf as <- <-. rewrite (run_set_flow q1 n _ _ _ _ Hx1). exists (xa_store t key (f <| tx_failed := 0 |>)). eexists. split; [reflexivity|].
    split; [done|]. by apply flow_at_put.
  - destruct (Z.leb_spec QRTR_TX_FLOW_HIGH (pending f)) as [|Hlt]; [done|]. injection Hf as <- <-.
    rewrite (run_set_flow q1 n _ _ _ _ Hx1). exists (xa_store t key (f <| pending := pending f + 1 |>)). eexists. split; [reflexivity|].
    split; [done|]. by apply flow_at_put.
Qed.

(** A sender that is turned away is remembered, once, with a reference. *)
Lemma tx_wait_refuses q n x ep to sk y :
  q_heap q !! n = Some x -> xa_sorted (n_tx_flow x) -> n_ep x = Some ep -> q_socks q !! sk = Some y ->
  flow_admit (flow_of (n_tx_flow x) (flow_key (sq_node to) (sq_port to))) = None ->
  exists t q' f', qrtr_tx_wait env n to sk QRTR_TYPE_DATA true (W q) = Ret (- EAGAIN) (W q') /\ q_log q' = q_log q /\
    flow_at q' n (flow_key (sq_node to) (sq_port to)) x t f' /\
    (exists ws, f' = (flow_of (n_tx_flow x) (flow_key (sq_node to) (sq_port to))) <| waiters := ws |>) /\
    sk ∈ waiters f' /\ (forall s, is_Some (q_socks q !! s) -> is_Some (q_socks q' !! s)).
Proof.
  intros Hx Hs Hep Hy Hf. unfold qrtr_tx_wait. set (key := flow_key _ _) in *. rewrite Z.eqb_refl. cbn [negb].
  destruct (find_flow_runs q n key x Hx Hs) as (t & q1 & E1 & F1 & (Hx1 & Hs1 & Hl1)). unfold mbnd at 1. rewrite E1. cbn [negb].
  set (f := flow_of (n_tx_flow x) key) in *. unfold flow_admit in Hf. destruct (truth (tx_failed f)) eqn:Et; [done|].
  destruct (Z.leb_spec QRTR_TX_FLOW_HIGH (pending f)) as [Hh|]; [|done]. unfold wait_flow. rewrite run_assoc.
  assert (flow_open n key q1 = false) as Ho.
  { unfold flow_open. rewrite Hx1. change (n_tx_flow (x <| n_tx_flow := t |>)) with t. rewrite Hl1, Et.
    change (n_ep (x <| n_tx_flow := t |>)) with (n_ep x). rewrite Hep, bool_decide_false, (proj2 (Z.ltb_ge _ _) Hh) by done. done. }
  unfold mbnd at 1, wait_upto. cbn [W w_st w_sched wait_turns_upto]. rewrite Ho, run_ret. cbn iota.
  change (mk_world q1 []) with (W q1). rewrite (run_get_node q1 n _ _ Hx1).
  unfold get_flow. rewrite run_assoc, (run_get_node q1 n _ _ Hx1), run_ret.
  change (n_tx_flow (x <| n_tx_flow := t |>)) with t. rewrite Hl1, run_or_fault, Et.
  change (0 <? 0) with false. change (n_ep (x <| n_tx_flow := t |>)) with (n_ep x). rewrite Hep.
  rewrite bool_decide_false, (proj2 (Z.leb_le _ _) Hh) by done. cbn [andb Z.eqb].
  destruct F1 as (Es & _ & _ & _ & _ & _ & _ & El). destruct (bool_decide_reflect (sk ∈ waiters f)) as [Hin|Hin].
  { exists t, q1, f. split; [done|]. split; [done|]. split; [done|]. split; [|split; [done|by rewrite Es]].
    exists (waiters f). by destruct f. }
  rewrite run_alloc. cbn [negb]. unfold sock_hold, upd_sock, get_sock. rewrite !run_assoc, run_gets. cbn [w_st W q_socks].
  change (q_socks (q1 <| q_allocs := S (q_allocs q1) |>)) with (q_socks q1). rewrite Es, Hy, run_or_fault. unfold set_sock. rewrite run_modify.
  match goal with |- context [with_st _ ?q2] => change (with_st _ q2) with (W q2) end.
  rewrite (run_set_flow _ n (x <| n_tx_flow := t |>)) by exact Hx1. exists (xa_store t key (f <| waiters := waiters f ++ [sk] |>)).
  eexists _, (f <| waiters := waiters f ++ [sk] |>). split; [reflexivity|]. split; [done|].
  split; [by apply flow_at_put|]. split; [by eexists|]. split; [apply elem_of_app; right; by apply list_elem_of_singleton|].
  intros s Hss. cbn. rewrite Es. destruct (Z.eqb_spec sk s) as [<-|Hne]; [rewrite lookup_insert_eq; eauto|by rewrite lookup_insert_ne].
Qed.

(** ** The packet on the wire *)

(** The zeroes that complete the last word. *)
Definition wire_pad (data : list Z) : list Z :=
  replicate (Z.to_nat (ALIGN (Z.of_nat (length data)) 4 - Z.of_nat (length data))) 0.

(** The bytes of a packet: header, contents, padding. *)
Definition wire (nid type : Z) (from to : sockaddr_qrtr) (c : Z) (data : list Z) : list Z :=
  hdr_v1_bytes (enqueue_hdr nid type from to (Z.of_nat (length data)) c) ++ data ++ wire_pad data.

Lemma flow_key_ints node port : 0 <= node < 2 ^ 31 -> 0 <= port < 2 ^ 31 -> flow_key_int node port = flow_key node port.
Proof.
  intros Hn Hp. unfold flow_key_int, flow_key. rewrite (s32_small node), (s32_small port) by lia.
  unfold u64 at 2 3. by rewrite !(Z.mod_small _ (2 ^ 64)) by lia.
Qed.

(** A linear buffer is completed to whole words. *)
Lemma put_padto_runs {B : Type} q b hdr data (k : option sk_buff -> M qrtr B) :
  skb_bytes b = hdr ++ data -> length hdr = 32%nat ->
  exists q', flow_only q q' /\ q_heap q' = q_heap q /\
    mbnd (skb_put_padto env b (ALIGN (Z.of_nat (length data)) 4 + sizeof_hdr_v1)) k (W q) =
    k (Some (b <| skb_bytes := hdr ++ data ++ wire_pad data |>)) (W q').
Proof.
  intros Eb Hl. unfold skb_put_padto, wire_pad, sizeof_hdr_v1. pose proof (ALIGN_4_bounds (Z.of_nat (length data))) as A.
  assert (skb_len b = 32 + Z.of_nat (length data)) as El by (unfold skb_len; rewrite Eb, length_app, Hl; lia).
  destruct (Z.leb_spec (ALIGN (Z.of_nat (length data)) 4 + 32) (skb_len b)) as [H|H].
  - exists q. split; [done|]. split; [done|]. rewrite run_ret. do 2 f_equal.
    replace (ALIGN _ 4 - _) with 0 by lia. rewrite app_nil_r, <- Eb. by destruct b.
  - eexists. split; [|split; [|rewrite run_assoc, run_alloc, run_ret, Eb, <- app_assoc; do 2 f_equal]]; [by split_and!|done|].
    by replace (ALIGN (Z.of_nat (length data)) 4 + 32 - skb_len b) with (ALIGN (Z.of_nat (length data)) 4 - Z.of_nat (length data)) by lia.
Qed.

Lemma flow_failed_runs {B : Type} q n key node port x t f (k : unit -> M qrtr B) :
  flow_at q n key x t f -> flow_key_int node port = key ->
  mbnd (qrtr_tx_flow_failed n node port) k (W q) =
  k tt (W (node_put_in q n ((x <| n_tx_flow := t |>) <| n_tx_flow := xa_store t key (f <| tx_failed := 1 |>) |>))).
Proof.
  intros (Hx & Hs & Hl) Ek. unfold qrtr_tx_flow_failed. cbv zeta. rewrite Ek. unfold get_flow.
  rewrite !run_assoc, (run_get_node q n _ _ Hx), run_ret. change (n_tx_flow (x <| n_tx_flow := t |>)) with t. rewrite Hl.
  by rewrite (run_set_flow q n _ _ _ _ Hx).
Qed.

(** What a node does with a packet of data from a socket: the packet goes on the
    wire as header, contents and padding, and the flow moves as the automaton
    says, by the transport's answer. *)
Lemma node_enqueue_runs q n x ep sk b from to dontwait c f1 :
  q_heap q !! n = Some x -> xa_sorted (n_tx_flow x) -> n_ep x = Some ep -> truth (n_hello_sent x) = true ->
  skb_sk b = Some sk -> skb_data_len b = 0 -> 0 <= sq_node to < 2 ^ 31 -> 0 <= sq_port to < 2 ^ 31 ->
  flow_admit (flow_of (n_tx_flow x) (flow_key (sq_node to) (sq_port to))) = Some (c, f1) ->
  let pkt := b <| skb_bytes := wire (n_nid x) QRTR_TYPE_DATA from to c (skb_bytes b) |> in
  let rc := e_xmit env ep pkt (length (q_log q)) in
  exists t q', qrtr_node_enqueue env n b QRTR_TYPE_DATA from to dontwait (W q) = Ret rc (W q') /\
    flow_only (q <| q_log := EvXmit ep pkt rc :: q_log q |>) q' /\
    flow_at q' n (flow_key (sq_node to) (sq_port to)) x t (flow_sent c rc f1).
Proof.
  intros Hx Hs Hep Hh Hsk Hd Hn Hp Hf pkt rc. unfold qrtr_node_enqueue, hello_gate.
  rewrite run_assoc, (run_get_node q n x) by done. change (QRTR_TYPE_DATA =? QRTR_TYPE_HELLO) with false. rewrite Hh. cbn [negb andb].
  rewrite run_assoc, !run_ret, Hsk. cbn [negb].
  destruct (tx_wait_admits q n x ep to sk dontwait c f1 Hx Hs Hep Hf) as (t & q1 & E1 & F1 & A1). unfold mbnd at 1. rewrite E1.
  pose proof (flow_admit_confirm _ _ _ Hf) as Hc.
  rewrite (proj2 (Z.ltb_ge _ _) Hc). rewrite (run_get_node q1 n _ _ (proj1 A1)).
  change (n_nid (x <| n_tx_flow := t |>)) with (n_nid x). set (hdr := hdr_v1_bytes _). set (b1 := b <| skb_bytes := hdr ++ skb_bytes b |>).
  change (skb_data_len b1) with (skb_data_len b). rewrite Hd. change (truth 0) with false. cbn iota.
  match goal with |- context [mbnd (skb_put_padto env b1 _) ?k (W q1)] =>
    destruct (put_padto_runs q1 b1 hdr (skb_bytes b) k eq_refl (length_hdr_v1_bytes _)) as (q2 & F2 & H2 & E2) end.
  unfold skb_len at 1. rewrite E2. assert (flow_at q2 n (flow_key (sq_node to) (sq_port to)) x t f1) as A2 by (unfold flow_at; by rewrite H2).
  change (b1 <| skb_bytes := hdr ++ skb_bytes b ++ wire_pad (skb_bytes b) |>) with pkt.
  unfold xmit_skb. rewrite run_assoc, (run_get_node q2 n _ _ (proj1 A2)). change (n_ep (x <| n_tx_flow := t |>)) with (n_ep x). rewrite Hep.
  assert (flow_only q q2) as F by by etrans. pose proof F as (F' & _ & _ & _ & _ & _ & _ & El).
  rewrite run_assoc, run_gets. cbn [w_st W]. rewrite El. fold rc. unfold emit. rewrite run_assoc, run_modify, run_ret.
  match goal with |- context [with_st _ ?q'] => change (with_st _ q') with (W (q2 <| q_log := EvXmit ep pkt rc :: q_log q2 |>)) end.
  set (q3 := q2 <| q_log := _ |>). assert (flow_at q3 n (flow_key (sq_node to) (sq_port to)) x t f1) as A3 by exact A2.
  assert (flow_only (q <| q_log := EvXmit ep pkt rc :: q_log q |>) q3) as F3.
  { unfold flow_only in *. cbn. rewrite El. intuition. }
  clearbody q3. rewrite andb_false_r. unfold flow_sent. destruct (truth rc && truth c).
  - rewrite (flow_failed_runs q3 n _ _ _ _ _ _ _ A3) by by apply flow_key_ints. rewrite run_ret. eexists _, _. split; [reflexivity|].
    split; [done|]. apply flow_at_put. apply A3.
  - rewrite !run_ret. exists t, q3. by split_and!.
Qed.

(** ** A sender is turned away only while a confirmation comes *)

(** The transport accepted a packet to the address that asks for confirmation. *)
Definition confirm_asked (ep : Z) (to : sockaddr_qrtr) (log : list qevent) : Prop :=
  exists pkt h, EvXmit ep pkt 0 ∈ log /\ hdr_v1_at (skb_bytes pkt) = Some h /\ v1_confirm_rx h = 1 /\
    v1_dst_node_id h = sq_node to /\ v1_dst_port_id h = sq_port to.

Definition u32_addr (a : sockaddr_qrtr) : Prop := 0 <= sq_node a < 2 ^ 32 /\ 0 <= sq_port a < 2 ^ 32.

(** The header on the wire, read back. *)
Lemma wire_header nid type from to c data :
  0 <= type < 2 ^ 32 -> u32_addr from -> 0 <= sq_node to < 2 ^ 31 -> 0 <= sq_port to < 2 ^ 31 ->
  hdr_v1_at (wire nid type from to c data) =
  Some (mk_hdr_v1 QRTR_PROTO_VER_1 type (sq_node from) (sq_port from) (b2z (truth c)) (u32 (Z.of_nat (length data)))
          (sq_node to) (sq_port to)).
Proof.
  intros Ht [Hf1 Hf2] Hn Hp. unfold wire.
  assert (enqueue_hdr nid type from to (Z.of_nat (length data)) c =
    mk_hdr_v1 QRTR_PROTO_VER_1 type (sq_node from) (sq_port from) (b2z (truth c)) (u32 (Z.of_nat (length data)))
          (sq_node to) (sq_port to)) as ->.
  { unfold enqueue_hdr. destruct (Z.eqb_spec (sq_port to) QRTR_PORT_CTRL) as [E|_]; [unfold QRTR_PORT_CTRL in E; lia|done]. }
  apply hdr_v1_at_bytes. pose proof (Z.mod_pos_bound (Z.of_nat (length data)) (2 ^ 32)) as Hm.
  repeat constructor; cbn [v1_version v1_type v1_src_node_id v1_src_port_id v1_confirm_rx v1_size v1_dst_node_id v1_dst_port_id];
    unfold QRTR_PROTO_VER_1, u32; try lia; destruct (truth c); cbn; lia.
Qed.

(** A node through which sockets send to an address, and its flow. *)
Record sending (q : qrtr) (n ep : Z) (to : sockaddr_qrtr) (f : qrtr_tx_flow) : Prop := {
  sd_node : exists x, q_heap q !! n = Some x /\ n_ep x = Some ep /\ truth (n_hello_sent x) = true /\ xa_sorted (n_tx_flow x) /\
    flow_of (n_tx_flow x) (flow_key (sq_node to) (sq_port to)) = f;
  sd_sound : flow_sound (confirm_asked ep to (q_log q)) f;
}.

Lemma sending_at q n ep to x t f :
  flow_at q n (flow_key (sq_node to) (sq_port to)) x t f -> n_ep x = Some ep -> truth (n_hello_sent x) = true ->
  flow_sound (confirm_asked ep to (q_log q)) f -> sending q n ep to f.
Proof.
  intros (Hx & Hs & Hl) He Hh Hf. split; [|done]. eexists. split; [exact Hx|]. split_and!; try done. unfold flow_of.
  change (n_tx_flow (x <| n_tx_flow := t |>)) with t. by rewrite Hl.
Qed.

(** A packet of data that a socket wants to send. *)
Definition sendable (q : qrtr) (m : sockaddr_qrtr * sk_buff) : Prop :=
  u32_addr (fst m) /\ skb_data_len (snd m) = 0 /\ exists sk, skb_sk (snd m) = Some sk /\ is_Some (q_socks q !! sk).

(** A packet that is admitted keeps the flow sound. *)
Lemma enqueue_admitted q n ep to m f c f1 :
  sending q n ep to f -> sendable q m -> 0 <= sq_node to < 2 ^ 31 -> 0 <= sq_port to < 2 ^ 31 -> flow_admit f = Some (c, f1) ->
  exists rc q', qrtr_node_enqueue env n (snd m) QRTR_TYPE_DATA (fst m) to true (W q) = Ret rc (W q') /\
    sending q' n ep to (flow_sent c rc f1) /\ q_socks q' = q_socks q.
Proof.
  intros [(x & Hx & He & Hh & Hs & Ef) Hf] (Hu & Hd & sk & Hsk & _) Hn Hp Ha'. rewrite <- Ef in Ha'.
  destruct (node_enqueue_runs q n x ep sk (snd m) (fst m) to true c f1) as (t & q' & E & F & A); [done..|].
  cbv zeta in E, F, A. set (pkt := (snd m) <| skb_bytes := _ |>) in *. set (rc := e_xmit env ep pkt _) in *.
  exists rc, q'. split; [done|]. split; [|apply F]. eapply sending_at; [exact A|done|done|].
  destruct F as (_ & _ & _ & _ & _ & _ & _ & ->). cbn [q_log].
  assert (flow_send f rc = Some (c, flow_sent c rc f1)) as Hsend by (unfold flow_send; by rewrite <- Ef, Ha').
  eapply flow_sound_mono; [|exact (flow_send_sound _ _ _ _ _ Hf Hsend)].
  intros [(p & h & Hin & Hrest)|[Hc Hrc]].
  - exists p, h. split; [by right|done].
  - exists pkt. eexists. split; [cbn; rewrite <- Hrc; left|]. split; [apply wire_header; [done..|done|done|done]|].
    split; [|done]. cbn. unfold truth. by rewrite (proj2 (Z.eqb_neq _ _) Hc).
Qed.

(** A sender that is turned away transmits nothing and keeps the flow sound. *)
Lemma enqueue_refused q n ep to m f :
  sending q n ep to f -> sendable q m -> flow_admit f = None ->
  exists ws q', qrtr_node_enqueue env n (snd m) QRTR_TYPE_DATA (fst m) to true (W q) = Ret (- EAGAIN) (W q') /\
    sending q' n ep to (f <| waiters := ws |>) /\ q_log q' = EvFree (snd m) :: q_log q /\
    (forall sk, skb_sk (snd m) = Some sk -> sk ∈ ws) /\
    (forall s, is_Some (q_socks q !! s) -> is_Some (q_socks q' !! s)).
Proof.
  intros [(x & Hx & He & Hh & Hs & Ef) Hf] (Hu & Hd & sk & Hsk & y & Hy) Ha'. rewrite <- Ef in Ha'.
  destruct (tx_wait_refuses q n x ep to sk y Hx Hs He Hy Ha') as (t & q' & f' & E & El & A & (ws & Ew) & Hin & Hss).
  rewrite Ef in Ew. unfold qrtr_node_enqueue, hello_gate.
  rewrite run_assoc, (run_get_node q n x) by done. change (QRTR_TYPE_DATA =? QRTR_TYPE_HELLO) with false. rewrite Hh. cbn [negb andb].
  rewrite run_assoc, !run_ret, Hsk. cbn [negb]. unfold mbnd at 1. rewrite E. change (- EAGAIN <? 0) with true. cbn iota.
  exists ws. eexists. split; [reflexivity|]. cbn [w_st W]. split; [|split; [by cbn; rewrite El|split]].
  - rewrite <- Ew. eapply sending_at; [exact A|done|done|]. cbn [q_log]. rewrite El, Ew.
    eapply flow_sound_mono; [|exact Hf]. intros (p & h & Hin' & Hrest). exists p, h. split; [by right|done].
  - intros sk' [= <-]. by rewrite Ew in Hin.
  - exact Hss.
Qed.

(** A run of packets to one address. *)
Fixpoint send_all (n : Z) (to : sockaddr_qrtr) (msgs : list (sockaddr_qrtr * sk_buff)) : M qrtr (list Z) :=
  match msgs with
  | [] => mret []
  | m :: msgs' =>
      rc <-- qrtr_node_enqueue env n (snd m) QRTR_TYPE_DATA (fst m) to true ;;;
      rcs <-- send_all n to msgs' ;;;
      mret (rc :: rcs)
  end.

Lemma send_all_sending n ep to : 0 <= sq_node to < 2 ^ 31 -> 0 <= sq_port to < 2 ^ 31 -> forall msgs q f,
  sending q n ep to f -> Forall (sendable q) msgs ->
  exists rcs q' f', send_all n to msgs (W q) = Ret rcs (W q') /\ sending q' n ep to f' /\
    (forall s, is_Some (q_socks q !! s) -> is_Some (q_socks q' !! s)).
Proof.
  intros Hn Hp. induction msgs as [|m msgs IH]; intros q f Hf Hm; cbn [send_all].
  { exists [], q, f. by split_and!. }
  apply Forall_cons in Hm as [Hm Hms].
  assert (exists rc q1 f1, qrtr_node_enqueue env n (snd m) QRTR_TYPE_DATA (fst m) to true (W q) = Ret rc (W q1) /\
    sending q1 n ep to f1 /\ (forall s, is_Some (q_socks q !! s) -> is_Some (q_socks q1 !! s))) as (rc & q1 & f1 & E1 & S1 & K1).
  { destruct (flow_admit f) as [[c f1]|] eqn:Ea.
    - destruct (enqueue_admitted q n ep to m f c f1) as (rc & q1 & E1 & S1 & K1); [done..|]. exists rc, q1, (flow_sent c rc f1).
      split; [done|]. split; [done|]. by rewrite K1.
    - destruct (enqueue_refused q n ep to m f) as (ws & q1 & E1 & S1 & _ & _ & K1); [done..|]. by exists (- EAGAIN), q1, (f <| waiters := ws |>). }
  destruct (IH q1 f1 S1) as (rcs & q2 & f2 & E2 & S2 & K2).
  { eapply Forall_impl; [exact Hms|]. intros m' (? & ? & sk & ? & ?). split; [done|]. split; [done|]. exists sk. auto. }
  exists (rc :: rcs), q2, f2. split; [|split; [done|auto]]. unfold mbnd at 1. rewrite E1. unfold mbnd. by rewrite E2.
Qed.

(** C31. Flow control never turns a sender away in silence: after any run of
    packets from any sockets to one remote address, with whatever answers from
    the transport, the count is within the high mark; and if the next sender
    would be turned away, then the transport accepted a packet whose header asks
    the receiver for the confirmation that resets the count. (For addresses
    below 2^31: a failed send to a higher one is recorded under another key.) *)
Theorem turned_away_while_confirm_comes q n x ep to msgs :
  q_heap q !! n = Some x -> n_ep x = Some ep -> truth (n_hello_sent x) = true -> xa_sorted (n_tx_flow x) ->
  xa_load (n_tx_flow x) (flow_key (sq_node to) (sq_port to)) = None ->
  0 <= sq_node to < 2 ^ 31 -> 0 <= sq_port to < 2 ^ 31 -> Forall (sendable q) msgs ->
  exists rcs q' x', send_all n to msgs (W q) = Ret rcs (W q') /\ q_heap q' !! n = Some x' /\
    let f := flow_of (n_tx_flow x') (flow_key (sq_node to) (sq_port to)) in
    0 <= pending f <= QRTR_TX_FLOW_HIGH /\ (flow_admit f = None -> confirm_asked ep to (q_log q')).
Proof.
  intros Hx He Hh Hs Hl Hn Hp Hm. assert (sending q n ep to (mk_flow 0 0 [])) as Hsd.
  { split; [exists x; split_and!; try done; unfold flow_of; by rewrite Hl|]. unfold flow_sound, QRTR_TX_FLOW_HIGH, QRTR_TX_FLOW_LOW. cbn. split; [lia|]. lia. }
  destruct (send_all_sending n ep to Hn Hp msgs q _ Hsd Hm) as (rcs & q' & f & E & [(x' & Hx' & _ & _ & _ & Ef) Hf] & _).
  exists rcs, q', x'. split; [done|]. split; [done|]. cbv zeta. rewrite Ef. destruct Hf as [H1 H2]. split; [done|].
  unfold flow_admit. destruct (truth (tx_failed f)) eqn:Et; [done|]. destruct (Z.leb_spec QRTR_TX_FLOW_HIGH (pending f)) as [Hhi|]; [|done].
  intros _. destruct H2 as [|Hne]; [unfold QRTR_TX_FLOW_HIGH, QRTR_TX_FLOW_LOW in *; lia|done|].
  unfold truth in Et. zbool. done.
Qed.

End Flow.
