(* ===== verification/QrtrRound.v ===== *)
(** * QrtrRound: a message from socket to socket across two processors

    What qrtr_sendmsg puts on the wire of one processor, qrtr_endpoint_post of
    the other queues to the socket that is bound to the port, and qrtr_recvmsg
    gives to its reader, with the address of the sender. *)
From stdpp Require Import prelude gmap list.
From S2P Require Import Prelude.
From S2P Require Import Effects.
From S2P Require Import XArray.
From S2P Require Import Qrtr.
From S2P Require Import QrtrNs.
From S2P Require Import QrtrPkt.
From S2P Require Import AfQrtr.
From S2P Require Import QrtrInv.
From S2P Require Import QrtrFlow.
#[local] Open Scope kernel_scope.

Section Round.
Context {XC : XaCyclic} (env : qrtr_env) (Ha : alloc_all env).

Lemma run_get_sock {B : Type} q s x (k : qrtr_sock -> M qrtr B) :
  q_socks q !! s = Some x -> mbnd (get_sock s) k (W q) = k x (W q).
Proof. intros Hx. unfold get_sock. rewrite run_assoc, run_gets. cbn [w_st W]. by rewrite Hx, run_or_fault. Qed.

Lemma run_upd_sock {B : Type} q s x f (k : unit -> M qrtr B) :
  q_socks q !! s = Some x -> mbnd (upd_sock s f) k (W q) = k tt (W (sock_put_in q s (f x))).
Proof. intros Hx. unfold upd_sock. by rewrite run_assoc, (run_get_sock q s x). Qed.

Lemma run_upd_node {B : Type} q n x f (k : unit -> M qrtr B) :
  q_heap q !! n = Some x -> mbnd (upd_node n f) k (W q) = k tt (W (node_put_in q n (f x))).
Proof. intros Hx. unfold upd_node. by rewrite run_assoc, (run_get_node q n x). Qed.

(** The semaphore is free for readers. *)
Lemma run_down_read {B : Type} q (k : unit -> M qrtr B) :
  0 <= q_epts_lock q -> mbnd down_read k (W q) = k tt (W (q <| q_epts_lock := q_epts_lock q + 1 |>)).
Proof.
  intros Hl. unfold down_read. rewrite run_assoc. unfold mbnd at 1, wait_until, W. cbn [w_st w_sched wait_turns].
  by rewrite (proj2 (Z.leb_le _ _) Hl).
Qed.

Lemma node_lookup_runs {B : Type} q nid n x (k : option Z -> M qrtr B) :
  0 <= q_epts_lock q -> xa_load (q_nodes q) nid = Some n -> q_heap q !! n = Some x ->
  mbnd (qrtr_node_lookup nid) k (W q) = k (Some n) (W (node_put_in q n (x <| n_ref := n_ref x + 1 |>))).
Proof.
  intros Hl Hn Hx. unfold qrtr_node_lookup. rewrite run_assoc, run_down_read by done. rewrite run_assoc, run_gets. cbn [w_st W].
  change (q_nodes (q <| q_epts_lock := q_epts_lock q + 1 |>)) with (q_nodes q). rewrite Hn.
  unfold qrtr_node_acquire. rewrite run_assoc, (run_upd_node _ n x) by done. unfold up_read. rewrite run_assoc, run_modify, run_ret.
  f_equal. unfold W, with_st. cbn [w_st w_sched]. f_equal. destruct q. unfold node_put_in. cbn -[Z.add Z.sub].
  f_equal. lia.
Qed.

(** ** Sending *)

(** The way to a node: it is referenced, and the socket remembers it. *)
Lemma send_route_runs {B : Type} q s z n x addr (k : result route -> M qrtr B) :
  q_socks q !! s = Some z -> 0 <= q_epts_lock q -> xa_load (q_nodes q) (sq_node addr) = Some n -> q_heap q !! n = Some x ->
  sq_node addr <> QRTR_NODE_BCAST -> sq_node addr <> sq_node (us z) ->
  exists z', us z' = us z /\ mbnd (send_route s addr) k (W q) =
    k (Ok (RNode n)) (W (sock_put_in (node_put_in q n (x <| n_ref := n_ref x + 1 |>)) s z')).
Proof.
  intros Hz Hl Hn Hx Hb Hu. unfold send_route. rewrite run_assoc, (run_get_sock q s z) by done. rewrite run_assoc, run_gets. cbn [w_st W].
  rewrite (proj2 (Z.eqb_neq _ _) Hb), (proj2 (Z.eqb_neq _ _) Hu). rewrite run_assoc, (node_lookup_runs q _ n x) by done.
  rewrite run_assoc, (run_get_node _ n (x <| n_ref := n_ref x + 1 |>)) by apply lookup_insert_eq. rewrite run_assoc.
  set (q1 := node_put_in q n _). assert (q_socks q1 !! s = Some z) as Hz1 by exact Hz.
  destruct (_ && _); [|destruct (_ =? _)].
  - exists (z <| state := QRTR_STATE_MULTI |>). split; [done|]. by rewrite (run_upd_sock q1 s z).
  - eexists (z <| state := _ |>). split; [done|]. by rewrite (run_upd_sock q1 s z).
  - exists z. split; [done|]. rewrite !run_ret. do 3 f_equal. unfold sock_put_in. destruct q1. cbn in *. by rewrite insert_id.
Qed.

(** A message that fits in one piece. *)
Definition linear_len (local len : Z) : Prop :=
  ALIGN len 4 <= (if is_primary local then e_skb_max_alloc env else PAGE_SIZE).

(** Fresh memory has the size that was asked for. *)
Definition uninit_ok : Prop := forall k, length (e_uninit env k) = k.

Lemma alloc_send_runs {B : Type} q s len (k : option sk_buff -> M qrtr B) :
  linear_len (q_local_nid q) len ->
  exists frags, mbnd (qrtr_sock_alloc_skb_send env s len) k (W q) =
    k (Some (mk_skb (Some s) zero_cb (e_uninit env (Z.to_nat len)) 0 frags)) (W (q <| q_allocs := S (q_allocs q) |>)).
Proof.
  intros Hl. unfold qrtr_sock_alloc_skb_send, linear_len in *. rewrite run_assoc, run_gets, run_assoc. cbn [w_st W].
  rewrite (run_alloc env Ha). cbn [negb]. change (Z.land (len + 3) (Z.lnot 3)) with (ALIGN len 4).
  destruct (is_primary (q_local_nid q)); rewrite run_ret, (proj2 (Z.ltb_ge _ _) Hl); eexists; done.
Qed.

Lemma drop_all {A : Type} (l m : list A) : length l = length m -> drop (length l) m = [].
Proof. intros E. apply drop_ge. lia. Qed.

(** What a socket needs to send a message of data to a remote port. *)
Record can_send (q : qrtr) (s : Z) (z : qrtr_sock) (n : Z) (x : qrtr_node) (ep : Z) (to : sockaddr_qrtr) (data : list Z) : Prop := {
  cs_sock : q_socks q !! s = Some z;
  cs_bound : sk_zapped z = false;
  cs_lock : 0 <= q_epts_lock q;
  cs_route : xa_load (q_nodes q) (sq_node to) = Some n;
  cs_node : q_heap q !! n = Some x;
  cs_flows : xa_sorted (n_tx_flow x);
  cs_ep : n_ep x = Some ep;
  cs_ref : 1 <= n_ref x;
  cs_hello : truth (n_hello_sent x) = true;
  cs_remote : sq_node to <> sq_node (us z);
  cs_us : u32_addr (us z) /\ sq_port (us z) <> QRTR_PORT_CTRL;
  cs_to : 0 <= sq_node to < 2 ^ 31 /\ 0 <= sq_port to < 2 ^ 31;
  cs_len : linear_len (q_local_nid q) (Z.of_nat (length data)) /\ Z.of_nat (length data) <= 65535;
}.

Definition the_msg (to : sockaddr_qrtr) (data : list Z) : msghdr :=
  mk_msg (Some (mk_addr sizeof_sockaddr_qrtr AF_QIPCRTR to)) 0 data 0.

(** The buffer after the message is copied into it. *)
Definition the_skb (s : Z) (data : list Z) (frags : list Z) : sk_buff := mk_skb (Some s) zero_cb data 0 frags.

Definition the_pkt (s : Z) (z : qrtr_sock) (x : qrtr_node) (to : sockaddr_qrtr) (c : Z) (data frags : list Z) : sk_buff :=
  (the_skb s data frags) <| skb_bytes := wire (n_nid x) QRTR_TYPE_DATA (us z) to c data |>.

Lemma not_ctrl p : 0 <= p < 2 ^ 31 -> (p =? QRTR_PORT_CTRL) = false /\ (p =? QRTR_NODE_BCAST) = false.
Proof. intros Hp. unfold QRTR_PORT_CTRL, QRTR_NODE_BCAST. split; apply Z.eqb_neq; lia. Qed.

Lemma sendmsg_runs q s z n x ep to data c f1 :
  uninit_ok -> can_send q s z n x ep to data ->
  flow_admit (flow_of (n_tx_flow x) (flow_key (sq_node to) (sq_port to))) = Some (c, f1) ->
  (forall b k, e_xmit env ep b k = 0) ->
  exists q' frags, qrtr_sendmsg env s (the_msg to data) (W q) = Ret (Z.of_nat (length data)) (W q') /\
    q_log q' = EvXmit ep (the_pkt s z x to c data frags) 0 :: q_log q.
Proof.
  intros Hu [] Hf Hrc. destruct cs_to0 as [Hn Hp], cs_len0 as [Hlin Hlen], cs_us0 as [Hus Hctl].
  destruct (not_ctrl _ Hn) as [_ Hnb], (not_ctrl _ Hp) as [Hpc _].
  unfold qrtr_sendmsg, the_msg. cbn [m_flags m_data m_name]. change (truth (Z.land 0 (Z.lnot MSG_DONTWAIT))) with false.
  rewrite (proj2 (Z.ltb_ge _ _) Hlen). cbn iota. unfold send_addr. cbn [m_name]. change (addr_ok _) with true. cbn [negb ma_sq].
  unfold qrtr_autobind. rewrite !run_assoc, (run_get_sock q s z), cs_bound0 by done. cbn [negb]. rewrite !run_ret.
  change (truth 0) with false. cbn iota.
  match goal with |- context [mbnd (send_route s to) ?k _] =>
    destruct (send_route_runs q s z n x to k) as (z1 & Ez1 & ->); [done..|by apply Z.eqb_neq|done|] end.
  set (x1 := x <| n_ref := n_ref x + 1 |>). set (q1 := sock_put_in _ s z1).
  unfold send_packet. cbn [m_data m_copy m_flags]. change (truth 0) with false. change (truth (Z.land 0 MSG_DONTWAIT)) with false.
  rewrite run_assoc. match goal with |- context [mbnd (qrtr_sock_alloc_skb_send env s ?l) ?k (W q1)] =>
    destruct (alloc_send_runs q1 s l k Hlin) as [frags ->] end. cbn iota.
  change (skb_bytes (mk_skb _ _ ?b _ _)) with b. rewrite drop_all, app_nil_r by (by rewrite Hu, Nat2Z.id).
  change (_ <| skb_bytes := data |>) with (the_skb s data frags).
  set (q2 := q1 <| q_allocs := _ |>). assert (q_socks q2 !! s = Some z1) as Hz2 by apply lookup_insert_eq.
  rewrite run_assoc, (run_get_sock q2 s z1), Ez1, (proj2 (Z.eqb_neq _ _) Hctl), Hpc by done. cbn [orb andb].
  rewrite run_assoc, run_ret, run_assoc, (run_get_sock q2 s z1), Ez1 by done. cbn [enqueue_fn].
  assert (q_heap q2 !! n = Some x1) as Hx2 by apply lookup_insert_eq. assert (q_log q2 = q_log q) as El by done. clearbody q2.
  destruct (node_enqueue_runs env Ha q2 n x1 ep s (the_skb s data frags) (us z) to false c f1) as (t & q3 & E3 & F3 & A3); [done..|].
  cbv zeta in E3, F3, A3. rewrite !Hrc in *. rewrite run_assoc. unfold mbnd at 1. rewrite E3, run_ret. change (0 <=? 0) with true. cbn iota.
  destruct A3 as (Hx3 & _). unfold route_node, qrtr_node_release, kref_put_rwsem_lock. rewrite run_assoc, (run_get_node q3 n _ _ Hx3).
  change (n_ref (x1 <| n_tx_flow := t |>)) with (n_ref x + 1). rewrite (proj2 (Z.eqb_neq _ 1)) by lia. cbn [negb].
  eexists _, frags. split; [reflexivity|]. cbn. destruct F3 as (_ & _ & _ & _ & _ & _ & _ & ->). cbn [q_log]. by rewrite El.
Qed.

(** ** Receiving *)

Definition wire_cb (from to : sockaddr_qrtr) (c : Z) : qrtr_cb :=
  mk_cb (sq_node from) (sq_port from) (sq_node to) (sq_port to) QRTR_TYPE_DATA (b2z (truth c)).

Lemma length_wire nid type from to c data : Z.of_nat (length (wire nid type from to c data)) = ALIGN (Z.of_nat (length data)) 4 + 32.
Proof.
  unfold wire, wire_pad. pose proof (ALIGN_4_bounds (Z.of_nat (length data))).
  rewrite !length_app, length_hdr_v1_bytes, length_replicate. lia.
Qed.

(** The receiver reads back the addresses and the size. *)
Lemma wire_post_header nid from to c data :
  u32_addr from -> 0 <= sq_node to < 2 ^ 31 -> 0 <= sq_port to < 2 ^ 31 -> Z.of_nat (length data) <= 65535 ->
  post_header (wire nid QRTR_TYPE_DATA from to c data) = Some (Ok (wire_cb from to c, sizeof_hdr_v1, Z.of_nat (length data))).
Proof.
  intros Hf Hn Hp Hl. unfold post_header. rewrite length_wire.
  assert (field 1 0 (wire nid QRTR_TYPE_DATA from to c data) = Some QRTR_PROTO_VER_1) as ->.
  { unfold wire. by rewrite first_byte_version. }
  cbn [mbind option_bind]. rewrite Z.eqb_refl. pose proof (ALIGN_4_bounds (Z.of_nat (length data))).
  rewrite (proj2 (Z.ltb_ge _ _)) by (unfold sizeof_hdr_v1; lia). rewrite wire_header by done. cbn [mbind option_bind].
  cbn [v1_src_node_id v1_src_port_id v1_dst_node_id v1_dst_port_id v1_type v1_confirm_rx v1_size].
  unfold u32. rewrite Z.mod_small by lia. unfold wire_cb. by destruct (truth c).
Qed.

Lemma wire_payload nid type from to c data :
  take (Z.to_nat (Z.of_nat (length data))) (drop (Z.to_nat sizeof_hdr_v1) (wire nid type from to c data)) = data.
Proof.
  unfold wire. rewrite Nat2Z.id. change (Z.to_nat sizeof_hdr_v1) with 32%nat.
  rewrite drop_app_length' by by rewrite length_hdr_v1_bytes. by rewrite take_app_length'.
Qed.

Lemma wire_checks from to c (data : list Z) :
  data <> [] -> 0 <= sq_port to < 2 ^ 31 -> sq_port to <> QRTR_PORT_CTRL_LEGACY ->
  post_checks (ALIGN (Z.of_nat (length data)) 4 + 32) (wire_cb from to c) sizeof_hdr_v1 (Z.of_nat (length data)) =
  Some (wire_cb from to c).
Proof.
  intros Hd Hp Hl. unfold post_checks. cbn [cb_dst_port wire_cb]. rewrite (proj2 (Z.eqb_neq _ _) Hl). cbn [cb_type cb_dst_port].
  assert (Z.of_nat (length data) <> 0) as Hne by (destruct data; [done|cbn; lia]).
  unfold sizeof_hdr_v1. rewrite (proj2 (Z.eqb_neq _ _) Hne), Z.eqb_refl. cbn [orb negb].
  change (QRTR_TYPE_DATA =? QRTR_TYPE_NEW_SERVER) with false. change (QRTR_TYPE_DATA =? QRTR_TYPE_RESUME_TX) with false.
  cbn [orb andb]. rewrite Z.eqb_refl. cbn [negb]. by rewrite andb_false_r.
Qed.

(** Learning the id of a neighbour concerns nodes only. *)
Definition nodes_only (q q' : qrtr) : Prop :=
  q_socks q' = q_socks q /\ q_ports q' = q_ports q /\ q_eps q' = q_eps q /\ q_local_nid q' = q_local_nid q /\
  forall n, is_Some (q_heap q !! n) -> is_Some (q_heap q' !! n).

Lemma node_assign_runs {B : Type} q n nid (k : unit -> M qrtr B) :
  is_Some (q_heap q !! n) -> exists q', nodes_only q q' /\ mbnd (qrtr_node_assign env n nid) k (W q) = k tt (W q').
Proof.
  intros [x Hx]. unfold qrtr_node_assign. rewrite run_assoc, (run_get_node q n x) by done.
  destruct (_ || _); [rewrite run_ret; by exists q|]. rewrite run_assoc, run_gets. cbn [w_st W].
  assert (forall q1, nodes_only q q1 -> q_heap q1 = q_heap q -> exists q', nodes_only q q' /\
    mbnd (if n_nid x =? QRTR_EP_NID_AUTO then set_node n (x <| n_nid := nid |>) else mret tt) k (W q1) = k tt (W q')) as Hend.
  { intros q1 (H1 & H2 & H3 & H4 & _) Hh. destruct (_ =? _); cycle 1.
    { rewrite run_ret. exists q1. split; [|done]. split_and!; try done. intros m. by rewrite Hh. }
    unfold set_node. rewrite run_modify. eexists. split; [|reflexivity]. split_and!; try done. intros m Hm. cbn. rewrite Hh.
    destruct (Z.eqb_spec n m) as [<-|Hne]; [rewrite lookup_insert_eq; eauto|by rewrite lookup_insert_ne]. }
  rewrite run_assoc. destruct (xa_load (q_nodes q) nid); [rewrite run_ret; by apply Hend|].
  rewrite run_assoc, (run_alloc env Ha), run_modify. by apply Hend.
Qed.

Lemma run_sock_put {B : Type} q s x (k : unit -> M qrtr B) :
  q_socks q !! s = Some x -> sk_refcnt x <> 1 ->
  mbnd (sock_put s) k (W q) = k tt (W (sock_put_in q s (x <| sk_refcnt := sk_refcnt x - 1 |>))).
Proof.
  intros Hx Hr. unfold sock_put. rewrite run_assoc, (run_get_sock q s x), (proj2 (Z.eqb_neq _ _) Hr) by done. done.
Qed.

(** A packet of data for a bound socket is queued to it. *)
Lemma deliver_runs q n t y b cb :
  skb_cb b = cb -> cb_type cb = QRTR_TYPE_DATA -> cb_dst_node cb = q_local_nid q -> is_Some (q_heap q !! n) ->
  xa_load (q_ports q) (port_index (cb_dst_port cb)) = Some t -> q_socks q !! t = Some y -> 1 <= sk_refcnt y ->
  (forall y b, e_rcv env y b = 0) ->
  exists q', post_deliver env n b (W q) = Ret 0 (W q') /\
    q_socks q' !! t = Some (y <| sk_receive_queue := sk_receive_queue y ++ [b <| skb_sk := Some t |>] |>).
Proof.
  intros Ecb Et Ed [x Hx] Hp Hy Hr Hrcv. unfold post_deliver. rewrite Ecb, run_gets, Et, Ed. cbn [w_st W].
  rewrite !Z.eqb_refl. cbn [negb orb]. unfold qrtr_port_lookup. rewrite run_assoc, run_gets. cbn [w_st W]. rewrite Hp.
  unfold sock_hold. rewrite run_assoc, (run_upd_sock q t y), run_ret by done. set (y1 := y <| sk_refcnt := sk_refcnt y + 1 |>).
  set (q1 := sock_put_in q t y1). assert (q_socks q1 !! t = Some y1) as Hy1 by apply lookup_insert_eq.
  unfold sock_queue_rcv_skb. rewrite run_assoc, (run_get_sock q1 t y1), Hrcv by done. cbn [Z.eqb].
  unfold set_sock. rewrite run_assoc, run_modify, run_ret. change (truth 0) with false. cbn iota.
  set (y2 := y1 <| sk_receive_queue := _ |>). set (q2 := _ <| q_socks := _ |>). change (with_st _ q2) with (W q2).
  assert (q_socks q2 !! t = Some y2) as Hy2 by apply lookup_insert_eq. rewrite (run_get_node q2 n x) by exact Hx.
  assert (forall q3, q_socks q3 = q_socks q2 -> exists q', mbnd (qrtr_port_put t) (fun _ => mret 0) (W q3) = Ret 0 (W q') /\
    q_socks q' !! t = Some (y <| sk_receive_queue := sk_receive_queue y ++ [b <| skb_sk := Some t |>] |>)) as Hend.
  { intros q3 E3. unfold qrtr_port_put. rewrite (run_sock_put q3 t y2); [|by rewrite E3|cbn; lia].
    eexists. split; [reflexivity|]. cbn. rewrite lookup_insert_eq. f_equal. destruct y. unfold y2, y1. cbn -[Z.add Z.sub]. f_equal; lia. }
  destruct (xa_load (n_no_wake_svc x) _); [rewrite run_ret; by apply Hend|]. unfold emit. rewrite run_modify. by apply Hend.
Qed.

(** What the processor of the receiver needs to take the packet. *)
Record can_take (q : qrtr) (ep n t : Z) (y : qrtr_sock) (to : sockaddr_qrtr) : Prop := {
  ct_ep : q_eps q !! ep = Some n;
  ct_node : is_Some (q_heap q !! n);
  ct_local : q_local_nid q = sq_node to;
  ct_port : xa_load (q_ports q) (port_index (sq_port to)) = Some t;
  ct_sock : q_socks q !! t = Some y;
  ct_ref : 1 <= sk_refcnt y;
  ct_legacy : sq_port to <> QRTR_PORT_CTRL_LEGACY;
}.

Definition taken (t : Z) (from to : sockaddr_qrtr) (c : Z) (data frags : list Z) : sk_buff :=
  mk_skb (Some t) (wire_cb from to c) data (Z.of_nat (length data)) frags.

Lemma endpoint_post_runs q ep n t y nid from to c data :
  can_take q ep n t y to -> (forall y b, e_rcv env y b = 0) ->
  u32_addr from -> 0 <= sq_node to < 2 ^ 31 -> 0 <= sq_port to < 2 ^ 31 -> Z.of_nat (length data) <= 65535 -> data <> [] ->
  exists q' frags, qrtr_endpoint_post env ep (wire nid QRTR_TYPE_DATA from to c data) (W q) = Ret 0 (W q') /\
    q_socks q' !! t = Some (y <| sk_receive_queue := sk_receive_queue y ++ [taken t from to c data frags] |>).
Proof.
  intros [] Hrcv Hf Hn Hp Hl Hd. unfold qrtr_endpoint_post. rewrite length_wire.
  pose proof (ALIGN_4_bounds (Z.of_nat (length data))) as A. pose proof (ALIGN_4_mod (Z.of_nat (length data))) as Am.
  rewrite (proj2 (Z.eqb_neq (ALIGN _ 4 + 32) 0)) by lia.
  assert (truth (Z.land (ALIGN (Z.of_nat (length data)) 4 + 32) 3) = false) as ->.
  { change 3 with (Z.ones 2). rewrite Z.land_ones by lia. unfold truth. change (2 ^ 2) with 4.
    rewrite <- Zplus_mod_idemp_l, Am. done. }
  cbn [orb]. unfold post_alloc. rewrite run_assoc, (run_alloc env Ha), run_ret.
  rewrite wire_post_header, run_or_fault by done. rewrite wire_checks by done.
  rewrite (proj2 (Z.leb_le _ _)) by (unfold sizeof_hdr_v1; lia). rewrite run_ret, wire_payload, run_gets. cbn [w_st W].
  change (q_eps (q <| q_allocs := _ |>)) with (q_eps q). rewrite ct_ep0, run_or_fault.
  match goal with |- context [mbnd (qrtr_node_assign env n ?i) ?k (W ?q1)] =>
    destruct (node_assign_runs q1 n i k ct_node0) as (q2 & (S2 & P2 & _ & L2 & H2) & ->) end.
  change (cb_type (wire_cb from to c) =? QRTR_TYPE_NEW_SERVER) with false. cbn iota. rewrite run_ret.
  set (b := mk_skb None _ _ _ _). destruct (deliver_runs q2 n t y b (wire_cb from to c)) as (q' & E & Hq'); try done.
  - rewrite L2. cbn. by rewrite ct_local0.
  - by apply H2.
  - by rewrite P2.
  - by rewrite S2.
  - exists q'. eexists. by split.
Qed.

(** A reader gets the first packet of its queue; one that asked for no
    confirmation costs no more. *)
Lemma recvmsg_runs q t y b rest size :
  q_socks q !! t = Some y -> sk_zapped y = false -> sk_err y = 0 -> sk_receive_queue y = b :: rest ->
  cb_confirm_rx (skb_cb b) = 0 -> skb_len b <= size ->
  exists q', qrtr_recvmsg env t size true 0 (W q) =
    Ret (Ok (mk_received (skb_bytes b) (mk_sq (cb_src_node (skb_cb b)) (cb_src_port (skb_cb b))) false)) (W q').
Proof.
  intros Hy Hz He Hq Hc Hs. unfold qrtr_recvmsg. rewrite (run_get_sock q t y), Hz by done. unfold skb_recv_datagram.
  rewrite !run_assoc, run_ret, run_assoc, (run_get_sock q t y), He, Hq by done. change (truth 0) with false. cbn iota.
  unfold set_sock at 1. rewrite run_assoc, run_modify, run_ret, Hc. change (truth 0) with false. cbn iota. rewrite run_ret.
  unfold kfree_skb, emit. rewrite run_modify. match goal with |- context [with_st _ ?q2] => set (q2' := q2); change (with_st _ q2') with (W q2') end.
  rewrite (run_get_sock q2' t (y <| sk_receive_queue := rest |>)) by apply lookup_insert_eq.
  rewrite (proj2 (Z.ltb_ge _ _) Hs). change (0 <? 0) with false. cbn iota. unfold skb_len. rewrite Nat2Z.id, firstn_all.
  destruct (_ && _); eexists; reflexivity.
Qed.

End Round.

(** What the sender's and the receiver's kernels answer: memory is there, the
    transport and the receiving socket accept packets. *)
Definition env_sends (env : qrtr_env) : Prop := alloc_all env /\ uninit_ok env /\ forall ep b k, e_xmit env ep b k = 0.

Definition env_takes (env : qrtr_env) : Prop := alloc_all env /\ forall y b, e_rcv env y b = 0.

(** A message crosses processors unchanged: qrtr_sendmsg on one puts a packet
    on the wire and returns the length of the message; qrtr_endpoint_post on the
    other accepts exactly those bytes; and qrtr_recvmsg of the socket bound to
    the port returns the bytes of the message, not cut, with the address of the
    sending socket. *)
Theorem message_crosses_processors {XC : XaCyclic} ea eb qa qb s z n x ep epb m t y to data size f1 :
  env_sends ea -> can_send ea qa s z n x ep to data ->
  flow_admit (flow_of (n_tx_flow x) (flow_key (sq_node to) (sq_port to))) = Some (0, f1) ->
  env_takes eb -> can_take qb epb m t y to ->
  sk_zapped y = false -> sk_err y = 0 -> sk_receive_queue y = [] ->
  data <> [] -> Z.of_nat (length data) <= size ->
  exists qa' pkt qb1 qb2,
    qrtr_sendmsg ea s (the_msg to data) (W qa) = Ret (Z.of_nat (length data)) (W qa') /\
    q_log qa' = EvXmit ep pkt 0 :: q_log qa /\
    qrtr_endpoint_post eb epb (skb_bytes pkt) (W qb) = Ret 0 (W qb1) /\
    qrtr_recvmsg eb t size true 0 (W qb1) = Ret (Ok (mk_received data (us z) false)) (W qb2).
Proof.
  intros (Ha & Hu & Hx) Hs Hf (Hb & Hr) Ht Hz He Hq Hd Hl.
  destruct (sendmsg_runs ea Ha qa s z n x ep to data 0 f1 Hu Hs Hf) as (qa' & frags & Es & El); [done|].
  destruct (cs_us _ _ _ _ _ _ _ _ _ Hs) as [Hus _]. destruct (cs_to _ _ _ _ _ _ _ _ _ Hs) as [Hn Hp].
  destruct (cs_len _ _ _ _ _ _ _ _ _ Hs) as [_ Hlen].
  destruct (endpoint_post_runs eb Hb qb epb m t y (n_nid x) (us z) to 0 data Ht Hr Hus Hn Hp Hlen Hd) as (qb1 & fb & Ep & Hy).
  rewrite Hq in Hy. cbn [app] in Hy. destruct (recvmsg_runs eb qb1 t _ (taken t (us z) to 0 data fb) [] size Hy) as [qb2 Er]; [done..|].
  exists qa', (the_pkt s z x to 0 data frags), qb1, qb2. split; [done|]. split; [done|]. split; [done|]. rewrite Er.
  cbn. by destruct (us z).
Qed.
