(* ===== verification/QrtrDemo.v ===== *)
(** * QrtrDemo: the IPC router on concrete inputs

    Two processors, their sockets and a packet between them; the states in which
    the theorems about the router are applied; and the inputs on which it does
    not do what it means to. *)
From stdpp Require Import prelude gmap list relations.
From S2P Require Import Prelude.
From S2P Require Import Effects.
From S2P Require Import XArray.
From S2P Require Import Qrtr.
From S2P Require Import QrtrNs.
From S2P Require Import QrtrPkt.
From S2P Require Import AfQrtr.
From S2P Require Import QrtrInv.
From S2P Require Import QrtrSafe.
From S2P Require Import QrtrOps.
From S2P Require Import QrtrTerm.
From S2P Require Import QrtrThm.
From S2P Require Import QrtrFlow.
From S2P Require Import QrtrRound.
#[local] Open Scope kernel_scope.

(** ** Kernels that answer yes, and one without memory *)

Definition demo_env (alloc : nat -> bool) (xmit : nat -> Z) : qrtr_env :=
  mk_qenv alloc (fun _ _ => 0) (fun _ _ k => xmit k) (0%nat, false) (mk_ns [] [] 1 []) true
    (fun k => replicate k 0) (fun z => [Z.max 0 z]) (fun f => [f]) 16064 17.

Definition good_env : qrtr_env := demo_env (fun _ => true) (fun _ => 0).

Lemma demo_env_ok alloc xmit : env_ok (demo_env alloc xmit).
Proof.
  split; cbn; [done| |lia]. intros n. constructor; [lia|constructor].
Qed.

Lemma good_env_sends : env_sends good_env.
Proof. split; [done|]. split; [|done]. intros k. apply length_replicate. Qed.

Lemma good_env_takes : env_takes good_env.
Proof. by split. Qed.

(** ** Runs *)

(** The callers' side, as a test. *)
Definition openedb (q : qrtr) (s : Z) : bool :=
  match q_socks q !! s with Some x => negb (sk_dead x) | None => false end.

Definition op_okb (env : qrtr_env) (q : qrtr) (o : qop) : bool :=
  match o with
  | OpBind s _ | OpConnect s _ | OpSendmsg s _ | OpRecvmsg s _ _ _ | OpGetname s _ | OpShutdown s _ | OpRelease s => openedb q s
  | OpPost ep data => bool_decide (is_Some (q_eps q !! ep)) && forallb (fun b => (0 <=? b) && (b <? 256)) data &&
                      e_alloc env (q_allocs q)
  | OpUnregister ep => bool_decide (is_Some (q_eps q !! ep))
  | OpWorker n => bool_decide (n ∈ q_all_epts q)
  | _ => true
  end.

Lemma openedb_ok q s : openedb q s = true -> opened q s.
Proof. unfold openedb. destruct (q_socks q !! s) as [x|] eqn:E; [|done]. intros H. exists x. by apply negb_true_iff in H. Qed.

Lemma op_okb_ok env q o : op_okb env q o = true -> op_ok env q o.
Proof.
  destruct o; cbn [op_okb op_ok]; intros H; try done; try (by apply openedb_ok); try (by apply bool_decide_eq_true_1 in H).
  apply andb_true_iff in H as [H Ha]. apply andb_true_iff in H as [He Hb]. apply bool_decide_eq_true_1 in He.
  split; [done|]. split; [|by left]. apply Forall_forall. intros b Hin. rewrite forallb_forall in Hb.
  specialize (Hb b (proj1 (list_elem_of_In _ _) Hin)). zbool. lia.
Qed.

(** The state after a run of calls; [None] when a call is not one that callers
    make or does not return. *)
Fixpoint run_ops (env : qrtr_env) (ops : list qop) (q : qrtr) : option qrtr :=
  match ops with
  | [] => Some q
  | o :: ops' =>
      if op_okb env q o then
        match run_op env o (W q) with
        | Ret _ w => run_ops env ops' (w_st w)
        | _ => None
        end
      else None
  end.

Lemma run_ops_reachable alloc xmit : forall ops q q',
  reachable q -> run_ops (demo_env alloc xmit) ops q = Some q' -> reachable q'.
Proof.
  induction ops as [|o ops IH]; cbn [run_ops]; intros q q' Hq; [by intros [= <-]|].
  destruct (op_okb _ q o) eqn:Eo; [|done]. apply op_okb_ok in Eo.
  pose proof (run_op_ok _ q o (demo_env_ok alloc xmit) (reachable_inv q Hq) Eo) as H.
  destruct (run_op _ o (W q)) as [[] [q1 sched]| | |] eqn:E; [|done..]. cbn in H |- *. destruct H as [-> _].
  apply IH. eapply rtc_r; [exact Hq|]. by apply (step_op q q1 (demo_env alloc xmit) o); [apply demo_env_ok| |].
Qed.

(** ** Two processors *)

Definition at_port (node port : Z) : msg_addr := mk_addr sizeof_sockaddr_qrtr AF_QIPCRTR (mk_sq node port).

Definition hello_pkt (from to : Z) : list Z :=
  hdr_v1_bytes (mk_hdr_v1 QRTR_PROTO_VER_1 QRTR_TYPE_HELLO from QRTR_PORT_CTRL 0 20 to QRTR_PORT_CTRL) ++
  ctrl_pkt_bytes (mk_pkt QRTR_TYPE_HELLO 0 0 0 0).

(** The name service and one more socket are bound, an endpoint is registered,
    and greetings are exchanged with the peer. *)
Definition bring_up (local peer port : Z) : list qop :=
  [OpNodeId [Some local]; OpCreate SOCK_DGRAM; OpBind 32 (at_port local QRTR_PORT_CTRL);
   OpCreate SOCK_DGRAM; OpBind 34 (at_port local port);
   OpRegister (Some 7) true true 1 []; OpWorker 36; OpPost 7 (hello_pkt peer local); OpWorker 36].

Definition after (ops : list qop) (q : qrtr) : qrtr := default qrtr_boot (run_ops good_env ops q).

Definition processor (local peer port : Z) : qrtr := after (bring_up local peer port) qrtr_boot.

Lemma after_reachable ops q : reachable q -> reachable (after ops q).
Proof.
  intros Hq. unfold after. destruct (run_ops good_env ops q) as [q'|] eqn:E; [|apply rtc_refl].
  by apply (run_ops_reachable (fun _ => true) (fun _ => 0) ops q).
Qed.

Lemma processor_reachable local peer port : reachable (processor local peer port).
Proof. apply after_reachable, rtc_refl. Qed.

(** The first processor, with a packet for its name service still in the queue
    of the worker thread. *)
Definition busy : qrtr := after [OpPost 7 (hello_pkt 6 1)] (processor 1 5 20000).

Definition node_36 (q : qrtr) : qrtr_node := default (mk_qnode None 0 0 0 0 0 [] [] [] false false) (q_heap q !! 36).

Definition sock_34 (q : qrtr) : qrtr_sock :=
  default (mk_sock (mk_sq 0 0) (mk_sq 0 0) 0 false false [] 0 false true true 0 0) (q_socks q !! 34).

Lemma references_exact_witness :
  let q := processor 1 5 20000 in
  sk_refcnt (sock_34 q) = references q 34 (sock_34 q) /\ n_ref (node_36 q) = 1.
Proof.
  cbv zeta. destruct (references_exact (processor 1 5 20000) (processor_reachable 1 5 20000)) as (H1 & _ & H2).
  split; [apply (H1 34); vm_compute; reflexivity|]. rewrite (H2 36 (node_36 (processor 1 5 20000))); vm_compute; reflexivity.
Defined.

Lemma calls_return_or_wait_witness :
  exists q', run_op good_env (OpRelease 34) (W (processor 1 5 20000)) = Ret tt (W q').
Proof.
  destruct (calls_return_or_wait good_env (processor 1 5 20000) (OpRelease 34) (processor_reachable 1 5 20000) (demo_env_ok _ _))
    as [(q' & E & _)|E].
  - apply op_okb_ok. vm_compute. reflexivity.
  - exists q'. exact E.
  - exfalso. vm_compute in E. discriminate E.
Defined.

Lemma ports_match_open_sockets_witness :
  exists x, q_socks (processor 1 5 20000) !! 34 = Some x /\ sk_dead x = false /\ sq_port (us x) = 20000.
Proof.
  destruct (ports_match_open_sockets (processor 1 5 20000) (processor_reachable 1 5 20000)) as [H _].
  destruct (H 20000 34) as (x & Hx & Hd & _); [vm_compute; reflexivity|]. exists x. split; [done|]. split; [done|].
  vm_compute in Hx. injection Hx as <-. reflexivity.
Defined.

Lemma worker_empties_queue_witness :
  queue_len busy 36 = 1%nat /\ exists q', qrtr_kworker good_env 1 36 (W busy) = Ret tt (W q') /\ drained 36 q'.
Proof.
  split; [vm_compute; reflexivity|].
  destruct (worker_empties_queue good_env busy 36 (node_36 busy)) as [(q' & E & H)|E].
  - apply after_reachable, processor_reachable.
  - apply demo_env_ok.
  - apply (bool_decide_eq_true_1 (36 ∈ q_all_epts busy)). vm_compute. reflexivity.
  - vm_compute. reflexivity.
  - vm_compute. reflexivity.
  - exists q'. split; [|exact H]. replace 1%nat with (queue_len busy 36) by (vm_compute; reflexivity). exact E.
  - exfalso. vm_compute in E. discriminate E.
Defined.

Lemma unregister_forgets_node_witness :
  exists q', run_op good_env (OpUnregister 7) (W (processor 1 5 20000)) = Ret tt (W q') /\ q_heap q' !! 36 = None /\
    q_eps q' !! 7 = None.
Proof.
  destruct (unregister_forgets_node good_env (processor 1 5 20000) 7 36 (processor_reachable 1 5 20000) (demo_env_ok _ _))
    as [(q' & E & H1 & H2 & _)|E].
  - vm_compute. reflexivity.
  - exists q'. split; [exact E|]. split; [exact H1|exact H2].
  - exfalso. vm_compute in E. discriminate E.
Defined.

(** ** Flow control and messages *)

(** A packet of a socket. *)
Definition from_34 (q : qrtr) (data : list Z) : sockaddr_qrtr * sk_buff := (us (sock_34 q), mk_skb (Some 34) zero_cb data 0 []).

Lemma from_34_sendable data : sendable (processor 1 5 20000) (from_34 (processor 1 5 20000) data).
Proof.
  split; [vm_compute; split; split; congruence|]. split; [reflexivity|]. exists 34. split; [reflexivity|].
  exists (sock_34 (processor 1 5 20000)). vm_compute. reflexivity.
Qed.

(** Twelve packets: the transport loses the fifth, which asks for confirmation;
    the sixth asks again. *)
Definition lossy_env : qrtr_env := demo_env (fun _ => true) (fun k => if Nat.eqb k 6 then - EIO else 0).

Definition twelve : list (sockaddr_qrtr * sk_buff) := replicate 12 (from_34 (processor 1 5 20000) [1; 2; 3; 4]).

Lemma turned_away_while_confirm_comes_witness :
  exists rcs q' x', send_all lossy_env 36 (mk_sq 5 17000) twelve (W (processor 1 5 20000)) = Ret rcs (W q') /\
    q_heap q' !! 36 = Some x' /\
    (flow_admit (flow_of (n_tx_flow x') (flow_key 5 17000)) = None -> confirm_asked 7 (mk_sq 5 17000) (q_log q')).
Proof.
  destruct (turned_away_while_confirm_comes lossy_env (fun _ => eq_refl) (processor 1 5 20000) 36 (node_36 (processor 1 5 20000)) 7
    (mk_sq 5 17000) twelve) as (rcs & q' & x' & E & Hx & _ & H).
  - vm_compute. reflexivity.
  - vm_compute. reflexivity.
  - vm_compute. reflexivity.
  - vm_compute. constructor.
  - vm_compute. reflexivity.
  - cbn. lia.
  - cbn. lia.
  - apply Forall_replicate, from_34_sendable.
  - exists rcs, q', x'. split; [exact E|]. split; [exact Hx|exact H].
Defined.

Lemma can_send_34 : can_send good_env (processor 1 5 20000) 34 (sock_34 (processor 1 5 20000)) 36 (node_36 (processor 1 5 20000)) 7
  (mk_sq 5 17000) [104; 105].
Proof.
  split; try (vm_compute; reflexivity).
  - vm_compute. congruence.
  - vm_compute. constructor.
  - vm_compute. congruence.
  - vm_compute. congruence.
  - split; [vm_compute; split; split; congruence|vm_compute; congruence].
  - cbn. lia.
  - split; vm_compute; congruence.
Qed.

Lemma can_take_34 : can_take (processor 5 1 17000) 7 36 34 (sock_34 (processor 5 1 17000)) (mk_sq 5 17000).
Proof.
  split; try (vm_compute; reflexivity).
  - exists (node_36 (processor 5 1 17000)). vm_compute. reflexivity.
  - vm_compute. congruence.
  - vm_compute. congruence.
Qed.

Lemma message_crosses_processors_witness :
  exists qa' pkt qb1 qb2,
    qrtr_sendmsg good_env 34 (the_msg (mk_sq 5 17000) [104; 105]) (W (processor 1 5 20000)) = Ret 2 (W qa') /\
    q_log qa' = EvXmit 7 pkt 0 :: q_log (processor 1 5 20000) /\
    qrtr_endpoint_post good_env 7 (skb_bytes pkt) (W (processor 5 1 17000)) = Ret 0 (W qb1) /\
    qrtr_recvmsg good_env 34 100 true 0 (W qb1) = Ret (Ok (mk_received [104; 105] (us (sock_34 (processor 1 5 20000))) false)) (W qb2).
Proof.
  apply (message_crosses_processors good_env good_env (processor 1 5 20000) (processor 5 1 17000) 34 (sock_34 (processor 1 5 20000)) 36
    (node_36 (processor 1 5 20000)) 7 7 36 34 (sock_34 (processor 5 1 17000)) (mk_sq 5 17000) [104; 105] 100 (mk_flow 1 0 [])
    good_env_sends can_send_34).
  - vm_compute. reflexivity.
  - exact good_env_takes.
  - exact can_take_34.
  - vm_compute. reflexivity.
  - vm_compute. reflexivity.
  - vm_compute. reflexivity.
  - discriminate.
  - vm_compute. congruence.
Defined.

Lemma header_readers_agree_witness : qrtr_peek_pkt_size (hello_pkt 5 1) = Some 52.
Proof.
  destruct (header_readers_agree (hello_pkt 5 1) (mk_cb 5 QRTR_PORT_CTRL 1 QRTR_PORT_CTRL QRTR_TYPE_HELLO 0)
    (mk_cb 5 QRTR_PORT_CTRL 1 QRTR_PORT_CTRL QRTR_TYPE_HELLO 0) 32 20) as (_ & _ & H & _).
  - apply Forall_forall. intros b Hb. assert (forallb (fun b => (0 <=? b) && (b <? 256)) (hello_pkt 5 1) = true) as H by (vm_compute; reflexivity).
    rewrite forallb_forall in H. specialize (H b (proj1 (list_elem_of_In _ _) Hb)). zbool. lia.
  - vm_compute. reflexivity.
  - vm_compute. reflexivity.
  - vm_compute. reflexivity.
  - rewrite H. vm_compute. reflexivity.
Defined.

(** ** Inputs on which the code does not do what it means to *)

Definition outcome_state {A : Type} (o : outcome qrtr A) : qrtr := match o with Ret _ w => w_st w | _ => qrtr_boot end.

(** For each packet on the wire, whether it asks for confirmation and whether
    the transport took it, latest first. *)
Definition asked (log : list qevent) : list (Z * bool) :=
  omap (fun e => match e with
                 | EvXmit _ b rc => h ← hdr_v1_at (skb_bytes b); Some (v1_confirm_rx h, rc =? 0)
                 | _ => None
                 end) log.

Definition lossy_run (port : Z) : qrtr :=
  outcome_state (send_all lossy_env 36 (mk_sq 5 port) twelve (W (processor 1 5 20000))).

Definition would_refuse (port : Z) : bool :=
  match flow_admit (flow_of (n_tx_flow (node_36 (lossy_run port))) (flow_key 5 port)) with None => true | Some _ => false end.

(** When the transport loses the packet that asks for confirmation, a later one
    asks again, and senders wait for that confirmation. For a port of 2^31 or
    more, the loss is recorded under another key: no packet asks again, and
    senders are turned away although no confirmation will ever come. *)
Lemma high_port_stalls :
  would_refuse 17000 = true /\ existsb (fun e => (fst e =? 1) && snd e) (asked (q_log (lossy_run 17000))) = true /\
  would_refuse (2 ^ 31) = true /\ existsb (fun e => (fst e =? 1) && snd e) (asked (q_log (lossy_run (2 ^ 31)))) = false.
Proof. vm_compute. by split_and!. Qed.

(** A second endpoint, in another network, with a known peer. *)
Definition two_endpoints : qrtr :=
  after [OpRegister (Some 8) true true 4 []; OpWorker 40; OpPost 8 (hello_pkt 6 1); OpWorker 40] (processor 1 5 20000).

Definition blocked {A : Type} (o : outcome qrtr A) : bool := match o with Blocked => true | _ => false end.

Definition returned {A : Type} (o : outcome qrtr A) : bool := match o with Ret _ _ => true | _ => false end.

(** When there is no memory for the notification of the other endpoints, the
    unregistration keeps the semaphore for reading and then waits for it for
    writing: it waits for itself. *)
Lemma unregister_deadlocks_itself :
  returned (run_op good_env (OpUnregister 8) (W two_endpoints)) = true /\
  blocked (run_op (demo_env (fun k => Nat.ltb k (S (q_allocs two_endpoints))) (fun _ => 0)) (OpUnregister 8) (W two_endpoints)) = true.
Proof. vm_compute. by split. Qed.

(** A packet of one word that arrives when there is no memory: the report of the
    failure reads a header that is not there. *)
Lemma short_packet_report_faults :
  run_op (demo_env (fun _ => false) (fun _ => 0)) (OpPost 7 [1; 0; 0; 0]) (W (processor 1 5 20000)) = Fault.
Proof. vm_compute. reflexivity. Qed.

(** The last packet on the wire after a message is sent. *)
Definition last_sent (q : qrtr) (to : sockaddr_qrtr) (len : nat) : option sk_buff :=
  match q_log (outcome_state (qrtr_sendmsg good_env 34 (the_msg to (replicate len 7)) (W q))) with
  | EvXmit _ b _ :: _ => Some b
  | _ => None
  end.

(** On a node that is not primary, a message of 5000 bytes goes out as one of
    8192: whole pages, with the bytes that were in them. *)
Lemma long_message_grows :
  (b ← last_sent (processor 5 1 17000) (mk_sq 1 20000) (Z.to_nat 5000); h ← hdr_v1_at (skb_bytes b); Some (v1_size h)) = Some 8192.
Proof. vm_compute. reflexivity. Qed.

(** A message whose bytes end where its last page ends is not padded, and the
    receiver rejects it. *)
Lemma full_page_not_padded :
  (b ← last_sent (processor 1 5 20000) (mk_sq 5 17000) (Z.to_nat 20157);
   match qrtr_endpoint_post good_env 7 (skb_bytes b) (W (processor 5 1 17000)) with
   | Ret rc _ => Some (skb_len b mod 4, skb_data_len b, rc)
   | _ => None
   end) = Some (1, 4099, - EINVAL).
Proof. vm_compute. reflexivity. Qed.
