(* ===== verification/QmiInterface.v ===== *)
(** * QmiInterface: QMI handles, lookups and transactions
      (src/drivers/soc/qcom/qmi_interface.c, src/include/linux/soc/qcom/qmi.h)

    A handle owns a socket of the IPC router, a work queue and a receive buffer;
    it keeps the lookups and services it registered, the servers it was told of,
    and a table of outstanding transactions, which are objects in the memory of
    its clients (often on a stack). Allocated memory is a set of live addresses,
    so that a double free and a leak show; a transaction is an object of a heap,
    so that a use after the owner returned shows. The callbacks of the client
    are computations on the same state. *)
From stdpp Require Import prelude gmap list.
From S2P Require Import Prelude.
From S2P Require Import Effects.
From S2P Require Import QmiEncdec.
From S2P Require Import XArray.
From S2P Require Import Qrtr.
From S2P Require Import QrtrNs.
From S2P Require Import QrtrPkt.
#[local] Open Scope kernel_scope.

(** ** Data *)

Definition QMI_REQUEST : Z := 0.

Definition QMI_RESPONSE : Z := 2.

Definition QMI_INDICATION : Z := 4.

(** The largest index of a table that [U16_MAX] bounds from above. *)
Definition txn_id_max : Z := 65534.

(** The fields a client may rely on; the first is the address of the object.
    [priv] is the client's. *)
Record qmi_service := mk_svc {
  svc_addr : Z;
  svc_service : Z;
  svc_version : Z;
  svc_instance : Z;
  svc_node : Z;
  svc_port : Z;
}.

(** Which callbacks are not null. *)
Record qmi_ops := mk_ops {
  has_new_server : bool;
  has_del_server : bool;
  has_net_reset : bool;
  has_msg_handler : bool;
  has_bye : bool;
  has_del_client : bool;
}.

(** [t_qmi] says whether the pointer to the handle is not null; [t_done] is the
    count of the completion. *)
Record qmi_txn := mk_txn {
  t_qmi : bool;
  t_id : Z;
  t_done : Z;
  t_result : Z;
  t_ei : option (list qmi_elem_info);
  t_dest : option Z;
}.

#[export] Instance eta_qmi_txn : Settable qmi_txn := fun t =>
  mk_txn (t_qmi t) (t_id t) (t_done t) (t_result t) (t_ei t) (t_dest t).

(** A handler array ends with an entry whose function is null. *)
Record qmi_msg_handler := mk_handler {
  h_type : Z;
  h_msg_id : Z;
  h_ei : option (list qmi_elem_info);
  h_decoded_size : Z;
  h_fn : option Z;
}.

(** A pointer to a socket or [ERR_PTR(e)]. *)
Inductive sock_ptr :=
| SockNull
| SockErr (e : Z)
| Sock (s : Z).

Record qmi_handle := mk_qmi {
  sock : sock_ptr;
  sock_lock : bool;
  sq : sockaddr_qrtr;
  work : bool;
  wq : Z;
  recv_buf : Z;
  recv_mem : mem;
  recv_buf_size : Z;
  lookups : list qmi_service;
  lookup_results : list qmi_service;
  services : list qmi_service;
  ops : qmi_ops;
  txns : xarray Z;
  txns_next : Z;
  txn_lock : bool;
  handlers : option (list qmi_msg_handler);
}.

#[export] Instance eta_qmi_handle : Settable qmi_handle := fun h =>
  mk_qmi (sock h) (sock_lock h) (sq h) (work h) (wq h) (recv_buf h) (recv_mem h) (recv_buf_size h) (lookups h)
    (lookup_results h) (services h) (ops h) (txns h) (txns_next h) (txn_lock h) (handlers h).

(** What the next call of [kernel_recvmsg] finds. *)
Inductive rx :=
| RxMsg (from : sockaddr_qrtr) (data : list Z)
| RxErr (e : Z).

(** A socket: whether its user data is the handle, and what it has received. *)
Record ksock := mk_ksock { ks_user : bool; ks_rx : list rx }.

Inductive qmi_event :=
| EvSend (s : Z) (dest : option sockaddr_qrtr) (data : list Z) (ret : Z)
| EvNewServer (svc : qmi_service) (ret : Z)
| EvDelServer (svc : qmi_service)
| EvNetReset
| EvMsg (from : sockaddr_qrtr) (len : Z)
| EvBye (node : Z)
| EvDelClient (node port : Z)
| EvFn (fn : Z) (from : sockaddr_qrtr) (txn : Z).

(** A handle and its surroundings: the sockets, the live allocations, the
    transactions in the memory of clients, the rest of that memory, and the calls
    made to the socket layer and to the client. *)
Record qmi := mk_state {
  q_h : qmi_handle;
  q_sk : gmap Z ksock;
  q_live : gset Z;
  q_txn : gmap Z qmi_txn;
  q_mem : mem;
  q_allocs : nat;
  q_log : list qmi_event;
}.

#[export] Instance eta_qmi : Settable qmi := fun q =>
  mk_state (q_h q) (q_sk q) (q_live q) (q_txn q) (q_mem q) (q_allocs q) (q_log q).

(** What the rest of the kernel answers, and the code of the client. *)
Record qmi_env := mk_env {
  e_depth : nat;                                (* nesting of descriptors *)
  e_alloc : nat -> bool;                        (* does the k-th allocation succeed? *)
  e_sock_create : nat -> Z;                     (* sock_create_kern *)
  e_getsockname : Z -> Z * sockaddr_qrtr;       (* kernel_getsockname *)
  e_send : Z -> option sockaddr_qrtr -> list Z -> nat -> Z;  (* kernel_sendmsg *)
  e_wait : nat;                                 (* turns of others before a timeout *)
  e_jiffies : Z;                                (* time left when a wait succeeds *)
  c_new_server : qmi_service -> M qmi Z;
  c_del_server : qmi_service -> M qmi unit;
  c_net_reset : M qmi unit;
  c_msg_handler : sockaddr_qrtr -> mem -> Z -> M qmi unit;
  c_bye : Z -> M qmi unit;
  c_del_client : Z -> Z -> M qmi unit;
  c_fn : Z -> sockaddr_qrtr -> Z -> mem -> Z -> M qmi unit;    (* with the decoded object *)
}.

Section Qmi.
Context {XC : XaCyclic} (env : qmi_env).

Abbreviation M := (M qmi).

(** ** The kernel's services *)

Definition hget {A : Type} (f : qmi_handle -> A) : M A := gets (fun q => f (q_h q)).

Definition hmod (f : qmi_handle -> qmi_handle) : M unit := modify (fun q => q <| q_h := f (q_h q) |>).

Definition emit (e : qmi_event) : M unit := modify (fun q => q <| q_log := e :: q_log q |>).

(** A fresh number, for an address. *)
Definition fresh : M nat :=
  n <-- gets q_allocs ;;;
  modify (fun q => q <| q_allocs := S n |>) ;;;
  mret n.

Definition kzalloc : M (option Z) :=
  n <-- fresh ;;;
  if e_alloc env n then
    modify (fun q => q <| q_live := {[Z.of_nat n]} ∪ q_live q |>) ;;;
    mret (Some (Z.of_nat n))
  else mret None.

Definition kfree (p : Z) : M unit :=
  live <-- gets q_live ;;;
  if decide (p ∈ live) then modify (fun q => q <| q_live := q_live q ∖ {[p]} |>) else fault.

Definition get_ksock (s : Z) : M ksock := o <-- gets (fun q => q_sk q !! s) ;;; or_fault o.

Definition set_ksock (s : Z) (x : ksock) : M unit := modify (fun q => q <| q_sk := <[s := x]> (q_sk q) |>).

Definition sock_release (s : Z) : M unit := get_ksock s ;;; modify (fun q => q <| q_sk := delete s (q_sk q) |>).

Definition kernel_sendmsg (s : Z) (dest : option sockaddr_qrtr) (data : list Z) : M Z :=
  get_ksock s ;;;
  k <-- gets (fun q => length (q_log q)) ;;;
  let ret := e_send env s dest data k in
  emit (EvSend s dest data ret) ;;;
  mret ret.

(** A datagram longer than the buffer is cut. *)
Definition kernel_recvmsg (s buf size : Z) : M (Z * sockaddr_qrtr) :=
  x <-- get_ksock s ;;;
  match ks_rx x with
  | [] => mret (- EAGAIN, mk_sq 0 0)
  | RxErr e :: l => set_ksock s (mk_ksock (ks_user x) l) ;;; mret (- e, mk_sq 0 0)
  | RxMsg from data :: l =>
      set_ksock s (mk_ksock (ks_user x) l) ;;;
      live <-- gets q_live ;;;
      if decide (buf ∈ live) then
        let data := take (Z.to_nat size) data in
        hmod (fun h => h <| recv_mem := store_bytes (recv_mem h) 0 data |>) ;;;
        mret (Z.of_nat (length data), from)
      else fault
  end.

Definition get_txn (a : Z) : M qmi_txn := o <-- gets (fun q => q_txn q !! a) ;;; or_fault o.

Definition set_txn (a : Z) (t : qmi_txn) : M unit := modify (fun q => q <| q_txn := <[a := t]> (q_txn q) |>).

(** The memory of a transaction is given back. *)
Definition drop_txn (a : Z) : M unit := modify (fun q => q <| q_txn := delete a (q_txn q) |>).

Definition complete (a : Z) : M unit :=
  t <-- get_txn a ;;;
  set_txn a (if t_done t =? 2 ^ 32 - 1 then t else t <| t_done := t_done t + 1 |>).

Definition lock_sock : M unit :=
  wait_until (fun q => negb (sock_lock (q_h q))) ;;; hmod (fun h => h <| sock_lock := true |>).

Definition unlock_sock : M unit := hmod (fun h => h <| sock_lock := false |>).

Definition lock_txns : M unit :=
  wait_until (fun q => negb (txn_lock (q_h q))) ;;; hmod (fun h => h <| txn_lock := true |>).

Definition unlock_txns : M unit := hmod (fun h => h <| txn_lock := false |>).

(** The first entry at or after an index. *)
Definition idr_get_next (x : xarray Z) (id : Z) : option (Z * Z) := head (filter (fun iv => id <= fst iv) x).

Definition idr_remove (id : Z) : M unit := hmod (fun h => h <| txns := xa_erase (txns h) id |>).

(** [idr_alloc_cyclic] of the table over [0, U16_MAX). *)
Definition txn_id_alloc (a : Z) : M Z :=
  n <-- fresh ;;;
  if negb (e_alloc env n) then mret (- ENOMEM)
  else
    x <-- hget txns ;;;
    next <-- hget txns_next ;;;
    match xa_alloc_cyclic x 0 txn_id_max next with
    | None => mret (- ENOSPC)
    | Some (i, next) => hmod (fun h => h <| txns := xa_store x i a |> <| txns_next := next |>) ;;; mret i
    end.

(** ** Control messages *)

Definition qmi_recv_new_server (service instance node port : Z) : M unit :=
  o <-- hget ops ;;;
  if negb (has_new_server o) then mret tt
  else if (node =? 0) && (port =? 0) then mret tt
  else
    p <-- kzalloc ;;;
    match p with
    | None => mret tt
    | Some p =>
        let svc := mk_svc p service (Z.land instance 255) (Z.shiftr instance 8) node port in
        ret <-- c_new_server env svc ;;;
        emit (EvNewServer svc ret) ;;;
        if ret <? 0 then kfree p
        else hmod (fun h => h <| lookup_results := svc :: lookup_results h |>)
    end.

(** Unlink a service from the results; it must be there. *)
Definition list_del_result (p : Z) : M unit :=
  l <-- hget lookup_results ;;;
  if bool_decide (p ∈ map svc_addr l) then hmod (fun h => h <| lookup_results := filter (fun v => svc_addr v <> p) l |>)
  else fault.

(** [-1] of an [unsigned int]. *)
Definition WILDCARD : Z := 4294967295.

Definition svc_matches (node port : Z) (svc : qmi_service) : bool :=
  ((node =? WILDCARD) || (svc_node svc =? node)) && ((port =? WILDCARD) || (svc_port svc =? port)).

Fixpoint del_server_loop (node port : Z) (l : list qmi_service) : M unit :=
  match l with
  | [] => mret tt
  | svc :: l' =>
      (if negb (svc_matches node port svc) then mret tt
       else
         o <-- hget ops ;;;
         (if has_del_server o then c_del_server env svc ;;; emit (EvDelServer svc) else mret tt) ;;;
         list_del_result (svc_addr svc) ;;;
         kfree (svc_addr svc)) ;;;
      del_server_loop node port l'
  end.

Definition qmi_recv_del_server (node port : Z) : M unit :=
  l <-- hget lookup_results ;;;
  del_server_loop node port l.

Definition qmi_recv_bye (node : Z) : M unit :=
  qmi_recv_del_server node WILDCARD ;;;
  o <-- hget ops ;;;
  if has_bye o then c_bye env node ;;; emit (EvBye node) else mret tt.

Definition qmi_recv_del_client (node port : Z) : M unit :=
  o <-- hget ops ;;;
  if has_del_client o then c_del_client env node port ;;; emit (EvDelClient node port) else mret tt.

Definition sizeof_ctrl_pkt : Z := 20.

Definition qmi_recv_ctrl_pkt (buf : mem) (len : Z) : M unit :=
  let pkt := recv_pkt buf in
  if len <? sizeof_ctrl_pkt then mret tt
  else if cmd pkt =? QRTR_TYPE_BYE then qmi_recv_bye (client_node pkt)
  else if cmd pkt =? QRTR_TYPE_NEW_SERVER then
    qmi_recv_new_server (w_service pkt) (w_instance pkt) (w_node pkt) (w_port pkt)
  else if cmd pkt =? QRTR_TYPE_DEL_SERVER then qmi_recv_del_server (w_node pkt) (w_port pkt)
  else if cmd pkt =? QRTR_TYPE_DEL_CLIENT then qmi_recv_del_client (client_node pkt) (client_port pkt)
  else mret tt.

(** ** Registrations *)

(** A control packet to the name service of the local node. *)
Definition send_ctrl (p : qrtr_ctrl_pkt) : M unit :=
  s <-- hget sq ;;;
  lock_sock ;;;
  k <-- hget sock ;;;
  match k with
  | SockNull => mret tt
  | SockErr _ => fault
  | Sock k => kernel_sendmsg k (Some (mk_sq (sq_node s) QRTR_PORT_CTRL)) (ctrl_pkt_bytes p) ;;; mret tt
  end ;;;
  unlock_sock.

Definition svc_instance_word (svc : qmi_service) : Z := Z.lor (svc_version svc) (u32 (Z.shiftl (svc_instance svc) 8)).

Definition qmi_send_new_lookup (svc : qmi_service) : M unit :=
  send_ctrl (mk_pkt QRTR_TYPE_NEW_LOOKUP (svc_service svc) (svc_instance_word svc) 0 0).

Definition qmi_add_lookup (service version instance : Z) : M Z :=
  p <-- kzalloc ;;;
  match p with
  | None => mret (- ENOMEM)
  | Some p =>
      let svc := mk_svc p service version instance 0 0 in
      hmod (fun h => h <| lookups := svc :: lookups h |>) ;;;
      qmi_send_new_lookup svc ;;;
      mret 0
  end.

Definition qmi_send_new_server (svc : qmi_service) : M unit :=
  s <-- hget sq ;;;
  send_ctrl (mk_pkt QRTR_TYPE_NEW_SERVER (svc_service svc) (svc_instance_word svc) (sq_node s) (sq_port s)).

Definition qmi_add_server (service version instance : Z) : M Z :=
  p <-- kzalloc ;;;
  match p with
  | None => mret (- ENOMEM)
  | Some p =>
      let svc := mk_svc p service version instance 0 0 in
      hmod (fun h => h <| services := svc :: services h |>) ;;;
      qmi_send_new_server svc ;;;
      mret 0
  end.

(** ** Transactions *)

Definition qmi_txn_init (a : Z) (ei : option (list qmi_elem_info)) (c_struct : option Z) : M Z :=
  set_txn a (mk_txn true 0 0 0 ei c_struct) ;;;
  lock_txns ;;;
  ret <-- txn_id_alloc a ;;;
  t <-- get_txn a ;;;
  set_txn a (t <| t_id := u16 ret |>) ;;;
  unlock_txns ;;;
  mret ret.

(** The handle of a transaction, which must not be null. *)
Definition txn_handle (a : Z) : M unit := t <-- get_txn a ;;; if t_qmi t then mret tt else fault.

Definition qmi_txn_cancel (a : Z) : M unit :=
  txn_handle a ;;;
  lock_txns ;;;
  t <-- get_txn a ;;;
  idr_remove (t_id t) ;;;
  unlock_txns.

(** Whether the completion was signalled; a wait that succeeds takes it. *)
Definition completed (a : Z) (q : qmi) : bool :=
  match q_txn q !! a with Some t => 0 <? t_done t | None => false end.

(** The time left, or 0 after the timeout. *)
Definition wait_for_completion_timeout (a : Z) : M Z :=
  b <-- wait_upto (e_wait env) (completed a) ;;;
  if b : bool then
    t <-- get_txn a ;;;
    set_txn a (t <| t_done := t_done t - 1 |>) ;;;
    mret (s32 (e_jiffies env))
  else mret 0.

(** [qmi_txn_wait] after the wait, [ret] being its result. *)
Definition txn_wait_rest (a ret : Z) : M Z :=
  t <-- get_txn a ;;;
  if t_result t =? - ENETRESET then mret (t_result t)
  else
    lock_txns ;;;
    idr_remove (t_id t) ;;;
    unlock_txns ;;;
    if ret =? 0 then mret (- ETIMEDOUT)
    else t <-- get_txn a ;;; mret (t_result t).

Definition qmi_txn_wait (a : Z) : M Z :=
  txn_handle a ;;;
  ret <-- wait_for_completion_timeout a ;;;
  txn_wait_rest a ret.

(** ** Messages *)

(** The handler for a message; [None] past an array without end. *)
Fixpoint find_handler (l : list qmi_msg_handler) (ty msg_id : Z) : option (option (Z * qmi_msg_handler)) :=
  match l with
  | [] => None
  | h :: l' =>
      match h_fn h with
      | None => Some None
      | Some fn => if (h_type h =? ty) && (h_msg_id h =? msg_id) then Some (Some (fn, h)) else find_handler l' ty msg_id
      end
  end.

Definition hdr_type (buf : mem) : Z := rd8 buf 0.

Definition hdr_txn_id (buf : mem) : Z := rd16 buf 1.

Definition hdr_msg_id (buf : mem) : Z := rd16 buf 3.

Definition qmi_invoke_handler (from : sockaddr_qrtr) (a : Z) (buf : mem) (len : Z) : M unit :=
  hs <-- hget handlers ;;;
  match hs with
  | None => mret tt
  | Some hs =>
      found <-- or_fault (find_handler hs (hdr_type buf) (hdr_msg_id buf)) ;;;
      match found with
      | None => mret tt
      | Some (fn, h) =>
          dest <-- kzalloc ;;;
          match dest with
          | None => mret tt
          | Some dest =>
              r <-- or_fault (qmi_decode_message (e_depth env) buf (Some 0) len (h_ei h) (fun _ => 0) (Some dest)) ;;;
              let '(ret, m) := r in
              (if ret <? 0 then mret tt else emit (EvFn fn from a) ;;; c_fn env fn from a m dest) ;;;
              kfree dest
          end
      end
  end.

(** A response is for the transaction with its number. *)
Definition handle_response (from : sockaddr_qrtr) (buf : mem) (len : Z) : M unit :=
  lock_txns ;;;
  x <-- hget txns ;;;
  match xa_load x (hdr_txn_id buf) with
  | None => unlock_txns
  | Some a =>
      t <-- get_txn a ;;;
      match t_dest t, t_ei t with
      | Some dest, Some ei =>
          m <-- gets q_mem ;;;
          r <-- or_fault (qmi_decode_message (e_depth env) buf (Some 0) len (Some ei) m (Some dest)) ;;;
          let '(ret, m) := r in
          modify (fun q => q <| q_mem := m |>) ;;;
          set_txn a (t <| t_result := ret |>) ;;;
          complete a
      | _, _ => qmi_invoke_handler from a buf len
      end ;;;
      unlock_txns
  end.

(** [struct qmi_txn tmp_txn] lives until the function returns. *)
Definition qmi_handle_message (from : sockaddr_qrtr) (buf : mem) (len : Z) : M unit :=
  if len <? sizeof_qmi_header then mret tt
  else if hdr_type buf =? QMI_RESPONSE then handle_response from buf len
  else
    n <-- fresh ;;;
    let tmp := Z.of_nat n in
    set_txn tmp (mk_txn false (hdr_txn_id buf) 0 0 None None) ;;;
    qmi_invoke_handler from tmp buf len ;;;
    drop_txn tmp.

(** ** Sockets *)

(** [sk_data_ready] and [sk_error_report] of the socket. *)
Definition qmi_data_ready (s : Z) : M unit :=
  x <-- get_ksock s ;;;
  if negb (ks_user x) then mret tt
  else
    w <-- hget wq ;;;
    live <-- gets q_live ;;;
    if decide (w ∈ live) then hmod (fun h => h <| work := true |>) else fault.

Definition qmi_sock_create : M (result (Z * sockaddr_qrtr)) :=
  n <-- fresh ;;;
  let ret := e_sock_create env n in
  if ret <? 0 then mret (Err ret)
  else
    let s := Z.of_nat n in
    set_ksock s (mk_ksock false []) ;;;
    let '(ret, a) := e_getsockname env s in
    if ret <? 0 then sock_release s ;;; mret (Err ret)
    else
      x <-- get_ksock s ;;;
      set_ksock s (mk_ksock true (ks_rx x)) ;;;
      mret (Ok (s, a)).

Definition qmi_handle_net_reset : M unit :=
  r <-- qmi_sock_create ;;;
  match r with
  | Err _ => mret tt
  | Ok (s, a) =>
      lock_sock ;;;
      k <-- hget sock ;;;
      match k with Sock k => sock_release k | _ => fault end ;;;
      hmod (fun h => h <| sock := SockNull |>) ;;;
      unlock_sock ;;;
      qmi_recv_del_server WILDCARD WILDCARD ;;;
      o <-- hget ops ;;;
      (if has_net_reset o then c_net_reset env ;;; emit EvNetReset else mret tt) ;;;
      lock_sock ;;;
      hmod (fun h => h <| sock := Sock s |> <| sq := a |>) ;;;
      unlock_sock ;;;
      ls <-- hget lookups ;;;
      for_each ls qmi_send_new_lookup ;;;
      ss <-- hget services ;;;
      for_each ss qmi_send_new_server
  end.

(** One message of the receive loop; whether the loop goes on. *)
Definition recv_one : M bool :=
  buf <-- hget recv_buf ;;;
  size <-- hget recv_buf_size ;;;
  lock_sock ;;;
  k <-- hget sock ;;;
  r <-- match k with
        | SockNull => mret (- EPIPE, mk_sq 0 0)
        | SockErr _ => fault
        | Sock k => kernel_recvmsg k buf size
        end ;;;
  unlock_sock ;;;
  let '(msglen, from) := r in
  if msglen =? - EAGAIN then mret false
  else if msglen =? - ENETRESET then qmi_handle_net_reset ;;; mret false
  else if msglen <? 0 then mret false
  else
    us <-- hget sq ;;;
    m <-- hget recv_mem ;;;
    o <-- hget ops ;;;
    (if (sq_node from =? sq_node us) && (sq_port from =? QRTR_PORT_CTRL) then qmi_recv_ctrl_pkt m msglen
     else if has_msg_handler o then emit (EvMsg from msglen) ;;; c_msg_handler env from m msglen
     else qmi_handle_message from m msglen) ;;;
    mret true.

Fixpoint qmi_data_ready_work (fuel : nat) : M unit :=
  match fuel with
  | O => fun _ => NoFuel
  | S fuel => b <-- recv_one ;;; if b : bool then qmi_data_ready_work fuel else mret tt
  end.

(** ** Handles *)

Definition qmi_handle_init (size : Z) (o : option qmi_ops) (hs : option (list qmi_msg_handler)) : M Z :=
  hmod (fun h => h <| txn_lock := false |> <| sock_lock := false |> <| txns := [] |> <| txns_next := 0 |>
                   <| lookups := [] |> <| lookup_results := [] |> <| services := [] |> <| work := false |>
                   <| handlers := hs |> <| ops := default (ops h) o |>) ;;;
  let size := u64 (size + sizeof_qmi_header) in
  let size := if size <? sizeof_ctrl_pkt then sizeof_ctrl_pkt else size in
  hmod (fun h => h <| recv_buf_size := size |>) ;;;
  p <-- kzalloc ;;;
  match p with
  | None => mret (- ENOMEM)
  | Some p =>
      hmod (fun h => h <| recv_buf := p |> <| recv_mem := fun _ => 0 |>) ;;;
      w <-- kzalloc ;;;
      match w with
      | None => kfree p ;;; mret (- ENOMEM)
      | Some w =>
          hmod (fun h => h <| wq := w |>) ;;;
          r <-- qmi_sock_create ;;;
          match r with
          | Err e =>
              hmod (fun h => h <| sock := SockErr e |>) ;;;
              kfree w ;;;
              kfree p ;;;
              mret (if e =? - EAFNOSUPPORT then - EPROBE_DEFER else e)
          | Ok (s, a) => hmod (fun h => h <| sock := Sock s |> <| sq := a |>) ;;; mret 0
          end
      end
  end.

(** Every transaction is removed and completed with an error. *)
Fixpoint release_txns (fuel : nat) (id : Z) : M unit :=
  match fuel with
  | O => fun _ => NoFuel
  | S fuel =>
      x <-- hget txns ;;;
      match idr_get_next x id with
      | None => mret tt
      | Some (i, a) =>
          t <-- get_txn a ;;;
          idr_remove (t_id t) ;;;
          set_txn a (t <| t_result := - ENETRESET |>) ;;;
          complete a ;;;
          release_txns fuel (i + 1)
      end
  end.

Definition qmi_handle_release : M unit :=
  k <-- hget sock ;;;
  match k with
  | Sock s =>
      x <-- get_ksock s ;;;
      set_ksock s (mk_ksock false (ks_rx x)) ;;;
      hmod (fun h => h <| work := false |>) ;;;
      qmi_recv_del_server WILDCARD WILDCARD ;;;
      lock_sock ;;;
      sock_release s ;;;
      hmod (fun h => h <| sock := SockNull |>) ;;;
      unlock_sock ;;;
      w <-- hget wq ;;;
      kfree w ;;;
      lock_txns ;;;
      x <-- hget txns ;;;
      release_txns (S (length x)) 0 ;;;
      unlock_txns ;;;
      hmod (fun h => h <| txns := [] |>) ;;;
      p <-- hget recv_buf ;;;
      kfree p ;;;
      ls <-- hget lookups ;;;
      for_each ls (fun svc => hmod (fun h => h <| lookups := tail (lookups h) |>) ;;; kfree (svc_addr svc)) ;;;
      ss <-- hget services ;;;
      for_each ss (fun svc => hmod (fun h => h <| services := tail (services h) |>) ;;; kfree (svc_addr svc))
  | _ => fault
  end.

(** ** Sending *)

(** The message buffer, which [qmi_encode_message] allocates and frees again
    when it fails. *)
Definition qmi_send_message (to : option sockaddr_qrtr) (a ty msg_id len : Z) (ei : option (list qmi_elem_info))
  (c_struct : option Z) : M Z :=
  t <-- get_txn a ;;;
  m <-- gets q_mem ;;;
  msg <-- kzalloc ;;;
  r <-- or_fault (qmi_encode_message (e_depth env) ty msg_id len (t_id t) ei m c_struct msg) ;;;
  match r, msg with
  | Err e, Some p => kfree p ;;; mret e
  | Err e, None => mret e
  | Ok _, None => fault
  | Ok (n, mm), Some p =>
      lock_sock ;;;
      k <-- hget sock ;;;
      ret <-- match k with
              | SockNull => mret (- EPIPE)
              | SockErr _ => fault
              | Sock k => kernel_sendmsg k to (load_bytes (Z.to_nat n) mm p)
              end ;;;
      unlock_sock ;;;
      kfree p ;;;
      mret (if ret <? 0 then ret else 0)
  end.

Definition qmi_send_request (to : option sockaddr_qrtr) (a msg_id len : Z) (ei : option (list qmi_elem_info))
  (c_struct : option Z) : M Z := qmi_send_message to a QMI_REQUEST msg_id len ei c_struct.

Definition qmi_send_response (to : option sockaddr_qrtr) (a msg_id len : Z) (ei : option (list qmi_elem_info))
  (c_struct : option Z) : M Z := qmi_send_message to a QMI_RESPONSE msg_id len ei c_struct.

(** The transaction lives until the function returns. *)
Definition qmi_send_indication (to : option sockaddr_qrtr) (msg_id len : Z) (ei : option (list qmi_elem_info))
  (c_struct : option Z) : M Z :=
  n <-- fresh ;;;
  let a := Z.of_nat n in
  ret <-- qmi_txn_init a None None ;;;
  if ret <? 0 then drop_txn a ;;; mret ret
  else
    rval <-- qmi_send_message to a QMI_INDICATION msg_id len ei c_struct ;;;
    qmi_txn_cancel a ;;;
    drop_txn a ;;;
    mret rval.
End Qmi.
