(* ===== verification/QmiInv.v ===== *)
(** * QmiInv: what a QMI handle owns

    The invariant of an initialised handle, relative to what running functions
    hold (a [frame]): every live allocation has one owner, one socket is open,
    the table and the objects of the transactions agree. Then the primitive steps
    of QmiInterface.v keep it. All lemmas are about computations that return. *)
From stdpp Require Import prelude gmap list.
From S2P Require Import Prelude.
From S2P Require Import Effects.
From S2P Require Import QmiEncdec.
From S2P Require Import XArray.
From S2P Require Import Qrtr.
From S2P Require Import QrtrNs.
From S2P Require Import QmiInterface.
#[local] Open Scope kernel_scope.

(** ** Well-formed clients *)

Section Inv.
Context (depth : nat).

(** Where a response is decoded to, it fits. *)
Definition txn_fits (ei : option (list qmi_elem_info)) (dest : option Z) : Prop :=
  match ei, dest with
  | Some l, Some _ => exists size, ei_fits depth size l = true
  | _, _ => True
  end.

Fixpoint handlers_end (l : list qmi_msg_handler) : bool :=
  match l with
  | [] => false
  | h :: l' => match h_fn h with None => true | Some _ => handlers_end l' end
  end.

Definition handler_ok (h : qmi_msg_handler) : Prop :=
  match h_ei h with Some l => ei_fits depth (h_decoded_size h) l = true | None => True end.

Definition handlers_ok (hs : option (list qmi_msg_handler)) : Prop :=
  match hs with Some l => handlers_end l = true /\ Forall handler_ok l | None => True end.

Definition rx_ok (r : rx) : Prop :=
  match r with RxMsg _ data => Forall (fun b => 0 <= b < 256) data | RxErr e => 0 < e end.

(** ** The invariant *)

(** What running functions hold: transactions on their stacks, allocations, and
    the socket that will replace the closed one. [f_user] says whether the socket
    of the handle still reports to it, [f_lock] whether the table is locked. *)
Record frame := mk_frame {
  f_txn : gset Z;
  f_mem : list Z;
  f_sock : option Z;
  f_user : bool;
  f_lock : bool;
}.

Definition idle : frame := mk_frame ∅ [] None true false.

Definition push (p : Z) (fr : frame) : frame := mk_frame (f_txn fr) (p :: f_mem fr) (f_sock fr) (f_user fr) (f_lock fr).

Definition tmp (a : Z) (fr : frame) : frame := mk_frame ({[a]} ∪ f_txn fr) (f_mem fr) (f_sock fr) (f_user fr) (f_lock fr).

Definition locked (b : bool) (fr : frame) : frame := mk_frame (f_txn fr) (f_mem fr) (f_sock fr) (f_user fr) b.

(** The allocations of a handle. *)
Definition owned (h : qmi_handle) : list Z :=
  recv_buf h :: wq h :: map svc_addr (lookups h ++ lookup_results h ++ services h).

Definition outstanding (q : qmi) (a : Z) (t : qmi_txn) : Prop := xa_load (txns (q_h q)) (t_id t) = Some a.

(** Completed when its handle was released. *)
Definition was_reset (t : qmi_txn) : Prop := t_qmi t = true /\ t_result t = - ENETRESET /\ 0 < t_done t.

Definition one_socket (q : qmi) (s : Z) (user : bool) : Prop :=
  s < Z.of_nat (q_allocs q) /\ exists l, q_sk q = {[s := mk_ksock user l]} /\ Forall rx_ok l.

Definition sockets_ok (fr : frame) (q : qmi) : Prop :=
  match f_sock fr with
  | None => exists s, sock (q_h q) = Sock s /\ one_socket q s (f_user fr)
  | Some s => sock (q_h q) = SockNull /\ one_socket q s true
  end.

Record Inv (fr : frame) (q : qmi) : Prop := {
  i_nodup : NoDup (f_mem fr ++ owned (q_h q));
  i_live : q_live q = list_to_set (f_mem fr ++ owned (q_h q));
  i_old : forall p, p ∈ f_mem fr ++ owned (q_h q) -> p < Z.of_nat (q_allocs q);
  i_sock : sockets_ok fr q;
  i_slock : sock_lock (q_h q) = false;
  i_tlock : txn_lock (q_h q) = f_lock fr;
  i_sorted : xa_sorted (txns (q_h q));
  i_table : forall k a, xa_load (txns (q_h q)) k = Some a ->
    0 <= k <= txn_id_max /\ (a ∉ f_txn fr) /\
    exists t, q_txn q !! a = Some t /\ t_id t = k /\ t_qmi t = true /\ t_result t <> - ENETRESET /\
      txn_fits (t_ei t) (t_dest t) /\ 0 <= t_done t;
  i_txn : forall a t, q_txn q !! a = Some t ->
    a < Z.of_nat (q_allocs q) /\ (a ∈ f_txn fr \/ outstanding q a t \/ was_reset t);
  i_tmp : forall a, a ∈ f_txn fr -> is_Some (q_txn q !! a);
  i_handlers : handlers_ok (handlers (q_h q));
  i_size : sizeof_ctrl_pkt <= recv_buf_size (q_h q) < 2 ^ 31 - 65536;
  i_bytes : bytes_ok (recv_mem (q_h q));
}.

(** ** What calls leave alone *)

(** The fields that only the worker, [qmi_handle_init] and [qmi_handle_release]
    change. *)
Record calm (q q' : qmi) : Prop := {
  c_sock : sock (q_h q') = sock (q_h q);
  c_sq : sq (q_h q') = sq (q_h q);
  c_work : work (q_h q') = work (q_h q);
  c_wq : wq (q_h q') = wq (q_h q);
  c_buf : recv_buf (q_h q') = recv_buf (q_h q);
  c_bytes : recv_mem (q_h q') = recv_mem (q_h q);
  c_size : recv_buf_size (q_h q') = recv_buf_size (q_h q);
  c_ops : ops (q_h q') = ops (q_h q);
  c_handlers : handlers (q_h q') = handlers (q_h q);
  c_sk : q_sk q' = q_sk q;
  c_allocs : (q_allocs q <= q_allocs q')%nat;
}.

#[export] Instance calm_preorder : PreOrder calm.
Proof.
  split.
  - intros q. by split.
  - intros q1 q2 q3 [] []. split; try congruence. lia.
Qed.

Definition still (q q' : qmi) : Prop := calm q q' /\ lookup_results (q_h q') = lookup_results (q_h q).

#[export] Instance still_preorder : PreOrder still.
Proof.
  split.
  - intros q. by split.
  - intros q1 q2 q3 [H1 E1] [H2 E2]. split; [by etrans|congruence].
Qed.

(** ** Changes that keep the invariant *)

(** The invariant depends on these parts only. *)
Lemma own_ext fr fr' q q' :
  Inv fr q ->
  f_txn fr' = f_txn fr -> f_sock fr' = f_sock fr -> f_user fr' = f_user fr ->
  f_mem fr' ++ owned (q_h q') ≡ₚ f_mem fr ++ owned (q_h q) -> q_live q' = q_live q ->
  sock (q_h q') = sock (q_h q) -> q_sk q' = q_sk q -> sock_lock (q_h q') = false -> txn_lock (q_h q') = f_lock fr' ->
  txns (q_h q') = txns (q_h q) -> q_txn q' = q_txn q -> handlers (q_h q') = handlers (q_h q) ->
  recv_buf_size (q_h q') = recv_buf_size (q_h q) -> recv_mem (q_h q') = recv_mem (q_h q) ->
  (q_allocs q <= q_allocs q')%nat ->
  Inv fr' q'.
Proof.
  intros [] E1 E2 E3 Ep El Es Ek Eb Et Ex En Eh Ez Em Ea.
  assert (forall s u, one_socket q s u -> one_socket q' s u) as Hs.
  { intros s u (H1 & l & H2 & H3). split; [lia|]. exists l. by rewrite Ek. }
  split; rewrite ?E1, ?E2, ?E3, ?El, ?Es, ?Ek, ?Ex, ?En, ?Eh, ?Ez, ?Em; try done.
  - by rewrite Ep.
  - rewrite i_live0. apply set_eq. intros p. rewrite !elem_of_list_to_set. by rewrite Ep.
  - intros p Hp. rewrite Ep in Hp. specialize (i_old0 p Hp). lia.
  - unfold sockets_ok in *. rewrite E2, E3, Es. destruct (f_sock fr); [destruct i_sock0; auto|].
    destruct i_sock0 as (s & ? & ?). exists s. auto.
  - intros a t Ha. destruct (i_txn0 a t Ha) as [H1 H2]. split; [lia|]. unfold outstanding. by rewrite Ex.
Qed.

(** A change of what the invariant does not mention. *)
Definition silent (f : qmi -> qmi) : Prop :=
  forall q, q_h (f q) = q_h q /\ q_sk (f q) = q_sk q /\ q_live (f q) = q_live q /\ q_txn (f q) = q_txn q /\
    (q_allocs q <= q_allocs (f q))%nat.

Lemma silent_inv fr q f : silent f -> Inv fr q -> Inv fr (f q) /\ still q (f q).
Proof.
  intros Hf HI. destruct (Hf q) as (E1 & E2 & E3 & E4 & E5). split.
  - apply (own_ext fr fr q); try done; rewrite ?E1; try done; apply HI.
  - split; [|by rewrite E1]. by split; rewrite ?E1.
Qed.

Lemma silent_log l : silent (fun q => q <| q_log := l q |>).
Proof. intros q. by split_and!. Qed.

Lemma silent_mem m : silent (fun q => q <| q_mem := m q |>).
Proof. intros q. by split_and!. Qed.

Lemma silent_allocs n : (forall q, q_allocs q <= n q)%nat -> silent (fun q => q <| q_allocs := n q |>).
Proof. intros H q. by split_and!. Qed.

(** Locking and unlocking the table. *)
Lemma lock_inv fr q b :
  Inv fr q -> let q' := q <| q_h := (q_h q) <| txn_lock := b |> |> in Inv (locked b fr) q' /\ still q q'.
Proof.
  intros HI. cbv zeta. split; [|by split]. apply (own_ext fr (locked b fr) q); try done. apply HI.
Qed.

Lemma locked_same fr b : f_lock fr = b -> locked b fr = fr.
Proof. by destruct fr; cbn; intros ->. Qed.

Lemma locked_twice fr b b' : locked b (locked b' fr) = locked b fr.
Proof. done. Qed.

(** The socket lock is free between steps. *)
Lemma sock_lock_inv fr q :
  Inv fr q -> let q' := q <| q_h := (q_h q) <| sock_lock := false |> |> in Inv fr q' /\ still q q'.
Proof.
  intros HI. cbv zeta. split; [|by split]. apply (own_ext fr fr q); try done. apply HI.
Qed.
End Inv.

(** Two lists of owners with the same addresses. *)
Ltac owners := unfold owned; cbn; rewrite ?map_app; cbn; rewrite ?map_app; solve_Permutation.
