(* ===== verification/QmiSafe.v ===== *)
(** * QmiSafe: the functions of a QMI handle return and keep its invariant

    Every function of QmiInterface.v, run on a state with the invariant of
    QmiInv.v, returns (no fault, no deadlock) in such a state, for any client
    whose callbacks do the same. *)
From stdpp Require Import prelude gmap list.
From S2P Require Import Prelude.
From S2P Require Import Effects.
From S2P Require Import QmiEncdec.
From S2P Require Import XArray.
From S2P Require Import Qrtr.
From S2P Require Import QrtrNs.
From S2P Require Import QrtrPkt.
From S2P Require Import QmiInterface.
From S2P Require Import QmiInv.
#[local] Open Scope kernel_scope.

Section Keeps.
Context (depth : nat).

Abbreviation Inv := (Inv depth).

(** A computation that returns and keeps what a callback has to keep. *)
Definition keeps {A : Type} (fr : frame) (c : M qmi A) : Prop :=
  forall q, Inv fr q -> total (c (W q)) (fun _ q' => Inv fr q' /\ still q q').

(** What a client promises. A message handler may run while the table is locked;
    it gets a transaction that exists. *)
Record client_ok (env : qmi_env) : Prop := {
  ok_depth : e_depth env = depth;
  ok_new_server : forall svc fr, f_lock fr = false -> keeps fr (c_new_server env svc);
  ok_del_server : forall svc fr, f_lock fr = false -> keeps fr (c_del_server env svc);
  ok_net_reset : forall fr, f_lock fr = false -> keeps fr (c_net_reset env);
  ok_msg_handler : forall from m len fr, f_lock fr = false -> keeps fr (c_msg_handler env from m len);
  ok_bye : forall node fr, f_lock fr = false -> keeps fr (c_bye env node);
  ok_del_client : forall node port fr, f_lock fr = false -> keeps fr (c_del_client env node port);
  ok_fn : forall n from a m dest fr q, Inv fr q -> is_Some (q_txn q !! a) ->
    total (c_fn env n from a m dest (W q)) (fun _ q' => Inv fr q' /\ still q q');
}.

(** ** Composition *)

Lemma qmi_keeps_ret {A : Type} fr (a : A) : keeps fr (mret a).
Proof. by intros q HI. Qed.

Lemma qmi_keeps_bind {A B : Type} fr (c : M qmi A) (k : A -> M qmi B) :
  keeps fr c -> (forall a, keeps fr (k a)) -> keeps fr (mbnd c k).
Proof.
  intros Hc Hk q HI. eapply total_step; [by apply Hc|]. intros a q1 [H1 S1].
  eapply total_mono; [by apply Hk|]. intros b q2 [H2 S2]. split; [done|by etrans].
Qed.

Lemma qmi_keeps_gets {A B : Type} fr (f : qmi -> A) (k : A -> M qmi B) : (forall a, keeps fr (k a)) -> keeps fr (mbnd (gets f) k).
Proof. intros Hk q HI. apply total_gets. by apply Hk. Qed.

Lemma qmi_keeps_hget {A B : Type} fr (f : qmi_handle -> A) (k : A -> M qmi B) : (forall a, keeps fr (k a)) -> keeps fr (mbnd (hget f) k).
Proof. apply qmi_keeps_gets. Qed.

Lemma qmi_keeps_for_each {A : Type} fr (l : list A) (f : A -> M qmi unit) : (forall a, keeps fr (f a)) -> keeps fr (for_each l f).
Proof. intros Hf. induction l as [|a l IH]; cbn; [apply qmi_keeps_ret|]. by apply qmi_keeps_bind. Qed.

(** After steps that were still, a computation that keeps the invariant. *)
Lemma qmi_keeps_last {A : Type} fr (c : M qmi A) q0 q :
  keeps fr c -> Inv fr q -> still q0 q -> total (c (W q)) (fun _ q' => Inv fr q' /\ still q0 q').
Proof. intros Hc HI Hs. eapply total_mono; [by apply Hc|]. intros a q' [H1 H2]. split; [done|by etrans]. Qed.

(** ** Memory *)

(** Nothing but allocations changed. *)
Definition same_but_live (q q' : qmi) : Prop := q_h q' = q_h q /\ q_txn q' = q_txn q /\ q_mem q' = q_mem q /\ q_sk q' = q_sk q /\
  q_log q' = q_log q.

Lemma same_but_live_still q q' : same_but_live q q' -> (q_allocs q <= q_allocs q')%nat -> still q q'.
Proof. intros (E1 & E2 & E3 & E4 & E5) Ha. split; [|by rewrite E1]. by split; rewrite ?E1. Qed.

Lemma emit_keeps fr e : keeps fr (emit e).
Proof. intros q HI. split; [done|]. exact (silent_inv depth fr q _ (silent_log (fun q => e :: q_log q)) HI). Qed.

(** The next address is not in use. *)
Lemma next_unused fr q : Inv fr q -> (Z.of_nat (q_allocs q) ∉ f_txn fr) /\ q_txn q !! Z.of_nat (q_allocs q) = None.
Proof.
  intros HI. assert (q_txn q !! Z.of_nat (q_allocs q) = None) as Hn.
  { destruct (q_txn q !! _) as [t|] eqn:E; [|done]. destruct (i_txn _ _ _ HI _ t E). lia. }
  split; [|done]. intros Hin. destruct (i_tmp _ _ _ HI _ Hin) as [t Ht]. congruence.
Qed.

Lemma fresh_inv fr q : Inv fr q -> let q' := q <| q_allocs := S (q_allocs q) |> in Inv fr q' /\ still q q'.
Proof. intros HI. cbv zeta. apply (silent_inv depth fr q (fun q => q <| q_allocs := S (q_allocs q) |>)); [apply silent_allocs; lia|done]. Qed.

Context (env : qmi_env).

Lemma kzalloc_total fr q :
  Inv fr q ->
  total (kzalloc env (W q)) (fun o q' =>
    same_but_live q q' /\ still q q' /\ match o with Some p => Inv (push p fr) q' | None => Inv fr q' end).
Proof.
  intros HI. destruct (fresh_inv fr q HI) as [H1 S1]. cbv zeta in *. unfold kzalloc, fresh.
  rewrite run_assoc, run_gets, run_assoc, run_modify, run_ret. cbn [w_st W]. destruct (e_alloc env (q_allocs q)).
  2: { split; [done|]. split; [by split_and!|]. by split. }
  split; [done|]. split; [by split_and!|]. split; [apply same_but_live_still; [by split_and!|cbn; lia]|].
  assert (Z.of_nat (q_allocs q) ∉ f_mem fr ++ owned (q_h q)) as Hn.
  { intros Hin. pose proof (i_old _ _ _ HI _ Hin). lia. }
  destruct H1. split; cbn -[Z.of_nat]; try done.
  - by constructor.
  - f_equal. exact i_live.
  - intros p [->|Hp]%elem_of_cons; [lia|]. by apply i_old.
Qed.

Lemma kfree_total fr p q :
  Inv (push p fr) q -> total (kfree p (W q)) (fun _ q' => same_but_live q q' /\ still q q' /\ Inv fr q').
Proof.
  intros HI. unfold kfree. apply total_gets. pose proof (i_live _ _ _ HI) as El. pose proof (i_nodup _ _ _ HI) as Hd.
  cbn [push f_mem app] in El, Hd. apply NoDup_cons in Hd as [Hp Hd]. rewrite decide_True by (rewrite El; apply elem_of_list_to_set; left).
  split; [done|]. split; [by split_and!|]. split; [by apply same_but_live_still|].
  destruct HI. split; cbn; try done.
  - rewrite El, list_to_set_cons. apply set_eq. intros x. rewrite elem_of_difference, elem_of_union, !elem_of_singleton, elem_of_list_to_set.
    split; [intros [[->|Hx] Hn]; done|]. intros Hx. split; [by right|]. intros ->. done.
  - intros x Hx. apply i_old. by right.
Qed.

(** ** Locks and sockets *)

Lemma total_lock_txns {B : Type} fr q (k : unit -> M qmi B) Q :
  Inv fr q -> f_lock fr = false ->
  (let q' := q <| q_h := (q_h q) <| txn_lock := true |> |> in Inv (locked true fr) q' -> still q q' -> total (k tt (W q')) Q) ->
  total (mbnd lock_txns k (W q)) Q.
Proof.
  intros HI Hl Hk. unfold lock_txns. rewrite run_assoc. apply total_wait; [by rewrite (i_tlock _ _ _ HI), Hl|].
  apply total_modify.
  destruct (lock_inv depth fr q true HI) as [H1 H2]. by apply Hk.
Qed.

Lemma unlock_txns_total fr q :
  Inv (locked true fr) q -> f_lock fr = false ->
  total (unlock_txns (W q)) (fun _ q' => Inv fr q' /\ still q q' /\ q' = q <| q_h := (q_h q) <| txn_lock := false |> |>).
Proof.
  intros HI Hl. destruct (lock_inv _ _ q false HI) as [H1 H2]. rewrite locked_twice, locked_same in H1 by done.
  split; [done|]. by split.
Qed.

Lemma run_sendmsg s x dest data q :
  q_sk q !! s = Some x ->
  let ret := e_send env s dest data (length (q_log q)) in
  kernel_sendmsg env s dest data (W q) = Ret ret (W (q <| q_log := EvSend s dest data ret :: q_log q |>)).
Proof. intros E. unfold kernel_sendmsg, get_ksock. rewrite !run_assoc, run_gets. cbn [w_st W]. by rewrite E. Qed.

(** The socket of a handle is open or null. *)
Lemma sock_cases fr q : Inv fr q -> sock (q_h q) = SockNull \/ exists s x, sock (q_h q) = Sock s /\ q_sk q !! s = Some x.
Proof.
  intros HI. pose proof (i_sock _ _ _ HI) as H. unfold sockets_ok in H. destruct (f_sock fr); [by left; destruct H|right].
  destruct H as (s & E & _ & l & Ek & _). exists s, (mk_ksock (f_user fr) l). split; [done|]. rewrite Ek. apply lookup_singleton_eq.
Qed.

(** The state after a send, whose result is in the log. *)
Lemma sent_inv fr q log :
  Inv fr q ->
  let q' := q <| q_log := log |> <| q_h := (q_h q) <| sock_lock := true |> <| sock_lock := false |> |> in
  Inv fr q' /\ still q q' /\ q_txn q' = q_txn q /\ q_mem q' = q_mem q.
Proof.
  intros HI. cbv zeta. split; [|by split]. apply (own_ext depth fr fr q); try done. apply HI.
Qed.

Definition slocked (q : qmi) : qmi := q <| q_h := (q_h q) <| sock_lock := true |> |>.

Lemma total_lock_sock {B : Type} fr q (k : unit -> M qmi B) Q :
  Inv fr q -> total (k tt (W (slocked q))) Q -> total (mbnd lock_sock k (W q)) Q.
Proof.
  intros HI Hk. unfold lock_sock. rewrite run_assoc. apply total_wait; [by rewrite (i_slock _ _ _ HI)|].
  by apply total_modify.
Qed.

Lemma send_ctrl_keeps fr p : keeps fr (send_ctrl env p).
Proof.
  intros q HI. unfold send_ctrl. apply total_gets. apply (total_lock_sock fr); [done|]. apply total_gets.
  change (sock (q_h (slocked q))) with (sock (q_h q)).
  destruct (sock_cases fr q HI) as [E|(s & x & E & Ex)]; rewrite E.
  - split; [done|]. destruct (sent_inv fr q (q_log q) HI) as (H1 & H2 & _). split; [exact H1|exact H2].
  - rewrite run_assoc. apply total_bind. rewrite (run_sendmsg s x) by done. split; [done|]. split; [done|].
    edestruct (sent_inv fr q) as (H1 & H2 & _); [exact HI|]. split; [exact H1|exact H2].
Qed.

(** ** Transactions in the heap and in the table *)

(** The transactions and the table change, nothing else of the invariant. *)
Definition same_but_txns (q q' : qmi) : Prop :=
  still q q' /\ q_live q' = q_live q /\ q_allocs q' = q_allocs q /\ owned (q_h q') = owned (q_h q) /\
  sock_lock (q_h q') = sock_lock (q_h q) /\ txn_lock (q_h q') = txn_lock (q_h q).

Lemma txns_inv fr fr' q q' :
  Inv fr q -> f_mem fr' = f_mem fr -> f_sock fr' = f_sock fr -> f_user fr' = f_user fr -> f_lock fr' = f_lock fr ->
  same_but_txns q q' ->
  xa_sorted (txns (q_h q')) ->
  (forall k a, xa_load (txns (q_h q')) k = Some a -> 0 <= k <= txn_id_max /\ (a ∉ f_txn fr') /\
    exists t, q_txn q' !! a = Some t /\ t_id t = k /\ t_qmi t = true /\ t_result t <> - ENETRESET /\
      txn_fits depth (t_ei t) (t_dest t) /\ 0 <= t_done t) ->
  (forall a t, q_txn q' !! a = Some t ->
    a < Z.of_nat (q_allocs q) /\ (a ∈ f_txn fr' \/ xa_load (txns (q_h q')) (t_id t) = Some a \/ was_reset t)) ->
  (forall a, a ∈ f_txn fr' -> is_Some (q_txn q' !! a)) ->
  Inv fr' q' /\ still q q'.
Proof.
  intros [] E1 E2 E3 E4 (Hst & El & Ea & Eo & Es & Et) Hs Ht Hx Hp. split; [|done]. destruct Hst as [[] ?].
  split; rewrite ?E1, ?E4, ?El, ?Eo, ?Ea, ?Es, ?Et; try done; try congruence.
  - unfold sockets_ok, one_socket in *. by rewrite E2, E3, c_sock, c_sk, Ea.
  - by rewrite c_bytes.
Qed.

Lemma put_tmp_inv fr q a t :
  Inv fr q -> q_txn q !! a = None -> a < Z.of_nat (q_allocs q) ->
  let q' := q <| q_txn := <[a := t]> (q_txn q) |> in Inv (tmp a fr) q' /\ still q q'.
Proof.
  intros HI Hn Ha. apply (txns_inv fr (tmp a fr) q _ HI); try done; [apply HI|..]; cbn [q_h q_txn txns set_field].
  - intros k b Hk. destruct (i_table _ _ _ HI k b Hk) as (? & ? & u & Hu & ?). assert (a <> b) by congruence.
    split; [done|]. split; [cbn; set_solver|]. exists u. by rewrite lookup_insert_ne.
  - intros b u Hb. destruct (decide (a = b)) as [<-|Hne]; [split; [done|left; cbn; set_solver]|].
    rewrite lookup_insert_ne in Hb by done. destruct (i_txn _ _ _ HI b u Hb) as [? [?|?]]; (split; [done|]); [left; cbn; set_solver|by right].
  - intros b Hb. destruct (decide (a = b)) as [<-|Hne]; [rewrite lookup_insert_eq; eauto|]. rewrite lookup_insert_ne by done.
    apply (i_tmp _ _ _ HI). cbn in Hb. set_solver.
Qed.

(** A temporary goes. *)
Lemma drop_tmp_inv fr q a :
  Inv (tmp a fr) q -> a ∉ f_txn fr ->
  let q' := q <| q_txn := delete a (q_txn q) |> in Inv fr q' /\ still q q'.
Proof.
  intros HI Ha. apply (txns_inv (tmp a fr) fr q _ HI); try done; [apply HI|..]; cbn [q_h q_txn txns set_field].
  - intros k b Hk. destruct (i_table _ _ _ HI k b Hk) as (? & Hb & u & Hu & ?). cbn in Hb. split; [done|]. split; [set_solver|].
    exists u. rewrite lookup_delete_ne; [done|set_solver].
  - intros b u Hb. apply lookup_delete_Some in Hb as [Hne Hb]. destruct (i_txn _ _ _ HI b u Hb) as [? [Hin|?]]; (split; [done|]); [|by right].
    left. cbn in Hin. set_solver.
  - intros b Hb. rewrite lookup_delete_ne by set_solver. apply (i_tmp _ _ _ HI). cbn. set_solver.
Qed.

(** A temporary gets a number. *)
Lemma store_txn_inv fr q a t i next :
  Inv (tmp a fr) q -> a ∉ f_txn fr -> q_txn q !! a = Some t ->
  t_qmi t = true -> t_result t <> - ENETRESET -> txn_fits depth (t_ei t) (t_dest t) -> 0 <= t_done t ->
  xa_load (txns (q_h q)) i = None -> 0 <= i <= txn_id_max ->
  let q' := q <| q_h := (q_h q) <| txns := xa_store (txns (q_h q)) i a |> <| txns_next := next |> |>
              <| q_txn := <[a := t <| t_id := i |>]> (q_txn q) |> in
  Inv fr q' /\ still q q'.
Proof.
  intros HI Ha Et Hq Hr Hf Hd Hi Hm. apply (txns_inv (tmp a fr) fr q _ HI); try done; cbn [q_h q_txn txns set_field].
  - apply xa_sorted_store, HI.
  - intros k b. rewrite xa_load_store by apply HI. destruct (Z.eqb_spec i k) as [<-|Hk].
    + intros [= <-]. split; [done|]. split; [done|]. eexists. by rewrite lookup_insert_eq.
    + intros Hb. destruct (i_table _ _ _ HI k b Hb) as (? & Hn & u & Hu & ?). cbn in Hn. split; [done|]. split; [set_solver|].
      exists u. rewrite lookup_insert_ne; [done|set_solver].
  - intros b u Hb. destruct (decide (a = b)) as [<-|Hne].
    + rewrite lookup_insert_eq in Hb. simplify_eq. cbn -[xa_store]. split; [by apply (i_txn _ _ _ HI a t)|]. right. left.
      rewrite xa_load_store by apply HI. by rewrite Z.eqb_refl.
    + rewrite lookup_insert_ne in Hb by done. destruct (i_txn _ _ _ HI b u Hb) as [? [Hin|[Ho|?]]]; (split; [done|]); [left; cbn in Hin; set_solver| |auto].
      right. left. rewrite xa_load_store by apply HI. destruct (Z.eqb_spec i (t_id u)) as [E|]; [|done].
      unfold outstanding in Ho. congruence.
  - intros b Hb. rewrite lookup_insert_ne by set_solver. apply (i_tmp _ _ _ HI). cbn. set_solver.
Qed.

(** An outstanding transaction becomes a temporary. *)
Lemma erase_txn_inv fr q a t :
  Inv fr q -> q_txn q !! a = Some t -> outstanding q a t ->
  let q' := q <| q_h := (q_h q) <| txns := xa_erase (txns (q_h q)) (t_id t) |> |> in
  Inv (tmp a fr) q' /\ still q q'.
Proof.
  intros HI Et Ho. apply (txns_inv fr (tmp a fr) q _ HI); try done; cbn [q_h q_txn txns set_field].
  - apply xa_sorted_erase, HI.
  - intros k b. rewrite xa_load_erase. destruct (Z.eqb_spec (t_id t) k) as [|Hk]; [done|].
    intros Hb. destruct (i_table _ _ _ HI k b Hb) as (? & Hn & u & Hu & Hid & ?). assert (a <> b) by congruence.
    split; [done|]. split; [cbn; set_solver|]. by exists u.
  - intros b u Hb. destruct (i_txn _ _ _ HI b u Hb) as [? Hc]. split; [done|].
    destruct (decide (a = b)) as [<-|Hne]; [left; cbn; set_solver|].
    destruct Hc as [Hin|[Hx|?]]; [left; cbn; set_solver| |auto]. right. left. rewrite xa_load_erase.
    unfold outstanding in *. destruct (Z.eqb_spec (t_id t) (t_id u)) as [E|]; [congruence|done].
  - intros b Hb. destruct (decide (a = b)) as [<-|]; [eauto|]. apply (i_tmp _ _ _ HI). cbn in Hb. set_solver.
Qed.

(** A transaction gets another result or count. *)
Lemma update_txn_inv fr q a t t' :
  Inv fr q -> q_txn q !! a = Some t ->
  t_id t' = t_id t -> t_qmi t' = t_qmi t -> t_ei t' = t_ei t -> t_dest t' = t_dest t ->
  (t_result t' = t_result t /\ t_done t <= t_done t') \/ (t_result t <> - ENETRESET /\ t_result t' <> - ENETRESET /\ 0 <= t_done t') ->
  let q' := q <| q_txn := <[a := t']> (q_txn q) |> in Inv fr q' /\ still q q'.
Proof.
  intros HI Et E1 E2 E3 E4 Hr. apply (txns_inv fr fr q _ HI); try done; [apply HI|..]; cbn [q_h q_txn txns set_field].
  - intros k b Hk. destruct (i_table _ _ _ HI k b Hk) as (? & ? & u & Hu & ? & ? & ? & ? & ?). split; [done|]. split; [done|].
    destruct (decide (a = b)) as [<-|Hne]; [|exists u; by rewrite lookup_insert_ne].
    exists t'. rewrite lookup_insert_eq. simplify_eq. rewrite E2, E3, E4. split_and!; try done; [destruct Hr as [[-> ?]|(? & ? & ?)]; done|lia].
  - intros b u Hb. destruct (decide (a = b)) as [<-|Hne]; [|rewrite lookup_insert_ne in Hb by done; by apply (i_txn _ _ _ HI)].
    rewrite lookup_insert_eq in Hb. simplify_eq. destruct (i_txn _ _ _ HI a t Et) as [? Hc]. split; [done|].
    unfold outstanding, was_reset in *. rewrite E1, E2. destruct Hr as [[-> Hd]|(? & ? & ?)]; [|naive_solver].
    destruct Hc as [?|[?|(? & ? & ?)]]; [auto|auto|]. right. right. split_and!; [done|done|lia].
  - intros b Hb. destruct (decide (a = b)) as [<-|]; [rewrite lookup_insert_eq; eauto|]. rewrite lookup_insert_ne by done.
    by apply (i_tmp _ _ _ HI).
Qed.

(** ** Registrations *)

Lemma add_lookup_keeps fr service version instance : keeps fr (qmi_add_lookup env service version instance).
Proof.
  intros q HI. unfold qmi_add_lookup. eapply total_step; [by apply kzalloc_total|]. intros [p|] q1 (_ & S1 & H1); [|by split].
  apply total_modify. eapply total_step; [apply send_ctrl_keeps|].
  2: { intros [] q2 [H2 S2]. apply total_ret. split; [exact H2|]. etrans; [exact S1|]. etrans; [|exact S2]. by split. }
  apply (own_ext depth (push p fr) fr q1); try done; try apply H1. owners.
Qed.

Lemma add_server_keeps fr service version instance : keeps fr (qmi_add_server env service version instance).
Proof.
  intros q HI. unfold qmi_add_server. eapply total_step; [by apply kzalloc_total|]. intros [p|] q1 (_ & S1 & H1); [|by split].
  apply total_modify. unfold qmi_send_new_server. rewrite run_assoc. apply total_gets. eapply total_step; [apply send_ctrl_keeps|].
  2: { intros [] q2 [H2 S2]. apply total_ret. split; [exact H2|]. etrans; [exact S1|]. etrans; [|exact S2]. by split. }
  apply (own_ext depth (push p fr) fr q1); try done; try apply H1. owners.
Qed.

Lemma new_server_keeps fr service instance node port :
  client_ok env -> f_lock fr = false -> 
  forall q, Inv fr q -> total (qmi_recv_new_server env service instance node port (W q)) (fun _ q' => Inv fr q' /\ calm q q').
Proof.
  intros Hc Hl q HI. unfold qmi_recv_new_server. apply total_gets.
  destruct (negb _); [split; [done|by split; [|reflexivity]]|]. destruct (_ && _); [split; [done|by split; [|reflexivity]]|].
  eapply total_step; [by apply kzalloc_total|]. intros [p|] q1 (_ & S1 & H1); [|split; [done|split; [done|apply S1]]].
  cbv zeta. eapply total_step; [by apply (ok_new_server env Hc _ (push p fr))|]. intros ret q2 [H2 S2].
  eapply total_step; [by apply (emit_keeps (push p fr))|]. intros [] q3 [H3 S3].
  assert (still q q3) as S by (etrans; [exact S1|]; etrans; [exact S2|exact S3]). destruct (ret <? 0).
  - eapply total_mono; [by apply kfree_total|]. intros [] q4 (_ & S4 & H4). split; [done|]. etrans; [apply S|apply S4].
  - split; [done|]. split; [|etrans; [apply S|by split]].
    apply (own_ext depth (push p fr) fr q3); try done; try apply H3. owners.
Qed.

(** ** Transactions *)

Context {XC : XaCyclic} {XL : XaCyclicLaws XC}.

Lemma total_get_txn {B : Type} a t (k : qmi_txn -> M qmi B) q Q :
  q_txn q !! a = Some t -> total (k t (W q)) Q -> total (mbnd (get_txn a) k (W q)) Q.
Proof. intros E Hk. unfold get_txn. rewrite run_assoc, run_gets. cbn [w_st W]. by rewrite E. Qed.

(** A temporary may hold anything. *)
Lemma set_tmp_inv fr q a t :
  Inv fr q -> a ∈ f_txn fr -> let q' := q <| q_txn := <[a := t]> (q_txn q) |> in Inv fr q' /\ still q q'.
Proof.
  intros HI Ha. apply (txns_inv fr fr q _ HI); try done; [apply HI|..]; cbn [q_h q_txn txns set_field].
  - intros k b Hk. destruct (i_table _ _ _ HI k b Hk) as (? & ? & u & Hu & ?). split; [done|]. split; [done|].
    exists u. rewrite lookup_insert_ne; [done|]. by intros <-.
  - intros b u Hb. destruct (decide (a = b)) as [<-|Hne]; [|rewrite lookup_insert_ne in Hb by done; by apply (i_txn _ _ _ HI)].
    split; [|by left]. destruct (i_tmp _ _ _ HI a Ha) as [v Hv]. by apply (i_txn _ _ _ HI a v).
  - intros b Hb. destruct (decide (a = b)) as [<-|]; [rewrite lookup_insert_eq; eauto|]. rewrite lookup_insert_ne by done.
    by apply (i_tmp _ _ _ HI).
Qed.

Lemma tmp_in a fr : a ∈ f_txn (tmp a fr).
Proof. apply elem_of_union_l, elem_of_singleton. done. Qed.

(** What [qmi_txn_init] leaves: the transaction is in the table under the number
    returned, or not at all. *)
Definition txn_made (fr : frame) (q : qmi) (a : Z) (ei : option (list qmi_elem_info)) (dest : option Z) (ret : Z) (q' : qmi) : Prop :=
  still q q' /\ q_mem q' = q_mem q /\ q_log q' = q_log q /\
  q_txn q' = <[a := mk_txn true (u16 ret) 0 0 ei dest]> (q_txn q) /\
  if ret <? 0 then Inv (tmp a fr) q'
  else Inv fr q' /\ 0 <= ret <= txn_id_max /\ xa_load (txns (q_h q')) ret = Some a.

Lemma txn_init_fails fr q q' a ei dest ret :
  Inv (locked true (tmp a fr)) q' -> f_lock fr = false -> still q q' -> q_mem q' = q_mem q -> q_log q' = q_log q ->
  q_txn q' = <[a := mk_txn true 0 0 0 ei dest]> (q_txn q) -> ret < 0 ->
  total ((t <-- get_txn a ;;; set_txn a (t <| t_id := u16 ret |>) ;;; unlock_txns ;;; mret ret) (W q')) (txn_made fr q a ei dest).
Proof.
  intros HI Hl Hs Em El Et Hr. eapply total_get_txn; [rewrite Et; apply lookup_insert_eq|]. apply total_modify.
  destruct (set_tmp_inv _ q' a (mk_txn true (u16 ret) 0 0 ei dest) HI (tmp_in a fr)) as [H1 S1].
  eapply total_step; [by apply (unlock_txns_total (tmp a fr)); [exact H1|]|]. intros [] q2 (H2 & S2 & ->). apply total_ret.
  split; [etrans; [exact Hs|]; by etrans|]. split; [done|]. split; [done|].
  split; [cbn; rewrite Et; apply insert_insert_eq|]. by rewrite (proj2 (Z.ltb_lt _ _) Hr).
Qed.

Lemma txn_init_total fr q a ei dest :
  Inv fr q -> f_lock fr = false -> a ∉ f_txn fr -> q_txn q !! a = None -> a < Z.of_nat (q_allocs q) -> txn_fits depth ei dest ->
  total (qmi_txn_init env a ei dest (W q)) (txn_made fr q a ei dest).
Proof.
  intros HI Hl Hta Hn Ha Hf. unfold qmi_txn_init. apply total_modify.
  destruct (put_tmp_inv fr q a (mk_txn true 0 0 0 ei dest) HI Hn Ha) as [H1 S1]. cbv zeta in *.
  apply (total_lock_txns (tmp a fr)); [done|done|]. intros q2 H2 S2.
  unfold txn_id_alloc, fresh. rewrite !run_assoc, run_gets, run_assoc, run_modify, run_ret.
  destruct (fresh_inv _ q2 H2) as [H3 S3]. cbv zeta in H3, S3.
  assert (still q (q2 <| q_allocs := S (q_allocs q2) |>)) as S by (etrans; [exact S1|]; by etrans).
  destruct (negb _); [by apply txn_init_fails|]. rewrite run_assoc. apply total_gets. rewrite run_assoc. apply total_gets.
  cbn [w_st W with_st w_sched]. change (txns (q_h (q2 <| q_allocs := _ |>))) with (txns (q_h q)).
  destruct (xa_alloc_cyclic _ _ _ _) as [[i next]|] eqn:Ex; [|by apply txn_init_fails].
  apply cyclic_in_range in Ex as [Hi Hx]; [|done]. rewrite run_assoc. apply total_modify. rewrite run_ret.
  eapply total_get_txn; [apply lookup_insert_eq|]. apply total_modify.
  assert (u16 i = i) as Ei by (apply Z.mod_small; unfold txn_id_max in Hi; lia).
  destruct (store_txn_inv (locked true fr) _ a (mk_txn true 0 0 0 ei dest) i next H3) as [H4 S4]; try done; [apply lookup_insert_eq|].
  eapply total_step; [apply (unlock_txns_total fr); [|done]|].
  { unfold set_field at 6. rewrite Ei. exact H4. }
  intros [] q5 (H5 & S5 & ->). apply total_ret. split; [by etrans; [exact S|]|]. split; [done|]. split; [done|].
  split; [cbn; apply insert_insert_eq|]. rewrite (proj2 (Z.ltb_ge _ _)) by lia. split; [done|]. split; [done|].
  cbn. rewrite xa_load_store by apply HI. by rewrite Z.eqb_refl.
Qed.

(** A transaction that is not in the table may count as a temporary. *)
Lemma reset_tmp fr q a t : Inv fr q -> q_txn q !! a = Some t -> was_reset t -> Inv (tmp a fr) q.
Proof.
  intros HI Et (Hq & Hr & Hd). assert (forall k b, xa_load (txns (q_h q)) k = Some b -> b <> a) as Hn.
  { intros k b Hk ->. destruct (i_table _ _ _ HI k a Hk) as (_ & _ & u & Hu & _ & _ & Hu' & _). congruence. }
  apply (txns_inv fr (tmp a fr) q q HI); try done.
  - apply HI.
  - intros k b Hk. destruct (i_table _ _ _ HI k b Hk) as (? & Hb & ?). specialize (Hn k b Hk). split; [done|]. split; [|done]. cbn. set_solver.
  - intros b u Hu. destruct (i_txn _ _ _ HI b u Hu) as [? [Hb|?]]; (split; [done|]); [left; cbn; set_solver|by right].
  - intros b Hb. destruct (decide (a = b)) as [<-|]; [eauto|]. apply (i_tmp _ _ _ HI). cbn in Hb. set_solver.
Qed.

Lemma outstanding_fits fr q a t :
  Inv fr q -> q_txn q !! a = Some t -> outstanding q a t ->
  t_qmi t = true /\ t_result t <> - ENETRESET /\ txn_fits depth (t_ei t) (t_dest t) /\ 0 <= t_done t /\ a ∉ f_txn fr.
Proof.
  intros HI Et Ho. destruct (i_table _ _ _ HI _ _ Ho) as (_ & Hn & u & Hu & _ & H1 & H2 & H3 & H4). simplify_eq. by split_and!.
Qed.

(** The transaction is out of the table. *)
Definition removed (fr : frame) (q : qmi) (a : Z) (t : qmi_txn) (q' : qmi) : Prop :=
  Inv (tmp a fr) q' /\ still q q' /\ q_txn q' = q_txn q /\ q_mem q' = q_mem q /\ q_log q' = q_log q /\
  txns (q_h q') = xa_erase (txns (q_h q)) (t_id t).

(** [idr_remove] of an outstanding transaction and the unlocking after it. *)
Lemma remove_total fr q a t :
  f_lock fr = false -> Inv fr q -> q_txn q !! a = Some t -> outstanding q a t ->
  let q1 := q <| q_h := (q_h q) <| txn_lock := true |> |> in
  Inv (locked true fr) q1 -> still q q1 ->
  total ((idr_remove (t_id t) ;;; unlock_txns) (W q1)) (fun _ => removed fr q a t).
Proof.
  intros Hl HI Et Ho q1 H1 S1. apply total_modify.
  destruct (erase_txn_inv _ q1 a t H1 Et Ho) as [H2 S2]. eapply total_mono; [by apply (unlock_txns_total (tmp a fr)); [exact H2|]|].
  intros [] q3 (H3 & S3 & ->). split; [done|]. split; [etrans; [exact S1|]; by etrans|]. done.
Qed.

Lemma cancel_total fr q a t :
  Inv fr q -> f_lock fr = false -> q_txn q !! a = Some t -> outstanding q a t ->
  total (qmi_txn_cancel a (W q)) (fun _ => removed fr q a t).
Proof.
  intros HI Hl Et Ho. destruct (outstanding_fits fr q a t HI Et Ho) as (Hq & _). unfold qmi_txn_cancel, txn_handle.
  rewrite run_assoc. eapply total_get_txn; [exact Et|]. rewrite Hq, run_ret. apply (total_lock_txns fr); [done|done|].
  intros q1 H1 S1. eapply total_get_txn; [exact Et|]. by apply remove_total.
Qed.

(** What a wait returns: an error of a closed handle, a timeout, or the result. *)
Definition wait_value (t : qmi_txn) (ret : Z) : Z :=
  if t_result t =? - ENETRESET then - ENETRESET else if ret =? 0 then - ETIMEDOUT else t_result t.

(** A wait ends with the transaction out of the table. *)
Definition waited (fr : frame) (q : qmi) (a : Z) (t : qmi_txn) (q' : qmi) : Prop :=
  removed fr q a t q' \/ (was_reset t /\ q' = q /\ Inv (tmp a fr) q).

Lemma wait_rest_total fr q a t ret :
  Inv fr q -> f_lock fr = false -> a ∉ f_txn fr -> q_txn q !! a = Some t ->
  total (txn_wait_rest a ret (W q)) (fun v q' => v = wait_value t ret /\ waited fr q a t q').
Proof.
  intros HI Hl Ha Et. unfold txn_wait_rest, wait_value. eapply total_get_txn; [exact Et|].
  pose proof (i_txn _ _ _ HI a t Et) as [_ Hc]. destruct (Z.eqb_spec (t_result t) (- ENETRESET)) as [E|E].
  { split; [done|]. split; [done|]. right. destruct Hc as [?|[Ho|Hr]]; [done| |].
    - destruct (outstanding_fits fr q a t HI Et Ho) as (_ & ? & _). done.
    - split; [done|]. split; [done|]. by eapply reset_tmp. }
  assert (outstanding q a t) as Ho by (destruct Hc as [?|[?|(? & ? & ?)]]; done).
  apply (total_lock_txns fr); [done|done|]. intros q1 H1 S1. rewrite <- run_assoc.
  eapply total_step; [by apply (remove_total fr q a t)|]. intros [] q' Hr. pose proof Hr as (_ & _ & Et' & _). destruct (ret =? 0); [by split; [|split; [|left]]|].
  eapply total_get_txn; [by rewrite Et'|]. by split; [|split; [|left]].
Qed.

Lemma waited_inv fr q a t q' : waited fr q a t q' -> Inv (tmp a fr) q' /\ still q q' /\ q_mem q' = q_mem q.
Proof. intros [(H1 & H2 & _ & H3 & _)|(_ & -> & H)]; [done|]. by split_and!. Qed.

(** The whole wait, when no other thread runs meanwhile: a completion that was
    signalled is taken. *)
Definition wait_left (t : qmi_txn) : Z := if 0 <? t_done t then s32 (e_jiffies env) else 0.

Lemma txn_wait_total fr q a t :
  Inv fr q -> f_lock fr = false -> a ∉ f_txn fr -> q_txn q !! a = Some t ->
  total (qmi_txn_wait env a (W q)) (fun v q' =>
    v = wait_value t (wait_left t) /\ Inv (tmp a fr) q' /\ still q q' /\ q_mem q' = q_mem q).
Proof.
  intros HI Hl Ha Et. unfold qmi_txn_wait, txn_handle. rewrite run_assoc. eapply total_get_txn; [exact Et|].
  pose proof (i_txn _ _ _ HI a t Et) as [_ Hcase].
  assert (t_qmi t = true) as ->.
  { destruct Hcase as [?|[Ho|[]]]; [done|by apply (outstanding_fits fr q a t)|done]. }
  rewrite run_ret. unfold wait_for_completion_timeout, wait_left. rewrite run_assoc. apply total_bind.
  assert (wait_upto (e_wait env) (completed a) (W q) = Ret (0 <? t_done t) (W q)) as ->.
  { assert (completed a q = (0 <? t_done t)) as E by (unfold completed; by rewrite Et).
    unfold wait_upto, W. destruct (e_wait env); cbn; rewrite E; by destruct (0 <? t_done t). }
  split; [done|]. cbn [w_st W]. destruct (0 <? t_done t) eqn:Ed; zbool.
  2: { rewrite run_ret. eapply total_mono; [by apply (wait_rest_total fr)|]. intros v q' [-> Hw].
       split; [done|]. by apply (waited_inv fr q a t). }
  rewrite !run_assoc. eapply total_get_txn; [exact Et|]. rewrite run_assoc. apply total_modify. rewrite run_ret.
  set (t1 := t <| t_done := t_done t - 1 |>). destruct Hcase as [?|[Ho|Hr]]; [done| |].
  - destruct (outstanding_fits fr q a t HI Et Ho) as (_ & Hn & _).
    destruct (update_txn_inv fr q a t t1 HI Et) as [H1 S1]; try done; [right; split; [done|]; split; [done|cbn; lia]|].
    eapply total_mono; [apply (wait_rest_total fr); try done; apply lookup_insert_eq|]. intros v q' [-> Hw]. split; [done|].
    destruct (waited_inv _ _ _ _ _ Hw) as (H2 & S2 & E2). split; [done|]. split; [etrans; [exact S1|exact S2]|exact E2].
  - destruct (set_tmp_inv (tmp a fr) q a t1 (reset_tmp fr q a t HI Et Hr) (tmp_in a fr)) as [H1 S1]. cbv zeta in *.
    unfold txn_wait_rest, wait_value. eapply total_get_txn; [apply lookup_insert_eq|]. destruct Hr as (_ & Hr & _).
    change (t_result t1) with (t_result t). rewrite Hr, Z.eqb_refl. by split.
Qed.

(** ** Sending *)

Lemma encode_needs_memory ty msg_id len txn_id ei m c r :
  qmi_encode_message depth ty msg_id len txn_id ei m c None = Some r -> is_ok r = false.
Proof. unfold qmi_encode_message. repeat case_match; intros; by simplify_eq. Qed.

(** The structure can be encoded, wherever the message goes. *)
Definition encodes (q : qmi) (ty msg_id len txn_id : Z) (ei : option (list qmi_elem_info)) (c : option Z) : Prop :=
  forall msg, is_Some (qmi_encode_message depth ty msg_id len txn_id ei (q_mem q) c msg).

Lemma send_message_total fr q to a t ty msg_id len ei c :
  client_ok env -> Inv fr q -> q_txn q !! a = Some t -> encodes q ty msg_id len (t_id t) ei c ->
  total (qmi_send_message env to a ty msg_id len ei c (W q)) (fun _ q' =>
    Inv fr q' /\ still q q' /\ q_txn q' = q_txn q /\ q_mem q' = q_mem q /\ txns (q_h q') = txns (q_h q)).
Proof.
  intros Hc HI Et He. unfold qmi_send_message. eapply total_get_txn; [exact Et|]. apply total_gets.
  eapply total_step; [by apply kzalloc_total|]. intros msg q1 ((E1 & E2 & E3 & E4) & S1 & H1).
  rewrite (ok_depth _ Hc). destruct (He msg) as [r Er]. rewrite Er, run_or_fault.
  destruct r as [[n mm]|e], msg as [p|]; [|by apply encode_needs_memory in Er| |split; [done|split; [done|split; [done|cbn; split_and!; congruence]]]].
  - apply (total_lock_sock (push p fr)); [done|]. apply total_gets. change (sock (q_h (slocked q1))) with (sock (q_h q1)).
    assert (forall ret log, total ((unlock_sock ;;; kfree p ;;; mret (if ret <? 0 then ret else 0)) (W (slocked q1 <| q_log := log |>)))
      (fun _ q' => Inv fr q' /\ still q q' /\ q_txn q' = q_txn q /\ q_mem q' = q_mem q /\ txns (q_h q') = txns (q_h q))) as End.
    { intros ret log. apply total_modify. destruct (sent_inv (push p fr) q1 log H1) as (H2 & S2 & E5 & E6). cbv zeta in *.
      eapply total_step; [apply (kfree_total fr p); exact H2|]. intros [] q3 ((F1 & F2 & F3 & F4) & S3 & H3). apply total_ret.
      split; [done|]. split; [etrans; [exact S1|]; etrans; [exact S2|exact S3]|]. split; [by rewrite F2|]. split; [by rewrite F3|]. rewrite F1. cbn. by rewrite E1. }
    destruct (sock_cases _ q1 H1) as [E|(s & x & E & Ex)]; rewrite E; [rewrite run_ret; apply (End (- EPIPE) (q_log q1))|].
    apply total_bind. rewrite (run_sendmsg s x) by done. split; [done|]. apply End.
  - eapply total_step; [by apply (kfree_total fr p)|]. intros [] q2 ((F1 & F2 & F3 & F4) & S2 & H2). apply total_ret.
    split; [done|]. split; [by etrans|]. split_and!; congruence.
Qed.

(** An indication needs a number only while it is sent. *)
Lemma send_indication_total fr q to msg_id len ei c :
  client_ok env -> Inv fr q -> f_lock fr = false ->
  (forall txn_id, encodes q QMI_INDICATION msg_id len txn_id ei c) ->
  total (qmi_send_indication env to msg_id len ei c (W q)) (fun _ q' =>
    Inv fr q' /\ still q q' /\ q_txn q' = q_txn q /\ q_mem q' = q_mem q).
Proof.
  intros Hc HI Hl He. unfold qmi_send_indication, fresh. rewrite run_assoc, run_gets, run_assoc, run_modify, run_ret. cbn [w_st W].
  destruct (fresh_inv fr q HI) as [H1 S1]. cbv zeta in *. set (q1 := q <| q_allocs := _ |>) in *. set (a := Z.of_nat (q_allocs q)).
  destruct (next_unused fr q HI) as [Ha Hn]. fold a in Ha, Hn.
  eapply total_step; [apply (txn_init_total fr q1 a None None); try done; cbn; lia|]. intros ret q2 (S2 & M2 & _ & E2 & H2).
  assert (delete a (q_txn q2) = q_txn q) as Ed by (rewrite E2; rewrite delete_insert_eq; by apply delete_id).
  destruct (ret <? 0) eqn:Er.
  { apply total_modify, total_ret. destruct (drop_tmp_inv fr q2 a H2 Ha) as [H3 S3]. cbv zeta in *.
    split; [done|]. split; [etrans; [exact S1|]; etrans; [exact S2|exact S3]|]. by split. }
  destruct H2 as (H2 & Hr & Hx). set (t := mk_txn true (u16 ret) 0 0 None None) in *.
  assert (q_txn q2 !! a = Some t) as Et by (rewrite E2; apply lookup_insert_eq).
  eapply total_step; [apply (send_message_total fr q2 to a t); try done; intros msg; unfold encodes in He; rewrite M2; apply He|].
  intros rv q3 (H3 & S3 & E3 & M3 & X3). rewrite <- E3 in Et.
  assert (u16 ret = ret) as Eu by (apply Z.mod_small; unfold txn_id_max in Hr; lia).
  assert (outstanding q3 a t) as Hout by (unfold outstanding; rewrite X3; cbn; by rewrite Eu).
  eapply total_step; [by apply (cancel_total fr q3 a t)|]. intros [] q4 (H4 & S4 & E4 & M4 & _). apply total_modify, total_ret.
  destruct (drop_tmp_inv fr q4 a H4 Ha) as [H5 S5]. cbv zeta in *. split; [done|].
  split; [repeat (etrans; [eassumption|]); done|]. split; [|cbn; rewrite M4, M3; exact M2].
  change (delete a (q_txn q4) = q_txn q). by rewrite E4, E3.
Qed.
End Keeps.
