(* ===== verification/QmiRecv.v ===== *)
(** * QmiRecv: the receiving side of a QMI handle keeps its invariant

    The control messages, the dispatch of QMI messages, the replacement of the
    socket after a reset of the network, the worker, and the beginning and the
    end of a handle, run on a state with the invariant of QmiInv.v. *)
From stdpp Require Import prelude gmap list.
From S2P Require Import Prelude.
From S2P Require Import Effects.
From S2P Require Import QmiEncdec.
From S2P Require Import XArray.
From S2P Require Import Qrtr.
From S2P Require Import QrtrNs.
From S2P Require Import QrtrPkt.
From S2P Require Import QmiInterface.
From S2P Require Import QmiInv.
From S2P Require Import QmiSafe.
#[local] Open Scope kernel_scope.

Section Recv.
Context {XC : XaCyclic} {XL : XaCyclicLaws XC} (depth : nat) (env : qmi_env) (Hc : client_ok depth env).

Abbreviation Inv := (Inv depth).

(** ** Control messages *)

Definition unmatched (node port : Z) (l : list qmi_service) : list qmi_service :=
  filter (fun v => svc_matches node port v = false) l.

Lemma unmatched_all l : unmatched WILDCARD WILDCARD l = [].
Proof. unfold unmatched. induction l as [|svc l IH]; [done|]. by rewrite filter_cons_False, IH. Qed.

Lemma owned_results_nodup fr q : Inv fr q -> NoDup (map svc_addr (lookup_results (q_h q))).
Proof.
  intros HI. pose proof (i_nodup _ _ _ HI) as H. apply NoDup_app in H as (_ & _ & H). unfold owned in H.
  apply NoDup_cons in H as [_ H]. apply NoDup_cons in H as [_ H]. rewrite !map_app in H.
  apply NoDup_app in H as (_ & _ & H). by apply NoDup_app in H as (H & _).
Qed.

(** Unlinking a service by its address. *)
Lemma unlink_service (kept l : list qmi_service) svc :
  NoDup (map svc_addr (kept ++ svc :: l)) ->
  filter (fun v => svc_addr v <> svc_addr svc) (kept ++ svc :: l) = kept ++ l.
Proof.
  intros Hd. rewrite map_app in Hd. cbn in Hd. apply NoDup_app in Hd as (_ & H1 & H2). apply NoDup_cons in H2 as [H2 _].
  assert (forall l' : list qmi_service, (forall v, v ∈ l' -> svc_addr v <> svc_addr svc) -> filter (fun v => svc_addr v <> svc_addr svc) l' = l') as F.
  { intros l' H. induction l' as [|v l' IH]; [done|]. rewrite filter_cons_True by (apply H; left). f_equal. apply IH. intros w Hw. apply H. by right. }
  rewrite filter_app, filter_cons_False by (by intros []). f_equal; apply F.
  - intros v Hv E. apply (H1 (svc_addr v)); [apply list_elem_of_fmap; eauto|]. rewrite E. left.
  - intros v Hv E. apply H2. rewrite <- E. apply list_elem_of_fmap. eauto.
Qed.

Lemma del_result_total fr q kept svc l :
  Inv fr q -> lookup_results (q_h q) = kept ++ svc :: l ->
  total ((list_del_result (svc_addr svc) ;;; kfree (svc_addr svc)) (W q)) (fun _ q' =>
    Inv fr q' /\ calm q q' /\ lookup_results (q_h q') = kept ++ l).
Proof.
  intros HI El. pose proof (owned_results_nodup fr q HI) as Hd. rewrite El in Hd.
  unfold list_del_result. rewrite run_assoc. apply total_gets. rewrite El, bool_decide_true.
  2: { rewrite map_app. apply elem_of_app. right. left. }
  apply total_modify. rewrite unlink_service by done.
  match goal with |- total (_ (W ?s)) _ => set (q1 := s) end.
  assert (Inv (push (svc_addr svc) fr) q1) as H1.
  { apply (own_ext depth fr (push (svc_addr svc) fr) q); try done; try apply HI. unfold owned. cbn. rewrite El, !map_app. cbn. rewrite ?map_app.
    solve_Permutation. }
  eapply total_mono; [by apply (kfree_total depth fr (svc_addr svc))|]. intros [] q2 ((E1 & _) & [S2 _] & H2).
  split; [done|]. split; [transitivity q1; [by split|exact S2]|]. by rewrite E1.
Qed.

(** The loop forgets the services that match and only those. *)
Lemma del_loop_total node port l : forall fr q kept,
  Inv fr q -> f_lock fr = false -> lookup_results (q_h q) = kept ++ l ->
  total (del_server_loop env node port l (W q)) (fun _ q' =>
    Inv fr q' /\ calm q q' /\ lookup_results (q_h q') = kept ++ unmatched node port l).
Proof.
  induction l as [|svc l IH]; intros fr q kept HI Hl El; cbn [del_server_loop].
  { split; [done|]. by split; [|split; [reflexivity|]]. }
  unfold unmatched. rewrite filter_cons. destruct (svc_matches node port svc) eqn:Em; cbn [negb].
  2: { rewrite run_ret, decide_True by done. eapply total_mono; [apply (IH fr q (kept ++ [svc])); try done; by rewrite <- app_assoc|].
       intros [] q' (H1 & H2 & H3). split; [done|]. split; [done|]. by rewrite H3, <- app_assoc. }
  rewrite decide_False by done. rewrite run_assoc. apply total_gets. rewrite !run_assoc.
  assert (forall q1, Inv fr q1 -> still q q1 ->
    total ((list_del_result (svc_addr svc) ;;; kfree (svc_addr svc) ;;; del_server_loop env node port l) (W q1)) (fun _ q' =>
      Inv fr q' /\ calm q q' /\ lookup_results (q_h q') = kept ++ unmatched node port l)) as K.
  { intros q1 H1 [S1 R1]. rewrite <- run_assoc. eapply total_step; [apply (del_result_total fr q1 kept svc l); [done|by rewrite R1]|].
    intros [] q2 (H2 & S2 & R2). eapply total_mono; [by apply (IH fr q2 kept)|]. intros [] q3 (H3 & S3 & R3).
    split; [done|]. split; [etrans; [exact S1|]; by etrans|done]. }
  destruct (has_del_server _).
  - rewrite run_assoc. eapply total_step; [by apply (ok_del_server _ env Hc _ fr)|]. intros [] q1 [H1 S1].
    eapply total_step; [by apply (emit_keeps depth fr)|]. intros [] q2 [H2 S2]. rewrite run_assoc. apply K; [done|by etrans].
  - rewrite run_ret, run_assoc. by apply K.
Qed.

Lemma del_server_total fr node port q :
  Inv fr q -> f_lock fr = false ->
  total (qmi_recv_del_server env node port (W q)) (fun _ q' =>
    Inv fr q' /\ calm q q' /\ lookup_results (q_h q') = unmatched node port (lookup_results (q_h q))).
Proof. intros HI Hl. apply total_gets. by apply (del_loop_total node port _ fr q []). Qed.

(** What handling a message keeps. *)
Definition handled {A : Type} (fr : frame) (q : qmi) (_ : A) (q' : qmi) : Prop := Inv fr q' /\ calm q q'.

Lemma keeps_handled {A : Type} fr (c : M qmi A) q : keeps depth fr c -> Inv fr q -> total (c (W q)) (handled fr q).
Proof. intros Hk HI. eapply total_mono; [by apply Hk|]. intros a q' [H [S _]]. by split. Qed.

(** A callback that may be null. *)
Lemma optional_handled fr q q0 (b : bool) (c : M qmi unit) e :
  keeps depth fr c -> Inv fr q -> calm q0 q ->
  total ((if b then c ;;; emit e else mret tt) (W q)) (handled fr q0).
Proof.
  intros Hk HI Hs. destruct b; [|by split]. eapply total_step; [by apply Hk|]. intros [] q1 [H1 [S1 _]].
  eapply total_mono; [by apply (emit_keeps depth fr)|]. intros [] q2 [H2 [S2 _]]. split; [done|]. etrans; [exact Hs|]. by etrans.
Qed.

Lemma optional_still fr q (b : bool) (c : M qmi unit) e :
  keeps depth fr c -> Inv fr q -> total ((if b then c ;;; emit e else mret tt) (W q)) (fun _ q' => Inv fr q' /\ still q q').
Proof.
  intros Hk HI. destruct b; [|by split]. eapply total_step; [by apply Hk|]. intros [] q1 [H1 S1].
  eapply total_mono; [by apply (emit_keeps depth fr)|]. intros [] q2 [H2 S2]. split; [done|by etrans].
Qed.

Lemma ctrl_pkt_total fr buf len q :
  Inv fr q -> f_lock fr = false -> total (qmi_recv_ctrl_pkt env buf len (W q)) (handled fr q).
Proof.
  intros HI Hl. unfold qmi_recv_ctrl_pkt. cbv zeta.
  assert (total (mret tt (W q)) (handled fr q)) as Nil by (split; [done|]; by split; [|reflexivity]).
  destruct (len <? _); [done|]. destruct (cmd _ =? _).
  { unfold qmi_recv_bye. eapply total_step; [by apply del_server_total|]. intros [] q1 (H1 & S1 & _). apply total_gets.
    apply optional_handled; try done. by apply (ok_bye _ env Hc). }
  destruct (cmd _ =? _); [by apply new_server_keeps|].
  destruct (cmd _ =? _). { eapply total_mono; [by apply del_server_total|]. by intros [] q1 (H1 & S1 & _). }
  destruct (cmd _ =? _); [|done]. apply total_gets. apply optional_handled; [by apply (ok_del_client _ env Hc)|done|reflexivity].
Qed.

(** ** Messages *)

Lemma decode_message_total buf l size m len dest :
  bytes_ok buf -> ei_fits depth size l = true -> sizeof_qmi_header <= len < 2 ^ 31 - 65536 ->
  exists rc m1, qmi_decode_message depth buf (Some 0) len (Some l) m (Some dest) = Some (rc, m1) /\
    rc <> - ENETRESET /\ same_outside dest (dest + size) m m1.
Proof.
  intros Hb Hf Hl. unfold sizeof_qmi_header in Hl. unfold qmi_decode_message. rewrite (proj2 (Z.eqb_neq len 0)) by lia.
  unfold sizeof_qmi_header. rewrite u32_small by lia.
  destruct (qmi_decode_ok depth buf buf l size m dest (0 + 7) (len - 7) 1) as (rc & m1 & E & _ & Hr & Ho); try done; try lia.
  exists rc, m1. split; [done|]. split; [|done]. unfold ENETRESET. codes.
Qed.

Lemma find_handler_total l ty msg_id :
  handlers_end l = true -> Forall (handler_ok depth) l ->
  find_handler l ty msg_id = Some None \/
  exists fn h, find_handler l ty msg_id = Some (Some (fn, h)) /\ handler_ok depth h /\ h ∈ l.
Proof.
  induction l as [|h l IH]; [done|]. cbn [handlers_end find_handler]. intros He [Hh Hl]%Forall_cons.
  destruct (h_fn h) as [fn|]; [|by left]. destruct (_ && _).
  - right. exists fn, h. split; [done|]. split; [done|]. left.
  - destruct (IH He Hl) as [|(f & k & ? & ? & ?)]; [by left|right]. exists f, k. split; [done|]. split; [done|]. by right.
Qed.

Lemma invoke_total fr q from a buf len :
  Inv fr q -> is_Some (q_txn q !! a) -> bytes_ok buf -> sizeof_qmi_header <= len < 2 ^ 31 - 65536 ->
  total (qmi_invoke_handler env from a buf len (W q)) (fun _ q' => Inv fr q' /\ still q q').
Proof.
  intros HI Ha Hb Hl. unfold qmi_invoke_handler. apply total_gets.
  pose proof (i_handlers _ _ _ HI) as Hh. destruct (handlers (q_h q)) as [hs|]; [|by split]. destruct Hh as [He Hf].
  destruct (find_handler_total hs (hdr_type buf) (hdr_msg_id buf) He Hf) as [->|(fn & h & -> & Hk & _)]; rewrite run_or_fault; [by split|].
  eapply total_step; [by apply kzalloc_total|]. intros [p|] q1 ((E1 & E2 & E3 & E4) & S1 & H1); [|by split].
  rewrite (ok_depth _ _ Hc).
  assert (exists ret m, qmi_decode_message depth buf (Some 0) len (h_ei h) (fun _ => 0) (Some p) = Some (ret, m)) as (ret & m & ->).
  { unfold handler_ok in Hk. destruct (h_ei h) as [l|]; [|by eexists _, _].
    destruct (decode_message_total buf l _ (fun _ => 0) len p Hb Hk Hl) as (rc & m & E & _). by exists rc, m. }
  rewrite run_or_fault. eapply (total_step _ _ _ (fun _ q' => Inv (push p fr) q' /\ still q1 q')).
  { destruct (ret <? 0); [by split|]. apply total_modify.
    destruct (silent_inv depth (push p fr) q1 _ (silent_log (fun q => EvFn fn from a :: q_log q)) H1) as [H2 S2].
    eapply total_mono; [apply (ok_fn _ env Hc _ _ _ _ _ (push p fr)); [exact H2|]|].
    - change (is_Some (q_txn q1 !! a)). by rewrite E2.
    - intros [] q3 [H3 S3]. split; [done|]. etrans; [exact S2|exact S3]. }
  intros [] q2 [H2 S2]. eapply total_mono; [by apply (kfree_total depth fr)|]. intros [] q3 (_ & S3 & H3).
  split; [done|]. etrans; [exact S1|]. by etrans.
Qed.

(** A response is decoded into the memory of its transaction and completes it. *)
Lemma response_total fr q from buf len :
  Inv fr q -> f_lock fr = false -> bytes_ok buf -> sizeof_qmi_header <= len < 2 ^ 31 - 65536 ->
  total (handle_response env from buf len (W q)) (fun _ q' => Inv fr q' /\ still q q').
Proof.
  intros HI Hl Hb Hn. unfold handle_response. apply (total_lock_txns depth fr); [done|done|]. intros q1 H1 S1. apply total_gets.
  assert (forall q2, Inv (locked true fr) q2 -> still q q2 ->
    total (unlock_txns (W q2)) (fun _ q' => Inv fr q' /\ still q q')) as End.
  { intros q2 H2 S2. eapply total_mono; [by apply (unlock_txns_total depth fr)|]. intros [] q3 (H3 & S3 & _). split; [done|by etrans]. }
  destruct (xa_load _ _) as [a|] eqn:Ea; [|by apply End].
  destruct (i_table _ _ _ H1 _ _ Ea) as (_ & Ha & t & Et & Hid & _ & Hr & Hf & Hd). eapply total_get_txn; [exact Et|].
  assert (is_Some (q_txn q1 !! a)) as Hs by (by exists t).
  assert (total ((qmi_invoke_handler env from a buf len ;;; unlock_txns) (W q1)) (fun _ q' => Inv fr q' /\ still q q')) as Handler.
  { eapply total_step; [by apply (invoke_total (locked true fr))|]. intros [] q2 [H2 S2]. apply End; [done|by etrans]. }
  unfold txn_fits in Hf. destruct (t_dest t) as [dest|]; [|exact Handler]. destruct (t_ei t) as [l|]; [|exact Handler]. clear Handler.
  destruct Hf as [size Hf]. rewrite run_assoc. apply total_gets. rewrite (ok_depth _ _ Hc).
  destruct (decode_message_total buf l size (q_mem q1) len dest Hb Hf Hn) as (rc & m & -> & Hrc & _).
  rewrite !run_assoc, run_or_fault, !run_assoc. apply total_modify. rewrite run_assoc. apply total_modify.
  destruct (silent_inv depth _ q1 _ (silent_mem (fun _ => m)) H1) as [H2 S2].
  set (q2 := q1 <| q_mem := m |>) in *.
  destruct (update_txn_inv depth _ q2 a t (t <| t_result := rc |>) H2 Et) as [H3 S3]; try done; [by right|]. cbv zeta in *.
  unfold complete. rewrite run_assoc. eapply total_get_txn; [apply lookup_insert_eq|]. apply total_modify.
  eassert (_ /\ _) as [H4 S4].
  { eapply (update_txn_inv depth _ _ a (t <| t_result := rc |>) (if t_done t =? 2 ^ 32 - 1 then t <| t_result := rc |> else
      (t <| t_result := rc |>) <| t_done := t_done t + 1 |>) H3); [apply lookup_insert_eq|by destruct (_ =? _)..|].
    left. destruct (_ =? _); cbn; (split; [done|lia]). }
  apply End; [exact H4|]. etrans; [exact S1|]. etrans; [exact S2|]. by etrans.
Qed.

Lemma handle_message_total fr q from buf len :
  Inv fr q -> f_lock fr = false -> bytes_ok buf -> len < 2 ^ 31 - 65536 ->
  total (qmi_handle_message env from buf len (W q)) (fun _ q' => Inv fr q' /\ still q q').
Proof.
  intros HI Hl Hb Hn. unfold qmi_handle_message. destruct (len <? sizeof_qmi_header) eqn:E; zbool; [by split|].
  destruct (_ =? _); [by apply response_total|]. unfold fresh. rewrite run_assoc, run_gets, run_assoc, run_modify, run_ret.
  cbn [w_st W]. destruct (next_unused depth fr q HI) as [Ha Hu]. destruct (fresh_inv depth fr q HI) as [H1 S1]. cbv zeta in *.
  apply total_modify. destruct (put_tmp_inv depth fr _ (Z.of_nat (q_allocs q)) (mk_txn false (hdr_txn_id buf) 0 0 None None) H1 Hu) as [H2 S2].
  { cbn. lia. }
  eapply total_step; [apply (invoke_total (tmp (Z.of_nat (q_allocs q)) fr)); [exact H2| |done|done]|].
  { eexists. apply lookup_insert_eq. }
  intros [] q3 [H3 S3]. destruct (drop_tmp_inv depth fr q3 _ H3 Ha) as [H4 S4]. split; [done|]. split; [exact H4|].
  etrans; [exact S1|]. etrans; [exact S2|]. etrans; [exact S3|exact S4].
Qed.

(** ** Sockets *)

(** One address was used. *)
Definition grown (q : qmi) : qmi := q <| q_allocs := S (q_allocs q) |>.

(** What [qmi_sock_create] answers and leaves, where the next address is free. *)
Definition sock_created (q : qmi) (r : result (Z * sockaddr_qrtr)) (q' : qmi) : Prop :=
  let n := q_allocs q in
  let q1 := q <| q_allocs := S n |> in
  let '(ret, a) := e_getsockname env (Z.of_nat n) in
  if e_sock_create env n <? 0 then r = Err (e_sock_create env n) /\ q' = q1
  else if ret <? 0 then r = Err ret /\ q' = q1
  else r = Ok (Z.of_nat n, a) /\ q' = q1 <| q_sk := <[Z.of_nat n := mk_ksock true []]> (q_sk q) |>.

Lemma sock_create_total q :
  q_sk q !! Z.of_nat (q_allocs q) = None -> total (qmi_sock_create env (W q)) (sock_created q).
Proof.
  intros Hn. unfold qmi_sock_create, fresh, sock_created. rewrite run_assoc, run_gets, run_assoc, run_modify, run_ret. cbn [w_st W].
  set (s := Z.of_nat (q_allocs q)) in *. destruct (e_getsockname env s) as [ret a]. destruct (e_sock_create _ _ <? 0); [by split|].
  apply total_modify. destruct (ret <? 0).
  - unfold sock_release, get_ksock. rewrite !run_assoc, run_gets. cbn [w_st W q_sk set_field]. rewrite lookup_insert_eq, run_or_fault.
    apply total_modify, total_ret. split; [done|]. cbn. rewrite delete_insert_eq, delete_id by done. done.
  - unfold get_ksock. rewrite run_assoc, run_gets. cbn [w_st W q_sk set_field]. rewrite lookup_insert_eq, run_or_fault.
    apply total_modify, total_ret. split; [done|]. cbn. by rewrite insert_insert_eq.
Qed.

Lemma next_sock_unused fr q : Inv fr q -> q_sk q !! Z.of_nat (q_allocs q) = None.
Proof.
  intros HI. pose proof (i_sock _ _ _ HI) as H. unfold sockets_ok in H.
  assert (forall s u, one_socket q s u -> q_sk q !! Z.of_nat (q_allocs q) = None) as K.
  { intros s u (Hs & l & -> & _). apply lookup_singleton_ne. lia. }
  destruct (f_sock fr); [destruct H as [_ H]; by eapply K|]. destruct H as (s & _ & H). by eapply K.
Qed.

(** The frame between the closing of the old socket and the use of the new one. *)
Definition between (s : Z) (fr : frame) : frame := mk_frame (f_txn fr) (f_mem fr) (Some s) (f_user fr) (f_lock fr).

(** The sockets change, nothing else of the invariant. *)
Lemma sockets_inv fr fr' q q' :
  Inv fr q -> f_txn fr' = f_txn fr -> f_mem fr' = f_mem fr -> f_lock fr' = f_lock fr ->
  q_live q' = q_live q -> owned (q_h q') = owned (q_h q) -> sock_lock (q_h q') = false -> txn_lock (q_h q') = txn_lock (q_h q) ->
  txns (q_h q') = txns (q_h q) -> q_txn q' = q_txn q -> handlers (q_h q') = handlers (q_h q) ->
  recv_buf_size (q_h q') = recv_buf_size (q_h q) -> recv_mem (q_h q') = recv_mem (q_h q) -> (q_allocs q <= q_allocs q')%nat ->
  sockets_ok fr' q' -> Inv fr' q'.
Proof.
  intros [] E1 E2 E3 El Eo Es Et Ex En Eh Ez Em Ea Hs.
  split; rewrite ?E1, ?E2, ?E3, ?El, ?Eo, ?Ex, ?En, ?Eh, ?Ez, ?Em; try done; [|by rewrite Et|].
  - intros p Hp. specialize (i_old p Hp). lia.
  - intros a t Ha. destruct (i_txn a t Ha) as [H1 H2]. split; [lia|]. unfold outstanding. by rewrite Ex.
Qed.

(** *** Registering again *)

Lemma send_ctrl_exact q s x p :
  sock (q_h q) = Sock s -> q_sk q !! s = Some x -> sock_lock (q_h q) = false ->
  total (send_ctrl env p (W q)) (fun _ q' => exists ret,
    q' = q <| q_log := EvSend s (Some (mk_sq (sq_node (sq (q_h q))) QRTR_PORT_CTRL)) (ctrl_pkt_bytes p) ret :: q_log q |>).
Proof.
  intros E Ex Hl. unfold send_ctrl, lock_sock. apply total_gets. rewrite run_assoc. apply total_wait; [by rewrite Hl|].
  apply total_modify, total_gets. change (sock (q_h (q <| q_h := (q_h q) <| sock_lock := true |> |>))) with (sock (q_h q)). rewrite E, run_assoc.
  apply total_bind. rewrite (run_sendmsg env s x) by done. split; [done|]. split; [done|]. eexists.
  destruct q as [h ? ? ? ? ? ?], h. cbn in Hl. subst. reflexivity.
Qed.

(** Control packets that were handed to the socket, the latest first. *)
Definition sent_to (s : Z) (dest : sockaddr_qrtr) (ps : list qrtr_ctrl_pkt) (evs : list qmi_event) : Prop :=
  Forall2 (fun p e => exists ret, e = EvSend s (Some dest) (ctrl_pkt_bytes p) ret) ps (rev evs).

Lemma send_all_exact {A : Type} (f : A -> qrtr_ctrl_pkt) s x l : forall q,
  sock (q_h q) = Sock s -> q_sk q !! s = Some x -> sock_lock (q_h q) = false ->
  total (for_each l (fun a => send_ctrl env (f a)) (W q)) (fun _ q' => exists evs,
    q' = q <| q_log := evs ++ q_log q |> /\ sent_to s (mk_sq (sq_node (sq (q_h q))) QRTR_PORT_CTRL) (map f l) evs).
Proof.
  induction l as [|a l IH]; intros q E Ex Hl; cbn [for_each].
  { split; [done|]. exists []. split; [by destruct q|constructor]. }
  eapply total_step; [by apply (send_ctrl_exact q s x)|]. intros [] q1 [ret ->]. eapply total_mono; [by apply IH|].
  intros [] q2 (evs & -> & Hs). exists (evs ++ [EvSend s (Some (mk_sq (sq_node (sq (q_h q))) QRTR_PORT_CTRL)) (ctrl_pkt_bytes (f a)) ret]).
  split; [by rewrite <- app_assoc|]. unfold sent_to. rewrite rev_app_distr. constructor; [by exists ret|exact Hs].
Qed.

Definition lookup_pkt (svc : qmi_service) : qrtr_ctrl_pkt :=
  mk_pkt QRTR_TYPE_NEW_LOOKUP (svc_service svc) (svc_instance_word svc) 0 0.

Definition server_pkt_at (a : sockaddr_qrtr) (svc : qmi_service) : qrtr_ctrl_pkt :=
  mk_pkt QRTR_TYPE_NEW_SERVER (svc_service svc) (svc_instance_word svc) (sq_node a) (sq_port a).

(** What a reset leaves: the handle has the new socket only, knows no server and
    has announced all its lookups and services there; or, when there is no new
    socket, everything is as it was. *)
Definition reset_done (q q' : qmi) : Prop :=
  let s := Z.of_nat (q_allocs q) in
  let '(ret, a) := e_getsockname env s in
  if (e_sock_create env (q_allocs q) <? 0) || (ret <? 0) then q' = grown q
  else
    sock (q_h q') = Sock s /\ sq (q_h q') = a /\ dom (q_sk q') = {[s]} /\ lookup_results (q_h q') = [] /\
    exists evs log, q_log q' = evs ++ log /\
      sent_to s (mk_sq (sq_node a) QRTR_PORT_CTRL) (map lookup_pkt (lookups (q_h q')) ++ map (server_pkt_at a) (services (q_h q'))) evs.

Lemma sent_to_app s dest ps ps' evs evs' : sent_to s dest ps evs -> sent_to s dest ps' evs' -> sent_to s dest (ps ++ ps') (evs' ++ evs).
Proof. intros H1 H2. unfold sent_to. rewrite rev_app_distr. by apply Forall2_app. Qed.

(** The last part: the new socket is in place. *)
Lemma reregister_total fr q s a :
  Inv fr q -> f_sock fr = None -> sock (q_h q) = Sock s -> sq (q_h q) = a -> lookup_results (q_h q) = [] ->
  total ((ls <-- hget lookups ;;; for_each ls (qmi_send_new_lookup env) ;;; ss <-- hget services ;;; for_each ss (qmi_send_new_server env)) (W q))
    (fun _ q' => Inv fr q' /\ sock (q_h q') = Sock s /\ sq (q_h q') = a /\ dom (q_sk q') = {[s]} /\ lookup_results (q_h q') = [] /\
      exists evs log, q_log q' = evs ++ log /\
        sent_to s (mk_sq (sq_node a) QRTR_PORT_CTRL) (map lookup_pkt (lookups (q_h q')) ++ map (server_pkt_at a) (services (q_h q'))) evs).
Proof.
  intros HI Hs E0 <- Er. pose proof (i_sock _ _ _ HI) as HS. unfold sockets_ok in HS. rewrite Hs in HS. destruct HS as (s' & E' & _ & l & Ek & _).
  assert (s' = s) as -> by congruence. assert (q_sk q !! s = Some (mk_ksock (f_user fr) l)) as Ex by (rewrite Ek; apply lookup_singleton_eq).
  pose proof (i_slock _ _ _ HI) as Hl. apply total_gets.
  eapply total_step; [by apply (send_all_exact lookup_pkt s (mk_ksock (f_user fr) l))|]. intros [] q1 (evs & -> & H1). apply total_gets.
  match goal with |- total (for_each ?l _ (W ?x)) _ => set (q1 := x) end.
  assert (forall svc q2, sq (q_h q2) = sq (q_h q) -> qmi_send_new_server env svc (W q2) = send_ctrl env (server_pkt_at (sq (q_h q)) svc) (W q2)) as Q.
  { intros svc q2 E. unfold qmi_send_new_server. unfold hget. rewrite run_gets. cbn [w_st W]. by rewrite E. }
  assert (forall l q2, q_h q2 = q_h q -> q_sk q2 = q_sk q ->
    for_each l (qmi_send_new_server env) (W q2) = for_each l (fun svc => send_ctrl env (server_pkt_at (sq (q_h q)) svc)) (W q2)) as R.
  { clear H1 q1. intros l2. induction l2 as [|svc l2 IH]; intros q2 E2 K2; [done|]. cbn [for_each]. unfold mbnd. rewrite Q by (by rewrite E2).
    assert (total (send_ctrl env (server_pkt_at (sq (q_h q)) svc) (W q2)) (fun _ q3 => q_h q3 = q_h q /\ q_sk q3 = q_sk q)) as T.
    { eapply total_mono; [apply (send_ctrl_exact q2 s (mk_ksock (f_user fr) l)); by rewrite ?E2, ?K2|]. intros [] q3 [ret ->]. done. }
    apply total_run in T as ([] & q3 & -> & E3 & K3). by apply IH. }
  rewrite R by done. eapply total_mono; [apply (send_all_exact (server_pkt_at (sq (q_h q))) s (mk_ksock (f_user fr) l)); done|].
  intros [] q2 (evs2 & -> & H2). split; [|split; [done|split; [done|split; [cbn; by rewrite Ek, dom_singleton_L|split; [done|]]]]].
  - exact (proj1 (silent_inv depth fr q _ (silent_log (fun q0 => evs2 ++ evs ++ q_log q0)) HI)).
  - exists (evs2 ++ evs), (q_log q). split; [cbn; by rewrite app_assoc|]. by apply sent_to_app.
Qed.

(** The socket is replaced; a failure to make a new one leaves all as it was. *)
Lemma net_reset_total fr q :
  Inv fr q -> f_lock fr = false -> f_sock fr = None -> f_user fr = true ->
  total (qmi_handle_net_reset env (W q)) (fun _ q' => Inv fr q' /\ reset_done q q').
Proof.
  intros HI Hl Hs Hu. unfold qmi_handle_net_reset. pose proof (next_sock_unused fr q HI) as Hn.
  eapply total_step; [by apply sock_create_total|]. intros r q1 Hr. unfold sock_created in Hr. unfold reset_done. cbv zeta in *.
  destruct (fresh_inv depth fr q HI) as [H1 _]. cbv zeta in H1. destruct (e_getsockname env _) as [ret a].
  destruct (e_sock_create _ _ <? 0); [by destruct Hr as [-> ->]|]. cbn [orb].
  destruct (ret <? 0); [by destruct Hr as [-> ->]|].
  destruct Hr as [-> ->]. set (s := Z.of_nat (q_allocs q)) in *.
  pose proof (i_sock _ _ _ HI) as HS. unfold sockets_ok in HS. rewrite Hs, Hu in HS. destruct HS as (s0 & E0 & Hlt & l & Ek & Hrx).
  unfold lock_sock at 1. rewrite run_assoc. apply total_wait; [cbn; by rewrite (i_slock _ _ _ HI)|]. apply total_modify, total_gets.
  cbn [q_h sock set_field]. rewrite E0. unfold sock_release, get_ksock. rewrite !run_assoc, run_gets.
  cbn [w_st W q_sk set_field]. rewrite Ek, lookup_insert_ne, lookup_singleton_eq, run_or_fault by lia. apply total_modify, total_modify, total_modify.
  match goal with |- total (_ (W ?x)) _ => set (q2 := x) end.
  assert (Inv (between s fr) q2) as H2.
  { apply (sockets_inv fr (between s fr) q); try done. { cbn. lia. }
    split; [done|]. split; [cbn; lia|]. exists []. split; [|done]. cbn. rewrite delete_insert_ne by lia.
    by rewrite delete_singleton_eq, insert_empty. }
  eapply total_step; [by apply (del_server_total (between s fr))|]. intros [] q3 (H3 & S3 & R3). rewrite unmatched_all in R3. apply total_gets.
  eapply total_step; [apply (optional_still (between s fr)); [by apply (ok_net_reset _ env Hc)|done]|]. intros [] q4 [H4 [S4 R4]].
  apply (total_lock_sock depth (between s fr)); [done|]. apply total_modify, total_modify.
  match goal with |- total (_ (W ?x)) _ => set (q5 := x) end.
  assert (Inv fr q5) as H5.
  { pose proof (i_sock _ _ _ H4) as (_ & HS). apply (sockets_inv (between s fr) fr q4); try done.
    unfold sockets_ok. rewrite Hs, Hu. exists s. split; [done|exact HS]. }
  apply (reregister_total fr q5 s a); try done. cbn. by rewrite R4, R3.
Qed.

(** ** The worker *)

(** What the socket of the handle has received. *)
Definition inbox (q : qmi) : list rx :=
  match sock (q_h q) with
  | Sock s => match q_sk q !! s with Some x => ks_rx x | None => [] end
  | _ => []
  end.

Lemma calm_inbox q q' : calm q q' -> inbox q' = inbox q.
Proof. intros []. unfold inbox. by rewrite c_sock, c_sk. Qed.

Lemma bytes_taken n data m : bytes_ok m -> Forall (fun b => 0 <= b < 256) data -> bytes_ok (store_bytes m 0 (take n data)).
Proof. intros Hm Hd. apply bytes_ok_store_bytes; [done|]. by apply Forall_take. Qed.

(** A handle at work: its socket reports to it and nothing is locked. *)
Definition at_work (fr : frame) : Prop := f_lock fr = false /\ f_sock fr = None /\ f_user fr = true.

(** The state after a message was taken from the socket. *)
Definition popped (q : qmi) (s : Z) (l : list rx) (m : mem) : qmi :=
  q <| q_sk := <[s := mk_ksock true l]> (q_sk q) |> <| q_h := (q_h q) <| sock_lock := true |> <| recv_mem := m |> <| sock_lock := false |> |>.

Lemma popped_inv fr q s r l m :
  at_work fr -> Inv fr q -> sock (q_h q) = Sock s -> q_sk q = {[s := mk_ksock true (r :: l)]} -> bytes_ok m ->
  Inv fr (popped q s l m) /\ inbox (popped q s l m) = l /\ inbox q = r :: l.
Proof.
  intros (Hl & Hs & Hu) HI E0 Ek Hm. split; [|unfold inbox; cbn; by rewrite E0, Ek, lookup_insert_eq, lookup_singleton_eq].
  pose proof (i_sock _ _ _ HI) as HS. unfold sockets_ok in HS. rewrite Hs, Hu in HS. destruct HS as (s' & E' & Hlt & l' & Ek' & Hrx).
  assert (s' = s) as -> by congruence. assert (l' = r :: l) as ->.
  { assert (q_sk q !! s = Some (mk_ksock true l')) as F by (rewrite Ek'; apply lookup_singleton_eq).
    rewrite Ek, lookup_singleton_eq in F. congruence. }
  apply Forall_cons in Hrx as [_ Hrx]. destruct HI. split; try done.
  unfold sockets_ok. rewrite Hs, Hu. exists s. split; [done|]. split; [done|]. exists l. split; [|done].
  cbn. by rewrite Ek, insert_singleton_eq.
Qed.

(** One turn: the message that was there is gone, and the loop goes on only if
    there was one. *)
Lemma recv_one_total fr q :
  at_work fr -> Inv fr q ->
  total (recv_one env (W q)) (fun b q' => Inv fr q' /\ (b = true -> inbox q' = tail (inbox q) /\ inbox q <> [])).
Proof.
  intros Hw HI. pose proof Hw as (Hl & Hs & Hu). unfold recv_one. apply total_gets, total_gets. apply (total_lock_sock depth fr); [done|].
  pose proof (i_sock _ _ _ HI) as HS. unfold sockets_ok in HS. rewrite Hs, Hu in HS. destruct HS as (s & E0 & Hlt & l & Ek & Hrx).
  apply total_gets. change (sock (q_h (slocked q))) with (sock (q_h q)). rewrite E0. unfold kernel_recvmsg, get_ksock.
  rewrite !run_assoc, run_gets. cbn [w_st W]. change (q_sk (slocked q)) with (q_sk q). rewrite Ek, lookup_singleton_eq, run_or_fault.
  cbn [ks_rx ks_user]. destruct l as [|[from data|e] l].
  { rewrite run_ret. split; [done|]. destruct (sent_inv depth fr q (q_log q) HI) as (H1 & _). by split. }
  2: { rewrite !run_assoc. apply total_modify. rewrite run_ret. apply total_modify.
       destruct (popped_inv fr q s _ l (recv_mem (q_h q)) Hw HI E0 Ek (i_bytes _ _ _ HI)) as (H1 & _).
       apply Forall_cons in Hrx as [He _]. cbn in He. destruct (_ =? _); [by split|]. destruct (_ =? _).
       - eapply total_step; [by apply (net_reset_total fr)|]. intros [] q2 [H2 _]. by split.
       - rewrite (proj2 (Z.ltb_lt _ _)) by lia. by split. }
  rewrite !run_assoc. apply total_modify. rewrite run_assoc. apply total_gets.
  cbn [q_live set_field slocked]. rewrite decide_True.
  2: { cbn. rewrite (i_live _ _ _ HI). apply elem_of_list_to_set, elem_of_app. right. left. }
  set (d := take _ data). rewrite run_assoc. apply total_modify. rewrite run_ret. apply total_modify.
  assert (bytes_ok (store_bytes (recv_mem (q_h q)) 0 d)) as Hb.
  { apply Forall_cons in Hrx as [Hd _]. apply bytes_taken; [apply HI|done]. }
  destruct (popped_inv fr q s _ l _ Hw HI E0 Ek Hb) as (H1 & E1 & E2). set (q1 := popped _ _ _ _) in *.
  rewrite (proj2 (Z.eqb_neq _ _)) by (unfold EAGAIN; lia). rewrite (proj2 (Z.eqb_neq _ _)) by (unfold ENETRESET; lia).
  rewrite (proj2 (Z.ltb_ge _ _)) by lia. apply total_gets, total_gets, total_gets.
  assert (Z.of_nat (length d) < 2 ^ 31 - 65536) as Hn.
  { unfold d. rewrite length_take. pose proof (i_size _ _ _ HI) as [_ Hz]. lia. }
  apply (total_step _ _ _ (fun _ q2 => Inv fr q2 /\ inbox q2 = l)).
  2: { intros [] q2 [H2 E]. split; [done|]. split; [done|]. intros _. by rewrite E2. }
  eapply (total_mono _ (handled fr q1)); [|intros [] q2 [H2 S2]; split; [done|]; by rewrite (calm_inbox _ _ S2)].
  destruct (_ && _); [by apply ctrl_pkt_total|]. destruct (has_msg_handler _).
  - apply keeps_handled; [|exact H1]. apply qmi_keeps_bind; [apply emit_keeps|]. intros _. by apply (ok_msg_handler _ env Hc).
  - eapply total_mono; [by apply (handle_message_total fr)|]. intros [] q2 [H2 [S2 _]]. by split.
Qed.

(** The worker takes at most one turn more than there are messages. *)
Lemma work_total fuel : forall fr q,
  at_work fr -> Inv fr q -> (length (inbox q) < fuel)%nat -> total (qmi_data_ready_work env fuel (W q)) (fun _ => Inv fr).
Proof.
  induction fuel as [|fuel IH]; intros fr q Hw HI Hf; [lia|]. cbn [qmi_data_ready_work].
  eapply total_step; [by apply (recv_one_total fr)|]. intros [] q1 [H1 H2]; [|done].
  destruct (H2 eq_refl) as [E1 E2]. apply IH; [done|done|]. rewrite E1. destruct (inbox q); [done|]. cbn in *. lia.
Qed.

(** ** The beginning and the end of a handle *)

(** Nothing is allocated and no socket is open. Transactions that still wait
    have been completed. *)
Record down (q : qmi) : Prop := {
  d_live : q_live q = ∅;
  d_sk : q_sk q = ∅;
  d_txn : forall a t, q_txn q !! a = Some t -> a < Z.of_nat (q_allocs q) /\ was_reset t;
}.

Definition with_live (q : qmi) (l : list Z) : qmi := q <| q_live := list_to_set l |>.

Lemma run_kzalloc q :
  kzalloc env (W q) = if e_alloc env (q_allocs q) then Ret (Some (Z.of_nat (q_allocs q))) (W (grown q <| q_live := {[Z.of_nat (q_allocs q)]} ∪ q_live q |>))
                      else Ret None (W (grown q)).
Proof. unfold kzalloc, fresh. rewrite run_assoc, run_gets, run_assoc, run_modify, run_ret. cbn [w_st W]. by destruct (e_alloc _ _). Qed.

(** Freeing an element of a list of live addresses. *)
Lemma total_kfree {B : Type} p l rest (k : unit -> M qmi B) q Q :
  q_live q = list_to_set l -> NoDup l -> l ≡ₚ p :: rest ->
  total (k tt (W (with_live q rest))) Q -> total (mbnd (kfree p) k (W q)) Q.
Proof.
  intros El Hd Hp Hk. rewrite Hp in Hd. apply NoDup_cons in Hd as [Hn _].
  assert (list_to_set l = ({[p]} ∪ list_to_set rest : gset Z)) as E by (rewrite <- list_to_set_cons; by apply list_to_set_perm_L).
  unfold kfree. rewrite run_assoc. apply total_gets. rewrite decide_True by (rewrite El, E; apply elem_of_union_l, elem_of_singleton; done).
  apply total_modify. match goal with |- total (k tt (W ?x)) _ => assert (x = with_live q rest) as -> end; [|done].
  unfold with_live. rewrite El, E. destruct q; cbn. f_equal. apply set_eq. intros x.
  rewrite elem_of_difference, elem_of_union, !elem_of_singleton, elem_of_list_to_set.
  split; [by intros [[?|?] ?]|]. intros Hx. split; [by right|]. by intros ->.
Qed.

(** Freeing a list of services; [J] says what the handle still lists. *)
Lemma free_services (g : qmi_handle -> qmi_handle) (J : list qmi_service -> qmi_handle -> Prop) rest ls : forall q,
  (forall svc l h, J (svc :: l) h -> J l (g h)) -> J ls (q_h q) ->
  q_live q = list_to_set (map svc_addr ls ++ rest) -> NoDup (map svc_addr ls ++ rest) ->
  total (for_each ls (fun svc => hmod g ;;; kfree (svc_addr svc)) (W q)) (fun _ q' =>
    J [] (q_h q') /\ q_live q' = list_to_set rest /\ q_sk q' = q_sk q /\ q_txn q' = q_txn q /\ q_allocs q' = q_allocs q).
Proof.
  induction ls as [|svc ls IH]; intros q Hg HJ El Hd; cbn [for_each]; [by split|]. rewrite run_assoc. apply total_modify.
  eapply (total_kfree _ _ (map svc_addr ls ++ rest)); [exact El|exact Hd|done|].
  eapply total_mono; [apply IH; [done|by eapply Hg|done|by apply NoDup_cons in Hd as [_ ?]]|]. by intros [] q' H.
Qed.

(** *** Transactions of a closing handle *)

(** The table and the objects, where no temporary is left. *)
Definition txns_ok (q : qmi) : Prop :=
  xa_sorted (txns (q_h q)) /\
  (forall k a, xa_load (txns (q_h q)) k = Some a -> exists t, q_txn q !! a = Some t /\ t_id t = k /\ t_qmi t = true /\ 0 <= t_done t) /\
  (forall a t, q_txn q !! a = Some t -> a < Z.of_nat (q_allocs q) /\ (outstanding q a t \/ was_reset t)).

Lemma get_next_all {A : Type} (x : xarray A) id :
  Forall (fun iv => id <= fst iv) x -> filter (fun iv : Z * A => id <= fst iv) x = x.
Proof. induction 1 as [|iv x Hi _ IH]; [done|]. by rewrite filter_cons_True, IH. Qed.

(** A transaction completed with a result. *)
Definition completed_with (t : qmi_txn) (rc : Z) : qmi_txn :=
  let t := t <| t_result := rc |> in if t_done t =? 2 ^ 32 - 1 then t else t <| t_done := t_done t + 1 |>.

Lemma finished_reset t : t_qmi t = true -> 0 <= t_done t -> was_reset (completed_with t (- ENETRESET)).
Proof. intros Hq Hd. unfold completed_with, was_reset. cbn. destruct (Z.eqb_spec (t_done t) (2 ^ 32 - 1)); cbn; split_and!; try done; lia. Qed.

(** Every transaction is taken out of the table and completed. *)
Lemma release_txns_total x : forall fuel id q,
  txns (q_h q) = x -> txns_ok q -> Forall (fun iv => id <= fst iv) x -> (length x < fuel)%nat ->
  total (release_txns fuel id (W q)) (fun _ q' =>
    q_h q' = (q_h q) <| txns := [] |> /\ q_live q' = q_live q /\ q_sk q' = q_sk q /\ q_allocs q' = q_allocs q /\
    forall a t, q_txn q' !! a = Some t -> a < Z.of_nat (q_allocs q) /\ was_reset t).
Proof.
  induction x as [|[i a] x IH]; intros [|fuel] id q Ex Ht Hall Hf; cbn [length] in Hf; try lia; cbn [release_txns]; apply total_gets;
    rewrite Ex; unfold idr_get_next; rewrite get_next_all by done; cbn [head hd_error].
  { destruct Ht as (_ & _ & Ht). split; [done|]. split; [by destruct q as [[]]; cbn in *; subst|]. do 3 (split; [done|]).
    intros a t Ha. destruct (Ht a t Ha) as [? [Ho|?]]; [|done]. unfold outstanding in Ho. by rewrite Ex in Ho. }
  destruct Ht as (Hs & Ht1 & Ht2). rewrite Ex in Hs, Ht1. destruct (Ht1 i a) as (t & Et & Hid & Hq & Hd); [cbn; by rewrite Z.eqb_refl|].
  eapply total_get_txn; [exact Et|]. rewrite Hid. apply total_modify, total_modify. unfold complete. rewrite run_assoc.
  eapply total_get_txn; [apply lookup_insert_eq|]. apply total_modify. cbn [q_txn set_field]. rewrite insert_insert_eq. fold (completed_with t (- ENETRESET)).
  match goal with |- total (_ (W ?s)) _ => set (q1 := s) end.
  assert (txns (q_h q1) = x) as E1 by (cbn; rewrite Ex; by apply xa_erase_head).
  assert (forall k b, xa_load x k = Some b -> i < k /\ b <> a) as Hlt.
  { intros k b Hk. inversion Hs as [|? ? Hs' Hgt]; subst. rewrite Forall_forall in Hgt. apply xa_elem_load in Hk; [|done].
    specialize (Hgt _ Hk). cbn in Hgt. split; [done|]. intros ->. apply xa_elem_load in Hk; [|done].
    destruct (Ht1 k a) as (u & Eu & Hu & _); [cbn; by rewrite (proj2 (Z.eqb_neq _ _)) by lia|]. simplify_eq. lia. }
  eapply total_mono; [apply (IH fuel (i + 1) q1 E1)|].
  - rewrite <- E1 in Hlt. split; [rewrite E1; by inversion Hs|]. split.
    + intros k b Hk. destruct (Hlt k b Hk) as [Hk' Hne]. rewrite E1 in Hk. destruct (Ht1 k b) as (u & Eu & Hu).
      { cbn. by rewrite (proj2 (Z.eqb_neq _ _)) by lia. }
      exists u. split; [|done]. cbn. by rewrite lookup_insert_ne.
    + intros b u Hb. cbn in Hb. destruct (decide (a = b)) as [<-|Hne].
      { rewrite lookup_insert_eq in Hb. simplify_eq. split; [by apply (Ht2 a t)|]. right. by apply finished_reset. }
      rewrite lookup_insert_ne in Hb by done. destruct (Ht2 b u Hb) as [? [Ho|?]]; (split; [done|]); [left|by right].
      unfold outstanding in *. rewrite E1. rewrite Ex in Ho. cbn in Ho. destruct (i =? t_id u); [congruence|done].
  - apply Forall_forall. intros [k b] Hk. cbn. inversion Hs as [|? ? Hs' Hgt]; subst. rewrite Forall_forall in Hgt. specialize (Hgt _ Hk). cbn in Hgt. lia.
  - lia.
  - intros [] q' (F1 & F2 & F3 & F4 & F5). by split_and!.
Qed.

(** *** Init and release *)

(** What [qmi_handle_init] answers: the error of the step that failed. *)
Definition init_result (q : qmi) : Z :=
  let n := q_allocs q in
  if negb (e_alloc env n && e_alloc env (S n)) then - ENOMEM
  else
    let '(ret, _) := e_getsockname env (Z.of_nat (S (S n))) in
    let e := if e_sock_create env (S (S n)) <? 0 then e_sock_create env (S (S n)) else Z.min ret 0 in
    if e =? - EAFNOSUPPORT then - EPROBE_DEFER else e.

(** The handle is between init and release. *)
Definition alive (q : qmi) : Prop := exists s, sock (q_h q) = Sock s.

Definition init_done (q : qmi) (ret : Z) (q' : qmi) : Prop :=
  ret = init_result q /\
  if ret =? 0 then
    Inv idle q' /\ inbox q' = [] /\ lookups (q_h q') = [] /\ lookup_results (q_h q') = [] /\ services (q_h q') = [] /\ txns (q_h q') = [] /\
    q_txn q' = q_txn q
  else ret < 0 /\ down q' /\ ~ alive q'.

Lemma down_inv q q' :
  down q -> q_live q' = ∅ -> q_sk q' = q_sk q -> q_txn q' = q_txn q -> (q_allocs q <= q_allocs q')%nat -> down q'.
Proof. intros Hd E1 E2 E3 Ha. split; [done|by rewrite E2, (d_sk _ Hd)|]. rewrite E3. intros a t Hat. destruct (d_txn _ Hd a t Hat). split; [lia|done]. Qed.

Lemma init_total q size o hs :
  down q -> ~ alive q -> handlers_ok depth hs -> 0 <= size < 2 ^ 31 - 65536 - sizeof_qmi_header ->
  total (qmi_handle_init env size o hs (W q)) (init_done q).
Proof.
  intros Hd Hna Hh Hz. unfold sizeof_qmi_header in Hz. unfold qmi_handle_init. cbv zeta. apply total_modify, total_modify.
  set (sz := if _ <? sizeof_ctrl_pkt then _ else _). match goal with |- total (_ (W ?s)) _ => set (q1 := s) end.
  assert (sizeof_ctrl_pkt <= sz < 2 ^ 31 - 65536) as Hsz.
  { unfold sz, sizeof_ctrl_pkt, sizeof_qmi_header. assert (u64 (size + 7) = size + 7) as -> by (apply Z.mod_small; lia).
    destruct (Z.ltb_spec (size + 7) 20); lia. }
  unfold init_done, init_result. set (n := q_allocs q).
  assert (forall k : nat, (0 < k)%nat -> Z.of_nat n <> Z.of_nat (k + n)) as Hne by lia.
  apply total_bind. rewrite run_kzalloc. change (q_allocs q1) with n. destruct (e_alloc env n) eqn:A1; cbn [andb negb].
  2: { split; [done|]. split; [done|]. split; [done|]. split; [done|]. split; [|exact Hna]. apply (down_inv q); try done; [apply Hd|cbn; lia]. }
  split; [done|]. apply total_modify, total_bind. rewrite run_kzalloc.
  match goal with |- context [e_alloc env ?k] => change k with (S n) end. destruct (e_alloc env (S n)) eqn:A2; cbn [negb].
  2: { split; [done|]. eapply (total_kfree (Z.of_nat n) [Z.of_nat n] []); [cbn; by rewrite (d_live _ Hd)|apply NoDup_singleton|done|].
       apply total_ret. split; [done|]. split; [done|]. split; [|exact Hna]. apply (down_inv q); try done. cbn. lia. }
  split; [done|]. apply total_modify.
  match goal with |- total (_ (W ?s)) _ => set (q2 := s) end.
  assert (q_live q2 = list_to_set [Z.of_nat (S n); Z.of_nat n]) as El.
  { cbn -[Z.of_nat]. by rewrite (d_live _ Hd). }
  eapply total_step; [apply sock_create_total; cbn; by rewrite (d_sk _ Hd)|]. intros r q3 Hr. unfold sock_created in Hr.
  change (q_allocs q2) with (S (S n)) in Hr. cbv zeta in Hr. destruct (e_getsockname env _) as [ret a].
  assert (forall e, e < 0 -> r = Err e -> q3 = grown q2 ->
    total ((hmod (fun h => h <| sock := SockErr e |>) ;;; kfree (Z.of_nat (S n)) ;;; kfree (Z.of_nat n) ;;;
      mret (if e =? - EAFNOSUPPORT then - EPROBE_DEFER else e)) (W q3))
      (fun v q' => v = (if e =? - EAFNOSUPPORT then - EPROBE_DEFER else e) /\ v < 0 /\ down q' /\ ~ alive q')) as Fail.
  { intros e He _ ->. apply total_modify. eapply (total_kfree _ [Z.of_nat (S n); Z.of_nat n] [Z.of_nat n]); [exact El| |done|].
    { apply NoDup_cons. split; [|apply NoDup_singleton]. rewrite list_elem_of_singleton. lia. }
    eapply (total_kfree _ [Z.of_nat n] []); [done|apply NoDup_singleton|done|]. apply total_ret. split; [done|].
    split; [destruct (_ =? _); unfold EPROBE_DEFER; lia|]. split; [|by intros [? ?]]. apply (down_inv q); try done. cbn. lia. }
  destruct (e_sock_create _ _ <? 0) eqn:C1; zbool.
  { destruct Hr as [-> ->]. eapply total_mono; [by apply Fail|]. intros v q' (-> & Hv & Hq). split; [done|].
    rewrite (proj2 (Z.eqb_neq _ _)) by lia. done. }
  destruct (ret <? 0) eqn:C2; zbool.
  { destruct Hr as [-> ->]. eapply total_mono; [by apply Fail|]. intros v q' (-> & Hv & Hq). rewrite Z.min_l by lia. split; [done|].
    rewrite (proj2 (Z.eqb_neq _ _)) by lia. done. }
  destruct Hr as [-> ->]. rewrite Z.min_r by lia. apply total_modify, total_ret. split; [done|]. cbn [Z.eqb].
  match goal with |- Inv idle ?s /\ _ => set (q4 := s) end.
  split; [|split; [unfold inbox; cbn; by rewrite lookup_insert_eq|done]].
  assert (owned (q_h q4) = [Z.of_nat n; Z.of_nat (S n)]) as Eo by done.
  split; try done; rewrite ?Eo; cbn [f_mem idle app].
  - apply NoDup_cons. split; [rewrite list_elem_of_singleton; lia|apply NoDup_singleton].
  - change (q_live q4) with (q_live q2). rewrite El. by apply list_to_set_perm_L, perm_swap.
  - intros p Hp. rewrite !elem_of_cons, elem_of_nil in Hp. change (q_allocs q4) with (S (S (S n))). lia.
  - exists (Z.of_nat (S (S n))). split; [done|]. split; [change (q_allocs q4) with (S (S (S n))); lia|]. exists [].
    split; [|done]. change (q_sk q4) with (<[Z.of_nat (S (S n)) := mk_ksock true []]> (q_sk q)). by rewrite (d_sk _ Hd), insert_empty.
  - constructor.
  - intros b t Hb. destruct (d_txn _ Hd b t Hb) as [Hlt Hr]. split; [change (q_allocs q4) with (S (S (S n))); lia|]. by right; right.
Qed.

(** The frame while the socket no longer reports to the handle. *)
Definition leaving : frame := mk_frame ∅ [] None false false.

(** A released handle owns nothing, and every transaction that still waits was
    completed with an error. *)
Definition released (q : qmi) : Prop :=
  down q /\ sock (q_h q) = SockNull /\ lookups (q_h q) = [] /\ lookup_results (q_h q) = [] /\ services (q_h q) = [] /\ txns (q_h q) = [].

Lemma inv_txns_ok fr q : Inv fr q -> f_txn fr = ∅ -> txns_ok q.
Proof.
  intros HI E. split; [apply HI|]. split.
  - intros k a Hk. destruct (i_table _ _ _ HI k a Hk) as (_ & _ & t & Et & Hid & Hq & _ & _ & Hd). by exists t.
  - intros a t Et. destruct (i_txn _ _ _ HI a t Et) as [Ha [Hin|Hx]]; [|done]. rewrite E in Hin. set_solver.
Qed.

Lemma release_total q : Inv idle q -> total (qmi_handle_release env (W q)) (fun _ => released).
Proof.
  intros HI. unfold qmi_handle_release. apply total_gets.
  pose proof (i_sock _ _ _ HI) as (s & E0 & Hlt & l & Ek & Hrx). rewrite E0. unfold get_ksock. rewrite run_assoc, run_gets.
  cbn [w_st W]. rewrite Ek, lookup_singleton_eq, run_or_fault. apply total_modify, total_modify.
  match goal with |- total (_ (W ?x)) _ => set (q1 := x) end.
  assert (Inv leaving q1) as H1.
  { apply (sockets_inv idle leaving q); try done; [apply HI|]. exists s. split; [exact E0|]. split; [done|]. exists l. split; [|done].
    cbn. by rewrite Ek, insert_singleton_eq. }
  eapply total_step; [by apply (del_server_total leaving)|]. intros [] q2 (H2 & S2 & R2). rewrite unmatched_all in R2.
  apply (total_lock_sock depth leaving); [done|]. pose proof (i_sock _ _ _ H2) as (s' & E2 & _ & l' & Ek2 & _).
  assert (s' = s) as -> by (rewrite (c_sock _ _ S2) in E2; cbn in E2; congruence).
  unfold sock_release, get_ksock. rewrite !run_assoc, run_gets. cbn [w_st W]. change (q_sk (slocked q2)) with (q_sk q2).
  rewrite Ek2, lookup_singleton_eq, run_or_fault. apply total_modify, total_modify, total_modify, total_gets.
  match goal with |- total (_ (W ?x)) _ => set (q3 := x) end.
  assert (q_sk q3 = ∅) as Ek3 by (cbn; by rewrite Ek2, delete_singleton_eq).
  assert (owned (q_h q3) = recv_buf (q_h q2) :: wq (q_h q2) :: map svc_addr (lookups (q_h q2)) ++ map svc_addr (services (q_h q2))) as Eo.
  { change (owned (q_h q3)) with (owned (q_h q2)). unfold owned. by rewrite R2, map_app. }
  pose proof (i_live _ _ _ H2) as El. pose proof (i_nodup _ _ _ H2) as Hn. cbn [leaving f_mem app] in El, Hn.
  change (owned (q_h q2)) with (owned (q_h q3)) in El, Hn. rewrite Eo in El, Hn.
  eapply (total_kfree (wq (q_h q2)) _ (recv_buf (q_h q2) :: map svc_addr (lookups (q_h q2)) ++ map svc_addr (services (q_h q2)))); [exact El|exact Hn|by apply perm_swap|].
  assert (NoDup (recv_buf (q_h q2) :: map svc_addr (lookups (q_h q2)) ++ map svc_addr (services (q_h q2)))) as Hn1.
  { apply NoDup_cons in Hn as [Hx Hn]. apply NoDup_cons in Hn as [Hy Hn]. apply NoDup_cons. split; [|done]. intros Hin. apply Hx. by right. }
  unfold lock_txns. rewrite run_assoc. apply total_wait; [cbn; by rewrite (i_tlock _ _ _ H2)|]. apply total_modify, total_gets.
  match goal with |- total (_ (W ?x)) _ => set (q4 := x) end.
  eapply total_step; [apply (release_txns_total (txns (q_h q4))); [done|exact (inv_txns_ok leaving q2 H2 eq_refl)| |lia]|].
  { apply Forall_forall. intros [k a] Hk. apply xa_elem_load in Hk; [|apply H2]. cbn. by destruct (i_table _ _ _ H2 k a Hk) as ([? _] & _). }
  intros [] q5 (F1 & F2 & F3 & F4 & F5). unfold unlock_txns. apply total_modify, total_modify, total_gets.
  match goal with |- total (_ (W ?x)) _ => set (q6 := x) end.
  assert (q_live q6 = q_live q4) as El6 by exact F2.
  assert (recv_buf (q_h q6) = recv_buf (q_h q2) /\ lookups (q_h q6) = lookups (q_h q2) /\ services (q_h q6) = services (q_h q2) /\
    sock (q_h q6) = SockNull /\ lookup_results (q_h q6) = [] /\ txns (q_h q6) = []) as (Eb & Elk & Esv & Esk & Elr & Etx).
  { cbn. rewrite F1. by split_and!. }
  rewrite Eb. eapply (total_kfree (recv_buf (q_h q2)) _ (map svc_addr (lookups (q_h q2)) ++ map svc_addr (services (q_h q2))));
    [exact El6|exact Hn1|done|]. apply NoDup_cons in Hn1 as [_ Hn1].
  assert (q_sk q6 = ∅) as Ek6 by (rewrite <- Ek3; exact F3).
  match goal with |- total (_ (W ?x)) _ => set (q7 := x) end. clearbody q4 q3.
  apply total_gets. change (lookups (q_h q7)) with (lookups (q_h q6)). rewrite Elk.
  set (J := fun l h => lookups h = l /\ services h = services (q_h q2) /\ sock h = SockNull /\ lookup_results h = [] /\ txns h = []).
  eapply total_step; [apply (free_services (fun h => h <| lookups := tail (lookups h) |>) J (map svc_addr (services (q_h q2))))|].
  { unfold J. intros svc l2 h (E & ?). cbn. by rewrite E. } { by split_and!. } { done. } { done. }
  intros [] q8 ((G1 & G2 & G3 & G4 & G5) & El8 & Ek8 & Ex8 & Ea8). apply total_gets. rewrite G2.
  set (J' := fun l h => services h = l /\ lookups h = [] /\ sock h = SockNull /\ lookup_results h = [] /\ txns h = []).
  apply NoDup_app in Hn1 as (_ & _ & Hn2).
  eapply total_mono; [apply (free_services (fun h => h <| services := tail (services h) |>) J' [])|].
  { unfold J'. intros svc l2 h (E & ?). cbn. by rewrite E. } { by split_and!. } { by rewrite app_nil_r. } { by rewrite app_nil_r. }
  intros [] q9 ((G6 & G7 & G8 & G9 & G10) & El9 & Ek9 & Ex9 & Ea9). split; [|done].
  split; [done|rewrite Ek9, Ek8; exact Ek6|]. intros a t Ha. rewrite Ex9, Ex8 in Ha. rewrite Ea9, Ea8.
  change (q_allocs q7) with (q_allocs q5). rewrite F4. by apply (F5 a t).
Qed.
End Recv.
