(* ===== verification/QmiOps.v ===== *)
(** * QmiOps: a QMI handle as a transition system

    The calls that clients, the network and the work queue make, what they promise
    about them, and the states that any sequence of such calls reaches. A call
    that may end while other threads run is split where it waits: a wait takes
    effect when it ends. *)
From stdpp Require Import prelude gmap list relations.
From S2P Require Import Prelude.
From S2P Require Import Effects.
From S2P Require Import QmiEncdec.
From S2P Require Import XArray.
From S2P Require Import Qrtr.
From S2P Require Import QmiInterface.
From S2P Require Import QmiInv.
From S2P Require Import QmiSafe.
From S2P Require Import QmiRecv.
#[local] Open Scope kernel_scope.

Inductive qmi_op :=
| OpInit (size : Z) (o : option qmi_ops) (hs : option (list qmi_msg_handler))
| OpRelease
| OpAddLookup (service version instance : Z)
| OpAddServer (service version instance : Z)
| OpTxnInit (a : Z) (ei : option (list qmi_elem_info)) (dest : option Z)
| OpTxnWait (a : Z)
| OpTxnExpired (a : Z)
| OpTxnCancel (a : Z)
| OpRequest (to : option sockaddr_qrtr) (a msg_id len : Z) (ei : option (list qmi_elem_info)) (c : option Z)
| OpResponse (to : option sockaddr_qrtr) (a msg_id len : Z) (ei : option (list qmi_elem_info)) (c : option Z)
| OpIndication (to : option sockaddr_qrtr) (msg_id len : Z) (ei : option (list qmi_elem_info)) (c : option Z)
| OpMemory (m : mem)
| OpDeliver (s : Z) (r : rx)
| OpWork.

Definition discard {A : Type} (c : M qmi A) : M qmi unit := c ;;; mret tt.

(** The network core queues a datagram and tells the socket. *)
Definition deliver (s : Z) (r : rx) : M qmi unit :=
  x <-- get_ksock s ;;;
  set_ksock s (mk_ksock (ks_user x) (ks_rx x ++ [r])) ;;;
  qmi_data_ready s.

Section Ops.
Context {XC : XaCyclic}.

(** The work queue runs the worker once for every time it was queued; the worker
    gets as much fuel as there are messages and one turn more. *)
Definition run_worker (env : qmi_env) : M qmi unit :=
  w <-- hget work ;;;
  if w : bool then
    hmod (fun h => h <| work := false |>) ;;;
    fuel <-- gets (fun q => S (length (inbox q))) ;;;
    qmi_data_ready_work env fuel
  else mret tt.

(** The memory of a transaction is given back when it is waited for or cancelled,
    or when it got no number. *)
Definition run_op (env : qmi_env) (o : qmi_op) : M qmi unit :=
  match o with
  | OpInit size o hs => discard (qmi_handle_init env size o hs)
  | OpRelease => qmi_handle_release env
  | OpAddLookup s v i => discard (qmi_add_lookup env s v i)
  | OpAddServer s v i => discard (qmi_add_server env s v i)
  | OpTxnInit a ei dest => ret <-- qmi_txn_init env a ei dest ;;; if ret <? 0 then drop_txn a else mret tt
  | OpTxnWait a => qmi_txn_wait env a ;;; drop_txn a
  | OpTxnExpired a => txn_wait_rest a 0 ;;; drop_txn a
  | OpTxnCancel a => qmi_txn_cancel a ;;; drop_txn a
  | OpRequest to a id len ei c => discard (qmi_send_request env to a id len ei c)
  | OpResponse to a id len ei c => discard (qmi_send_response env to a id len ei c)
  | OpIndication to id len ei c => discard (qmi_send_indication env to id len ei c)
  | OpMemory m => modify (fun q => q <| q_mem := m |>)
  | OpDeliver s r => deliver s r
  | OpWork => run_worker env
  end.

Context (depth : nat).

(** The callers' side. A transaction starts in memory that is not in use, its
    response fits where it is decoded to, and it is waited for or cancelled once;
    it is not cancelled after its handle was released. *)
Definition op_ok (q : qmi) (o : qmi_op) : Prop :=
  match o with
  | OpInit size o hs => ~ alive q /\ handlers_ok depth hs /\ 0 <= size < 2 ^ 31 - 65536 - sizeof_qmi_header
  | OpTxnInit a ei dest => alive q /\ q_txn q !! a = None /\ a < Z.of_nat (q_allocs q) /\ txn_fits depth ei dest
  | OpTxnWait a | OpTxnExpired a => is_Some (q_txn q !! a)
  | OpTxnCancel a => alive q /\ exists t, q_txn q !! a = Some t /\ t_result t <> - ENETRESET
  | OpRequest _ a id len ei c => alive q /\ exists t, q_txn q !! a = Some t /\ encodes depth q QMI_REQUEST id len (t_id t) ei c
  | OpResponse _ a id len ei c => alive q /\ exists t, q_txn q !! a = Some t /\ encodes depth q QMI_RESPONSE id len (t_id t) ei c
  | OpIndication _ id len ei c => alive q /\ forall txn_id, encodes depth q QMI_INDICATION id len txn_id ei c
  | OpMemory _ => True
  | OpDeliver s r => is_Some (q_sk q !! s) /\ rx_ok r
  | _ => alive q
  end.

Inductive step (q q' : qmi) : Prop :=
| step_op env o : client_ok depth env -> op_ok q o -> run_op env o (W q) = Ret tt (W q') -> step q q'.

Definition zero_handle : qmi_handle :=
  mk_qmi SockNull false (mk_sq 0 0) false 0 0 (fun _ => 0) 0 [] [] [] (mk_ops false false false false false false) [] 0 false None.

(** A handle of zeroes and nothing else; addresses below [n] are the client's. *)
Definition boot (n : nat) : qmi := mk_state zero_handle ∅ ∅ ∅ (fun _ => 0) n [].

Definition reachable (q : qmi) : Prop := exists n, rtc step (boot n) q.

(** ** The invariant of reachable states *)

Definition good (q : qmi) : Prop := (alive q /\ Inv depth idle q) \/ (~ alive q /\ down q).

Lemma boot_good n : good (boot n).
Proof. right. split; [by intros [s ?]|]. split; done. Qed.

Lemma idle_alive q : Inv depth idle q -> alive q.
Proof. intros HI. pose proof (i_sock _ _ _ HI) as (s & E & _). by exists s. Qed.

Lemma idle_good q : Inv depth idle q -> good q.
Proof. intros HI. left. split; [by apply idle_alive|done]. Qed.

Lemma good_alive q : good q -> alive q -> Inv depth idle q.
Proof. intros [[_ HI]|[Hn _]] Ha; done. Qed.

Lemma discard_total {A : Type} (c : M qmi A) q P : total (c (W q)) (fun _ => P) -> total (discard c (W q)) (fun _ => P).
Proof. intros H. eapply total_step; [exact H|]. intros a q' HP. by apply total_ret. Qed.

Lemma drop_total q a : Inv depth (tmp a idle) q -> total (drop_txn a (W q)) (fun _ => Inv depth idle).
Proof. intros HI. split; [done|]. destruct (drop_tmp_inv depth idle q a HI) as [H _]; [apply not_elem_of_empty|exact H]. Qed.

(** A transaction that was reset needs its handle no more. *)
Lemma down_drop q a : ~ alive q -> down q -> total (drop_txn a (W q)) (fun _ => good).
Proof.
  intros Hn [H1 H2 H3]. split; [done|]. right. split; [exact Hn|]. split; [done|done|].
  intros b t Hb. cbn in Hb. apply lookup_delete_Some in Hb as [_ Hb]. by apply H3.
Qed.

Lemma rest_reset q a t ret : q_txn q !! a = Some t -> was_reset t -> txn_wait_rest a ret (W q) = Ret (- ENETRESET) (W q).
Proof.
  intros Et (_ & Hr & _). unfold txn_wait_rest, get_txn. rewrite run_assoc, run_gets. cbn [w_st W]. rewrite Et, run_or_fault, Hr. done.
Qed.

(** A wait for it returns at once. *)
Lemma wait_reset env q a t :
  q_txn q !! a = Some t -> was_reset t ->
  qmi_txn_wait env a (W q) = Ret (- ENETRESET) (W (q <| q_txn := <[a := t <| t_done := t_done t - 1 |>]> (q_txn q) |>)).
Proof.
  intros Et (Hq & Hr & Hd). unfold qmi_txn_wait, txn_handle, get_txn. rewrite !run_assoc, run_gets. cbn [w_st W].
  rewrite Et, run_or_fault, Hq, run_ret. unfold wait_for_completion_timeout. rewrite run_assoc. unfold mbnd at 1.
  assert (wait_upto (e_wait env) (completed a) (W q) = Ret true (W q)) as ->.
  { assert (completed a q = true) as E by (unfold completed; rewrite Et; by apply Z.ltb_lt).
    unfold wait_upto, W. destruct (e_wait env); cbn; by rewrite E. }
  unfold get_txn. rewrite !run_assoc, run_gets. cbn [w_st W]. rewrite Et, run_or_fault, run_assoc. unfold set_txn. rewrite run_modify, run_ret.
  cbn [w_st W with_st w_sched]. unfold txn_wait_rest, get_txn. rewrite run_assoc, run_gets.
  change (q_txn (w_st (with_st (W q) (q <| q_txn := <[a := t <| t_done := t_done t - 1 |>]> (q_txn q) |>)))) with (<[a := t <| t_done := t_done t - 1 |>]>
    (q_txn q)).
  rewrite lookup_insert_eq, run_or_fault. change (t_result (t <| t_done := t_done t - 1 |>)) with (t_result t). by rewrite Hr.
Qed.

Context {XL : XaCyclicLaws XC}.

Lemma deliver_total q s r : Inv depth idle q -> is_Some (q_sk q !! s) -> rx_ok r -> total (deliver s r (W q)) (fun _ => Inv depth idle).
Proof.
  intros HI [x Hx] Hr. unfold deliver, get_ksock. rewrite run_assoc, run_gets. cbn [w_st W]. rewrite Hx, run_or_fault. apply total_modify.
  pose proof (i_sock _ _ _ HI) as (s0 & E0 & Hlt & l & Ek & Hrx). rewrite Ek in Hx. apply lookup_singleton_Some in Hx as [<- <-].
  unfold qmi_data_ready, get_ksock. rewrite run_assoc, run_gets. cbn [w_st W q_sk set_field]. rewrite lookup_insert_eq, run_or_fault.
  cbn [negb ks_user ks_rx]. apply total_gets, total_gets. cbn [q_h q_live wq set_field].
  rewrite decide_True by (rewrite (i_live _ _ _ HI); apply elem_of_list_to_set; right; left).
  split; [done|]. apply (sockets_inv depth idle idle q); try done; [apply HI|]. exists s0. split; [done|]. split; [done|].
  exists (l ++ [r]). split; [cbn; by rewrite Ek, insert_singleton_eq|]. apply Forall_app. split; [done|]. by constructor.
Qed.

Lemma worker_total env q : client_ok depth env -> Inv depth idle q -> total (run_worker env (W q)) (fun _ => Inv depth idle).
Proof.
  intros Hc HI. apply total_gets. destruct (work (q_h q)); [|done]. apply total_modify, total_gets.
  apply (work_total depth env Hc); [done| |apply Nat.lt_succ_diag_r]. apply (own_ext depth idle idle q); try done; apply HI.
Qed.

Lemma run_op_total env q o : client_ok depth env -> good q -> op_ok q o -> total (run_op env o (W q)) (fun _ => good).
Proof.
  intros Hc HG Hok. assert (forall c : M qmi unit, total (c (W q)) (fun _ => Inv depth idle) -> total (c (W q)) (fun _ => good)) as up.
  { intros c H. eapply total_mono; [exact H|]. intros u q'. apply idle_good. }
  destruct o; cbn [run_op op_ok] in *.
  - destruct Hok as (Hn & Hh & Hz). destruct HG as [[]|[_ Hd]]; [done|]. apply discard_total.
    eapply total_mono; [by apply init_total|]. intros ret q' [_ H]. destruct (ret =? 0); [apply idle_good; tauto|right; tauto].
  - eapply total_mono; [apply (release_total depth env Hc); by apply good_alive|]. intros [] q' (Hd & Hs & _). right. split; [|done].
    intros [s E]. congruence.
  - apply up, discard_total. eapply total_mono; [apply (add_lookup_keeps depth env idle); by apply good_alive|]. by intros _ q' [? _].
  - apply up, discard_total. eapply total_mono; [apply (add_server_keeps depth env idle); by apply good_alive|]. by intros _ q' [? _].
  - destruct Hok as (Ha & Hu & Hlt & Hf). apply up. eapply total_step; [apply (txn_init_total depth env idle); try done; by apply good_alive|].
    intros ret q' (_ & _ & _ & _ & H). destruct (ret <? 0); [by apply drop_total|]. apply total_ret, H.
  - destruct Hok as [t Et]. destruct HG as [[_ HI]|[Hn Hd]].
    + apply up. eapply total_step; [apply (txn_wait_total depth env idle q a t); try done; apply not_elem_of_empty|].
      intros v q' (_ & H & _). by apply drop_total.
    + destruct (d_txn _ Hd a t Et) as [Hlt Hr]. apply total_bind. rewrite (wait_reset env q a t) by done. split; [done|].
      split; [done|]. right. split; [exact Hn|]. split; [apply Hd|apply Hd|]. intros b u Hb. cbn in Hb. rewrite delete_insert_eq in Hb.
      apply lookup_delete_Some in Hb as [_ Hb]. by apply (d_txn _ Hd).
  - destruct Hok as [t Et]. destruct HG as [[_ HI]|[Hn Hd]].
    + apply up. eapply total_step; [apply (wait_rest_total depth idle q a t); try done; apply not_elem_of_empty|].
      intros v q' [_ Hw]. apply drop_total. by apply (waited_inv _ _ _ _ _ _ Hw).
    + destruct (d_txn _ Hd a t Et) as [_ Hr]. apply total_bind. rewrite (rest_reset q a t) by done. split; [done|].
      by apply down_drop.
  - destruct Hok as (Ha & t & Et & Hr). pose proof (good_alive q HG Ha) as HI. apply up.
    assert (outstanding q a t) as Ho by (destruct (i_txn _ _ _ HI a t Et) as [_ [Hin|[?|(_ & ? & _)]]]; [by apply elem_of_empty in Hin|done|done]).
    eapply total_step; [by apply (cancel_total depth idle q a t)|]. intros [] q' (H & _). by apply drop_total.
  - destruct Hok as (Ha & t & Et & He). apply up, discard_total.
    eapply total_mono; [apply (send_message_total depth env idle q to a t); try done; by apply good_alive|].
    by intros v q' [H _].
  - destruct Hok as (Ha & t & Et & He). apply up, discard_total.
    eapply total_mono; [apply (send_message_total depth env idle q to a t); try done; by apply good_alive|].
    by intros v q' [H _].
  - destruct Hok as (Ha & He). apply up, discard_total. eapply total_mono; [apply (send_indication_total depth env idle); try done; by apply good_alive|].
    by intros v q' [H _].
  - split; [done|]. destruct HG as [[Ha HI]|[Hn Hd]]; [|right; split; [exact Hn|by destruct Hd]]. apply idle_good.
    apply (silent_inv depth idle q _ (silent_mem (fun _ => m)) HI).
  - destruct Hok as [Hs Hr]. destruct HG as [[Ha HI]|[_ Hd]]; [by apply up, deliver_total|]. rewrite (d_sk _ Hd) in Hs. by destruct Hs.
  - apply up, worker_total; [done|]. by apply good_alive.
Qed.

Lemma step_good q q' : step q q' -> good q -> good q'.
Proof.
  intros [env o Hc Hok E] HG. pose proof (run_op_total env q o Hc HG Hok) as H. rewrite E in H. by destruct H.
Qed.

Lemma reachable_good q : reachable q -> good q.
Proof.
  intros [n H]. pose proof (boot_good n) as HG. revert HG. induction H as [|q1 q2 q3 H12 _ IH]; [done|].
  intros HG. apply IH. by eapply step_good.
Qed.
End Ops.
