(* ===== verification/QmiThm.v ===== *)
(** * QmiThm: what holds of a QMI handle in every reachable state

    The theorems about the transition system of QmiOps.v: calls return, the table
    of transactions is exact, the beginning and the end of a handle leave nothing
    behind, a response completes its own transaction, and a reset of the network
    registers everything again. *)
From stdpp Require Import prelude gmap list relations.
From S2P Require Import Prelude.
From S2P Require Import Effects.
From S2P Require Import QmiEncdec.
From S2P Require Import XArray.
From S2P Require Import Qrtr.
From S2P Require Import QrtrPkt.
From S2P Require Import QmiInterface.
From S2P Require Import QmiInv.
From S2P Require Import QmiSafe.
From S2P Require Import QmiRecv.
From S2P Require Import QmiOps.
#[local] Open Scope kernel_scope.

Section Thm.
Context {XC : XaCyclic} {XL : XaCyclicLaws XC} (depth : nat).

Abbreviation reachable := (reachable depth).

(** C10. In every state that calls of clients, of the network and of the work
    queue reach, the next such call returns, in a reachable state: it does not
    touch memory that was freed or a transaction whose owner has returned, frees
    nothing twice, does not wait for a lock held by itself, and its loops end.
    This holds for clients whose callbacks and message handlers return, keep the
    invariant and do not wait on the handle themselves ([client_ok]; one that
    does waits for ever, [response_handler_waits_for_itself]), and for calls as
    [op_ok] has them: on an initialised handle, with transactions of the client
    that are alive and descriptors that fit the structures. *)
Theorem qmi_calls_return env q o :
  reachable q -> client_ok depth env -> op_ok depth q o ->
  exists q', run_op env o (W q) = Ret tt (W q') /\ reachable q'.
Proof.
  intros Hq Hc Ho. pose proof (run_op_total depth env q o Hc (reachable_good depth q Hq) Ho) as H.
  apply total_run in H as ([] & q' & E & _). exists q'. split; [done|]. destruct Hq as [n Hq]. exists n.
  eapply rtc_r; [exact Hq|]. by apply (step_op depth q q' env o).
Qed.

(** C27. In a reachable state of a handle the table and the transactions that
    clients wait for agree: an index leads to the transaction that has it as its
    number; a transaction is found by its number and by no other, so that no two
    have the same number, or it was completed when an earlier handle was
    released. *)
Theorem txn_table_exact q :
  reachable q -> alive q ->
  (forall k a, xa_load (txns (q_h q)) k = Some a ->
     0 <= k <= txn_id_max /\ exists t, q_txn q !! a = Some t /\ t_id t = k /\ t_result t <> - ENETRESET) /\
  (forall a t, q_txn q !! a = Some t ->
     (forall k, xa_load (txns (q_h q)) k = Some a <-> k = t_id t) \/
     ((forall k, xa_load (txns (q_h q)) k <> Some a) /\ was_reset t)).
Proof.
  intros Hq Ha. pose proof (good_alive depth q (reachable_good depth q Hq) Ha) as HI.
  assert (forall k a, xa_load (txns (q_h q)) k = Some a ->
    0 <= k <= txn_id_max /\ exists t, q_txn q !! a = Some t /\ t_id t = k /\ t_result t <> - ENETRESET) as T.
  { intros k a Hk. destruct (i_table _ _ _ HI k a Hk) as (H1 & _ & t & H2 & H3 & _ & H4 & _). split; [done|]. by exists t. }
  split; [exact T|]. intros a t Et. destruct (i_txn _ _ _ HI a t Et) as [_ [Hin|[Ho|Hr]]]; [by apply elem_of_empty in Hin| |].
  - left. intros k. split; [|by intros ->]. intros Hk. destruct (T k a Hk) as (_ & u & Eu & Hid & _). congruence.
  - right. split; [|done]. intros k Hk. destruct (T k a Hk) as (_ & u & Eu & _ & Hn). destruct Hr as (_ & Hr & _). congruence.
Qed.

(** C32. Setting up a handle reports the step that failed, [-EPROBE_DEFER] when
    there is no such protocol family yet, and undoes the steps before: nothing
    stays allocated, no socket stays open. After success the handle has a socket
    and has registered and been told nothing. *)
Theorem init_reports_and_undoes env q size o hs :
  reachable q -> op_ok depth q (OpInit size o hs) ->
  exists q', qmi_handle_init env size o hs (W q) = Ret (init_result env q) (W q') /\
    if init_result env q =? 0 then
      alive q' /\ lookups (q_h q') = [] /\ lookup_results (q_h q') = [] /\ services (q_h q') = [] /\ txns (q_h q') = []
    else init_result env q < 0 /\ ~ alive q' /\ q_live q' = ∅ /\ q_sk q' = ∅.
Proof.
  intros Hq (Hn & Hh & Hz). destruct (reachable_good depth q Hq) as [[]|[_ Hd]]; [done|].
  pose proof (init_total depth env q size o hs Hd Hn Hh Hz) as H. apply total_run in H as (ret & q' & E & -> & H).
  exists q'. split; [done|]. destruct (init_result env q =? 0).
  - destruct H as (HI & _ & H1 & H2 & H3 & H4 & _). split; [by eapply idle_alive|done].
  - destruct H as (H1 & [] & H2). done.
Qed.

(** C26. Releasing a handle gives everything back: no allocation and no socket of
    it is left, its lists and its table are empty. Every client that still waits
    for a response is woken and gets [-ENETRESET] without touching the handle. *)
Theorem release_ends_all env q :
  reachable q -> client_ok depth env -> alive q ->
  exists q', qmi_handle_release env (W q) = Ret tt (W q') /\
    q_live q' = ∅ /\ q_sk q' = ∅ /\ lookups (q_h q') = [] /\ lookup_results (q_h q') = [] /\ services (q_h q') = [] /\ txns (q_h q') = [] /\
    forall env' a, is_Some (q_txn q' !! a) -> exists h, qmi_txn_wait env' a (W q') = Ret (- ENETRESET) (W (q' <| q_txn := h |>)).
Proof.
  intros Hq Hc Ha. pose proof (good_alive depth q (reachable_good depth q Hq) Ha) as HI.
  pose proof (release_total depth env Hc q HI) as H. apply total_run in H as ([] & q' & E & Hd & _ & H1 & H2 & H3 & H4).
  exists q'. split; [done|]. split; [apply Hd|]. split; [apply Hd|]. do 4 (split; [done|]). intros env' a [t Et].
  destruct (d_txn _ Hd a t Et) as [_ Hr]. eexists. by apply wait_reset.
Qed.

Lemma total_lock {B : Type} q (k : unit -> M qmi B) Q :
  txn_lock (q_h q) = false -> total (k tt (W (q <| q_h := (q_h q) <| txn_lock := true |> |>))) Q -> total (mbnd lock_txns k (W q)) Q.
Proof. intros Hl Hk. unfold lock_txns. rewrite run_assoc. apply total_wait; [by rewrite Hl|]. by apply total_modify. Qed.

Lemma response_exact env q from buf len a t ei d rc m :
  e_depth env = depth -> txn_lock (q_h q) = false ->
  xa_load (txns (q_h q)) (hdr_txn_id buf) = Some a -> q_txn q !! a = Some t -> t_ei t = Some ei -> t_dest t = Some d ->
  qmi_decode_message depth buf (Some 0) len (Some ei) (q_mem q) (Some d) = Some (rc, m) ->
  total (handle_response env from buf len (W q)) (fun _ q' =>
    q' = q <| q_mem := m |> <| q_txn := <[a := completed_with t rc]> (q_txn q) |>).
Proof.
  intros Ed Hl Ex Et Ee Edst E. unfold handle_response. apply total_lock; [done|]. apply total_gets. cbn [q_h txns set_field]. rewrite Ex.
  eapply total_get_txn; [exact Et|]. rewrite Edst, Ee, run_assoc. apply total_gets. cbn [q_mem set_field].
  rewrite Ed, E, !run_assoc, run_or_fault, !run_assoc. apply total_modify. rewrite run_assoc. apply total_modify.
  unfold complete. rewrite run_assoc. eapply total_get_txn; [apply lookup_insert_eq|]. apply total_modify. split; [done|].
  cbn [w_st W q_txn set_field]. rewrite insert_insert_eq. unfold completed_with. cbn -[Z.pow]. rewrite Edst, Ee.
  destruct q as [h ? ? ? ? ? ?], h. cbn in Hl. by subst.
Qed.

Lemma wait_completed env q a t rc :
  q_txn q !! a = Some (completed_with t rc) -> txn_lock (q_h q) = false -> t_qmi t = true -> 0 <= t_done t ->
  rc <> - ENETRESET -> 1 <= e_jiffies env < 2 ^ 31 ->
  total (qmi_txn_wait env a (W q)) (fun v q' => v = rc /\ q_mem q' = q_mem q /\ txns (q_h q') = xa_erase (txns (q_h q)) (t_id t)).
Proof.
  intros Et Hl Hq Hd Hr Hj. unfold qmi_txn_wait, txn_handle. rewrite run_assoc. eapply total_get_txn; [exact Et|].
  assert (t_qmi (completed_with t rc) = true /\ t_id (completed_with t rc) = t_id t /\ t_result (completed_with t rc) = rc /\
    (0 <? t_done (completed_with t rc)) = true) as (-> & Hid & Hres & Hpos).
  { unfold completed_with. cbn -[Z.pow]. destruct (Z.eqb_spec (t_done t) (2 ^ 32 - 1)); cbn -[Z.pow]; split_and!; try done; apply Z.ltb_lt; lia. }
  rewrite run_ret. unfold wait_for_completion_timeout. rewrite run_assoc. apply total_bind.
  assert (wait_upto (e_wait env) (completed a) (W q) = Ret true (W q)) as ->.
  { assert (completed a q = true) as E by (unfold completed; rewrite Et; exact Hpos).
    unfold wait_upto, W. destruct (e_wait env); cbn; by rewrite E. }
  split; [done|]. cbn [w_st W]. rewrite run_assoc. eapply total_get_txn; [exact Et|]. rewrite run_assoc. apply total_modify. rewrite run_ret.
  unfold txn_wait_rest. eapply total_get_txn; [apply lookup_insert_eq|].
  set (t1 := (completed_with t rc) <| t_done := _ |>). change (t_result t1) with (t_result (completed_with t rc)). rewrite Hres, (proj2 (Z.eqb_neq _ _)) by done.
  apply total_lock; [done|]. apply total_modify, total_modify. rewrite s32_small by lia. rewrite (proj2 (Z.eqb_neq _ _)) by lia.
  eapply total_get_txn; [apply lookup_insert_eq|]. split; [done|]. change (t_result t1) with (t_result (completed_with t rc)).
  split; [done|]. split; [done|]. rewrite <- Hid. done.
Qed.

(** C25. A response completes the transaction that has its number and no other.
    It is decoded into the memory that this transaction gave, within the bounds
    of the structure, nothing else changes, and the client that waits gets what
    the decoder returned; then the number is free again. A response that no
    transaction waits for changes nothing. *)
Theorem response_completes_its_transaction env q from buf len :
  reachable q -> client_ok depth env -> alive q -> 1 <= e_jiffies env < 2 ^ 31 ->
  bytes_ok buf -> sizeof_qmi_header <= len < 2 ^ 31 - 65536 -> hdr_type buf = QMI_RESPONSE ->
  match xa_load (txns (q_h q)) (hdr_txn_id buf) with
  | None => qmi_handle_message env from buf len (W q) = Ret tt (W q)
  | Some a => exists t, q_txn q !! a = Some t /\ t_id t = hdr_txn_id buf /\
      forall ei d size, t_ei t = Some ei -> t_dest t = Some d -> ei_fits depth size ei = true ->
      exists rc m,
        qmi_decode_message depth buf (Some 0) len (Some ei) (q_mem q) (Some d) = Some (rc, m) /\ same_outside d (d + size) (q_mem q) m /\
        let q' := q <| q_mem := m |> <| q_txn := <[a := completed_with t rc]> (q_txn q) |> in
        qmi_handle_message env from buf len (W q) = Ret tt (W q') /\
        exists q'', qmi_txn_wait env a (W q') = Ret rc (W q'') /\ q_mem q'' = m /\ xa_load (txns (q_h q'')) (hdr_txn_id buf) = None
  end.
Proof.
  intros Hq Hc Ha Hj Hb Hn Hty. pose proof (good_alive depth q (reachable_good depth q Hq) Ha) as HI.
  pose proof (i_tlock _ _ _ HI) as Hl. cbn in Hl.
  assert (qmi_handle_message env from buf len (W q) = handle_response env from buf len (W q)) as ->.
  { unfold qmi_handle_message. rewrite (proj2 (Z.ltb_ge _ _)) by lia. by rewrite Hty. }
  destruct (xa_load _ _) as [a|] eqn:Ex.
  2: { assert (total (handle_response env from buf len (W q)) (fun _ q' => q' = q)) as H.
       { unfold handle_response. apply total_lock; [done|]. apply total_gets. cbn [q_h txns set_field]. rewrite Ex.
         split; [done|]. destruct q as [h ? ? ? ? ? ?], h. cbn in *. by subst. }
       apply total_run in H as ([] & q' & E & ->). exact E. }
  destruct (i_table _ _ _ HI _ _ Ex) as (_ & _ & t & Et & Hid & Hqmi & Hres & Hf & Hd). exists t. split; [done|]. split; [done|].
  intros ei d size Ee Ed Hfit. destruct (decode_message_total depth buf ei size (q_mem q) len d Hb Hfit Hn) as (rc & m & E & Hrc & Ho).
  exists rc, m. split; [done|]. split; [done|]. cbv zeta.
  pose proof (response_exact env q from buf len a t ei d rc m (ok_depth _ _ Hc) Hl Ex Et Ee Ed E) as H.
  apply total_run in H as ([] & q' & E' & ->). split; [exact E'|].
  eassert (total _ _) as H by (apply (wait_completed env (q <| q_mem := m |> <| q_txn := <[a := completed_with t rc]> (q_txn q) |>) a t rc);
    [apply lookup_insert_eq|exact Hl|done|done|done|done]).
  apply total_run in H as (v & q'' & E'' & -> & Em & Ext). exists q''. split; [exact E''|]. split; [exact Em|].
  rewrite Ext, xa_load_erase, Hid. by rewrite Z.eqb_refl.
Qed.

(** After the name service restarted the handle starts over: the client has
    been told of the end of every server, the old socket is closed, and every
    lookup and every service that the handle has is registered again, in order,
    under the address of the new socket. When no new socket can be made nothing
    of this happens, and nobody is told. *)
Theorem net_reset_registers_again env q :
  reachable q -> client_ok depth env -> alive q ->
  exists q', qmi_handle_net_reset env (W q) = Ret tt (W q') /\ alive q' /\
    let s := Z.of_nat (q_allocs q) in
    let '(ret, a) := e_getsockname env s in
    if (e_sock_create env (q_allocs q) <? 0) || (ret <? 0) then q' = grown q
    else
      sock (q_h q') = Sock s /\ sq (q_h q') = a /\ dom (q_sk q') = {[s]} /\ lookup_results (q_h q') = [] /\
      exists evs log, q_log q' = evs ++ log /\
        sent_to s (mk_sq (sq_node a) QRTR_PORT_CTRL) (map lookup_pkt (lookups (q_h q')) ++ map (server_pkt_at a) (services (q_h q'))) evs.
Proof.
  intros Hq Hc Ha. pose proof (good_alive depth q (reachable_good depth q Hq) Ha) as HI.
  pose proof (net_reset_total depth env Hc idle q HI eq_refl eq_refl eq_refl) as H.
  apply total_run in H as ([] & q' & E & HI' & H). exists q'. split; [done|]. split; [by eapply idle_alive|exact H].
Qed.
End Thm.
