(* ===== verification/QmiRound.v ===== *)
(** * QmiRound: a request is answered

    Two handles on two processors. A request that a client sends reaches the
    handler of the server as the structure the client wrote; the response the
    handler sends completes the transaction of the client, whose wait returns with
    the structure the handler wrote. The router between them is QrtrRound.v. *)
From stdpp Require Import prelude gmap list.
From S2P Require Import Prelude.
From S2P Require Import Effects.
From S2P Require Import QmiEncdec.
From S2P Require Import XArray.
From S2P Require Import Qrtr.
From S2P Require Import QmiInterface.
From S2P Require Import QmiInv.
From S2P Require Import QmiSafe.
From S2P Require Import QmiRecv.
From S2P Require Import QmiOps.
From S2P Require Import QmiThm.
#[local] Open Scope kernel_scope.

(** A message as it travels. *)
Definition packet (ty txn_id msg_id : Z) (sm : mem) (c : Z) (fs : list field) : list Z :=
  header_bytes ty txn_id msg_id (Z.of_nat (length (wire sm c fs))) ++ wire sm c fs.

Lemma length_packet ty k id sm c fs : length (packet ty k id sm c fs) = (7 + length (wire sm c fs))%nat.
Proof. unfold packet. by rewrite length_app. Qed.

(** What a receiver finds in its buffer. *)
Lemma read_packet ty k id sm c fs m :
  let b := store_bytes m 0 (packet ty k id sm c fs) in
  hdr_type b = u8 ty /\ hdr_txn_id b = u16 k /\ hdr_msg_id b = u16 id /\
  load_bytes (length (wire sm c fs)) b (0 + sizeof_qmi_header) = wire sm c fs.
Proof.
  cbv zeta. set (b := store_bytes _ _ _).
  assert (load_bytes (7 + length (wire sm c fs)) b 0 = packet ty k id sm c fs) as L.
  { rewrite <- (length_packet ty k id). apply load_store_bytes_same. }
  apply read_header in L as (H1 & H2 & H3 & _ & H5). done.
Qed.

Lemma wire_bytes sm c fs : bytes_ok sm -> Forall (fun f => field_ok f = true) fs -> Forall (fun b => 0 <= b < 256) (wire sm c fs).
Proof.
  intros Hb. unfold wire. induction 1 as [|f fs Hf _ IH]; [constructor|]. cbn [flat_map]. apply Forall_app. split; [|done].
  unfold wire_field. destruct (present sm c f); [|constructor].
  assert (0 <= f_type f < 256) by (unfold field_ok in Hf; zbool; lia).
  assert (forall x, 0 <= Z.land x 255 < 256) by (intros x; change 255 with (Z.ones 8); rewrite Z.land_ones by lia; by apply Z.mod_pos_bound).
  cbn [app]. do 3 (constructor; [done|]). by apply load_bytes_ok.
Qed.

Lemma packet_bytes ty k id sm c fs :
  bytes_ok sm -> Forall (fun f => field_ok f = true) fs -> Forall (fun b => 0 <= b < 256) (packet ty k id sm c fs).
Proof.
  intros Hb Hf. apply Forall_app. split; [|by apply wire_bytes]. unfold header_bytes. cbn [le_bytes app].
  repeat (constructor; [by apply Z.mod_pos_bound|]). constructor.
Qed.

(** Locking and unlocking leaves the handle as it was. *)
Lemma relock h : sock_lock h = false -> h <| sock_lock := true |> <| sock_lock := false |> = h.
Proof. destruct h. cbn. by intros ->. Qed.

Section Round.
Context {XC : XaCyclic} {XL : XaCyclicLaws XC} (d : nat).

(** Allocations succeed and the sockets take what they are given. *)
Definition obliging (env : qmi_env) : Prop :=
  e_depth env = S d /\ (forall n, e_alloc env n = true) /\ (forall s a bs n, 0 <= e_send env s a bs n) /\ 1 <= e_jiffies env < 2 ^ 31.

Abbreviation Inv := (Inv (S d)).

(** Sending a structure puts its packet on the socket. *)
Lemma send_exact env fr q s to a t ty id len fs eoti c :
  obliging env -> Inv fr q -> f_sock fr = None -> sock (q_h q) = Sock s -> q_txn q !! a = Some t ->
  message_ok fs eoti -> Z.of_nat (length (wire (q_mem q) c fs)) <= len -> len < 2 ^ 31 ->
  total (qmi_send_message env to a ty id len (Some (descriptor fs eoti)) (Some c) (W q)) (fun ret q' =>
    ret = 0 /\ Inv fr q' /\ q_h q' = q_h q /\ q_sk q' = q_sk q /\ q_txn q' = q_txn q /\ q_mem q' = q_mem q /\
    exists r, q_log q' = EvSend s to (packet ty (t_id t) id (q_mem q) c fs) r :: q_log q).
Proof.
  intros (Ed & Ha & Hs & _) HI Hfs E0 Et Hm Hl Hlen. unfold qmi_send_message. eapply total_get_txn; [exact Et|]. apply total_gets.
  destruct (sock_cases (S d) fr q HI) as [?|(s' & x & E' & Ex)]; [congruence|]. assert (s' = s) as -> by congruence.
  assert (kzalloc env (W q) = Ret (Some (Z.of_nat (q_allocs q))) (W (grown q <| q_live := {[Z.of_nat (q_allocs q)]} ∪ q_live q |>))) as K.
  { rewrite run_kzalloc. by rewrite Ha. }
  pose proof (kzalloc_total (S d) env fr q HI) as T. apply total_bind. rewrite K in T |- *. destruct T as [_ (_ & _ & H1)].
  split; [done|]. cbn [w_st W] in *. set (q1 := grown q <| q_live := _ |>) in *. set (p := Z.of_nat (q_allocs q)) in *.
  destruct (encode_message_wire d fs eoti (q_mem q) ty id (t_id t) len c p Hm Hl Hlen) as (mm & E & L). rewrite Ed, E, run_or_fault, L.
  apply (total_lock_sock (S d) (push p fr)); [done|]. apply total_gets. change (sock (q_h (slocked q1))) with (sock (q_h q)). rewrite E0.
  apply total_bind. rewrite (run_sendmsg env s x) by done. split; [done|]. apply total_modify.
  destruct (sent_inv (S d) (push p fr) q1 (EvSend s to (packet ty (t_id t) id (q_mem q) c fs) (e_send env s to (packet ty (t_id t) id (q_mem q) c fs) (length (q_log q))) :: q_log q) H1) as (H2 & _).
  eapply total_step; [apply (kfree_total (S d) fr p); exact H2|]. intros [] q3 ((F1 & F2 & F3 & F4 & F5) & _ & H3). apply total_ret.
  rewrite (proj2 (Z.ltb_ge _ _)) by apply Hs. split; [done|]. split; [done|]. rewrite F1, F2, F3, F4, F5.
  split; [apply (relock (q_h q)), HI|]. do 3 (split; [done|]). by eexists.
Qed.

(** The network delivers a message to an open socket, which tells its handle. *)
Lemma deliver_exact q s l r :
  Inv idle q -> q_sk q = {[s := mk_ksock true l]} ->
  total (deliver s r (W q)) (fun _ q' =>
    q' = q <| q_sk := {[s := mk_ksock true (l ++ [r])]} |> <| q_h := (q_h q) <| work := true |> |>).
Proof.
  intros HI Ek. unfold deliver, get_ksock. rewrite run_assoc, run_gets. cbn [w_st W]. rewrite Ek, lookup_singleton_eq, run_or_fault.
  apply total_modify. unfold qmi_data_ready, get_ksock. rewrite run_assoc, run_gets. cbn [w_st W q_sk set_field].
  rewrite lookup_insert_eq, run_or_fault. cbn [negb ks_user ks_rx]. apply total_gets, total_gets. cbn [q_h q_live wq set_field].
  rewrite decide_True by (rewrite (i_live _ _ _ HI); apply elem_of_list_to_set; right; left). split; [done|]. cbn.
  by rewrite Ek, insert_singleton_eq.
Qed.

(** A turn of the worker that finds a message of another client. *)
Lemma recv_message env q s from data l Q :
  Inv idle q -> sock (q_h q) = Sock s -> q_sk q = {[s := mk_ksock true (RxMsg from data :: l)]} ->
  has_msg_handler (ops (q_h q)) = false -> ~ (sq_node from = sq_node (sq (q_h q)) /\ sq_port from = QRTR_PORT_CTRL) ->
  Z.of_nat (length data) <= recv_buf_size (q_h q) ->
  let m := store_bytes (recv_mem (q_h q)) 0 data in
  total (qmi_handle_message env from m (Z.of_nat (length data)) (W (popped q s l m))) (fun _ => Q) ->
  total (recv_one env (W q)) (fun b q' => b = true /\ Q q').
Proof.
  intros HI E0 Ek Ho Hfrom Hn m Hk. unfold recv_one. apply total_gets, total_gets. apply (total_lock_sock (S d) idle); [done|].
  apply total_gets. change (sock (q_h (slocked q))) with (sock (q_h q)). rewrite E0. unfold kernel_recvmsg, get_ksock.
  rewrite !run_assoc, run_gets. cbn [w_st W]. change (q_sk (slocked q)) with (q_sk q). rewrite Ek, lookup_singleton_eq, run_or_fault.
  cbn [ks_rx ks_user]. rewrite !run_assoc. apply total_modify. rewrite run_assoc. apply total_gets. cbn [q_live set_field slocked].
  rewrite decide_True by (cbn; rewrite (i_live _ _ _ HI); apply elem_of_list_to_set; left).
  rewrite take_ge by lia. rewrite run_assoc. apply total_modify. rewrite run_ret. apply total_modify.
  rewrite (proj2 (Z.eqb_neq _ _)) by (unfold EAGAIN; lia). rewrite (proj2 (Z.eqb_neq _ _)) by (unfold ENETRESET; lia).
  rewrite (proj2 (Z.ltb_ge _ _)) by lia. apply total_gets, total_gets, total_gets.
  change (sq (q_h _)) with (sq (q_h q)). change (ops (q_h _)) with (ops (q_h q)). rewrite Ho.
  destruct (_ && _) eqn:Ec; [exfalso; apply Hfrom; zbool; done|]. eapply total_step; [exact Hk|]. intros [] q' HQ. by apply total_ret.
Qed.

(** ** The server *)

(** A handler that writes its answer to memory and sends it back. *)
Definition answers (es es0 : qmi_env) (fn id len : Z) (fs : list field) (eoti : qmi_elem_info) (c : Z) (reply : mem -> Z -> mem) : Prop :=
  forall from a m p, c_fn es fn from a m p =
    (modify (fun q => q <| q_mem := reply m p |>) ;;;
     qmi_send_response es0 (Some from) a id len (Some (descriptor fs eoti)) (Some c) ;;; mret tt).

(** The calls the server made: the handler, with the structure of the client, and
    the response. *)
Definition served (s fn : Z) (from : sockaddr_qrtr) (k id : Z) (sm : mem) (c : Z) (fs fs' : list field) (c' : Z) (reply : mem -> Z -> mem)
  (m : mem) (p : Z) (q q' : qmi) : Prop :=
  exists r tmp, Forall (field_read sm c p m) fs /\
    q_log q' = EvSend s (Some from) (packet QMI_RESPONSE k id (reply m p) c' fs') r :: EvFn fn from tmp :: q_log q.

(** The handler sees the structure of the client, and its answer leaves with the
    number of the request. *)
Lemma request_served es es0 fr q s from k id sm c fs eoti buf hs fn h len fs' eoti' c' reply :
  obliging es -> obliging es0 -> answers es es0 fn id len fs' eoti' c' reply ->
  Inv fr q -> f_sock fr = None -> sock (q_h q) = Sock s ->
  handlers (q_h q) = Some hs -> find_handler hs QMI_REQUEST id = Some (Some (fn, h)) -> h_ei h = Some (descriptor fs eoti) ->
  message_ok fs eoti -> disjoint_fields fs -> message_ok fs' eoti' ->
  (forall m p, Z.of_nat (length (wire (reply m p) c' fs')) <= len) -> len < 2 ^ 31 ->
  0 <= k <= txn_id_max -> hdr_type buf = QMI_REQUEST -> hdr_txn_id buf = k -> hdr_msg_id buf = id ->
  load_bytes (length (wire sm c fs)) buf (0 + sizeof_qmi_header) = wire sm c fs ->
  let n := Z.of_nat (length (wire sm c fs)) in n < 2 ^ 31 ->
  total (qmi_handle_message es from buf (sizeof_qmi_header + n) (W q)) (fun _ q' => exists m p, served s fn from k id sm c fs fs' c' reply m p q q').
Proof.
  intros He He0 Hans HI Hfs E0 Eh Ef Ei Hm Hd Hm' Hl' Hlen Hk Hty Hid Hmsg Hw n Hn. unfold qmi_handle_message.
  rewrite (proj2 (Z.ltb_ge _ _)) by lia. rewrite Hty. cbn [Z.eqb QMI_REQUEST QMI_RESPONSE]. unfold fresh.
  rewrite run_assoc, run_gets, run_assoc, run_modify, run_ret. cbn [w_st W].
  destruct (next_unused (S d) fr q HI) as [Ha Hu]. destruct (fresh_inv (S d) fr q HI) as [H1 _]. cbv zeta in H1.
  set (a := Z.of_nat (q_allocs q)) in *. apply total_modify. rewrite Hid.
  destruct (put_tmp_inv (S d) fr _ a (mk_txn false k 0 0 None None) H1 Hu) as [H2 _]; [cbn; lia|]. cbv zeta in H2.
  match goal with |- total (_ (W ?x)) _ => set (q2 := x) end. change (Inv (tmp a fr) q2) in H2.
  apply (total_step _ _ _ (fun _ q' => exists m p, served s fn from k id sm c fs fs' c' reply m p q q')); [|intros [] q3 H3; split; [done|exact H3]].
  unfold qmi_invoke_handler. apply total_gets. change (handlers (q_h q2)) with (handlers (q_h q)). rewrite Eh, Hty, Hmsg, Ef, run_or_fault.
  destruct He as (Ed & Hal & _). apply total_bind. pose proof (kzalloc_total (S d) es (tmp a fr) q2 H2) as T. rewrite run_kzalloc, Hal in T |- *.
  destruct T as [_ (_ & _ & H3)]. split; [done|]. cbn [w_st W] in *. set (p := Z.of_nat (q_allocs q2)) in *. rewrite Ei, Ed.
  pose proof (decode_message_wire d fs eoti sm buf (fun _ => 0) c 0 p Hm Hn Hw) as D. cbv zeta in D. fold n in D.
  rewrite D, run_or_fault, (proj2 (Z.ltb_ge _ _)) by lia.
  rewrite run_assoc. apply total_modify. rewrite Hans, run_assoc. apply total_modify. set (m := put_fields sm c p _ fs).
  match goal with |- total (_ (W ?x)) _ => set (q4 := x) end.
  assert (Inv (push p (tmp a fr)) q4) as H4 by (apply (own_ext (S d) (push p (tmp a fr)) (push p (tmp a fr)) _ q4 H3); try done; apply H3).
  rewrite run_assoc. eapply total_step.
  { apply (send_exact es0 (push p (tmp a fr)) q4 s (Some from) a (mk_txn false k 0 0 None None) QMI_RESPONSE id len fs' eoti' c');
      try done; [apply lookup_insert_eq|apply Hl']. }
  intros ret q5 (-> & H5 & _ & _ & _ & _ & r & E5). rewrite run_ret.
  eapply total_mono; [apply (kfree_total (S d) (tmp a fr) p); exact H5|]. intros [] q6 ((_ & _ & _ & _ & E6) & _). cbn [w_st W].
  exists m, p, r, a. split; [apply put_fields_read; [apply Hm|done]|]. cbn. rewrite E6, E5. done.
Qed.

(** ** The client *)

(** The socket is open and has received nothing. *)
Definition listening (q : qmi) (s : Z) : Prop := sock (q_h q) = Sock s /\ q_sk q = {[s := mk_ksock true []]}.

(** The sender is not the name service of the receiver. *)
Definition not_ns (q : qmi) (from : sockaddr_qrtr) : Prop := ~ (sq_node from = sq_node (sq (q_h q)) /\ sq_port from = QRTR_PORT_CTRL).

(** A message that arrives at an idle handle is handled. *)
Lemma deliver_and_receive env q s from data Q :
  Inv idle q -> listening q s -> has_msg_handler (ops (q_h q)) = false -> not_ns q from ->
  Forall (fun b => 0 <= b < 256) data -> Z.of_nat (length data) <= recv_buf_size (q_h q) ->
  (forall q1, Inv idle q1 -> sock (q_h q1) = Sock s -> handlers (q_h q1) = handlers (q_h q) -> txns (q_h q1) = txns (q_h q) ->
    q_txn q1 = q_txn q -> q_mem q1 = q_mem q -> q_log q1 = q_log q ->
    total (qmi_handle_message env from (store_bytes (recv_mem (q_h q)) 0 data) (Z.of_nat (length data)) (W q1)) (fun _ => Q)) ->
  total ((deliver s (RxMsg from data) ;;; recv_one env) (W q)) (fun b q' => b = true /\ Q q').
Proof.
  intros HI [E0 Ek] Ho Hf Hd Hl Hk.
  assert (total (deliver s (RxMsg from data) (W q)) (fun _ => Inv idle)) as T.
  { apply (deliver_total (S d)); [done|rewrite Ek, lookup_singleton_eq; eauto|done]. }
  pose proof (deliver_exact q s [] (RxMsg from data) HI Ek) as D. apply total_run in D as ([] & q1 & E & ->). rewrite E in T.
  destruct T as [_ H1]. apply total_bind. rewrite E. split; [done|]. cbn [w_st W] in *.
  match type of H1 with QmiInv.Inv _ _ ?x => set (q1 := x) in * end.
  apply (recv_message env q1 s from data []); try done.
  destruct (popped_inv (S d) idle q1 s (RxMsg from data) [] (store_bytes (recv_mem (q_h q)) 0 data)) as (H2 & _); try done.
  { apply bytes_ok_store_bytes; [apply HI|done]. }
  apply Hk; done.
Qed.


Lemma u16_small k : 0 <= k < 65536 -> u16 k = k.
Proof. intros. by apply Z.mod_small. Qed.

Lemma packet_size ty k id sm c fs :
  Z.of_nat (length (packet ty k id sm c fs)) = sizeof_qmi_header + Z.of_nat (length (wire sm c fs)).
Proof. rewrite length_packet. unfold sizeof_qmi_header. lia. Qed.

(** The response ends the wait. *)
Lemma response_received ec q s sa a t dst id sm cr fsr er :
  obliging ec -> Inv idle q -> listening q s -> has_msg_handler (ops (q_h q)) = false -> not_ns q sa ->
  q_txn q !! a = Some t -> outstanding q a t -> t_ei t = Some (descriptor fsr er) -> t_dest t = Some dst ->
  message_ok fsr er -> disjoint_fields fsr -> bytes_ok sm ->
  Z.of_nat (length (wire sm cr fsr)) <= recv_buf_size (q_h q) - sizeof_qmi_header ->
  exists q2 q3,
    (deliver s (RxMsg sa (packet QMI_RESPONSE (t_id t) id sm cr fsr)) ;;; recv_one ec) (W q) = Ret true (W q2) /\
    qmi_txn_wait ec a (W q2) = Ret (Z.of_nat (length (wire sm cr fsr))) (W q3) /\
    Forall (field_read sm cr dst (q_mem q3)) fsr.
Proof.
  intros (Ed & _ & _ & Hj) HI HL Hno Hns Et Ho Eei Edst Hm Hd Hb Hl.
  destruct (i_table _ _ _ HI _ _ Ho) as (Hk & _ & t' & Et' & _ & Hqmi & _ & _ & Hdone). assert (t' = t) as -> by congruence.
  unfold txn_id_max in Hk. pose proof (i_size _ _ _ HI) as Hsz. assert (sizeof_qmi_header = 7) as H7 by done. set (data := packet _ _ _ _ _ _) in *.
  destruct (read_packet QMI_RESPONSE (t_id t) id sm cr fsr (recv_mem (q_h q))) as (P1 & P2 & _ & P4). fold data in P1, P2, P4.
  rewrite u16_small in P2 by lia. set (n := Z.of_nat (length (wire sm cr fsr))) in *.
  assert (Z.of_nat (length data) = sizeof_qmi_header + n) as Ld by apply packet_size.
  set (m := put_fields sm cr dst (q_mem q) fsr).
  assert (total ((deliver s (RxMsg sa data) ;;; recv_one ec) (W q)) (fun b q' => b = true /\
    (q_txn q' !! a = Some (completed_with t n) /\ txn_lock (q_h q') = false /\ q_mem q' = m))) as T.
  { apply deliver_and_receive; try done; [by apply packet_bytes; [|apply Hm]|lia|]. intros q1 F1 F2 F3 F4 F5 F6 F7. rewrite Ld.
    unfold qmi_handle_message. rewrite (proj2 (Z.ltb_ge _ _)) by lia. rewrite P1. cbn [Z.eqb Pos.eqb u8 QMI_RESPONSE].
    change (u8 2 =? 2) with true. cbv iota. pose proof (i_tlock _ _ _ F1) as Fl.
    eapply total_mono; [apply (response_exact (S d) ec q1 sa _ _ a t (descriptor fsr er) dst n m); try done|].
    - rewrite F4, P2. exact Ho.
    - by rewrite F5.
    - rewrite F6. apply decode_message_wire; [done|lia|done].
    - intros [] q' ->. split; [apply lookup_insert_eq|done]. }
  apply total_run in T as (? & q2 & E2 & -> & Et2 & Hl2 & Em2). exists q2.
  pose proof (wait_completed ec q2 a t n Et2 Hl2 Hqmi Hdone ltac:(unfold ENETRESET; lia) Hj) as T.
  apply total_run in T as (v & q3 & E3 & -> & Em3 & _). exists q3. split; [exact E2|]. split; [exact E3|].
  rewrite Em3, Em2. apply put_fields_read; [apply Hm|done].
Qed.

(** C11. A request is answered, between a client and a server whose structures
    are mandatory and optional fields of fixed size with different types and
    places ([message_ok], [disjoint_fields]). The client waits for a structure of
    type [fsr]; it sends the structure [cq] of its memory. Delivered to the
    server, the packet makes the worker call the handler registered for it with a
    structure [m, p] that holds the fields the client wrote; what the handler then
    answers goes back with the number of the request. Delivered to the client,
    that packet ends the wait, which returns the number of bytes decoded, and the
    client finds the fields the handler wrote where it asked for them. Memory is
    at hand, the sockets send, the wait has time ([obliging]), both messages fit
    the lengths given and the receive buffers, and neither side takes all
    messages itself. Structures with arrays of variable length can be refused by
    the receiver ([stale_length_refused]). *)
Theorem request_answered ec es es0 qc qs sc ss ca sa a t dst id lenq lenr cq fsq eq cr fsr er hs fn h reply :
  obliging ec -> obliging es -> obliging es0 -> answers es es0 fn id lenr fsr er cr reply ->
  reachable (S d) qc -> alive qc -> listening qc sc -> has_msg_handler (ops (q_h qc)) = false -> not_ns qc sa ->
  q_txn qc !! a = Some t -> outstanding qc a t -> t_ei t = Some (descriptor fsr er) -> t_dest t = Some dst ->
  reachable (S d) qs -> alive qs -> listening qs ss -> has_msg_handler (ops (q_h qs)) = false -> not_ns qs ca ->
  handlers (q_h qs) = Some hs -> find_handler hs QMI_REQUEST id = Some (Some (fn, h)) -> h_ei h = Some (descriptor fsq eq) ->
  message_ok fsq eq -> disjoint_fields fsq -> message_ok fsr er -> disjoint_fields fsr -> 0 <= id < 65536 ->
  bytes_ok (q_mem qc) -> (forall m p, bytes_ok (reply m p)) ->
  Z.of_nat (length (wire (q_mem qc) cq fsq)) <= Z.min lenq (recv_buf_size (q_h qs) - sizeof_qmi_header) -> lenq < 2 ^ 31 ->
  (forall m p, Z.of_nat (length (wire (reply m p) cr fsr)) <= Z.min lenr (recv_buf_size (q_h qc) - sizeof_qmi_header)) -> lenr < 2 ^ 31 ->
  exists data data' qc1 qs1 qc2 qc3 m p,
    qmi_send_request ec (Some sa) a id lenq (Some (descriptor fsq eq)) (Some cq) (W qc) = Ret 0 (W qc1) /\
    (exists r, q_log qc1 = EvSend sc (Some sa) data r :: q_log qc) /\
    (deliver ss (RxMsg ca data) ;;; recv_one es) (W qs) = Ret true (W qs1) /\
    (exists r tmp, q_log qs1 = EvSend ss (Some ca) data' r :: EvFn fn ca tmp :: q_log qs) /\
    Forall (field_read (q_mem qc) cq p m) fsq /\
    (deliver sc (RxMsg sa data') ;;; recv_one ec) (W qc1) = Ret true (W qc2) /\
    qmi_txn_wait ec a (W qc2) = Ret (Z.of_nat (length (wire (reply m p) cr fsr))) (W qc3) /\
    Forall (field_read (reply m p) cr dst (q_mem qc3)) fsr.
Proof.
  intros Hec Hes Hes0 Hans Rc Ac [Lc Kc] Hoc Hnc Et Ho Eei Edst Rs As Ls Hos Hns Eh Ef Ei Hmq Hdq Hmr Hdr Hid Hbc Hbr Hlq Hlq' Hlr Hlr'.
  pose proof (good_alive (S d) qc (reachable_good (S d) qc Rc) Ac) as HIc.
  pose proof (good_alive (S d) qs (reachable_good (S d) qs Rs) As) as HIs.
  destruct (i_table _ _ _ HIc _ _ Ho) as (Hk & _). unfold txn_id_max in Hk.
  pose proof (send_exact ec idle qc sc (Some sa) a t QMI_REQUEST id lenq fsq eq cq Hec HIc eq_refl Lc Et Hmq ltac:(lia) Hlq') as T1.
  apply total_run in T1 as (? & qc1 & E1 & -> & H1 & Eh1 & Ek1 & Et1 & Em1 & r1 & Elog1).
  set (data := packet QMI_REQUEST (t_id t) id (q_mem qc) cq fsq) in *.
  destruct (read_packet QMI_REQUEST (t_id t) id (q_mem qc) cq fsq (recv_mem (q_h qs))) as (Q1 & Q2 & Q3 & Q4). fold data in Q1, Q2, Q3, Q4.
  rewrite u16_small in Q2, Q3 by lia. pose proof (packet_size QMI_REQUEST (t_id t) id (q_mem qc) cq fsq) as Ld. fold data in Ld.
  assert (total ((deliver ss (RxMsg ca data) ;;; recv_one es) (W qs))
    (fun b q' => b = true /\ exists m p, served ss fn ca (t_id t) id (q_mem qc) cq fsq fsr cr reply m p qs q')) as T2.
  { apply deliver_and_receive; try done; [by apply packet_bytes; [|apply Hmq]|lia|]. intros q1 F1 F2 F3 F4 F5 F6 F7. rewrite Ld.
    eapply total_mono; [apply (request_served es es0 idle q1 ss ca (t_id t) id (q_mem qc) cq fsq eq _ hs fn h lenr fsr er cr reply); try done; try lia|].
    - by rewrite F3.
    - intros m p. specialize (Hlr m p). lia.
    - intros [] q' (m & p & r & tmp & S1 & S2). exists m, p, r, tmp. by rewrite <- F7. }
  apply total_run in T2 as (? & qs1 & E2 & -> & m & p & r2 & tmp & S1 & S2). specialize (Hlr m p).
  destruct (response_received ec qc1 sc sa a t dst id (reply m p) cr fsr er) as (qc2 & qc3 & E3 & E4 & HR); try done.
  { split; [by rewrite Eh1|by rewrite Ek1]. } { by rewrite Eh1. } { unfold not_ns. by rewrite Eh1. } { by rewrite Et1. }
  { unfold outstanding. by rewrite Eh1. } { rewrite Eh1. lia. }
  exists data, (packet QMI_RESPONSE (t_id t) id (reply m p) cr fsr), qc1, qs1, qc2, qc3, m, p.
  split; [exact E1|]. split; [by exists r1|]. split; [exact E2|]. split; [by exists r2, tmp|]. by split_and!.
Qed.
End Round.
