(* ===== verification/QmiDemo.v ===== *)
(** * QmiDemo: QMI handles on concrete inputs

    A client and a server with their handles, the states in which the theorems
    about QMI handles are applied, and the inputs on which the code does not do
    what it means to. *)
From stdpp Require Import prelude gmap list relations.
From S2P Require Import Prelude.
From S2P Require Import Effects.
From S2P Require Import QmiEncdec.
From S2P Require Import XArray.
From S2P Require Import Qrtr.
From S2P Require Import QrtrNs.
From S2P Require Import QrtrPkt.
From S2P Require Import QmiInterface.
From S2P Require Import QmiInv.
From S2P Require Import QmiSafe.
From S2P Require Import QmiRecv.
From S2P Require Import QmiOps.
From S2P Require Import QmiThm.
From S2P Require Import QmiRound.
#[local] Open Scope kernel_scope.

(** ** Surroundings *)

(** A client with callbacks that do nothing on the node [node]. *)
Definition qmi_demo_env (node : Z) (alloc : nat -> bool) (create : nat -> Z) : qmi_env :=
  mk_env 1 alloc create (fun s => (0, mk_sq node (16384 + s))) (fun _ _ bs _ => Z.of_nat (length bs)) 0 100
    (fun _ => mret 0) (fun _ => mret tt) (mret tt) (fun _ _ _ => mret tt) (fun _ => mret tt) (fun _ _ => mret tt)
    (fun _ _ _ _ _ => mret tt).

Definition kind_env (node : Z) : qmi_env := qmi_demo_env node (fun _ => true) (fun _ => 0).

Lemma qmi_demo_client_ok node alloc create : client_ok 1 (qmi_demo_env node alloc create).
Proof. by split; cbn; intros; try apply qmi_keeps_ret. Qed.

(** ** Runs *)

Definition aliveb (q : qmi) : bool := match sock (q_h q) with Sock _ => true | _ => false end.

Lemma aliveb_ok q : aliveb q = true <-> alive q.
Proof. unfold aliveb, alive. destruct (sock (q_h q)); split; try done; eauto; by intros [? ?]. Qed.

Definition handlers_okb (hs : option (list qmi_msg_handler)) : bool :=
  match hs with
  | Some l => handlers_end l && forallb (fun h => match h_ei h with Some ei => ei_fits 1 (h_decoded_size h) ei | None => true end) l
  | None => true
  end.

Lemma handlers_okb_ok hs : handlers_okb hs = true -> handlers_ok 1 hs.
Proof.
  destruct hs as [l|]; [|done]. cbn [handlers_okb handlers_ok]. intros [H1 H2]%andb_true_iff. split; [done|].
  apply Forall_forall. intros h Hin. rewrite forallb_forall in H2. specialize (H2 h (proj1 (list_elem_of_In _ _) Hin)).
  unfold handler_ok. by destruct (h_ei h).
Qed.

(** The callers' side, as a test that some calls fail needlessly. *)
Definition qmi_op_okb (q : qmi) (o : qmi_op) : bool :=
  match o with
  | OpInit size _ hs => negb (aliveb q) && handlers_okb hs && (0 <=? size) && (size <? 65536)
  | OpTxnInit a ei dest =>
      aliveb q && bool_decide (q_txn q !! a = None) && (a <? Z.of_nat (q_allocs q)) &&
      match ei, dest with Some l, Some _ => ei_fits 1 64 l | _, _ => true end
  | OpTxnWait a | OpTxnExpired a => bool_decide (is_Some (q_txn q !! a))
  | OpTxnCancel _ | OpRequest _ _ _ _ _ _ | OpResponse _ _ _ _ _ _ | OpIndication _ _ _ _ _ => false
  | OpMemory _ => true
  | OpDeliver s r =>
      bool_decide (is_Some (q_sk q !! s)) &&
      match r with RxMsg _ data => forallb (fun b => (0 <=? b) && (b <? 256)) data | RxErr e => 0 <? e end
  | _ => aliveb q
  end.

Lemma qmi_op_okb_ok q o : qmi_op_okb q o = true -> op_ok 1 q o.
Proof.
  destruct o as [size o hs| | | |a ei dest|a|a|a|?|?|?|?|s r|]; cbn [qmi_op_okb op_ok]; intros H; try done;
    try (by apply aliveb_ok); try (by apply bool_decide_eq_true_1 in H).
  - apply andb_true_iff in H as [[[H Hh]%andb_true_iff H1]%andb_true_iff H2]. split; [|split; [by apply handlers_okb_ok|]].
    + intros Ha. apply aliveb_ok in Ha. by rewrite Ha in H.
    + unfold sizeof_qmi_header. zbool. lia.
  - apply andb_true_iff in H as [[[Ha Hu]%andb_true_iff Hl]%andb_true_iff Hf].
    split; [by apply aliveb_ok|]. split; [by apply bool_decide_eq_true_1 in Hu|]. split; [zbool; lia|].
    destruct ei, dest; try done. by exists 64.
  - apply andb_true_iff in H as [Hs Hr]. apply bool_decide_eq_true_1 in Hs. split; [done|]. destruct r as [from data|e]; cbn in *; [|zbool; lia].
    apply Forall_forall. intros b Hin. rewrite forallb_forall in Hr. specialize (Hr b (proj1 (list_elem_of_In _ _) Hin)). zbool. lia.
Qed.

(** The state after a run of calls; [None] when a call is not one that callers
    make or does not return. *)
Fixpoint qmi_run (env : qmi_env) (ops : list qmi_op) (q : qmi) : option qmi :=
  match ops with
  | [] => Some q
  | o :: ops' =>
      if qmi_op_okb q o then
        match run_op env o (W q) with
        | Ret _ w => qmi_run env ops' (w_st w)
        | _ => None
        end
      else None
  end.

Lemma qmi_run_reachable node alloc create : forall ops q q',
  reachable 1 q -> qmi_run (qmi_demo_env node alloc create) ops q = Some q' -> reachable 1 q'.
Proof.
  induction ops as [|o ops IH]; cbn [qmi_run]; intros q q' Hq; [by intros [= <-]|].
  destruct (qmi_op_okb q o) eqn:Eo; [|done]. apply qmi_op_okb_ok in Eo.
  pose proof (qmi_demo_client_ok node alloc create) as Hc.
  pose proof (run_op_total 1 _ q o Hc (reachable_good 1 q Hq) Eo) as H.
  apply total_run in H as ([] & q1 & E & _). rewrite E. cbn [w_st W]. apply IH.
  destruct Hq as [n Hq]. exists n. eapply rtc_r; [exact Hq|]. by apply (step_op 1 q q1 (qmi_demo_env node alloc create) o).
Qed.

Definition qmi_after (env : qmi_env) (ops : list qmi_op) (q : qmi) : qmi := default q (qmi_run env ops q).

Lemma qmi_after_reachable node alloc create ops q :
  reachable 1 q -> reachable 1 (qmi_after (qmi_demo_env node alloc create) ops q).
Proof.
  intros Hq. unfold qmi_after. destruct (qmi_run _ ops q) as [q'|] eqn:E; [|done]. by apply (qmi_run_reachable node alloc create ops q).
Qed.

(** ** A client and a server *)

Definition demo_ei : list qmi_elem_info := descriptor demo_fields demo_eoti.

(** A client on node 1 that looks for service 5 and waits, with the transaction
    at address 3, for a structure at address 900. Its socket is 22. *)
Definition client : qmi :=
  qmi_after (kind_env 1) [OpInit 64 None None; OpAddLookup 5 1 2; OpMemory demo_plain; OpTxnInit 3 (Some demo_ei) (Some 900)] (boot 20).

(** A server on node 5 with one handler. Its socket is 22. *)
Definition server_handlers : list qmi_msg_handler :=
  [mk_handler QMI_REQUEST 32 (Some demo_ei) 64 (Some 7); mk_handler 0 0 None 0 None].

Definition server : qmi := qmi_after (kind_env 5) [OpInit 64 None (Some server_handlers); OpAddServer 5 1 2] (boot 20).

Lemma boot_reachable n : reachable 1 (boot n).
Proof. exists n. apply rtc_refl. Qed.

Lemma client_reachable : reachable 1 client.
Proof. apply qmi_after_reachable, boot_reachable. Qed.

Lemma server_reachable : reachable 1 server.
Proof. apply qmi_after_reachable, boot_reachable. Qed.

Lemma client_alive : alive client.
Proof. apply aliveb_ok. vm_compute. reflexivity. Qed.

Lemma server_alive : alive server.
Proof. apply aliveb_ok. vm_compute. reflexivity. Qed.

Definition txn_3 : qmi_txn := mk_txn true 0 0 0 (Some demo_ei) (Some 900).

Lemma client_txn : q_txn client !! 3 = Some txn_3.
Proof. vm_compute. reflexivity. Qed.

Lemma qmi_calls_return_witness :
  exists q', run_op (kind_env 1) OpRelease (W client) = Ret tt (W q') /\ reachable 1 q'.
Proof.
  apply (qmi_calls_return 1 (kind_env 1) client OpRelease client_reachable (qmi_demo_client_ok _ _ _)).
  exact client_alive.
Defined.

Lemma txn_table_exact_witness :
  xa_load (txns (q_h client)) 0 = Some 3 /\ exists t, q_txn client !! 3 = Some t /\ t_id t = 0.
Proof.
  split; [vm_compute; reflexivity|].
  destruct (txn_table_exact 1 client client_reachable client_alive) as [H _].
  destruct (H 0 3) as (_ & t & Et & Hid & _); [vm_compute; reflexivity|]. exists t. split; [exact Et|exact Hid].
Defined.

(** The protocol family is not there yet. *)
Lemma init_reports_and_undoes_witness :
  exists q', qmi_handle_init (qmi_demo_env 1 (fun _ => true) (fun _ => - EAFNOSUPPORT)) 64 None None (W (boot 20)) =
    Ret (- EPROBE_DEFER) (W q') /\ q_live q' = ∅ /\ q_sk q' = ∅.
Proof.
  destruct (init_reports_and_undoes 1 (qmi_demo_env 1 (fun _ => true) (fun _ => - EAFNOSUPPORT)) (boot 20) 64 None None (boot_reachable 20))
    as (q' & E & _ & _ & H); [apply qmi_op_okb_ok; reflexivity|]. exists q'. split; [exact E|exact H].
Defined.

Lemma release_ends_all_witness :
  exists q', qmi_handle_release (kind_env 1) (W client) = Ret tt (W q') /\ q_live q' = ∅.
Proof.
  destruct (release_ends_all 1 (kind_env 1) client client_reachable (qmi_demo_client_ok _ _ _) client_alive) as (q' & E & H & _).
  exists q'. split; [exact E|exact H].
Defined.

Lemma demo_plain_ok : bytes_ok demo_plain.
Proof. apply bytes_ok_store_bytes; [exact zero_mem_ok|]. repeat constructor; lia. Qed.

Definition demo_from : sockaddr_qrtr := mk_sq 5 16406.

Definition demo_response : list Z := packet QMI_RESPONSE 0 32 demo_plain 0 demo_fields.

Lemma response_completes_its_transaction_witness :
  exists rc m q'',
    qmi_handle_message (kind_env 1) demo_from (store_bytes zero_mem 0 demo_response) 19 (W client) =
      Ret tt (W (client <| q_mem := m |> <| q_txn := <[3 := completed_with txn_3 rc]> (q_txn client) |>)) /\
    qmi_txn_wait (kind_env 1) 3 (W (client <| q_mem := m |> <| q_txn := <[3 := completed_with txn_3 rc]> (q_txn client) |>)) = Ret rc (W q'') /\
    xa_load (txns (q_h q'')) 0 = None.
Proof.
  assert (hdr_txn_id (store_bytes zero_mem 0 demo_response) = 0) as Eid by (vm_compute; reflexivity).
  assert (xa_load (txns (q_h client)) 0 = Some 3) as Ex by (vm_compute; reflexivity).
  pose proof (response_completes_its_transaction 1 (kind_env 1) client demo_from (store_bytes zero_mem 0 demo_response) 19
    client_reachable (qmi_demo_client_ok _ _ _) client_alive) as H.
  rewrite Eid, Ex in H. destruct H as (t & Et & _ & H).
  { cbn; lia. } { apply bytes_ok_store_bytes; [exact zero_mem_ok|]. apply packet_bytes; [exact demo_plain_ok|apply demo_message_ok]. }
  { vm_compute. split; congruence. }
  { vm_compute. reflexivity. }
  rewrite client_txn in Et. injection Et as <-.
  destruct (H demo_ei 900 64 eq_refl eq_refl) as (rc & m & _ & _ & E & q'' & E' & _ & E''); [vm_compute; reflexivity|].
  exists rc, m, q''. split; [exact E|]. split; [exact E'|exact E''].
Defined.

Lemma net_reset_registers_again_witness :
  exists q', qmi_handle_net_reset (kind_env 2) (W client) = Ret tt (W q') /\ sock (q_h q') = Sock (Z.of_nat (q_allocs client)).
Proof.
  destruct (net_reset_registers_again 1 (kind_env 2) client client_reachable (qmi_demo_client_ok _ _ _) client_alive)
    as (q' & E & _ & H & _). exists q'. split; [exact E|exact H].
Defined.

(** ** A request and its response *)

(** The server answers with the structure of its memory. *)
Definition demo_reply : mem := store_bytes zero_mem 0 [21; 22; 23; 24; 0; 0; 0; 0; 1; 0; 0; 0; 0; 0; 0; 0; 1; 2; 3; 4; 5; 6; 7; 8].

Lemma demo_reply_ok : bytes_ok demo_reply.
Proof. apply bytes_ok_store_bytes; [exact zero_mem_ok|]. repeat constructor; lia. Qed.

Definition answering_env : qmi_env :=
  mk_env 1 (fun _ => true) (fun _ => 0) (fun s => (0, mk_sq 5 (16384 + s))) (fun _ _ bs _ => Z.of_nat (length bs)) 0 100
    (fun _ => mret 0) (fun _ => mret tt) (mret tt) (fun _ _ _ => mret tt) (fun _ => mret tt) (fun _ _ => mret tt)
    (fun _ from a _ _ =>
       modify (fun q => q <| q_mem := demo_reply |>) ;;;
       qmi_send_response (kind_env 5) (Some from) a 32 64 (Some demo_ei) (Some 0) ;;; mret tt).

Lemma kind_env_obliging node : obliging 0 (kind_env node).
Proof. split; [done|]. split; [done|]. split; [cbn; lia|]. cbn. lia. Qed.

Lemma answering_env_obliging : obliging 0 answering_env.
Proof. split; [done|]. split; [done|]. split; [cbn; lia|]. cbn. lia. Qed.

Lemma client_mem_ok : bytes_ok (q_mem client).
Proof. assert (q_mem client = demo_plain) as -> by (vm_compute; reflexivity). exact demo_plain_ok. Qed.

Lemma not_ns_demo q from : sq_port from <> QRTR_PORT_CTRL -> not_ns q from.
Proof. intros H [_ E]. done. Qed.

Lemma request_answered_witness :
  exists data data' qc1 qs1 qc2 qc3,
    qmi_send_request (kind_env 1) (Some demo_from) 3 32 64 (Some demo_ei) (Some 0) (W client) = Ret 0 (W qc1) /\
    (deliver 22 (RxMsg (mk_sq 1 16406) data) ;;; recv_one answering_env) (W server) = Ret true (W qs1) /\
    (deliver 22 (RxMsg demo_from data') ;;; recv_one (kind_env 1)) (W qc1) = Ret true (W qc2) /\
    qmi_txn_wait (kind_env 1) 3 (W qc2) = Ret 26 (W qc3) /\
    load_bytes 4 (q_mem qc3) 900 = [21; 22; 23; 24].
Proof.
  destruct (request_answered 0 (kind_env 1) answering_env (kind_env 5) client server 22 22 (mk_sq 1 16406) demo_from 3 txn_3 900
    32 64 64 0 demo_fields demo_eoti 0 demo_fields demo_eoti server_handlers 7 (mk_handler QMI_REQUEST 32 (Some demo_ei) 64 (Some 7))
    (fun _ _ => demo_reply)) as (data & data' & qc1 & qs1 & qc2 & qc3 & m & p & E1 & _ & E2 & _ & _ & E3 & E4 & R).
  all: try exact (kind_env_obliging _); try exact answering_env_obliging; try exact client_reachable; try exact server_reachable;
    try exact client_alive; try exact server_alive; try exact client_txn; try exact demo_message_ok; try exact demo_fields_disjoint.
  { intros from a m p. reflexivity. } { split; vm_compute; reflexivity. } { vm_compute. reflexivity. } { apply not_ns_demo; vm_compute; discriminate. }
  { vm_compute. reflexivity. } { reflexivity. } { reflexivity. } { split; vm_compute; reflexivity. } { vm_compute. reflexivity. }
  { apply not_ns_demo; vm_compute; discriminate. } { vm_compute. reflexivity. } { reflexivity. } { reflexivity. } { lia. }
  { exact client_mem_ok. } { intros _ _. exact demo_reply_ok. } { vm_compute. discriminate. } { lia. } { intros _ _. vm_compute. discriminate. } { lia. }
  exists data, data', qc1, qs1, qc2, qc3. split; [exact E1|]. split; [exact E2|]. split; [exact E3|]. split; [exact E4|].
  inversion_clear R as [|? ? R1 _]. apply R1.
Defined.

(** ** What goes wrong *)

(** A transaction that got no number is left with the lower half of the error as
    its number, which is a number that another transaction can have: cancelling
    it forgets that transaction. *)
Definition crowded : qmi := client <| q_h := (q_h client) <| txns := [(65524, 3)] |> |>.

Lemma failed_txn_is_numbered :
  match qmi_txn_init (qmi_demo_env 1 (fun _ => false) (fun _ => 0)) 4 None None (W crowded) with
  | Ret ret w => ret = - ENOMEM /\ t_id <$> q_txn (w_st w) !! 4 = Some 65524 /\
      match qmi_txn_cancel 4 w with Ret _ w' => xa_load (txns (q_h (w_st w'))) 65524 = None | _ => False end
  | _ => False
  end.
Proof. vm_compute. by split_and!. Qed.

(** A handler for a response runs while the table is locked: it waits for ever
    when it starts a transaction of its own. *)
Definition busy_handler : qmi_env :=
  mk_env 1 (fun _ => true) (fun _ => 0) (fun s => (0, mk_sq 1 (16384 + s))) (fun _ _ bs _ => Z.of_nat (length bs)) 0 100
    (fun _ => mret 0) (fun _ => mret tt) (mret tt) (fun _ _ _ => mret tt) (fun _ => mret tt) (fun _ _ => mret tt)
    (fun _ from _ _ _ => qmi_send_indication (kind_env 1) (Some from) 33 64 (Some demo_ei) (Some 0) ;;; mret tt).

Definition response_handlers : list qmi_msg_handler :=
  [mk_handler QMI_RESPONSE 32 (Some demo_ei) 64 (Some 7); mk_handler 0 0 None 0 None].

Definition handling : qmi := qmi_after (kind_env 1) [OpInit 64 None (Some response_handlers); OpTxnInit 3 None None] (boot 20).

Lemma response_handler_waits_for_itself :
  qmi_handle_message busy_handler demo_from (store_bytes zero_mem 0 demo_response) 19 (W handling) = Blocked.
Proof. vm_compute. reflexivity. Qed.

(** The end of a server whose port is the number that stands for all ports ends
    every server of its node. *)
Definition watcher : qmi :=
  let new p := RxMsg (mk_sq 1 QRTR_PORT_CTRL) (ctrl_pkt_bytes (mk_pkt QRTR_TYPE_NEW_SERVER 5 513 5 p)) in
  qmi_after (kind_env 1)
    [OpInit 64 (Some (mk_ops true true true false true true)) None; OpAddLookup 5 1 2; OpDeliver 22 (new 16406); OpDeliver 22 (new WILDCARD); OpWork]
    (boot 20).

Lemma wildcard_port_ends_all :
  map svc_port (lookup_results (q_h watcher)) = [WILDCARD; 16406] /\
  lookup_results (q_h (qmi_after (kind_env 1)
    [OpDeliver 22 (RxMsg (mk_sq 1 QRTR_PORT_CTRL) (ctrl_pkt_bytes (mk_pkt QRTR_TYPE_DEL_SERVER 5 513 5 WILDCARD))); OpWork] watcher)) = [].
Proof. vm_compute. by split. Qed.
