(* ===== verification/PgAlloc.v ===== *)
(** * PgAlloc: pages for IO page tables
      (src/drivers/iommu/qcom-io-pgtable-alloc.c)

    Pages of page tables are cached in one pool per virtual machine that may
    read them; VMID 0 stands for none. A page for another VMID is shared with
    that machine by the hypervisor before it is used and taken back before it
    is returned to the system. The system allocator and the hypervisor are the
    answers of [al_env]. *)
From Stdlib Require Import Sorted.
From stdpp Require Import prelude gmap list relations.
From S2P Require Import Prelude.
From S2P Require Import Effects.
From S2P Require Import XArray.
#[local] Open Scope kernel_scope.

(** ** Data *)

(** The pages by [lru], newest first. *)
Record io_pgtable_pool := mk_pool { po_ref : Z; po_pages : list Z }.

(** The flags of an allocation that the code looks at. *)
Record gfp_t := mk_gfp { gfp_blocking : bool; gfp_zero : bool }.

(** [al_taken] are the pages that the system gave and did not get back,
    [al_shared] what the hypervisor was asked to share and not seen to take back,
    [al_clean] the pages that hold zeroes while nobody uses them. *)
Record pg_alloc := mk_al {
  al_pools : xarray io_pgtable_pool;
  al_count : Z;
  al_private : gmap Z Z;
  al_taken : gset Z;
  al_shared : gmap Z Z;
  al_clean : gset Z;
  al_tick : nat;
}.

#[export] Instance eta_pool : Settable io_pgtable_pool := fun p => mk_pool (po_ref p) (po_pages p).

#[export] Instance eta_pg_alloc : Settable pg_alloc := fun s =>
  mk_al (al_pools s) (al_count s) (al_private s) (al_taken s) (al_shared s) (al_clean s) (al_tick s).

(** The answers from outside, by their number: a page that is not taken, whether
    there is memory for a pool and for its entry in the array, and the results of
    [qcom_scm_assign_mem]. *)
Record al_env := mk_aenv {
  ae_page : gset Z -> nat -> option Z;
  ae_kmalloc : nat -> bool;
  ae_xa_store : nat -> Z;
  ae_assign : nat -> Z;
}.

Section PgAlloc.
Context (env : al_env).

Abbreviation M := (M pg_alloc).

(** ** Outside *)

Definition tick : M nat := n <-- gets al_tick ;;; modify (fun s => s <| al_tick := S n |>) ;;; mret n.

Definition __iommu_alloc_pages (gfp : gfp_t) : M (option Z) :=
  n <-- tick ;;;
  taken <-- gets al_taken ;;;
  match ae_page env taken n with
  | None => mret None
  | Some p =>
      modify (fun s => s <| al_taken := {[p]} ∪ al_taken s |>
                        <| al_clean := if gfp_zero gfp then {[p]} ∪ al_clean s else al_clean s ∖ {[p]} |>) ;;;
      mret (Some p)
  end.

Definition __iommu_free_pages (page : Z) : M unit :=
  taken <-- gets al_taken ;;;
  if decide (page ∈ taken) then modify (fun s => s <| al_taken := al_taken s ∖ {[page]} |>) else fault.

(** ** Sharing with another machine *)

Definition is_secure_vmid (vmid : Z) : bool := truth vmid.

(** After an error the page may be shared. *)
Definition io_pgtable_hyp_assign_page (vmid page : Z) : M Z :=
  n <-- tick ;;;
  modify (fun s => s <| al_shared := <[page := vmid]> (al_shared s) |>) ;;;
  mret (if ae_assign env n =? 0 then 0 else - EADDRNOTAVAIL).

Definition io_pgtable_hyp_unassign_page (vmid page : Z) : M Z :=
  n <-- tick ;;;
  if ae_assign env n =? 0 then
    modify (fun s => s <| al_shared := delete page (al_shared s) |>) ;;;
    mret 0
  else mret (- EADDRNOTAVAIL).

(** ** Pools *)

(** The pool of a VMID, which is used without a test for null. *)
Definition get_pool (vmid : Z) : M io_pgtable_pool := x <-- gets (fun s => xa_load (al_pools s) vmid) ;;; or_fault x.

Definition put_pool (vmid : Z) (p : io_pgtable_pool) : M unit :=
  modify (fun s => s <| al_pools := xa_store (al_pools s) vmid p |>).

(** The first page of a list and the rest. *)
Definition __alloc_page_from_pool (page_pool : list Z) : M (option Z * list Z) :=
  match page_pool with
  | [] => mret (None, [])
  | page :: l => modify (fun s => s <| al_count := al_count s - 1 |>) ;;; mret (Some page, l)
  end.

Definition alloc_page_from_pool (vmid : Z) : M (option Z) :=
  pool <-- get_pool vmid ;;;
  r <-- __alloc_page_from_pool (po_pages pool) ;;;
  put_pool vmid (pool <| po_pages := snd r |>) ;;;
  mret (fst r).

Definition page_private (page : Z) : M Z := v <-- gets (fun s => al_private s !! page) ;;; or_fault v.

Definition free_page_to_pool (page : Z) : M unit :=
  vmid <-- page_private page ;;;
  pool <-- get_pool vmid ;;;
  modify (fun s => s <| al_clean := {[page]} ∪ al_clean s |>) ;;;
  put_pool vmid (pool <| po_pages := page :: po_pages pool |>) ;;;
  modify (fun s => s <| al_count := al_count s + 1 |>).

(** A page goes back to the system unless the other machine may still read it;
    whether it does. *)
Definition return_page (vmid page : Z) : M bool :=
  r <-- (if is_secure_vmid vmid then io_pgtable_hyp_unassign_page vmid page else mret 0) ;;;
  if r =? 0 then __iommu_free_pages page ;;; mret true else mret false.

Fixpoint release_pages (fuel : nat) (vmid : Z) (l : list Z) : M unit :=
  match fuel with
  | O => fun _ => NoFuel
  | S fuel =>
      r <-- __alloc_page_from_pool l ;;;
      match r with
      | (None, _) => mret tt
      | (Some page, l) => return_page vmid page ;;; release_pages fuel vmid l
      end
  end.

Definition io_pgtable_pool_release (vmid : Z) (pool : io_pgtable_pool) : M unit :=
  modify (fun s => s <| al_pools := xa_erase (al_pools s) vmid |>) ;;;
  release_pages (S (length (po_pages pool))) vmid (po_pages pool).

(** ** Clients *)

Definition qcom_io_pgtable_allocator_register (vmid : Z) : M Z :=
  x <-- gets (fun s => xa_load (al_pools s) vmid) ;;;
  match x with
  | Some pool => put_pool vmid (pool <| po_ref := po_ref pool + 1 |>) ;;; mret 0
  | None =>
      n <-- tick ;;;
      if negb (ae_kmalloc env n) then mret (- ENOMEM)
      else
        n <-- tick ;;;
        let ret := ae_xa_store env n in
        if ret <? 0 then mret ret
        else put_pool vmid (mk_pool 1 []) ;;; mret ret
  end.

Definition qcom_io_pgtable_allocator_unregister (vmid : Z) : M unit :=
  pool <-- get_pool vmid ;;;
  let pool := pool <| po_ref := po_ref pool - 1 |> in
  put_pool vmid pool ;;;
  if po_ref pool =? 0 then io_pgtable_pool_release vmid pool else mret tt.

Definition qcom_io_pgtable_alloc_page (vmid : Z) (gfp : gfp_t) : M (option Z) :=
  if negb (gfp_blocking gfp) && is_secure_vmid vmid then fault
  else
    p <-- alloc_page_from_pool vmid ;;;
    match p with
    | Some page => mret (Some page)
    | None =>
        p <-- __iommu_alloc_pages gfp ;;;
        match p with
        | None => mret None
        | Some page =>
            r <-- (if is_secure_vmid vmid then io_pgtable_hyp_assign_page vmid page else mret 0) ;;;
            if r =? 0 then
              modify (fun s => s <| al_private := <[page := vmid]> (al_private s) |>) ;;;
              mret (Some page)
            else mret None
        end
    end.

Definition qcom_io_pgtable_free_page (page : Z) : M unit := free_page_to_pool page.

(** ** The shrinker *)

Definition SHRINK_EMPTY : Z := 2 ^ 64 - 2.

Definition io_pgtable_alloc_count_objects : M Z := count <-- gets al_count ;;; mret (if count =? 0 then SHRINK_EMPTY else count).

(** Pages moved from a pool to the list, their number, and the longer list. *)
Fixpoint scan_loop (fuel : nat) (page_pool freelist : list Z) (count nr_to_scan : Z) : M (list Z * list Z * Z) :=
  match fuel with
  | O => fun _ => NoFuel
  | S fuel =>
      if negb (count <? nr_to_scan) then mret (page_pool, freelist, count)
      else
        r <-- __alloc_page_from_pool page_pool ;;;
        match r with
        | (Some page, l) => scan_loop fuel l (page :: freelist) (count + 1) nr_to_scan
        | (None, l) => mret (l, freelist, count)
        end
  end.

Definition scan_page_pool (vmid : Z) (pool : io_pgtable_pool) (freelist : list Z) (nr_to_scan : Z) : M (list Z * Z) :=
  r <-- scan_loop (S (length (po_pages pool))) (po_pages pool) freelist 0 nr_to_scan ;;;
  let '(l, freelist, count) := r in
  put_pool vmid (pool <| po_pages := l |>) ;;;
  mret (freelist, count).

Fixpoint scan_pools (pools : xarray io_pgtable_pool) (freelist : list Z) (nr_to_scan count : Z) : M (list Z * Z) :=
  match pools with
  | [] => mret (freelist, count)
  | (vmid, pool) :: pools' =>
      r <-- scan_page_pool vmid pool freelist (u64 (nr_to_scan - count)) ;;;
      let count := count + snd r in
      if nr_to_scan <=? count then mret (fst r, count) else scan_pools pools' (fst r) nr_to_scan count
  end.

Fixpoint return_pages (l : list Z) (count : Z) : M Z :=
  match l with
  | [] => mret count
  | page :: l' =>
      vmid <-- page_private page ;;;
      ok <-- return_page vmid page ;;;
      return_pages l' (if ok : bool then count else u64 (count - 1))
  end.

Definition io_pgtable_alloc_scan_objects (nr_to_scan : Z) : M Z :=
  pools <-- gets al_pools ;;;
  r <-- scan_pools pools [] nr_to_scan 0 ;;;
  return_pages (fst r) (snd r).
End PgAlloc.

(** ** The invariant *)

Section Inv.

(** The number of pages in the pools. *)
Definition total_pages (x : xarray io_pgtable_pool) : Z := Z.of_nat (sum_list_with (fun iv => length (po_pages (snd iv))) x).

(** A page of the client or the pool of a VMID. *)
Definition belongs (s : pg_alloc) (page vmid : Z) : Prop :=
  page ∈ al_taken s /\ al_private s !! page = Some vmid /\
  al_shared s !! page = (if is_secure_vmid vmid then Some vmid else @None Z).

Definition in_pool (s : pg_alloc) (page vmid : Z) : Prop := exists p, xa_load (al_pools s) vmid = Some p /\ page ∈ po_pages p.

(** What the clients know: the pages they hold, with the VMID, and how often each
    VMID is registered. [loose] are pages that a function took from a pool,
    [extra] the pages counted but in no pool. *)
Record al_inv (out : gmap Z Z) (regs : Z -> Z) (loose : list Z) (extra : Z) (s : pg_alloc) : Prop := {
  ai_sorted : xa_sorted (al_pools s);
  ai_ref : forall v, regs v = match xa_load (al_pools s) v with Some p => po_ref p | None => 0 end;
  ai_pos : forall v p, xa_load (al_pools s) v = Some p -> 0 < po_ref p;
  ai_count : al_count s = total_pages (al_pools s) + extra;
  ai_nodup : forall v p, xa_load (al_pools s) v = Some p -> NoDup (po_pages p);
  ai_pool : forall page v, in_pool s page v -> belongs s page v /\ page ∈ al_clean s /\ out !! page = None /\ (page ∉ loose);
  ai_out : forall page v, out !! page = Some v -> belongs s page v /\ 0 < regs v /\ (page ∉ loose);
  ai_loose_nodup : NoDup loose;
  ai_loose : forall page, page ∈ loose -> exists v, belongs s page v;
  ai_shared : forall page v, al_shared s !! page = Some v -> page ∈ al_taken s;
}.

Definition pages_at (x : xarray io_pgtable_pool) (v : Z) : list Z :=
  match xa_load x v with Some p => po_pages p | None => [] end.

(** ** Pools as arrays *)

Lemma total_store x v p :
  xa_sorted x -> total_pages (xa_store x v p) = total_pages x - Z.of_nat (length (pages_at x v)) + Z.of_nat (length (po_pages p)).
Proof.
  unfold total_pages, pages_at. induction 1 as [|[k w] x Hs IH Hall]; cbn -[Z.of_nat]; [lia|].
  destruct (Z.ltb_spec v k) as [Hv|Hv].
  - destruct (Z.eqb_spec k v) as [->|_]; [lia|]. cbn -[Z.of_nat]. rewrite xa_load_above; [cbn -[Z.of_nat]; lia|].
    eapply Forall_impl; [exact Hall|]. cbn. lia.
  - destruct (Z.eqb_spec k v) as [->|Hk]; cbn -[Z.of_nat]; lia.
Qed.

Lemma total_erase x v : xa_sorted x -> total_pages (xa_erase x v) = total_pages x - Z.of_nat (length (pages_at x v)).
Proof.
  unfold total_pages, pages_at. induction 1 as [|[k w] x Hs IH Hall]; cbn -[Z.of_nat xa_erase]; [done|]. rewrite xa_erase_cons.
  destruct (Z.eqb_spec k v) as [->|Hk]; [|cbn -[Z.of_nat]; lia].
  rewrite IH, xa_load_above by done. cbn -[Z.of_nat]. lia.
Qed.
End Inv.

(** ** Pages change hands *)

Section Moves.

Lemma belongs_same s s' page v :
  al_taken s' = al_taken s -> al_private s' = al_private s -> al_shared s' = al_shared s -> belongs s page v -> belongs s' page v.
Proof. unfold belongs. by intros -> -> ->. Qed.

(** The owner of a page is in the page. *)
Lemma belongs_inj s page v v' : belongs s page v -> belongs s page v' -> v = v'.
Proof. intros (_ & H1 & _) (_ & H2 & _). congruence. Qed.

Lemma move_to_client out regs loose extra s page v :
  al_inv out regs (page :: loose) extra s -> belongs s page v -> 0 < regs v ->
  (forall w, ~ in_pool s page w) /\ out !! page = None /\ al_inv (<[page := v]> out) regs loose extra s.
Proof.
  intros [] Hb Hr. assert (forall w, ~ in_pool s page w) as Hn.
  { intros w Hw. destruct (ai_pool0 _ _ Hw) as (_ & _ & _ & H). apply H. by left. }
  assert (out !! page = None) as Hout.
  { destruct (out !! page) as [w|] eqn:E; [|done]. destruct (ai_out0 _ _ E) as (_ & _ & H). exfalso. apply H. by left. }
  split; [done|]. split; [done|]. apply NoDup_cons in ai_loose_nodup0 as [Hp Hl]. split; try done.
  - intros q w Hq. destruct (ai_pool0 _ _ Hq) as (H1 & H2 & H3 & H4). split; [done|]. split; [done|]. split.
    + rewrite lookup_insert_ne; [done|]. intros ->. by destruct (Hn w).
    + intros H. apply H4. by right.
  - intros q w Hq. apply lookup_insert_Some in Hq as [[<- <-]|[Hne Hq]]; [done|]. destruct (ai_out0 _ _ Hq) as (H1 & H2 & H3).
    split; [done|]. split; [done|]. intros H. apply H3. by right.
  - intros q Hq. apply ai_loose0. by right.
Qed.

Lemma move_from_client out regs loose extra s page v :
  al_inv out regs loose extra s -> out !! page = Some v -> al_inv (delete page out) regs (page :: loose) extra s.
Proof.
  intros [] Ho. destruct (ai_out0 _ _ Ho) as (Hb & Hr & Hl). split; try done.
  - intros q w Hq. destruct (ai_pool0 _ _ Hq) as (H1 & H2 & H3 & H4). split; [done|]. split; [done|].
    assert (q <> page) as Hne by congruence. split; [by rewrite lookup_delete_ne|]. intros [->|H]%elem_of_cons; done.
  - intros q w Hq. apply lookup_delete_Some in Hq as [Hne Hq]. destruct (ai_out0 _ _ Hq) as (H1 & H2 & H3).
    split; [done|]. split; [done|]. intros [->|H]%elem_of_cons; done.
  - by constructor.
  - intros q [->|Hq]%elem_of_cons; [by exists v|by apply ai_loose0].
Qed.

(** The contents of a pool are replaced. *)
Lemma in_pool_store s v p s' :
  xa_sorted (al_pools s) -> al_pools s' = xa_store (al_pools s) v p ->
  forall page w, in_pool s' page w <-> if v =? w then page ∈ po_pages p else in_pool s page w.
Proof.
  intros Hs E page w. unfold in_pool. rewrite E, xa_load_store by done. destruct (Z.eqb_spec v w) as [->|Hne].
  - split; [by intros (? & [= <-] & ?)|]. intros Hin. by exists p.
  - done.
Qed.

Lemma replace_pool out regs loose extra s s' v p p' loose' extra' :
  al_inv out regs loose extra s -> xa_load (al_pools s) v = Some p -> po_ref p' = po_ref p ->
  al_pools s' = xa_store (al_pools s) v p' ->
  al_taken s' = al_taken s -> al_private s' = al_private s -> al_shared s' = al_shared s -> al_clean s ⊆ al_clean s' ->
  al_count s' = total_pages (xa_store (al_pools s) v p') + extra' ->
  NoDup (po_pages p') -> NoDup loose' ->
  (forall page, page ∈ po_pages p' -> belongs s page v /\ page ∈ al_clean s' /\ out !! page = None /\ (page ∉ loose')) ->
  (forall page, page ∈ loose' -> out !! page = None /\ (exists w, belongs s page w) /\ forall w, w <> v -> ~ in_pool s page w) ->
  al_inv out regs loose' extra' s'.
Proof.
  intros [] Ep Er Es Et Epr Esh Hc Ec Hn Hn' Hp Hl.
  assert (forall w, xa_load (al_pools s') w = if v =? w then Some p' else xa_load (al_pools s) w) as L.
  { intros w. by rewrite Es, xa_load_store. }
  split; try done.
  - rewrite Es. by apply xa_sorted_store.
  - intros w. rewrite L. destruct (Z.eqb_spec v w) as [<-|]; [|done]. by rewrite Er, ai_ref0, Ep.
  - intros w q. rewrite L. destruct (Z.eqb_spec v w) as [<-|]; [|apply ai_pos0]. intros [= <-]. rewrite Er. by eapply ai_pos0.
  - by rewrite Es.
  - intros w q. rewrite L. destruct (Z.eqb_spec v w) as [<-|]; [by intros [= <-]|apply ai_nodup0].
  - intros page w Hin. rewrite (in_pool_store s v p' s' ai_sorted0 Es) in Hin. destruct (Z.eqb_spec v w) as [Evw|Hne].
    + rewrite <- Evw in *. destruct (Hp _ Hin) as (H1 & H2 & H3). split; [by apply (belongs_same s)|done].
    + destruct (ai_pool0 _ _ Hin) as (H1 & H2 & H3 & _). split; [by apply (belongs_same s)|]. split; [by apply Hc|]. split; [done|].
      intros Hlo. destruct (Hl _ Hlo) as (_ & _ & H). by apply (H w); [congruence|].
  - intros page w Hin. destruct (ai_out0 _ _ Hin) as (H1 & H2 & _). split; [by apply (belongs_same s)|]. split; [done|].
    intros Hlo. destruct (Hl _ Hlo) as (H & _). congruence.
  - intros page Hlo. destruct (Hl _ Hlo) as (_ & [w Hw] & _). exists w. by apply (belongs_same s).
  - intros page w. rewrite Esh, Et. apply ai_shared0.
Qed.
End Moves.

(** ** Every function keeps the invariant *)

Section Safe.
Context (env : al_env).
Hypothesis page_fresh : forall taken n p, ae_page env taken n = Some p -> p ∉ taken.

(** The parts that pages and pools depend on. *)
Lemma same_inv out regs loose extra s s' :
  al_inv out regs loose extra s -> al_pools s' = al_pools s -> al_count s' = al_count s -> al_taken s' = al_taken s ->
  al_private s' = al_private s -> al_shared s' = al_shared s -> al_clean s' = al_clean s -> al_inv out regs loose extra s'.
Proof.
  intros [] E1 E2 E3 E4 E5 E6. assert (forall page v, belongs s page v -> belongs s' page v) as B by (intros; by apply (belongs_same s)).
  assert (forall page v, in_pool s' page v <-> in_pool s page v) as P by (intros; unfold in_pool; by rewrite E1).
  split; rewrite ?E1, ?E2, ?E3, ?E5, ?E6; try done.
  - intros page v Hp. apply P in Hp. destruct (ai_pool0 _ _ Hp) as (H & ?). auto.
  - intros page v Hp. destruct (ai_out0 _ _ Hp) as (H & ?). auto.
  - intros page Hp. destruct (ai_loose0 _ Hp) as [v H]. eauto.
Qed.

Lemma total_tick {B : Type} out regs loose extra s (k : nat -> M pg_alloc B) Q :
  al_inv out regs loose extra s ->
  (forall s', al_inv out regs loose extra s' -> al_pools s' = al_pools s -> al_private s' = al_private s ->
     al_taken s' = al_taken s -> al_shared s' = al_shared s -> al_clean s' = al_clean s ->
     al_count s' = al_count s -> total (k (al_tick s) (W s')) Q) ->
  total (mbnd tick k (W s)) Q.
Proof.
  intros HI Hk. unfold tick. rewrite run_assoc. apply total_gets. rewrite run_assoc. apply total_modify. rewrite run_ret.
  apply Hk; try done. by apply (same_inv _ _ _ _ s).
Qed.

Lemma total_get_pool {B : Type} s v p (k : io_pgtable_pool -> M pg_alloc B) Q :
  xa_load (al_pools s) v = Some p -> total (k p (W s)) Q -> total (mbnd (get_pool v) k (W s)) Q.
Proof. intros E Hk. unfold get_pool. rewrite run_assoc. apply total_gets. rewrite E, run_or_fault. exact Hk. Qed.

(** A loose page is in no pool and not with a client; it may be left alone. *)
Lemma leak_inv out regs loose extra s page :
  al_inv out regs (page :: loose) extra s ->
  al_inv out regs loose extra s /\ (forall w, ~ in_pool s page w) /\ out !! page = None /\ page ∉ loose.
Proof.
  intros []. apply NoDup_cons in ai_loose_nodup0 as [Hn Hl]. split; [split; try done|split; [|split; [|done]]].
  - intros q w Hq. destruct (ai_pool0 _ _ Hq) as (? & ? & ? & H). split_and!; try done. intros Hin. apply H. by right.
  - intros q w Hq. destruct (ai_out0 _ _ Hq) as (? & ? & H). split_and!; try done. intros Hin. apply H. by right.
  - intros q Hq. apply ai_loose0. by right.
  - intros w Hw. destruct (ai_pool0 _ _ Hw) as (_ & _ & _ & H). apply H. by left.
  - destruct (out !! page) as [w|] eqn:E; [|done]. destruct (ai_out0 _ _ E) as (_ & _ & H). exfalso. apply H. by left.
Qed.

(** The system has it again. *)
Lemma forget_inv out regs loose extra s s' page :
  al_inv out regs (page :: loose) extra s ->
  al_pools s' = al_pools s -> al_count s' = al_count s -> al_private s' = al_private s -> al_clean s' = al_clean s ->
  al_taken s' = al_taken s ∖ {[page]} -> al_shared s' = delete page (al_shared s) -> al_inv out regs loose extra s'.
Proof.
  intros HI E1 E2 E3 E4 E5 E6. destruct (leak_inv _ _ _ _ _ _ HI) as ([] & Hn & Ho & Hl).
  assert (forall q w, q <> page -> belongs s q w -> belongs s' q w) as B.
  { intros q w Hne (H1 & H2 & H3). unfold belongs. rewrite E3, E5, E6, lookup_delete_ne by done. split; [set_solver|done]. }
  assert (forall q v, in_pool s' q v <-> in_pool s q v) as P by (intros; unfold in_pool; by rewrite E1).
  split; rewrite ?E1, ?E2, ?E4; try done.
  - intros q w Hq. apply P in Hq. destruct (ai_pool0 _ _ Hq) as (H & ?). split; [|done]. apply B; [|done]. intros ->. by apply (Hn w).
  - intros q w Hq. destruct (ai_out0 _ _ Hq) as (H & ?). split; [|done]. apply B; [|done]. congruence.
  - intros q Hq. destruct (ai_loose0 _ Hq) as [w H]. exists w. apply B; [|done]. congruence.
  - intros q w. rewrite E5, E6. intros [Hne Hq]%lookup_delete_Some. specialize (ai_shared0 _ _ Hq). set_solver.
Qed.

(** A loose page goes back to the system, unless another machine may read it;
    nothing else changes hands. *)
Lemma return_page_total out regs loose extra s page v :
  al_inv out regs (page :: loose) extra s -> belongs s page v ->
  total (return_page env v page (W s)) (fun _ s' => al_inv out regs loose extra s' /\ al_pools s' = al_pools s /\
    al_private s' = al_private s).
Proof.
  intros HI Hb. unfold return_page, __iommu_free_pages. destruct Hb as (Ht & Hp & Hs). destruct (is_secure_vmid v).
  2: { rewrite run_ret. cbn [Z.eqb]. rewrite run_assoc. apply total_gets. rewrite decide_True by done. apply total_modify. split; [done|].
       split; [|done]. apply (forget_inv _ _ _ _ s _ page); try done. cbn. by rewrite delete_id. }
  unfold io_pgtable_hyp_unassign_page. rewrite run_assoc. apply (total_tick out regs (page :: loose) extra); [done|].
  intros s1 H1 E1 E2 E3 E4 E5 _. destruct (ae_assign env _ =? 0).
  - rewrite run_assoc. apply total_modify. rewrite run_ret. cbn [Z.eqb]. rewrite run_assoc. apply total_gets.
    rewrite decide_True by (cbn; by rewrite E3). apply total_modify. split; [done|]. split; [|done].
    by apply (forget_inv _ _ _ _ s1 _ page).
  - rewrite run_ret. cbn [Z.eqb Z.opp EADDRNOTAVAIL]. apply total_ret. split; [|done]. by apply (leak_inv _ _ _ _ _ page).
Qed.

(** The pages of a pool that was erased. *)
Lemma release_pages_total out regs v : forall l loose extra s fuel,
  al_inv out regs (l ++ loose) (Z.of_nat (length l) + extra) s -> Forall (fun page => belongs s page v) l -> (length l < fuel)%nat ->
  total (release_pages env fuel v l (W s)) (fun _ s' => al_inv out regs loose extra s' /\ al_pools s' = al_pools s).
Proof.
  induction l as [|page l IH]; intros loose extra s fuel HI Hb Hf; (destruct fuel as [|fuel]; [cbn in Hf; lia|]); cbn [release_pages __alloc_page_from_pool].
  - rewrite run_ret. split; [done|]. split; [|done]. exact HI.
  - rewrite run_assoc. apply total_modify. rewrite run_ret. set (s1 := s <| al_count := _ |>).
    assert (al_inv out regs (page :: l ++ loose) (Z.of_nat (length l) + extra) s1) as H1.
    { destruct HI. split; try done. cbn. cbn [length] in ai_count0. lia. }
    apply Forall_cons in Hb as [Hp Hl].
    eapply total_step; [apply (return_page_total _ _ _ _ _ page v H1); done|]. intros ok s2 (H2 & E1 & E2).
    eapply total_mono; [apply (IH loose extra s2 fuel); [exact H2| |cbn in Hf; lia]|].
    + apply Forall_forall. intros q Hq. destruct (ai_loose _ _ _ _ _ H2 q) as [w Hw]; [apply elem_of_app; by left|].
      rewrite Forall_forall in Hl. specialize (Hl q Hq). destruct Hw as (W1 & W2 & W3), Hl as (L1 & L2 & L3).
      rewrite E2 in W2. cbn in W2. assert (w = v) as -> by congruence. split; [done|]. by rewrite E2.
    + intros _ s3 [H3 E3]. split; [done|]. by rewrite E3, E1.
Qed.

(** ** Clients *)

Definition set_reg (regs : Z -> Z) (v n : Z) : Z -> Z := fun w => if v =? w then n else regs w.

Lemma set_ref_inv out regs loose extra s v n p :
  al_inv out regs loose extra s -> 0 < n -> po_ref p = n -> po_pages p = pages_at (al_pools s) v ->
  al_inv out (set_reg regs v n) loose extra (s <| al_pools := xa_store (al_pools s) v p |>).
Proof.
  intros HI Hn Er Ep. set (s' := s <| al_pools := _ |>). pose proof HI as [].
  assert (forall w, xa_load (al_pools s') w = if v =? w then Some p else xa_load (al_pools s) w) as L.
  { intros w. cbn. by rewrite xa_load_store. }
  assert (forall q w, in_pool s' q w -> in_pool s q w) as P.
  { intros q w (p' & E & Hq). rewrite L in E. destruct (Z.eqb_spec v w) as [->|_]; [|by exists p'].
    injection E as <-. rewrite Ep in Hq. unfold pages_at in Hq. destruct (xa_load (al_pools s) w) as [p'|] eqn:E; [by exists p'|].
    by apply elem_of_nil in Hq. }
  split; try done.
  - cbn. by apply xa_sorted_store.
  - intros w. unfold set_reg. rewrite L. destruct (Z.eqb_spec v w) as [->|_]; [done|by rewrite ai_ref0].
  - intros w q. rewrite L. destruct (v =? w); [intros [= <-]; lia|apply ai_pos0].
  - cbn. rewrite total_store, Ep by done. rewrite ai_count0. lia.
  - intros w q. rewrite L. destruct (v =? w); [intros [= <-]|apply ai_nodup0]. rewrite Ep. unfold pages_at.
    destruct (xa_load (al_pools s) v) as [p'|] eqn:E; [by eapply ai_nodup0|constructor].
  - intros q w Hq. apply P in Hq. by apply (ai_pool0 q w).
  - intros q w Hq. destruct (ai_out0 q w Hq) as (H1 & H2 & H3). split; [done|]. split; [|done]. unfold set_reg. by destruct (v =? w).
Qed.

Hypothesis xa_err_sign : forall n, ae_xa_store env n <= 0.

(** A registration counts, or an error says that it does not. *)
Lemma register_total out regs s v :
  al_inv out regs [] 0 s ->
  total (qcom_io_pgtable_allocator_register env v (W s)) (fun ret s' =>
    (ret = 0 /\ al_inv out (set_reg regs v (regs v + 1)) [] 0 s') \/ (ret < 0 /\ al_inv out regs [] 0 s')).
Proof.
  intros HI. unfold qcom_io_pgtable_allocator_register. apply total_gets. pose proof (ai_ref _ _ _ _ _ HI v) as Er.
  destruct (xa_load (al_pools s) v) as [pool|] eqn:E.
  - unfold put_pool. apply total_modify. split; [done|]. left. split; [done|]. cbn [w_st W].
    pose proof (ai_pos _ _ _ _ _ HI _ _ E). apply set_ref_inv; [done|lia|cbn; lia|]. unfold pages_at. by rewrite E.
  - apply (total_tick out regs [] 0); [done|]. intros s1 H1 E1 E2 E3 E4 E5 _. destruct (negb _); [apply total_ret; right; split; [done|exact H1]|].
    apply (total_tick out regs [] 0); [done|]. intros s2 H2 F1 F2 F3 F4 F5 _. pose proof (xa_err_sign (al_tick s1)).
    destruct (Z.ltb_spec (ae_xa_store env (al_tick s1)) 0); [apply total_ret; right; split; [lia|exact H2]|].
    unfold put_pool. apply total_modify. split; [done|]. left. split; [lia|]. cbn [w_st W].
    apply set_ref_inv; [done|lia|cbn; lia|]. unfold pages_at. by rewrite F1, E1, E.
Qed.

Lemma erase_inv out regs s v p :
  al_inv out regs [] 0 s -> xa_load (al_pools s) v = Some p -> (forall page, out !! page <> Some v) ->
  al_inv out (set_reg regs v 0) (po_pages p) (Z.of_nat (length (po_pages p))) (s <| al_pools := xa_erase (al_pools s) v |>).
Proof.
  intros HI E Ho. pose proof HI as []. set (s' := s <| al_pools := _ |>).
  assert (forall w, xa_load (al_pools s') w = if v =? w then None else xa_load (al_pools s) w) as L.
  { intros w. cbn. by rewrite xa_load_erase. }
  assert (forall q w, in_pool s' q w -> v <> w /\ in_pool s q w) as P.
  { intros q w (p' & E' & Hq). rewrite L in E'. destruct (Z.eqb_spec v w) as [->|Hne]; [done|]. split; [done|]. by exists p'. }
  split; try done.
  - cbn. by apply xa_sorted_erase.
  - intros w. unfold set_reg. rewrite L. destruct (Z.eqb_spec v w) as [->|_]; [done|by rewrite ai_ref0].
  - intros w q. rewrite L. destruct (v =? w); [done|apply ai_pos0].
  - cbn -[Z.of_nat]. rewrite total_erase by done. unfold pages_at. rewrite E, ai_count0. lia.
  - intros w q. rewrite L. destruct (v =? w); [done|apply ai_nodup0].
  - intros q w [Hne Hq]%P. destruct (ai_pool0 q w Hq) as (H1 & H2 & H3 & H4). split_and!; try done. intros Hin.
    destruct (ai_pool0 q v) as (H5 & _); [by exists p|]. apply Hne. by apply (belongs_inj s q).
  - intros q w Hq. destruct (ai_out0 q w Hq) as (H1 & H2 & H3). assert (v <> w) by (intros ->; by apply (Ho q)). split; [done|]. split.
    + unfold set_reg. rewrite (proj2 (Z.eqb_neq v w)); done.
    + intros Hin. destruct (ai_pool0 q v) as (_ & _ & H5 & _); [by exists p|]. congruence.
  - by apply (ai_nodup0 v).
  - intros q Hq. exists v. apply (ai_pool0 q v). by exists p.
Qed.

(** The last client of a VMID gives up its pool, and returns what it holds. *)
Lemma unregister_total out regs s v :
  al_inv out regs [] 0 s -> 0 < regs v -> (regs v = 1 -> forall page, out !! page <> Some v) ->
  total (qcom_io_pgtable_allocator_unregister env v (W s)) (fun _ s' => al_inv out (set_reg regs v (regs v - 1)) [] 0 s').
Proof.
  intros HI Hr Ho. pose proof (ai_ref _ _ _ _ _ HI v) as Er. destruct (xa_load (al_pools s) v) as [pool|] eqn:E; [|lia].
  unfold qcom_io_pgtable_allocator_unregister. eapply total_get_pool; [exact E|]. unfold put_pool. apply total_modify.
  cbn [po_ref set_field]. destruct (Z.eqb_spec (po_ref pool - 1) 0) as [H0|H0].
  2: { apply total_ret. rewrite Er. apply set_ref_inv; [done|lia|done|]. unfold pages_at. by rewrite E. }
  assert (regs v = 1) as E1 by lia. rewrite E1. unfold io_pgtable_pool_release. apply total_modify. cbn [po_pages set_field].
  match goal with |- total (_ (W ?x)) _ => set (s1 := x) end.
  assert (al_pools s1 = xa_erase (al_pools s) v) as Es by (cbn; by apply xa_erase_store, HI).
  assert (al_inv out (set_reg regs v 0) (po_pages pool ++ []) (Z.of_nat (length (po_pages pool)) + 0) s1) as H1.
  { rewrite app_nil_r, Z.add_0_r. pose proof (erase_inv out regs s v pool HI E (Ho E1)) as H.
    apply (same_inv _ _ _ _ _ s1 H); try done. }
  eapply total_mono; [apply (release_pages_total _ _ v _ _ _ _ _ H1); [|lia]|by intros _ s2 [H2 _]].
  apply Forall_forall. intros page Hp. apply (ai_pool _ _ _ _ _ HI page v). by exists pool.
Qed.

(** A page that the system gave. *)
Lemma new_page_inv out regs s s' page :
  al_inv out regs [] 0 s -> page ∉ al_taken s ->
  al_pools s' = al_pools s -> al_count s' = al_count s -> al_taken s' = {[page]} ∪ al_taken s ->
  (forall q, q <> page -> al_private s' !! q = al_private s !! q /\ al_shared s' !! q = al_shared s !! q /\ (q ∈ al_clean s -> q ∈ al_clean s')) ->
  al_inv out regs [] 0 s' /\ forall v, belongs s' page v -> 0 < regs v -> out !! page = None /\ al_inv (<[page := v]> out) regs [] 0 s'.
Proof.
  intros [] Hf E1 E2 E3 Hq. assert (forall q w, belongs s q w -> belongs s' q w) as B.
  { intros q w (H1 & H2 & H3). assert (q <> page) as Hne by congruence. destruct (Hq q Hne) as (Q1 & Q2 & _).
    unfold belongs. rewrite E3, Q1, Q2. split; [set_solver|done]. }
  assert (forall q w, in_pool s' q w <-> in_pool s q w) as P by (intros; unfold in_pool; by rewrite E1).
  assert (al_inv out regs [] 0 s') as H.
  { split; rewrite ?E1, ?E2; try done.
    - intros q w Hp. apply P in Hp. destruct (ai_pool0 _ _ Hp) as (H1 & H2 & ?). split; [by apply B|]. split; [|done].
      apply Hq; [|done]. destruct H1. congruence.
    - intros q w Ho. destruct (ai_out0 _ _ Ho) as (H1 & ?). split; [by apply B|done].
    - intros q Hp. by apply elem_of_nil in Hp.
    - intros q w Hw. rewrite E3. destruct (decide (q = page)) as [->|Hne]; [set_solver|]. destruct (Hq q Hne) as (_ & Q & _).
      rewrite Q in Hw. specialize (ai_shared0 _ _ Hw). set_solver. }
  split; [done|]. intros v Hb Hr. assert (al_inv out regs [page] 0 s') as H1.
  { assert (out !! page = None) as Ho.
    { destruct (out !! page) as [w|] eqn:E; [|done]. destruct (ai_out0 _ _ E) as ((? & _) & _). done. }
    destruct H. split; try done.
    - intros q w Hp. destruct (ai_pool1 _ _ Hp) as (H1 & H2 & H3 & _). split_and!; try done. intros ->%list_elem_of_singleton.
      apply P in Hp. destruct (ai_pool0 _ _ Hp) as ((? & _) & _). done.
    - intros q w Hp. destruct (ai_out1 _ _ Hp) as (H1 & H2 & _). split_and!; try done. intros ->%list_elem_of_singleton. congruence.
    - apply NoDup_singleton.
    - intros q ->%list_elem_of_singleton. by exists v. }
  by destruct (move_to_client out regs [] 0 s' page v H1 Hb Hr) as (_ & ? & ?).
Qed.

Definition alloc_ok (out : gmap Z Z) (regs : Z -> Z) (v : Z) (gfp : gfp_t) (o : option Z) (s' : pg_alloc) : Prop :=
  match o with
  | Some page => out !! page = None /\ al_inv (<[page := v]> out) regs [] 0 s' /\ (gfp_zero gfp = true -> page ∈ al_clean s')
  | None => al_inv out regs [] 0 s'
  end.

Lemma fresh_page_total out regs s v gfp :
  al_inv out regs [] 0 s -> 0 < regs v ->
  total ((p <-- __iommu_alloc_pages env gfp ;;;
    match p with
    | None => mret None
    | Some page =>
        r <-- (if is_secure_vmid v then io_pgtable_hyp_assign_page env v page else mret 0) ;;;
        if r =? 0 then modify (fun s => s <| al_private := <[page := v]> (al_private s) |>) ;;; mret (Some page)
        else mret None
    end) (W s)) (alloc_ok out regs v gfp).
Proof.
  intros HI Hr. unfold __iommu_alloc_pages. rewrite run_assoc. apply (total_tick out regs [] 0); [done|]. intros s1 H1 _ _ _ _ _ _.
  rewrite run_assoc. apply total_gets. destruct (ae_page env (al_taken s1) (al_tick s)) as [page|] eqn:Ep; [|by rewrite run_ret].
  apply page_fresh in Ep. rewrite run_assoc. apply total_modify. rewrite run_ret.
  match goal with |- total (_ (W ?x)) _ => set (s2 := x) end.
  assert (forall q, q <> page -> q ∈ al_clean s1 -> q ∈ al_clean s2) as Hc.
  { intros q Hne Hq. cbn. destruct (gfp_zero gfp); set_solver. }
  assert (gfp_zero gfp = true -> page ∈ al_clean s2) as Hz by (intros Z; cbn; rewrite Z; set_solver).
  assert (al_shared s1 !! page = None) as Hs.
  { destruct (al_shared s1 !! page) as [w|] eqn:E; [|done]. by apply (ai_shared _ _ _ _ _ H1) in E. }
  assert (al_inv out regs [] 0 s2) as H2 by (by apply (new_page_inv out regs s1 s2 page); try done; intros q Hq; split_and!; try done; apply Hc).
  assert (forall s3, al_pools s3 = al_pools s1 -> al_count s3 = al_count s1 -> al_taken s3 = al_taken s2 -> al_clean s3 = al_clean s2 ->
    al_private s3 = al_private s1 -> (forall q, q <> page -> al_shared s3 !! q = al_shared s1 !! q) ->
    al_shared s3 !! page = (if is_secure_vmid v then Some v else None) ->
    alloc_ok out regs v gfp (Some page) (s3 <| al_private := <[page := v]> (al_private s3) |>)) as Done.
  { intros s3 E1 E2 E3 E4 E5 E6 E7. set (s4 := s3 <| al_private := _ |>).
    destruct (new_page_inv out regs s1 s4 page) as [_ H4]; try done.
    - intros q Hne. split_and!; [cbn; by rewrite lookup_insert_ne, E5|by apply E6|]. intros Hq. cbn. rewrite E4. by apply Hc.
    - destruct (H4 v) as [? ?]; [|done|].
      { split; [cbn; rewrite E3; cbn; set_solver|]. split; [apply lookup_insert_eq|exact E7]. }
      split; [done|]. split; [done|]. cbn. by rewrite E4. }
  destruct (is_secure_vmid v).
  2: { rewrite run_ret. cbn [Z.eqb]. apply total_modify. apply total_ret. by apply Done. }
  unfold io_pgtable_hyp_assign_page. rewrite run_assoc. apply (total_tick out regs [] 0); [done|]. intros s3 H3 E1 E2 E3 E4 E5 E6.
  rewrite run_assoc. apply total_modify. rewrite run_ret. destruct (ae_assign env _ =? 0); cbn [Z.eqb Z.opp EADDRNOTAVAIL].
  - apply total_modify. apply total_ret. apply Done; try done.
    + intros q Hne. cbn. by rewrite lookup_insert_ne, E4.
    + apply lookup_insert_eq.
  - apply total_ret. apply (new_page_inv out regs s1 _ page); try done.
    intros q Hne. cbn. rewrite lookup_insert_ne, E2, E4 by done. split_and!; try done. rewrite E5. by apply Hc.
Qed.

(** A page for a client is nobody else's, holds zeroes if that was asked for, and
    can be read by the machine of the VMID and no other. *)
Lemma alloc_page_total out regs s v gfp :
  al_inv out regs [] 0 s -> 0 < regs v -> gfp_blocking gfp = true \/ v = 0 ->
  total (qcom_io_pgtable_alloc_page env v gfp (W s)) (alloc_ok out regs v gfp).
Proof.
  intros HI Hr Hg. unfold qcom_io_pgtable_alloc_page.
  assert (negb (gfp_blocking gfp) && is_secure_vmid v = false) as ->.
  { destruct Hg as [->| ->]; [done|]. by rewrite andb_false_r. }
  pose proof (ai_ref _ _ _ _ _ HI v) as Er. destruct (xa_load (al_pools s) v) as [pool|] eqn:E; [|lia].
  unfold alloc_page_from_pool. rewrite run_assoc. eapply total_get_pool; [exact E|]. rewrite run_assoc.
  destruct pool as [ref [|page l]]; cbn [po_pages __alloc_page_from_pool]; unfold put_pool.
  - rewrite run_ret, run_assoc. apply total_modify. rewrite run_ret. cbn [fst snd].
    match goal with |- total (_ (W ?x)) _ => set (s1 := x) end.
    assert (al_inv out regs [] 0 s1) as H1.
    { apply (replace_pool out regs [] 0 s s1 v _ (mk_pool ref []) [] 0 HI E); try done;
        [|constructor|constructor|by intros ? ?%elem_of_nil|by intros ? ?%elem_of_nil].
      cbn. rewrite (ai_count _ _ _ _ _ HI), total_store by apply HI. unfold pages_at. rewrite E. cbn. lia. }
    by apply fresh_page_total.
  - rewrite run_assoc. apply total_modify. rewrite run_ret, run_assoc. apply total_modify. rewrite run_ret. cbn [fst snd].
    match goal with |- total (_ (W ?x)) _ => set (s1 := x) end. apply total_ret.
    destruct (ai_pool _ _ _ _ _ HI page v) as (Hb & Hc & Ho & Hl); [exists (mk_pool ref (page :: l)); split; [done|by left]|].
    pose proof (ai_nodup _ _ _ _ _ HI _ _ E) as Hn. apply NoDup_cons in Hn as [Hn1 Hn2].
    assert (al_inv out regs [page] 0 s1) as H1.
    { apply (replace_pool out regs [] 0 s s1 v _ (mk_pool ref l) [page] 0 HI E); try done.
      - cbn. rewrite (ai_count _ _ _ _ _ HI), total_store by apply HI. unfold pages_at. rewrite E. cbn. lia.
      - apply NoDup_singleton.
      - intros q Hq. destruct (ai_pool _ _ _ _ _ HI q v) as (B & C & O & _); [exists (mk_pool ref (page :: l)); split; [done|by right]|].
        split_and!; try done. intros ->%list_elem_of_singleton. done.
      - intros q ->%list_elem_of_singleton. split; [done|]. split; [by exists v|]. intros w Hw Hin.
        destruct (ai_pool _ _ _ _ _ HI page w Hin) as (B & _). apply Hw. by apply (belongs_inj s page). }
    destruct (move_to_client out regs [] 0 s1 page v H1) as (_ & _ & H2); [by apply (belongs_same s)|done|]. by split_and!.
Qed.

(** A page that a client gives back is cleared and kept in the pool. *)
Lemma free_page_total out regs s page v :
  al_inv out regs [] 0 s -> out !! page = Some v ->
  total (qcom_io_pgtable_free_page page (W s)) (fun _ s' => al_inv (delete page out) regs [] 0 s').
Proof.
  clear page_fresh xa_err_sign. intros HI Ho. destruct (ai_out _ _ _ _ _ HI page v Ho) as (Hb & Hr & _).
  pose proof (move_from_client out regs [] 0 s page v HI Ho) as HL.
  pose proof (ai_ref _ _ _ _ _ HI v) as Er. destruct (xa_load (al_pools s) v) as [pool|] eqn:E; [|lia].
  unfold qcom_io_pgtable_free_page, free_page_to_pool, page_private, put_pool. rewrite run_assoc. apply total_gets.
  destruct Hb as (Ht & Hp & Hs). rewrite Hp, run_or_fault. eapply total_get_pool; [exact E|]. apply total_modify, total_modify.
  split; [done|]. cbn [w_st W]. set (s' := _ <| al_count := _ |>).
  assert (forall w, ~ in_pool s page w) as Hn.
  { intros w Hw. destruct (ai_pool _ _ _ _ _ HI page w Hw) as (_ & _ & H & _). congruence. }
  apply (replace_pool (delete page out) regs [page] 0 s s' v pool (pool <| po_pages := page :: po_pages pool |>) [] 0 HL E); try done.
  - cbn. set_solver.
  - cbn -[Z.of_nat]. rewrite (ai_count _ _ _ _ _ HI), total_store by apply HI. unfold pages_at. rewrite E. cbn -[Z.of_nat]. lia.
  - cbn. constructor; [|by apply (ai_nodup _ _ _ _ _ HI v)]. intros Hin. apply (Hn v). by exists pool.
  - constructor.
  - intros q [->|Hq]%elem_of_cons.
    + split; [done|]. split; [cbn; set_solver|]. split; [apply lookup_delete_eq|apply not_elem_of_nil].
    + destruct (ai_pool _ _ _ _ _ HL q v) as (B & C & O & _); [by exists pool|]. split; [done|]. split; [cbn; set_solver|].
      split; [done|apply not_elem_of_nil].
  - by intros q ?%elem_of_nil.
Qed.

(** ** The shrinker *)

(** A prefix of the pool moves to the list. *)
Definition scanned (l freelist : list Z) (count : Z) (s : pg_alloc) (r : list Z * list Z * Z) (s' : pg_alloc) : Prop :=
  exists popped rest, l = popped ++ rest /\ r = (rest, rev popped ++ freelist, count + Z.of_nat (length popped)) /\
    s' = s <| al_count := al_count s' |> /\ al_count s' = al_count s - Z.of_nat (length popped).

Lemma scanned_none l freelist count s : scanned l freelist count s (l, freelist, count) s.
Proof. exists [], l. cbn. rewrite Z.add_0_r, Z.sub_0_r. split_and!; try done. by destruct s. Qed.

Lemma scan_loop_total : forall l freelist count nr fuel s,
  (length l < fuel)%nat -> total (scan_loop fuel l freelist count nr (W s)) (scanned l freelist count s).
Proof.
  induction l as [|page l IH]; intros freelist count nr fuel s Hf; (destruct fuel as [|fuel]; [cbn in Hf; lia|]);
    cbn [scan_loop __alloc_page_from_pool].
  - destruct (negb _); [apply total_ret, scanned_none|]. rewrite run_ret. apply total_ret, scanned_none.
  - destruct (negb (count <? nr)); [apply total_ret, scanned_none|]. rewrite run_assoc. apply total_modify. rewrite run_ret.
    eapply total_mono; [apply IH; cbn in Hf; lia|]. intros r s' (popped & rest & -> & -> & E & Ec).
    exists (page :: popped), rest. cbn [length app rev]. split; [done|]. split; [|split].
    + by rewrite <- app_assoc, <- Z.add_assoc, Nat2Z.inj_succ, Z.add_1_l.
    + rewrite E at 1. by destruct s.
    + rewrite Ec. cbn. lia.
Qed.

Lemma scan_page_pool_total out regs loose s v pool nr :
  al_inv out regs loose 0 s -> xa_load (al_pools s) v = Some pool ->
  total (scan_page_pool v pool loose nr (W s)) (fun r s' => al_inv out regs (fst r) 0 s' /\
    forall w, w <> v -> xa_load (al_pools s') w = xa_load (al_pools s) w).
Proof.
  intros HI E. unfold scan_page_pool. eapply total_step; [apply scan_loop_total; lia|].
  intros ? s1 (popped & rest & El & -> & Es & Ec). unfold put_pool. apply total_modify. apply total_ret. cbn [fst].
  assert (al_pools s1 = al_pools s) as Ep by (by rewrite Es). split.
  2: { intros w Hw. cbn. rewrite Ep, xa_load_store by apply HI. by rewrite (proj2 (Z.eqb_neq v w)). }
  pose proof (ai_nodup _ _ _ _ _ HI v pool E) as Hn. rewrite El in Hn. apply NoDup_app in Hn as (Hn1 & Hn2 & Hn3).
  assert (forall q, q ∈ po_pages pool -> belongs s q v /\ q ∈ al_clean s /\ out !! q = None /\ (q ∉ loose)) as Hp.
  { intros q Hq. apply (ai_pool _ _ _ _ _ HI). by exists pool. }
  assert (forall q, q ∈ rev popped <-> q ∈ popped) as Hrev by (intros q; rewrite !list_elem_of_In; symmetry; apply in_rev).
  match goal with |- al_inv _ _ _ _ ?x => set (s2 := x) end.
  apply (replace_pool out regs loose 0 s s2 v pool (pool <| po_pages := rest |>) (rev popped ++ loose) 0 HI E); try done;
    try (cbn; by rewrite Es).
  - change (al_count s2) with (al_count s1). rewrite Ec, (ai_count _ _ _ _ _ HI), total_store by apply HI. unfold pages_at. rewrite E. cbn -[Z.of_nat].
    rewrite El, length_app. lia.
  - apply NoDup_app. split; [rewrite <- (Permutation_rev popped); exact Hn1|]. split; [|apply HI]. intros q Hq%Hrev. apply Hp. rewrite El. apply elem_of_app.
    by left.
  - intros q Hq. destruct (Hp q) as (B & C & O & L); [rewrite El; apply elem_of_app; by right|]. split; [done|]. split; [cbn; by rewrite Es|].
    split; [done|]. intros [Hin%Hrev|Hin]%elem_of_app; [by apply (Hn2 q)|done].
  - intros q [Hq%Hrev|Hq]%elem_of_app.
    + destruct (Hp q) as (B & C & O & L); [rewrite El; apply elem_of_app; by left|]. split; [done|]. split; [by exists v|].
      intros w Hw Hin. destruct (ai_pool _ _ _ _ _ HI q w Hin) as (B' & _). apply Hw. by apply (belongs_inj s q).
    + split; [|split; [by apply (ai_loose _ _ _ _ _ HI)|]].
      * destruct (out !! q) as [w|] eqn:Eq; [|done]. by destruct (ai_out _ _ _ _ _ HI q w Eq) as (_ & _ & ?).
      * intros w Hw Hin. by destruct (ai_pool _ _ _ _ _ HI q w Hin) as (_ & _ & _ & ?).
Qed.

Lemma scan_pools_total out regs nr : forall pools loose count s,
  al_inv out regs loose 0 s -> xa_sorted pools -> Forall (fun iv => xa_load (al_pools s) (fst iv) = Some (snd iv)) pools ->
  total (scan_pools pools loose nr count (W s)) (fun r s' => al_inv out regs (fst r) 0 s').
Proof.
  induction pools as [|[v pool] pools IH]; intros loose count s HI Hs Hp; [done|]. cbn [scan_pools].
  apply Forall_cons in Hp as [Hv Hp]. apply StronglySorted_inv in Hs as [Hs Hall]. cbn in Hv.
  eapply total_step; [by apply (scan_page_pool_total out regs)|]. intros r s1 [H1 E1]. destruct (nr <=? _); [by apply total_ret|].
  apply IH; [done|done|]. apply Forall_forall. intros [w p] Hin. rewrite Forall_forall in Hp, Hall. cbn. rewrite E1; [by apply (Hp (w, p))|].
  specialize (Hall _ Hin). cbn in Hall. lia.
Qed.

Lemma return_pages_total out regs : forall l count s,
  al_inv out regs l 0 s -> total (return_pages env l count (W s)) (fun _ s' => al_inv out regs [] 0 s').
Proof.
  induction l as [|page l IH]; intros count s HI; [done|]. cbn [return_pages].
  destruct (ai_loose _ _ _ _ _ HI page) as [v Hb]; [by left|]. unfold page_private. rewrite run_assoc. apply total_gets.
  pose proof Hb as (_ & Hp & _). rewrite Hp, run_or_fault. eapply total_step; [by apply (return_page_total out regs l 0)|].
  intros ok s1 (H1 & _). by apply IH.
Qed.

Lemma scan_objects_total out regs s nr :
  al_inv out regs [] 0 s -> total (io_pgtable_alloc_scan_objects env nr (W s)) (fun _ s' => al_inv out regs [] 0 s').
Proof.
  intros HI. unfold io_pgtable_alloc_scan_objects. apply total_gets. eapply total_step.
  - apply (scan_pools_total out regs); [done|apply HI|]. apply Forall_forall. intros [v p] Hin. cbn. apply xa_elem_load; [apply HI|done].
  - intros r s1 H1. by apply return_pages_total.
Qed.
End Safe.

(** ** All clients and the shrinker *)

Inductive al_op :=
| AlRegister (vmid : Z)
| AlUnregister (vmid : Z)
| AlAlloc (vmid : Z) (gfp : gfp_t)
| AlFree (page : Z)
| AlShrink (nr : Z).

(** The allocator with what its clients know. *)
Record al_world := mk_alw { aw_al : pg_alloc; aw_out : gmap Z Z; aw_regs : Z -> Z }.

(** The clients' side: a VMID is registered while pages of it are in use, and a
    page is given back once. *)
Definition al_op_ok (a : al_world) (o : al_op) : Prop :=
  match o with
  | AlRegister _ | AlShrink _ => True
  | AlUnregister v => 0 < aw_regs a v /\ (aw_regs a v = 1 -> forall page, aw_out a !! page <> Some v)
  | AlAlloc v gfp => 0 < aw_regs a v /\ (gfp_blocking gfp = true \/ v = 0)
  | AlFree page => is_Some (aw_out a !! page)
  end.

Definition al_run (env : al_env) (o : al_op) (a : al_world) : outcome pg_alloc (gmap Z Z * (Z -> Z)) :=
  (match o with
   | AlRegister v => ret <-- qcom_io_pgtable_allocator_register env v ;;;
       mret (aw_out a, if ret =? 0 then set_reg (aw_regs a) v (aw_regs a v + 1) else aw_regs a)
   | AlUnregister v => qcom_io_pgtable_allocator_unregister env v ;;; mret (aw_out a, set_reg (aw_regs a) v (aw_regs a v - 1))
   | AlAlloc v gfp => o <-- qcom_io_pgtable_alloc_page env v gfp ;;;
       mret (match o with Some page => <[page := v]> (aw_out a) | None => aw_out a end, aw_regs a)
   | AlFree page => qcom_io_pgtable_free_page page ;;; mret (delete page (aw_out a), aw_regs a)
   | AlShrink nr => io_pgtable_alloc_scan_objects env nr ;;; mret (aw_out a, aw_regs a)
   end) (W (aw_al a)).

Record al_env_ok (env : al_env) : Prop := {
  ae_fresh : forall taken n p, ae_page env taken n = Some p -> p ∉ taken;
  ae_err : forall n, ae_xa_store env n <= 0;
}.

Inductive al_step (a a' : al_world) : Prop :=
| al_step_op env o : al_env_ok env -> al_op_ok a o -> al_run env o a = Ret (aw_out a', aw_regs a') (W (aw_al a')) -> al_step a a'.

Definition al_boot : al_world := mk_alw (mk_al [] 0 ∅ ∅ ∅ ∅ 0) ∅ (fun _ => 0).

Definition al_reachable (a : al_world) : Prop := rtc al_step al_boot a.

Definition al_good (a : al_world) : Prop := al_inv (aw_out a) (aw_regs a) [] 0 (aw_al a).

Lemma al_boot_good : al_good al_boot.
Proof.
  split; cbn; try done; try (by constructor); try (by intros ? ? ?%lookup_empty_Some).
  - intros page v (p & E & _). done.
  - by intros ? ?%elem_of_nil.
Qed.

Lemma al_run_total env o a :
  al_env_ok env -> al_good a -> al_op_ok a o -> total (al_run env o a) (fun r s' => al_inv (fst r) (snd r) [] 0 s').
Proof.
  intros [Hf He] HI Ho. destruct o as [v|v|v gfp|page|nr]; cbn [al_run al_op_ok] in *; unfold al_run.
  - eapply total_step; [by apply (register_total env He)|]. intros ret s' [[-> H]|[Hr H]]; apply total_ret; [done|].
    by rewrite (proj2 (Z.eqb_neq ret 0)) by lia.
  - destruct Ho as [Hr Hg]. eapply total_step; [by apply (unregister_total env)|]. intros r s1 H1. by apply total_ret.
  - destruct Ho as [Hr Hg]. eapply total_step; [by apply (alloc_page_total env Hf)|]. intros [page|] s' H; apply total_ret; [by destruct H as (_ & ? & _)|done].
  - destruct Ho as [v Ho]. eapply total_step; [by apply (free_page_total (aw_out a) (aw_regs a) (aw_al a) page v)|]. intros r s' H. by apply total_ret.
  - eapply total_step; [by apply scan_objects_total|]. intros r s' H. by apply total_ret.
Qed.

Lemma al_reachable_good a : al_reachable a -> al_good a.
Proof.
  intros H. pose proof al_boot_good as HG. revert HG. induction H as [|a1 a2 a3 [env o He Ho E] _ IH]; [done|].
  intros HG. apply IH. pose proof (al_run_total env o a1 He HG Ho) as T. rewrite E in T. by destruct T.
Qed.

(** C20. In every state that clients and the shrinker reach, the next call returns
    and the pages are accounted for: a page that a client holds is in no pool and
    can be read by the machine of its VMID only, the count for the shrinker is the
    number of pages in the pools, and no page that another machine may still read
    has gone back to the system, whatever the hypervisor answers. *)
Theorem shared_pages_never_returned a :
  al_reachable a ->
  (forall page v, al_shared (aw_al a) !! page = Some v -> page ∈ al_taken (aw_al a)) /\
  (forall page v, aw_out a !! page = Some v ->
     (forall w, ~ in_pool (aw_al a) page w) /\ al_shared (aw_al a) !! page = if is_secure_vmid v then Some v else None) /\
  al_count (aw_al a) = total_pages (al_pools (aw_al a)) /\
  (forall env o, al_env_ok env -> al_op_ok a o -> exists a', al_run env o a = Ret (aw_out a', aw_regs a') (W (aw_al a')) /\ al_reachable a').
Proof.
  intros Ha. pose proof (al_reachable_good a Ha) as HI. split; [apply HI|]. split; [|split].
  - intros page v Ho. destruct (ai_out _ _ _ _ _ HI page v Ho) as ((_ & _ & Hs) & _). split; [|done].
    intros w Hw. destruct (ai_pool _ _ _ _ _ HI page w Hw) as (_ & _ & Hn & _). congruence.
  - rewrite (ai_count _ _ _ _ _ HI). lia.
  - intros env o He Ho. pose proof (al_run_total env o a He HI Ho) as T. apply total_run in T as ([out regs] & s' & E & _).
    exists (mk_alw s' out regs). split; [done|]. eapply rtc_r; [exact Ha|]. by apply (al_step_op _ _ env o).
Qed.

(** ** An example: the machine 5 gives a page back and the hypervisor does not take
    it back when the shrinker asks. *)

Definition demo_al_env : al_env := {|
  ae_page taken n := let p := 4096 * (1 + Z.of_nat n) in if decide (p ∈ taken) then None else Some p;
  ae_kmalloc _ := true;
  ae_xa_store _ := 0;
  ae_assign n := if Nat.eqb n 4 then -22 else 0;
|}.

Lemma demo_al_env_ok : al_env_ok demo_al_env.
Proof. split; cbn; [|lia]. intros taken n p. destruct (decide _); [done|]. by intros [= <-]. Qed.

Definition al_next (o : al_op) (a : al_world) : al_world :=
  match al_run demo_al_env o a with
  | Ret (out, regs) w => mk_alw (w_st w) out regs
  | Fault | Blocked | NoFuel => a
  end.

Definition demo_al_ops : list al_op := [AlRegister 5; AlAlloc 5 (mk_gfp true true); AlFree 12288; AlShrink 10].

Definition demo_al_at (n : nat) : al_world := fold_left (fun a o => al_next o a) (take n demo_al_ops) al_boot.

Lemma demo_al_step n o : demo_al_ops !! n = Some o -> al_good (demo_al_at n) -> al_op_ok (demo_al_at n) o -> al_step (demo_al_at n) (demo_al_at (S n)).
Proof.
  intros E HG Ho. apply (al_step_op _ _ demo_al_env o); [exact demo_al_env_ok|exact Ho|].
  unfold demo_al_at. rewrite (take_S_r _ _ _ E), fold_left_app. fold (demo_al_at n). cbn [fold_left]. unfold al_next.
  pose proof (al_run_total demo_al_env o _ demo_al_env_ok HG Ho) as T. apply total_run in T as ([out regs] & s' & -> & _). done.
Qed.

Lemma demo_al_reachable n : (n <= 4)%nat -> al_reachable (demo_al_at n).
Proof.
  assert (forall n o, demo_al_ops !! n = Some o -> al_op_ok (demo_al_at n) o) as Hok.
  { clear n. intros [|[|[|[|n]]]] o E; cbn in E; simplify_eq; cbn [al_op_ok]; try done.
    - split; [vm_compute; reflexivity|by left]. }
  induction n as [|k IH]; intros Hn; [apply rtc_refl|]. assert (exists o, demo_al_ops !! k = Some o) as [o E] by (apply lookup_lt_is_Some_2; cbn; lia).
  specialize (IH ltac:(lia)). eapply rtc_r; [exact IH|]. apply (demo_al_step k o E); [by apply al_reachable_good|by apply Hok].
Qed.

Lemma shared_pages_never_returned_witness :
  al_shared (aw_al (demo_al_at 4)) !! 12288 = Some 5 /\ 12288 ∈ al_taken (aw_al (demo_al_at 4)).
Proof.
  assert (al_shared (aw_al (demo_al_at 4)) !! 12288 = Some 5) as E by (vm_compute; reflexivity). split; [exact E|].
  destruct (shared_pages_never_returned (demo_al_at 4) (demo_al_reachable 4 ltac:(lia))) as (H & _). exact (H 12288 5 E).
Defined.
