(* ===== verification/IoPgtable.v ===== *)
(** * IoPgtable: page tables of an IO memory management unit
      (src/drivers/iommu/qcom-io-pgtable-arm.c, and from
      src/drivers/iommu/arm/arm-smmu/arm-smmu.c the functions that put off the
      freeing of pages)

    A page table is a tree of pages with entries of 64 bits. The memory of the
    pages is a map from the address of a page to its entries; what the device
    reads is a second such map, which the cache maintenance of the code brings up
    to date, or the first one when the device reads through the caches. Pages
    come from any allocator with the interface [PageAlloc], of which PgAlloc.v is
    an instance. Virtual and physical addresses of a page are not told apart. *)
From stdpp Require Import prelude gmap list.
From S2P Require Import Prelude.
From S2P Require Import Effects.
From S2P Require Import XArray.
From S2P Require Import PgAlloc.
#[local] Open Scope kernel_scope.

(** ** Allocators of pages *)

Class PageAlloc := {
  pa_state : Type;
  (* a page, or none, and whether it holds zeroes; undefined on a [BUG_ON] *)
  pa_alloc : Z -> gfp_t -> pa_state -> option (option Z * bool * pa_state);
  pa_free : Z -> pa_state -> option pa_state;
  pa_register : Z -> pa_state -> option (Z * pa_state);
  pa_unregister : Z -> pa_state -> option pa_state;
}.

(** ** Constants *)

Definition SZ_4K : Z := 2 ^ 12.

Definition SZ_16K : Z := 2 ^ 14.

Definition SZ_64K : Z := 2 ^ 16.

Definition SZ_2M : Z := 2 ^ 21.

Definition SZ_32M : Z := 2 ^ 25.

Definition SZ_512M : Z := 2 ^ 29.

Definition SZ_1G : Z := 2 ^ 30.

Definition ARM_LPAE_MAX_ADDR_BITS : Z := 52.

Definition ARM_LPAE_S2_MAX_CONCAT_PAGES : Z := 16.

Definition ARM_LPAE_MAX_LEVELS : Z := 4.

Definition ARM_LPAE_PTE_CONT : Z := BIT 52.

Definition ARM_LPAE_PTE_TYPE_MASK : Z := 3.

Definition ARM_LPAE_PTE_TYPE_BLOCK : Z := 1.

Definition ARM_LPAE_PTE_TYPE_TABLE : Z := 3.

Definition ARM_LPAE_PTE_TYPE_PAGE : Z := 3.

Definition ARM_LPAE_PTE_ADDR_MASK : Z := GENMASK 47 12.

Definition ARM_LPAE_PTE_NSTABLE : Z := BIT 63.

Definition ARM_LPAE_PTE_XN : Z := Z.shiftl 3 53.

Definition ARM_LPAE_PTE_AF : Z := BIT 10.

Definition ARM_LPAE_PTE_SH_OS : Z := Z.shiftl 2 8.

Definition ARM_LPAE_PTE_SH_IS : Z := Z.shiftl 3 8.

Definition ARM_LPAE_PTE_NS : Z := BIT 5.

Definition ARM_LPAE_PTE_VALID : Z := BIT 0.

Definition ARM_LPAE_PTE_ATTR_LO_MASK : Z := Z.shiftl 1023 2.

Definition ARM_LPAE_PTE_ATTR_HI_MASK : Z := Z.shiftl 6 52.

Definition ARM_LPAE_PTE_ATTR_MASK : Z := Z.lor ARM_LPAE_PTE_ATTR_LO_MASK ARM_LPAE_PTE_ATTR_HI_MASK.

Definition ARM_LPAE_PTE_SW_SYNC : Z := BIT 55.

Definition ARM_LPAE_PTE_AP_UNPRIV : Z := Z.shiftl 1 6.

Definition ARM_LPAE_PTE_AP_RDONLY : Z := Z.shiftl 2 6.

Definition ARM_LPAE_PTE_ATTRINDX_SHIFT : Z := 2.

Definition ARM_LPAE_PTE_nG : Z := BIT 11.

Definition ARM_LPAE_PTE_HAP_FAULT : Z := 0.

Definition ARM_LPAE_PTE_HAP_READ : Z := Z.shiftl 1 6.

Definition ARM_LPAE_PTE_HAP_WRITE : Z := Z.shiftl 2 6.

Definition ARM_LPAE_PTE_MEMATTR_OIWB : Z := Z.shiftl 15 2.

Definition ARM_LPAE_PTE_MEMATTR_NC : Z := Z.shiftl 5 2.

Definition ARM_LPAE_PTE_MEMATTR_DEV : Z := Z.shiftl 1 2.

Definition ARM_LPAE_MAIR_ATTR_SHIFT (n : Z) : Z := Z.shiftl n 3.

Definition ARM_LPAE_MAIR_ATTR_DEVICE : Z := 4.

Definition ARM_LPAE_MAIR_ATTR_NC : Z := 68.

Definition ARM_LPAE_MAIR_ATTR_INC_OWBRANWA : Z := 228.

Definition ARM_LPAE_MAIR_ATTR_IWBRWA_OWBRANWA : Z := 239.

Definition ARM_LPAE_MAIR_ATTR_INC_OWBRWA : Z := 244.

Definition ARM_LPAE_MAIR_ATTR_WBRWA : Z := 255.

Definition ARM_LPAE_MAIR_ATTR_IDX_NC : Z := 0.

Definition ARM_LPAE_MAIR_ATTR_IDX_CACHE : Z := 1.

Definition ARM_LPAE_MAIR_ATTR_IDX_DEV : Z := 2.

Definition ARM_LPAE_MAIR_ATTR_IDX_INC_OCACHE : Z := 3.

Definition ARM_LPAE_MAIR_ATTR_IDX_INC_OCACHE_NWA : Z := 4.

Definition ARM_LPAE_MAIR_ATTR_IDX_ICACHE_OCACHE_NWA : Z := 5.

(** Protections and quirks as the kernel's headers number them. *)
Definition IOMMU_READ : Z := BIT 0.

Definition IOMMU_WRITE : Z := BIT 1.

Definition IOMMU_CACHE : Z := BIT 2.

Definition IOMMU_NOEXEC : Z := BIT 3.

Definition IOMMU_MMIO : Z := BIT 4.

Definition IOMMU_PRIV : Z := BIT 5.

Definition IOMMU_SYS_CACHE : Z := 0.

Definition IOMMU_SYS_CACHE_NWA : Z := 0.

Definition IO_PGTABLE_QUIRK_ARM_NS : Z := BIT 0.

Definition IO_PGTABLE_QUIRK_ARM_TTBR1 : Z := BIT 5.

Definition IO_PGTABLE_QUIRK_ARM_OUTER_WBWA : Z := BIT 6.

Definition IO_PGTABLE_QUIRK_QCOM_USE_LLC_NWA : Z := BIT 31.

Inductive io_pgtable_fmt := ARM_32_LPAE_S1 | ARM_32_LPAE_S2 | ARM_64_LPAE_S2 | ARM_MALI_LPAE | QCOM_ARM_64_LPAE_S1.

#[global] Instance io_pgtable_fmt_eq_dec : EqDecision io_pgtable_fmt.
Proof. solve_decision. Defined.

(** ** Data *)

(** The fields of the configuration registers that are set; [r_sl] is for the
    second stage only. *)
Record tcr_cfg := mk_tcr { r_sh : Z; r_irgn : Z; r_orgn : Z; r_tg : Z; r_ps : Z; r_tsz : Z; r_sl : Z }.

Record io_pgtable_cfg := mk_cfg {
  quirks : Z;
  pgsize_bitmap : Z;
  ias : Z;
  oas : Z;
  coherent_walk : bool;
  tcr : tcr_cfg;
  mair : Z;
  ttbr : Z;
}.

#[export] Instance eta_tcr : Settable tcr_cfg := fun t =>
  mk_tcr (r_sh t) (r_irgn t) (r_orgn t) (r_tg t) (r_ps t) (r_tsz t) (r_sl t).

#[export] Instance eta_cfg : Settable io_pgtable_cfg := fun c =>
  mk_cfg (quirks c) (pgsize_bitmap c) (ias c) (oas c) (coherent_walk c) (tcr c) (mair c) (ttbr c).

Record arm_lpae_io_pgtable := mk_data {
  fmt : io_pgtable_fmt;
  cfg : io_pgtable_cfg;
  pgd_bits : Z;
  start_level : Z;
  bits_per_level : Z;
  pgd : Z;
  vmid : Z;
}.

#[export] Instance eta_data : Settable arm_lpae_io_pgtable := fun d =>
  mk_data (fmt d) (cfg d) (pgd_bits d) (start_level d) (bits_per_level d) (pgd d) (vmid d).

(** A pointer to an entry: its page and its index. *)
Definition pte_ptr : Type := Z * Z.

Record map_state := mk_ms {
  iova_end : Z;
  ms_pgsize : Z;
  pgtable : option Z;
  prev_pgtable : option pte_ptr;
  pte_start : pte_ptr;
  num_pte : Z;
}.

Definition zero_ms : map_state := mk_ms 0 0 None None (0, 0) 0.

#[export] Instance eta_ms : Settable map_state := fun m =>
  mk_ms (iova_end m) (ms_pgsize m) (pgtable m) (prev_pgtable m) (pte_start m) (num_pte m).

(** The configuration of the kernel and the answers of the DMA layer. *)
Record pg_env := mk_penv {
  pe_page_shift : Z;
  pe_contig_hint : bool;               (* CONFIG_IOMMU_IO_PGTABLE_CONTIG_HINT *)
  pe_dma_map : Z -> option Z;          (* dma_map_single; [None] is an error *)
  pe_kmalloc : bool;
}.

(** ** Geometry *)

Definition ARM_LPAE_LVL_SHIFT (l : Z) (d : arm_lpae_io_pgtable) : Z := (ARM_LPAE_MAX_LEVELS - l) * bits_per_level d + 3.

Definition ARM_LPAE_GRANULE (d : arm_lpae_io_pgtable) : Z := Z.shiftl 8 (bits_per_level d).

Definition ARM_LPAE_PGD_SIZE (d : arm_lpae_io_pgtable) : Z := Z.shiftl 8 (pgd_bits d).

Definition ARM_LPAE_PTES_PER_TABLE (d : arm_lpae_io_pgtable) : Z := Z.shiftr (ARM_LPAE_GRANULE d) 3.

Definition ARM_LPAE_PGD_IDX (l : Z) (d : arm_lpae_io_pgtable) : Z := if l =? start_level d then pgd_bits d - bits_per_level d else 0.

Definition ARM_LPAE_LVL_IDX (a l : Z) (d : arm_lpae_io_pgtable) : Z :=
  Z.land (Z.shiftr (u64 a) (ARM_LPAE_LVL_SHIFT l d)) (Z.shiftl 1 (bits_per_level d + ARM_LPAE_PGD_IDX l d) - 1).

Definition ARM_LPAE_BLOCK_SIZE (l : Z) (d : arm_lpae_io_pgtable) : Z := Z.shiftl 1 (ARM_LPAE_LVL_SHIFT l d).

Definition ARM_CONT_PTES (size : Z) : Z := if size =? SZ_4K then 16 else if size =? SZ_16K then 128 else if size =? SZ_64K then 32 else 1.

Definition ARM_CONT_PMDS (size : Z) : Z := if size =? SZ_2M then 16 else if size =? SZ_32M then 32 else if size =? SZ_512M then 32 else 1.

(** The lowest and the highest bit that is set. *)
Definition __ffs (x : Z) : Z := Z.log2 (Z.land x (- x)).

Definition __fls (x : Z) : Z := Z.log2 x.

Definition round_down (x y : Z) : Z := Z.land x (Z.lnot (y - 1)).

Definition round_up (x y : Z) : Z := Z.lor (x - 1) (y - 1) + 1.

Definition s64 (z : Z) : Z := let w := z mod 2 ^ 64 in if w <? 2 ^ 63 then w else w - 2 ^ 64.

(** ** Entries *)

Definition BOTTOM_IGNORED_MASK : Z := GENMASK 11 2.

Definition TOP_IGNORED_MASK : Z := GENMASK 54 52.

Definition IOPTE_RESERVED_MASK : Z := Z.lor TOP_IGNORED_MASK BOTTOM_IGNORED_MASK.

Definition iopte_type (pte : Z) : Z := Z.land pte ARM_LPAE_PTE_TYPE_MASK.

Definition iopte_prot (pte : Z) : Z := Z.land pte ARM_LPAE_PTE_ATTR_MASK.

Definition iopte_val (table_pte : Z) : Z := Z.land table_pte (Z.lnot IOPTE_RESERVED_MASK).

Definition iopte_tblcnt (table_pte : Z) : Z :=
  let top_cnt := Z.shiftr (Z.land table_pte TOP_IGNORED_MASK) 52 in
  let bottom_cnt := Z.shiftr (Z.land table_pte BOTTOM_IGNORED_MASK) 2 in
  Z.lor (Z.land (Z.shiftl top_cnt 10) (GENMASK 12 10)) (Z.land bottom_cnt (GENMASK 9 0)).

Definition iopte_tblcnt_set (table_pte val : Z) : Z :=
  let pte := iopte_val table_pte in
  let top_val := Z.shiftr (Z.land val (GENMASK 12 10)) 10 in
  let bottom_val := Z.land val (GENMASK 9 0) in
  Z.lor pte (Z.lor (Z.land (Z.shiftl top_val 52) TOP_IGNORED_MASK) (Z.land (Z.shiftl bottom_val 2) BOTTOM_IGNORED_MASK)).

Definition iopte_leaf (pte lvl : Z) (f : io_pgtable_fmt) : bool :=
  if (lvl =? ARM_LPAE_MAX_LEVELS - 1) && negb (bool_decide (f = ARM_MALI_LPAE)) then iopte_type pte =? ARM_LPAE_PTE_TYPE_PAGE
  else iopte_type pte =? ARM_LPAE_PTE_TYPE_BLOCK.

Definition paddr_to_iopte (paddr : Z) (d : arm_lpae_io_pgtable) : Z :=
  Z.land (Z.lor paddr (Z.shiftr paddr (48 - 12))) ARM_LPAE_PTE_ADDR_MASK.

Definition iopte_to_paddr (pte : Z) (d : arm_lpae_io_pgtable) : Z :=
  let paddr := Z.land (iopte_val pte) ARM_LPAE_PTE_ADDR_MASK in
  if ARM_LPAE_GRANULE d <? SZ_64K then paddr
  else Z.land (Z.lor paddr (u64 (Z.shiftl paddr (48 - 12)))) (Z.shiftl ARM_LPAE_PTE_ADDR_MASK 4).

Definition iopte_deref (pte : Z) (d : arm_lpae_io_pgtable) : Z := iopte_to_paddr pte d.

(** ** State *)

Definition GFP_KERNEL : gfp_t := mk_gfp true false.

Definition GFP_ATOMIC : gfp_t := mk_gfp false false.

Section State.
Context {PA : PageAlloc}.

(** The pages in use and what the device reads of them, the allocator, the lock of
    the table, and of the domain of the unit the pages that wait for a flush, the
    two flags, and the tables that the device may have remembered. *)
Record pgt := mk_pgt {
  q_mem : gmap Z (Z -> Z);
  q_dev : gmap Z (Z -> Z);
  q_al : pa_state;
  q_lock : bool;
  freelist : list Z;
  deferred_flush : bool;
  skip_tlb_management : bool;
  q_cached : gset Z;
}.

#[export] Instance eta_pgt : Settable pgt := fun q =>
  mk_pgt (q_mem q) (q_dev q) (q_al q) (q_lock q) (freelist q) (deferred_flush q) (skip_tlb_management q) (q_cached q).

Context (env : pg_env).

Abbreviation M := (M pgt).

(** ** The memory of the tables *)

Definition n_entries : Z := 2 ^ (pe_page_shift env - 3).

(** Reading and writing past the end of a page is undefined. *)
Definition read_pte (ptep : pte_ptr) : M Z :=
  o <-- gets (fun q => q_mem q !! fst ptep) ;;;
  t <-- or_fault o ;;;
  if (0 <=? snd ptep) && (snd ptep <? n_entries) then mret (t (snd ptep)) else fault.

Definition set_entry (t : Z -> Z) (i v : Z) : Z -> Z := fun j => if j =? i then v else t j.

Definition write_pte (ptep : pte_ptr) (v : Z) : M unit :=
  o <-- gets (fun q => q_mem q !! fst ptep) ;;;
  t <-- or_fault o ;;;
  if (0 <=? snd ptep) && (snd ptep <? n_entries) then
    modify (fun q => q <| q_mem := <[fst ptep := set_entry t (snd ptep) v]> (q_mem q) |>)
  else fault.

Definition ptr_add (ptep : pte_ptr) (n : Z) : pte_ptr := (fst ptep, snd ptep + n).

(** [dma_sync_single_for_device] of some entries. *)
Definition copy_entries (i n : Z) (from to : Z -> Z) : Z -> Z := fun j => if (i <=? j) && (j <? i + n) then from j else to j.

Definition __arm_lpae_sync_pte (ptep : pte_ptr) (num_entries : Z) : M unit :=
  o <-- gets (fun q => q_mem q !! fst ptep) ;;;
  t <-- or_fault o ;;;
  modify (fun q => q <| q_dev := alter (copy_entries (snd ptep) num_entries t) (fst ptep) (q_dev q) |>).

Definition lock_table : M unit := wait_until (fun q => negb (q_lock q)) ;;; modify (fun q => q <| q_lock := true |>).

Definition unlock_table : M unit := modify (fun q => q <| q_lock := false |>).

(** ** Pages *)

Definition qcom_io_pgtable_free (page : Z) : M unit :=
  al <-- gets q_al ;;;
  al <-- or_fault (pa_free page al) ;;;
  modify (fun q => q <| q_al := al |> <| q_mem := delete page (q_mem q) |> <| q_dev := delete page (q_dev q) |>).

Definition __arm_lpae_alloc_pages (data : arm_lpae_io_pgtable) (size : Z) (gfp : gfp_t) : M (option Z) :=
  al <-- gets q_al ;;;
  r <-- or_fault (pa_alloc (vmid data) (mk_gfp (gfp_blocking gfp) true) al) ;;;
  let '(o, zeroed, al) := r in
  modify (fun q => q <| q_al := al |>) ;;;
  match o with
  | None => mret None
  | Some page =>
      let t := fun _ => if zeroed : bool then 0 else 2 ^ 64 - 1 in
      modify (fun q => q <| q_mem := <[page := t]> (q_mem q) |> <| q_dev := <[page := t]> (q_dev q) |>) ;;;
      if coherent_walk (cfg data) then mret (Some page)
      else
        match pe_dma_map env page with
        | None => qcom_io_pgtable_free page ;;; mret None
        | Some dma => if dma =? page then mret (Some page) else qcom_io_pgtable_free page ;;; mret None
        end
  end.

(** ** The flushing of the unit *)

Definition arm_smmu_tlb_add_walk_page (page : Z) : M unit :=
  modify (fun q => q <| deferred_flush := true |> <| freelist := page :: freelist q |>).

Definition arm_smmu_qcom_tlb_add_inv : M unit :=
  modify (fun q => q <| deferred_flush := negb (skip_tlb_management q) |>).

(** [tlb_flush_all] of the unit makes the device forget all tables. *)
Definition io_pgtable_tlb_flush_all : M unit := modify (fun q => q <| q_cached := ∅ |>).

Definition __arm_smmu_flush_iotlb_all (force : bool) : M unit :=
  q <-- gets (fun q => q) ;;;
  if skip_tlb_management q || (negb force && negb (deferred_flush q)) then mret tt
  else
    io_pgtable_tlb_flush_all ;;;
    modify (fun q => q <| deferred_flush := false |>) ;;;
    for_each (freelist q) (fun page => modify (fun q => q <| freelist := tail (freelist q) |>) ;;; qcom_io_pgtable_free page) ;;;
    modify (fun q => q <| freelist := [] |>).

Definition arm_smmu_qcom_tlb_sync : M unit :=
  skip <-- gets skip_tlb_management ;;;
  if skip : bool then modify (fun q => q <| deferred_flush := false |>)
  else __arm_smmu_flush_iotlb_all false.

Definition arm_smmu_flush_iotlb_all : M unit :=
  skip <-- gets skip_tlb_management ;;;
  if skip : bool then modify (fun q => q <| deferred_flush := false |>)
  else __arm_smmu_flush_iotlb_all true.

Definition arm_smmu_iotlb_sync : M unit := arm_smmu_flush_iotlb_all.

Definition __arm_lpae_free_pages (page : Z) (deferred_free : bool) : M unit :=
  if deferred_free then arm_smmu_tlb_add_walk_page page else qcom_io_pgtable_free page.

(** ** Contiguous entries *)

Definition arm_find_num_cont (data : arm_lpae_io_pgtable) (lvl : Z) : Z :=
  if negb (pe_contig_hint env) then 1
  else if lvl =? ARM_LPAE_MAX_LEVELS - 2 then ARM_CONT_PMDS (ARM_LPAE_BLOCK_SIZE lvl data)
  else if lvl =? ARM_LPAE_MAX_LEVELS - 1 then ARM_CONT_PTES (ARM_LPAE_BLOCK_SIZE lvl data)
  else 1.

Definition arm_check_and_set_num_cont (data : arm_lpae_io_pgtable) (size lvl : Z) : Z :=
  if negb (pe_contig_hint env) then 1
  else if size =? arm_find_num_cont data lvl * ARM_LPAE_BLOCK_SIZE lvl data then arm_find_num_cont data lvl
  else 1.

Definition arm_pte_is_contiguous_range (data : arm_lpae_io_pgtable) (size lvl : Z) : bool :=
  pe_contig_hint env && (size =? arm_find_num_cont data lvl * ARM_LPAE_BLOCK_SIZE lvl data).

Definition arm_get_cont_sizes (c : io_pgtable_cfg) : Z :=
  if negb (pe_contig_hint env) then 0
  else
    let pg_shift := __ffs (pgsize_bitmap c) in
    let pg_size := Z.shiftl 1 pg_shift in
    let pmd_size := Z.shiftl pg_size (pg_shift - 3) in
    Z.lor (ARM_CONT_PTES pg_size * pg_size) (ARM_CONT_PMDS pmd_size * pmd_size).

(** ** Writing entries *)

(** The first [n] numbers, in order. *)
Definition upto (n : Z) : list Z := seqZ 0 n.

Definition __arm_lpae_set_pte (data : arm_lpae_io_pgtable) (ptep : pte_ptr) (pte num_entries : Z) : M unit :=
  for_each (upto num_entries) (fun i => write_pte (ptr_add ptep i) pte) ;;;
  if negb (coherent_walk (cfg data)) then __arm_lpae_sync_pte ptep num_entries else mret tt.

(** The entry for a block of memory. *)
Definition leaf_pte (data : arm_lpae_io_pgtable) (paddr prot lvl : Z) : Z :=
  Z.lor (Z.lor prot (if negb (bool_decide (fmt data = ARM_MALI_LPAE)) && (lvl =? ARM_LPAE_MAX_LEVELS - 1) then ARM_LPAE_PTE_TYPE_PAGE
                     else ARM_LPAE_PTE_TYPE_BLOCK))
    (paddr_to_iopte paddr data).

Definition __arm_lpae_init_pte (data : arm_lpae_io_pgtable) (paddr prot lvl num_entries : Z) (ptep : pte_ptr) (flush : bool) : M unit :=
  let sz := ARM_LPAE_BLOCK_SIZE lvl data in
  for_each (upto num_entries) (fun i => write_pte (ptr_add ptep i) (leaf_pte data (u64 (paddr + i * sz)) prot lvl)) ;;;
  if flush && negb (coherent_walk (cfg data)) then __arm_lpae_sync_pte ptep num_entries else mret tt.

(** Whether one of the entries is in use. *)
Fixpoint any_valid (ptep : pte_ptr) (l : list Z) : M bool :=
  match l with
  | [] => mret false
  | i :: l' =>
      pte <-- read_pte (ptr_add ptep i) ;;;
      if truth (Z.land pte ARM_LPAE_PTE_VALID) then mret true else any_valid ptep l'
  end.

Definition iopte_tblcnt_add (table_ptep : pte_ptr) (cnt : Z) : M unit :=
  pte <-- read_pte table_ptep ;;;
  write_pte table_ptep (iopte_tblcnt_set pte (iopte_tblcnt pte + cnt)).

Definition iopte_tblcnt_sub (table_ptep : pte_ptr) (cnt : Z) : M unit :=
  pte <-- read_pte table_ptep ;;;
  write_pte table_ptep (iopte_tblcnt_set pte (iopte_tblcnt pte - cnt)).

Definition arm_lpae_init_pte (data : arm_lpae_io_pgtable) (paddr prot lvl num_entries : Z) (ptep : pte_ptr) (prev_ptep : option pte_ptr)
  (flush : bool) : M Z :=
  bad <-- any_valid ptep (upto num_entries) ;;;
  if bad : bool then mret (- EEXIST)
  else
    __arm_lpae_init_pte data paddr prot lvl num_entries ptep flush ;;;
    match prev_ptep with Some prev => iopte_tblcnt_add prev num_entries | None => mret tt end ;;;
    mret 0.

(** The lock is dropped for the flush, and others run. *)
Definition sync_unlocked : M unit := unlock_table ;;; yield ;;; arm_smmu_qcom_tlb_sync ;;; yield ;;; lock_table.

(** The entry for a table. *)
Definition table_pte (data : arm_lpae_io_pgtable) (table refcount : Z) : Z :=
  let new := Z.lor table ARM_LPAE_PTE_TYPE_TABLE in
  let new := if truth (Z.land (quirks (cfg data)) IO_PGTABLE_QUIRK_ARM_NS) then Z.lor new ARM_LPAE_PTE_NSTABLE else new in
  iopte_tblcnt_set new refcount.

Definition arm_lpae_install_table (data : arm_lpae_io_pgtable) (table : Z) (ptep : pte_ptr) (curr refcount : Z) : M Z :=
  sync_unlocked ;;;
  let new := table_pte data table refcount in
  old <-- read_pte ptep ;;;
  (if old =? curr then write_pte ptep new else mret tt) ;;;
  if coherent_walk (cfg data) || truth (Z.land old ARM_LPAE_PTE_SW_SYNC) then mret old
  else
    __arm_lpae_sync_pte ptep 1 ;;;
    (if old =? curr then write_pte ptep (Z.lor new ARM_LPAE_PTE_SW_SYNC) else mret tt) ;;;
    mret old.

(** ** Mapping *)

Definition MAP_STATE_LVL : Z := 3.

(** The lock is dropped for the allocation, and others run. *)
Definition alloc_unlocked (data : arm_lpae_io_pgtable) (gfp : gfp_t) : M (option Z) :=
  unlock_table ;;; yield ;;; o <-- __arm_lpae_alloc_pages data (ARM_LPAE_GRANULE data) gfp ;;; yield ;;; lock_table ;;; mret o.

(** The table of the next level below an entry; a new one if there is none. *)
Definition next_table (data : arm_lpae_io_pgtable) (lvl : Z) (ptep : pte_ptr) (gfp : gfp_t) : M (result Z) :=
  pte <-- read_pte ptep ;;;
  if pte =? 0 then
    o <-- alloc_unlocked data gfp ;;;
    match o with
    | None => mret (Err (- ENOMEM))
    | Some cptep =>
        pte <-- arm_lpae_install_table data cptep ptep 0 0 ;;;
        if pte =? 0 then mret (Ok cptep)
        else
          __arm_lpae_free_pages cptep false ;;;
          mret (if iopte_leaf pte lvl (fmt data) then Err (- EEXIST) else Ok (iopte_deref pte data))
    end
  else
    (if negb (coherent_walk (cfg data)) && negb (truth (Z.land pte ARM_LPAE_PTE_SW_SYNC)) then __arm_lpae_sync_pte ptep 1 else mret tt) ;;;
    mret (if iopte_leaf pte lvl (fmt data) then Err (- EEXIST) else Ok (iopte_deref pte data)).

(** The entries of the last table that the device has not seen yet. *)
Definition sync_map_state (data : arm_lpae_io_pgtable) (ms : map_state) : M unit :=
  match pgtable ms with
  | Some _ => if coherent_walk (cfg data) then mret tt else __arm_lpae_sync_pte (pte_start ms) (num_pte ms)
  | None => mret tt
  end.

(** The leaf entries at their level; what was mapped, and the new map state. *)
Definition map_leaf (data : arm_lpae_io_pgtable) (iova paddr size pgcount prot lvl : Z) (table : Z) (prev_ptep : option pte_ptr)
  (ms : option map_state) : M (Z * Z * option map_state) :=
  let idx := ARM_LPAE_LVL_IDX iova lvl data in
  match ms with
  | None =>
      let num_entries := Z.min (s32 pgcount) (ARM_LPAE_PTES_PER_TABLE data - idx) in
      ret <-- arm_lpae_init_pte data paddr prot lvl num_entries (table, idx) prev_ptep true ;;;
      mret (ret, if ret =? 0 then u64 (size * num_entries) else 0, None)
  | Some m =>
      sync_map_state data m ;;;
      let prev_block_size := ARM_LPAE_BLOCK_SIZE (lvl - 1) data in
      let m' := if lvl =? MAP_STATE_LVL then
                  mk_ms (u64 (round_down iova prev_block_size + prev_block_size)) (u32 size) (Some table) prev_ptep (table, idx) (u32 pgcount)
                else zero_ms in
      ret <-- arm_lpae_init_pte data paddr prot lvl (s32 pgcount) (table, idx) prev_ptep (negb (lvl =? MAP_STATE_LVL)) ;;;
      mret (ret, if ret =? 0 then size else 0, Some m')
  end.

(** [n] is 4 less the level. *)
Fixpoint __arm_lpae_map (n : nat) (data : arm_lpae_io_pgtable) (iova paddr size pgcount prot lvl : Z) (table : Z)
  (prev_ptep : option pte_ptr) (ms : option map_state) (gfp : gfp_t) : M (Z * Z * option map_state) :=
  if size =? ARM_LPAE_BLOCK_SIZE lvl data then map_leaf data iova paddr size pgcount prot lvl table prev_ptep ms
  else if ARM_LPAE_MAX_LEVELS - 1 <=? lvl then mret (- EINVAL, 0, ms)
  else
    let ptep := (table, ARM_LPAE_LVL_IDX iova lvl data) in
    r <-- next_table data lvl ptep gfp ;;;
    match r, n with
    | Err e, _ => mret (e, 0, ms)
    | Ok _, O => fun _ => NoFuel
    | Ok cptep, S n' =>
        if arm_pte_is_contiguous_range data size (lvl + 1) then
          __arm_lpae_map n' data iova paddr (ARM_LPAE_BLOCK_SIZE (lvl + 1) data) (arm_find_num_cont data (lvl + 1) * pgcount)
            (Z.lor prot ARM_LPAE_PTE_CONT) (lvl + 1) cptep (Some ptep) ms gfp
        else __arm_lpae_map n' data iova paddr size pgcount prot (lvl + 1) cptep (Some ptep) ms gfp
    end.

Definition LEVELS : nat := 4.

Definition arm_lpae_prot_to_pte (data : arm_lpae_io_pgtable) (prot : Z) : Z :=
  let has b := truth (Z.land prot b) in
  let fmt_is f := bool_decide (fmt data = f) in
  let pte :=
    if fmt_is QCOM_ARM_64_LPAE_S1 || fmt_is ARM_32_LPAE_S1 then
      let pte := ARM_LPAE_PTE_nG in
      let pte := if negb (has IOMMU_WRITE) && has IOMMU_READ then Z.lor pte ARM_LPAE_PTE_AP_RDONLY else pte in
      if negb (has IOMMU_PRIV) then Z.lor pte ARM_LPAE_PTE_AP_UNPRIV else pte
    else
      let pte := ARM_LPAE_PTE_HAP_FAULT in
      let pte := if has IOMMU_READ then Z.lor pte ARM_LPAE_PTE_HAP_READ else pte in
      if has IOMMU_WRITE then Z.lor pte ARM_LPAE_PTE_HAP_WRITE else pte in
  let attr i := Z.shiftl i ARM_LPAE_PTE_ATTRINDX_SHIFT in
  let pte :=
    if fmt_is ARM_64_LPAE_S2 || fmt_is ARM_32_LPAE_S2 then
      Z.lor pte (if has IOMMU_MMIO then ARM_LPAE_PTE_MEMATTR_DEV else if has IOMMU_CACHE then ARM_LPAE_PTE_MEMATTR_OIWB
                 else ARM_LPAE_PTE_MEMATTR_NC)
    else
      Z.lor pte (if has IOMMU_MMIO then attr ARM_LPAE_MAIR_ATTR_IDX_DEV
                 else if has IOMMU_CACHE && has IOMMU_SYS_CACHE_NWA then attr ARM_LPAE_MAIR_ATTR_IDX_ICACHE_OCACHE_NWA
                 else if has IOMMU_CACHE then attr ARM_LPAE_MAIR_ATTR_IDX_CACHE
                 else if has IOMMU_SYS_CACHE then attr ARM_LPAE_MAIR_ATTR_IDX_INC_OCACHE
                 else if has IOMMU_SYS_CACHE_NWA then attr ARM_LPAE_MAIR_ATTR_IDX_INC_OCACHE_NWA
                 else 0) in
  let pte := Z.lor pte (if has IOMMU_CACHE then ARM_LPAE_PTE_SH_IS else ARM_LPAE_PTE_SH_OS) in
  let pte := if has IOMMU_NOEXEC then Z.lor pte ARM_LPAE_PTE_XN else pte in
  let pte := if truth (Z.land (quirks (cfg data)) IO_PGTABLE_QUIRK_ARM_NS) then Z.lor pte ARM_LPAE_PTE_NS else pte in
  if negb (fmt_is ARM_MALI_LPAE) then Z.lor pte ARM_LPAE_PTE_AF else pte.

(** The bits of an address above the range of the table, inverted for the upper
    half of the addresses. *)
Definition iova_ext (data : arm_lpae_io_pgtable) (iova : Z) : Z :=
  let iaext := Z.shiftr (s64 iova) (ias (cfg data)) in
  if truth (Z.land (quirks (cfg data)) IO_PGTABLE_QUIRK_ARM_TTBR1) then Z.lnot iaext else iaext.

Definition bad_pgsize (data : arm_lpae_io_pgtable) (pgsize pgcount : Z) : bool :=
  (pgsize =? 0) || negb (Z.land pgsize (pgsize_bitmap (cfg data)) =? pgsize) || (pgcount =? 0).

Definition no_access (iommu_prot : Z) : bool := negb (truth (Z.land iommu_prot (Z.lor IOMMU_READ IOMMU_WRITE))).

Definition qcom_arm_lpae_map_pages (data : arm_lpae_io_pgtable) (iova paddr pgsize pgcount iommu_prot : Z) (gfp : gfp_t) (mapped : Z) : M (Z * Z) :=
  if bad_pgsize data pgsize pgcount then mret (- EINVAL, mapped)
  else if truth (iova_ext data iova) || truth (Z.shiftr paddr (oas (cfg data))) then mret (- ERANGE, mapped)
  else if no_access iommu_prot then mret (0, mapped)
  else
    let prot := arm_lpae_prot_to_pte data iommu_prot in
    lock_table ;;;
    r <-- __arm_lpae_map LEVELS data iova paddr pgsize pgcount prot (start_level data) (pgd data) None None gfp ;;;
    unlock_table ;;;
    mret (fst (fst r), u64 (mapped + snd (fst r))).

Definition arm_lpae_pgsize (pgsize_bitmap addr_merge size : Z) : option Z :=
  let pgsize_idx := __fls size in
  let pgsize_idx := if truth addr_merge then Z.min pgsize_idx (__ffs addr_merge) else pgsize_idx in
  let pgsize := Z.land (u64 (Z.shiftl 1 (pgsize_idx + 1)) - 1) pgsize_bitmap in
  if pgsize =? 0 then None else Some (Z.shiftl 1 (__fls pgsize)).

Definition min_pagesz (c : io_pgtable_cfg) : Z := Z.shiftl 1 (__ffs (pgsize_bitmap c)).

Fixpoint map_pgsize_loop (fuel : nat) (data : arm_lpae_io_pgtable) (iova paddr size prot : Z) (gfp : gfp_t) (mapped : Z) (ms : map_state) :
    M (Z * Z * map_state) :=
  if size =? 0 then mret (0, mapped, ms)
  else
    match fuel with
    | O => fun _ => NoFuel
    | S fuel' =>
        pgsize <-- or_fault (arm_lpae_pgsize (pgsize_bitmap (cfg data)) (Z.lor iova paddr) size) ;;;
        r <-- (match pgtable ms with
               | Some table =>
                   if iova <? iova_end ms then
                     let num_entries := arm_check_and_set_num_cont data pgsize MAP_STATE_LVL in
                     let ms_ptep := (table, ARM_LPAE_LVL_IDX iova MAP_STATE_LVL data) in
                     ret <-- arm_lpae_init_pte data paddr prot MAP_STATE_LVL num_entries ms_ptep (prev_pgtable ms) false ;;;
                     mret (ret, if ret =? 0 then ms <| num_pte := u32 (num_pte ms + num_entries) |> else ms)
                   else
                     r <-- __arm_lpae_map LEVELS data iova paddr pgsize 1 prot (start_level data) (pgd data) None (Some ms) gfp ;;;
                     mret (fst (fst r), default ms (snd r))
               | None =>
                   r <-- __arm_lpae_map LEVELS data iova paddr pgsize 1 prot (start_level data) (pgd data) None (Some ms) gfp ;;;
                   mret (fst (fst r), default ms (snd r))
               end) ;;;
        let '(ret, ms) := r in
        if ret =? 0 then
          map_pgsize_loop fuel' data (u64 (iova + pgsize)) (u64 (paddr + pgsize)) (size - pgsize) prot gfp (u64 (mapped + pgsize)) ms
        else mret (ret, mapped, ms)
    end.

Definition arm_lpae_map_by_pgsize (data : arm_lpae_io_pgtable) (iova paddr size iommu_prot : Z) (gfp : gfp_t) (mapped : Z) (ms : map_state) :
    M (Z * Z * map_state) :=
  let c := cfg data in
  if negb (Z.land (Z.lor (Z.lor iova paddr) size) (min_pagesz c - 1) =? 0) then mret (- EINVAL, mapped, ms)
  else if truth (iova_ext data (u64 (iova + size - 1))) || truth (Z.shiftr (u64 (paddr + size - 1)) (oas c)) then mret (- ERANGE, mapped, ms)
  else if no_access iommu_prot then mret (0, u64 (mapped + size), ms)
  else
    map_pgsize_loop (Z.to_nat (size / min_pagesz c)) data iova paddr size (arm_lpae_prot_to_pte data iommu_prot) gfp mapped ms.

(** An entry of a scatterlist: [sg_phys] and [length]. The loop visits the last
    entry twice. *)
Definition sg_entry : Type := Z * Z.

Fixpoint sg_loop (l : list sg_entry) (data : arm_lpae_io_pgtable) (iova len start prot : Z) (gfp : gfp_t) (mapped : Z) (ms : map_state) :
    M (Z * Z * map_state) :=
  match l with
  | [] => mret (0, mapped, ms)
  | (s_phys, length) :: l' =>
      r <-- (if truth len && negb (s_phys =? u64 (start + len)) then
               r <-- arm_lpae_map_by_pgsize data (u64 (iova + mapped)) start len prot gfp mapped ms ;;;
               mret (r, 0)
             else mret (0, mapped, ms, len)) ;;;
      let '(ret, mapped, ms, len) := r in
      if ret =? 0 then
        if truth len then sg_loop l' data iova (u64 (len + length)) start prot gfp mapped ms
        else sg_loop l' data iova length s_phys prot gfp mapped ms
      else mret (ret, mapped, ms)
  end.

Definition sg_visits (sg : list sg_entry) : list sg_entry := sg ++ option_list (last sg).

Definition qcom_arm_lpae_map_sg (data : arm_lpae_io_pgtable) (iova : Z) (sg : list sg_entry) (prot : Z) (gfp : gfp_t) : M (Z * Z) :=
  lock_table ;;;
  r <-- sg_loop (sg_visits sg) data iova 0 0 prot gfp 0 zero_ms ;;;
  unlock_table ;;;
  let '(ret, mapped, ms) := r in
  if ret =? 0 then sync_map_state data ms ;;; mret (0, mapped)
  else mret (ret, mapped).

(** ** Freeing and unmapping *)

Fixpoint __arm_lpae_free_pgtable (n : nat) (data : arm_lpae_io_pgtable) (lvl : Z) (table : Z) (deferred_free : bool) : M unit :=
  let table_size := if lvl =? start_level data then ARM_LPAE_PGD_SIZE data else ARM_LPAE_GRANULE data in
  (if lvl =? ARM_LPAE_MAX_LEVELS - 1 then mret tt
   else
     for_each (upto (table_size / 8)) (fun i =>
       pte <-- read_pte (table, i) ;;;
       if (pte =? 0) || iopte_leaf pte lvl (fmt data) then mret tt
       else
         match n with
         | O => fun _ => NoFuel
         | S n' => __arm_lpae_free_pgtable n' data (lvl + 1) (iopte_deref pte data) deferred_free
         end)) ;;;
  __arm_lpae_free_pages table deferred_free.

Definition qcom_io_pgtable_allocator_unregister_m (vmid : Z) : M unit :=
  al <-- gets q_al ;;;
  al <-- or_fault (pa_unregister vmid al) ;;;
  modify (fun q => q <| q_al := al |>).

Definition arm_lpae_free_pgtable (data : arm_lpae_io_pgtable) : M unit :=
  __arm_lpae_free_pgtable LEVELS data (start_level data) (pgd data) false ;;;
  qcom_io_pgtable_allocator_unregister_m (vmid data).

Definition arm_lpae_cont_unmap (data : arm_lpae_io_pgtable) (iova lvl : Z) (ptep : pte_ptr) (num_entries : Z) : M unit :=
  if negb (pe_contig_hint env) then mret tt
  else
    let num_cont := arm_find_num_cont data lvl in
    let cont_iova := round_down iova (ARM_LPAE_BLOCK_SIZE lvl data * num_cont) in
    let cont_ptep := ptr_add (ptr_add ptep (- ARM_LPAE_LVL_IDX iova lvl data)) (ARM_LPAE_LVL_IDX cont_iova lvl data) in
    let num_entries := round_up num_entries num_cont in
    for_each (upto num_entries) (fun itr =>
      pte <-- read_pte (ptr_add cont_ptep itr) ;;;
      write_pte (ptr_add cont_ptep itr) (Z.land pte (Z.lnot ARM_LPAE_PTE_CONT))) ;;;
    if negb (coherent_walk (cfg data)) then __arm_lpae_sync_pte ptep num_entries else mret tt.

(** The part of a block that stays mapped, in a new table; [unmap_next] is
    [__arm_lpae_unmap] at this level, with the table. *)
Definition arm_lpae_split_blk_unmap (unmap_next : Z -> Z -> Z -> Z -> M Z) (data : arm_lpae_io_pgtable) (iova size blk_pte lvl : Z)
  (ptep : pte_ptr) (pgcount : Z) : M Z :=
  if lvl =? ARM_LPAE_MAX_LEVELS then mret 0
  else
    o <-- __arm_lpae_alloc_pages data (ARM_LPAE_GRANULE data) GFP_ATOMIC ;;;
    match o with
    | None => mret 0
    | Some tablep =>
        let split_sz := ARM_LPAE_BLOCK_SIZE lvl data in
        let ptes_per_table := ARM_LPAE_PTES_PER_TABLE data in
        let unmap_idx_start := if size =? split_sz then ARM_LPAE_LVL_IDX iova lvl data else -1 in
        let num_entries := if size =? split_sz then Z.min (s32 pgcount) (ptes_per_table - unmap_idx_start) else 0 in
        let blk_paddr := iopte_to_paddr blk_pte data in
        let pte := iopte_prot blk_pte in
        let unmapped i := (unmap_idx_start <=? i) && (i <? unmap_idx_start + num_entries) in
        for_each (upto ptes_per_table) (fun i =>
          if unmapped i then mret tt
          else __arm_lpae_init_pte data (u64 (blk_paddr + i * split_sz)) pte lvl 1 (tablep, i) true) ;;;
        let child_cnt := Z.of_nat (length (filter (fun i => unmapped i = false) (upto ptes_per_table))) in
        pte <-- arm_lpae_install_table data tablep ptep blk_pte child_cnt ;;;
        if negb (pte =? blk_pte) then
          __arm_lpae_free_pages tablep false ;;;
          if negb (iopte_type pte =? ARM_LPAE_PTE_TYPE_TABLE) then mret 0
          else unmap_next size pgcount lvl (iopte_deref pte data)
        else if 0 <=? unmap_idx_start then mret (num_entries * size)
        else unmap_next size pgcount lvl tablep
    end.

(** Clear entries until one is empty; how many. *)
Fixpoint clear_entries (k : nat) (data : arm_lpae_io_pgtable) (iova pgcount lvl : Z) (ptep : pte_ptr) (i : Z) : M Z :=
  match k with
  | O => mret i
  | S k' =>
      pte <-- read_pte ptep ;;;
      if pte =? 0 then mret i
      else
        (if truth (Z.land pte ARM_LPAE_PTE_CONT) then arm_lpae_cont_unmap data iova lvl ptep pgcount else mret tt) ;;;
        __arm_lpae_set_pte data ptep 0 1 ;;;
        (if negb (iopte_leaf pte lvl (fmt data)) then __arm_lpae_free_pgtable LEVELS data (lvl + 1) (iopte_deref pte data) true else mret tt) ;;;
        clear_entries k' data iova pgcount lvl (ptr_add ptep 1) (i + 1)
  end.

(** The entries of a last table, and the table when none is left. *)
Definition unmap_last (data : arm_lpae_io_pgtable) (iova size pgcount lvl : Z) (ptep : pte_ptr) (pte : Z) : M Z :=
  let table := iopte_deref pte data in
  let idx := ARM_LPAE_LVL_IDX iova (lvl + 1) data in
  let entry := (table, idx) in
  let num_cont := arm_check_and_set_num_cont data size (lvl + 1) in
  let num_entries := Z.min (s32 (num_cont * pgcount)) (ARM_LPAE_PTES_PER_TABLE data - idx) in
  e <-- read_pte entry ;;;
  (if truth (Z.land e ARM_LPAE_PTE_CONT) then arm_lpae_cont_unmap data iova (lvl + 1) entry num_entries else mret tt) ;;;
  __arm_lpae_set_pte data entry 0 num_entries ;;;
  iopte_tblcnt_sub ptep num_entries ;;;
  pte <-- read_pte ptep ;;;
  (if iopte_tblcnt pte =? 0 then
     __arm_lpae_set_pte data ptep 0 1 ;;;
     __arm_lpae_free_pgtable LEVELS data (lvl + 1) table true
   else mret tt) ;;;
  mret (num_entries * (size / num_cont)).

(** [n] is 4 less the level. *)
Fixpoint __arm_lpae_unmap (n : nat) (data : arm_lpae_io_pgtable) (iova size pgcount lvl : Z) (table : Z) : M Z :=
  match n with
  | O => mret 0
  | S n' =>
      let idx := ARM_LPAE_LVL_IDX iova lvl data in
      let ptep := (table, idx) in
      pte <-- read_pte ptep ;;;
      if pte =? 0 then mret 0
      else if (size =? ARM_LPAE_BLOCK_SIZE lvl data) || (size =? arm_find_num_cont data lvl * ARM_LPAE_BLOCK_SIZE lvl data) then
        let num_cont := arm_check_and_set_num_cont data size lvl in
        let num_entries := Z.min (s32 (num_cont * pgcount)) (ARM_LPAE_PTES_PER_TABLE data - idx) in
        i <-- clear_entries (Z.to_nat num_entries) data iova pgcount lvl ptep 0 ;;;
        mret (i * (size / num_cont))
      else if (lvl =? ARM_LPAE_MAX_LEVELS - 2) && negb (iopte_leaf pte lvl (fmt data)) then unmap_last data iova size pgcount lvl ptep pte
      else if iopte_leaf pte lvl (fmt data) then
        let num_cont := arm_check_and_set_num_cont data size (lvl + 1) in
        (if truth (Z.land pte ARM_LPAE_PTE_CONT) then arm_lpae_cont_unmap data iova lvl ptep (arm_find_num_cont data lvl) else mret tt) ;;;
        arm_lpae_split_blk_unmap (fun size pgcount lvl table => __arm_lpae_unmap n' data iova size pgcount lvl table)
          data iova (size / num_cont) pte (lvl + 1) ptep (num_cont * pgcount)
      else __arm_lpae_unmap n' data iova size pgcount (lvl + 1) (iopte_deref pte data)
  end.

Definition qcom_arm_lpae_unmap_pages (data : arm_lpae_io_pgtable) (iova pgsize pgcount : Z) : M Z :=
  if bad_pgsize data pgsize pgcount then mret 0
  else if truth (iova_ext data iova) then mret 0
  else
    lock_table ;;;
    unmapped <-- __arm_lpae_unmap LEVELS data iova pgsize pgcount (start_level data) (pgd data) ;;;
    arm_smmu_qcom_tlb_add_inv ;;;
    unlock_table ;;;
    mret unmapped.

(** ** Looking up *)

(** [n] is 4 less the level. *)
Fixpoint iova_walk (n : nat) (data : arm_lpae_io_pgtable) (iova lvl : Z) (table : Z) : M (option (Z * Z)) :=
  match n with
  | O => mret None
  | S n' =>
      if negb (truth table) then mret None
      else
        pte <-- read_pte (table, ARM_LPAE_LVL_IDX iova lvl data) ;;;
        if pte =? 0 then mret None
        else if iopte_leaf pte lvl (fmt data) then mret (Some (pte, lvl))
        else iova_walk n' data iova (lvl + 1) (iopte_deref pte data)
  end.

Definition arm_lpae_iova_to_phys (data : arm_lpae_io_pgtable) (iova : Z) : M Z :=
  lock_table ;;;
  r <-- iova_walk (Z.to_nat (ARM_LPAE_MAX_LEVELS - start_level data)) data iova (start_level data) (pgd data) ;;;
  unlock_table ;;;
  mret (match r with
        | None => 0
        | Some (pte, lvl) => Z.lor (iopte_to_paddr pte data) (Z.land iova (ARM_LPAE_BLOCK_SIZE lvl data - 1))
        end).

(** ** A new table *)

Definition arm_lpae_restrict_pgsizes (c : io_pgtable_cfg) : io_pgtable_cfg :=
  let PAGE_SIZE := 2 ^ pe_page_shift env in
  let bitmap := pgsize_bitmap c in
  let below := Z.land bitmap (PAGE_SIZE - 1) in
  let above := Z.land bitmap (Z.lnot (PAGE_SIZE - 1)) in
  let granule :=
    if truth (Z.land bitmap PAGE_SIZE) then PAGE_SIZE
    else if truth below then Z.shiftl 1 (__fls below)
    else if truth above then Z.shiftl 1 (__ffs above)
    else 0 in
  let '(page_sizes, max_addr_bits) :=
    if granule =? SZ_4K then (Z.lor (Z.lor SZ_4K SZ_2M) SZ_1G, 48)
    else if granule =? SZ_16K then (Z.lor SZ_16K SZ_32M, 48)
    else if granule =? SZ_64K then
      (let sizes := Z.lor SZ_64K SZ_512M in if 48 <? oas c then Z.lor sizes (BIT 42) else sizes, 52)
    else (0, 48) in
  let c := c <| pgsize_bitmap := Z.land bitmap page_sizes |> in
  let c := c <| pgsize_bitmap := Z.lor (pgsize_bitmap c) (arm_get_cont_sizes c) |> in
  c <| ias := Z.min (ias c) max_addr_bits |> <| oas := Z.min (oas c) max_addr_bits |>.

Definition qcom_io_pgtable_allocator_register_m (vmid : Z) : M Z :=
  al <-- gets q_al ;;;
  r <-- or_fault (pa_register vmid al) ;;;
  modify (fun q => q <| q_al := snd r |>) ;;;
  mret (fst r).

(** The root is not there yet. *)
Definition arm_lpae_alloc_pgtable (f : io_pgtable_fmt) (c : io_pgtable_cfg) (vmid : Z) :
    M (io_pgtable_cfg * option arm_lpae_io_pgtable) :=
  let c := arm_lpae_restrict_pgsizes c in
  if negb (truth (Z.land (pgsize_bitmap c) (Z.lor SZ_4K (Z.lor SZ_16K SZ_64K)))) then mret (c, None)
  else if ARM_LPAE_MAX_ADDR_BITS <? ias c then mret (c, None)
  else if ARM_LPAE_MAX_ADDR_BITS <? oas c then mret (c, None)
  else if negb (pe_kmalloc env) then mret (c, None)
  else
    let pg_shift := __ffs (pgsize_bitmap c) in
    let bpl := pg_shift - 3 in
    let va_bits := ias c - pg_shift in
    let levels := Z.quot (va_bits + bpl - 1) bpl in
    ret <-- qcom_io_pgtable_allocator_register_m vmid ;;;
    if truth ret then mret (c, None)
    else mret (c, Some (mk_data f c (va_bits - bpl * (levels - 1)) (ARM_LPAE_MAX_LEVELS - levels) bpl 0 vmid)).

Definition ARM_LPAE_TCR_RGN_NC : Z := 0.

Definition ARM_LPAE_TCR_RGN_WBWA : Z := 1.

Definition ARM_LPAE_TCR_RGN_WB : Z := 3.

Definition ARM_LPAE_TCR_SH_OS : Z := 2.

Definition ARM_LPAE_TCR_SH_IS : Z := 3.

Definition ARM_LPAE_VTCR_SL0_MASK : Z := 3.

Definition tcr_tg (granule : Z) (tg1 : bool) (old : Z) : Z :=
  if granule =? SZ_4K then if tg1 then 2 else 0
  else if granule =? SZ_16K then if tg1 then 1 else 2
  else if granule =? SZ_64K then if tg1 then 3 else 1
  else old.

Definition tcr_ps (oas : Z) : option Z :=
  if oas =? 32 then Some 0 else if oas =? 36 then Some 1 else if oas =? 40 then Some 2 else if oas =? 42 then Some 3
  else if oas =? 44 then Some 4 else if oas =? 48 then Some 5 else if oas =? 52 then Some 6 else None.

Definition mair_s1 : Z :=
  let attr v i := Z.shiftl v (ARM_LPAE_MAIR_ATTR_SHIFT i) in
  Z.lor (attr ARM_LPAE_MAIR_ATTR_NC ARM_LPAE_MAIR_ATTR_IDX_NC)
    (Z.lor (attr ARM_LPAE_MAIR_ATTR_WBRWA ARM_LPAE_MAIR_ATTR_IDX_CACHE)
      (Z.lor (attr ARM_LPAE_MAIR_ATTR_DEVICE ARM_LPAE_MAIR_ATTR_IDX_DEV)
        (Z.lor (attr ARM_LPAE_MAIR_ATTR_INC_OWBRWA ARM_LPAE_MAIR_ATTR_IDX_INC_OCACHE)
          (Z.lor (attr ARM_LPAE_MAIR_ATTR_INC_OWBRANWA ARM_LPAE_MAIR_ATTR_IDX_INC_OCACHE_NWA)
            (attr ARM_LPAE_MAIR_ATTR_IWBRWA_OWBRANWA ARM_LPAE_MAIR_ATTR_IDX_ICACHE_OCACHE_NWA))))).

Definition out_free_data (c : io_pgtable_cfg) (vmid : Z) : M (io_pgtable_cfg * option arm_lpae_io_pgtable) :=
  qcom_io_pgtable_allocator_unregister_m vmid ;;; mret (c, None).

(** The registers of the first stage; whether there is an encoding. *)
Definition s1_regs (c : io_pgtable_cfg) (granule : Z) : io_pgtable_cfg * bool :=
  let q b := truth (Z.land (quirks c) b) in
  let t := tcr c in
  let t := if coherent_walk c then t <| r_sh := ARM_LPAE_TCR_SH_IS |> <| r_irgn := ARM_LPAE_TCR_RGN_WBWA |> <| r_orgn := ARM_LPAE_TCR_RGN_WBWA |>
           else t <| r_sh := ARM_LPAE_TCR_SH_OS |> <| r_irgn := ARM_LPAE_TCR_RGN_NC |>
                  <| r_orgn := if q IO_PGTABLE_QUIRK_ARM_OUTER_WBWA then ARM_LPAE_TCR_RGN_WBWA
                               else if q IO_PGTABLE_QUIRK_QCOM_USE_LLC_NWA then ARM_LPAE_TCR_RGN_WB else ARM_LPAE_TCR_RGN_NC |> in
  if coherent_walk c && q (Z.lor IO_PGTABLE_QUIRK_ARM_OUTER_WBWA IO_PGTABLE_QUIRK_QCOM_USE_LLC_NWA) then (c <| tcr := t |>, false)
  else
    let t := t <| r_tg := tcr_tg granule (q IO_PGTABLE_QUIRK_ARM_TTBR1) (r_tg t) |> in
    match tcr_ps (oas c) with
    | None => (c <| tcr := t |>, false)
    | Some ps => (c <| tcr := t <| r_ps := ps |> <| r_tsz := 64 - ias c |> |> <| mair := mair_s1 |>, true)
    end.

Definition S1_QUIRKS : Z :=
  Z.lor IO_PGTABLE_QUIRK_ARM_NS (Z.lor IO_PGTABLE_QUIRK_ARM_TTBR1 (Z.lor IO_PGTABLE_QUIRK_ARM_OUTER_WBWA IO_PGTABLE_QUIRK_QCOM_USE_LLC_NWA)).

(** The root, and its address for the register. *)
Definition alloc_pgd (data : arm_lpae_io_pgtable) (c : io_pgtable_cfg) (reg : Z -> Z) : M (io_pgtable_cfg * option arm_lpae_io_pgtable) :=
  o <-- __arm_lpae_alloc_pages (data <| cfg := c |>) (ARM_LPAE_PGD_SIZE data) GFP_KERNEL ;;;
  match o with
  | None => out_free_data c (vmid data)
  | Some page => let c := c <| ttbr := reg page |> in mret (c, Some (data <| pgd := page |> <| cfg := c |>))
  end.

Definition arm_64_lpae_alloc_pgtable_s1 (f : io_pgtable_fmt) (c : io_pgtable_cfg) (vm : Z) : M (io_pgtable_cfg * option arm_lpae_io_pgtable) :=
  if truth (Z.land (quirks c) (Z.lnot S1_QUIRKS)) then mret (c, None)
  else
    r <-- arm_lpae_alloc_pgtable f c vm ;;;
    let '(c, o) := r in
    match o with
    | None => mret (c, None)
    | Some data =>
        let '(c, ok) := s1_regs c (ARM_LPAE_GRANULE data) in
        if negb ok then out_free_data c (vmid data) else alloc_pgd data c (fun page => page)
    end.

Definition s2_regs (c : io_pgtable_cfg) (granule start : Z) : io_pgtable_cfg * bool :=
  let t := tcr c in
  let t := if coherent_walk c then t <| r_sh := ARM_LPAE_TCR_SH_IS |> <| r_irgn := ARM_LPAE_TCR_RGN_WBWA |> <| r_orgn := ARM_LPAE_TCR_RGN_WBWA |>
           else t <| r_sh := ARM_LPAE_TCR_SH_OS |> <| r_irgn := ARM_LPAE_TCR_RGN_NC |> <| r_orgn := ARM_LPAE_TCR_RGN_NC |> in
  let sl := if granule =? SZ_4K then start + 1 else start in
  let t := t <| r_tg := tcr_tg granule false (r_tg t) |> in
  match tcr_ps (oas c) with
  | None => (c <| tcr := t |>, false)
  | Some ps => (c <| tcr := t <| r_ps := ps |> <| r_tsz := 64 - ias c |> <| r_sl := Z.land (Z.lnot sl) ARM_LPAE_VTCR_SL0_MASK |> |>, true)
  end.

Definition arm_64_lpae_alloc_pgtable_s2 (f : io_pgtable_fmt) (c : io_pgtable_cfg) (vm : Z) : M (io_pgtable_cfg * option arm_lpae_io_pgtable) :=
  if truth (quirks c) then mret (c, None)
  else
    r <-- arm_lpae_alloc_pgtable f c vm ;;;
    let '(c, o) := r in
    match o with
    | None => mret (c, None)
    | Some data =>
        let data := if (start_level data =? 0) && (ARM_LPAE_PGD_SIZE data / 8 <=? ARM_LPAE_S2_MAX_CONCAT_PAGES)
                    then data <| pgd_bits := pgd_bits data + bits_per_level data |> <| start_level := start_level data + 1 |> else data in
        let '(c, ok) := s2_regs c (ARM_LPAE_GRANULE data) (start_level data) in
        if negb ok then out_free_data c (vmid data) else alloc_pgd data c (fun page => page)
    end.

Definition only_4k (c : io_pgtable_cfg) : io_pgtable_cfg := c <| pgsize_bitmap := Z.land (pgsize_bitmap c) (Z.lor SZ_4K (Z.lor SZ_2M SZ_1G)) |>.

Definition arm_32_lpae_alloc_pgtable_s1 (f : io_pgtable_fmt) (c : io_pgtable_cfg) (vm : Z) : M (io_pgtable_cfg * option arm_lpae_io_pgtable) :=
  if (32 <? ias c) || (40 <? oas c) then mret (c, None) else arm_64_lpae_alloc_pgtable_s1 f (only_4k c) vm.

Definition arm_32_lpae_alloc_pgtable_s2 (f : io_pgtable_fmt) (c : io_pgtable_cfg) (vm : Z) : M (io_pgtable_cfg * option arm_lpae_io_pgtable) :=
  if (40 <? ias c) || (40 <? oas c) then mret (c, None) else arm_64_lpae_alloc_pgtable_s2 f (only_4k c) vm.

Definition memattr_mali : Z :=
  let attr v i := Z.shiftl v (ARM_LPAE_MAIR_ATTR_SHIFT i) in
  Z.lor (attr 136 ARM_LPAE_MAIR_ATTR_IDX_NC) (Z.lor (attr 141 ARM_LPAE_MAIR_ATTR_IDX_CACHE) (attr 136 ARM_LPAE_MAIR_ATTR_IDX_DEV)).

Definition arm_mali_lpae_alloc_pgtable (f : io_pgtable_fmt) (c : io_pgtable_cfg) (vm : Z) : M (io_pgtable_cfg * option arm_lpae_io_pgtable) :=
  if truth (quirks c) then mret (c, None)
  else if (48 <? ias c) || (40 <? oas c) then mret (c, None)
  else
    r <-- arm_lpae_alloc_pgtable f (only_4k c) vm ;;;
    let '(c, o) := r in
    match o with
    | None => mret (c, None)
    | Some data =>
        let data := if 0 <? start_level data then data <| start_level := 0 |> <| pgd_bits := 0 |> else data in
        alloc_pgd data (c <| mair := memattr_mali |>) (fun page => Z.lor page (Z.lor (BIT 2) 3))
    end.

(** The one format of this driver that is hooked up, and its end. *)
Definition qcom_alloc_io_pgtable_ops (c : io_pgtable_cfg) (vm : Z) : M (io_pgtable_cfg * option arm_lpae_io_pgtable) :=
  arm_64_lpae_alloc_pgtable_s1 QCOM_ARM_64_LPAE_S1 c vm.

Definition qcom_free_io_pgtable_ops (data : arm_lpae_io_pgtable) : M unit := io_pgtable_tlb_flush_all ;;; arm_lpae_free_pgtable data.
End State.
