(* ===== verification/PtBits.v ===== *)
(** * PtBits: the entries of an IO page table, bit by bit

    What the functions of IoPgtable.v that take entries apart and put them
    together have to do with each other. *)
From stdpp Require Import prelude gmap list.
From S2P Require Import Prelude.
From S2P Require Import Effects.
From S2P Require Import PgAlloc.
From S2P Require Import IoPgtable.

(** ** Reading bits *)

Lemma testbit_range m h l i : m = GENMASK h l -> 0 <= l <= h -> 0 <= i -> Z.testbit m i = (l <=? i) && (i <=? h).
Proof.
  intros -> Hl Hi. unfold GENMASK. rewrite Z.shiftl_spec by done. destruct (Z.leb_spec l i); cbn.
  - rewrite Z.testbit_ones by lia. lia.
  - by rewrite Z.testbit_neg_r by lia.
Qed.

Lemma testbit_BIT n i : 0 <= n -> 0 <= i -> Z.testbit (BIT n) i = (i =? n).
Proof. intros Hn Hi. unfold BIT. rewrite Z.shiftl_1_l. rewrite Z.pow2_bits_eqb by lia. lia. Qed.

Lemma testbit_addr_mask i : 0 <= i -> Z.testbit ARM_LPAE_PTE_ADDR_MASK i = (12 <=? i) && (i <=? 47).
Proof. intros. by apply testbit_range. Qed.

Lemma testbit_top_mask i : 0 <= i -> Z.testbit TOP_IGNORED_MASK i = (52 <=? i) && (i <=? 54).
Proof. intros. by apply testbit_range. Qed.

Lemma testbit_bottom_mask i : 0 <= i -> Z.testbit BOTTOM_IGNORED_MASK i = (2 <=? i) && (i <=? 11).
Proof. intros. by apply testbit_range. Qed.

Lemma testbit_type_mask i : 0 <= i -> Z.testbit ARM_LPAE_PTE_TYPE_MASK i = (i <=? 1).
Proof. intros. rewrite (testbit_range _ 1 0) by done. lia. Qed.

Lemma testbit_attr_mask i : 0 <= i -> Z.testbit ARM_LPAE_PTE_ATTR_MASK i = ((2 <=? i) && (i <=? 11)) || ((53 <=? i) && (i <=? 54)).
Proof. intros. unfold ARM_LPAE_PTE_ATTR_MASK. rewrite Z.lor_spec, (testbit_range _ 11 2), (testbit_range _ 54 53) by done. done. Qed.

Lemma testbit_3 i : 0 <= i -> Z.testbit 3 i = (i <=? 1).
Proof. apply testbit_type_mask. Qed.

Lemma testbit_1 i : 0 <= i -> Z.testbit 1 i = (i =? 0).
Proof. intros. apply (testbit_BIT 0); [done|done]. Qed.

Lemma testbit_mod a n i : 0 <= n -> 0 <= i -> Z.testbit (a mod 2 ^ n) i = (i <? n) && Z.testbit a i.
Proof. intros. destruct (Z.ltb_spec i n); cbn; [by rewrite Z.mod_pow2_bits_low by lia|by rewrite Z.mod_pow2_bits_high by lia]. Qed.

Lemma testbit_div a n i : 0 <= n -> 0 <= i -> Z.testbit (a / 2 ^ n) i = Z.testbit a (i + n).
Proof. intros. by rewrite Z.div_pow2_bits by done. Qed.

Lemma testbit_range_lo a n i : a mod 2 ^ n = 0 -> 0 <= i < n -> Z.testbit a i = false.
Proof. intros E Hi. rewrite <- (Z.mod_pow2_bits_low a n i) by lia. rewrite E. apply Z.bits_0. Qed.

Lemma testbit_range_hi a n i : 0 <= a < 2 ^ n -> n <= i -> Z.testbit a i = false.
Proof.
  intros Ha Hi. destruct (Z.lt_ge_cases n 0); [rewrite Z.pow_neg_r in Ha by lia; lia|].
  rewrite <- (Z.mod_small a (2 ^ n)) by lia. by rewrite Z.mod_pow2_bits_high by lia.
Qed.

Lemma mod_pow_le a n m : a mod 2 ^ m = 0 -> 0 <= n <= m -> a mod 2 ^ n = 0.
Proof.
  intros E Hn. apply Z.mod_divide; [lia|]. apply Z.mod_divide in E; [|lia]. eapply Z.divide_trans; [|exact E].
  exists (2 ^ (m - n)). rewrite <- Z.pow_add_r by lia. f_equal. lia.
Qed.

(** Two integers with the same bits: the bits of the operations, and a case
    distinction on where the index lies. *)
Create HintDb bits.
#[export] Hint Rewrite Z.land_spec Z.lor_spec Z.bits_0 : bits.
#[export] Hint Rewrite Z.lnot_spec Z.shiftl_spec Z.shiftr_spec testbit_addr_mask testbit_top_mask testbit_bottom_mask testbit_type_mask testbit_attr_mask
  testbit_3 testbit_1 testbit_BIT testbit_mod using lia : bits.

Ltac case_index :=
  repeat match goal with
  | |- context [?a <=? ?b] => destruct (Z.leb_spec a b); try lia; cbn [andb orb negb]
  | |- context [?a <? ?b] => destruct (Z.ltb_spec a b); try lia; cbn [andb orb negb]
  | |- context [?a =? ?b] => destruct (Z.eqb_spec a b); try lia; cbn [andb orb negb]
  | |- context [Z.testbit _ ?i] => rewrite (Z.testbit_neg_r _ i) by lia
  end.

Ltac bits := autorewrite with bits; case_index; rewrite ?andb_true_r, ?andb_false_r, ?orb_true_r, ?orb_false_r; try done.

(** ** Tables that the driver sets up *)

Record geo_ok (d : arm_lpae_io_pgtable) : Prop := {
  go_fmt : fmt d = QCOM_ARM_64_LPAE_S1;
  go_bpl : bits_per_level d = 9 \/ bits_per_level d = 11 \/ bits_per_level d = 13;
  go_start : 0 <= start_level d <= 3;
  go_pgd : 1 <= pgd_bits d <= bits_per_level d;
  go_ias : ias (cfg d) = ARM_LPAE_LVL_SHIFT (start_level d) d + pgd_bits d;
  go_ias52 : ias (cfg d) <= 52;
  go_oas : 0 <= oas (cfg d) <= if bits_per_level d =? 13 then 52 else 48;
}.

Section Entries.
Context (d : arm_lpae_io_pgtable) (HG : geo_ok d).

(** The address of memory for a leaf at a level: the block is within the range of
    output addresses. *)
Definition pa_ok (l pa : Z) : Prop := pa mod 2 ^ ARM_LPAE_LVL_SHIFT l d = 0 /\ 0 <= pa <= 2 ^ oas (cfg d) - 2 ^ ARM_LPAE_LVL_SHIFT l d.

Definition prot_ok (prot : Z) : Prop := Z.land prot ARM_LPAE_PTE_ATTR_MASK = prot.

(** The address of a page of a table. *)
Definition page_ok (page : Z) : Prop := page mod 2 ^ (bits_per_level d + 3) = 0 /\ 0 < page < 2 ^ 48.

Lemma bpl_pos : 9 <= bits_per_level d <= 13.
Proof. destruct (go_bpl d HG) as [-> | [-> | ->]]; lia. Qed.

Lemma shift_low l : l <= 3 -> bits_per_level d + 3 <= ARM_LPAE_LVL_SHIFT l d.
Proof. pose proof bpl_pos. unfold ARM_LPAE_LVL_SHIFT, ARM_LPAE_MAX_LEVELS. nia. Qed.

Lemma shift_pos l : l <= 3 -> 12 <= ARM_LPAE_LVL_SHIFT l d.
Proof. intros Hl. pose proof bpl_pos. pose proof (shift_low l Hl). lia. Qed.

Lemma granule_small : ARM_LPAE_GRANULE d <? SZ_64K = negb (bits_per_level d =? 13).
Proof. unfold ARM_LPAE_GRANULE, SZ_64K. by destruct (go_bpl d HG) as [-> | [-> | ->]]. Qed.

Lemma prot_bits prot i : prot_ok prot -> 0 <= i -> Z.testbit prot i = (((2 <=? i) && (i <=? 11)) || ((53 <=? i) && (i <=? 54))) && Z.testbit prot i.
Proof.
  unfold prot_ok. intros H Hi. rewrite <- H at 1. autorewrite with bits. by rewrite andb_comm.
Qed.

Lemma pa_bits l pa i : l <= 3 -> pa_ok l pa -> 0 <= i ->
  Z.testbit pa i = (ARM_LPAE_LVL_SHIFT l d <=? i) && (i <? oas (cfg d)) && Z.testbit pa i.
Proof.
  intros Hl [H1 H2] Hi. pose proof (shift_pos l Hl). assert (0 <= pa < 2 ^ oas (cfg d)) by lia. destruct (Z.leb_spec (ARM_LPAE_LVL_SHIFT l d) i); cbn.
  - destruct (Z.ltb_spec i (oas (cfg d))); cbn; [done|]. by apply (testbit_range_hi _ (oas (cfg d))).
  - apply (testbit_range_lo _ (ARM_LPAE_LVL_SHIFT l d)); [done|lia].
Qed.

Definition leaf_type (l : Z) : Z := if l =? 3 then ARM_LPAE_PTE_TYPE_PAGE else ARM_LPAE_PTE_TYPE_BLOCK.

Lemma leaf_pte_eq pa prot l : leaf_pte d pa prot l = Z.lor (Z.lor prot (leaf_type l)) (paddr_to_iopte pa d).
Proof. unfold leaf_pte, leaf_type. change (ARM_LPAE_MAX_LEVELS - 1) with 3. rewrite (go_fmt d HG). by destruct (l =? 3). Qed.

Lemma leaf_type_bits l i : 0 <= i -> Z.testbit (leaf_type l) i = (i =? 0) || ((l =? 3) && (i =? 1)).
Proof. intros Hi. unfold leaf_type, ARM_LPAE_PTE_TYPE_PAGE, ARM_LPAE_PTE_TYPE_BLOCK. destruct (l =? 3); bits. Qed.

Lemma leaf_pte_type pa prot l : prot_ok prot -> iopte_type (leaf_pte d pa prot l) = leaf_type l.
Proof.
  intros Hp. rewrite leaf_pte_eq. apply Z.bits_inj'. intros i Hi. unfold iopte_type, paddr_to_iopte.
  autorewrite with bits. rewrite (prot_bits prot i Hp Hi), leaf_type_bits by done. case_index.
Qed.

(** What an entry says of an address, bit by bit. *)
Lemma testbit_paddr e i : 0 <= i ->
  Z.testbit (iopte_to_paddr e d) i =
  if bits_per_level d =? 13 then (16 <=? i) && (i <? 52) && Z.testbit e (if i <? 48 then i else i - 36)
  else (12 <=? i) && (i <? 48) && Z.testbit e i.
Proof.
  intros Hi. unfold iopte_to_paddr. rewrite granule_small.
  assert (forall j, Z.testbit (Z.land (iopte_val e) ARM_LPAE_PTE_ADDR_MASK) j = (12 <=? j) && (j <? 48) && Z.testbit e j) as E.
  { intros j. destruct (Z.lt_ge_cases j 0); [rewrite Z.testbit_neg_r by done; case_index; done|].
    unfold iopte_val, IOPTE_RESERVED_MASK. rewrite !Z.land_spec, Z.lnot_spec, Z.lor_spec by done.
    rewrite testbit_addr_mask, testbit_top_mask, testbit_bottom_mask by done. case_index; rewrite ?andb_true_r, ?andb_false_r; done. }
  destruct (bits_per_level d =? 13); cbn [negb]; [|by apply E]. change (48 - 12) with 36.
  rewrite Z.land_spec, Z.lor_spec, E by done. unfold u64. rewrite testbit_mod, !Z.shiftl_spec, E by done.
  destruct (Z.ltb_spec i 4); [rewrite (Z.testbit_neg_r ARM_LPAE_PTE_ADDR_MASK) by lia; case_index; by rewrite andb_false_r|].
  rewrite testbit_addr_mask by lia. case_index; rewrite ?andb_false_r, ?andb_true_r, ?orb_false_r; done.
Qed.


Lemma testbit_paddr_to_iopte pa i : 0 <= i -> Z.testbit (paddr_to_iopte pa d) i = (Z.testbit pa i || Z.testbit pa (i + 36)) && ((12 <=? i) && (i <=? 47)).
Proof. intros Hi. unfold paddr_to_iopte. change (48 - 12) with 36. by rewrite Z.land_spec, Z.lor_spec, Z.shiftr_spec, testbit_addr_mask. Qed.

Lemma testbit_leaf_addr pa prot l i : prot_ok prot -> 12 <= i <= 47 ->
  Z.testbit (leaf_pte d pa prot l) i = Z.testbit pa i || Z.testbit pa (i + 36).
Proof.
  intros Hp Hi. rewrite leaf_pte_eq, !Z.lor_spec, leaf_type_bits, (prot_bits prot), testbit_paddr_to_iopte by (assumption || lia).
  case_index; by rewrite ?andb_true_r.
Qed.

Lemma leaf_pte_paddr pa prot l : l <= 3 -> pa_ok l pa -> prot_ok prot -> iopte_to_paddr (leaf_pte d pa prot l) d = pa.
Proof.
  intros Hl Hpa Hp. pose proof (go_oas d HG) as Ho. pose proof (shift_low l Hl). pose proof bpl_pos.
  assert (forall i, oas (cfg d) <= i -> Z.testbit pa i = false) as Hhi by (intros i Hi; apply (testbit_range_hi _ (oas (cfg d))); [destruct Hpa; lia|done]).
  assert (forall i, 0 <= i < ARM_LPAE_LVL_SHIFT l d -> Z.testbit pa i = false) as Hlo.
  { intros i Hi. apply (testbit_range_lo _ (ARM_LPAE_LVL_SHIFT l d)); [apply Hpa|done]. }
  apply Z.bits_inj'. intros i Hi. rewrite testbit_paddr by done.
  destruct (bits_per_level d =? 13) eqn:E.
  - apply Z.eqb_eq in E. destruct (Z.ltb_spec i 16); [rewrite (Hlo i) by lia; case_index; done|].
    destruct (Z.ltb_spec i 52); [|rewrite (Hhi i) by lia; case_index; done].
    case_index; rewrite testbit_leaf_addr by (assumption || lia).
    + rewrite (Hhi (i + 36)) by lia. by rewrite orb_false_r.
    + rewrite (Hlo (i - 36)) by lia. by replace (i - 36 + 36) with i by lia.
  - destruct (Z.ltb_spec i 12); [rewrite (Hlo i) by lia; case_index; done|].
    destruct (Z.ltb_spec i 48); [|rewrite (Hhi i) by lia; case_index; done].
    case_index; rewrite testbit_leaf_addr by (assumption || lia). rewrite (Hhi (i + 36)) by lia. by rewrite orb_false_r.
Qed.

(** The address depends on these bits only. *)
Lemma same_addr e e' : (forall i, 12 <= i <= 47 -> Z.testbit e i = Z.testbit e' i) -> iopte_to_paddr e d = iopte_to_paddr e' d.
Proof.
  intros H. apply Z.bits_inj'. intros i Hi. rewrite !testbit_paddr by done.
  destruct (_ =? 13); case_index; rewrite ?H by lia; done.
Qed.

Lemma same_type e e' : Z.testbit e 0 = Z.testbit e' 0 -> Z.testbit e 1 = Z.testbit e' 1 -> iopte_type e = iopte_type e'.
Proof.
  intros H0 H1. apply Z.bits_inj'. intros i Hi. unfold iopte_type. rewrite !Z.land_spec, testbit_type_mask by done.
  assert (i = 0 \/ i = 1 \/ 1 < i) as [-> | [-> | ?]] by lia; [by rewrite H0|by rewrite H1|case_index; by rewrite !andb_false_r].
Qed.

Lemma leaf_pte_prot pa prot l : prot_ok prot -> iopte_prot (leaf_pte d pa prot l) = prot.
Proof.
  intros Hp. rewrite leaf_pte_eq. apply Z.bits_inj'. intros i Hi. unfold iopte_prot.
  rewrite Z.land_spec, !Z.lor_spec, testbit_attr_mask, leaf_type_bits, testbit_paddr_to_iopte, (prot_bits prot) by assumption.
  case_index; rewrite ?andb_true_r, ?andb_false_r, ?orb_false_r; done.
Qed.

Lemma leaf_pte_sync pa prot l : prot_ok prot -> Z.land (leaf_pte d pa prot l) ARM_LPAE_PTE_SW_SYNC = 0.
Proof.
  intros Hp. rewrite leaf_pte_eq. apply Z.bits_inj'. intros i Hi. unfold ARM_LPAE_PTE_SW_SYNC. rewrite Z.bits_0.
  rewrite Z.land_spec, !Z.lor_spec, (testbit_BIT 55), leaf_type_bits, testbit_paddr_to_iopte, (prot_bits prot) by done.
  case_index; by rewrite ?andb_false_r.
Qed.

(** ** The count in a table entry *)

Lemma testbit_tblcnt_set e c i : 0 <= i ->
  Z.testbit (iopte_tblcnt_set e c) i =
  if (52 <=? i) && (i <=? 54) then Z.testbit c (i - 42) else if (2 <=? i) && (i <=? 11) then Z.testbit c (i - 2) else Z.testbit e i.
Proof.
  intros Hi. unfold iopte_tblcnt_set, iopte_val, IOPTE_RESERVED_MASK.
  rewrite !Z.lor_spec, !Z.land_spec, Z.lnot_spec, Z.lor_spec, testbit_top_mask, testbit_bottom_mask by done.
  rewrite !Z.shiftl_spec by done.
  destruct ((52 <=? i) && (i <=? 54)) eqn:E1.
  - rewrite Z.shiftr_spec, Z.land_spec, (testbit_range (GENMASK 12 10) 12 10) by (done || lia). replace (i - 52 + 10) with (i - 42) by lia.
    case_index; by rewrite ?andb_false_r, ?andb_true_r, ?orb_false_r.
  - destruct ((2 <=? i) && (i <=? 11)) eqn:E2; [|by rewrite !andb_false_r, !orb_false_r, andb_true_r].
    rewrite Z.land_spec, (testbit_range (GENMASK 9 0) 9 0) by (done || lia). case_index; by rewrite ?andb_false_r, ?andb_true_r.
Qed.

Lemma testbit_tblcnt e i : 0 <= i -> Z.testbit (iopte_tblcnt e) i = (i <? 13) && Z.testbit e (if i <? 10 then i + 2 else i + 42).
Proof.
  intros Hi. unfold iopte_tblcnt. rewrite Z.lor_spec, !Z.land_spec, Z.shiftl_spec by done.
  rewrite (testbit_range (GENMASK 12 10) 12 10), (testbit_range (GENMASK 9 0) 9 0) by (done || lia).
  destruct (Z.ltb_spec i 10).
  - rewrite (Z.shiftr_spec _ 2), Z.land_spec, testbit_bottom_mask by lia. case_index; by rewrite ?andb_false_r, ?andb_true_r.
  - rewrite !Z.shiftr_spec, !Z.land_spec, testbit_top_mask, testbit_bottom_mask by lia. replace (i - 10 + 52) with (i + 42) by lia.
    case_index; by rewrite ?andb_false_r, ?andb_true_r, ?orb_false_r.
Qed.

Lemma tblcnt_set_get e c : iopte_tblcnt (iopte_tblcnt_set e c) = c mod 2 ^ 13.
Proof.
  apply Z.bits_inj'. intros i Hi. rewrite testbit_tblcnt, testbit_mod by lia. destruct (Z.ltb_spec i 13); [cbn [andb]|done].
  destruct (Z.ltb_spec i 10); rewrite testbit_tblcnt_set by lia; case_index; f_equal; lia.
Qed.

Lemma tblcnt_set_type e c : iopte_type (iopte_tblcnt_set e c) = iopte_type e.
Proof. apply same_type; by rewrite testbit_tblcnt_set by done. Qed.

Lemma tblcnt_set_deref e c : iopte_deref (iopte_tblcnt_set e c) d = iopte_deref e d.
Proof. apply same_addr. intros i Hi. rewrite testbit_tblcnt_set by lia. case_index; done. Qed.

Lemma testbit_table_pte page c i : 0 <= i ->
  Z.testbit (table_pte d page c) i =
  if (52 <=? i) && (i <=? 54) then Z.testbit c (i - 42) else if (2 <=? i) && (i <=? 11) then Z.testbit c (i - 2)
  else Z.testbit page i || (i <=? 1) || (truth (Z.land (quirks (cfg d)) IO_PGTABLE_QUIRK_ARM_NS) && (i =? 63)).
Proof.
  intros Hi. unfold table_pte. rewrite testbit_tblcnt_set by done. case_index; try done;
    (destruct (truth _); [rewrite !Z.lor_spec, (testbit_BIT 63) by done|rewrite Z.lor_spec]); rewrite testbit_3 by done; case_index;
      rewrite ?orb_true_r, ?orb_false_r; done.
Qed.

(** An entry for the page of a table: the one of [table_pte], later with the mark
    that the device has seen it, and with other counts. *)
Definition is_table (e page : Z) : Prop := iopte_type e = ARM_LPAE_PTE_TYPE_TABLE /\ iopte_deref e d = page.

Lemma table_pte_ok page c : page_ok page -> is_table (table_pte d page c) page /\ iopte_tblcnt (table_pte d page c) = c mod 2 ^ 13.
Proof.
  intros [Hp1 Hp2]. pose proof bpl_pos. split; [split|apply tblcnt_set_get].
  - apply Z.bits_inj'. intros i Hi. unfold iopte_type. rewrite Z.land_spec, testbit_type_mask, testbit_table_pte by done.
    change (Z.testbit ARM_LPAE_PTE_TYPE_TABLE i) with (Z.testbit 3 i). rewrite testbit_3 by done. case_index; by rewrite ?orb_true_r, ?andb_false_r.
  - assert (forall i, 48 <= i -> Z.testbit page i = false) as Hhi by (intros i Hi; apply (testbit_range_hi _ 48); [lia|done]).
    assert (forall i, 0 <= i < bits_per_level d + 3 -> Z.testbit page i = false) as Hlo by (intros i Hi; by apply (testbit_range_lo _ (bits_per_level d + 3))).
    assert (forall i, 12 <= i <= 47 -> Z.testbit (table_pte d page c) i = Z.testbit page i) as Hm.
    { intros i Hi. rewrite testbit_table_pte by lia. case_index; by rewrite ?andb_false_r, ?orb_false_r. }
    unfold iopte_deref. rewrite (same_addr (table_pte d page c) page Hm). clear Hm. apply Z.bits_inj'. intros i Hi. rewrite testbit_paddr by done.
    destruct (bits_per_level d =? 13) eqn:E; [apply Z.eqb_eq in E|].
    + destruct (Z.ltb_spec i 16); [rewrite (Hlo i) by lia; case_index; done|]. destruct (Z.ltb_spec i 48); [case_index; done|].
      rewrite (Hhi i) by lia. destruct (Z.ltb_spec i 52); [rewrite (Hlo (i - 36)) by lia|]; by rewrite ?andb_false_r.
    + destruct (Z.ltb_spec i 12); [rewrite (Hlo i) by lia; case_index; done|]. destruct (Z.ltb_spec i 48); [case_index; done|].
      rewrite (Hhi i) by lia. case_index; done.
Qed.

Lemma tblcnt_set_ok e page c : is_table e page -> is_table (iopte_tblcnt_set e c) page.
Proof. intros [H1 H2]. split; [by rewrite tblcnt_set_type|by rewrite tblcnt_set_deref]. Qed.

Lemma sw_sync_ok e page : is_table e page -> is_table (Z.lor e ARM_LPAE_PTE_SW_SYNC) page /\ iopte_tblcnt (Z.lor e ARM_LPAE_PTE_SW_SYNC) = iopte_tblcnt e.
Proof.
  intros [H1 H2].
  assert (forall i, 0 <= i -> i <> 55 -> Z.testbit (Z.lor e ARM_LPAE_PTE_SW_SYNC) i = Z.testbit e i) as H.
  { intros i Hi Hn. unfold ARM_LPAE_PTE_SW_SYNC. rewrite Z.lor_spec, (testbit_BIT 55) by done. case_index; by rewrite ?orb_false_r. }
  split; [split|].
  - rewrite <- H1. apply same_type; apply H; lia.
  - rewrite <- H2. apply same_addr. intros i Hi. apply H; lia.
  - apply Z.bits_inj'. intros i Hi. rewrite !testbit_tblcnt by done. case_index; rewrite ?H by lia; done.
Qed.

(** ** Kinds of entries *)

Lemma prot_ok_lor a b : prot_ok a -> prot_ok b -> prot_ok (Z.lor a b).
Proof. unfold prot_ok. intros Ha Hb. by rewrite Z.land_lor_distr_l, Ha, Hb. Qed.

Lemma prot_ok_prot pte : prot_ok (iopte_prot pte).
Proof. unfold prot_ok, iopte_prot. by rewrite <- Z.land_assoc, Z.land_diag. Qed.

Lemma prot_to_pte_ok prot : prot_ok (arm_lpae_prot_to_pte d prot).
Proof.
  unfold arm_lpae_prot_to_pte. rewrite (go_fmt d HG). rewrite !bool_decide_eq_false_2 by done. rewrite bool_decide_eq_true_2 by done.
  cbn [orb negb]. repeat first [apply prot_ok_lor | match goal with |- prot_ok (if ?b then _ else _) => destruct b end]; done.
Qed.

Lemma leaf_iff e l : iopte_leaf e l (fmt d) = (iopte_type e =? leaf_type l).
Proof. unfold iopte_leaf, leaf_type. change (ARM_LPAE_MAX_LEVELS - 1) with 3. rewrite (go_fmt d HG). by destruct (l =? 3). Qed.

Lemma leaf_pte_leaf pa prot l : prot_ok prot -> iopte_leaf (leaf_pte d pa prot l) l (fmt d) = true.
Proof. intros Hp. rewrite leaf_iff, leaf_pte_type by done. apply Z.eqb_refl. Qed.

Lemma table_not_leaf e page l : l < 3 -> is_table e page -> iopte_leaf e l (fmt d) = false.
Proof. intros Hl [Ht _]. rewrite leaf_iff, Ht. unfold leaf_type. rewrite (proj2 (Z.eqb_neq l 3)) by lia. done. Qed.

Lemma type_0 : iopte_type 0 = 0.
Proof. done. Qed.

Lemma table_nonzero e page : is_table e page -> e <> 0.
Proof. intros [H _] ->. by rewrite type_0 in H. Qed.

Lemma leaf_nonzero pa prot l : prot_ok prot -> leaf_pte d pa prot l <> 0.
Proof. intros Hp E. pose proof (leaf_pte_type pa prot l Hp) as H. rewrite E, type_0 in H. unfold leaf_type in H. by destruct (l =? 3). Qed.

Lemma type_valid e : Z.odd (iopte_type e) = true -> truth (Z.land e ARM_LPAE_PTE_VALID) = true.
Proof.
  intros H. rewrite <- Z.bit0_odd in H. unfold iopte_type in H. rewrite Z.land_spec in H. apply andb_true_iff in H as [H _].
  unfold truth. apply negb_true_iff, Z.eqb_neq. intros E. assert (Z.testbit (Z.land e ARM_LPAE_PTE_VALID) 0 = false) as F by (by rewrite E).
  by rewrite Z.land_spec, H in F.
Qed.

Lemma table_valid e page : is_table e page -> truth (Z.land e ARM_LPAE_PTE_VALID) = true.
Proof. intros [H _]. apply type_valid. by rewrite H. Qed.

Lemma leaf_valid pa prot l : prot_ok prot -> truth (Z.land (leaf_pte d pa prot l) ARM_LPAE_PTE_VALID) = true.
Proof. intros Hp. apply type_valid. rewrite leaf_pte_type by done. unfold leaf_type. by destruct (l =? 3). Qed.

Lemma table_inj e p p' : is_table e p -> is_table e p' -> p = p'.
Proof. by intros [_ <-] [_ <-]. Qed.

(** Two entries of a level that mean the same: counts and marks of a table entry
    differ. *)
Definition same_entry (l e e' : Z) : Prop := e = e' \/ l < 3 /\ exists page, is_table e page /\ is_table e' page.

Lemma same_entry_refl l e : same_entry l e e.
Proof. by left. Qed.

Lemma same_entry_sym l e e' : same_entry l e e' -> same_entry l e' e.
Proof. intros [->|(Hl & page & H1 & H2)]; [by left|right; eauto]. Qed.

Lemma same_entry_trans l e1 e2 e3 : same_entry l e1 e2 -> same_entry l e2 e3 -> same_entry l e1 e3.
Proof.
  intros [->|(Hl & p & H1 & H2)]; [done|]. intros [->|(_ & p' & H3 & H4)]; right; (split; [done|]); exists p; [done|]. split; [done|].
  by rewrite (table_inj _ _ _ H2 H3).
Qed.

Lemma same_entry_table l e e' page : same_entry l e e' -> is_table e page -> is_table e' page.
Proof. intros [->|(_ & p & H1 & H2)] H; [done|]. by rewrite (table_inj _ _ _ H H1). Qed.

Lemma same_entry_0 l e : same_entry l 0 e -> e = 0.
Proof. intros [E|(_ & p & H1 & _)]; [done|]. by apply table_nonzero in H1. Qed.

Lemma same_entry_leaf l pa prot e : prot_ok prot -> same_entry l (leaf_pte d pa prot l) e -> e = leaf_pte d pa prot l.
Proof.
  intros Hp [E|(Hl & p & H1 & _)]; [done|]. pose proof (table_not_leaf _ _ l Hl H1) as H. by rewrite leaf_pte_leaf in H.
Qed.
End Entries.
