(* ===== verification/PtInv.v ===== *)
(** * PtInv: what holds of an IO page table between two steps

    The tree of the tables with a map [own] from its pages to their level and
    their place, the translation [abs] that it defines for a device, the counts in
    the entries, the agreement of the memory with what the device reads, and the
    pages that the allocator gave. *)
From stdpp Require Import prelude gmap list.
From S2P Require Import Prelude.
From S2P Require Import Effects.
From S2P Require Import PgAlloc.
From S2P Require Import IoPgtable.
From S2P Require Import PtBits.
#[local] Open Scope kernel_scope.

(** ** What the driver relies on in an allocator *)

Class PageAllocLaws {PA : PageAlloc} (page_shift : Z) := {
  (* a client of the VMID holds these pages; nobody is registered *)
  pa_inv : Z -> gset Z -> pa_state -> Prop;
  pa_idle : Z -> pa_state -> Prop;
  pa_alloc_ok : forall v out st gfp, pa_inv v out st -> gfp_blocking gfp = true \/ v = 0 ->
    exists o z st', pa_alloc v gfp st = Some (o, z, st') /\
    match o with
    | None => pa_inv v out st'
    | Some p => p ∉ out /\ p mod 2 ^ page_shift = 0 /\ 0 < p < 2 ^ 48 /\ (gfp_zero gfp = true -> z = true) /\ pa_inv v ({[p]} ∪ out) st'
    end;
  pa_free_ok : forall v out st p, pa_inv v out st -> p ∈ out -> exists st', pa_free p st = Some st' /\ pa_inv v (out ∖ {[p]}) st';
  pa_register_ok : forall v st, pa_idle v st -> exists r st', pa_register v st = Some (r, st') /\ if r =? 0 then pa_inv v ∅ st' else pa_idle v st';
  pa_unregister_ok : forall v st, pa_inv v ∅ st -> exists st', pa_unregister v st = Some st' /\ pa_idle v st';
}.

(** ** Places in a table *)

Section Geometry.
Context (d : arm_lpae_io_pgtable) (HG : geo_ok d).

Definition sh (l : Z) : Z := ARM_LPAE_LVL_SHIFT l d.

Definition nbits (l : Z) : Z := if l =? start_level d then pgd_bits d else bits_per_level d.

(** The part of an address that the table translates. *)
Definition canon (iova : Z) : Z := iova mod 2 ^ ias (cfg d).

(** The number of the entry of a level for an address, of its table, and its index
    there. *)
Definition slot (l v : Z) : Z := v / 2 ^ sh l.

Definition pslot (l v : Z) : Z := slot l v / 2 ^ nbits l.

Definition idx (l v : Z) : Z := slot l v mod 2 ^ nbits l.

Lemma sh_succ l : sh l = sh (l + 1) + bits_per_level d.
Proof. unfold sh, ARM_LPAE_LVL_SHIFT. lia. Qed.

Lemma sh_pos l : l <= 3 -> 12 <= sh l.
Proof. apply shift_pos. exact HG. Qed.

Lemma sh_3 : sh 3 = bits_per_level d + 3.
Proof. unfold sh, ARM_LPAE_LVL_SHIFT, ARM_LPAE_MAX_LEVELS. lia. Qed.

Lemma nbits_pos l : 1 <= nbits l.
Proof. unfold nbits. pose proof (go_pgd d HG). pose proof (bpl_pos d HG). destruct (_ =? _); lia. Qed.

Lemma nbits_le l : nbits l <= bits_per_level d.
Proof. unfold nbits. pose proof (go_pgd d HG). destruct (_ =? _); lia. Qed.

Lemma nbits_below l : start_level d < l -> nbits l = bits_per_level d.
Proof. intros H. unfold nbits. by rewrite (proj2 (Z.eqb_neq l (start_level d))) by lia. Qed.

Lemma slot_split l v : slot l v = pslot l v * 2 ^ nbits l + idx l v.
Proof. unfold pslot, idx. pose proof (nbits_pos l). pose proof (Z.div_mod (slot l v) (2 ^ nbits l)). lia. Qed.

Lemma idx_range l v : 0 <= idx l v < 2 ^ nbits l.
Proof. unfold idx. apply Z.mod_pos_bound. pose proof (nbits_pos l). lia. Qed.

Lemma pslot_succ l v : start_level d <= l -> l < 3 -> pslot (l + 1) v = slot l v.
Proof.
  intros Hs Hl. unfold pslot, slot. rewrite nbits_below by lia. rewrite Z.div_div by (pose proof (sh_pos (l + 1)); pose proof (bpl_pos d HG); lia).
  rewrite <- Z.pow_add_r by (pose proof (sh_pos (l + 1)); pose proof (bpl_pos d HG); lia). by rewrite <- sh_succ.
Qed.

Lemma pslot_root v : 0 <= v < 2 ^ ias (cfg d) -> pslot (start_level d) v = 0.
Proof.
  intros Hv. unfold pslot, slot, nbits. rewrite Z.eqb_refl. pose proof (go_start d HG) as Hs. pose proof (go_pgd d HG). pose proof (sh_pos (start_level d)).
  rewrite Z.div_div by lia. rewrite <- Z.pow_add_r by lia. apply Z.div_small.
  rewrite (go_ias d HG) in Hv. exact Hv.
Qed.

Lemma place_inj b k k' i i' : 0 <= i < b -> 0 <= i' < b -> k * b + i = k' * b + i' -> k = k' /\ i = i'.
Proof. intros Hi Hi' E. apply (Z.div_mod_unique b k k' i i'); lia. Qed.

Lemma ias_sh l : start_level d <= l -> l <= 3 -> sh l <= ias (cfg d).
Proof.
  intros Hs Hl. rewrite (go_ias d HG). pose proof (go_pgd d HG). pose proof (bpl_pos d HG). unfold sh, ARM_LPAE_LVL_SHIFT, ARM_LPAE_MAX_LEVELS. nia.
Qed.

(** The index that the code computes. *)
Lemma lvl_idx iova l : start_level d <= l -> l <= 3 -> ARM_LPAE_LVL_IDX iova l d = idx l (canon iova).
Proof.
  intros Hs Hl. unfold ARM_LPAE_LVL_IDX, idx, slot, canon. fold (sh l). pose proof (sh_pos l Hl). pose proof (nbits_pos l). pose proof (go_ias52 d HG).
  assert (bits_per_level d + ARM_LPAE_PGD_IDX l d = nbits l) as -> by (unfold ARM_LPAE_PGD_IDX, nbits; destruct (_ =? _); lia).
  assert (sh l + nbits l <= ias (cfg d)) as Hle.
  { unfold nbits. destruct (Z.eqb_spec l (start_level d)) as [->|Hn]; [by rewrite (go_ias d HG)|].
    transitivity (sh (l - 1)); [|apply ias_sh; lia]. rewrite (sh_succ (l - 1)). replace (l - 1 + 1) with l by lia. lia. }
  assert (Z.shiftl 1 (nbits l) - 1 = Z.ones (nbits l)) as -> by (rewrite Z.ones_equiv, Z.shiftl_1_l; lia).
  rewrite Z.land_ones by lia. apply Z.bits_inj'. intros i Hi. unfold u64.
  rewrite !testbit_mod, Z.shiftr_spec, testbit_div, !testbit_mod by lia. destruct (Z.ltb_spec i (nbits l)); [|done].
  by rewrite !(proj2 (Z.ltb_lt _ _)) by lia.
Qed.

Lemma block_size l : ARM_LPAE_BLOCK_SIZE l d = 2 ^ sh l.
Proof. unfold ARM_LPAE_BLOCK_SIZE. by rewrite Z.shiftl_1_l. Qed.

Lemma ptes_per_table : ARM_LPAE_PTES_PER_TABLE d = 2 ^ bits_per_level d.
Proof.
  unfold ARM_LPAE_PTES_PER_TABLE, ARM_LPAE_GRANULE. rewrite Z.shiftr_div_pow2, Z.shiftl_mul_pow2 by (pose proof (bpl_pos d HG); lia).
  rewrite Z.mul_comm. by apply Z.div_mul.
Qed.

Lemma canon_range iova : 0 <= canon iova < 2 ^ ias (cfg d).
Proof. apply Z.mod_pos_bound. pose proof (go_pgd d HG). pose proof (sh_pos (start_level d)). pose proof (go_start d HG). rewrite (go_ias d HG).
fold (sh (start_level d)). lia. Qed.
End Geometry.

(** ** Trees of tables *)

Section Tree.
Context (d : arm_lpae_io_pgtable) (HG : geo_ok d).

Abbreviation memory := (gmap Z (Z -> Z)).

(** The level of the table of a page, and its number among those of the level. *)
Abbreviation owner := (gmap Z (Z * Z)).

(** An entry at a place: empty, for a block of memory, or for a table. *)
Definition plain (l e : Z) : Prop := e = 0 \/ exists pa prot, e = leaf_pte d pa prot l /\ pa_ok d l pa /\ prot_ok prot.

Definition entry_ok (own : owner) (l n e : Z) : Prop :=
  plain l e \/ (l < 3 /\ exists page, is_table d e page /\ own !! page = Some (l + 1, n)).

Record tree (m : memory) (own : owner) : Prop := {
  tr_root : own !! pgd d = Some (start_level d, 0);
  tr_mem : forall T l k, own !! T = Some (l, k) -> is_Some (m !! T);
  tr_page : forall T l k, own !! T = Some (l, k) -> page_ok d T;
  tr_level : forall T l k, own !! T = Some (l, k) -> start_level d <= l <= 3 /\ (l = start_level d -> T = pgd d /\ k = 0);
  tr_entry : forall T l k t i, own !! T = Some (l, k) -> m !! T = Some t -> 0 <= i < 2 ^ nbits d l -> entry_ok own l (k * 2 ^ nbits d l + i) (t i);
  tr_parent : forall C l k, own !! C = Some (l, k) -> start_level d < l ->
    exists P t, own !! P = Some (l - 1, k / 2 ^ nbits d (l - 1)) /\ m !! P = Some t /\ is_table d (t (k mod 2 ^ nbits d (l - 1))) C;
}.

(** The translation of an address: the address of memory and the protection. *)
Definition leaf_abs (l e v : Z) : Z * Z := (iopte_to_paddr e d + v mod 2 ^ sh d l, iopte_prot e).

(** What the leaf for an address gives; its level and its entry are known. *)
Fixpoint walk {A : Type} (f : Z -> Z -> Z -> A) (m : memory) (n : nat) (l T v : Z) : option A :=
  match n with
  | O => None
  | S n' =>
      match m !! T with
      | None => None
      | Some t =>
          let e := t (idx d l v) in
          if e =? 0 then None
          else if iopte_leaf e l (fmt d) then Some (f l e v)
          else walk f m n' (l + 1) (iopte_deref e d) v
      end
  end.

Definition find {A : Type} (f : Z -> Z -> Z -> A) (m : memory) (v : Z) : option A := walk f m (Z.to_nat (4 - start_level d)) (start_level d) (pgd d) v.

Definition abs (m : memory) (v : Z) : option (Z * Z) := find leaf_abs m v.

(** The level of the leaf. *)
Definition leaf_level (m : memory) (v : Z) : option Z := find (fun l _ _ => l) m v.

(** A table has one place. *)
Lemma own_inj m own : tree m own -> forall l T T' k, own !! T = Some (l, k) -> own !! T' = Some (l, k) -> T = T'.
Proof.
  intros HT. assert (forall n l T T' k, l = start_level d + Z.of_nat n -> own !! T = Some (l, k) -> own !! T' = Some (l, k) -> T = T') as H.
  - induction n as [|n IH]; intros l T T' k -> H1 H2.
    + destruct (tr_level _ _ HT _ _ _ H1) as [_ [-> _]]; [lia|]. by destruct (tr_level _ _ HT _ _ _ H2) as [_ [-> _]]; [lia|].
    + destruct (tr_parent _ _ HT _ _ _ H1) as (P & t & P1 & P2 & P3); [lia|]. destruct (tr_parent _ _ HT _ _ _ H2) as (P' & t' & Q1 & Q2 & Q3); [lia|].
      assert (P = P') as <- by (eapply (IH _ P P'); [|exact P1|exact Q1]; lia). rewrite P2 in Q2. injection Q2 as <-. by apply (table_inj d _ _ _ P3 Q3).
  - intros l T T' k H1 H2. apply (H (Z.to_nat (l - start_level d)) l T T' k); [|done|done].
    destruct (tr_level _ _ HT _ _ _ H1). lia.
Qed.

(** The walk to a table that covers the address. *)
Lemma find_from {A : Type} (f : Z -> Z -> Z -> A) m own v : tree m own -> 0 <= v < 2 ^ ias (cfg d) -> forall l T, own !! T = Some (l, pslot d l v) ->
  find f m v = walk f m (Z.to_nat (4 - l)) l T v.
Proof.
  intros HT Hv. assert (forall n l T, l = start_level d + Z.of_nat n -> own !! T = Some (l, pslot d l v) ->
    find f m v = walk f m (Z.to_nat (4 - l)) l T v) as H.
  - induction n as [|n IH]; intros l T -> Ho.
    + rewrite Z.add_0_r in *. destruct (tr_level _ _ HT _ _ _ Ho) as [_ [-> _]]; done.
    + destruct (tr_level _ _ HT _ _ _ Ho) as [Hl _]. destruct (tr_parent _ _ HT _ _ _ Ho) as (P & t & P1 & P2 & P3); [lia|].
      set (l := start_level d + Z.of_nat n). replace (start_level d + Z.of_nat (S n)) with (l + 1) in * by lia. replace (l + 1 - 1) with l in * by lia.
      rewrite pslot_succ in P1, P3 by (done || lia). fold (pslot d l v) in P1. fold (idx d l v) in P3.
      rewrite (IH l P) by done. replace (Z.to_nat (4 - l)) with (S (Z.to_nat (4 - (l + 1)))) by lia. cbn [walk]. rewrite P2.
      rewrite (proj2 (Z.eqb_neq _ 0)) by (by eapply table_nonzero). rewrite (table_not_leaf d HG _ T) by (done || lia). by destruct P3 as [_ ->].
  - intros l T Ho. apply (H (Z.to_nat (l - start_level d))); [|done]. destruct (tr_level _ _ HT _ _ _ Ho). lia.
Qed.

Lemma walk_level m own T l k : tree m own -> own !! T = Some (l, k) -> Z.to_nat (4 - l) = S (Z.to_nat (4 - (l + 1))) /\ l <= 3.
Proof. intros HT Ho. destruct (tr_level _ _ HT _ _ _ Ho). lia. Qed.

(** What the entry of a table for an address says. *)
Lemma abs_empty m own v l T t : tree m own -> 0 <= v < 2 ^ ias (cfg d) -> own !! T = Some (l, pslot d l v) -> m !! T = Some t ->
  t (idx d l v) = 0 -> abs m v = None.
Proof.
  intros HT Hv Ho Hm E. unfold abs. rewrite (find_from _ m own v HT Hv l T Ho). destruct (walk_level m own T l _ HT Ho) as [-> _]. cbn [walk]. by rewrite Hm, E.
Qed.

Lemma abs_leaf m own v l T t pa prot : tree m own -> 0 <= v < 2 ^ ias (cfg d) -> own !! T = Some (l, pslot d l v) -> m !! T = Some t ->
  t (idx d l v) = leaf_pte d pa prot l -> pa_ok d l pa -> prot_ok prot -> abs m v = Some (pa + v mod 2 ^ sh d l, prot).
Proof.
  intros HT Hv Ho Hm E Hpa Hp. unfold abs. rewrite (find_from _ m own v HT Hv l T Ho). destruct (walk_level m own T l _ HT Ho) as [-> Hl]. cbn [walk].
  rewrite Hm, E.
  rewrite (proj2 (Z.eqb_neq _ 0)) by (by apply leaf_nonzero). rewrite leaf_pte_leaf by done. unfold leaf_abs.
  by rewrite leaf_pte_paddr, leaf_pte_prot by done.
Qed.

Lemma level_leaf m own v l T t pa prot : tree m own -> 0 <= v < 2 ^ ias (cfg d) -> own !! T = Some (l, pslot d l v) -> m !! T = Some t ->
  t (idx d l v) = leaf_pte d pa prot l -> prot_ok prot -> leaf_level m v = Some l.
Proof.
  intros HT Hv Ho Hm E Hp. unfold leaf_level. rewrite (find_from _ m own v HT Hv l T Ho). destruct (walk_level m own T l _ HT Ho) as [-> Hl]. cbn [walk].
  rewrite Hm, E.
  rewrite (proj2 (Z.eqb_neq _ 0)) by (by apply leaf_nonzero). by rewrite leaf_pte_leaf.
Qed.

Lemma abs_frame m m' own v : tree m own -> 0 <= v < 2 ^ ias (cfg d) ->
  (forall l T t, own !! T = Some (l, pslot d l v) -> m !! T = Some t -> exists t', m' !! T = Some t' /\ same_entry d l (t (idx d l v)) (t' (idx d l v))) ->
  abs m' v = abs m v.
Proof.
  intros HT Hv H. assert (forall n l T, n = Z.to_nat (4 - l) -> own !! T = Some (l, pslot d l v) -> walk leaf_abs m' n l T v = walk leaf_abs m n l T v) as G.
  - induction n as [|n IH]; [done|]. intros l T Hn Ho. cbn [walk]. destruct (tr_mem _ _ HT _ _ _ Ho) as [t Ht].
    destruct (H l T t Ho Ht) as (t' & Ht' & Hs). rewrite Ht, Ht'. pose proof (tr_level _ _ HT _ _ _ Ho) as [Hl _].
    destruct (tr_entry _ _ HT _ _ _ _ (idx d l v) Ho Ht) as [[E|(pa & prot & E & Hpa & Hp)]|(Hl3 & C & HC & Hown)]; [by apply idx_range| | |].
    + rewrite E in Hs. by rewrite E, (same_entry_0 d l _ Hs).
    + rewrite E in Hs. by rewrite E, (same_entry_leaf d HG l pa prot _ Hp Hs), leaf_pte_leaf.
    + pose proof (same_entry_table d l _ _ C Hs HC) as HC'. rewrite !(proj2 (Z.eqb_neq _ 0)) by (by eapply table_nonzero).
      rewrite !(table_not_leaf d HG _ C) by done. destruct HC as [_ ->], HC' as [_ ->]. apply IH; [lia|].
      rewrite pslot_succ by (done || lia). by rewrite <- slot_split in Hown.
  - unfold abs, find. apply G; [done|]. rewrite pslot_root by done. apply (tr_root _ _ HT).
Qed.
End Tree.
