(* ===== verification/PtTree.v ===== *)
(** * PtTree: how trees of tables change

    Writing entries that mean the same, writing leaf entries, putting a new table
    below an entry, and cutting a table off with all that is below it. *)
From stdpp Require Import prelude gmap list.
From S2P Require Import Prelude.
From S2P Require Import Effects.
From S2P Require Import PgAlloc.
From S2P Require Import IoPgtable.
From S2P Require Import PtBits.
From S2P Require Import PtInv.

Section Change.
Context (d : arm_lpae_io_pgtable) (HG : geo_ok d).

Abbreviation memory := (gmap Z (Z -> Z)).
Abbreviation owner := (gmap Z (Z * Z)).

Lemma plain_0 l : plain d l 0.
Proof. by left. Qed.

Lemma plain_not_table l e page : l < 3 -> plain d l e -> ~ is_table d e page.
Proof.
  intros Hl [->|(pa & prot & -> & _ & Hp)] H; [by apply table_nonzero in H|].
  pose proof (table_not_leaf d HG _ page l Hl H) as E. by rewrite leaf_pte_leaf in E.
Qed.

Lemma same_entry_plain l e e' : plain d l e -> same_entry d l e e' -> e' = e.
Proof. intros [->|(pa & prot & -> & _ & Hp)] H; [by apply same_entry_0 in H|by eapply same_entry_leaf]. Qed.

Lemma same_entry_ok own l n e e' : entry_ok d own l n e -> same_entry d l e e' -> entry_ok d own l n e'.
Proof.
  intros [H|(Hl & page & H1 & H2)] Hs; [left; by rewrite (same_entry_plain l e e')|].
  right. split; [done|]. exists page. split; [by eapply same_entry_table|done].
Qed.

(** The entries of a table mean the same, or are leaf entries before and after. *)
Definition small_change (own : owner) (m m' : memory) : Prop :=
  forall T l k t, own !! T = Some (l, k) -> m !! T = Some t ->
  exists t', m' !! T = Some t' /\ forall i, 0 <= i < 2 ^ nbits d l -> same_entry d l (t i) (t' i) \/ (plain d l (t i) /\ plain d l (t' i)).

Lemma tree_change m m' own : tree d m own -> small_change own m m' -> tree d m' own.
Proof.
  intros HT H. split; try apply HT.
  - intros T l k Ho. destruct (tr_mem _ _ _ HT _ _ _ Ho) as [t Ht]. destruct (H T l k t Ho Ht) as (t' & -> & _). eauto.
  - intros T l k t' i Ho Ht' Hi. destruct (tr_mem _ _ _ HT _ _ _ Ho) as [t Ht]. destruct (H T l k t Ho Ht) as (t2 & E & Hs).
    rewrite Ht' in E. injection E as <-. destruct (Hs i Hi) as [He|[_ He]]; [|by left].
    eapply same_entry_ok; [|exact He]. by apply (tr_entry _ _ _ HT T l k t i Ho Ht Hi).
  - intros C l k Ho Hl. destruct (tr_parent _ _ _ HT _ _ _ Ho Hl) as (P & t & P1 & P2 & P3).
    destruct (H P _ _ t P1 P2) as (t' & E & Hs). exists P, t'. split_and!; [done|done|].
    destruct (tr_level _ _ _ HT _ _ _ Ho) as [Hl3 _].
    destruct (Hs (k mod 2 ^ nbits d (l - 1))) as [He|[He _]]; [|by eapply same_entry_table|exfalso; by apply (plain_not_table (l - 1) _ C ltac:(lia) He)].
    apply Z.mod_pos_bound. pose proof (nbits_pos d HG (l - 1)). lia.
Qed.

(** A new table below an entry. *)
Lemma tree_install m own T l k t t2 i C tc e : (forall j, t2 j = set_entry t i e j) -> tree d m own -> own !! T = Some (l, k) -> m !! T = Some t -> l < 3 ->
  0 <= i < 2 ^ nbits d l ->
  plain d l (t i) -> own !! C = None -> page_ok d C -> m !! C = Some tc -> (forall j, 0 <= j < 2 ^ bits_per_level d -> plain d (l + 1) (tc j)) ->
    is_table d e C ->
  tree d (<[T := t2]> m) (<[C := (l + 1, k * 2 ^ nbits d l + i)]> own).
Proof.
  intros Ht2 HT Ho Ht Hl Hi Hpl HC Hpg Htc Hj He. assert (T <> C) as HTC by congruence. pose proof (tr_level _ _ _ HT _ _ _ Ho) as [Hls _].
  assert (pgd d <> C) as Hroot by (pose proof (tr_root _ _ _ HT); congruence). split.
  - rewrite lookup_insert_ne by done. apply HT.
  - intros T' l' k' [[<- _]|[Hn Ho']]%lookup_insert_Some.
    + rewrite lookup_insert_ne by done. by rewrite Htc.
    + destruct (decide (T = T')) as [<-|Hn']; [rewrite lookup_insert_eq; eauto|rewrite lookup_insert_ne by done; by eapply tr_mem].
  - intros T' l' k' [[<- _]|[Hn Ho']]%lookup_insert_Some; [done|by eapply tr_page].
  - intros T' l' k' [[<- [= <- <-]]|[Hn Ho']]%lookup_insert_Some; [split; lia|by eapply (tr_level _ _ _ HT)].
  - intros T' l' k' t' j [[<- [= <- <-]]|[Hn Ho']]%lookup_insert_Some Ht' Hj'.
    + rewrite lookup_insert_ne, Htc in Ht' by done. injection Ht' as <-. rewrite nbits_below in Hj' by lia. left. by apply Hj.
    + assert (forall e', entry_ok d own l' (k' * 2 ^ nbits d l' + j) e' ->
        entry_ok d (<[C:=(l + 1, k * 2 ^ nbits d l + i)]> own) l' (k' * 2 ^ nbits d l' + j) e') as Hw.
      { intros e' [?|(Hl' & page & H1 & H2)]; [by left|right]. split; [done|]. exists page. split; [done|]. by rewrite lookup_insert_ne by congruence. }
      destruct (decide (T = T')) as [<-|Hn'].
      * rewrite lookup_insert_eq in Ht'. injection Ht' as <-. rewrite Ho in Ho'. injection Ho' as <- <-. rewrite Ht2; unfold set_entry.
        destruct (Z.eqb_spec j i) as [->|Hji].
        -- right. split; [done|]. exists C. split; [done|]. by rewrite lookup_insert_eq.
        -- apply Hw. by apply (tr_entry _ _ _ HT T).
      * rewrite lookup_insert_ne in Ht' by done. apply Hw. by apply (tr_entry _ _ _ HT T').
  - intros C' l' k' [[<- [= <- <-]]|[Hn Ho']]%lookup_insert_Some Hl'.
    + exists T, t2. pose proof (nbits_pos d HG l). replace (l + 1 - 1) with l by lia.
      rewrite Z.div_add_l, (Z.div_small i) by lia. rewrite Z.add_0_r. split; [by rewrite lookup_insert_ne by done|]. split; [by rewrite lookup_insert_eq|].
      rewrite Z.add_comm, Z.mod_add by lia. rewrite Z.mod_small by done. rewrite Ht2; unfold set_entry. by rewrite Z.eqb_refl.
    + destruct (tr_parent _ _ _ HT _ _ _ Ho' Hl') as (P & tp & P1 & P2 & P3). destruct (tr_level _ _ _ HT _ _ _ Ho') as [Hl3 _].
      destruct (decide (T = P)) as [<-|Hn'].
      * rewrite Ht in P2. injection P2 as <-. exists T, t2. split; [by rewrite lookup_insert_ne by done|]. split; [by rewrite lookup_insert_eq|].
        rewrite Ht2; unfold set_entry. destruct (Z.eqb_spec (k' mod 2 ^ nbits d (l' - 1)) i) as [Ei|]; [|done]. rewrite Ei in P3.
        by destruct (plain_not_table l _ C' Hl Hpl).
      * exists P, tp. rewrite !lookup_insert_ne by congruence. done.
Qed.

(** The pages below a page, with itself. *)
Inductive desc (own : owner) (C : Z) : Z -> Prop :=
| desc_refl : desc own C C
| desc_child P l k p k' : desc own C P -> own !! P = Some (l, k) -> own !! p = Some (l + 1, k') -> k' / 2 ^ nbits d l = k -> desc own C p.

Lemma desc_level own C p lc kc : own !! C = Some (lc, kc) -> desc own C p -> p = C \/ exists l k, own !! p = Some (l, k) /\ lc < l.
Proof.
  intros HC. induction 1 as [|P l k p k' H IH Ho Hp Hk]; [by left|right]. exists (l + 1), k'. split; [done|].
  destruct IH as [->|(l' & k2 & E & Hl)]; simplify_eq; lia.
Qed.

Lemma desc_owned own C p lc kc : own !! C = Some (lc, kc) -> desc own C p -> exists l k, own !! p = Some (l, k) /\ lc <= l.
Proof. intros HC H. destruct (desc_level own C p lc kc HC H) as [->|(l & k & E & Hl)]; [exists lc, kc|exists l, k]; (split; [done|lia]). Qed.

Lemma desc_inj m own C C' p l k k' : tree d m own -> own !! C = Some (l, k) -> own !! C' = Some (l, k') -> desc own C p -> desc own C' p -> C = C'.
Proof.
  intros HT HC HC' H H'. induction H as [|P l1 k1 p k1' H IH Ho Hp Hk].
  - destruct (desc_level own C' C l k' HC' H') as [->|(l2 & k2 & E & Hl)]; [done|]. simplify_eq. lia.
  - inversion H' as [|P2 l2 k2 p2 k2' H2 Ho2 Hp2 Hk2]; subst.
    + destruct (desc_owned own C P l k HC H) as (l3 & k3 & E & Hl). simplify_eq. lia.
    + rewrite Hp in Hp2. injection Hp2 as El <-. assert (l2 = l1) as -> by lia. apply IH.
      by rewrite (own_inj d m own HT l1 P P2 (k1' / 2 ^ nbits d l1)).
Qed.

Definition cut (own : owner) (L : list Z) : owner := filter (fun pk => fst pk ∉ L) own.

Lemma cut_some own L p lk : cut own L !! p = Some lk <-> own !! p = Some lk /\ p ∉ L.
Proof. unfold cut. by rewrite map_lookup_filter_Some. Qed.

(** A table is cut off. *)
Lemma tree_cut m m' own T l k t t2 i C L : (forall j, t2 j = set_entry t i 0 j) -> tree d m own -> own !! T = Some (l, k) -> m !! T = Some t -> l < 3 ->
  0 <= i < 2 ^ nbits d l ->
  is_table d (t i) C -> (forall p, p ∈ L <-> desc own C p) ->
  (forall p, is_Some (cut own L !! p) -> m' !! p = if p =? T then Some t2 else m !! p) ->
  tree d m' (cut own L).
Proof.
  intros Ht2 HT Ho Ht Hl Hi HC HL Hm. pose proof (tr_level _ _ _ HT _ _ _ Ho) as [Hls _]. pose proof (nbits_pos d HG l) as Hnb.
  assert (own !! C = Some (l + 1, k * 2 ^ nbits d l + i)) as HoC.
  { destruct (tr_entry _ _ _ HT T l k t i Ho Ht Hi) as [Hp|(_ & page & H1 & H2)]; [by apply (plain_not_table l _ C Hl) in Hp|].
    by rewrite (table_inj d _ _ _ HC H1). }
  assert (forall p lk, cut own L !! p = Some lk -> m' !! p = if p =? T then Some t2 else m !! p) as Hm' by (intros; apply Hm; eauto).
  split.
  - apply cut_some. split; [apply HT|]. intros Hin%HL. destruct (desc_owned own C _ _ _ HoC Hin) as (l' & k' & E & Hl').
    rewrite (tr_root _ _ _ HT) in E. injection E as <- <-. lia.
  - intros p l' k' Hp. rewrite (Hm' p _ Hp). apply cut_some in Hp as [Hp _]. destruct (p =? T); [eauto|by eapply tr_mem].
  - intros p l' k' [Hp _]%cut_some. by eapply tr_page.
  - intros p l' k' [Hp _]%cut_some. by eapply (tr_level _ _ _ HT).
  - intros T' l' k' t' j Hp Ht' Hj. pose proof Hp as [Ho' HnL]%cut_some. rewrite (Hm' T' _ Hp) in Ht'.
    assert (forall e, entry_ok d own l' (k' * 2 ^ nbits d l' + j) e -> (T' = T -> j = i -> plain d l e) ->
      entry_ok d (cut own L) l' (k' * 2 ^ nbits d l' + j) e) as Hw.
    { intros e [?|(Hl' & page & H1 & H2)] Hne; [by left|right]. split; [done|]. exists page. split; [done|]. apply cut_some. split; [done|].
      intros Hin%HL. pose proof (nbits_pos d HG l'). inversion Hin as [E|P l2 k2 p2 k2' H3 H4 H5 H6]; subst.
      - rewrite HoC in H2. injection H2 as El Ek. assert (l' = l) as -> by lia. destruct (place_inj _ _ _ _ _ Hj Hi (eq_sym Ek)) as [-> ->].
        rewrite (own_inj d m own HT l T' T k Ho' Ho) in *. by apply (plain_not_table l e page Hl (Hne eq_refl eq_refl)).
      - rewrite H2 in H5. injection H5 as El <-. assert (l2 = l') as -> by lia. apply HnL, HL.
        rewrite Z.div_add_l, (Z.div_small j), Z.add_0_r in H4 by lia. by rewrite (own_inj d m own HT l' T' P k' Ho' H4). }
    destruct (Z.eqb_spec T' T) as [->|HTT].
    + rewrite Ho in Ho'. injection Ho' as <- <-. injection Ht' as <-. rewrite Ht2; unfold set_entry. destruct (Z.eqb_spec j i) as [->|Hji].
      * left. apply plain_0.
      * apply Hw; [by apply (tr_entry _ _ _ HT T)|by intros _ ?].
    + apply Hw; [by apply (tr_entry _ _ _ HT T')|by intros ?].
  - intros C' l' k' [Ho' HnL]%cut_some Hl'. destruct (tr_parent _ _ _ HT _ _ _ Ho' Hl') as (P & tp & P1 & P2 & P3).
    assert (P ∉ L) as HP.
    { intros Hin%HL. apply HnL, HL. apply (desc_child own C P (l' - 1) (k' / 2 ^ nbits d (l' - 1)) C' k');
        [done|done|by replace (l' - 1 + 1) with l' by lia|done]. }
    assert (cut own L !! P = Some (l' - 1, k' / 2 ^ nbits d (l' - 1))) as HPc by (by apply cut_some). pose proof (Hm' _ _ HPc) as HmP.
    destruct (Z.eqb_spec P T) as [->|HPT]; [|exists P, tp; by rewrite HmP].
    exists T, t2. split; [done|]. split; [done|]. rewrite Ht2; unfold set_entry. destruct (Z.eqb_spec (k' mod 2 ^ nbits d (l' - 1)) i) as [Ei|].
    + rewrite Ht in P2. injection P2 as <-. rewrite Ei in P3. destruct HnL. rewrite (table_inj d _ _ _ P3 HC). apply HL, desc_refl.
    + rewrite Ht in P2. by injection P2 as <-.
Qed.
End Change.
