(* ===== verification/PtState.v ===== *)
(** * PtState: the invariant of a table and the steps of the driver on it

    [inv] relates the tree of PtInv.v to the memory, the view of the device, the
    allocator and the pages that wait for a flush; then what the small steps of
    IoPgtable.v do: reading and writing entries, allocating, freeing, flushing. *)
From stdpp Require Import prelude gmap list.
From S2P Require Import Prelude.
From S2P Require Import Effects.
From S2P Require Import PgAlloc.
From S2P Require Import IoPgtable.
From S2P Require Import PtBits.
From S2P Require Import PtInv.
From S2P Require Import PtTree.
#[local] Open Scope kernel_scope.

Section PtState.
Context {PA : PageAlloc} (env : pg_env) {PL : PageAllocLaws (pe_page_shift env)}.
Context (d : arm_lpae_io_pgtable) (HG : geo_ok d).

(** The pages of the system are large enough, the contiguous hint is off, and the
    allocator may wait for a page that it must share with another machine. *)
Record env_ok : Prop := {
  eo_shift : bits_per_level d + 3 <= pe_page_shift env;
  eo_hint : pe_contig_hint env = false;
}.

Context (HE : env_ok).

Abbreviation owner := (gmap Z (Z * Z)).
Abbreviation St := (world pgt).

(** How many entries of a table are in use. *)
Definition nvalid (t : Z -> Z) : Z := Z.of_nat (length (filter (fun i => t i <> 0) (upto (2 ^ bits_per_level d)))).

Definition counts_ok (m : gmap Z (Z -> Z)) (own : owner) : Prop :=
  forall P k t i C tc, own !! P = Some (2, k) -> m !! P = Some t -> 0 <= i < 2 ^ nbits d 2 -> is_table d (t i) C -> m !! C = Some tc ->
  iopte_tblcnt (t i) = nvalid tc mod 2 ^ 13.

(** The device reads entries that mean the same, but for those of [pend]. *)
Definition dev_ok (m dev : gmap Z (Z -> Z)) (own : owner) (pend : Z -> Z -> Prop) : Prop :=
  forall T l k t, own !! T = Some (l, k) -> m !! T = Some t ->
  exists t', dev !! T = Some t' /\ forall i, 0 <= i < 2 ^ nbits d l -> ~ pend T i -> same_entry d l (t i) (t' i).

Definition no_pend : Z -> Z -> Prop := fun _ _ => False.

(** [mine] are pages that a running function has and that are in no table. *)
Record inv (own : owner) (mine : gset Z) (pend : Z -> Z -> Prop) (q : pgt) : Prop := {
  in_tree : tree d (q_mem q) own;
  in_cnt : counts_ok (q_mem q) own;
  in_dev : coherent_walk (cfg d) = false -> dev_ok (q_mem q) (q_dev q) own pend;
  in_dom : forall p, is_Some (q_mem q !! p) <-> is_Some (own !! p) \/ p ∈ freelist q \/ p ∈ mine;
  in_devdom : forall p, is_Some (q_dev q !! p) <-> is_Some (q_mem q !! p);
  in_free : NoDup (freelist q);
  in_disj : forall p, (p ∈ freelist q \/ p ∈ mine -> own !! p = None) /\ (p ∈ freelist q -> p ∉ mine);
  in_al : pa_inv (vmid d) (dom (q_mem q)) (q_al q);
  in_cached : forall p, p ∈ q_cached q -> is_Some (own !! p) \/ p ∈ freelist q;
}.

(** ** Reading and writing *)

Lemma entries_fit i : 0 <= i < 2 ^ bits_per_level d -> (0 <=? i) && (i <? n_entries env) = true.
Proof.
  intros Hi. unfold n_entries. pose proof (eo_shift HE). pose proof (bpl_pos d HG).
  assert (2 ^ bits_per_level d <= 2 ^ (pe_page_shift env - 3)) by (apply Z.pow_le_mono_r; lia). lia.
Qed.

Lemma entries_nbits l i : 0 <= i < 2 ^ nbits d l -> 0 <= i < 2 ^ bits_per_level d.
Proof.
  intros Hi. pose proof (nbits_le d HG l). pose proof (nbits_pos d HG l).
  assert (2 ^ nbits d l <= 2 ^ bits_per_level d) by (apply Z.pow_le_mono_r; lia). lia.
Qed.

Lemma run_read {B} T i t (k : Z -> M pgt B) q s : q_mem q !! T = Some t -> 0 <= i < 2 ^ bits_per_level d ->
  mbnd (read_pte env (T, i)) k (mk_world q s) = k (t i) (mk_world q s).
Proof. intros Ht Hi. unfold read_pte. rewrite run_assoc, run_gets. cbn [fst snd w_st]. rewrite Ht, run_assoc, run_or_fault, entries_fit by done. done. Qed.

Lemma run_write {B} T i v t (k : unit -> M pgt B) q s : q_mem q !! T = Some t -> 0 <= i < 2 ^ bits_per_level d ->
  mbnd (write_pte env (T, i) v) k (mk_world q s) = k tt (mk_world (q <| q_mem := <[T := set_entry t i v]> (q_mem q) |>) s).
Proof. intros Ht Hi. unfold write_pte. rewrite run_assoc, run_gets. cbn [fst snd w_st]. rewrite Ht, run_assoc, run_or_fault, entries_fit by done. done. Qed.

Lemma run_sync {B} T i n t (k : unit -> M pgt B) q s : q_mem q !! T = Some t ->
  mbnd (__arm_lpae_sync_pte (T, i) n) k (mk_world q s) = k tt (mk_world (q <| q_dev := alter (copy_entries i n t) T (q_dev q) |>) s).
Proof. intros Ht. unfold __arm_lpae_sync_pte. rewrite run_assoc, run_gets. cbn [fst snd w_st]. rewrite Ht, run_assoc, run_or_fault. done. Qed.

Lemma run_lock {B} (k : unit -> M pgt B) q s : q_lock q = false -> mbnd lock_table k (mk_world q s) = k tt (mk_world (q <| q_lock := true |>) s).
Proof. intros E. unfold lock_table. rewrite run_assoc. unfold mbnd at 1, wait_until. cbn [w_st w_sched]. destruct s; cbn; by rewrite E. Qed.

Lemma run_unlock {B} (k : unit -> M pgt B) q s : mbnd unlock_table k (mk_world q s) = k tt (mk_world (q <| q_lock := false |>) s).
Proof. done. Qed.

(** The entries of a table, some of them written. *)
Definition range_set (t t' : Z -> Z) (i n : Z) (g : Z -> Z) : Prop := forall j, t' j = if (i <=? j) && (j <? i + n) then g (j - i) else t j.

Lemma seqZ_cons_0 m n : 0 < n -> seqZ m n = m :: seqZ (m + 1) (n - 1).
Proof. intros H. by rewrite seqZ_cons by done. Qed.

Lemma run_writes T i g : forall n a t q s, q_mem q !! T = Some t -> 0 <= i -> 0 <= a -> i + a + Z.of_nat n <= 2 ^ bits_per_level d ->
  sure (for_each (seqZ a (Z.of_nat n)) (fun j => write_pte env (ptr_add (T, i) j) (g j)) (mk_world q s))
    (fun _ w => exists t', w = mk_world (q <| q_mem := <[T := t']> (q_mem q) |>) s /\
      forall j, t' j = if (i + a <=? j) && (j <? i + a + Z.of_nat n) then g (j - i) else t j).
Proof.
  induction n as [|n IH]; intros a t q s Ht Hi Ha Hn.
  - cbn. exists t. split; [by rewrite insert_id by done; destruct q|]. intros j. by case_index.
  - rewrite seqZ_cons_0 by lia. replace (Z.of_nat (S n) - 1) with (Z.of_nat n) by lia. cbn [for_each]. unfold ptr_add at 1. cbn [fst snd].
    rewrite (run_write T (i + a) _ t) by (done || lia). eapply sure_mono; [apply (IH (a + 1) (set_entry t (i + a) (g a))); [apply lookup_insert_eq|lia..]|].
    intros r w (t' & -> & H). exists t'. cbn. rewrite insert_insert_eq. split; [done|]. intros j. rewrite H. unfold set_entry. case_index.
    subst j. by replace (i + a - i) with a by lia.
Qed.

Lemma run_range {B} T i n g t (k : unit -> M pgt B) q s Q : q_mem q !! T = Some t -> 0 <= i -> 0 <= n -> i + n <= 2 ^ bits_per_level d ->
  (forall t', range_set t t' i n g -> sure (k tt (mk_world (q <| q_mem := <[T := t']> (q_mem q) |>) s)) Q) ->
  sure (mbnd (for_each (upto n) (fun j => write_pte env (ptr_add (T, i) j) (g j))) k (mk_world q s)) Q.
Proof.
  intros Ht Hi Hn Hle Hk. pose proof (run_writes T i g (Z.to_nat n) 0 t q s Ht Hi ltac:(done) ltac:(lia)) as H.
  rewrite Z2Nat.id in H by done. unfold upto. eapply sure_step; [exact H|].
  intros [] w (t' & -> & Hj). apply Hk. intros j. rewrite Hj. by rewrite !Z.add_0_r.
Qed.

(** ** Pages *)

Lemma run_free_page {B} own mine pend q s p (k : unit -> M pgt B) : inv own mine pend q -> p ∈ mine ->
  exists q', mbnd (qcom_io_pgtable_free p) k (mk_world q s) = k tt (mk_world q' s) /\ inv own (mine ∖ {[p]}) pend q' /\
    exists st', q' = q <| q_al := st' |> <| q_mem := delete p (q_mem q) |> <| q_dev := delete p (q_dev q) |>.
Proof.
  intros HI Hp. assert (is_Some (q_mem q !! p)) as Hd by (apply (in_dom _ _ _ _ HI); by right; right).
  destruct (pa_free_ok (vmid d) (dom (q_mem q)) (q_al q) p (in_al _ _ _ _ HI)) as (st' & E & Hinv); [by apply elem_of_dom|].
  unfold qcom_io_pgtable_free. rewrite run_assoc, run_gets. cbn [w_st]. rewrite E, run_assoc, run_or_fault, run_modify.
  assert (own !! p = None) as Hop by (apply (in_disj _ _ _ _ HI); by right).
  assert (p ∉ freelist q) as Hfp by (intros ?; by apply (in_disj _ _ _ _ HI p)).
  eexists. split; [done|]. split; [|by exists st'].
  assert (small_change d own (q_mem q) (delete p (q_mem q))) as Hsame.
  { intros T l k' t Ho Ht. exists t. rewrite lookup_delete_ne by congruence. split; [done|]. intros i Hi. left. apply same_entry_refl. }
  split; cbn.
  - eapply tree_change; [done|apply HI|done].
  - intros P k' t i C tc Ho Ht Hi HC Htc. apply lookup_delete_Some in Ht as [_ Ht]. apply lookup_delete_Some in Htc as [_ Htc].
    by apply (in_cnt _ _ _ _ HI P k' t i C tc).
  - intros Hc T l k' t Ho Ht. apply lookup_delete_Some in Ht as [Hn Ht]. destruct (in_dev _ _ _ _ HI Hc T l k' t Ho Ht) as (t' & Ht' & Hs).
    exists t'. by rewrite lookup_delete_ne.
  - intros x. destruct (decide (x = p)) as [->|Hx].
    + rewrite lookup_delete_eq. split; [by intros []|]. intros [H|[H|H]]; [by rewrite Hop in H; destruct H|done|set_solver].
    + rewrite lookup_delete_ne by done. rewrite (in_dom _ _ _ _ HI x). set_solver.
  - intros x. destruct (decide (x = p)) as [->|Hx]; [by rewrite !lookup_delete_eq|]. rewrite !lookup_delete_ne by done. apply (in_devdom _ _ _ _ HI).
  - apply HI.
  - intros x. destruct (in_disj _ _ _ _ HI x) as [H1 H2]. set_solver.
  - by rewrite dom_delete_L.
  - apply HI.
Qed.

(** The pages other than some keep their contents. *)
Definition keeps_but (X : gset Z) (q q' : pgt) : Prop := forall x, x ∉ X -> q_mem q' !! x = q_mem q !! x /\ q_dev q' !! x = q_dev q !! x.

Lemma keeps_but_refl X q : keeps_but X q q.
Proof. done. Qed.

Lemma keeps_but_trans X q1 q2 q3 : keeps_but X q1 q2 -> keeps_but X q2 q3 -> keeps_but X q1 q3.
Proof. intros H1 H2 x Hx. destruct (H1 x Hx) as [<- <-]. by apply H2. Qed.

Lemma keeps_but_mono X Y q q' : X ⊆ Y -> keeps_but X q q' -> keeps_but Y q q'.
Proof. intros H H1 x Hx. apply H1. set_solver. Qed.

Lemma add_page_inv own mine pend q st' p t : inv own mine pend q -> q_mem q !! p = None -> pa_inv (vmid d) ({[p]} ∪ dom (q_mem q)) st' ->
  inv own ({[p]} ∪ mine) pend (q <| q_al := st' |> <| q_mem := <[p := t]> (q_mem q) |> <| q_dev := <[p := t]> (q_dev q) |>).
Proof.
  intros HI Hp Hal. assert (own !! p = None /\ p ∉ freelist q /\ p ∉ mine) as (Hop & Hfp & Hmp).
  { assert (~ is_Some (q_mem q !! p)) as H by (rewrite Hp; by intros []). rewrite (in_dom _ _ _ _ HI) in H.
    split_and!; [|tauto|tauto]. destruct (own !! p); [|done]. by destruct H; left. }
  split; cbn; try apply HI.
  - eapply tree_change; [done|apply HI|]. intros T l k' t' Ho Ht. exists t'. rewrite lookup_insert_ne by congruence. split; [done|]. intros i Hi. left.
    apply same_entry_refl.
  - intros P k' t' i C tc Ho Ht Hi HC Htc. rewrite lookup_insert_ne in Ht by congruence.
    rewrite lookup_insert_ne in Htc; [by apply (in_cnt _ _ _ _ HI P k' t' i C tc)|].
    intros <-. destruct (tr_entry _ _ _ (in_tree _ _ _ _ HI) P 2 k' t' i Ho Ht Hi) as [Hpl|(_ & page & H1 & H2)];
      [by apply (plain_not_table d HG 2 _ p) in Hpl|].
    rewrite (table_inj d _ _ _ HC H1) in Hop. congruence.
  - intros Hc T l k' t' Ho Ht. rewrite lookup_insert_ne in Ht by congruence. rewrite lookup_insert_ne by congruence. by apply (in_dev _ _ _ _ HI Hc T l k').
  - intros x. destruct (decide (x = p)) as [->|Hx]; [rewrite lookup_insert_eq; split; [intros _; right; right; set_solver|eauto]|].
    rewrite lookup_insert_ne by done. rewrite (in_dom _ _ _ _ HI x). set_solver.
  - intros x. destruct (decide (x = p)) as [->|Hx]; [by rewrite !lookup_insert_eq|]. rewrite !lookup_insert_ne by done. apply (in_devdom _ _ _ _ HI).
  - intros x. destruct (in_disj _ _ _ _ HI x) as [H1 H2]. split; [|set_solver].
    intros [?|[->%elem_of_singleton|?]%elem_of_union]; [by apply H1; left|done|by apply H1; right].
  - by rewrite dom_insert_L.
Qed.

Definition alloc_post (own : owner) (mine : gset Z) (pend : Z -> Z -> Prop) (q : pgt) (s : list (pgt -> pgt)) (o : option Z) (w : St) : Prop :=
  exists q', w = mk_world q' s /\ q_lock q' = q_lock q /\
  match o with
  | None => inv own mine pend q' /\ keeps_but ∅ q q'
  | Some p => inv own ({[p]} ∪ mine) pend q' /\ keeps_but {[p]} q q' /\ q_mem q !! p = None /\ page_ok d p /\
      (exists t, q_mem q' !! p = Some t /\ q_dev q' !! p = Some t /\ forall i, t i = 0)
  end.

Lemma alloc_pages_sure own mine pend q s size gfp : inv own mine pend q -> gfp_blocking gfp = true \/ vmid d = 0 ->
  sure (__arm_lpae_alloc_pages env d size gfp (mk_world q s)) (alloc_post own mine pend q s).
Proof.
  intros HI Hg. unfold __arm_lpae_alloc_pages. rewrite run_gets. cbn [w_st].
  destruct (pa_alloc_ok (vmid d) (dom (q_mem q)) (q_al q) (mk_gfp (gfp_blocking gfp) true) (in_al _ _ _ _ HI) Hg) as (o & z & st' & E & Ho).
  rewrite E, run_or_fault. cbv beta iota. rewrite run_modify. unfold with_st. cbn [w_st w_sched].
  destruct o as [p|].
  - destruct Ho as (Hp & Hpm & Hpr & Hz & Hal). rewrite (Hz eq_refl) in *. cbv iota beta. rewrite run_modify. unfold with_st. cbn [w_st w_sched].
    apply not_elem_of_dom in Hp. pose proof (add_page_inv own mine pend q st' p (fun _ => 0) HI Hp Hal) as HI2.
    match goal with |- context [mk_world ?x s] => set (q1 := x) end. fold q1 in HI2.
    assert (p ∉ mine) as Hpm' by (intros ?; assert (is_Some (q_mem q !! p)) as [? ?] by (apply (in_dom _ _ _ _ HI); by right; right); congruence).
    assert (keeps_but {[p]} q q1) as Hk by (intros x Hx; cbn; rewrite !lookup_insert_ne by set_solver; done).
    assert (page_ok d p) as Hpg.
    { split; [|done]. eapply mod_pow_le; [exact Hpm|]. pose proof (eo_shift HE). pose proof (bpl_pos d HG). lia. }
    assert (alloc_post own mine pend q s (Some p) (mk_world q1 s)) as Hpost.
    { exists q1. split_and!; try done. exists (fun _ => 0). cbn. by rewrite !lookup_insert_eq. }
    assert (sure (mbnd (qcom_io_pgtable_free p) (fun _ => mret None) (mk_world q1 s)) (alloc_post own mine pend q s)) as Hfail.
    { destruct (run_free_page own ({[p]} ∪ mine) pend q1 s p (fun _ => mret (A := option Z) None) HI2) as (q2 & -> & HI3 & st2 & ->); [set_solver|].
      eexists. split; [done|]. split; [done|]. replace (({[p]} ∪ mine) ∖ {[p]}) with mine in HI3 by set_solver. split; [done|].
      intros x _. cbn. destruct (decide (x = p)) as [->|Hx]; [|by rewrite !lookup_delete_ne, !lookup_insert_ne by done].
      rewrite !lookup_delete_eq. split; [done|]. pose proof (in_devdom _ _ _ _ HI p) as H. rewrite Hp in H. destruct (q_dev q !! p); [|done].
      by destruct (proj1 H) as [? ?]. }
    destruct (coherent_walk (cfg d)); [exact Hpost|]. destruct (pe_dma_map env p) as [dma|]; [|exact Hfail]. by destruct (dma =? p).
  - cbv iota beta. eexists. split; [done|]. split; [done|]. split; [|done]. destruct HI. split; done.
Qed.

(** ** Flushing *)

Lemma flush_loop own mine pend s : forall l q, inv own mine pend q -> freelist q = l -> q_cached q = ∅ ->
  sure (for_each l (fun page => modify (fun q => q <| freelist := tail (freelist q) |>) ;;; qcom_io_pgtable_free page) (mk_world q s))
    (fun _ w => exists q', w = mk_world q' s /\ inv own mine pend q' /\ freelist q' = [] /\ q_lock q' = q_lock q /\ keeps_but (list_to_set l) q q' /\
      q_cached q' = ∅).
Proof.
  induction l as [|p l IH]; intros q HI El Hc; cbn [for_each].
  - exists q. done.
  - rewrite run_assoc, run_modify. unfold with_st. cbn [w_st w_sched].
    set (q1 := q <| freelist := tail (freelist q) |>).
    pose proof (in_free _ _ _ _ HI) as Hnd. rewrite El in Hnd. apply NoDup_cons in Hnd as [Hpl Hnd].
    assert (inv own ({[p]} ∪ mine) pend q1) as HI1.
    { destruct HI as [H1 H2 H3 H4 H5 H6 H7 H8 H9]. split; cbn; rewrite ?El; cbn; try done.
      - intros x. rewrite H4, El, elem_of_cons. set_solver.
      - intros x. destruct (H7 x) as [G1 G2]. rewrite El in G1, G2. set_solver.
      - rewrite Hc. set_solver. }
    destruct (run_free_page own ({[p]} ∪ mine) pend q1 s p (fun _ => for_each l (fun page => modify (fun q => q <| freelist := tail (freelist q) |>) ;;;
      qcom_io_pgtable_free page)) HI1)
      as (q2 & -> & HI2 & st' & ->); [set_solver|].
    replace (({[p]} ∪ mine) ∖ {[p]}) with mine in HI2.
    2: { assert (p ∉ mine); [|set_solver]. apply (in_disj _ _ _ _ HI). rewrite El. by left. }
    eapply sure_mono; [apply (IH _ HI2); [cbn; by rewrite El|done]|]. intros r w (q' & -> & HI3 & Ef & Elk & Hk & Hc'). exists q'. split_and!; try done.
    intros x Hx. destruct (Hk x) as [-> ->]; [set_solver|]. cbn. rewrite !lookup_delete_ne by set_solver. done.
Qed.

Definition flushed (own : owner) (mine : gset Z) (pend : Z -> Z -> Prop) (q : pgt) (s : list (pgt -> pgt)) (w : St) : Prop :=
  exists q', w = mk_world q' s /\ inv own mine pend q' /\ q_lock q' = q_lock q /\ keeps_but (list_to_set (freelist q)) q q'.

Lemma same_mem_inv own mine pend q q' : inv own mine pend q -> q_mem q' = q_mem q -> q_dev q' = q_dev q -> q_al q' = q_al q -> freelist q' = freelist q ->
  q_cached q' ⊆ q_cached q -> inv own mine pend q'.
Proof.
  intros [H1 H2 H3 H4 H5 H6 H7 H8 H9] E1 E2 E3 E4 E5. split; rewrite ?E1, ?E2, ?E3, ?E4; try done. intros p Hp. apply H9. by apply E5.
Qed.

Lemma flush_sure own mine pend q s force : inv own mine pend q ->
  sure (__arm_smmu_flush_iotlb_all force (mk_world q s)) (fun _ => flushed own mine pend q s).
Proof.
  intros HI. unfold __arm_smmu_flush_iotlb_all. rewrite run_gets. cbn [w_st]. destruct (_ || _); [by exists q|].
  unfold io_pgtable_tlb_flush_all. rewrite !run_modify. unfold with_st. cbn [w_st w_sched].
  match goal with |- context [mk_world ?x s] => set (q1 := x) end.
  assert (inv own mine pend q1) as HI1 by (apply (same_mem_inv own mine pend q); try done; set_solver).
  eapply sure_step; [apply (flush_loop own mine pend s (freelist q) q1 HI1); done|].
  intros [] w (q' & -> & HI2 & Ef & Elk & Hk & Hc'). cbn. exists (q' <| freelist := [] |>). split; [done|]. split; [|split; [done|exact Hk]].
  apply (same_mem_inv own mine pend q'); done.
Qed.

Lemma tlb_sync_sure own mine pend q s : inv own mine pend q -> sure (arm_smmu_qcom_tlb_sync (mk_world q s)) (fun _ => flushed own mine pend q s).
Proof.
  intros HI. unfold arm_smmu_qcom_tlb_sync. rewrite run_gets. cbn [w_st]. destruct (skip_tlb_management q); [|by apply flush_sure].
  exists (q <| deferred_flush := false |>). split; [done|]. split; [by apply (same_mem_inv own mine pend q)|done].
Qed.

Lemma iotlb_sync_sure own mine pend q s : inv own mine pend q -> sure (arm_smmu_iotlb_sync (mk_world q s)) (fun _ => flushed own mine pend q s).
Proof.
  intros HI. unfold arm_smmu_iotlb_sync, arm_smmu_flush_iotlb_all. rewrite run_gets. cbn [w_st]. destruct (skip_tlb_management q); [|by apply flush_sure].
  exists (q <| deferred_flush := false |>). split; [done|]. split; [by apply (same_mem_inv own mine pend q)|done].
Qed.

(** ** What others do meanwhile *)

Definition in_range (v : Z) : Prop := 0 <= v < 2 ^ ias (cfg d).

(** Others keep the invariant, the tables above the last level, the pages in our
    hands, and the translation of the addresses [X]; where an address of [X] is
    mapped, they keep its tables. They do not keep the lock. *)
Definition respects (X : Z -> Prop) (f : pgt -> pgt) : Prop :=
  forall own mine pend q, inv own mine pend q -> q_lock q = false ->
  exists own', inv own' mine pend (f q) /\ q_lock (f q) = false /\
    (forall T l k, own !! T = Some (l, k) -> l < 3 -> own' !! T = Some (l, k)) /\
    (forall v T l, X v -> in_range v -> abs d (q_mem q) v <> None -> own !! T = Some (l, pslot d l v) -> own' !! T = own !! T) /\
    (forall v, X v -> in_range v -> abs d (q_mem (f q)) v = abs d (q_mem q) v) /\
    (forall p, p ∈ mine -> q_mem (f q) !! p = q_mem q !! p /\ q_dev (f q) !! p = q_dev q !! p).

(** What a function relies on and gives at the points where others run. *)
Record still (X : Z -> Prop) (own own' : owner) (mine : gset Z) (q q' : pgt) : Prop := {
  st_low : forall T l k, own !! T = Some (l, k) -> l < 3 -> own' !! T = Some (l, k);
  st_path : forall v T l, X v -> in_range v -> abs d (q_mem q) v <> None -> own !! T = Some (l, pslot d l v) -> own' !! T = own !! T;
  st_abs : forall v, X v -> in_range v -> abs d (q_mem q') v = abs d (q_mem q) v;
  st_mine : forall p, p ∈ mine -> q_mem q' !! p = q_mem q !! p /\ q_dev q' !! p = q_dev q !! p;
}.

Lemma still_refl X own mine q : still X own own mine q q.
Proof. split; eauto. Qed.

Lemma still_same X own mine q q' : q_mem q' = q_mem q -> q_dev q' = q_dev q -> still X own own mine q q'.
Proof. intros E1 E2. split; eauto; intros; by rewrite ?E1, ?E2. Qed.

Lemma still_trans X own1 own2 own3 mine q1 q2 q3 : still X own1 own2 mine q1 q2 -> still X own2 own3 mine q2 q3 -> still X own1 own3 mine q1 q3.
Proof.
  intros [H1 H2 H3 H4] [G1 G2 G3 G4]. split.
  - eauto.
  - intros v T l Hx Hv Ha Ho. rewrite <- (H2 v T l Hx Hv Ha Ho). apply (G2 v T l); [done|done|by rewrite H3|by rewrite (H2 v T l Hx Hv Ha Ho)].
  - intros v Hx Hv. by rewrite G3, H3.
  - intros p Hp. destruct (H4 p Hp) as [<- <-]. by apply G4.
Qed.

(** The worlds a function may be in after others have run. *)
Definition later (X : Z -> Prop) (own : owner) (mine : gset Z) (pend : Z -> Z -> Prop) (q : pgt) (w : St) : Prop :=
  exists own' q' s', w = mk_world q' s' /\ Forall (respects X) s' /\ inv own' mine pend q' /\ still X own own' mine q q'.

Lemma yield_sure X own mine pend q s : inv own mine pend q -> q_lock q = false -> Forall (respects X) s ->
  sure (yield (mk_world q s)) (fun _ w => later X own mine pend q w /\ q_lock (w_st w) = false).
Proof.
  intros HI Hl HF. unfold yield. cbn [w_sched w_st]. destruct s as [|f s]; cbn.
  - split; [|done]. exists own, q, []. split_and!; done.
  - apply Forall_cons in HF as [Hf HF]. destruct (Hf own mine pend q HI Hl) as (own' & HI' & Hl' & G1 & G2 & G3 & G4).
    split; [|done]. exists own', (f q), s. split_and!; done.
Qed.

(** ** What an operation keeps for others *)

(** Tables above the last level, tables of addresses of [X] that are mapped, and
    the pages in hand. *)
Record kept (low : Prop) (X : Z -> Prop) (own own' : owner) (mine : gset Z) (q q' : pgt) : Prop := {
  kp_low : low -> forall T l k, own !! T = Some (l, k) -> l < 3 -> own' !! T = Some (l, k);
  kp_path : forall v T l, X v -> in_range v -> abs d (q_mem q) v <> None -> own !! T = Some (l, pslot d l v) -> own' !! T = own !! T;
  kp_mine : forall p, p ∈ mine -> q_mem q' !! p = q_mem q !! p /\ q_dev q' !! p = q_dev q !! p;
}.

Lemma kept_refl low X own mine q : kept low X own own mine q q.
Proof. split; eauto. Qed.

Lemma kept_trans low X own1 own2 own3 mine q1 q2 q3 : kept low X own1 own2 mine q1 q2 -> (forall v, X v -> in_range v ->
  abs d (q_mem q2) v = abs d (q_mem q1) v) ->
  kept low X own2 own3 mine q2 q3 -> kept low X own1 own3 mine q1 q3.
Proof.
  intros [H1 H2 H3] Ha [G1 G2 G3]. split.
  - eauto.
  - intros v T l Hx Hv Hn Ho. rewrite <- (H2 v T l Hx Hv Hn Ho). apply (G2 v T l); [done|done|by rewrite Ha|by rewrite (H2 v T l Hx Hv Hn Ho)].
  - intros p Hp. destruct (H3 p Hp) as [<- <-]. by apply G3.
Qed.

Lemma still_kept low X own own' mine q q' : still X own own' mine q q' -> kept low X own own' mine q q'.
Proof. intros [H1 H2 _ H4]. split; eauto. Qed.

(** ** A new table *)

(** Writing one entry, and what the device then reads of the table. *)
Record wrote (T l i e : Z) (t : Z -> Z) (q q' : pgt) : Prop := {
  wr_mem : exists t2, q_mem q' = <[T := t2]> (q_mem q) /\ forall j, t2 j = set_entry t i e j;
  wr_dev : forall x, x <> T -> q_dev q' !! x = q_dev q !! x;
  wr_devT : exists td td', q_dev q !! T = Some td /\ q_dev q' !! T = Some td' /\ (forall j, j <> i -> td' j = td j) /\
    (coherent_walk (cfg d) = false -> same_entry d l e (td' i));
  wr_rest : q_al q' = q_al q /\ freelist q' = freelist q /\ q_cached q' = q_cached q;
}.

Lemma level3_not_table own mine pend q T k t i C : inv own mine pend q -> own !! T = Some (3, k) -> q_mem q !! T = Some t -> 0 <= i < 2 ^ nbits d 3 ->
  own !! C = None -> plain d 3 (t i).
Proof. intros HI Ho Ht Hi _. destruct (tr_entry _ _ _ (in_tree _ _ _ _ HI) T 3 k t i Ho Ht Hi) as [H|[H _]]; [done|lia]. Qed.

Lemma child_owned own mine pend q T l k t i C : inv own mine pend q -> own !! T = Some (l, k) -> l < 3 -> q_mem q !! T = Some t -> 0 <= i < 2 ^ nbits d l ->
  is_table d (t i) C -> own !! C = Some (l + 1, k * 2 ^ nbits d l + i).
Proof.
  intros HI Ho Hl Ht Hi HC. destruct (tr_entry _ _ _ (in_tree _ _ _ _ HI) T l k t i Ho Ht Hi) as [H|(_ & page & H1 & H2)];
    [by apply (plain_not_table d HG l _ C) in H|].
  by rewrite (table_inj d _ _ _ HC H1).
Qed.

Lemma mem_some own mine pend q T lk : inv own mine pend q -> own !! T = Some lk -> exists t td, q_mem q !! T = Some t /\ q_dev q !! T = Some td.
Proof.
  intros HI Ho. assert (is_Some (q_mem q !! T)) as [t Ht] by (apply (in_dom _ _ _ _ HI); left; eauto).
  assert (is_Some (q_dev q !! T)) as [td Htd] by (apply (in_devdom _ _ _ _ HI); eauto). eauto.
Qed.

(** The tables of the last level are no others. *)
Lemma last_table own m P k t i C : tree d m own -> own !! P = Some (2, k) -> m !! P = Some t -> 0 <= i < 2 ^ nbits d 2 -> is_table d (t i) C ->
  own !! C = Some (3, k * 2 ^ nbits d 2 + i).
Proof.
  intros HT Ho Ht Hi HC. destruct (tr_entry _ _ _ HT P 2 k t i Ho Ht Hi) as [H|(_ & page & H1 & H2)]; [by apply (plain_not_table d HG 2 _ C) in H|].
  by rewrite (table_inj d _ _ _ HC H1).
Qed.

Lemma install_counts own q T l k t t2 i C tc e : (forall j, t2 j = set_entry t i e j) -> tree d (q_mem q) own -> own !! T = Some (l, k) -> l < 3 ->
  q_mem q !! T = Some t -> own !! C = None ->
  start_level d <= l -> q_mem q !! C = Some tc -> (forall j, 0 <= j < 2 ^ bits_per_level d -> plain d (l + 1) (tc j)) ->
  is_table d e C -> (l = 2 -> iopte_tblcnt e = nvalid tc mod 2 ^ 13) -> counts_ok (q_mem q) own ->
  counts_ok (<[T := t2]> (q_mem q)) (<[C := (l + 1, k * 2 ^ nbits d l + i)]> own).
Proof.
  intros Ht2 HT Ho Hl Ht HoC Hls Htc Hj He Hcnt HI P k' tP j C' tc' HP HtP Hj' HC' Htc'. assert (T <> C) as HTC by congruence.
  apply lookup_insert_Some in HP as [[<- [= E1 E2]]|[HnP HP]].
  { rewrite lookup_insert_ne, Htc in HtP by done. injection HtP as <-. rewrite nbits_below in Hj' by lia.
    exfalso. apply (plain_not_table d HG 2 (tc j) C'); [done|rewrite <- E1; by apply Hj|done]. }
  assert (C' <> T -> q_mem q !! C' = Some tc') as Htc2 by (intros ?; by rewrite lookup_insert_ne in Htc').
  destruct (decide (P = T)) as [->|HPT].
  - rewrite lookup_insert_eq in HtP. injection HtP as <-. rewrite Ho in HP. injection HP as -> <-. rewrite Ht2 in HC' |- *; unfold set_entry in HC' |- *.
    destruct (Z.eqb_spec j i) as [->|Hji].
    + assert (C' = C) as -> by apply (table_inj d _ _ _ HC' He). rewrite Htc in Htc2. injection (Htc2 ltac:(done)) as <-. by apply Hcnt.
    + pose proof (last_table own (q_mem q) T k t j C' HT Ho Ht Hj' HC') as HoC'. apply (HI T k t j C' tc'); try done. apply Htc2. intros ->. congruence.
  - rewrite lookup_insert_ne in HtP by done. pose proof (last_table own (q_mem q) P k' tP j C' HT HP HtP Hj' HC') as HoC'.
    apply (HI P k' tP j C' tc'); try done. apply Htc2. intros ->. rewrite Ho in HoC'. injection HoC'. lia.
Qed.

Lemma install_inv own mine pend q q' T l k t i C tc tdc e :
  inv own ({[C]} ∪ mine) pend q -> C ∉ mine -> own !! T = Some (l, k) -> l < 3 -> 0 <= i < 2 ^ nbits d l -> q_mem q !! T = Some t -> plain d l (t i) ->
  page_ok d C -> q_mem q !! C = Some tc -> q_dev q !! C = Some tdc -> (coherent_walk (cfg d) = false -> forall j, 0 <= j < 2 ^ bits_per_level d ->
    tdc j = tc j) -> (forall j, 0 <= j < 2 ^ bits_per_level d -> plain d (l + 1) (tc j)) ->
  is_table d e C -> (l = 2 -> iopte_tblcnt e = nvalid tc mod 2 ^ 13) -> wrote T l i e t q q' ->
  inv (<[C := (l + 1, k * 2 ^ nbits d l + i)]> own) mine pend q'.
Proof.
  intros HI HCm Ho Hl Hi Ht Hpl Hpg Htc Hdc Hcd Hj He Hcnt [(t2 & Wm & Ht2) Wd (td & td' & Htd & Htd' & Hdj & Hsame) (Wa & Wf & Wc)].
  destruct (in_disj _ _ _ _ HI C) as [HC1 HC2]. assert (own !! C = None) as HoC by (apply HC1; right; set_solver). assert (T <> C) as HTC by congruence.
  assert (C ∉ freelist q) as HCf by (intros ?%HC2; set_solver). pose proof (tr_level _ _ _ (in_tree _ _ _ _ HI) _ _ _ Ho) as [Hls _].
  split; rewrite ?Wm, ?Wa, ?Wf, ?Wc.
  - apply (tree_install d HG (q_mem q) own T l k t t2 i C tc e); try done. apply HI.
  - apply (install_counts own q T l k t t2 i C tc e); try done; [apply HI|lia|apply HI].
  - intros Hco P l' k' tP HP HtP. apply lookup_insert_Some in HP as [[<- [= <- <-]]|[HnP HP]].
    + rewrite lookup_insert_ne, Htc in HtP by done. injection HtP as <-. exists tdc. split; [by rewrite Wd|]. intros j Hj' _. rewrite nbits_below in Hj' by lia.
      rewrite Hcd by done. apply same_entry_refl.
    + destruct (decide (P = T)) as [->|HPT].
      * rewrite lookup_insert_eq in HtP. injection HtP as <-. exists td'. split; [done|]. intros j Hj' Hnp. rewrite Ho in HP. injection HP as <- <-.
        rewrite Ht2; unfold set_entry.
        destruct (Z.eqb_spec j i) as [->|Hji]; [by apply Hsame|]. rewrite Hdj by done.
        destruct (in_dev _ _ _ _ HI Hco T l k t Ho Ht) as (td2 & E & Hs). rewrite Htd in E. injection E as <-. by apply Hs.
      * rewrite lookup_insert_ne in HtP by done. rewrite Wd by done. by apply (in_dev _ _ _ _ HI Hco P l' k').
  - intros x. destruct (decide (x = C)) as [->|HxC]; [rewrite lookup_insert_eq; rewrite lookup_insert_ne by done; split; [left; eauto|rewrite Htc; eauto]|].
    rewrite (lookup_insert_ne own) by done. transitivity (is_Some (q_mem q !! x)).
    + destruct (decide (x = T)) as [->|HxT]; [rewrite lookup_insert_eq, Ht; split; eauto|by rewrite lookup_insert_ne].
    + rewrite (in_dom _ _ _ _ HI x). set_solver.
  - intros x. destruct (decide (x = T)) as [->|HxT]; [rewrite lookup_insert_eq, Htd'; split; eauto|]. rewrite lookup_insert_ne, Wd by done.
    apply (in_devdom _ _ _ _ HI).
  - apply HI.
  - intros x. destruct (in_disj _ _ _ _ HI x) as [G1 G2]. destruct (decide (x = C)) as [->|HxC]; [split; [by intros [?|?]|set_solver]|].
    rewrite lookup_insert_ne by done. set_solver.
  - rewrite dom_insert_L. replace ({[T]} ∪ dom (q_mem q)) with (dom (q_mem q)); [apply HI|]. apply elem_of_dom_2 in Ht. set_solver.
  - intros x Hx. destruct (in_cached _ _ _ _ HI x Hx) as [?|?]; [left|by right].
    destruct (decide (x = C)) as [->|HxC]; [rewrite lookup_insert_eq; eauto|by rewrite lookup_insert_ne].
Qed.

Lemma owned_not_mine own mine pend q T lk : inv own mine pend q -> own !! T = Some lk -> T ∉ mine /\ T ∉ freelist q.
Proof. intros HI Ho. destruct (in_disj _ _ _ _ HI T) as [H _]. split; intros ?; rewrite H in Ho by tauto; done. Qed.

Lemma flushed_still X own mine pend q s w : inv own mine pend q -> Forall (respects X) s -> flushed own mine pend q s w ->
  later X own mine pend q w /\ q_lock (w_st w) = q_lock q.
Proof.
  intros HI HF (q' & -> & HI' & Hl & Hk). split; [|done]. exists own, q', s. split; [done|]. split; [done|]. split; [done|]. split; try done.
  - intros v Hx Hv. apply (abs_frame d HG (q_mem q) (q_mem q') own v); [apply HI|done|]. intros l T t Ho Ht. exists t.
    destruct (Hk T) as [-> _]; [|split; [done|apply same_entry_refl]]. rewrite elem_of_list_to_set. by destruct (owned_not_mine _ _ _ _ _ _ HI Ho).
  - intros p Hp. apply Hk. rewrite elem_of_list_to_set. intros Hin. by destruct (in_disj _ _ _ _ HI p) as [_ H2]; apply H2.
Qed.

Lemma later_trans X own mine pend q own' q' w : still X own own' mine q q' -> later X own' mine pend q' w -> later X own mine pend q w.
Proof. intros H (own2 & q2 & s2 & -> & HF & HI & H2). exists own2, q2, s2. split_and!; try done. by eapply still_trans. Qed.

(** Let go of the lock, flush, and take the lock again. *)
Lemma resync_sure X own mine pend q s : inv own mine pend q -> Forall (respects X) s ->
  sure (sync_unlocked (mk_world q s))
    (fun _ w => later X own mine pend q w /\ q_lock (w_st w) = true).
Proof.
  intros HI HF. unfold sync_unlocked. rewrite run_unlock. set (q0 := q <| q_lock := false |>).
  assert (inv own mine pend q0) as HI0 by (by apply (same_mem_inv own mine pend q)).
  assert (forall w, later X own mine pend q0 w -> later X own mine pend q w) as Hq by (intros w; apply later_trans; by apply still_same).
  eapply sure_step; [by apply (yield_sure X own mine pend q0)|]. intros [] w [(own1 & q1 & s1 & -> & HF1 & HI1 & H1) Hl1].
  eapply sure_step; [by apply (tlb_sync_sure own1)|]. intros [] w Hw.
  destruct (flushed_still X _ _ _ _ _ _ HI1 HF1 Hw) as [(own2 & q2 & s2 & -> & HF2 & HI2 & H2) Hl2].
  eapply sure_step; [apply (yield_sure X own2 mine pend q2); [done|cbn in Hl1, Hl2; congruence|done]|].
  intros [] w [(own3 & q3 & s3 & -> & HF3 & HI3 & H3) Hl3].
  rewrite run_end, run_lock by done. cbn. split; [|done]. apply Hq. exists own3, (q3 <| q_lock := true |>), s3.
  split; [done|]. split; [done|]. split; [by apply (same_mem_inv own3 mine pend q3)|].
  eapply still_trans; [exact H1|]. eapply still_trans; [exact H2|]. destruct H3. by split.
Qed.

Definition installed (X : Z -> Prop) (own : owner) (mine : gset Z) (pend : Z -> Z -> Prop) (q : pgt) (T l k i C curr old : Z) (w : St) : Prop :=
  exists own' q' (s' : list (pgt -> pgt)), w = mk_world q' s' /\ Forall (respects X) s' /\ q_lock q' = true /\
  if old =? curr then
    exists own1 q1 t e, still X own own1 ({[C]} ∪ mine) q q1 /\ inv own1 ({[C]} ∪ mine) pend q1 /\ own1 !! T = Some (l, k) /\ q_mem q1 !! T = Some t /\
      t i = curr /\
      own' = <[C := (l + 1, k * 2 ^ nbits d l + i)]> own1 /\ is_table d e C /\ wrote T l i e t q1 q' /\ inv own' mine pend q'
  else
    still X own own' ({[C]} ∪ mine) q q' /\ inv own' ({[C]} ∪ mine) pend q' /\ own' !! T = Some (l, k) /\
      exists t, q_mem q' !! T = Some t /\ t i = old.

Lemma sync_inv own mine pend q T lk i n t : inv own mine pend q -> own !! T = Some lk -> q_mem q !! T = Some t ->
  inv own mine (fun P j => pend P j /\ ~ (P = T /\ i <= j < i + n)) (q <| q_dev := alter (copy_entries i n t) T (q_dev q) |>).
Proof.
  intros HI Ho Ht. split; cbn; try apply HI.
  - intros Hc P l k t' HP Ht'. destruct (in_dev _ _ _ _ HI Hc P l k t' HP Ht') as (td & Htd & Hs). destruct (decide (T = P)) as [<-|Hn].
    + rewrite lookup_alter_eq, Htd. cbn. eexists. split; [done|]. intros j Hj Hp. unfold copy_entries. rewrite Ht in Ht'. injection Ht' as <-.
      destruct ((i <=? j) && (j <? i + n)) eqn:E; [apply same_entry_refl|]. apply Hs; [done|]. intros ?. apply Hp. split; [done|]. intros [_ ?]. lia.
    + rewrite lookup_alter_ne by done. exists td. split; [done|]. intros j Hj Hp. apply Hs; [done|]. intros ?. apply Hp. split; [done|]. by intros [-> _].
  - intros x. destruct (decide (T = x)) as [<-|Hn]; [rewrite lookup_alter_eq|rewrite lookup_alter_ne by done; apply (in_devdom _ _ _ _ HI)].
    rewrite fmap_is_Some. apply (in_devdom _ _ _ _ HI).
Qed.

Lemma inv_pend own mine pend pend' q : (forall P j, pend P j -> pend' P j) -> inv own mine pend q -> inv own mine pend' q.
Proof.
  intros H HI. split; try apply HI. intros Hc P l k t HP Ht. destruct (in_dev _ _ _ _ HI Hc P l k t HP Ht) as (td & Htd & Hs). exists td. split; [done|].
  intros j Hj Hn. apply Hs; [done|]. intros Hp. by apply Hn, H.
Qed.

Lemma plain_sync l e : plain d l e -> truth (Z.land e ARM_LPAE_PTE_SW_SYNC) = false.
Proof. intros [->|(pa & prot & -> & _ & Hp)]; [done|]. by rewrite leaf_pte_sync. Qed.

(** The writes of an entry for a new table. *)
Lemma install_writes own mine pend q s T l k i C curr rc tc tdc t td :
  inv own ({[C]} ∪ mine) pend q -> C ∉ mine -> own !! T = Some (l, k) -> l < 3 -> 0 <= i < 2 ^ nbits d l -> q_mem q !! T = Some t -> q_dev q !! T = Some td ->
  t i = curr -> plain d l curr -> page_ok d C -> q_mem q !! C = Some tc -> q_dev q !! C = Some tdc -> (coherent_walk (cfg d) = false ->
    forall j, 0 <= j < 2 ^ bits_per_level d -> tdc j = tc j) ->
  (forall j, 0 <= j < 2 ^ bits_per_level d -> plain d (l + 1) (tc j)) -> rc mod 2 ^ 13 = nvalid tc mod 2 ^ 13 ->
  sure ((write_pte env (T, i) (table_pte d C rc) ;;;
         (if coherent_walk (cfg d) || truth (Z.land curr ARM_LPAE_PTE_SW_SYNC) then mret curr
          else __arm_lpae_sync_pte (T, i) 1 ;;; write_pte env (T, i) (Z.lor (table_pte d C rc) ARM_LPAE_PTE_SW_SYNC) ;;; mret curr)) (mk_world q s))
    (fun old w => old = curr /\ exists q' e, w = mk_world q' s /\ q_lock q' = q_lock q /\ is_table d e C /\ wrote T l i e t q q' /\
      inv (<[C := (l + 1, k * 2 ^ nbits d l + i)]> own) mine pend q').
Proof.
  intros HI HCm Ho Hl Hi Ht Htd Ec Hpl Hpg Htc Hdc Hcd Hj Hrc. pose proof (entries_nbits l i Hi) as Hib.
  destruct (table_pte_ok d HG C rc Hpg) as [He Hec]. rewrite (run_write T i _ t) by done. rewrite (plain_sync l curr Hpl), orb_false_r.
  set (new := table_pte d C rc) in *.
  assert (forall q' e, is_table d e C -> iopte_tblcnt e = rc mod 2 ^ 13 -> wrote T l i e t q q' ->
    inv (<[C := (l + 1, k * 2 ^ nbits d l + i)]> own) mine pend q') as Hinv.
  { intros q' e H1 H2 H3. apply (install_inv own mine pend q q' T l k t i C tc tdc e); try done; [by rewrite Ec|]. intros _. by rewrite H2. }
  destruct (coherent_walk (cfg d)) eqn:Eco.
  - split; [done|]. eexists _, new. split; [done|]. split; [done|]. split; [done|].
    match goal with |- wrote _ _ _ _ _ _ ?x /\ _ => assert (wrote T l i new t q x) as Hw end; [|split; [done|by eapply Hinv]].
    split; cbn; try done; [by eexists|]. exists td, td. by rewrite Eco.
  - rewrite (run_sync T i 1 (set_entry t i new)) by apply lookup_insert_eq. cbn [q_mem q_dev].
    rewrite (run_write T i _ (set_entry t i new)); [|apply lookup_insert_eq|done]. destruct (sw_sync_ok d HG new C He) as [He2 Hec2].
    split; [done|]. eexists _, (Z.lor new ARM_LPAE_PTE_SW_SYNC). split; [done|]. split; [done|]. split; [done|].
    match goal with |- wrote _ _ _ _ _ _ ?x /\ _ => assert (wrote T l i (Z.lor new ARM_LPAE_PTE_SW_SYNC) t q x) as Hw end; [|split; [done|eapply Hinv;
      [done|by rewrite Hec2|done]]].
    split; cbn; try done.
    + eexists. rewrite insert_insert_eq. split; [done|]. intros j. unfold set_entry. by destruct (j =? i).
    + intros x Hx. by rewrite lookup_alter_ne.
    + rewrite lookup_alter_eq, Htd. exists td. cbn. eexists. split; [done|]. split; [done|]. unfold copy_entries, set_entry. split.
      * intros j Hji. case_index; done.
      * intros _. right. split; [done|]. exists C. split; [done|]. case_index; done.
Qed.

Lemma install_sure X own mine pend q s T l k i C curr rc tc tdc :
  inv own ({[C]} ∪ mine) pend q -> C ∉ mine -> own !! T = Some (l, k) -> l < 3 -> 0 <= i < 2 ^ nbits d l ->
  plain d l curr -> page_ok d C -> q_mem q !! C = Some tc -> q_dev q !! C = Some tdc -> (coherent_walk (cfg d) = false ->
    forall j, 0 <= j < 2 ^ bits_per_level d -> tdc j = tc j) ->
  (forall j, 0 <= j < 2 ^ bits_per_level d -> plain d (l + 1) (tc j)) -> rc mod 2 ^ 13 = nvalid tc mod 2 ^ 13 -> Forall (respects X) s ->
  sure (arm_lpae_install_table env d C (T, i) curr rc (mk_world q s)) (fun old => installed X own mine pend q T l k i C curr old).
Proof.
  intros HI HCm Ho Hl Hi Hpl Hpg Htc Hdc Hcd Hj Hrc HF. pose proof (entries_nbits l i Hi) as Hib. unfold arm_lpae_install_table.
  eapply sure_step; [by apply (resync_sure X own ({[C]} ∪ mine) pend q s)|]. intros [] w [(own1 & q1 & s1 & -> & HF1 & HI1 & H1) Hl1]. cbn in Hl1.
  pose proof (st_low _ _ _ _ _ _ H1 T l k Ho Hl) as Ho1. destruct (st_mine _ _ _ _ _ _ H1 C) as [Hm1 Hd1]; [set_solver|]. rewrite Htc in Hm1.
  rewrite Hdc in Hd1.
  destruct (mem_some _ _ _ _ _ _ HI1 Ho1) as (t & td & Ht & Htd). cbv zeta. rewrite (run_read T i t) by done.
  destruct (Z.eqb_spec (t i) curr) as [Ec|Ec].
  - rewrite Ec. eapply sure_mono; [by apply (install_writes own1 mine pend q1 s1 T l k i C curr rc tc tdc t td)|].
    intros old w (-> & q' & e & -> & Hl' & He & Hw & HI'). exists (<[C:=(l + 1, k * 2 ^ nbits d l + i)]> own1), q', s1.
    split; [done|]. split; [done|]. split; [by rewrite Hl'|]. rewrite Z.eqb_refl. by exists own1, q1, t, e.
  - rewrite run_ret. assert (forall q', inv own1 ({[C]} ∪ mine) pend q' -> still X own own1 ({[C]} ∪ mine) q q' -> q_lock q' = true -> q_mem q' = q_mem q1 ->
      installed X own mine pend q T l k i C curr (t i) (mk_world q' s1)) as Hdone.
    { intros q' HI' Hs El Em. exists own1, q', s1. split_and!; try done. rewrite (proj2 (Z.eqb_neq _ _)) by done. split_and!; try done. exists t.
      by rewrite Em. }
    destruct (coherent_walk (cfg d) || _); [by apply Hdone|]. rewrite (run_sync T i 1 t) by done. apply Hdone; try done.
    + eapply inv_pend; [|by eapply (sync_inv own1 _ pend)]. by intros P j [? _].
    + eapply still_trans; [exact H1|]. split; cbn; eauto. intros p Hp. split; [done|]. rewrite lookup_alter_ne; [done|]. intros ->.
      by destruct (owned_not_mine _ _ _ _ _ _ HI1 Ho1).
Qed.
End PtState.
