(* ===== verification/PtMap.v ===== *)
(** * PtMap: mapping

    What [qcom_arm_lpae_map_pages] does to the translation of a device, while
    other threads change other parts of the same table at the points where the
    lock is dropped. *)
From stdpp Require Import prelude gmap list.
From S2P Require Import Prelude.
From S2P Require Import Effects.
From S2P Require Import PgAlloc.
From S2P Require Import IoPgtable.
From S2P Require Import PtBits.
From S2P Require Import PtInv.
From S2P Require Import PtTree.
From S2P Require Import PtState.
#[local] Open Scope kernel_scope.

Section PtMap.
Context {PA : PageAlloc} (env : pg_env) {PL : PageAllocLaws (pe_page_shift env)}.
Context (d : arm_lpae_io_pgtable) (HG : geo_ok d) (HE : env_ok env d).

Abbreviation owner := (gmap Z (Z * Z)).
Abbreviation St := (world pgt).
Abbreviation inv := (inv env d).
Abbreviation still := (still d).
Abbreviation respects := (respects env d).
Abbreviation installed := (installed env d).
Abbreviation in_range := (in_range d).

(** ** The next table *)

(** Writing entry [i] of [T] leaves the addresses of the other entries alone. *)
Lemma abs_other m m' own T l k i t t' v : tree d m own -> own !! T = Some (l, k) -> m !! T = Some t -> in_range v -> slot d l v <> k * 2 ^ nbits d l + i ->
  (forall x, is_Some (own !! x) -> x <> T -> m' !! x = m !! x) -> m' !! T = Some t' -> (forall j, j <> i -> t' j = t j) -> abs d m' v = abs d m v.
Proof.
  intros HT Ho Ht Hv Hs Hx HtT Hj. apply (abs_frame d HG m m' own v HT Hv). intros l' T' t2 Ho' Ht2. destruct (decide (T' = T)) as [->|Hn].
  - rewrite Ho in Ho'. injection Ho' as -> ->. rewrite Ht in Ht2. injection Ht2 as <-. exists t'. split; [done|]. rewrite Hj; [apply same_entry_refl|].
    intros E. apply Hs. rewrite <- E. apply slot_split. exact HG.
  - exists t2. split; [by rewrite Hx|apply same_entry_refl].
Qed.

Lemma installed_abs own mine pend q q' T l k i C t e v tc :
  inv own ({[C]} ∪ mine) pend q -> C ∉ mine -> own !! T = Some (l, k) -> l < 3 -> 0 <= i < 2 ^ nbits d l -> q_mem q !! T = Some t -> t i = 0 ->
  is_table d e C -> wrote d T l i e t q q' -> inv (<[C := (l + 1, k * 2 ^ nbits d l + i)]> own) mine pend q' -> in_range v ->
  q_mem q !! C = Some tc -> (forall j, tc j = 0) -> abs d (q_mem q') v = abs d (q_mem q) v.
Proof.
  intros HI HCm Ho Hl Hi Ht E0 He [(t2 & Wm & Ht2) _ _ _] HI' Hv Htc Hz.
  assert (own !! C = None) as HoC by (apply (in_disj _ _ _ _ _ _ HI); right; set_solver). assert (T <> C) as HTC by congruence.
  pose proof (tr_level _ _ _ (in_tree _ _ _ _ _ _ HI) _ _ _ Ho) as [Hls _].
  destruct (decide (slot d l v = k * 2 ^ nbits d l + i)) as [Es|Hn].
  - assert (pslot d l v = k /\ idx d l v = i) as [Ep Ei].
    { rewrite (slot_split d HG) in Es. apply (place_inj (2 ^ nbits d l)) in Es; [done|by apply idx_range|done]. }
    rewrite (abs_empty d HG (q_mem q) own v l T t); [|apply HI|done|by rewrite Ep|done|by rewrite Ei].
    apply (abs_empty d HG (q_mem q') (<[C := (l + 1, k * 2 ^ nbits d l + i)]> own) v (l + 1) C tc); [apply HI'|done| | |by apply Hz].
    + rewrite lookup_insert_eq, pslot_succ by (done || lia). by rewrite Es.
    + rewrite Wm, lookup_insert_ne by done. done.
  - apply (abs_other (q_mem q) (q_mem q') own T l k i t t2); try done; [apply HI| | |].
    + intros x _ Hx. by rewrite Wm, lookup_insert_ne.
    + by rewrite Wm, lookup_insert_eq.
    + intros j Hj. rewrite Ht2. unfold set_entry. by rewrite (proj2 (Z.eqb_neq _ _)).
Qed.

(** A table was found or made below entry [i] of [T]. *)
Definition next_post (X : Z -> Prop) (own : owner) (mine : gset Z) (pend : Z -> Z -> Prop) (q : pgt) (T l k i : Z) (r : result Z) (w : St) : Prop :=
  exists own' q' (s' : list (pgt -> pgt)), w = mk_world q' s' /\ Forall (respects X) s' /\ q_lock q' = true /\
    still X own own' mine q q' /\ inv own' mine pend q' /\ own' !! T = Some (l, k) /\
    match r with
    | Ok C => own' !! C = Some (l + 1, k * 2 ^ nbits d l + i) /\ exists t, q_mem q' !! T = Some t /\ is_table d (t i) C
    | Err e => e = - ENOMEM \/ e = - EEXIST /\ exists t pa prot, q_mem q' !! T = Some t /\ t i = leaf_pte d pa prot l /\ pa_ok d l pa /\ prot_ok prot
    end.

Lemma still_less X own own' mine mine' q q' : mine ⊆ mine' -> still X own own' mine' q q' -> still X own own' mine q q'.
Proof. intros H [H1 H2 H3 H4]. split; try done. intros p Hp. apply H4. set_solver. Qed.

Lemma fresh_still X own mine pend q q' T l k i C t e tc :
  inv own ({[C]} ∪ mine) pend q -> C ∉ mine -> own !! T = Some (l, k) -> l < 3 -> 0 <= i < 2 ^ nbits d l -> q_mem q !! T = Some t -> t i = 0 ->
  is_table d e C -> wrote d T l i e t q q' -> inv (<[C := (l + 1, k * 2 ^ nbits d l + i)]> own) mine pend q' ->
  q_mem q !! C = Some tc -> (forall j, tc j = 0) -> still X own (<[C := (l + 1, k * 2 ^ nbits d l + i)]> own) mine q q'.
Proof.
  intros HI HCm Ho Hl Hi Ht E0 He Hw HI' Htc Hz. assert (own !! C = None) as HoC by (apply (in_disj _ _ _ _ _ _ HI); right; set_solver).
  split.
  - intros P l' k' HP _. by rewrite lookup_insert_ne by congruence.
  - intros v P l' _ _ _ HP. by rewrite lookup_insert_ne by congruence.
  - intros v _ Hv. by eapply installed_abs.
  - intros p Hp. assert (p <> T) as HpT by (intros ->; destruct (owned_not_mine env d _ _ _ _ _ _ HI Ho); set_solver).
    destruct Hw as [(t2 & Wm & _) Wd _ _]. rewrite Wm, lookup_insert_ne, Wd by done. done.
Qed.

(** What the code makes of an entry that is in use. *)
Lemma classify own mine pend q T l k i t : inv own mine pend q -> own !! T = Some (l, k) -> l < 3 -> 0 <= i < 2 ^ nbits d l -> q_mem q !! T = Some t ->
  t i <> 0 ->
  match (if iopte_leaf (t i) l (fmt d) then Err (- EEXIST) else Ok (iopte_deref (t i) d)) with
  | Ok C => own !! C = Some (l + 1, k * 2 ^ nbits d l + i) /\ exists t, q_mem q !! T = Some t /\ is_table d (t i) C
  | Err e => e = - ENOMEM \/ e = - EEXIST /\ exists t pa prot, q_mem q !! T = Some t /\ t i = leaf_pte d pa prot l /\ pa_ok d l pa /\ prot_ok prot
  end.
Proof.
  intros HI Ho Hl Hi Ht Hn. destruct (tr_entry _ _ _ (in_tree _ _ _ _ _ _ HI) T l k t i Ho Ht Hi) as [[E|(pa & prot & E & Hpa & Hp)]|(_ & C & HC & HoC)];
    [done| |].
  - rewrite E, leaf_pte_leaf by done. right. split; [done|]. by exists t, pa, prot.
  - rewrite (table_not_leaf d HG _ C) by done. pose proof HC as [_ E]. rewrite E. split; [done|]. by exists t.
Qed.

Lemma nvalid_zero tc : (forall j, tc j = 0) -> nvalid d tc = 0.
Proof.
  intros H. unfold nvalid. rewrite (proj2 (Permutation_nil_r _)); [done|]. induction (upto _) as [|a l IH]; [done|].
  rewrite filter_cons_False; [done|]. intros Hn. by apply Hn, H.
Qed.

(** The table in hand is put in, or given back when another is there. *)
Lemma install_or_free X own mine pend q s T l k i C tc :
  inv own ({[C]} ∪ mine) pend q -> C ∉ mine -> own !! T = Some (l, k) -> l < 3 -> 0 <= i < 2 ^ nbits d l ->
  page_ok d C -> q_mem q !! C = Some tc -> q_dev q !! C = Some tc -> (forall j, tc j = 0) -> Forall (respects X) s ->
  sure ((pte <-- arm_lpae_install_table env d C (T, i) 0 0 ;;;
         if pte =? 0 then mret (Ok C)
         else __arm_lpae_free_pages C false ;;; mret (if iopte_leaf pte l (fmt d) then Err (- EEXIST) else Ok (iopte_deref pte d)))
        (mk_world q s)) (next_post X own mine pend q T l k i).
Proof.
  intros HI HCm Ho Hl Hi Hpg Htc Hdc Hz HF.
  assert (0 <= l) as Hl0 by (pose proof (tr_level _ _ _ (in_tree _ _ _ _ _ _ HI) _ _ _ Ho); pose proof (go_start d HG); lia).
  eapply sure_step.
  { apply (install_sure env d HG HE X own mine pend q s T l k i C 0 0 tc tc); try done; [by left|by intros j _; left|by rewrite nvalid_zero]. }
  intros old w (own' & q' & s' & -> & HF' & Hlk & H). destruct (Z.eqb_spec old 0) as [->|Hn].
  - destruct H as (own1 & q1 & t & e & Hs & HI1 & Ho1 & Ht1 & E0 & -> & He & Hw & HI'). cbn.
    eexists _, q', s'. split; [done|]. split; [done|]. split; [done|]. destruct (st_mine _ _ _ _ _ _ _ Hs C) as [Hm _]; [set_solver|].
    assert (own1 !! C = None) as HoC by (apply (in_disj _ _ _ _ _ _ HI1); right; set_solver).
    split; [|split; [done|]].
    + eapply still_trans; [apply (still_less _ _ _ mine ({[C]} ∪ mine)); [set_solver|exact Hs]|].
      apply (fresh_still X own1 mine pend q1 q' T l k i C t e tc); try done. by rewrite Hm.
    + rewrite lookup_insert_ne by congruence. split; [done|]. rewrite lookup_insert_eq. split; [done|].
      destruct Hw as [(t2 & Wm & Ht2) _ _ _]. exists t2. rewrite Wm, lookup_insert_eq. split; [done|]. rewrite Ht2. unfold set_entry. by rewrite Z.eqb_refl.
  - destruct H as (Hs & HI' & Ho' & t & Ht & Et). unfold __arm_lpae_free_pages.
    destruct (run_free_page env d HG HE own' ({[C]} ∪ mine) pend q' s' C (fun _ => mret (if iopte_leaf old l (fmt d) then Err (- EEXIST) else Ok (iopte_deref
      old d))) HI')
      as (q2 & -> & HI2 & st' & ->); [set_solver|].
    replace (({[C]} ∪ mine) ∖ {[C]}) with mine in HI2 by set_solver.
    assert (T <> C) as HTC by (intros ->; rewrite (proj1 (in_disj _ _ _ _ _ _ HI' C)) in Ho'; [done|right; set_solver]).
    eexists own', _, s'. split; [done|]. split; [done|]. split; [done|]. split; [|split; [done|split; [done|]]].
    + eapply still_trans; [apply (still_less _ _ _ mine ({[C]} ∪ mine)); [set_solver|exact Hs]|]. split; cbn; eauto.
      * intros v _ Hv. apply (abs_frame d HG (q_mem q') _ own' v); [apply HI'|done|]. intros l2 P t2 HP Ht2. exists t2.
        rewrite lookup_delete_ne; [split; [done|apply same_entry_refl]|]. intros ->.
        rewrite (proj1 (in_disj _ _ _ _ _ _ HI' P)) in HP; [done|right; set_solver].
      * intros p Hp. by rewrite !lookup_delete_ne by congruence.
    + subst old. apply (classify own' mine pend _ T l k i t); try done. cbn. by rewrite lookup_delete_ne.
Qed.

Lemma sync_one_still X own mine pend q T lk i t : inv own mine pend q -> own !! T = Some lk -> q_mem q !! T = Some t ->
  inv own mine pend (q <| q_dev := alter (copy_entries i 1 t) T (q_dev q) |>) /\
    still X own own mine q (q <| q_dev := alter (copy_entries i 1 t) T (q_dev q) |>).
Proof.
  intros HI Ho Ht. split; [eapply inv_pend; [|by eapply sync_inv]; by intros P j [? _]|].
  split; cbn; eauto. intros p Hp. split; [done|]. rewrite lookup_alter_ne; [done|]. intros ->. by destruct (owned_not_mine _ _ _ _ _ _ _ _ HI Ho).
Qed.

(** Memory is allocated without the lock. *)
Lemma alloc_unlocked_sure X own mine pend q s gfp : inv own mine pend q -> Forall (respects X) s -> gfp_blocking gfp = true \/ vmid d = 0 ->
  sure (alloc_unlocked env d gfp (mk_world q s))
    (fun o w => exists own' q' (s' : list (pgt -> pgt)), w = mk_world q' s' /\ Forall (respects X) s' /\ q_lock q' = true /\ still X own own' mine q q' /\
      match o with
      | None => inv own' mine pend q'
      | Some C => inv own' ({[C]} ∪ mine) pend q' /\ C ∉ mine /\ page_ok d C /\ exists tc, q_mem q' !! C = Some tc /\ q_dev q' !! C = Some tc /\
        forall j, tc j = 0
      end).
Proof.
  intros HI HF Hg. unfold alloc_unlocked. rewrite run_unlock. set (q0 := q <| q_lock := false |>).
  assert (inv own mine pend q0) as HI0 by (by apply (same_mem_inv env d own mine pend q)).
  assert (still X own own mine q q0) as H0 by (by apply still_same).
  eapply sure_step; [by apply (yield_sure env d X own mine pend q0)|]. intros [] w [(own1 & q1 & s1 & -> & HF1 & HI1 & H1) Hl1]. cbn in Hl1.
  eapply sure_step; [by apply (alloc_pages_sure env d HG HE own1 mine pend q1)|]. intros o w (q2 & -> & Hl2 & Ho). rewrite Hl1 in Hl2.
  assert (forall Y own3 q3 q4, still X own1 own3 Y q2 q3 -> mine ⊆ Y -> keeps_but (match o with Some C => {[C]} | None => ∅ end) q1 q2 ->
    (forall v, in_range v -> abs d (q_mem q2) v = abs d (q_mem q1) v) -> (match o with Some C => C ∉ mine | None => True end) ->
    q_mem q4 = q_mem q3 -> q_dev q4 = q_dev q3 -> still X own own3 mine q q4) as Hst.
  { intros Y own3 q3 q4 H3 HY Hk Ha Hm Em Ed. eapply still_trans; [exact H0|]. eapply still_trans; [exact H1|].
    eapply (still_trans _ _ _ _ _ _ _ q2); [|eapply still_trans; [by eapply still_less|by apply still_same]].
    split; eauto. intros p Hp. apply Hk. destruct o; set_solver. }
  destruct o as [C|].
  - destruct Ho as (HI2 & Hk & HmC & Hpg & t & Ht & Htd & Hz).
    assert (C ∉ mine) as HCm by (intros ?; assert (is_Some (q_mem q1 !! C)) as [? ?] by (apply (in_dom _ _ _ _ _ _ HI1); by right; right); congruence).
    eapply sure_step; [by apply (yield_sure env d X own1 ({[C]} ∪ mine) pend q2)|]. intros [] w [(own3 & q3 & s3 & -> & HF3 & HI3 & H3) Hl3]. cbn in Hl3.
    rewrite run_lock by done. exists own3, (q3 <| q_lock := true |>), s3. split; [done|]. split; [done|]. split; [done|]. split.
    { apply (Hst ({[C]} ∪ mine) own3 q3); try done; [set_solver|]. intros v Hv. apply (abs_frame d HG (q_mem q1) (q_mem q2) own1 v); [apply HI1|done|].
      intros l T t' Ho' Ht'. exists t'.
      destruct (Hk T) as [-> _]; [set_unfold; congruence|]. split; [done|apply same_entry_refl]. }
    split; [by apply (same_mem_inv env d own3 _ pend q3)|]. split; [done|]. split; [done|]. destruct (st_mine _ _ _ _ _ _ _ H3 C) as [Em Ed]; [set_solver|].
    exists t. cbn. by rewrite Em, Ed.
  - destruct Ho as (HI2 & Hk). eapply sure_step; [by apply (yield_sure env d X own1 mine pend q2)|]. intros [] w [(own3 & q3 & s3 & -> & HF3 & HI3 & H3) Hl3].
    cbn in Hl3.
    rewrite run_lock by done. exists own3, (q3 <| q_lock := true |>), s3. split; [done|]. split; [done|]. split; [done|].
    split; [|by apply (same_mem_inv env d own3 _ pend q3)].
    apply (Hst mine own3 q3); try done. intros v Hv. apply (abs_frame d HG (q_mem q1) (q_mem q2) own1 v); [apply HI1|done|]. intros l T t' Ho' Ht'. exists t'.
    destruct (Hk T) as [-> _]; [set_solver|]. split; [done|apply same_entry_refl].
Qed.

Lemma next_table_sure X own mine pend q s T l k i gfp :
  inv own mine pend q -> q_lock q = true -> own !! T = Some (l, k) -> l < 3 -> 0 <= i < 2 ^ nbits d l -> Forall (respects X) s ->
    gfp_blocking gfp = true \/ vmid d = 0 ->
  sure (next_table env d l (T, i) gfp (mk_world q s)) (next_post X own mine pend q T l k i).
Proof.
  intros HI Hlk Ho Hl Hi HF Hg. destruct (mem_some _ _ _ _ _ _ _ _ HI Ho) as (t & td & Ht & Htd). unfold next_table.
  rewrite (run_read env d HG HE T i t) by (done || by eapply entries_nbits). destruct (Z.eqb_spec (t i) 0) as [E|Hn].
  - eapply sure_step; [by apply (alloc_unlocked_sure X own mine pend q s gfp)|]. intros o w (own1 & q1 & s1 & -> & HF1 & Hlk1 & H1 & Hpost).
    pose proof (st_low _ _ _ _ _ _ _ H1 T l k Ho Hl) as Ho1. destruct o as [C|].
    + destruct Hpost as (HI1 & HCm & Hpg & tc & Htc & Hdc & Hz). eapply sure_mono; [by apply (install_or_free X own1 mine pend q1 s1 T l k i C tc)|].
      intros r w (own2 & q2 & s2 & -> & HF2 & Hlk2 & H2 & HI2 & Ho2 & Hr). exists own2, q2, s2. split_and!; try done. by eapply still_trans.
    + exists own1, q1, s1. split_and!; try done. by left.
  - assert (forall q', inv own mine pend q' -> still X own own mine q q' -> q_lock q' = true -> q_mem q' = q_mem q ->
      next_post X own mine pend q T l k i (if iopte_leaf (t i) l (fmt d) then Err (- EEXIST) else Ok (iopte_deref (t i) d)) (mk_world q' s)) as Hdone.
    { intros q' HI' Hs El Em. exists own, q', s. split_and!; try done. apply (classify own mine pend q' T l k i t); try done. by rewrite Em. }
    destruct (_ && _); [|by apply Hdone; [|apply still_refl| |]]. rewrite (run_sync T i 1 t) by done.
    destruct (sync_one_still X own mine pend q T _ i t HI Ho Ht) as [HI' Hs]. by apply Hdone.
Qed.
End PtMap.
