(* ===== verification/PtLeaf.v ===== *)
(** * PtLeaf: leaf entries of a table

    [arm_lpae_init_pte] checks that some entries of a table are empty, fills them
    and counts them in the entry above. *)
From stdpp Require Import prelude gmap list.
From S2P Require Import Prelude.
From S2P Require Import Effects.
From S2P Require Import PgAlloc.
From S2P Require Import IoPgtable.
From S2P Require Import PtBits.
From S2P Require Import PtInv.
From S2P Require Import PtTree.
From S2P Require Import PtState.
#[local] Open Scope kernel_scope.

Section PtLeaf.
Context {PA : PageAlloc} (env : pg_env) {PL : PageAllocLaws (pe_page_shift env)}.
Context (d : arm_lpae_io_pgtable) (HG : geo_ok d) (HE : env_ok env d).

Abbreviation owner := (gmap Z (Z * Z)).
Abbreviation inv := (inv env d).

(** ** Counting *)

Definition in_use (t : Z -> Z) (j : Z) : bool := negb (t j =? 0).

Lemma nvalid_sum t : nvalid d t = foldr (fun j n => b2z (in_use t j) + n) 0 (upto (2 ^ bits_per_level d)).
Proof.
  unfold nvalid. induction (upto _) as [|j l IH]; [done|]. cbn [foldr]. unfold in_use at 1. destruct (Z.eqb_spec (t j) 0) as [E|E].
  - rewrite filter_cons_False by (by intros ?). cbn. by rewrite IH.
  - rewrite filter_cons_True by done. cbn [length]. rewrite Nat2Z.inj_succ, IH. cbn. lia.
Qed.

(** The sum over a range. *)
Definition rsum (f : Z -> Z) (a n : Z) : Z := foldr (fun j s => f j + s) 0 (seqZ a n).

Lemma rsum_app f a n m : 0 <= n -> 0 <= m -> rsum f a (n + m) = rsum f a n + rsum f (a + n) m.
Proof.
  intros Hn Hm. unfold rsum. rewrite seqZ_app by done. rewrite foldr_app. generalize (foldr (fun j s => f j + s) 0 (seqZ (a + n) m)). intros z.
  induction (seqZ a n) as [|x l IH]; cbn; [lia|]. rewrite IH. lia.
Qed.

Lemma rsum_ext f g a n : (forall j, a <= j < a + n -> f j = g j) -> rsum f a n = rsum g a n.
Proof.
  intros H. unfold rsum. assert (forall j, j ∈ seqZ a n -> f j = g j) as G by (intros j Hj%elem_of_seqZ; by apply H). clear H.
  induction (seqZ a n) as [|x l IH]; cbn; [done|]. rewrite G by left. rewrite IH; [done|]. intros j Hj. apply G. by right.
Qed.

Lemma rsum_const c a n : 0 <= n -> rsum (fun _ => c) a n = c * n.
Proof.
  intros Hn. unfold rsum. assert (Z.of_nat (length (seqZ a n)) = n) as E by (rewrite length_seqZ; lia). rewrite <- E at 2. clear E.
  induction (seqZ a n) as [|x l IH]; cbn [foldr length]; [lia|]. rewrite IH. lia.
Qed.

(** Entries change from unused to used, or from used to unused. *)
Lemma nvalid_range t t' i n g b : range_set t t' i n g -> 0 <= i -> 0 <= n -> i + n <= 2 ^ bits_per_level d ->
  (forall j, i <= j < i + n -> in_use t j = b /\ in_use t' j = negb b) -> nvalid d t' = nvalid d t + if b then - n else n.
Proof.
  intros Hr Hi Hn Hle Hb. rewrite !nvalid_sum. unfold upto.
  change (rsum (fun j => b2z (in_use t' j)) 0 (2 ^ bits_per_level d) = rsum (fun j => b2z (in_use t j)) 0 (2 ^ bits_per_level d) + if b then - n else n).
  replace (2 ^ bits_per_level d) with (i + (n + (2 ^ bits_per_level d - i - n))) by lia. rewrite !rsum_app by lia. rewrite !Z.add_0_l.
  rewrite (rsum_ext (fun j => b2z (in_use t' j)) (fun j => b2z (in_use t j)) 0 i) by (intros j Hj; unfold in_use; rewrite Hr; by case_index).
  rewrite (rsum_ext (fun j => b2z (in_use t' j)) (fun j => b2z (in_use t j)) (i + n)) by (intros j Hj; unfold in_use; rewrite Hr; by case_index).
  rewrite (rsum_ext (fun j => b2z (in_use t j)) (fun _ => b2z b) i n) by (intros j Hj; by destruct (Hb j Hj) as [-> _]).
  rewrite (rsum_ext (fun j => b2z (in_use t' j)) (fun _ => b2z (negb b)) i n) by (intros j Hj; by destruct (Hb j Hj) as [_ ->]).
  rewrite !rsum_const by done. destruct b; cbn; lia.
Qed.

Lemma nvalid_bound t : 0 <= nvalid d t <= 2 ^ bits_per_level d.
Proof.
  unfold nvalid. split; [lia|]. pose proof (length_filter (fun i => t i <> 0) (upto (2 ^ bits_per_level d))) as H. unfold upto in *. rewrite length_seqZ in H.
  lia.
Qed.

(** ** Checking *)

Lemma any_valid_run own mine pend q s T l k t i : inv own mine pend q -> own !! T = Some (l, k) -> q_mem q !! T = Some t -> forall js,
  Forall (fun j => 0 <= i + j < 2 ^ nbits d l) js ->
  any_valid env (T, i) js (mk_world q s) = Ret (existsb (fun j => in_use t (i + j)) js) (mk_world q s).
Proof.
  intros HI Ho Ht. induction js as [|j js IH]; intros HF; [done|]. apply Forall_cons in HF as [Hj HF]. cbn [any_valid existsb]. unfold ptr_add. cbn [fst snd].
  rewrite (run_read env d HG HE T (i + j) t) by (done || by eapply entries_nbits). unfold in_use at 1.
  destruct (tr_entry _ _ _ (in_tree _ _ _ _ _ _ HI) T l k t (i + j) Ho Ht Hj) as [[E|(pa & prot & E & _ & Hp)]|(_ & C & HC & _)].
  - rewrite E. cbn. by apply IH.
  - rewrite E, leaf_valid, (proj2 (Z.eqb_neq _ 0)) by (done || by apply leaf_nonzero). done.
  - rewrite (table_valid d _ C HC), (proj2 (Z.eqb_neq _ 0)) by (by eapply table_nonzero). done.
Qed.

(** ** Changing leaf entries *)

(** Entries [i] to [i + n - 1] of [T] become [g], and the entry above, at [ip] of
    [P], counts them. *)
Record rewritten (T l i n : Z) (g : Z -> Z) (flush : bool) (prev : option (Z * Z)) (t t' : Z -> Z) (q q' : pgt) : Prop := {
  rw_range : range_set t t' i n g;
  rw_T : q_mem q !! T = Some t /\ q_mem q' !! T = Some t';
  rw_prev : match prev with
            | None => True
            | Some (P, ip) => P <> T /\ exists tp tp', q_mem q !! P = Some tp /\ q_mem q' !! P = Some tp' /\ (forall j, j <> ip -> tp' j = tp j) /\
                (forall C, is_table d (tp ip) C -> is_table d (tp' ip) C)
            end;
  rw_mem : forall x, x <> T -> (forall P ip, prev = Some (P, ip) -> x <> P) -> q_mem q' !! x = q_mem q !! x;
  rw_dev : forall x, x <> T -> q_dev q' !! x = q_dev q !! x;
  rw_devT : exists td td', q_dev q !! T = Some td /\ q_dev q' !! T = Some td' /\
    (coherent_walk (cfg d) = false -> forall j, td' j = if flush && ((i <=? j) && (j <? i + n)) then t' j else td j);
  rw_rest : q_al q' = q_al q /\ freelist q' = freelist q /\ q_cached q' = q_cached q /\ q_lock q' = q_lock q;
}.

(** What the changes must respect. *)
Record rewrite_ok (own : owner) (T l k i n : Z) (g : Z -> Z) (prev : option (Z * Z)) (t t' : Z -> Z) (q' : pgt) : Prop := {
  ro_own : own !! T = Some (l, k);
  ro_fit : 0 <= i /\ 0 <= n /\ i + n <= 2 ^ nbits d l;
  ro_plain : forall j, i <= j < i + n -> plain d l (t j) /\ plain d l (g (j - i));
  ro_prev : forall P ip, prev = Some (P, ip) -> own !! P = Some (l - 1, k / 2 ^ nbits d (l - 1)) /\ ip = k mod 2 ^ nbits d (l - 1) /\ start_level d < l;
  ro_cnt : l = 3 -> start_level d < 3 -> exists P ip tp', prev = Some (P, ip) /\ q_mem q' !! P = Some tp' /\ iopte_tblcnt (tp' ip) = nvalid d t' mod 2 ^ 13;
}.

Section Rewritten.
Context (own : owner) (mine : gset Z) (pend : Z -> Z -> Prop) (q q' : pgt).
Context (T l k i n : Z) (g : Z -> Z) (flush : bool) (prev : option (Z * Z)) (t t' : Z -> Z).
Context (HI : inv own mine pend q) (RW : rewritten T l i n g flush prev t t' q q') (RO : rewrite_ok own T l k i n g prev t t' q').

Lemma rw_entry j : 0 <= j < 2 ^ nbits d l -> (t' j = t j /\ ~ (i <= j < i + n)) \/ (i <= j < i + n /\ plain d l (t j) /\ plain d l (t' j)).
Proof.
  intros Hj. rewrite (rw_range _ _ _ _ _ _ _ _ _ _ _ RW). destruct ((i <=? j) && (j <? i + n)) eqn:E; [right|left; split; [done|lia]].
  split; [lia|]. apply (ro_plain _ _ _ _ _ _ _ _ _ _ _ RO). lia.
Qed.

Lemma rw_prev_entry P ip : prev = Some (P, ip) -> exists tp tp', q_mem q !! P = Some tp /\ q_mem q' !! P = Some tp' /\ (forall j, j <> ip -> tp' j = tp j) /\
  is_table d (tp ip) T /\ is_table d (tp' ip) T /\ own !! P = Some (l - 1, k / 2 ^ nbits d (l - 1)) /\ P <> T /\ l <= 3.
Proof.
  intros E. destruct (ro_prev _ _ _ _ _ _ _ _ _ _ _ RO P ip E) as (Ho & Ei & Hl). pose proof (rw_prev _ _ _ _ _ _ _ _ _ _ _ RW) as H. rewrite E in H.
  destruct H as (HPT & tp & tp' & H1 & H2 & H3 & H4). pose proof (ro_own _ _ _ _ _ _ _ _ _ _ _ RO) as HoT.
  destruct (tr_parent _ _ _ (in_tree _ _ _ _ _ _ HI) _ _ _ HoT Hl) as (P2 & tp2 & G1 & G2 & G3).
  assert (P2 = P) as -> by (by apply (own_inj d _ own (in_tree _ _ _ _ _ _ HI) (l - 1) P2 P (k / 2 ^ nbits d (l - 1)))).
  rewrite H1 in G2. injection G2 as <-. rewrite <- Ei in G3. exists tp, tp'. destruct (tr_level _ _ _ (in_tree _ _ _ _ _ _ HI) _ _ _ HoT).
  split_and!; auto; lia.
Qed.

Lemma rw_small : small_change d own (q_mem q) (q_mem q').
Proof.
  intros P l' k' t2 HP Ht2. destruct (rw_T _ _ _ _ _ _ _ _ _ _ _ RW) as [Ht Ht']. pose proof (ro_own _ _ _ _ _ _ _ _ _ _ _ RO) as HoT.
  destruct (decide (P = T)) as [->|HPT].
  - rewrite HoT in HP. injection HP as <- <-. rewrite Ht in Ht2. injection Ht2 as <-. exists t'. split; [done|]. intros j Hj.
    destruct (rw_entry j Hj) as [[-> _]|(_ & ? & ?)]; [left; apply same_entry_refl|by right].
  - assert ((exists ip, prev = Some (P, ip)) \/ forall ip, prev <> Some (P, ip)) as [[ip E]|Hn].
    { clear -HPT. destruct prev as [[P' ip]|]; [|by right]. destruct (decide (P = P')) as [->|?]; [left; eauto|right; congruence]. }
    + destruct (rw_prev_entry P ip E) as (tp & tp' & H1 & H2 & H3 & H4 & H5 & H6 & _ & Hl3). rewrite H1 in Ht2. injection Ht2 as <-. exists tp'. split; [done|].
      intros j Hj. left. rewrite H6 in HP. injection HP as <- <-. destruct (decide (j = ip)) as [->|Hj']; [|rewrite H3 by done; apply same_entry_refl].
      right. split; [lia|]. by exists T.
    + exists t2. rewrite (rw_mem _ _ _ _ _ _ _ _ _ _ _ RW); [|done|by intros P' ip E ->; apply (Hn ip)]. split; [done|]. intros j _. left.
      apply same_entry_refl.
Qed.

Lemma rw_some x : is_Some (q_mem q' !! x) <-> is_Some (q_mem q !! x).
Proof.
  destruct (rw_T _ _ _ _ _ _ _ _ _ _ _ RW) as [Ht Ht']. destruct (decide (x = T)) as [->|HxT]; [rewrite Ht, Ht'; split; eauto|].
  assert ((exists ip, prev = Some (x, ip)) \/ forall ip, prev <> Some (x, ip)) as [[ip E]|Hn].
  { clear -HxT. destruct prev as [[P' ip]|]; [|by right]. destruct (decide (x = P')) as [->|?]; [left; eauto|right; congruence]. }
  - destruct (rw_prev_entry x ip E) as (tp & tp' & -> & -> & _). split; eauto.
  - rewrite (rw_mem _ _ _ _ _ _ _ _ _ _ _ RW); [done|done|by intros P ip E ->; apply (Hn ip)].
Qed.

Lemma rw_counts : counts_ok d (q_mem q') own.
Proof.
  intros P2 k2 t2' i2 C2 tc' HP2 Ht2' Hi2 HC2 Htc'. destruct (rw_T _ _ _ _ _ _ _ _ _ _ _ RW) as [Ht Ht']. pose proof (ro_own _ _ _ _ _ _ _ _ _ _ _ RO) as HoT.
  assert (tree d (q_mem q') own) as HT' by (eapply tree_change; [done|apply HI|apply rw_small]).
  pose proof (last_table d HG own (q_mem q') P2 k2 t2' i2 C2 HT' HP2 Ht2' Hi2 HC2) as HoC2. destruct (tr_level _ _ _ HT' _ _ _ HP2) as [Hl2 _].
  destruct (decide (C2 = T)) as [->|HCT].
  - rewrite HoT in HoC2. injection HoC2 as -> Ek. rewrite Ht' in Htc'. injection Htc' as <-.
    destruct (ro_cnt _ _ _ _ _ _ _ _ _ _ _ RO) as (P & ip & tp' & E & Htp' & Hc); [done|lia|].
    destruct (ro_prev _ _ _ _ _ _ _ _ _ _ _ RO P ip E) as (HoP & Ei & _).
    pose proof (nbits_pos d HG 2). change (3 - 1) with 2 in *. rewrite Ek, Z.div_add_l, (Z.div_small i2), Z.add_0_r in HoP by lia.
    rewrite Ek, Z.add_comm, Z.mod_add, Z.mod_small in Ei by lia. subst ip. rewrite (own_inj d _ own HT' 2 P2 P k2 HP2 HoP) in Ht2'. rewrite Htp' in Ht2'.
    by injection Ht2' as <-.
  - assert (q_mem q !! C2 = Some tc') as Htc.
    { rewrite <- (rw_mem _ _ _ _ _ _ _ _ _ _ _ RW); [done|done|]. intros P ip E ->.
      destruct (rw_prev_entry P ip E) as (_ & _ & _ & _ & _ & _ & _ & HoP & _ & Hl3).
      rewrite HoP in HoC2. injection HoC2. lia. }
    assert (exists t2, q_mem q !! P2 = Some t2 /\ (t2' i2 = t2 i2)) as (t2 & Ht2 & E2).
    { destruct (decide (P2 = T)) as [->|HPT].
      - rewrite HoT in HP2. injection HP2 as El Ek. rewrite Ht' in Ht2'. injection Ht2' as <-. exists t. split; [done|].
        destruct (rw_entry i2) as [[-> _]|(_ & _ & Hp)]; [by rewrite El|done|]. rewrite El in Hp. by apply (plain_not_table d HG 2 _ C2) in HC2.
      - assert ((exists ip, prev = Some (P2, ip)) \/ forall ip, prev <> Some (P2, ip)) as [[ip E]|Hn].
        { clear -HPT. destruct prev as [[P' ip]|]; [|by right]. destruct (decide (P2 = P')) as [->|?]; [left; eauto|right; congruence]. }
        + destruct (rw_prev_entry P2 ip E) as (tp & tp' & H1 & H2 & H3 & H4 & H5 & _). rewrite H2 in Ht2'. injection Ht2' as <-. exists tp. split; [done|].
          apply H3.
          intros ->. by apply HCT, (table_inj d (tp' ip)).
        + exists t2'. rewrite <- (rw_mem _ _ _ _ _ _ _ _ _ _ _ RW); [done|done|by intros P ip E ->; apply (Hn ip)]. }
    rewrite E2 in *. by apply (in_cnt _ _ _ _ _ _ HI P2 k2 t2 i2 C2 tc').
Qed.

Lemma rw_dev_ok pend' : (forall P j, pend P j -> pend' P j) -> (flush = false -> forall j, i <= j < i + n -> pend' T j) -> coherent_walk (cfg d) = false ->
  dev_ok d (q_mem q') (q_dev q') own pend'.
Proof.
  intros Hp1 Hp2 Hc P l2 k2 t2' HP Ht2'. destruct (rw_T _ _ _ _ _ _ _ _ _ _ _ RW) as [Ht Ht']. pose proof (ro_own _ _ _ _ _ _ _ _ _ _ _ RO) as HoT.
  destruct (decide (P = T)) as [->|HPT].
  - rewrite Ht' in Ht2'. injection Ht2' as <-. rewrite HoT in HP. injection HP as El Ek.
    destruct (rw_devT _ _ _ _ _ _ _ _ _ _ _ RW) as (td & td' & Htd & Htd' & Hj). exists td'. split; [done|]. intros j Hjb Hn. rewrite (Hj Hc j).
    destruct (in_dev _ _ _ _ _ _ HI Hc T l k t HoT Ht) as (td2 & E & Hs). rewrite Htd in E. injection E as <-. rewrite <- El in *.
    destruct (rw_entry j Hjb) as [[-> Ho]|(Hr & _ & _)].
    + rewrite (proj2 (andb_false_iff _ _)) by (right; lia). apply Hs; [done|]. intros ?. by apply Hn, Hp1.
    + destruct (flush && _) eqn:Ef; [apply same_entry_refl|]. assert (flush = false) as Ef' by (destruct flush; [cbn in Ef; lia|done]).
      by destruct (Hn (Hp2 Ef' j Hr)).
  - assert ((exists ip, prev = Some (P, ip)) \/ forall ip, prev <> Some (P, ip)) as [[ip E]|Hn].
    { clear -HPT. destruct prev as [[P' ip]|]; [|by right]. destruct (decide (P = P')) as [->|?]; [left; eauto|right; congruence]. }
    + destruct (rw_prev_entry P ip E) as (tp & tp' & H1 & H2 & H3 & H4 & H5 & H6 & _ & Hl3). rewrite H2 in Ht2'. injection Ht2' as <-.
      rewrite H6 in HP. injection HP as <- <-. destruct (in_dev _ _ _ _ _ _ HI Hc P _ _ tp H6 H1) as (td & Htd & Hs). exists td.
      rewrite (rw_dev _ _ _ _ _ _ _ _ _ _ _ RW) by done. split; [done|]. intros j Hj Hnp. specialize (Hs j Hj ltac:(intros ?; by apply Hnp, Hp1)).
      destruct (decide (j = ip)) as [->|Hji]; [|by rewrite H3]. eapply same_entry_trans; [|exact Hs]. right. split; [lia|]. by exists T.
    + rewrite (rw_mem _ _ _ _ _ _ _ _ _ _ _ RW) in Ht2'; [|done|by intros P' ip E ->; apply (Hn ip)]. rewrite (rw_dev _ _ _ _ _ _ _ _ _ _ _ RW) by done.
      destruct (in_dev _ _ _ _ _ _ HI Hc P l2 k2 t2' HP Ht2') as (td & Htd & Hs). exists td. split; [done|]. intros j Hj Hnp. apply Hs; [done|]. intros ?.
      by apply Hnp, Hp1.
Qed.

Lemma rewritten_inv pend' : (forall P j, pend P j -> pend' P j) -> (flush = false -> forall j, i <= j < i + n -> pend' T j) -> inv own mine pend' q'.
Proof.
  intros Hp1 Hp2. destruct (rw_rest _ _ _ _ _ _ _ _ _ _ _ RW) as (Ea & Ef & Ec & _).
  assert (dom (q_mem q') = dom (q_mem q)) as Ed by (apply set_eq; intros x; rewrite !elem_of_dom; apply rw_some).
  split; rewrite ?Ea, ?Ef, ?Ec, ?Ed; try apply HI.
  - eapply tree_change; [done|apply HI|apply rw_small].
  - apply rw_counts.
  - by apply rw_dev_ok.
  - intros p. rewrite rw_some. apply (in_dom _ _ _ _ _ _ HI).
  - intros p. rewrite rw_some, <- (in_devdom _ _ _ _ _ _ HI). destruct (decide (p = T)) as [->|HpT].
    + destruct (rw_devT _ _ _ _ _ _ _ _ _ _ _ RW) as (td & td' & -> & -> & _). split; eauto.
    + by rewrite (rw_dev _ _ _ _ _ _ _ _ _ _ _ RW).
Qed.

(** The translation of the addresses of the entries that changed, and of others. *)
Lemma rw_abs_out v : in_range d v -> ~ (pslot d l v = k /\ i <= idx d l v < i + n) -> abs d (q_mem q') v = abs d (q_mem q) v.
Proof.
  intros Hv Hn. apply (abs_frame d HG (q_mem q) (q_mem q') own v); [apply HI|done|]. intros l2 P t2 HP Ht2.
  destruct (rw_small P l2 _ t2 HP Ht2) as (t2' & Ht2' & Hs). exists t2'. split; [done|].
  destruct (decide (P = T)) as [->|HPT].
  - destruct (rw_T _ _ _ _ _ _ _ _ _ _ _ RW) as [Ht Ht']. rewrite (ro_own _ _ _ _ _ _ _ _ _ _ _ RO) in HP. injection HP as El Ek. rewrite Ht in Ht2.
    injection Ht2 as <-.
    rewrite Ht' in Ht2'. injection Ht2' as <-. rewrite <- El in *. rewrite (rw_range _ _ _ _ _ _ _ _ _ _ _ RW).
    rewrite (proj2 (andb_false_iff _ _)); [apply same_entry_refl|]. destruct (Z.leb_spec i (idx d l v)); [right|by left].
    destruct (Z.ltb_spec (idx d l v) (i + n)); [|done].
    destruct Hn. done.
  - assert ((exists ip, prev = Some (P, ip)) \/ forall ip, prev <> Some (P, ip)) as [[ip E]|Hnp].
    { clear -HPT. destruct prev as [[P' ip]|]; [|by right]. destruct (decide (P = P')) as [->|?]; [left; eauto|right; congruence]. }
    + destruct (rw_prev_entry P ip E) as (tp & tp' & H1 & H2 & H3 & H4 & H5 & H6 & _ & Hl3). rewrite H2 in Ht2'. injection Ht2' as <-. rewrite H1 in Ht2.
      injection Ht2 as <-.
      rewrite H6 in HP. injection HP as <- _. destruct (decide (idx d (l - 1) v = ip)) as [->|Hji]; [|rewrite H3 by done; apply same_entry_refl]. right.
      split; [lia|]. by exists T.
    + rewrite (rw_mem _ _ _ _ _ _ _ _ _ _ _ RW) in Ht2'; [|done|by intros P' ip E ->; apply (Hnp ip)]. rewrite Ht2 in Ht2'. injection Ht2' as <-.
      apply same_entry_refl.
Qed.

Lemma rw_abs_in v : in_range d v -> pslot d l v = k -> i <= idx d l v < i + n ->
  (g (idx d l v - i) = 0 -> abs d (q_mem q') v = None) /\
  (forall pa prot, g (idx d l v - i) = leaf_pte d pa prot l -> pa_ok d l pa -> prot_ok prot -> abs d (q_mem q') v = Some (pa + v mod 2 ^ sh d l, prot)).
Proof.
  intros Hv Ep Hr. assert (tree d (q_mem q') own) as HT' by (eapply tree_change; [done|apply HI|apply rw_small]).
  destruct (rw_T _ _ _ _ _ _ _ _ _ _ _ RW) as [Ht Ht'].
  pose proof (ro_own _ _ _ _ _ _ _ _ _ _ _ RO) as HoT. rewrite <- Ep in HoT.
  assert (t' (idx d l v) = g (idx d l v - i)) as E by (rewrite (rw_range _ _ _ _ _ _ _ _ _ _ _ RW); by rewrite (proj2 (andb_true_iff _ _)) by lia).
  split; [intros E0|intros pa prot E0 Hpa Hp]; rewrite E0 in E.
  - by apply (abs_empty d HG (q_mem q') own v l T t').
  - by apply (abs_leaf d HG (q_mem q') own v l T t' pa prot).
Qed.

Lemma rw_old_empty v : in_range d v -> pslot d l v = k -> i <= idx d l v < i + n -> t (idx d l v) = 0 -> abs d (q_mem q) v = None.
Proof.
  intros Hv Ep Hr E. pose proof (ro_own _ _ _ _ _ _ _ _ _ _ _ RO) as HoT. rewrite <- Ep in HoT. destruct (rw_T _ _ _ _ _ _ _ _ _ _ _ RW) as [Ht _].
  apply (abs_empty d HG (q_mem q) own v l T t); [apply HI|done..].
Qed.
End Rewritten.

Lemma rewritten_kept low X own mine pend q q' T l k i n g flush prev t t' : inv own mine pend q -> rewritten T l i n g flush prev t t' q q' ->
  rewrite_ok own T l k i n g prev t t' q' -> kept d low X own own mine q q'.
Proof.
  intros HI RW RO. split; [done|done|]. intros p Hp.
  assert (forall P lk, own !! P = Some lk -> p <> P) as Hne by (intros P lk HP ->; by destruct (owned_not_mine env d own mine pend q P lk HI HP)).
  pose proof (Hne _ _ (ro_own _ _ _ _ _ _ _ _ _ _ _ RO)) as HT. rewrite (rw_dev _ _ _ _ _ _ _ _ _ _ _ RW p HT).
  rewrite (rw_mem _ _ _ _ _ _ _ _ _ _ _ RW p HT); [done|].
  intros P ip E. destruct (ro_prev _ _ _ _ _ _ _ _ _ _ _ RO P ip E) as (HP & _). by apply (Hne _ _ HP).
Qed.

(** ** Filling *)

(** The entry above a table. *)
Definition prev_ok (own : owner) (l k : Z) (prev : option (Z * Z)) : Prop :=
  match prev with
  | None => l = start_level d
  | Some (P, ip) => start_level d < l /\ own !! P = Some (l - 1, k / 2 ^ nbits d (l - 1)) /\ ip = k mod 2 ^ nbits d (l - 1)
  end.

Definition leaf_at (l paddr prot j : Z) : Z := leaf_pte d (paddr + j * 2 ^ sh d l) prot l.

Definition filled (own : owner) (q : pgt) (s : list (pgt ->
  pgt)) (T l k i n paddr prot : Z) (prev : option (Z * Z)) (flush : bool) (ret : Z) (w : world pgt) : Prop :=
  exists t, q_mem q !! T = Some t /\
  ((ret = - EEXIST /\ w = mk_world q s /\ exists j, i <= j < i + n /\ t j <> 0) \/
   (ret = 0 /\ (forall j, i <= j < i + n -> t j = 0) /\ exists q' t', w = mk_world q' s /\
      rewritten T l i n (leaf_at l paddr prot) flush prev t t' q q' /\ rewrite_ok own T l k i n (leaf_at l paddr prot) prev t t' q')).

Lemma pa_ok_u64 l pa : pa_ok d l pa -> u64 pa = pa.
Proof.
  intros [_ H]. unfold u64. apply Z.mod_small. split; [lia|].
  assert (2 ^ oas (cfg d) < 2 ^ 64) by (apply Z.pow_lt_mono_r; [lia..|]; pose proof (go_oas d HG); destruct (_ =? 13); lia).
  pose proof (Z.pow_nonneg 2 (ARM_LPAE_LVL_SHIFT l d)). lia.
Qed.

Lemma run_tblcnt_add {B} P ip n tp (k : unit -> M pgt B) q s : q_mem q !! P = Some tp -> 0 <= ip < 2 ^ bits_per_level d ->
  mbnd (iopte_tblcnt_add env (P, ip) n) k (mk_world q s) =
  k tt (mk_world (q <| q_mem := <[P := set_entry tp ip (iopte_tblcnt_set (tp ip) (iopte_tblcnt (tp ip) + n))]> (q_mem q) |>) s).
Proof. intros Ht Hi. unfold iopte_tblcnt_add. rewrite run_assoc, (run_read env d HG HE P ip tp) by done. by rewrite (run_write env d HG HE P ip _ tp). Qed.

(** The writes to the table alone. *)
Definition table_filled (T i n : Z) (g : Z -> Z) (flush : bool) (t : Z -> Z) (q q1 : pgt) : Prop :=
  exists t' dev, q1 = q <| q_mem := <[T := t']> (q_mem q) |> <| q_dev := dev |> /\ range_set t t' i n g /\
    (forall x, x <> T -> dev !! x = q_dev q !! x) /\
    (exists td td', q_dev q !! T = Some td /\ dev !! T = Some td' /\
      (coherent_walk (cfg d) = false -> forall j, td' j = if flush && ((i <=? j) && (j <? i + n)) then t' j else td j)).

Lemma fill_table {B} T l i n paddr prot flush t td (k : unit -> M pgt B) q s Q :
  q_mem q !! T = Some t -> q_dev q !! T = Some td -> 0 <= i -> 0 <= n -> i + n <= 2 ^ bits_per_level d ->
  (forall j, 0 <= j < n -> pa_ok d l (paddr + j * 2 ^ sh d l)) ->
  (forall q1, table_filled T i n (leaf_at l paddr prot) flush t q q1 -> sure (k tt (mk_world q1 s)) Q) ->
  sure (mbnd (__arm_lpae_init_pte env d paddr prot l n (T, i) flush) k (mk_world q s)) Q.
Proof.
  intros Ht Htd Hi Hn Hle Hpa Hk. unfold __arm_lpae_init_pte. cbv zeta. rewrite run_assoc. apply (run_range env d HG HE T i n _ t); [done..|].
  intros t' Hr. assert (range_set t t' i n (leaf_at l paddr prot)) as Hr'.
  { intros j. rewrite Hr. destruct ((i <=? j) && (j <? i + n)) eqn:E; [|done]. unfold leaf_at. rewrite (block_size d).
    rewrite (pa_ok_u64 l) by (apply Hpa; lia). done. }
  destruct (flush && negb (coherent_walk (cfg d))) eqn:Ef.
  - rewrite (run_sync T i n t') by apply lookup_insert_eq. apply Hk. exists t', (alter (copy_entries i n t') T (q_dev q)). split; [done|]. split; [done|].
    split.
    { intros x Hx. by rewrite lookup_alter_ne. }
    exists td, (copy_entries i n t' td). rewrite lookup_alter_eq, Htd. split; [done|]. split; [done|]. intros _ j. unfold copy_entries.
    apply andb_true_iff in Ef as [-> _]. done.
  - rewrite run_ret. apply Hk. exists t', (q_dev q). split; [by destruct q|]. split; [done|]. split; [done|]. exists td, td. split; [done|]. split; [done|].
    intros Hc j. rewrite Hc in Ef. cbn in Ef. rewrite andb_true_r in Ef. by rewrite Ef.
Qed.

Lemma none_in_use t i n : existsb (fun j => in_use t (i + j)) (upto n) = false -> forall j, i <= j < i + n -> t j = 0.
Proof.
  intros Ex j Hj. destruct (Z.eq_dec (t j) 0) as [|Hne]; [done|]. assert (existsb (fun j => in_use t (i + j)) (upto n) = true); [|congruence].
  apply existsb_exists. exists (j - i). split; [apply list_elem_of_In, elem_of_seqZ; lia|]. unfold in_use. replace (i + (j - i)) with j by lia. lia.
Qed.

Lemma init_pte_sure own mine pend q s T l k i n paddr prot prev flush :
  inv own mine pend q -> own !! T = Some (l, k) -> 0 <= i -> 0 <= n -> i + n <= 2 ^ nbits d l -> prev_ok own l k prev ->
  (forall j, 0 <= j < n -> pa_ok d l (paddr + j * 2 ^ sh d l)) -> prot_ok prot ->
  sure (arm_lpae_init_pte env d paddr prot l n (T, i) prev flush (mk_world q s)) (filled own q s T l k i n paddr prot prev flush).
Proof.
  intros HI Ho Hi Hn Hle Hprev Hpa Hp. destruct (mem_some _ _ _ _ _ _ _ _ HI Ho) as (t & td & Ht & Htd). pose proof (nbits_le d HG l) as Hnb.
  pose proof (nbits_pos d HG l).
  assert (2 ^ nbits d l <= 2 ^ bits_per_level d) as Hpow by (apply Z.pow_le_mono_r; lia).
  unfold arm_lpae_init_pte. unfold mbnd at 1. rewrite (any_valid_run own mine pend q s T l k t i HI Ho Ht).
  2: { apply Forall_forall. intros j Hj%elem_of_seqZ. lia. }
  destruct (existsb _ _) eqn:Ex.
  - apply existsb_exists in Ex as (j & Hj%list_elem_of_In%elem_of_seqZ & Hu). exists t. split; [done|]. left. split; [done|]. split; [done|].
    exists (i + j). split; [lia|]. unfold in_use in Hu. lia.
  - pose proof (none_in_use t i n Ex) as Hz.
    apply (fill_table T l i n paddr prot flush t td); try done; [lia|]. intros q1 (t' & dev & -> & Hr & Hdx & td1 & td' & Htd1 & Htd' & Hjd).
    set (g := leaf_at l paddr prot).
    assert (forall j, 0 <= j < n -> plain d l (g j)) as Hg by (intros j Hj; right; exists (paddr + j * 2 ^ sh d l), prot; split_and!; auto; by apply Hpa).
    unfold prev_ok in Hprev. destruct prev as [[P ip]|].
    + destruct Hprev as (Hls & HoP & Eip). destruct (mem_some _ _ _ _ _ _ _ _ HI HoP) as (tp & tdp & Htp & _).
      assert (P <> T) as HPT by (intros ->; rewrite Ho in HoP; injection HoP; lia).
      assert (0 <= ip < 2 ^ nbits d (l - 1)) as Hip by (subst ip; apply Z.mod_pos_bound; pose proof (nbits_pos d HG (l - 1)); lia).
      rewrite (run_tblcnt_add P ip n tp); [|cbn; by rewrite lookup_insert_ne|by eapply entries_nbits].
      cbn. exists t. split; [done|]. right. split; [done|]. split; [done|].
      destruct (tr_parent _ _ _ (in_tree _ _ _ _ _ _ HI) _ _ _ Ho Hls) as (P2 & tp2 & G1 & G2 & G3).
      assert (P2 = P) as -> by (by apply (own_inj d _ own (in_tree _ _ _ _ _ _ HI) (l - 1) P2 P (k / 2 ^ nbits d (l - 1)))).
      rewrite Htp in G2. injection G2 as <-. rewrite <- Eip in G3. eexists _, t'. split; [done|]. split.
      * split; cbn; try done.
        -- split; [done|]. by rewrite lookup_insert_ne, lookup_insert_eq.
        -- split; [done|]. exists tp. rewrite lookup_insert_eq. eexists. split; [done|]. split; [done|]. unfold set_entry.
           split; [intros j Hj; by rewrite (proj2 (Z.eqb_neq _ _))|].
           intros C HC. rewrite Z.eqb_refl. by apply tblcnt_set_ok.
        -- intros x Hx Hx'. rewrite !lookup_insert_ne; [done|done|]. intros ->. by apply (Hx' x ip).
        -- by exists td1, td'.
      * split; cbn; try done.
        -- intros j Hj. split; [left; by apply Hz|apply Hg; lia].
        -- by intros P' ip' [= <- <-].
        -- intros El Hst. exists P, ip. eexists. rewrite lookup_insert_eq. split; [done|]. split; [done|]. unfold set_entry. rewrite Z.eqb_refl, tblcnt_set_get.
           subst l. change (3 - 1) with 2 in *. rewrite (in_cnt _ _ _ _ _ _ HI P _ tp ip T t HoP Htp Hip G3 Ht), Zplus_mod_idemp_l. f_equal.
           rewrite (nvalid_range t t' i n g false Hr Hi Hn); [done|lia|]. intros j Hj. unfold in_use. rewrite Hr, (Hz j Hj).
           rewrite (proj2 (andb_true_iff _ _)) by lia. split; [done|]. unfold g, leaf_at. by rewrite (proj2 (Z.eqb_neq _ _)) by (by apply leaf_nonzero).
    + cbn. exists t. split; [done|]. right. split; [done|]. split; [done|]. eexists _, t'. split; [done|]. split; split; cbn; try done.
      * split; [done|]. by rewrite lookup_insert_eq.
      * intros x Hx _. by rewrite lookup_insert_ne.
      * by exists td1, td'.
      * intros j Hj. split; [left; by apply Hz|apply Hg; lia].
      * intros El Hst. lia.
Qed.
End PtLeaf.
