(* ===== verification/PtMapPages.v ===== *)
(** * PtMapPages: what mapping pages does

    [__arm_lpae_map] and [qcom_arm_lpae_map_pages] against the translation of the
    addresses that the caller owns. *)
From stdpp Require Import prelude gmap list.
From S2P Require Import Prelude.
From S2P Require Import Effects.
From S2P Require Import PgAlloc.
From S2P Require Import IoPgtable.
From S2P Require Import PtBits.
From S2P Require Import PtInv.
From S2P Require Import PtTree.
From S2P Require Import PtState.
From S2P Require Import PtMap.
From S2P Require Import PtLeaf.
#[local] Open Scope kernel_scope.

(** ** Runs of entries *)

Section Runs.
Context (d : arm_lpae_io_pgtable) (HG : geo_ok d).

Lemma sh_mono l l' : l < l' -> l' <= 3 -> sh d l' < sh d l.
Proof. intros H H'. unfold sh, ARM_LPAE_LVL_SHIFT. pose proof (bpl_pos d HG). nia. Qed.

Lemma block_size_eqb l l' : l <= 3 -> l' <= 3 -> (2 ^ sh d l' =? ARM_LPAE_BLOCK_SIZE l d) = (l =? l').
Proof.
  intros Hl Hl'. rewrite block_size. pose proof (sh_pos d HG l Hl). pose proof (sh_pos d HG l' Hl'). destruct (Z.eqb_spec l l') as [->|Hn]; [lia|].
  apply Z.eqb_neq. intros E. apply Z.pow_inj_r in E; [|lia..]. assert (l < l' \/ l' < l) as [H1|H1] by lia; pose proof (sh_mono _ _ H1 ltac:(done)); lia.
Qed.

(** An address of the [n] blocks of a level from [v] on. *)
Lemma run_of_slots l v n a : l <= 3 -> v mod 2 ^ sh d l = 0 -> idx d l v + n <= 2 ^ nbits d l ->
  v <= a < v + n * 2 ^ sh d l <-> pslot d l a = pslot d l v /\ idx d l v <= idx d l a < idx d l v + n.
Proof.
  intros Hl Hv Hn. pose proof (sh_pos d HG l Hl). pose proof (nbits_pos d HG l). pose proof (idx_range d HG l v). pose proof (idx_range d HG l a).
  assert (v = slot d l v * 2 ^ sh d l) as Ev by (unfold slot; pose proof (Z.div_mod v (2 ^ sh d l)); lia).
  pose proof (Z.div_mod a (2 ^ sh d l) ltac:(lia)) as Ea. pose proof (Z.mod_pos_bound a (2 ^ sh d l) ltac:(lia)) as Hm. fold (slot d l a) in Ea.
  transitivity (slot d l v <= slot d l a < slot d l v + n); [split; intros H'; nia|].
  rewrite (slot_split d HG l v), (slot_split d HG l a). split.
  - intros Hs. assert (pslot d l a = pslot d l v) as Ep by nia. rewrite Ep in Hs. split; [done|lia].
  - intros [-> Hs]. lia.
Qed.

Lemma run_addr l v a : l <= 3 -> v mod 2 ^ sh d l = 0 -> pslot d l a = pslot d l v -> a - v = (idx d l a - idx d l v) * 2 ^ sh d l + a mod 2 ^ sh d l.
Proof.
  intros Hl Hv Hp. pose proof (sh_pos d HG l Hl). pose proof (Z.div_mod a (2 ^ sh d l) ltac:(lia)) as Ea.
  pose proof (Z.div_mod v (2 ^ sh d l) ltac:(lia)) as Ev.
  fold (slot d l a) in Ea. fold (slot d l v) in Ev. rewrite (slot_split d HG l a), Hp in Ea. rewrite (slot_split d HG l v) in Ev. rewrite Hv in Ev. lia.
Qed.

(** A run that ends inside the range of the table ends inside its root. *)
Lemma run_fits l v n : start_level d <= l -> l <= 3 -> in_range d v -> v mod 2 ^ sh d l = 0 -> v + n * 2 ^ sh d l <= 2 ^ ias (cfg d) ->
  idx d l v + Z.min n (2 ^ bits_per_level d - idx d l v) <= 2 ^ nbits d l.
Proof.
  intros Hs Hl Hv Hm Hn. unfold nbits. destruct (Z.eqb_spec l (start_level d)) as [E|_]; [|lia]. pose proof (sh_pos d HG l Hl).
  assert (v = slot d l v * 2 ^ sh d l) as Ev by (unfold slot; pose proof (Z.div_mod v (2 ^ sh d l)); lia).
  assert (ias (cfg d) = sh d l + pgd_bits d) as Ei by (rewrite (go_ias d HG), <- E; done). pose proof (go_pgd d HG).
  rewrite Ei, Z.pow_add_r in Hn by lia.
  assert (idx d l v = slot d l v) as ->.
  { pose proof (slot_split d HG l v) as H1. rewrite E in H1. rewrite (pslot_root d HG v Hv) in H1. rewrite E. lia. }
  nia.
Qed.
End Runs.

Section PtMapPages.
Context {PA : PageAlloc} (env : pg_env) {PL : PageAllocLaws (pe_page_shift env)}.
Context (d : arm_lpae_io_pgtable) (HG : geo_ok d) (HE : env_ok env d).

Abbreviation owner := (gmap Z (Z * Z)).
Abbreviation St := (world pgt).
Abbreviation inv := (inv env d).
Abbreviation respects := (respects env d).
Abbreviation in_range := (in_range d).

(** [n] blocks of a level, the first for [v] and [paddr]. *)
Record run_ok (X : Z -> Prop) (lv v paddr n : Z) : Prop := {
  ru_level : start_level d <= lv <= 3;
  ru_v : in_range v /\ v mod 2 ^ sh d lv = 0;
  ru_n : 0 < n /\ idx d lv v + n <= 2 ^ nbits d lv;
  ru_pa : forall j, 0 <= j < n -> pa_ok d lv (paddr + j * 2 ^ sh d lv);
  ru_X : forall a, v <= a < v + n * 2 ^ sh d lv -> X a /\ in_range a;
}.

Definition in_run (lv v n a : Z) : bool := (v <=? a) && (a <? v + n * 2 ^ sh d lv).

Definition map_post (X : Z -> Prop) (own : owner) (mine : gset Z) (pend : Z -> Z ->
  Prop) (q : pgt) (lv v paddr n prot : Z) (r : Z * Z * option map_state) (w : St) : Prop :=
  exists own' q' (s' : list (pgt -> pgt)), w = mk_world q' s' /\ Forall (respects X) s' /\ q_lock q' = true /\ inv own' mine pend q' /\
    kept d True X own own' mine q q' /\
    ((fst (fst r) = 0 /\ snd (fst r) = n * 2 ^ sh d lv /\
      (forall a, in_run lv v n a = true -> abs d (q_mem q) a = None) /\
      (forall a, X a -> in_range a -> abs d (q_mem q') a = if in_run lv v n a then Some (paddr + (a - v), prot) else abs d (q_mem q) a)) \/
     (snd (fst r) = 0 /\ (forall a, X a -> in_range a -> abs d (q_mem q') a = abs d (q_mem q) a) /\
      (fst (fst r) = - ENOMEM \/ fst (fst r) = - EEXIST /\ (lv = 3 -> exists a, in_run lv v n a = true /\ abs d (q_mem q) a <> None)))).

Lemma run_bytes X lv v paddr n : run_ok X lv v paddr n -> 0 < n * 2 ^ sh d lv <= 2 ^ 52.
Proof.
  intros [Hl [Hv Hm] [Hn Hi] _ HX]. pose proof (sh_pos d HG lv ltac:(lia)). assert (0 < 2 ^ sh d lv) by lia. split; [nia|].
  destruct (HX (v + n * 2 ^ sh d lv - 1)) as [_ [_ H1]]; [nia|]. destruct Hv as [Hv _].
  assert (2 ^ ias (cfg d) <= 2 ^ 52) by (apply Z.pow_le_mono_r; [lia|apply (go_ias52 d HG)]). lia.
Qed.

Lemma leaf_addr X lv v paddr n a : run_ok X lv v paddr n -> v <= a < v + n * 2 ^ sh d lv ->
  paddr + (idx d lv a - idx d lv v) * 2 ^ sh d lv + a mod 2 ^ sh d lv = paddr + (a - v).
Proof.
  intros [Hl [Hv Hm] [Hn Hi] _ _] Ha. apply (run_of_slots d HG lv v n a) in Ha as [Ep _]; [|lia|done|done].
  rewrite (run_addr d HG lv v a ltac:(lia) Hm Ep). lia.
Qed.

(** An entry in use of the last level is a mapping. *)
Lemma used_last own mine pend q T k t X v paddr n j : inv own mine pend q -> own !! T = Some (3, k) -> q_mem q !! T = Some t -> run_ok X 3 v paddr n ->
  k = pslot d 3 v ->
  idx d 3 v <= j < idx d 3 v + n -> t j <> 0 -> exists a, in_run 3 v n a = true /\ abs d (q_mem q) a <> None.
Proof.
  intros HI Ho Ht HR -> Hj Hn. pose proof HR as [Hl [Hv Hm] [Hn0 Hi] _ HX]. pose proof (sh_pos d HG 3 ltac:(lia)). pose proof (idx_range d HG 3 v).
  set (a := v + (j - idx d 3 v) * 2 ^ sh d 3). assert (v <= a < v + n * 2 ^ sh d 3) as Ha by (unfold a; nia). destruct (HX a Ha) as [_ Har].
  exists a. split; [unfold in_run; lia|]. pose proof Ha as [Ep Ei]%(run_of_slots d HG 3 v n a); [|lia|done|done].
  pose proof (run_addr d HG 3 v a ltac:(lia) Hm Ep) as E. pose proof (Z.mod_pos_bound a (2 ^ sh d 3) ltac:(lia)).
  assert (idx d 3 a = j) as Ej by (unfold a in E at 1; nia).
  destruct (tr_entry _ _ _ (in_tree _ _ _ _ _ _ HI) T 3 _ t j Ho Ht) as [[?|(pa & prot & E2 & Hpa & Hp)]|[? _]]; [lia|done| |lia].
  rewrite (abs_leaf d HG (q_mem q) own a 3 T t pa prot); try done; [apply HI|by rewrite Ep|by rewrite Ej].
Qed.

Lemma map_leaf_sure X own mine pend q s T lv v paddr n pgcount prot prev iova :
  inv own mine pend q -> q_lock q = true -> Forall (respects X) s -> run_ok X lv v paddr n -> own !! T = Some (lv, pslot d lv v) ->
    prev_ok d own lv (pslot d lv v) prev ->
  prot_ok prot -> ARM_LPAE_LVL_IDX iova lv d = idx d lv v -> n = Z.min (s32 pgcount) (2 ^ bits_per_level d - idx d lv v) ->
  sure (map_leaf env d iova paddr (2 ^ sh d lv) pgcount prot lv T prev None (mk_world q s)) (map_post X own mine pend q lv v paddr n prot).
Proof.
  intros HI Hlk HF HR Ho Hprev Hp Eidx En. pose proof HR as [Hl [Hv Hm] [Hn Hi] Hpa HX]. pose proof (idx_range d HG lv v) as Hir.
  pose proof (run_bytes _ _ _ _ _ HR) as Hb. unfold map_leaf. rewrite Eidx, (ptes_per_table d HG), <- En.
  eapply sure_step; [apply (init_pte_sure env d HG HE own mine pend q s T lv (pslot d lv v) (idx d lv v) n paddr prot prev true); try done; lia|].
  intros ret w (t & Ht & [(-> & -> & j & Hj & Hu)|(-> & Hz & q' & t' & -> & RW & RO)]); cbn.
  - exists own, q, s. split_and!; try done. right. split_and!; try done. right. split; [done|]. intros ->.
    by apply (used_last own mine pend q T (pslot d 3 v) t X v paddr n j).
  - assert (inv own mine pend q') as HI'.
    { apply (rewritten_inv env d HG own mine pend q q' T lv (pslot d lv v) (idx d lv v) n (leaf_at d lv paddr prot) true prev t t' HI RW RO); done. }
    exists own, q', s. destruct (rw_rest _ _ _ _ _ _ _ _ _ _ _ _ RW) as (_ & _ & _ & El). split_and!; try done; [by rewrite El| |].
    { by apply (rewritten_kept env d True X own mine pend q q' T lv (pslot d lv v) (idx d lv v) n (leaf_at d lv paddr prot) true prev t t'). }
    left. split; [done|]. split; [|split].
    + rewrite Z.mul_comm. unfold u64. apply Z.mod_small. assert (2 ^ 52 < 2 ^ 64) by done. lia.
    + intros a Ha. assert (v <= a < v + n * 2 ^ sh d lv) as Ha' by (unfold in_run in Ha; lia). destruct (HX a Ha') as [_ Har].
      apply (run_of_slots d HG lv v n a) in Ha' as [Ep Ei]; [|lia|done|done].
      apply (rw_old_empty env d HG own mine pend q q' T lv (pslot d lv v) (idx d lv v) n (leaf_at d lv paddr prot) true prev t t' HI RW RO a Har Ep Ei).
      by apply Hz.
    + intros a _ Har. unfold in_run. destruct ((v <=? a) && (a <? v + n * 2 ^ sh d lv)) eqn:Ea.
      * assert (v <= a < v + n * 2 ^ sh d lv) as Ha by lia. pose proof (leaf_addr _ _ _ _ _ a HR Ha) as Eaddr.
        pose proof Ha as [Ep Ei]%(run_of_slots d HG lv v n a); [|lia|done|done].
        destruct (rw_abs_in env d HG own mine pend q q' T lv (pslot d lv v) (idx d lv v) n (leaf_at d lv paddr prot) true prev t t' HI RW RO a Har Ep Ei) as [_
          Hin].
        rewrite (Hin (paddr + (idx d lv a - idx d lv v) * 2 ^ sh d lv) prot); [by rewrite Eaddr|done|apply Hpa; lia|done].
      * apply (rw_abs_out env d HG own mine pend q q' T lv (pslot d lv v) (idx d lv v) n (leaf_at d lv paddr prot) true prev t t' HI RW RO a Har). intros Hr.
        apply (run_of_slots d HG lv v n a) in Hr; [lia|lia|done|done].
Qed.

Lemma map_post_before X own own1 mine pend q q1 lv v paddr n prot r w : run_ok X lv v paddr n -> still d X own own1 mine q q1 ->
  map_post X own1 mine pend q1 lv v paddr n prot r w -> map_post X own mine pend q lv v paddr n prot r w.
Proof.
  intros HR HS (own' & q' & s' & -> & HF & Hlk & HI & Hk & Hr). pose proof HS as [S1 S2 S3 S4]. exists own', q', s'. split_and!; try done.
  { apply (kept_trans d True X own own1 own' mine q q1 q'); [by apply still_kept|done|done]. }
  assert (forall a, in_run lv v n a = true -> abs d (q_mem q1) a = abs d (q_mem q) a) as Hrun.
  { intros a Ha. unfold in_run in Ha. destruct (ru_X _ _ _ _ _ HR a ltac:(lia)). by apply S3. }
  destruct Hr as [(E1 & E2 & E3 & E4)|(E1 & E2 & E3)]; [left|right].
  - split_and!; try done; [intros a Ha; rewrite <- Hrun by done; by apply E3|]. intros a Hx Ha. rewrite E4 by done.
    destruct (in_run lv v n a); [done|by apply S3].
  - split_and!; try done; [intros a Hx Ha; rewrite E2 by done; by apply S3|]. destruct E3 as [?|[? E3]]; [by left|right]. split; [done|]. intros El.
    destruct (E3 El) as (a & Ha & Hn). exists a. by rewrite <- Hrun.
Qed.

Lemma leaf_covers own mine pend q T l t pa prot v : inv own mine pend q -> own !! T = Some (l, pslot d l v) -> q_mem q !! T = Some t -> in_range v ->
  t (idx d l v) = leaf_pte d pa prot l -> pa_ok d l pa -> prot_ok prot -> abs d (q_mem q) v <> None.
Proof. intros HI Ho Ht Hv E Hpa Hp. rewrite (abs_leaf d HG (q_mem q) own v l T t pa prot); try done. apply HI. Qed.

Lemma map_sure X iova paddr lv pgcount n prot gfp mine pend :
  run_ok X lv (canon d iova) paddr n -> prot_ok prot -> n = Z.min (s32 pgcount) (2 ^ bits_per_level d - idx d lv (canon d iova)) ->
  gfp_blocking gfp = true \/ vmid d = 0 ->
  forall m own q s T l prev, lv - l <= Z.of_nat m -> start_level d <= l <= lv -> inv own mine pend q -> q_lock q = true -> Forall (respects X) s ->
  own !! T = Some (l, pslot d l (canon d iova)) -> prev_ok d own l (pslot d l (canon d iova)) prev ->
  sure (__arm_lpae_map env m d iova paddr (2 ^ sh d lv) pgcount prot l T prev None gfp (mk_world q s))
    (map_post X own mine pend q lv (canon d iova) paddr n prot).
Proof.
  intros HR Hp En Hg. set (v := canon d iova) in *. pose proof HR as [Hlv [Hv Hm] [Hn Hi] Hpa HX].
  induction m as [|m IH]; intros own q s T l prev Hfuel Hl HI Hlk HF Ho Hprev.
  all: cbn [__arm_lpae_map]; rewrite (block_size_eqb d HG l lv) by lia; destruct (Z.eqb_spec l lv) as [->|Hne];
    [apply (map_leaf_sure X own mine pend q s T lv v paddr n pgcount prot prev iova); try done; apply (lvl_idx d HG); lia|].
  - lia.
  - change (ARM_LPAE_MAX_LEVELS - 1) with 3. rewrite (proj2 (Z.leb_gt 3 l)) by lia. cbv zeta. rewrite (lvl_idx d HG iova l) by lia. fold v.
    eapply sure_step; [apply (next_table_sure env d HG HE X own mine pend q s T l (pslot d l v) (idx d l v) gfp); try done; [lia|apply idx_range, HG]|].
    intros r w (own1 & q1 & s1 & -> & HF1 & Hlk1 & H1 & HI1 & Ho1 & Hr). destruct r as [C|e].
    + destruct Hr as [HoC (t & Ht & HC)].
      assert (arm_pte_is_contiguous_range env d (2 ^ sh d lv) (l + 1) = false) as -> by (unfold arm_pte_is_contiguous_range; by rewrite (eo_hint _ _ HE)).
      rewrite <- (slot_split d HG) in HoC. eapply sure_mono; [apply (IH own1 q1 s1 C (l + 1) (Some (T, idx d l v))); try done; try lia|].
      * by rewrite pslot_succ by (done || lia).
      * unfold prev_ok. rewrite pslot_succ by (done || lia). replace (l + 1 - 1) with l by lia. split; [lia|]. done.
      * intros r w Hpost. by apply (map_post_before X own own1 mine pend q q1).
    + apply (map_post_before X own own1 mine pend q q1); [done|done|]. exists own1, q1, s1. split_and!; try done. right. split_and!; try done. cbn.
      destruct Hr as [->|(-> & t & pa & prot' & Ht & E & Hpa' & Hp')]; [by left|right]. split; [done|]. intros _. exists v.
      split; [unfold in_run; pose proof (sh_pos d HG lv); nia|].
      by apply (leaf_covers own1 mine pend q1 T l t pa prot' v).
Qed.
End PtMapPages.
