(* ===== verification/PtFree.v ===== *)
(** * PtFree: giving back the pages of tables

    [__arm_lpae_free_pgtable] goes through a table and all below it; its pages go
    to the list that waits for a flush, or to the allocator. *)
From stdpp Require Import prelude gmap list.
From S2P Require Import Prelude.
From S2P Require Import Effects.
From S2P Require Import PgAlloc.
From S2P Require Import IoPgtable.
From S2P Require Import PtBits.
From S2P Require Import PtInv.
From S2P Require Import PtTree.
From S2P Require Import PtState.
#[local] Open Scope kernel_scope.

Section PtFree.
Context {PA : PageAlloc} (env : pg_env) {PL : PageAllocLaws (pe_page_shift env)}.
Context (d : arm_lpae_io_pgtable) (HG : geo_ok d) (HE : env_ok env d).

Abbreviation owner := (gmap Z (Z * Z)).
Abbreviation inv := (inv env d).

(** ** Going through the pages *)

Section Walk.
(** The pages below [R] in the tree [m] are still as they were, but for those
    given back; [Q] says what giving back does. *)
Context (m : gmap Z (Z -> Z)) (own : owner) (R : Z) (b : bool) (Q : list Z -> pgt -> Prop).
Context (HT : tree d m own).
Context (Hmem : forall L q p, Q L q -> p ∉ L -> desc d own R p -> q_mem q !! p = m !! p).
Context (Hstep : forall L q s p, Q L q -> p ∉ L -> desc d own R p ->
  sure (__arm_lpae_free_pages p b (mk_world q s)) (fun _ w => exists q', w = mk_world q' s /\ Q (p :: L) q')).

Definition freed_all (A : Z -> Prop) (L : list Z) (s : list (pgt -> pgt)) (w : world pgt) : Prop :=
  exists q' L', w = mk_world q' s /\ Q (L' ++ L) q' /\ NoDup L' /\ forall p, p ∈ L' <-> A p.

Lemma table_entries l : (if l =? start_level d then ARM_LPAE_PGD_SIZE d else ARM_LPAE_GRANULE d) / 8 = 2 ^ nbits d l.
Proof.
  unfold ARM_LPAE_PGD_SIZE, ARM_LPAE_GRANULE, nbits. pose proof (go_pgd d HG). pose proof (bpl_pos d HG).
  destruct (_ =? _); rewrite Z.shiftl_mul_pow2, Z.mul_comm by lia; by apply Z.div_mul.
Qed.

Lemma child_desc T l k t j c : desc d own R T -> own !! T = Some (l, k) -> l < 3 -> m !! T = Some t -> 0 <= j < 2 ^ nbits d l -> is_table d (t j) c ->
  own !! c = Some (l + 1, k * 2 ^ nbits d l + j) /\ desc d own R c /\ (k * 2 ^ nbits d l + j) / 2 ^ nbits d l = k.
Proof.
  intros HD Ho Hl Ht Hj Hc. pose proof (nbits_pos d HG l). assert (own !! c = Some (l + 1, k * 2 ^ nbits d l + j)) as Hoc.
  { destruct (tr_entry _ _ _ HT T l k t j Ho Ht Hj) as [Hp|(_ & page & H1 & H2)]; [by apply (plain_not_table d HG l _ c Hl) in Hp|].
    by rewrite (table_inj d _ _ _ Hc H1). }
  assert ((k * 2 ^ nbits d l + j) / 2 ^ nbits d l = k) as Ek by (rewrite Z.div_add_l, (Z.div_small j) by lia; lia).
  split; [done|]. split; [|done]. by apply (desc_child d own R T l k c (k * 2 ^ nbits d l + j)).
Qed.

(** The entries of a table: what is below them. *)
Definition below (l : Z) (t : Z -> Z) (js : list Z) (p : Z) : Prop := exists j c, j ∈ js /\ is_table d (t j) c /\ desc d own c p.

Lemma below_disjoint T l k t j js c p : desc d own R T -> own !! T = Some (l, k) -> l < 3 -> m !! T = Some t -> 0 <= j < 2 ^ nbits d l ->
  Forall (fun j => 0 <= j < 2 ^ nbits d l) js -> j ∉ js -> is_table d (t j) c -> desc d own c p -> ~ below l t js p.
Proof.
  intros HD Ho Hl Ht Hj HF Hjn Hc Hp (j' & c' & Hj' & Hc' & Hd'). rewrite Forall_forall in HF.
  destruct (child_desc T l k t j c HD Ho Hl Ht Hj Hc) as (Hoc & _ & _). destruct (child_desc T l k t j' c' HD Ho Hl Ht (HF j' Hj') Hc') as (Hoc' & _ & _).
  assert (c = c') as <- by (by apply (desc_inj d m own c c' p (l + 1) _ _ HT Hoc Hoc')).
  rewrite Hoc in Hoc'. injection Hoc' as E. apply (place_inj (2 ^ nbits d l)) in E as [_ ->]; [done|done|by apply HF].
Qed.

Lemma free_entries n l k T t s : own !! T = Some (l, k) -> l < 3 -> m !! T = Some t -> desc d own R T ->
  (forall k' C L q, own !! C = Some (l + 1, k') -> desc d own R C -> Q L q -> (forall p, desc d own C p -> p ∉ L) ->
     sure (__arm_lpae_free_pgtable env n d (l + 1) C b (mk_world q s)) (fun _ => freed_all (desc d own C) L s)) ->
  forall js L q, NoDup js -> Forall (fun j => 0 <= j < 2 ^ nbits d l) js -> Q L q -> T ∉ L -> (forall p, below l t js p -> p ∉ L /\ p <> T) ->
  sure (for_each js (fun i =>
      pte <-- read_pte env (T, i) ;;;
      if (pte =? 0) || iopte_leaf pte l (fmt d) then mret tt
      else __arm_lpae_free_pgtable env n d (l + 1) (iopte_deref pte d) b) (mk_world q s)) (fun _ => freed_all (below l t js) L s).
Proof.
  intros Ho Hl Ht HD IHn. induction js as [|j js IH]; intros L q Hnd HF HQ HTL Hb.
  - exists q, []. split; [done|]. split; [done|]. split; [by constructor|]. intros p. split; [by intros ?%elem_of_nil|]. by intros (j & c & ?%elem_of_nil & _).
  - apply NoDup_cons in Hnd as [Hjn Hnd]. apply Forall_cons in HF as [Hj HF]. cbn [for_each]. rewrite run_assoc.
    rewrite (run_read env d HG HE T j t); [|by rewrite (Hmem L q T)|by eapply entries_nbits].
    assert (forall p, below l t js p -> p ∉ L /\ p <> T) as Hb' by (intros p (j' & c & Hin & H'); apply Hb; exists j', c; split; [by right|done]).
    destruct (tr_entry _ _ _ HT T l k t j Ho Ht Hj) as [Hpl|(_ & c & Hc & _)].
    + assert ((t j =? 0) || iopte_leaf (t j) l (fmt d) = true) as ->.
      { destruct Hpl as [->|(pa & prot & -> & _ & Hp)]; [done|]. by rewrite leaf_pte_leaf, orb_true_r. }
      rewrite run_ret. eapply sure_mono; [by apply IH|]. intros [] w (q' & L' & -> & HQ' & Hnd' & HL'). exists q', L'. split_and!; try done.
      intros p. rewrite HL'. split; [intros (j' & c & Hin & H'); exists j', c; split; [by right|done]|].
      intros (j' & c & [->|Hin]%elem_of_cons & Hc & H'); [by apply (plain_not_table d HG l _ c Hl) in Hpl|by exists j', c].
    + rewrite (proj2 (Z.eqb_neq _ 0)) by (by eapply table_nonzero). rewrite (table_not_leaf d HG _ c) by done. cbn [orb].
      destruct (child_desc T l k t j c HD Ho Hl Ht Hj Hc) as (Hoc & HDc & Ek). pose proof Hc as [_ Ed]. rewrite Ed.
      eapply sure_step; [apply (IHn _ c L q Hoc HDc HQ); intros p Hp; apply (Hb p); exists j, c; split; [by left|done]|].
      intros [] w (q1 & L1 & -> & HQ1 & Hnd1 & HL1).
      eapply sure_mono; [apply (IH (L1 ++ L) q1); try done|].
      * intros [Hin|?]%elem_of_app; [|done]. apply HL1 in Hin. by apply (Hb T); [exists j, c; split; [by left|]|].
      * intros p Hp. split; [|by apply Hb']. destruct (Hb' p Hp) as [HpL _]. intros [Hin|?]%elem_of_app; [|done]. apply HL1 in Hin.
        by apply (below_disjoint T l k t j js c p).
      * intros [] w (q2 & L2 & -> & HQ2 & Hnd2 & HL2). exists q2, (L2 ++ L1). rewrite <- app_assoc. split; [done|]. split; [done|]. split.
        -- apply NoDup_app. split; [done|]. split; [|done]. intros p Hp2 Hp1. apply HL2 in Hp2. apply HL1 in Hp1.
           by apply (below_disjoint T l k t j js c p).
        -- intros p. rewrite elem_of_app, HL1, HL2. split.
           ++ intros [(j' & c' & Hin & H')|Hp]; [exists j', c'; split; [by right|done]|exists j, c; split; [by left|done]].
           ++ intros (j' & c' & [->|Hin]%elem_of_cons & Hc' & Hp); [right; by rewrite (table_inj d _ _ _ Hc Hc')|left; by exists j', c'].
Qed.

Lemma desc_split T l k t p : own !! T = Some (l, k) -> desc d own R T -> m !! T = Some t -> desc d own T p ->
  p = T \/ l < 3 /\ below l t (upto (2 ^ nbits d l)) p.
Proof.
  intros Ho HD Ht Hp. induction Hp as [|P l1 k1 p k1' HP IH Ho1 Hp1 Hk]; [by left|right].
  destruct (tr_level _ _ _ HT _ _ _ Hp1) as [Hl1 _].
  assert (l < 3) as Hl by (destruct (desc_owned d own T P _ _ Ho HP) as (l2 & k2 & E & Hle); rewrite Ho1 in E; injection E as <- <-; lia).
  split; [done|]. destruct IH as [->|(_ & j & c & Hj & Hc & Hcp)]; [|exists j, c; split_and!; try done; by eapply (desc_child d own c P l1 k1)].
  rewrite Ho in Ho1. injection Ho1 as <- <-.
  destruct (tr_parent _ _ _ HT _ _ _ Hp1) as (P2 & t2 & G1 & G2 & G3); [destruct (tr_level _ _ _ HT _ _ _ Ho); lia|]. replace (l + 1 - 1) with l in * by lia.
  rewrite Hk in G1. rewrite (own_inj d m own HT l P2 T k G1 Ho), Ht in G2. injection G2 as <-. pose proof (nbits_pos d HG l).
  exists (k1' mod 2 ^ nbits d l), p. split; [apply elem_of_seqZ; pose proof (Z.mod_pos_bound k1' (2 ^ nbits d l)); lia|]. split; [done|apply desc_refl].
Qed.

Lemma desc_join T l k t p : own !! T = Some (l, k) -> l < 3 -> desc d own R T -> m !! T = Some t -> below l t (upto (2 ^ nbits d l)) p -> desc d own T p /\
  p <> T.
Proof.
  intros Ho Hl HD Ht (j & c & Hj%elem_of_seqZ & Hc & Hp). destruct (child_desc T l k t j c HD Ho Hl Ht ltac:(lia) Hc) as (Hoc & _ & Ek).
  assert (desc d own T c) as HTc by (by apply (desc_child d own T T l k c _ (desc_refl d own T) Ho Hoc)). split.
  - clear -Hp HTc. induction Hp; [done|]. by eapply desc_child.
  - intros ->. destruct (desc_owned d own c T _ _ Hoc Hp) as (? & ? & E & ?). simplify_eq. lia.
Qed.

Lemma free_sure : forall n l T k L q s, own !! T = Some (l, k) -> desc d own R T -> 3 - l <= Z.of_nat n -> Q L q -> (forall p, desc d own T p -> p ∉ L) ->
  sure (__arm_lpae_free_pgtable env n d l T b (mk_world q s)) (fun _ => freed_all (desc d own T) L s).
Proof.
  induction n as [|n IH]; intros l T k L q s Ho HD Hn HQ HL; destruct (tr_mem _ _ _ HT _ _ _ Ho) as [t Ht]; destruct (tr_level _ _ _ HT _ _ _ Ho) as [Hl _];
    cbn [__arm_lpae_free_pgtable]; change (ARM_LPAE_MAX_LEVELS - 1) with 3; rewrite table_entries.
  - rewrite (proj2 (Z.eqb_eq l 3)) by lia. rewrite run_ret. eapply sure_mono; [apply (Hstep L q s T HQ); [apply HL, desc_refl|done]|].
    intros [] w (q' & -> & HQ'). exists q', [T]. split_and!; try done; [apply NoDup_singleton|]. intros p. rewrite list_elem_of_singleton.
    split; [intros ->; apply desc_refl|]. intros Hp. destruct (desc_split T l k t p Ho HD Ht Hp) as [?|[? _]]; [done|lia].
  - destruct (Z.eqb_spec l 3) as [E|Hne].
    + rewrite run_ret. eapply sure_mono; [apply (Hstep L q s T HQ); [apply HL, desc_refl|done]|].
      intros [] w (q' & -> & HQ'). exists q', [T]. split_and!; try done; [apply NoDup_singleton|]. intros p. rewrite list_elem_of_singleton.
      split; [intros ->; apply desc_refl|]. intros Hp. destruct (desc_split T l k t p Ho HD Ht Hp) as [?|[? _]]; [done|lia].
    + eapply sure_step.
      * apply (free_entries n l k T t s Ho ltac:(lia) Ht HD) with (L := L) (q := q); try done.
        -- intros k' C L1 q1 HoC HDC HQ1 HL1. by apply (IH (l + 1) C k' L1 q1 s HoC HDC ltac:(lia)).
        -- apply NoDup_seqZ.
        -- apply Forall_forall. intros j Hj%elem_of_seqZ. lia.
        -- apply HL, desc_refl.
        -- intros p Hp. destruct (desc_join T l k t p Ho ltac:(lia) HD Ht Hp) as [H1 H2]. split; [by apply HL|done].
      * intros [] w (q1 & L1 & -> & HQ1 & Hnd & HL1). assert (T ∉ L1 ++ L) as HTL.
        { intros [Hin|Hin]%elem_of_app; [|by apply (HL T); [apply desc_refl|]]. apply HL1 in Hin. by destruct (desc_join T l k t T Ho ltac:(lia) HD Ht Hin). }
        eapply sure_mono; [by apply (Hstep (L1 ++ L) q1 s T HQ1)|]. intros [] w (q' & -> & HQ'). exists q', (T :: L1). split_and!; try done.
        -- apply NoDup_cons. split; [|done]. intros ?. apply HTL, elem_of_app. by left.
        -- intros p. rewrite elem_of_cons, HL1. split.
           ++ intros [->|Hp]; [apply desc_refl|]. by apply (desc_join T l k t p Ho ltac:(lia) HD Ht Hp).
           ++ intros Hp. destruct (desc_split T l k t p Ho HD Ht Hp) as [?|[? ?]]; [by left|by right].
Qed.
End Walk.
End PtFree.
