(* ===== verification/PtCut.v ===== *)
(** * PtCut: cutting tables off

    An entry is cleared and the pages of the table below it wait for a flush. *)
From stdpp Require Import prelude gmap list.
From S2P Require Import Prelude.
From S2P Require Import Effects.
From S2P Require Import PgAlloc.
From S2P Require Import IoPgtable.
From S2P Require Import PtBits.
From S2P Require Import PtInv.
From S2P Require Import PtTree.
From S2P Require Import PtState.
From S2P Require Import PtLeaf.
From S2P Require Import PtFree.
#[local] Open Scope kernel_scope.

Section PtCut.
Context {PA : PageAlloc} (env : pg_env) {PL : PageAllocLaws (pe_page_shift env)}.
Context (d : arm_lpae_io_pgtable) (HG : geo_ok d) (HE : env_ok env d).

Abbreviation owner := (gmap Z (Z * Z)).
Abbreviation inv := (inv env d).

(** ** Clearing entries *)

Lemma clear_table {B} T i n t td (k : unit -> M pgt B) q s Q :
  q_mem q !! T = Some t -> q_dev q !! T = Some td -> 0 <= i -> 0 <= n -> i + n <= 2 ^ bits_per_level d ->
  (forall q1, table_filled d T i n (fun _ => 0) true t q q1 -> sure (k tt (mk_world q1 s)) Q) ->
  sure (mbnd (__arm_lpae_set_pte env d (T, i) 0 n) k (mk_world q s)) Q.
Proof.
  intros Ht Htd Hi Hn Hle Hk. unfold __arm_lpae_set_pte. rewrite run_assoc. apply (run_range env d HG HE T i n (fun _ => 0) t); [done..|].
  intros t' Hr. destruct (coherent_walk (cfg d)) eqn:Ec; cbn [negb].
  - rewrite run_ret. apply Hk. exists t', (q_dev q). split; [by destruct q|]. split; [done|]. split; [done|]. exists td, td. split; [done|]. split; [done|].
    by rewrite Ec.
  - rewrite (run_sync T i n t') by apply lookup_insert_eq. apply Hk. exists t', (alter (copy_entries i n t') T (q_dev q)). split; [done|]. split; [done|].
    split.
    { intros x Hx. by rewrite lookup_alter_ne. }
    exists td, (copy_entries i n t' td). rewrite lookup_alter_eq, Htd. done.
Qed.

(** ** Giving the pages to the list *)

Record queued (q0 : pgt) (L : list Z) (q : pgt) : Prop := {
  qu_mem : q_mem q = q_mem q0 /\ q_dev q = q_dev q0;
  qu_rest : q_al q = q_al q0 /\ q_cached q = q_cached q0 /\ q_lock q = q_lock q0 /\ skip_tlb_management q = skip_tlb_management q0;
  qu_free : freelist q = L ++ freelist q0;
}.

Section Cut.
Context (own : owner) (mine : gset Z) (pend : Z -> Z -> Prop) (q q1 q2 : pgt).
Context (T l k i C : Z) (t : Z -> Z) (L : list Z).
Context (HI : inv own mine pend q) (Ho : own !! T = Some (l, k)) (Hl : l < 3) (Hi : 0 <= i < 2 ^ nbits d l).
Context (Ht : q_mem q !! T = Some t) (HC : is_table d (t i) C).
Context (HF : table_filled d T i 1 (fun _ => 0) true t q q1) (HQ : queued q1 L q2) (HN : NoDup L) (HL : forall p, p ∈ L <-> desc d own C p).

Lemma cut_child : own !! C = Some (l + 1, k * 2 ^ nbits d l + i).
Proof. by apply (child_owned env d HG own mine pend q T l k t i C). Qed.

Lemma cut_owned p : p ∈ L -> exists l' k', own !! p = Some (l', k') /\ l < l'.
Proof. intros Hp%HL. destruct (desc_owned d own C p _ _ cut_child Hp) as (l' & k' & E & Hle). exists l', k'. split; [done|lia]. Qed.

Lemma cut_mem : exists t', q_mem q2 = <[T := t']> (q_mem q) /\ forall j, t' j = set_entry t i 0 j.
Proof.
  destruct HF as (t' & dev & -> & Hr & _). destruct HQ as [[-> _] _ _]. exists t'. split; [done|]. intros j. rewrite Hr. unfold set_entry. case_index; done.
Qed.

Lemma cut_tree : tree d (q_mem q2) (cut own L).
Proof.
  destruct cut_mem as (t' & Em & Ht'). apply (tree_cut d HG (q_mem q) (q_mem q2) own T l k t t' i C L); try done; [apply HI|]. intros p _. rewrite Em.
  destruct (Z.eqb_spec p T) as [->|Hn]; [by rewrite lookup_insert_eq|by rewrite lookup_insert_ne].
Qed.

Lemma cut_counts : counts_ok d (q_mem q2) (cut own L).
Proof.
  destruct cut_mem as (t' & Em & Ht'). rewrite Em. intros P2 k2 t2 i2 C2 tc [HP2 _]%cut_some Ht2 Hi2 HC2 Htc.
  assert (exists t3, q_mem q !! P2 = Some t3 /\ t3 i2 = t2 i2) as (t3 & Ht3 & E3).
  { destruct (decide (P2 = T)) as [->|Hn]; [|rewrite lookup_insert_ne in Ht2 by done; by exists t2]. rewrite lookup_insert_eq in Ht2. injection Ht2 as <-.
    exists t. split; [done|]. rewrite Ht' in HC2 |- *. unfold set_entry in *. destruct (i2 =? i); [by apply table_nonzero in HC2|done]. }
  rewrite <- E3 in *. pose proof (last_table d HG own (q_mem q) P2 k2 t3 i2 C2 (in_tree _ _ _ _ _ _ HI) HP2 Ht3 Hi2 HC2) as HoC2.
  rewrite lookup_insert_ne in Htc by (intros <-; rewrite Ho in HoC2; injection HoC2; lia). by apply (in_cnt _ _ _ _ _ _ HI P2 k2 t3 i2 C2 tc).
Qed.

Lemma cut_dev : coherent_walk (cfg d) = false -> dev_ok d (q_mem q2) (q_dev q2) (cut own L) pend.
Proof.
  intros Hc P l2 k2 t2 [HP _]%cut_some Ht2. destruct HF as (t' & dev & -> & Hr & Hdx & td & td' & Htd & Htd' & Hjd). destruct HQ as [[Em Ed] _ _].
  rewrite Em in Ht2. rewrite Ed. cbn in Ht2 |- *. destruct (decide (P = T)) as [->|Hn].
  - rewrite lookup_insert_eq in Ht2. injection Ht2 as <-. rewrite Ho in HP. injection HP as <- <-. exists td'. split; [done|]. intros j Hj Hnp.
    rewrite (Hjd Hc). cbn [andb].
    destruct ((i <=? j) && (j <? i + 1)) eqn:E; [apply same_entry_refl|]. destruct (in_dev _ _ _ _ _ _ HI Hc T l k t Ho Ht) as (td2 & E2 & Hs).
    rewrite Htd in E2. injection E2 as <-. rewrite Hr, E. by apply Hs.
  - rewrite lookup_insert_ne in Ht2 by done. destruct (in_dev _ _ _ _ _ _ HI Hc P l2 k2 t2 HP Ht2) as (td2 & E2 & Hs). exists td2. by rewrite Hdx.
Qed.

Lemma cut_inv : inv (cut own L) mine pend q2.
Proof.
  destruct cut_mem as (t' & Em & _). pose proof HF as (t2 & dev & E1 & _ & Hdx & td & td' & Htd & Htd' & _). destruct HQ as [[Eqm Ed] (Ea & Ec & _) Ef].
  assert (q_al q1 = q_al q /\ q_cached q1 = q_cached q /\ freelist q1 = freelist q /\ q_dev q1 = dev) as (Ea1 & Ec1 & Ef1 & Ed1) by (by rewrite E1).
  assert (forall p, is_Some (q_mem q2 !! p) <-> is_Some (q_mem q !! p)) as Hsome.
  { intros p. rewrite Em. destruct (decide (p = T)) as [->|Hn]; [rewrite lookup_insert_eq, Ht; split; eauto|by rewrite lookup_insert_ne]. }
  assert (forall p, is_Some (own !! p) <-> is_Some (cut own L !! p) \/ p ∈ L) as Hown.
  { intros p. split.
    - intros [lk E]. destruct (decide (p ∈ L)) as [?|?]; [by right|left]. exists lk. by apply cut_some.
    - intros [[lk [E _]%cut_some]|Hp]; [eauto|]. destruct (cut_owned p Hp) as (l' & k' & E & _). eauto. }
  split.
  - apply cut_tree.
  - apply cut_counts.
  - apply cut_dev.
  - intros p. rewrite Hsome, Ef, Ef1, elem_of_app, (in_dom _ _ _ _ _ _ HI p), Hown. tauto.
  - intros p. rewrite Hsome, <- (in_devdom _ _ _ _ _ _ HI), Ed, Ed1. destruct (decide (p = T)) as [->|Hn]; [rewrite Htd, Htd'; split; eauto|by rewrite Hdx].
  - rewrite Ef, Ef1. apply NoDup_app. split; [done|]. split; [|apply HI]. intros p Hp Hp2. destruct (cut_owned p Hp) as (l' & k' & E & _).
    rewrite (proj1 (in_disj _ _ _ _ _ _ HI p)) in E by tauto. done.
  - intros p. rewrite Ef, Ef1, elem_of_app. destruct (in_disj _ _ _ _ _ _ HI p) as [H1 H2]. split.
    + intros H. destruct (cut own L !! p) as [lk|] eqn:E; [|done]. apply cut_some in E as [E HnL]. rewrite H1 in E; [done|]. tauto.
    + intros [Hp|Hp]; [|by apply H2]. intros Hm. destruct (cut_owned p Hp) as (l' & k' & E & _). rewrite H1 in E by tauto. done.
  - rewrite Ea, Ea1. replace (dom (q_mem q2)) with (dom (q_mem q)); [apply HI|]. apply set_eq. intros p. by rewrite !elem_of_dom, Hsome.
  - intros p. rewrite Ec, Ec1, Ef, Ef1, elem_of_app. intros Hp. destruct (in_cached _ _ _ _ _ _ HI p Hp) as [H|?]; [apply Hown in H; tauto|tauto].
Qed.

(** Addresses of the entry are not mapped any more, others are as before. *)
Lemma cut_abs v : in_range d v -> abs d (q_mem q2) v = if slot d l v =? k * 2 ^ nbits d l + i then None else abs d (q_mem q) v.
Proof.
  intros Hv. destruct cut_mem as (t' & Em & Ht'). destruct (Z.eqb_spec (slot d l v) (k * 2 ^ nbits d l + i)) as [Es|Hn].
  - rewrite (slot_split d HG l v) in Es. apply (place_inj (2 ^ nbits d l)) in Es as [Ep Ei]; [|by apply idx_range|done].
    assert (T ∉ L) as HTL by (intros Hp; destruct (cut_owned T Hp) as (l' & k' & E & Hlt); rewrite Ho in E; injection E; lia).
    apply (abs_empty d HG (q_mem q2) (cut own L) v l T t'); [apply cut_tree|done|apply cut_some; by rewrite Ep|by rewrite Em, lookup_insert_eq|].
    rewrite Ht', Ei. unfold set_entry. by rewrite Z.eqb_refl.
  - apply (abs_frame d HG (q_mem q) (q_mem q2) own v); [apply HI|done|]. intros l2 P t2 HP Ht2. rewrite Em. destruct (decide (P = T)) as [->|HPT].
    + rewrite Ho in HP. injection HP as -> ->. rewrite Ht in Ht2. injection Ht2 as <-. exists t'. rewrite lookup_insert_eq. split; [done|]. rewrite Ht'.
      unfold set_entry.
      destruct (Z.eqb_spec (idx d l2 v) i) as [E|]; [|apply same_entry_refl]. destruct Hn. rewrite <- E. apply slot_split, HG.
    + exists t2. rewrite lookup_insert_ne by done. split; [done|apply same_entry_refl].
Qed.
End Cut.
End PtCut.
