(* ===== verification/PtUnmap.v ===== *)
(** * PtUnmap: what unmapping does

    [__arm_lpae_unmap] in each of its cases: entries of the size asked for, with
    the tables below them; entries of a last table, which goes when it is empty;
    and blocks that are larger, which are split. *)
From stdpp Require Import prelude gmap list.
From S2P Require Import Prelude.
From S2P Require Import Effects.
From S2P Require Import PgAlloc.
From S2P Require Import IoPgtable.
From S2P Require Import PtBits.
From S2P Require Import PtInv.
From S2P Require Import PtTree.
From S2P Require Import PtState.
From S2P Require Import PtMap.
From S2P Require Import PtLeaf.
From S2P Require Import PtMapPages.
From S2P Require Import PtFree.
From S2P Require Import PtCut.
#[local] Open Scope kernel_scope.

Section PtUnmap.
Context {PA : PageAlloc} (env : pg_env) {PL : PageAllocLaws (pe_page_shift env)}.
Context (d : arm_lpae_io_pgtable) (HG : geo_ok d) (HE : env_ok env d).

Abbreviation owner := (gmap Z (Z * Z)).
Abbreviation inv := (inv env d).
Abbreviation in_range := (in_range d).

Lemma free_deferred own m q1 s R l k : tree d m own -> own !! R = Some (l, k) -> 0 <= l -> (forall p, desc d own R p -> q_mem q1 !! p = m !! p) ->
  sure (__arm_lpae_free_pgtable env LEVELS d l R true (mk_world q1 s))
    (fun _ w => exists q2 L, w = mk_world q2 s /\ queued q1 L q2 /\ NoDup L /\ forall p, p ∈ L <-> desc d own R p).
Proof.
  intros HT Ho Hl Hm. eapply sure_mono.
  - apply (free_sure env d HG HE m own R true (queued q1) HT) with (k := k) (L := []); [| |done|apply desc_refl|unfold LEVELS; lia|split;
      done|by intros p _ ?%elem_of_nil].
    + intros L q p [[-> _] _ _] _ Hp. by apply Hm.
    + intros L q s' p [[E1 E2] (E3 & E4 & E5 & E6) E7] _ _. cbn. eexists. split; [done|]. split; cbn; [done|done|]. by rewrite E7.
  - intros [] w (q2 & L & -> & HQ & HN & HL). exists q2, L. rewrite app_nil_r in HQ. done.
Qed.

(** ** What an unmapping keeps *)

Lemma cut_kept own mine pend q q1 q2 T l k i C t L X :
  inv own mine pend q -> own !! T = Some (l, k) -> l < 3 -> 0 <= i < 2 ^ nbits d l -> q_mem q !! T = Some t -> is_table d (t i) C ->
  table_filled d T i 1 (fun _ => 0) true t q q1 -> queued q1 L q2 -> (forall p, p ∈ L <-> desc d own C p) ->
  (forall v, X v -> in_range v -> abs d (q_mem q) v <> None -> slot d l v <> k * 2 ^ nbits d l + i) ->
  kept d (2 <= l) X own (cut own L) mine q q2.
Proof.
  intros HI Ho Hl Hi Ht HC HF HQ HL HX. pose proof (child_owned env d HG own mine pend q T l k t i C HI Ho Hl Ht Hi HC) as HoC.
  assert (forall P l' k', own !! P = Some (l', k') -> P ∉ L -> cut own L !! P = Some (l', k')) as Hcut by (intros P l' k' E HnL; by apply cut_some).
  split.
  - intros Hl2 P l' k' HP Hl3. apply Hcut; [done|]. intros Hin%HL. destruct (desc_owned d own C P _ _ HoC Hin) as (l2 & k2 & E & Hle). rewrite HP in E.
    injection E as <- <-. lia.
  - intros v P l' Hx Hv Hn HP. rewrite HP. apply Hcut; [done|]. intros Hin%HL. apply (HX v Hx Hv Hn).
    assert (forall P l', desc d own C P -> own !! P = Some (l', pslot d l' v) -> slot d l v = k * 2 ^ nbits d l + i) as G; [|by apply (G P l')].
    clear -HoC HI HG Hl Ho. intros P l' HD. revert l'. induction HD as [|P1 l1 k1 P k' HD IH HP1 HP Hk]; intros l' HPv.
    + rewrite HoC in HPv. injection HPv as El Ek. destruct (tr_level _ _ _ (in_tree _ _ _ _ _ _ HI) _ _ _ Ho) as [Hls _].
      rewrite <- El, (pslot_succ d HG l v) in Ek by lia. done.
    + rewrite HP in HPv. injection HPv as El Ek. apply (IH l1). rewrite HP1. f_equal. f_equal. destruct (tr_level _ _ _ (in_tree _ _ _ _ _ _ HI) _ _ _ HP).
      destruct (tr_level _ _ _ (in_tree _ _ _ _ _ _ HI) _ _ _ HP1). rewrite <- Hk, Ek, <- El. rewrite (pslot_succ d HG l1 v) by lia. done.
  - intros p Hp. destruct HF as (t' & dev & E1 & _ & Hdx & _). destruct HQ as [[Em Ed] _ _]. rewrite Em, Ed, E1. cbn.
    assert (p <> T) as HpT by (intros ->; by destruct (owned_not_mine env d _ _ _ _ _ _ HI Ho)). by rewrite lookup_insert_ne, Hdx.
Qed.

(** ** Clearing entries of the size asked for *)

Lemma filled_rewritten T l i n g flush t q q1 : q_mem q !! T = Some t -> table_filled d T i n g flush t q q1 ->
  exists t', rewritten d T l i n g flush None t t' q q1.
Proof.
  intros Ht (t' & dev & -> & Hr & Hdx & td & td' & Htd & Htd' & Hj). exists t'. split; cbn; try done.
  - split; [done|]. by rewrite lookup_insert_eq.
  - intros x Hx _. by rewrite lookup_insert_ne.
  - by exists td, td'.
Qed.

(** Entries [j] to [j + c - 1] of [T] are empty now. *)
Definition cleared (own : owner) (mine : gset Z) (pend : Z -> Z -> Prop) (q : pgt) (s : list (pgt -> pgt)) (T l k j c : Z) (w : world pgt) : Prop :=
  exists own' q', w = mk_world q' s /\ q_lock q' = q_lock q /\ inv own' mine pend q' /\ own' !! T = own !! T /\
    (forall a, in_range a -> abs d (q_mem q') a = if (k * 2 ^ nbits d l + j <=? slot d l a) && (slot d l a <? k * 2 ^ nbits d l + j + c) then None else abs d
      (q_mem q) a) /\
    (forall X, (forall v, X v -> in_range v -> ~ k * 2 ^ nbits d l + j <= slot d l v < k * 2 ^ nbits d l + j + c) -> kept d (2 <= l) X own own' mine q q').

Lemma cleared_none own mine pend q s T l k j : inv own mine pend q -> cleared own mine pend q s T l k j 0 (mk_world q s).
Proof.
  intros HI. exists own, q. split; [done|]. split; [done|]. split; [done|]. split; [done|]. split; [|intros X _; apply kept_refl]. intros a _. by case_index.
Qed.

Lemma cleared_more own mine pend q s T l k j c own1 q1 w : 0 <= c -> q_lock q1 = q_lock q -> own1 !! T = own !! T ->
  (forall a, in_range a -> abs d (q_mem q1) a = if (k * 2 ^ nbits d l + j <=? slot d l a) && (slot d l a <? k * 2 ^ nbits d l + j + 1) then None else abs d
    (q_mem q) a) ->
  (forall X, (forall v, X v -> in_range v -> ~ k * 2 ^ nbits d l + j <= slot d l v < k * 2 ^ nbits d l + j + 1) -> kept d (2 <= l) X own own1 mine q q1) ->
  cleared own1 mine pend q1 s T l k (j + 1) c w -> cleared own mine pend q s T l k j (c + 1) w.
Proof.
  intros Hc El Eo Ha Hk (own2 & q2 & -> & El2 & HI2 & Eo2 & Ha2 & Hk2). exists own2, q2. split_and!; try congruence; try done.
  - intros a Har. rewrite Ha2, Ha by done. by case_index.
  - intros X HX. apply (kept_trans d _ X own own1 own2 mine q q1 q2).
    + apply Hk. intros v Hx Hv ?. apply (HX v Hx Hv). lia.
    + intros v Hx Hv. rewrite Ha by done. specialize (HX v Hx Hv). by case_index.
    + apply Hk2. intros v Hx Hv ?. apply (HX v Hx Hv). lia.
Qed.

Lemma slot_iff l a k j : 0 <= j < 2 ^ nbits d l -> slot d l a = k * 2 ^ nbits d l + j <-> pslot d l a = k /\ idx d l a = j.
Proof.
  intros Hj. rewrite (slot_split d HG l a). split; [|by intros [-> ->]]. intros E.
  apply (place_inj (2 ^ nbits d l)) in E as [? ?]; [done|apply idx_range, HG|done].
Qed.

(** Without the contiguous hint there is nothing to do for contiguous entries. *)
Lemma run_cont {B} e iova l ptep n (k : unit -> M pgt B) w :
  mbnd (if truth (Z.land e ARM_LPAE_PTE_CONT) then arm_lpae_cont_unmap env d iova l ptep n else mret tt) k w = k tt w.
Proof. unfold arm_lpae_cont_unmap. rewrite (eo_hint _ _ HE). by destruct (truth _). Qed.

(** One entry, with what is below it. *)
Lemma clear_one {B} own mine pend q s T l k j t iova pgcount (kk : unit -> M pgt B) Q :
  inv own mine pend q -> own !! T = Some (l, k) -> 0 <= j < 2 ^ nbits d l -> q_mem q !! T = Some t -> t j <> 0 -> (l = 3 -> start_level d = 3) ->
  (forall w, cleared own mine pend q s T l k j 1 w -> sure (kk tt w) Q) ->
  sure (mbnd (if truth (Z.land (t j) ARM_LPAE_PTE_CONT) then arm_lpae_cont_unmap env d iova l (T, j) pgcount else mret tt) (fun _ =>
        mbnd (__arm_lpae_set_pte env d (T, j) 0 1) (fun _ =>
        mbnd (if negb (iopte_leaf (t j) l (fmt d)) then __arm_lpae_free_pgtable env LEVELS d (l + 1) (iopte_deref (t j) d) true else mret tt) kk)) (mk_world q
          s)) Q.
Proof.
  intros HI Ho Hj Ht Hne Hl3 Hk. destruct (mem_some env d _ _ _ _ _ _ HI Ho) as (t0 & td & E & Htd). rewrite Ht in E. injection E as <-.
  pose proof (entries_nbits d HG l j Hj) as Hjb.
  rewrite run_cont. apply (clear_table env d HG HE T j 1 t td); try done; [lia..|]. intros q1 HF.
  destruct (tr_entry _ _ _ (in_tree _ _ _ _ _ _ HI) T l k t j Ho Ht Hj) as [[E|(pa & prot & E & Hpa & Hp)]|(Hl & C & HC & HoC)]; [done| |].
  - rewrite E, leaf_pte_leaf by done. cbn [negb]. rewrite run_ret. apply Hk. destruct (filled_rewritten T l j 1 _ true t q q1 Ht HF) as [t' RW].
    assert (rewrite_ok d own T l k j 1 (fun _ => 0) None t t' q1) as RO.
    { split; try done; [lia|intros j' Hj'; assert (j' = j) as -> by lia; split; [right; by exists pa, prot|by left]|intros El Hst; specialize (Hl3 El); lia]. }
    destruct (rw_rest _ _ _ _ _ _ _ _ _ _ _ _ RW) as (_ & _ & _ & Elk). exists own, q1. split_and!; try done.
    + by apply (rewritten_inv env d HG own mine pend q q1 T l k j 1 (fun _ => 0) true None t t').
    + intros a Ha. destruct ((_ <=? _) && _) eqn:Es.
      * apply (rw_abs_in env d HG own mine pend q q1 T l k j 1 (fun _ => 0) true None t t' HI RW RO a Ha); [| |done]; apply (slot_iff l a k j) in Hj as [H1 _];
          destruct H1; lia.
      * apply (rw_abs_out env d HG own mine pend q q1 T l k j 1 (fun _ => 0) true None t t' HI RW RO a Ha). intros [Ep Ei]. pose proof (slot_split d HG l a).
        rewrite Ep in *. lia.
    + intros X _. by apply (rewritten_kept env d _ X own mine pend q q1 T l k j 1 (fun _ => 0) true None t t').
  - rewrite (table_not_leaf d HG _ C) by done. cbn [negb]. pose proof HC as [_ Ed]. rewrite Ed. pose proof HF as (t' & dev & -> & Hr & _).
    eapply sure_step; [apply (free_deferred own (q_mem q) _ s C (l + 1) (k * 2 ^ nbits d l + j));
      [apply HI|done|destruct (tr_level _ _ _ (in_tree _ _ _ _ _ _ HI) _ _ _ Ho); pose proof (go_start d HG); lia|]|].
    { intros p Hp. cbn. rewrite lookup_insert_ne; [done|]. intros <-. destruct (desc_owned d own C T _ _ HoC Hp) as (l' & k' & E & ?). rewrite Ho in E.
      injection E as <- <-. lia. }
    intros [] w (q2 & L & -> & HQ & HN & HL). apply Hk. exists (cut own L), q2. split; [done|]. pose proof HQ as [_ (_ & _ & Elk & _) _].
    split; [by rewrite Elk|].
    split; [by apply (cut_inv env d HG own mine pend q _ q2 T l k j C t L HI Ho Hl Hj Ht HC HF HQ HN HL)|]. split.
    { rewrite Ho. apply cut_some. split; [done|]. intros Hp%HL. destruct (desc_owned d own C T _ _ HoC Hp) as (l' & k' & E & ?). rewrite Ho in E.
      injection E as <- <-. lia. }
    split.
    + intros a Ha. rewrite (cut_abs env d HG own mine pend q _ q2 T l k j C t L HI Ho Hl Hj Ht HC HF HQ HL a Ha). by case_index.
    + intros X HX. eapply (cut_kept own mine pend q _ q2 T l k j C t L X HI Ho Hl Hj Ht HC HF HQ HL). intros v Hx Hv _ ?. apply (HX v Hx Hv). lia.
Qed.

Lemma clear_sure mine pend s iova pgcount T l k : (l = 3 -> start_level d = 3) -> forall n own q j i,
  inv own mine pend q -> own !! T = Some (l, k) -> 0 <= j -> j + Z.of_nat n <= 2 ^ nbits d l ->
  sure (clear_entries env n d iova pgcount l (T, j) i (mk_world q s)) (fun r w =>
    exists c, r = i + c /\ 0 <= c <= Z.of_nat n /\ cleared own mine pend q s T l k j c w /\
      (c < Z.of_nat n -> forall a, in_range a -> slot d l a = k * 2 ^ nbits d l + j + c -> abs d (q_mem q) a = None)).
Proof.
  intros Hl3. induction n as [|n IH]; intros own q j i HI Ho Hj Hle; cbn [clear_entries].
  - exists 0. split_and!; try lia. by apply cleared_none.
  - destruct (mem_some env d _ _ _ _ _ _ HI Ho) as (t & td & Ht & Htd). rewrite (run_read env d HG HE T j t) by (done || apply (entries_nbits d HG l); lia).
    destruct (Z.eqb_spec (t j) 0) as [E|Hne].
    + exists 0. split_and!; try lia; [by apply cleared_none|]. intros _ a Ha Es. rewrite Z.add_0_r in Es. apply slot_iff in Es as [Ep Ei]; [|lia].
      apply (abs_empty d HG (q_mem q) own a l T t); [apply HI|done|by rewrite Ep|done|by rewrite Ei].
    + apply (clear_one own mine pend q s T l k j t iova pgcount); try done; [lia|]. intros w (own1 & q1 & -> & El & HI1 & Eo & Ha & Hk).
      eapply sure_mono; [apply (IH own1 q1 (j + 1) (i + 1)); [done|by rewrite Eo|lia|lia]|]. intros r w (c & -> & Hc & Hcl & Hn). exists (c + 1).
      split; [lia|]. split; [lia|]. split.
      * apply (cleared_more own mine pend q s T l k j c own1 q1); [lia|done..].
      * intros Hc' a Har Es. specialize (Hn ltac:(lia) a Har ltac:(lia)). rewrite Ha in Hn by done.
        by rewrite (proj2 (andb_false_iff _ _)) in Hn by (right; lia).
Qed.
End PtUnmap.
