(* ===== verification/PtUnmapLast.v ===== *)
(** * PtUnmapLast: entries of the last level

    [unmap_last] of IoPgtable.v: pages of a last table are unmapped and the count
    above goes down; a table without entries is cut off. *)
From stdpp Require Import prelude gmap list.
From S2P Require Import Prelude.
From S2P Require Import Effects.
From S2P Require Import PgAlloc.
From S2P Require Import IoPgtable.
From S2P Require Import PtBits.
From S2P Require Import PtInv.
From S2P Require Import PtTree.
From S2P Require Import PtState.
From S2P Require Import PtMap.
From S2P Require Import PtLeaf.
From S2P Require Import PtMapPages.
From S2P Require Import PtFree.
From S2P Require Import PtCut.
From S2P Require Import PtUnmap.
#[local] Open Scope kernel_scope.

Section PtUnmapLast.
Context {PA : PageAlloc} (env : pg_env) {PL : PageAllocLaws (pe_page_shift env)}.
Context (d : arm_lpae_io_pgtable) (HG : geo_ok d) (HE : env_ok env d).

Abbreviation owner := (gmap Z (Z * Z)).
Abbreviation inv := (inv env d).
Abbreviation in_range := (in_range d).

(** [n] blocks of a level from [v] on. *)
Record span_ok (lv v n : Z) : Prop := {
  sp_level : start_level d <= lv <= 3;
  sp_v : in_range v /\ v mod 2 ^ sh d lv = 0;
  sp_n : 0 < n /\ idx d lv v + n <= 2 ^ nbits d lv;
  sp_range : v + n * 2 ^ sh d lv <= 2 ^ ias (cfg d);
}.

Lemma span_in_range lv v n a : span_ok lv v n -> in_run d lv v n a = true -> in_range a.
Proof. intros [_ [Hv _] _ Hr] Ha. unfold in_run in Ha. destruct Hv. split; lia. Qed.

(** The addresses of the span by their places. *)
Lemma span_slots lv v n c a : span_ok lv v n -> 0 <= c <= n ->
  in_run d lv v c a = (pslot d lv v * 2 ^ nbits d lv + idx d lv v <=? slot d lv a) && (slot d lv a <? pslot d lv v * 2 ^ nbits d lv + idx d lv v + c).
Proof.
  intros [Hl [Hv Hm] [Hn Hi] _] Hc. pose proof (run_of_slots d HG lv v c a ltac:(lia) Hm ltac:(lia)) as H. pose proof (slot_split d HG lv a) as Es.
  pose proof (idx_range d HG lv a).
  pose proof (idx_range d HG lv v). unfold in_run. destruct ((v <=? a) && (a <? v + c * 2 ^ sh d lv)) eqn:E1; symmetry.
  - destruct (proj1 H ltac:(lia)) as [Ep Hr]. rewrite Ep in Es. lia.
  - apply not_true_is_false. intros E2. assert (v <= a < v + c * 2 ^ sh d lv); [apply H|lia]. pose proof (nbits_pos d HG lv).
    assert (pslot d lv a = pslot d lv v) as Ep; [|rewrite Ep in Es; split; [done|lia]]. symmetry.
    apply (place_inj (2 ^ nbits d lv) (pslot d lv v) (pslot d lv a) (slot d lv a - pslot d lv v * 2 ^ nbits d lv) (idx d lv a)); lia.
Qed.

(** The span is not mapped any more. *)
Definition unmapped (own : owner) (mine : gset Z) (pend : Z -> Z -> Prop) (q : pgt) (s : list (pgt -> pgt)) (lv v n : Z) (w : world pgt) : Prop :=
  exists own' q', w = mk_world q' s /\ q_lock q' = q_lock q /\ inv own' mine pend q' /\
    (forall a, in_range a -> abs d (q_mem q') a = if in_run d lv v n a then None else abs d (q_mem q) a) /\
    (forall X, (forall a, X a -> in_range a -> in_run d lv v n a = false) -> kept d (2 <= lv) X own own' mine q q').

Lemma cleared_unmapped own mine pend q s T lv v n c w : span_ok lv v n -> 0 <= c <= n -> cleared env d own mine pend q s T lv (pslot d lv v) (idx d lv v) c w ->
  unmapped own mine pend q s lv v c w.
Proof.
  intros HS Hc (own' & q' & -> & El & HI & _ & Ha & Hk). exists own', q'. split_and!; try done.
  - intros a Har. by rewrite Ha, (span_slots lv v n c a).
  - intros X HX. apply Hk. intros a Hx Har. specialize (HX a Hx Har). rewrite (span_slots lv v n c a) in HX by done. lia.
Qed.

(** ** The entries *)

Lemma mapped_used own mine pend q T lv v n t j : inv own mine pend q -> span_ok lv v n -> own !! T = Some (lv, pslot d lv v) -> q_mem q !! T = Some t ->
  (forall a, in_run d lv v n a = true -> abs d (q_mem q) a <> None) -> idx d lv v <= j < idx d lv v + n -> t j <> 0.
Proof.
  intros HI HS Ho Ht Ha Hj E. pose proof HS as [Hl [Hv Hm] [Hn Hi] _]. pose proof (sh_pos d HG lv ltac:(lia)). pose proof (idx_range d HG lv v).
  set (a := v + (j - idx d lv v) * 2 ^ sh d lv). assert (in_run d lv v n a = true) as Hr by (unfold in_run, a; nia).
  pose proof (span_in_range lv v n a HS Hr) as Har. apply (Ha a Hr).
  assert (v <= a < v + n * 2 ^ sh d lv) as Hr' by (unfold in_run in Hr; lia). apply (run_of_slots d HG lv v n a) in Hr' as [Ep Ei]; [|lia|done|done].
  pose proof (run_addr d HG lv v a ltac:(lia) Hm Ep) as Ed. pose proof (Z.mod_pos_bound a (2 ^ sh d lv) ltac:(lia)).
  assert (idx d lv a = j) as Ej by (unfold a in Ed at 1; nia). apply (abs_empty d HG (q_mem q) own a lv T t); [apply HI|done|by rewrite Ep|done|by rewrite Ej].
Qed.

Lemma nvalid_none t : nvalid d t = 0 -> forall j, 0 <= j < 2 ^ bits_per_level d -> t j = 0.
Proof.
  intros E j Hj. destruct (Z.eq_dec (t j) 0) as [|Hn]; [done|]. exfalso. unfold nvalid in E.
  assert (j ∈ filter (fun i => t i <> 0) (upto (2 ^ bits_per_level d))) as Hin by (apply list_elem_of_filter; split; [done|apply elem_of_seqZ; lia]).
  destruct (filter _ _) as [|x l] eqn:Ef; [by apply elem_of_nil in Hin|]. cbn in E. lia.
Qed.

(** Entries of a last table go and the count above goes down. *)
Lemma last_rewritten own mine pend q q1 P C t tp n v : inv own mine pend q -> span_ok 3 v n -> start_level d < 3 ->
  own !! P = Some (2, pslot d 2 v) -> q_mem q !! P = Some tp -> is_table d (tp (idx d 2 v)) C -> own !! C = Some (3, pslot d 3 v) -> q_mem q !! C = Some t ->
  (forall a, in_run d 3 v n a = true -> abs d (q_mem q) a <> None) -> table_filled d C (idx d 3 v) n (fun _ => 0) true t q q1 ->
  exists t', rewritten d C 3 (idx d 3 v) n (fun _ => 0) true (Some (P, idx d 2 v)) t t' q
      (q1 <| q_mem := <[P := set_entry tp (idx d 2 v) (iopte_tblcnt_set (tp (idx d 2 v)) (iopte_tblcnt (tp (idx d 2 v)) - n))]> (q_mem q1) |>) /\
    rewrite_ok d own C 3 (pslot d 3 v) (idx d 3 v) n (fun _ => 0) (Some (P, idx d 2 v)) t t'
      (q1 <| q_mem := <[P := set_entry tp (idx d 2 v) (iopte_tblcnt_set (tp (idx d 2 v)) (iopte_tblcnt (tp (idx d 2 v)) - n))]> (q_mem q1) |>) /\
    nvalid d t' = nvalid d t - n.
Proof.
  intros HI HS Hst HoP Htp HC HoC Ht Ha (t' & dev & -> & Hr & Hdx & td & td' & Htd & Htd' & Hj). pose proof HS as [_ [Hv Hm] [Hn Hi] _].
  pose proof (idx_range d HG 3 v).
  assert (P <> C) as HPC by congruence. pose proof (nbits_below d 3 Hst) as Enb. rewrite Enb in Hi.
  assert (forall j, idx d 3 v <= j < idx d 3 v + n -> t j <> 0) as Hu by (intros j Hj'; by apply (mapped_used own mine pend q C 3 v n t j)).
  assert (nvalid d t' = nvalid d t - n) as Env.
  { rewrite (nvalid_range d t t' (idx d 3 v) n (fun _ => 0) true Hr); [done|lia..|]. intros j Hj'. unfold in_use.
    rewrite Hr, (proj2 (andb_true_iff _ _)) by lia.
    specialize (Hu j Hj'). split; [lia|done]. }
  assert (pslot d 3 v = pslot d 2 v * 2 ^ nbits d 2 + idx d 2 v) as Eps by (pose proof (pslot_succ d HG 2 v ltac:(lia) ltac:(lia)) as E;
    change (2 + 1) with 3 in E; rewrite E; apply slot_split, HG).
  pose proof (idx_range d HG 2 v) as Hi2. pose proof (nbits_pos d HG 2). exists t'. split; [|split; [|done]].
  - split; cbn; try done.
    + split; [done|]. by rewrite lookup_insert_ne, lookup_insert_eq.
    + split; [done|]. exists tp. eexists. rewrite lookup_insert_eq. split; [done|]. split; [done|]. unfold set_entry.
      split; [intros j Hj'; by rewrite (proj2 (Z.eqb_neq _ _))|].
      intros C' HC'. rewrite Z.eqb_refl. by apply tblcnt_set_ok.
    + intros x Hx Hx'. rewrite !lookup_insert_ne; [done|done|]. intros <-. by apply (Hx' P (idx d 2 v)).
    + by exists td, td'.
  - split; cbn; try done.
    + rewrite Enb. lia.
    + intros j Hj'. split; [|by left]. destruct (tr_entry _ _ _ (in_tree _ _ _ _ _ _ HI) C 3 _ t j HoC Ht) as [?|[? _]]; [rewrite Enb; lia|done|lia].
    + intros P' ip' [= <- <-]. change (3 - 1) with 2. rewrite Eps, Z.div_add_l, (Z.div_small (idx d 2 v)), Z.add_0_r by lia.
      rewrite (Z.add_comm (_ * _)), Z.mod_add, Z.mod_small by lia. done.
    + intros _ _. exists P, (idx d 2 v). eexists. rewrite lookup_insert_eq. split; [done|]. split; [done|]. unfold set_entry.
      rewrite Z.eqb_refl, tblcnt_set_get, Env.
      rewrite (in_cnt _ _ _ _ _ _ HI P _ tp (idx d 2 v) C t HoP Htp Hi2 HC Ht). by rewrite Zminus_mod_idemp_l.
Qed.

(** An empty last table is cut off. *)
Lemma empty_cut own mine pend q s P C t tp k i : inv own mine pend q -> start_level d <= 2 -> own !! P = Some (2, k) -> 0 <= i < 2 ^ nbits d 2 ->
  q_mem q !! P = Some tp -> is_table d (tp i) C ->
  q_mem q !! C = Some t -> (forall j, 0 <= j < 2 ^ bits_per_level d -> t j = 0) ->
  sure (mbnd (__arm_lpae_set_pte env d (P, i) 0 1) (fun _ => __arm_lpae_free_pgtable env LEVELS d 3 C true) (mk_world q s)) (fun _ w =>
    exists own' q', w = mk_world q' s /\ q_lock q' = q_lock q /\ inv own' mine pend q' /\ (forall a, in_range a -> abs d (q_mem q') a = abs d (q_mem q) a) /\
      forall low X, low -> kept d low X own own' mine q q').
Proof.
  intros HI Hst HoP Hi Htp HC Ht Hz. destruct (mem_some env d _ _ _ _ _ _ HI HoP) as (t0 & tdp & E & Htdp). rewrite Htp in E. injection E as <-.
  pose proof (child_owned env d HG own mine pend q P 2 k tp i C HI HoP ltac:(lia) Htp Hi HC) as HoC. change (2 + 1) with 3 in HoC.
  pose proof (entries_nbits d HG 2 i Hi) as Hib. apply (clear_table env d HG HE P i 1 tp tdp); try done; [lia..|]. intros q1 HF.
  pose proof HF as (t' & dev & Eq1 & _).
  rewrite run_end. eapply sure_step; [apply (free_deferred env d HG HE own (q_mem q) _ s C 3 (k * 2 ^ nbits d 2 + i)); [apply HI|done|lia|]|].
  { intros p Hp. rewrite Eq1. cbn. rewrite lookup_insert_ne; [done|]. intros <-. destruct (desc_owned d own C P _ _ HoC Hp) as (l' & k' & E & ?).
    rewrite HoP in E. injection E as <- <-. lia. }
  intros [] w (q2 & L & -> & HQ & HN & HL). exists (cut own L), q2. split; [done|]. pose proof HQ as [_ (_ & _ & Elk & _) _]. split; [by rewrite Elk, Eq1|].
  assert (forall a, in_range a -> slot d 2 a = k * 2 ^ nbits d 2 + i -> abs d (q_mem q) a = None) as Hnone.
  { intros a Har Es. apply (abs_empty d HG (q_mem q) own a 3 C t); [apply HI|done| |done|].
    - rewrite HoC. pose proof (pslot_succ d HG 2 a Hst ltac:(lia)) as Ep. change (2 + 1) with 3 in Ep. by rewrite Ep, Es.
    - apply Hz. apply (entries_nbits d HG 3). apply idx_range, HG. }
  split; [by apply (cut_inv env d HG own mine pend q q1 q2 P 2 k i C tp L HI HoP ltac:(lia) Hi Htp HC HF HQ HN HL)|]. split.
  - intros a Har. rewrite (cut_abs env d HG own mine pend q q1 q2 P 2 k i C tp L HI HoP ltac:(lia) Hi Htp HC HF HQ HL a Har).
    destruct (Z.eqb_spec (slot d 2 a) (k * 2 ^ nbits d 2 + i)) as [Es|]; [by rewrite Hnone|done].
  - intros low X Hlow. assert (kept d (2 <= 2) X own (cut own L) mine q q2) as [K1 K2 K3]; [|split; [|done|done]; intros _; apply K1; lia].
    apply (cut_kept env d HG own mine pend q q1 q2 P 2 k i C tp L X HI HoP ltac:(lia) Hi Htp HC HF HQ HL). intros a _ Har Hne Es. by apply Hne, Hnone.
Qed.

Lemma rewritten_unmapped own mine pend q q' s lv T v n prev t t' : inv own mine pend q -> span_ok lv v n ->
  rewritten d T lv (idx d lv v) n (fun _ => 0) true prev t t' q q' -> rewrite_ok d own T lv (pslot d lv v) (idx d lv v) n (fun _ => 0) prev t t' q' ->
  unmapped own mine pend q s lv v n (mk_world q' s).
Proof.
  intros HI HS RW RO. exists own, q'. destruct (rw_rest _ _ _ _ _ _ _ _ _ _ _ _ RW) as (_ & _ & _ & Elk). split; [done|]. split; [done|].
  split; [by eapply rewritten_inv|]. split.
  - intros a Har. pose proof HS as [Hl [Hv Hm] [Hn Hi] _]. pose proof (run_of_slots d HG lv v n a ltac:(lia) Hm Hi) as H. unfold in_run.
    destruct ((v <=? a) && (a <? v + n * 2 ^ sh d lv)) eqn:Er.
    + destruct (proj1 H ltac:(lia)) as [Ep Ei].
      by apply (rw_abs_in env d HG own mine pend q q' T lv (pslot d lv v) (idx d lv v) n (fun _ => 0) true prev t t' HI RW RO a Har Ep Ei).
    + apply (rw_abs_out env d HG own mine pend q q' T lv (pslot d lv v) (idx d lv v) n (fun _ => 0) true prev t t' HI RW RO a Har). intros Hp%H. lia.
  - intros X _. by eapply rewritten_kept.
Qed.

Lemma unmap_last_sure own mine pend q s P C tp iova n : inv own mine pend q -> span_ok 3 (canon d iova) n -> start_level d < 3 ->
  own !! P = Some (2, pslot d 2 (canon d iova)) -> q_mem q !! P = Some tp -> is_table d (tp (idx d 2 (canon d iova))) C ->
  (forall a, in_run d 3 (canon d iova) n a = true -> abs d (q_mem q) a <> None) ->
    forall pgcount, n = Z.min (s32 pgcount) (2 ^ bits_per_level d - idx d 3 (canon d iova)) ->
  sure (unmap_last env d iova (2 ^ sh d 3) pgcount 2 (P, idx d 2 (canon d iova)) (tp (idx d 2 (canon d iova))) (mk_world q s))
    (fun r w => r = n * 2 ^ sh d 3 /\ unmapped own mine pend q s 3 (canon d iova) n w).
Proof.
  intros HI HS Hst HoP Htp HC Ha pgcount En. set (v := canon d iova) in *. set (ip := idx d 2 v) in *. pose proof HS as [_ [Hv Hm] [Hn Hi] _].
  pose proof (idx_range d HG 3 v). pose proof (idx_range d HG 2 v) as Hi2. fold ip in Hi2.
  assert (own !! C = Some (3, pslot d 3 v)) as HoC.
  { rewrite (child_owned env d HG own mine pend q P 2 _ tp ip C HI HoP ltac:(lia) Htp Hi2 HC). do 2 f_equal.
    pose proof (pslot_succ d HG 2 v ltac:(lia) ltac:(lia)) as E. change (2 + 1) with 3 in E. rewrite E. symmetry. apply slot_split, HG. }
  destruct (mem_some env d _ _ _ _ _ _ HI HoC) as (t & td & Ht & Htd). assert (P <> C) as HPC by congruence.
  unfold unmap_last. pose proof HC as [_ EC]. rewrite EC. change (2 + 1) with 3. rewrite (lvl_idx d HG iova 3) by lia. fold v.
  assert (arm_check_and_set_num_cont env d (2 ^ sh d 3) 3 = 1) as Ec by (unfold arm_check_and_set_num_cont; by rewrite (eo_hint _ _ HE)). rewrite Ec. cbv zeta.
  rewrite (ptes_per_table d HG), Z.mul_1_l, <- En. pose proof (entries_nbits d HG 2 ip Hi2) as Hi2b. pose proof (nbits_below d 3 Hst) as Enb. rewrite Enb in *.
  rewrite (run_read env d HG HE C (idx d 3 v) t) by done.
  rewrite (run_cont env d HE). apply (clear_table env d HG HE C (idx d 3 v) n t td); try done; [lia..|]. intros q1 HF. pose proof HF as (t1 & dev & Eq1 & _).
  assert (q_mem q1 !! P = Some tp) as HtP1 by (rewrite Eq1; cbn; by rewrite lookup_insert_ne).
  change (iopte_tblcnt_sub env (P, ip) n) with (iopte_tblcnt_add env (P, ip) (- n)). rewrite (run_tblcnt_add env d HG HE P ip (- n) tp) by done.
  destruct (last_rewritten own mine pend q q1 P C t tp n v HI HS Hst HoP Htp HC HoC Ht Ha HF) as (t' & RW & RO & Env). fold ip in RW, RO. rewrite Z.add_opp_r.
  set (e := iopte_tblcnt_set (tp ip) (iopte_tblcnt (tp ip) - n)) in *. set (q2 := q1 <| q_mem := <[P := set_entry tp ip e]> (q_mem q1) |>) in *.
  assert (inv own mine pend q2) as HI2 by (by apply (rewritten_inv env d HG own mine pend q q2 C 3 (pslot d 3 v) (idx d 3 v) n (fun _ => 0) true (Some (P, ip))
    t t')).
  pose proof (rewritten_unmapped own mine pend q q2 s 3 C v n (Some (P, ip)) t t' HI HS RW RO) as HU2.
  assert (q_mem q2 !! P = Some (set_entry tp ip e)) as HtP2 by apply lookup_insert_eq.
  assert (set_entry tp ip e ip = e) as Ee by (unfold set_entry; by rewrite Z.eqb_refl).
  rewrite (run_read env d HG HE P ip (set_entry tp ip e)) by done. rewrite Ee, Z.div_1_r.
  destruct (Z.eqb_spec (iopte_tblcnt e) 0) as [Ez|Hnz]; [|split; [done|done]].
  eapply sure_step; [apply (empty_cut own mine pend q2 s P C t' (set_entry tp ip e) (pslot d 2 v) ip); try done; [lia| |apply RW|]|].
  - rewrite Ee. by apply tblcnt_set_ok.
  - apply nvalid_none. unfold e in Ez. rewrite tblcnt_set_get in Ez.
    rewrite (in_cnt _ _ _ _ _ _ HI P _ tp ip C t HoP Htp Hi2 HC Ht), Zminus_mod_idemp_l, <- Env in Ez.
    pose proof (nvalid_bound d t) as Hb. pose proof (nvalid_bound d t') as Hb'. pose proof (bpl_pos d HG).
    assert (2 ^ bits_per_level d <= 2 ^ 13) by (apply Z.pow_le_mono_r; lia).
    rewrite Z.mod_small in Ez by lia. done.
  - intros [] w (own3 & q3 & -> & El3 & HI3 & Ha3 & Hk3). split; [done|]. destruct HU2 as (own2 & q2' & [= <-] & El2 & _ & Ha2 & Hk2). exists own3, q3.
    split; [done|]. split; [congruence|]. split; [done|].
    split; [intros a Har; rewrite Ha3 by done; by apply Ha2|]. intros X HX. apply (kept_trans d _ X own own own3 mine q q2 q3).
    + apply (rewritten_kept env d _ X own mine pend q q2 C 3 (pslot d 3 v) (idx d 3 v) n (fun _ => 0) true (Some (P, ip)) t t' HI RW RO).
    + intros a Hx Har. by rewrite Ha2, HX.
    + by apply Hk3.
Qed.
End PtUnmapLast.
