(* ===== verification/PtSplit.v ===== *)
(** * PtSplit: part of a block is unmapped

    [arm_lpae_split_blk_unmap] of IoPgtable.v when no other thread runs: the rest
    of the block is mapped by the entries of a new table. *)
From stdpp Require Import prelude gmap list.
From S2P Require Import Prelude.
From S2P Require Import Effects.
From S2P Require Import PgAlloc.
From S2P Require Import IoPgtable.
From S2P Require Import PtBits.
From S2P Require Import PtInv.
From S2P Require Import PtTree.
From S2P Require Import PtState.
From S2P Require Import PtMap.
From S2P Require Import PtLeaf.
From S2P Require Import PtMapPages.
From S2P Require Import PtFree.
From S2P Require Import PtCut.
From S2P Require Import PtUnmap.
From S2P Require Import PtUnmapLast.
#[local] Open Scope kernel_scope.

Section PtSplit.
Context {PA : PageAlloc} (env : pg_env) {PL : PageAllocLaws (pe_page_shift env)}.
Context (d : arm_lpae_io_pgtable) (HG : geo_ok d) (HE : env_ok env d).

Abbreviation owner := (gmap Z (Z * Z)).
Abbreviation inv := (inv env d).
Abbreviation in_range := (in_range d).

(** ** A page in hand is filled *)

(** Only the page [C] is written. *)
Record page_written (C : Z) (q q' : pgt) : Prop := {
  pw_other : forall x, x <> C -> q_mem q' !! x = q_mem q !! x /\ q_dev q' !! x = q_dev q !! x;
  pw_C : is_Some (q_mem q' !! C) /\ is_Some (q_dev q' !! C);
  pw_rest : q_al q' = q_al q /\ freelist q' = freelist q /\ q_cached q' = q_cached q /\ q_lock q' = q_lock q;
}.

Lemma page_written_inv own mine pend C q q' : inv own ({[C]} ∪ mine) pend q -> page_written C q q' -> inv own ({[C]} ∪ mine) pend q'.
Proof.
  intros HI [Ho [[tc Hc] [td Hd]] (Ea & Ef & Ec & _)]. assert (own !! C = None) as HoC by (apply (in_disj _ _ _ _ _ _ HI); right; set_solver).
  assert (is_Some (q_mem q !! C) /\ is_Some (q_dev q !! C)) as [HmC HdC].
  { assert (is_Some (q_mem q !! C)) as H by (apply (in_dom _ _ _ _ _ _ HI); right; right; set_solver). split; [done|by apply (in_devdom _ _ _ _ _ _ HI)]. }
  assert (forall x, is_Some (q_mem q' !! x) <-> is_Some (q_mem q !! x)) as Hs.
  { intros x. destruct (decide (x = C)) as [->|Hx]; [rewrite Hc; split; eauto|by rewrite (proj1 (Ho x Hx))]. }
  assert (dom (q_mem q') = dom (q_mem q)) as Ed by (apply set_eq; intros x; rewrite !elem_of_dom; apply Hs).
  split; rewrite ?Ea, ?Ef, ?Ec, ?Ed; try apply HI.
  - eapply tree_change; [exact HG|apply HI|]. intros T l k t HT Ht. exists t. rewrite (proj1 (Ho T ltac:(congruence))). split; [done|]. intros i _. left.
    apply same_entry_refl.
  - intros P k t i C2 tc2 HP Ht Hi HC2 Htc2. rewrite (proj1 (Ho P ltac:(congruence))) in Ht.
    pose proof (last_table d HG own (q_mem q) P k t i C2 (in_tree _ _ _ _ _ _ HI) HP Ht Hi HC2) as HoC2.
    rewrite (proj1 (Ho C2 ltac:(congruence))) in Htc2. by apply (in_cnt _ _ _ _ _ _ HI P k t i C2 tc2).
  - intros Hco T l k t HT Ht. destruct (Ho T ltac:(congruence)) as [Em Edv]. rewrite Em in Ht. rewrite Edv. by apply (in_dev _ _ _ _ _ _ HI Hco T l k t).
  - intros p. rewrite Hs. apply (in_dom _ _ _ _ _ _ HI).
  - intros p. destruct (decide (p = C)) as [->|Hp]; [rewrite Hc, Hd; split; eauto|]. destruct (Ho p Hp) as [-> ->]. apply (in_devdom _ _ _ _ _ _ HI).
Qed.

(** The entries [a] to [a + n - 1] but for some are filled. *)
Definition part_filled (l paddr prot : Z) (skip : Z -> bool) (a n : Z) (t t' : Z -> Z) : Prop :=
  forall j, t' j = if ((a <=? j) && (j <? a + n)) && negb (skip j) then leaf_at d l paddr prot j else t j.

Lemma range_nil a j : (a <=? j) && (j <? a + Z.of_nat 0) = false.
Proof. lia. Qed.

Lemma range_cons a n j : j <> a -> (a + 1 <=? j) && (j <? a + 1 + Z.of_nat n) = (a <=? j) && (j <? a + Z.of_nat (S n)).
Proof. intros. lia. Qed.

Lemma fill_part C l paddr prot (skip : Z -> bool) s : (forall j, 0 <= j < 2 ^ bits_per_level d -> pa_ok d l (paddr + j * 2 ^ sh d l)) ->
  forall n a t td q, q_mem q !! C = Some t -> q_dev q !! C = Some td -> 0 <= a -> a + Z.of_nat n <= 2 ^ bits_per_level d ->
  sure (for_each (seqZ a (Z.of_nat n)) (fun i => if skip i then mret tt
          else __arm_lpae_init_pte env d (u64 (paddr + i * ARM_LPAE_BLOCK_SIZE l d)) prot l 1 (C, i) true) (mk_world q s))
    (fun _ w => exists q' t' td', w = mk_world q' s /\ page_written C q q' /\ q_mem q' !! C = Some t' /\ q_dev q' !! C = Some td' /\
      part_filled l paddr prot skip a (Z.of_nat n) t t' /\ (coherent_walk (cfg d) = false -> part_filled l paddr prot skip a (Z.of_nat n) td td')).
Proof.
  intros Hpa. rewrite block_size. induction n as [|n IH]; intros a t td q Ht Htd Ha Hn.
  - cbn. exists q, t, td. split_and!; try done; [intros j; by rewrite range_nil|intros _ j; by rewrite range_nil].
  - rewrite seqZ_cons_0 by lia. replace (Z.of_nat (S n) - 1) with (Z.of_nat n) by lia. cbn [for_each]. destruct (skip a) eqn:Es.
    + rewrite run_ret. eapply sure_mono; [apply (IH (a + 1) t td q Ht Htd); lia|]. intros [] w (q' & t' & td' & -> & HW & Ht' & Htd' & Hf & Hfd).
      exists q', t', td'.
      assert (forall f f', part_filled l paddr prot skip (a + 1) (Z.of_nat n) f f' -> part_filled l paddr prot skip a (Z.of_nat (S n)) f f') as H.
      { intros f f' H j. rewrite H. destruct (Z.eq_dec j a) as [->|Hja]; [rewrite Es, !andb_false_r; done|]. by rewrite (range_cons a n j Hja). }
      split_and!; auto.
    + rewrite (pa_ok_u64 d HG l) by (apply Hpa; lia). apply (fill_table env d HG HE C l a 1 (paddr + a * 2 ^ sh d l) prot true t td); try done; [lia..| |].
      { intros j Hj. replace j with 0 by lia. rewrite Z.mul_0_l, Z.add_0_r. apply Hpa. lia. }
      intros q1 (t1 & dev & -> & Hr & Hdx & td0 & td1 & Htd0 & Htd1 & Hj). rewrite Htd in Htd0. injection Htd0 as <-.
      eapply sure_mono; [apply (IH (a + 1) t1 td1); [apply lookup_insert_eq|done|lia|lia]|].
      intros [] w (q' & t' & td' & -> & [Ho HC HR] & Ht' & Htd' & Hf & Hfd). exists q', t', td'.
      assert (forall f f1 f', (forall j, f1 j = if (a <=? j) && (j <? a + 1) then leaf_at d l paddr prot j else f j) ->
        part_filled l paddr prot skip (a + 1) (Z.of_nat n) f1 f' -> part_filled l paddr prot skip a (Z.of_nat (S n)) f f') as H.
      { intros f f1 f' H1 H j. rewrite H, H1. destruct (Z.eq_dec j a) as [->|Hja].
        - rewrite Es. rewrite (proj2 (andb_false_iff (_ <=? _) _)) by (left; lia). cbn. by rewrite !(proj2 (andb_true_iff _ _)) by lia.
        - rewrite (range_cons a n j Hja). destruct (_ && _); [done|]. by rewrite (proj2 (andb_false_iff _ _)) by lia. }
      assert (forall j, t1 j = if (a <=? j) && (j <? a + 1) then leaf_at d l paddr prot j else t j) as Ht1.
      { intros j. rewrite Hr. destruct ((a <=? j) && (j <? a + 1)) eqn:E; [|done]. replace j with a by lia. unfold leaf_at.
        by rewrite Z.sub_diag, Z.mul_0_l, Z.add_0_r. }
      split; [done|]. split; [|split; [done|split; [done|split]]].
      * split; [|done|done]. intros x Hx. destruct (Ho x Hx) as [-> ->]. cbn. rewrite lookup_insert_ne by done. split; [done|by apply Hdx].
      * by apply (H t t1 t').
      * intros Hco. apply (H td td1 td'); [|by apply Hfd]. intros j. rewrite (Hj Hco). cbn [andb]. destruct (_ && _) eqn:E; [|done]. rewrite Ht1, E. done.
Qed.

(** ** A table is put in, with no other thread *)

Lemma resync_alone own mine pend q : inv own mine pend q ->
  sure (sync_unlocked (mk_world q [])) (fun _ w => exists q', w = mk_world q' [] /\ inv own mine pend q' /\ q_lock q' = true /\
    keeps_but (list_to_set (freelist q)) q q').
Proof.
  intros HI. unfold sync_unlocked. rewrite run_unlock. set (q0 := q <| q_lock := false |>).
  assert (inv own mine pend q0) as HI0 by (by apply (same_mem_inv env d own mine pend q)).
  unfold mbnd at 1. unfold yield at 1. cbn [w_sched]. eapply sure_step; [by apply (tlb_sync_sure env d HG HE own mine pend q0)|].
  intros [] w (q1 & -> & HI1 & El & Hk). unfold mbnd at 1. unfold yield at 1. cbn [w_sched]. rewrite run_end, run_lock by done. cbn.
  exists (q1 <| q_lock := true |>). split_and!; try done. by apply (same_mem_inv env d own mine pend q1).
Qed.

Definition put_in (own : owner) (mine : gset Z) (pend : Z -> Z -> Prop) (q : pgt) (T l k i C curr : Z) (t : Z -> Z) (old : Z) (w : world pgt) : Prop :=
  old = curr /\ exists q1 q' e, w = mk_world q' [] /\ q_lock q' = true /\ inv own ({[C]} ∪ mine) pend q1 /\ keeps_but (list_to_set (freelist q)) q q1 /\
    is_table d e C /\ wrote d T l i e t q1 q' /\ inv (<[C := (l + 1, k * 2 ^ nbits d l + i)]> own) mine pend q'.

Lemma install_alone own mine pend q T l k i C curr rc tc tdc t :
  inv own ({[C]} ∪ mine) pend q -> C ∉ mine -> own !! T = Some (l, k) -> l < 3 -> 0 <= i < 2 ^ nbits d l -> q_mem q !! T = Some t -> t i = curr ->
  plain d l curr -> page_ok d C -> q_mem q !! C = Some tc -> q_dev q !! C = Some tdc -> (coherent_walk (cfg d) = false ->
    forall j, 0 <= j < 2 ^ bits_per_level d -> tdc j = tc j) ->
  (forall j, 0 <= j < 2 ^ bits_per_level d -> plain d (l + 1) (tc j)) -> rc mod 2 ^ 13 = nvalid d tc mod 2 ^ 13 ->
  sure (arm_lpae_install_table env d C (T, i) curr rc (mk_world q [])) (put_in own mine pend q T l k i C curr t).
Proof.
  intros HI HCm Ho Hl Hi Ht Ec Hpl Hpg Htc Hdc Hcd Hj Hrc. unfold arm_lpae_install_table.
  eapply sure_step; [by apply (resync_alone own ({[C]} ∪ mine) pend q)|]. intros [] w (q1 & -> & HI1 & Hl1 & Hk).
  assert (T ∉ freelist q) as HTf by (by destruct (owned_not_mine env d own _ pend q T _ HI Ho)).
  assert (C ∉ freelist q) as HCf by (intros Hf; destruct (in_disj _ _ _ _ _ _ HI C) as [_ H]; apply (H Hf); set_solver).
  destruct (Hk T) as [HmT _]; [by rewrite elem_of_list_to_set|]. destruct (Hk C) as [HmC HdC]; [by rewrite elem_of_list_to_set|].
  rewrite Ht in HmT. rewrite Htc in HmC. rewrite Hdc in HdC. destruct (mem_some env d _ _ _ _ _ _ HI1 Ho) as (t0 & td & E & Htd). rewrite HmT in E.
  injection E as <-.
  cbv zeta. rewrite (run_read env d HG HE T i t) by (done || by eapply entries_nbits). rewrite Ec, Z.eqb_refl.
  eapply sure_mono; [by apply (install_writes env d HG HE own mine pend q1 [] T l k i C curr rc tc tdc t td)|].
  intros old w (-> & q' & e & -> & Hl' & He & Hw & HI'). split; [done|]. exists q1, q', e. split_and!; try done. by rewrite Hl'.
Qed.

(** ** The parts of a block *)

Lemma block_part l a : start_level d <= l -> l < 3 -> a mod 2 ^ sh d l = idx d (l + 1) a * 2 ^ sh d (l + 1) + a mod 2 ^ sh d (l + 1).
Proof.
  intros Hs Hl. pose proof (sh_pos d HG (l + 1) ltac:(lia)). pose proof (bpl_pos d HG). rewrite (sh_succ d l), Z.pow_add_r, Z.rem_mul_r by lia.
  unfold idx, slot. rewrite nbits_below by lia. lia.
Qed.

Lemma part_pa l pa j : start_level d <= l -> l < 3 -> pa_ok d l pa -> 0 <= j < 2 ^ bits_per_level d -> pa_ok d (l + 1) (pa + j * 2 ^ sh d (l + 1)).
Proof.
  intros Hs Hl [Hm Hr] Hj. unfold pa_ok in *. fold (sh d l) in *. fold (sh d (l + 1)) in *. pose proof (sh_pos d HG (l + 1) ltac:(lia)).
  pose proof (bpl_pos d HG).
  rewrite (sh_succ d l), Z.pow_add_r in * by lia. split; [|nia]. rewrite Z.mod_add by lia. rewrite (Z.mul_comm (2 ^ _)) in Hm.
  apply Z.mod_divide in Hm as [z ->]; [|lia]. rewrite Z.mul_assoc. apply Z.mod_mul. lia.
Qed.

Section Table.
Context (own : owner) (mine : gset Z) (pend : Z -> Z -> Prop) (q q1 q' : pgt).
Context (T l v C e pa prot : Z) (t tc : Z -> Z) (skip : Z -> bool).
Context (HI : inv own mine pend q) (HI1 : inv own ({[C]} ∪ mine) pend q1) (Ho : own !! T = Some (l, pslot d l v)) (Hl : l < 3).
Context (Ht : q_mem q !! T = Some t) (Et : t (idx d l v) = leaf_pte d pa prot l) (Hpa : pa_ok d l pa) (Hp : prot_ok prot).
Context (Hq1 : forall P lk, own !! P = Some lk -> q_mem q1 !! P = q_mem q !! P).
Context (Htc : q_mem q1 !! C = Some tc) (Etc : forall j, 0 <= j < 2 ^ bits_per_level d -> tc j = if skip j then 0 else leaf_at d (l + 1) pa prot j).
Context (Hw : wrote d T l (idx d l v) e t q1 q') (HI' : inv (<[C := (l + 1, slot d l v)]> own) mine pend q').

Lemma table_mem : own !! C = None /\ (exists t2, q_mem q' !! T = Some t2 /\ forall j, t2 j = set_entry t (idx d l v) e j) /\ (forall x, x <> T ->
  q_mem q' !! x = q_mem q1 !! x).
Proof.
  split; [apply (in_disj _ _ _ _ _ _ HI1); right; set_solver|]. destruct Hw as [(t2 & Em & Ht2) _ _ _]. rewrite Em.
  split; [exists t2; by rewrite lookup_insert_eq|].
  intros x Hx. by rewrite lookup_insert_ne.
Qed.

Lemma table_abs a : in_range a -> abs d (q_mem q') a = if (slot d l a =? slot d l v) && skip (idx d (l + 1) a) then None else abs d (q_mem q) a.
Proof.
  intros Har. destruct table_mem as (HoC & (t2 & Ht2 & Et2) & Hx). destruct (tr_level _ _ _ (in_tree _ _ _ _ _ _ HI) _ _ _ Ho) as [Hls _].
  assert (T <> C) as HTC by congruence. destruct (Z.eqb_spec (slot d l a) (slot d l v)) as [Es|Hn]; cbn [andb].
  - assert (pslot d l a = pslot d l v /\ idx d l a = idx d l v) as [Ep Ei] by (unfold pslot, idx; by rewrite Es).
    rewrite (abs_leaf d HG (q_mem q) own a l T t pa prot); [|apply HI|done|by rewrite Ep|done|by rewrite Ei|done|done].
    pose proof (idx_range d HG (l + 1) a) as Hr. rewrite nbits_below in Hr by lia.
    assert ((<[C := (l + 1, slot d l v)]> own) !! C = Some (l + 1, pslot d (l + 1) a)) as HoC' by (rewrite lookup_insert_eq, pslot_succ by (done || lia);
      by rewrite Es).
    assert (q_mem q' !! C = Some tc) as HmC by (by rewrite Hx). destruct (skip (idx d (l + 1) a)) eqn:Esk.
    + apply (abs_empty d HG (q_mem q') (<[C := (l + 1, slot d l v)]> own) a (l + 1) C tc); [apply HI'|done|done|done|]. by rewrite Etc, Esk.
    + rewrite (abs_leaf d HG (q_mem q') (<[C := (l + 1, slot d l v)]> own) a (l + 1) C tc (pa + idx d (l + 1) a * 2 ^ sh d (l + 1)) prot);
        [|apply HI'|done|done|done|by rewrite Etc, Esk|apply part_pa; [lia|done..]|done].
      rewrite (block_part l a) by lia. do 2 f_equal. lia.
  - apply (abs_frame d HG (q_mem q) (q_mem q') own a); [apply HI|done|]. intros l2 P tP HP HtP. destruct (decide (P = T)) as [->|HPT].
    + rewrite Ho in HP. injection HP as <- Ep. rewrite Ht in HtP. injection HtP as <-. exists t2. split; [done|]. rewrite Et2. unfold set_entry.
      destruct (Z.eqb_spec (idx d l a) (idx d l v)) as [Ei|]; [|apply same_entry_refl]. destruct Hn.
      rewrite (slot_split d HG l a), (slot_split d HG l v), Ei, Ep. done.
    + exists tP. rewrite Hx, (Hq1 P _ HP) by done. split; [done|apply same_entry_refl].
Qed.

Lemma table_kept low X (Hmine : forall p, p ∈ mine -> q_mem q1 !! p = q_mem q !! p /\
  q_dev q1 !! p = q_dev q !! p) : kept d low X own (<[C := (l + 1, slot d l v)]> own) mine q q'.
Proof.
  destruct table_mem as (HoC & _ & Hx). split.
  - intros _ P l' k' HP _. by rewrite lookup_insert_ne by congruence.
  - intros a P l' _ _ _ HP. by rewrite lookup_insert_ne by congruence.
  - intros p Hpm. assert (p <> T) as HpT by (intros ->; by destruct (owned_not_mine env d own mine pend q T _ HI Ho)). rewrite Hx by done.
    rewrite (wr_dev _ _ _ _ _ _ _ _ Hw) by done. by apply Hmine.
Qed.
End Table.

(** ** The block is split *)

Lemma length_filter_iff {A : Type} (P Q : A -> Prop) `{!forall x, Decision (P x)} `{!forall x, Decision (Q x)} (l : list A) :
  (forall x, x ∈ l -> P x <-> Q x) -> length (filter P l) = length (filter Q l).
Proof.
  induction l as [|x l IH]; intros Hpq; [done|]. assert (length (filter P l) = length (filter Q l)) as E by (apply IH; intros y Hy; apply Hpq; by right).
  destruct (decide (P x)) as [Hx|Hx].
  - rewrite !filter_cons_True; [cbn; by rewrite E| |done]. apply Hpq; [by left|done].
  - rewrite !filter_cons_False; [done| |done]. rewrite <- (Hpq x); [done|by left].
Qed.

(** The index from which entries are left out, and how many; none when smaller
    blocks are asked for. *)
Definition split_from (l lv v : Z) : Z := if l + 1 =? lv then idx d (l + 1) v else -1.

Definition split_num (l lv n : Z) : Z := if l + 1 =? lv then n else 0.

Definition split_skip (l lv v n j : Z) : bool := (split_from l lv v <=? j) && (j <? split_from l lv v + split_num l lv n).

Lemma split_skip_run l lv v n a : start_level d <= l -> l < lv -> span_ok d lv v n ->
  (slot d l a =? slot d l v) && split_skip l lv v n (idx d (l + 1) a) = (l + 1 =? lv) && in_run d lv v n a.
Proof.
  intros Hs Hl [Hlv [Hv Hm] [Hn Hi] _]. unfold split_skip, split_from, split_num. destruct (Z.eqb_spec (l + 1) lv) as [E|Hne]; cbn [andb].
  - subst lv. pose proof (run_of_slots d HG (l + 1) v n a ltac:(lia) Hm Hi) as H. rewrite !(pslot_succ d HG l) in H by lia. unfold in_run.
    destruct ((v <=? a) && (a <? v + n * 2 ^ sh d (l + 1))) eqn:E.
    + destruct (proj1 H ltac:(lia)) as [E1 E2]. rewrite E1, Z.eqb_refl. lia.
    + destruct (Z.eqb_spec (slot d l a) (slot d l v)) as [E1|]; [|done]. apply not_true_is_false. intros E2.
      assert (v <= a < v + n * 2 ^ sh d (l + 1)); [|lia]. apply H. split; [done|]. cbn in E2. lia.
  - pose proof (idx_range d HG (l + 1) a). apply andb_false_iff. right. lia.
Qed.

(** The same translation, with new tables perhaps. *)
Definition unchanged (own own' : owner) (mine : gset Z) (q q' : pgt) : Prop :=
  (forall a, in_range a -> abs d (q_mem q') a = abs d (q_mem q) a) /\ forall low X, kept d low X own own' mine q q'.

Lemma keeps_unchanged own mine mine' pend q q' Y : inv own mine pend q -> mine' ⊆ mine -> (forall p, is_Some (own !! p) \/ p ∈ mine' -> p ∉ Y) ->
  keeps_but Y q q' -> unchanged own own mine' q q'.
Proof.
  intros HI Hm HY Hk. split.
  - intros a Ha. apply (abs_frame d HG (q_mem q) (q_mem q') own a); [apply HI|done|]. intros l T t HT Ht. exists t.
    destruct (Hk T) as [-> _]; [apply HY; left; eauto|].
    split; [done|apply same_entry_refl].
  - intros low X. split; [done|done|]. intros p Hp. apply Hk, HY. by right.
Qed.

Lemma unchanged_trans own1 own2 own3 mine q1 q2 q3 : unchanged own1 own2 mine q1 q2 -> unchanged own2 own3 mine q2 q3 -> unchanged own1 own3 mine q1 q3.
Proof.
  intros [A1 K1] [A2 K2]. split; [intros a Ha; by rewrite A2, A1|]. intros low X. apply (kept_trans d low X own1 own2 own3 mine q1 q2 q3); auto.
Qed.

Lemma unchanged_unmapped own own1 mine pend q q1 s lv v n w : unchanged own own1 mine q q1 -> q_lock q1 = q_lock q ->
  unmapped env d own1 mine pend q1 s lv v n w -> unmapped env d own mine pend q s lv v n w.
Proof.
  intros [Ha Hk] El (own' & q' & -> & El' & HI & Ha' & Hk'). exists own', q'. split; [done|]. split; [congruence|]. split; [done|]. split.
  - intros a Har. by rewrite Ha', Ha.
  - intros X HX. apply (kept_trans d _ X own own1 own' mine q q1 q'); auto.
Qed.

Lemma unmapped_none own mine pend q s lv v : inv own mine pend q -> unmapped env d own mine pend q s lv v 0 (mk_world q s).
Proof.
  intros HI. exists own, q. split; [done|]. split; [done|]. split; [done|]. split; [|intros X _; apply kept_refl]. intros a _. unfold in_run. by case_index.
Qed.

(** ** Splitting *)

Section Fill.
Context (l pa prot : Z) (skip : Z -> bool) (t tc : Z -> Z) (Hz : forall i, t i = 0).
Context (Hf : part_filled l pa prot skip 0 (2 ^ bits_per_level d) t tc).
Context (Hp : prot_ok prot) (Hpa : forall j, 0 <= j < 2 ^ bits_per_level d -> pa_ok d l (pa + j * 2 ^ sh d l)).

Lemma part_entry j : 0 <= j < 2 ^ bits_per_level d -> tc j = if skip j then 0 else leaf_at d l pa prot j.
Proof. intros Hj. rewrite Hf, (proj2 (andb_true_iff (0 <=? j) _)) by lia. cbn. rewrite Hz. by destruct (skip j). Qed.

Lemma part_plain j : 0 <= j < 2 ^ bits_per_level d -> plain d l (tc j).
Proof. intros Hj. rewrite part_entry by done. destruct (skip j); [by left|right]. exists (pa + j * 2 ^ sh d l), prot. split_and!; auto; by apply Hpa. Qed.

Lemma part_count : Z.of_nat (length (filter (fun i => skip i = false) (upto (2 ^ bits_per_level d)))) = nvalid d tc.
Proof.
  unfold nvalid. f_equal. apply length_filter_iff. intros j Hj%elem_of_seqZ. rewrite part_entry by lia. destruct (skip j); [by split|]. split; [|done].
  intros _. by apply leaf_nonzero.
Qed.
End Fill.

Section Split.
Context (own : owner) (mine : gset Z) (pend : Z -> Z -> Prop) (q : pgt) (T l lv n iova pgcount pa prot : Z) (t : Z -> Z).
Context (unmap_next : Z -> Z -> Z -> Z -> Effects.M pgt Z) (Q : Z -> world pgt -> Prop).
Abbreviation v := (canon d iova).
Context (HI : inv own mine pend q) (Hlk : q_lock q = true) (Hvm : vmid d = 0) (Ho : own !! T = Some (l, pslot d l v)) (Hl : l < lv) (HS : span_ok d lv v n).
Context (En : n = Z.min (s32 pgcount) (2 ^ bits_per_level d - idx d lv v)).
Context (Ht : q_mem q !! T = Some t) (Et : t (idx d l v) = leaf_pte d pa prot l) (Hpa : pa_ok d l pa) (Hp : prot_ok prot).
Context (HQ0 : forall w, unmapped env d own mine pend q [] lv v 0 w -> Q 0 w).
Context (HQn : l + 1 = lv -> forall w, unmapped env d own mine pend q [] lv v n w -> Q (n * 2 ^ sh d lv) w).
Context (HQm : l + 1 < lv -> forall own1 q1 C, inv own1 mine pend q1 -> q_lock q1 = true -> own1 !! C = Some (l + 1, pslot d (l + 1) v) ->
  unchanged own own1 mine q q1 ->
  sure (unmap_next (2 ^ sh d lv) pgcount (l + 1) C (mk_world q1 [])) Q).

Lemma split_level : start_level d <= l /\ l < 3 /\ lv <= 3.
Proof. destruct (tr_level _ _ _ (in_tree _ _ _ _ _ _ HI) _ _ _ Ho). destruct (sp_level _ _ _ _ HS). lia. Qed.

(** What is left to do once the new table is in. *)
Lemma split_rest C q2 q3 e tc :
  inv own ({[C]} ∪ mine) pend q2 -> (forall P lk, own !! P = Some lk -> q_mem q2 !! P = q_mem q !! P) -> (forall p, p ∈ mine -> q_mem q2 !! p = q_mem q !! p /\
    q_dev q2 !! p = q_dev q !! p) ->
  q_mem q2 !! C = Some tc -> (forall j, 0 <= j < 2 ^ bits_per_level d -> tc j = if split_skip l lv v n j then 0 else leaf_at d (l + 1) pa prot j) ->
  wrote d T l (idx d l v) e t q2 q3 -> inv (<[C := (l + 1, slot d l v)]> own) mine pend q3 -> q_lock q3 = true ->
  sure ((if 0 <=? split_from l lv v then mret (split_num l lv n * 2 ^ sh d lv) else unmap_next (2 ^ sh d lv) pgcount (l + 1) C) (mk_world q3 [])) Q.
Proof.
  intros HI2 Hq2 Hm2 Htc Etc Hw HI3 Hl3. destruct split_level as (Hs & Hl' & Hlv). pose proof (idx_range d HG (l + 1) v) as Hi.
  assert (forall a, in_range a ->
    abs d (q_mem q3) a = if (slot d l a =? slot d l v) && split_skip l lv v n (idx d (l + 1) a) then None else abs d (q_mem q) a) as Ha
    by (intros a Har; by apply (table_abs own mine pend q q2 q3 T l v C e pa prot t tc (split_skip l lv v n))).
  assert (forall low X, kept d low X own (<[C := (l + 1, slot d l v)]> own) mine q q3) as Hk
    by (intros low X; by apply (table_kept own mine pend q q2 q3 T l v C e pa prot t tc (split_skip l lv v n))).
  pose proof (fun a => split_skip_run l lv v n a Hs Hl HS) as Hrun. unfold split_from, split_num. destruct (Z.eqb_spec (l + 1) lv) as [E|Hne].
  - rewrite (proj2 (Z.leb_le _ _)) by lia. apply (HQn E). exists (<[C := (l + 1, slot d l v)]> own), q3. split; [done|]. split; [congruence|]. split; [done|].
    split; [|by auto].
    intros a Har. rewrite Ha, Hrun by done. done.
  - rewrite (proj2 (Z.leb_gt _ _)) by lia. apply (HQm ltac:(lia) (<[C := (l + 1, slot d l v)]> own)); try done.
    + rewrite lookup_insert_eq. by rewrite pslot_succ by (done || lia).
    + split; [|done]. intros a Har. rewrite Ha, Hrun by done. done.
Qed.

Lemma split_sure : sure (arm_lpae_split_blk_unmap env unmap_next d iova (2 ^ sh d lv) (t (idx d l v)) (l + 1) (T, idx d l v) pgcount (mk_world q [])) Q.
Proof.
  destruct split_level as (Hs & Hl' & Hlv). pose proof (idx_range d HG l v) as Hi. unfold arm_lpae_split_blk_unmap. change ARM_LPAE_MAX_LEVELS with 4.
  rewrite (proj2 (Z.eqb_neq (l + 1) 4)) by lia.
  eapply sure_step; [apply (alloc_pages_sure env d HG HE own mine pend q [] _ GFP_ATOMIC HI); by right|]. intros o w (q1 & -> & El1 & Hpost).
  destruct o as [C|].
  2: { destruct Hpost as [HI1 Hk1]. apply HQ0, (unchanged_unmapped own own mine pend q q1); [|done|by apply unmapped_none].
       by apply (keeps_unchanged own mine mine pend q q1 ∅ HI). }
  destruct Hpost as (HI1 & Hk1 & HfC & HpgC & tz & Htz & Hdz & Hz). cbv zeta.
  rewrite Et, (leaf_pte_paddr d HG pa prot l) by (done || lia). rewrite (leaf_pte_prot d HG) by done. rewrite (block_size_eqb d HG (l + 1) lv) by lia.
  rewrite (lvl_idx d HG iova (l + 1)), (ptes_per_table d HG) by lia.
  assert ((if l + 1 =? lv then Z.min (s32 pgcount) (2 ^ bits_per_level d - (if l + 1 =? lv then idx d (l + 1) v else -1)) else 0) = split_num l lv n) as ->.
  { unfold split_num. destruct (Z.eqb_spec (l + 1) lv) as [E|]; [|done]. by rewrite En, E. }
  fold (split_from l lv v). pose proof (bpl_pos d HG) as Hb.
  assert (forall j, 0 <= j < 2 ^ bits_per_level d -> pa_ok d (l + 1) (pa + j * 2 ^ sh d (l + 1))) as Hpas by (intros j Hj; by apply part_pa).
  pose proof (fill_part C (l + 1) pa prot (split_skip l lv v n) [] Hpas (Z.to_nat (2 ^ bits_per_level d)) 0 tz tz q1 Htz Hdz ltac:(lia)) as Hfill.
  rewrite Z2Nat.id in Hfill by lia.
  eapply sure_step; [apply Hfill; lia|]. intros [] w (q2 & tc & tdc & -> & HW & Htc & Htdc & Hf & Hfd).
  pose proof (page_written_inv own mine pend C q1 q2 HI1 HW) as HI2. pose proof HW as [Hw1 _ (_ & _ & _ & Elk2)].
  assert (own !! C = None) as HoC by (apply (in_disj _ _ _ _ _ _ HI1); right; set_solver).
  assert (C ∉ mine) as HCm by (intros Hin; assert (is_Some (q_mem q !! C)) as [? E] by (apply (in_dom _ _ _ _ _ _ HI); by right; right); congruence).
  assert (forall P, is_Some (own !! P) \/ P ∈ mine -> q_mem q2 !! P = q_mem q !! P /\ q_dev q2 !! P = q_dev q !! P) as Hsame.
  { intros P HP. assert (P <> C) as HPC by (intros ->; rewrite HoC in HP; destruct HP as [[? ?]|?]; done). destruct (Hw1 P HPC) as [-> ->]. apply Hk1.
    set_solver. }
  change (fun i => (split_from l lv v <=? i) && (i <? split_from l lv v + split_num l lv n) = false) with (fun i => split_skip l lv v n i = false).
  eapply sure_step.
  { apply (install_alone own mine pend q2 T l (pslot d l v) (idx d l v) C _ _ tc tdc t HI2 HCm Ho Hl' Hi); try done.
    - rewrite <- Ht. apply Hsame. left. eauto.
    - right. by exists pa, prot.
    - intros Hco j Hj. by rewrite (part_entry (l + 1) pa prot (split_skip l lv v n) tz tdc Hz (Hfd Hco) j Hj), (part_entry (l + 1) pa prot (split_skip l lv v
        n) tz tc Hz Hf j Hj).
    - by apply (part_plain (l + 1) pa prot (split_skip l lv v n) tz tc Hz Hf Hp Hpas).
    - f_equal. by apply (part_count (l + 1) pa prot (split_skip l lv v n) tz tc Hz Hf Hp). }
  intros old w (-> & q3 & q4 & e & -> & Hl4 & HI3 & Hk3 & He & Hw & HI4). rewrite Z.eqb_refl. cbn [negb]. rewrite <- (slot_split d HG) in HI4.
  assert (forall P, is_Some (own !! P) \/ P ∈ {[C]} ∪ mine -> q_mem q3 !! P = q_mem q2 !! P /\ q_dev q3 !! P = q_dev q2 !! P) as Hsame3.
  { intros P HP. apply Hk3. rewrite elem_of_list_to_set. intros Hf'. destruct (in_disj _ _ _ _ _ _ HI2 P) as [H1 H2].
    destruct HP as [[? E]|?]; [rewrite H1 in E by tauto; done|by apply H2]. }
  apply (split_rest C q3 q4 e tc); try done.
  - intros P lk HP. destruct (Hsame3 P) as [-> _]; [left; eauto|]. apply Hsame. left. eauto.
  - intros p Hpm. destruct (Hsame3 p) as [-> ->]; [set_solver|]. apply Hsame. by right.
  - destruct (Hsame3 C) as [-> _]; [set_solver|done].
  - by apply (part_entry (l + 1) pa prot (split_skip l lv v n) tz tc Hz Hf).
Qed.
End Split.
End PtSplit.
