(* ===== verification/PtUnmapPages.v ===== *)
(** * PtUnmapPages: what unmapping does

    [__arm_lpae_unmap] from the root down to the entries of the size asked for. *)
From stdpp Require Import prelude gmap list.
From S2P Require Import Prelude.
From S2P Require Import Effects.
From S2P Require Import PgAlloc.
From S2P Require Import IoPgtable.
From S2P Require Import PtBits.
From S2P Require Import PtInv.
From S2P Require Import PtTree.
From S2P Require Import PtState.
From S2P Require Import PtMap.
From S2P Require Import PtLeaf.
From S2P Require Import PtMapPages.
From S2P Require Import PtUnmap.
From S2P Require Import PtUnmapLast.
From S2P Require Import PtSplit.
#[local] Open Scope kernel_scope.

Section PtUnmapPages.
Context {PA : PageAlloc} (env : pg_env) {PL : PageAllocLaws (pe_page_shift env)}.
Context (d : arm_lpae_io_pgtable) (HG : geo_ok d) (HE : env_ok env d).

Abbreviation owner := (gmap Z (Z * Z)).
Abbreviation inv := (inv env d).
Abbreviation in_range := (in_range d).

(** [c] of the [n] blocks asked for are not mapped any more. It is fewer when an
    address was not mapped, or none when a larger block could not be split. *)
Definition unmap_post (own : owner) (mine : gset Z) (pend : Z -> Z -> Prop) (q : pgt) (s : list (pgt -> pgt)) (lv v n r : Z) (w : world pgt) : Prop :=
  exists c, r = c * 2 ^ sh d lv /\ 0 <= c <= n /\ unmapped env d own mine pend q s lv v c w /\
    (c < n -> (exists a, in_run d lv v n a = true /\ abs d (q_mem q) a = None) \/ c = 0 /\ exists l, l < lv /\ leaf_level d (q_mem q) v = Some l).

(** A larger block is split only when no other thread runs; allocating without
    waiting is for the default machine. *)
Definition may_split (q : pgt) (s : list (pgt -> pgt)) (lv v : Z) : Prop :=
  (s = [] /\ vmid d = 0) \/ forall l, leaf_level d (q_mem q) v = Some l -> lv <= l.

Lemma post_at_block own mine pend q lv v n r w l : l < lv -> leaf_level d (q_mem q) v = Some l -> 0 < n ->
  (r = 0 /\ unmapped env d own mine pend q [] lv v 0 w) \/ (r = n * 2 ^ sh d lv /\ unmapped env d own mine pend q [] lv v n w) ->
    unmap_post own mine pend q [] lv v n r w.
Proof.
  intros Hl HL Hn [[-> H]|[-> H]].
  - exists 0. split_and!; try done; [lia|]. intros _. right. split; [done|]. by exists l.
  - exists n. split_and!; try done; lia.
Qed.

Lemma run_first lv v n : lv <= 3 -> 0 < n -> in_run d lv v n v = true.
Proof. intros Hl Hn. pose proof (sh_pos d HG lv Hl). unfold in_run. nia. Qed.

Lemma unmap_sure iova lv n pgcount mine pend s :
  span_ok d lv (canon d iova) n -> n = Z.min (s32 pgcount) (2 ^ bits_per_level d - idx d lv (canon d iova)) ->
  forall m own q T l, 4 - l <= Z.of_nat m -> start_level d <= l <= lv -> inv own mine pend q -> q_lock q = true ->
    own !! T = Some (l, pslot d l (canon d iova)) ->
  (l = 3 -> start_level d = 3) -> (lv = 3 -> forall a, in_run d lv (canon d iova) n a = true -> abs d (q_mem q) a <> None) -> may_split q s lv (canon d iova) ->
  sure (__arm_lpae_unmap env m d iova (2 ^ sh d lv) pgcount l T (mk_world q s)) (unmap_post own mine pend q s lv (canon d iova) n).
Proof.
  intros HS En. set (v := canon d iova) in *. pose proof HS as [Hlv [Hv Hm] [Hn Hi] _].
  induction m as [|m IH]; intros own q T l Hfuel Hl HI Hlk Ho Hl3 Hall Hsp; [lia|]. cbn [__arm_lpae_unmap].
  destruct (mem_some env d _ _ _ _ _ _ HI Ho) as (t & td & Ht & Htd). rewrite (lvl_idx d HG iova l) by lia. fold v. pose proof (idx_range d HG l v) as Hir.
  rewrite (run_read env d HG HE T (idx d l v) t) by (done || by eapply entries_nbits).
  assert (forall x y, arm_check_and_set_num_cont env d x y = 1) as Ec by (intros x y; unfold arm_check_and_set_num_cont; by rewrite (eo_hint _ _ HE)).
  assert (arm_find_num_cont env d l = 1) as Ef by (unfold arm_find_num_cont; by rewrite (eo_hint _ _ HE)).
  rewrite Ef, Z.mul_1_l, orb_diag, (block_size_eqb d HG l lv), !Ec by lia.
  change (ARM_LPAE_MAX_LEVELS - 2) with 2. rewrite !Z.mul_1_l, !Z.div_1_r, (ptes_per_table d HG).
  destruct (Z.eqb_spec (t (idx d l v)) 0) as [E0|Hne].
  { cbn. exists 0. split; [done|]. split; [lia|]. split; [by apply unmapped_none|]. intros _. left. exists v. split; [apply run_first; lia|].
    by apply (abs_empty d HG (q_mem q) own v l T t); [apply HI|..]. }
  destruct (Z.eqb_spec l lv) as [->|Hne2].
  - rewrite <- En. eapply sure_step; [apply (clear_sure env d HG HE mine pend s iova pgcount T lv (pslot d lv v) Hl3 (Z.to_nat n) own q (idx d lv v) 0);
      try done; lia|].
    intros r w (c & -> & Hc & Hcl & Hrest). rewrite Z.add_0_l. cbn. exists c. split; [done|]. split; [lia|].
    split; [by apply (cleared_unmapped env d HG own mine pend q s T lv v n); [|lia|]|].
    intros Hcn. left. pose proof (sh_pos d HG lv ltac:(lia)). set (a := v + c * 2 ^ sh d lv).
    assert (in_run d lv v n a = true) as Ha by (unfold in_run, a; nia). exists a. split; [done|].
    apply Hrest; [lia|by apply (span_in_range d lv v n)|]. rewrite <- (slot_split d HG lv v). unfold slot, a. by rewrite Z.div_add by lia.
  - destruct (tr_entry _ _ _ (in_tree _ _ _ _ _ _ HI) T l _ t (idx d l v) Ho Ht Hir) as [[?|(pa & prot & E & Hpa & Hp)]|(Hl' & C & HC & HoC)]; [done| |].
    + pose proof (level_leaf d HG (q_mem q) own v l T t pa prot (in_tree _ _ _ _ _ _ HI) Hv Ho Ht E Hp) as HL.
      rewrite E, leaf_pte_leaf by done. cbn [negb]. rewrite andb_false_r. rewrite (run_cont env d HE), <- E.
      destruct Hsp as [[-> Hvm]|Hsp]; [|specialize (Hsp l HL); lia].
      apply (split_sure env d HG HE own mine pend q T l lv n iova pgcount pa prot t); try done; [lia|..].
      * intros w Hw. apply (post_at_block own mine pend q lv v n 0 w l); try done; [lia|]. by left.
      * intros _ w Hw. apply (post_at_block own mine pend q lv v n _ w l); try done; [lia|]. by right.
      * intros Hl1 own1 q1 C HI1 Hlk1 HoC Hun. eapply sure_mono; [apply (IH own1 q1 C (l + 1)); try done; try lia|].
        -- intros El a Ha. rewrite (proj1 Hun) by (by apply (span_in_range d lv v n)). by apply Hall.
        -- by left.
        -- intros r w (c & -> & Hc & Hw & Hrest). exists c. split; [done|]. split; [done|].
           split; [by apply (unchanged_unmapped env d own own1 mine pend q q1); [|congruence|]|].
           intros Hcn. destruct (Hrest Hcn) as [(a & Ha & En')|[-> _]]; [left; exists a; split; [done|]; rewrite <- (proj1 Hun);
             [done|by apply (span_in_range d lv v n)]|right]. split; [done|]. exists l. split; [lia|done].
    + rewrite (table_not_leaf d HG _ C) by done. cbn [negb]. rewrite andb_true_r. destruct (Z.eqb_spec l 2) as [->|Hl2].
      * assert (lv = 3) as -> by lia. eapply sure_mono;
          [apply (unmap_last_sure env d HG HE own mine pend q s T C t iova n HI HS ltac:(lia) Ho Ht HC (Hall eq_refl) pgcount En)|].
        intros r w [-> Hw]. exists n. split; [done|]. split; [lia|]. split; [done|]. lia.
      * pose proof HC as [_ Ed]. rewrite Ed. rewrite <- (slot_split d HG) in HoC. apply (IH own q C (l + 1)); try done; try lia.
        by rewrite pslot_succ by (done || lia).
Qed.
End PtUnmapPages.
