(* ===== verification/PtThm.v ===== *)
(** * PtThm: what the operations on a page table do

    The theorems on mapping, unmapping, looking up and freeing, against the
    translation that the device finds when it reads the tables. *)
From stdpp Require Import prelude gmap list.
From S2P Require Import Prelude.
From S2P Require Import Effects.
From S2P Require Import PgAlloc.
From S2P Require Import IoPgtable.
From S2P Require Import PtBits.
From S2P Require Import PtInv.
From S2P Require Import PtTree.
From S2P Require Import PtState.
From S2P Require Import PtMap.
From S2P Require Import PtLeaf.
From S2P Require Import PtMapPages.
From S2P Require Import PtFree.
From S2P Require Import PtUnmap.
From S2P Require Import PtUnmapLast.
From S2P Require Import PtUnmapPages.
#[local] Open Scope kernel_scope.

Section PtThm.
Context {PA : PageAlloc} (env : pg_env) {PL : PageAllocLaws (pe_page_shift env)}.
Context (d : arm_lpae_io_pgtable) (HG : geo_ok d) (HE : env_ok env d).

Abbreviation owner := (gmap Z (Z * Z)).
Abbreviation inv := (inv env d).
Abbreviation in_range := (in_range d).
Abbreviation respects := (respects env d).

(** The translation that the device finds: it reads the memory through the caches
    or its own view. *)
Definition seen (q : pgt) (v : Z) : option (Z * Z) := abs d (if coherent_walk (cfg d) then q_mem q else q_dev q) v.

(** With nothing pending the device finds what the memory says. *)
Lemma seen_abs own mine q v : inv own mine no_pend q -> in_range v -> seen q v = abs d (q_mem q) v.
Proof.
  intros HI Hv. unfold seen. destruct (coherent_walk (cfg d)) eqn:Ec; [done|]. apply (abs_frame d HG (q_mem q) (q_dev q) own v); [apply HI|done|].
  intros l T t Ho Ht. destruct (in_dev _ _ _ _ _ _ HI Ec T l _ t Ho Ht) as (t' & Ht' & Hs). exists t'. split; [done|].
  apply Hs; [apply idx_range, HG|by intros ?].
Qed.

(** ** Mapping *)

(** What the caller has to see to: sizes and addresses that the code accepts. *)
Record map_args (X : Z -> Prop) (iova paddr lv pgcount n prot : Z) (gfp : gfp_t) : Prop := {
  ma_run : run_ok d X lv (canon d iova) paddr n;
  ma_n : n = Z.min (s32 pgcount) (2 ^ bits_per_level d - idx d lv (canon d iova));
  ma_gfp : gfp_blocking gfp = true \/ vmid d = 0;
  ma_size : bad_pgsize d (2 ^ sh d lv) pgcount = false;
  ma_iova : iova_ext d iova = 0;
  ma_paddr : Z.shiftr paddr (oas (cfg d)) = 0;
  ma_prot : no_access prot = false;
}.

Lemma map_pages_run X own mine pend q s iova paddr lv pgcount n prot gfp mapped :
  inv own mine pend q -> q_lock q = false -> Forall (respects X) s -> map_args X iova paddr lv pgcount n prot gfp ->
  sure (qcom_arm_lpae_map_pages env d iova paddr (2 ^ sh d lv) pgcount prot gfp mapped (mk_world q s)) (fun r w =>
    exists q1 q' (s' : list (pgt -> pgt)) r' ms, r = (fst r', u64 (mapped + snd r')) /\ w = mk_world q' s' /\ q_lock q' = false /\ q_mem q' = q_mem q1 /\
      q_dev q' = q_dev q1 /\
      (forall own' pend', inv own' mine pend' q1 -> inv own' mine pend' q') /\
      map_post env d X own mine pend q lv (canon d iova) paddr n (arm_lpae_prot_to_pte d prot) (r', ms) (mk_world q1 s')).
Proof.
  intros HI Hlk HF [HR En Hg Hb Hx Hp Ha]. unfold qcom_arm_lpae_map_pages. rewrite Hb, Hx, Hp, Ha. change (truth 0) with false. cbn [orb].
  cbv zeta. rewrite run_lock by done. set (q0 := q <| q_lock := true |>).
  assert (inv own mine pend q0) as HI0 by (by apply (same_mem_inv env d own mine pend q)). pose proof HR as [Hl [Hv _] _ _ HX].
  eapply sure_step.
  { apply (map_sure env d HG HE X iova paddr lv pgcount n (arm_lpae_prot_to_pte d prot) gfp mine pend HR) with (own := own) (s := s) (q := q0); try done.
    - by apply prot_to_pte_ok.
    - change (Z.of_nat LEVELS) with 4. pose proof (go_start d HG). lia.
    - lia.
    - rewrite pslot_root by done. apply (tr_root _ _ _ (in_tree _ _ _ _ _ _ HI)). }
  intros [r ms] w Hpost. pose proof Hpost as (own' & q1 & s' & -> & HF' & Hlk' & HI' & Hk & Hr). rewrite run_unlock.
  exists q1, (q1 <| q_lock := false |>), s', r, ms.
  split; [done|]. split; [done|]. split; [done|]. split; [done|]. split; [done|].
  split; [intros own2 pend2 H2; by apply (same_mem_inv env d own2 mine pend2 q1)|].
  exists own', q1, s'. destruct Hk. split_and!; try done.
Qed.

(** The run is mapped, or nothing is and an error says why. *)
Definition mapped_run (X : Z -> Prop) (q q' : pgt) (lv v paddr n prot mapped : Z) (r : Z * Z) : Prop :=
  (r = (0, u64 (mapped + n * 2 ^ sh d lv)) /\ (forall a, in_run d lv v n a = true -> seen q a = None) /\
    forall a, X a -> in_range a -> seen q' a = if in_run d lv v n a then Some (paddr + (a - v), arm_lpae_prot_to_pte d prot) else seen q a) \/
  ((fst r = - ENOMEM \/ fst r = - EEXIST /\ (lv = 3 -> exists a, in_run d lv v n a = true /\ seen q a <> None)) /\ snd r = u64 mapped /\
    forall a, X a -> in_range a -> seen q' a = seen q a).

(** C2. Mapping a run of blocks succeeds and maps exactly the run, with
    the protection asked for, as the device sees it; or it fails for want of
    memory or because an address is taken, and then maps nothing. Other threads
    may run whole operations whenever the lock is dropped: addresses they do not
    touch ([X]) end up as this call alone would leave them. *)
Theorem map_pages_maps_run X own mine q s iova paddr lv pgcount n prot gfp mapped :
  inv own mine no_pend q -> q_lock q = false -> Forall (respects X) s -> map_args X iova paddr lv pgcount n prot gfp ->
  sure (qcom_arm_lpae_map_pages env d iova paddr (2 ^ sh d lv) pgcount prot gfp mapped (mk_world q s)) (fun r w =>
    exists own' q' (s' : list (pgt -> pgt)), w = mk_world q' s' /\ Forall (respects X) s' /\ q_lock q' = false /\ inv own' mine no_pend q' /\
      mapped_run X q q' lv (canon d iova) paddr n prot mapped r).
Proof.
  intros HI Hlk HF HA. set (v := canon d iova). eapply sure_mono; [by apply (map_pages_run X own mine no_pend q s)|].
  intros r w (q1 & q' & s' & [r1 r2] & ms & -> & -> & Hlk' & Em & _ & HI' & (own' & q1' & s1 & [= <- <-] & HF' & _ & HI1 & _ & Hr)). exists own', q', s'.
  apply HI' in HI1. pose proof (ma_run _ _ _ _ _ _ _ _ HA) as [_ _ _ _ HX].
  assert (forall a, in_range a -> seen q' a = abs d (q_mem q1) a) as Hs' by (intros a Har; by rewrite (seen_abs own' mine), Em).
  assert (forall a, in_range a -> seen q a = abs d (q_mem q) a) as Hs by (intros a Har; by rewrite (seen_abs own mine)).
  assert (forall a, in_run d lv v n a = true -> in_range a) as Hin by (intros a Har; unfold in_run in Har; apply HX; lia).
  split; [done|]. split; [done|]. split; [done|]. split; [done|]. cbn in Hr |- *.
  destruct Hr as [(-> & -> & He & Hm)|(-> & Hm & Hr)]; [left|right].
  - split; [done|]. split; [intros a Har; rewrite Hs by auto; by apply He|]. intros a Hxa Har. rewrite Hs' by done. rewrite (Hm a Hxa Har). fold v.
    destruct (in_run d lv v n a); [done|]. by rewrite Hs.
  - cbn. rewrite Z.add_0_r. split; [|split; [done|intros a Hxa Har; rewrite Hs' by done; rewrite (Hm a Hxa Har); by rewrite Hs]].
    destruct Hr as [?|[? Hr]]; [by left|right]. split; [done|].
    intros El. destruct (Hr El) as (a & Har & Hne). exists a. split; [done|]. by rewrite Hs by auto.
Qed.

(** ** Unmapping *)

Definition larger_block (q : pgt) (lv v : Z) : Prop := exists l, l < lv /\ leaf_level d (q_mem q) v = Some l.

Record unmap_args (q : pgt) (s : list (pgt -> pgt)) (iova lv pgcount n : Z) : Prop := {
  ua_span : span_ok d lv (canon d iova) n;
  ua_n : n = Z.min (s32 pgcount) (2 ^ bits_per_level d - idx d lv (canon d iova));
  ua_size : bad_pgsize d (2 ^ sh d lv) pgcount = false;
  ua_iova : iova_ext d iova = 0;
  (* the last level does not look at the entries *)
  ua_mapped : lv = 3 -> forall a, in_run d lv (canon d iova) n a = true -> abs d (q_mem q) a <> None;
  ua_split : (s = [] /\ vmid d = 0) \/ ~ larger_block q lv (canon d iova);
}.

Lemma unmap_pages_run own mine pend q s iova lv pgcount n :
  inv own mine pend q -> q_lock q = false -> unmap_args q s iova lv pgcount n ->
  sure (qcom_arm_lpae_unmap_pages env d iova (2 ^ sh d lv) pgcount (mk_world q s)) (fun r w =>
    exists own' q' c, w = mk_world q' s /\ q_lock q' = false /\ inv own' mine pend q' /\ r = c * 2 ^ sh d lv /\ 0 <= c <= n /\
      (forall a, in_range a -> abs d (q_mem q') a = if in_run d lv (canon d iova) c a then None else abs d (q_mem q) a) /\
      (c < n -> (exists a, in_run d lv (canon d iova) n a = true /\ abs d (q_mem q) a = None) \/ c = 0 /\ larger_block q lv (canon d iova)) /\
      forall X, (forall a, X a -> in_range a -> in_run d lv (canon d iova) n a = false) -> kept d (2 <= lv) X own own' mine q q').
Proof.
  intros HI Hlk [HS En Hb Hx Hall Hsp]. set (v := canon d iova) in *. unfold qcom_arm_lpae_unmap_pages. rewrite Hb, Hx. change (truth 0) with false. cbv iota.
  rewrite run_lock by done. set (q0 := q <| q_lock := true |>). pose proof HS as [Hl [Hv _] _ _].
  assert (inv own mine pend q0) as HI0 by (by apply (same_mem_inv env d own mine pend q)).
  eapply sure_step.
  { apply (unmap_sure env d HG HE iova lv n pgcount mine pend s HS En) with (own := own) (q := q0); try done.
    - change (Z.of_nat LEVELS) with 4. pose proof (go_start d HG). lia.
    - lia.
    - fold v. rewrite pslot_root by done. apply (tr_root _ _ _ (in_tree _ _ _ _ _ _ HI)).
    - destruct Hsp as [?|Hsp]; [by left|right]. intros l HL. destruct (Z.le_gt_cases lv l); [done|]. destruct Hsp. by exists l. }
  intros r w (c & -> & Hc & (own' & q' & -> & El & HI' & Ha & Hk) & Hrest). unfold arm_smmu_qcom_tlb_add_inv. rewrite run_modify. unfold with_st.
  cbn [w_st w_sched]. rewrite run_unlock.
  set (q2 := _ <| q_lock := false |>). exists own', q2, c. split; [done|]. split; [done|]. split; [by apply (same_mem_inv env d own' mine pend q')|].
  split; [done|]. split; [done|]. split; [exact Ha|]. split; [exact Hrest|]. intros X HX.
  assert (kept d (2 <= lv) X own own' mine q0 q') as [K1 K2 K3]; [|by split]. apply Hk. intros a Hxa Har. specialize (HX a Hxa Har). unfold in_run in *. fold v.
  pose proof (sh_pos d HG lv ltac:(lia)). nia.
Qed.

(** A number of blocks of the run is not mapped any more. *)
Definition unmapped_run (q q' : pgt) (lv v n r : Z) : Prop :=
  exists c, r = c * 2 ^ sh d lv /\ 0 <= c <= n /\ (forall a, in_range a -> seen q' a = if in_run d lv v c a then None else seen q a) /\
    (c < n -> (exists a, in_run d lv v n a = true /\ seen q a = None) \/ c = 0 /\ larger_block q lv v).

(** C4. Unmapping returns the number of bytes that the device cannot
    reach any more: a prefix of the run. It is shorter than the run only when an
    address of the run was not mapped, or when a larger block could not be split.
    All other addresses translate as before, those of a split block included. *)
Theorem unmap_pages_unmaps_run own mine q s iova lv pgcount n :
  inv own mine no_pend q -> q_lock q = false -> unmap_args q s iova lv pgcount n ->
  sure (qcom_arm_lpae_unmap_pages env d iova (2 ^ sh d lv) pgcount (mk_world q s)) (fun r w =>
    exists own' q', w = mk_world q' s /\ q_lock q' = false /\ inv own' mine no_pend q' /\ unmapped_run q q' lv (canon d iova) n r).
Proof.
  intros HI Hlk HA. eapply sure_mono; [by apply (unmap_pages_run own mine no_pend q s)|].
  intros r w (own' & q' & c & -> & Hlk' & HI' & -> & Hc & Ha & Hrest & _).
  exists own', q'. split; [done|]. split; [done|]. split; [done|]. exists c. split; [done|]. split; [done|]. split.
  - intros a Har. rewrite (seen_abs own' mine), Ha by done. destruct (in_run _ _ _ _ _); [done|]. by rewrite (seen_abs own mine).
  - intros Hcn. destruct (Hrest Hcn) as [(a & Har & E)|?]; [left|by right]. exists a. split; [done|]. rewrite (seen_abs own mine); [done|done|].
    by apply (span_in_range d lv (canon d iova) n); [apply HA|].
Qed.

(** ** Threads on other addresses *)

(** What a whole operation does to the state, as another thread sees it. *)
Definition step_of {A : Type} (c : Effects.M pgt A) (q : pgt) : pgt :=
  match c (mk_world q []) with Ret _ w => w_st w | _ => q end.

Lemma map_step_respects X iova paddr lv pgcount n prot gfp mapped :
  map_args (fun _ => True) iova paddr lv pgcount n prot gfp -> (forall a, X a -> in_range a -> in_run d lv (canon d iova) n a = false) ->
  respects X (step_of (qcom_arm_lpae_map_pages env d iova paddr (2 ^ sh d lv) pgcount prot gfp mapped)).
Proof.
  intros HA HX own mine pend q HI Hlk.
  pose proof (map_pages_run (fun _ => True) own mine pend q [] iova paddr lv pgcount n prot gfp mapped HI Hlk ltac:(by constructor) HA) as H.
  unfold step_of. destruct (qcom_arm_lpae_map_pages _ _ _ _ _ _ _ _ _ _) as [r w| | |]; [|done..].
  destruct H as (q1 & q' & s' & r' & ms & _ & -> & Hlk' & Em & Ed & HI' & (own' & q1' & s1 & [= <- <-] & _ & _ & HI1 & [K1 K2 K3] & Hr)). exists own'.
  split; [by apply HI'|]. split; [done|]. split; [by apply K1|]. split; [intros v T l _; by apply K2|]. cbn [w_st]. rewrite Em, Ed. split; [|done].
  intros a Hxa Har. destruct Hr as [(_ & _ & _ & Hm)|(_ & Hm & _)]; rewrite Hm by done; [|done]. by rewrite HX.
Qed.

(** A thread that unmaps what is mapped. *)
Lemma unmap_step_respects X iova lv pgcount n f : 2 <= lv <= 3 ->
  (forall q, unmap_args q [] iova lv pgcount n /\ f q = step_of (qcom_arm_lpae_unmap_pages env d iova (2 ^ sh d lv) pgcount) q \/ f q = q) ->
  (forall a, X a -> in_range a -> in_run d lv (canon d iova) n a = false) -> respects X f.
Proof.
  intros Hlv Hf HX own mine pend q HI Hlk. destruct (Hf q) as [[HA ->]| ->]; [|by exists own].
  pose proof (unmap_pages_run own mine pend q [] iova lv pgcount n HI Hlk HA) as H. unfold step_of.
  destruct (qcom_arm_lpae_unmap_pages _ _ _ _ _ _) as [r w| | |]; [|done..]. destruct H as (own' & q' & c & -> & Hlk' & HI' & _ & Hc & Ha & _ & Hk).
  destruct (Hk X HX) as [K1 K2 K3]. exists own'.
  split; [done|]. split; [done|]. split; [apply K1; lia|]. split; [done|]. split; [|done]. intros a Hxa Har. cbn [w_st]. rewrite Ha by done.
  specialize (HX a Hxa Har). pose proof (sh_pos d HG lv ltac:(lia)). unfold in_run in *.
  assert ((canon d iova <=? a) && (a <? canon d iova + c * 2 ^ sh d lv) = false) as ->; [|done]. nia.
Qed.

(** ** Looking up *)

Lemma iova_walk_sure own mine pend q s iova : inv own mine pend q -> forall n l T, 4 - l = Z.of_nat n -> start_level d <= l ->
  own !! T = Some (l, pslot d l (canon d iova)) ->
  iova_walk env n d iova l T (mk_world q s) = Ret (walk d (fun l e _ => (e, l)) (q_mem q) n l T (canon d iova)) (mk_world q s).
Proof.
  intros HI. set (v := canon d iova). induction n as [|n IH]; intros l T Hn Hl Ho; [destruct (tr_level _ _ _ (in_tree _ _ _ _ _ _ HI) _ _ _ Ho); lia|].
  cbn [iova_walk walk]. destruct (mem_some env d _ _ _ _ _ _ HI Ho) as (t & td & Ht & Htd).
  pose proof (tr_level _ _ _ (in_tree _ _ _ _ _ _ HI) _ _ _ Ho) as [Hl3 _].
  destruct (tr_page _ _ _ (in_tree _ _ _ _ _ _ HI) _ _ _ Ho) as [_ HT]. unfold truth at 1. rewrite (proj2 (Z.eqb_neq T 0)) by lia. cbn [negb].
  rewrite (lvl_idx d HG iova l) by lia. fold v. pose proof (idx_range d HG l v).
  rewrite (run_read env d HG HE T (idx d l v) t) by (done || by eapply entries_nbits). rewrite Ht.
  destruct (Z.eqb_spec (t (idx d l v)) 0) as [|Hne]; [done|].
  destruct (tr_entry _ _ _ (in_tree _ _ _ _ _ _ HI) T l _ t (idx d l v) Ho Ht) as [[?|(pa & prot & E & _ & Hp)]|(Hl' & C & HC & HoC)]; [done|done| |].
  - by rewrite E, leaf_pte_leaf.
  - rewrite (table_not_leaf d HG _ C) by done. pose proof HC as [_ Ed]. rewrite Ed. apply IH; [lia|lia|]. rewrite pslot_succ by (done || lia).
    by rewrite <- slot_split in HoC.
Qed.

Lemma walk_abs m v : forall n l T, walk d (leaf_abs d) m n l T v = (fun el : Z * Z => leaf_abs d (snd el) (fst el) v) <$> walk d (fun l e _ => (e, l)) m n l T
  v.
Proof. induction n as [|n IH]; intros l T; [done|]. cbn [walk]. destruct (m !! T) as [t|]; [|done]. destruct (_ =? 0); [done|]. by destruct (iopte_leaf _ _ _).
Qed.

Lemma walk_entry m own v : tree d m own -> forall n l T e l', own !! T = Some (l, pslot d l v) -> walk d (fun l e _ => (e, l)) m n l T v = Some (e, l') ->
  start_level d <= l' <= 3 /\ exists pa prot, e = leaf_pte d pa prot l' /\ pa_ok d l' pa /\ prot_ok prot.
Proof.
  intros HT. induction n as [|n IH]; intros l T e l' Ho E; [done|]. cbn [walk] in E. destruct (m !! T) as [t|] eqn:Ht; [|done].
  pose proof (tr_level _ _ _ HT _ _ _ Ho) as [Hl _].
  destruct (Z.eqb_spec (t (idx d l v)) 0) as [|Hne]; [done|].
  destruct (tr_entry _ _ _ HT T l _ t (idx d l v) Ho Ht) as [[?|(pa & prot & E' & Hpa & Hp)]|(Hl' & C & HC & HoC)]; [by apply idx_range|done| |].
  - rewrite E', leaf_pte_leaf in E by done. injection E as <- <-. split; [done|]. by exists pa, prot.
  - rewrite (table_not_leaf d HG _ C) in E by done. pose proof HC as [_ Ed]. rewrite Ed in E. apply (IH _ _ _ _) in E; [done|].
    rewrite pslot_succ by (done || lia). by rewrite <- slot_split in HoC.
Qed.

Lemma iova_to_phys_sure own mine pend q s iova : inv own mine pend q -> q_lock q = false ->
  sure (arm_lpae_iova_to_phys env d iova (mk_world q s)) (fun r w => w = mk_world q s /\
    r = match abs d (q_mem q) (canon d iova) with Some (pa, _) => pa | None => 0 end).
Proof.
  intros HI Hlk. unfold arm_lpae_iova_to_phys. rewrite run_lock by done. set (q0 := q <| q_lock := true |>).
  assert (inv own mine pend q0) as HI0 by (by apply (same_mem_inv env d own mine pend q)).
  pose proof (go_start d HG) as Hs. pose proof (tr_root _ _ _ (in_tree _ _ _ _ _ _ HI)) as Hr. pose proof (canon_range d HG iova) as Hc.
  assert (own !! pgd d = Some (start_level d, pslot d (start_level d) (canon d iova))) as Ho by (by rewrite pslot_root).
  unfold mbnd at 1. change ARM_LPAE_MAX_LEVELS with 4.
  rewrite (iova_walk_sure own mine pend q0 s iova HI0 (Z.to_nat (4 - start_level d)) (start_level d) (pgd d) ltac:(lia) ltac:(lia) Ho).
  change (q_mem q0) with (q_mem q). rewrite run_unlock. cbn. split; [destruct q; cbn in *; by subst|]. unfold abs, find. rewrite walk_abs.
  destruct (walk d _ (q_mem q) _ _ _ _) as [[e l]|] eqn:E; [|done]. cbn.
  destruct (walk_entry (q_mem q) own (canon d iova) (in_tree _ _ _ _ _ _ HI) _ _ _ _ _ Ho E) as (Hl & pa & prot & -> & Hpa & Hp).
  rewrite (leaf_pte_paddr d HG pa prot l) by (done || lia). rewrite (block_size d l). pose proof (sh_pos d HG l ltac:(lia)) as Hsh.
  pose proof (ias_sh d HG l ltac:(lia) ltac:(lia)).
  replace (2 ^ sh d l - 1) with (Z.ones (sh d l)) by (rewrite Z.ones_equiv; lia). rewrite Z.land_ones by lia.
  assert (canon d iova mod 2 ^ sh d l = iova mod 2 ^ sh d l) as ->.
  { unfold canon. replace (ias (cfg d)) with (sh d l + (ias (cfg d) - sh d l)) by lia. rewrite Z.pow_add_r, Z.rem_mul_r, Z.mul_comm, Z.mod_add by lia.
    apply Z.mod_mod. lia. }
  rewrite <- Z.lxor_lor, <- Z.add_nocarry_lxor; [done|..]; apply Z.bits_inj'; intros i Hi; rewrite Z.land_spec, Z.bits_0, testbit_mod by lia;
    (destruct (Z.ltb_spec i (sh d l)); [rewrite (testbit_range_lo pa (sh d l)) by (done || apply Hpa || lia); done|by rewrite andb_false_r]).
Qed.

(** C19. Looking up an address gives the physical address that the
    device finds for it, or 0, and changes nothing. *)
Theorem iova_to_phys_translates own mine q s iova : inv own mine no_pend q -> q_lock q = false ->
  sure (arm_lpae_iova_to_phys env d iova (mk_world q s)) (fun r w => w = mk_world q s /\
    r = match seen q (canon d iova) with Some (pa, _) => pa | None => 0 end).
Proof. intros HI Hlk. rewrite (seen_abs own mine q) by (done || by apply canon_range). by apply (iova_to_phys_sure own mine no_pend). Qed.

(** ** What others may do *)

Lemma same_respects X f : (forall own mine pend q, inv own mine pend q -> q_lock q = false ->
    inv own mine pend (f q) /\ q_lock (f q) = false /\ forall p, is_Some (own !! p) \/ p ∈ mine -> q_mem (f q) !! p = q_mem q !! p /\
      q_dev (f q) !! p = q_dev q !! p) -> respects X f.
Proof.
  intros Hf own mine pend q HI Hlk. destruct (Hf own mine pend q HI Hlk) as (HI' & Hlk' & Hs). exists own. split; [done|]. split; [done|]. split; [done|].
  split; [done|]. split; [|intros p Hp; apply Hs; by right].
  intros v _ Hv. apply (abs_frame d HG (q_mem q) (q_mem (f q)) own v); [apply HI|done|]. intros l T t Ho Ht. exists t.
  destruct (Hs T) as [-> _]; [left; eauto|]. split; [done|apply same_entry_refl].
Qed.

Lemma sync_step_respects X : respects X (step_of (arm_smmu_iotlb_sync)).
Proof.
  apply same_respects. intros own mine pend q HI Hlk. pose proof (iotlb_sync_sure env d HG HE own mine pend q [] HI) as H. unfold step_of.
  destruct (arm_smmu_iotlb_sync _) as [r w| | |]; [|done..].
  destruct H as (q' & -> & HI' & El & Hk). split; [done|]. split; [cbn; congruence|]. intros p Hp. apply Hk. rewrite elem_of_list_to_set. intros Hin.
  destruct (in_disj _ _ _ _ _ _ HI p) as [H1 H2].
  destruct Hp as [[? E]|?]; [rewrite H1 in E by tauto; done|by apply H2].
Qed.

Lemma lookup_step_respects X iova : respects X (step_of (arm_lpae_iova_to_phys env d iova)).
Proof.
  apply same_respects. intros own mine pend q HI Hlk. pose proof (iova_to_phys_sure own mine pend q [] iova HI Hlk) as H. unfold step_of.
  destruct (arm_lpae_iova_to_phys _ _ _ _) as [r w| | |]; [|done..].
  by destruct H as [-> _].
Qed.

(** Whole operations of other threads that leave the addresses [X] alone. *)
Inductive other_op (X : Z -> Prop) : (pgt -> pgt) -> Prop :=
| other_map iova paddr lv pgcount n prot gfp mapped : map_args (fun _ => True) iova paddr lv pgcount n prot gfp ->
    (forall a, X a -> in_range a -> in_run d lv (canon d iova) n a = false) ->
    other_op X (step_of (qcom_arm_lpae_map_pages env d iova paddr (2 ^ sh d lv) pgcount prot gfp mapped))
| other_unmap iova lv pgcount n f : 2 <= lv <= 3 ->
    (forall q, unmap_args q [] iova lv pgcount n /\ f q = step_of (qcom_arm_lpae_unmap_pages env d iova (2 ^ sh d lv) pgcount) q \/ f q = q) ->
    (forall a, X a -> in_range a -> in_run d lv (canon d iova) n a = false) -> other_op X f
| other_lookup iova : other_op X (step_of (arm_lpae_iova_to_phys env d iova))
| other_sync : other_op X (step_of arm_smmu_iotlb_sync).

(** C16. A whole operation of another thread (map, unmap, lookup, flush)
    leaves the table well formed, the pages that this thread holds alone and
    the addresses [X] translated as before: what the theorems on interleaving
    rely on, every operation guarantees. *)
Theorem operations_respect_others X f : other_op X f -> respects X f.
Proof.
  intros [iova paddr lv pgcount n prot gfp mapped HA HX|iova lv pgcount n g Hlv Hf HX|iova|].
  - by apply (map_step_respects X iova paddr lv pgcount n).
  - by apply (unmap_step_respects X iova lv pgcount n).
  - apply lookup_step_respects.
  - apply sync_step_respects.
Qed.
End PtThm.
