(* ===== verification/PtEnd.v ===== *)
(** * PtEnd: a page table is given up

    All pages of a table go back to the allocator, and the client with them. *)
From stdpp Require Import prelude gmap list.
From S2P Require Import Prelude.
From S2P Require Import Effects.
From S2P Require Import PgAlloc.
From S2P Require Import IoPgtable.
From S2P Require Import PtBits.
From S2P Require Import PtInv.
From S2P Require Import PtTree.
From S2P Require Import PtState.
From S2P Require Import PtFree.
#[local] Open Scope kernel_scope.

Section PtEnd.
Context {PA : PageAlloc} (env : pg_env) {PL : PageAllocLaws (pe_page_shift env)}.
Context (d : arm_lpae_io_pgtable) (HG : geo_ok d) (HE : env_ok env d).

Abbreviation owner := (gmap Z (Z * Z)).

(** Every table is below the root. *)
Lemma root_desc m own : tree d m own -> forall p l k, own !! p = Some (l, k) -> desc d own (pgd d) p.
Proof.
  intros HT. assert (forall n p l k, l = start_level d + Z.of_nat n -> own !! p = Some (l, k) -> desc d own (pgd d) p) as H.
  - induction n as [|n IH]; intros p l k -> Ho.
    + destruct (tr_level _ _ _ HT _ _ _ Ho) as [_ [-> _]]; [lia|]. apply desc_refl.
    + destruct (tr_parent _ _ _ HT _ _ _ Ho) as (P & t & HP & _); [lia|].
      apply (desc_child d own (pgd d) P (start_level d + Z.of_nat (S n) - 1) (k / 2 ^ nbits d (start_level d + Z.of_nat (S n) - 1)) p k).
      * eapply (IH P); [|exact HP]. lia.
      * exact HP.
      * rewrite Ho. do 2 f_equal. lia.
      * done.
  - intros p l k Ho. apply (H (Z.to_nat (l - start_level d)) p l k); [|done]. destruct (tr_level _ _ _ HT _ _ _ Ho). lia.
Qed.

(** The pages [L] went back. *)
Record returned (q0 : pgt) (L : list Z) (q : pgt) : Prop := {
  re_mem : forall p, q_mem q !! p = if decide (p ∈ L) then None else q_mem q0 !! p;
  re_al : pa_inv (vmid d) (dom (q_mem q)) (q_al q);
  re_rest : freelist q = freelist q0 /\ q_cached q = q_cached q0 /\ q_lock q = q_lock q0;
}.

Lemma return_step q0 L q s p : returned q0 L q -> p ∉ L -> is_Some (q_mem q0 !! p) ->
  sure (__arm_lpae_free_pages p false (mk_world q s)) (fun _ w => exists q', w = mk_world q' s /\ returned q0 (p :: L) q').
Proof.
  intros [Hm Ha Hr] HpL Hp. unfold __arm_lpae_free_pages, qcom_io_pgtable_free. rewrite run_gets. cbn [w_st].
  assert (p ∈ dom (q_mem q)) as Hpd by (apply elem_of_dom; rewrite Hm; by rewrite decide_False).
  destruct (pa_free_ok (vmid d) (dom (q_mem q)) (q_al q) p Ha Hpd) as (st' & E & Hinv). rewrite E, run_or_fault. cbn. eexists. split; [done|]. split; cbn.
  - intros x. destruct (decide (x = p)) as [->|Hx]; [by rewrite lookup_delete_eq, decide_True by left|]. rewrite lookup_delete_ne, Hm by done.
    destruct (decide (x ∈ L)) as [H|H]; [by rewrite decide_True by (by right)|]. rewrite decide_False; [done|]. by intros [->|?]%elem_of_cons.
  - by rewrite dom_delete_L.
  - done.
Qed.

(** C18. When no page waits for a flush on the list of deferred pages, freeing a
    page table gives all its pages back, releases the pool, and the device
    remembers none of them. (Pages on that list stay behind: the driver frees
    only those of the table.) *)
Theorem free_pgtable_returns_pages own pend q s : inv env d own ∅ pend q -> freelist q = [] ->
  sure (qcom_free_io_pgtable_ops env d (mk_world q s)) (fun _ w => exists q', w = mk_world q' s /\ q_mem q' = ∅ /\ pa_idle (vmid d) (q_al q') /\
    q_cached q' = ∅).
Proof.
  intros HI Hf. unfold qcom_free_io_pgtable_ops, io_pgtable_tlb_flush_all. rewrite run_modify. unfold with_st. cbn [w_st w_sched].
  match goal with |- context [mk_world ?x s] => set (q0 := x) end. unfold arm_lpae_free_pgtable.
  pose proof (tr_root _ _ _ (in_tree _ _ _ _ _ _ HI)) as Hr. pose proof (go_start d HG) as Hs.
  eapply sure_step.
  { apply (free_sure env d HG HE (q_mem q) own (pgd d) false (returned q0) (in_tree _ _ _ _ _ _ HI)) with (k := 0) (L := []); try done.
    - intros L q1 p [Hm _ _] HpL _. rewrite Hm, decide_False by done. done.
    - intros L q1 s1 p HQ HpL HD. apply return_step; [done|done|]. destruct (desc_owned d own (pgd d) p _ _ Hr HD) as (l & k & Ho & _).
      by apply (tr_mem _ _ _ (in_tree _ _ _ _ _ _ HI) p l k).
    - apply desc_refl.
    - change (Z.of_nat LEVELS) with 4. lia.
    - split; [|apply HI|done]. intros p. rewrite decide_False; [done|]. by intros ?%elem_of_nil.
    - by intros p _ ?%elem_of_nil. }
  intros [] w (q1 & L & -> & [Hm Ha (Ef & Ec & El)] & _ & HL). rewrite app_nil_r in *.
  assert (q_mem q1 = ∅) as Em.
  { apply map_eq. intros p. rewrite Hm, lookup_empty. destruct (decide (p ∈ L)) as [|Hn]; [done|]. change (q_mem q0) with (q_mem q).
    destruct (q_mem q !! p) as [t|] eqn:E; [|done]. assert (is_Some (q_mem q !! p)) as Hp by eauto. apply (in_dom _ _ _ _ _ _ HI) in Hp as [[[l k] Ho]|[Hp|Hp]].
    - destruct Hn. apply HL. by apply (root_desc (q_mem q) own (in_tree _ _ _ _ _ _ HI) p l k).
    - rewrite Hf in Hp. by apply elem_of_nil in Hp.
    - set_solver. }
  rewrite Em, dom_empty_L in Ha. unfold qcom_io_pgtable_allocator_unregister_m. rewrite run_gets. cbn [w_st].
  destruct (pa_unregister_ok (vmid d) (q_al q1) Ha) as (st' & E & Hi). rewrite E, run_or_fault. cbn. eexists. split; [done|]. done.
Qed.
End PtEnd.
