(* ===== verification/PtNew.v ===== *)
(** * PtNew: a new page table

    [arm_64_lpae_alloc_pgtable_s1]: the geometry that follows from the page sizes
    and the range of addresses, and a root without entries. *)
From stdpp Require Import prelude gmap list.
From S2P Require Import Prelude.
From S2P Require Import Effects.
From S2P Require Import PgAlloc.
From S2P Require Import IoPgtable.
From S2P Require Import PtBits.
From S2P Require Import PtInv.
From S2P Require Import PtTree.
From S2P Require Import PtState.
From S2P Require Import PtMap.
From S2P Require Import PtThm.
#[local] Open Scope kernel_scope.

(** ** The smallest page size *)

Lemma land_pow2 x n : 0 <= n -> Z.land x (2 ^ n) = if Z.testbit x n then 2 ^ n else 0.
Proof.
  intros Hn. apply Z.bits_inj'. intros i Hi. rewrite Z.land_spec, Z.pow2_bits_eqb by done. destruct (Z.eqb_spec n i) as [<-|Hne].
  - rewrite andb_true_r. destruct (Z.testbit x n) eqn:E; [by rewrite Z.pow2_bits_true|by rewrite Z.bits_0].
  - rewrite andb_false_r. destruct (Z.testbit x n); [by rewrite Z.pow2_bits_false|by rewrite Z.bits_0].
Qed.

Definition granules : Z := Z.lor SZ_4K (Z.lor SZ_16K SZ_64K).

Definition shift_of (c : io_pgtable_cfg) : Z := __ffs (pgsize_bitmap c).

(** What is left of the sizes, and the limits of the addresses. *)
Definition restricted (c c' : io_pgtable_cfg) : Prop :=
  quirks c' = quirks c /\ coherent_walk c' = coherent_walk c /\
  (truth (Z.land (pgsize_bitmap c') granules) = true ->
     (shift_of c' = 12 \/ shift_of c' = 14 \/ shift_of c' = 16) /\
     let limit := if shift_of c' =? 16 then 52 else 48 in ias c' = Z.min (ias c) limit /\ oas c' = Z.min (oas c) limit).

Lemma sizes_4k b : let x := Z.land b (Z.lor (Z.lor SZ_4K SZ_2M) SZ_1G) in truth (Z.land x granules) = true -> __ffs x = 12.
Proof. unfold SZ_4K, SZ_2M, SZ_1G. cbv zeta. rewrite !Z.land_lor_distr_r, !(land_pow2 b) by done.
by destruct (Z.testbit b 12), (Z.testbit b 21), (Z.testbit b 30). Qed.

Lemma sizes_16k b : let x := Z.land b (Z.lor SZ_16K SZ_32M) in truth (Z.land x granules) = true -> __ffs x = 14.
Proof. unfold SZ_16K, SZ_32M. cbv zeta. rewrite !Z.land_lor_distr_r, !(land_pow2 b) by done. by destruct (Z.testbit b 14), (Z.testbit b 25). Qed.

Lemma sizes_64k b (more : bool) : let sizes := Z.lor SZ_64K SZ_512M in let x := Z.land b (if more then Z.lor sizes (BIT 42) else sizes) in
  truth (Z.land x granules) = true -> __ffs x = 16.
Proof.
  unfold SZ_64K, SZ_512M, BIT. rewrite Z.shiftl_1_l. cbv zeta.
  destruct more; rewrite !Z.land_lor_distr_r, !(land_pow2 b) by done; destruct (Z.testbit b 16), (Z.testbit b 29); try done; by destruct (Z.testbit b 42).
Qed.

Section PtNew.
Context {PA : PageAlloc} (env : pg_env) {PL : PageAllocLaws (pe_page_shift env)}.
Context (Hhint : pe_contig_hint env = false).

Lemma restrict_ok c : restricted c (arm_lpae_restrict_pgsizes env c).
Proof.
  unfold arm_lpae_restrict_pgsizes, arm_get_cont_sizes. rewrite Hhint. cbn [negb]. cbv zeta. set (g := if truth _ then _ else _). clearbody g.
  destruct (Z.eqb_spec g SZ_4K) as [_|_]; [|destruct (Z.eqb_spec g SZ_16K) as [_|_]; [|destruct (Z.eqb_spec g SZ_64K) as [_|_]]];
    cbn [pgsize_bitmap set_field ias oas quirks coherent_walk];
    (split; [done|]; split; [done|]); unfold shift_of; cbn [pgsize_bitmap set_field ias oas]; rewrite ?Z.lor_0_r; intros Ht.
  - rewrite (sizes_4k _ Ht). by split; [left|].
  - rewrite (sizes_16k _ Ht). by split; [right; left|].
  - rewrite (sizes_64k _ (48 <? oas c) Ht). by split; [right; right|].
  - by rewrite Z.land_0_r in Ht.
Qed.

(** ** The geometry *)

Definition levels_of (c : io_pgtable_cfg) (s : Z) : Z := Z.quot (ias c - s + (s - 3) - 1) (s - 3).

Definition new_data (f : io_pgtable_fmt) (c : io_pgtable_cfg) (s page vm : Z) : arm_lpae_io_pgtable :=
  mk_data f c (ias c - s - (s - 3) * (levels_of c s - 1)) (ARM_LPAE_MAX_LEVELS - levels_of c s) (s - 3) page vm.

Lemma geometry_ok c s page vm : s = 12 \/ s = 14 \/ s = 16 -> s < ias c -> ias c <= (if s =? 16 then 52 else 48) -> 0 <= oas c <= (if s =? 16 then 52 else 48)
  ->
  geo_ok (new_data QCOM_ARM_64_LPAE_S1 c s page vm).
Proof.
  intros Hs Hi Hi2 Ho. assert (1 <= levels_of c s <= 4 /\ 1 <= ias c - s - (s - 3) * (levels_of c s - 1) <= s - 3) as [Hl Hb].
  { unfold levels_of. rewrite Z.quot_div_nonneg by (destruct Hs as [-> |[-> | ->]]; simpl (_ =? _) in *; cbv iota in *; lia).
    pose proof (Z.div_mod (ias c - s + (s - 3) - 1) (s - 3)) as E. pose proof (Z.mod_pos_bound (ias c - s + (s - 3) - 1) (s - 3)) as Hm.
    destruct Hs as [-> |[-> | ->]]; simpl (_ =? _) in *; cbv iota in *; lia. }
  unfold new_data. split; cbn [fmt bits_per_level start_level pgd_bits cfg]; [done|lia|unfold ARM_LPAE_MAX_LEVELS; lia|lia| | |].
  - unfold ARM_LPAE_LVL_SHIFT. cbn [bits_per_level start_level]. lia.
  - destruct Hs as [-> |[-> | ->]]; simpl (_ =? _) in *; cbv iota in *; lia.
  - destruct Hs as [-> |[-> | ->]]; simpl (_ =? _) in *; cbv iota in *; lia.
Qed.

(** ** The root *)

(** Nothing is left of a table. *)
Definition no_table (vm : Z) (q : pgt) : Prop := q_mem q = ∅ /\ q_dev q = ∅ /\ freelist q = [] /\ q_cached q = ∅ /\ pa_idle vm (q_al q).

Lemma root_inv d q p t st : geo_ok d -> pgd d = p -> page_ok d p -> (forall i, t i = 0) -> freelist q = [] -> q_cached q = ∅ -> pa_inv (vmid d) {[p]} st ->
  inv env d {[p := (start_level d, 0)]} ∅ no_pend (q <| q_al := st |> <| q_mem := {[p := t]} |> <| q_dev := {[p := t]} |>).
Proof.
  intros HG <- Hp Hz Hf Hc Hal. pose proof (go_start d HG) as Hs.
  split; cbn; rewrite ?Hf, ?Hc, ?dom_singleton_L; try done.
  - split.
    + by rewrite lookup_singleton_eq.
    + intros T l k [<- _]%lookup_singleton_Some. rewrite lookup_singleton_eq. eauto.
    + by intros T l k [<- _]%lookup_singleton_Some.
    + intros T l k [<- [= <- <-]]%lookup_singleton_Some. split; [lia|done].
    + intros T l k t' i [<- [= <- <-]]%lookup_singleton_Some Ht _. rewrite lookup_singleton_eq in Ht. injection Ht as <-. left. left. apply Hz.
    + intros C l k [<- [= <- <-]]%lookup_singleton_Some Hl. lia.
  - intros P k t' i C tc [<- _]%lookup_singleton_Some Ht _ HC _. rewrite lookup_singleton_eq in Ht. injection Ht as <-. rewrite Hz in HC.
    by apply table_nonzero in HC.
  - intros _ T l k t' [<- _]%lookup_singleton_Some Ht. rewrite lookup_singleton_eq in Ht. injection Ht as <-. exists t. rewrite lookup_singleton_eq.
    split; [done|]. intros i _ _. apply same_entry_refl.
  - intros p. rewrite !elem_of_empty, elem_of_nil. destruct (decide (pgd d = p)) as [<-|Hn]; [rewrite !lookup_singleton_eq; split; eauto|].
    rewrite !lookup_singleton_ne by done.
    split; [by intros [? ?]|]. intros [[? ?]|[?|?]]; done.
  - constructor.
  - intros p. rewrite !elem_of_empty, elem_of_nil. split; [by intros [?|?]|done].
Qed.

Lemma root_empty d q p t v : geo_ok d -> pgd d = p -> (forall i, t i = 0) -> q_mem q = {[p := t]} -> in_range d v -> abs d (q_mem q) v = None.
Proof.
  intros HG <- Hz Em Hv. unfold abs, find. pose proof (go_start d HG). replace (Z.to_nat (4 - start_level d)) with (S (Z.to_nat (3 - start_level d))) by lia.
  cbn [walk]. rewrite Em, lookup_singleton_eq, Hz. done.
Qed.


(** ** The registers *)

Lemma s1_regs_ok c g : snd (s1_regs c g) = true ->
  exists t ps, fst (s1_regs c g) = c <| tcr := t <| r_ps := ps |> <| r_tsz := 64 - ias c |> |> <| mair := mair_s1 |> /\ tcr_ps (oas c) = Some ps /\
    r_sl t = r_sl (tcr c).
Proof.
  unfold s1_regs. destruct (coherent_walk c); cbn [andb].
  - destruct (truth _); [done|]. destruct (tcr_ps (oas c)) as [ps|]; [|done]. intros _. by eexists _, ps.
  - destruct (tcr_ps (oas c)) as [ps|]; [|done]. intros _. by eexists _, ps.
Qed.

Lemma s1_regs_granule c g g' : snd (s1_regs c g) = snd (s1_regs c g').
Proof. unfold s1_regs. destruct (coherent_walk c && _); [done|]. by destruct (tcr_ps (oas c)). Qed.

Lemma tcr_ps_range o ps : tcr_ps o = Some ps -> 32 <= o <= 52.
Proof. unfold tcr_ps. repeat (case_match; [lia|]). done. Qed.

(** ** The new table *)

(** Configurations that the code takes. *)
Definition s1_accepts (c : io_pgtable_cfg) : bool :=
  let c' := arm_lpae_restrict_pgsizes env c in
  negb (truth (Z.land (quirks c) (Z.lnot S1_QUIRKS))) && truth (Z.land (pgsize_bitmap c') granules) && snd (s1_regs c' 0).

(** No memory, no place for the machine, or a page the device cannot reach. *)
Definition short_of (vm : Z) (c : io_pgtable_cfg) (q : pgt) : Prop :=
  pe_kmalloc env = false \/ (exists r st, pa_register vm (q_al q) = Some (r, st) /\ r <> 0) \/
  exists st o z st', pa_register vm (q_al q) = Some (0, st) /\ pa_alloc vm (mk_gfp true true) st = Some (o, z, st') /\
    match o with None => True | Some p => coherent_walk c = false /\ pe_dma_map env p <> Some p end.

Definition new_table (c : io_pgtable_cfg) (vm : Z) (q : pgt) (s : list (pgt -> pgt)) (r : io_pgtable_cfg * option arm_lpae_io_pgtable) (w : world pgt) : Prop :=
  exists q', w = mk_world q' s /\
  match snd r with
  | None => no_table vm q' /\ (s1_accepts c = true -> short_of vm c q)
  | Some d => geo_ok d /\ env_ok env d /\ q_lock q' = q_lock q /\ inv env d {[pgd d := (start_level d, 0)]} ∅ no_pend q' /\
      (forall v, in_range d v -> seen d q' v = None) /\ vmid d = vm /\ cfg d = fst r /\ ttbr (cfg d) = pgd d /\ r_tsz (tcr (cfg d)) = 64 - ias (cfg d) /\
      ARM_LPAE_GRANULE d = Z.shiftl 1 (shift_of (arm_lpae_restrict_pgsizes env c))
  end.

Lemma unregister_none c vm q s : q_mem q = ∅ -> q_dev q = ∅ -> freelist q = [] -> q_cached q = ∅ -> pa_inv vm ∅ (q_al q) ->
  exists q', out_free_data c vm (mk_world q s) = Ret (c, None) (mk_world q' s) /\ no_table vm q'.
Proof.
  intros Em Ed Ef Ec Hal. unfold out_free_data, qcom_io_pgtable_allocator_unregister_m. rewrite run_assoc, run_gets. cbn [w_st].
  destruct (pa_unregister_ok vm (q_al q) Hal) as (st & E & Hi). rewrite E, run_assoc, run_or_fault, run_modify. by eexists.
Qed.

(** The first page of a table. *)
Definition first_page (d : arm_lpae_io_pgtable) (q : pgt) (s : list (pgt -> pgt)) (o : option Z) (w : world pgt) : Prop :=
  exists q', w = mk_world q' s /\ q_lock q' = q_lock q /\ freelist q' = [] /\ q_cached q' = ∅ /\
  match o with
  | None => q_mem q' = ∅ /\ q_dev q' = ∅ /\ pa_inv (vmid d) ∅ (q_al q') /\ exists o z st', pa_alloc (vmid d) (mk_gfp true true) (q_al q) = Some (o, z, st') /\
      match o with None => True | Some p => coherent_walk (cfg d) = false /\ pe_dma_map env p <> Some p end
  | Some p => exists t st, q' = q <| q_al := st |> <| q_mem := {[p := t]} |> <| q_dev := {[p := t]} |> /\ (forall i, t i = 0) /\
      p mod 2 ^ pe_page_shift env = 0 /\ 0 < p < 2 ^ 48 /\ pa_inv (vmid d) {[p]} st
  end.

Lemma first_page_sure d size q s : q_mem q = ∅ -> q_dev q = ∅ -> freelist q = [] -> q_cached q = ∅ -> pa_inv (vmid d) ∅ (q_al q) ->
  sure (__arm_lpae_alloc_pages env d size GFP_KERNEL (mk_world q s)) (first_page d q s).
Proof.
  intros Em Ed Ef Ec Hal. unfold __arm_lpae_alloc_pages. rewrite run_gets. cbn [w_st]. change (gfp_blocking GFP_KERNEL) with true.
  destruct (pa_alloc_ok (vmid d) ∅ (q_al q) (mk_gfp true true) Hal ltac:(by left)) as (o & z & st' & E & Hpost).
  rewrite E, run_or_fault. cbv beta iota. rewrite run_modify. unfold with_st. cbn [w_st w_sched]. destruct o as [p|]; cbv beta iota.
  2: { eexists. split; [done|]. split; [done|]. split; [done|]. split; [done|]. split; [done|]. split; [done|]. split; [exact Hpost|]. by exists None, z, st'. }
  destruct Hpost as (_ & Hpm & Hpr & Hz & Hinv). rewrite (Hz eq_refl) in *. rewrite run_modify. unfold with_st. cbn [w_st w_sched].
  rewrite union_empty_r_L in Hinv.
  match goal with |- context [mk_world ?x s] => set (q1 := x) end.
  assert (first_page d q s (Some p) (mk_world q1 s)) as Hok.
  { exists q1. split; [done|]. split; [done|]. split; [done|]. split; [done|]. exists (fun _ => 0), st'. split; [unfold q1; cbn; by rewrite Em, Ed|done]. }
  assert (coherent_walk (cfg d) = false -> pe_dma_map env p <> Some p ->
    sure (mbnd (qcom_io_pgtable_free p) (fun _ => mret None) (mk_world q1 s)) (first_page d q s)) as Hno.
  { intros Hco Hdm. unfold qcom_io_pgtable_free. rewrite run_assoc, run_gets. cbn [w_st].
    destruct (pa_free_ok (vmid d) {[p]} st' p Hinv) as (st2 & E2 & Hinv2); [set_solver|].
    change (q_al q1) with st'. rewrite E2, run_assoc, run_or_fault, run_modify. eexists. split; [done|]. cbn.
    rewrite Em, Ed, !insert_empty, !delete_singleton_eq.
    replace ({[p]} ∖ {[p]}) with (∅ : gset Z) in Hinv2 by set_solver. split_and!; try done. by exists (Some p), true, st'. }
  destruct (coherent_walk (cfg d)) eqn:Eco; [done|]. destruct (pe_dma_map env p) as [dma|] eqn:Edm; [|by apply Hno].
  destruct (Z.eqb_spec dma p) as [->|Hne]; [done|]. apply Hno; [done|congruence].
Qed.

(** The root, once the client is registered. *)
Lemma alloc_pgd_sure c0 cx c vm q0 q s st sft : no_table vm q0 -> pa_register vm (q_al q0) = Some (0, st) -> pa_inv vm ∅ st -> q = q0 <| q_al := st |> ->
  coherent_walk c = coherent_walk c0 -> ias cx = ias c ->
  sft = 12 \/ sft = 14 \/ sft = 16 -> sft <= pe_page_shift env -> sft < ias c -> ias c <= (if sft =? 16 then 52 else 48) ->
    0 <= oas c <= (if sft =? 16 then 52 else 48) ->
  sft = shift_of (arm_lpae_restrict_pgsizes env c0) -> r_tsz (tcr c) = 64 - ias c ->
  sure (alloc_pgd env (new_data QCOM_ARM_64_LPAE_S1 cx sft 0 vm) c (fun page => page) (mk_world q s)) (new_table c0 vm q0 s).
Proof.
  intros (Em & Ed & Ef & Ec & _) Er Hal Eq Eco Ex Hs Hps Hi Hi2 Ho Esft Etsz. unfold alloc_pgd. set (d0 := new_data QCOM_ARM_64_LPAE_S1 cx sft 0 vm).
  eapply sure_step; [apply (first_page_sure (d0 <| cfg := c |>) _ q s); by rewrite Eq|]. intros o w (q1 & -> & El & Ef1 & Ec1 & Hpost). destruct o as [p|].
  - destruct Hpost as (t & st2 & -> & Hz & Hpm & Hpr & Hinv). set (c1 := c <| ttbr := p |>). set (d := new_data QCOM_ARM_64_LPAE_S1 c1 sft p vm).
    assert (d0 <| pgd := p |> <| cfg := c1 |> = d) as Edd by (unfold d, d0, new_data, levels_of; cbn; by rewrite Ex).
    change (new_table c0 vm q0 s (c1, Some (d0 <| pgd := p |> <| cfg := c1 |>)) (mk_world (q <| q_al := st2 |> <| q_mem := {[p := t]} |> <| q_dev := {[p := t]}
      |>) s)). rewrite Edd.
    assert (geo_ok d) as HG by (by apply geometry_ok). eexists. split; [done|]. cbn [snd fst]. split; [done|].
    assert (env_ok env d) as HE by (split; [cbn; lia|done]). split; [done|]. split; [by rewrite Eq|].
    assert (page_ok d p) as Hp by (split; [cbn; replace (sft - 3 + 3) with sft by lia; eapply mod_pow_le; [exact Hpm|lia]|done]).
    assert (inv env d {[p := (start_level d, 0)]} ∅ no_pend (q <| q_al := st2 |> <| q_mem := {[p := t]} |> <| q_dev := {[p := t]} |>)) as HI by (by apply
      root_inv; rewrite ?Eq).
    split; [done|]. split; [|split; [done|split; [done|split; [done|split; [done|]]]]].
    + intros v Hv. rewrite (seen_abs env d HG {[p := (start_level d, 0)]} ∅) by done. by apply (root_empty d _ p t).
    + unfold ARM_LPAE_GRANULE. cbn [bits_per_level d new_data]. rewrite <- Esft. change 8 with (Z.shiftl 1 3). rewrite Z.shiftl_shiftl by lia. f_equal. lia.
  - destruct Hpost as (Em1 & Ed1 & Hinv & o & z & st' & E & Hwhy). destruct (unregister_none c vm q1 s Em1 Ed1 Ef1 Ec1 Hinv) as (q2 & E2 & Hno).
    change (sure (out_free_data c vm (mk_world q1 s)) (new_table c0 vm q0 s)).
    rewrite E2. exists q2. split; [done|]. split; [done|]. intros _. right. right. exists st, o, z, st'. split; [done|]. rewrite Eq in E. split; [exact E|].
    cbn in Hwhy. by rewrite <- Eco.
Qed.

(** C17. A new page table has the geometry that its
    configuration asks for, is well formed and maps nothing; when none can be
    made, nothing is left and the result says no. *)
Theorem alloc_pgtable_starts_empty c vm q s : no_table vm q -> shift_of (arm_lpae_restrict_pgsizes env c) <= pe_page_shift env ->
  shift_of (arm_lpae_restrict_pgsizes env c) < ias c ->
  sure (qcom_alloc_io_pgtable_ops env c vm (mk_world q s)) (new_table c vm q s).
Proof.
  intros Hq Hps Hi. pose proof (restrict_ok c) as (Eq & Ec & Hr). set (c1 := arm_lpae_restrict_pgsizes env c) in *. set (sft := shift_of c1) in *.
  assert (forall c', s1_accepts c = false -> new_table c vm q s (c', None) (mk_world q s)) as Hrej by (intros c' E; exists q; split; [done|]; split; [done|];
    by rewrite E).
  unfold qcom_alloc_io_pgtable_ops, arm_64_lpae_alloc_pgtable_s1. unfold s1_accepts in Hrej. fold c1 in Hrej.
  destruct (truth (Z.land (quirks c) (Z.lnot S1_QUIRKS))); [by apply Hrej|]. cbn [negb andb] in Hrej. unfold arm_lpae_alloc_pgtable. fold c1. fold granules.
  destruct (truth (Z.land (pgsize_bitmap c1) granules)) eqn:Eg; cbn [negb]; [|rewrite run_ret; by apply Hrej]. cbn [andb] in Hrej.
  destruct (Hr eq_refl) as [Hs [Eias Eoas]]. fold sft in Hs, Eias, Eoas. change ARM_LPAE_MAX_ADDR_BITS with 52.
  assert ((if sft =? 16 then 52 else 48) <= 52) as Hlim by (destruct (_ =? _); lia).
  rewrite (proj2 (Z.ltb_ge 52 (ias c1))), (proj2 (Z.ltb_ge 52 (oas c1))) by lia.
  destruct (pe_kmalloc env) eqn:Ek; cbn [negb]; [|rewrite run_ret; exists q; split; [done|]; split; [done|]; by left].
  unfold qcom_io_pgtable_allocator_register_m. rewrite !run_assoc, run_gets. cbn [w_st]. pose proof Hq as (Em & Ed & Ef & Ecd & Hidle).
  destruct (pa_register_ok vm (q_al q) Hidle) as (ret & st & E & Hst). rewrite run_assoc, E, run_or_fault. cbv beta. rewrite run_assoc, run_modify.
  cbn [fst snd]. rewrite run_ret.
  unfold with_st. cbn [w_st w_sched]. unfold truth at 1. destruct (Z.eqb_spec ret 0) as [->|Hne]; cbn [negb]; rewrite run_ret; cbv beta iota.
  2: { eexists. split; [done|]. split; [by split_and!|]. intros _. right. left. by exists ret, st. }
  change (__ffs (pgsize_bitmap c1)) with sft.
  change (mk_data QCOM_ARM_64_LPAE_S1 c1 _ _ _ _ _) with (new_data QCOM_ARM_64_LPAE_S1 c1 sft 0 vm). set (g := ARM_LPAE_GRANULE _).
  pose proof (s1_regs_granule c1 g 0) as Eg0. pose proof (s1_regs_ok c1 g) as Hreg. destruct (s1_regs c1 g) as [c2 ok]. cbn [fst snd] in *.
  destruct ok; cbn [negb].
  2: { match goal with |- context [mk_world ?x s] => destruct (unregister_none c2 vm x s) as (q' & E2 & Hno); try done end.
       change (vmid (new_data QCOM_ARM_64_LPAE_S1 c1 sft 0 vm)) with vm. rewrite E2. exists q'. split; [done|]. split; [done|]. unfold s1_accepts. fold c1.
       rewrite <- Eg0. by rewrite andb_false_r. }
  destruct (Hreg eq_refl) as (t & ps & -> & Eps & _). pose proof (tcr_ps_range _ _ Eps).
  apply (alloc_pgd_sure c c1 _ vm q _ s st sft); try done; cbn [ias oas coherent_walk set_field tcr r_tsz]; lia.
Qed.
End PtNew.
