(* ===== verification/PtRefine.v ===== *)
(** * PtRefine: a page table is a map of addresses

    Every operation on a page table, and every walk of the device, is a step of an
    abstract machine whose state is the translation alone. *)
From stdpp Require Import prelude gmap list.
From S2P Require Import Prelude.
From S2P Require Import Effects.
From S2P Require Import PgAlloc.
From S2P Require Import IoPgtable.
From S2P Require Import PtBits.
From S2P Require Import PtInv.
From S2P Require Import PtTree.
From S2P Require Import PtState.
From S2P Require Import PtMap.
From S2P Require Import PtLeaf.
From S2P Require Import PtMapPages.
From S2P Require Import PtUnmapLast.
From S2P Require Import PtUnmapPages.
From S2P Require Import PtThm.
#[local] Open Scope kernel_scope.

Section PtRefine.
Context {PA : PageAlloc} (env : pg_env) {PL : PageAllocLaws (pe_page_shift env)}.
Context (d : arm_lpae_io_pgtable) (HG : geo_ok d) (HE : env_ok env d).

Abbreviation owner := (gmap Z (Z * Z)).
Abbreviation inv := (inv env d).
Abbreviation in_range := (in_range d).

(** ** The device *)

(** The tables that a walk of the device reads, and that it may remember. *)
Fixpoint tables_on (m : gmap Z (Z -> Z)) (n : nat) (l T v : Z) : list Z :=
  match n with
  | O => []
  | S n' =>
      match m !! T with
      | None => []
      | Some t =>
          let e := t (idx d l v) in
          T :: if (e =? 0) || iopte_leaf e l (fmt d) then [] else tables_on m n' (l + 1) (iopte_deref e d) v
      end
  end.

Definition device_walk (v : Z) : Effects.M pgt unit :=
  modify (fun q => q <| q_cached := q_cached q ∪ list_to_set (tables_on (if coherent_walk (cfg d) then q_mem q else q_dev q) (Z.to_nat (4 - start_level d))
    (start_level d) (pgd d) v) |>).

(** What the device reads are tables of the tree. *)
Lemma tables_owned own mine q v : inv own mine no_pend q -> forall n l T, 4 - l = Z.of_nat n -> own !! T = Some (l, pslot d l v) ->
  forall p, p ∈ tables_on (if coherent_walk (cfg d) then q_mem q else q_dev q) n l T v -> is_Some (own !! p).
Proof.
  intros HI. induction n as [|n IH]; intros l T Hn Ho p Hp; [by apply elem_of_nil in Hp|]. cbn [tables_on] in Hp.
  destruct (mem_some env d _ _ _ _ _ _ HI Ho) as (t & td & Ht & Htd). pose proof (idx_range d HG l v) as Hi.
  pose proof (tr_level _ _ _ (in_tree _ _ _ _ _ _ HI) _ _ _ Ho) as [Hl _].
  assert (exists t', (if coherent_walk (cfg d) then q_mem q else q_dev q) !! T = Some t' /\ same_entry d l (t (idx d l v)) (t' (idx d l v))) as (t' & Et & Hs).
  { destruct (coherent_walk (cfg d)) eqn:Ec; [exists t; split; [done|apply same_entry_refl]|].
    destruct (in_dev _ _ _ _ _ _ HI Ec T l _ t Ho Ht) as (t' & E & Hs). exists t'. split; [done|]. apply Hs; [done|by intros ?]. }
  rewrite Et in Hp. apply elem_of_cons in Hp as [->|Hp]; [eauto|].
  destruct ((t' (idx d l v) =? 0) || iopte_leaf (t' (idx d l v)) l (fmt d)) eqn:E; [by apply elem_of_nil in Hp|].
  apply orb_false_iff in E as [E0 El]. destruct (tr_entry _ _ _ (in_tree _ _ _ _ _ _ HI) T l _ t (idx d l v) Ho Ht Hi) as [Hpl|(Hl' & C & HC & HoC)].
  - rewrite (same_entry_plain d HG l _ _ Hpl Hs) in E0, El. destruct Hpl as [E1|(pa & prot & E1 & _ & Hpr)]; [by rewrite E1 in E0|].
    by rewrite E1, leaf_pte_leaf in El.
  - pose proof (same_entry_table d l _ _ C Hs HC) as [_ Ed]. rewrite Ed in Hp. apply (IH (l + 1) C); [lia| |done]. rewrite pslot_succ by (done || lia).
    by rewrite <- slot_split in HoC.
Qed.

(** ** The operations *)

Inductive pt_op :=
| OpMap (iova paddr lv pgcount prot : Z) (gfp : gfp_t)
| OpUnmap (iova lv pgcount : Z)
| OpLookup (iova : Z)
| OpSync
| OpDevice (v : Z).

Definition pt_run (o : pt_op) : Effects.M pgt (Z * Z) :=
  match o with
  | OpMap iova paddr lv pgcount prot gfp => qcom_arm_lpae_map_pages env d iova paddr (2 ^ sh d lv) pgcount prot gfp 0
  | OpUnmap iova lv pgcount => r <-- qcom_arm_lpae_unmap_pages env d iova (2 ^ sh d lv) pgcount ;;; mret (r, 0)
  | OpLookup iova => r <-- arm_lpae_iova_to_phys env d iova ;;; mret (r, 0)
  | OpSync => arm_smmu_iotlb_sync ;;; mret (0, 0)
  | OpDevice v => device_walk v ;;; mret (0, 0)
  end.

(** ** The abstract machine *)

Definition translation : Type := Z -> option (Z * Z).

(** How many blocks of the size one call does: to the end of a table. *)
Definition blocks (iova lv pgcount : Z) : Z := Z.min (s32 pgcount) (2 ^ bits_per_level d - idx d lv (canon d iova)).

Definition pt_pre (o : pt_op) (T : translation) : Prop :=
  match o with
  | OpMap iova paddr lv pgcount prot gfp => map_args d (fun _ => True) iova paddr lv pgcount (blocks iova lv pgcount) prot gfp
  | OpUnmap iova lv pgcount =>
      span_ok d lv (canon d iova) (blocks iova lv pgcount) /\ bad_pgsize d (2 ^ sh d lv) pgcount = false /\ iova_ext d iova = 0 /\ vmid d = 0 /\
      (lv = 3 -> forall a, in_run d lv (canon d iova) (blocks iova lv pgcount) a = true -> T a <> None)
  | OpLookup _ | OpSync => True
  | OpDevice v => in_range v
  end.

Definition same_on_range (T T' : translation) : Prop := forall a, in_range a -> T' a = T a.

Definition pt_spec (o : pt_op) (T : translation) (r : Z * Z) (T' : translation) : Prop :=
  match o with
  | OpMap iova paddr lv pgcount prot gfp =>
      let v := canon d iova in let n := blocks iova lv pgcount in
      (r = (0, u64 (n * 2 ^ sh d lv)) /\ (forall a, in_run d lv v n a = true -> T a = None) /\
        forall a, in_range a -> T' a = if in_run d lv v n a then Some (paddr + (a - v), arm_lpae_prot_to_pte d prot) else T a) \/
      ((r = (- ENOMEM, 0) \/ r = (- EEXIST, 0) /\ (lv = 3 -> exists a, in_run d lv v n a = true /\ T a <> None)) /\ same_on_range T T')
  | OpUnmap iova lv pgcount =>
      let v := canon d iova in let n := blocks iova lv pgcount in
      exists c, r = (c * 2 ^ sh d lv, 0) /\ 0 <= c <= n /\ (forall a, in_range a -> T' a = if in_run d lv v c a then None else T a) /\
        (c < n -> (exists a, in_run d lv v n a = true /\ T a = None) \/ c = 0)
  | OpLookup iova => r = (match T (canon d iova) with Some (pa, _) => pa | None => 0 end, 0) /\ same_on_range T T'
  | OpSync | OpDevice _ => r = (0, 0) /\ same_on_range T T'
  end.

(** ** The refinement *)

(** The device finds the translation, and what it may remember are still tables. *)
Definition stands_for (q : pgt) (T : translation) : Prop :=
  (exists own, inv own ∅ no_pend q) /\ q_lock q = false /\ (forall a, in_range a -> seen d q a = T a) /\ forall p, p ∈ q_cached q -> is_Some (q_mem q !! p).

Lemma stands_intro own q T : inv own ∅ no_pend q -> q_lock q = false -> (forall a, in_range a -> abs d (q_mem q) a = T a) -> stands_for q T.
Proof.
  intros HI Hlk HT. split; [by exists own|]. split; [done|]. split; [intros a Ha; rewrite (seen_abs env d HG own ∅) by done; by apply HT|].
  intros p Hp. apply (in_dom _ _ _ _ _ _ HI). destruct (in_cached _ _ _ _ _ _ HI p Hp); tauto.
Qed.

Lemma map_refines own q iova paddr lv pgcount prot gfp T : inv own ∅ no_pend q -> q_lock q = false -> (forall a, in_range a -> abs d (q_mem q) a = T a) ->
  pt_pre (OpMap iova paddr lv pgcount prot gfp) T ->
  sure (pt_run (OpMap iova paddr lv pgcount prot gfp) (mk_world q [])) (fun r w => exists q' T', w_st w = q' /\
    pt_spec (OpMap iova paddr lv pgcount prot gfp) T r T' /\ stands_for q' T').
Proof.
  intros HI Hlk HT HA. cbn [pt_pre] in HA. pose proof (ma_run _ _ _ _ _ _ _ _ _ HA) as [_ _ _ _ HX]. set (v := canon d iova) in *.
  set (n := blocks iova lv pgcount) in *.
  eapply sure_mono; [by apply (map_pages_run env d HG HE (fun _ => True) own ∅ no_pend q []); [..|constructor|exact HA]|].
  intros r w (q1 & q' & s' & [r1 r2] & ms & -> & -> & Hlk' & Em & _ & HI' & (own' & q1' & s1 & [= <- <-] & _ & _ & HI1 & _ & Hr)).
  exists q', (abs d (q_mem q')).
  assert (forall a, in_run d lv v n a = true -> in_range a) as Hin by (intros a Ha; unfold in_run in Ha; apply HX; lia).
  split; [done|]. split; [|by apply (stands_intro own'); [apply HI'| |]]. cbn in Hr |- *. rewrite Em. fold v n.
  destruct Hr as [(-> & -> & He & Hm)|(-> & Hm & Hr)]; [left|right].
  - split; [by rewrite Z.add_0_l|]. split; [intros a Ha; rewrite <- HT by auto; by apply He|]. intros a Ha. rewrite (Hm a I Ha). fold v.
    destruct (in_run d lv v n a); [done|]. by apply HT.
  - split; [|intros a Ha; rewrite (Hm a I Ha); by apply HT]. destruct Hr as [->|[-> Hr]]; [by left|right]. split; [done|]. intros El.
    destruct (Hr El) as (a & Ha & Hn). exists a. split; [done|]. by rewrite <- HT by auto.
Qed.

Lemma unmap_refines own q iova lv pgcount T : inv own ∅ no_pend q -> q_lock q = false -> (forall a, in_range a -> abs d (q_mem q) a = T a) ->
  pt_pre (OpUnmap iova lv pgcount) T ->
  sure (pt_run (OpUnmap iova lv pgcount) (mk_world q [])) (fun r w => exists q' T', w_st w = q' /\ pt_spec (OpUnmap iova lv pgcount) T r T' /\
    stands_for q' T').
Proof.
  intros HI Hlk HT (HS & Hb & Hx & Hvm & Hall). set (n := blocks iova lv pgcount) in *.
  assert (forall a, in_run d lv (canon d iova) n a = true -> in_range a) as Hin by (intros a Ha; by apply (span_in_range d lv (canon d iova) n)).
  assert (unmap_args d q [] iova lv pgcount n) as HA by (split; try done; [intros El a Ha; rewrite HT by auto; by apply Hall|by left]).
  cbn [pt_run]. eapply sure_step; [by apply (unmap_pages_run env d HG HE own ∅ no_pend q [] iova lv pgcount n)|].
  intros r w (own' & q' & c & -> & Hlk' & HI' & -> & Hc & Ha & Hrest & _). cbn. exists q', (abs d (q_mem q')). split; [done|].
  split; [|by apply (stands_intro own')]. fold n.
  exists c. split; [done|]. split; [done|]. split; [intros a Har; rewrite Ha by done; destruct (in_run _ _ _ _ _); [done|by apply HT]|]. intros Hcn.
  destruct (Hrest Hcn) as [(a & Har & E)|[? _]]; [left|by right]. exists a. split; [done|]. by rewrite <- HT by auto.
Qed.

Lemma sync_refines own q T : inv own ∅ no_pend q -> q_lock q = false -> (forall a, in_range a -> abs d (q_mem q) a = T a) ->
  sure (pt_run OpSync (mk_world q [])) (fun r w => exists q' T', w_st w = q' /\ pt_spec OpSync T r T' /\ stands_for q' T').
Proof.
  intros HI Hlk HT. cbn [pt_run]. eapply sure_step; [by apply (iotlb_sync_sure env d HG HE own ∅ no_pend q)|]. intros [] w (q' & -> & HI' & El & Hk). cbn.
  exists q', T. split; [done|]. split; [done|].
  apply (stands_intro own); [done|congruence|]. intros a Ha. rewrite <- HT by done. apply (abs_frame d HG (q_mem q) (q_mem q') own a); [apply HI|done|].
  intros l P t HP Ht. exists t.
  destruct (Hk P) as [-> _]; [|split; [done|apply same_entry_refl]]. rewrite elem_of_list_to_set. by destruct (owned_not_mine env d own ∅ no_pend q P _ HI HP).
Qed.

Lemma device_refines own q v T : inv own ∅ no_pend q -> q_lock q = false -> (forall a, in_range a -> abs d (q_mem q) a = T a) -> in_range v ->
  sure (pt_run (OpDevice v) (mk_world q [])) (fun r w => exists q' T', w_st w = q' /\ pt_spec (OpDevice v) T r T' /\ stands_for q' T').
Proof.
  intros HI Hlk HT Hv. cbn [pt_run]. unfold device_walk. rewrite run_modify. cbn. eexists _, T. split; [done|]. split; [done|].
  apply (stands_intro own); [|done|exact HT].
  pose proof HI as [H1 H2 H3 H4 H5 H6 H7 H8 H9]. split; try done. cbn. intros p [Hp|Hp]%elem_of_union; [by apply H9|]. apply elem_of_list_to_set in Hp. left.
  pose proof (go_start d HG).
  apply (tables_owned own ∅ q v HI (Z.to_nat (4 - start_level d)) (start_level d) (pgd d)); [lia|rewrite pslot_root by done; apply (tr_root _ _ _ H1)|done].
Qed.

(** C3. The page table implements a partial map from
    addresses to physical addresses and protections: each call and each walk of
    the device returns, with a result that the abstract map allows, in a state
    that stands for the abstract map after it. A table that the device may
    remember is still a page of the table or waits for a flush. *)
Theorem page_table_refines_translation o q T : stands_for q T -> pt_pre o T ->
  exists r w T', pt_run o (mk_world q []) = Ret r w /\ pt_spec o T r T' /\ stands_for (w_st w) T'.
Proof.
  intros ([own HI] & Hlk & HT & _) Hpre.
  assert (forall a, in_range a -> abs d (q_mem q) a = T a) as Ha by (intros a Har; rewrite <- HT by done; by rewrite (seen_abs env d HG own ∅)).
  assert (sure (pt_run o (mk_world q [])) (fun r w => exists q' T', w_st w = q' /\ pt_spec o T r T' /\ stands_for q' T')) as H.
  { destruct o as [iova paddr lv pgcount prot gfp|iova lv pgcount|iova| |v];
      [by apply (map_refines own)|by apply (unmap_refines own)| |by apply (sync_refines own)|by apply (device_refines own)].
    cbn [pt_run]. eapply sure_step; [by apply (iova_to_phys_sure env d HG HE own ∅ no_pend q [] iova)|]. intros r w [-> ->]. cbn. exists q, T. split; [done|].
    split; [split; [rewrite Ha by (by apply canon_range); done|done]|by apply (stands_intro own)]. }
  apply sure_run in H as (r & w & E & q' & T' & Ew & Hs & Hst). exists r, w, T'. rewrite Ew. done.
Qed.
End PtRefine.
