(* ===== verification/PtClient.v ===== *)
(** * PtClient: page tables on the allocator of PgAlloc.v

    [PgAlloc] implements the interface [PageAlloc] and keeps its laws, when the
    system gives pages that are not taken, of the right size and address. *)
From stdpp Require Import prelude gmap list.
From S2P Require Import Prelude.
From S2P Require Import Effects.
From S2P Require Import XArray.
From S2P Require Import PgAlloc.
From S2P Require Import IoPgtable.
From S2P Require Import PtInv.
#[local] Open Scope kernel_scope.

(** ** What every step of a computation keeps *)

Definition stays {S A : Type} (I : S -> Prop) (c : M S A) : Prop := forall w a w', c w = Ret a w' -> I (w_st w) -> I (w_st w').

Section Stays.
Context {S : Type} (I : S -> Prop).

Lemma stays_bind {A B : Type} (c : M S A) (k : A -> M S B) : stays I c -> (forall a, stays I (k a)) -> stays I (mbnd c k).
Proof. intros Hc Hk w b w' E. apply mbnd_ret in E as (a & w1 & E1 & E2). intros H. eapply Hk; [exact E2|]. by eapply Hc. Qed.

Lemma stays_ret {A : Type} (a : A) : stays I (mret a).
Proof. by intros w b w' [= _ <-]. Qed.

Lemma stays_gets {A : Type} (f : S -> A) : stays I (gets f).
Proof. by intros w b w' [= _ <-]. Qed.

Lemma stays_modify (f : S -> S) : (forall q, I q -> I (f q)) -> stays I (modify f).
Proof. intros H w b w' [= <- <-]. apply H. Qed.

Lemma stays_fault {A : Type} : stays I (fault : M S A).
Proof. by intros w b w' ?. Qed.

Lemma stays_or_fault {A : Type} (o : option A) : stays I (or_fault o).
Proof. destruct o; [apply stays_ret|apply stays_fault]. Qed.

Lemma stays_nofuel {A : Type} : stays I ((fun _ => NoFuel) : M S A).
Proof. by intros w b w' ?. Qed.
End Stays.

Ltac stays := repeat first
  [ progress cbv beta zeta
  | match goal with |- stays _ (mbnd _ _) => apply stays_bind; [|intros ?] end
  | apply stays_ret | apply stays_gets | apply stays_fault | apply stays_or_fault | apply stays_nofuel
  | apply stays_modify; [intros ? ?; assumption]
  | match goal with |- stays _ (match ?x with _ => _ end) => destruct x end
  | match goal with |- stays _ (if ?x then _ else _) => destruct x end ].

Section PtClient.
Context (env : al_env) (shift : Z).

Definition page_fit (p : Z) : Prop := p mod 2 ^ shift = 0 /\ 0 < p < 2 ^ 48.

Context (page_fresh : forall taken n p, ae_page env taken n = Some p -> p ∉ taken).
Context (page_fits : forall taken n p, ae_page env taken n = Some p -> page_fit p).
Context (xa_err_sign : forall n, ae_xa_store env n <= 0).

(** ** The pages that the system gave *)

Definition fits (s : pg_alloc) : Prop := forall p, p ∈ al_taken s -> page_fit p.

Lemma alloc_pages_fits gfp : stays fits (__iommu_alloc_pages env gfp).
Proof.
  intros w a w' E Hw. unfold __iommu_alloc_pages, tick in E. rewrite run_assoc, run_gets, run_assoc, run_modify, run_ret, run_gets in E.
  cbn [w_st with_st] in E.
  match type of E with (match ?x with _ => _ end _) = _ => destruct x as [p|] eqn:Ep end; [|by injection E as _ <-].
  rewrite run_modify in E. injection E as _ <-. cbn. intros x [->%elem_of_singleton|Hx]%elem_of_union; [by eapply page_fits|by apply Hw].
Qed.

Lemma free_pages_fits page : stays fits (__iommu_free_pages page).
Proof.
  intros w a w' E Hw. unfold __iommu_free_pages in E. rewrite run_gets in E. destruct (decide _); [|done]. injection E as _ <-. intros x Hx. cbn in Hx.
  apply Hw. set_solver.
Qed.

Lemma alloc_page_fits v gfp : stays fits (qcom_io_pgtable_alloc_page env v gfp).
Proof. unfold qcom_io_pgtable_alloc_page, alloc_page_from_pool, get_pool, put_pool, __alloc_page_from_pool, io_pgtable_hyp_assign_page, tick. stays.
apply alloc_pages_fits. Qed.

Lemma free_page_fits page : stays fits (qcom_io_pgtable_free_page page).
Proof. unfold qcom_io_pgtable_free_page, free_page_to_pool, page_private, get_pool, put_pool. stays. Qed.

Lemma register_fits v : stays fits (qcom_io_pgtable_allocator_register env v).
Proof. unfold qcom_io_pgtable_allocator_register, put_pool, tick. stays. Qed.

Lemma release_pages_fits v : forall n l, stays fits (release_pages env n v l).
Proof.
  induction n as [|n IH]; intros l; cbn [release_pages]; [apply stays_nofuel|]. unfold __alloc_page_from_pool, return_page, io_pgtable_hyp_unassign_page, tick.
  stays; [apply free_pages_fits..|apply IH].
Qed.

Lemma unregister_fits v : stays fits (qcom_io_pgtable_allocator_unregister env v).
Proof. unfold qcom_io_pgtable_allocator_unregister, io_pgtable_pool_release, get_pool, put_pool. stays. apply release_pages_fits. Qed.

(** ** The instance *)

Definition ran {A : Type} (o : outcome pg_alloc A) : option (A * pg_alloc) :=
  match o with
  | Ret a w => Some (a, w_st w)
  | Fault | Blocked | NoFuel => None
  end.

Definition holds_zeroes (o : option Z) (s : pg_alloc) : bool := match o with Some p => bool_decide (p ∈ al_clean s) | None => false end.

#[local] Instance client_alloc : PageAlloc := {|
  pa_state := pg_alloc;
  pa_alloc v gfp s := (fun r => (fst r, holds_zeroes (fst r) (snd r), snd r)) <$> ran (qcom_io_pgtable_alloc_page env v gfp (W s));
  pa_free p s := snd <$> ran (qcom_io_pgtable_free_page p (W s));
  pa_register v s := ran (qcom_io_pgtable_allocator_register env v (W s));
  pa_unregister v s := snd <$> ran (qcom_io_pgtable_allocator_unregister env v (W s));
|}.

(** A client has some pages of a VMID, all of them when it is the only one. *)
Definition client_has (v : Z) (out : gset Z) (s : pg_alloc) : Prop :=
  fits s /\ exists outm regs, al_inv outm regs [] 0 s /\ 0 < regs v /\ (forall p, p ∈ out -> outm !! p = Some v) /\ (regs v = 1 -> forall p, outm !! p = Some v
    -> p ∈ out).

Definition client_idle (v : Z) (s : pg_alloc) : Prop := fits s /\ exists outm regs, al_inv outm regs [] 0 s.

Lemma total_ran {A : Type} (o : outcome pg_alloc A) Q : total o Q -> exists a s, ran o = Some (a, s) /\ Q a s.
Proof. intros H. apply total_run in H as (a & s & -> & HQ). by exists a, s. Qed.

Lemma ran_fits {A : Type} (c : M pg_alloc A) s a s' : stays fits c -> ran (c (W s)) = Some (a, s') -> fits s -> fits s'.
Proof. intros Hc E Hs. unfold ran in E. destruct (c (W s)) as [b w| | |] eqn:Ec; [|done..]. injection E as _ <-. by apply (Hc (W s) b w). Qed.

Lemma client_alloc_ok v out s gfp : client_has v out s -> gfp_blocking gfp = true \/ v = 0 ->
  exists o z s', pa_alloc v gfp s = Some (o, z, s') /\
  match o with
  | None => client_has v out s'
  | Some p => p ∉ out /\ p mod 2 ^ shift = 0 /\ 0 < p < 2 ^ 48 /\ (gfp_zero gfp = true -> z = true) /\ client_has v ({[p]} ∪ out) s'
  end.
Proof.
  intros (Hf & outm & regs & HI & Hr & Ho & H1) Hg.
  destruct (total_ran _ _ (alloc_page_total env page_fresh xa_err_sign outm regs s v gfp HI Hr Hg)) as (o & s' & E & Hok).
  pose proof (ran_fits _ s o s' (alloc_page_fits v gfp) E Hf) as Hf'. cbn. rewrite E. cbn. exists o, (holds_zeroes o s'), s'. split; [done|].
  destruct o as [p|]; cbn in Hok.
  - destruct Hok as (Hn & HI' & Hz). destruct (ai_out _ _ _ _ _ HI' p v) as ((Ht & _) & _); [apply lookup_insert_eq|]. destruct (Hf' p Ht) as [Hm Hp].
    split; [intros Hin; rewrite (Ho p Hin) in Hn; done|]. split; [done|]. split; [done|]. split; [intros Hgz; cbn; by apply bool_decide_eq_true, Hz|].
    split; [done|]. exists (<[p := v]> outm), regs. split; [done|]. split; [done|]. split.
    + intros x [->%elem_of_singleton|Hx]%elem_of_union; [apply lookup_insert_eq|]. rewrite lookup_insert_ne; [by apply Ho|]. intros <-.
      rewrite (Ho p Hx) in Hn. done.
    + intros E1 x [[<- _]|[_ Hx]]%lookup_insert_Some; [set_solver|]. specialize (H1 E1 x Hx). set_solver.
  - split; [done|]. by exists outm, regs.
Qed.

Lemma client_free_ok v out s p : client_has v out s -> p ∈ out -> exists s', pa_free p s = Some s' /\ client_has v (out ∖ {[p]}) s'.
Proof.
  intros (Hf & outm & regs & HI & Hr & Ho & H1) Hp. destruct (total_ran _ _ (free_page_total outm regs s p v HI (Ho p Hp))) as (a & s' & E & HI').
  pose proof (ran_fits _ s a s' (free_page_fits p) E Hf) as Hf'. cbn. rewrite E. cbn. exists s'. split; [done|]. split; [done|]. exists (delete p outm), regs.
  split; [done|]. split; [done|]. split.
  - intros x Hx. rewrite lookup_delete_ne by set_solver. apply Ho. set_solver.
  - intros E1 x [Hne Hx]%lookup_delete_Some. specialize (H1 E1 x Hx). set_solver.
Qed.

Lemma client_register_ok v s : client_idle v s -> exists r s', pa_register v s = Some (r, s') /\ if r =? 0 then client_has v ∅ s' else client_idle v s'.
Proof.
  intros (Hf & outm & regs & HI). destruct (total_ran _ _ (register_total env xa_err_sign outm regs s v HI)) as (r & s' & E & Hok).
  pose proof (ran_fits _ s r s' (register_fits v) E Hf) as Hf'. exists r, s'. split; [exact E|]. destruct Hok as [[-> HI']|[Hr HI']].
  - assert (0 <= regs v) as Hreg by (rewrite (ai_ref _ _ _ _ _ HI v); destruct (xa_load (al_pools s) v) as [po|] eqn:Ex; [apply (ai_pos _ _ _ _ _ HI) in Ex;
      lia|done]).
    split; [done|]. exists outm, (set_reg regs v (regs v + 1)). split; [done|]. unfold set_reg. rewrite Z.eqb_refl. split; [lia|].
    split; [by intros p ?%elem_of_empty|].
    intros E1 p Hp. destruct (ai_out _ _ _ _ _ HI p v Hp) as (_ & ? & _). lia.
  - rewrite (proj2 (Z.eqb_neq r 0)) by lia. split; [done|]. by exists outm, regs.
Qed.

Lemma client_unregister_ok v s : client_has v ∅ s -> exists s', pa_unregister v s = Some s' /\ client_idle v s'.
Proof.
  intros (Hf & outm & regs & HI & Hr & _ & H1).
  destruct (total_ran _ _ (unregister_total env page_fresh outm regs s v HI Hr ltac:(intros E1 p Hp;
    by apply (not_elem_of_empty (C := gset Z) p), H1))) as (a & s' & E & HI').
  pose proof (ran_fits _ s a s' (unregister_fits v) E Hf) as Hf'. exists s'.
  split; [transitivity (snd <$> ran (qcom_io_pgtable_allocator_unregister env v (W s))); [done|by rewrite E]|]. split; [done|].
  exists outm, (set_reg regs v (regs v - 1)). exact HI'.
Qed.

Definition client_laws : PageAllocLaws shift := {|
  pa_inv := client_has;
  pa_idle := client_idle;
  pa_alloc_ok := client_alloc_ok;
  pa_free_ok := client_free_ok;
  pa_register_ok := client_register_ok;
  pa_unregister_ok := client_unregister_ok;
|}.

(** At boot nobody is registered. *)
Lemma boot_idle v : client_idle v (aw_al al_boot).
Proof. split; [by intros p ?%elem_of_empty|]. exists ∅, (fun _ => 0). exact al_boot_good. Qed.
End PtClient.
