(* ===== verification/PtDemo.v ===== *)
(** * PtDemo: page tables of an example

    Pages of 4 KiB, addresses of 36 bits in three levels, a device that does not
    read through the caches, and the allocator of PgAlloc.v. *)
From stdpp Require Import prelude gmap list.
From S2P Require Import Prelude.
From S2P Require Import Effects.
From S2P Require Import XArray.
From S2P Require Import PgAlloc.
From S2P Require Import IoPgtable.
From S2P Require Import PtBits.
From S2P Require Import PtInv.
From S2P Require Import PtTree.
From S2P Require Import PtState.
From S2P Require Import PtMapPages.
From S2P Require Import PtUnmapLast.
From S2P Require Import PtThm.
From S2P Require Import PtRefine.
From S2P Require Import PtEnd.
From S2P Require Import PtNew.
From S2P Require Import PtClient.
#[local] Open Scope kernel_scope.

(** ** The surroundings *)

Definition demo_pages : al_env := {|
  ae_page taken n := let p := 4096 * (1 + Z.of_nat n) in if decide (p ∈ taken) then None else if p <? 2 ^ 48 then Some p else None;
  ae_kmalloc _ := true;
  ae_xa_store _ := 0;
  ae_assign _ := 0;
|}.

Lemma demo_fresh taken n p : ae_page demo_pages taken n = Some p -> p ∉ taken.
Proof. cbn. destruct (decide _); [done|]. destruct (_ <? _); [|done]. by intros [= <-]. Qed.

Lemma demo_fits taken n p : ae_page demo_pages taken n = Some p -> page_fit 12 p.
Proof.
  cbn. destruct (decide _); [done|]. destruct (Z.ltb_spec (4096 * (1 + Z.of_nat n)) (2 ^ 48)) as [H|]; [|done]. intros [= <-]. split; [|lia].
  change (2 ^ 12) with 4096. rewrite Z.mul_comm. by apply Z.mod_mul.
Qed.

Lemma demo_xa n : ae_xa_store demo_pages n <= 0.
Proof. done. Qed.

#[local] Instance demo_alloc : PageAlloc := client_alloc demo_pages.

Definition demo_pg : pg_env := mk_penv 12 false (fun p => Some p) true.

#[local] Instance demo_laws : PageAllocLaws (pe_page_shift demo_pg) := client_laws demo_pages 12 demo_fresh demo_fits demo_xa.

(** ** An empty table *)

Definition demo_cfg : io_pgtable_cfg := mk_cfg 0 (Z.lor SZ_4K (Z.lor SZ_2M SZ_1G)) 36 36 false (mk_tcr 0 0 0 0 0 0 0) 0 0.

Definition demo_d : arm_lpae_io_pgtable := mk_data QCOM_ARM_64_LPAE_S1 demo_cfg 6 1 9 12288 0.

Definition demo_boot : pgt := mk_pgt ∅ ∅ (aw_al al_boot) false [] false false ∅.

Definition demo_st : pg_alloc :=
  match pa_register 0 (aw_al al_boot) with
  | Some (_, st) => match pa_alloc 0 (mk_gfp true true) st with Some (_, _, st') => st' | None => st end
  | None => aw_al al_boot
  end.

Definition demo_q : pgt := demo_boot <| q_al := demo_st |> <| q_mem := {[12288 := fun _ => 0]} |> <| q_dev := {[12288 := fun _ => 0]} |>.

Lemma demo_has : @pa_inv demo_alloc 12 demo_laws 0 ({[12288]} : gset Z) demo_st.
Proof.
  destruct (@pa_register_ok demo_alloc 12 demo_laws 0 (aw_al al_boot) (boot_idle 12 0)) as (r & st & E & H). unfold demo_st. rewrite E.
  assert (r = 0) as -> by (vm_compute in E; by injection E). cbn [Z.eqb] in H.
  destruct (@pa_alloc_ok demo_alloc 12 demo_laws 0 ∅ st (mk_gfp true true) H ltac:(by left)) as (o & z & st' & E2 & H2). rewrite E2.
  assert (o = Some 12288) as -> by (vm_compute in E; injection E as <-; vm_compute in E2; by injection E2). destruct H2 as (_ & _ & _ & _ & H2).
  by rewrite union_empty_r_L in H2.
Qed.

Lemma demo_geo : geo_ok demo_d.
Proof. split; cbn; try done; lia. Qed.

Lemma demo_pt_env_ok : env_ok demo_pg demo_d.
Proof. split; cbn; done. Qed.

Lemma demo_pt_inv : inv demo_pg demo_d {[12288 := (1, 0)]} ∅ no_pend demo_q.
Proof. apply (root_inv demo_pg eq_refl demo_d demo_boot 12288 (fun _ => 0) demo_st demo_geo); try done. by exact demo_has. Qed.

Lemma demo_unmapped v : in_range demo_d v -> seen demo_d demo_q v = None.
Proof. intros Hv. rewrite (seen_abs demo_pg demo_d demo_geo {[12288 := (1, 0)]} ∅ demo_q v demo_pt_inv Hv).
by apply (root_empty demo_pg eq_refl demo_d demo_q 12288 (fun _ => 0) v demo_geo). Qed.

(** ** Two pages are mapped while another thread maps a third *)

Definition below_2m (a : Z) : Prop := a < 2097152.

(** Runs of pages. *)
Lemma demo_run (X : Z -> Prop) v paddr n : 0 <= v < 2 ^ 36 -> v mod 2 ^ 12 = 0 -> 0 < n -> (v / 2 ^ 12) mod 2 ^ 9 + n <= 2 ^ 9 ->
  (forall j, 0 <= j < n -> pa_ok demo_d 3 (paddr + j * 2 ^ 12)) -> (forall a, v <= a < v + n * 2 ^ 12 -> X a) -> run_ok demo_d X 3 (canon demo_d v) paddr n.
Proof.
  intros Hv Hm Hn Hi Hpa HX. assert (canon demo_d v = v) as -> by (unfold canon; by apply Z.mod_small). split; [done|done|done|exact Hpa|].
  intros a Ha. split; [by apply HX|]. change (sh demo_d 3) with 12 in Ha. unfold in_range. change (ias (cfg demo_d)) with 36.
  pose proof (Z.div_mod v (2 ^ 12) ltac:(lia)). pose proof (Z.div_mod (v / 2 ^ 12) (2 ^ 9) ltac:(lia)).
  pose proof (Z.mod_pos_bound (v / 2 ^ 12) (2 ^ 9) ltac:(lia)). lia.
Qed.

Lemma demo_args : map_args demo_d below_2m 4096 2147483648 3 2 2 3 (mk_gfp true false).
Proof.
  split; [|done|by left|done..]. apply (demo_run below_2m 4096 2147483648 2); [lia|done|lia|done|..].
  - intros j Hj. assert (j = 0 \/ j = 1) as [-> | ->] by lia; vm_compute; done.
  - intros a Ha. unfold below_2m. lia.
Qed.

Lemma demo_other : map_args demo_d (fun _ => True) 2097152 2415919104 3 1 1 3 (mk_gfp true false).
Proof.
  split; [|done|by left|done..]. apply (demo_run (fun _ => True) 2097152 2415919104 1); [lia|done|lia|done| |done].
  intros j Hj. assert (j = 0) as -> by lia; vm_compute; done.
Qed.

Definition demo_thread : pgt -> pgt := step_of (qcom_arm_lpae_map_pages demo_pg demo_d 2097152 2415919104 (2 ^ sh demo_d 3) 1 3 (mk_gfp true false) 0).

Lemma demo_thread_respects : respects demo_pg demo_d below_2m demo_thread.
Proof.
  apply (map_step_respects demo_pg demo_d demo_geo demo_pt_env_ok below_2m 2097152 2415919104 3 1 1 3 (mk_gfp true false) 0 demo_other).
  intros a Ha _. unfold in_run. change (canon demo_d 2097152) with 2097152. unfold below_2m in Ha. lia.
Qed.

Lemma map_pages_maps_run_witness : exists r w,
  qcom_arm_lpae_map_pages demo_pg demo_d 4096 2147483648 4096 2 3 (mk_gfp true false) 0 (mk_world demo_q [demo_thread]) = Ret r w /\
  r = (0, 8192) /\ seen demo_d (w_st w) 4103 = Some (2147483655, arm_lpae_prot_to_pte demo_d 3).
Proof.
  pose proof (map_pages_maps_run demo_pg demo_d demo_geo demo_pt_env_ok below_2m {[12288 := (1, 0)]} ∅ demo_q [demo_thread] 4096 2147483648 3 2 2 3 (mk_gfp
    true false) 0
    demo_pt_inv eq_refl ltac:(constructor; [exact demo_thread_respects|constructor]) demo_args) as H.
  destruct (proj1 (sure_run _ _) H) as (r & w & E & own' & q' & s' & -> & _ & _ & _ & Hr). change (2 ^ sh demo_d 3) with 4096 in E. exists r, (mk_world q' s').
  split; [exact E|].
  assert (fst r = 0) as E0 by (assert (match qcom_arm_lpae_map_pages demo_pg demo_d 4096 2147483648 4096 2 3 (mk_gfp true false) 0 (mk_world demo_q
    [demo_thread]) with Ret r _ => fst r | _ => 1 end = 0) as C by (vm_compute; reflexivity); rewrite E in C; exact C).
  destruct Hr as [(-> & _ & Hm)|([F|[F _]] & _)]; [|rewrite E0 in F; done|rewrite E0 in F; done]. split; [done|]. cbn [w_st].
  assert (in_range demo_d 4103) as H4 by (unfold in_range; change (ias (cfg demo_d)) with 36; lia).
  etransitivity; [exact (Hm 4103 ltac:(unfold below_2m; lia) H4)|].
  vm_compute. reflexivity.
Defined.

(** ** The two pages are unmapped again *)

Lemma demo_args_all : map_args demo_d (fun _ => True) 4096 2147483648 3 2 2 3 (mk_gfp true false).
Proof.
  split; [|done|by left|done..]. apply (demo_run (fun _ => True) 4096 2147483648 2); [lia|done|lia|done| |done].
  intros j Hj. assert (j = 0 \/ j = 1) as [-> | ->] by lia; vm_compute; done.
Qed.

Lemma demo_span : span_ok demo_d 3 (canon demo_d 4096) 2.
Proof. split; [done|split; [split; done|done]|done|done]. Qed.

Definition demo_q2 : pgt := step_of (qcom_arm_lpae_map_pages demo_pg demo_d 4096 2147483648 4096 2 3 (mk_gfp true false) 0) demo_q.

Lemma demo_mapped : exists own, inv demo_pg demo_d own ∅ no_pend demo_q2 /\ q_lock demo_q2 = false /\ forall a, in_run demo_d 3 (canon demo_d 4096) 2 a = true
  -> abs demo_d (q_mem demo_q2) a <> None.
Proof.
  pose proof (map_pages_run demo_pg demo_d demo_geo demo_pt_env_ok (fun _ => True) {[12288 := (1, 0)]} ∅ no_pend demo_q [] 4096 2147483648 3 2 2 3 (mk_gfp true
    false) 0
    demo_pt_inv eq_refl ltac:(constructor) demo_args_all) as H.
  destruct (proj1 (sure_run _ _) H) as (r & w & E & q1 & q' & s' & [r1 r2] & ms & Er & Ew & Hlk & Em & _ & HI & own' & q2 & s2 & Ew2 & _ & _ & HI2 & _ & Hr).
  injection Ew2 as <- _. change (2 ^ sh demo_d 3) with 4096 in E.
  assert (match qcom_arm_lpae_map_pages demo_pg demo_d 4096 2147483648 4096 2 3 (mk_gfp true false) 0 (mk_world demo_q []) with Ret r _ => fst r | _ => 1 end =
    0) as C by (vm_compute; reflexivity).
  rewrite E in C. subst r. cbn [fst] in C. subst r1. assert (demo_q2 = q') as -> by (unfold demo_q2, step_of; rewrite E, Ew; done). exists own'.
  split; [by apply HI|]. split; [done|]. intros a Ha.
  destruct Hr as [(_ & _ & _ & Hm)|(_ & _ & [F|[F _]])]; [|done|done]. rewrite Em, (Hm a I); [by rewrite Ha|].
  by apply (span_in_range demo_d 3 (canon demo_d 4096) 2 a demo_span).
Qed.

Lemma unmap_pages_unmaps_run_witness : exists r q', qcom_arm_lpae_unmap_pages demo_pg demo_d 4096 4096 2 (mk_world demo_q2 []) = Ret r (mk_world q' []) /\
  seen demo_d demo_q2 4096 <> None /\ seen demo_d q' 4096 = None.
Proof.
  destruct demo_mapped as (own & HI & Hlk & Hm). assert (in_range demo_d 4096) as Hr by (unfold in_range; change (ias (cfg demo_d)) with 36; lia).
  assert (unmap_args demo_d demo_q2 [] 4096 3 2 2) as HA by (split; [exact demo_span|reflexivity|reflexivity|reflexivity|intros _; exact Hm|left; split;
    reflexivity]).
  pose proof (unmap_pages_unmaps_run demo_pg demo_d demo_geo demo_pt_env_ok own ∅ demo_q2 [] 4096 3 2 2 HI Hlk HA) as H.
  destruct (proj1 (sure_run _ _) H) as (r & w & E & own' & q' & -> & _ & HI' & c & -> & Hc & Ha & Hrest). change (2 ^ sh demo_d 3) with 4096 in E.
  assert (seen demo_d demo_q2 4096 <> None) as Hs by (rewrite (seen_abs demo_pg demo_d demo_geo own ∅ demo_q2 4096 HI Hr); apply Hm; reflexivity).
  exists (c * 2 ^ sh demo_d 3), q'. split; [exact E|]. split; [exact Hs|]. rewrite (Ha 4096 Hr).
  destruct (in_run demo_d 3 (canon demo_d 4096) c 4096) eqn:Ec; [done|]. exfalso.
  assert (c = 0) as -> by (unfold in_run in Ec; change (canon demo_d 4096) with 4096 in Ec; change (sh demo_d 3) with 12 in Ec; lia).
  destruct (Hrest ltac:(lia)) as [(a & Hin & En)|[_ (l & Hl & HL)]].
  - pose proof (span_in_range demo_d 3 _ 2 a demo_span Hin) as Hra. rewrite (seen_abs demo_pg demo_d demo_geo own ∅ demo_q2 a HI Hra) in En.
    by apply (Hm a Hin).
  - assert (leaf_level demo_d (q_mem demo_q2) (canon demo_d 4096) = Some 3) as E3 by (vm_compute; reflexivity). rewrite E3 in HL. injection HL as <-. lia.
Defined.

(** ** Other theorems *)

Lemma operations_respect_others_witness : respects demo_pg demo_d below_2m demo_thread /\ demo_thread demo_q <> demo_q.
Proof.
  split.
  - apply (operations_respect_others demo_pg demo_d demo_geo demo_pt_env_ok).
    apply (other_map demo_pg demo_d below_2m 2097152 2415919104 3 1 1 3 (mk_gfp true false) 0 demo_other).
    intros a Ha _. unfold in_run. change (canon demo_d 2097152) with 2097152. unfold below_2m in Ha. lia.
  - intros E. assert (abs demo_d (q_mem (demo_thread demo_q)) 2097152 = abs demo_d (q_mem demo_q) 2097152) as C by exact (f_equal (fun q => abs demo_d (q_mem
      q) 2097152) E). vm_compute in C. discriminate C.
Defined.

Lemma iova_to_phys_translates_witness : exists w, arm_lpae_iova_to_phys demo_pg demo_d 4103 (mk_world demo_q2 []) = Ret 2147483655 w.
Proof.
  destruct demo_mapped as (own & HI & Hlk & _). pose proof (iova_to_phys_translates demo_pg demo_d demo_geo demo_pt_env_ok own ∅ demo_q2 [] 4103 HI Hlk) as H.
  destruct (proj1 (sure_run _ _) H) as (r & w & E & _ & Er). exists w. rewrite E, Er. f_equal.
Defined.

Lemma page_table_refines_translation_witness : exists r w T', pt_run demo_pg demo_d (OpMap 4096 2147483648 3 2 3 (mk_gfp true false)) (mk_world demo_q []) =
  Ret r w /\
  pt_spec demo_d (OpMap 4096 2147483648 3 2 3 (mk_gfp true false)) (fun _ => None) r T' /\ stands_for demo_pg demo_d (w_st w) T'.
Proof.
  apply (page_table_refines_translation demo_pg demo_d demo_geo demo_pt_env_ok (OpMap 4096 2147483648 3 2 3 (mk_gfp true false)) demo_q (fun _ => None)).
  - split; [exists {[12288 := (1, 0)]}; exact demo_pt_inv|]. split; [reflexivity|]. split; [exact demo_unmapped|]. intros p Hp. by apply elem_of_empty in Hp.
  - exact demo_args_all.
Defined.

Lemma free_pgtable_returns_pages_witness : exists q', qcom_free_io_pgtable_ops demo_pg demo_d (mk_world demo_q []) = Ret tt (mk_world q' []) /\ q_mem q' = ∅.
Proof.
  pose proof (free_pgtable_returns_pages demo_pg demo_d demo_geo demo_pt_env_ok {[12288 := (1, 0)]} no_pend demo_q [] demo_pt_inv eq_refl) as H.
  destruct (proj1 (sure_run _ _) H) as ([] & w & E & q' & -> & Em & _). exists q'. split; [exact E|exact Em].
Defined.

Lemma alloc_pgtable_starts_empty_witness : exists c d w, qcom_alloc_io_pgtable_ops demo_pg demo_cfg 0 (mk_world demo_boot []) = Ret (c, Some d) w /\
  geo_ok d /\ start_level d = 1 /\ pgd d = 12288.
Proof.
  assert (no_table demo_pg 0 demo_boot) as Hn by (split; [reflexivity|]; split; [reflexivity|]; split; [reflexivity|]; split; [reflexivity|];
    exact (boot_idle 12 0)).
  pose proof (alloc_pgtable_starts_empty demo_pg eq_refl demo_cfg 0 demo_boot [] Hn ltac:(vm_compute; discriminate) ltac:(vm_compute; reflexivity)) as H.
  destruct (proj1 (sure_run _ _) H) as ([c o] & w & E & q' & -> & Hd).
  assert (match qcom_alloc_io_pgtable_ops demo_pg demo_cfg 0 (mk_world demo_boot []) with Ret (_, Some d) _ => start_level d = 1 /\
    pgd d = 12288 | _ => False end) as C by (vm_compute; split; reflexivity).
  rewrite E in C. destruct o as [d|]; [|done]. destruct Hd as (HG & _). by exists c, d, (mk_world q' []).
Defined.
