(* ===== verification/Gunyah.v ===== *)
(** * Gunyah: packets of the IPC router between virtual machines
      (src/net/qrtr/gunyah.c)

    Two virtual machines share a page of index words and two circular buffers,
    one for each direction. A machine is a record with its device, its router,
    its doorbells and what it shares; the state is the shared memory and the two
    machines. The other machine may act whenever this one is about to touch the
    shared memory: each such access lets the next element of the schedule run.
    The router is anything with the interface [Endpoint], of which af_qrtr.c is
    an instance (GunyahRouter.v). An access that leaves a buffer is a fault. *)
From stdpp Require Import prelude list.
From S2P Require Import Prelude.
From S2P Require Import Effects.
From S2P Require Import QrtrPkt.
From S2P Require Import AfQrtr.
#[local] Open Scope kernel_scope.

(** ** The router above *)

Class Endpoint := {
  ep_state : Type;
  ep_post : list Z -> M ep_state Z;
  ep_register : M ep_state Z;
  ep_unregister : M ep_state unit;
}.

(** ** Constants *)

Definition GUNYAH_MAGIC_KEY : Z := 608784451.

Definition FIFO_SIZE : Z := 16384.

Definition FIFO_FULL_RESERVE : Z := 8.

Definition FIFO_0_START : Z := 4096.

Definition FIFO_1_START : Z := FIFO_0_START + FIFO_SIZE.

Definition GUNYAH_MAGIC_IDX : Z := 0.

Definition TAIL_0_IDX : Z := 1.

Definition HEAD_0_IDX : Z := 2.

Definition TAIL_1_IDX : Z := 3.

Definition HEAD_1_IDX : Z := 4.

Definition NOTIFY_0_IDX : Z := 5.

Definition NOTIFY_1_IDX : Z := 6.

(** [SZ_64K + SZ_32] *)
Definition MAX_PKT_SZ : Z := 65536 + 32.

Inductive vm_event := GH_VM_BEFORE_POWERUP | GH_VM_POWERUP_FAIL | GH_VM_EARLY_POWEROFF | GH_VM_OTHER.

(** ** Data *)

Record gunyah_ring := mk_ring { r_buf : list Z; r_len : Z; r_offset : Z }.

#[export] Instance eta_ring : Settable gunyah_ring := fun r => mk_ring (r_buf r) (r_len r) (r_offset r).

(** Addresses in the shared memory, and the length of the buffer. *)
Record gunyah_pipe := mk_gpipe {
  p_tail : Z;
  p_head : Z;
  p_read_notify : Z;
  p_fifo : Z;
  p_length : Z;
}.

Record qrtr_gunyah_dev := mk_gdev {
  ring : gunyah_ring;
  base : Z;
  master : bool;
  peer_name : Z;
  registered : bool;
  work_pending : bool;
  tx_pipe : gunyah_pipe;
  rx_pipe : gunyah_pipe;
}.

#[export] Instance eta_gdev : Settable qrtr_gunyah_dev := fun d =>
  mk_gdev (ring d) (base d) (master d) (peer_name d) (registered d) (work_pending d) (tx_pipe d) (rx_pipe d).

Inductive gevent :=
| EvDoorbell (ret : Z)
| EvFreeSkb
| EvCall.

Section Machine.
Context {EP : Endpoint}.

(** What a machine holds: [v_lent], its memory is assigned to the peer as well;
    [v_parcel], the hypervisor shares it; the notifier and the doorbells. *)
Record vm := mk_vm {
  v_dev : qrtr_gunyah_dev;
  v_ep : ep_state;
  v_dbl_lock : bool;
  v_state_lock : bool;
  v_lent : bool;
  v_parcel : bool;
  v_notifier : bool;
  v_tx_dbl : bool;
  v_rx_dbl : bool;
  v_dma : bool;
  v_log : list gevent;
}.

#[export] Instance eta_vm : Settable vm := fun v =>
  mk_vm (v_dev v) (v_ep v) (v_dbl_lock v) (v_state_lock v) (v_lent v) (v_parcel v) (v_notifier v) (v_tx_dbl v) (v_rx_dbl v)
    (v_dma v) (v_log v).

Record gstate := mk_g { g_mem : mem; g_vm : vm; g_peer : vm }.

#[export] Instance eta_g : Settable gstate := fun g => mk_g (g_mem g) (g_vm g) (g_peer g).

(** What the hypervisor and the rest of the kernel answer; a call is told apart
    from the others by the number of calls before it. *)
Record gunyah_env := mk_genv {
  e_dbl_send : nat -> Z;                (* gh_dbl_send *)
  e_timeout : nat;                      (* ten seconds, in turns of others *)
  e_stack : list Z;                     (* the eight words of a local array *)
  e_sgvec : nat -> Z;                   (* skb_to_sgvec *)
  e_get_vmid : Z -> nat -> option Z;    (* ghd_rm_get_vmid *)
  e_assign : nat -> Z;                  (* qcom_scm_assign_mem *)
  e_kzalloc : nat -> bool;
  e_mem_share : nat -> Z;               (* ghd_rm_mem_share *)
  e_reclaim : nat -> Z;                 (* ghd_rm_mem_reclaim *)
}.

Context (env : gunyah_env).

Abbreviation M := (M gstate).

(** ** The machine *)

Definition upd_vm (f : vm -> vm) : M unit := modify (fun g => g <| g_vm := f (g_vm g) |>).

Definition get_dev : M qrtr_gunyah_dev := gets (fun g => v_dev (g_vm g)).

Definition upd_dev (f : qrtr_gunyah_dev -> qrtr_gunyah_dev) : M unit := upd_vm (fun v => v <| v_dev := f (v_dev v) |>).

Definition emit (e : gevent) : M unit := upd_vm (fun v => v <| v_log := e :: v_log v |>).

(** The answer to the next call. *)
Definition answer {A : Type} (f : nat -> A) : M A :=
  k <-- gets (fun g => length (v_log (g_vm g))) ;;;
  emit EvCall ;;;
  mret (f k).

Definition put_ep (e : ep_state) (g : gstate) : gstate := g <| g_vm := (g_vm g) <| v_ep := e |> |>.

(** A call of the router. *)
Definition router {A : Type} (c : Effects.M ep_state A) : M A := fun w =>
  match c (W (v_ep (g_vm (w_st w)))) with
  | Ret a w' => Ret a (with_st w (put_ep (w_st w') (w_st w)))
  | Fault => Fault
  | Blocked => Blocked
  | NoFuel => NoFuel
  end.

(** ** Shared memory *)

Definition rd_shared (a : Z) : M Z := yield ;;; gets (fun g => rd32 (g_mem g) a).

Definition wr_shared (a v : Z) : M unit := yield ;;; modify (fun g => g <| g_mem := wr32 (g_mem g) a v |>).

(** [memcpy_fromio(_, fifo + off, n)] *)
Definition copy_fromio (p : gunyah_pipe) (off n : Z) : M (list Z) :=
  if n =? 0 then mret []
  else if (0 <=? off) && (off + n <=? p_length p) then yield ;;; gets (fun g => load_bytes (Z.to_nat n) (g_mem g) (p_fifo p + off))
  else fault.

(** [memcpy_toio(fifo + off, bs, _)] *)
Definition copy_toio (p : gunyah_pipe) (off : Z) (bs : list Z) : M unit :=
  if Z.of_nat (length bs) =? 0 then mret tt
  else if (0 <=? off) && (off + Z.of_nat (length bs) <=? p_length p) then
    yield ;;; modify (fun g => g <| g_mem := store_bytes (g_mem g) (p_fifo p + off) bs |>)
  else fault.

(** ** Doorbells *)

Definition gh_dbl_send : M Z :=
  k <-- gets (fun g => length (v_log (g_vm g))) ;;;
  emit (EvDoorbell (e_dbl_send env k)) ;;;
  mret (e_dbl_send env k).

Definition qrtr_gunyah_kick : M unit :=
  ret <-- gh_dbl_send ;;;
  d <-- get_dev ;;;
  if truth ret && negb (master d) then upd_dev (fun d => d <| work_pending := true |>) else mret tt.

Definition qrtr_gunyah_retry_work : M unit := upd_dev (fun d => d <| work_pending := false |>) ;;; gh_dbl_send ;;; mret tt.

(** ** The receive pipe *)

(** [size_t] arithmetic on the two indices. *)
Definition rx_count (length head tail : Z) : Z :=
  let len := if head <? tail then u64 (length - tail + head) else head - tail in
  if length <? len then 0 else len.

Definition gunyah_rx_avail (p : gunyah_pipe) : M Z :=
  head <-- rd_shared (p_head p) ;;;
  tail <-- rd_shared (p_tail p) ;;;
  mret (rx_count (p_length p) head tail).

(** [data] is what the destination holds; its first [count] bytes are replaced,
    unless the tail is found out of range. *)
Definition gunyah_rx_peak (p : gunyah_pipe) (data : list Z) (offset count : Z) : M (list Z) :=
  tail <-- rd_shared (p_tail p) ;;;
  let tail := u32 (tail + offset) in
  let tail := if p_length p <=? tail then u32 (tail - p_length p) else tail in
  if p_length p <? tail then mret data
  else
    let len := Z.min count (p_length p - tail) in
    b1 <-- copy_fromio p tail len ;;;
    b2 <-- copy_fromio p 0 (count - len) ;;;
    mret (b1 ++ b2 ++ drop (Z.to_nat count) data).

Definition gunyah_rx_advance (p : gunyah_pipe) (count : Z) : M unit :=
  tail <-- rd_shared (p_tail p) ;;;
  let tail := u32 (tail + count) in
  if p_length p <=? tail then
    if p_length p =? 0 then fault else wr_shared (p_tail p) (tail mod p_length p)
  else wr_shared (p_tail p) tail.

(** ** The transmit pipe *)

(** [u32] arithmetic. *)
Definition free_room (length head tail : Z) : Z :=
  let avail := if tail <=? head then u32 (length - head + tail) else tail - head in
  let avail := if avail <? FIFO_FULL_RESERVE then 0 else avail - FIFO_FULL_RESERVE in
  if length <? head then 0 else avail.

Definition gunyah_tx_avail (p : gunyah_pipe) : M Z :=
  head <-- rd_shared (p_head p) ;;;
  tail <-- rd_shared (p_tail p) ;;;
  mret (free_room (p_length p) head tail).

(** The new head. *)
Definition tx_advance (p : gunyah_pipe) (head count : Z) : M unit :=
  let head := u32 (head + count) in
  wr_shared (p_head p) (if p_length p <=? head then u32 (head - p_length p) else head).

Definition gunyah_tx_write (p : gunyah_pipe) (data : list Z) : M unit :=
  head <-- rd_shared (p_head p) ;;;
  if p_length p <? head then mret tt
  else
    let count := Z.of_nat (length data) in
    let len := Z.to_nat (Z.min count (p_length p - head)) in
    copy_toio p head (take len data) ;;;
    copy_toio p 0 (drop len data) ;;;
    tx_advance p head count.

(** The pieces of a scatterlist after the first [skip] bytes; [None] when there
    are not that many. *)
Fixpoint sg_miter_skip (sg : list (list Z)) (skip : nat) : option (list (list Z)) :=
  match sg with
  | [] => if (skip =? 0)%nat then Some [] else None
  | piece :: sg' => if (skip <? length piece)%nat then Some (drop skip piece :: sg') else sg_miter_skip sg' (skip - length piece)
  end.

Fixpoint copy_pieces (p : gunyah_pipe) (pos buflen : Z) (sg : list (list Z)) (offset : Z) : M Z :=
  match sg with
  | [] => mret offset
  | piece :: sg' =>
      if offset <? buflen then
        let len := Z.min (Z.of_nat (length piece)) (buflen - offset) in
        copy_toio p (pos + offset) (take (Z.to_nat len) piece) ;;;
        copy_pieces p pos buflen sg' (offset + len)
      else mret offset
  end.

(** Copy to position [pos] of the buffer; how many bytes. *)
Definition gunyah_sg_copy_toio (p : gunyah_pipe) (sg : list (list Z)) (pos buflen skip : Z) : M Z :=
  match sg_miter_skip sg (Z.to_nat skip) with
  | None => mret 0
  | Some sg => copy_pieces p pos buflen sg 0
  end.

Definition gunyah_sg_write (p : gunyah_pipe) (sg : list (list Z)) (offset count : Z) : M unit :=
  head <-- rd_shared (p_head p) ;;;
  if p_length p <? head then mret tt
  else
    let len := Z.min count (p_length p - head) in
    offset <-- (if truth len then rc <-- gunyah_sg_copy_toio p sg head len offset ;;; mret (offset + rc) else mret offset) ;;;
    (if negb (len =? count) then gunyah_sg_copy_toio p sg 0 (count - len) offset ;;; mret tt else mret tt) ;;;
    tx_advance p head count.

Definition gunyah_set_tx_notify : M unit := d <-- get_dev ;;; wr_shared (p_read_notify (tx_pipe d)) 1.

Definition gunyah_clr_tx_notify : M unit := d <-- get_dev ;;; wr_shared (p_read_notify (tx_pipe d)) 0.

Definition gunyah_get_read_notify : M bool :=
  d <-- get_dev ;;;
  v <-- rd_shared (p_read_notify (rx_pipe d)) ;;;
  mret (truth v).

Definition tx_has_room (g : gstate) : bool :=
  let p := tx_pipe (v_dev (g_vm g)) in truth (free_room (p_length p) (rd32 (g_mem g) (p_head p)) (rd32 (g_mem g) (p_tail p))).

Definition gunyah_wait_for_tx_avail : M bool :=
  gunyah_set_tx_notify ;;;
  qrtr_gunyah_kick ;;;
  wait_upto (e_timeout env) tx_has_room.

(** The linear part of a packet and its fragments. *)
Fixpoint cut_pieces (sizes : list Z) (bs : list Z) : list (list Z) :=
  match sizes with
  | [] => []
  | n :: sizes' => take (Z.to_nat n) bs :: cut_pieces sizes' (drop (Z.to_nat n) bs)
  end.

Definition skb_pieces (skb : sk_buff) : list (list Z) := cut_pieces ((skb_len skb - skb_data_len skb) :: skb_frags skb) (skb_bytes skb).

Definition write_chunk (skb : sk_buff) (offset chunk_size : Z) : M Z :=
  d <-- get_dev ;;;
  if truth (skb_data_len skb) then
    rc <-- answer (e_sgvec env) ;;;
    if rc <? 0 then mret rc
    else gunyah_sg_write (tx_pipe d) (skb_pieces skb) offset chunk_size ;;; mret rc
  else
    gunyah_tx_write (tx_pipe d) (take (Z.to_nat chunk_size) (drop (Z.to_nat offset) (skb_bytes skb))) ;;; mret 0.

(** What is left of a packet; the return code. *)
Fixpoint send_loop (fuel : nat) (skb : sk_buff) (offset left_size rc : Z) : M Z :=
  if left_size <=? 0 then mret rc
  else
    match fuel with
    | O => fun _ => NoFuel
    | S fuel' =>
        d <-- get_dev ;;;
        tx_avail <-- gunyah_tx_avail (tx_pipe d) ;;;
        if tx_avail =? 0 then
          ok <-- gunyah_wait_for_tx_avail ;;;
          if ok : bool then send_loop fuel' skb offset left_size rc else mret (- ETIMEDOUT)
        else
          let chunk_size := if tx_avail <? left_size then tx_avail else left_size in
          rc <-- write_chunk skb offset chunk_size ;;;
          if rc <? 0 then mret rc
          else qrtr_gunyah_kick ;;; send_loop fuel' skb (offset + chunk_size) (left_size - chunk_size) rc
    end.

Definition qrtr_gunyah_send (fuel : nat) (skb : sk_buff) : M Z :=
  rc <-- send_loop fuel skb 0 (skb_len skb) 0 ;;;
  gunyah_clr_tx_notify ;;;
  emit EvFreeSkb ;;;
  mret (if rc <? 0 then rc else 0).

(** ** Reading *)

Definition upd_ring (f : gunyah_ring -> gunyah_ring) : M unit := upd_dev (fun d => d <| ring := f (ring d) |>).

(** Copy into the bounce buffer at an offset. *)
Definition peak_ring (p : gunyah_pipe) (off count : Z) : M unit :=
  d <-- get_dev ;;;
  let r := ring d in
  if (0 <=? off) && (off + count <=? Z.of_nat (length (r_buf r))) then
    bs <-- gunyah_rx_peak p (drop (Z.to_nat off) (r_buf r)) 0 count ;;;
    upd_ring (fun r => r <| r_buf := take (Z.to_nat off) (r_buf r) ++ bs |>)
  else fault.

Definition post_ring (pkt_len : Z) : M unit :=
  d <-- get_dev ;;;
  router (ep_post (take (Z.to_nat pkt_len) (r_buf (ring d)))) ;;;
  mret tt.

Definition qrtr_gunyah_read_new : M unit :=
  d <-- get_dev ;;;
  let p := rx_pipe d in
  hdr <-- gunyah_rx_peak p (e_stack env) 0 32 ;;;
  pkt_len <-- or_fault (qrtr_peek_pkt_size hdr) ;;;
  if (pkt_len <? 0) || (MAX_PKT_SZ <? pkt_len) then
    rx_avail <-- gunyah_rx_avail p ;;;
    gunyah_rx_advance p rx_avail
  else
    rx_avail <-- gunyah_rx_avail p ;;;
    let rx_avail := Z.min rx_avail pkt_len in
    peak_ring p 0 rx_avail ;;;
    gunyah_rx_advance p rx_avail ;;;
    if rx_avail =? pkt_len then post_ring pkt_len
    else upd_ring (fun r => r <| r_len := pkt_len |> <| r_offset := rx_avail |>).

Definition qrtr_gunyah_read_frag : M unit :=
  d <-- get_dev ;;;
  let p := rx_pipe d in
  let r := ring d in
  rx_avail <-- gunyah_rx_avail p ;;;
  let rx_avail := if r_len r <? rx_avail + r_offset r then r_len r - r_offset r else rx_avail in
  peak_ring p (r_offset r) rx_avail ;;;
  gunyah_rx_advance p rx_avail ;;;
  if rx_avail + r_offset r =? r_len r then post_ring (r_len r) ;;; upd_ring (fun r => r <| r_offset := 0 |> <| r_len := 0 |>)
  else upd_ring (fun r => r <| r_offset := r_offset r + rx_avail |>).

Fixpoint read_loop (fuel : nat) : M unit :=
  d <-- get_dev ;;;
  n <-- gunyah_rx_avail (rx_pipe d) ;;;
  if n =? 0 then mret tt
  else
    match fuel with
    | O => fun _ => NoFuel
    | S fuel' =>
        (if truth (r_offset (ring d)) then qrtr_gunyah_read_frag else qrtr_gunyah_read_new) ;;;
        notify <-- gunyah_get_read_notify ;;;
        (if notify : bool then qrtr_gunyah_kick else mret tt) ;;;
        read_loop fuel'
    end.

(** Waking the senders has no effect of its own: each evaluates its condition
    again. *)
Definition qrtr_gunyah_read (fuel : nat) : M unit :=
  wait_until (fun g => negb (v_dbl_lock (g_vm g))) ;;;
  upd_vm (fun v => v <| v_dbl_lock := true |>) ;;;
  read_loop fuel ;;;
  upd_vm (fun v => v <| v_dbl_lock := false |>).

Definition qrtr_gunyah_cb (fuel : nat) : M unit := qrtr_gunyah_read fuel.

(** ** Set-up of the shared memory *)

Definition index_word (b idx : Z) : Z := b + 4 * idx.

Definition zero_descs (b : Z) (m : mem) : mem := store_bytes m b (replicate 40 0).

Definition pipe_0 (b : Z) : gunyah_pipe := mk_gpipe (index_word b TAIL_0_IDX) (index_word b HEAD_0_IDX) (index_word b NOTIFY_0_IDX) (b + FIFO_0_START)
  FIFO_SIZE.

Definition pipe_1 (b : Z) : gunyah_pipe := mk_gpipe (index_word b TAIL_1_IDX) (index_word b HEAD_1_IDX) (index_word b NOTIFY_1_IDX) (b + FIFO_1_START)
  FIFO_SIZE.

Definition qrtr_gunyah_fifo_init : M unit :=
  d <-- get_dev ;;;
  let b := base d in
  (if master d then modify (fun g => g <| g_mem := zero_descs b (g_mem g) |>) else mret tt) ;;;
  wr_shared (index_word b GUNYAH_MAGIC_IDX) GUNYAH_MAGIC_KEY ;;;
  let '(tx, rx) := if master d then (pipe_0 b, pipe_1 b) else (pipe_1 b, pipe_0 b) in
  upd_dev (fun d => d <| tx_pipe := tx |> <| rx_pipe := rx |>) ;;;
  wr_shared (p_head tx) 0 ;;;
  wr_shared (p_read_notify tx) 0 ;;;
  wr_shared (p_tail rx) 0.

(** ** Sharing the memory *)

Definition qrtr_gunyah_share_mem : M Z :=
  ret <-- answer (e_assign env) ;;;
  if truth ret then mret ret
  else
    upd_vm (fun v => v <| v_lent := true |>) ;;;
    acl <-- answer (e_kzalloc env) ;;;
    if negb acl then mret (- ENOMEM)
    else
      sgl <-- answer (e_kzalloc env) ;;;
      if negb sgl then mret (- ENOMEM)
      else
        ret <-- answer (e_mem_share env) ;;;
        (if truth ret then
           back <-- answer (e_assign env) ;;;
           if truth back then mret tt else upd_vm (fun v => v <| v_lent := false |>)
         else upd_vm (fun v => v <| v_parcel := true |>)) ;;;
        mret ret.

Definition qrtr_gunyah_unshare_mem : M unit :=
  ret <-- answer (e_reclaim env) ;;;
  (if truth ret then mret tt else upd_vm (fun v => v <| v_parcel := false |>)) ;;;
  ret <-- answer (e_assign env) ;;;
  if truth ret then mret tt else upd_vm (fun v => v <| v_lent := false |>).

(** ** Events of the peer *)

Definition GH_PRIMARY_VM : Z := 1.

Definition lock_state : M unit := wait_until (fun g => negb (v_state_lock (g_vm g))) ;;; upd_vm (fun v => v <| v_state_lock := true |>).

Definition unlock_state : M unit := upd_vm (fun v => v <| v_state_lock := false |>).

Definition before_powerup : M unit :=
  d <-- get_dev ;;;
  if registered d then mret tt
  else
    qrtr_gunyah_fifo_init ;;;
    ret <-- router ep_register ;;;
    if truth ret then mret tt
    else
      ret <-- qrtr_gunyah_share_mem ;;;
      if truth ret then router ep_unregister
      else upd_dev (fun d => d <| registered := true |>).

Definition powered_off : M unit :=
  d <-- get_dev ;;;
  if registered d then
    router ep_unregister ;;;
    qrtr_gunyah_unshare_mem ;;;
    upd_dev (fun d => d <| registered := false |>)
  else mret tt.

(** The notifier; [data] is the machine that the event is about. *)
Definition qrtr_gunyah_vm_cb (cmd : vm_event) (data : option Z) : M unit :=
  match data with
  | None => mret tt
  | Some vmid =>
      d <-- get_dev ;;;
      peer <-- answer (e_get_vmid env (peer_name d)) ;;;
      match peer with
      | None => mret tt
      | Some peer_vmid =>
          self <-- answer (e_get_vmid env GH_PRIMARY_VM) ;;;
          match self with
          | None => mret tt
          | Some _ =>
              if negb (peer_vmid =? vmid) then mret tt
              else
                lock_state ;;;
                match cmd with
                | GH_VM_BEFORE_POWERUP => before_powerup
                | GH_VM_POWERUP_FAIL | GH_VM_EARLY_POWEROFF => powered_off
                | GH_VM_OTHER => mret tt
                end ;;;
                unlock_state
          end
      end
  end.

(** ** Probe and removal *)

(** What the device tree and the kernel answer during the probe, in the order of
    the questions. [pe_node] is the phandle of the shared buffer; an [Ok] of 0
    is the null pointer. *)
Record probe_env := mk_probe {
  pe_kzalloc : bool;
  pe_ring : bool;
  pe_label : Z;
  pe_master : bool;
  pe_node : bool;
  pe_dma : option Z;
  pe_resource : Z;
  pe_ioremap : result Z;
  pe_peer_name : option Z;
  pe_tx_dbl : result Z;
  pe_rx_dbl : result Z;
}.

Definition GH_SELF_VM : Z := 0.

Definition no_pipe : gunyah_pipe := mk_gpipe 0 0 0 0 0.

Definition zero_dev : qrtr_gunyah_dev := mk_gdev (mk_ring [] 0 0) 0 false 0 false false no_pipe no_pipe.

Definition set_base (b : Z) : M unit := upd_dev (fun d => d <| base := b |>).

Definition qrtr_gunyah_map_memory (pe : probe_env) : M Z :=
  if negb (pe_node pe) then
    if pe_master pe then
      match pe_dma pe with
      | None => mret (- ENOMEM)
      | Some b => upd_vm (fun v => v <| v_dma := true |>) ;;; set_base b ;;; mret 0
      end
    else mret (- EINVAL)
  else if truth (pe_resource pe) then mret (- EINVAL)
  else match pe_ioremap pe with Err e => mret e | Ok b => set_base b ;;; mret 0 end.

(** [PTR_ERR] of a pointer that [IS_ERR_OR_NULL] takes, which is 0 for null. *)
Definition err_or_null (r : result Z) : option Z := match r with Err e => Some e | Ok a => if a =? 0 then Some 0 else None end.

Definition notifier_fail (ret : Z) : M Z :=
  d <-- get_dev ;;;
  (if master d then upd_vm (fun v => v <| v_notifier := false |>) else mret tt) ;;;
  mret ret.

Definition register_fail (ret : Z) : M Z :=
  upd_dev (fun d => d <| work_pending := false |>) ;;;
  upd_vm (fun v => v <| v_tx_dbl := false |>) ;;;
  notifier_fail ret.

(** From the doorbells on; [yield]: the notifier may run. *)
Definition probe_doorbells (pe : probe_env) (fuel : nat) : M Z :=
  yield ;;;
  match err_or_null (pe_tx_dbl pe) with
  | Some ret => notifier_fail ret
  | None =>
      upd_vm (fun v => v <| v_tx_dbl := true |>) ;;;
      d <-- get_dev ;;;
      ret <-- (if master d then mret 0 else router ep_register) ;;;
      if truth ret then register_fail ret
      else
        yield ;;;
        match err_or_null (pe_rx_dbl pe) with
        | Some ret => router ep_unregister ;;; register_fail ret
        | None =>
            upd_vm (fun v => v <| v_rx_dbl := true |>) ;;;
            d <-- get_dev ;;;
            if master d then mret 0
            else
              n <-- gunyah_rx_avail (rx_pipe d) ;;;
              (if truth n then qrtr_gunyah_read fuel else mret tt) ;;;
              mret 0
        end
  end.

Definition qrtr_gunyah_probe (pe : probe_env) (fuel : nat) : M Z :=
  if negb (pe_kzalloc pe) then mret (- ENOMEM)
  else
    upd_vm (fun v => v <| v_dev := zero_dev |>) ;;;
    if negb (pe_ring pe) then mret (- ENOMEM)
    else
      upd_ring (fun r => r <| r_buf := replicate (Z.to_nat MAX_PKT_SZ) 0 |>) ;;;
      if truth (pe_label pe) then mret (pe_label pe)
      else
        upd_dev (fun d => d <| master := pe_master pe |>) ;;;
        ret <-- qrtr_gunyah_map_memory pe ;;;
        if truth ret then mret ret
        else
          (if pe_master pe then
             upd_dev (fun d => d <| peer_name := default GH_SELF_VM (pe_peer_name pe) |>) ;;;
             upd_vm (fun v => v <| v_notifier := true |>)
           else qrtr_gunyah_fifo_init) ;;;
          probe_doorbells pe fuel.

(** [node]: whether the device tree names the shared buffer. *)
Definition qrtr_gunyah_remove (node : bool) : M unit :=
  upd_dev (fun d => d <| work_pending := false |>) ;;;
  upd_vm (fun v => v <| v_tx_dbl := false |> <| v_rx_dbl := false |>) ;;;
  d <-- get_dev ;;;
  if negb (master d) then mret tt
  else
    upd_vm (fun v => v <| v_notifier := false |>) ;;;
    peer <-- answer (e_get_vmid env (peer_name d)) ;;;
    match peer with
    | None => mret tt
    | Some _ =>
        self <-- answer (e_get_vmid env GH_PRIMARY_VM) ;;;
        match self with
        | None => mret tt
        | Some _ =>
            qrtr_gunyah_unshare_mem ;;;
            if node then mret tt else upd_vm (fun v => v <| v_dma := false |>)
        end
    end.
End Machine.
