(* ===== verification/GunyahRx.v ===== *)
(** * GunyahRx: reading what another machine writes

    The promise [EndpointLaws] of the router to its transport, and the safety of
    the reader of src/net/qrtr/gunyah.c: whatever the other machine writes to the
    shared memory, and whenever, the reader stays inside the buffers. *)
From stdpp Require Import prelude list.
From S2P Require Import Prelude.
From S2P Require Import Effects.
From S2P Require Import QrtrPkt.
From S2P Require Import Gunyah.
#[local] Open Scope kernel_scope.

(** ** What the router promises *)

(** [ep_ok]: a consistent state of the router, with the endpoint registered. *)
Class EndpointLaws (EP : Endpoint) := {
  ep_ok : ep_state -> Prop;
  ep_post_ok : forall data st, ep_ok st -> is_bytes data -> total (ep_post data (W st)) (fun _ => ep_ok);
}.

Section Rx.
Context {EP : Endpoint} {EL : EndpointLaws EP} (env : gunyah_env).

(** ** The state of a reader *)

Record ring_ok (rg : gunyah_ring) : Prop := {
  ro_buf : Z.of_nat (length (r_buf rg)) = MAX_PKT_SZ;
  ro_bytes : is_bytes (r_buf rg);
  ro_len : 0 <= r_len rg <= MAX_PKT_SZ;
  ro_offset : r_offset rg = 0 \/ 0 < r_offset rg < r_len rg;
}.

(** The words on the stack that the header is read into. *)
Definition stack_ok : Prop := length (e_stack env) = 32%nat /\ is_bytes (e_stack env).

Context (Hstack : stack_ok).

(** The reader has the ring [rg] and the pipe [p]. *)
Record reads (rg : gunyah_ring) (p : gunyah_pipe) (g : gstate) : Prop := {
  rd_mem : bytes_ok (g_mem g);
  rd_ring : ring (v_dev (g_vm g)) = rg;
  rd_pipe : rx_pipe (v_dev (g_vm g)) = p;
  rd_ep : ep_ok (v_ep (g_vm g));
}.

(** Whatever others do to the shared memory, to the router and to the rest of
    the device, they leave the reader's ring and pipe alone. *)
Definition foreign (f : gstate -> gstate) : Prop := forall rg p g, reads rg p g -> reads rg p (f g).

Definition at_ (rg : gunyah_ring) (p : gunyah_pipe) (w : world gstate) : Prop := reads rg p (w_st w) /\ Forall foreign (w_sched w).

Section Pipe.
Context (rg : gunyah_ring) (p : gunyah_pipe) (Hp : p_length p = FIFO_SIZE).

Lemma yield_safe w : at_ rg p w -> sure (yield w) (fun _ => at_ rg p).
Proof. intros [H Hs]. unfold yield. destruct (w_sched w) as [|f sched] eqn:E; [by split; rewrite ?E|]. inversion Hs. split; cbn; [auto|done]. Qed.

Lemma rd_shared_safe a w : at_ rg p w -> sure (rd_shared a w) (fun v w' => 0 <= v < 2 ^ 32 /\ at_ rg p w').
Proof.
  intros H. unfold rd_shared. eapply sure_step; [by apply yield_safe|]. intros [] w' Hw. cbn. split; [|done]. apply rd32_bound, Hw.
Qed.

Lemma set_mem_at w m : at_ rg p w -> bytes_ok m -> at_ rg p (with_st w ((w_st w) <| g_mem := m |>)).
Proof. intros [[] Hs] Hm. split; [split|]; done. Qed.

Lemma wr_shared_safe a v w : at_ rg p w -> sure (wr_shared a v w) (fun _ => at_ rg p).
Proof.
  intros H. unfold wr_shared. eapply sure_step; [by apply yield_safe|]. intros [] w' Hw. apply set_mem_at; [done|]. apply (bytes_ok_store_le 4), Hw.
Qed.

Lemma fifo_read_safe off n w : at_ rg p w -> 0 <= off -> 0 <= n -> off + n <= FIFO_SIZE ->
  sure (copy_fromio p off n w) (fun bs w' => Z.of_nat (length bs) = n /\ is_bytes bs /\ at_ rg p w').
Proof.
  intros H ???. unfold copy_fromio. destruct (Z.eqb_spec n 0) as [->|]; [split; [done|]; split; [constructor|done]|].
  rewrite Hp, (proj2 (Z.leb_le 0 off)), (proj2 (Z.leb_le (off + n) _)) by lia. eapply sure_step; [by apply yield_safe|]. intros [] w' Hw.
  cbn. rewrite length_load_bytes. split; [lia|]. split; [|done]. apply load_bytes_ok, Hw.
Qed.

Lemma rx_len_range h t : 0 <= h < 2 ^ 32 -> 0 <= t < 2 ^ 32 -> 0 <= rx_count FIFO_SIZE h t <= FIFO_SIZE.
Proof.
  intros Hh Ht. unfold rx_count. assert (0 <= (if h <? t then u64 (FIFO_SIZE - t + h) else h - t)) as Hu.
  { destruct (Z.ltb_spec h t); [apply Z.mod_pos_bound; lia|lia]. }
  destruct (Z.ltb_spec FIFO_SIZE (if h <? t then u64 (FIFO_SIZE - t + h) else h - t)); [|lia]. unfold FIFO_SIZE. lia.
Qed.

Lemma rx_avail_safe w : at_ rg p w -> sure (gunyah_rx_avail p w) (fun n w' => 0 <= n <= FIFO_SIZE /\ at_ rg p w').
Proof.
  intros H. unfold gunyah_rx_avail. eapply sure_step; [by apply rd_shared_safe|]. intros h w1 [Hh H1].
  eapply sure_step; [by apply rd_shared_safe|]. intros t w2 [Ht H2]. split; [|done]. rewrite Hp. by apply rx_len_range.
Qed.

Lemma rx_peak_safe data count w : at_ rg p w -> is_bytes data -> 0 <= count <= FIFO_SIZE -> count <= Z.of_nat (length data) ->
  sure (gunyah_rx_peak p data 0 count w) (fun bs w' => length bs = length data /\ is_bytes bs /\ at_ rg p w').
Proof.
  intros H Hd Hc Hl. unfold gunyah_rx_peak. eapply sure_step; [by apply rd_shared_safe|]. intros t w1 [Ht H1]. cbv beta zeta.
  rewrite Z.add_0_r, (u32_small t), Hp by done. set (t' := if FIFO_SIZE <=? t then u32 (t - FIFO_SIZE) else t).
  assert (0 <= t') as Ht'. { subst t'. destruct (FIFO_SIZE <=? t); [apply u32_range|lia]. }
  destruct (Z.ltb_spec FIFO_SIZE t'); [by split_and!|].
  eapply sure_step; [apply (fifo_read_safe t' (Z.min count (FIFO_SIZE - t'))); [done|lia..]|]. intros b1 w2 (L1 & B1 & H2).
  eapply sure_step; [apply (fifo_read_safe 0 (count - Z.min count (FIFO_SIZE - t'))); [done|lia..]|]. intros b2 w3 (L2 & B2 & H3).
  split; [rewrite !length_app, length_drop; lia|]. split; [|done]. repeat apply Forall_app_2; [done..|by apply Forall_drop].
Qed.

Lemma rx_advance_safe count w : at_ rg p w -> sure (gunyah_rx_advance p count w) (fun _ => at_ rg p).
Proof.
  intros H. unfold gunyah_rx_advance. eapply sure_step; [by apply rd_shared_safe|]. intros t w1 [Ht H1]. cbv beta zeta. rewrite Hp.
  change (FIFO_SIZE =? 0) with false. cbn iota. destruct (_ <=? _); by apply wr_shared_safe.
Qed.

(** Machines only ring and note what happened. *)
Lemma upd_vm_at w f : at_ rg p w -> (forall v, ring (v_dev (f v)) = ring (v_dev v)) -> (forall v, rx_pipe (v_dev (f v)) = rx_pipe (v_dev v)) ->
  (forall v, v_ep (f v) = v_ep v) -> sure (upd_vm f w) (fun _ => at_ rg p).
Proof. intros [[] Hs] H1 H2 H3. cbn. split; [split|]; cbn; try done; by rewrite ?H1, ?H2, ?H3. Qed.

Lemma kick_safe w : at_ rg p w -> sure (qrtr_gunyah_kick env w) (fun _ => at_ rg p).
Proof.
  intros H. unfold qrtr_gunyah_kick, gh_dbl_send, emit. rewrite run_assoc, run_gets, run_assoc. eapply sure_step; [by apply upd_vm_at|]. intros [] w' Hw.
  rewrite run_ret. unfold get_dev. rewrite run_gets. destruct (_ && _); [|done]. unfold upd_dev. by apply upd_vm_at.
Qed.

Lemma post_ring_safe n w : at_ rg p w -> is_bytes (r_buf rg) -> sure (post_ring n w) (fun _ => at_ rg p).
Proof.
  intros [[Hm Er Ep He] Hs] Hb. unfold post_ring, get_dev. rewrite run_gets, Er. unfold router, mbnd.
  pose proof (ep_post_ok (take (Z.to_nat n) (r_buf rg)) _ He ltac:(by apply Forall_take)) as Hpost.
  apply total_run in Hpost as (a & st & -> & Hst). cbn. split; [split|]; cbn; done.
Qed.
End Pipe.

(** The ring after a copy into it. *)
Definition copied (rg rg' : gunyah_ring) : Prop :=
  length (r_buf rg') = length (r_buf rg) /\ is_bytes (r_buf rg') /\ r_len rg' = r_len rg /\ r_offset rg' = r_offset rg.

Lemma upd_ring_at f rg p w : at_ rg p w -> sure (upd_ring f w) (fun _ => at_ (f rg) p).
Proof. intros [[Hm Er Ep He] Hs]. cbn. split; [split|]; cbn; try done. by rewrite Er. Qed.

Lemma peak_ring_safe rg p off count w : p_length p = FIFO_SIZE -> at_ rg p w -> is_bytes (r_buf rg) -> 0 <= off -> 0 <= count <= FIFO_SIZE ->
  off + count <= Z.of_nat (length (r_buf rg)) -> sure (peak_ring p off count w) (fun _ w' => exists rg', copied rg rg' /\ at_ rg' p w').
Proof.
  intros Hp H Hb Ho Hc Hl. unfold peak_ring, get_dev. rewrite run_gets, (rd_ring _ _ _ (proj1 H)).
  rewrite (proj2 (Z.leb_le 0 off)), (proj2 (Z.leb_le (off + count) _)) by lia. cbn [andb].
  eapply sure_step; [apply (rx_peak_safe rg p Hp); [done|by apply Forall_drop|done|rewrite length_drop; lia]|].
  intros bs w1 (Hlen & Hbs & H1). eapply sure_mono; [by apply (upd_ring_at _ rg p)|]. intros [] w2 H2. eexists. split; [|exact H2].
  rewrite length_drop in Hlen. split; cbn; [rewrite length_app, length_take; lia|]. split; [|done]. apply Forall_app_2; [by apply Forall_take|done].
Qed.

Lemma copied_ok rg rg' len off : ring_ok rg -> copied rg rg' -> 0 <= len <= MAX_PKT_SZ -> off = 0 \/ 0 < off < len ->
  ring_ok (rg' <| r_len := len |> <| r_offset := off |>).
Proof. intros [] (E & ? & _) ??. split; cbn; try done. by rewrite E. Qed.

(** ** The reader is safe *)

Lemma peek_some bs : length bs = 32%nat -> exists n, qrtr_peek_pkt_size bs = Some n.
Proof.
  intros Hl. unfold qrtr_peek_pkt_size. rewrite !field_some by lia. cbn [mbind option_bind].
  destruct (_ =? QRTR_PROTO_VER_1); [by eexists|]. destruct (_ =? QRTR_PROTO_VER_2); by eexists.
Qed.

Lemma read_new_safe rg p w : p_length p = FIFO_SIZE -> ring_ok rg -> at_ rg p w -> r_offset rg = 0 ->
  sure (qrtr_gunyah_read_new env w) (fun _ w' => exists rg', ring_ok rg' /\ at_ rg' p w').
Proof.
  intros Hp Hr H H0. pose proof Hr as [Hl Hb _ _]. unfold qrtr_gunyah_read_new, get_dev. rewrite run_gets, (rd_pipe _ _ _ (proj1 H)).
  destruct Hstack as [Hsl Hsb].
  eapply sure_step; [apply (rx_peak_safe rg p Hp); [done|done|unfold FIFO_SIZE; lia|lia]|]. intros hdr w1 (Lh & _ & H1).
  destruct (peek_some hdr) as [n ->]; [lia|]. rewrite run_or_fault.
  destruct (_ || _) eqn:En.
  { eapply sure_step; [by apply (rx_avail_safe rg p Hp)|]. intros a w2 [_ H2]. eapply sure_mono; [by apply (rx_advance_safe rg p Hp)|].
    intros [] w3 H3. by exists rg. }
  apply orb_false_iff in En as [En1%Z.ltb_ge En2%Z.ltb_ge].
  eapply sure_step; [by apply (rx_avail_safe rg p Hp)|]. intros a w2 [Ha H2]. cbv beta zeta.
  eapply sure_step; [apply (peak_ring_safe rg p); try done; unfold FIFO_SIZE, MAX_PKT_SZ in *; lia|]. intros [] w3 (rg1 & C1 & H3).
  eapply sure_step; [by apply (rx_advance_safe rg1 p Hp)|]. intros [] w4 H4.
  destruct (Z.eqb_spec (Z.min a n) n) as [|Hn].
  - eapply sure_mono; [apply (post_ring_safe rg1 p); [done|apply C1]|]. intros [] w5 H5. exists rg1. split; [|done].
    destruct Hr, C1 as (E1 & ? & E2 & E3). split; [by rewrite E1|done|by rewrite E2|by rewrite E2, E3].
  - eapply sure_mono; [by apply (upd_ring_at _ rg1 p)|]. intros [] w5 H5. eexists. split; [|exact H5]. apply (copied_ok rg); [done|done|lia|lia].
Qed.

Lemma read_frag_safe rg p w : p_length p = FIFO_SIZE -> ring_ok rg -> at_ rg p w -> r_offset rg <> 0 ->
  sure (qrtr_gunyah_read_frag w) (fun _ w' => exists rg', ring_ok rg' /\ at_ rg' p w').
Proof.
  intros Hp Hr H H0. pose proof Hr as [Hl Hb Hlen Hoff]. unfold qrtr_gunyah_read_frag, get_dev.
  rewrite run_gets, (rd_pipe _ _ _ (proj1 H)), (rd_ring _ _ _ (proj1 H)).
  eapply sure_step; [by apply (rx_avail_safe rg p Hp)|]. intros a w1 [Ha H1]. cbv beta zeta.
  set (n := if r_len rg <? a + r_offset rg then r_len rg - r_offset rg else a).
  assert (0 <= n <= FIFO_SIZE /\ n + r_offset rg <= r_len rg) as [Hn Hno] by (subst n; destruct (Z.ltb_spec (r_len rg) (a + r_offset rg)); lia).
  eapply sure_step; [apply (peak_ring_safe rg p); try done; lia|]. intros [] w2 (rg1 & C1 & H2).
  eapply sure_step; [by apply (rx_advance_safe rg1 p Hp)|]. intros [] w3 H3.
  destruct (Z.eqb_spec (n + r_offset rg) (r_len rg)) as [|Hne].
  - eapply sure_step; [apply (post_ring_safe rg1 p); [done|apply C1]|]. intros [] w4 H4. eapply sure_mono; [by apply (upd_ring_at _ rg1 p)|].
    intros [] w5 H5. eexists. split; [|exact H5]. destruct Hr, C1 as (E1 & ? & E2 & E3). split; cbn; [by rewrite E1|done|unfold MAX_PKT_SZ; lia|by left].
  - eapply sure_mono; [by apply (upd_ring_at _ rg1 p)|]. intros [] w5 H5. eexists. split; [|exact H5].
    destruct Hr, C1 as (E1 & ? & E2 & E3). split; cbn; [by rewrite E1|done|lia|lia].
Qed.

(** One turn of the loop. *)
Lemma turn_safe rg p w : p_length p = FIFO_SIZE -> ring_ok rg -> at_ rg p w ->
  sure ((if truth (r_offset rg) then qrtr_gunyah_read_frag else qrtr_gunyah_read_new env) w) (fun _ w' => exists rg', ring_ok rg' /\ at_ rg' p w').
Proof.
  intros Hp Hr H. unfold truth. destruct (Z.eqb_spec (r_offset rg) 0); cbn [negb]; [by apply (read_new_safe rg)|by apply (read_frag_safe rg)].
Qed.

Lemma notify_safe rg p w : at_ rg p w -> sure (gunyah_get_read_notify w) (fun _ => at_ rg p).
Proof.
  intros H. unfold gunyah_get_read_notify, get_dev. rewrite run_gets. eapply sure_step; [by apply rd_shared_safe|]. by intros v w' [_ ?].
Qed.

Lemma read_loop_safe p fuel : p_length p = FIFO_SIZE -> forall rg w, ring_ok rg -> at_ rg p w ->
  safe (read_loop env fuel w) (fun _ w' => exists rg', ring_ok rg' /\ at_ rg' p w').
Proof.
  intros Hp. induction fuel as [|fuel IH]; intros rg w Hr H; cbn [read_loop]; unfold get_dev;
    rewrite run_gets, (rd_pipe _ _ _ (proj1 H)), ?(rd_ring _ _ _ (proj1 H));
    (eapply safe_step; [apply sure_safe; by apply (rx_avail_safe rg p Hp)|]); intros n w1 [_ H1]; (destruct (n =? 0); [by exists rg|]); [done|].
  eapply safe_step; [apply sure_safe; by apply (turn_safe rg p)|]. intros [] w2 (rg2 & R2 & H2).
  eapply safe_step; [apply sure_safe; by apply (notify_safe rg2 p)|]. intros b w3 H3.
  eapply safe_step; [apply sure_safe; instantiate (1 := fun _ => at_ rg2 p); destruct b; [by apply kick_safe|done]|]. intros [] w4 H4. by apply (IH rg2).
Qed.

(** C14. Whatever the other machine writes to the indices, the buffers and the
    flags, and whenever it does, the reader of a machine never leaves the circular
    buffer, its bounce buffer or the header on its stack, and it stays able to
    read. *)
Theorem reader_stays_inside fuel rg p g sched :
  reads rg p g -> p_length p = FIFO_SIZE -> ring_ok rg -> Forall foreign sched ->
  safe (qrtr_gunyah_read env fuel (mk_world g sched)) (fun _ w' => exists rg', ring_ok rg' /\ reads rg' p (w_st w')).
Proof.
  intros Hg Hp Hr Hs. unfold qrtr_gunyah_read, wait_until, mbnd at 1. cbn [w_st w_sched].
  assert (forall s g, reads rg p g -> Forall foreign s -> match wait_turns (fun g => negb (v_dbl_lock (g_vm g))) g s with
    Some w => at_ rg p w | None => True end) as Hw.
  { intros s. induction s as [|f s IH]; intros g1 H1 H2; cbn; destruct (negb _); try done. inversion H2. apply IH; [auto|done]. }
  specialize (Hw sched g Hg Hs). destruct (wait_turns _ _ _) as [w|]; [|done].
  eapply safe_step; [apply sure_safe; by apply (upd_vm_at rg p)|]. intros [] w1 H1.
  eapply safe_step; [by apply (read_loop_safe p fuel Hp rg)|]. intros [] w2 (rg2 & R2 & H2).
  apply sure_safe. eapply sure_mono; [by apply (upd_vm_at rg2 p)|]. intros [] w3 H3. exists rg2. split; [done|apply H3].
Qed.
End Rx.
