(* ===== verification/GunyahRing.v ===== *)
(** * GunyahRing: the circular buffers between two machines

    A pipe of Gunyah.v is a ring of bytes like a pipe of GLINK (GlinkSmem.v),
    whose lemmas on rings are used here; its indices need not be aligned. What
    one call of the reader does to a quiet memory. *)
From stdpp Require Import prelude list.
From S2P Require Import Prelude.
From S2P Require Import Effects.
From S2P Require Import Smem.
From S2P Require Import GlinkSmem.
From S2P Require Import Gunyah.
#[local] Open Scope kernel_scope.

(** ** The bytes in a pipe *)

Definition view (p : gunyah_pipe) : glink_smem_pipe := mk_pipe (p_length p) (p_tail p) (p_head p) (p_fifo p) 0.

Definition queued (m : mem) (p : gunyah_pipe) : Z := used m (view p).

Definition stream (m : mem) (p : gunyah_pipe) : list Z := contents m (view p).

(** [n] bytes from a position on. *)
Definition span (m : mem) (p : gunyah_pipe) (pos n : Z) : list Z := GlinkSmem.ring m (view p) pos (Z.to_nat n).

(** The three words of a pipe lie outside its buffer, apart from each other. *)
Record lay (p : gunyah_pipe) : Prop := {
  lay_length : p_length p = FIFO_SIZE;
  lay_tail : p_tail p + 4 <= p_fifo p \/ p_fifo p + FIFO_SIZE <= p_tail p;
  lay_head : p_head p + 4 <= p_fifo p \/ p_fifo p + FIFO_SIZE <= p_head p;
  lay_notify : p_read_notify p + 4 <= p_fifo p \/ p_fifo p + FIFO_SIZE <= p_read_notify p;
  lay_head_tail : p_head p + 4 <= p_tail p \/ p_tail p + 4 <= p_head p;
  lay_head_notify : p_head p + 4 <= p_read_notify p \/ p_read_notify p + 4 <= p_head p;
  lay_tail_notify : p_tail p + 4 <= p_read_notify p \/ p_read_notify p + 4 <= p_tail p;
}.

(** Both indices are in the buffer. *)
Record sane (m : mem) (p : gunyah_pipe) : Prop := {
  sn_head : 0 <= rd32 m (p_head p) < FIFO_SIZE;
  sn_tail : 0 <= rd32 m (p_tail p) < FIFO_SIZE;
}.

Section Ring.
Context (p : gunyah_pipe) (Hp : lay p).

Lemma view_length : length_of (view p) = FIFO_SIZE.
Proof. apply Hp. Qed.

Lemma length_span m pos n : 0 <= n -> Z.of_nat (length (span m p pos n)) = n.
Proof. intros. unfold span. rewrite length_ring. lia. Qed.

Lemma queued_cases m : sane m p ->
  queued m p = if rd32 m (p_head p) <? rd32 m (p_tail p) then FIFO_SIZE - rd32 m (p_tail p) + rd32 m (p_head p)
               else rd32 m (p_head p) - rd32 m (p_tail p).
Proof.
  intros [Hh Ht]. unfold queued, used. rewrite view_length. change (head (view p)) with (p_head p). change (tail (view p)) with (p_tail p).
  destruct (Z.ltb_spec (rd32 m (p_head p)) (rd32 m (p_tail p))).
  - rewrite <- (Z.mod_add _ 1) by (unfold FIFO_SIZE; lia). rewrite Z.mod_small; lia.
  - apply Z.mod_small. lia.
Qed.

Lemma queued_range m : sane m p -> 0 <= queued m p < FIFO_SIZE.
Proof. intros _. unfold queued, used. rewrite view_length. apply Z.mod_pos_bound. done. Qed.

Lemma length_stream m : sane m p -> Z.of_nat (length (stream m p)) = queued m p.
Proof. intros H. unfold stream, contents. rewrite length_ring. fold (queued m p). pose proof (queued_range m H). lia. Qed.

Lemma rx_len_queued m : sane m p -> Gunyah.rx_count FIFO_SIZE (rd32 m (p_head p)) (rd32 m (p_tail p)) = queued m p.
Proof.
  intros H. pose proof (queued_range m H) as Hq. rewrite queued_cases in * by done. unfold Gunyah.rx_count. destruct H as [Hh Ht].
  assert (u64 (FIFO_SIZE - rd32 m (p_tail p) + rd32 m (p_head p)) = FIFO_SIZE - rd32 m (p_tail p) + rd32 m (p_head p)) as ->
    by (apply Z.mod_small; unfold FIFO_SIZE in *; lia).
  by rewrite (proj2 (Z.ltb_ge _ _)) by lia.
Qed.

Lemma tx_room_queued m : sane m p -> free_room FIFO_SIZE (rd32 m (p_head p)) (rd32 m (p_tail p)) = Z.max 0 (FIFO_SIZE - queued m p - 8).
Proof.
  intros H. rewrite queued_cases by done. destruct H as [Hh Ht]. unfold free_room, Gunyah.FIFO_FULL_RESERVE. cbv zeta.
  rewrite u32_small by (unfold FIFO_SIZE in *; lia). rewrite (proj2 (Z.ltb_ge FIFO_SIZE _)) by lia.
  destruct (Z.leb_spec (rd32 m (p_tail p)) (rd32 m (p_head p))), (Z.ltb_spec (rd32 m (p_head p)) (rd32 m (p_tail p))); try lia; case_goal; zbool; lia.
Qed.

(** ** Reading a quiet memory *)

Lemma run_rd_shared {EP : Endpoint} {B : Type} a (k : Z -> M gstate B) g : mbnd (rd_shared a) k (W g) = k (rd32 (g_mem g) a) (W g).
Proof. done. Qed.

Lemma run_rx_avail {EP : Endpoint} {B : Type} (k : Z -> M gstate B) g : sane (g_mem g) p ->
  mbnd (gunyah_rx_avail p) k (W g) = k (queued (g_mem g) p) (W g).
Proof.
  intros H. unfold gunyah_rx_avail. rewrite run_assoc, run_rd_shared, run_assoc, run_rd_shared, run_ret.
  by rewrite (lay_length _ Hp), rx_len_queued.
Qed.

Lemma run_fifo_read {EP : Endpoint} {B : Type} off n (k : list Z -> M gstate B) g : 0 <= off -> 0 <= n -> off + n <= FIFO_SIZE ->
  mbnd (copy_fromio p off n) k (W g) = k (span (g_mem g) p off n) (W g).
Proof.
  intros. unfold copy_fromio. destruct (Z.eqb_spec n 0) as [->|]; [done|].
  rewrite (lay_length _ Hp), (proj2 (Z.leb_le 0 off)), (proj2 (Z.leb_le (off + n) _)) by lia. cbn [andb].
  unfold span. rewrite ring_load; [done|lia|]. rewrite view_length. lia.
Qed.

Lemma run_rx_peak {EP : Endpoint} {B : Type} data count (k : list Z -> M gstate B) g : sane (g_mem g) p -> 0 <= count <= FIFO_SIZE ->
  mbnd (gunyah_rx_peak p data 0 count) k (W g) = k (span (g_mem g) p (rd32 (g_mem g) (p_tail p)) count ++ drop (Z.to_nat count) data) (W g).
Proof.
  intros [_ Ht] Hc. unfold gunyah_rx_peak. rewrite run_assoc, run_rd_shared. cbv beta zeta. set (t := rd32 (g_mem g) (p_tail p)) in *.
  rewrite Z.add_0_r, u32_small, (lay_length _ Hp) by (unfold FIFO_SIZE in *; lia).
  rewrite (proj2 (Z.leb_gt FIFO_SIZE t)), (proj2 (Z.ltb_ge FIFO_SIZE t)) by lia.
  rewrite run_assoc, run_fifo_read by lia. rewrite run_assoc, run_fifo_read by lia. rewrite run_ret, app_assoc. do 2 f_equal. unfold span.
  set (n := Z.min count (FIFO_SIZE - t)). replace (Z.to_nat count) with (Z.to_nat n + Z.to_nat (count - n))%nat by lia. rewrite ring_app. f_equal.
  destruct (Z.eq_dec n count) as [->|Hn]; [by rewrite Z.sub_diag|]. rewrite <- (ring_mod _ _ (t + _)), view_length.
  replace (t + Z.of_nat (Z.to_nat n)) with (1 * FIFO_SIZE) by lia. by rewrite Z.mod_mul.
Qed.

Definition set_g_mem {EP : Endpoint} (g : gstate) (m : mem) : gstate := g <| g_mem := m |>.

Lemma run_rx_advance {EP : Endpoint} {B : Type} count (k : unit -> M gstate B) g : sane (g_mem g) p -> 0 <= count <= FIFO_SIZE ->
  mbnd (gunyah_rx_advance p count) k (W g) =
  k tt (W (set_g_mem g (wr32 (g_mem g) (p_tail p) ((rd32 (g_mem g) (p_tail p) + count) mod FIFO_SIZE)))).
Proof.
  intros [_ Ht] Hc. unfold gunyah_rx_advance. rewrite run_assoc, run_rd_shared. cbv beta zeta.
  rewrite u32_small, (lay_length _ Hp) by (unfold FIFO_SIZE in *; lia).
  change (FIFO_SIZE =? 0) with false. cbn iota. destruct (Z.leb_spec FIFO_SIZE (rd32 (g_mem g) (p_tail p) + count)); [done|]. rewrite Z.mod_small by lia. done.
Qed.

(** ** The stream after an advance of the tail *)

Record advanced (m m' : mem) (n : Z) : Prop := {
  ad_sane : sane m' p;
  ad_stream : stream m' p = drop (Z.to_nat n) (stream m p);
  ad_queued : queued m' p = queued m p - n;
  ad_frame : same_outside (p_tail p) (p_tail p + 4) m m';
}.

Lemma advance_tail m n : sane m p -> 0 <= n <= queued m p ->
  advanced m (wr32 m (p_tail p) ((rd32 m (p_tail p) + n) mod FIFO_SIZE)) n.
Proof.
  intros H Hn. pose proof (queued_range m H) as Hq. destruct H as [Hh Ht]. set (t' := (rd32 m (p_tail p) + n) mod FIFO_SIZE).
  assert (0 <= t' < FIFO_SIZE) as Hb by (by apply Z.mod_pos_bound). set (m' := wr32 m (p_tail p) t').
  assert (rd32 m' (p_tail p) = t') as Et by (apply load_le_wr_same_32; unfold FIFO_SIZE in *; lia).
  assert (rd32 m' (p_head p) = rd32 m (p_head p)) as Eh by (apply rd32_wr32_ne, Hp).
  assert (queued m' p = queued m p - n) as Eu.
  { unfold queued, used in *. rewrite view_length in *. change (head (view p)) with (p_head p) in *. change (tail (view p)) with (p_tail p) in *.
    rewrite Eh, Et. unfold t'. rewrite Zminus_mod_idemp_r.
    replace (rd32 m (p_head p) - (rd32 m (p_tail p) + n)) with (rd32 m (p_head p) - rd32 m (p_tail p) - n) by lia.
    rewrite <- Zminus_mod_idemp_l. apply Z.mod_small. lia. }
  constructor; [by constructor; rewrite ?Et, ?Eh| |done|apply (same_outside_store_le 4); lia].
  unfold stream, contents. fold (queued m' p) (queued m p). rewrite Eu. change (tail (view p)) with (p_tail p). rewrite Et.
  rewrite ring_drop by lia. unfold m', t'. rewrite ring_wr32; [|rewrite view_length; done|rewrite view_length; apply Hp].
  rewrite <- view_length, ring_mod. f_equal; lia.
Qed.

(** What is at the tail is the head of the stream. *)
Lemma span_stream m n : sane m p -> 0 <= n <= queued m p -> span m p (rd32 m (p_tail p)) n = take (Z.to_nat n) (stream m p).
Proof. intros H Hn. unfold span, stream, contents. rewrite ring_take; [done|]. fold (queued m p). lia. Qed.

Lemma take_span m pos n k : 0 <= n <= k -> take (Z.to_nat n) (span m p pos k) = span m p pos n.
Proof. intros. unfold span. apply ring_take. lia. Qed.

(** Words outside of the words of the tail. *)
Lemma frame_rd32 m m' a b : same_outside b (b + 4) m m' -> a + 4 <= b \/ b + 4 <= a -> rd32 m' a = rd32 m a.
Proof. intros S H. apply load_le_ext. intros i Hi. apply S. lia. Qed.
End Ring.
