(* ===== verification/GunyahTurn.v ===== *)
(** * GunyahTurn: what the reader does to a quiet memory

    One turn of the reading loop of src/net/qrtr/gunyah.c, as a step on the
    stream of bytes in the pipe, the part of a packet in the bounce buffer, and
    the packets given to the router; and that the loop ends. *)
From stdpp Require Import prelude list.
From S2P Require Import Prelude.
From S2P Require Import Effects.
From S2P Require Import QrtrPkt.
From S2P Require Import Gunyah.
From S2P Require Import GunyahRx.
From S2P Require Import GunyahRing.
#[local] Open Scope kernel_scope.

Section Turn.
Context {EP : Endpoint} {EL : EndpointLaws EP} (env : gunyah_env) (Hstack : stack_ok env).

(** ** Packets given to the router *)

Fixpoint posted (pkts : list (list Z)) (st st' : ep_state) : Prop :=
  match pkts with
  | [] => st' = st
  | pkt :: pkts' => exists ret st1, ep_post pkt (W st) = Ret ret (W st1) /\ posted pkts' st1 st'
  end.

Lemma posted_app pkts1 pkts2 st1 st2 st3 : posted pkts1 st1 st2 -> posted pkts2 st2 st3 -> posted (pkts1 ++ pkts2) st1 st3.
Proof.
  revert st1. induction pkts1 as [|pkt pkts1 IH]; intros st1; cbn; [by intros ->|]. intros (ret & st & E & H1) H2. exists ret, st. split; [done|]. by apply IH.
Qed.

(** The first bytes of a packet, in the bounce buffer. *)
Definition held (rg : gunyah_ring) : list Z := take (Z.to_nat (r_offset rg)) (r_buf rg).

Lemma length_held rg : ring_ok rg -> Z.of_nat (length (held rg)) = r_offset rg.
Proof. intros []. unfold held. rewrite length_take. lia. Qed.

(** ** States of the reader *)

Definition put_ring (rg : gunyah_ring) (g : gstate) : gstate := g <| g_vm := (g_vm g) <| v_dev := (v_dev (g_vm g)) <| ring := rg |> |> |>.

(** What reading does not touch. *)
Record kept (g g' : gstate) : Prop := {
  kp_peer : g_peer g' = g_peer g;
  kp_tx : tx_pipe (v_dev (g_vm g')) = tx_pipe (v_dev (g_vm g));
  kp_lock : v_dbl_lock (g_vm g') = v_dbl_lock (g_vm g);
}.

Context (p : gunyah_pipe) (Hp : lay p).

Record ready (rg : gunyah_ring) (g : gstate) : Prop := {
  ry_reads : reads rg p g;
  ry_ring : ring_ok rg;
  ry_sane : sane (g_mem g) p;
}.

(** The reader took [n] bytes of the stream and gave the router [pkts]. *)
Record turned (g g' : gstate) (n : Z) (pkts : list (list Z)) : Prop := {
  tu_adv : advanced p (g_mem g) (g_mem g') n;
  tu_posted : posted pkts (v_ep (g_vm g)) (v_ep (g_vm g'));
  tu_kept : kept g g';
}.

Lemma run_get_dev {B : Type} (k : qrtr_gunyah_dev -> M gstate B) g : mbnd get_dev k (W g) = k (v_dev (g_vm g)) (W g).
Proof. done. Qed.

Lemma run_upd_ring {B : Type} f (k : unit -> M gstate B) g : mbnd (upd_ring f) k (W g) = k tt (W (put_ring (f (ring (v_dev (g_vm g)))) g)).
Proof. done. Qed.

Lemma bytes_ok_frame m m' a v : bytes_ok m -> m' = wr32 m a v -> bytes_ok m'.
Proof. intros H ->. by apply (bytes_ok_store_le 4). Qed.

(** The copy into the bounce buffer. *)
Definition filled (rg : gunyah_ring) (off : Z) (bs : list Z) : gunyah_ring :=
  rg <| r_buf := take (Z.to_nat off) (r_buf rg) ++ bs ++ drop (Z.to_nat off + length bs) (r_buf rg) |>.

Lemma run_peak_ring {B : Type} rg off n (k : unit -> M gstate B) g : ready rg g -> 0 <= off -> 0 <= n <= queued (g_mem g) p -> off + n <= MAX_PKT_SZ ->
  mbnd (peak_ring p off n) k (W g) = k tt (W (put_ring (filled rg off (take (Z.to_nat n) (stream (g_mem g) p))) g)).
Proof.
  intros [H [Hl _ _ _] Hs] Ho Hn Hle. pose proof (queued_range p Hp _ Hs) as Hq. unfold peak_ring. rewrite run_assoc, run_get_dev, (rd_ring _ _ _ H).
  rewrite (proj2 (Z.leb_le 0 off)), (proj2 (Z.leb_le (off + n) _)) by lia. cbn [andb]. rewrite run_assoc, run_rx_peak by (done || lia).
  rewrite run_upd_ring, (rd_ring _ _ _ H), (span_stream p) by done. pose proof (length_stream p Hp _ Hs). unfold filled.
  replace (length (take (Z.to_nat n) (stream (g_mem g) p))) with (Z.to_nat n) by (rewrite length_take; lia). by rewrite drop_drop.
Qed.

Lemma length_ring_filled rg off bs : ring_ok rg -> 0 <= off -> off + Z.of_nat (length bs) <= MAX_PKT_SZ ->
  length (r_buf (filled rg off bs)) = length (r_buf rg).
Proof. intros [Hl _ _ _] Ho Hle. cbn. rewrite !length_app, length_take, length_drop. lia. Qed.

Lemma take_filled rg off bs n : ring_ok rg -> 0 <= off -> off + Z.of_nat (length bs) <= MAX_PKT_SZ -> n = off + Z.of_nat (length bs) ->
  take (Z.to_nat n) (r_buf (filled rg off bs)) = take (Z.to_nat off) (r_buf rg) ++ bs.
Proof.
  intros [Hl _ _ _] Ho Hle ->. cbn. rewrite app_assoc. apply take_app_length'. rewrite length_app, length_take. lia.
Qed.

Lemma run_post_ring rg n g : reads rg p g -> is_bytes (r_buf rg) ->
  exists ret st, ep_post (take (Z.to_nat n) (r_buf rg)) (W (v_ep (g_vm g))) = Ret ret (W st) /\ ep_ok st /\
    forall (B : Type) (k : unit -> M gstate B), mbnd (post_ring n) k (W g) = k tt (W (put_ep st g)).
Proof.
  intros [Hm Er _ He] Hb. pose proof (ep_post_ok (take (Z.to_nat n) (r_buf rg)) _ He ltac:(by apply Forall_take)) as Hpost.
  apply total_run in Hpost as (ret & st & E & Hst). exists ret, st. split; [done|]. split; [done|]. intros B k.
  unfold post_ring. rewrite run_assoc, run_get_dev, Er, run_assoc. unfold router, mbnd. cbn [w_st W]. by rewrite E.
Qed.

Lemma reads_put rg rg' g : reads rg p g -> reads rg' p (put_ring rg' g).
Proof. by intros []. Qed.

Lemma reads_mem rg g a v : reads rg p g -> reads rg p (set_g_mem g (wr32 (g_mem g) a v)).
Proof. intros []. split; cbn; try done. by apply (bytes_ok_store_le 4). Qed.

Lemma reads_ep rg g st : reads rg p g -> ep_ok st -> reads rg p (put_ep st g).
Proof. by intros []. Qed.

Lemma filled_ok rg off bs : ring_ok rg -> is_bytes bs -> 0 <= off -> off + Z.of_nat (length bs) <= MAX_PKT_SZ ->
  ring_ok (filled rg off bs).
Proof.
  intros H Hb Ho Hle. pose proof (length_ring_filled rg off bs H Ho Hle) as E. pose proof H as [Hl B Hn Hoff]. split; [by rewrite E|cbn|done|done].
  apply Forall_app_2; [by apply Forall_take|]. apply Forall_app_2; [done|by apply Forall_drop].
Qed.

Lemma stream_bytes m : bytes_ok m -> is_bytes (stream m p).
Proof.
  intros Hm. unfold stream, GlinkSmem.contents. generalize (GlinkSmem.tail (view p)) as t, (Z.to_nat (GlinkSmem.used m (view p))) as n.
  intros t n. generalize (rd32 m t). induction n as [|n IH]; intros pos; constructor; [apply Hm|apply IH].
Qed.

(** ** One turn *)

(** The pieces of a turn: a copy, an advance of the tail, packets. *)
Lemma turned_intro g g' n pkts st :
  sane (g_mem g) p -> 0 <= n <= queued (g_mem g) p ->
  g_mem g' = wr32 (g_mem g) (p_tail p) ((rd32 (g_mem g) (p_tail p) + n) mod FIFO_SIZE) ->
  posted pkts (v_ep (g_vm g)) st -> v_ep (g_vm g') = st -> kept g g' -> turned g g' n pkts.
Proof. intros Hs Hn Em Hp1 <- Hk. split; [rewrite Em; by apply advance_tail|done|done]. Qed.

(** What a turn with an empty bounce buffer finds. *)
Inductive new_turn (rg : gunyah_ring) (g g' : gstate) (size : Z) : Prop :=
| new_dropped : size < 0 \/ MAX_PKT_SZ < size -> turned g g' (queued (g_mem g) p) [] -> ready rg g' -> new_turn rg g g' size
| new_whole rg' : 0 <= size <= queued (g_mem g) p -> turned g g' size [take (Z.to_nat size) (stream (g_mem g) p)] -> ready rg' g' ->
    r_offset rg' = 0 -> new_turn rg g g' size
| new_part rg' : queued (g_mem g) p < size <= MAX_PKT_SZ -> turned g g' (queued (g_mem g) p) [] -> ready rg' g' ->
    r_len rg' = size -> held rg' = stream (g_mem g) p -> new_turn rg g g' size.

Lemma stream_ok g rg n : ready rg g -> 0 <= n <= queued (g_mem g) p ->
  is_bytes (take (Z.to_nat n) (stream (g_mem g) p)) /\ Z.of_nat (length (take (Z.to_nat n) (stream (g_mem g) p))) = n.
Proof.
  intros [[Hm _ _ _] _ Hs] Hn. split; [apply Forall_take, stream_bytes, Hm|]. rewrite length_take. pose proof (length_stream p Hp _ Hs). lia.
Qed.

Lemma run_new rg g : ready rg g -> r_offset rg = 0 -> 0 < queued (g_mem g) p ->
  exists size g', qrtr_peek_pkt_size (span (g_mem g) p (rd32 (g_mem g) (p_tail p)) 32) = Some size /\
    new_turn rg g g' size /\ forall (B : Type) (k : unit -> M gstate B), mbnd (qrtr_gunyah_read_new env) k (W g) = k tt (W g').
Proof.
  intros H H0 Hq. pose proof H as [Hr Hring Hs]. pose proof (queued_range p Hp _ Hs) as Hqr. destruct Hstack as [Lst _].
  destruct (peek_some (span (g_mem g) p (rd32 (g_mem g) (p_tail p)) 32)) as [size Esize]; [pose proof (length_span p (g_mem g) (rd32 (g_mem g) (p_tail p)) 32);
    lia|].
  set (q := queued (g_mem g) p) in *. set (t := rd32 (g_mem g) (p_tail p)) in *.
  assert (forall (B : Type) (k : unit -> M gstate B), mbnd (qrtr_gunyah_read_new env) k (W g) =
    mbnd (if (size <? 0) || (MAX_PKT_SZ <? size) then gunyah_rx_advance p q else
      peak_ring p 0 (Z.min q size) ;;; gunyah_rx_advance p (Z.min q size) ;;;
      if Z.min q size =? size then post_ring size else upd_ring (fun rg => rg <| r_len := size |> <| r_offset := Z.min q size |>)) k (W g)) as E.
  { intros B k. unfold qrtr_gunyah_read_new. rewrite run_assoc, run_get_dev, (rd_pipe _ _ _ Hr), run_assoc, run_rx_peak by (done || unfold FIFO_SIZE in *; lia).
    rewrite (drop_ge (e_stack env)) by (change (Z.to_nat 32) with 32%nat; lia). rewrite app_nil_r. fold t. rewrite Esize, run_assoc, run_or_fault.
    destruct (_ || _); rewrite run_assoc, run_rx_avail by done; done. }
  destruct ((size <? 0) || (MAX_PKT_SZ <? size)) eqn:Esz.
  { exists size. eexists. split; [done|]. split; [|intros B k; rewrite E, run_rx_advance by (done || lia); reflexivity].
    apply new_dropped; [lia| |].
    - by eapply turned_intro; [done|subst q; lia|done|done|done|].
    - split; [by apply reads_mem|done|]. apply (advance_tail p Hp (g_mem g) q); [done|subst q; lia]. }
  apply orb_false_iff in Esz as [Es1%Z.ltb_ge Es2%Z.ltb_ge]. set (n := Z.min q size) in *.
  destruct (stream_ok g rg n H ltac:(lia)) as [Bn Ln]. set (bs := take (Z.to_nat n) (stream (g_mem g) p)) in *.
  assert (ring_ok (filled rg 0 bs)) as Hf by (apply filled_ok; [done|done|lia|lia]).
  set (g1 := put_ring (filled rg 0 bs) g). set (g2 := set_g_mem g1 (wr32 (g_mem g) (p_tail p) ((t + n) mod FIFO_SIZE))).
  assert (reads (filled rg 0 bs) p g2) as Hr2 by exact (reads_mem _ g1 (p_tail p) ((t + n) mod FIFO_SIZE) (reads_put rg _ g Hr)).
  assert (sane (g_mem g2) p) as Hs2 by (apply (advance_tail p Hp (g_mem g) n); [done|fold q; lia]).
  assert (take (Z.to_nat n) (r_buf (filled rg 0 bs)) = bs) as Et by (rewrite (take_filled rg 0 bs n); [done|done|lia..]).
  assert (forall (B : Type) (k : unit -> M gstate B), mbnd (qrtr_gunyah_read_new env) k (W g) =
    mbnd (if n =? size then post_ring size else upd_ring (fun rg => rg <| r_len := size |> <| r_offset := n |>)) k (W g2)) as E2.
  { intros B k. rewrite E, run_assoc, (run_peak_ring rg) by (done || lia). fold bs g1. rewrite run_assoc, run_rx_advance by (done || lia). done. }
  clear E. destruct (Z.eqb_spec n size) as [En|En].
  - destruct (run_post_ring (filled rg 0 bs) size g2 Hr2 (ro_bytes _ Hf)) as (ret & st & Ep & Hst & Er). rewrite <- En, Et in Ep.
    exists size, (put_ep st g2). split; [done|]. split; [|intros B k; by rewrite E2, Er]. eapply (new_whole _ _ _ _ (filled rg 0 bs)); [lia| | |done].
    + rewrite <- En. eapply turned_intro; [done|lia|done| |done|done]. cbn. by exists ret, st.
    + split; [by apply reads_ep|done|done].
  - eexists size, _. split; [done|]. split; [|intros B k; by rewrite E2, run_upd_ring]. rewrite (rd_ring _ _ _ Hr2).
    assert (n = q) as Hnq by lia. eapply (new_part _ _ _ _ ((filled rg 0 bs) <| r_len := size |> <| r_offset := n |>)); [lia| | |done|].
    + eapply turned_intro; [done|fold q; lia| |done|done|done]. fold q t. rewrite <- Hnq. done.
    + split; [by apply (reads_put (filled rg 0 bs))| |done]. apply (copied_ok rg); [done| |lia|lia].
      destruct Hf as [Hl B _ _]. split; [|by split]. apply length_ring_filled; [done|lia|lia].
    + unfold held. change (r_offset (_ <| r_len := size |> <| r_offset := n |>)) with n.
      change (take (Z.to_nat n) (r_buf (filled rg 0 bs)) = stream (g_mem g) p). rewrite Et. subst bs. apply take_ge. pose proof (length_stream p Hp _ Hs).
      fold q in H1. lia.
Qed.

(** What a turn with part of a packet in the bounce buffer finds. *)
Inductive frag_turn (rg : gunyah_ring) (g g' : gstate) : Prop :=
| frag_whole rg' : r_len rg - r_offset rg <= queued (g_mem g) p ->
    turned g g' (r_len rg - r_offset rg) [held rg ++ take (Z.to_nat (r_len rg - r_offset rg)) (stream (g_mem g) p)] ->
    ready rg' g' -> r_offset rg' = 0 -> frag_turn rg g g'
| frag_part rg' : queued (g_mem g) p < r_len rg - r_offset rg -> turned g g' (queued (g_mem g) p) [] -> ready rg' g' ->
    r_len rg' = r_len rg -> held rg' = held rg ++ stream (g_mem g) p -> frag_turn rg g g'.

Lemma run_frag rg g : ready rg g -> 0 < r_offset rg -> 0 < queued (g_mem g) p ->
  exists g', frag_turn rg g g' /\ forall (B : Type) (k : unit -> M gstate B), mbnd qrtr_gunyah_read_frag k (W g) = k tt (W g').
Proof.
  intros H H0 Hq. pose proof H as [Hr Hring Hs]. pose proof Hring as [Hl Hb Hlen Hoff]. pose proof (queued_range p Hp _ Hs) as Hqr.
  set (q := queued (g_mem g) p) in *. set (t := rd32 (g_mem g) (p_tail p)) in *. set (off := r_offset rg) in *.
  set (n := if r_len rg <? q + off then r_len rg - off else q).
  assert (0 < n <= q /\ n + off <= r_len rg /\ (n + off < r_len rg -> n = q)) as (Hn & Hle & Hnq) by (subst n; destruct (Z.ltb_spec (r_len rg) (q + off)); lia).
  destruct (stream_ok g rg n H ltac:(fold q; lia)) as [Bn Ln]. set (bs := take (Z.to_nat n) (stream (g_mem g) p)) in *.
  assert (ring_ok (filled rg off bs)) as Hf by (apply filled_ok; [done|done|lia|lia]).
  set (g1 := put_ring (filled rg off bs) g). set (g2 := set_g_mem g1 (wr32 (g_mem g) (p_tail p) ((t + n) mod FIFO_SIZE))).
  assert (reads (filled rg off bs) p g2) as Hr2 by exact (reads_mem _ g1 (p_tail p) ((t + n) mod FIFO_SIZE) (reads_put rg _ g Hr)).
  assert (sane (g_mem g2) p) as Hs2 by (apply (advance_tail p Hp (g_mem g) n); [done|fold q; lia]).
  assert (take (Z.to_nat (off + n)) (r_buf (filled rg off bs)) = held rg ++ bs) as Et by (apply take_filled; [done|lia..]).
  assert (forall (B : Type) (k : unit -> M gstate B), mbnd qrtr_gunyah_read_frag k (W g) =
    mbnd (if n + off =? r_len rg then post_ring (r_len rg) ;;; upd_ring (fun rg => rg <| r_offset := 0 |> <| r_len := 0 |>)
          else upd_ring (fun rg => rg <| r_offset := r_offset rg + n |>)) k (W g2)) as E.
  { intros B k. unfold qrtr_gunyah_read_frag. rewrite run_assoc, run_get_dev, (rd_pipe _ _ _ Hr), (rd_ring _ _ _ Hr), run_assoc, run_rx_avail by done.
    fold q off n. rewrite run_assoc, (run_peak_ring rg) by (done || fold q; lia). fold bs g1. rewrite run_assoc, run_rx_advance by (done || lia). done. }
  destruct (Z.eqb_spec (n + off) (r_len rg)) as [En|En].
  - destruct (run_post_ring (filled rg off bs) (r_len rg) g2 Hr2 (ro_bytes _ Hf)) as (ret & st & Ep & Hst & Er). rewrite <- En, Z.add_comm, Et in Ep.
    eexists. split; [|intros B k; rewrite E, run_assoc, Er, run_upd_ring; reflexivity]. cbn [v_dev g_vm put_ep set_g_mem].
    apply (frag_whole _ _ _ ((filled rg off bs) <| r_offset := 0 |> <| r_len := 0 |>)); [fold q off; lia| | |done].
    + fold off. replace (r_len rg - off) with n by lia. eapply turned_intro; [done|fold q; lia|done| |done|done]. by exists ret, st.
    + split; [by apply (reads_put (filled rg off bs)), reads_ep| |done]. destruct Hf as [F1 F2 _ _]. split; [done|done|unfold MAX_PKT_SZ; cbn; lia|by left].
  - eexists. split; [|intros B k; rewrite E, run_upd_ring; reflexivity]. cbn [v_dev g_vm set_g_mem]. specialize (Hnq ltac:(lia)).
    apply (frag_part _ _ _ ((filled rg off bs) <| r_offset := off + n |>)); [fold q off; lia| | |done|].
    + fold q. eapply turned_intro; [done|fold q; lia| |done|done|done]. fold t. by rewrite <- Hnq.
    + split; [by apply (reads_put (filled rg off bs))| |done]. destruct Hf as [F1 F2 F3 _]. split; [done|done|done|]. cbn. right. lia.
    + unfold held at 1. change (take (Z.to_nat (off + n)) (r_buf (filled rg off bs)) = held rg ++ stream (g_mem g) p). rewrite Et. f_equal. subst bs.
      apply take_ge. pose proof (length_stream p Hp _ Hs) as Hls. fold q in Hls. lia.
Qed.

(** ** The loop *)

(** States that differ in the doorbell only. *)
Record rung (g g' : gstate) : Prop := {
  rg_mem : g_mem g' = g_mem g;
  rg_ep : v_ep (g_vm g') = v_ep (g_vm g);
  rg_ring : ring (v_dev (g_vm g')) = ring (v_dev (g_vm g));
  rg_pipe : rx_pipe (v_dev (g_vm g')) = rx_pipe (v_dev (g_vm g));
  rg_kept : kept g g';
}.

Lemma run_kick g : exists g', rung g g' /\ forall (B : Type) (k : unit -> M gstate B), mbnd (qrtr_gunyah_kick env) k (W g) = k tt (W g').
Proof.
  unfold qrtr_gunyah_kick, gh_dbl_send, emit. set (ret := e_dbl_send env (length (v_log (g_vm g)))).
  set (g1 := g <| g_vm := (g_vm g) <| v_log := EvDoorbell ret :: v_log (g_vm g) |> |>).
  assert (forall (B : Type) (k : unit -> M gstate B), mbnd (qrtr_gunyah_kick env) k (W g) =
    mbnd (if truth ret && negb (master (v_dev (g_vm g1))) then upd_dev (fun d => d <| work_pending := true |>) else mret tt) k (W g1)) as E by done.
  destruct (_ && _); (eexists; split; [|intros B k; etransitivity; [apply E|reflexivity]]); by split.
Qed.

Lemma rung_ready rg g g' : ready rg g -> rung g g' -> ready rg g'.
Proof. intros [[] ? ?] [Em Ee Er Ep _]. split; [|done|by rewrite Em]. by split; rewrite ?Em, ?Er, ?Ep, ?Ee. Qed.

Lemma reader_kept_trans g1 g2 g3 : kept g1 g2 -> kept g2 g3 -> kept g1 g3.
Proof. intros [] []. split; congruence. Qed.

Lemma rung_turned g0 g g' n pkts : turned g0 g n pkts -> rung g g' -> turned g0 g' n pkts.
Proof. intros [? ? ?] [Em Ee _ _ ?]. split; rewrite ?Em, ?Ee; try done. by eapply reader_kept_trans. Qed.

(** One turn of the loop, whatever it finds. *)
Inductive loop_turn (rg : gunyah_ring) (g g' : gstate) : Prop :=
| turn_new size : r_offset rg = 0 -> qrtr_peek_pkt_size (span (g_mem g) p (rd32 (g_mem g) (p_tail p)) 32) = Some size ->
    new_turn rg g g' size -> loop_turn rg g g'
| turn_frag : 0 < r_offset rg -> frag_turn rg g g' -> loop_turn rg g g'.

Lemma rung_turn rg g0 g g' : loop_turn rg g0 g -> rung g g' -> loop_turn rg g0 g'.
Proof.
  intros [size H0 Es Hn|H0 Hf] Hr; [eapply (turn_new _ _ _ size); [done|done|]|apply turn_frag; [done|]].
  - destruct Hn as [? Ht ?|rg1 ? Ht ? ?|rg1 ? Ht ? ? ?]; [apply new_dropped|apply (new_whole _ _ _ _ rg1)|apply (new_part _ _ _ _ rg1)]; try done;
      (by eapply rung_turned) || by eapply rung_ready.
  - destruct Hf as [rg1 ? Ht ? ?|rg1 ? Ht ? ? ?]; [apply (frag_whole _ _ _ rg1)|apply (frag_part _ _ _ rg1)]; try done;
      (by eapply rung_turned) || by eapply rung_ready.
Qed.

Lemma run_turn rg g : ready rg g -> 0 < queued (g_mem g) p ->
  exists g', loop_turn rg g g' /\ forall fuel, read_loop env (S fuel) (W g) = read_loop env fuel (W g').
Proof.
  intros H Hq. pose proof H as [Hr Hring Hs]. pose proof (ro_offset _ Hring) as Hoff.
  assert (exists g1, loop_turn rg g g1 /\ forall (B : Type) (k : unit -> M gstate B),
    mbnd (if truth (r_offset rg) then qrtr_gunyah_read_frag else qrtr_gunyah_read_new env) k (W g) = k tt (W g1)) as (g1 & Ht & E1).
  { unfold truth. destruct (Z.eqb_spec (r_offset rg) 0) as [H0|H0]; cbn [negb].
    - destruct (run_new rg g H H0 Hq) as (size & g1 & Es & Hn & E). exists g1. split; [by eapply turn_new|done].
    - destruct (run_frag rg g H ltac:(lia) Hq) as (g1 & Hf & E). exists g1. split; [apply turn_frag; [lia|done]|done]. }
  assert (forall fuel, exists b : bool, read_loop env (S fuel) (W g) = mbnd (if b then qrtr_gunyah_kick env else mret tt) (fun _ => read_loop env fuel) (W g1)
    /\
    b = truth (rd32 (g_mem g1) (p_read_notify (rx_pipe (v_dev (g_vm g1)))))) as E.
  { intros fuel. eexists. split; [|reflexivity]. cbn [read_loop]. rewrite run_get_dev, (rd_pipe _ _ _ Hr), (rd_ring _ _ _ Hr), run_rx_avail by done.
    rewrite (proj2 (Z.eqb_neq _ _)) by lia. rewrite E1. unfold gunyah_get_read_notify. by rewrite run_assoc, run_get_dev, run_assoc, run_rd_shared, run_ret. }
  set (b := truth (rd32 (g_mem g1) (p_read_notify (rx_pipe (v_dev (g_vm g1)))))) in *.
  destruct (run_kick g1) as (g2 & Hg2 & E2). exists (if b then g2 else g1). split; [destruct b; [by eapply rung_turn|done]|].
  intros fuel. destruct (E fuel) as (b' & -> & ->). fold b. destruct b; [by rewrite E2|done].
Qed.

(** No header in the buffer says that its packet has no bytes. *)
Definition no_empty (m : mem) : Prop := forall pos, qrtr_peek_pkt_size (span m p pos 32) <> Some 0.

Lemma span_frame m m' pos n : same_outside (p_tail p) (p_tail p + 4) m m' -> span m' p pos n = span m p pos n.
Proof.
  intros Hs. unfold span. apply GlinkSmem.ring_ext. intros i _. apply Hs. change (GlinkSmem.fifo (view p)) with (p_fifo p).
  rewrite (view_length p Hp). pose proof (Z.mod_pos_bound (pos + i) FIFO_SIZE ltac:(done)). destruct Hp as [_ ? _ _ _ _ _]. lia.
Qed.

(** A turn takes bytes, unless it finds an empty packet. *)
Lemma turn_progress rg g g' : ring_ok rg -> loop_turn rg g g' -> 0 < queued (g_mem g) p -> no_empty (g_mem g) ->
  exists rg', ready rg' g' /\ kept g g' /\ queued (g_mem g') p < queued (g_mem g) p /\ no_empty (g_mem g').
Proof.
  intros Hring Ht Hq Hn. assert (forall n pkts, turned g g' n pkts -> 0 < n -> kept g g' /\ queued (g_mem g') p < queued (g_mem g) p /\
    no_empty (g_mem g')) as Hgo.
  { intros n pkts [Ha _ Hk] H0. split; [done|]. split; [rewrite (ad_queued _ _ _ _ Ha); lia|]. intros pos. rewrite (span_frame (g_mem g)); [apply Hn|apply Ha].
    }
  destruct Ht as [size H0 Es [? Ht Hr|rg1 Hs Ht Hr ?|rg1 ? Ht Hr ? ?]|H0 [rg1 ? Ht Hr ?|rg1 ? Ht Hr ? ?]].
  - exists rg. split; [done|]. by eapply Hgo.
  - exists rg1. split; [done|]. eapply Hgo; [done|]. destruct (Z.eq_dec size 0) as [->|]; [by apply Hn in Es|lia].
  - exists rg1. split; [done|]. by eapply Hgo.
  - exists rg1. split; [done|]. eapply Hgo; [done|]. pose proof (ro_offset _ Hring). lia.
  - exists rg1. split; [done|]. by eapply Hgo.
Qed.

Lemma read_loop_ends n : forall fuel rg g, ready rg g -> no_empty (g_mem g) -> queued (g_mem g) p <= Z.of_nat n -> (n <= fuel)%nat ->
  exists rg' g', read_loop env fuel (W g) = Ret tt (W g') /\ ready rg' g' /\ kept g g' /\ queued (g_mem g') p = 0.
Proof.
  induction n as [|n IH]; intros fuel rg g H Hn Hq Hf; pose proof (queued_range p Hp _ (ry_sane _ _ H)) as Hqr;
    destruct (Z.eq_dec (queued (g_mem g) p) 0) as [E|E].
  1, 3: exists rg, g; split; [|by split_and!]; destruct fuel; cbn [read_loop];
    rewrite run_get_dev, (rd_pipe _ _ _ (ry_reads _ _ H)), run_rx_avail, E by (done || apply H); done.
  { lia. }
  destruct fuel as [|fuel]; [lia|]. destruct (run_turn rg g H ltac:(lia)) as (g1 & Ht & Er). rewrite Er.
  destruct (turn_progress rg g g1 (ry_ring _ _ H) Ht ltac:(lia) Hn) as (rg1 & H1 & K1 & Q1 & N1).
  destruct (IH fuel rg1 g1 H1 N1 ltac:(lia) ltac:(lia)) as (rg2 & g2 & E2 & H2 & K2 & Q2). exists rg2, g2. split; [done|]. split; [done|].
  split; [by eapply reader_kept_trans|done].
Qed.

(** ** The reader *)

Definition set_lock (b : bool) (g : gstate) : gstate := g <| g_vm := (g_vm g) <| v_dbl_lock := b |> |>.

Lemma lock_ready b rg g : ready rg g -> ready rg (set_lock b g).
Proof. by intros [[] ? ?]. Qed.

Lemma read_run fuel g : v_dbl_lock (g_vm g) = false ->
  qrtr_gunyah_read env fuel (W g) = mbnd (read_loop env fuel) (fun _ => upd_vm (fun v => v <| v_dbl_lock := false |>)) (W (set_lock true g)).
Proof. intros H. unfold qrtr_gunyah_read, wait_until, mbnd at 1, W. cbn [w_st w_sched wait_turns]. by rewrite H. Qed.

(** C22. When the other machine is quiet, its indices are in the buffer and no
    header in it says that its packet has no bytes, the reader ends, with the
    lock free and nothing left to read; it takes at most as many turns as there
    are bytes. *)
Theorem reader_ends fuel rg g :
  ready rg g -> v_dbl_lock (g_vm g) = false -> no_empty (g_mem g) -> queued (g_mem g) p <= Z.of_nat fuel ->
  exists rg' g', qrtr_gunyah_read env fuel (W g) = Ret tt (W g') /\ ready rg' g' /\ v_dbl_lock (g_vm g') = false /\ queued (g_mem g') p = 0.
Proof.
  intros H Hl Hn Hf. rewrite read_run by done. unfold mbnd.
  destruct (read_loop_ends fuel fuel rg (set_lock true g) (lock_ready true rg g H) Hn Hf ltac:(done)) as (rg1 & g1 & -> & H1 & _ & Q1).
  exists rg1, (set_lock false g1). split; [done|]. split; [by apply lock_ready|]. by split.
Qed.

(** A header that says so keeps the reader busy for ever, with its lock held. *)
Lemma reader_spins rg g : ready rg g -> r_offset rg = 0 -> 0 < queued (g_mem g) p ->
  qrtr_peek_pkt_size (span (g_mem g) p (rd32 (g_mem g) (p_tail p)) 32) = Some 0 ->
  forall fuel, read_loop env fuel (W g) = NoFuel.
Proof.
  intros H H0 Hq Hz fuel. revert rg g H H0 Hq Hz. induction fuel as [|fuel IH]; intros rg g H H0 Hq Hz.
  - cbn [read_loop]. rewrite run_get_dev, (rd_pipe _ _ _ (ry_reads _ _ H)), run_rx_avail by (done || apply H). by rewrite (proj2 (Z.eqb_neq _ _)) by lia.
  - destruct (run_turn rg g H Hq) as (g1 & Ht & ->). destruct Ht as [size _ Es Hn|?]; [|lia]. rewrite Hz in Es. injection Es as <-.
    destruct Hn as [[?|?] _ _|rg1 _ [Ha _ _] H1 H10|rg1 ? _ _ _ _]; [lia|unfold MAX_PKT_SZ in *; lia| |lia].
    assert (queued (g_mem g1) p = queued (g_mem g) p) as Eq by (rewrite (ad_queued _ _ _ _ Ha); lia).
    assert (rd32 (g_mem g1) (p_head p) = rd32 (g_mem g) (p_head p)) as Eh by (eapply frame_rd32; [apply Ha|apply Hp]).
    assert (rd32 (g_mem g1) (p_tail p) = rd32 (g_mem g) (p_tail p)) as Et.
    { pose proof (ry_sane _ _ H) as S0. pose proof (ry_sane _ _ H1) as S1. rewrite !queued_cases, Eh in Eq by done. destruct S0 as [Hh0 Ht0], S1 as [_ Ht1].
      destruct (Z.ltb_spec (rd32 (g_mem g) (p_head p)) (rd32 (g_mem g1) (p_tail p))), (Z.ltb_spec (rd32 (g_mem g) (p_head p)) (rd32 (g_mem g) (p_tail p)));
        lia. }
    apply (IH rg1); [done|done|lia|]. rewrite Et, (span_frame (g_mem g)); [done|apply Ha].
Qed.
End Turn.
