(* ===== verification/GunyahLink.v ===== *)
(** * GunyahLink: packets from machine to machine

    Two machines on the two ends of a pipe of src/net/qrtr/gunyah.c. The
    relation [link] says which packets are under way: in the pipe, in the bounce
    buffer of the reader, or given to its router. A reader drains the pipe and
    gives its router the packets in order; a sender appends its packet, while the
    reader may run at each of its steps. *)
From stdpp Require Import prelude list.
From S2P Require Import Prelude.
From S2P Require Import Effects.
From S2P Require Import GlinkSmem.
From S2P Require Import QrtrPkt.
From S2P Require Import AfQrtr.
From S2P Require Import Gunyah.
From S2P Require Import GunyahRx.
From S2P Require Import GunyahRing.
From S2P Require Import GunyahTurn.
#[local] Open Scope kernel_scope.

(** ** Packets *)

(** The bytes of a header that its size depends on, or the whole packet. *)
Definition hdr_known (pkt : list Z) : nat := Nat.min 24 (length pkt).

(** A packet whose header announces its length. *)
Record packet (pkt : list Z) : Prop := {
  pk_bytes : is_bytes pkt;
  pk_length : 0 < Z.of_nat (length pkt) <= MAX_PKT_SZ;
  pk_size : forall bs, length bs = 32%nat -> take (hdr_known pkt) bs = take (hdr_known pkt) pkt ->
    qrtr_peek_pkt_size bs = Some (Z.of_nat (length pkt));
}.

(** Of the packets [flight], the first bytes are in the bounce buffer, [strm] is
    in the pipe, and [unsent] is still to come. *)
Record carries (hd : list Z) (rlen : Z) (strm : list Z) (flight : list (list Z)) (unsent : list Z) : Prop := {
  ca_bytes : hd ++ strm ++ unsent = concat flight;
  ca_packets : Forall packet flight;
  ca_part : hd = [] \/ exists pkt rest, flight = pkt :: rest /\ rlen = Z.of_nat (length pkt) /\ (length hd < length pkt)%nat;
  ca_sent : unsent = [] \/ exists before pkt, flight = before ++ [pkt] /\ (hdr_known pkt + length unsent <= length pkt)%nat;
}.

(** The first packet's part in the stream. *)
Lemma carries_first rlen strm flight unsent : carries [] rlen strm flight unsent -> strm <> [] ->
  exists pkt rest, flight = pkt :: rest /\ packet pkt /\ (hdr_known pkt <= length strm)%nat /\ strm ++ unsent = pkt ++ concat rest.
Proof.
  intros [E P _ S] Hs. destruct flight as [|pkt rest]; [by destruct strm|]. exists pkt, rest. split; [done|]. split; [by inversion P|]. cbn in E.
  split; [|done]. apply (f_equal length) in E. rewrite !length_app in E. unfold hdr_known in *.
  destruct S as [->|(before & last & El & Hl)]; [cbn in E; lia|]. destruct before as [|p before]; cbn in El; injection El as -> ->; [cbn in E; lia|].
  rewrite concat_app, length_app in E. cbn in E. rewrite app_nil_r in E. lia.
Qed.

Lemma take_prefix {A : Type} n (l1 l2 l3 l4 : list A) : l1 ++ l2 = l3 ++ l4 -> (n <= length l1)%nat -> (n <= length l3)%nat -> take n l1 = take n l3.
Proof. intros E H1 H3. apply (f_equal (take n)) in E. by rewrite !take_app_le in E. Qed.

(** Packets leave at the front. *)
Lemma carries_whole hd rlen strm pkt rest unsent n :
  carries hd rlen strm (pkt :: rest) unsent -> (length hd + n = length pkt)%nat -> (n <= length strm)%nat ->
  hd ++ take n strm = pkt /\ forall rlen', carries [] rlen' (drop n strm) rest unsent.
Proof.
  intros [E P _ S] Hn Hs. cbn in E. rewrite <- (take_drop n strm), <- app_assoc, (app_assoc hd) in E.
  apply app_inj_1 in E as [E1 E2]; [|rewrite length_app, length_take; lia]. split; [done|]. intros rlen'. inversion P.
  split; [done|done|by left|]. destruct S as [->|(before & last & El & Hl)]; [by left|]. destruct before as [|p before]; cbn in El; injection El as -> ->.
  - left. apply (f_equal length) in E2. rewrite length_app in E2. cbn in E2. destruct unsent; [done|cbn in E2; lia].
  - right. by exists before, last.
Qed.

(** A packet is held until the rest comes. *)
Lemma carries_part hd rlen strm pkt rest unsent :
  carries hd rlen strm (pkt :: rest) unsent -> (length hd + length strm < length pkt)%nat ->
  carries (hd ++ strm) (Z.of_nat (length pkt)) [] (pkt :: rest) unsent.
Proof. intros [E P _ S] Hl. split; [by rewrite <- app_assoc|done|right|done]. exists pkt, rest. split; [done|]. split; [done|]. rewrite length_app. lia. Qed.

(** With nothing in the pipe and nothing to come, nothing is under way. *)
Lemma carries_done hd rlen flight : carries hd rlen [] flight [] -> flight = [].
Proof.
  intros [E P [->|(pkt & rest & -> & _ & Hl)] _]; cbn in E.
  - destruct flight as [|pkt rest]; [done|]. inversion P as [|? ? [_ Hp _] _]. apply (f_equal length) in E. cbn in E. rewrite length_app in E. lia.
  - rewrite app_nil_r in E. apply (f_equal length) in E. rewrite length_app in E. lia.
Qed.

(** ** The reader *)

Section Reader.
Context {EP : Endpoint} {EL : EndpointLaws EP} (env : gunyah_env) (Hstack : stack_ok env).
Context (p : gunyah_pipe) (Hp : lay p).

Lemma drop_queued m : sane m p -> drop (Z.to_nat (queued m p)) (stream m p) = [].
Proof. intros H. apply drop_ge. pose proof (length_stream p Hp m H). lia. Qed.

Lemma held_nil rg : ring_ok rg -> r_offset rg = 0 -> held rg = [].
Proof. intros _ H0. unfold held. by rewrite H0. Qed.

(** What a turn does to the packets under way. *)
Lemma turn_carries rg g g' flight unsent :
  ready p rg g -> loop_turn p rg g g' -> 0 < queued (g_mem g) p -> carries (held rg) (r_len rg) (stream (g_mem g) p) flight unsent ->
  exists rg' n pkts flight', flight = pkts ++ flight' /\ turned p g g' n pkts /\ 0 < n /\ ready p rg' g' /\
    carries (held rg') (r_len rg') (stream (g_mem g') p) flight' unsent.
Proof.
  intros H Ht Hq Hc. pose proof (length_stream p Hp _ (ry_sane _ _ _ H)) as Hls. set (strm := stream (g_mem g) p) in *. set (q := queued (g_mem g) p) in *.
  pose proof (drop_queued _ (ry_sane _ _ _ H)) as Hdq. fold q strm in Hdq.
  destruct Ht as [size H0 Es Hn|H0 Hf].
  - rewrite (held_nil rg) in Hc by (done || apply H).
    destruct (carries_first _ _ _ _ Hc) as (pkt & rest & -> & Hpkt & Hk & Ecat); [by intros E; rewrite E in Hls; cbn in Hls; lia|].
    assert (size = Z.of_nat (length pkt)) as ->.
    { rewrite (pk_size _ Hpkt) in Es; [by injection Es|pose proof (length_span p (g_mem g) (rd32 (g_mem g) (p_tail p)) 32); lia|].
      assert (hdr_known pkt <= 24)%nat as H24 by (unfold hdr_known; lia). replace (hdr_known pkt) with (Z.to_nat (Z.of_nat (hdr_known pkt))) by lia.
      rewrite (take_span p), (span_stream p), Nat2Z.id by (lia || apply H || fold q; lia). fold strm.
      eapply take_prefix; [exact Ecat|done|unfold hdr_known; lia]. }
    destruct Hpkt as [_ Hlen _]. destruct Hn as [Hbad Ht Hr|rg1 Hs Ht Hr H1|rg1 Hs Ht Hr Hrl Hh]; [lia| |].
    + fold q strm in Hs, Ht. destruct (carries_whole [] _ strm pkt rest unsent (length pkt) Hc) as [E1 Hc']; [done|lia|]. cbn in E1.
      rewrite Nat2Z.id, E1 in Ht. exists rg1, (Z.of_nat (length pkt)), [pkt], rest. split; [done|]. split; [done|]. split; [lia|]. split; [done|].
      rewrite (held_nil rg1) by (done || apply Hr). rewrite (ad_stream _ _ _ _ (tu_adv _ _ _ _ _ Ht)), Nat2Z.id. apply Hc'.
    + fold q strm in Hs, Ht, Hh. exists rg1, q, [], (pkt :: rest). split; [done|]. split; [done|]. split; [done|]. split; [done|].
      rewrite (ad_stream _ _ _ _ (tu_adv _ _ _ _ _ Ht)). fold strm. rewrite Hdq, Hh, Hrl. apply (carries_part [] (r_len rg) strm pkt); [done|cbn; lia].
  - pose proof (length_held rg (ry_ring _ _ _ H)) as Hlh.
    pose proof (ca_part _ _ _ _ _ Hc) as [E|(pkt & rest & -> & Erl & Hlt)]; [rewrite E in Hlh; cbn in Hlh; lia|].
    destruct Hf as [rg1 Hs Ht Hr H1|rg1 Hs Ht Hr Hrl Hh].
    + fold q strm in Hs, Ht. destruct (carries_whole (held rg) _ strm pkt rest unsent (length pkt - length (held rg)) Hc) as [E1 Hc']; [lia|lia|].
      replace (Z.to_nat (r_len rg - r_offset rg)) with (length pkt - length (held rg))%nat in Ht by lia. rewrite E1 in Ht.
      exists rg1, (r_len rg - r_offset rg), [pkt], rest. split; [done|]. split; [done|]. split; [lia|]. split; [done|].
      rewrite (held_nil rg1) by (done || apply Hr). rewrite (ad_stream _ _ _ _ (tu_adv _ _ _ _ _ Ht)).
      replace (Z.to_nat (r_len rg - r_offset rg)) with (length pkt - length (held rg))%nat by lia. apply Hc'.
    + fold q strm in Hs, Ht, Hh. exists rg1, q, [], (pkt :: rest). split; [done|]. split; [done|]. split; [done|]. split; [done|].
      rewrite (ad_stream _ _ _ _ (tu_adv _ _ _ _ _ Ht)). fold strm. rewrite Hdq, Hh, Hrl, Erl. apply (carries_part _ (r_len rg)); [done|lia].
Qed.

(** The loop drains the pipe. *)
Lemma loop_drains n : forall fuel rg g flight unsent, ready p rg g -> queued (g_mem g) p <= Z.of_nat n -> (n <= fuel)%nat ->
  carries (held rg) (r_len rg) (stream (g_mem g) p) flight unsent ->
  exists rg' g' pkts flight', read_loop env fuel (W g) = Ret tt (W g') /\ flight = pkts ++ flight' /\ ready p rg' g' /\ kept g g' /\
    same_outside (p_tail p) (p_tail p + 4) (g_mem g) (g_mem g') /\ posted pkts (v_ep (g_vm g)) (v_ep (g_vm g')) /\
    queued (g_mem g') p = 0 /\ carries (held rg') (r_len rg') (stream (g_mem g') p) flight' unsent.
Proof.
  induction n as [|n IH]; intros fuel rg g flight unsent H Hq Hf Hc; pose proof (queued_range p Hp _ (ry_sane _ _ _ H)) as Hqr;
    destruct (Z.eq_dec (queued (g_mem g) p) 0) as [E|E].
  1, 3: exists rg, g, [], flight; split; [|by split_and!]; destruct fuel; cbn [read_loop];
    rewrite run_get_dev, (rd_pipe _ _ _ (ry_reads _ _ _ H)), (run_rx_avail p Hp), E by (apply H); done.
  { lia. }
  destruct fuel as [|fuel]; [lia|]. destruct (run_turn env Hstack p Hp rg g H ltac:(lia)) as (g1 & Ht & Er). rewrite Er.
  destruct (turn_carries rg g g1 flight unsent H Ht ltac:(lia) Hc) as (rg1 & k & pkts & flight1 & -> & [Ha Hpo Hk] & Hk0 & H1 & C1).
  destruct (IH fuel rg1 g1 flight1 unsent H1 ltac:(rewrite (ad_queued _ _ _ _ Ha); lia) ltac:(lia) C1)
    as (rg2 & g2 & pkts2 & flight2 & E2 & -> & H2 & K2 & F2 & P2 & Q2 & C2).
  exists rg2, g2, (pkts ++ pkts2), flight2. split; [done|]. split; [by rewrite app_assoc|]. split; [done|]. split; [by eapply reader_kept_trans|].
  split; [eapply same_outside_trans; [apply Ha|done]|]. split; [by eapply posted_app|]. by split.
Qed.
End Reader.
