(* ===== verification/GunyahSend.v ===== *)
(** * GunyahSend: sending while the reader reads

    The sender of src/net/qrtr/gunyah.c against a reader that may run at each of
    its steps: a packet is appended to the packets under way, whole and in order,
    or the sender gives up because the reader does not read. *)
From stdpp Require Import prelude list.
From S2P Require Import Prelude.
From S2P Require Import Effects.
From S2P Require Import GlinkSmem.
From S2P Require Import QrtrPkt.
From S2P Require Import AfQrtr.
From S2P Require Import Gunyah.
From S2P Require Import GunyahRx.
From S2P Require Import GunyahRing.
From S2P Require Import GunyahTurn.
From S2P Require Import GunyahLink.
#[local] Open Scope kernel_scope.

(** ** More bytes under way *)

Lemma carries_more hd rlen strm flight unsent c :
  carries hd rlen strm flight unsent -> carries hd rlen (strm ++ take c unsent) flight (drop c unsent).
Proof.
  intros [E P T S]. split; [by rewrite <- app_assoc, take_drop|done|done|]. destruct S as [->|(before & pkt & -> & Hl)]; [left; by rewrite drop_nil|right].
  exists before, pkt. split; [done|]. rewrite length_drop. lia.
Qed.

Lemma carries_new hd rlen strm flight pkt c :
  carries hd rlen strm flight [] -> packet pkt -> (hdr_known pkt <= c)%nat ->
  carries hd rlen (strm ++ take c pkt) (flight ++ [pkt]) (drop c pkt).
Proof.
  intros [E P T S] Hpkt Hc. rewrite app_nil_r in E. split.
  - rewrite <- (app_assoc strm), take_drop, app_assoc, E, concat_app. cbn. by rewrite app_nil_r.
  - apply Forall_app_2; [done|]. by constructor.
  - destruct T as [->|(p0 & rest & -> & Hr & Hl)]; [by left|right]. by exists p0, (rest ++ [pkt]).
  - right. exists flight, pkt. split; [done|]. rewrite length_drop. unfold hdr_known in *. lia.
Qed.

(** ** Writing into the free part of a pipe *)

Section Write.
Context (p : gunyah_pipe) (Hp : lay p).

Lemma store_put m off bs : 0 <= off -> off + Z.of_nat (length bs) <= FIFO_SIZE ->
  ring_put m (view p) off bs (store_bytes m (p_fifo p + off) bs).
Proof.
  intros Ho Hl. split.
  - intros x Hx. rewrite (view_length p Hp) in Hx. change (fifo (view p)) with (p_fifo p) in Hx. apply store_bytes_other. lia.
  - intros i Hi. rewrite (view_length p Hp) in *. change (fifo (view p)) with (p_fifo p). destruct (Z.ltb_spec i (Z.of_nat (length bs))).
    + rewrite Z.mod_small by lia. rewrite Z.add_assoc. apply store_bytes_at. lia.
    + apply store_bytes_other. rewrite wrap_cases by lia. destruct (Z.leb_spec FIFO_SIZE (off + i)); lia.
Qed.

(** A store that touches neither the indices, nor the stream, nor the [j] bytes
    written before it. *)
Record wrote (m m' : mem) (j : Z) (bs : list Z) : Prop := {
  wr_head : rd32 m' (p_head p) = rd32 m (p_head p);
  wr_tail : rd32 m' (p_tail p) = rd32 m (p_tail p);
  wr_stream : stream m' p = stream m p;
  wr_span : span m' p (rd32 m (p_head p)) (j + Z.of_nat (length bs)) = span m p (rd32 m (p_head p)) j ++ bs;
}.

Lemma put_frame m m' off bs k pos n : ring_put m (view p) off bs m' -> Z.of_nat (length bs) <= k -> 0 <= n -> k + n <= FIFO_SIZE ->
  pos mod FIFO_SIZE = (off + k) mod FIFO_SIZE -> span m' p pos n = span m p pos n.
Proof.
  intros P Hk Hn Hkn E. unfold span. rewrite <- (ring_mod m'), <- (ring_mod m), (view_length p Hp), E, <- (view_length p Hp), !ring_mod.
  eapply ring_put_rest; [exact Hk|rewrite (view_length p Hp); lia|exact P].
Qed.

Lemma store_free m j off bs : sane m p -> 0 <= j -> off = (rd32 m (p_head p) + j) mod FIFO_SIZE -> off + Z.of_nat (length bs) <= FIFO_SIZE ->
  j + Z.of_nat (length bs) + queued m p <= FIFO_SIZE -> wrote m (store_bytes m (p_fifo p + off) bs) j bs.
Proof.
  intros Hs Hj Eo Hl Hf. pose proof (queued_range p Hp m Hs) as Hq. pose proof (Z.mod_pos_bound (rd32 m (p_head p) + j) FIFO_SIZE ltac:(done)) as Hb.
  rewrite <- Eo in Hb. pose proof (store_put m off bs ltac:(lia) Hl) as P. set (m' := store_bytes m (p_fifo p + off) bs) in *.
  set (n := Z.of_nat (length bs)) in *.
  assert (forall a, a + 4 <= p_fifo p \/ p_fifo p + FIFO_SIZE <= a -> rd32 m' a = rd32 m a) as Hw.
  { intros a Ha. apply (rd32_outside m m' (view p)); [apply P|]. by rewrite (view_length p Hp). }
  assert (rd32 m' (p_head p) = rd32 m (p_head p)) as Eh by (apply Hw, Hp). assert (rd32 m' (p_tail p) = rd32 m (p_tail p)) as Et by (apply Hw, Hp).
  set (h := rd32 m (p_head p)) in *. set (t := rd32 m (p_tail p)) in *.
  assert (queued m p = (h - t) mod FIFO_SIZE) as Eq by (unfold queued, used; by rewrite (view_length p Hp)).
  assert (queued m' p = queued m p) as Eq' by (unfold queued, used; change (head (view p)) with (p_head p); change (tail (view p)) with (p_tail p);
    by rewrite Eh, Et).
  split; [done|done| |].
  - unfold stream, contents. fold (queued m' p) (queued m p). change (tail (view p)) with (p_tail p). rewrite Eq', Et. fold t.
    apply (put_frame m m' off bs (FIFO_SIZE - j - queued m p)); [done|lia..|]. rewrite Eo, Zplus_mod_idemp_l, Eq.
    replace (h + j + (FIFO_SIZE - j - (h - t) mod FIFO_SIZE)) with (h - (h - t) mod FIFO_SIZE + 1 * FIFO_SIZE) by lia.
    rewrite Z.mod_add, Zminus_mod_idemp_r by done. f_equal. lia.
  - fold h. unfold span. rewrite Z2Nat.inj_add, ring_app by lia. fold (span m' p h j) (span m p h j). unfold n. rewrite Nat2Z.id. f_equal.
    + apply (put_frame m m' off bs (FIFO_SIZE - j)); [done|lia..|]. rewrite Eo, Zplus_mod_idemp_l.
      replace (h + j + (FIFO_SIZE - j)) with (h + 1 * FIFO_SIZE) by lia. by rewrite Z.mod_add.
    + rewrite Z2Nat.id, <- ring_mod, (view_length p Hp), <- Eo by lia. apply (ring_put_same m); [rewrite (view_length p Hp); lia|exact P].
Qed.

(** The new head makes the bytes behind the old one part of the stream. *)
Lemma publish m c : sane m p -> 0 <= c -> c + queued m p < FIFO_SIZE ->
  let m' := wr32 m (p_head p) ((rd32 m (p_head p) + c) mod FIFO_SIZE) in
  sane m' p /\ queued m' p = queued m p + c /\ stream m' p = stream m p ++ span m p (rd32 m (p_head p)) c /\
  rd32 m' (p_tail p) = rd32 m (p_tail p) /\ rd32 m' (p_head p) = (rd32 m (p_head p) + c) mod FIFO_SIZE.
Proof.
  intros Hs Hc Hf m'. pose proof (queued_range p Hp m Hs) as Hq. destruct Hs as [Hh Ht]. set (h' := (rd32 m (p_head p) + c) mod FIFO_SIZE) in *.
  assert (0 <= h' < FIFO_SIZE) as Hb by (by apply Z.mod_pos_bound).
  assert (rd32 m' (p_head p) = h') as Eh by (apply load_le_wr_same_32; unfold FIFO_SIZE in *; lia).
  assert (rd32 m' (p_tail p) = rd32 m (p_tail p)) as Et by (apply rd32_wr32_ne; destruct Hp; lia).
  assert (queued m p = (rd32 m (p_head p) - rd32 m (p_tail p)) mod FIFO_SIZE) as Eq by (unfold queued, used; by rewrite (view_length p Hp)).
  assert (queued m' p = queued m p + c) as Eu.
  { assert (queued m' p = (h' - rd32 m (p_tail p)) mod FIFO_SIZE) as -> by (unfold queued, used; change (head (view p)) with (p_head p);
      change (tail (view p)) with (p_tail p); by rewrite Eh, Et, (view_length p Hp)).
    unfold h'. rewrite Zminus_mod_idemp_l. replace (rd32 m (p_head p) + c - rd32 m (p_tail p)) with (rd32 m (p_head p) - rd32 m (p_tail p) + c) by lia.
    rewrite <- Zplus_mod_idemp_l, <- Eq. apply Z.mod_small. lia. }
  split; [by split; rewrite ?Eh, ?Et|]. split; [done|]. split; [|done]. unfold stream, contents. fold (queued m' p) (queued m p).
  change (tail (view p)) with (p_tail p).
  rewrite Et, Eu, Z2Nat.inj_add, ring_app by lia. unfold m'. rewrite !ring_wr32 by (rewrite ?(view_length p Hp); done || apply Hp). f_equal. unfold span.
  rewrite Z2Nat.id, <- ring_mod, (view_length p Hp), Eq, Zplus_mod_idemp_r by lia.
  replace (rd32 m (p_tail p) + (rd32 m (p_head p) - rd32 m (p_tail p))) with (rd32 m (p_head p)) by lia. by rewrite Z.mod_small.
Qed.
End Write.

(** ** The two machines on a pipe *)

Section Send.
Context {EP : Endpoint} {EL : EndpointLaws EP} (env eb : gunyah_env) (Hstack : stack_ok eb).
Context (p : gunyah_pipe) (Hp : lay p) (rfuel : nat) (Hrfuel : FIFO_SIZE <= Z.of_nat rfuel).

(** The other machine's view of the state. *)
Definition swap (g : gstate) : gstate := mk_g (g_mem g) (g_peer g) (g_vm g).

(** The doorbell of the other machine rings: it reads. *)
Definition peer_reads (g : gstate) : gstate :=
  match qrtr_gunyah_read eb rfuel (W (swap g)) with
  | Ret _ w => swap (w_st w)
  | _ => g
  end.

(** Of the packets [all], the other machine's router has been given some since
    it was [st0], the rest is under way. *)
Record link (st0 : ep_state) (all : list (list Z)) (unsent : list Z) (g : gstate) : Prop := {
  lk_tx : tx_pipe (v_dev (g_vm g)) = p;
  lk_lock : v_dbl_lock (g_peer g) = false;
  lk_flow : exists rg sent flight, all = sent ++ flight /\ ready p rg (swap g) /\ posted sent st0 (v_ep (g_peer g)) /\
    carries (held rg) (r_len rg) (stream (g_mem g) p) flight unsent;
}.

Lemma link_sane st0 all unsent g : link st0 all unsent g -> sane (g_mem g) p.
Proof. intros [_ _ (rg & sent & flight & _ & [_ _ H] & _)]. exact H. Qed.

(** What a reader leaves alone. *)
Record read_past (g g' : gstate) : Prop := {
  rp_vm : g_vm g' = g_vm g;
  rp_mem : same_outside (p_tail p) (p_tail p + 4) (g_mem g) (g_mem g');
  rp_queued : queued (g_mem g') p = 0;
}.

Lemma peer_reads_link st0 all unsent g : link st0 all unsent g -> link st0 all unsent (peer_reads g) /\ read_past g (peer_reads g).
Proof.
  intros [Htx Hl (rg & sent & flight & -> & Hr & Hpo & Hc)]. unfold peer_reads. rewrite read_run by done. unfold mbnd.
  pose proof (queued_range p Hp _ (ry_sane _ _ _ Hr)) as Hq.
  destruct (loop_drains eb Hstack p Hp rfuel rfuel rg (set_lock true (swap g)) flight unsent) as (rg1 & g1 & pkts & flight1 & -> & ->
    & H1 & [K1 K2 K3] & F1 & P1 & Q1 & C1);
    [by apply lock_ready|change (queued (g_mem g) p <= Z.of_nat rfuel); cbn in Hq; lia|done|done|].
  cbn in K1, K2, K3. split; [split|]; cbn; [by rewrite K1|done| |by split; cbn].
  exists rg1, (sent ++ pkts), flight1. split; [by rewrite app_assoc|]. split; [exact (lock_ready p false rg1 g1 H1)|]. split; [by eapply posted_app|done].
Qed.

(** ** What a sender relies on while the reader runs *)

(** At most [u] bytes are in the pipe, and [bs] are written behind them. *)
Record writing (st0 : ep_state) (all : list (list Z)) (unsent : list Z) (h u : Z) (bs : list Z) (g : gstate) : Prop := {
  wg_link : link st0 all unsent g;
  wg_head : rd32 (g_mem g) (p_head p) = h;
  wg_span : span (g_mem g) p h (Z.of_nat (length bs)) = bs;
  wg_queued : queued (g_mem g) p <= u;
}.

Definition reading (Q : gstate -> Prop) (w : world gstate) : Prop := Q (w_st w) /\ Forall (eq peer_reads) (w_sched w).

Lemma writing_stable st0 all unsent h u bs g : writing st0 all unsent h u bs g -> writing st0 all unsent h u bs (peer_reads g).
Proof.
  intros [Hl Hh Hb Hu]. destruct (peer_reads_link _ _ _ _ Hl) as [Hl' [_ Hm Hq]]. pose proof (queued_range p Hp _ (link_sane _ _ _ _ Hl)).
  split; [done| | |lia].
  - rewrite <- Hh. eapply frame_rd32; [exact Hm|apply Hp].
  - rewrite <- Hb at 2. by apply span_frame.
Qed.

Section Steps.
Context (st0 : ep_state) (all : list (list Z)) (unsent : list Z) (h u : Z).

#[local] Abbreviation on bs := (reading (writing st0 all unsent h u bs)).

Lemma yield_reading bs w : on bs w -> sure (yield w) (fun _ => on bs).
Proof.
  intros [H Hs]. unfold yield. destruct (w_sched w) as [|f sched] eqn:E; [by split; rewrite ?E|]. inversion Hs as [|? ? <- ?].
  split; cbn; [by apply writing_stable|done].
Qed.

Lemma head_reading bs w : on bs w -> sure (rd_shared (p_head p) w) (fun v w' => v = h /\ on bs w').
Proof.
  intros H. unfold rd_shared. eapply sure_step; [by apply yield_reading|]. intros [] w' Hw. split; [apply Hw|done].
Qed.

Lemma vm_reading bs f w : on bs w -> (forall v, tx_pipe (v_dev (f v)) = tx_pipe (v_dev v)) -> sure (upd_vm f w) (fun _ => on bs).
Proof.
  intros [[[Htx Hl (rg & sent & flight & E & [[? ? ? ?] ? ?] & Hpo & Hc)] Hh Hb Hu] Hs] Hv. split; [|done].
  split; [split|..]; cbn; try done; [by rewrite Hv|]. exists rg, sent, flight. split; [done|]. split; [by split; [split|..]|]. by split.
Qed.

Lemma kick_reading bs w : on bs w -> sure (qrtr_gunyah_kick env w) (fun _ => on bs).
Proof.
  intros H. unfold qrtr_gunyah_kick, gh_dbl_send, emit. rewrite run_assoc, run_gets, run_assoc. eapply sure_step; [by apply vm_reading|]. intros [] w' Hw.
  rewrite run_ret. unfold get_dev. rewrite run_gets. destruct (_ && _); [|done]. unfold upd_dev. by apply vm_reading.
Qed.

Lemma answer_reading bs {A : Type} (f : nat -> A) w : on bs w -> sure (answer f w) (fun a w' => (exists k, a = f k) /\ on bs w').
Proof. intros H. unfold answer, emit. rewrite run_gets. eapply sure_step; [by apply vm_reading|]. intros [] w' Hw. split; [by eexists|done]. Qed.

(** A store that the packets under way do not see. *)
Lemma link_store g m' : link st0 all unsent g -> bytes_ok m' -> sane m' p -> stream m' p = stream (g_mem g) p ->
  link st0 all unsent (g <| g_mem := m' |>).
Proof.
  intros [Htx Hl (rg & sent & flight & E & [[Hm ? ? ?] ? Hs] & Hpo & Hc)] Hb Hsane Hstr. split; [done|done|]. exists rg, sent, flight.
  split; [done|]. split; [by split; [split|..]|]. split; [done|]. cbn. by rewrite Hstr.
Qed.

Lemma link_bytes g : link st0 all unsent g -> bytes_ok (g_mem g).
Proof. by intros [_ _ (rg & sent & flight & _ & [[Hm _ _ _] _ _] & _)]. Qed.

Lemma fifo_write_reading bs off piece w :
  on bs w -> is_bytes piece -> off = (h + Z.of_nat (length bs)) mod FIFO_SIZE \/ piece = [] -> off + Z.of_nat (length piece) <= FIFO_SIZE ->
  Z.of_nat (length bs) + Z.of_nat (length piece) + u <= FIFO_SIZE -> sure (copy_toio p off piece w) (fun _ => on (bs ++ piece)).
Proof.
  intros H Hpb Ho Hl Hu. unfold copy_toio. destruct (Z.eqb_spec (Z.of_nat (length piece)) 0) as [E|E].
  { destruct piece; [|done]. by rewrite app_nil_r. }
  destruct Ho as [Ho| ->]; [|done]. pose proof (Z.mod_pos_bound (h + Z.of_nat (length bs)) FIFO_SIZE ltac:(done)).
  rewrite (lay_length _ Hp), (proj2 (Z.leb_le 0 off)), (proj2 (Z.leb_le (off + _) _)) by lia. cbn [andb].
  eapply sure_step; [by apply yield_reading|]. intros [] w' [[Hlk Hh Hb Hq] Hs]. split; [|done]. rewrite <- Hh in Ho.
  destruct (store_free p Hp (g_mem (w_st w')) (Z.of_nat (length bs)) off piece) as [W1 W2 W3 W4]; [by eapply link_sane|lia|done|done|lia|].
  pose proof (link_sane _ _ _ _ Hlk) as [S1 S2].
  set (m' := store_bytes (g_mem (w_st w')) (p_fifo p + off) piece) in *.
  assert (queued m' p = queued (g_mem (w_st w')) p) as Eq.
  { unfold queued, used. change (head (view p)) with (p_head p). change (tail (view p)) with (p_tail p). by rewrite W1, W2. }
  split; [|exact (eq_trans W1 Hh)| |exact (eq_ind_r (fun q => q <= u) Hq Eq)].
  - apply link_store; [done| |by split; rewrite ?W1, ?W2|done]. apply bytes_ok_store_bytes; [by apply link_bytes|done].
  - change (span m' p h (Z.of_nat (length (bs ++ piece))) = bs ++ piece). by rewrite length_app, Nat2Z.inj_add, <- Hh, W4, Hh, Hb.
Qed.

(** ** A copy of [n] bytes *)

Lemma copy_pieces_reading j0 buflen sg : forall offset bs w,
  on bs w -> Forall is_bytes sg -> Z.of_nat (length bs) = j0 + offset -> 0 <= offset <= buflen -> 0 <= j0 ->
  (h + j0) mod FIFO_SIZE + buflen <= FIFO_SIZE -> j0 + buflen + u <= FIFO_SIZE ->
  sure (copy_pieces p ((h + j0) mod FIFO_SIZE) buflen sg offset w) (fun rc w' =>
    rc = Z.min buflen (offset + Z.of_nat (length (concat sg))) /\ on (bs ++ take (Z.to_nat (buflen - offset)) (concat sg)) w').
Proof.
  pose proof (Z.mod_pos_bound (h + j0) FIFO_SIZE ltac:(done)) as Hpos.
  induction sg as [|piece sg IH]; intros offset bs w H Hb Hl Ho Hj Hpl Hu; cbn [copy_pieces concat].
  { rewrite take_nil, app_nil_r. split; [cbn; lia|done]. }
  apply Forall_cons in Hb as [Hb1 Hb2].
  destruct (Z.ltb_spec offset buflen) as [Hlt|Hlt]; [|split; [lia|]; replace (Z.to_nat (buflen - offset)) with O by lia; by rewrite take_0, app_nil_r].
  set (len := Z.min (Z.of_nat (length piece)) (buflen - offset)).
  assert (Z.of_nat (length (take (Z.to_nat len) piece)) = len) as Elen by (rewrite length_take; lia).
  eapply sure_step; [apply (fifo_write_reading bs); [done|by apply Forall_take|left|lia|lia]|].
  { rewrite Hl, Z.add_assoc, <- (Zplus_mod_idemp_l (h + j0)). symmetry. apply Z.mod_small. lia. }
  intros [] w1 H1. eapply sure_mono; [apply (IH (offset + len) _ w1 H1); [done|rewrite length_app; lia|lia..]|].
  intros rc w2 [-> H2]. split; [rewrite length_app; lia|]. rewrite take_app, app_assoc.
  replace (take (Z.to_nat (buflen - offset)) piece) with (take (Z.to_nat len) piece).
  - by replace (Z.to_nat (buflen - offset) - length piece)%nat with (Z.to_nat (buflen - (offset + len))) by lia.
  - subst len. destruct (Z.min_spec (Z.of_nat (length piece)) (buflen - offset)) as [[? ->]|[? ->]]; [|done]. rewrite !take_ge by lia. done.
Qed.

Lemma sg_miter_skip_some sg : forall skip, (skip <= length (concat sg))%nat -> exists sg', sg_miter_skip sg skip = Some sg' /\
  concat sg' = drop skip (concat sg) /\ (Forall is_bytes sg -> Forall is_bytes sg').
Proof.
  induction sg as [|piece sg IH]; intros skip Hs; cbn [sg_miter_skip concat] in *;
    [assert (skip = 0%nat) as -> by (cbn in Hs; lia); by exists []|]. rewrite length_app in Hs.
  destruct (Nat.ltb_spec skip (length piece)) as [Hlt|Hlt].
  - eexists. split; [done|]. split; [cbn [concat]; by rewrite drop_app_le by lia|]. intros HF. inversion HF. constructor; [by apply Forall_drop|done].
  - destruct (IH (skip - length piece)%nat ltac:(lia)) as (sg' & E & Ec & Hb). exists sg'. split; [done|]. split; [|intros HF; inversion HF; auto].
    rewrite Ec, drop_app, (drop_ge piece) by lia. done.
Qed.

Lemma sg_copy_reading j0 sg bs data buflen w :
  on bs w -> Forall is_bytes sg -> Z.of_nat (length bs) = j0 -> concat sg = data -> 0 <= buflen ->
  (h + j0) mod FIFO_SIZE + buflen <= FIFO_SIZE -> j0 + buflen + u <= FIFO_SIZE -> forall skip, 0 <= skip -> skip + buflen <= Z.of_nat (length data) ->
  sure (gunyah_sg_copy_toio p sg ((h + j0) mod FIFO_SIZE) buflen skip w) (fun rc w' =>
    rc = buflen /\ on (bs ++ take (Z.to_nat buflen) (drop (Z.to_nat skip) data)) w').
Proof.
  intros H Hb Hl <- Hn Hpl Hu skip Hs1 Hs2. unfold gunyah_sg_copy_toio. destruct (sg_miter_skip_some sg (Z.to_nat skip)) as (sg' & -> & Ec & Hb'); [lia|].
  eapply sure_mono; [apply (copy_pieces_reading j0 buflen sg' 0 bs); [done|auto|lia..]|]. intros rc w' [-> H']. rewrite Ec, Z.sub_0_r in *. split; [|done].
  rewrite length_drop. lia.
Qed.

(** The copy of a chunk wraps at the end of the buffer. *)
Lemma chunk_split data o c : 0 <= o -> 0 <= c -> o + c <= Z.of_nat (length data) -> forall len, 0 <= len <= c ->
  take (Z.to_nat len) (drop (Z.to_nat o) data) ++ take (Z.to_nat (c - len)) (drop (Z.to_nat (o + len)) data) =
  take (Z.to_nat c) (drop (Z.to_nat o) data) :> list Z.
Proof.
  intros ??? len Hl. replace (Z.to_nat (o + len)) with (Z.to_nat o + Z.to_nat len)%nat by lia. rewrite <- drop_drop.
  replace (Z.to_nat c) with (Z.to_nat len + Z.to_nat (c - len))%nat by lia. by rewrite take_take_drop.
Qed.

(** ** The new head *)

(** The bytes [bs] behind the stream continue what is under way. *)
Definition growth (bs : list Z) (all' : list (list Z)) (unsent' : list Z) : Prop := exists add, all' = all ++ add /\
  forall hd rlen strm flight, carries hd rlen strm flight unsent -> carries hd rlen (strm ++ bs) (flight ++ add) unsent'.

#[local] Abbreviation sent bs all' unsent' := (reading (fun g => exists h', writing st0 all' unsent' h' (u + Z.of_nat (length bs)) [] g)).

Lemma tx_advance_reading bs all' unsent' w : on bs w -> growth bs all' unsent' -> 0 <= u -> Z.of_nat (length bs) + u < FIFO_SIZE ->
  sure (tx_advance p h (Z.of_nat (length bs)) w) (fun _ => sent bs all' unsent').
Proof.
  intros H Hg H0 Hu. unfold tx_advance. cbv zeta. rewrite (lay_length _ Hp). set (n := Z.of_nat (length bs)) in *.
  assert (0 <= h < FIFO_SIZE) as Hh by (destruct H as [[Hlk <- _ _] _]; apply (link_sane _ _ _ _ Hlk)).
  assert ((if FIFO_SIZE <=? u32 (h + n) then u32 (u32 (h + n) - FIFO_SIZE) else u32 (h + n)) = (h + n) mod FIFO_SIZE) as ->.
  { rewrite (u32_small (h + n)) by (unfold FIFO_SIZE in *; lia). destruct (Z.leb_spec FIFO_SIZE (h + n)); [|by rewrite Z.mod_small by lia].
    rewrite u32_small by (unfold FIFO_SIZE in *; lia). rewrite <- (Z.mod_small (h + n - FIFO_SIZE) FIFO_SIZE) by lia.
    replace (h + n - FIFO_SIZE) with (h + n + (-1) * FIFO_SIZE) by lia. by apply Z.mod_add. }
  unfold wr_shared. eapply sure_step; [by apply (yield_reading bs)|]. intros [] w' [[Hlk Eh Hb Hq] Hs]. split; [|done].
  destruct (publish p Hp (g_mem (w_st w')) n) as (Hsane & Hqu & Hstr & _ & Ehd); [by eapply link_sane|lia|lia|]. rewrite Eh in Hsane, Hqu, Hstr, Ehd.
  fold n in Hb. rewrite Hb in Hstr.
  assert (queued (wr32 (g_mem (w_st w')) (p_head p) ((h + n) mod FIFO_SIZE)) p <= u + n) as Hle by lia.
  exists ((h + n) mod FIFO_SIZE). split; [|done|done|done]. destruct Hg as (add & -> & Hg).
  destruct Hlk as [Htx Hl (rg & sent & flight & -> & [[Hm ? ? ?] ? _] & Hpo & Hc)]. split; [done|done|].
  exists rg, sent, (flight ++ add). split; [by rewrite app_assoc|]. split; [split; [split|..]; try done; by apply (bytes_ok_store_le 4)|].
  split; [done|]. change (carries (held rg) (r_len rg) (stream (wr32 (g_mem (w_st w')) (p_head p) ((h + n) mod FIFO_SIZE)) p) (flight ++ add) unsent').
  rewrite Hstr. by apply Hg.
Qed.

(** ** A chunk *)

Context (Hu0 : 0 <= u).

Lemma tx_write_reading bs all' unsent' w : on [] w -> is_bytes bs -> growth bs all' unsent' -> Z.of_nat (length bs) + u < FIFO_SIZE ->
  sure (gunyah_tx_write p bs w) (fun _ => sent bs all' unsent').
Proof.
  intros H Hb Hg Hu. unfold gunyah_tx_write. assert (0 <= h < FIFO_SIZE) as Hh by (destruct H as [[Hlk <- _ _] _]; apply (link_sane _ _ _ _ Hlk)).
  eapply sure_step; [by apply (head_reading [])|]. intros ? w1 [-> H1]. cbv zeta. rewrite (lay_length _ Hp), (proj2 (Z.ltb_ge _ _)) by lia.
  set (len := Z.to_nat (Z.min (Z.of_nat (length bs)) (FIFO_SIZE - h))).
  assert (length (take len bs) = len) as El by (rewrite length_take; lia).
  eapply sure_step; [apply (fifo_write_reading []); [done|by apply Forall_take|left; rewrite Z.add_0_r, Z.mod_small; done|lia|cbn; lia]|].
  intros [] w2 H2. cbn [app] in H2.
  eapply sure_step; [apply (fifo_write_reading (take len bs)); [done|by apply Forall_drop| |rewrite length_drop; lia|rewrite length_drop; lia]|].
  - destruct (Z.leb_spec (Z.of_nat (length bs)) (FIFO_SIZE - h)); [right; apply drop_ge; lia|left]. rewrite El.
    replace (h + Z.of_nat len) with (0 + 1 * FIFO_SIZE) by lia. by rewrite Z.mod_add.
  - intros [] w3 H3. rewrite take_drop in H3. by apply tx_advance_reading.
Qed.

Lemma sg_write_reading sg data o c all' unsent' w : let bs := take (Z.to_nat c) (drop (Z.to_nat o) data) in
  on [] w -> Forall is_bytes sg -> concat sg = data -> 0 <= o -> 0 < c -> o + c <= Z.of_nat (length data) -> growth bs all' unsent' -> c + u < FIFO_SIZE ->
  sure (gunyah_sg_write p sg o c w) (fun _ => sent bs all' unsent').
Proof.
  intros bs H Hb Ed Ho Hc Hoc Hg Hu. unfold gunyah_sg_write.
  assert (0 <= h < FIFO_SIZE) as Hh by (destruct H as [[Hlk <- _ _] _]; apply (link_sane _ _ _ _ Hlk)).
  assert (Z.of_nat (length bs) = c) as Elb by (subst bs; rewrite length_take, length_drop; lia).
  eapply sure_step; [by apply (head_reading [])|]. intros ? w1 [-> H1]. cbv zeta. rewrite (lay_length _ Hp), (proj2 (Z.ltb_ge _ _)) by lia.
  set (len := Z.min c (FIFO_SIZE - h)). unfold truth at 1. rewrite (proj2 (Z.eqb_neq len 0)) by lia. cbn [negb]. rewrite run_assoc.
  eapply sure_step; [rewrite <- (Z.mod_small h FIFO_SIZE) at 1 by done; rewrite <- (Z.add_0_r h) at 1; by eapply (sg_copy_reading 0 sg [] data); try done;
    rewrite ?Z.add_0_r, ?Z.mod_small; lia|].
  intros ? w2 [-> H2]. cbn [app] in H2. rewrite run_ret.
  eapply sure_step; [instantiate (1 := fun _ => on bs)|intros [] w3 H3;
    pose proof (tx_advance_reading bs all' unsent' w3 H3 Hg Hu0) as Ha; rewrite Elb in Ha |- *; by apply Ha].
  destruct (Z.eqb_spec len c) as [E|E]; cbn [negb]; [by rewrite E in H2|].
  assert ((h + len) mod FIFO_SIZE = 0) as E0 by (replace (h + len) with (0 + 1 * FIFO_SIZE) by lia; by rewrite Z.mod_add).
  eapply sure_step; [rewrite <- E0; eapply (sg_copy_reading len sg _ data); [exact H2|done|rewrite length_take, length_drop; lia|done|lia|lia|lia|lia|lia]|].
  intros ? w3 [-> H3]. rewrite chunk_split in H3 by lia. done.
Qed.

(** ** Waiting for room *)

Lemma tx_room_reading g : writing st0 all unsent h u [] g ->
  free_room FIFO_SIZE (rd32 (g_mem g) (p_head p)) (rd32 (g_mem g) (p_tail p)) = Z.max 0 (FIFO_SIZE - queued (g_mem g) p - 8).
Proof. intros [Hl _ _ _]. apply (tx_room_queued p Hp). by eapply link_sane. Qed.

Lemma writing_queued g : writing st0 all unsent h u [] g ->
  0 <= queued (g_mem g) p <= u /\ writing st0 all unsent h (queued (g_mem g) p) [] g.
Proof. intros [Hl Hh Hb Hu]. pose proof (queued_range p Hp _ (link_sane _ _ _ _ Hl)). split; [lia|by split]. Qed.

Lemma tx_avail_reading w : on [] w -> sure (gunyah_tx_avail p w) (fun a w' =>
  exists v, 0 <= v <= u /\ a = Z.max 0 (FIFO_SIZE - v - 8) /\ reading (writing st0 all unsent h v []) w').
Proof.
  intros H. unfold gunyah_tx_avail. eapply sure_step; [by apply (head_reading [])|]. intros ? w1 [-> H1]. unfold rd_shared. rewrite run_assoc.
  eapply sure_step; [by apply (yield_reading [])|]. intros [] w2 [H2 Hs]. destruct (writing_queued _ H2) as [Hq Hw].
  exists (queued (g_mem (w_st w2)) p). split; [done|]. split; [|done]. rewrite (lay_length _ Hp), <- (tx_room_reading _ H2).
  by rewrite (wg_head _ _ _ _ _ _ _ H2).
Qed.

Lemma has_room_reading g : writing st0 all unsent h u [] g -> tx_has_room g = negb (Z.max 0 (FIFO_SIZE - queued (g_mem g) p - 8) =? 0).
Proof. intros H. unfold tx_has_room. rewrite (lk_tx _ _ _ _ (wg_link _ _ _ _ _ _ _ H)), (lay_length _ Hp), tx_room_reading by done. done. Qed.

(** The reader makes room, if it runs. *)
Lemma wait_room_reading n w : on [] w -> sure (wait_upto n tx_has_room w) (fun ok w' => on [] w' /\
  if ok : bool then queued (g_mem (w_st w')) p + 8 < FIFO_SIZE else n = O \/ w_sched w' = []).
Proof.
  intros [H Hs]. unfold wait_upto. destruct w as [g sched]. cbn [w_st w_sched] in *.
  assert (forall k g' sched', writing st0 all unsent h u [] g' -> Forall (eq peer_reads) sched' -> tx_has_room g' = true ->
    let '(b, w') := wait_turns_upto k tx_has_room g' sched' in b = true /\ on [] w' /\ queued (g_mem (w_st w')) p + 8 < FIFO_SIZE) as Hgo.
  { intros k g' sched' H' Hs' E. assert (wait_turns_upto k tx_has_room g' sched' = (true, mk_world g' sched')) as -> by (destruct k; cbn; by rewrite E).
    split; [done|]. split; [done|]. rewrite has_room_reading in E by done. apply negb_true_iff, Z.eqb_neq in E. cbn. lia. }
  destruct (tx_has_room g) eqn:E; [specialize (Hgo n g sched H Hs E); destruct (wait_turns_upto _ _ _ _) as [b w']; by destruct Hgo as (-> & ? & ?)|].
  destruct n as [|n]; [cbn; rewrite E; split; [done|by left]|]. cbn [wait_turns_upto]. rewrite E.
  destruct sched as [|f sched]; [split; [done|by right]|]. apply Forall_cons in Hs as [<- Hs].
  pose proof (writing_stable _ _ _ _ _ _ _ H) as H'. destruct (peer_reads_link _ _ _ _ (wg_link _ _ _ _ _ _ _ H)) as [_ [_ _ Hq]].
  specialize (Hgo n (peer_reads g) sched H' Hs). rewrite has_room_reading, Hq in Hgo by done. specialize (Hgo eq_refl).
  destruct (wait_turns_upto _ _ _ _) as [b w']. by destruct Hgo as (-> & ? & ?).
Qed.

(** The flag that asks the reader for a doorbell. *)
Lemma notify_reading v w : on [] w -> sure (wr_shared (p_read_notify p) v w) (fun _ => on []).
Proof.
  intros H. unfold wr_shared. eapply sure_step; [by apply (yield_reading [])|]. intros [] w' [[Hlk Hh Hb Hq] Hs]. split; [|done].
  set (m' := wr32 (g_mem (w_st w')) (p_read_notify p) v).
  assert (rd32 m' (p_head p) = rd32 (g_mem (w_st w')) (p_head p)) as Eh by (apply rd32_wr32_ne; destruct Hp; lia).
  assert (rd32 m' (p_tail p) = rd32 (g_mem (w_st w')) (p_tail p)) as Et by (apply rd32_wr32_ne; destruct Hp; lia).
  assert (queued m' p = queued (g_mem (w_st w')) p) as Eq.
  { unfold queued, used. change (head (view p)) with (p_head p). change (tail (view p)) with (p_tail p). by rewrite Eh, Et. }
  pose proof (link_sane _ _ _ _ Hlk) as [S1 S2]. split; [|exact (eq_trans Eh Hh)|done|exact (eq_ind_r (fun q => q <= u) Hq Eq)].
  apply link_store; [done|by apply (bytes_ok_store_le 4), (link_bytes _ Hlk)|by split; rewrite ?Eh, ?Et|].
  unfold stream, contents. fold (queued m' p) (queued (g_mem (w_st w')) p). change (tail (view p)) with (p_tail p). rewrite Eq, Et.
  apply ring_wr32; [by rewrite (view_length p Hp)|rewrite (view_length p Hp); apply Hp].
Qed.

Lemma dev_reading bs {B : Type} (k : qrtr_gunyah_dev -> M gstate B) w Q : on bs w ->
  (forall d, tx_pipe d = p -> sure (k d w) Q) -> sure (mbnd get_dev k w) Q.
Proof. intros H Hk. unfold get_dev. rewrite run_gets. apply Hk, H. Qed.

Lemma wait_reading w : on [] w -> sure (gunyah_wait_for_tx_avail env w) (fun ok w' => on [] w' /\
  if ok : bool then queued (g_mem (w_st w')) p + 8 < FIFO_SIZE else e_timeout env = O \/ w_sched w' = []).
Proof.
  intros H. unfold gunyah_wait_for_tx_avail, gunyah_set_tx_notify. rewrite run_assoc. eapply (dev_reading []); [done|]. intros d ->.
  eapply sure_step; [by apply notify_reading|]. intros [] w1 H1. eapply sure_step; [by apply (kick_reading [])|]. intros [] w2 H2. by apply wait_room_reading.
Qed.
End Steps.

(** ** Sending a packet *)

(** The linear part and the fragments make up the packet. *)
Record skb_ok (skb : sk_buff) : Prop := {
  so_packet : packet (skb_bytes skb);
  so_frags : skb_data_len skb <> 0 -> Forall (fun n => 0 <= n) (skb_frags skb);
  so_linear : skb_data_len skb <= skb_len skb;
  so_sum : skb_data_len skb <> 0 -> fold_right Z.add 0 (skb_frags skb) = skb_data_len skb;
}.

Lemma concat_cut sizes : forall bs, Forall (fun n => 0 <= n) sizes -> fold_right Z.add 0 sizes = Z.of_nat (length bs) -> concat (cut_pieces sizes bs) = bs.
Proof.
  induction sizes as [|n sizes IH]; intros bs Hs E; cbn in *; [by destruct bs|]. apply Forall_cons in Hs as [Hn Hs].
  assert (0 <= fold_right Z.add 0 sizes) as H0 by (clear -Hs; induction Hs; cbn; lia).
  rewrite IH; [apply take_drop|done|rewrite length_drop; lia].
Qed.

Lemma cut_pieces_bytes sizes : forall bs, is_bytes bs -> Forall is_bytes (cut_pieces sizes bs).
Proof. induction sizes as [|n sizes IH]; intros bs Hb; cbn; constructor; [by apply Forall_take|by apply IH, Forall_drop]. Qed.

Lemma skb_pieces_concat skb : skb_ok skb -> skb_data_len skb <> 0 -> concat (skb_pieces skb) = skb_bytes skb.
Proof.
  intros [_ Hf Hl Hs] H0. apply concat_cut; [constructor; [lia|auto]|]. cbn. rewrite Hs by done. unfold skb_len. lia.
Qed.

Section Packet.
Context (skb : sk_buff) (Hskb : skb_ok skb) (Hsg : skb_data_len skb <> 0 -> forall k, 0 <= e_sgvec env k).
Context (st0 : ep_state) (all : list (list Z)).

#[local] Abbreviation data := (skb_bytes skb).

(** How far the packet is sent: what is under way and an upper bound of what is
    in the pipe. *)
Inductive stage : Z -> list (list Z) -> list Z -> Z -> Prop :=
| stage_start u : u + Z.of_nat (hdr_known data) + 8 <= FIFO_SIZE -> stage 0 all [] u
| stage_rest o u : 0 < o -> stage o (all ++ [data]) (drop (Z.to_nat o) data) u.

Lemma stage_less o a us u u' : stage o a us u -> u' <= u -> stage o a us u'.
Proof. intros [v Hv|? v Ho] Hu; constructor; lia. Qed.

Lemma stage_growth o a us u c : stage o a us u -> 0 < c -> o + c <= Z.of_nat (length data) -> c = Z.min (FIFO_SIZE - u - 8) (Z.of_nat (length data) - o) ->
  growth a us (take (Z.to_nat c) (drop (Z.to_nat o) data)) (all ++ [data]) (drop (Z.to_nat (o + c)) data).
Proof.
  intros [v Hv|o' v Ho] Hc Hl Ec.
  - exists [data]. split; [done|]. intros hd rlen strm flight H. apply carries_new; [done|apply Hskb|unfold hdr_known in *; lia].
  - exists []. split; [by rewrite app_nil_r|]. intros hd rlen strm flight H. rewrite app_nil_r, Z2Nat.inj_add, <- drop_drop by lia. by apply carries_more.
Qed.

Lemma write_chunk_reading o c a us h u w : reading (writing st0 a us h u []) w -> stage o a us u -> 0 <= u -> 0 <= o -> 0 < c ->
  c = Z.min (FIFO_SIZE - u - 8) (Z.of_nat (length data) - o) ->
  sure (write_chunk env skb o c w) (fun rc w' => 0 <= rc /\
    exists h', reading (writing st0 (all ++ [data]) (drop (Z.to_nat (o + c)) data) h' (u + c) []) w').
Proof.
  intros H Hst Hu Ho Hc Ec. pose proof (stage_growth o a us u c Hst Hc ltac:(lia) Ec) as Hg. set (bs := take (Z.to_nat c) (drop (Z.to_nat o) data)) in *.
  assert (Z.of_nat (length bs) = c) as Elb by (subst bs; rewrite length_take, length_drop; lia).
  assert (forall rc w', 0 <= rc ->
    reading (fun g => exists h', writing st0 (all ++ [data]) (drop (Z.to_nat (o + c)) data) h' (u + Z.of_nat (length bs)) [] g) w' ->
    0 <= rc /\ exists h', reading (writing st0 (all ++ [data]) (drop (Z.to_nat (o + c)) data) h' (u + c) []) w') as Hend.
  { intros rc w' Hrc [[h' H'] Hs]. rewrite Elb in H'. split; [done|]. by exists h'. }
  unfold write_chunk. eapply (dev_reading st0 a us h u []); [done|]. intros d ->. unfold truth. destruct (Z.eqb_spec (skb_data_len skb) 0) as [E|E]; cbn [negb].
  - eapply sure_step; [eapply (tx_write_reading st0 a us h u Hu bs); [done|by apply Forall_take, Forall_drop, (pk_bytes _ (so_packet _ Hskb))|exact Hg|lia]|].
    intros [] w1 H1. by apply Hend.
  - eapply sure_step; [by apply (answer_reading st0 a us h u [])|]. intros rc w1 [[k ->] H1]. specialize (Hsg E k). rewrite (proj2 (Z.ltb_ge _ _)) by done.
    eapply sure_step; [eapply (sg_write_reading st0 a us h u Hu (skb_pieces skb) data o c); [done| |by apply skb_pieces_concat|lia..|exact Hg|lia]|].
    + apply cut_pieces_bytes, (pk_bytes _ (so_packet _ Hskb)).
    + intros [] w2 H2. by apply Hend.
Qed.

(** What sending leaves: the packet is under way, or the reader did not run. *)
Definition sent_or_stalled (rc : Z) (w : world gstate) : Prop :=
  (0 <= rc /\ exists h u, reading (writing st0 (all ++ [data]) [] h u []) w) \/
  (rc = - ETIMEDOUT /\ (e_timeout env = O \/ w_sched w = []) /\ exists a us h u, reading (writing st0 a us h u []) w).

Definition has_room (u : Z) : Z := if u + 8 <? FIFO_SIZE then 1 else 0.

Lemma sent_all o a us h u rc w : reading (writing st0 a us h u []) w -> stage o a us u -> Z.of_nat (length data) <= o -> 0 <= rc -> sent_or_stalled rc w.
Proof.
  intros H Hst Ho Hrc. pose proof (pk_length _ (so_packet _ Hskb)) as Hlen. left. split; [done|].
  destruct Hst as [|o v]; [lia|]. rewrite drop_ge in H by lia. by eexists h, _.
Qed.

Lemma send_loop_reading fuel : forall o left rc a us h u w,
  reading (writing st0 a us h u []) w -> stage o a us u -> 0 <= u -> 0 <= o -> 0 <= left -> o + left = Z.of_nat (length data) -> 0 <= rc ->
  2 * left <= Z.of_nat fuel + has_room u -> sure (send_loop env fuel skb o left rc w) sent_or_stalled.
Proof.
  pose proof (pk_length _ (so_packet _ Hskb)) as Hlen.
  induction fuel as [|fuel IH]; intros o left rc a us h u w H Hst Hu Ho Hleft Hol Hrc Hf; cbn [send_loop];
    (destruct (Z.leb_spec left 0) as [H0|H0]; [eapply (sent_all o); [done|done|lia|done]|]).
  { unfold has_room in Hf. destruct (_ <? _); lia. }
  eapply (dev_reading st0 a us h u []); [done|]. intros d ->.
  eapply sure_step; [by apply (tx_avail_reading st0 a us h u)|]. intros av w1 (v & Hv & -> & H1).
  destruct (Z.eqb_spec (Z.max 0 (FIFO_SIZE - v - 8)) 0) as [E|E].
  - eapply sure_step; [by eapply (wait_reading st0 a us h v)|]. intros [] w2 [H2 Hok].
    + destruct (writing_queued _ _ _ _ _ _ (proj1 H2)) as [Hq Hw].
      eapply (IH o left rc a us h (queued (g_mem (w_st w2)) p)); try done; [split; [done|apply H2]|eapply stage_less; [done|lia]|lia|].
      unfold has_room in *. rewrite (proj2 (Z.ltb_lt _ _)) by done. rewrite (proj2 (Z.ltb_ge _ _)) in Hf by lia. lia.
    + right. split; [done|]. split; [done|]. by exists a, us, h, v.
  - set (c := if Z.max 0 (FIFO_SIZE - v - 8) <? left then Z.max 0 (FIFO_SIZE - v - 8) else left).
    assert (c = Z.min (FIFO_SIZE - v - 8) left) as Ec by (subst c; destruct (Z.ltb_spec (Z.max 0 (FIFO_SIZE - v - 8)) left); lia).
    cbv zeta. fold c. eapply sure_step; [eapply (write_chunk_reading o c a us h v); [done|eapply stage_less; [done|lia]|lia..]|]. intros rc1 w2 [Hrc1 [h' H2]].
    rewrite (proj2 (Z.ltb_ge _ _)) by done. eapply sure_step; [by eapply (kick_reading st0 _ _ h' (v + c) [])|]. intros [] w3 H3.
    eapply (IH (o + c) (left - c) rc1); [exact H3|constructor; lia|lia..|]. unfold has_room in *. case_match; case_match; lia.
Qed.

(** The end of sending: the flag and the buffer. *)
Lemma send_end a us h u rc w (Q : Z -> world gstate -> Prop) : reading (writing st0 a us h u []) w ->
  (forall w', reading (writing st0 a us h u []) w' -> (w_sched w = [] -> w_sched w' = []) -> Q rc w') ->
  sure ((gunyah_clr_tx_notify ;;; emit EvFreeSkb ;;; mret rc) w) Q.
Proof.
  intros H HQ. unfold gunyah_clr_tx_notify. rewrite run_assoc. eapply (dev_reading st0 a us h u []); [done|]. intros d ->.
  pose proof (notify_reading st0 a us h u 0 w H) as Hn. apply sure_run in Hn as (x & w1 & E & H1). unfold mbnd at 1. rewrite E.
  assert (w_sched w = [] -> w_sched w1 = []) as Hs1.
  { intros E0. revert E. unfold wr_shared, mbnd, yield. rewrite E0. cbn. by intros [= <- <-]. }
  unfold emit, upd_vm. rewrite run_modify. apply HQ; [|exact Hs1].
  pose proof (vm_reading st0 a us h u [] (fun v => v <| v_log := EvFreeSkb :: v_log v |>) w1 H1) as Hv. by apply Hv.
Qed.

(** With nothing to come, the next turn of the reader gives its router all that
    was under way. *)
Lemma link_delivers a g : link st0 a [] g -> posted a st0 (v_ep (g_peer (peer_reads g))).
Proof.
  intros H. destruct (peer_reads_link _ _ _ _ H) as [H' [_ _ Hq]]. pose proof (link_sane _ _ _ _ H') as Hs.
  destruct H' as [_ _ (rg & sent & flight & -> & Hr & Hpo & Hc)]. pose proof (length_stream p Hp _ Hs) as Hls. rewrite Hq in Hls.
  assert (stream (g_mem (peer_reads g)) p = []) as E by (destruct (stream _ _); [done|cbn in Hls; lia]). rewrite E in Hc.
  apply carries_done in Hc as ->. by rewrite app_nil_r.
Qed.

Lemma sched_replicate (l : list (gstate -> gstate)) : Forall (eq peer_reads) l -> l = replicate (length l) peer_reads.
Proof. intros H. symmetry. apply replicate_as_elem_of. split; [done|]. intros f Hf. symmetry. rewrite Forall_forall in H. by apply H. Qed.

(** The run of the sender. *)
Definition sent_to_peer (rc : Z) (w : world gstate) : Prop := Forall (eq peer_reads) (w_sched w) /\
  (rc = 0 /\ link st0 (all ++ [data]) [] (w_st w) \/ rc = - ETIMEDOUT /\ (e_timeout env = O \/ w_sched w = [])).

Lemma send_reading fuel g n :
  link st0 all [] g -> queued (g_mem g) p + Z.of_nat (hdr_known data) + 8 <= FIFO_SIZE -> (2 * length data <= fuel)%nat ->
  sure (qrtr_gunyah_send env fuel skb (mk_world g (replicate n peer_reads))) sent_to_peer.
Proof.
  intros Hl Hq Hf. pose proof (queued_range p Hp _ (link_sane _ _ _ _ Hl)) as Hq0.
  unfold qrtr_gunyah_send. eapply sure_step; [eapply (send_loop_reading fuel 0 (skb_len skb) 0 all [] (rd32 (g_mem g) (p_head p)) (queued (g_mem g) p))|].
  - split; [by split|]. by apply Forall_replicate.
  - by constructor.
  - lia.
  - done.
  - unfold skb_len. lia.
  - done.
  - done.
  - unfold skb_len, has_room. case_match; lia.
  - intros rc w1 [[Hrc (h & u & H1)]|(-> & Hw & a & us & h & u & H1)].
    + rewrite (proj2 (Z.ltb_ge _ _)) by done. eapply send_end; [exact H1|]. intros w2 [[H2 _ _ _] Hs2] _. split; [done|by left].
    + eapply send_end; [exact H1|]. intros w2 [_ Hs2] Hw2. split; [done|]. right. split; [done|]. destruct Hw; [by left|right; auto].
Qed.

(** C12. A packet that a machine sends while the other machine reads at any of its
    steps crosses whole, after those sent before it and in their order: the
    sender returns 0, and once the reader runs again its router has been given
    every packet. Otherwise the sender returns -ETIMEDOUT, for it waits no time
    or the reader did not run any more. When the sender starts, the pipe must
    have room for the first part of the packet with the size in it (the first 24
    bytes, or all of a shorter packet) and the 8 bytes that stay free: the reader
    does not find the size of a packet whose header is cut. *)
Theorem packet_crosses fuel g n :
  link st0 all [] g -> queued (g_mem g) p + Z.of_nat (hdr_known data) + 8 <= FIFO_SIZE -> (2 * length data <= fuel)%nat ->
  exists rc g' n', qrtr_gunyah_send env fuel skb (mk_world g (replicate n peer_reads)) = Ret rc (mk_world g' (replicate n' peer_reads)) /\
    (rc = 0 /\ link st0 (all ++ [data]) [] g' /\ posted (all ++ [data]) st0 (v_ep (g_peer (peer_reads g'))) \/
     rc = - ETIMEDOUT /\ (e_timeout env = O \/ n' = O)).
Proof.
  intros Hl Hq Hf. pose proof (send_reading fuel g n Hl Hq Hf) as Hrun.
  apply sure_run in Hrun as (rc & [g' sched] & E & Hs & Hrc). cbn [w_sched w_st] in *. rewrite E, (sched_replicate sched Hs). exists rc, g', (length sched).
  split; [done|]. destruct Hrc as [[-> H']|[-> Hw]]; [left|right].
  - split; [done|]. split; [done|]. by apply link_delivers.
  - split; [done|]. destruct Hw as [|Hw]; [by left|right]. by rewrite Hw.
Qed.
End Packet.
End Send.
