(* ===== verification/GunyahSetup.v ===== *)
(** * GunyahSetup: the two ends of a fresh link

    What qrtr_gunyah_fifo_init of src/net/qrtr/gunyah.c leaves on the two
    machines: the sending pipe of each is the receiving pipe of the other, and
    both are empty. So the packets sent over them cross as GunyahSend.v says. *)
From stdpp Require Import prelude list.
From S2P Require Import Prelude.
From S2P Require Import Effects.
From S2P Require Import GlinkSmem.
From S2P Require Import Gunyah.
From S2P Require Import GunyahRx.
From S2P Require Import GunyahRing.
From S2P Require Import GunyahTurn.
From S2P Require Import GunyahLink.
From S2P Require Import GunyahSend.
#[local] Open Scope kernel_scope.

(** The pipes do not overlap. *)
Lemma pipe_0_lay b : lay (pipe_0 b).
Proof. split; cbn; unfold index_word, FIFO_0_START, TAIL_0_IDX, HEAD_0_IDX, NOTIFY_0_IDX, FIFO_SIZE; lia. Qed.

Lemma pipe_1_lay b : lay (pipe_1 b).
Proof. split; cbn; unfold index_word, FIFO_1_START, FIFO_0_START, TAIL_1_IDX, HEAD_1_IDX, NOTIFY_1_IDX, FIFO_SIZE; lia. Qed.

(** Both indices of a pipe are zero. *)
Definition fresh (m : mem) (p : gunyah_pipe) : Prop := rd32 m (p_head p) = 0 /\ rd32 m (p_tail p) = 0.

Lemma fresh_empty m p : lay p -> fresh m p -> sane m p /\ queued m p = 0 /\ stream m p = [].
Proof.
  intros Hp [Eh Et]. assert (queued m p = 0) as Eq.
  { unfold queued, used. change (head (view p)) with (p_head p). change (tail (view p)) with (p_tail p). rewrite Eh, Et, (view_length p Hp). done. }
  split; [split; rewrite ?Eh, ?Et; done|]. split; [done|]. unfold stream, contents. fold (queued m p). by rewrite Eq.
Qed.

(** ** The index words *)

Section Words.
Context (b : Z).

Definition zero_word (m : mem) (idx : Z) : Prop := rd32 m (index_word b idx) = 0.

Lemma zero_word_descs m idx : 0 <= idx < 10 -> zero_word (zero_descs b m) idx.
Proof.
  intros Hi. unfold zero_word, rd32, zero_descs. set (m' := store_bytes _ _ _).
  assert (forall i, 0 <= i < 40 -> m' (b + i) = 0) as Hz.
  { intros i Hi'. unfold m'. rewrite store_bytes_at by (rewrite length_replicate; lia). rewrite lookup_total_replicate_2; [done|lia]. }
  unfold load_le, index_word. replace (b + 4 * idx + 1) with (b + (4 * idx + 1)) by lia. replace (b + (4 * idx + 1) + 1) with (b + (4 * idx + 2)) by lia.
  replace (b + (4 * idx + 2) + 1) with (b + (4 * idx + 3)) by lia. by rewrite !Hz by lia.
Qed.

Lemma zero_word_zero m idx j : zero_word m idx -> zero_word (wr32 m (index_word b j) 0) idx.
Proof.
  intros H. unfold zero_word in *. destruct (Z.eq_dec idx j) as [->|Hne]; [by apply load_le_wr_same_32|]. rewrite rd32_wr32_ne; [done|unfold index_word; lia].
Qed.

Lemma zero_word_magic m idx v : zero_word m idx -> idx <> 0 -> zero_word (wr32 m (index_word b GUNYAH_MAGIC_IDX) v) idx.
Proof. intros H Hi. unfold zero_word in *. rewrite rd32_wr32_ne; [done|unfold index_word, GUNYAH_MAGIC_IDX; lia]. Qed.

(** All indices of both pipes. *)
Definition zero_words (m : mem) : Prop := forall idx, 1 <= idx <= 6 -> zero_word m idx.

Lemma zero_words_fresh m : zero_words m -> fresh m (pipe_0 b) /\ fresh m (pipe_1 b).
Proof. intros H. split; split; apply H; unfold HEAD_0_IDX, TAIL_0_IDX, HEAD_1_IDX, TAIL_1_IDX; lia. Qed.
End Words.

(** ** The initialisation *)

Section Setup.
Context {EP : Endpoint} {EL : EndpointLaws EP}.

Definition init_mem (is_master : bool) (b : Z) (m : mem) : mem :=
  let '(tx, rx) := if is_master then (pipe_0 b, pipe_1 b) else (pipe_1 b, pipe_0 b) in
  let m := wr32 (if is_master then zero_descs b m else m) (index_word b GUNYAH_MAGIC_IDX) GUNYAH_MAGIC_KEY in
  wr32 (wr32 (wr32 m (p_head tx) 0) (p_read_notify tx) 0) (p_tail rx) 0.

Definition init_dev (d : qrtr_gunyah_dev) : qrtr_gunyah_dev :=
  let '(tx, rx) := if master d then (pipe_0 (base d), pipe_1 (base d)) else (pipe_1 (base d), pipe_0 (base d)) in
  d <| tx_pipe := tx |> <| rx_pipe := rx |>.

Definition initialised (g : gstate) : gstate :=
  let d := v_dev (g_vm g) in g <| g_mem := init_mem (master d) (base d) (g_mem g) |> <| g_vm := (g_vm g) <| v_dev := init_dev d |> |>.

Lemma run_fifo_init g : qrtr_gunyah_fifo_init (W g) = Ret tt (W (initialised g)).
Proof.
  unfold qrtr_gunyah_fifo_init, get_dev, initialised, init_mem, init_dev. rewrite run_gets. cbn [w_st W].
  by destruct (master (v_dev (g_vm g))).
Qed.

Lemma init_bytes is_master b m : bytes_ok m -> bytes_ok (init_mem is_master b m).
Proof.
  intros Hm. unfold init_mem. assert (bytes_ok (if is_master then zero_descs b m else m)) as H.
  { destruct is_master; [|done]. apply bytes_ok_store_bytes; [done|]. by apply Forall_replicate. }
  destruct is_master; by do 4 apply (bytes_ok_store_le 4).
Qed.

Lemma init_words is_master b m : is_master = true \/ zero_words b m -> zero_words b (init_mem is_master b m).
Proof.
  intros Hz idx Hi. unfold init_mem.
  assert (zero_word b (wr32 (if is_master then zero_descs b m else m) (index_word b GUNYAH_MAGIC_IDX) GUNYAH_MAGIC_KEY) idx) as H.
  { apply zero_word_magic; [|lia]. destruct is_master; [apply zero_word_descs; lia|]. destruct Hz as [|Hz]; [done|]. by apply Hz. }
  destruct is_master; cbn [pipe_0 pipe_1 p_head p_tail p_read_notify]; by do 3 apply zero_word_zero.
Qed.

(** A machine that may read: its buffers are allocated, nothing is in them. *)
Record idle_vm (v : vm) : Prop := {
  iv_ring : ring_ok (ring (v_dev v));
  iv_offset : r_offset (ring (v_dev v)) = 0;
  iv_ep : ep_ok (v_ep v);
  iv_lock : v_dbl_lock v = false;
}.

Lemma fresh_link p g : lay p -> fresh (g_mem g) p -> bytes_ok (g_mem g) -> idle_vm (g_peer g) ->
  tx_pipe (v_dev (g_vm g)) = p -> rx_pipe (v_dev (g_peer g)) = p -> link p (v_ep (g_peer g)) [] [] g.
Proof.
  intros Hp Hf Hm [Hr H0 He Hl] Et Er. destruct (fresh_empty _ p Hp Hf) as (Hs & _ & Hst). split; [done|done|].
  exists (ring (v_dev (g_peer g))), [], []. split; [done|]. split; [by split; [split|..]|]. split; [done|].
  rewrite Hst. unfold held. rewrite H0. split; [done|constructor|by left|by left].
Qed.

(** C24. Once both machines, first the master, have set up the shared memory, the
    sending pipe of each is the receiving pipe of the other, and each is ready to
    receive what the other sends, whatever the memory held before. *)
Theorem setup_links g b :
  base (v_dev (g_vm g)) = b -> base (v_dev (g_peer g)) = b -> master (v_dev (g_vm g)) = true -> master (v_dev (g_peer g)) = false ->
  bytes_ok (g_mem g) -> idle_vm (g_vm g) -> idle_vm (g_peer g) ->
  exists g1 g2, qrtr_gunyah_fifo_init (W g) = Ret tt (W g1) /\ qrtr_gunyah_fifo_init (W (swap g1)) = Ret tt (W (swap g2)) /\
    link (pipe_0 b) (v_ep (g_peer g)) [] [] g2 /\ link (pipe_1 b) (v_ep (g_vm g)) [] [] (swap g2).
Proof.
  intros Eb Eb' Em Em' Hm Hv Hv'. exists (initialised g), (swap (initialised (swap (initialised g)))).
  split; [apply run_fifo_init|]. split; [rewrite run_fifo_init; by destruct (initialised (swap (initialised g)))|].
  set (g2 := swap (initialised (swap (initialised g)))).
  assert (g_mem g2 = init_mem false b (init_mem true b (g_mem g))) as E2 by (unfold g2; cbn; by rewrite Em, Em', Eb, Eb').
  assert (v_dev (g_vm g2) = init_dev (v_dev (g_vm g)) /\ v_dev (g_peer g2) = init_dev (v_dev (g_peer g))) as [Ed Ed'] by done.
  assert (tx_pipe (v_dev (g_vm g2)) = pipe_0 b /\ rx_pipe (v_dev (g_vm g2)) = pipe_1 b) as [T1 R1] by (rewrite Ed; unfold init_dev; by rewrite Em, Eb).
  assert (tx_pipe (v_dev (g_peer g2)) = pipe_1 b /\ rx_pipe (v_dev (g_peer g2)) = pipe_0 b) as [T2 R2] by (rewrite Ed'; unfold init_dev; by rewrite Em', Eb').
  assert (bytes_ok (g_mem g2)) as B2 by (rewrite E2; by do 2 apply init_bytes).
  assert (zero_words b (g_mem g2)) as Z2 by (rewrite E2; apply init_words; right; apply init_words; by left).
  destruct (zero_words_fresh b _ Z2) as [F0 F1].
  assert (forall v, idle_vm v -> idle_vm (v <| v_dev := init_dev (v_dev v) |>)) as Hidle.
  { intros v [? ? ? ?]. assert (ring (init_dev (v_dev v)) = ring (v_dev v)) as E by (unfold init_dev; by destruct (master (v_dev v))).
    by split; cbn; rewrite ?E. }
  split; [apply (fresh_link (pipe_0 b) g2)|apply (fresh_link (pipe_1 b) (swap g2))]; try done; by apply pipe_0_lay || apply pipe_1_lay || by apply Hidle.
Qed.
End Setup.
