(* ===== verification/GunyahRouter.v ===== *)
(** * GunyahRouter: the IPC router on the transport between machines

    af_qrtr.c as an instance of the interface of the transport: taking a packet
    from an endpoint waits for nothing, and keeps the state of the router
    consistent. Then the whole way of a message: from a socket of one machine over
    the circular buffer to a socket of the other. *)
From stdpp Require Import prelude gmap list.
From S2P Require Import Prelude.
From S2P Require Import Effects.
From S2P Require Import XArray.
From S2P Require Import Qrtr.
From S2P Require Import QrtrNs.
From S2P Require Import QrtrPkt.
From S2P Require Import AfQrtr.
From S2P Require Import QrtrInv.
From S2P Require Import QrtrSafe.
From S2P Require Import QrtrFlow.
From S2P Require Import QrtrRound.
From S2P Require Import GlinkSmem.
From S2P Require Import Gunyah.
From S2P Require Import GunyahRx.
From S2P Require Import GunyahRing.
From S2P Require Import GunyahTurn.
From S2P Require Import GunyahLink.
From S2P Require Import GunyahSend.
#[local] Open Scope kernel_scope.

(** ** Computations that wait for nothing *)

Definition prompt {S A : Type} (c : M S A) : Prop := forall q, match c (W q) with
  | Ret _ w => w_sched w = []
  | Fault => True
  | Blocked | NoFuel => False
  end.

Section Prompt.
Context {S : Type}.

Lemma prompt_bind {A B : Type} (c : M S A) (k : A -> M S B) : prompt c -> (forall a, prompt (k a)) -> prompt (mbnd c k).
Proof.
  intros Hc Hk q. specialize (Hc q). unfold mbnd. destruct (c (W q)) as [a [q1 sched]| | |]; try done. cbn in Hc. subst. apply Hk.
Qed.

Lemma prompt_ret {A : Type} (a : A) : prompt (mret a : M S A).
Proof. done. Qed.

Lemma prompt_gets {A : Type} (f : S -> A) : prompt (gets f).
Proof. done. Qed.

Lemma prompt_modify (f : S -> S) : prompt (modify f).
Proof. done. Qed.

Lemma prompt_fault {A : Type} : prompt (fault : M S A).
Proof. done. Qed.

Lemma prompt_or_fault {A : Type} (o : option A) : prompt (or_fault o : M S A).
Proof. by destruct o. Qed.

(** What does not fault and waits for nothing returns. *)
Lemma prompt_total {A : Type} (c : M S A) q (Q : A -> S -> Prop) : prompt c -> post (c (W q)) Q -> total (c (W q)) Q.
Proof. intros Hc. specialize (Hc q). by destruct (c (W q)). Qed.
End Prompt.

Create HintDb prompt discriminated.
#[export] Hint Resolve prompt_ret prompt_gets prompt_modify prompt_fault prompt_or_fault : prompt.

Ltac prompts := repeat first
  [ solve [eauto 2 with prompt nocore]
  | match goal with
    | |- prompt (mbnd _ _) => apply prompt_bind; [|intros ?]
    | |- prompt (match ?x with _ => _ end) => destruct x
    end
  | progress cbv beta zeta ].

Section Post.
Context {XC : XaCyclic} (env : qrtr_env).

Lemma prompt_alloc_skb : prompt (alloc_skb env).
Proof. unfold alloc_skb, kmalloc. prompts. Qed.

Lemma prompt_kfree_skb b : prompt (kfree_skb b).
Proof. unfold kfree_skb, emit. prompts. Qed.

Lemma prompt_get_node n : prompt (get_node n).
Proof. unfold get_node. prompts. Qed.

Lemma prompt_upd_node n f : prompt (upd_node n f).
Proof. unfold upd_node, get_node, set_node. prompts. Qed.

Lemma prompt_get_backup len : prompt (qrtr_get_backup len).
Proof. unfold qrtr_get_backup. prompts. Qed.

Lemma prompt_node_assign n nid : prompt (qrtr_node_assign env n nid).
Proof. unfold qrtr_node_assign, get_node, set_node, alloc_skb, kmalloc. prompts. Qed.

Lemma prompt_port_put s : prompt (qrtr_port_put s).
Proof. unfold qrtr_port_put, sock_put, get_sock, set_sock. prompts. Qed.

Lemma prompt_port_lookup port : prompt (qrtr_port_lookup port).
Proof. unfold qrtr_port_lookup, sock_hold, upd_sock, get_sock, set_sock. prompts. Qed.

Lemma prompt_sock_queue s b : prompt (sock_queue_rcv_skb env s b).
Proof. unfold sock_queue_rcv_skb, get_sock, set_sock. prompts. Qed.

Hint Resolve prompt_alloc_skb prompt_kfree_skb prompt_get_node prompt_upd_node prompt_get_backup prompt_node_assign prompt_port_put
  prompt_port_lookup prompt_sock_queue : prompt.

Lemma prompt_post ep data : prompt (qrtr_endpoint_post env ep data).
Proof.
  unfold qrtr_endpoint_post, post_alloc, qrtr_print_skb_failure_reason, post_deliver, emit. prompts.
Qed.
End Post.

(** ** The instance *)

Section Router.
Context {XC : XaCyclic} {XL : XaCyclicLaws XC} (env : qrtr_env) (ep : Z) (task : bool).

(** [task]: whether the thread of the endpoint is created. *)
Instance af_qrtr : Endpoint := {
  ep_state := qrtr;
  ep_post := qrtr_endpoint_post env ep;
  ep_register := qrtr_endpoint_register env (Some ep) true task QRTR_EP_NET_ID_AUTO [];
  ep_unregister := fuel <-- gets (fun q => length (q_nodes q)) ;;; qrtr_endpoint_unregister env fuel ep;
}.

Context (Eok : env_ok env) (Ha : alloc_all env).

Definition registered_router (q : qrtr) : Prop := Inv idle q /\ is_Some (q_eps q !! ep).

Lemma router_post_ok data q : registered_router q -> is_bytes data -> total (qrtr_endpoint_post env ep data (W q)) (fun _ => registered_router).
Proof.
  intros [HI [n He]] Hb. apply prompt_total; [apply prompt_post|].
  destruct (inv_eps _ _ HI ep n He) as [[]|[Hn _]]. eapply post_mono; [by eapply (endpoint_post_ok env Eok idle q ep n); [..|left]|].
  intros rc q' (HI' & Hs & _). split; [done|]. rewrite (st_eps _ _ Hs). by exists n.
Qed.

Instance af_qrtr_laws : EndpointLaws af_qrtr := { ep_ok := registered_router; ep_post_ok := router_post_ok }.
End Router.

(** ** Packets of the router *)

Lemma field_take n off k bs bs' : take k bs = take k bs' -> (off + n <= k)%nat -> (k <= length bs)%nat -> (k <= length bs')%nat ->
  field n off bs = field n off bs'.
Proof.
  intros E Hk H1 H2. rewrite !field_some by lia. do 2 f_equal.
  assert (forall l : list Z, take n (drop off l) = take n (drop off (take k l))) as Ht.
  { intros l. rewrite !take_drop_commute, take_take. do 2 f_equal. lia. }
  by rewrite (Ht bs), (Ht bs'), E.
Qed.

Lemma router_wire_bytes nid type from to c data : is_bytes data -> is_bytes (wire nid type from to c data).
Proof.
  intros Hd. unfold wire, hdr_v1_bytes, is_bytes. rewrite !Forall_app. repeat split; try apply le_bytes_range; [done|].
  unfold wire_pad. apply Forall_replicate. lia.
Qed.

(** A packet of the router announces its length. *)
Lemma wire_packet nid from to c data : u32_addr from -> 0 <= sq_node to < 2 ^ 31 -> 0 <= sq_port to < 2 ^ 31 -> is_bytes data ->
  Z.of_nat (length data) <= 65535 -> packet (wire nid QRTR_TYPE_DATA from to c data).
Proof.
  intros Hf Hn Hp Hb Hl. pose proof (ALIGN_4_bounds (Z.of_nat (length data))) as A. pose proof (length_wire nid QRTR_TYPE_DATA from to c data) as Ew.
  assert (ALIGN (Z.of_nat (length data)) 4 <= 65536) as A2.
  { pose proof (ALIGN_4_mod (Z.of_nat (length data))) as Am. apply Z.mod_divide in Am as [k Ek]; [lia|done]. }
  split; [by apply router_wire_bytes|unfold MAX_PKT_SZ; lia|]. set (pkt := wire nid QRTR_TYPE_DATA from to c data) in *. intros bs Hbs Ht.
  assert (hdr_known pkt = 24%nat) as Hk by (unfold hdr_known; lia). rewrite Hk in Ht.
  pose proof (wire_header nid QRTR_TYPE_DATA from to c data ltac:(done) Hf Hn Hp) as Eh. fold pkt in Eh. unfold hdr_v1_at in Eh.
  assert (field 1 0 pkt = Some QRTR_PROTO_VER_1) as Ev by (unfold pkt, wire; by rewrite first_byte_version).
  assert (field 4 20 pkt = Some (u32 (Z.of_nat (length data)))) as Es.
  { repeat match type of Eh with (?o ≫= _) = _ => destruct o eqn:?; cbn [mbind option_bind] in Eh; [|done] end. congruence. }
  unfold qrtr_peek_pkt_size. rewrite !(field_take _ _ 24 bs pkt) by (done || lia). rewrite Ev, Es. cbn [mbind option_bind].
  rewrite Z.eqb_refl. rewrite (u32_small (Z.of_nat (length data))) by lia. unfold sizeof_hdr_v1. rewrite u32_small, s32_small by lia. by rewrite Ew.
Qed.

(** ** From socket to socket *)

Section Message.
Context {XC : XaCyclic} {XL : XaCyclicLaws XC} (renv : qrtr_env) (ep : Z) (task : bool) (Eok : env_ok renv) (Htakes : env_takes renv).

#[local] Instance router : Endpoint := af_qrtr renv ep task.

#[local] Instance router_laws : EndpointLaws router := af_qrtr_laws renv ep task Eok (proj1 Htakes).

Context (env eb : gunyah_env) (Hstack : stack_ok eb).
Context (p : gunyah_pipe) (Hp : lay p) (rfuel : nat) (Hrfuel : FIFO_SIZE <= Z.of_nat rfuel).

(** A pipe with nothing under way is empty. *)
Lemma idle_queued st0 g : link p st0 [] [] g -> queued (g_mem g) p = 0 /\ v_ep (g_peer g) = st0.
Proof.
  intros H. pose proof (link_sane _ _ _ _ _ H) as Hs. destruct H as [_ _ (rg & sent & flight & E & _ & Hpo & Hc)].
  symmetry in E. apply app_eq_nil in E as [-> ->]. split; [|done]. rewrite <- (length_stream p Hp _ Hs).
  pose proof (ca_bytes _ _ _ _ _ Hc) as Eb. cbn in Eb. apply app_eq_nil in Eb as [_ Eb]. apply app_eq_nil in Eb as [-> _]. done.
Qed.

(** C5. A message of at most one piece crosses machines unchanged. qrtr_sendmsg on
    one machine puts a packet on its transport and returns the length of the
    message. When the transport sends that packet over an idle pipe, while the
    other machine reads at any step, and returns 0, then after the next turn of
    that reader the bytes of the message stand, with the address of the sending
    socket, behind the packets that wait at the socket bound to the port there;
    if none waits, qrtr_recvmsg returns them. The message fits in one linear
    buffer ([linear_len]) and in 65535 bytes, node and port are below 2^31, the
    flow admits it without a confirmation, no allocation fails, and the
    receiving socket is bound and accepts packets ([can_send], [can_take],
    [env_sends], [env_takes]). Longer messages can grow ([long_message_grows]). *)
Theorem message_crosses_machines ea qa s z n x epa m t y to data size f1 g k fuel :
  env_sends ea -> can_send ea qa s z n x epa to data ->
  flow_admit (flow_of (n_tx_flow x) (flow_key (sq_node to) (sq_port to))) = Some (0, f1) ->
  can_take (v_ep (g_peer g)) ep m t y to -> sk_zapped y = false -> sk_err y = 0 ->
  is_bytes data -> data <> [] -> Z.of_nat (length data) <= size ->
  link p (v_ep (g_peer g)) [] [] g -> (2 * (length data + 35) <= fuel)%nat ->
  exists qa' pkt rc g' k',
    qrtr_sendmsg ea s (the_msg to data) (W qa) = Ret (Z.of_nat (length data)) (W qa') /\
    q_log qa' = EvXmit epa pkt 0 :: q_log qa /\
    qrtr_gunyah_send env fuel pkt (mk_world g (replicate k (peer_reads eb rfuel))) = Ret rc (mk_world g' (replicate k' (peer_reads eb rfuel))) /\
    (rc = 0 /\ (exists b, let qb := v_ep (g_peer (peer_reads eb rfuel g')) in
       q_socks qb !! t = Some (y <| sk_receive_queue := sk_receive_queue y ++ [b] |>) /\
       skb_bytes b = data /\ cb_src_node (skb_cb b) = sq_node (us z) /\ cb_src_port (skb_cb b) = sq_port (us z) /\
       (sk_receive_queue y = [] ->
        exists qb', qrtr_recvmsg renv t size true 0 (W qb) = Ret (Ok (mk_received data (us z) false)) (W qb'))) \/
     rc = - ETIMEDOUT /\ (e_timeout env = O \/ k' = O)).
Proof.
  intros (Ha & Hu & Hx) Hs Hf Ht Hz He Hb Hd Hl Hlink Hfuel. destruct Htakes as [Hb' Hr].
  destruct (sendmsg_runs ea Ha qa s z n x epa to data 0 f1 Hu Hs Hf) as (qa' & frags & Es & El); [done|].
  destruct (cs_us _ _ _ _ _ _ _ _ _ Hs) as [Hus _]. destruct (cs_to _ _ _ _ _ _ _ _ _ Hs) as [Hn Hpt].
  destruct (cs_len _ _ _ _ _ _ _ _ _ Hs) as [_ Hlen]. set (pkt := the_pkt s z x to 0 data frags) in *.
  pose proof (length_wire (n_nid x) QRTR_TYPE_DATA (us z) to 0 data) as Lw. pose proof (ALIGN_4_bounds (Z.of_nat (length data))) as A.
  assert (skb_ok pkt) as Hok by (split; [by apply wire_packet|done|apply Nat2Z.is_nonneg|done]).
  destruct (idle_queued _ g Hlink) as [Hq0 _].
  assert (sure (qrtr_gunyah_send env fuel pkt (mk_world g (replicate k (peer_reads eb rfuel)))) (sent_to_peer env eb p rfuel pkt (v_ep (g_peer g)) [])) as Hrun.
  { apply send_reading; try done; [rewrite Hq0; unfold hdr_known, FIFO_SIZE; lia|].
    change (skb_bytes pkt) with (wire (n_nid x) QRTR_TYPE_DATA (us z) to 0 data). lia. }
  apply sure_run in Hrun as (rc & [g' sched] & E & Hsch & Hrc). cbn [w_sched w_st] in *.
  exists qa', pkt, rc, g', (length sched). split; [done|]. split; [done|]. split; [by rewrite E, (sched_replicate eb rfuel sched Hsch) at 1|].
  destruct Hrc as [[-> H']|[-> Hw]]; [left|right; split; [done|]; destruct Hw as [|Hw]; [by left|right; by rewrite Hw]].
  split; [done|]. pose proof (link_delivers eb (EL := router_laws) Hstack p Hp rfuel Hrfuel _ _ g' H') as (ret & st1 & Ep & E1). cbn in E1.
  destruct (endpoint_post_runs renv Hb' _ ep m t y (n_nid x) (us z) to 0 data Ht Hr Hus Hn Hpt Hlen Hd) as (qb1 & fb & Ep' & Hy).
  pose proof (eq_trans (eq_sym Ep') Ep : @eq (outcome qrtr Z) _ _) as E2. injection E2 as _ <-. rewrite E1.
  exists (taken t (us z) to 0 data fb). cbv zeta. split; [exact Hy|]. split; [done|]. split; [done|]. split; [done|]. intros Hq.
  rewrite Hq in Hy. cbn [app] in Hy. destruct (recvmsg_runs renv qb1 t _ (taken t (us z) to 0 data fb) [] size Hy) as [qb2 Er]; [done..|].
  exists qb2. etransitivity; [exact Er|]. cbn. by destruct (us z).
Qed.
End Message.
