(* ===== verification/GunyahDemo.v ===== *)
(** * GunyahDemo: the transport between machines on concrete inputs

    A router that only notes its packets, machines that hold it or the IPC
    router, and the states in which the theorems about the transport are
    applied. *)
From stdpp Require Import prelude gmap list.
From S2P Require Import Prelude.
From S2P Require Import Effects.
From S2P Require Import XArray.
From S2P Require Import Qrtr.
From S2P Require Import QrtrPkt.
From S2P Require Import AfQrtr.
From S2P Require Import QrtrInv.
From S2P Require Import QrtrSafe.
From S2P Require Import QrtrOps.
From S2P Require Import QrtrFlow.
From S2P Require Import QrtrRound.
From S2P Require Import QrtrDemo.
From S2P Require Import GlinkSmem.
From S2P Require Import Gunyah.
From S2P Require Import GunyahRx.
From S2P Require Import GunyahRing.
From S2P Require Import GunyahTurn.
From S2P Require Import GunyahLink.
From S2P Require Import GunyahSend.
From S2P Require Import GunyahSetup.
From S2P Require Import GunyahRouter.
#[local] Open Scope kernel_scope.

(** ** A router that notes its packets, latest first *)

Definition tape : Endpoint :=
  Build_Endpoint (list (list Z)) (fun data => modify (cons data) ;;; mret 0) (mret 0) (mret tt).

Lemma tape_post_ok (data : list Z) (st : @ep_state tape) : True -> is_bytes data -> total (@ep_post tape data (W st)) (fun _ _ => True).
Proof. done. Qed.

Definition tape_laws : EndpointLaws tape := Build_EndpointLaws tape (fun _ => True) tape_post_ok.

(** ** Machines *)

(** Doorbells ring; a wait lasts one turn of others. *)
Definition yes_env : gunyah_env :=
  mk_genv (fun _ => 0) 1 (replicate 32 0) (fun _ => 1) (fun vm _ => Some vm) (fun _ => 0) (fun _ => true) (fun _ => 0) (fun _ => 0).

Lemma yes_stack : stack_ok yes_env.
Proof. split; [apply length_replicate|]. by apply Forall_replicate. Qed.

Definition empty_ring : gunyah_ring := mk_ring (replicate (Z.to_nat MAX_PKT_SZ) 0) 0 0.

Lemma empty_ring_ok : ring_ok empty_ring.
Proof.
  split; cbn [r_buf r_len r_offset empty_ring]; [rewrite length_replicate, Z2Nat.id; done|by apply Forall_replicate|unfold MAX_PKT_SZ; lia|by left].
Qed.

Definition demo_dev (is_master : bool) (tx rx : gunyah_pipe) : qrtr_gunyah_dev := mk_gdev empty_ring 0 is_master 0 true false tx rx.

Definition demo_vm {EP : Endpoint} (d : qrtr_gunyah_dev) (st : ep_state) : vm :=
  mk_vm d st false false true true true true true true [].

(** The master sends over the first pipe. *)
Definition demo_link {EP : Endpoint} (m : mem) (st st' : ep_state) : gstate :=
  mk_g m (demo_vm (demo_dev true (pipe_0 0) (pipe_1 0)) st) (demo_vm (demo_dev false (pipe_1 0) (pipe_0 0)) st').

Lemma demo_idle {EP : Endpoint} {EL : EndpointLaws EP} is_master tx rx st : ep_ok st -> idle_vm (demo_vm (demo_dev is_master tx rx) st).
Proof. intros H. split; [apply empty_ring_ok|done..]. Qed.

Definition zero_mem : mem := fun _ => 0.

Lemma zeros_ok : bytes_ok zero_mem.
Proof. done. Qed.

Lemma demo_link_idle {EP : Endpoint} {EL : EndpointLaws EP} st st' : ep_ok st' -> link (pipe_0 0) st' [] [] (demo_link zero_mem st st').
Proof. intros H. apply (fresh_link (pipe_0 0) (demo_link zero_mem st st')); [apply pipe_0_lay|done|done|by apply demo_idle|done|done]. Qed.

(** ** Reading *)

(** The other machine may put anything where the tail is. *)
Definition scribble {EP : Endpoint} (g : gstate) : gstate := g <| g_mem := wr32 (g_mem g) (p_tail (pipe_1 0)) 4294967295 |>.

Lemma scribble_foreign {EP : Endpoint} {EL : EndpointLaws EP} : foreign scribble.
Proof. intros rg p g []. split; cbn; try done. by apply (bytes_ok_store_le 4). Qed.

Lemma reader_stays_inside_witness :
  safe (@qrtr_gunyah_read tape yes_env 10 (mk_world (@demo_link tape (fun _ => 1) [] []) [scribble; scribble; scribble; scribble]))
    (fun _ w' => exists rg', ring_ok rg' /\ reads (EL := tape_laws) rg' (pipe_1 0) (w_st w')).
Proof.
  apply (@reader_stays_inside tape tape_laws yes_env yes_stack 10 empty_ring (pipe_1 0)).
  - by split.
  - done.
  - apply empty_ring_ok.
  - do 4 (constructor; [apply (@scribble_foreign tape tape_laws)|]). constructor.
Defined.

Lemma ring_zeros p pos n : GlinkSmem.ring zero_mem p pos n = replicate n 0.
Proof. revert pos. induction n as [|n IH]; intros pos; [done|]. cbn. by rewrite IH. Qed.

(** Eight bytes, which are no packet. *)
Definition eight : mem := wr32 zero_mem (p_head (pipe_1 0)) 8.

Lemma eight_no_empty : no_empty (pipe_1 0) eight.
Proof.
  intros pos. unfold span, eight. rewrite ring_wr32, ring_zeros; [vm_compute; congruence|done|]. change (fifo (view (pipe_1 0))) with (p_fifo (pipe_1 0)).
  rewrite (view_length _ (pipe_1_lay 0)). apply (lay_head _ (pipe_1_lay 0)).
Qed.

Lemma reader_ends_witness :
  exists rg' g', @qrtr_gunyah_read tape yes_env 8 (W (@demo_link tape eight [] [])) = Ret tt (W g') /\
    ready (EL := tape_laws) (pipe_1 0) rg' g' /\ v_dbl_lock (g_vm g') = false /\ queued (g_mem g') (pipe_1 0) = 0.
Proof.
  apply (@reader_ends tape tape_laws yes_env yes_stack (pipe_1 0) (pipe_1_lay 0) 8 empty_ring).
  - split; [split; try done; by apply (bytes_ok_store_le 4)|apply empty_ring_ok|]. split; vm_compute; split; congruence.
  - done.
  - apply eight_no_empty.
  - vm_compute. congruence.
Defined.

(** ** Sending *)

(** Four bytes from one socket to another. *)
Definition small_skb : sk_buff := mk_skb None zero_cb (wire 1 QRTR_TYPE_DATA (mk_sq 1 5) (mk_sq 2 6) 0 [1; 2; 3; 4]) 0 [].

Lemma small_skb_ok : skb_ok small_skb.
Proof.
  split; [|done|vm_compute; congruence|done]. apply wire_packet; cbn; [by split; cbn|lia|lia| |lia]. repeat constructor; lia.
Qed.

Definition enough : nat := Z.to_nat FIFO_SIZE.

Lemma enough_ok : FIFO_SIZE <= Z.of_nat enough.
Proof. unfold enough. rewrite Z2Nat.id; done. Qed.

Lemma packet_crosses_witness :
  let reader := @peer_reads tape yes_env enough in let pkt := skb_bytes small_skb in
  exists rc g' n', @qrtr_gunyah_send tape yes_env 72 small_skb (mk_world (@demo_link tape zero_mem [] []) (replicate 3 reader)) =
      Ret rc (mk_world g' (replicate n' reader)) /\
    (rc = 0 /\ link (EL := tape_laws) (pipe_0 0) [] [pkt] [] g' /\ @posted tape [pkt] [] (v_ep (g_peer (reader g'))) \/
     rc = - ETIMEDOUT /\ (1%nat = O \/ n' = O)).
Proof.
  apply (@packet_crosses tape tape_laws yes_env yes_env yes_stack (pipe_0 0) (pipe_0_lay 0) enough enough_ok small_skb small_skb_ok
    ltac:(intros ? ?; cbn; lia) [] [] 72).
  - by apply (@demo_link_idle tape tape_laws).
  - vm_compute. congruence.
  - vm_compute. lia.
Defined.

(** ** Setting up *)

Lemma setup_links_witness :
  let g := mk_g (fun _ => 7) (@demo_vm tape (demo_dev true no_pipe no_pipe) []) (@demo_vm tape (demo_dev false no_pipe no_pipe) []) in
  exists g1 g2, qrtr_gunyah_fifo_init (W g) = Ret tt (W g1) /\ qrtr_gunyah_fifo_init (W (swap g1)) = Ret tt (W (swap g2)) /\
    link (EL := tape_laws) (pipe_0 0) [] [] [] g2 /\ link (EL := tape_laws) (pipe_1 0) [] [] [] (swap g2).
Proof.
  intros g. apply (@setup_links tape tape_laws g 0).
  - reflexivity.
  - reflexivity.
  - reflexivity.
  - reflexivity.
  - intros a. cbn. lia.
  - by apply (@demo_idle tape tape_laws).
  - by apply (@demo_idle tape tape_laws).
Defined.

(** ** The IPC router *)

(** Two processors as two machines. *)
Definition routers : Endpoint := router good_env 7 true.

Definition routers_laws : EndpointLaws routers := router_laws good_env 7 true (demo_env_ok _ _) good_env_takes.

Lemma processor_registered : registered_router 7 (processor 5 1 17000).
Proof. split; [apply reachable_inv, processor_reachable|]. exists 36. vm_compute. reflexivity. Qed.

Lemma message_crosses_machines_witness :
  let reader := @peer_reads routers yes_env enough in
  exists qa' pkt rc g' k',
    qrtr_sendmsg good_env 34 (the_msg (mk_sq 5 17000) [104; 105]) (W (processor 1 5 20000)) = Ret 2 (W qa') /\
    q_log qa' = EvXmit 7 pkt 0 :: q_log (processor 1 5 20000) /\
    @qrtr_gunyah_send routers yes_env 100 pkt
      (mk_world (@demo_link routers zero_mem (processor 1 5 20000) (processor 5 1 17000)) (replicate 2 reader)) =
      Ret rc (mk_world g' (replicate k' reader)) /\
    (rc = 0 /\ (exists qb, qrtr_recvmsg good_env 34 100 true 0 (W (v_ep (g_peer (reader g')))) =
       Ret (Ok (mk_received [104; 105] (us (sock_34 (processor 1 5 20000))) false)) (W qb)) \/
     rc = - ETIMEDOUT /\ (1%nat = O \/ k' = O)).
Proof.
  intros reader. destruct (message_crosses_machines good_env 7 true (demo_env_ok _ _) good_env_takes yes_env yes_env yes_stack (pipe_0 0) (pipe_0_lay 0)
    enough enough_ok good_env (processor 1 5 20000) 34 (sock_34 (processor 1 5 20000)) 36 (node_36 (processor 1 5 20000)) 7 36 34
    (sock_34 (processor 5 1 17000)) (mk_sq 5 17000) [104; 105] 100 (mk_flow 1 0 [])
    (@demo_link routers zero_mem (processor 1 5 20000) (processor 5 1 17000)) 2 100 good_env_sends can_send_34)
    as (qa' & pkt & rc & g' & k' & E1 & E2 & E3 & E4).
  - vm_compute. reflexivity.
  - exact can_take_34.
  - vm_compute. reflexivity.
  - vm_compute. reflexivity.
  - repeat constructor; lia.
  - discriminate.
  - vm_compute. congruence.
  - apply (@demo_link_idle routers routers_laws), processor_registered.
  - vm_compute. lia.
  - exists qa', pkt, rc, g', k'. split; [exact E1|]. split; [exact E2|]. split; [exact E3|].
    destruct E4 as [[E4 (b & _ & _ & _ & _ & R)]|E4]; [left|right; exact E4].
    split; [exact E4|]. apply R. vm_compute. reflexivity.
Defined.
